(* ===== verification/_CoqProject ===== *)
-Q . S2P
Prelude.v
Cutils.v
Utf8.v
DynBuf.v
Exchange.v
RqSort.v
CharRange.v
UnicodeTables.v
UnicodePropTables.v
UnicodeIndex.v
UnicodeRuns.v
UnicodeCase.v
UnicodeProp.v
UnicodeName.v
UnicodePropSpec.v
UnicodeNorm.v
UnicodeNormSpec.v
RegexpExec.v
RegexpLex.v
RegexpParse.v
RegexpText.v
RegexpSafe.v
RegexpBlock.v
RegexpTyped.v
RegexpRange.v
ListHead.v
ListRun.v
Sums.v
GcHeap.v
GcCount.v
GcMark.v
GcRun.v
GcFree.v
GcSpec.v
Alloc.v
Shape.v
ShapeProps.v
ShapeHash.v
ShapeSpec.v
ShapeOps.v
ShapeEdit.v
ShapeDelete.v
ShapeSpecs.v
ShapeRun.v
Equality.v
MapSet.v
MapInv.v
MapOps.v
MapEdit.v
MapIter.v
MapRun.v
Limbs.v
BigFloat.v
BigRound.v
BigOps.v
BigArith.v
BigAdd.v
BigSum.v
BigSumRun.v
BigRun.v
