(* ===== verification/Prelude.v ===== *)
(** * Verification of the C core of quickjs-android

    quickjs-android embeds the QuickJS JavaScript engine (C files under
    src/quickjs-android/src/main/cpp/quickjs/quickjs/) behind a JNI layer and Java
    classes.  This library models the C files as Rocq functions and proves
    them correct.

    ** Conventions

    Machine integers are integers [Z] at their C width: [u32], [s32], ... wrap
    where the C type wraps, [c_int] makes the overflow of a signed expression
    undefined.  An array is a list, a pointer into it an index; [aget], [aset],
    [aread] and [awrite] are undefined out of range.  C functions answer an
    [outcome]: [Ret a] (returns [a]), [Undef] (undefined behaviour, a failed
    assertion, [abort]) or [Fuel] (the fuel of a modelled loop is exhausted).  Loops run
    by [loop] with a fuel that the definition computes from its arguments; a theorem about
    [yields o Q] is total correctness: the code returns, without undefined behaviour, a
    result in [Q], so the fuel is always enough.  The allocator
    is the class [Realloc] (DynBuf.v): an abstract heap that may refuse a request.

    ** The parts

    - Prelude.v: outcomes, machine integers, arrays, loops, automation.
    - Cutils.v, Utf8.v, DynBuf.v, Exchange.v, RqSort.v: cutils.c and cutils.h - integer and string
      helpers, UTF-8, the growable buffer, the byte-level exchange functions and
      the sort behind Array.prototype.sort.
    - ListHead.v, ListRun.v: list.h, intrusive doubly linked lists over a store of nodes; many lists in one store.
    - CharRange.v: libunicode.c, sets of code points as sorted points, shared by the
      property tables and the regular expression compiler.
    - UnicodeTables.v, UnicodePropTables.v: libunicode-table.h as data.
    - UnicodeIndex.v, UnicodeRuns.v, UnicodeCase.v, UnicodeProp.v, UnicodeName.v, UnicodeNorm.v:
      libunicode.c - lookup through an index, case conversion, property names,
      categories, scripts, the property stack machine, normalization.
      UnicodePropSpec.v and UnicodeNormSpec.v hold the theorems of the larger parts.
    - RegexpExec.v: libregexp.c, the instructions and the backtracking matcher: registers (captures, stack of
      integers, stack of saved states) as a record, one function per instruction group, [exec_op] for one
      instruction, [lre_exec_backtrack] for the loop.
    - RegexpLex.v, RegexpParse.v: libregexp.c, the compiler: escapes, digits, group names; then a monad [parser] over
      the parse state (the bytecode buffer of DynBuf.v, the position, the capture counts, the group names) and one function per
      function or label of the source, down to [lre_compile].
    - RegexpText.v: positions of texts of 8-bit and 16-bit characters.  RegexpSafe.v: a type system for bytecode ([typed])
      and the safety of the matcher.  RegexpBlock.v: the shape of emitted code ([block]).
      RegexpTyped.v: what each function of the compiler emits, and the theorems that join compiler and matcher.
      RegexpRange.v: character classes.
    - GcHeap.v: quickjs.c, reference counting and the cycle collector: the heap as a finite map, the lists of the collector, the
      mark function and the finalizer of every class, [free_zero_refcount], [JS_RunGC].  GcCount.v: counting references.
      GcMark.v: what a class marks is what its finalizer releases.  GcRun.v: the passes that count down and up.
      GcFree.v: releasing an object.  GcSpec.v: the theorems.
    - Alloc.v: the allocator of the engine, as a class.  Sums.v: sums over finite maps, for the invariants that count.
    - Shape.v: quickjs.c, objects and shapes: the hash table of shapes, creation, cloning, growth and release of shapes, the search for
      a shape to share, own properties (finding, adding, re-flagging, deleting, compaction, conversion of fast arrays), creation of objects.
      ShapeProps.v: the property table of one shape.  ShapeHash.v: the hash table of shapes.  ShapeSpec.v: the invariant and
      what is kept of other objects.  ShapeOps.v, ShapeEdit.v, ShapeDelete.v: one operation after the other.  ShapeSpecs.v: objects as
      lists of properties.  ShapeRun.v: the specification, the refinement and the theorems.
    - Equality.v: quickjs.c, values, comparison and hash of strings, strict equality, SameValue, SameValueZero, keys of maps.
    - MapSet.v: quickjs.c, Map, Set, WeakMap and WeakSet: records with their locks, the hash table, the methods, the iterators and their finalizer.
      MapInv.v: the invariant.  MapOps.v: releasing and duplicating values, unlocking, the hash table, adding a record.  MapEdit.v: deleting a
      record; looking up, setting and deleting.  MapIter.v: clearing, creating and advancing iterators.  MapRun.v: the specification, the
      refinement, the theorems and the defects.
    - Limbs.v: libbf.c, arrays of 64-bit limbs: addition, subtraction, shifts, multiplication, schoolbook division, each with its value ([val]).
      BigFloat.v: big floats, their special values, rounding.  BigRound.v: what a rounded number is ([rounded]), over dyadic numbers up to equality of
      their values ([dy_eq]).  BigOps.v: comparison, products, quotients.  BigArith.v: that products and quotients are rounded once.
      BigAdd.v: sums and differences.  BigSum.v: cancelled bits, the limbs below and of the result.  BigSumRun.v: that sums are rounded once.
      BigRun.v: the theorems, on concrete allocators as well, and two defects.  A function that writes a number takes its old contents and answers the new ones, in a
      context ([bf_context]) whose [bf_realloc] may refuse any request but to shrink a block.
    ** What the theorems show

    - Sorting: [RqSort.rqsort_spec] (termination, bounds, permutation, order) over the
      byte-level exchanges of [Exchange.exchange_func_spec].
    - Encodings: UTF-8 round trip and canonicity.
    - Buffers and lists: [dbuf_put], [dbuf_insert]; the lists of list.h refine sequences ([ListRun.lists_refine]).
    - Unicode: sets ([cr_op_spec]), property, category and script sets built equal the
      plain reading of the packed tables; lookups by index equal the same reading;
      canonical ordering implements the algorithm of the standard; Hangul round trip.
    - Regular expressions: whatever [lre_compile] returns, under any behaviour of the allocator, is well typed
      ([RegexpTyped.lre_compile_typed]); on well-typed bytecode the matcher never leaves the bytecode, the text, the captures or
      its stack ([RegexpSafe.lre_exec_safe]); together [RegexpTyped.lre_compile_exec_safe].  The hypothesis [heap_bounded] says
      that the allocator grants no block of 2^30 bytes: offsets of the bytecode are 32-bit.  The matcher need not
      terminate on a pattern such as /(?:)*?b/, so its theorems hold for every fuel.  The class instruction
      accepts the characters of the class ([RegexpRange.re_emit_range_matches]).
      Defects of the compiler are proved as facts at the end of RegexpTyped.v.
    - Memory of the engine: with the invariant [GcRun.gc_inv] - every object has as count the number of references to it, from the heap and
      from a list [E] of references outside of it - [GcSpec.JS_RunGC_spec] and [GcSpec.JS_FreeValueRT_spec] say what survives.  The invariant
      excludes every captured variable that is still on a stack, of a running function or of a suspended generator - it speaks of heaps
      whose captured variables are all detached; [GcSpec.JS_RunGC_captured] shows what goes wrong with a suspended generator.
      Weak references and iterators in the middle of a map are modelled but not covered by the invariant.
    - Objects: the invariant [ShapeOps.rt_ok] - every shape has as count its objects, shapes outside of the hash table have one owner, the
      chains of both hash tables hold exactly what they should - is kept by every operation, and [ShapeRun.run_refines] says
      that a client cannot tell the engine from a store of lists of properties ([ShapeRun.add_property_spec],
      [ShapeRun.delete_property_spec], [ShapeRun.JS_NewObjectProtoClass_spec] for single operations).  The class [Malloc] is the
      allocator, which may refuse any request; [MallocBounded] says that it grants no block of 2^29 bytes, since an index of a
      property has 26 bits.
    - Maps: ECMAScript describes a Map as a list of entries that only grows and an iterator as a position in it.  [MapInv.inv] gives every record a position in that
      list and says what holds the record alive; [MapRun.map_refines] says that a safe client, whose values may be iterators over the same map, cannot tell the engine
      from the specification, short of failures for lack of memory.  Safe is a client that uses what it holds, whose keys hash as they compare ([Equality.key_ok]: an integer
      and an equal double do not, [Equality.map_hash_key_double]), and that does not clear a map of which a key or value is an iterator over it ([MapRun.clear_use_after_free]).  Other
      defects are facts at the end of MapRun.v: uses after free in [clear] and [forEach], weak maps that never count down, a table whose size is not a power of two.
    - Big floats: the sum, the difference, the product and the quotient of canonical numbers ([BigArith.bf_ok]: at most 2^40 limbs, exponents up to 2^60) is the
      exact one, rounded once in the mode and to the precision that are asked for, with the status and the special values of IEEE 754
      ([BigRun.bf_add_spec], [BigRun.bf_mul_spec], [BigRun.bf_div_spec]); unless the allocator refuses, when the answer is NaN and BF_ST_MEM_ERROR - but a failed
      copy goes unnoticed ([BigRun.bf_add_copy_lost]).  Faithful rounding of products and precisions behind the radix point of sums and quotients are left out.
      Division of limbs is [BigRun.mp_divnorm_spec].
    ** Not modelled

    - quickjs-libc.c, the command line programs, the JNI layer and the Java classes: bindings of the
      operating system and of Android.
    - unicode_gen.c: the generator of the tables, run at build time; the tables themselves are modelled.
    - libregexp.c: lre_dump_bytecode and the test main only print.
    - libbf.c: number theoretic transforms (a parameter of [bf_mul]), division by Newton iterations (a parameter of [mp_divnorm]), remainders, square
      roots, transcendental functions, conversion to and from text and double, logical operations, decimal numbers.  Limbs are those of 64-bit builds.
    - quickjs.c: the parser, the bytecode compiler and interpreter, strings and atoms as objects, property access through prototypes and exotic objects, the
      other built-in classes.
    - GcHeap.v leaves out what has counts of its own (strings, atoms, array buffers), the list of views of an
      array buffer, and the memory accounting of the allocator; [ref_count] does not wrap.
    - Shape.v leaves out the counts of atoms and of prototypes and the release of values (calls are logged; GcHeap.v models the release), and the
      theorem on creation leaves out arrays, whose length may fail to be added ([ShapeRun.array_length_null]).
    - Equality.v leaves out big floats and big decimals.  In MapSet.v a class test of the receiver and the adder calls of the constructor are left out; the map is
      alive as long as an iterator refers to it (the order of a sweep of the collector is in GcHeap.v).  The array that an iterator over entries answers
      is its elements, each with a reference; the blocks of arrays are not tracked.  The collections that the allocation of an object may trigger are left out here and in Shape.v.  [js_map_forEach] and the weak maps are modelled, with facts,
      but the refinement is about the other operations.
*)

From Stdlib Require Export ZArith Lia.
From stdpp Require Export base tactics option list numbers.

#[global] Open Scope Z_scope.

(** Arithmetic on [Z] is left to [lia], never unfolded by [cbn] or [simpl]. *)
#[global] Arguments Z.eqb : simpl never.
#[global] Arguments Z.leb : simpl never.
#[global] Arguments Z.ltb : simpl never.
#[global] Arguments Z.geb : simpl never.
#[global] Arguments Z.gtb : simpl never.
#[global] Arguments Z.add : simpl never.
#[global] Arguments Z.sub : simpl never.
#[global] Arguments Z.mul : simpl never.
#[global] Arguments Z.opp : simpl never.
#[global] Arguments Z.div : simpl never.
#[global] Arguments Z.modulo : simpl never.
#[global] Arguments Z.pow : simpl never.
#[global] Arguments Z.land : simpl never.
#[global] Arguments Z.lor : simpl never.
#[global] Arguments Z.lxor : simpl never.
#[global] Arguments Z.shiftl : simpl never.
#[global] Arguments Z.shiftr : simpl never.
#[global] Arguments Z.log2 : simpl never.

(** ** Notations: the C bit operators on [Z] *)

Declare Scope c_scope.
Delimit Scope c_scope with C.
Notation "x .& y" := (Z.land x y) (at level 46, left associativity) : c_scope.
Notation "x .^ y" := (Z.lxor x y) (at level 47, left associativity) : c_scope.
Notation "x .| y" := (Z.lor x y) (at level 48, left associativity) : c_scope.
Notation "x >> n" := (Z.shiftr x n) (at level 45, left associativity) : c_scope.
Notation "x << n" := (Z.shiftl x n) (at level 45, left associativity) : c_scope.
#[global] Open Scope c_scope.

(** ** Machine integers *)

(** [wrap n x] is the value of [x] stored in an [n]-bit unsigned integer,
    [sext n x] the value in an [n]-bit two's complement integer. *)
Definition wrap (n x : Z) : Z := x mod 2 ^ n.
Definition sext (n x : Z) : Z := let y := wrap n x in if y <? 2 ^ (n - 1) then y else y - 2 ^ n.

Abbreviation u8 := (wrap 8).
Abbreviation u16 := (wrap 16).
Abbreviation u32 := (wrap 32).
Abbreviation u64 := (wrap 64).
Abbreviation s8 := (sext 8).
Abbreviation s16 := (sext 16).
Abbreviation s32 := (sext 32).
Abbreviation s64 := (sext 64).

Definition UINT32_MAX : Z := 4294967295.
Definition INT32_MAX : Z := 2147483647.

(** The value of a signed [int] expression; overflow is undefined behaviour. *)
Definition int_ok (x : Z) : bool := (- 2147483648 <=? x) && (x <=? INT32_MAX).

(** A C truth value. *)
Definition b2z (b : bool) : Z := if b then 1 else 0.

(** ** Outcomes of C code

    [Ret a]: the code returns [a].  [Undef]: an access outside an array, a
    failed [assert], a call of [abort], a signed overflow.  [Fuel]: the fuel of a modelled loop is
    exhausted; the termination theorems show that it never is. *)
Inductive outcome (A : Type) : Type :=
| Ret (a : A)
| Undef
| Fuel.
Arguments Ret {A} a.
Arguments Undef {A}.
Arguments Fuel {A}.

#[global] Instance outcome_ret : MRet outcome := fun A a => Ret a.
#[global] Instance outcome_bind : MBind outcome := fun A B f o =>
  match o with Ret a => f a | Undef => Undef | Fuel => Fuel end.
#[global] Instance outcome_fmap : FMap outcome := fun A B f o =>
  match o with Ret a => Ret (f a) | Undef => Undef | Fuel => Fuel end.

(** [assert(b)] of C. *)
Definition c_assert (b : bool) : outcome unit := if b then Ret tt else Undef.

Definition c_int (x : Z) : outcome Z := if int_ok x then Ret x else Undef.

(** Status codes: [try s ← f; g] goes on with [g] when the C function [f]
    returns 0 and answers -1 otherwise; the state comes with the status. *)
Definition c_try {S} (o : outcome (Z * S)) (k : S -> outcome (Z * S)) : outcome (Z * S) :=
  r ← o; if r.1 =? 0 then k r.2 else mret (-1, r.2).
Notation "'try' s ← o ; k" := (c_try o (fun s => k))
  (at level 20, s pattern, o at level 100, k at level 200) : c_scope.

(** [yields o Q]: [o] returns, and the result satisfies [Q] (total correctness). *)
Definition yields {A} (o : outcome A) (Q : A -> Prop) : Prop :=
  match o with Ret a => Q a | Undef => False | Fuel => False end.

(** [safe o Q]: no undefined behaviour, and whatever is returned satisfies [Q] (partial
    correctness, for code that may run for ever). *)
Definition safe {A} (o : outcome A) (Q : A -> Prop) : Prop :=
  match o with Ret a => Q a | Undef => False | Fuel => True end.

(** ** Loops

    [loop fuel step s] runs [step] from the state [s] until it answers [inr r]. *)
Fixpoint loop {St R} (fuel : nat) (step : St -> outcome (St + R)) (s : St) : outcome R :=
  match fuel with
  | O => Fuel
  | S f => x ← step s; match x with inl s' => loop f step s' | inr r => Ret r end
  end.

(** ** Arrays: a C array is a list, an index a [Z] *)

Definition zlen {A} (l : list A) : Z := Z.of_nat (length l).

Definition aget {A} (l : list A) (i : Z) : outcome A :=
  if i <? 0 then Undef
  else match l !! Z.to_nat i with Some a => Ret a | None => Undef end.

Definition aset {A} (l : list A) (i : Z) (a : A) : outcome (list A) :=
  if (0 <=? i) && (i <? zlen l) then Ret (<[Z.to_nat i := a]> l) else Undef.

(** [aread l i n]: the cells [l[i], ..., l[i + n - 1]]. *)
Definition aread {A} (l : list A) (i n : Z) : outcome (list A) :=
  if (0 <=? i) && (0 <=? n) && (i + n <=? zlen l)
  then Ret (take (Z.to_nat n) (drop (Z.to_nat i) l)) else Undef.

(** [awrite l i src]: [memcpy] of [src] to [l + i]. *)
Definition awrite {A} (l : list A) (i : Z) (src : list A) : outcome (list A) :=
  if (0 <=? i) && (i + zlen src <=? zlen l)
  then Ret (take (Z.to_nat i) l ++ src ++ drop (Z.to_nat i + length src) l) else Undef.

(** ** Lemmas on outcomes *)

Lemma yields_mono {A} (o : outcome A) (P Q : A -> Prop) :
  yields o P -> (forall a, P a -> Q a) -> yields o Q.
Proof. destruct o; simpl; auto. Qed.

Lemma yields_bind {A B} (o : outcome A) (f : A -> outcome B) (Q : B -> Prop) :
  yields o (fun a => yields (f a) Q) -> yields (o ≫= f) Q.
Proof. by destruct o. Qed.

Lemma yields_bind_inv {A B} (o : outcome A) (f : A -> outcome B) (Q : B -> Prop) :
  yields (o ≫= f) Q -> yields o (fun a => yields (f a) Q).
Proof. by destruct o. Qed.

(** The status of a call is 0 or -1. *)
Definition status_ok (r : Z) : Prop := r = 0 \/ r = -1.

Lemma yields_try {S} (o : outcome (Z * S)) (k : S -> outcome (Z * S)) (Q : Z * S -> Prop) :
  yields o (fun '(r, s) => if r =? 0 then yields (k s) Q else Q (-1, s)) -> yields (c_try o k) Q.
Proof. unfold c_try. destruct o as [[r s]| |]; cbn; try done. by destruct (r =? 0). Qed.

Lemma yields_ret {A} (a : A) (Q : A -> Prop) : Q a -> yields (mret a) Q.
Proof. done. Qed.

Lemma yields_Ret {A} (o : outcome A) (Q : A -> Prop) :
  yields o Q <-> exists a, o = Ret a /\ Q a.
Proof. destruct o; simpl; split; naive_solver eauto. Qed.

Lemma yields_eq {A} (o : outcome A) (a : A) : o = Ret a <-> yields o (fun b => b = a).
Proof. destruct o; simpl; naive_solver. Qed.

Lemma safe_mono {A} (o : outcome A) (P Q : A -> Prop) : safe o P -> (forall a, P a -> Q a) -> safe o Q.
Proof. destruct o; simpl; auto. Qed.

Lemma safe_bind {A B} (o : outcome A) (f : A -> outcome B) (Q : B -> Prop) :
  safe o (fun a => safe (f a) Q) -> safe (o ≫= f) Q.
Proof. by destruct o. Qed.

Lemma yields_safe {A} (o : outcome A) (Q : A -> Prop) : yields o Q -> safe o Q.
Proof. by destruct o. Qed.

Lemma safe_Ret {A} (o : outcome A) (Q : A -> Prop) a : safe o Q -> o = Ret a -> Q a.
Proof. by intros H ->. Qed.

(** An invariant is enough for the safety of a loop. *)
Lemma loop_safe {St R} (step : St -> outcome (St + R)) (I : St -> Prop) (Q : R -> Prop) :
  (forall s, I s -> safe (step s) (fun x => match x with inl s' => I s' | inr r => Q r end)) ->
  forall fuel s, I s -> safe (loop fuel step s) Q.
Proof.
  intros Hstep fuel. induction fuel as [|fuel IH]; intros s HI; [done|].
  cbn [loop]. apply safe_bind. eapply safe_mono; [by apply Hstep|].
  intros [s'|r]; [|done]. intros HI'. by apply IH.
Qed.

(** Total correctness of a loop: an invariant, a measure that decreases. *)
Lemma loop_yields {St R} (step : St -> outcome (St + R)) (I : St -> Prop) (m : St -> nat)
    (Q : R -> Prop) :
  (forall s, I s -> yields (step s) (fun x =>
     match x with inl s' => I s' /\ (m s' < m s)%nat | inr r => Q r end)) ->
  forall fuel s, I s -> (m s < fuel)%nat -> yields (loop fuel step s) Q.
Proof.
  intros Hstep fuel. induction fuel as [|fuel IH]; intros s HI Hm; [lia|].
  cbn [loop]. apply yields_bind. eapply yields_mono; [by apply Hstep|].
  intros [s'|r]; [|done]. intros [HI' Hlt]. apply IH; [done|lia].
Qed.

(** The same rule with an invariant indexed by a bound on the iterations left. *)
Lemma loop_yields_nat {St R} (step : St -> outcome (St + R)) (I : nat -> St -> Prop)
    (Q : R -> Prop) :
  (forall n s, I n s -> yields (step s) (fun x =>
     match x with inl s' => exists n', (n' < n)%nat /\ I n' s' | inr r => Q r end)) ->
  forall fuel n s, I n s -> (n < fuel)%nat -> yields (loop fuel step s) Q.
Proof.
  intros Hstep fuel. induction fuel as [|fuel IH]; intros n s HI Hm; [lia|].
  cbn [loop]. apply yields_bind. eapply yields_mono; [by eapply Hstep|].
  intros [s'|r]; [|done]. intros (n' & Hlt & HI'). apply (IH n'); [done|lia].
Qed.

(** More fuel does not change the result of a loop that returns. *)
Lemma loop_fuel_mono {St R} (step : St -> outcome (St + R)) f1 f2 s r :
  (f1 <= f2)%nat -> loop f1 step s = Ret r -> loop f2 step s = Ret r.
Proof.
  revert f2 s. induction f1 as [|f1 IH]; intros f2 s Hle; [done|].
  destruct f2 as [|f2]; [lia|]. cbn [loop].
  destruct (step s) as [[s'|r']| |]; cbn; try done. apply IH. lia.
Qed.

(** ** Lemmas on machine integers *)

Lemma wrap_range n x : 0 <= n -> 0 <= wrap n x < 2 ^ n.
Proof. intros. apply Z.mod_pos_bound. lia. Qed.

Lemma wrap_small n x : 0 <= x < 2 ^ n -> wrap n x = x.
Proof. intros. by apply Z.mod_small. Qed.

Lemma wrap_wrap n x : 0 <= n -> wrap n (wrap n x) = wrap n x.
Proof. intros. apply wrap_small, wrap_range. done. Qed.

Lemma sext_range n x : 0 < n -> - 2 ^ (n - 1) <= sext n x < 2 ^ (n - 1).
Proof.
  intros Hn. unfold sext. pose proof (wrap_range n x ltac:(lia)) as Hw.
  assert (2 ^ n = 2 * 2 ^ (n - 1)) as E.
  { rewrite <- Z.pow_succ_r by lia. f_equal. lia. }
  destruct (Z.ltb_spec (wrap n x) (2 ^ (n - 1))); lia.
Qed.

Lemma sext_small n x : 0 < n -> - 2 ^ (n - 1) <= x < 2 ^ (n - 1) -> sext n x = x.
Proof.
  intros Hn Hx.
  assert (2 ^ n = 2 * 2 ^ (n - 1)) as E.
  { rewrite <- Z.pow_succ_r by lia. f_equal. lia. }
  unfold sext, wrap. destruct (Z_lt_le_dec x 0) as [Hneg|Hpos].
  - assert (x mod 2 ^ n = x + 2 ^ n) as ->.
    { symmetry. apply (Z.mod_unique_pos _ _ (-1)); lia. }
    destruct (Z.ltb_spec (x + 2 ^ n) (2 ^ (n - 1))); lia.
  - rewrite Z.mod_small by lia. destruct (Z.ltb_spec x (2 ^ (n - 1))); lia.
Qed.

(** Disjoint bits: [|] is [+]. *)
Lemma lor_add n a b : 0 <= n -> 0 <= a < 2 ^ n -> b mod 2 ^ n = 0 -> a .| b = a + b.
Proof.
  intros Hn Ha Hb. symmetry. apply Z.add_nocarry_lor.
  apply Z.bits_inj_iff'. intros i Hi. rewrite Z.land_spec, Z.bits_0.
  destruct (Z_lt_le_dec i n).
  - assert (Z.testbit b i = false) as ->; [|by rewrite andb_false_r].
    rewrite <- (Z.mod_pow2_bits_low b n i) by lia. by rewrite Hb, Z.bits_0.
  - assert (Z.testbit a i = false) as ->; [|done].
    destruct (decide (a = 0)) as [->|]; [by rewrite Z.bits_0|].
    apply Z.bits_above_log2; [lia|].
    apply Z.log2_lt_pow2; [lia|]. apply Z.lt_le_trans with (2 ^ n); [lia|].
    apply Z.pow_le_mono_r; lia.
Qed.

Lemma lor_add' n a b : 0 <= n -> 0 <= a < 2 ^ n -> b mod 2 ^ n = 0 -> b .| a = b + a.
Proof. intros. rewrite Z.lor_comm, (lor_add n); lia. Qed.

Lemma land_ones_mod n m x : 0 <= n -> m = Z.ones n -> x .& m = x mod 2 ^ n.
Proof. intros ? ->. by apply Z.land_ones. Qed.

Lemma shiftr_div n x : 0 <= n -> x >> n = x / 2 ^ n.
Proof. intros. by apply Z.shiftr_div_pow2. Qed.

Lemma shiftl_mul n x : 0 <= n -> x << n = x * 2 ^ n.
Proof. intros. by apply Z.shiftl_mul_pow2. Qed.

(** ** Lemmas on arrays *)

Lemma zlen_nonneg {A} (l : list A) : 0 <= zlen l.
Proof. unfold zlen. lia. Qed.

Lemma zlen_nil {A} : zlen (@nil A) = 0.
Proof. done. Qed.

Lemma zlen_cons {A} (x : A) l : zlen (x :: l) = zlen l + 1.
Proof. unfold zlen. simpl. lia. Qed.

Lemma zlen_app {A} (l1 l2 : list A) : zlen (l1 ++ l2) = zlen l1 + zlen l2.
Proof. unfold zlen. rewrite length_app. lia. Qed.

Lemma aget_lookup {A} (l : list A) (i : Z) (a : A) :
  aget l i = Ret a <-> 0 <= i /\ l !! Z.to_nat i = Some a.
Proof.
  unfold aget. destruct (Z.ltb_spec i 0) as [Hi|Hi].
  - split; [done|lia].
  - destruct (l !! Z.to_nat i) eqn:E; split; naive_solver.
Qed.

Lemma aget_in_range {A} (l : list A) (i : Z) :
  0 <= i < zlen l -> exists a, aget l i = Ret a /\ l !! Z.to_nat i = Some a.
Proof.
  unfold zlen. intros Hi. destruct (lookup_lt_is_Some_2 l (Z.to_nat i)) as [a Ha]; [lia|].
  exists a. split; [|done]. apply aget_lookup. split; [lia|done].
Qed.

Lemma aget_0 {A} (x : A) l : aget (x :: l) 0 = Ret x.
Proof. done. Qed.

Lemma aget_app_l {A} (l1 l2 : list A) i : i < zlen l1 -> aget (l1 ++ l2) i = aget l1 i.
Proof.
  intros. unfold aget. destruct (Z.ltb_spec i 0); [done|].
  unfold zlen in *. by rewrite lookup_app_l by lia.
Qed.

Lemma aget_app_r {A} (l1 l2 : list A) i :
  zlen l1 <= i -> aget (l1 ++ l2) i = aget l2 (i - zlen l1).
Proof.
  intros. unfold aget. pose proof (zlen_nonneg l1).
  destruct (Z.ltb_spec i 0); [lia|]. destruct (Z.ltb_spec (i - zlen l1) 0); [lia|].
  unfold zlen in *. rewrite lookup_app_r by lia. do 2 f_equal.
  replace (Z.to_nat (i - Z.of_nat (length l1))) with (Z.to_nat i - length l1)%nat by lia. done.
Qed.

Lemma awrite_length {A} (l : list A) i src l' :
  awrite l i src = Ret l' -> length l' = length l.
Proof.
  unfold awrite, zlen. case_match eqn:E; [|done]. intros [= <-].
  rewrite !length_app, length_take, length_drop. lia.
Qed.

(** ** Automation *)

Create HintDb qjs discriminated.
Create HintDb zlen.
#[export] Hint Resolve zlen_nonneg yields_ret : qjs.
#[export] Hint Resolve wrap_range : qjs.

(** Splits the boolean comparisons of C conditions, in the goal or a hypothesis. *)
Ltac zbool :=
  repeat match goal with
  | |- context [Z.ltb ?a ?b] => destruct (Z.ltb_spec a b)
  | |- context [Z.leb ?a ?b] => destruct (Z.leb_spec a b)
  | |- context [Z.eqb ?a ?b] => destruct (Z.eqb_spec a b)
  end; cbn [andb orb negb].

(** Linear arithmetic with the lengths of lists. *)
Lemma length_nil_eq {A} : length (@nil A) = 0%nat.
Proof. done. Qed.
Lemma length_cons_eq {A} (x : A) l : length (x :: l) = S (length l).
Proof. done. Qed.
#[export] Hint Rewrite @length_app @length_take @length_drop @length_insert @length_replicate
  @length_nil_eq @length_cons_eq @length_reverse @length_fmap : zlen.
Ltac zlia := unfold zlen in *; autorewrite with zlen in *; lia.

(** ** Array reads and writes in range *)

Lemma awrite_ok {A} (l : list A) i src :
  0 <= i -> i + zlen src <= zlen l ->
  awrite l i src = Ret (take (Z.to_nat i) l ++ src ++ drop (Z.to_nat i + length src) l).
Proof.
  intros. unfold awrite. replace ((0 <=? i) && (i + zlen src <=? zlen l)) with true; [done|].
  symmetry. rewrite andb_true_iff, !Z.leb_le. done.
Qed.

Lemma aread_ok {A} (l : list A) i n :
  0 <= i -> 0 <= n -> i + n <= zlen l ->
  aread l i n = Ret (take (Z.to_nat n) (drop (Z.to_nat i) l)).
Proof.
  intros. unfold aread.
  replace ((0 <=? i) && (0 <=? n) && (i + n <=? zlen l)) with true; [done|].
  symmetry. rewrite !andb_true_iff, !Z.leb_le. done.
Qed.

Lemma aset_ok {A} (l : list A) i a :
  0 <= i < zlen l -> aset l i a = Ret (<[Z.to_nat i := a]> l).
Proof.
  intros. unfold aset. replace ((0 <=? i) && (i <? zlen l)) with true; [done|].
  symmetry. rewrite andb_true_iff, Z.leb_le, Z.ltb_lt. done.
Qed.

Lemma aread_awrite {A} (l : list A) i src l' :
  awrite l i src = Ret l' -> aread l' i (zlen src) = Ret src.
Proof.
  unfold awrite. case_match eqn:E; [|done]. intros [= <-].
  apply andb_true_iff in E as [E1%Z.leb_le E2%Z.leb_le].
  pose proof (zlen_nonneg src). unfold aread.
  assert (zlen (take (Z.to_nat i) l ++ src ++ drop (Z.to_nat i + length src) l) = zlen l) as ->.
  { unfold zlen in *. rewrite !length_app, length_take, length_drop. lia. }
  replace ((0 <=? i) && (0 <=? zlen src) && (i + zlen src <=? zlen l)) with true.
  2:{ symmetry. rewrite !andb_true_iff, !Z.leb_le. lia. }
  f_equal. unfold zlen in *. rewrite drop_app_length'.
  - by rewrite Nat2Z.id, take_app_length.
  - rewrite length_take. lia.
Qed.

Lemma aget_middle {A} (pre rest : list A) x : aget (pre ++ x :: rest) (zlen pre) = Ret x.
Proof.
  apply aget_lookup. split; [zlia|]. unfold zlen. rewrite Nat2Z.id. by apply list_lookup_middle.
Qed.

Lemma aset_middle {A} (pre rest : list A) x y : aset (pre ++ x :: rest) (zlen pre) y = Ret (pre ++ y :: rest).
Proof.
  rewrite aset_ok by zlia. f_equal. unfold zlen. rewrite Nat2Z.id. rewrite insert_app_r_alt by lia.
  by rewrite Nat.sub_diag.
Qed.

Lemma aget_at {A} (pre rest : list A) x i : i = zlen pre -> aget (pre ++ x :: rest) i = Ret x.
Proof. intros ->. apply aget_middle. Qed.

Lemma aset_at {A} (pre rest : list A) x y i : i = zlen pre -> aset (pre ++ x :: rest) i y = Ret (pre ++ y :: rest).
Proof. intros ->. apply aset_middle. Qed.

Lemma aget_awrite {A} (mem : list A) p src mem' k :
  awrite mem p src = Ret mem' -> 0 <= k ->
  aget mem' k = if decide (p <= k < p + zlen src) then aget src (k - p) else aget mem k.
Proof.
  unfold awrite. case_match eqn:E; [|done]. intros [= <-] Hk.
  apply andb_true_iff in E as [E1%Z.leb_le E2%Z.leb_le].
  assert (Hl : zlen (take (Z.to_nat p) mem) = p) by zlia.
  destruct (Z_lt_le_dec k p).
  { rewrite decide_False by lia. rewrite aget_app_l by lia.
    unfold aget. destruct (k <? 0); [done|]. by rewrite lookup_take_lt by lia. }
  rewrite aget_app_r by lia. rewrite Hl.
  destruct (Z_lt_le_dec k (p + zlen src)).
  { rewrite decide_True by lia. by rewrite aget_app_l by lia. }
  rewrite decide_False by lia. rewrite aget_app_r by lia.
  unfold aget. destruct (Z.ltb_spec (k - p - zlen src) 0); [lia|]. destruct (Z.ltb_spec k 0); [lia|].
  rewrite lookup_drop.
  by replace (Z.to_nat p + length src + Z.to_nat (k - p - zlen src))%nat with (Z.to_nat k) by zlia.
Qed.

Lemma aget_aread {A} (mem : list A) p n l k :
  aread mem p n = Ret l -> 0 <= k < n -> aget l k = aget mem (p + k).
Proof.
  unfold aread. case_match eqn:E; [|done]. intros [= <-] Hk.
  rewrite !andb_true_iff, !Z.leb_le in E.
  unfold aget. destruct (Z.ltb_spec k 0); [lia|]. destruct (Z.ltb_spec (p + k) 0); [lia|].
  rewrite lookup_take_lt by lia. rewrite lookup_drop.
  by replace (Z.to_nat p + Z.to_nat k)%nat with (Z.to_nat (p + k)) by lia.
Qed.

Lemma Forall_aread (P : Z -> Prop) mem p n l : Forall P mem -> aread mem p n = Ret l -> Forall P l.
Proof.
  unfold aread. intros H. case_match; [|done]. intros [= <-].
  by apply Forall_take, Forall_drop.
Qed.

Lemma Forall_awrite (P : Z -> Prop) mem p src mem' :
  Forall P mem -> Forall P src -> awrite mem p src = Ret mem' -> Forall P mem'.
Proof.
  unfold awrite. intros H Hs. case_match; [|done]. intros [= <-].
  rewrite !Forall_app. split_and!; auto using Forall_take, Forall_drop.
Qed.

Lemma aget_drop {A} (l : list A) i x : aget l i = Ret x ->
  drop (Z.to_nat i) l = x :: drop (Z.to_nat (i + 1)) l.
Proof.
  intros [Hi Hx]%aget_lookup. rewrite (drop_S _ _ _ Hx). do 2 f_equal. lia.
Qed.

Lemma drop_cons_aget {A} (l : list A) i x l' : 0 <= i -> drop (Z.to_nat i) l = x :: l' ->
  aget l i = Ret x /\ drop (Z.to_nat (i + 1)) l = l' /\ i < zlen l.
Proof.
  intros Hi E. assert (Hx : l !! Z.to_nat i = Some x).
  { rewrite <- (Nat.add_0_r (Z.to_nat i)), <- lookup_drop. by rewrite E. }
  split_and!.
  - by apply aget_lookup.
  - rewrite (drop_S _ _ _ Hx) in E. injection E as <-. f_equal. lia.
  - apply lookup_lt_Some in Hx. zlia.
Qed.

(** [forallz lo hi p]: [p] holds on all the integers from [lo] to [hi - 1]; finite
    checks over a table or a byte are evaluated through it. *)
Fixpoint forallz_from (n : nat) (lo : Z) (p : Z -> bool) : bool :=
  match n with O => true | S m => p lo && forallz_from m (lo + 1) p end.
Definition forallz (lo hi : Z) (p : Z -> bool) : bool := forallz_from (Z.to_nat (hi - lo)) lo p.

Lemma forallz_from_spec n lo p :
  forallz_from n lo p = true -> forall x, lo <= x < lo + Z.of_nat n -> p x = true.
Proof.
  revert lo. induction n as [|n IH]; intros lo H x Hx; [lia|].
  cbn in H. apply andb_true_iff in H as [H1 H2].
  destruct (decide (x = lo)) as [->|]; [done|]. apply (IH (lo + 1)); [done|lia].
Qed.

Lemma forallz_spec lo hi p :
  forallz lo hi p = true -> forall x, lo <= x < hi -> p x = true.
Proof. intros H x Hx. eapply forallz_from_spec; [exact H|lia]. Qed.

(** Replaces a closed term by its value, in the goal. *)
Ltac eval_closed t := let v := eval vm_compute in t in change t with v.

(** ** Lists *)

Lemma filter_all_id {A} (P : A -> Prop) `{forall x, Decision (P x)} (l : list A) : Forall P l -> filter P l = l.
Proof. induction 1 as [|x l Hx Hl IH]; [done|]. rewrite filter_cons_True by done. by rewrite IH. Qed.
