(* ===== verification/Cutils.v ===== *)
(** * cutils.c / cutils.h: scalar helpers, unaligned accesses, C strings

    Integers are [Z] with their wrap-around written out; a byte array is a
    list of bytes (numbers from 0 to 255).  The packed unaligned accesses of
    cutils.h are little-endian reads and writes, as on every Android ABI. *)

From S2P Require Import Prelude.

(** ** min/max and bit counting *)

Definition max_int (a b : Z) : Z := if a >? b then a else b.
Definition min_int (a b : Z) : Z := if a <? b then a else b.
Definition max_uint32 (a b : Z) : Z := if a >? b then a else b.
Definition min_uint32 (a b : Z) : Z := if a <? b then a else b.
Definition max_int64 (a b : Z) : Z := if a >? b then a else b.
Definition min_int64 (a b : Z) : Z := if a <? b then a else b.

(** [__builtin_clz] and its variants: undefined on 0. *)
Definition clz32 (a : Z) : outcome Z := if a =? 0 then Undef else Ret (31 - Z.log2 a).
Definition clz64 (a : Z) : outcome Z := if a =? 0 then Undef else Ret (63 - Z.log2 a).

Fixpoint pos_ctz (p : positive) : Z :=
  match p with xO q => 1 + pos_ctz q | _ => 0 end.
Definition z_ctz (a : Z) : outcome Z :=
  match a with Zpos p => Ret (pos_ctz p) | _ => Undef end.
Definition ctz32 (a : Z) : outcome Z := z_ctz a.
Definition ctz64 (a : Z) : outcome Z := z_ctz a.

(** ** Unaligned little-endian accesses *)

Fixpoint le_combine (l : list Z) : Z :=
  match l with [] => 0 | b :: l => b .| (le_combine l << 8) end.
Fixpoint le_split (n : nat) (v : Z) : list Z :=
  match n with O => [] | S n => u8 v :: le_split n (v >> 8) end.

Definition get_u64 (tab : list Z) (p : Z) : outcome Z := le_combine <$> aread tab p 8.
Definition get_i64 (tab : list Z) (p : Z) : outcome Z := s64 <$> get_u64 tab p.
Definition put_u64 (tab : list Z) (p val : Z) : outcome (list Z) := awrite tab p (le_split 8 val).
Definition get_u32 (tab : list Z) (p : Z) : outcome Z := le_combine <$> aread tab p 4.
Definition get_i32 (tab : list Z) (p : Z) : outcome Z := s32 <$> get_u32 tab p.
Definition put_u32 (tab : list Z) (p val : Z) : outcome (list Z) := awrite tab p (le_split 4 val).
Definition get_u16 (tab : list Z) (p : Z) : outcome Z := le_combine <$> aread tab p 2.
Definition get_i16 (tab : list Z) (p : Z) : outcome Z := s16 <$> get_u16 tab p.
Definition put_u16 (tab : list Z) (p val : Z) : outcome (list Z) := awrite tab p (le_split 2 val).
Definition get_u8 (tab : list Z) (p : Z) : outcome Z := aget tab p.
Definition get_i8 (tab : list Z) (p : Z) : outcome Z := s8 <$> aget tab p.
Definition put_u8 (tab : list Z) (p val : Z) : outcome (list Z) := aset tab p (u8 val).

(** ** Byte swaps *)

Definition bswap16 (x : Z) : Z := u16 ((x >> 8) .| (x << 8)).

Definition bswap32 (v : Z) : Z :=
  u32 (((v .& 0xff000000) >> 24) .| ((v .& 0x00ff0000) >> 8) .|
       ((v .& 0x0000ff00) << 8) .| ((v .& 0x000000ff) << 24)).

Definition bswap64 (v : Z) : Z :=
  u64 (((v .& (0xff << (7 * 8))) >> (7 * 8)) .|
       ((v .& (0xff << (6 * 8))) >> (5 * 8)) .|
       ((v .& (0xff << (5 * 8))) >> (3 * 8)) .|
       ((v .& (0xff << (4 * 8))) >> (1 * 8)) .|
       ((v .& (0xff << (3 * 8))) << (1 * 8)) .|
       ((v .& (0xff << (2 * 8))) << (3 * 8)) .|
       ((v .& (0xff << (1 * 8))) << (5 * 8)) .|
       ((v .& (0xff << (0 * 8))) << (7 * 8))).

(** ** Hexadecimal digits ('0' = 48, 'A' = 65, 'a' = 97) *)

Definition from_hex (c : Z) : Z :=
  if (48 <=? c) && (c <=? 57) then c - 48
  else if (65 <=? c) && (c <=? 70) then c - 65 + 10
  else if (97 <=? c) && (c <=? 102) then c - 97 + 10
  else -1.

(** ** C strings *)

(** [strlen] of the C library: the index of the first zero byte from [p]. *)
Definition c_strlen (mem : list Z) (p : Z) : outcome Z :=
  loop (S (length mem)) (fun q =>
    c ← aget mem q;
    mret (if c =? 0 then inr (q - p) else inl (q + 1))) p.

Definition pstrcpy (buf : list Z) (buf_size : Z) (str : list Z) : outcome (list Z) :=
  if buf_size <=? 0 then mret buf
  else
    st ← loop (S (length str)) (fun st : Z * Z * list Z =>
      let '(p, q, buf) := st in
      c ← aget str p;
      if (c =? 0) || (q >=? buf_size - 1) then mret (inr (q, buf))
      else buf ← aset buf q c; mret (inl (p + 1, q + 1, buf))) (0, 0, buf);
    let '(q, buf) := st in
    aset buf q 0.

(** [pstrcpy] to [buf + len]: the copy sees the tail of the array. *)
Definition pstrcat (buf : list Z) (buf_size : Z) (s : list Z) : outcome (list Z) :=
  len ← c_strlen buf 0;
  if len <? buf_size then
    tl ← pstrcpy (drop (Z.to_nat len) buf) (buf_size - len) s;
    mret (take (Z.to_nat len) buf ++ tl)
  else mret buf.

(** The result is [None] for the return value 0, [Some p] for 1 with [*ptr = str + p]. *)
Definition strstart (str val : list Z) : outcome (option Z) :=
  loop (S (length val)) (fun p =>
    cq ← aget val p;
    if cq =? 0 then mret (inr (Some p))
    else cp ← aget str p;
      mret (if negb (cp =? cq) then inr None else inl (p + 1))) 0.

Definition has_suffix (str suffix : list Z) : outcome bool :=
  len ← c_strlen str 0;
  slen ← c_strlen suffix 0;
  if len >=? slen then
    a ← aread str (len - slen) slen;
    b ← aread suffix 0 slen;
    mret (bool_decide (a = b))
  else mret false.

(** * Properties *)

Definition is_byte (b : Z) : Prop := 0 <= b < 256.
#[export] Instance is_byte_dec b : Decision (is_byte b).
Proof. unfold is_byte. apply _. Defined.

(** ** Little-endian accesses *)

Lemma length_le_split n v : length (le_split n v) = n.
Proof. revert v. induction n; intros; simpl; auto. Qed.

Lemma le_split_bytes n v : Forall is_byte (le_split n v).
Proof.
  revert v. induction n; intros; simpl; constructor; [|done].
  apply (wrap_range 8). lia.
Qed.

Lemma le_combine_cons b l : is_byte b -> le_combine (b :: l) = b + le_combine l * 256.
Proof.
  intros Hb. cbn [le_combine]. rewrite (lor_add 8).
  - rewrite shiftl_mul by lia. done.
  - lia.
  - done.
  - rewrite shiftl_mul by lia. apply Z.mod_mul. lia.
Qed.

Lemma le_combine_range l : Forall is_byte l -> 0 <= le_combine l < 256 ^ zlen l.
Proof.
  induction 1 as [|b l Hb Hl IH]; [by split|].
  rewrite le_combine_cons, zlen_cons by done. rewrite (Z.pow_add_r 256 (zlen l) 1) by zlia.
  unfold is_byte in Hb. rewrite Z.pow_1_r. lia.
Qed.

Lemma le_combine_split n v : le_combine (le_split n v) = v mod 256 ^ Z.of_nat n.
Proof.
  revert v. induction n as [|n IH]; intros v.
  - simpl. by rewrite Z.mod_1_r.
  - cbn [le_split]. rewrite le_combine_cons by (apply (wrap_range 8); lia).
    rewrite IH, shiftr_div by lia. unfold wrap.
    rewrite Nat2Z.inj_succ, Z.pow_succ_r by lia. change (2 ^ 8) with 256.
    rewrite Z.rem_mul_r by (lia || apply Z.pow_pos_nonneg; lia). lia.
Qed.

Lemma le_split_combine l : Forall is_byte l -> le_split (length l) (le_combine l) = l.
Proof.
  induction 1 as [|b l Hb Hl IH]; [done|].
  rewrite le_combine_cons by done. cbn [length le_split]. unfold is_byte in Hb. f_equal.
  - unfold wrap. change (2 ^ 8) with 256. rewrite Z.mod_add by lia. apply Z.mod_small. lia.
  - etransitivity; [|exact IH]. f_equal. rewrite shiftr_div by lia. change (2 ^ 8) with 256.
    rewrite Z.div_add by lia. rewrite Z.div_small by lia. lia.
Qed.

(** Reading back what [put_u16], [put_u32] or [put_u64] stored. *)
Lemma le_read_back n tab p v tab' :
  awrite tab p (le_split n v) = Ret tab' ->
  le_combine <$> aread tab' p (Z.of_nat n) = Ret (v mod 256 ^ Z.of_nat n).
Proof.
  intros H. pose proof (aread_awrite _ _ _ _ H) as R.
  unfold zlen in R. rewrite length_le_split in R. rewrite R. cbn.
  f_equal. apply le_combine_split.
Qed.

(** [bswap32] and [bswap64] reverse the bytes of the little-endian representation. *)
Lemma bswap16_bytes a b : is_byte a -> is_byte b ->
  bswap16 (le_combine [a; b]) = le_combine [b; a].
Proof.
  unfold is_byte, bswap16. intros Ha Hb.
  rewrite !le_combine_cons by done. cbn [le_combine].
  rewrite shiftr_div, shiftl_mul by lia. change (2 ^ 8) with 256.
  rewrite Z.div_add, (Z.div_small a) by lia.
  rewrite (lor_add 8).
  - unfold wrap. change (2 ^ 16) with 65536.
    symmetry. apply (Z.mod_unique_pos _ _ b); lia.
  - lia.
  - lia.
  - apply Z.mod_mul. lia.
Qed.

(** ** C strings *)

(** The array [mem] holds the C string [s] at its start. *)
Definition is_cstr (mem s : list Z) : Prop :=
  exists rest, mem = s ++ 0 :: rest /\ Forall (fun c => c <> 0) s.

Lemma is_cstr_lookup mem s i c :
  is_cstr mem s -> s !! i = Some c -> aget mem (Z.of_nat i) = Ret c /\ c <> 0.
Proof.
  intros (rest & -> & Hs) Hi. split.
  - apply aget_lookup. split; [lia|]. rewrite Nat2Z.id.
    apply lookup_app_l_Some. done.
  - by eapply Forall_lookup in Hs.
Qed.

Lemma is_cstr_end mem s : is_cstr mem s -> aget mem (zlen s) = Ret 0.
Proof.
  intros (rest & -> & Hs). apply aget_lookup. split; [zlia|].
  unfold zlen. rewrite Nat2Z.id. by rewrite lookup_app_r, Nat.sub_diag.
Qed.

Lemma is_cstr_length mem s : is_cstr mem s -> (length s < length mem)%nat.
Proof. intros (rest & -> & _). rewrite length_app. simpl. lia. Qed.

Lemma lookup_lt_ex {A} (l : list A) i : (i < length l)%nat -> exists x, l !! i = Some x.
Proof. intros. by apply lookup_lt_is_Some_2. Qed.

Lemma c_strlen_spec mem s : is_cstr mem s -> c_strlen mem 0 = Ret (zlen s).
Proof.
  intros H. apply yields_eq. unfold c_strlen.
  apply (loop_yields _ (fun q => 0 <= q <= zlen s) (fun q => Z.to_nat (zlen s - q))).
  - intros q Hq. apply yields_bind.
    destruct (decide (q = zlen s)) as [->|Hne].
    + rewrite (is_cstr_end _ _ H). cbn. rewrite Z.eqb_refl. cbn. lia.
    + destruct (lookup_lt_ex s (Z.to_nat q)) as [c Hc]; [zlia|].
      destruct (is_cstr_lookup _ _ _ _ H Hc) as [E Hc0].
      rewrite Z2Nat.id in E by lia. rewrite E. cbn.
      destruct (Z.eqb_spec c 0); [done|]. cbn. lia.
  - pose proof (zlen_nonneg s). lia.
  - pose proof (is_cstr_length _ _ H). zlia.
Qed.

Lemma insert_app_drop {A} (l : list A) pre c i :
  (i < length l)%nat -> length pre = i ->
  <[i := c]> (pre ++ drop i l) = (pre ++ [c]) ++ drop (S i) l.
Proof.
  intros Hi Hp. subst i. rewrite insert_app_r_alt, Nat.sub_diag by lia.
  destruct (lookup_lt_ex l (length pre)) as [x Hx]; [lia|].
  rewrite (drop_S _ _ _ Hx). cbn. by rewrite <- app_assoc.
Qed.

Lemma take_S_r' {A} (l : list A) i x : l !! i = Some x -> take (S i) l = take i l ++ [x].
Proof. apply take_S_r. Qed.

(** [pstrcpy] truncates to [buf_size - 1] bytes, always terminates the result
    with a zero byte and leaves the rest of the buffer alone. *)
Lemma pstrcpy_spec buf buf_size str s :
  is_cstr str s -> 0 < buf_size <= zlen buf ->
  let n := Nat.min (length s) (Z.to_nat (buf_size - 1)) in
  pstrcpy buf buf_size str = Ret (take n s ++ 0 :: drop (S n) buf).
Proof.
  intros Hs Hb n. apply yields_eq. unfold pstrcpy.
  destruct (Z.leb_spec buf_size 0); [lia|]. apply yields_bind.
  eapply yields_mono.
  - apply (loop_yields _ (fun st => st.1.2 = st.1.1 /\ 0 <= st.1.1 <= Z.of_nat n /\
      st.2 = take (Z.to_nat st.1.1) s ++ drop (Z.to_nat st.1.1) buf)
      (fun st => Z.to_nat (Z.of_nat n - st.1.1))
      (fun st => st = (Z.of_nat n, take n s ++ drop n buf))).
    + intros [[p q] b]; cbn. intros (-> & Hp & ->).
      assert (aget str p = Ret (if decide (p = zlen s) then 0 else nth (Z.to_nat p) s 0) /\
        (p <> zlen s -> s !! Z.to_nat p = Some (nth (Z.to_nat p) s 0)) /\
        (p <> zlen s -> nth (Z.to_nat p) s 0 <> 0)) as (E & Hn & Hz).
      { case_decide as Hd.
        - subst p. split_and!; [by apply is_cstr_end|done|done].
        - destruct (lookup_lt_ex s (Z.to_nat p)) as [c Hc]; [zlia|].
          destruct (is_cstr_lookup _ _ _ _ Hs Hc) as [E Hc0].
          rewrite Z2Nat.id in E by lia.
          rewrite (nth_lookup_Some _ _ 0 _ Hc). done. }
      apply yields_bind. rewrite E. cbn. clear E.
      destruct ((_ =? 0) || (p >=? buf_size - 1)) eqn:Et; cbn.
      * assert (p = Z.of_nat n) as ->; [|by rewrite Nat2Z.id].
        apply orb_true_iff in Et as [Et|Et]; [|zlia].
        apply Z.eqb_eq in Et. case_decide; [zlia|]. by destruct Hz.
      * apply orb_false_iff in Et as [Et1 Et2]. apply Z.eqb_neq in Et1.
        case_decide as Hd; [done|]. specialize (Hn Hd).
        assert (Hpl : (Z.to_nat p < length buf)%nat) by zlia.
        assert (Hps : length (take (Z.to_nat p) s) = Z.to_nat p) by (rewrite length_take; zlia).
        apply yields_bind. rewrite aset_ok by (rewrite zlen_app; zlia). cbn.
        split; [|zlia]. split_and!; [done|zlia|zlia|].
        rewrite insert_app_drop by done.
        replace (Z.to_nat (p + 1)) with (S (Z.to_nat p)) by lia.
        by rewrite (take_S_r' _ _ _ Hn).
    + cbn. split_and!; [done|lia|lia|done].
    + cbn. pose proof (is_cstr_length _ _ Hs). lia.
  - intros ? ->. cbn.
    assert (length (take n s) = n) by (rewrite length_take; lia).
    rewrite aset_ok by (rewrite zlen_app; zlia). cbn. rewrite Nat2Z.id.
    rewrite insert_app_drop by (zlia || done). by rewrite <- app_assoc.
Qed.

Lemma strstart_spec str val s v :
  is_cstr str s -> is_cstr val v ->
  strstart str val = Ret (if decide (v `prefix_of` s) then Some (zlen v) else None).
Proof.
  intros Hs Hv. apply yields_eq. unfold strstart.
  apply (loop_yields _ (fun p => 0 <= p <= zlen v /\ p <= zlen s /\
     take (Z.to_nat p) v = take (Z.to_nat p) s) (fun p => Z.to_nat (zlen v - p))).
  - intros p (Hp & Hps & Heq). apply yields_bind.
    destruct (decide (p = zlen v)) as [->|Hne].
    { rewrite (is_cstr_end _ _ Hv). cbn. rewrite Z.eqb_refl. cbn. case_decide as Hd; [done|]. destruct Hd.
      unfold zlen in Heq. rewrite Nat2Z.id, take_ge in Heq by lia. rewrite Heq.
      apply prefix_take. }
    destruct (lookup_lt_ex v (Z.to_nat p)) as [c Hc]; [zlia|].
    destruct (is_cstr_lookup _ _ _ _ Hv Hc) as [E Hc0].
    rewrite Z2Nat.id in E by lia. rewrite E. cbn. destruct (Z.eqb_spec c 0); [done|].
    apply yields_bind.
    destruct (decide (p = zlen s)) as [->|Hne'].
    { rewrite (is_cstr_end _ _ Hs). cbn. destruct (Z.eqb_spec 0 c); [lia|]. cbn.
      case_decide as Hd; [|done]. apply prefix_length in Hd. zlia. }
    destruct (lookup_lt_ex s (Z.to_nat p)) as [d Hd]; [zlia|].
    destruct (is_cstr_lookup _ _ _ _ Hs Hd) as [E' _].
    rewrite Z2Nat.id in E' by lia. rewrite E'. cbn.
    destruct (Z.eqb_spec d c) as [->|Hdc]; cbn.
    + split; [|zlia]. split_and!; [zlia..|].
      replace (Z.to_nat (p + 1)) with (S (Z.to_nat p)) by lia.
      by rewrite (take_S_r' _ _ _ Hc), (take_S_r' _ _ _ Hd), Heq.
    + case_decide as Hpre; [|done]. destruct Hpre as [k ->].
      rewrite lookup_app_l in Hd by zlia. congruence.
  - split_and!; [zlia..|done].
  - pose proof (is_cstr_length _ _ Hv). zlia.
Qed.

Lemma aread_cstr mem s i n :
  is_cstr mem s -> 0 <= i -> 0 <= n -> i + n <= zlen s ->
  aread mem i n = Ret (take (Z.to_nat n) (drop (Z.to_nat i) s)).
Proof.
  intros (rest & -> & _) Hi Hn Hle. rewrite aread_ok by zlia.
  rewrite drop_app_le by zlia. by rewrite take_app_le by zlia.
Qed.

Lemma has_suffix_spec str suffix s v :
  is_cstr str s -> is_cstr suffix v -> has_suffix str suffix = Ret (bool_decide (v `suffix_of` s)).
Proof.
  intros Hs Hv. unfold has_suffix.
  rewrite (c_strlen_spec _ _ Hs), (c_strlen_spec _ _ Hv). cbn.
  destruct (Z.geb_spec (zlen s) (zlen v)) as [Hle|Hlt].
  - rewrite (aread_cstr str s), (aread_cstr suffix v) by (done || zlia). cbn. f_equal.
    apply bool_decide_ext. unfold zlen in *.
    rewrite drop_0, !Nat2Z.id, (take_ge v) by lia.
    rewrite take_ge by (rewrite length_drop; lia).
    replace (Z.to_nat (Z.of_nat (length s) - Z.of_nat (length v)))
      with (length s - length v)%nat by lia.
    split.
    + intros <-. exists (take (length s - length v) s). by rewrite take_drop.
    + intros [k ->]. rewrite length_app.
      by replace (length k + length v - length v)%nat with (length k) by lia;
        rewrite drop_app_length.
  - cbn. f_equal. symmetry. apply bool_decide_false. intros Hd%suffix_length. zlia.
Qed.
