(* ===== verification/Utf8.v ===== *)
(** * cutils.c: UTF-8 encoding and decoding

    [unicode_to_utf8] is the list of the bytes stored in [buf] (its length is
    the value returned by the C function); [unicode_from_utf8] reads from the
    start of an array and answers [None] for -1, [Some (c, n)] for the code
    point [c] with [*pp = p + n]. *)

From S2P Require Import Prelude Cutils.

Definition UTF8_CHAR_LEN_MAX : Z := 6.

Definition unicode_to_utf8 (c : Z) : list Z :=
  if c <? 0x80 then [u8 c]
  else
    let last := [u8 ((c .& 0x3f) .| 0x80)] in
    if c <? 0x800 then u8 ((c >> 6) .| 0xc0) :: last
    else
      let last := u8 (((c >> 6) .& 0x3f) .| 0x80) :: last in
      if c <? 0x10000 then u8 ((c >> 12) .| 0xe0) :: last
      else
        let last := u8 (((c >> 12) .& 0x3f) .| 0x80) :: last in
        if c <? 0x00200000 then u8 ((c >> 18) .| 0xf0) :: last
        else
          let last := u8 (((c >> 18) .& 0x3f) .| 0x80) :: last in
          if c <? 0x04000000 then u8 ((c >> 24) .| 0xf8) :: last
          else if c <? 0x80000000 then
            u8 ((c >> 30) .| 0xfc) :: u8 (((c >> 24) .& 0x3f) .| 0x80) :: last
          else [].

Definition utf8_min_code : list Z := [0x80; 0x800; 0x10000; 0x00200000; 0x04000000].
Definition utf8_first_code_mask : list Z := [0x1f; 0xf; 0x7; 0x3; 0x1].

(** The [switch] on the first byte: the number of continuation bytes. *)
Definition utf8_first_len (c : Z) : option Z :=
  if (0xc0 <=? c) && (c <=? 0xdf) then Some 1
  else if (0xe0 <=? c) && (c <=? 0xef) then Some 2
  else if (0xf0 <=? c) && (c <=? 0xf7) then Some 3
  else if (0xf8 <=? c) && (c <=? 0xfb) then Some 4
  else if (0xfc <=? c) && (c <=? 0xfd) then Some 5
  else None.

(** The loop over the [l] continuation bytes from [p]. *)
Fixpoint utf8_tail (mem : list Z) (p : Z) (l : nat) (c : Z) : outcome (option Z) :=
  match l with
  | O => mret (Some c)
  | S l =>
      b ← aget mem p;
      if (b <? 0x80) || (b >=? 0xc0) then mret None
      else utf8_tail mem (p + 1) l ((c << 6) .| (b .& 0x3f))
  end.

Definition unicode_from_utf8 (mem : list Z) (max_len : Z) : outcome (option (Z * Z)) :=
  c ← aget mem 0;
  if c <? 0x80 then mret (Some (c, 1))
  else match utf8_first_len c with
  | None => mret None
  | Some l =>
      if l >? max_len - 1 then mret None
      else
        mask ← aget utf8_first_code_mask (l - 1);
        r ← utf8_tail mem 1 (Z.to_nat l) (c .& mask);
        match r with
        | None => mret None
        | Some c =>
            min ← aget utf8_min_code (l - 1);
            mret (if c <? min then None else Some (c, l + 1))
        end
  end.

(** * The arithmetic reading of the encoding *)

(** The [n] continuation bytes of [c]. *)
Fixpoint cont_bytes (n : nat) (c : Z) : list Z :=
  match n with
  | O => []
  | S n => ((c / 64 ^ Z.of_nat n) mod 64 + 128) :: cont_bytes n c
  end.

Definition utf8_first_base (l : Z) : Z := nth (Z.to_nat (l - 1)) [0xc0; 0xe0; 0xf0; 0xf8; 0xfc] 0.

(** [utf8_class l lo hi]: the code points from [lo] to [hi - 1] have [l] continuation bytes. *)
Definition utf8_class (l : Z) : Z * Z :=
  nth (Z.to_nat (l - 1)) [(0x80, 0x800); (0x800, 0x10000); (0x10000, 0x200000);
    (0x200000, 0x4000000); (0x4000000, 0x80000000)] (0, 0).

Lemma cont_byte_lor x : (x .& 0x3f) .| 0x80 = x mod 64 + 128.
Proof.
  rewrite (land_ones_mod 6) by done. change (2 ^ 6) with 64.
  rewrite (lor_add 7); [done|lia| |done].
  pose proof (Z.mod_pos_bound x 64). change (2 ^ 7) with 128. lia.
Qed.

Lemma u8_cont x : u8 (x mod 64 + 128) = x mod 64 + 128.
Proof. apply wrap_small. pose proof (Z.mod_pos_bound x 64). change (2 ^ 8) with 256. lia. Qed.

Lemma first_byte_lor n base x :
  0 <= n -> 0 <= x < 2 ^ n -> base mod 2 ^ n = 0 -> base + 2 ^ n <= 256 -> 0 <= base ->
  u8 (x .| base) = base + x.
Proof.
  intros. rewrite (lor_add n) by done. rewrite wrap_small by (change (2 ^ 8) with 256; lia). lia.
Qed.

(** [unicode_to_utf8] on the code points with [l] continuation bytes. *)
Lemma unicode_to_utf8_ascii c : 0 <= c < 0x80 -> unicode_to_utf8 c = [c].
Proof.
  intros. unfold unicode_to_utf8. destruct (Z.ltb_spec c 0x80); [|lia].
  rewrite wrap_small; [done|]. change (2 ^ 8) with 256. lia.
Qed.

Lemma cont_bytes_S n c :
  cont_bytes (S n) c = ((c / 64 ^ Z.of_nat n) mod 64 + 128) :: cont_bytes n c.
Proof. done. Qed.

Lemma unicode_to_utf8_multi l c :
  1 <= l <= 5 -> (utf8_class l).1 <= c < (utf8_class l).2 ->
  unicode_to_utf8 c = (utf8_first_base l + c / 64 ^ l) :: cont_bytes (Z.to_nat l) c.
Proof.
  intros Hl. unfold unicode_to_utf8. rewrite !cont_byte_lor, !u8_cont, !shiftr_div by lia.
  assert (Hdiv : forall n k hi, 0 <= c -> c < hi -> hi = 2 ^ k * 2 ^ n -> 0 <= n -> 0 <= k ->
    0 <= c / 2 ^ k < 2 ^ n).
  { intros n k hi ? ? -> ? ?. pose proof (Z.pow_pos_nonneg 2 k ltac:(lia) ltac:(lia)).
    split; [apply Z.div_pos; lia|apply Z.div_lt_upper_bound; lia]. }
  assert (l = 1 \/ l = 2 \/ l = 3 \/ l = 4 \/ l = 5) as Hcases by lia.
  destruct Hcases as [->|[->|[->|[->| ->]]]];
    repeat match goal with
    | |- context [utf8_class ?k] => eval_closed (utf8_class k)
    | |- context [utf8_first_base ?k] => eval_closed (utf8_first_base k)
    | |- context [Z.to_nat ?k] => eval_closed (Z.to_nat k)
    end; cbn; intros Hc;
    repeat match goal with
    | |- context [Z.ltb c ?k] => destruct (Z.ltb_spec c k); [lia|]
    | |- context [Z.ltb c ?k] => destruct (Z.ltb_spec c k); [|lia]
    end.
  - rewrite (first_byte_lor 5); [|lia|apply (Hdiv 5 6 0x800); (lia || done)|reflexivity || lia..].
    by rewrite Z.div_1_r.
  - rewrite (first_byte_lor 4); [|lia|apply (Hdiv 4 12 0x10000); (lia || done)|reflexivity || lia..].
    by rewrite Z.div_1_r.
  - rewrite (first_byte_lor 3); [|lia|apply (Hdiv 3 18 0x200000); (lia || done)|reflexivity || lia..].
    by rewrite Z.div_1_r.
  - rewrite (first_byte_lor 2); [|lia|apply (Hdiv 2 24 0x4000000); (lia || done)|reflexivity || lia..].
    by rewrite Z.div_1_r.
  - rewrite (first_byte_lor 1); [|lia|apply (Hdiv 1 30 0x80000000); (lia || done)|reflexivity || lia..].
    by rewrite Z.div_1_r.
Qed.

(** ** Decoding *)

Lemma cont_step c x : 0 <= c -> 0 <= x < 64 ->
  (c << 6) .| ((x + 128) .& 0x3f) = c * 64 + x.
Proof.
  intros Hc Hx. rewrite (land_ones_mod 6) by done. change (2 ^ 6) with 64.
  assert ((x + 128) mod 64 = x) as ->.
  { symmetry. apply (Z.mod_unique_pos _ _ 2); lia. }
  rewrite shiftl_mul by lia. change (2 ^ 6) with 64.
  apply (lor_add' 6); [lia|done|]. change (2 ^ 6) with 64. apply Z.mod_mul. lia.
Qed.

Lemma pow64_pos n : 0 < 64 ^ Z.of_nat n.
Proof. apply Z.pow_pos_nonneg; lia. Qed.

Lemma mod_split n c : c mod 64 ^ Z.of_nat (S n) =
  (c / 64 ^ Z.of_nat n) mod 64 * 64 ^ Z.of_nat n + c mod 64 ^ Z.of_nat n.
Proof.
  pose proof (pow64_pos n). rewrite Nat2Z.inj_succ, Z.pow_succ_r by lia.
  rewrite (Z.mul_comm 64), Z.rem_mul_r by lia. lia.
Qed.

Lemma utf8_tail_cont n pre rest c0 c :
  0 <= c0 ->
  utf8_tail (pre ++ cont_bytes n c ++ rest) (zlen pre) n c0 =
    Ret (Some (c0 * 64 ^ Z.of_nat n + c mod 64 ^ Z.of_nat n)).
Proof.
  revert pre c0. induction n as [|n IH]; intros pre c0 Hc0.
  - cbn. rewrite Z.mod_1_r. do 2 f_equal. lia.
  - cbn [utf8_tail cont_bytes]. rewrite <- app_comm_cons, aget_middle. cbn.
    pose proof (Z.mod_pos_bound (c / 64 ^ Z.of_nat n) 64 ltac:(lia)).
    destruct (Z.ltb_spec ((c / 64 ^ Z.of_nat n) mod 64 + 128) 0x80); [lia|].
    destruct (Z.geb_spec ((c / 64 ^ Z.of_nat n) mod 64 + 128) 0xc0); [lia|]. cbn [orb].
    rewrite cont_step by done.
    replace (zlen pre + 1) with (zlen (pre ++ [(c / 64 ^ Z.of_nat n) mod 64 + 128])) by zlia.
    replace (pre ++ (c / 64 ^ Z.of_nat n) mod 64 + 128 :: cont_bytes n c ++ rest) with
      ((pre ++ [(c / 64 ^ Z.of_nat n) mod 64 + 128]) ++ cont_bytes n c ++ rest)
      by by rewrite <- app_assoc.
    rewrite IH by lia. rewrite mod_split.
    rewrite Nat2Z.inj_succ, Z.pow_succ_r by lia. do 2 f_equal. ring.
Qed.

Lemma cont_bytes_add n x v :
  0 <= v < 64 ^ Z.of_nat n -> cont_bytes n (x * 64 ^ Z.of_nat n + v) = cont_bytes n v.
Proof.
  revert x v. induction n as [|n IH]; intros x v Hv; [done|].
  pose proof (pow64_pos n). cbn [cont_bytes].
  rewrite Nat2Z.inj_succ, Z.pow_succ_r in * by lia. f_equal.
  - f_equal. replace (x * (64 * 64 ^ Z.of_nat n) + v) with (v + (x * 64) * 64 ^ Z.of_nat n) by ring.
    rewrite Z.div_add by lia. by rewrite Z.mod_add by lia.
  - rewrite (Z.div_mod v (64 ^ Z.of_nat n)) at 1 2 by lia.
    pose proof (Z.mod_pos_bound v (64 ^ Z.of_nat n) ltac:(lia)).
    replace (x * (64 * 64 ^ Z.of_nat n) +
      (64 ^ Z.of_nat n * (v / 64 ^ Z.of_nat n) + v mod 64 ^ Z.of_nat n))
      with ((x * 64 + v / 64 ^ Z.of_nat n) * 64 ^ Z.of_nat n + v mod 64 ^ Z.of_nat n) by ring.
    rewrite (Z.mul_comm (64 ^ Z.of_nat n) (v / _)).
    by rewrite !IH.
Qed.

Lemma utf8_tail_inv n pre tl c0 r :
  0 <= c0 -> utf8_tail (pre ++ tl) (zlen pre) n c0 = Ret (Some r) ->
  exists v rest, 0 <= v < 64 ^ Z.of_nat n /\ r = c0 * 64 ^ Z.of_nat n + v /\
    tl = cont_bytes n v ++ rest.
Proof.
  revert pre tl c0. induction n as [|n IH]; intros pre tl c0 Hc0.
  { cbn. intros [= <-]. exists 0, tl. split_and!; [lia|lia|lia|done]. }
  cbn [utf8_tail]. destruct tl as [|b tl].
  { rewrite app_nil_r. unfold aget. rewrite lookup_ge_None_2 by (unfold zlen; lia).
    by destruct (zlen pre <? 0). }
  rewrite aget_middle. cbn.
  destruct (Z.ltb_spec b 0x80); [done|]. destruct (Z.geb_spec b 0xc0); [done|]. cbn [orb].
  replace b with ((b - 128) + 128) by lia. rewrite cont_step by lia.
  replace (zlen pre + 1) with (zlen (pre ++ [b - 128 + 128])) by zlia.
  replace (pre ++ b - 128 + 128 :: tl) with ((pre ++ [b - 128 + 128]) ++ tl) by by rewrite <- app_assoc.
  intros H'. apply IH in H' as (v & rest & Hv & -> & ->); [|lia].
  pose proof (pow64_pos n). rewrite Nat2Z.inj_succ, Z.pow_succ_r by lia.
  exists ((b - 128) * 64 ^ Z.of_nat n + v), rest. split_and!; [nia|nia|ring|].
  cbn [cont_bytes]. rewrite cont_bytes_add by done. cbn [app]. f_equal.
  f_equal. rewrite Z.div_add_l, (Z.div_small v), Z.add_0_r by lia.
  symmetry. apply Z.mod_small. lia.
Qed.

(** The first byte of a sequence with [l] continuation bytes. *)
Lemma utf8_first_byte l x : 1 <= l <= 5 -> 0 <= x < 2 ^ (6 - l) ->
  let b := utf8_first_base l + x in
  0x80 <= b < 256 /\ utf8_first_len b = Some l /\
  exists mask, aget utf8_first_code_mask (l - 1) = Ret mask /\ b .& mask = x.
Proof.
  intros Hl Hx.
  pose (chk := fun l => forallz 0 (2 ^ (6 - l)) (fun x => let b := utf8_first_base l + x in
    (0x80 <=? b) && (b <? 256) && bool_decide (utf8_first_len b = Some l) &&
    match aget utf8_first_code_mask (l - 1) with Ret m => Z.land b m =? x | _ => false end)).
  assert (Hc : forallz 1 6 chk = true) by (vm_compute; reflexivity).
  pose proof (forallz_spec _ _ _ Hc l ltac:(lia)) as H1. unfold chk in H1.
  pose proof (forallz_spec _ _ _ H1 x Hx) as H2. cbn zeta in H2. cbn zeta.
  rewrite !andb_true_iff, Z.leb_le, Z.ltb_lt, bool_decide_eq_true in H2.
  destruct H2 as [[[? ?] ?] H2].
  destruct (aget utf8_first_code_mask (l - 1)) as [m| |]; [|done..].
  apply Z.eqb_eq in H2. split_and!; [done..|]. by exists m.
Qed.

Lemma utf8_first_len_inv b l : is_byte b -> utf8_first_len b = Some l ->
  1 <= l <= 5 /\ utf8_first_base l <= b < utf8_first_base l + 2 ^ (6 - l).
Proof.
  unfold is_byte. intros Hb.
  assert (Hc : forallz 0 256 (fun b => match utf8_first_len b with None => true | Some l =>
    (1 <=? l) && (l <=? 5) && (utf8_first_base l <=? b) &&
    (b <? utf8_first_base l + 2 ^ (6 - l)) end) = true) by (vm_compute; reflexivity).
  pose proof (forallz_spec _ _ _ Hc b Hb) as H1. cbn beta in H1. intros E. rewrite E in H1.
  rewrite !andb_true_iff, !Z.leb_le, Z.ltb_lt in H1. lia.
Qed.

Lemma utf8_class_ex c : 0x80 <= c < 0x80000000 ->
  exists l, 1 <= l <= 5 /\ (utf8_class l).1 <= c < (utf8_class l).2.
Proof.
  intros Hc. destruct (Z_lt_le_dec c 0x800); [exists 1; eval_closed (utf8_class 1); cbn; lia|].
  destruct (Z_lt_le_dec c 0x10000); [exists 2; eval_closed (utf8_class 2); cbn; lia|].
  destruct (Z_lt_le_dec c 0x200000); [exists 3; eval_closed (utf8_class 3); cbn; lia|].
  destruct (Z_lt_le_dec c 0x4000000); [exists 4; eval_closed (utf8_class 4); cbn; lia|exists 5; eval_closed (utf8_class 5); cbn; lia].
Qed.

Lemma utf8_class_facts l : 1 <= l <= 5 ->
  aget utf8_min_code (l - 1) = Ret (utf8_class l).1 /\
  (utf8_class l).2 = 2 ^ (6 - l) * 64 ^ l /\ 0x80 <= (utf8_class l).1 /\
  (utf8_class l).2 <= 0x80000000.
Proof.
  intros Hl. assert (l = 1 \/ l = 2 \/ l = 3 \/ l = 4 \/ l = 5) as Hcases by lia.
  destruct Hcases as [->|[->|[->|[->| ->]]]]; by vm_compute.
Qed.

Lemma length_cont_bytes n c : length (cont_bytes n c) = n.
Proof. induction n; simpl; auto. Qed.

Lemma unicode_to_utf8_length c : 0 <= c < 0x80000000 -> 1 <= zlen (unicode_to_utf8 c) <= UTF8_CHAR_LEN_MAX.
Proof.
  intros Hc. unfold UTF8_CHAR_LEN_MAX. destruct (Z_lt_le_dec c 0x80) as [Ha|Ha].
  - rewrite unicode_to_utf8_ascii by lia. vm_compute. split; done.
  - destruct (utf8_class_ex c ltac:(lia)) as (l & Hl & Hcl).
    rewrite (unicode_to_utf8_multi l) by done. rewrite zlen_cons. unfold zlen.
    rewrite length_cont_bytes. lia.
Qed.

(** C29: decoding the encoding of any code point below 2^31 gives the code point back
    and consumes exactly its bytes, whatever follows them. *)
Theorem unicode_utf8_roundtrip c rest max_len :
  0 <= c < 0x80000000 -> zlen (unicode_to_utf8 c) <= max_len ->
  unicode_from_utf8 (unicode_to_utf8 c ++ rest) max_len =
    Ret (Some (c, zlen (unicode_to_utf8 c))).
Proof.
  intros Hc. destruct (Z_lt_le_dec c 0x80) as [Ha|Ha].
  { rewrite unicode_to_utf8_ascii by lia. intros _. unfold unicode_from_utf8. cbn [app]. rewrite aget_0. cbn.
    destruct (Z.ltb_spec c 0x80); [done|lia]. }
  destruct (utf8_class_ex c ltac:(lia)) as (l & Hl & Hcl).
  destruct (utf8_class_facts l Hl) as (Hmin & Hmax & _ & _).
  rewrite (unicode_to_utf8_multi l) by done. intros Hlen.
  assert (H64 : 0 < 64 ^ l) by (apply Z.pow_pos_nonneg; lia).
  destruct (utf8_first_byte l (c / 64 ^ l) Hl) as (Hb & Hfl & mask & Hmask & Hand).
  { split; [apply Z.div_pos; lia|apply Z.div_lt_upper_bound; lia]. }
  assert (Hz : zlen (cont_bytes (Z.to_nat l) c) = l) by (unfold zlen; rewrite length_cont_bytes; lia).
  rewrite zlen_cons, Hz in Hlen. unfold unicode_from_utf8.
  cbn [app]. rewrite aget_0. cbn [mbind outcome_bind].
  destruct (Z.ltb_spec (utf8_first_base l + c / 64 ^ l) 0x80); [lia|].
  rewrite Hfl. destruct (Z.gtb_spec l (max_len - 1)); [lia|].
  rewrite Hmask. cbn [mbind outcome_bind]. rewrite Hand.

  pose proof (utf8_tail_cont (Z.to_nat l) [utf8_first_base l + c / 64 ^ l] rest (c / 64 ^ l) c) as T.
  cbn [app] in T. change (zlen [_]) with 1 in T. rewrite T by (apply Z.div_pos; lia).
  cbn [mbind outcome_bind]. rewrite Hmin. cbn [mbind outcome_bind]. rewrite Z2Nat.id by lia.
  rewrite (Z.mul_comm (c / _)), <- Z.div_mod by lia.
  destruct (Z.ltb_spec c (utf8_class l).1); [lia|]. by rewrite zlen_cons, Hz.
Qed.

(** C30: whatever byte sequence [unicode_from_utf8] accepts is the shortest encoding of
    the code point it returns: overlong forms, stray continuation bytes and sequences
    longer than [max_len] are all rejected. *)
Theorem unicode_from_utf8_canonical mem max_len c n :
  Forall is_byte mem -> 1 <= max_len ->
  unicode_from_utf8 mem max_len = Ret (Some (c, n)) ->
  0 <= c < 0x80000000 /\ n <= max_len /\ n = zlen (unicode_to_utf8 c) /\
  unicode_to_utf8 c `prefix_of` mem.
Proof.
  intros Hm Hmax. unfold unicode_from_utf8.
  destruct mem as [|b tl]; [done|]. apply list.Forall_cons in Hm as [Hb _].
  rewrite aget_0. cbn [mbind outcome_bind].
  destruct (Z.ltb_spec b 0x80) as [Hlt|Hge].
  { intros [= <- <-]. unfold is_byte in Hb. rewrite unicode_to_utf8_ascii by lia.
    split_and!; [lia..|done|]. by exists tl. }
  destruct (utf8_first_len b) as [l|] eqn:Hfl; [|done].
  destruct (Z.gtb_spec l (max_len - 1)) as [|Hl']; [done|].
  destruct (utf8_first_len_inv _ _ Hb Hfl) as [Hl Hbr].
  destruct (utf8_first_byte l (b - utf8_first_base l) Hl ltac:(lia)) as (_ & _ & mask & Hmask & Hand).
  replace (utf8_first_base l + (b - utf8_first_base l)) with b in Hand by lia.
  rewrite Hmask. cbn [mbind outcome_bind]. rewrite Hand.
  destruct (utf8_tail _ _ _ _) as [[r|]| |] eqn:Ht; cbn [mbind outcome_bind]; try done.
  destruct (utf8_class_facts l Hl) as (Hmin & Hcmax & H80 & Hle). rewrite Hmin. cbn [mbind outcome_bind].
  destruct (Z.ltb_spec r (utf8_class l).1); [done|]. intros [= <- <-].
  apply (utf8_tail_inv _ [b] tl) in Ht as (v & rest & Hv & Hr & Htl); [|lia].
  rewrite Z2Nat.id in * by lia.
  assert (H64 : 0 < 64 ^ l) by (apply Z.pow_pos_nonneg; lia).
  assert (Hrl : r < (utf8_class l).2) by (rewrite Hcmax; nia).
  rewrite (unicode_to_utf8_multi l) by lia. rewrite zlen_cons. unfold zlen.
  rewrite length_cont_bytes. split_and!; [lia..|].
  rewrite Hr, Z.div_add_l, (Z.div_small v), Z.add_0_r by lia.
  pose proof (cont_bytes_add (Z.to_nat l) (b - utf8_first_base l) v) as E.
  rewrite Z2Nat.id in E by lia. rewrite E by lia.
  exists rest. rewrite Htl. cbn [app]. f_equal. lia.
Qed.

(** * Witnesses *)

Lemma unicode_utf8_roundtrip_witness :
  unicode_from_utf8 (unicode_to_utf8 0x20AC ++ [65]) 6 = Ret (Some (0x20AC, 3)).
Proof. apply (unicode_utf8_roundtrip 0x20AC [65] 6); [lia|vm_compute; congruence]. Defined.

Lemma unicode_from_utf8_canonical_witness :
  0 <= 0x20AC < 0x80000000 /\ 3 <= 6 /\ 3 = zlen (unicode_to_utf8 0x20AC) /\
  unicode_to_utf8 0x20AC `prefix_of` [0xe2; 0x82; 0xac; 0x41].
Proof.
  apply (unicode_from_utf8_canonical [0xe2; 0x82; 0xac; 0x41] 6).
  - repeat constructor; unfold is_byte; lia.
  - lia.
  - vm_compute. reflexivity.
Defined.
