(* ===== verification/DynBuf.v ===== *)
(** * cutils.c: the dynamic buffer [DynBuf]

    A [DynBuf] holds its whole allocated array [db_buf]; the bytes in use are
    the first [db_size].  The allocator ([realloc_func] with its [opaque]) is
    a parameter: the class [Realloc] gives its state, whether a request of [n]
    bytes succeeds, the release of a block (a request of 0 bytes), and the unspecified bytes of the fresh memory.  [realloc]
    keeps the old content, as the C library documents. *)

From S2P Require Import Prelude Cutils.

Class Realloc := {
  heap : Type;
  heap_request : heap -> Z -> option heap;
  heap_free : heap -> heap;
  heap_junk : heap -> Z -> Z
}.

(** A concrete allocator: requests above [limit] bytes fail, memory is zeroed. *)
Definition limited_heap (limit : Z) : Realloc := {|
  heap := unit;
  heap_request := fun h n => if n <=? limit then Some h else None;
  heap_free := fun h => h;
  heap_junk := fun _ _ => 0
|}.

Section DynBuf.
Context `{Realloc}.

Definition realloc (h : heap) (old : list Z) (n : Z) : option (list Z * heap) :=
  match heap_request h n with
  | None => None
  | Some h' =>
      Some (take (Z.to_nat n) old ++
            map (fun i => u8 (heap_junk h' (Z.of_nat i))) (seq 0 (Z.to_nat n - length old)), h')
  end.

Record DynBuf := MkDynBuf {
  db_buf : list Z;
  db_size : Z;
  db_allocated_size : Z;
  db_error : bool;
  db_opaque : heap
}.

Definition db_set_size (s : DynBuf) (n : Z) : DynBuf :=
  MkDynBuf (db_buf s) n (db_allocated_size s) (db_error s) (db_opaque s).
Definition db_set_buf (s : DynBuf) (b : list Z) : DynBuf :=
  MkDynBuf b (db_size s) (db_allocated_size s) (db_error s) (db_opaque s).

Definition dbuf_init2 (opaque : heap) : DynBuf := MkDynBuf [] 0 0 false opaque.

Definition dbuf_realloc (s : DynBuf) (new_size : Z) : Z * DynBuf :=
  if new_size >? db_allocated_size s then
    if db_error s then (-1, s)
    else
      let size := u64 (db_allocated_size s * 3) / 2 in
      let new_size := if size >? new_size then size else new_size in
      match realloc (db_opaque s) (db_buf s) new_size with
      | None => (-1, MkDynBuf (db_buf s) (db_size s) (db_allocated_size s) true (db_opaque s))
      | Some (new_buf, h) => (0, MkDynBuf new_buf (db_size s) new_size (db_error s) h)
      end
  else (0, s).

Definition dbuf_write (s : DynBuf) (offset : Z) (data : list Z) : outcome (Z * DynBuf) :=
  let end_ := u64 (offset + zlen data) in
  let '(r, s) := dbuf_realloc s end_ in
  if negb (r =? 0) then mret (-1, s)
  else
    buf ← awrite (db_buf s) offset data;
    let s := db_set_buf s buf in
    mret (0, if end_ >? db_size s then db_set_size s end_ else s).

(** The growth shared by [dbuf_put] and [dbuf_put_self]. *)
Definition dbuf_grow (s : DynBuf) (len : Z) : Z * DynBuf :=
  if u64 (db_size s + len) >? db_allocated_size s then dbuf_realloc s (u64 (db_size s + len))
  else (0, s).

Definition dbuf_put (s : DynBuf) (data : list Z) : outcome (Z * DynBuf) :=
  let '(r, s) := dbuf_grow s (zlen data) in
  if negb (r =? 0) then mret (-1, s)
  else
    buf ← awrite (db_buf s) (db_size s) data;
    mret (0, db_set_size (db_set_buf s buf) (u64 (db_size s + zlen data))).

Definition dbuf_put_self (s : DynBuf) (offset len : Z) : outcome (Z * DynBuf) :=
  let '(r, s) := dbuf_grow s len in
  if negb (r =? 0) then mret (-1, s)
  else
    data ← aread (db_buf s) offset len;
    buf ← awrite (db_buf s) (db_size s) data;
    mret (0, db_set_size (db_set_buf s buf) (u64 (db_size s + len))).

Definition dbuf_putc (s : DynBuf) (c : Z) : outcome (Z * DynBuf) := dbuf_put s [u8 c].
Definition dbuf_put_u16 (s : DynBuf) (val : Z) : outcome (Z * DynBuf) := dbuf_put s (le_split 2 val).
Definition dbuf_put_u32 (s : DynBuf) (val : Z) : outcome (Z * DynBuf) := dbuf_put s (le_split 4 val).
Definition dbuf_put_u64 (s : DynBuf) (val : Z) : outcome (Z * DynBuf) := dbuf_put s (le_split 8 val).

(** [str]: the array holding the C string. *)
Definition dbuf_putstr (s : DynBuf) (str : list Z) : outcome (Z * DynBuf) :=
  len ← c_strlen str 0;
  data ← aread str 0 len;
  dbuf_put s data.

(** [out]: what [vsnprintf] formats (without the final zero), from the format
    and the arguments; [vsnprintf] truncates it to the space it is given. *)
Definition dbuf_printf (s : DynBuf) (out : list Z) : outcome (Z * DynBuf) :=
  let len := zlen out in
  if len <? 128 then dbuf_put s out
  else
    let '(r, s) := dbuf_realloc s (u64 (db_size s + len + 1)) in
    if negb (r =? 0) then mret (-1, s)
    else
      let room := db_allocated_size s - db_size s in
      buf ← awrite (db_buf s) (db_size s) (take (Z.to_nat (room - 1)) out ++ [0]);
      mret (0, db_set_size (db_set_buf s buf) (u64 (db_size s + len))).

Definition dbuf_free (s : DynBuf) : DynBuf :=
  MkDynBuf [] 0 0 false (match db_buf s with [] => db_opaque s | _ => heap_free (db_opaque s) end).

(** libregexp.c: insert [len] bytes at position [pos]. *)
Definition dbuf_insert (s : DynBuf) (pos len : Z) : outcome (Z * DynBuf) :=
  let '(r, s) := dbuf_realloc s (u64 (db_size s + len)) in
  if negb (r =? 0) then mret (-1, s)
  else
    data ← aread (db_buf s) pos (db_size s - pos);
    buf ← awrite (db_buf s) (pos + len) data;
    mret (0, db_set_size (db_set_buf s buf) (u64 (db_size s + len))).

(** * Properties *)

(** The invariant: the array is the allocated one, the used part fits in it. *)
Record dbuf_wf (s : DynBuf) : Prop := {
  wf_alloc : zlen (db_buf s) = db_allocated_size s;
  wf_size : 0 <= db_size s <= db_allocated_size s;
  wf_bytes : Forall is_byte (db_buf s)
}.

(** The bytes in use. *)
Definition dbuf_data (s : DynBuf) : list Z := take (Z.to_nat (db_size s)) (db_buf s).

Lemma dbuf_data_length s : dbuf_wf s -> zlen (dbuf_data s) = db_size s.
Proof. intros [? ? _]. unfold dbuf_data. zlia. Qed.

(** Sizes below this bound never wrap around in the growth computations. *)
Definition DBUF_MAX : Z := 2 ^ 62.

Lemma realloc_length h old n buf h' : 0 <= n ->
  realloc h old n = Some (buf, h') -> zlen buf = n.
Proof.
  unfold realloc. intros Hn. destruct (heap_request h n); [|done]. intros [= <- <-].
  unfold zlen. rewrite length_app, length_take, length_map, length_seq. lia.
Qed.

Lemma realloc_prefix h old n buf h' k : k <= n -> k <= zlen old ->
  realloc h old n = Some (buf, h') -> take (Z.to_nat k) buf = take (Z.to_nat k) old.
Proof.
  unfold realloc. intros Hn Hk. destruct (heap_request h n); [|done]. intros [= <- <-].
  rewrite take_app_le by zlia. rewrite take_take. f_equal. lia.
Qed.

Lemma realloc_bytes h old n buf h' : Forall is_byte old ->
  realloc h old n = Some (buf, h') -> Forall is_byte buf.
Proof.
  unfold realloc. intros Hold. destruct (heap_request h n); [|done]. intros [= <- <-].
  apply Forall_app. split; [by apply Forall_take|].
  apply Forall_forall. intros x Hx. apply in_map_iff in Hx as (i & <- & _).
  apply (wrap_range 8). lia.
Qed.

(** [dbuf_realloc] either makes room, keeping the data, or sets [error] and keeps the data. *)
Lemma dbuf_realloc_spec s n :
  dbuf_wf s -> db_allocated_size s <= DBUF_MAX -> 0 <= n <= 2 ^ 63 ->
  let '(r, s') := dbuf_realloc s n in
  dbuf_wf s' /\ dbuf_data s' = dbuf_data s /\ db_size s' = db_size s /\
  db_allocated_size s' <= 2 ^ 63 /\
  ((r = 0 /\ n <= db_allocated_size s' /\ db_allocated_size s <= db_allocated_size s' /\
    db_error s' = db_error s) \/
   (r = -1 /\ db_error s' = true /\ db_buf s' = db_buf s /\
    db_allocated_size s < n /\ (db_error s = false -> exists k, n <= k /\
      heap_request (db_opaque s) k = None))).
Proof.
  intros Hwf Hmax Hn. pose proof Hwf as [Ha Hs Hb]. unfold dbuf_realloc, DBUF_MAX in *.
  destruct (Z.gtb_spec n (db_allocated_size s)) as [Hgt|Hle].
  2:{ split_and!; [done..|lia|]. left. split_and!; [done|lia|lia|done]. }
  destruct (db_error s) eqn:He.
  { split_and!; [done..|lia|]. right. split_and!; [done..|lia|done]. }
  set (size := u64 (db_allocated_size s * 3) / 2).
  set (n' := if size >? n then size else n).
  assert (size <= 2 ^ 63) as Hsz.
  { unfold size. pose proof (wrap_range 64 (db_allocated_size s * 3)).
    apply Z.div_le_upper_bound; lia. }
  assert (n <= n' <= 2 ^ 63) as Hn' by (unfold n'; destruct (Z.gtb_spec size n); lia).
  destruct (realloc (db_opaque s) (db_buf s) n') as [[b h]|] eqn:Er.
  - pose proof (realloc_length _ _ n' _ _ ltac:(lia) Er) as Hl. split_and!.
    + constructor; cbn; [done|lia|by eapply realloc_bytes].
    + unfold dbuf_data. cbn. eapply realloc_prefix; [| |done]; lia.
    + done.
    + cbn. lia.
    + left. cbn. split_and!; [done|lia|lia|done].
  - split_and!; [by constructor|done|done|cbn; lia|]. right. cbn. split_and!; [done|done|done|lia|].
    intros _. exists n'. split; [lia|]. unfold realloc in Er.
    by destruct (heap_request (db_opaque s) n').
Qed.

Lemma wrap64_small x : 0 <= x -> x < 2 ^ 64 -> u64 x = x.
Proof. intros. by apply wrap_small. Qed.

Lemma dbuf_grow_spec s len :
  dbuf_wf s -> db_allocated_size s <= DBUF_MAX -> 0 <= len <= DBUF_MAX ->
  let '(r, s') := dbuf_grow s len in
  dbuf_wf s' /\ dbuf_data s' = dbuf_data s /\ db_size s' = db_size s /\
  db_allocated_size s' <= 2 ^ 63 /\
  ((r = 0 /\ db_size s + len <= db_allocated_size s' /\ db_error s' = db_error s) \/
   (r = -1 /\ db_error s' = true /\ db_buf s' = db_buf s /\
    (db_error s = false -> exists k, heap_request (db_opaque s) k = None))).
Proof.
  intros Hwf Hmax Hlen. pose proof Hwf as [Ha Hs Hb]. unfold dbuf_grow, DBUF_MAX in *.
  rewrite wrap64_small by lia.
  destruct (Z.gtb_spec (db_size s + len) (db_allocated_size s)).
  2:{ split_and!; [done..|lia|]. left. split_and!; [done|lia|done]. }
  pose proof (dbuf_realloc_spec s (db_size s + len) Hwf Hmax ltac:(lia)) as R.
  destruct (dbuf_realloc s (db_size s + len)) as [r s'].
  destruct R as (? & ? & ? & ? & [(? & ? & _ & ?)|(? & ? & ? & _ & Hk)]); split_and!; try done.
  - left. done.
  - right. split_and!; try done. intros He. destruct (Hk He) as (k & _ & ?). by exists k.
Qed.

(** Appending into the room of a well-formed buffer. *)
Lemma dbuf_append_room s data :
  dbuf_wf s -> Forall is_byte data -> db_size s + zlen data <= db_allocated_size s ->
  db_allocated_size s < 2 ^ 64 ->
  exists buf, awrite (db_buf s) (db_size s) data = Ret buf /\
    let s' := db_set_size (db_set_buf s buf) (u64 (db_size s + zlen data)) in
    dbuf_wf s' /\ dbuf_data s' = dbuf_data s ++ data.
Proof.
  intros [Ha Hs Hb] Hd Hle H64. pose proof (zlen_nonneg data).
  rewrite awrite_ok by lia. eexists. split; [done|]. cbn zeta.
  rewrite wrap64_small by lia. split.
  - constructor; cbn; [zlia|lia|]. rewrite !Forall_app. split_and!; [by apply Forall_take|done|].
    by apply Forall_drop.
  - unfold dbuf_data. cbn. rewrite app_assoc, take_app_le by zlia. rewrite take_ge; [done|zlia].
Qed.

(** C32: [dbuf_put] appends the data; if the allocator refuses, it returns -1, records the
    error and leaves the data in use untouched.  The buffer stays well formed. *)
Theorem dbuf_put_spec s data :
  dbuf_wf s -> db_allocated_size s <= DBUF_MAX -> zlen data <= DBUF_MAX -> Forall is_byte data ->
  exists r s', dbuf_put s data = Ret (r, s') /\ dbuf_wf s' /\
  ((r = 0 /\ dbuf_data s' = dbuf_data s ++ data /\ db_error s' = db_error s) \/
   (r = -1 /\ dbuf_data s' = dbuf_data s /\ db_error s' = true /\
    (db_error s = false -> exists k, heap_request (db_opaque s) k = None))).
Proof.
  intros Hwf Hmax Hlen Hd. pose proof (zlen_nonneg data).
  pose proof (dbuf_grow_spec s (zlen data) Hwf Hmax ltac:(lia)) as G. unfold dbuf_put.
  destruct (dbuf_grow s (zlen data)) as [r s1].
  destruct G as (Hwf1 & Hdata & Hsize & H63 & [(-> & Hroom & He)|(-> & He & Hbuf & Hk)]); cbn.
  - destruct (dbuf_append_room s1 data) as (buf & -> & Hwf' & Hdata'); [done|done|lia|lia|].
    cbn. eexists _, _. split; [done|]. split; [done|]. left.
    rewrite Hdata', Hdata. done.
  - eexists _, _. split; [done|]. split; [done|]. by right.
Qed.

(** Once the error is set, a buffer that is full stays as it is. *)
Lemma dbuf_put_error_sticky s data :
  dbuf_wf s -> db_error s = true -> zlen data <= DBUF_MAX -> db_allocated_size s <= DBUF_MAX ->
  db_allocated_size s < db_size s + zlen data -> dbuf_put s data = Ret (-1, s).
Proof.
  intros [Ha Hs Hb] He Hlen Hmax Hfull. pose proof (zlen_nonneg data).
  unfold dbuf_put, dbuf_grow, dbuf_realloc, DBUF_MAX in *. rewrite wrap64_small by lia.
  destruct (Z.gtb_spec (db_size s + zlen data) (db_allocated_size s)); [|lia].
  destruct (Z.gtb_spec (db_size s + zlen data) (db_allocated_size s)); [|lia].
  by rewrite He.
Qed.

(** C33: [dbuf_insert] opens a gap of [len] bytes at [pos], keeping the bytes on both sides. *)
Theorem dbuf_insert_spec s pos len :
  dbuf_wf s -> db_allocated_size s <= DBUF_MAX -> 0 <= len <= DBUF_MAX -> 0 <= pos <= db_size s ->
  exists r s', dbuf_insert s pos len = Ret (r, s') /\ dbuf_wf s' /\
  ((r = 0 /\ db_error s' = db_error s /\ exists gap, zlen gap = len /\
    dbuf_data s' = take (Z.to_nat pos) (dbuf_data s) ++ gap ++ drop (Z.to_nat pos) (dbuf_data s)) \/
   (r = -1 /\ dbuf_data s' = dbuf_data s /\ db_error s' = true)).
Proof.
  intros Hwf Hmax Hlen Hpos. pose proof Hwf as [_ Hs0 _]. unfold dbuf_insert, DBUF_MAX in *.
  rewrite wrap64_small by lia.
  pose proof (dbuf_realloc_spec s (db_size s + len) Hwf Hmax ltac:(lia)) as R.
  destruct (dbuf_realloc s (db_size s + len)) as [r s1].
  destruct R as (Hwf1 & Hdata & Hsize & H63 & [(-> & Hroom & _ & He)|(-> & He & Hbuf & _ & _)]); cbn.
  2:{ eexists _, _. split; [done|]. split; [done|]. by right. }
  pose proof Hwf1 as [Ha1 Hs1 Hb1].
  rewrite aread_ok by lia. cbn. rewrite awrite_ok by zlia. cbn.
  eexists _, _. split; [done|]. rewrite wrap64_small by lia. split.
  - constructor; cbn; [zlia|lia|]. rewrite !Forall_app.
    split_and!; auto using Forall_take, Forall_drop.
  - left. split_and!; [done|done|].
    exists (take (Z.to_nat len) (drop (Z.to_nat pos) (db_buf s1))). split; [zlia|].
    rewrite <- Hdata. unfold dbuf_data. cbn.
    rewrite app_assoc, take_app_le by zlia. rewrite take_ge by zlia.
    rewrite take_take, Nat.min_l by lia.
    replace (Z.to_nat (pos + len)) with (Z.to_nat pos + Z.to_nat len)%nat by lia.
    rewrite <- take_take_drop, <- app_assoc. do 2 f_equal.
    rewrite skipn_firstn_comm. f_equal. lia.
Qed.

(** [dbuf_write] stores [data] at [offset], extending the buffer when it ends past it. *)
Theorem dbuf_write_spec s offset data :
  dbuf_wf s -> db_allocated_size s <= DBUF_MAX -> zlen data <= DBUF_MAX -> Forall is_byte data ->
  0 <= offset <= db_size s ->
  exists r s', dbuf_write s offset data = Ret (r, s') /\ dbuf_wf s' /\
  ((r = 0 /\ dbuf_data s' = take (Z.to_nat offset) (dbuf_data s) ++ data ++
      drop (Z.to_nat offset + length data) (dbuf_data s)) \/
   (r = -1 /\ dbuf_data s' = dbuf_data s /\ db_error s' = true)).
Proof.
  intros Hwf Hmax Hlen Hd Hoff. pose proof (zlen_nonneg data). pose proof Hwf as [_ Hs0 _].
  unfold dbuf_write, DBUF_MAX in *. rewrite wrap64_small by lia.
  pose proof (dbuf_realloc_spec s (offset + zlen data) Hwf Hmax ltac:(lia)) as R.
  destruct (dbuf_realloc s (offset + zlen data)) as [r s1].
  destruct R as (Hwf1 & Hdata & Hsize & H63 & [(-> & Hroom & _ & He)|(-> & He & Hbuf & _ & _)]); cbn.
  2:{ eexists _, _. split; [done|]. split; [done|]. by right. }
  pose proof Hwf1 as [Ha1 Hs1 Hb1]. rewrite awrite_ok by lia. cbn.
  eexists _, _. split; [done|]. rewrite <- Hdata. unfold dbuf_data.
  assert (Forall is_byte (take (Z.to_nat offset) (db_buf s1) ++ data ++
    drop (Z.to_nat offset + length data) (db_buf s1))).
  { rewrite !Forall_app. split_and!; auto using Forall_take, Forall_drop. }
  destruct (Z.gtb_spec (offset + zlen data) (db_size s1)) as [Hext|Hin].
  - split; [constructor; cbn; [zlia|lia|done]|]. left. split; [done|]. cbn.
    rewrite app_assoc, take_app_le by zlia. rewrite take_ge by zlia.
    rewrite take_take, Nat.min_l by lia. rewrite (drop_ge (take _ _)) by zlia.
    by rewrite app_nil_r.
  - split; [constructor; cbn; [zlia|lia|done]|]. left. split; [done|]. cbn.
    rewrite take_take, Nat.min_l by lia.
    rewrite !take_app. rewrite take_ge by zlia. f_equal.
    rewrite take_ge by zlia. f_equal. rewrite skipn_firstn_comm. f_equal. zlia.
Qed.
End DynBuf.

(** * Witnesses *)

Definition empty_dbuf : @DynBuf (limited_heap 100) := @dbuf_init2 (limited_heap 100) tt.

Lemma empty_dbuf_wf : dbuf_wf empty_dbuf.
Proof. constructor; cbn; [done|lia|constructor]. Qed.

Definition three_bytes : @DynBuf (limited_heap 100) :=
  @MkDynBuf (limited_heap 100) [1; 2; 3; 0] 3 4 false tt.

Lemma three_bytes_wf : dbuf_wf three_bytes.
Proof. constructor; cbn; [done|lia|]. repeat constructor; unfold is_byte; lia. Qed.

Lemma dbuf_put_spec_witness :
  exists r s', dbuf_put three_bytes [7; 8] = Ret (r, s') /\ dbuf_wf s' /\
  ((r = 0 /\ dbuf_data s' = dbuf_data three_bytes ++ [7; 8] /\ db_error s' = db_error three_bytes) \/
   (r = -1 /\ dbuf_data s' = dbuf_data three_bytes /\ db_error s' = true /\
    (db_error three_bytes = false -> exists k, @heap_request (limited_heap 100) (db_opaque three_bytes) k = None))).
Proof.
  apply (dbuf_put_spec three_bytes [7; 8]).
  - apply three_bytes_wf.
  - vm_compute. congruence.
  - vm_compute. congruence.
  - repeat constructor; unfold is_byte; lia.
Defined.

Lemma dbuf_insert_spec_witness :
  exists r s', dbuf_insert three_bytes 1 4 = Ret (r, s') /\ dbuf_wf s' /\
  ((r = 0 /\ db_error s' = db_error three_bytes /\ exists gap, zlen gap = 4 /\
    dbuf_data s' = take 1 (dbuf_data three_bytes) ++ gap ++ drop 1 (dbuf_data three_bytes)) \/
   (r = -1 /\ dbuf_data s' = dbuf_data three_bytes /\ db_error s' = true)).
Proof.
  apply (dbuf_insert_spec three_bytes 1 4).
  - apply three_bytes_wf.
  - vm_compute. congruence.
  - split; [lia|vm_compute; congruence].
  - cbn. lia.
Defined.
