(* ===== verification/Exchange.v ===== *)
(** * cutils.c: the byte-level exchange functions of [rqsort]

    [rqsort] exchanges elements through a function chosen by the size of the
    elements and the alignment of the array.  Here each variant is translated
    on a byte array; [exchange_func_spec] shows that whatever the choice, the
    two blocks are swapped.  The sort itself (RqSort.v) exchanges whole
    elements. *)

From S2P Require Import Prelude Cutils.

(** A little-endian word of [w] bytes. *)
Definition get_word (w : nat) (mem : list Z) (p : Z) : outcome Z :=
  le_combine <$> aread mem p (Z.of_nat w).
Definition put_word (w : nat) (mem : list Z) (p v : Z) : outcome (list Z) :=
  awrite mem p (le_split w v).

(** [t = *ap; *ap = *bp; *bp = t] on words of [w] bytes. *)
Definition exchange_word (w : nat) (mem : list Z) (ap bp : Z) : outcome (list Z) :=
  t ← get_word w mem ap;
  u ← get_word w mem bp;
  mem ← put_word w mem ap u;
  put_word w mem bp t.

(** The [for] loops over [n] words: [*ap++], [*bp++]. *)
Fixpoint exchange_words (w n : nat) (mem : list Z) (ap bp : Z) : outcome (list Z) :=
  match n with
  | O => mret mem
  | S n =>
      mem ← exchange_word w mem ap bp;
      exchange_words w n mem (ap + Z.of_nat w) (bp + Z.of_nat w)
  end.

Definition exchange_bytes (mem : list Z) (a b size : Z) : outcome (list Z) :=
  exchange_words 1 (Z.to_nat size) mem a b.
Definition exchange_one_byte (mem : list Z) (a b size : Z) : outcome (list Z) :=
  exchange_word 1 mem a b.
Definition exchange_int16s (mem : list Z) (a b size : Z) : outcome (list Z) :=
  exchange_words 2 (Z.to_nat (size / 2)) mem a b.
Definition exchange_one_int16 (mem : list Z) (a b size : Z) : outcome (list Z) :=
  exchange_word 2 mem a b.
Definition exchange_int32s (mem : list Z) (a b size : Z) : outcome (list Z) :=
  exchange_words 4 (Z.to_nat (size / 4)) mem a b.
Definition exchange_one_int32 (mem : list Z) (a b size : Z) : outcome (list Z) :=
  exchange_word 4 mem a b.
Definition exchange_int64s (mem : list Z) (a b size : Z) : outcome (list Z) :=
  exchange_words 8 (Z.to_nat (size / 8)) mem a b.
Definition exchange_one_int64 (mem : list Z) (a b size : Z) : outcome (list Z) :=
  exchange_word 8 mem a b.

(** Two 64-bit words at once: both are read before any is written. *)
Definition exchange_one_int128 (mem : list Z) (a b size : Z) : outcome (list Z) :=
  t ← get_word 8 mem a;
  u ← get_word 8 mem (a + 8);
  v ← get_word 8 mem b;
  mem ← put_word 8 mem a v;
  w ← get_word 8 mem (b + 8);
  mem ← put_word 8 mem (a + 8) w;
  mem ← put_word 8 mem b t;
  put_word 8 mem (b + 8) u.

Fixpoint exchange_int128_loop (n : nat) (mem : list Z) (ap bp : Z) : outcome (list Z) :=
  match n with
  | O => mret mem
  | S n =>
      mem ← exchange_one_int128 mem ap bp 16;
      exchange_int128_loop n mem (ap + 16) (bp + 16)
  end.
Definition exchange_int128s (mem : list Z) (a b size : Z) : outcome (list Z) :=
  exchange_int128_loop (Z.to_nat (size / 16)) mem a b.

Definition exchange_func (base size : Z) : list Z -> Z -> Z -> Z -> outcome (list Z) :=
  let k := (base .| size) .& 15 in
  if k =? 0 then if size =? 16 then exchange_one_int128 else exchange_int128s
  else if k =? 8 then if size =? 8 then exchange_one_int64 else exchange_int64s
  else if (k =? 4) || (k =? 12) then if size =? 4 then exchange_one_int32 else exchange_int32s
  else if (k =? 2) || (k =? 6) || (k =? 10) || (k =? 14) then
    if size =? 2 then exchange_one_int16 else exchange_int16s
  else if size =? 1 then exchange_one_byte else exchange_bytes.

(** * The blocks are swapped *)

(** [mem'] is [mem] with the [n] bytes at [a] and at [b] exchanged. *)
Definition swapped (n a b : Z) (mem mem' : list Z) : Prop :=
  length mem' = length mem /\ Forall is_byte mem' /\
  forall k, 0 <= k < zlen mem ->
    aget mem' k = if decide (a <= k < a + n) then aget mem (k - a + b)
                  else if decide (b <= k < b + n) then aget mem (k - b + a)
                  else aget mem k.

(** The two blocks are in the array, and disjoint or the same. *)
Definition blocks_ok (n a b : Z) (mem : list Z) : Prop :=
  0 <= a /\ 0 <= b /\ a + n <= zlen mem /\ b + n <= zlen mem /\
  (a = b \/ a + n <= b \/ b + n <= a).

(** A word read from bytes and written elsewhere moves the bytes. *)
Lemma get_word_ok w mem p : Forall is_byte mem -> 0 <= p -> p + Z.of_nat w <= zlen mem ->
  exists v l, get_word w mem p = Ret v /\ aread mem p (Z.of_nat w) = Ret l /\
    le_split w v = l /\ zlen l = Z.of_nat w /\ Forall is_byte l.
Proof.
  intros Hm Hp Hle. unfold get_word. rewrite aread_ok by lia. cbn.
  set (l := take _ _). assert (Forall is_byte l) as Hl by (by apply Forall_take, Forall_drop).
  assert (length l = w) as Hlen by (unfold l; zlia).
  exists (le_combine l), l. split_and!; [done|done| |unfold zlen; lia|done].
  rewrite <- Hlen at 1. by apply le_split_combine.
Qed.

Lemma put_word_ok w mem p v :
  Forall is_byte mem -> 0 <= p -> p + Z.of_nat w <= zlen mem ->
  exists mem', put_word w mem p v = Ret mem' /\ length mem' = length mem /\ Forall is_byte mem' /\
    (forall k, 0 <= k -> aget mem' k =
       if decide (p <= k < p + Z.of_nat w) then aget (le_split w v) (k - p) else aget mem k).
Proof.
  intros Hm Hp Hle. unfold put_word. pose proof (length_le_split w v).
  rewrite awrite_ok by (unfold zlen in *; lia). eexists. split; [done|].
  assert (awrite mem p (le_split w v) = Ret (take (Z.to_nat p) mem ++ le_split w v ++
    drop (Z.to_nat p + length (le_split w v)) mem)) as E by (apply awrite_ok; unfold zlen in *; lia).
  split_and!.
  - by apply awrite_length in E.
  - eapply Forall_awrite; [exact Hm|apply le_split_bytes|exact E].
  - intros k Hk. rewrite (aget_awrite _ _ _ _ _ E Hk). unfold zlen. by rewrite length_le_split.
Qed.

Lemma exchange_word_spec w mem a b :
  Forall is_byte mem -> blocks_ok (Z.of_nat w) a b mem ->
  exists mem', exchange_word w mem a b = Ret mem' /\ swapped (Z.of_nat w) a b mem mem'.
Proof.
  intros Hm (Ha & Hb & Hae & Hbe & Hd). unfold exchange_word.
  destruct (get_word_ok w mem a Hm Ha Hae) as (t & lt & -> & Rt & St & _ & _). cbn.
  destruct (get_word_ok w mem b Hm Hb Hbe) as (u & lu & -> & Ru & Su & _ & _). cbn.
  destruct (put_word_ok w mem a u Hm Ha Hae) as (m1 & -> & L1 & B1 & G1). cbn.
  destruct (put_word_ok w m1 b t B1 Hb) as (m2 & -> & L2 & B2 & G2); [zlia|].
  exists m2. split; [done|]. split_and!; [lia|done|].
  intros k Hk. rewrite G2, G1 by lia. rewrite St, Su.
  repeat case_decide; try lia; try done.
  all: first [rewrite (aget_aread _ _ _ _ _ Rt) by lia | rewrite (aget_aread _ _ _ _ _ Ru) by lia];
    f_equal; lia.
Qed.

Lemma swapped_app n k a b m m1 m2 :
  0 <= n -> 0 <= k -> blocks_ok (n + k) a b m ->
  swapped n a b m m1 -> swapped k (a + n) (b + n) m1 m2 -> swapped (n + k) a b m m2.
Proof.
  intros Hn Hk (Ha & Hb & Hae & Hbe & Hd) (L1 & B1 & G1) (L2 & B2 & G2).
  split_and!; [lia|done|]. intros i Hi.
  assert (zlen m1 = zlen m) as Lz by zlia.
  rewrite G2 by lia.
  repeat case_decide; try lia; rewrite G1 by lia; repeat case_decide; try lia; try done; f_equal; lia.
Qed.

Lemma swapped_nil a b m : Forall is_byte m -> swapped 0 a b m m.
Proof. intros. split_and!; [done|done|]. intros. by rewrite !decide_False by lia. Qed.

Lemma blocks_ok_mono n n' a b m m' :
  0 <= n <= n' -> length m' = length m -> blocks_ok n' a b m -> blocks_ok n a b m'.
Proof. unfold blocks_ok, zlen. intros ? ->. lia. Qed.

Lemma blocks_ok_tail n k a b m m' :
  0 <= n -> 0 <= k -> length m' = length m -> blocks_ok (n + k) a b m ->
  blocks_ok k (a + n) (b + n) m'.
Proof. unfold blocks_ok, zlen. intros ? ? ->. lia. Qed.

Lemma exchange_words_spec w n mem a b :
  Forall is_byte mem -> blocks_ok (Z.of_nat (w * n)) a b mem ->
  exists mem', exchange_words w n mem a b = Ret mem' /\ swapped (Z.of_nat (w * n)) a b mem mem'.
Proof.
  revert mem a b. induction n as [|n IH]; intros mem a b Hm Hok.
  { exists mem. split; [done|]. rewrite Nat.mul_0_r. by apply swapped_nil. }
  replace (Z.of_nat (w * S n)) with (Z.of_nat w + Z.of_nat (w * n)) in * by lia.
  cbn [exchange_words].
  destruct (exchange_word_spec w mem a b Hm) as (m1 & -> & S1).
  { eapply blocks_ok_mono; [|done|exact Hok]. lia. }
  cbn [mbind outcome_bind]. pose proof S1 as (L1 & B1 & _).
  destruct (IH m1 (a + Z.of_nat w) (b + Z.of_nat w) B1) as (m2 & -> & S2).
  { eapply blocks_ok_tail; [| |exact L1|exact Hok]; lia. }
  exists m2. split; [done|]. eapply swapped_app; [lia|lia|done..].
Qed.

Lemma exchange_one_int128_spec mem a b size :
  Forall is_byte mem -> blocks_ok 16 a b mem ->
  exists mem', exchange_one_int128 mem a b size = Ret mem' /\ swapped 16 a b mem mem'.
Proof.
  intros Hm (Ha & Hb & Hae & Hbe & Hd). unfold exchange_one_int128.
  destruct (get_word_ok 8 mem a Hm Ha) as (t & lt & -> & Rt & St & _ & _); [lia|]. cbn.
  destruct (get_word_ok 8 mem (a + 8) Hm) as (u & lu & -> & Ru & Su & _ & _); [lia..|]. cbn.
  destruct (get_word_ok 8 mem b Hm Hb) as (v & lv & -> & Rv & Sv & _ & _); [lia|]. cbn.
  destruct (put_word_ok 8 mem a v Hm Ha) as (m1 & -> & L1 & B1 & G1); [lia|]. cbn.
  destruct (get_word_ok 8 m1 (b + 8) B1) as (w & lw & -> & Rw & Sw & _ & _); [zlia..|]. cbn.
  destruct (put_word_ok 8 m1 (a + 8) w B1) as (m2 & -> & L2 & B2 & G2); [zlia..|]. cbn.
  destruct (put_word_ok 8 m2 b t B2) as (m3 & -> & L3 & B3 & G3); [zlia..|]. cbn.
  destruct (put_word_ok 8 m3 (b + 8) u B3) as (m4 & -> & L4 & B4 & G4); [zlia..|].
  exists m4. split; [done|]. split_and!; [lia|done|].
  intros k Hk. rewrite G4, G3, G2, G1 by lia. change (Z.of_nat 8) with 8 in *.
  rewrite St, Su, Sv, Sw.
  assert (forall j, 0 <= j < 8 -> aget lw j = if decide (a <= b + 8 + j < a + 8) then aget lv (b + 8 + j - a)
    else aget mem (b + 8 + j)) as Ew.
  { intros j Hj. rewrite (aget_aread _ _ _ _ _ Rw) by lia. rewrite G1 by lia. by rewrite Sv. }
  repeat case_decide; try lia; try done.
  all: rewrite ?Ew by lia; repeat case_decide; try lia.
  all: first [rewrite (aget_aread _ _ _ _ _ Rt) by lia | rewrite (aget_aread _ _ _ _ _ Ru) by lia
    | rewrite (aget_aread _ _ _ _ _ Rv) by lia | idtac]; f_equal; lia.
Qed.

Lemma exchange_int128_loop_spec n mem a b :
  Forall is_byte mem -> blocks_ok (Z.of_nat (16 * n)) a b mem ->
  exists mem', exchange_int128_loop n mem a b = Ret mem' /\ swapped (Z.of_nat (16 * n)) a b mem mem'.
Proof.
  revert mem a b. induction n as [|n IH]; intros mem a b Hm Hok.
  { exists mem. split; [done|]. by apply swapped_nil. }
  replace (Z.of_nat (16 * S n)) with (16 + Z.of_nat (16 * n)) in * by lia.
  cbn [exchange_int128_loop].
  destruct (exchange_one_int128_spec mem a b 16 Hm) as (m1 & -> & S1).
  { eapply blocks_ok_mono; [|done|exact Hok]. lia. }
  cbn [mbind outcome_bind]. pose proof S1 as (L1 & B1 & _).
  destruct (IH m1 (a + 16) (b + 16) B1) as (m2 & -> & S2).
  { eapply blocks_ok_tail; [| |exact L1|exact Hok]; lia. }
  exists m2. split; [done|]. eapply swapped_app; [lia|lia|done..].
Qed.

Lemma land_mask_dvd base size k j :
  0 <= j <= 4 -> (base .| size) .& 15 = k -> k .& Z.ones j = 0 -> size mod 2 ^ j = 0.
Proof.
  intros Hj <- Hk. rewrite <- Z.land_ones by lia.
  rewrite <- Z.land_assoc, Z.land_lor_distr_l in Hk. apply Z.lor_eq_0_iff in Hk as [_ Hk].
  assert (15 .& Z.ones j = Z.ones j) as E.
  { assert (j = 0 \/ j = 1 \/ j = 2 \/ j = 3 \/ j = 4) as H by lia.
    by destruct H as [->|[->|[->|[->| ->]]]]. }
  by rewrite E in Hk.
Qed.

Lemma exchange_loop_ok w mem a b len :
  0 < Z.of_nat w -> 0 <= len -> len mod Z.of_nat w = 0 ->
  Forall is_byte mem -> blocks_ok len a b mem ->
  exists mem', exchange_words w (Z.to_nat (len / Z.of_nat w)) mem a b = Ret mem' /\ swapped len a b mem mem'.
Proof.
  intros Hw Hl Hmod Hm Hok.
  assert (Z.of_nat (w * Z.to_nat (len / Z.of_nat w)) = len) as E.
  { rewrite Nat2Z.inj_mul, Z2Nat.id by (apply Z.div_pos; lia).
    pose proof (Z.div_mod len (Z.of_nat w)). lia. }
  pose proof (exchange_words_spec w (Z.to_nat (len / Z.of_nat w)) mem a b Hm) as H.
  rewrite E in H. auto.
Qed.

(** The function chosen for [esize] exchanges blocks of [len] bytes, when [len] is
    the size itself or a multiple of every power of two dividing [esize] up to 16. *)
Lemma exchange_func_gen base esize mem a b len :
  0 < esize -> 0 <= len ->
  (forall j, 0 <= j <= 4 -> esize mod 2 ^ j = 0 -> len mod 2 ^ j = 0) ->
  (esize < 17 -> len = esize) ->
  Forall is_byte mem -> blocks_ok len a b mem ->
  exists mem', exchange_func base esize mem a b len = Ret mem' /\ swapped len a b mem mem'.
Proof.
  intros Hs Hl Hdiv Hone Hm Hok. unfold exchange_func.
  pose proof (land_mask_dvd base esize ((base .| esize) .& 15)) as D.
  set (k := (base .| esize) .& 15) in *. cbn zeta.
  destruct (Z.eqb_spec k 0) as [E|_].
  { destruct (Z.eqb_spec esize 16) as [->|_].
    { rewrite Hone in * by lia. by apply exchange_one_int128_spec. }
    specialize (Hdiv 4 ltac:(lia) (D 4 ltac:(lia) eq_refl ltac:(by rewrite E))).
    change (2 ^ 4) with 16 in Hdiv. unfold exchange_int128s.
    assert (Z.of_nat (16 * Z.to_nat (len / 16)) = len) as E2.
    { rewrite Nat2Z.inj_mul, Z2Nat.id by (apply Z.div_pos; lia). pose proof (Z.div_mod len 16). lia. }
    pose proof (exchange_int128_loop_spec (Z.to_nat (len / 16)) mem a b Hm) as H.
    rewrite E2 in H. auto. }
  destruct (Z.eqb_spec k 8) as [E|_].
  { destruct (Z.eqb_spec esize 8) as [->|_].
    { rewrite Hone in * by lia. by apply (exchange_word_spec 8). }
    apply (exchange_loop_ok 8); [lia|done| |done..].
    by apply (Hdiv 3), (D 3); [lia|lia|done|rewrite E]. }
  destruct ((k =? 4) || (k =? 12)) eqn:E.
  { destruct (Z.eqb_spec esize 4) as [->|_].
    { rewrite Hone in * by lia. by apply (exchange_word_spec 4). }
    apply (exchange_loop_ok 4); [lia|done| |done..].
    apply (Hdiv 2), (D 2); [lia|lia|done|].
    apply orb_true_iff in E as [->%Z.eqb_eq| ->%Z.eqb_eq]; done. }
  clear E. destruct ((k =? 2) || (k =? 6) || (k =? 10) || (k =? 14)) eqn:E.
  { destruct (Z.eqb_spec esize 2) as [->|_].
    { rewrite Hone in * by lia. by apply (exchange_word_spec 2). }
    apply (exchange_loop_ok 2); [lia|done| |done..].
    apply (Hdiv 1), (D 1); [lia|lia|done|].
    rewrite !orb_true_iff, !Z.eqb_eq in E. destruct E as [[[-> | ->] | ->] | ->]; done. }
  destruct (Z.eqb_spec esize 1) as [->|_].
  { rewrite Hone in * by lia. by apply (exchange_word_spec 1). }
  unfold exchange_bytes. replace (Z.to_nat len) with (Z.to_nat (len / Z.of_nat 1)).
  2:{ f_equal. apply Z.div_1_r. }
  apply (exchange_loop_ok 1); [lia|done|apply Z.mod_1_r|done..].
Qed.

(** C39: whatever the size of the elements and the alignment of the array, the function
    chosen by [exchange_func] exchanges exactly the two elements, byte for byte. *)
Theorem exchange_func_spec base size mem a b :
  0 < size -> Forall is_byte mem -> blocks_ok size a b mem ->
  exists mem', exchange_func base size mem a b size = Ret mem' /\ swapped size a b mem mem'.
Proof. intros. by apply exchange_func_gen; [|lia|auto|..]. Qed.

Lemma lor_128_mod size j : 0 <= j <= 4 -> (size .| 128) mod 2 ^ j = size mod 2 ^ j.
Proof.
  intros Hj. rewrite <- !Z.land_ones, Z.land_lor_distr_l by lia.
  assert (128 .& Z.ones j = 0) as ->; [|apply Z.lor_0_r].
  assert (j = 0 \/ j = 1 \/ j = 2 \/ j = 3 \/ j = 4) as H by lia.
  by destruct H as [->|[->|[->|[->| ->]]]].
Qed.

(** C40: the function chosen for [size | 128] exchanges blocks of any number of elements. *)
Theorem exchange_func_block_spec base size n mem a b :
  0 < size -> 0 <= n -> Forall is_byte mem -> blocks_ok (n * size) a b mem ->
  exists mem', exchange_func base (size .| 128) mem a b (n * size) = Ret mem' /\
    swapped (n * size) a b mem mem'.
Proof.
  intros Hs Hn Hm Hok.
  assert (128 <= size .| 128) as H128.
  { assert (0 < size .| 128) as Hpos.
    { assert (0 <= size .| 128) by (apply Z.lor_nonneg; lia).
      assert (size .| 128 <> 0) by (rewrite Z.lor_eq_0_iff; lia). lia. }
    apply (Z.log2_le_pow2 _ 7 Hpos). rewrite Z.log2_lor by lia. change (Z.log2 128) with 7. lia. }
  apply exchange_func_gen; [lia|nia| |lia|done..].
  intros j Hj. rewrite lor_128_mod by done. intros H.
  rewrite Z.mul_mod, H by lia. rewrite Z.mul_0_r. apply Z.mod_0_l. lia.
Qed.

(** * Witnesses: three 2-byte elements *)

Definition six_bytes : list Z := [1; 2; 3; 4; 5; 6].

Lemma six_bytes_ok : Forall is_byte six_bytes.
Proof. repeat constructor; unfold is_byte; lia. Qed.

Lemma exchange_func_spec_witness :
  exists mem', exchange_func 0 2 six_bytes 0 4 2 = Ret mem' /\ swapped 2 0 4 six_bytes mem'.
Proof.
  apply (exchange_func_spec 0 2 six_bytes 0 4);
    [lia|apply six_bytes_ok|unfold blocks_ok, six_bytes, zlen; simpl; lia].
Defined.

Lemma exchange_func_block_spec_witness :
  exists mem', exchange_func 0 (2 .| 128) six_bytes 0 4 (1 * 2) = Ret mem' /\
    swapped (1 * 2) 0 4 six_bytes mem'.
Proof.
  apply (exchange_func_block_spec 0 2 1 six_bytes 0 4);
    [lia|lia|apply six_bytes_ok|unfold blocks_ok, six_bytes, zlen; simpl; lia].
Defined.
