(* ===== verification/RqSort.v ===== *)
(** * cutils.c: [rqsort], the sort behind [Array.prototype.sort]

    The array is a list of elements and a pointer the index of its element
    (Exchange.v shows that the byte-level exchanges swap whole elements);
    [cmp] is the comparison with its [opaque] argument applied.  [rqsort] is
    an introsort: median-of-3 three-way quicksort with an explicit stack of 50
    entries, heap sort below depth 50, insertion sort on at most 6 elements. *)

From S2P Require Import Prelude.

Section Sort.
Context {A : Type} (cmp : A -> A -> Z).

Definition swap (l : list A) (a b : Z) : outcome (list A) :=
  x ← aget l a;
  y ← aget l b;
  l ← aset l a y;
  aset l b x.

(** [cmp] of the elements at two addresses. *)
Definition cmp_at (l : list A) (a b : Z) : outcome Z :=
  x ← aget l a;
  y ← aget l b;
  mret (cmp x y).

(** The inner loop of [heapsortx]: [for (r = ...; (c = r * 2 + size) < n; r = c)]. *)
Definition heap_sift (l : list A) (basep n r : Z) : outcome (list A) :=
  loop (S (Z.to_nat n)) (fun st : list A * Z =>
    let '(l, r) := st in
    let c := r * 2 + 1 in
    if negb (c <? n) then mret (inr l)
    else
      c ← (if c <? n - 1 then
             x ← cmp_at l (basep + c) (basep + c + 1);
             mret (if x <=? 0 then c + 1 else c)
           else mret c);
      x ← cmp_at l (basep + r) (basep + c);
      if x >? 0 then mret (inr l)
      else l ← swap l (basep + r) (basep + c); mret (inl (l, c))) (l, r).

Definition heapsortx (l : list A) (basep nmemb : Z) : outcome (list A) :=
  if nmemb >? 1 then
    let n := nmemb in
    l ← loop (S (Z.to_nat n)) (fun st : list A * Z =>
      let '(l, i) := st in
      if i >? 0 then
        l ← heap_sift l basep n (i - 1);
        mret (inl (l, i - 1))
      else mret (inr l)) (l, nmemb / 2);
    loop (S (Z.to_nat n)) (fun st : list A * Z =>
      let '(l, i) := st in
      if i >? 0 then
        l ← swap l basep (basep + i);
        l ← heap_sift l basep i 0;
        mret (inl (l, i - 1))
      else mret (inr l)) (l, n - 1)
  else mret l.

Definition med3 (l : list A) (a b c : Z) : outcome Z :=
  ab ← cmp_at l a b;
  bc ← cmp_at l b c;
  if ab <? 0 then
    if bc <? 0 then mret b
    else ac ← cmp_at l a c; mret (if ac <? 0 then c else a)
  else
    if bc >? 0 then mret b
    else ac ← cmp_at l a c; mret (if ac <? 0 then a else c).

(** [swap_block(a, b, span)], in elements. *)
Fixpoint swap_block_loop (n : nat) (l : list A) (a b : Z) : outcome (list A) :=
  match n with
  | O => mret l
  | S n => l ← swap l a b; swap_block_loop n l (a + 1) (b + 1)
  end.
Definition swap_block (l : list A) (a b span : Z) : outcome (list A) :=
  swap_block_loop (Z.to_nat span) l a b.

(** [while (pi < pj && (c = cmp(ptr, pi)) >= 0)] *)
Definition scan_up (l : list A) (ptr i lt pi plt pj : Z) : outcome (list A * Z * Z * Z * Z) :=
  loop (S (Z.to_nat (pj - pi))) (fun st : list A * Z * Z * Z * Z =>
    let '(l, i, lt, pi, plt) := st in
    if pi <? pj then
      c ← cmp_at l ptr pi;
      if c >=? 0 then
        if c =? 0 then
          l ← swap l plt pi;
          mret (inl (l, i + 1, lt + 1, pi + 1, plt + 1))
        else mret (inl (l, i + 1, lt, pi + 1, plt))
      else mret (inr st)
    else mret (inr st)) (l, i, lt, pi, plt).

(** [while (pi < (pj -= size) && (c = cmp(ptr, pj)) <= 0)] *)
Definition scan_down (l : list A) (ptr pi gt pj pgt : Z) : outcome (list A * Z * Z * Z) :=
  loop (S (S (Z.to_nat (pj - pi)))) (fun st : list A * Z * Z * Z =>
    let '(l, gt, pj, pgt) := st in
    let pj := pj - 1 in
    if pi <? pj then
      c ← cmp_at l ptr pj;
      if c <=? 0 then
        if c =? 0 then
          l ← swap l (pgt - 1) pj;
          mret (inl (l, gt - 1, pj, pgt - 1))
        else mret (inl (l, gt, pj, pgt))
      else mret (inr (l, gt, pj, pgt))
    else mret (inr (l, gt, pj, pgt))) (l, gt, pj, pgt).

(** One round of [while (nmemb > 6)] after the depth check: the partition of
    the segment of [nmemb] elements at [ptr].  The answer is the array with
    the final [lt], [gt] and [pgt]. *)
Definition partition (l : list A) (ptr nmemb : Z) : outcome (list A * Z * Z * Z) :=
  let m4 := nmemb >> 2 in
  m ← med3 l (ptr + m4) (ptr + 2 * m4) (ptr + 3 * m4);
  l ← swap l ptr m;
  let top := ptr + nmemb in
  st ← loop (S (Z.to_nat nmemb)) (fun st : list A * Z * Z * Z * Z * Z * Z * Z =>
    let '(l, i, lt, pi, plt, gt, pj, pgt) := st in
    up ← scan_up l ptr i lt pi plt pj;
    let '(l, i, lt, pi, plt) := up in
    down ← scan_down l ptr pi gt pj pgt;
    let '(l, gt, pj, pgt) := down in
    if pi >=? pj then mret (inr (l, i, lt, pi, plt, gt, pj, pgt))
    else
      l ← swap l pi pj;
      mret (inl (l, i + 1, lt, pi + 1, plt, gt, pj, pgt)))
    (l, 1, 1, ptr + 1, ptr + 1, nmemb, top, top);
  let '(l, i, lt, pi, plt, gt, pj, pgt) := st in
  let span := plt - ptr in
  let span2 := pi - plt in
  let lt := i - lt in
  let span := if span >? span2 then span2 else span in
  l ← swap_block l ptr (pi - span) span;
  let span := top - pgt in
  let span2 := pgt - pi in
  let pgt := top - span2 in
  let gt := nmemb - (gt - i) in
  let span := if span >? span2 then span2 else span in
  l ← swap_block l pi (top - span) span;
  mret (l, lt, gt, pgt).

(** The insertion sort of the segment of [nmemb] elements at [ptr]. *)
Definition insertion_sort (l : list A) (ptr nmemb : Z) : outcome (list A) :=
  let top := ptr + nmemb in
  loop (S (Z.to_nat nmemb)) (fun st : list A * Z =>
    let '(l, pi) := st in
    if pi <? top then
      l ← loop (S (Z.to_nat (pi - ptr))) (fun st : list A * Z =>
        let '(l, pj) := st in
        if pj >? ptr then
          c ← cmp_at l (pj - 1) pj;
          if c >? 0 then l ← swap l pj (pj - 1); mret (inl (l, pj - 1))
          else mret (inr l)
        else mret (inr l)) (l, pi);
      mret (inl (l, pi + 1))
    else mret (inr l)) (l, ptr + 1).

(** [stack[50]]: (base, count, depth), the top first; a push past the array is [Undef]. *)
Definition stack_push (stack : list (Z * Z * Z)) (e : Z * Z * Z) : outcome (list (Z * Z * Z)) :=
  if zlen stack <? 50 then Ret (e :: stack) else Undef.

(** [while (nmemb > 6)]: answers the array, the stack and the last small segment. *)
Definition quick_loop (l : list A) (stack : list (Z * Z * Z)) (ptr nmemb depth : Z)
    : outcome (list A * list (Z * Z * Z) * Z * Z) :=
  loop (S (Z.to_nat nmemb)) (fun st : list A * list (Z * Z * Z) * Z * Z * Z =>
    let '(l, stack, ptr, nmemb, depth) := st in
    if nmemb >? 6 then
      let depth := depth + 1 in
      if depth >? 50 then
        l ← heapsortx l ptr nmemb;
        mret (inr (l, stack, ptr, 0))
      else
        r ← partition l ptr nmemb;
        let '(l, lt, gt, pgt) := r in
        if lt >? nmemb - gt then
          stack ← stack_push stack (ptr, lt, depth);
          mret (inl (l, stack, pgt, nmemb - gt, depth))
        else
          stack ← stack_push stack (pgt, nmemb - gt, depth);
          mret (inl (l, stack, ptr, lt, depth))
    else mret (inr (l, stack, ptr, nmemb))) (l, stack, ptr, nmemb, depth).

Definition rqsort (l : list A) (nmemb : Z) : outcome (list A) :=
  if nmemb <? 2 then mret l
  else
    loop (S (S (Z.to_nat nmemb))) (fun st : list A * list (Z * Z * Z) =>
      let '(l, stack) := st in
      match stack with
      | [] => mret (inr l)
      | (ptr, nmemb, depth) :: stack =>
          r ← quick_loop l stack ptr nmemb depth;
          let '(l, stack, ptr, nmemb) := r in
          l ← insertion_sort l ptr nmemb;
          mret (inl (l, stack))
      end) (l, [(0, nmemb, 0)]).
End Sort.

(** Sanity checks on concrete arrays. *)
Example rqsort_small : rqsort Z.sub [5; 3; 9; 1; 7; 2] 6 = Ret [1; 2; 3; 5; 7; 9].
Proof. vm_compute. reflexivity. Qed.
Example rqsort_medium :
  rqsort Z.sub [5; 3; 9; 1; 7; 2; 5; 5; 8; 0; 4; 4; 6] 13 = Ret [0; 1; 2; 3; 4; 4; 5; 5; 5; 6; 7; 8; 9].
Proof. vm_compute. reflexivity. Qed.
Example heapsortx_ex : heapsortx Z.sub [5; 3; 9; 1; 7; 2; 5] 0 7 = Ret [1; 2; 3; 5; 5; 7; 9].
Proof. vm_compute. reflexivity. Qed.

(** * Arrays by index *)

Section Proofs.
Context {A : Type} `{!Inhabited A} (cmp : A -> A -> Z).
Implicit Types l : list A.

(** The element at index [k]. *)
Definition el l (k : Z) : A := l !!! Z.to_nat k.

(** [l'] is [l] with the elements of [lo .. hi - 1] permuted. *)
Definition perm_in (lo hi : Z) l l' : Prop :=
  zlen l' = zlen l /\ l' ≡ₚ l /\
  (forall k, 0 <= k -> k < lo \/ hi <= k -> el l' k = el l k) /\
  (forall k, lo <= k < hi -> exists k', lo <= k' < hi /\ el l' k = el l k').

Lemma perm_in_refl lo hi l : perm_in lo hi l l.
Proof. split_and!; [done..|]. intros k Hk. by exists k. Qed.

Lemma perm_in_trans lo hi l1 l2 l3 :
  0 <= lo -> perm_in lo hi l1 l2 -> perm_in lo hi l2 l3 -> perm_in lo hi l1 l3.
Proof.
  intros Hlo (L1 & P1 & O1 & I1) (L2 & P2 & O2 & I2). split_and!.
  - lia.
  - by rewrite P2.
  - intros k Hk Ho. by rewrite O2, O1.
  - intros k Hk. destruct (I2 k Hk) as (k' & Hk' & ->). apply I1. done.
Qed.

Lemma perm_in_weaken lo hi lo' hi' l l' :
  0 <= lo' -> lo' <= lo -> hi <= hi' -> perm_in lo hi l l' -> perm_in lo' hi' l l'.
Proof.
  intros H0 H1 H2 (L & P & O & I). split_and!; [done|done| |].
  - intros k Hk Ho. apply O; lia.
  - intros k Hk. destruct (decide (lo <= k < hi)) as [Hin|Hout].
    + destruct (I k Hin) as (k' & ? & ?). exists k'. split; [lia|done].
    + exists k. split; [done|]. apply O; lia.
Qed.

(** A property of all the elements of the segment survives the permutation. *)
Lemma perm_in_all (P : A -> Prop) lo hi l l' :
  perm_in lo hi l l' -> (forall k, lo <= k < hi -> P (el l k)) -> forall k, lo <= k < hi -> P (el l' k).
Proof. intros (_ & _ & _ & I) H k Hk. destruct (I k Hk) as (k' & ? & ->). auto. Qed.

Lemma aget_el l k : 0 <= k < zlen l -> aget l k = Ret (el l k).
Proof.
  intros Hk. apply aget_lookup. split; [lia|]. unfold el.
  apply list_lookup_lookup_total_lt. zlia.
Qed.

Lemma el_insert l i k x : 0 <= i < zlen l -> 0 <= k ->
  el (<[Z.to_nat i := x]> l) k = if decide (k = i) then x else el l k.
Proof.
  intros Hi Hk. unfold el. case_decide as Hd.
  - subst k. apply list_lookup_total_insert_eq. zlia.
  - apply list_lookup_total_insert_ne. lia.
Qed.

Lemma insert_perm l i x y : l !! i = Some x -> y :: l ≡ₚ x :: <[i := y]> l.
Proof.
  intros Hx. assert (Hi := lookup_lt_Some _ _ _ Hx).
  rewrite (insert_take_drop l i y) by done. rewrite <- (take_drop_middle l i x Hx) at 1.
  rewrite <- !Permutation_middle. apply Permutation_swap.
Qed.

Lemma swap_spec l i j : 0 <= i < zlen l -> 0 <= j < zlen l ->
  exists l', swap l i j = Ret l' /\ zlen l' = zlen l /\ l' ≡ₚ l /\
    forall k, 0 <= k -> el l' k = if decide (k = j) then el l i
                                else if decide (k = i) then el l j else el l k.
Proof.
  intros Hi Hj. unfold swap. rewrite !aget_el by done. cbn [mbind outcome_bind].
  rewrite aset_ok by done. cbn [mbind outcome_bind]. rewrite aset_ok by zlia.
  eexists. split; [done|]. split_and!; [zlia| |].
  - assert (Hli : l !! Z.to_nat i = Some (el l i)).
    { apply list_lookup_lookup_total_lt. zlia. }
    set (l1 := <[Z.to_nat i := el l j]> l).
    assert (Hlj : l1 !! Z.to_nat j = Some (el l j)).
    { unfold l1. destruct (decide (i = j)) as [->|Hne].
      - apply list_lookup_insert_eq. zlia.
      - rewrite list_lookup_insert_ne by lia. apply list_lookup_lookup_total_lt. zlia. }
    pose proof (insert_perm l _ _ (el l j) Hli) as P1. fold l1 in P1.
    pose proof (insert_perm l1 _ _ (el l i) Hlj) as P2.
    apply (Permutation_cons_inv (a := el l j)). etrans; [symmetry; exact P2|]. symmetry. exact P1.
  - intros k Hk. rewrite !el_insert by (rewrite ?zlen_insert; zlia || done).
    repeat case_decide; congruence.
Qed.

Lemma swap_perm_in lo hi l i j l' :
  0 <= lo -> hi <= zlen l -> lo <= i < hi -> lo <= j < hi -> swap l i j = Ret l' -> perm_in lo hi l l'.
Proof.
  intros Hlo Hhi Hi Hj E. destruct (swap_spec l i j) as (l2 & E' & L & P & K); [lia..|].
  rewrite E' in E. injection E as <-. split_and!; [done|done| |].
  - intros k Hk Ho. rewrite K by lia. by rewrite !decide_False by lia.
  - intros k Hk. rewrite K by lia. repeat case_decide; eauto.
Qed.

Lemma yields_swap l i j (Q : list A -> Prop) :
  0 <= i < zlen l -> 0 <= j < zlen l ->
  (forall l', swap l i j = Ret l' -> zlen l' = zlen l ->
     (forall k, 0 <= k -> el l' k = if decide (k = j) then el l i
                                  else if decide (k = i) then el l j else el l k) -> Q l') ->
  yields (swap l i j) Q.
Proof.
  intros Hi Hj H. destruct (swap_spec l i j Hi Hj) as (l' & E & L & _ & K).
  rewrite E. cbn. by apply H.
Qed.

Lemma cmp_at_ok l a b : 0 <= a < zlen l -> 0 <= b < zlen l ->
  cmp_at cmp l a b = Ret (cmp (el l a) (el l b)).
Proof. intros Ha Hb. unfold cmp_at. by rewrite !aget_el. Qed.

(** A comparison function the sort can rely on: a total preorder. *)
Record cmp_ok : Prop := {
  cmp_sgn : forall a b, cmp a b < 0 <-> 0 < cmp b a;
  cmp_trans : forall a b c, cmp a b <= 0 -> cmp b c <= 0 -> cmp a c <= 0
}.

Definition cle (a b : A) : Prop := cmp a b <= 0.

Lemma cle_refl : cmp_ok -> forall a, cle a a.
Proof. intros H a. pose proof (cmp_sgn H a a). unfold cle. lia. Qed.
Lemma cle_trans : cmp_ok -> forall a b c, cle a b -> cle b c -> cle a c.
Proof. intros H. apply (cmp_trans H). Qed.
Lemma cle_flip : cmp_ok -> forall a b, 0 <= cmp a b -> cle b a.
Proof. intros H a b Hab. pose proof (cmp_sgn H a b). unfold cle. lia. Qed.
Lemma cmp_zero_flip : cmp_ok -> forall a b, cmp a b = 0 -> cmp b a = 0.
Proof. intros H a b Hab. pose proof (cmp_sgn H a b). pose proof (cmp_sgn H b a). lia. Qed.
Lemma clt_trans_l : cmp_ok -> forall a b c, cmp a b = 0 -> 0 < cmp b c -> 0 < cmp a c.
Proof.
  intros H a b c Hab Hbc. destruct (Z_lt_le_dec 0 (cmp a c)) as [|Hle]; [done|].
  pose proof (cmp_zero_flip H a b Hab).
  assert (cmp b c <= 0); [|lia]. apply (cmp_trans H _ a); lia.
Qed.

(** ** Heap sort *)

(** The children of node [k] of the heap of [n] elements at [b] are not greater. *)
Definition heap_at l (b n k : Z) : Prop :=
  forall c, c = 2 * k + 1 \/ c = 2 * k + 2 -> c < n -> cle (el l (b + c)) (el l (b + k)).

(** The heap above [i] except at [r], whose children are below its parent. *)
Definition heap_but l (b n i r : Z) : Prop :=
  (forall k, i <= k -> k <> r -> heap_at l b n k) /\
  (forall p c, i <= p -> r = 2 * p + 1 \/ r = 2 * p + 2 -> c = 2 * r + 1 \/ c = 2 * r + 2 -> c < n ->
     cle (el l (b + c)) (el l (b + p))).

Lemma heap_sift_spec l b n r0 i :
  0 <= b -> 0 <= i -> i <= r0 -> 0 <= n -> b + n <= zlen l ->
  yields (heap_sift cmp l b n r0) (fun l' => perm_in b (b + n) l l' /\
    (cmp_ok -> heap_but l b n i r0 -> forall k, i <= k -> heap_at l' b n k)).
Proof.
  intros Hb Hi Hir Hn Hlen. unfold heap_sift.
  apply (loop_yields _ (fun st => i <= st.2 /\ perm_in b (b + n) l st.1 /\
     (cmp_ok -> heap_but l b n i r0 -> heap_but st.1 b n i st.2))
     (fun st => Z.to_nat (n - st.2))).
  2:{ cbn. split_and!; [done|apply perm_in_refl|done]. }
  2:{ cbn. lia. }
  clear Hir. intros [m r]. cbn [fst snd]. intros (Hir & Hp & Hh).
  pose proof Hp as (Lm & _). destruct (Z.ltb_spec (r * 2 + 1) n) as [Hc|Hc]; cbn [negb].
  2:{ cbn. split; [done|]. intros Hok H0. destruct (Hh Hok H0) as [H1 _]. intros k Hk.
      destruct (decide (k = r)) as [->|]; [|by apply H1]. intros c Hcr Hcn. lia. }
  apply yields_bind.
  apply (yields_mono _ (fun c => (c = r * 2 + 1 \/ c = r * 2 + 2) /\ c < n /\
    (cmp_ok -> forall c', c' = r * 2 + 1 \/ c' = r * 2 + 2 -> c' < n ->
       cle (el m (b + c')) (el m (b + c))))).
  { destruct (Z.ltb_spec (r * 2 + 1) (n - 1)) as [Hc1|Hc1].
    - rewrite cmp_at_ok by lia. cbn. destruct (Z.leb_spec (cmp (el m (b + (r * 2 + 1))) (el m (b + (r * 2 + 1) + 1))) 0) as [Hle|Hgt].
      + split_and!; [lia|lia|]. intros Hok c' [->| ->] _.
        * unfold cle. by replace (b + (r * 2 + 1 + 1)) with (b + (r * 2 + 1) + 1) by lia.
        * replace (r * 2 + 2) with (r * 2 + 1 + 1) by lia. by apply cle_refl.
      + split_and!; [lia|lia|]. intros Hok c' [->| ->] _; [by apply cle_refl|].
        apply cle_flip; [done|]. replace (b + (r * 2 + 2)) with (b + (r * 2 + 1) + 1) by lia. lia.
    - cbn. split_and!; [lia|lia|]. intros Hok c' Hc' Hn'. replace c' with (r * 2 + 1) by lia.
      by apply cle_refl. }
  intros c (Hcr & Hcn & Hmax). cbn beta. apply yields_bind. rewrite cmp_at_ok by lia.
  cbn [yields]. destruct (Z.gtb_spec (cmp (el m (b + r)) (el m (b + c))) 0) as [Hgt|Hle].
  { cbn. split; [done|]. intros Hok H0. destruct (Hh Hok H0) as [H1 _]. intros k Hk.
    destruct (decide (k = r)) as [->|]; [|by apply H1]. intros c' Hc' Hn'.
    apply (cle_trans Hok _ (el m (b + c))); [apply Hmax; [done|lia|done]|].
    apply cle_flip; [done|lia]. }
  apply yields_bind. apply yields_swap; [lia|lia|]. intros m' Em Lm' K. cbn.
  split; [|lia]. split_and!; [lia| |].
  - eapply perm_in_trans; [done|exact Hp|]. eapply swap_perm_in; [..|exact Em]; lia.
  - intros Hok H0. destruct (Hh Hok H0) as [H1 H2]. split.
    + intros k Hk Hkc c' Hc' Hn'. rewrite !K by lia.
      destruct (decide (k = r)) as [->|Hkr].
      * rewrite (decide_False (P := b + r = b + c)) by lia.
        rewrite (decide_True (P := b + r = b + r)) by lia.
        case_decide; [apply Hle|]. case_decide; [lia|]. apply Hmax; [done|lia|done].
      * rewrite (decide_False (P := b + k = b + c)) by lia.
        rewrite (decide_False (P := b + k = b + r)) by lia.
        case_decide; [lia|]. case_decide as Hd.
        -- apply H2 with (p := k); lia.
        -- apply H1; lia.
    + intros p c' Hp' Hcp Hc' Hn'. assert (p = r) as -> by lia. rewrite !K by lia.
      rewrite !decide_False by lia. rewrite decide_True by lia.
      apply H1; lia.
Qed.

Definition sorted_seg l (lo hi : Z) : Prop :=
  forall i j, lo <= i -> i < j -> j < hi -> cle (el l i) (el l j).

Lemma heap_root l b n : cmp_ok -> (forall k, 0 <= k -> heap_at l b n k) ->
  forall k, 0 <= k -> k < n -> cle (el l (b + k)) (el l b).
Proof.
  intros Hok Hh k Hk. apply (Zlt_0_ind (fun k => k < n -> cle (el l (b + k)) (el l b))); [|done].
  clear k Hk. intros k IH Hk Hkn. destruct (decide (k = 0)) as [->|].
  { rewrite Z.add_0_r. by apply cle_refl. }
  pose proof (Z.div_mod (k - 1) 2 ltac:(lia)). pose proof (Z.mod_pos_bound (k - 1) 2 ltac:(lia)).
  apply (cle_trans Hok _ (el l (b + (k - 1) / 2))).
  - apply (Hh ((k - 1) / 2)); lia.
  - apply IH; lia.
Qed.

Lemma heap_build_spec l b n :
  0 <= b -> 1 < n -> b + n <= zlen l ->
  yields (loop (S (Z.to_nat n)) (fun st : list A * Z =>
      let '(l, i) := st in
      if i >? 0 then
        l ← heap_sift cmp l b n (i - 1);
        mret (inl (l, i - 1))
      else mret (inr l)) (l, n / 2))
    (fun l' => perm_in b (b + n) l l' /\ (cmp_ok -> forall k, 0 <= k -> heap_at l' b n k)).
Proof.
  intros Hb Hn Hlen.
  pose proof (Z.div_mod n 2 ltac:(lia)). pose proof (Z.mod_pos_bound n 2 ltac:(lia)).
  apply (loop_yields _ (fun st => 0 <= st.2 /\ perm_in b (b + n) l st.1 /\
    (cmp_ok -> forall k, st.2 <= k -> heap_at st.1 b n k)) (fun st => Z.to_nat st.2)).
  - intros [m i]. cbn [fst snd]. intros (Hi & Hp & Hh). pose proof Hp as (Lm & _).
    destruct (Z.gtb_spec i 0).
    2:{ cbn. split; [done|]. intros Hok k Hk. apply Hh; [done|lia]. }
    apply yields_bind. eapply yields_mono; [apply (heap_sift_spec m b n (i - 1) (i - 1)); lia|].
    intros m' (Hp' & Hh'). cbn. split; [|lia]. split_and!; [lia|by eapply perm_in_trans|].
    intros Hok k Hk. apply Hh'; [done| |lia]. split.
    + intros k' Hk' Hne. apply Hh; [done|lia].
    + intros p c Hp1 Hcp. lia.
  - cbn. split_and!; [lia|apply perm_in_refl|]. intros _ k Hk c Hc Hcn. lia.
  - cbn. lia.
Qed.

(** The step of the extraction: the root goes to position [i], the rest is a heap again. *)
Lemma heap_extract_step l b n i l1 l2 :
  cmp_ok -> 0 <= b -> 0 < i < n -> b + n <= zlen l ->
  (forall k, 0 <= k -> heap_at l b (i + 1) k) ->
  (forall k j, 0 <= k -> k < j -> i < j -> j < n -> cle (el l (b + k)) (el l (b + j))) ->
  swap l b (b + i) = Ret l1 -> perm_in b (b + i) l1 l2 ->
  (heap_but l1 b i 0 0) /\
  (forall k j, 0 <= k -> k < j -> i - 1 < j -> j < n -> cle (el l2 (b + k)) (el l2 (b + j))).
Proof.
  intros Hok Hb Hi Hlen Hh Hs E Hp.
  destruct (swap_spec l b (b + i)) as (l1' & E' & L1 & _ & K); [lia..|].
  rewrite E' in E. injection E as ->. split.
  - split; [|lia]. intros k Hk Hne c Hc Hcn. rewrite !K by lia. rewrite !decide_False by lia.
    apply Hh; lia.
  - intros k j Hk Hkj Hij Hjn. pose proof Hp as (_ & _ & O & I).
    assert (Hj : el l2 (b + j) = el l1 (b + j)) by (apply O; lia). rewrite Hj, K by lia.
    assert (Hkb : exists k', 0 <= k' <= i /\ el l2 (b + k) = el l (b + k') \/
      (i < k /\ el l2 (b + k) = el l (b + k))).
    { destruct (Z_lt_le_dec k i) as [Hki|Hki].
      - destruct (I (b + k) ltac:(lia)) as (k' & Hk' & ->). rewrite K by lia.
        repeat case_decide; [lia| |].
        + exists i. left. split; [lia|done].
        + exists (k' - b). left. split; [lia|]. f_equal. lia.
      - exists 0. destruct (decide (k = i)) as [->|].
        + left. split; [lia|]. rewrite O, K by lia. rewrite decide_True by done. f_equal. lia.
        + right. split; [lia|]. rewrite O, K by lia. by rewrite !decide_False by lia. }
    destruct (decide (b + j = b + i)) as [Hji|Hji].
    + assert (j = i) as -> by lia. destruct Hkb as (k' & [[Hk' ->]|[? _]]); [|lia].
      apply (heap_root _ _ (i + 1)); [done|done|lia|lia].
    + rewrite decide_False by lia. destruct Hkb as (k' & [[Hk' ->]|[? ->]]); apply Hs; lia.
Qed.

Lemma heapsortx_spec l b n :
  0 <= b -> 0 <= n -> b + n <= zlen l ->
  yields (heapsortx cmp l b n) (fun l' => perm_in b (b + n) l l' /\
    (cmp_ok -> sorted_seg l' b (b + n))).
Proof.
  intros Hb Hn0 Hlen. unfold heapsortx. destruct (Z.gtb_spec n 1) as [Hn|Hn].
  2:{ cbn. split; [apply perm_in_refl|]. intros _ i j. lia. }
  apply yields_bind. eapply yields_mono; [by apply heap_build_spec|].
  intros l0 (Hp0 & Hh0). pose proof Hp0 as (L0 & _).
  apply (loop_yields _ (fun st => 0 <= st.2 < n /\ perm_in b (b + n) l st.1 /\
    (cmp_ok -> (forall k, 0 <= k -> heap_at st.1 b (st.2 + 1) k) /\
      (forall k j, 0 <= k -> k < j -> st.2 < j -> j < n -> cle (el st.1 (b + k)) (el st.1 (b + j)))))
    (fun st => Z.to_nat st.2)).
  - intros [m i]. cbn [fst snd]. intros (Hi & Hp & Hh). pose proof Hp as (Lm & _).
    destruct (Z.gtb_spec i 0).
    2:{ cbn. split; [done|]. intros Hok p q Hp1 Hpq Hq. destruct (Hh Hok) as [_ Hs].
        specialize (Hs (p - b) (q - b)). replace (b + (p - b)) with p in Hs by lia.
        replace (b + (q - b)) with q in Hs by lia. apply Hs; lia. }
    apply yields_bind. apply yields_swap; [lia|lia|]. intros m1 E1 L1 K1.
    apply yields_bind. eapply yields_mono; [apply (heap_sift_spec m1 b i 0 0); lia|].
    intros m2 (Hp2 & Hh2). cbn. split; [|lia].
    assert (Hp1 : perm_in b (b + n) m m1) by (eapply swap_perm_in; [..|exact E1]; lia).
    split_and!; [lia..| |].
    + eapply perm_in_trans; [done|exact Hp|]. eapply perm_in_trans; [done|exact Hp1|].
      eapply perm_in_weaken; [..|exact Hp2]; lia.
    + intros Hok. destruct (Hh Hok) as [Hheap Hs].
      destruct (heap_extract_step m b n i m1 m2) as [B1 B2]; [done|lia..|done|done|done|done|].
      split; [|done]. intros k Hk. replace (i - 1 + 1) with i by lia. by apply Hh2.
  - cbn. split_and!; [lia..|done|]. intros Hok. replace (n - 1 + 1) with n by lia.
    split; [by apply Hh0|lia].
  - cbn. lia.
Qed.

(** ** Insertion sort *)

(** Sorted up to [pi] but for the element at [pj], which is below those after it. *)
Definition inserting l (ptr pi pj : Z) : Prop :=
  forall i j, ptr <= i -> i < j -> j <= pi -> j <> pj -> cle (el l i) (el l j).

Lemma insertion_inner_spec l ptr pi top :
  0 <= ptr -> ptr < pi -> pi < top -> top <= zlen l ->
  yields (loop (S (Z.to_nat (pi - ptr))) (fun st : list A * Z =>
      let '(l, pj) := st in
      if pj >? ptr then
        c ← cmp_at cmp l (pj - 1) pj;
        if c >? 0 then l ← swap l pj (pj - 1); mret (inl (l, pj - 1))
        else mret (inr l)
      else mret (inr l)) (l, pi))
    (fun l' => perm_in ptr (pi + 1) l l' /\
      (cmp_ok -> sorted_seg l ptr pi -> sorted_seg l' ptr (pi + 1))).
Proof.
  intros Hptr Hpi Htop Hlen.
  apply (loop_yields _ (fun st => ptr <= st.2 <= pi /\ perm_in ptr (pi + 1) l st.1 /\
    (cmp_ok -> sorted_seg l ptr pi -> inserting st.1 ptr pi st.2)) (fun st => Z.to_nat (st.2 - ptr))).
  - intros [m pj]. cbn [fst snd]. intros (Hpj & Hp & Hs). pose proof Hp as (Lm & _).
    destruct (Z.gtb_spec pj ptr).
    2:{ cbn. split; [done|]. intros Hok H0 i j Hi Hij Hj. apply (Hs Hok H0); lia. }
    rewrite cmp_at_ok by lia. cbn [mbind outcome_bind].
    destruct (Z.gtb_spec (cmp (el m (pj - 1)) (el m pj)) 0) as [Hgt|Hle].
    + apply yields_bind. apply yields_swap; [lia|lia|]. intros m' E L' K. cbn. split; [|lia].
      split_and!; [lia|lia| |].
      * eapply perm_in_trans; [done|exact Hp|]. eapply swap_perm_in; [..|exact E]; lia.
      * intros Hok H0 i j Hi Hij Hj Hne. specialize (Hs Hok H0). rewrite !K by lia.
        repeat case_decide; try lia; try (apply Hs; lia).
        apply cle_flip; [done|lia].
    + cbn. split; [done|]. intros Hok H0 i j Hi Hij Hj. specialize (Hs Hok H0).
      destruct (decide (j = pj)) as [->|]; [|apply Hs; lia].
      destruct (decide (i = pj - 1)) as [->|]; [done|].
      apply (cle_trans Hok _ (el m (pj - 1))); [apply Hs; lia|done].
  - cbn. split_and!; [lia|lia|apply perm_in_refl|]. intros _ H0 i j Hi Hij Hj Hne. apply H0; lia.
  - cbn. lia.
Qed.

Lemma insertion_sort_spec l ptr n :
  0 <= ptr -> 0 <= n -> ptr + n <= zlen l ->
  yields (insertion_sort cmp l ptr n) (fun l' => perm_in ptr (ptr + n) l l' /\
    (cmp_ok -> sorted_seg l' ptr (ptr + n))).
Proof.
  intros Hptr Hn Hlen. unfold insertion_sort.
  apply (loop_yields _ (fun st => ptr + 1 <= st.2 /\ perm_in ptr (ptr + n) l st.1 /\
    (cmp_ok -> sorted_seg st.1 ptr (Z.min st.2 (ptr + n)))) (fun st => Z.to_nat (ptr + n - st.2))).
  - intros [m pi]. cbn [fst snd]. intros (Hpi & Hp & Hs). pose proof Hp as (Lm & _).
    destruct (Z.ltb_spec pi (ptr + n)).
    2:{ cbn. split; [done|]. intros Hok. specialize (Hs Hok). by rewrite Z.min_r in Hs by lia. }
    apply yields_bind. eapply yields_mono; [apply (insertion_inner_spec m ptr pi (ptr + n)); lia|].
    intros m' (Hp' & Hs'). cbn. split; [|lia]. split_and!; [lia| |].
    + eapply perm_in_trans; [done|exact Hp|]. eapply perm_in_weaken; [..|exact Hp']; lia.
    + intros Hok. specialize (Hs Hok). rewrite Z.min_l in Hs |- * by lia. by apply Hs'.
  - cbn. split_and!; [lia|apply perm_in_refl|]. intros _ i j. lia.
  - cbn. lia.
Qed.

(** ** Partition *)

Lemma swap_block_loop_spec n l a b :
  0 <= a -> a + Z.of_nat n <= b -> b + Z.of_nat n <= zlen l ->
  yields (swap_block_loop n l a b) (fun l' =>
    zlen l' = zlen l /\ l' ≡ₚ l /\
    forall k, 0 <= k -> el l' k = if decide (a <= k < a + Z.of_nat n) then el l (k - a + b)
      else if decide (b <= k < b + Z.of_nat n) then el l (k - b + a) else el l k).
Proof.
  revert l a b. induction n as [|n IH]; intros l a b Ha Hab Hb.
  { cbn. split_and!; [done..|]. intros k Hk. by rewrite !decide_False by lia. }
  cbn [swap_block_loop].
  destruct (swap_spec l a b) as (l1 & -> & L1 & P1 & K1); [lia..|]. cbn.
  eapply yields_mono; [apply IH; lia|]. intros l2 (L2 & P2 & K2).
  split_and!; [lia|by rewrite P2|]. intros k Hk. rewrite K2 by lia.
  repeat case_decide; try lia; rewrite K1 by lia; repeat case_decide; try lia; f_equal; lia.
Qed.

Lemma swap_block_spec lo hi l a b n :
  0 <= lo -> 0 <= n -> hi <= zlen l -> lo <= a -> a + n <= b -> b + n <= hi ->
  yields (swap_block l a b n) (fun l' => perm_in lo hi l l' /\
    forall k, 0 <= k -> el l' k = if decide (a <= k < a + n) then el l (k - a + b)
      else if decide (b <= k < b + n) then el l (k - b + a) else el l k).
Proof.
  intros Hlo Hn Hhi Ha Hab Hb. unfold swap_block.
  eapply yields_mono; [apply swap_block_loop_spec; lia|]. rewrite Z2Nat.id by lia.
  intros l' (L & P & K). split; [|done]. split_and!; [done|done| |].
  - intros k Hk Ho. rewrite K by lia. by rewrite !decide_False by lia.
  - intros k Hk. rewrite K by lia. repeat case_decide; eexists; (split; [|done]); lia.
Qed.

(** Regions of the array with respect to the pivot [pv]. *)
Definition all_cmp (P : Z -> Prop) (pv : A) l (lo hi : Z) : Prop :=
  forall k, lo <= k < hi -> P (cmp pv (el l k)).
Abbreviation all_eq := (all_cmp (fun c => c = 0)).
Abbreviation all_lt := (all_cmp (fun c => 0 < c)).
Abbreviation all_gt := (all_cmp (fun c => c < 0)).

Record part_inv (pv : A) l (ptr n i lt pi plt gt pj pgt : Z) : Prop := {
  pa_pivot : el l ptr = pv;
  pa_pi : pi = ptr + i;
  pa_plt : plt = ptr + lt;
  pa_pgt : pgt = ptr + gt;
  pa_order : 1 <= lt /\ plt <= pi /\ pi <= pj /\ pj <= pgt /\ pgt <= ptr + n;
  pa_eq1 : all_eq pv l (ptr + 1) plt;
  pa_lt : all_lt pv l plt pi;
  pa_gt : all_gt pv l pj pgt;
  pa_eq2 : all_eq pv l pgt (ptr + n)
}.

Lemma scan_up_spec pv l ptr n i lt pi plt gt pj pgt :
  0 <= ptr -> ptr + n <= zlen l -> part_inv pv l ptr n i lt pi plt gt pj pgt ->
  yields (scan_up cmp l ptr i lt pi plt pj) (fun '(l', i', lt', pi', plt') =>
    perm_in ptr (ptr + n) l l' /\ part_inv pv l' ptr n i' lt' pi' plt' gt pj pgt /\
    pi <= pi' /\ (pi' < pj -> cmp pv (el l' pi') < 0)).
Proof.
  intros Hptr Hlen Hinv. unfold scan_up.
  apply (loop_yields _ (fun '(l', i', lt', pi', plt') => perm_in ptr (ptr + n) l l' /\
    part_inv pv l' ptr n i' lt' pi' plt' gt pj pgt /\ pi <= pi') (fun '(_, _, _, pi', _) => Z.to_nat (pj - pi'))).
  - clear Hinv. intros [[[[m i'] lt'] pi'] plt'] (Hp & Hinv & Hle). pose proof Hp as (Lm & _).
    destruct Hinv as [I1 I2 I3 I4 I5 I6 I7 I8 I9].
    destruct (Z.ltb_spec pi' pj).
    2:{ cbn. split_and!; [done|by constructor|done|lia]. }
    rewrite cmp_at_ok by lia. cbn [mbind outcome_bind]. rewrite I1.
    destruct (Z.geb_spec (cmp pv (el m pi')) 0) as [Hge|Hlt].
    2:{ cbn. split_and!; [done|by constructor|done|done]. }
    destruct (Z.eqb_spec (cmp pv (el m pi')) 0) as [Heq|Hne].
    + apply yields_bind. apply yields_swap; [lia|lia|]. intros m' E L' K. cbn.
      split; [|lia]. split_and!; [| |lia].
      * eapply perm_in_trans; [done|exact Hp|]. eapply swap_perm_in; [..|exact E]; lia.
      * constructor; try lia.
        -- rewrite K by lia. by rewrite !decide_False by lia.
        -- intros k Hk. rewrite K by lia.
           repeat case_decide; first [lia | by apply I6; lia | done | idtac].
           all: replace plt' with pi' by lia; done.
        -- intros k Hk. rewrite K by lia. repeat case_decide; try lia; apply I7; lia.
        -- intros k Hk. rewrite K by lia. rewrite !decide_False by lia. apply I8; lia.
        -- intros k Hk. rewrite K by lia. rewrite !decide_False by lia. apply I9; lia.
    + cbn. split; [|lia]. split_and!; [done| |lia]. constructor; try done; try lia.
      intros k Hk. destruct (decide (k = pi')) as [->|]; [lia|apply I7; lia].
  - split_and!; [apply perm_in_refl|done|lia].
  - lia.
Qed.

Lemma scan_down_spec pv l ptr n i lt pi plt gt pj pgt :
  0 <= ptr -> ptr + n <= zlen l -> part_inv pv l ptr n i lt pi plt gt pj pgt ->
  (pi < pj -> cmp pv (el l pi) < 0) ->
  yields (scan_down cmp l ptr pi gt pj pgt) (fun '(l', gt', pj', pgt') =>
    perm_in ptr (ptr + n) l l' /\ part_inv pv l' ptr n i lt pi plt gt' (pj' + 1) pgt' /\
    pj' < pj /\ (pi < pj' + 1 -> cmp pv (el l' pi) < 0) /\ (pi < pj' -> 0 < cmp pv (el l' pj'))).
Proof.
  intros Hptr Hlen Hinv Hpi. unfold scan_down.
  apply (loop_yields _ (fun '(l', gt', pj', pgt') => perm_in ptr (ptr + n) l l' /\
    part_inv pv l' ptr n i lt pi plt gt' pj' pgt' /\ pj' <= pj /\ (pi < pj' -> cmp pv (el l' pi) < 0))
    (fun '(_, _, pj', _) => Z.to_nat (pj' - pi))).
  - clear Hinv Hpi. intros [[[m gt'] pj'] pgt'] (Hp & Hinv & Hle & Hpi). pose proof Hp as (Lm & _).
    destruct Hinv as [I1 I2 I3 I4 I5 I6 I7 I8 I9].
    destruct (Z.ltb_spec pi (pj' - 1)).
    2:{ cbn. replace (pj' - 1 + 1) with pj' by lia.
        split_and!; [done|by constructor|lia|done|lia]. }
    rewrite cmp_at_ok by lia. cbn [mbind outcome_bind]. rewrite I1.
    destruct (Z.leb_spec (cmp pv (el m (pj' - 1))) 0) as [Hle0|Hgt].
    2:{ cbn. replace (pj' - 1 + 1) with pj' by lia.
        split_and!; [done|by constructor|lia|done|done]. }
    destruct (Z.eqb_spec (cmp pv (el m (pj' - 1))) 0) as [Heq|Hne].
    + apply yields_bind. apply yields_swap; [lia|lia|]. intros m' E L' K. cbn.
      split; [|lia]. split_and!; [| |lia|].
      * eapply perm_in_trans; [done|exact Hp|]. eapply swap_perm_in; [..|exact E]; lia.
      * constructor; try lia.
        -- rewrite K by lia. by rewrite !decide_False by lia.
        -- intros k Hk. rewrite K by lia. rewrite !decide_False by lia. apply I6; lia.
        -- intros k Hk. rewrite K by lia. rewrite !decide_False by lia. apply I7; lia.
        -- intros k Hk. rewrite K by lia. repeat case_decide; try lia; apply I8; lia.
        -- intros k Hk. rewrite K by lia.
           repeat case_decide; first [lia | by apply I9; lia | done | idtac].
           all: replace (pgt' - 1) with (pj' - 1) by lia; done.
      * intros _. rewrite K by lia. rewrite !decide_False by lia. apply Hpi. lia.
    + cbn. split; [|lia]. split_and!; [done| |lia|intros _; apply Hpi; lia].
      constructor; try done; try lia.
      intros k Hk. destruct (decide (k = pj' - 1)) as [->|]; [lia|apply I8; lia].
  - split_and!; [apply perm_in_refl|done|lia|done].
  - lia.
Qed.

Lemma med3_spec l a b c :
  0 <= a < zlen l -> 0 <= b < zlen l -> 0 <= c < zlen l ->
  yields (med3 cmp l a b c) (fun m => m = a \/ m = b \/ m = c).
Proof.
  intros Ha Hb Hc. unfold med3. rewrite !cmp_at_ok by done. cbn [mbind outcome_bind].
  repeat case_match; cbn; auto.
Qed.

(** The result of the partition of [n] elements at [ptr]: [lt] elements below the
    pivot, those above it from [ptr + gt] on. *)
Definition parted l (ptr n lt gt : Z) : Prop :=
  exists pv, all_lt pv l ptr (ptr + lt) /\ all_gt pv l (ptr + gt) (ptr + n) /\
    forall k, ptr + lt <= k < ptr + gt -> el l k = pv \/ cmp pv (el l k) = 0.

Lemma partition_loop_spec l ptr n :
  0 <= ptr -> 6 < n -> ptr + n <= zlen l ->
  yields (loop (S (Z.to_nat n)) (fun st : list A * Z * Z * Z * Z * Z * Z * Z =>
    let '(l, i, lt, pi, plt, gt, pj, pgt) := st in
    up ← scan_up cmp l ptr i lt pi plt pj;
    let '(l, i, lt, pi, plt) := up in
    down ← scan_down cmp l ptr pi gt pj pgt;
    let '(l, gt, pj, pgt) := down in
    if pi >=? pj then mret (inr (l, i, lt, pi, plt, gt, pj, pgt))
    else
      l ← swap l pi pj;
      mret (inl (l, i + 1, lt, pi + 1, plt, gt, pj, pgt)))
    (l, 1, 1, ptr + 1, ptr + 1, n, ptr + n, ptr + n))
  (fun '(l', i, lt, pi, plt, gt, pj, pgt) => perm_in ptr (ptr + n) l l' /\
     part_inv (el l ptr) l' ptr n i lt pi plt gt pi pgt).
Proof.
  intros Hptr Hn Hlen.
  apply (loop_yields _ (fun '(l', i, lt, pi, plt, gt, pj, pgt) => perm_in ptr (ptr + n) l l' /\
     part_inv (el l ptr) l' ptr n i lt pi plt gt pj pgt)
     (fun '(_, _, _, pi, _, _, pj, _) => Z.to_nat (pj - pi))).
  - intros [[[[[[[m i] lt] pi] plt] gt] pj] pgt] (Hp & Hinv). pose proof Hp as (Lm & _).
    apply yields_bind. eapply yields_mono; [apply (scan_up_spec (el l ptr) m ptr n i lt pi plt gt pj pgt); [lia..|done]|].
    intros [[[[m1 i1] lt1] pi1] plt1] (Hp1 & Hinv1 & Hpi1 & Hs1). pose proof Hp1 as (Lm1 & _).
    apply yields_bind. eapply yields_mono; [apply (scan_down_spec (el l ptr) m1 ptr n i1 lt1 pi1 plt1 gt pj pgt); [lia..|done|done]|].
    intros [[[m2 gt2] pj2] pgt2] (Hp2 & Hinv2 & Hpj2 & Hs2 & Hs3). pose proof Hp2 as (Lm2 & _).
    assert (Hp02 : perm_in ptr (ptr + n) l m2).
    { eapply perm_in_trans; [done| |exact Hp2]. by eapply perm_in_trans. }
    destruct Hinv2 as [I1 I2 I3 I4 I5 I6 I7 I8 I9].
    destruct (Z.geb_spec pi1 pj2) as [Hge|Hlt].
    + cbn. split; [done|]. constructor; try done; try lia.
      intros k Hk. destruct (decide (k = pi1)) as [->|]; [|apply I8; lia].
      destruct (Z_lt_le_dec pi1 (pj2 + 1)); [by apply Hs2|apply I8; lia].
    + apply yields_bind. apply yields_swap; [lia|lia|]. intros m3 E L3 K. cbn. split; [|lia]. split.
      * eapply perm_in_trans; [done|exact Hp02|]. eapply swap_perm_in; [..|exact E]; lia.
      * constructor; try lia; [rewrite K by lia; by rewrite !decide_False by lia|intros k Hk..];
          rewrite K by lia; repeat case_decide; try lia; eauto with lia.
        all: first [by apply I6; lia|by apply I7; lia|by apply I8; lia|by apply I9; lia].
  - split; [apply perm_in_refl|]. constructor; try lia; try done; intros k Hk; lia.
  - lia.
Qed.

Lemma partition_spec l ptr n :
  0 <= ptr -> 6 < n -> ptr + n <= zlen l ->
  yields (partition cmp l ptr n) (fun '(l', lt, gt, pgt) =>
    perm_in ptr (ptr + n) l l' /\ pgt = ptr + gt /\
    (0 <= lt /\ lt <= gt /\ gt <= n /\ lt + (n - gt) <= n - 1) /\ parted l' ptr n lt gt).
Proof.
  intros Hptr Hn Hlen. unfold partition. rewrite (shiftr_div 2) by lia.
  change (2 ^ 2) with 4. pose proof (Z.div_mod n 4 ltac:(lia)). pose proof (Z.mod_pos_bound n 4 ltac:(lia)).
  apply yields_bind. eapply yields_mono; [apply med3_spec; lia|]. intros m Hm. cbn beta in Hm |- *.
  apply yields_bind. apply yields_swap; [lia|lia|]. intros l1 E1 L1 _.
  assert (Hp1 : perm_in ptr (ptr + n) l l1) by (eapply swap_perm_in; [..|exact E1]; lia).
  apply yields_bind. eapply yields_mono; [apply partition_loop_spec; lia|].
  intros [[[[[[[l2 i] lt] pi] plt] gt] pj] pgt] (Hp2 & [I1 I2 I3 I4 I5 I6 I7 I8 I9]).
  pose proof Hp2 as (L2 & _). cbn beta iota zeta. set (pv := el l1 ptr) in *.
  apply yields_bind.
  set (sp := if plt - ptr >? pi - plt then pi - plt else plt - ptr).
  assert (Hsp : sp = Z.min (plt - ptr) (pi - plt)) by (unfold sp; destruct (Z.gtb_spec (plt - ptr) (pi - plt)); lia).
  eapply yields_mono; [apply (swap_block_spec ptr (ptr + n)); lia|].
  intros l3 (Hp3 & K3). pose proof Hp3 as (L3 & _). cbn beta. apply yields_bind.
  set (sq := if ptr + n - pgt >? pgt - pi then pgt - pi else ptr + n - pgt).
  assert (Hsq : sq = Z.min (ptr + n - pgt) (pgt - pi))
    by (unfold sq; destruct (Z.gtb_spec (ptr + n - pgt) (pgt - pi)); lia).
  eapply yields_mono; [apply (swap_block_spec ptr (ptr + n)); lia|].
  intros l4 (Hp4 & K4). cbn. split_and!; [|lia..|].
  - repeat (eapply perm_in_trans; [done|eassumption|]). apply perm_in_refl.
  - exists pv. split_and!.
    + intros k Hk. rewrite K4, decide_False by lia. rewrite decide_False by lia.
      rewrite K3 by lia. repeat case_decide; try lia; apply I7; lia.
    + intros k Hk. rewrite K4 by lia. repeat case_decide; try lia;
        rewrite K3, !decide_False by lia; apply I8; lia.
    + intros k Hk. rewrite K4 by lia.
      assert (Heq : forall q, ptr <= q < plt \/ pgt <= q < ptr + n -> el l2 q = pv \/ cmp pv (el l2 q) = 0).
      { intros q [Hq|Hq]; [|right; apply I9; lia].
        destruct (decide (q = ptr)) as [->|]; [by left|right; apply I6; lia]. }
      repeat case_decide; try lia; rewrite K3 by lia; repeat case_decide; try lia; apply Heq; lia.
Qed.

(** ** The pending segments *)

Definition in_seg (k : Z) (s : Z * Z) : Prop := s.1 <= k < s.1 + s.2.
Definition sub_seg (t s : Z * Z) : Prop := s.1 <= t.1 /\ 0 <= t.2 /\ t.1 + t.2 <= s.1 + s.2.
Definition disj (s t : Z * Z) : Prop := s.1 + s.2 <= t.1 \/ t.1 + t.2 <= s.1.

(** Segments of an array of [n] elements, pairwise disjoint. *)
Fixpoint segs_ok (n : Z) (ss : list (Z * Z)) : Prop :=
  match ss with
  | [] => True
  | s :: ss => sub_seg s (0, n) /\ (forall t, t ∈ ss -> disj s t) /\ segs_ok n ss
  end.

(** Every pair of elements in the wrong order lies in one pending segment. *)
Definition sorted_but l (n : Z) (ss : list (Z * Z)) : Prop :=
  forall i j, 0 <= i -> i < j -> j < n ->
    cle (el l i) (el l j) \/ exists s, s ∈ ss /\ in_seg i s /\ in_seg j s.

Lemma disj_sub s t u : sub_seg t s -> disj s u -> disj t u.
Proof. unfold sub_seg, disj. lia. Qed.

Lemma segs_ok_sub n s t ss : sub_seg t s -> segs_ok n (s :: ss) -> segs_ok n (t :: ss).
Proof.
  intros Hs (H1 & H2 & H3). split_and!; [|intros u Hu; eapply disj_sub; eauto|done].
  unfold sub_seg in *. cbn in *. lia.
Qed.

Lemma segs_ok_split n s t u ss : sub_seg t s -> sub_seg u s -> disj t u ->
  segs_ok n (s :: ss) -> segs_ok n (t :: u :: ss).
Proof.
  intros Ht Hu Htu H. pose proof (segs_ok_sub n s t ss Ht H) as (H1 & H2 & _).
  split_and!; [done| |by eapply segs_ok_sub].
  intros v [->|Hv]%elem_of_cons; [done|by apply H2].
Qed.

(** Sorting or partitioning the first segment. *)
Lemma sorted_but_step l l' n s ts ss :
  segs_ok n (s :: ss) -> perm_in s.1 (s.1 + s.2) l l' -> sorted_but l n (s :: ss) ->
  (forall i j, in_seg i s -> in_seg j s -> i < j ->
     cle (el l' i) (el l' j) \/ exists t, t ∈ ts /\ in_seg i t /\ in_seg j t) ->
  sorted_but l' n (ts ++ ss).
Proof.
  intros (Hs & Hd & _) (_ & _ & O & I) Hb Hin i j Hi Hij Hj.
  assert (Hold : forall k, 0 <= k -> exists k', 0 <= k' /\ el l' k = el l k' /\
    (in_seg k s /\ in_seg k' s \/ ~ in_seg k s /\ k' = k)).
  { intros k Hk. unfold in_seg. destruct (decide (s.1 <= k < s.1 + s.2)) as [H|H].
    - destruct (I k H) as (k' & ? & ?). exists k'. destruct Hs. cbn in *.
      split_and!; [lia|done|by left].
    - exists k. split_and!; [done|apply O; lia|by right]. }
  destruct (Hold i Hi) as (i' & Hi' & Ei & Ci), (Hold j ltac:(lia)) as (j' & Hj' & Ej & Cj).
  destruct Ci as [[Ci Ci']|[Ci ->]], Cj as [[Cj Cj']|[Cj ->]].
  - destruct (Hin i j Ci Cj Hij) as [|(t & Ht & ?)]; [by left|].
    right. exists t. rewrite elem_of_app. auto.
  - rewrite Ei, Ej. unfold in_seg, sub_seg in *. cbn in Hs.
    destruct (Hb i' j) as [|(t & [->|Ht]%elem_of_cons & Hti & Htj)]; [lia..|by left|done|].
    exfalso. specialize (Hd t Ht). unfold disj, in_seg in *. lia.
  - rewrite Ei, Ej. unfold in_seg, sub_seg in *. cbn in Hs.
    destruct (Hb i j') as [|(t & [->|Ht]%elem_of_cons & Hti & Htj)]; [lia..|by left|done|].
    exfalso. specialize (Hd t Ht). unfold disj, in_seg in *. lia.
  - rewrite Ei, Ej. destruct (Hb i j Hi Hij Hj) as [|(t & [->|Ht]%elem_of_cons & Hti & Htj)];
      [by left|done|]. right. exists t. rewrite elem_of_app. auto.
Qed.

(** The pairs of a partitioned segment that are not in one part are in order. *)
Lemma parted_sorted_but l ptr n lt gt i j :
  cmp_ok -> lt <= gt -> parted l ptr n lt gt -> in_seg i (ptr, n) -> in_seg j (ptr, n) -> i < j ->
  cle (el l i) (el l j) \/ exists t, t ∈ [(ptr, lt); (ptr + gt, n - gt)] /\ in_seg i t /\ in_seg j t.
Proof.
  unfold in_seg. cbn [fst snd]. intros Hok Hlg (pv & Hl & Hg & Hm) Hi Hj Hij.
  destruct (Z_lt_le_dec j (ptr + lt)) as [Hjl|Hjl].
  { right. exists (ptr, lt). cbn. rewrite elem_of_cons. split; [by left|lia]. }
  destruct (Z_lt_le_dec i (ptr + gt)) as [Hig|Hig].
  2:{ right. exists (ptr + gt, n - gt). cbn. rewrite !elem_of_cons. split; [by right; left|lia]. }
  left.
  assert (Hip : cle (el l i) pv).
  { destruct (Z_lt_le_dec i (ptr + lt)) as [Hil|Hil].
    - apply cle_flip; [done|]. assert (0 < cmp pv (el l i)) by (apply Hl; lia). lia.
    - destruct (Hm i ltac:(lia)) as [->|H0]; [by apply cle_refl|]. apply cle_flip; [done|lia]. }
  assert (Hpj : cle pv (el l j)).
  { destruct (Z_lt_le_dec j (ptr + gt)) as [Hjg|Hjg].
    - destruct (Hm j ltac:(lia)) as [->|H0]; [by apply cle_refl|]. unfold cle. lia.
    - assert (cmp pv (el l j) < 0) by (apply Hg; lia). unfold cle. lia. }
  by eapply cle_trans.
Qed.

(** ** The quicksort loop and its stack *)

(** The depths of the stack entries grow towards the top: at most 50 entries fit. *)
Fixpoint depths_ok (stack : list (Z * Z * Z)) : Prop :=
  match stack with
  | [] => True
  | (_, _, depth) :: stack => zlen stack <= depth /\ depths_ok stack
  end.

Fixpoint weight (ss : list (Z * Z)) : Z :=
  match ss with [] => 0 | s :: ss => s.2 + 1 + weight ss end.

Lemma weight_nonneg n ss : segs_ok n ss -> 0 <= weight ss.
Proof.
  induction ss as [|s ss IH]; cbn; [lia|]. intros ((_ & Hs & _) & _ & H).
  specialize (IH H). lia.
Qed.

Record rq_inv (n : Z) l0 l (ss : list (Z * Z)) : Prop := {
  rq_perm : perm_in 0 n l0 l;
  rq_segs : segs_ok n ss;
  rq_sorted : cmp_ok -> sorted_but l n ss
}.

(** A sorted first segment is no longer pending. *)
Lemma rq_inv_pop n l0 l l' s ss :
  rq_inv n l0 l (s :: ss) -> perm_in s.1 (s.1 + s.2) l l' ->
  (cmp_ok -> sorted_seg l' s.1 (s.1 + s.2)) -> rq_inv n l0 l' ss.
Proof.
  intros [Hp Hs Hb] Hp' Hsort. pose proof Hs as ((Hs1 & Hs2 & Hs3) & _ & Hss). cbn in Hs1, Hs3.
  constructor; [|done|].
  - eapply perm_in_trans; [done|exact Hp|]. eapply perm_in_weaken; [..|exact Hp']; lia.
  - intros Hok. apply (sorted_but_step l l' n s [] ss); [done|done|by apply Hb|].
    intros i j Hi Hj Hij. left. unfold in_seg in *. apply Hsort; [done|lia..].
Qed.

Lemma rq_inv_part n l0 l l' ptr k lt gt ss t u :
  rq_inv n l0 l ((ptr, k) :: ss) -> perm_in ptr (ptr + k) l l' ->
  0 <= lt -> lt <= gt -> gt <= k -> parted l' ptr k lt gt ->
  (t = (ptr, lt) /\ u = (ptr + gt, k - gt) \/ t = (ptr + gt, k - gt) /\ u = (ptr, lt)) ->
  rq_inv n l0 l' (t :: u :: ss).
Proof.
  intros [Hp Hs Hb] Hp' H1 H2 H3 Hpt Htu. pose proof Hs as ((Hs1 & Hs2 & Hs3) & _ & Hss).
  cbn in Hs1, Hs2, Hs3. constructor.
  - eapply perm_in_trans; [done|exact Hp|]. eapply perm_in_weaken; [..|exact Hp']; lia.
  - apply (segs_ok_split n (ptr, k)); [| | |done]; unfold sub_seg, disj;
      destruct Htu as [[-> ->]|[-> ->]]; cbn; lia.
  - intros Hok. apply (sorted_but_step l l' n (ptr, k) [t; u] ss); [done|done|by apply Hb|].
    intros i j Hi Hj Hij.
    destruct (parted_sorted_but l' ptr k lt gt i j) as [|(v & Hv & Hin)]; [done..|by left|].
    right. exists v. split; [|done]. destruct Htu as [[-> ->]|[-> ->]]; [done|].
    rewrite !elem_of_cons in Hv |- *. tauto.
Qed.

Lemma quick_loop_spec n l0 l stack ptr k depth :
  n <= zlen l0 -> rq_inv n l0 l ((ptr, k) :: map fst stack) -> depths_ok stack -> zlen stack <= depth ->
  yields (quick_loop cmp l stack ptr k depth) (fun '(l', stack', ptr', k') =>
    rq_inv n l0 l' ((ptr', k') :: map fst stack') /\ depths_ok stack' /\
    weight ((ptr', k') :: map fst stack') <= weight ((ptr, k) :: map fst stack)).
Proof.
  intros Hn Hinv Hd Hdep. unfold quick_loop.
  pose proof (rq_segs _ _ _ _ Hinv) as ((_ & Hk & _) & _). cbn in Hk.
  apply (loop_yields _ (fun '(l', stack', ptr', k', depth') =>
    rq_inv n l0 l' ((ptr', k') :: map fst stack') /\ depths_ok stack' /\ zlen stack' <= depth' /\
    weight ((ptr', k') :: map fst stack') <= weight ((ptr, k) :: map fst stack))
    (fun '(_, _, _, k', _) => Z.to_nat k')).
  2:{ done. }
  2:{ lia. }
  clear Hinv Hd Hdep. intros [[[[m stk] p] c] d] (Hinv & Hd & Hdep & Hw).
  pose proof (rq_perm _ _ _ _ Hinv) as (Lm & _).
  pose proof (rq_segs _ _ _ _ Hinv) as ((Hs1 & Hs2 & Hs3) & _). cbn in Hs1, Hs2, Hs3.
  destruct (Z.gtb_spec c 6).
  2:{ done. }
  destruct (Z.gtb_spec (d + 1) 50).
  { apply yields_bind. eapply yields_mono; [apply (heapsortx_spec m p c); lia|].
    intros m' (Hp' & Hs'). cbn. assert (Hi : rq_inv n l0 m' (map fst stk)).
    { by apply (rq_inv_pop n l0 m m' (p, c)). }
    split_and!; [|done|cbn in Hw; lia]. destruct Hi as [Hip His Hib]. constructor; [done| |].
    - apply (segs_ok_sub n (p, c)); [unfold sub_seg; cbn; lia|]. apply (rq_segs _ _ _ _ Hinv).
    - intros Hok i j Hi Hij Hj. destruct (Hib Hok i j Hi Hij Hj) as [|(s & Hs & ?)]; [by left|].
      right. exists s. rewrite elem_of_cons. auto. }
  apply yields_bind. eapply yields_mono; [apply (partition_spec m p c); lia|].
  intros [[[m' lt] gt] pgt] (Hp' & -> & (G1 & G2 & G3 & G4) & Hpt).
  assert (Hpush : forall e, stack_push stk (e, d + 1) = Ret ((e, d + 1) :: stk)).
  { intros e. unfold stack_push. destruct (Z.ltb_spec (zlen stk) 50); [done|lia]. }
  assert (Hgo : forall t u, (t = (p, lt) /\ u = (p + gt, c - gt) \/ t = (p + gt, c - gt) /\ u = (p, lt)) ->
    rq_inv n l0 m' (t :: map fst ((u, d + 1) :: stk)) /\ depths_ok ((u, d + 1) :: stk) /\
    zlen ((u, d + 1) :: stk) <= d + 1 /\
    weight (t :: map fst ((u, d + 1) :: stk)) <= weight ((ptr, k) :: map fst stack)).
  { intros t u Htu. split_and!.
    - by apply (rq_inv_part n l0 m m' p c lt gt).
    - destruct u. cbn. split; [lia|done].
    - rewrite zlen_cons. lia.
    - cbn in Hw |- *. destruct Htu as [[-> ->]|[-> ->]]; cbn; lia. }
  destruct (Z.gtb_spec lt (c - gt)); rewrite Hpush; cbn [mbind outcome_bind yields mret outcome_ret];
    (split; [apply Hgo; tauto|lia]).
Qed.

Lemma rqsort_loop_spec n l :
  2 <= n -> n <= zlen l ->
  yields (rqsort cmp l n) (fun l' => rq_inv n l l' []).
Proof.
  intros Hn Hlen. unfold rqsort. destruct (Z.ltb_spec n 2); [lia|].
  apply (loop_yields _ (fun '(l', stack) => rq_inv n l l' (map fst stack) /\ depths_ok stack)
    (fun '(_, stack) => Z.to_nat (weight (map fst stack)))).
  - intros [m [|[[p c] d] stk]] (Hinv & Hd); [done|]. cbn in Hd. destruct Hd as [Hd1 Hd2].
    apply yields_bind. eapply yields_mono; [by apply (quick_loop_spec n l m stk p c d)|].
    intros [[[m1 stk1] p1] c1] (Hinv1 & Hd' & Hw).
    pose proof (rq_perm _ _ _ _ Hinv1) as (L1 & _).
    pose proof (rq_segs _ _ _ _ Hinv1) as ((Hs1 & Hs2 & Hs3) & _ & Hss). cbn in Hs1, Hs2, Hs3.
    apply yields_bind. eapply yields_mono; [apply (insertion_sort_spec m1 p1 c1); lia|].
    intros m2 (Hp2 & Hsort). cbn [yields mret outcome_ret]. split.
    + split; [|done]. by apply (rq_inv_pop n l m1 m2 (p1, c1)).
    + pose proof (weight_nonneg _ _ Hss). cbn in Hw |- *. lia.
  - cbn. split; [|split; [by rewrite zlen_nil|done]]. constructor; [apply perm_in_refl| |].
    + cbn. unfold sub_seg. cbn. split_and!; [lia..| |done]. intros t Ht. by apply elem_of_nil in Ht.
    + intros _ i j Hi Hij Hj. right. exists (0, n). rewrite elem_of_cons. unfold in_seg. cbn.
      split; [by left|lia].
  - cbn. lia.
Qed.
End Proofs.

(** C12: [rqsort] sorts.  For any comparison function, even an inconsistent one,
    the sort terminates, never reads or writes outside the array, never
    overflows its stack of 50 segments, and permutes the first [nmemb]
    elements leaving the others alone; when the comparison is a total preorder the
    result is in order. *)
Theorem rqsort_spec {A} `{!Inhabited A} (cmp : A -> A -> Z) l nmemb :
  nmemb <= zlen l ->
  yields (rqsort cmp l nmemb) (fun l' => perm_in 0 nmemb l l' /\
    (cmp_ok cmp -> sorted_seg cmp l' 0 nmemb)).
Proof.
  intros Hn. destruct (Z_lt_le_dec nmemb 2) as [Hs|Hs].
  - unfold rqsort. rewrite (proj2 (Z.ltb_lt _ _) Hs). cbn. split; [apply perm_in_refl|].
    intros _ i j. lia.
  - eapply yields_mono; [by apply rqsort_loop_spec|]. intros l' [Hp _ Hb]. split; [done|].
    intros Hok i j Hi Hij Hj. destruct (Hb Hok i j Hi Hij Hj) as [|(s & Hin & _)]; [done|].
    by apply elem_of_nil in Hin.
Qed.

Lemma rqsort_spec_witness :
  yields (rqsort Z.sub [5; 3; 9; 1; 7; 2; 4; 8] 8) (fun l' => sorted_seg Z.sub l' 0 8).
Proof.
  eapply yields_mono; [apply (rqsort_spec Z.sub [5; 3; 9; 1; 7; 2; 4; 8] 8); vm_compute; discriminate|].
  intros l' [_ H]. apply H. constructor; lia.
Defined.
