(* ===== verification/CharRange.v ===== *)
(** * libunicode.c: character ranges

    A [CharRange] is an array of code points [p0, p1, p2, ...]: the set
    [p0, p1) + [p2, p3) + ....  [cr_points] holds the [len] entries in use
    ([cr_len] is the field [len]); the entries above them, up to [cr_size], are
    never read.  The allocator is the class [Realloc] of DynBuf.v; its state is
    threaded beside the range, since the ranges of a computation share it. *)

From stdpp Require Import sorting.
From S2P Require Import Prelude Cutils DynBuf.

Inductive CharRangeOpEnum := CR_OP_UNION | CR_OP_INTER | CR_OP_XOR.

Record CharRange := MkCharRange { cr_size : Z; cr_points : list Z }.

Definition cr_len (cr : CharRange) : Z := zlen (cr_points cr).

Section CharRange.
Context `{Realloc}.
Abbreviation cr_st := (CharRange * heap)%type.

Definition cr_init : CharRange := MkCharRange 0 [].

Definition cr_free (cr : CharRange) (h : heap) : heap := heap_free h.

Definition cr_realloc (st : cr_st) (size : Z) : outcome (Z * cr_st) :=
  let '(cr, h) := st in
  if size >? cr_size cr then
    s3 ← c_int (cr_size cr * 3);
    let new_size := max_int size (s3 / 2) in
    match heap_request h (u64 (new_size * 4)) with
    | None => mret (-1, (cr, h))
    | Some h => mret (0, (MkCharRange new_size (cr_points cr), h))
    end
  else mret (0, (cr, h)).

(** Stores at index [len]: the array must have room for it. *)
Definition cr_push (cr : CharRange) (v : Z) : outcome CharRange :=
  if cr_len cr <? cr_size cr then Ret (MkCharRange (cr_size cr) (cr_points cr ++ [v])) else Undef.

Definition cr_add_point (st : cr_st) (v : Z) : outcome (Z * cr_st) :=
  try (cr, h) ← (if cr_len st.1 >=? cr_size st.1 then cr_realloc st (cr_len st.1 + 1) else mret (0, st));
  cr ← cr_push cr v;
  mret (0, (cr, h)).

Definition cr_add_interval (st : cr_st) (c1 c2 : Z) : outcome (Z * cr_st) :=
  try (cr, h) ← (if cr_len st.1 + 2 >? cr_size st.1 then cr_realloc st (cr_len st.1 + 2) else mret (0, st));
  cr ← cr_push cr c1;
  cr ← cr_push cr c2;
  mret (0, (cr, h)).

Definition cr_copy (st : cr_st) (cr1 : CharRange) : outcome (Z * cr_st) :=
  try (cr, h) ← cr_realloc st (cr_len cr1);
  if cr_len cr1 <=? cr_size cr then mret (0, (MkCharRange (cr_size cr) (cr_points cr1), h)) else Undef.

(** The inner loop of [cr_compress]: [while ((j + 3) < len && pt[j + 1] == pt[j + 2]) j += 2;] *)
Definition cr_merge (pt : list Z) (len j : Z) : outcome Z :=
  loop (S (Z.to_nat (len - j))) (fun j =>
    if j + 3 <? len then
      a ← aget pt (j + 1);
      b ← aget pt (j + 2);
      mret (if a =? b then inl (j + 2) else inr j)
    else mret (inr j)) j.

(** Merges consecutive intervals and removes empty intervals, in place. *)
Definition cr_compress (cr : CharRange) : outcome CharRange :=
  let len := cr_len cr in
  r ← loop (S (Z.to_nat len)) (fun st : list Z * Z * Z =>
    let '(pt, i, k) := st in
    if i + 1 <? len then
      a ← aget pt i;
      b ← aget pt (i + 1);
      if a =? b then mret (inl (pt, i + 2, k))
      else
        j ← cr_merge pt len i;
        a ← aget pt i;
        pt ← aset pt k a;
        b ← aget pt (j + 1);
        pt ← aset pt (k + 1) b;
        mret (inl (pt, j + 2, k + 2))
    else mret (inr (pt, k))) (cr_points cr, 0, 0);
  let '(pt, k) := r in
  mret (MkCharRange (cr_size cr) (take (Z.to_nat k) pt)).

(** One more point from [a] or [b] in increasing order: [v] and the new indices. *)
Definition cr_op_next (a_pt b_pt : list Z) (a_idx b_idx : Z) : outcome (option (Z * Z * Z)) :=
  if (a_idx <? zlen a_pt) && (b_idx <? zlen b_pt) then
    a ← aget a_pt a_idx;
    b ← aget b_pt b_idx;
    if a <? b then mret (Some (a, a_idx + 1, b_idx))
    else if a =? b then mret (Some (a, a_idx + 1, b_idx + 1))
    else mret (Some (b, a_idx, b_idx + 1))
  else if a_idx <? zlen a_pt then
    a ← aget a_pt a_idx; mret (Some (a, a_idx + 1, b_idx))
  else if b_idx <? zlen b_pt then
    b ← aget b_pt b_idx; mret (Some (b, a_idx, b_idx + 1))
  else mret None.

Definition cr_op_is_in (op : CharRangeOpEnum) (a_idx b_idx : Z) : Z :=
  match op with
  | CR_OP_UNION => (a_idx .& 1) .| (b_idx .& 1)
  | CR_OP_INTER => (a_idx .& 1) .& (b_idx .& 1)
  | CR_OP_XOR => (a_idx .& 1) .^ (b_idx .& 1)
  end.

Definition cr_op (st : cr_st) (a_pt b_pt : list Z) (op : CharRangeOpEnum) : outcome (Z * cr_st) :=
  try (cr, h) ← loop (S (length a_pt + length b_pt)) (fun s : Z * Z * cr_st =>
    let '(a_idx, b_idx, st) := s in
    n ← cr_op_next a_pt b_pt a_idx b_idx;
    match n with
    | None => mret (inr (0, st))
    | Some (v, a_idx, b_idx) =>
        if negb (cr_op_is_in op a_idx b_idx =? cr_len st.1 .& 1) then
          r ← cr_add_point st v;
          mret (if r.1 =? 0 then inl (a_idx, b_idx, r.2) else inr (-1, r.2))
        else mret (inl (a_idx, b_idx, st))
    end) (0, 0, st);
  cr ← cr_compress cr;
  mret (0, (cr, h)).

Definition cr_union1 (st : cr_st) (b_pt : list Z) : outcome (Z * cr_st) :=
  let '(a, h) := st in
  r ← cr_op (cr_init, h) (cr_points a) b_pt CR_OP_UNION;
  let '(ret, (cr, h)) := r in
  mret (ret, (cr, cr_free a h)).

Definition cr_union_interval (st : cr_st) (c1 c2 : Z) : outcome (Z * cr_st) :=
  cr_union1 st [c1; u32 (c2 + 1)].

Definition cr_invert (st : cr_st) : outcome (Z * cr_st) :=
  try (cr, h) ← cr_realloc st (cr_len st.1 + 2);
  if cr_len cr + 2 <=? cr_size cr then
    cr ← cr_compress (MkCharRange (cr_size cr) (0 :: cr_points cr ++ [UINT32_MAX]));
    mret (0, (cr, h))
  else Undef.
End CharRange.

(** Sanity checks. *)
Example cr_compress_ex : cr_compress (MkCharRange 12 [1; 1; 2; 3; 3; 4; 5; 6; 6; 6; 6; 9]) = Ret (MkCharRange 12 [2; 4; 5; 9]).
Proof. vm_compute. reflexivity. Qed.
Definition free_heap : Realloc := limited_heap 1000000.
Example cr_op_ex :
  (fun r => cr_points r.2.1) <$> @cr_op free_heap (cr_init, tt) [10; 20; 30; 40] [15; 30; 50; 60] CR_OP_UNION
  = Ret [10; 40; 50; 60].
Proof. vm_compute. reflexivity. Qed.
Example cr_invert_ex :
  (fun r => cr_points r.2.1) <$> @cr_invert free_heap (MkCharRange 2 [10; 20], tt) = Ret [0; 10; 20; UINT32_MAX].
Proof. vm_compute. reflexivity. Qed.

(** * The set a list of points denotes *)

(** [p0, p1) + [p2, p3) + ... *)
Fixpoint in_ranges (pts : list Z) (c : Z) : bool :=
  match pts with
  | a :: b :: pts => (a <=? c) && (c <? b) || in_ranges pts c
  | _ => false
  end.

(** The parity of the number of points at or below [c]. *)
Fixpoint parity_at (pts : list Z) (c : Z) : bool :=
  match pts with [] => false | p :: pts => xorb (p <=? c) (parity_at pts c) end.

Abbreviation sorted_le := (StronglySorted Z.le).
Abbreviation sorted_lt := (StronglySorted Z.lt).
Definition even_len (pts : list Z) : Prop := Z.even (zlen pts) = true.

Lemma parity_at_app l1 l2 c : parity_at (l1 ++ l2) c = xorb (parity_at l1 c) (parity_at l2 c).
Proof.
  induction l1 as [|x l1 IH]; cbn; [by destruct (parity_at l2 c)|]. by rewrite IH, xorb_assoc.
Qed.

(** No point, or all the points, below [c]. *)
Lemma parity_at_above pts c : Forall (fun p => c < p) pts -> parity_at pts c = false.
Proof.
  induction 1 as [|p pts Hp _ IH]; cbn; [done|]. rewrite IH. by destruct (Z.leb_spec p c); [lia|].
Qed.

Lemma parity_at_below pts c : Forall (fun p => p <= c) pts -> parity_at pts c = Z.odd (zlen pts).
Proof.
  induction 1 as [|p pts Hp _ IH]; [done|]. cbn [parity_at].
  rewrite IH, zlen_cons, Z.odd_add. destruct (Z.leb_spec p c); [|lia]. cbn. by destruct (Z.odd (zlen pts)).
Qed.

Lemma even_len_cons2 a b pts : even_len (a :: b :: pts) <-> even_len pts.
Proof. unfold even_len. rewrite !zlen_cons. replace (zlen pts + 1 + 1) with (zlen pts + 2 * 1) by lia. by rewrite Z.even_add_mul_2. Qed.

(** On sorted points both readings agree. *)
Lemma in_ranges_parity pts c : even_len pts -> sorted_le pts -> in_ranges pts c = parity_at pts c.
Proof.
  assert (Hgen : forall n pts, (length pts <= n)%nat -> even_len pts -> sorted_le pts ->
    in_ranges pts c = parity_at pts c); [|by eauto].
  clear pts. induction n as [|n IH]; intros [|a [|b pts]] Hn Hev Hs; cbn in Hn; try lia; try done.
  apply even_len_cons2 in Hev. apply StronglySorted_inv in Hs as [Hs [Hab Ha]%list.Forall_cons].
  apply StronglySorted_inv in Hs as [Hs Hb]. cbn [in_ranges parity_at].
  rewrite <- IH by (done || lia).
  destruct (Z.leb_spec a c), (Z.ltb_spec c b), (Z.leb_spec b c); try lia; cbn; try done.
  - rewrite IH by (done || lia). rewrite parity_at_above; [done|].
    eapply list.Forall_impl; [exact Hb|]. cbn beta. lia.
  - by destruct (in_ranges pts c).
Qed.

Lemma sorted_lt_le pts : sorted_lt pts -> sorted_le pts.
Proof.
  induction 1 as [|a l H IH Ha]; constructor; [done|]. eapply list.Forall_impl; [exact Ha|]. cbn beta. lia.
Qed.

(** * [cr_compress] *)

Lemma take_write2 {A} (l : list A) k a b : (S k < length l)%nat ->
  take (S (S k)) (<[S k := b]> (<[k := a]> l)) = take k l ++ [a; b].
Proof.
  intros Hk. rewrite (take_S_r _ _ b) by (apply list_lookup_insert_eq; by rewrite length_insert).
  rewrite take_insert_ge by lia. rewrite (take_S_r _ _ a) by (apply list_lookup_insert_eq; lia).
  by rewrite take_insert_ge, <- app_assoc by lia.
Qed.

(** The merge runs over pairs of equal points. *)
Lemma cr_merge_spec pt i :
  0 <= i -> i + 1 < zlen pt ->
  yields (cr_merge pt (zlen pt) i) (fun j => i <= j /\ j + 1 < zlen pt /\ Z.even (j - i) = true /\
    (forall c, parity_at (drop (Z.to_nat (i + 1)) pt) c = parity_at (drop (Z.to_nat (j + 1)) pt) c) /\
    (j + 3 < zlen pt -> forall a b, aget pt (j + 1) = Ret a -> aget pt (j + 2) = Ret b -> a <> b)).
Proof.
  intros Hi Hl. unfold cr_merge.
  apply (loop_yields _ (fun j => i <= j /\ j + 1 < zlen pt /\ Z.even (j - i) = true /\
    (forall c, parity_at (drop (Z.to_nat (i + 1)) pt) c = parity_at (drop (Z.to_nat (j + 1)) pt) c))
    (fun j => Z.to_nat (zlen pt - j))).
  - intros j (Hij & Hj & Hev & Hp). destruct (Z.ltb_spec (j + 3) (zlen pt)).
    2:{ cbn. split_and!; [lia..|done|done|lia]. }
    destruct (aget_in_range pt (j + 1)) as (a & Ea & _); [lia|].
    destruct (aget_in_range pt (j + 2)) as (b & Eb & _); [lia|].
    rewrite Ea, Eb. cbn. destruct (Z.eqb_spec a b) as [->|Hne].
    + split; [|lia]. split_and!; [lia..| |].
      * replace (j + 2 - i) with (j - i + 2 * 1) by lia. by rewrite Z.even_add_mul_2.
      * intros c. rewrite Hp, (aget_drop pt (j + 1) b) by done.
        replace (j + 1 + 1) with (j + 2) by lia. rewrite (aget_drop pt (j + 2) b) by done.
        cbn [parity_at]. replace (j + 2 + 1) with (j + 3) by lia.
        by destruct (b <=? c), (parity_at (drop (Z.to_nat (j + 3)) pt) c).
    + split_and!; [lia..|done|done|]. intros _ a' b' E1 E2. congruence.
  - split_and!; [lia..| |done]. by replace (i - i) with 0 by lia.
  - lia.
Qed.

(** What [cr_compress] has done when it is at index [i]: [k] entries are final. *)
Record compressing (pt0 pt : list Z) (i k : Z) : Prop := {
  cp_order : 0 <= k /\ k <= i /\ i <= zlen pt0;
  cp_len : zlen pt = zlen pt0;
  cp_even : Z.even i = true /\ Z.even k = true;
  cp_rest : drop (Z.to_nat i) pt = drop (Z.to_nat i) pt0;
  cp_parity : forall c, xorb (parity_at (take (Z.to_nat k) pt) c)
    (parity_at (drop (Z.to_nat i) pt0) c) = parity_at pt0 c;
  cp_sorted : sorted_le pt0 -> sorted_lt (take (Z.to_nat k) pt) /\
    forall x y, x ∈ take (Z.to_nat k) pt -> y ∈ drop (Z.to_nat i) pt0 -> x < y;
  cp_from : forall x, x ∈ take (Z.to_nat k) pt -> x ∈ pt0
}.

Lemma aget_elem_of {A} (l : list A) i x : aget l i = Ret x -> x ∈ l.
Proof. intros [_ H]%aget_lookup. by eapply list_elem_of_lookup_2. Qed.

Lemma aget_rest (pt pt0 : list Z) i j :
  zlen pt = zlen pt0 -> drop (Z.to_nat i) pt = drop (Z.to_nat i) pt0 -> 0 <= i -> i <= j -> aget pt j = aget pt0 j.
Proof.
  intros Hl E Hi Hj. unfold aget. destruct (j <? 0); [done|].
  replace (Z.to_nat j) with (Z.to_nat i + (Z.to_nat j - Z.to_nat i))%nat by lia.
  by rewrite <- !lookup_drop, E.
Qed.

Lemma drop_drop_eq {A} (l1 l2 : list A) i j :
  drop (Z.to_nat i) l1 = drop (Z.to_nat i) l2 -> 0 <= i -> i <= j -> drop (Z.to_nat j) l1 = drop (Z.to_nat j) l2.
Proof.
  intros E Hi Hj. replace (Z.to_nat j) with (Z.to_nat i + (Z.to_nat j - Z.to_nat i))%nat by lia.
  by rewrite <- !drop_drop, E.
Qed.

Lemma sorted_le_drop pt i x y : sorted_le pt -> aget pt i = Ret x -> y ∈ drop (Z.to_nat i) pt -> x <= y.
Proof.
  intros Hs Hx Hy. rewrite (aget_drop _ _ _ Hx) in Hy. apply elem_of_cons in Hy as [->|Hy]; [lia|].
  rewrite <- (take_drop (Z.to_nat i) pt) in Hs. rewrite (aget_drop _ _ _ Hx) in Hs.
  apply StronglySorted_app_1_r, StronglySorted_inv in Hs as [_ Hs].
  rewrite list.Forall_forall in Hs. by apply Hs.
Qed.

Lemma elem_of_drop_le {A} (l : list A) i j x : 0 <= i -> i <= j -> x ∈ drop (Z.to_nat j) l -> x ∈ drop (Z.to_nat i) l.
Proof.
  intros Hi Hj Hx. replace (Z.to_nat j) with (Z.to_nat i + (Z.to_nat j - Z.to_nat i))%nat in Hx by lia.
  rewrite <- drop_drop in Hx. rewrite list_elem_of_In in *. 
  rewrite <- (take_drop (Z.to_nat j - Z.to_nat i) (drop (Z.to_nat i) l)). apply List.in_or_app. by right.
Qed.

Lemma even_succ_lt i n : Z.even i = true -> Z.even n = true -> i < n -> i + 1 < n.
Proof. rewrite !Z.even_spec. intros [a ->] [b ->] H. lia. Qed.

(** On sorted points the emitted interval is not empty and ends below the points left. *)
Lemma emit_order pt i j a b c :
  sorted_le pt -> 0 <= i -> i <= j -> j + 1 < zlen pt -> Z.even (j + 2) = true -> even_len pt ->
  aget pt i = Ret a -> aget pt (i + 1) = Ret c -> a <> c -> aget pt (j + 1) = Ret b ->
  (j + 3 < zlen pt -> forall a b, aget pt (j + 1) = Ret a -> aget pt (j + 2) = Ret b -> a <> b) ->
  a < b /\ b ∈ drop (Z.to_nat i) pt /\ forall y, y ∈ drop (Z.to_nat (j + 2)) pt -> b < y.
Proof.
  intros Hs Hi Hij Hj Hjev Hev Ea Ec Hne Eb Hneq.
  assert (a <= c).
  { apply (sorted_le_drop pt i); [done..|].
    rewrite (aget_drop pt i a Ea), (aget_drop pt (i + 1) c Ec), !elem_of_cons. tauto. }
  assert (Hb : forall k, 0 <= k -> k <= j + 1 -> b ∈ drop (Z.to_nat k) pt).
  { intros k Hk Hkj. apply (elem_of_drop_le _ _ (j + 1)); [lia..|].
    rewrite (aget_drop pt (j + 1) b Eb). by left. }
  assert (c <= b) by (apply (sorted_le_drop pt (i + 1)); [done..|apply Hb; lia]).
  split_and!; [lia|apply Hb; lia|]. intros y Hy.
  destruct (Z_lt_le_dec (j + 3) (zlen pt)) as [Hj3|Hj3].
  - destruct (aget_in_range pt (j + 2)) as (d & Ed & _); [lia|]. pose proof (Hneq Hj3 b d Eb Ed).
    assert (b <= d).
    { apply (sorted_le_drop pt (j + 1)); [done..|]. rewrite (aget_drop pt (j + 1) b Eb), elem_of_cons.
      right. replace (j + 1 + 1) with (j + 2) by lia. rewrite (aget_drop pt (j + 2) d Ed). by left. }
    assert (d <= y) by (by apply (sorted_le_drop pt (j + 2))). lia.
  - exfalso. pose proof (even_succ_lt (j + 2) (zlen pt) Hjev Hev).
    rewrite drop_ge in Hy by zlia. by apply elem_of_nil in Hy.
Qed.

(** The step of [cr_compress] that emits the interval [pt[i], pt[j + 1]]. *)
Lemma compressing_emit pt0 pt i k j a b pt' :
  even_len pt0 -> compressing pt0 pt i k -> i + 1 < zlen pt0 -> aget pt i = Ret a ->
  (exists c, aget pt (i + 1) = Ret c /\ a <> c) ->
  i <= j -> j + 1 < zlen pt -> Z.even (j - i) = true ->
  (forall c, parity_at (drop (Z.to_nat (i + 1)) pt) c = parity_at (drop (Z.to_nat (j + 1)) pt) c) ->
  (j + 3 < zlen pt -> forall a b, aget pt (j + 1) = Ret a -> aget pt (j + 2) = Ret b -> a <> b) ->
  aget pt (j + 1) = Ret b ->
  pt' = <[Z.to_nat (k + 1) := b]> (<[Z.to_nat k := a]> pt) ->
  compressing pt0 pt' (j + 2) (k + 2).
Proof.
  intros Hev [H1 H2 [H3 H3'] H4 H5 H6 H7] Hi1 Ea (c1 & Ec & Hne) Hij Hj Hje Hpar Hneq Eb ->.
  assert (Hjev : Z.even (j + 2) = true).
  { replace (j + 2) with (i + (j - i) + 2 * 1) by lia. by rewrite Z.even_add_mul_2, Z.even_add, H3, Hje. }
  assert (Ht : take (Z.to_nat (k + 2)) (<[Z.to_nat (k + 1):=b]> (<[Z.to_nat k:=a]> pt)) =
    take (Z.to_nat k) pt ++ [a; b]).
  { replace (Z.to_nat (k + 2)) with (S (S (Z.to_nat k))) by lia.
    replace (Z.to_nat (k + 1)) with (S (Z.to_nat k)) by lia. apply take_write2. zlia. }
  assert (Hrest : drop (Z.to_nat (j + 2)) pt = drop (Z.to_nat (j + 2)) pt0) by (eapply drop_drop_eq; [exact H4|lia..]).
  pose proof Ea as Ea0. rewrite (aget_rest pt pt0 i i) in Ea0 by (done || lia).
  pose proof Eb as Eb0. rewrite (aget_rest pt pt0 i (j + 1)) in Eb0 by (done || lia).
  rewrite (aget_rest pt pt0 i (i + 1)) in Ec by (done || lia).
  constructor.
  - unfold even_len in Hev. pose proof (even_succ_lt (j + 1 + 1 - 2) (zlen pt0)). lia.
  - unfold zlen in *. rewrite !length_insert. lia.
  - split; [done|]. replace (k + 2) with (k + 2 * 1) by lia. by rewrite Z.even_add_mul_2.
  - rewrite !drop_insert_lt by lia. done.
  - intros c. rewrite <- (H5 c), Ht, parity_at_app.
    rewrite <- H4 at 1. rewrite (aget_drop pt i a Ea). cbn [parity_at].
    rewrite Hpar, (aget_drop pt (j + 1) b Eb). cbn [parity_at].
    replace (j + 1 + 1) with (j + 2) by lia. rewrite Hrest.
    by destruct (parity_at (take (Z.to_nat k) pt) c), (a <=? c), (b <=? c), (parity_at (drop (Z.to_nat (j + 2)) pt0) c).
  - intros Hs. destruct (H6 Hs) as [Hs1 Hs2]. rewrite Ht.
    destruct (emit_order pt0 i j a b c1) as (Hab & Hib & Hby); try done; try lia.
    { intros Hj3 x y Ex Ey. rewrite <- (aget_rest pt pt0 i) in Ex, Ey by (done || lia).
      apply Hneq; [lia|done|done]. }
    assert (Hia : a ∈ drop (Z.to_nat i) pt0) by (rewrite (aget_drop pt0 i a Ea0); by left).
    split.
    + rewrite StronglySorted_app. split_and!; [|done|].
      * intros x y Hx Hy. apply Hs2; [done|].
        apply elem_of_cons in Hy as [->|Hy]; [done|]. by apply list_elem_of_singleton in Hy as ->.
      * repeat constructor. lia.
    + intros x y Hx Hy. specialize (Hby y Hy).
      rewrite elem_of_app, !elem_of_cons in Hx. destruct Hx as [Hx|[->|[->|Hx]]]; [|lia|done|by apply elem_of_nil in Hx].
      assert (x < a) by (by apply Hs2). lia.
  - intros x. rewrite Ht, elem_of_app, !elem_of_cons. intros [Hx|[->|[->|Hx]]];
      [by apply H7|by eapply aget_elem_of|by eapply aget_elem_of|by apply elem_of_nil in Hx].
Qed.

(** The result of [cr_compress] denotes the same set; its points strictly increase
    when they were in order. *)
Record compressed (pts pts' : list Z) : Prop := {
  cd_parity : forall c, parity_at pts' c = parity_at pts c;
  cd_even : even_len pts';
  cd_sorted : sorted_le pts -> sorted_lt pts';
  cd_from : forall x, x ∈ pts' -> x ∈ pts;
  cd_len : zlen pts' <= zlen pts
}.

Lemma cr_compress_yields cr :
  even_len (cr_points cr) ->
  yields (cr_compress cr) (fun cr' => cr_size cr' = cr_size cr /\ compressed (cr_points cr) (cr_points cr')).
Proof.
  intros Hev. unfold cr_compress. set (pt0 := cr_points cr) in *. unfold cr_len. fold pt0.
  apply yields_bind.
  apply (yields_mono _ (fun '(pt, k) => compressing pt0 pt (zlen pt0) k)).
  - apply (loop_yields _ (fun '(pt, i, k) => compressing pt0 pt i k) (fun '(_, i, _) => Z.to_nat (zlen pt0 - i))).
    + intros [[pt i] k] Hc. pose proof Hc as [H1 H2 [H3 H3'] H4 H5 H6 H7].
      destruct (Z.ltb_spec (i + 1) (zlen pt0)).
      2:{ cbn. destruct (decide (i = zlen pt0)) as [->|]; [done|].
          pose proof (even_succ_lt i (zlen pt0) H3 Hev). lia. }
      destruct (aget_in_range pt i) as (a & Ea & _); [lia|].
      destruct (aget_in_range pt (i + 1)) as (b & Eb & _); [lia|].
      rewrite Ea, Eb. cbn [mbind outcome_bind]. destruct (Z.eqb_spec a b) as [->|Hne].
      * cbn. split; [|lia].
        pose proof Ea as Ea0. rewrite (aget_rest pt pt0 i i) in Ea0 by (done || lia).
        pose proof Eb as Eb0. rewrite (aget_rest pt pt0 i (i + 1)) in Eb0 by (done || lia).
        constructor; try done; try lia.
        -- split; [|done]. replace (i + 2) with (i + 2 * 1) by lia. by rewrite Z.even_add_mul_2.
        -- eapply drop_drop_eq; [exact H4|lia..].
        -- intros c. rewrite <- (H5 c), (aget_drop pt0 i b Ea0), (aget_drop pt0 (i + 1) b Eb0).
           cbn [parity_at]. replace (i + 1 + 1) with (i + 2) by lia.
           by destruct (b <=? c), (parity_at (take (Z.to_nat k) pt) c), (parity_at (drop (Z.to_nat (i + 2)) pt0) c).
        -- intros Hs. destruct (H6 Hs) as [S1 S2]. split; [done|]. intros x y Hx Hy. apply S2; [done|].
           apply (elem_of_drop_le _ _ (i + 2)); [lia..|done].
      * apply yields_bind. rewrite <- H2 at 1. eapply yields_mono; [apply cr_merge_spec; lia|].
        intros j (Hij & Hj & Hje & Hpar & Hneq). cbn [mbind outcome_bind].
        rewrite aset_ok by lia. cbn [mbind outcome_bind].
        destruct (aget_in_range pt (j + 1)) as (d & Ed & _); [lia|].
        assert (Ed' : aget (<[Z.to_nat k:=a]> pt) (j + 1) = Ret d).
        { apply aget_lookup in Ed as [? Ed]. apply aget_lookup. split; [lia|].
          rewrite list_lookup_insert_ne by lia. done. }
        rewrite Ed'. cbn [mbind outcome_bind]. rewrite aset_ok by zlia. cbn. split; [|lia].
        eapply compressing_emit; eauto.
    + constructor; try done; pose proof (zlen_nonneg pt0); try lia.
      * intros _. rewrite take_0. split; [constructor|]. intros x y Hx. by apply elem_of_nil in Hx.
      * intros x. rewrite take_0. intros Hx. by apply elem_of_nil in Hx.
    + lia.
  - intros [pt k] [H1 H2 [H3 H3'] H4 H5 H6 H7]. cbn. split; [done|]. constructor; try done.
    + intros c. rewrite <- (H5 c), drop_ge by zlia. cbn. by destruct (parity_at _ c).
    + unfold even_len. replace (zlen (take (Z.to_nat k) pt)) with k by zlia. done.
    + intros Hs. by apply H6.
    + zlia.
Qed.

(** * The operations *)

Definition op_bool (op : CharRangeOpEnum) : bool -> bool -> bool :=
  match op with CR_OP_UNION => orb | CR_OP_INTER => andb | CR_OP_XOR => xorb end.

Lemma land_1 x : x .& 1 = b2z (Z.odd x).
Proof. change 1 with (Z.ones 1) at 1. rewrite Z.land_ones by lia. by rewrite Zmod_odd. Qed.

Lemma cr_op_is_in_spec op a b : cr_op_is_in op a b = b2z (op_bool op (Z.odd a) (Z.odd b)).
Proof. unfold cr_op_is_in. rewrite !land_1. by destruct op, (Z.odd a), (Z.odd b). Qed.

Lemma b2z_eqb a b : (b2z a =? b2z b) = eqb a b.
Proof. by destruct a, b. Qed.

Lemma take_aget {A} (l : list A) i x : aget l i = Ret x ->
  take (Z.to_nat (i + 1)) l = take (Z.to_nat i) l ++ [x].
Proof.
  intros [Hi Hx]%aget_lookup. replace (Z.to_nat (i + 1)) with (S (Z.to_nat i)) by lia. by apply take_S_r.
Qed.

(** The next point [v] of the merge: it comes from [a], from [b] or from both. *)
Definition op_next_ok (a b : list Z) (ai bi v ai' bi' : Z) : Prop :=
  (ai' = ai + 1 /\ bi' = bi /\ aget a ai = Ret v \/
   ai' = ai /\ bi' = bi + 1 /\ aget b bi = Ret v \/
   ai' = ai + 1 /\ bi' = bi + 1 /\ aget a ai = Ret v /\ aget b bi = Ret v) /\
  (sorted_le a -> sorted_le b ->
   forall y, y ∈ drop (Z.to_nat ai) a \/ y ∈ drop (Z.to_nat bi) b -> v <= y).

Lemma cr_op_next_spec a b ai bi :
  0 <= ai <= zlen a -> 0 <= bi <= zlen b ->
  yields (cr_op_next a b ai bi) (fun r =>
    match r with
    | None => ai = zlen a /\ bi = zlen b
    | Some (v, ai', bi') => op_next_ok a b ai bi v ai' bi'
    end).
Proof.
  intros Ha Hb. unfold cr_op_next.
  assert (Hnil : forall (l : list Z) i (y : Z), i = zlen l -> ~ y ∈ drop (Z.to_nat i) l).
  { intros l i y ->. rewrite drop_ge by zlia. apply not_elem_of_nil. }
  destruct (Z.ltb_spec ai (zlen a)) as [Hai|Hai], (Z.ltb_spec bi (zlen b)) as [Hbi|Hbi]; cbn [andb].
  - destruct (aget_in_range a ai) as (x & Ex & _); [lia|].
    destruct (aget_in_range b bi) as (y & Ey & _); [lia|]. rewrite Ex, Ey. cbn [mbind outcome_bind].
    destruct (Z.ltb_spec x y); [|destruct (Z.eqb_spec x y) as [->|]]; cbn; (split; [tauto|]);
      intros Hsa Hsb z [Hz|Hz];
      first [pose proof (sorted_le_drop _ _ _ _ Hsa Ex Hz)|pose proof (sorted_le_drop _ _ _ _ Hsb Ey Hz)]; lia.
  - destruct (aget_in_range a ai) as (x & Ex & _); [lia|]. rewrite Ex. cbn. split; [tauto|].
    intros Hsa Hsb z [Hz|Hz]; [by apply (sorted_le_drop _ _ _ _ Hsa Ex)|]. apply Hnil in Hz; [done|lia].
  - destruct (aget_in_range b bi) as (x & Ex & _); [lia|]. rewrite Ex. cbn. split; [tauto|].
    intros Hsa Hsb z [Hz|Hz]; [|by apply (sorted_le_drop _ _ _ _ Hsb Ex)]. apply Hnil in Hz; [done|lia].
  - cbn. lia.
Qed.

Section Operations.
Context `{Realloc}.

(** The capacity: below it the [int] computations of [cr_realloc] do not overflow. *)
Definition CR_MAX : Z := 2 ^ 28.

Definition cr_wf (cr : CharRange) : Prop := cr_len cr <= cr_size cr <= 2 ^ 29.

Definition heap_total : Prop := forall h n, heap_request h n <> None.

(** The outcome of an operation: 0 and [P], or -1 when the allocator refuses. *)
Definition cr_post (P : CharRange -> Prop) (r : Z * (CharRange * heap)) : Prop :=
  cr_wf r.2.1 /\ (r.1 = 0 /\ P r.2.1 \/ r.1 = -1 /\ ~ heap_total).

Lemma cr_post_mono (P Q : CharRange -> Prop) r : cr_post P r -> (forall cr, P cr -> Q cr) -> cr_post Q r.
Proof. intros [Hwf [[? ?]|?]] HPQ; split; auto. Qed.

Lemma yields_cr_try (P Q : CharRange -> Prop) o k :
  yields o (cr_post P) -> (forall cr h, cr_wf cr -> P cr -> yields (k (cr, h)) (cr_post Q)) ->
  yields (c_try o k) (cr_post Q).
Proof.
  intros Ho Hk. apply yields_try. eapply yields_mono; [exact Ho|].
  intros [r [cr h]] [Hwf [[Hr HP]|[Hr Ht]]]; cbn in Hr; subst r; cbn; [by apply Hk|].
  split; [done|]. by right.
Qed.

Lemma cr_init_wf : cr_wf cr_init.
Proof. unfold cr_wf, cr_len. cbn. rewrite zlen_nil. lia. Qed.

Lemma cr_realloc_spec cr h size :
  cr_wf cr -> size <= CR_MAX + 2 ->
  yields (cr_realloc (cr, h) size) (cr_post (fun cr' =>
    cr_points cr' = cr_points cr /\ size <= cr_size cr')).
Proof.
  intros [Hl Hs] Hn. unfold cr_realloc. pose proof (zlen_nonneg (cr_points cr)).
  unfold cr_len in Hl. assert (CR_MAX = 268435456) by done. assert (2 ^ 29 = 536870912) as E29 by done.
  destruct (Z.gtb_spec size (cr_size cr)) as [Hgt|Hle].
  - unfold c_int, int_ok, INT32_MAX.
    destruct (Z.leb_spec (-2147483648) (cr_size cr * 3)); [|lia].
    destruct (Z.leb_spec (cr_size cr * 3) 2147483647); [|lia]. cbn [andb mbind outcome_bind].
    assert (Hmax : max_int size (cr_size cr * 3 / 2) = Z.max size (cr_size cr * 3 / 2)).
    { unfold max_int. destruct (Z.gtb_spec size (cr_size cr * 3 / 2)); lia. }
    rewrite Hmax. destruct (heap_request _ _) eqn:E; cbn.
    + assert (cr_wf (MkCharRange (Z.max size (cr_size cr * 3 / 2)) (cr_points cr))).
      { unfold cr_wf, cr_len. cbn. rewrite E29. pose proof (Z.div_mod (cr_size cr * 3) 2 ltac:(lia)).
        pose proof (Z.mod_pos_bound (cr_size cr * 3) 2 ltac:(lia)). lia. }
      split; [done|]. left. split_and!; [done..|]. cbn. lia.
    + split; [done|]. right. split; [done|]. intros Ht. by destruct (Ht _ _ E).
  - cbn. split; [done|]. left. done.
Qed.

Lemma cr_push_spec cr v :
  cr_wf cr -> cr_len cr < cr_size cr ->
  yields (cr_push cr v) (fun cr' => cr_wf cr' /\ cr_size cr' = cr_size cr /\ cr_points cr' = cr_points cr ++ [v]).
Proof.
  intros [Hl Hs] Hr. unfold cr_push. destruct (Z.ltb_spec (cr_len cr) (cr_size cr)); [|lia]. cbn.
  unfold cr_wf, cr_len in *. cbn. rewrite zlen_app, zlen_cons, zlen_nil. split_and!; [lia..|done|done].
Qed.

Lemma cr_add_point_spec cr h v :
  cr_wf cr -> cr_len cr < CR_MAX ->
  yields (cr_add_point (cr, h) v) (cr_post (fun cr' => cr_points cr' = cr_points cr ++ [v])).
Proof.
  intros Hwf Hm. unfold cr_add_point. cbn [fst snd].
  eapply (yields_cr_try (fun cr' => cr_points cr' = cr_points cr /\ cr_len cr + 1 <= cr_size cr')).
  - destruct (Z.geb_spec (cr_len cr) (cr_size cr)); [apply cr_realloc_spec; [done|lia]|].
    cbn. split; [done|]. left. split_and!; [done..|]. cbn. lia.
  - intros cr1 h1 Hwf1 [E Hs]. apply yields_bind. eapply yields_mono.
    { apply cr_push_spec; [done|]. unfold cr_len in *. rewrite E. lia. }
    intros cr2 (Hwf2 & _ & E2). cbn. split; [done|]. left. split; [done|]. cbn. by rewrite E2, E.
Qed.

Lemma cr_add_interval_spec cr h c1 c2 :
  cr_wf cr -> cr_len cr < CR_MAX ->
  yields (cr_add_interval (cr, h) c1 c2) (cr_post (fun cr' => cr_points cr' = cr_points cr ++ [c1; c2])).
Proof.
  intros Hwf Hm. unfold cr_add_interval. cbn [fst snd].
  eapply (yields_cr_try (fun cr' => cr_points cr' = cr_points cr /\ cr_len cr + 2 <= cr_size cr')).
  - destruct (Z.gtb_spec (cr_len cr + 2) (cr_size cr)); [apply cr_realloc_spec; [done|lia]|].
    cbn. split; [done|]. left. split_and!; [done..|]. cbn. lia.
  - intros cr1 h1 Hwf1 [E Hs]. assert (cr_len cr1 = cr_len cr) by (unfold cr_len; by rewrite E).
    apply yields_bind. eapply yields_mono; [apply cr_push_spec; [done|lia]|].
    intros cr2 (Hwf2 & Es2 & E2). apply yields_bind. eapply yields_mono.
    { apply cr_push_spec; [done|]. unfold cr_len in *. rewrite E2, zlen_app, zlen_cons, zlen_nil. lia. }
    intros cr3 (Hwf3 & _ & E3). cbn. split; [done|]. left. split; [done|]. cbn.
    by rewrite E3, E2, E, <- app_assoc.
Qed.

(** The state of the merge of [cr_op]: the points out denote the operation on the
    points consumed, which are all below the points left. *)
Record merging (a b : list Z) (op : CharRangeOpEnum) (ai bi : Z) (pts : list Z) : Prop := {
  mg_a : 0 <= ai <= zlen a;
  mg_b : 0 <= bi <= zlen b;
  mg_len : zlen pts <= ai + bi;
  mg_parity : forall c, parity_at pts c =
    op_bool op (parity_at (take (Z.to_nat ai) a) c) (parity_at (take (Z.to_nat bi) b) c);
  mg_low : forall x y, x ∈ pts \/ x ∈ take (Z.to_nat ai) a \/ x ∈ take (Z.to_nat bi) b ->
    y ∈ drop (Z.to_nat ai) a \/ y ∈ drop (Z.to_nat bi) b -> x <= y;
  mg_sorted : sorted_le pts;
  mg_from : forall x, x ∈ pts -> x ∈ a \/ x ∈ b
}.

Lemma merging_init a b op : merging a b op 0 0 [].
Proof.
  pose proof (zlen_nonneg a). pose proof (zlen_nonneg b). constructor; try lia.
  - by rewrite zlen_nil.
  - intros c. rewrite !take_0. by destruct op.
  - intros x y. rewrite !take_0, !elem_of_nil. tauto.
  - constructor.
  - intros x Hx. by apply elem_of_nil in Hx.
Qed.

(** The consumed part of one operand grows by [v] or stays. *)
Definition consumes (a : list Z) ai ai' v : Prop :=
  0 <= ai <= zlen a /\ (ai' = ai \/ ai' = ai + 1 /\ aget a ai = Ret v).

Lemma consumes_elem a ai ai' v x : consumes a ai ai' v ->
  x ∈ take (Z.to_nat ai') a -> x ∈ take (Z.to_nat ai) a \/ x = v.
Proof.
  intros [Hr [->|[-> E]]]; [tauto|]. rewrite (take_aget _ _ _ E), elem_of_app, list_elem_of_singleton. tauto.
Qed.

Lemma consumes_drop a ai ai' v x : consumes a ai ai' v -> x ∈ drop (Z.to_nat ai') a -> x ∈ drop (Z.to_nat ai) a.
Proof. intros [Hr [->|[-> E]]]; [tauto|]. apply elem_of_drop_le; lia. Qed.

Lemma consumes_parity_above a ai ai' v c : consumes a ai ai' v -> c < v ->
  parity_at (take (Z.to_nat ai') a) c = parity_at (take (Z.to_nat ai) a) c.
Proof.
  intros [Hr [->|[-> E]]] Hc; [done|]. rewrite (take_aget _ _ _ E), parity_at_app. cbn.
  destruct (Z.leb_spec v c); [lia|]. by destruct (parity_at _ c).
Qed.

Lemma consumes_parity_below a ai ai' v c : consumes a ai ai' v -> v <= c ->
  (forall x, x ∈ take (Z.to_nat ai) a -> x <= v) ->
  parity_at (take (Z.to_nat ai') a) c = Z.odd ai'.
Proof.
  intros Hc Hv Hx. rewrite parity_at_below.
  - f_equal. destruct Hc as [Hr [->|[-> E]]]; [zlia|]. apply aget_lookup in E as [? E%lookup_lt_Some]. zlia.
  - rewrite list.Forall_forall. intros x Hin. destruct (consumes_elem _ _ _ _ _ Hc Hin) as [H1| ->]; [|done].
    specialize (Hx x H1). lia.
Qed.

Lemma op_next_consumes a b ai bi v ai' bi' :
  0 <= ai <= zlen a -> 0 <= bi <= zlen b -> op_next_ok a b ai bi v ai' bi' ->
  consumes a ai ai' v /\ consumes b bi bi' v /\
  (v ∈ drop (Z.to_nat ai) a \/ v ∈ drop (Z.to_nat bi) b) /\ ai + bi < ai' + bi' <= zlen a + zlen b /\
  0 <= ai' <= zlen a /\ 0 <= bi' <= zlen b.
Proof.
  intros Ha Hb [Hc _]. unfold consumes.
  assert (Hlt : forall (l : list Z) i, aget l i = Ret v -> i < zlen l).
  { intros l i [? E%lookup_lt_Some]%aget_lookup. zlia. }
  destruct Hc as [(-> & -> & E)|[(-> & -> & E)|(-> & -> & E & E2)]];
    [pose proof (Hlt _ _ E)|pose proof (Hlt _ _ E)|pose proof (Hlt _ _ E); pose proof (Hlt _ _ E2)];
    (refine (conj (conj Ha _) (conj (conj Hb _) (conj _ _))); [tauto|tauto| |lia]);
    rewrite (aget_drop _ _ _ E); first [by left; left|by right; left].
Qed.

Lemma merging_step a b op ai bi pts v ai' bi' pts' :
  sorted_le a -> sorted_le b -> merging a b op ai bi pts -> op_next_ok a b ai bi v ai' bi' ->
  pts' = (if eqb (op_bool op (Z.odd ai') (Z.odd bi')) (Z.odd (zlen pts)) then pts else pts ++ [v]) ->
  merging a b op ai' bi' pts'.
Proof.
  intros Hsa Hsb [M1 M2 M3 M4 M5 M6 M7] Hn Hpts.
  pose proof (op_next_consumes _ _ _ _ _ _ _ M1 M2 Hn) as (Ca & Cb & Hv & Hlt & Ha' & Hb').
  pose proof (proj2 Hn Hsa Hsb) as Hmin.
  assert (Hin : forall x, x ∈ pts' -> x ∈ pts \/ x = v).
  { intros x Hx. subst pts'. destruct (eqb _ _); [by left|].
    apply elem_of_app in Hx as [|Hx]; [by left|]. apply list_elem_of_singleton in Hx. by right. }
  constructor.
  - done.
  - done.
  - subst pts'. destruct (eqb _ _); [lia|]. rewrite zlen_app, zlen_cons, zlen_nil. lia.
  - intros c. destruct (Z_lt_le_dec c v) as [Hc|Hc].
    + rewrite (consumes_parity_above a ai ai' v), (consumes_parity_above b bi bi' v), <- M4 by done.
      subst pts'. destruct (eqb _ _); [done|]. rewrite parity_at_app. cbn.
      destruct (Z.leb_spec v c); [lia|]. by destruct (parity_at pts c).
    + rewrite (consumes_parity_below a ai ai' v), (consumes_parity_below b bi bi' v) by (done || (intros; by apply M5; auto)).
      rewrite parity_at_below.
      2:{ rewrite list.Forall_forall. intros x [Hx| ->]%Hin; [|done].
          assert (x <= v) by (apply M5; auto). lia. }
      subst pts'. destruct (eqb _ _) eqn:E; [by apply eqb_prop in E|].
      rewrite zlen_app, Z.odd_add. change (Z.odd (zlen [v])) with true. apply eqb_false_iff in E.
      by destruct (op_bool _ _ _), (Z.odd (zlen pts)).
  - intros x y Hx Hy.
    assert (Hy' : y ∈ drop (Z.to_nat ai) a \/ y ∈ drop (Z.to_nat bi) b).
    { destruct Hy; [left|right]; by eapply consumes_drop. }
    assert (Hx' : (x ∈ pts \/ x ∈ take (Z.to_nat ai) a \/ x ∈ take (Z.to_nat bi) b) \/ x = v).
    { destruct Hx as [Hx|[Hx|Hx]]; [apply Hin in Hx|apply (consumes_elem _ _ _ _ _ Ca) in Hx|
        apply (consumes_elem _ _ _ _ _ Cb) in Hx]; tauto. }
    destruct Hx' as [Hx'| ->]; [by apply M5|by apply Hmin].
  - subst pts'. destruct (eqb _ _); [done|]. rewrite StronglySorted_app. split_and!; [|done|repeat constructor].
    intros x y Hx ->%list_elem_of_singleton. apply M5; auto.
  - intros x [Hx| ->]%Hin; [by apply M7|].
    destruct Hv as [Hv|Hv]; [left|right]; [rewrite <- (take_drop (Z.to_nat ai) a)|rewrite <- (take_drop (Z.to_nat bi) b)];
      apply elem_of_app; by right.
Qed.

(** The result of [cr_op]: sorted points of the set. *)
Record op_result (a b : list Z) (op : CharRangeOpEnum) (pts : list Z) : Prop := {
  or_even : even_len pts;
  or_sorted : sorted_lt pts;
  or_mem : forall c, in_ranges pts c = op_bool op (in_ranges a c) (in_ranges b c);
  or_from : forall x, x ∈ pts -> x ∈ a \/ x ∈ b;
  or_len : zlen pts <= zlen a + zlen b
}.

Lemma merging_done a b op pts pts' :
  sorted_le a -> sorted_le b -> even_len a -> even_len b ->
  merging a b op (zlen a) (zlen b) pts -> compressed pts pts' -> op_result a b op pts'.
Proof.
  intros Hsa Hsb Hea Heb [M1 M2 M3 M4 M5 M6 M7] [C1 C2 C3 C4 C5].
  assert (Hte : forall l : list Z, take (Z.to_nat (zlen l)) l = l) by (intros l; apply take_ge; zlia).
  setoid_rewrite Hte in M4. constructor; [done|by apply C3| |auto|lia].
  intros c. rewrite (in_ranges_parity pts'), C1, M4, <- !in_ranges_parity; try done. by apply sorted_lt_le, C3.
Qed.

(** All the points are below some bound: the parity there is that of the length. *)
Lemma merging_even a b op pts :
  even_len a -> even_len b -> merging a b op (zlen a) (zlen b) pts -> even_len pts.
Proof.
  intros Hea Heb [_ _ _ M4 _ _ _].
  assert (Hb : forall l : list Z, exists m, forall c, m <= c -> Forall (fun p => p <= c) l).
  { induction l as [|x l [m IH]]; [by exists 0|]. exists (Z.max x m). intros c Hc.
    constructor; [lia|]. apply IH. lia. }
  destruct (Hb pts) as [m1 H1], (Hb a) as [m2 H2], (Hb b) as [m3 H3].
  specialize (M4 (Z.max m1 (Z.max m2 m3))).
  rewrite !take_ge in M4 by zlia. rewrite !parity_at_below in M4 by (apply H1 || apply H2 || apply H3; lia).
  unfold even_len in *. rewrite <- Z.negb_odd, negb_true_iff in Hea, Heb. rewrite Hea, Heb in M4.
  rewrite <- Z.negb_odd, M4. by destruct op.
Qed.

Lemma cr_op_yields cr h a b op :
  cr_wf cr -> cr_points cr = [] -> sorted_le a -> sorted_le b -> even_len a -> even_len b ->
  zlen a + zlen b <= CR_MAX ->
  yields (cr_op (cr, h) a b op) (cr_post (fun cr' => op_result a b op (cr_points cr'))).
Proof.
  intros Hwf Hnil Hsa Hsb Hea Heb Hlen. unfold cr_op.
  apply (yields_cr_try (fun cr' => merging a b op (zlen a) (zlen b) (cr_points cr'))).
  - apply (loop_yields _ (fun '(ai, bi, st) => cr_wf st.1 /\ merging a b op ai bi (cr_points st.1))
      (fun '(ai, bi, _) => Z.to_nat (zlen a + zlen b - (ai + bi)))).
    + intros [[ai bi] [cr1 h1]]. cbn [fst snd]. intros (Hwf1 & Hm). pose proof Hm as [M1 M2 M3 _ _ _ _].
      apply yields_bind. eapply yields_mono; [by apply cr_op_next_spec|].
      intros [[[v ai'] bi']|].
      2:{ intros [-> ->]. cbn. split; [done|]. by left. }
      intros Hn. pose proof (op_next_consumes _ _ _ _ _ _ _ M1 M2 Hn) as (_ & _ & _ & Hlt & Ha' & Hb').
      rewrite cr_op_is_in_spec, land_1, b2z_eqb. unfold cr_len.
      pose proof (merging_step a b op ai bi (cr_points cr1) v ai' bi' _ Hsa Hsb Hm Hn eq_refl) as Hm'.
      destruct (eqb _ _); cbn [negb].
      * cbn. split; [done|lia].
      * apply yields_bind. eapply yields_mono; [apply cr_add_point_spec; [done|unfold cr_len; lia]|].
        intros [r [cr2 h2]] [Hwf2 Hr]. cbn [fst snd] in *. destruct Hr as [[-> E]|[-> Ht]]; cbn.
        -- eval_closed (0 =? 0). cbn [fst snd]. rewrite E. split; [done|lia].
        -- eval_closed (-1 =? 0). split; [done|]. by right.
    + cbn. split; [done|]. rewrite Hnil. apply merging_init.
    + cbn. zlia.
  - intros cr1 h1 Hwf1 Hm. pose proof (merging_even _ _ _ _ Hea Heb Hm) as Hev.
    apply yields_bind. eapply yields_mono; [by apply cr_compress_yields|].
    intros cr2 (Es & Hc). cbn. split; cbn; [|left; split; [done|by eapply merging_done]].
    pose proof (cd_len _ _ Hc). unfold cr_wf, cr_len in *. lia.
Qed.

(** ** The set operations on ranges in normal form *)

(** Normal form: an even number of strictly increasing 32-bit points. *)
Record cr_nf (pts : list Z) : Prop := {
  nf_even : even_len pts;
  nf_sorted : sorted_lt pts;
  nf_range : forall x, x ∈ pts -> 0 <= x <= UINT32_MAX
}.

Lemma op_result_nf a b op pts :
  op_result a b op pts -> (forall x, x ∈ a \/ x ∈ b -> 0 <= x <= UINT32_MAX) -> cr_nf pts.
Proof. intros [R1 R2 R3 R4 R5] Hr. constructor; [done|done|]. intros x Hx. by apply Hr, R4. Qed.

Lemma cr_union1_yields cr h b :
  sorted_le (cr_points cr) -> sorted_le b -> even_len (cr_points cr) -> even_len b ->
  cr_len cr + zlen b <= CR_MAX ->
  yields (cr_union1 (cr, h) b) (cr_post (fun cr' => op_result (cr_points cr) b CR_OP_UNION (cr_points cr'))).
Proof.
  intros Hsa Hsb Hea Heb Hl. unfold cr_union1. apply yields_bind.
  eapply yields_mono; [by apply (cr_op_yields cr_init h (cr_points cr) b CR_OP_UNION cr_init_wf)|].
  intros [r [cr' h']] [Hwf Hr]. cbn in *. by split.
Qed.

(** What the set operations accept: sorted 32-bit points, empty and adjacent intervals allowed. *)
Record cr_sorted (pts : list Z) : Prop := {
  cs_even : even_len pts;
  cs_sorted : sorted_le pts;
  cs_range : forall x, x ∈ pts -> 0 <= x <= UINT32_MAX
}.

Lemma cr_nf_sorted pts : cr_nf pts -> cr_sorted pts.
Proof. intros [N1 N2 N3]. constructor; [done|by apply sorted_lt_le|done]. Qed.

Lemma cr_invert_yields cr h :
  cr_wf cr -> cr_sorted (cr_points cr) -> cr_len cr + 2 <= CR_MAX ->
  yields (cr_invert (cr, h)) (cr_post (fun cr' => cr_nf (cr_points cr') /\ cr_len cr' <= cr_len cr + 2 /\
    forall c, 0 <= c < UINT32_MAX -> in_ranges (cr_points cr') c = negb (in_ranges (cr_points cr) c))).
Proof.
  intros Hwf [N1 N2 N3] Hl. unfold cr_invert. cbn [fst].
  apply (yields_cr_try (fun cr' => cr_points cr' = cr_points cr /\ cr_len cr + 2 <= cr_size cr')).
  { apply cr_realloc_spec; [done|lia]. }
  intros cr1 h1 Hwf1 [E Hs]. set (pts := cr_points cr) in *.
  assert (El : cr_len cr1 = cr_len cr) by (unfold cr_len; by rewrite E).
  destruct (Z.leb_spec (cr_len cr1 + 2) (cr_size cr1)); [|lia].
  set (inv := 0 :: pts ++ [UINT32_MAX]). rewrite E. fold inv.
  assert (Hinv : zlen inv = cr_len cr + 2).
  { unfold inv. rewrite zlen_cons, zlen_app, zlen_cons, zlen_nil. unfold cr_len. fold pts. lia. }
  assert (Hev : even_len inv).
  { unfold even_len. rewrite Hinv. change (cr_len cr) with (zlen pts).
    replace (zlen pts + 2) with (zlen pts + 2 * 1) by lia. by rewrite Z.even_add_mul_2. }
  assert (Hsort : sorted_le inv).
  { constructor; [rewrite StronglySorted_app; split_and!|].
    - intros x y Hx ->%list_elem_of_singleton. by apply N3.
    - done.
    - repeat constructor.
    - rewrite list.Forall_forall. intros x [Hx| ->%list_elem_of_singleton]%elem_of_app; [by apply N3|done]. }
  apply yields_bind. eapply yields_mono; [by apply cr_compress_yields|].
  intros cr2 [Es [C1 C2 C3 C4 C5]]. cbn in Es, C1, C2, C3, C4, C5. cbn [yields mret outcome_ret].
  split; cbn; [unfold cr_wf, cr_len in *; lia|]. left. split; [done|]. split_and!.
  - constructor; [done|by apply C3|]. intros x Hx%C4. unfold inv in Hx.
    apply elem_of_cons in Hx as [->|[Hx| ->%list_elem_of_singleton]%elem_of_app];
      [by split|by apply N3|by split].
  - unfold cr_len at 1. lia.
  - intros c Hc. rewrite (in_ranges_parity (cr_points cr2)), C1 by (done || by apply sorted_lt_le, C3).
    rewrite (in_ranges_parity pts) by done. unfold inv.
    cbn [parity_at]. rewrite parity_at_app. cbn [parity_at].
    destruct (Z.leb_spec 0 c); [|lia]. destruct (Z.leb_spec UINT32_MAX c); [lia|].
    by destruct (parity_at pts c).
Qed.
End Operations.

(** C20: [cr_op] computes the union, the intersection or the symmetric difference
    of two sets of code points.  From sorted lists of intervals, empty or
    adjacent ones included, it answers a list of strictly increasing points
    that denotes the set; it answers -1 only when the allocator refuses a request. *)
Theorem cr_op_spec `{Realloc} h a b op :
  sorted_le a -> sorted_le b -> even_len a -> even_len b -> zlen a + zlen b <= CR_MAX ->
  yields (cr_op (cr_init, h) a b op) (cr_post (fun cr' =>
    even_len (cr_points cr') /\ sorted_lt (cr_points cr') /\
    forall c, in_ranges (cr_points cr') c = op_bool op (in_ranges a c) (in_ranges b c))).
Proof.
  intros Hsa Hsb Hea Heb Hl. eapply yields_mono; [by apply cr_op_yields; [apply cr_init_wf|..]|].
  intros r Hr. eapply cr_post_mono; [exact Hr|]. intros cr' [R1 R2 R3 R4 R5]. auto.
Qed.

Ltac sorted_closed := repeat constructor; lia.

Lemma cr_op_spec_witness :
  yields (@cr_op free_heap (cr_init, tt) [10; 20; 20; 30] [15; 40] CR_OP_XOR) (fun r =>
    cr_wf r.2.1 /\ in_ranges (cr_points r.2.1) 35 = op_bool CR_OP_XOR false true \/ r.1 = -1).
Proof.
  eapply yields_mono; [apply (@cr_op_spec free_heap tt [10; 20; 20; 30] [15; 40] CR_OP_XOR)|];
    [sorted_closed|sorted_closed|reflexivity|reflexivity|vm_compute; discriminate|].
  intros r [Hwf [[_ (_ & _ & Hm)]|[Hr _]]]; [left; split; [done|apply Hm]|by right].
Defined.

(** C35: [cr_union_interval] adds the characters [c1..c2] to a set in normal form
    and keeps the normal form ([c2] below 0xFFFFFFFF: the end point [c2 + 1] is a [uint32_t]). *)
Theorem cr_union_interval_spec `{Realloc} cr h c1 c2 :
  cr_nf (cr_points cr) -> 0 <= c1 -> c1 <= c2 -> c2 < UINT32_MAX -> cr_len cr + 2 <= CR_MAX ->
  yields (cr_union_interval (cr, h) c1 c2) (cr_post (fun cr' => cr_nf (cr_points cr') /\
    forall c, in_ranges (cr_points cr') c = in_ranges (cr_points cr) c || (c1 <=? c) && (c <=? c2))).
Proof.
  intros [N1 N2 N3] H1 H12 H2 Hl. unfold cr_union_interval.
  rewrite (wrap_small 32) by (change (2 ^ 32) with (UINT32_MAX + 1); lia).
  assert (Hs2 : sorted_le [c1; c2 + 1]) by sorted_closed.
  eapply yields_mono; [apply (cr_union1_yields cr h [c1; c2 + 1]); try done; by apply sorted_lt_le|].
  intros r Hr. eapply cr_post_mono; [exact Hr|]. intros cr' Hres. split.
  - eapply op_result_nf; [exact Hres|]. intros x [Hx|Hx]; [by apply N3|].
    apply elem_of_cons in Hx as [->|Hx]; [lia|]. apply list_elem_of_singleton in Hx as ->. lia.
  - intros c. rewrite (or_mem _ _ _ _ Hres). cbn. f_equal. rewrite orb_false_r. f_equal.
    destruct (Z.ltb_spec c (c2 + 1)), (Z.leb_spec c c2); lia || done.
Qed.

Lemma cr_union_interval_spec_witness :
  yields (@cr_union_interval free_heap (MkCharRange 4 [65; 91], tt) 97 122) (fun r =>
    r.1 = 0 /\ in_ranges (cr_points r.2.1) 100 = true \/ r.1 = -1).
Proof.
  eapply yields_mono; [apply (@cr_union_interval_spec free_heap (MkCharRange 4 [65; 91]) tt 97 122)|];
    [|lia|lia|vm_compute; reflexivity|vm_compute; discriminate|].
  - constructor; [reflexivity|sorted_closed|]. intros x Hx. cbn in Hx.
    apply elem_of_cons in Hx as [->|Hx]; [vm_compute; split; discriminate|].
    apply list_elem_of_singleton in Hx as ->. vm_compute; split; discriminate.
  - intros r [_ [[-> [_ Hm]]|[Hr _]]]; [left; split; [done|by rewrite Hm]|by right].
Defined.

(** C34: [cr_invert] complements a set in normal form (on the characters below
    0xFFFFFFFF) and keeps the normal form. *)
Theorem cr_invert_spec `{Realloc} cr h :
  cr_wf cr -> cr_nf (cr_points cr) -> cr_len cr + 2 <= CR_MAX ->
  yields (cr_invert (cr, h)) (cr_post (fun cr' => cr_nf (cr_points cr') /\
    forall c, 0 <= c < UINT32_MAX -> in_ranges (cr_points cr') c = negb (in_ranges (cr_points cr) c))).
Proof.
  intros Hwf Hnf%cr_nf_sorted Hl. eapply yields_mono; [by apply cr_invert_yields|].
  intros r Hr. eapply cr_post_mono; [exact Hr|]. intros cr' (? & _ & ?). by split.
Qed.

Lemma cr_invert_spec_witness :
  yields (@cr_invert free_heap (MkCharRange 2 [0; 91], tt)) (fun r =>
    r.1 = 0 /\ in_ranges (cr_points r.2.1) 5 = false \/ r.1 = -1).
Proof.
  eapply yields_mono; [apply (@cr_invert_spec free_heap (MkCharRange 2 [0; 91]) tt)|].
  - vm_compute. split; discriminate.
  - constructor; [reflexivity|sorted_closed|]. intros x Hx. cbn in Hx.
    apply elem_of_cons in Hx as [->|Hx]; [vm_compute; split; discriminate|].
    apply list_elem_of_singleton in Hx as ->. vm_compute; split; discriminate.
  - vm_compute. discriminate.
  - intros r [_ [[-> [_ Hm]]|[Hr _]]]; [left; split; [done|by rewrite Hm by (vm_compute; split; [discriminate|reflexivity])]|by right].
Defined.
