(* ===== verification/UnicodePropTables.v ===== *)
(** * libunicode-table.h: the general category, script and property tables

    The data of the generated header, transcribed in its order.  A table of
    names is a C array of characters: the names, each followed by a zero, and
    the final zero of the literal. *)

From Stdlib Require Import String Ascii.
From S2P Require Import Prelude UnicodeTables.

(** The bytes of a C string literal, without its final zero. *)
Definition c_bytes (s : string) : list Z :=
  map (fun c => Z.of_N (N_of_ascii c)) (list_ascii_of_string s).

Definition c_names (names : list string) : list Z :=
  List.concat (map (fun s => c_bytes s ++ [0]) names) ++ [0].

Local Open Scope string_scope.
Local Open Scope Z_scope.

Inductive UnicodeGCEnum :=
  | UNICODE_GC_Cn | UNICODE_GC_Lu | UNICODE_GC_Ll | UNICODE_GC_Lt | UNICODE_GC_Lm | UNICODE_GC_Lo
  | UNICODE_GC_Mn | UNICODE_GC_Mc | UNICODE_GC_Me | UNICODE_GC_Nd | UNICODE_GC_Nl | UNICODE_GC_No
  | UNICODE_GC_Sm | UNICODE_GC_Sc | UNICODE_GC_Sk | UNICODE_GC_So | UNICODE_GC_Pc | UNICODE_GC_Pd
  | UNICODE_GC_Ps | UNICODE_GC_Pe | UNICODE_GC_Pi | UNICODE_GC_Pf | UNICODE_GC_Po | UNICODE_GC_Zs
  | UNICODE_GC_Zl | UNICODE_GC_Zp | UNICODE_GC_Cc | UNICODE_GC_Cf | UNICODE_GC_Cs | UNICODE_GC_Co
  | UNICODE_GC_LC | UNICODE_GC_L | UNICODE_GC_M | UNICODE_GC_N | UNICODE_GC_S | UNICODE_GC_P
  | UNICODE_GC_Z | UNICODE_GC_C | UNICODE_GC_COUNT.

Definition gc_code (e : UnicodeGCEnum) : Z :=
  match e with
  | UNICODE_GC_Cn => 0 | UNICODE_GC_Lu => 1 | UNICODE_GC_Ll => 2 | UNICODE_GC_Lt => 3
  | UNICODE_GC_Lm => 4 | UNICODE_GC_Lo => 5 | UNICODE_GC_Mn => 6 | UNICODE_GC_Mc => 7
  | UNICODE_GC_Me => 8 | UNICODE_GC_Nd => 9 | UNICODE_GC_Nl => 10 | UNICODE_GC_No => 11
  | UNICODE_GC_Sm => 12 | UNICODE_GC_Sc => 13 | UNICODE_GC_Sk => 14 | UNICODE_GC_So => 15
  | UNICODE_GC_Pc => 16 | UNICODE_GC_Pd => 17 | UNICODE_GC_Ps => 18 | UNICODE_GC_Pe => 19
  | UNICODE_GC_Pi => 20 | UNICODE_GC_Pf => 21 | UNICODE_GC_Po => 22 | UNICODE_GC_Zs => 23
  | UNICODE_GC_Zl => 24 | UNICODE_GC_Zp => 25 | UNICODE_GC_Cc => 26 | UNICODE_GC_Cf => 27
  | UNICODE_GC_Cs => 28 | UNICODE_GC_Co => 29 | UNICODE_GC_LC => 30 | UNICODE_GC_L => 31
  | UNICODE_GC_M => 32 | UNICODE_GC_N => 33 | UNICODE_GC_S => 34 | UNICODE_GC_P => 35
  | UNICODE_GC_Z => 36 | UNICODE_GC_C => 37 | UNICODE_GC_COUNT => 38
  end.

Definition unicode_gc_names : list string := [
  "Cn,Unassigned"; "Lu,Uppercase_Letter"; "Ll,Lowercase_Letter"; "Lt,Titlecase_Letter";
  "Lm,Modifier_Letter"; "Lo,Other_Letter"; "Mn,Nonspacing_Mark"; "Mc,Spacing_Mark";
  "Me,Enclosing_Mark"; "Nd,Decimal_Number,digit"; "Nl,Letter_Number"; "No,Other_Number";
  "Sm,Math_Symbol"; "Sc,Currency_Symbol"; "Sk,Modifier_Symbol"; "So,Other_Symbol";
  "Pc,Connector_Punctuation"; "Pd,Dash_Punctuation"; "Ps,Open_Punctuation";
  "Pe,Close_Punctuation"; "Pi,Initial_Punctuation"; "Pf,Final_Punctuation";
  "Po,Other_Punctuation"; "Zs,Space_Separator"; "Zl,Line_Separator"; "Zp,Paragraph_Separator";
  "Cc,Control,cntrl"; "Cf,Format"; "Cs,Surrogate"; "Co,Private_Use"; "LC,Cased_Letter";
  "L,Letter"; "M,Mark,Combining_Mark"; "N,Number"; "S,Symbol"; "P,Punctuation,punct";
  "Z,Separator"; "C,Other"
].

Definition unicode_gc_name_table : list Z := c_names unicode_gc_names.

Definition unicode_gc_table : list Z := [
  0xfa; 0x18; 0x17; 0x56; 0x0d; 0x56; 0x12; 0x13; 0x16; 0x0c; 0x16; 0x11; 0x36; 0xe9; 0x02; 0x36;
  0x4c; 0x36; 0xe1; 0x12; 0x12; 0x16; 0x13; 0x0e; 0x10; 0x0e; 0xe2; 0x12; 0x12; 0x0c; 0x13; 0x0c;
  0xfa; 0x19; 0x17; 0x16; 0x6d; 0x0f; 0x16; 0x0e; 0x0f; 0x05; 0x14; 0x0c; 0x1b; 0x0f; 0x0e; 0x0f;
  0x0c; 0x2b; 0x0e; 0x02; 0x36; 0x0e; 0x0b; 0x05; 0x15; 0x4b; 0x16; 0xe1; 0x0f; 0x0c; 0xc1; 0xe2;
  0x10; 0x0c; 0xe2; 0x00; 0xff; 0x30; 0x02; 0xff; 0x08; 0x02; 0xff; 0x27; 0xbf; 0x22; 0x21; 0x02;
  0x5f; 0x5f; 0x21; 0x22; 0x61; 0x02; 0x21; 0x02; 0x41; 0x42; 0x21; 0x02; 0x21; 0x02; 0x9f; 0x7f;
  0x02; 0x5f; 0x5f; 0x21; 0x02; 0x5f; 0x3f; 0x02; 0x05; 0x3f; 0x22; 0x65; 0x01; 0x03; 0x02; 0x01;
  0x03; 0x02; 0x01; 0x03; 0x02; 0xff; 0x08; 0x02; 0xff; 0x0a; 0x02; 0x01; 0x03; 0x02; 0x5f; 0x21;
  0x02; 0xff; 0x32; 0xa2; 0x21; 0x02; 0x21; 0x22; 0x5f; 0x41; 0x02; 0xff; 0x00; 0xe2; 0x3c; 0x05;
  0xe2; 0x13; 0xe4; 0x0a; 0x6e; 0xe4; 0x04; 0xee; 0x06; 0x84; 0xce; 0x04; 0x0e; 0x04; 0xee; 0x09;
  0xe6; 0x68; 0x7f; 0x04; 0x0e; 0x3f; 0x20; 0x04; 0x42; 0x16; 0x01; 0x60; 0x2e; 0x01; 0x16; 0x41;
  0x00; 0x01; 0x00; 0x21; 0x02; 0xe1; 0x09; 0x00; 0xe1; 0x01; 0xe2; 0x1b; 0x3f; 0x02; 0x41; 0x42;
  0xff; 0x10; 0x62; 0x3f; 0x0c; 0x5f; 0x3f; 0x02; 0xe1; 0x2b; 0xe2; 0x28; 0xff; 0x1a; 0x0f; 0x86;
  0x28; 0xff; 0x2f; 0xff; 0x06; 0x02; 0xff; 0x58; 0x00; 0xe1; 0x1e; 0x20; 0x04; 0xb6; 0xe2; 0x21;
  0x16; 0x11; 0x20; 0x2f; 0x0d; 0x00; 0xe6; 0x25; 0x11; 0x06; 0x16; 0x26; 0x16; 0x26; 0x16; 0x06;
  0xe0; 0x00; 0xe5; 0x13; 0x60; 0x65; 0x36; 0xe0; 0x03; 0xbb; 0x4c; 0x36; 0x0d; 0x36; 0x2f; 0xe6;
  0x03; 0x16; 0x1b; 0x00; 0x36; 0xe5; 0x18; 0x04; 0xe5; 0x02; 0xe6; 0x0d; 0xe9; 0x02; 0x76; 0x25;
  0x06; 0xe5; 0x5b; 0x16; 0x05; 0xc6; 0x1b; 0x0f; 0xa6; 0x24; 0x26; 0x0f; 0x66; 0x25; 0xe9; 0x02;
  0x45; 0x2f; 0x05; 0xf6; 0x06; 0x00; 0x1b; 0x05; 0x06; 0xe5; 0x16; 0xe6; 0x13; 0x20; 0xe5; 0x51;
  0xe6; 0x03; 0x05; 0xe0; 0x06; 0xe9; 0x02; 0xe5; 0x19; 0xe6; 0x01; 0x24; 0x0f; 0x56; 0x04; 0x20;
  0x06; 0x2d; 0xe5; 0x0e; 0x66; 0x04; 0xe6; 0x01; 0x04; 0x46; 0x04; 0x86; 0x20; 0xf6; 0x07; 0x00;
  0xe5; 0x11; 0x46; 0x20; 0x16; 0x00; 0xe5; 0x03; 0xe0; 0x2d; 0xe5; 0x0d; 0x00; 0xe5; 0x0a; 0xe0;
  0x03; 0xe6; 0x07; 0x1b; 0xe6; 0x18; 0x07; 0xe5; 0x2e; 0x06; 0x07; 0x06; 0x05; 0x47; 0xe6; 0x00;
  0x67; 0x06; 0x27; 0x05; 0xc6; 0xe5; 0x02; 0x26; 0x36; 0xe9; 0x02; 0x16; 0x04; 0xe5; 0x07; 0x06;
  0x27; 0x00; 0xe5; 0x00; 0x20; 0x25; 0x20; 0xe5; 0x0e; 0x00; 0xc5; 0x00; 0x05; 0x40; 0x65; 0x20;
  0x06; 0x05; 0x47; 0x66; 0x20; 0x27; 0x20; 0x27; 0x06; 0x05; 0xe0; 0x00; 0x07; 0x60; 0x25; 0x00;
  0x45; 0x26; 0x20; 0xe9; 0x02; 0x25; 0x2d; 0xab; 0x0f; 0x0d; 0x05; 0x16; 0x06; 0x20; 0x26; 0x07;
  0x00; 0xa5; 0x60; 0x25; 0x20; 0xe5; 0x0e; 0x00; 0xc5; 0x00; 0x25; 0x00; 0x25; 0x00; 0x25; 0x20;
  0x06; 0x00; 0x47; 0x26; 0x60; 0x26; 0x20; 0x46; 0x40; 0x06; 0xc0; 0x65; 0x00; 0x05; 0xc0; 0xe9;
  0x02; 0x26; 0x45; 0x06; 0x16; 0xe0; 0x02; 0x26; 0x07; 0x00; 0xe5; 0x01; 0x00; 0x45; 0x00; 0xe5;
  0x0e; 0x00; 0xc5; 0x00; 0x25; 0x00; 0x85; 0x20; 0x06; 0x05; 0x47; 0x86; 0x00; 0x26; 0x07; 0x00;
  0x27; 0x06; 0x20; 0x05; 0xe0; 0x07; 0x25; 0x26; 0x20; 0xe9; 0x02; 0x16; 0x0d; 0xc0; 0x05; 0xa6;
  0x00; 0x06; 0x27; 0x00; 0xe5; 0x00; 0x20; 0x25; 0x20; 0xe5; 0x0e; 0x00; 0xc5; 0x00; 0x25; 0x00;
  0x85; 0x20; 0x06; 0x05; 0x07; 0x06; 0x07; 0x66; 0x20; 0x27; 0x20; 0x27; 0x06; 0xc0; 0x26; 0x07;
  0x60; 0x25; 0x00; 0x45; 0x26; 0x20; 0xe9; 0x02; 0x0f; 0x05; 0xab; 0xe0; 0x02; 0x06; 0x05; 0x00;
  0xa5; 0x40; 0x45; 0x00; 0x65; 0x40; 0x25; 0x00; 0x05; 0x00; 0x25; 0x40; 0x25; 0x40; 0x45; 0x40;
  0xe5; 0x04; 0x60; 0x27; 0x06; 0x27; 0x40; 0x47; 0x00; 0x47; 0x06; 0x20; 0x05; 0xa0; 0x07; 0xe0;
  0x06; 0xe9; 0x02; 0x4b; 0xaf; 0x0d; 0x0f; 0x80; 0x06; 0x47; 0x06; 0xe5; 0x00; 0x00; 0x45; 0x00;
  0xe5; 0x0f; 0x00; 0xe5; 0x08; 0x40; 0x05; 0x46; 0x67; 0x00; 0x46; 0x00; 0x66; 0xc0; 0x26; 0x00;
  0x45; 0x80; 0x25; 0x26; 0x20; 0xe9; 0x02; 0xc0; 0x16; 0xcb; 0x0f; 0x05; 0x06; 0x27; 0x16; 0xe5;
  0x00; 0x00; 0x45; 0x00; 0xe5; 0x0f; 0x00; 0xe5; 0x02; 0x00; 0x85; 0x20; 0x06; 0x05; 0x07; 0x06;
  0x87; 0x00; 0x06; 0x27; 0x00; 0x27; 0x26; 0xc0; 0x27; 0xc0; 0x05; 0x00; 0x25; 0x26; 0x20; 0xe9;
  0x02; 0x00; 0x25; 0xe0; 0x05; 0x26; 0x27; 0xe5; 0x01; 0x00; 0x45; 0x00; 0xe5; 0x21; 0x26; 0x05;
  0x47; 0x66; 0x00; 0x47; 0x00; 0x47; 0x06; 0x05; 0x0f; 0x60; 0x45; 0x07; 0xcb; 0x45; 0x26; 0x20;
  0xe9; 0x02; 0xeb; 0x01; 0x0f; 0xa5; 0x00; 0x06; 0x27; 0x00; 0xe5; 0x0a; 0x40; 0xe5; 0x10; 0x00;
  0xe5; 0x01; 0x00; 0x05; 0x20; 0xc5; 0x40; 0x06; 0x60; 0x47; 0x46; 0x00; 0x06; 0x00; 0xe7; 0x00;
  0xa0; 0xe9; 0x02; 0x20; 0x27; 0x16; 0xe0; 0x04; 0xe5; 0x28; 0x06; 0x25; 0xc6; 0x60; 0x0d; 0xa5;
  0x04; 0xe6; 0x00; 0x16; 0xe9; 0x02; 0x36; 0xe0; 0x1d; 0x25; 0x00; 0x05; 0x00; 0x85; 0x00; 0xe5;
  0x10; 0x00; 0x05; 0x00; 0xe5; 0x02; 0x06; 0x25; 0xe6; 0x01; 0x05; 0x20; 0x85; 0x00; 0x04; 0x00;
  0xa6; 0x20; 0xe9; 0x02; 0x20; 0x65; 0xe0; 0x18; 0x05; 0x4f; 0xf6; 0x07; 0x0f; 0x16; 0x4f; 0x26;
  0xaf; 0xe9; 0x02; 0xeb; 0x02; 0x0f; 0x06; 0x0f; 0x06; 0x0f; 0x06; 0x12; 0x13; 0x12; 0x13; 0x27;
  0xe5; 0x00; 0x00; 0xe5; 0x1c; 0x60; 0xe6; 0x06; 0x07; 0x86; 0x16; 0x26; 0x85; 0xe6; 0x03; 0x00;
  0xe6; 0x1c; 0x00; 0xef; 0x00; 0x06; 0xaf; 0x00; 0x2f; 0x96; 0x6f; 0x36; 0xe0; 0x1d; 0xe5; 0x23;
  0x27; 0x66; 0x07; 0xa6; 0x07; 0x26; 0x27; 0x26; 0x05; 0xe9; 0x02; 0xb6; 0xa5; 0x27; 0x26; 0x65;
  0x46; 0x05; 0x47; 0x25; 0xc7; 0x45; 0x66; 0xe5; 0x05; 0x06; 0x27; 0x26; 0xa7; 0x06; 0x05; 0x07;
  0xe9; 0x02; 0x47; 0x06; 0x2f; 0xe1; 0x1e; 0x00; 0x01; 0x80; 0x01; 0x20; 0xe2; 0x23; 0x16; 0x04;
  0x42; 0xe5; 0x80; 0xc1; 0x00; 0x65; 0x20; 0xc5; 0x00; 0x05; 0x00; 0x65; 0x20; 0xe5; 0x21; 0x00;
  0x65; 0x20; 0xe5; 0x19; 0x00; 0x65; 0x20; 0xc5; 0x00; 0x05; 0x00; 0x65; 0x20; 0xe5; 0x07; 0x00;
  0xe5; 0x31; 0x00; 0x65; 0x20; 0xe5; 0x3b; 0x20; 0x46; 0xf6; 0x01; 0xeb; 0x0c; 0x40; 0xe5; 0x08;
  0xef; 0x02; 0xa0; 0xe1; 0x4e; 0x20; 0xa2; 0x20; 0x11; 0xe5; 0x81; 0xe4; 0x0f; 0x16; 0xe5; 0x09;
  0x17; 0xe5; 0x12; 0x12; 0x13; 0x40; 0xe5; 0x43; 0x56; 0x4a; 0xe5; 0x00; 0xc0; 0xe5; 0x05; 0x00;
  0x65; 0x46; 0xe0; 0x03; 0xe5; 0x0a; 0x46; 0x36; 0xe0; 0x01; 0xe5; 0x0a; 0x26; 0xe0; 0x04; 0xe5;
  0x05; 0x00; 0x45; 0x00; 0x26; 0xe0; 0x04; 0xe5; 0x2c; 0x26; 0x07; 0xc6; 0xe7; 0x00; 0x06; 0x27;
  0xe6; 0x03; 0x56; 0x04; 0x56; 0x0d; 0x05; 0x06; 0x20; 0xe9; 0x02; 0xa0; 0xeb; 0x02; 0xa0; 0xb6;
  0x11; 0x76; 0x46; 0x1b; 0x00; 0xe9; 0x02; 0xa0; 0xe5; 0x1b; 0x04; 0xe5; 0x2d; 0xc0; 0x85; 0x26;
  0xe5; 0x1a; 0x06; 0x05; 0x80; 0xe5; 0x3e; 0xe0; 0x02; 0xe5; 0x17; 0x00; 0x46; 0x67; 0x26; 0x47;
  0x60; 0x27; 0x06; 0xa7; 0x46; 0x60; 0x0f; 0x40; 0x36; 0xe9; 0x02; 0xe5; 0x16; 0x20; 0x85; 0xe0;
  0x03; 0xe5; 0x24; 0x60; 0xe5; 0x12; 0xa0; 0xe9; 0x02; 0x0b; 0x40; 0xef; 0x1a; 0xe5; 0x0f; 0x26;
  0x27; 0x06; 0x20; 0x36; 0xe5; 0x2d; 0x07; 0x06; 0x07; 0xc6; 0x00; 0x06; 0x07; 0x06; 0x27; 0xe6;
  0x00; 0xa7; 0xe6; 0x02; 0x20; 0x06; 0xe9; 0x02; 0xa0; 0xe9; 0x02; 0xa0; 0xd6; 0x04; 0xb6; 0x20;
  0xe6; 0x06; 0x08; 0x26; 0xe0; 0x37; 0x66; 0x07; 0xe5; 0x27; 0x06; 0x07; 0x86; 0x07; 0x06; 0x87;
  0x06; 0x27; 0xc5; 0x60; 0xe9; 0x02; 0xd6; 0xef; 0x02; 0xe6; 0x01; 0xef; 0x01; 0x40; 0x26; 0x07;
  0xe5; 0x16; 0x07; 0x66; 0x27; 0x26; 0x07; 0x46; 0x25; 0xe9; 0x02; 0xe5; 0x24; 0x06; 0x07; 0x26;
  0x47; 0x06; 0x07; 0x46; 0x27; 0xe0; 0x00; 0x76; 0xe5; 0x1c; 0xe7; 0x00; 0xe6; 0x00; 0x27; 0x26;
  0x40; 0x96; 0xe9; 0x02; 0x40; 0x45; 0xe9; 0x02; 0xe5; 0x16; 0xa4; 0x36; 0xe2; 0x01; 0xc0; 0xe1;
  0x23; 0x20; 0x41; 0xf6; 0x00; 0xe0; 0x00; 0x46; 0x16; 0xe6; 0x05; 0x07; 0xc6; 0x65; 0x06; 0xa5;
  0x06; 0x25; 0x07; 0x26; 0x05; 0x80; 0xe2; 0x24; 0xe4; 0x37; 0xe2; 0x05; 0x04; 0xe2; 0x1a; 0xe4;
  0x1d; 0xe6; 0x32; 0x00; 0x86; 0xff; 0x80; 0x0e; 0xe2; 0x00; 0xff; 0x5a; 0xe2; 0x00; 0xe1; 0x00;
  0xa2; 0x20; 0xa1; 0x20; 0xe2; 0x00; 0xe1; 0x00; 0xe2; 0x00; 0xe1; 0x00; 0xa2; 0x20; 0xa1; 0x20;
  0xe2; 0x00; 0x00; 0x01; 0x00; 0x01; 0x00; 0x01; 0x00; 0x3f; 0xc2; 0xe1; 0x00; 0xe2; 0x06; 0x20;
  0xe2; 0x00; 0xe3; 0x00; 0xe2; 0x00; 0xe3; 0x00; 0xe2; 0x00; 0xe3; 0x00; 0x82; 0x00; 0x22; 0x61;
  0x03; 0x0e; 0x02; 0x4e; 0x42; 0x00; 0x22; 0x61; 0x03; 0x4e; 0x62; 0x20; 0x22; 0x61; 0x00; 0x4e;
  0xe2; 0x00; 0x81; 0x4e; 0x20; 0x42; 0x00; 0x22; 0x61; 0x03; 0x2e; 0x00; 0xf7; 0x03; 0x9b; 0xb1;
  0x36; 0x14; 0x15; 0x12; 0x34; 0x15; 0x12; 0x14; 0xf6; 0x00; 0x18; 0x19; 0x9b; 0x17; 0xf6; 0x01;
  0x14; 0x15; 0x76; 0x30; 0x56; 0x0c; 0x12; 0x13; 0xf6; 0x03; 0x0c; 0x16; 0x10; 0xf6; 0x02; 0x17;
  0x9b; 0x00; 0xfb; 0x02; 0x0b; 0x04; 0x20; 0xab; 0x4c; 0x12; 0x13; 0x04; 0xeb; 0x02; 0x4c; 0x12;
  0x13; 0x00; 0xe4; 0x05; 0x40; 0xed; 0x18; 0xe0; 0x08; 0xe6; 0x05; 0x68; 0x06; 0x48; 0xe6; 0x04;
  0xe0; 0x07; 0x2f; 0x01; 0x6f; 0x01; 0x2f; 0x02; 0x41; 0x22; 0x41; 0x02; 0x0f; 0x01; 0x2f; 0x0c;
  0x81; 0xaf; 0x01; 0x0f; 0x01; 0x0f; 0x01; 0x0f; 0x61; 0x0f; 0x02; 0x61; 0x02; 0x65; 0x02; 0x2f;
  0x22; 0x21; 0x8c; 0x3f; 0x42; 0x0f; 0x0c; 0x2f; 0x02; 0x0f; 0xeb; 0x08; 0xea; 0x1b; 0x3f; 0x6a;
  0x0b; 0x2f; 0x60; 0x8c; 0x8f; 0x2c; 0x6f; 0x0c; 0x2f; 0x0c; 0x2f; 0x0c; 0xcf; 0x0c; 0xef; 0x17;
  0x2c; 0x2f; 0x0c; 0x0f; 0x0c; 0xef; 0x17; 0xec; 0x80; 0x84; 0xef; 0x00; 0x12; 0x13; 0x12; 0x13;
  0xef; 0x0c; 0x2c; 0xcf; 0x12; 0x13; 0xef; 0x49; 0x0c; 0xef; 0x16; 0xec; 0x11; 0xef; 0x20; 0xac;
  0xef; 0x3d; 0xe0; 0x11; 0xef; 0x03; 0xe0; 0x0d; 0xeb; 0x34; 0xef; 0x46; 0xeb; 0x0e; 0xef; 0x80;
  0x2f; 0x0c; 0xef; 0x01; 0x0c; 0xef; 0x2e; 0xec; 0x00; 0xef; 0x67; 0x0c; 0xef; 0x80; 0x70; 0x12;
  0x13; 0x12; 0x13; 0x12; 0x13; 0x12; 0x13; 0x12; 0x13; 0x12; 0x13; 0x12; 0x13; 0xeb; 0x16; 0xef;
  0x24; 0x8c; 0x12; 0x13; 0xec; 0x17; 0x12; 0x13; 0x12; 0x13; 0x12; 0x13; 0x12; 0x13; 0x12; 0x13;
  0xec; 0x08; 0xef; 0x80; 0x78; 0xec; 0x7b; 0x12; 0x13; 0x12; 0x13; 0x12; 0x13; 0x12; 0x13; 0x12;
  0x13; 0x12; 0x13; 0x12; 0x13; 0x12; 0x13; 0x12; 0x13; 0x12; 0x13; 0x12; 0x13; 0xec; 0x37; 0x12;
  0x13; 0x12; 0x13; 0xec; 0x18; 0x12; 0x13; 0xec; 0x80; 0x7a; 0xef; 0x28; 0xec; 0x0d; 0x2f; 0xac;
  0xef; 0x1f; 0x20; 0xef; 0x18; 0x00; 0xef; 0x61; 0xe1; 0x27; 0x00; 0xe2; 0x27; 0x00; 0x5f; 0x21;
  0x22; 0xdf; 0x41; 0x02; 0x3f; 0x02; 0x3f; 0x82; 0x24; 0x41; 0x02; 0xff; 0x5a; 0x02; 0xaf; 0x7f;
  0x46; 0x3f; 0x80; 0x76; 0x0b; 0x36; 0xe2; 0x1e; 0x00; 0x02; 0x80; 0x02; 0x20; 0xe5; 0x30; 0xc0;
  0x04; 0x16; 0xe0; 0x06; 0x06; 0xe5; 0x0f; 0xe0; 0x01; 0xc5; 0x00; 0xc5; 0x00; 0xc5; 0x00; 0xc5;
  0x00; 0xc5; 0x00; 0xc5; 0x00; 0xc5; 0x00; 0xc5; 0x00; 0xe6; 0x18; 0x36; 0x14; 0x15; 0x14; 0x15;
  0x56; 0x14; 0x15; 0x16; 0x14; 0x15; 0xf6; 0x01; 0x11; 0x36; 0x11; 0x16; 0x14; 0x15; 0x36; 0x14;
  0x15; 0x12; 0x13; 0x12; 0x13; 0x12; 0x13; 0x12; 0x13; 0x96; 0x04; 0xf6; 0x02; 0x31; 0x76; 0x11;
  0x16; 0x12; 0xf6; 0x05; 0x2f; 0x16; 0xe0; 0x25; 0xef; 0x12; 0x00; 0xef; 0x51; 0xe0; 0x04; 0xef;
  0x80; 0x4e; 0xe0; 0x12; 0xef; 0x04; 0x60; 0x17; 0x56; 0x0f; 0x04; 0x05; 0x0a; 0x12; 0x13; 0x12;
  0x13; 0x12; 0x13; 0x12; 0x13; 0x12; 0x13; 0x2f; 0x12; 0x13; 0x12; 0x13; 0x12; 0x13; 0x12; 0x13;
  0x11; 0x12; 0x33; 0x0f; 0xea; 0x01; 0x66; 0x27; 0x11; 0x84; 0x2f; 0x4a; 0x04; 0x05; 0x16; 0x2f;
  0x00; 0xe5; 0x4e; 0x20; 0x26; 0x2e; 0x24; 0x05; 0x11; 0xe5; 0x52; 0x16; 0x44; 0x05; 0x80; 0xe5;
  0x23; 0x00; 0xe5; 0x56; 0x00; 0x2f; 0x6b; 0xef; 0x02; 0xe5; 0x18; 0xef; 0x1c; 0xe0; 0x04; 0xe5;
  0x08; 0xef; 0x17; 0x00; 0xeb; 0x02; 0xef; 0x16; 0xeb; 0x00; 0x0f; 0xeb; 0x07; 0xef; 0x18; 0xeb;
  0x02; 0xef; 0x1f; 0xeb; 0x07; 0xef; 0x80; 0xb8; 0xe5; 0x99; 0x38; 0xef; 0x38; 0xe5; 0xc0; 0x11;
  0x75; 0x40; 0xe5; 0x0d; 0x04; 0xe5; 0x83; 0xef; 0x40; 0xef; 0x2f; 0xe0; 0x01; 0xe5; 0x20; 0xa4;
  0x36; 0xe5; 0x80; 0x84; 0x04; 0x56; 0xe5; 0x08; 0xe9; 0x02; 0x25; 0xe0; 0x0c; 0xff; 0x26; 0x05;
  0x06; 0x48; 0x16; 0xe6; 0x02; 0x16; 0x04; 0xff; 0x14; 0x24; 0x26; 0xe5; 0x3e; 0xea; 0x02; 0x26;
  0xb6; 0xe0; 0x00; 0xee; 0x0f; 0xe4; 0x01; 0x2e; 0xff; 0x06; 0x22; 0xff; 0x36; 0x04; 0xe2; 0x00;
  0x9f; 0xff; 0x02; 0x04; 0x2e; 0x7f; 0x05; 0x7f; 0x22; 0xff; 0x0d; 0x61; 0x02; 0x81; 0x02; 0xff;
  0x02; 0x20; 0x5f; 0x41; 0x02; 0x3f; 0xe0; 0x22; 0x3f; 0x05; 0x24; 0x02; 0xc5; 0x06; 0x45; 0x06;
  0x65; 0x06; 0xe5; 0x0f; 0x27; 0x26; 0x07; 0x6f; 0x06; 0x40; 0xab; 0x2f; 0x0d; 0x0f; 0xa0; 0xe5;
  0x2c; 0x76; 0xe0; 0x00; 0x27; 0xe5; 0x2a; 0xe7; 0x08; 0x26; 0xe0; 0x00; 0x36; 0xe9; 0x02; 0xa0;
  0xe6; 0x0a; 0xa5; 0x56; 0x05; 0x16; 0x25; 0x06; 0xe9; 0x02; 0xe5; 0x14; 0xe6; 0x00; 0x36; 0xe5;
  0x0f; 0xe6; 0x03; 0x27; 0xe0; 0x03; 0x16; 0xe5; 0x15; 0x40; 0x46; 0x07; 0xe5; 0x27; 0x06; 0x27;
  0x66; 0x27; 0x26; 0x47; 0xf6; 0x05; 0x00; 0x04; 0xe9; 0x02; 0x60; 0x36; 0x85; 0x06; 0x04; 0xe5;
  0x01; 0xe9; 0x02; 0x85; 0x00; 0xe5; 0x21; 0xa6; 0x27; 0x26; 0x27; 0x26; 0xe0; 0x01; 0x45; 0x06;
  0xe5; 0x00; 0x06; 0x07; 0x20; 0xe9; 0x02; 0x20; 0x76; 0xe5; 0x08; 0x04; 0xa5; 0x4f; 0x05; 0x07;
  0x06; 0x07; 0xe5; 0x2a; 0x06; 0x05; 0x46; 0x25; 0x26; 0x85; 0x26; 0x05; 0x06; 0x05; 0xe0; 0x10;
  0x25; 0x04; 0x36; 0xe5; 0x03; 0x07; 0x26; 0x27; 0x36; 0x05; 0x24; 0x07; 0x06; 0xe0; 0x02; 0xa5;
  0x20; 0xa5; 0x20; 0xa5; 0xe0; 0x01; 0xc5; 0x00; 0xc5; 0x00; 0xe2; 0x23; 0x0e; 0x64; 0xe2; 0x01;
  0x04; 0x2e; 0x60; 0xe2; 0x48; 0xe5; 0x1b; 0x27; 0x06; 0x27; 0x06; 0x27; 0x16; 0x07; 0x06; 0x20;
  0xe9; 0x02; 0xa0; 0xe5; 0xab; 0x1c; 0xe0; 0x04; 0xe5; 0x0f; 0x60; 0xe5; 0x29; 0x60; 0xfc; 0x87;
  0x78; 0xfd; 0x98; 0x78; 0xe5; 0x80; 0xe6; 0x20; 0xe5; 0x62; 0xe0; 0x1e; 0xc2; 0xe0; 0x04; 0x82;
  0x80; 0x05; 0x06; 0xe5; 0x02; 0x0c; 0xe5; 0x05; 0x00; 0x85; 0x00; 0x05; 0x00; 0x25; 0x00; 0x25;
  0x00; 0xe5; 0x64; 0xee; 0x08; 0xe0; 0x09; 0xe5; 0x80; 0xe3; 0x13; 0x12; 0xe0; 0x08; 0xe5; 0x38;
  0x20; 0xe5; 0x2e; 0xe0; 0x20; 0xe5; 0x04; 0x0d; 0x0f; 0x20; 0xe6; 0x08; 0xd6; 0x12; 0x13; 0x16;
  0xa0; 0xe6; 0x08; 0x16; 0x31; 0x30; 0x12; 0x13; 0x12; 0x13; 0x12; 0x13; 0x12; 0x13; 0x12; 0x13;
  0x12; 0x13; 0x12; 0x13; 0x12; 0x13; 0x36; 0x12; 0x13; 0x76; 0x50; 0x56; 0x00; 0x76; 0x11; 0x12;
  0x13; 0x12; 0x13; 0x12; 0x13; 0x56; 0x0c; 0x11; 0x4c; 0x00; 0x16; 0x0d; 0x36; 0x60; 0x85; 0x00;
  0xe5; 0x7f; 0x20; 0x1b; 0x00; 0x56; 0x0d; 0x56; 0x12; 0x13; 0x16; 0x0c; 0x16; 0x11; 0x36; 0xe9;
  0x02; 0x36; 0x4c; 0x36; 0xe1; 0x12; 0x12; 0x16; 0x13; 0x0e; 0x10; 0x0e; 0xe2; 0x12; 0x12; 0x0c;
  0x13; 0x0c; 0x12; 0x13; 0x16; 0x12; 0x13; 0x36; 0xe5; 0x02; 0x04; 0xe5; 0x25; 0x24; 0xe5; 0x17;
  0x40; 0xa5; 0x20; 0xa5; 0x20; 0xa5; 0x20; 0x45; 0x40; 0x2d; 0x0c; 0x0e; 0x0f; 0x2d; 0x00; 0x0f;
  0x6c; 0x2f; 0xe0; 0x02; 0x5b; 0x2f; 0x20; 0xe5; 0x04; 0x00; 0xe5; 0x12; 0x00; 0xe5; 0x0b; 0x00;
  0x25; 0x00; 0xe5; 0x07; 0x20; 0xe5; 0x06; 0xe0; 0x1a; 0xe5; 0x73; 0x80; 0x56; 0x60; 0xeb; 0x25;
  0x40; 0xef; 0x01; 0xea; 0x2d; 0x6b; 0xef; 0x09; 0x2b; 0x4f; 0x00; 0xef; 0x05; 0x40; 0x0f; 0xe0;
  0x27; 0xef; 0x25; 0x06; 0xe0; 0x7a; 0xe5; 0x15; 0x40; 0xe5; 0x29; 0xe0; 0x07; 0x06; 0xeb; 0x13;
  0x60; 0xe5; 0x18; 0x6b; 0xe0; 0x01; 0xe5; 0x0c; 0x0a; 0xe5; 0x00; 0x0a; 0x80; 0xe5; 0x1e; 0x86;
  0x80; 0xe5; 0x16; 0x00; 0x16; 0xe5; 0x1c; 0x60; 0xe5; 0x00; 0x16; 0x8a; 0xe0; 0x22; 0xe1; 0x20;
  0xe2; 0x20; 0xe5; 0x46; 0x20; 0xe9; 0x02; 0xa0; 0xe1; 0x1c; 0x60; 0xe2; 0x1c; 0x60; 0xe5; 0x20;
  0xe0; 0x00; 0xe5; 0x2c; 0xe0; 0x03; 0x16; 0xe0; 0x80; 0x08; 0xe5; 0x80; 0xaf; 0xe0; 0x01; 0xe5;
  0x0e; 0xe0; 0x02; 0xe5; 0x00; 0xe0; 0x80; 0x10; 0xa5; 0x20; 0x05; 0x00; 0xe5; 0x24; 0x00; 0x25;
  0x40; 0x05; 0x20; 0xe5; 0x0f; 0x00; 0x16; 0xeb; 0x00; 0xe5; 0x0f; 0x2f; 0xcb; 0xe5; 0x17; 0xe0;
  0x00; 0xeb; 0x01; 0xe0; 0x28; 0xe5; 0x0b; 0x00; 0x25; 0x80; 0x8b; 0xe5; 0x0e; 0xab; 0x40; 0x16;
  0xe5; 0x12; 0x80; 0x16; 0xe0; 0x38; 0xe5; 0x30; 0x60; 0x2b; 0x25; 0xeb; 0x08; 0x20; 0xeb; 0x26;
  0x05; 0x46; 0x00; 0x26; 0x80; 0x66; 0x65; 0x00; 0x45; 0x00; 0xe5; 0x15; 0x20; 0x46; 0x60; 0x06;
  0xeb; 0x01; 0xc0; 0xf6; 0x01; 0xc0; 0xe5; 0x15; 0x2b; 0x16; 0xe5; 0x15; 0x4b; 0xe0; 0x18; 0xe5;
  0x00; 0x0f; 0xe5; 0x14; 0x26; 0x60; 0x8b; 0xd6; 0xe0; 0x01; 0xe5; 0x2e; 0x40; 0xd6; 0xe5; 0x0e;
  0x20; 0xeb; 0x00; 0xe5; 0x0b; 0x80; 0xeb; 0x00; 0xe5; 0x0a; 0xc0; 0x76; 0xe0; 0x04; 0xcb; 0xe0;
  0x48; 0xe5; 0x41; 0xe0; 0x2f; 0xe1; 0x2b; 0xe0; 0x05; 0xe2; 0x2b; 0xc0; 0xab; 0xe5; 0x1c; 0x66;
  0xe0; 0x00; 0xe9; 0x02; 0xe0; 0x80; 0x9e; 0xeb; 0x17; 0x00; 0xe5; 0x22; 0x00; 0x26; 0x11; 0x20;
  0x25; 0xe0; 0x46; 0xe5; 0x15; 0xeb; 0x02; 0x05; 0xe0; 0x00; 0xe5; 0x0e; 0xe6; 0x03; 0x6b; 0x96;
  0xe0; 0x4e; 0xe5; 0x0d; 0xcb; 0xe0; 0x0c; 0xe5; 0x0f; 0xe0; 0x01; 0x07; 0x06; 0x07; 0xe5; 0x2d;
  0xe6; 0x07; 0xd6; 0x60; 0xeb; 0x0c; 0xe9; 0x02; 0xe0; 0x07; 0x46; 0x07; 0xe5; 0x25; 0x47; 0x66;
  0x27; 0x26; 0x36; 0x1b; 0x76; 0xe0; 0x03; 0x1b; 0x20; 0xe5; 0x11; 0xc0; 0xe9; 0x02; 0xa0; 0x46;
  0xe5; 0x1c; 0x86; 0x07; 0xe6; 0x00; 0x00; 0xe9; 0x02; 0x76; 0x05; 0x27; 0x05; 0xe0; 0x00; 0xe5;
  0x1b; 0x06; 0x36; 0x05; 0xe0; 0x01; 0x26; 0x07; 0xe5; 0x28; 0x47; 0xe6; 0x01; 0x27; 0x65; 0x76;
  0x66; 0x16; 0x07; 0x06; 0xe9; 0x02; 0x05; 0x16; 0x05; 0x56; 0x00; 0xeb; 0x0c; 0xe0; 0x03; 0xe5;
  0x0a; 0x00; 0xe5; 0x11; 0x47; 0x46; 0x27; 0x06; 0x07; 0x26; 0xb6; 0x06; 0xe0; 0x39; 0xc5; 0x00;
  0x05; 0x00; 0x65; 0x00; 0xe5; 0x07; 0x00; 0xe5; 0x02; 0x16; 0xa0; 0xe5; 0x27; 0x06; 0x47; 0xe6;
  0x00; 0x80; 0xe9; 0x02; 0xa0; 0x26; 0x27; 0x00; 0xe5; 0x00; 0x20; 0x25; 0x20; 0xe5; 0x0e; 0x00;
  0xc5; 0x00; 0x25; 0x00; 0x85; 0x00; 0x26; 0x05; 0x27; 0x06; 0x67; 0x20; 0x27; 0x20; 0x47; 0x20;
  0x05; 0xa0; 0x07; 0x80; 0x85; 0x27; 0x20; 0xc6; 0x40; 0x86; 0xe0; 0x80; 0x03; 0xe5; 0x2d; 0x47;
  0xe6; 0x00; 0x27; 0x46; 0x07; 0x06; 0x65; 0x96; 0xe9; 0x02; 0x36; 0x00; 0x16; 0x06; 0x45; 0xe0;
  0x16; 0xe5; 0x28; 0x47; 0xa6; 0x07; 0x06; 0x67; 0x26; 0x07; 0x26; 0x25; 0x16; 0x05; 0xe0; 0x00;
  0xe9; 0x02; 0xe0; 0x80; 0x1e; 0xe5; 0x27; 0x47; 0x66; 0x20; 0x67; 0x26; 0x07; 0x26; 0xf6; 0x0f;
  0x65; 0x26; 0xe0; 0x1a; 0xe5; 0x28; 0x47; 0xe6; 0x00; 0x27; 0x06; 0x07; 0x26; 0x56; 0x05; 0xe0;
  0x03; 0xe9; 0x02; 0xa0; 0xf6; 0x05; 0xe0; 0x0b; 0xe5; 0x23; 0x06; 0x07; 0x06; 0x27; 0xa6; 0x07;
  0x06; 0x05; 0xc0; 0xe9; 0x02; 0xe0; 0x2e; 0xe5; 0x13; 0x20; 0x46; 0x27; 0x66; 0x07; 0x86; 0x60;
  0xe9; 0x02; 0x2b; 0x56; 0x0f; 0xe0; 0x80; 0x38; 0xe5; 0x24; 0x47; 0xe6; 0x01; 0x07; 0x26; 0x16;
  0xe0; 0x5c; 0xe1; 0x18; 0xe2; 0x18; 0xe9; 0x02; 0xeb; 0x01; 0xe0; 0x04; 0xe5; 0x00; 0x20; 0x05;
  0x20; 0xe5; 0x00; 0x00; 0x25; 0x00; 0xe5; 0x10; 0xa7; 0x00; 0x27; 0x20; 0x26; 0x07; 0x06; 0x05;
  0x07; 0x05; 0x07; 0x06; 0x56; 0xe0; 0x01; 0xe9; 0x02; 0xe0; 0x3e; 0xe5; 0x00; 0x20; 0xe5; 0x1f;
  0x47; 0x66; 0x20; 0x26; 0x67; 0x06; 0x05; 0x16; 0x05; 0x07; 0xe0; 0x13; 0x05; 0xe6; 0x02; 0xe5;
  0x20; 0xa6; 0x07; 0x05; 0x66; 0xf6; 0x00; 0x06; 0xe0; 0x00; 0x05; 0xa6; 0x27; 0x46; 0xe5; 0x26;
  0xe6; 0x05; 0x07; 0x26; 0x56; 0x05; 0x96; 0xe0; 0x15; 0xe5; 0x31; 0xe0; 0x80; 0x7f; 0xe5; 0x01;
  0x00; 0xe5; 0x1d; 0x07; 0xc6; 0x00; 0xa6; 0x07; 0x06; 0x05; 0x96; 0xe0; 0x02; 0xe9; 0x02; 0xeb;
  0x0b; 0x40; 0x36; 0xe5; 0x16; 0x20; 0xe6; 0x0e; 0x00; 0x07; 0xc6; 0x07; 0x26; 0x07; 0x26; 0xe0;
  0x41; 0xc5; 0x00; 0x25; 0x00; 0xe5; 0x1e; 0xa6; 0x40; 0x06; 0x00; 0x26; 0x00; 0xc6; 0x05; 0x06;
  0xe0; 0x00; 0xe9; 0x02; 0xa0; 0xa5; 0x00; 0x25; 0x00; 0xe5; 0x18; 0x87; 0x00; 0x26; 0x00; 0x27;
  0x06; 0x07; 0x06; 0x05; 0xc0; 0xe9; 0x02; 0xe0; 0x80; 0xae; 0xe5; 0x0b; 0x26; 0x27; 0x36; 0xe0;
  0x80; 0x2f; 0x05; 0xe0; 0x07; 0xeb; 0x0d; 0xef; 0x00; 0x6d; 0xef; 0x09; 0xe0; 0x05; 0x16; 0xe5;
  0x83; 0x12; 0xe0; 0x5e; 0xea; 0x67; 0x00; 0x96; 0xe0; 0x03; 0xe5; 0x80; 0x3c; 0xe0; 0x8a; 0x34;
  0xe5; 0x83; 0xa7; 0x00; 0xfb; 0x01; 0xe0; 0x8f; 0x3f; 0xe5; 0x81; 0xbf; 0xe0; 0xa1; 0x31; 0xe5;
  0x81; 0xb1; 0xc0; 0xe5; 0x17; 0x00; 0xe9; 0x02; 0x60; 0x36; 0xe0; 0x58; 0xe5; 0x16; 0x20; 0x86;
  0x16; 0xe0; 0x02; 0xe5; 0x28; 0xc6; 0x96; 0x6f; 0x64; 0x16; 0x0f; 0xe0; 0x02; 0xe9; 0x02; 0x00;
  0xcb; 0x00; 0xe5; 0x0d; 0x80; 0xe5; 0x0b; 0xe0; 0x82; 0x28; 0xe1; 0x18; 0xe2; 0x18; 0xeb; 0x0f;
  0x76; 0xe0; 0x5d; 0xe5; 0x43; 0x60; 0x06; 0x05; 0xe7; 0x2f; 0xc0; 0x66; 0xe4; 0x05; 0xe0; 0x38;
  0x24; 0x16; 0x04; 0x06; 0xe0; 0x03; 0x27; 0xe0; 0x06; 0xe5; 0x97; 0x70; 0xe0; 0x00; 0xe5; 0x84;
  0x4e; 0xe0; 0x22; 0xe5; 0x01; 0xe0; 0xa2; 0x6f; 0xe5; 0x80; 0x97; 0xe0; 0x29; 0x45; 0xe0; 0x09;
  0x65; 0xe0; 0x00; 0xe5; 0x81; 0x04; 0xe0; 0x88; 0x7c; 0xe5; 0x63; 0x80; 0xe5; 0x05; 0x40; 0xe5;
  0x01; 0xc0; 0xe5; 0x02; 0x20; 0x0f; 0x26; 0x16; 0x7b; 0xe0; 0x92; 0xd4; 0xef; 0x80; 0x6e; 0xe0;
  0x02; 0xef; 0x1f; 0x20; 0xef; 0x34; 0x27; 0x46; 0x4f; 0xa7; 0xfb; 0x00; 0xe6; 0x00; 0x2f; 0xc6;
  0xef; 0x16; 0x66; 0xef; 0x33; 0xe0; 0x0f; 0xef; 0x3a; 0x46; 0x0f; 0xe0; 0x80; 0x12; 0xeb; 0x0c;
  0xe0; 0x04; 0xef; 0x4f; 0xe0; 0x01; 0xeb; 0x11; 0xe0; 0x7f; 0xe1; 0x12; 0xe2; 0x12; 0xe1; 0x12;
  0xc2; 0x00; 0xe2; 0x0a; 0xe1; 0x12; 0xe2; 0x12; 0x01; 0x00; 0x21; 0x20; 0x01; 0x20; 0x21; 0x20;
  0x61; 0x00; 0xe1; 0x00; 0x62; 0x00; 0x02; 0x00; 0xc2; 0x00; 0xe2; 0x03; 0xe1; 0x12; 0xe2; 0x12;
  0x21; 0x00; 0x61; 0x20; 0xe1; 0x00; 0x00; 0xc1; 0x00; 0xe2; 0x12; 0x21; 0x00; 0x61; 0x00; 0x81;
  0x00; 0x01; 0x40; 0xc1; 0x00; 0xe2; 0x12; 0xe1; 0x12; 0xe2; 0x12; 0xe1; 0x12; 0xe2; 0x12; 0xe1;
  0x12; 0xe2; 0x12; 0xe1; 0x12; 0xe2; 0x12; 0xe1; 0x12; 0xe2; 0x12; 0xe1; 0x12; 0xe2; 0x14; 0x20;
  0xe1; 0x11; 0x0c; 0xe2; 0x11; 0x0c; 0xa2; 0xe1; 0x11; 0x0c; 0xe2; 0x11; 0x0c; 0xa2; 0xe1; 0x11;
  0x0c; 0xe2; 0x11; 0x0c; 0xa2; 0xe1; 0x11; 0x0c; 0xe2; 0x11; 0x0c; 0xa2; 0xe1; 0x11; 0x0c; 0xe2;
  0x11; 0x0c; 0xa2; 0x3f; 0x20; 0xe9; 0x2a; 0xef; 0x81; 0x78; 0xe6; 0x2f; 0x6f; 0xe6; 0x2a; 0xef;
  0x00; 0x06; 0xef; 0x06; 0x06; 0x2f; 0x96; 0xe0; 0x07; 0x86; 0x00; 0xe6; 0x07; 0xe0; 0x84; 0xc8;
  0xc6; 0x00; 0xe6; 0x09; 0x20; 0xc6; 0x00; 0x26; 0x00; 0x86; 0xe0; 0x80; 0x4d; 0xe5; 0x25; 0x40;
  0xc6; 0xc4; 0x20; 0xe9; 0x02; 0x60; 0x05; 0x0f; 0xe0; 0x80; 0xe8; 0xe5; 0x24; 0x66; 0xe9; 0x02;
  0x80; 0x0d; 0xe0; 0x84; 0x78; 0xe5; 0x80; 0x3d; 0x20; 0xeb; 0x01; 0xc6; 0xe0; 0x21; 0xe1; 0x1a;
  0xe2; 0x1a; 0xc6; 0x04; 0x60; 0xe9; 0x02; 0x60; 0x36; 0xe0; 0x82; 0x89; 0xeb; 0x33; 0x0f; 0x4b;
  0x0d; 0x6b; 0xe0; 0x44; 0xeb; 0x25; 0x0f; 0xeb; 0x07; 0xe0; 0x80; 0x3a; 0x65; 0x00; 0xe5; 0x13;
  0x00; 0x25; 0x00; 0x05; 0x20; 0x05; 0x00; 0xe5; 0x02; 0x00; 0x65; 0x00; 0x05; 0x00; 0x05; 0xa0;
  0x05; 0x60; 0x05; 0x00; 0x05; 0x00; 0x05; 0x00; 0x45; 0x00; 0x25; 0x00; 0x05; 0x20; 0x05; 0x00;
  0x05; 0x00; 0x05; 0x00; 0x05; 0x00; 0x05; 0x00; 0x25; 0x00; 0x05; 0x20; 0x65; 0x00; 0xc5; 0x00;
  0x65; 0x00; 0x65; 0x00; 0x05; 0x00; 0xe5; 0x02; 0x00; 0xe5; 0x09; 0x80; 0x45; 0x00; 0x85; 0x00;
  0xe5; 0x09; 0xe0; 0x2c; 0x2c; 0xe0; 0x80; 0x86; 0xef; 0x24; 0x60; 0xef; 0x5c; 0xe0; 0x04; 0xef;
  0x07; 0x20; 0xef; 0x07; 0x00; 0xef; 0x07; 0x00; 0xef; 0x1d; 0xe0; 0x02; 0xeb; 0x05; 0xef; 0x80;
  0x19; 0xe0; 0x30; 0xef; 0x15; 0xe0; 0x05; 0xef; 0x24; 0x60; 0xef; 0x01; 0xc0; 0x2f; 0xe0; 0x06;
  0xaf; 0xe0; 0x80; 0x12; 0xef; 0x80; 0x73; 0x8e; 0xef; 0x82; 0x50; 0xe0; 0x00; 0xef; 0x05; 0x40;
  0xef; 0x05; 0x40; 0xef; 0x6c; 0xe0; 0x04; 0xef; 0x51; 0xc0; 0xef; 0x04; 0xe0; 0x0c; 0xef; 0x04;
  0x60; 0xef; 0x30; 0xe0; 0x00; 0xef; 0x02; 0xa0; 0xef; 0x20; 0xe0; 0x00; 0xef; 0x16; 0x20; 0x2f;
  0xe0; 0x46; 0xef; 0x71; 0x00; 0xef; 0x4a; 0x00; 0xef; 0x7f; 0xe0; 0x04; 0xef; 0x06; 0x20; 0x8f;
  0x40; 0x4f; 0x80; 0xcf; 0xe0; 0x01; 0xef; 0x11; 0xc0; 0xcf; 0xe0; 0x01; 0x4f; 0xe0; 0x05; 0xcf;
  0xe0; 0x21; 0xef; 0x80; 0x0b; 0x00; 0xef; 0x2f; 0xe0; 0x1d; 0xe9; 0x02; 0xe0; 0x83; 0x7e; 0xe5;
  0xc0; 0x66; 0x56; 0xe0; 0x1a; 0xe5; 0x8f; 0xad; 0xe0; 0x03; 0xe5; 0x80; 0x56; 0x20; 0xe5; 0x95;
  0xfa; 0xe0; 0x06; 0xe5; 0x9c; 0xa9; 0xe0; 0x8b; 0x97; 0xe5; 0x81; 0x96; 0xe0; 0x85; 0x5a; 0xe5;
  0x92; 0xc3; 0xe0; 0xca; 0xac; 0x2e; 0x1b; 0xe0; 0x16; 0xfb; 0x58; 0xe0; 0x78; 0xe6; 0x80; 0x68;
  0xe0; 0xc0; 0xbd; 0x88; 0xfd; 0xc0; 0xbf; 0x76; 0x20; 0xfd; 0xc0; 0xbf; 0x76; 0x20
].

Inductive UnicodeScriptEnum :=
  | UNICODE_SCRIPT_Unknown | UNICODE_SCRIPT_Adlam | UNICODE_SCRIPT_Ahom
  | UNICODE_SCRIPT_Anatolian_Hieroglyphs | UNICODE_SCRIPT_Arabic | UNICODE_SCRIPT_Armenian
  | UNICODE_SCRIPT_Avestan | UNICODE_SCRIPT_Balinese | UNICODE_SCRIPT_Bamum
  | UNICODE_SCRIPT_Bassa_Vah | UNICODE_SCRIPT_Batak | UNICODE_SCRIPT_Bengali
  | UNICODE_SCRIPT_Bhaiksuki | UNICODE_SCRIPT_Bopomofo | UNICODE_SCRIPT_Brahmi
  | UNICODE_SCRIPT_Braille | UNICODE_SCRIPT_Buginese | UNICODE_SCRIPT_Buhid
  | UNICODE_SCRIPT_Canadian_Aboriginal | UNICODE_SCRIPT_Carian | UNICODE_SCRIPT_Caucasian_Albanian
  | UNICODE_SCRIPT_Chakma | UNICODE_SCRIPT_Cham | UNICODE_SCRIPT_Cherokee
  | UNICODE_SCRIPT_Chorasmian | UNICODE_SCRIPT_Common | UNICODE_SCRIPT_Coptic
  | UNICODE_SCRIPT_Cuneiform | UNICODE_SCRIPT_Cypriot | UNICODE_SCRIPT_Cyrillic
  | UNICODE_SCRIPT_Deseret | UNICODE_SCRIPT_Devanagari | UNICODE_SCRIPT_Dives_Akuru
  | UNICODE_SCRIPT_Dogra | UNICODE_SCRIPT_Duployan | UNICODE_SCRIPT_Egyptian_Hieroglyphs
  | UNICODE_SCRIPT_Elbasan | UNICODE_SCRIPT_Elymaic | UNICODE_SCRIPT_Ethiopic
  | UNICODE_SCRIPT_Georgian | UNICODE_SCRIPT_Glagolitic | UNICODE_SCRIPT_Gothic
  | UNICODE_SCRIPT_Grantha | UNICODE_SCRIPT_Greek | UNICODE_SCRIPT_Gujarati
  | UNICODE_SCRIPT_Gunjala_Gondi | UNICODE_SCRIPT_Gurmukhi | UNICODE_SCRIPT_Han
  | UNICODE_SCRIPT_Hangul | UNICODE_SCRIPT_Hanifi_Rohingya | UNICODE_SCRIPT_Hanunoo
  | UNICODE_SCRIPT_Hatran | UNICODE_SCRIPT_Hebrew | UNICODE_SCRIPT_Hiragana
  | UNICODE_SCRIPT_Imperial_Aramaic | UNICODE_SCRIPT_Inherited
  | UNICODE_SCRIPT_Inscriptional_Pahlavi | UNICODE_SCRIPT_Inscriptional_Parthian
  | UNICODE_SCRIPT_Javanese | UNICODE_SCRIPT_Kaithi | UNICODE_SCRIPT_Kannada
  | UNICODE_SCRIPT_Katakana | UNICODE_SCRIPT_Kayah_Li | UNICODE_SCRIPT_Kharoshthi
  | UNICODE_SCRIPT_Khmer | UNICODE_SCRIPT_Khojki | UNICODE_SCRIPT_Khitan_Small_Script
  | UNICODE_SCRIPT_Khudawadi | UNICODE_SCRIPT_Lao | UNICODE_SCRIPT_Latin | UNICODE_SCRIPT_Lepcha
  | UNICODE_SCRIPT_Limbu | UNICODE_SCRIPT_Linear_A | UNICODE_SCRIPT_Linear_B | UNICODE_SCRIPT_Lisu
  | UNICODE_SCRIPT_Lycian | UNICODE_SCRIPT_Lydian | UNICODE_SCRIPT_Makasar
  | UNICODE_SCRIPT_Mahajani | UNICODE_SCRIPT_Malayalam | UNICODE_SCRIPT_Mandaic
  | UNICODE_SCRIPT_Manichaean | UNICODE_SCRIPT_Marchen | UNICODE_SCRIPT_Masaram_Gondi
  | UNICODE_SCRIPT_Medefaidrin | UNICODE_SCRIPT_Meetei_Mayek | UNICODE_SCRIPT_Mende_Kikakui
  | UNICODE_SCRIPT_Meroitic_Cursive | UNICODE_SCRIPT_Meroitic_Hieroglyphs | UNICODE_SCRIPT_Miao
  | UNICODE_SCRIPT_Modi | UNICODE_SCRIPT_Mongolian | UNICODE_SCRIPT_Mro | UNICODE_SCRIPT_Multani
  | UNICODE_SCRIPT_Myanmar | UNICODE_SCRIPT_Nabataean | UNICODE_SCRIPT_Nandinagari
  | UNICODE_SCRIPT_New_Tai_Lue | UNICODE_SCRIPT_Newa | UNICODE_SCRIPT_Nko | UNICODE_SCRIPT_Nushu
  | UNICODE_SCRIPT_Nyiakeng_Puachue_Hmong | UNICODE_SCRIPT_Ogham | UNICODE_SCRIPT_Ol_Chiki
  | UNICODE_SCRIPT_Old_Hungarian | UNICODE_SCRIPT_Old_Italic | UNICODE_SCRIPT_Old_North_Arabian
  | UNICODE_SCRIPT_Old_Permic | UNICODE_SCRIPT_Old_Persian | UNICODE_SCRIPT_Old_Sogdian
  | UNICODE_SCRIPT_Old_South_Arabian | UNICODE_SCRIPT_Old_Turkic | UNICODE_SCRIPT_Oriya
  | UNICODE_SCRIPT_Osage | UNICODE_SCRIPT_Osmanya | UNICODE_SCRIPT_Pahawh_Hmong
  | UNICODE_SCRIPT_Palmyrene | UNICODE_SCRIPT_Pau_Cin_Hau | UNICODE_SCRIPT_Phags_Pa
  | UNICODE_SCRIPT_Phoenician | UNICODE_SCRIPT_Psalter_Pahlavi | UNICODE_SCRIPT_Rejang
  | UNICODE_SCRIPT_Runic | UNICODE_SCRIPT_Samaritan | UNICODE_SCRIPT_Saurashtra
  | UNICODE_SCRIPT_Sharada | UNICODE_SCRIPT_Shavian | UNICODE_SCRIPT_Siddham
  | UNICODE_SCRIPT_SignWriting | UNICODE_SCRIPT_Sinhala | UNICODE_SCRIPT_Sogdian
  | UNICODE_SCRIPT_Sora_Sompeng | UNICODE_SCRIPT_Soyombo | UNICODE_SCRIPT_Sundanese
  | UNICODE_SCRIPT_Syloti_Nagri | UNICODE_SCRIPT_Syriac | UNICODE_SCRIPT_Tagalog
  | UNICODE_SCRIPT_Tagbanwa | UNICODE_SCRIPT_Tai_Le | UNICODE_SCRIPT_Tai_Tham
  | UNICODE_SCRIPT_Tai_Viet | UNICODE_SCRIPT_Takri | UNICODE_SCRIPT_Tamil | UNICODE_SCRIPT_Tangut
  | UNICODE_SCRIPT_Telugu | UNICODE_SCRIPT_Thaana | UNICODE_SCRIPT_Thai | UNICODE_SCRIPT_Tibetan
  | UNICODE_SCRIPT_Tifinagh | UNICODE_SCRIPT_Tirhuta | UNICODE_SCRIPT_Ugaritic
  | UNICODE_SCRIPT_Vai | UNICODE_SCRIPT_Wancho | UNICODE_SCRIPT_Warang_Citi
  | UNICODE_SCRIPT_Yezidi | UNICODE_SCRIPT_Yi | UNICODE_SCRIPT_Zanabazar_Square
  | UNICODE_SCRIPT_COUNT.

Definition script_code (e : UnicodeScriptEnum) : Z :=
  match e with
  | UNICODE_SCRIPT_Unknown => 0 | UNICODE_SCRIPT_Adlam => 1 | UNICODE_SCRIPT_Ahom => 2
  | UNICODE_SCRIPT_Anatolian_Hieroglyphs => 3 | UNICODE_SCRIPT_Arabic => 4
  | UNICODE_SCRIPT_Armenian => 5 | UNICODE_SCRIPT_Avestan => 6 | UNICODE_SCRIPT_Balinese => 7
  | UNICODE_SCRIPT_Bamum => 8 | UNICODE_SCRIPT_Bassa_Vah => 9 | UNICODE_SCRIPT_Batak => 10
  | UNICODE_SCRIPT_Bengali => 11 | UNICODE_SCRIPT_Bhaiksuki => 12 | UNICODE_SCRIPT_Bopomofo => 13
  | UNICODE_SCRIPT_Brahmi => 14 | UNICODE_SCRIPT_Braille => 15 | UNICODE_SCRIPT_Buginese => 16
  | UNICODE_SCRIPT_Buhid => 17 | UNICODE_SCRIPT_Canadian_Aboriginal => 18
  | UNICODE_SCRIPT_Carian => 19 | UNICODE_SCRIPT_Caucasian_Albanian => 20
  | UNICODE_SCRIPT_Chakma => 21 | UNICODE_SCRIPT_Cham => 22 | UNICODE_SCRIPT_Cherokee => 23
  | UNICODE_SCRIPT_Chorasmian => 24 | UNICODE_SCRIPT_Common => 25 | UNICODE_SCRIPT_Coptic => 26
  | UNICODE_SCRIPT_Cuneiform => 27 | UNICODE_SCRIPT_Cypriot => 28 | UNICODE_SCRIPT_Cyrillic => 29
  | UNICODE_SCRIPT_Deseret => 30 | UNICODE_SCRIPT_Devanagari => 31
  | UNICODE_SCRIPT_Dives_Akuru => 32 | UNICODE_SCRIPT_Dogra => 33 | UNICODE_SCRIPT_Duployan => 34
  | UNICODE_SCRIPT_Egyptian_Hieroglyphs => 35 | UNICODE_SCRIPT_Elbasan => 36
  | UNICODE_SCRIPT_Elymaic => 37 | UNICODE_SCRIPT_Ethiopic => 38 | UNICODE_SCRIPT_Georgian => 39
  | UNICODE_SCRIPT_Glagolitic => 40 | UNICODE_SCRIPT_Gothic => 41 | UNICODE_SCRIPT_Grantha => 42
  | UNICODE_SCRIPT_Greek => 43 | UNICODE_SCRIPT_Gujarati => 44
  | UNICODE_SCRIPT_Gunjala_Gondi => 45 | UNICODE_SCRIPT_Gurmukhi => 46 | UNICODE_SCRIPT_Han => 47
  | UNICODE_SCRIPT_Hangul => 48 | UNICODE_SCRIPT_Hanifi_Rohingya => 49
  | UNICODE_SCRIPT_Hanunoo => 50 | UNICODE_SCRIPT_Hatran => 51 | UNICODE_SCRIPT_Hebrew => 52
  | UNICODE_SCRIPT_Hiragana => 53 | UNICODE_SCRIPT_Imperial_Aramaic => 54
  | UNICODE_SCRIPT_Inherited => 55 | UNICODE_SCRIPT_Inscriptional_Pahlavi => 56
  | UNICODE_SCRIPT_Inscriptional_Parthian => 57 | UNICODE_SCRIPT_Javanese => 58
  | UNICODE_SCRIPT_Kaithi => 59 | UNICODE_SCRIPT_Kannada => 60 | UNICODE_SCRIPT_Katakana => 61
  | UNICODE_SCRIPT_Kayah_Li => 62 | UNICODE_SCRIPT_Kharoshthi => 63 | UNICODE_SCRIPT_Khmer => 64
  | UNICODE_SCRIPT_Khojki => 65 | UNICODE_SCRIPT_Khitan_Small_Script => 66
  | UNICODE_SCRIPT_Khudawadi => 67 | UNICODE_SCRIPT_Lao => 68 | UNICODE_SCRIPT_Latin => 69
  | UNICODE_SCRIPT_Lepcha => 70 | UNICODE_SCRIPT_Limbu => 71 | UNICODE_SCRIPT_Linear_A => 72
  | UNICODE_SCRIPT_Linear_B => 73 | UNICODE_SCRIPT_Lisu => 74 | UNICODE_SCRIPT_Lycian => 75
  | UNICODE_SCRIPT_Lydian => 76 | UNICODE_SCRIPT_Makasar => 77 | UNICODE_SCRIPT_Mahajani => 78
  | UNICODE_SCRIPT_Malayalam => 79 | UNICODE_SCRIPT_Mandaic => 80
  | UNICODE_SCRIPT_Manichaean => 81 | UNICODE_SCRIPT_Marchen => 82
  | UNICODE_SCRIPT_Masaram_Gondi => 83 | UNICODE_SCRIPT_Medefaidrin => 84
  | UNICODE_SCRIPT_Meetei_Mayek => 85 | UNICODE_SCRIPT_Mende_Kikakui => 86
  | UNICODE_SCRIPT_Meroitic_Cursive => 87 | UNICODE_SCRIPT_Meroitic_Hieroglyphs => 88
  | UNICODE_SCRIPT_Miao => 89 | UNICODE_SCRIPT_Modi => 90 | UNICODE_SCRIPT_Mongolian => 91
  | UNICODE_SCRIPT_Mro => 92 | UNICODE_SCRIPT_Multani => 93 | UNICODE_SCRIPT_Myanmar => 94
  | UNICODE_SCRIPT_Nabataean => 95 | UNICODE_SCRIPT_Nandinagari => 96
  | UNICODE_SCRIPT_New_Tai_Lue => 97 | UNICODE_SCRIPT_Newa => 98 | UNICODE_SCRIPT_Nko => 99
  | UNICODE_SCRIPT_Nushu => 100 | UNICODE_SCRIPT_Nyiakeng_Puachue_Hmong => 101
  | UNICODE_SCRIPT_Ogham => 102 | UNICODE_SCRIPT_Ol_Chiki => 103
  | UNICODE_SCRIPT_Old_Hungarian => 104 | UNICODE_SCRIPT_Old_Italic => 105
  | UNICODE_SCRIPT_Old_North_Arabian => 106 | UNICODE_SCRIPT_Old_Permic => 107
  | UNICODE_SCRIPT_Old_Persian => 108 | UNICODE_SCRIPT_Old_Sogdian => 109
  | UNICODE_SCRIPT_Old_South_Arabian => 110 | UNICODE_SCRIPT_Old_Turkic => 111
  | UNICODE_SCRIPT_Oriya => 112 | UNICODE_SCRIPT_Osage => 113 | UNICODE_SCRIPT_Osmanya => 114
  | UNICODE_SCRIPT_Pahawh_Hmong => 115 | UNICODE_SCRIPT_Palmyrene => 116
  | UNICODE_SCRIPT_Pau_Cin_Hau => 117 | UNICODE_SCRIPT_Phags_Pa => 118
  | UNICODE_SCRIPT_Phoenician => 119 | UNICODE_SCRIPT_Psalter_Pahlavi => 120
  | UNICODE_SCRIPT_Rejang => 121 | UNICODE_SCRIPT_Runic => 122 | UNICODE_SCRIPT_Samaritan => 123
  | UNICODE_SCRIPT_Saurashtra => 124 | UNICODE_SCRIPT_Sharada => 125
  | UNICODE_SCRIPT_Shavian => 126 | UNICODE_SCRIPT_Siddham => 127
  | UNICODE_SCRIPT_SignWriting => 128 | UNICODE_SCRIPT_Sinhala => 129
  | UNICODE_SCRIPT_Sogdian => 130 | UNICODE_SCRIPT_Sora_Sompeng => 131
  | UNICODE_SCRIPT_Soyombo => 132 | UNICODE_SCRIPT_Sundanese => 133
  | UNICODE_SCRIPT_Syloti_Nagri => 134 | UNICODE_SCRIPT_Syriac => 135
  | UNICODE_SCRIPT_Tagalog => 136 | UNICODE_SCRIPT_Tagbanwa => 137 | UNICODE_SCRIPT_Tai_Le => 138
  | UNICODE_SCRIPT_Tai_Tham => 139 | UNICODE_SCRIPT_Tai_Viet => 140 | UNICODE_SCRIPT_Takri => 141
  | UNICODE_SCRIPT_Tamil => 142 | UNICODE_SCRIPT_Tangut => 143 | UNICODE_SCRIPT_Telugu => 144
  | UNICODE_SCRIPT_Thaana => 145 | UNICODE_SCRIPT_Thai => 146 | UNICODE_SCRIPT_Tibetan => 147
  | UNICODE_SCRIPT_Tifinagh => 148 | UNICODE_SCRIPT_Tirhuta => 149
  | UNICODE_SCRIPT_Ugaritic => 150 | UNICODE_SCRIPT_Vai => 151 | UNICODE_SCRIPT_Wancho => 152
  | UNICODE_SCRIPT_Warang_Citi => 153 | UNICODE_SCRIPT_Yezidi => 154 | UNICODE_SCRIPT_Yi => 155
  | UNICODE_SCRIPT_Zanabazar_Square => 156 | UNICODE_SCRIPT_COUNT => 157
  end.

Definition unicode_script_names : list string := [
  "Adlam,Adlm"; "Ahom,Ahom"; "Anatolian_Hieroglyphs,Hluw"; "Arabic,Arab"; "Armenian,Armn";
  "Avestan,Avst"; "Balinese,Bali"; "Bamum,Bamu"; "Bassa_Vah,Bass"; "Batak,Batk"; "Bengali,Beng";
  "Bhaiksuki,Bhks"; "Bopomofo,Bopo"; "Brahmi,Brah"; "Braille,Brai"; "Buginese,Bugi"; "Buhid,Buhd";
  "Canadian_Aboriginal,Cans"; "Carian,Cari"; "Caucasian_Albanian,Aghb"; "Chakma,Cakm";
  "Cham,Cham"; "Cherokee,Cher"; "Chorasmian,Chrs"; "Common,Zyyy"; "Coptic,Copt,Qaac";
  "Cuneiform,Xsux"; "Cypriot,Cprt"; "Cyrillic,Cyrl"; "Deseret,Dsrt"; "Devanagari,Deva";
  "Dives_Akuru,Diak"; "Dogra,Dogr"; "Duployan,Dupl"; "Egyptian_Hieroglyphs,Egyp"; "Elbasan,Elba";
  "Elymaic,Elym"; "Ethiopic,Ethi"; "Georgian,Geor"; "Glagolitic,Glag"; "Gothic,Goth";
  "Grantha,Gran"; "Greek,Grek"; "Gujarati,Gujr"; "Gunjala_Gondi,Gong"; "Gurmukhi,Guru";
  "Han,Hani"; "Hangul,Hang"; "Hanifi_Rohingya,Rohg"; "Hanunoo,Hano"; "Hatran,Hatr"; "Hebrew,Hebr";
  "Hiragana,Hira"; "Imperial_Aramaic,Armi"; "Inherited,Zinh,Qaai"; "Inscriptional_Pahlavi,Phli";
  "Inscriptional_Parthian,Prti"; "Javanese,Java"; "Kaithi,Kthi"; "Kannada,Knda"; "Katakana,Kana";
  "Kayah_Li,Kali"; "Kharoshthi,Khar"; "Khmer,Khmr"; "Khojki,Khoj"; "Khitan_Small_Script,Kits";
  "Khudawadi,Sind"; "Lao,Laoo"; "Latin,Latn"; "Lepcha,Lepc"; "Limbu,Limb"; "Linear_A,Lina";
  "Linear_B,Linb"; "Lisu,Lisu"; "Lycian,Lyci"; "Lydian,Lydi"; "Makasar,Maka"; "Mahajani,Mahj";
  "Malayalam,Mlym"; "Mandaic,Mand"; "Manichaean,Mani"; "Marchen,Marc"; "Masaram_Gondi,Gonm";
  "Medefaidrin,Medf"; "Meetei_Mayek,Mtei"; "Mende_Kikakui,Mend"; "Meroitic_Cursive,Merc";
  "Meroitic_Hieroglyphs,Mero"; "Miao,Plrd"; "Modi,Modi"; "Mongolian,Mong"; "Mro,Mroo";
  "Multani,Mult"; "Myanmar,Mymr"; "Nabataean,Nbat"; "Nandinagari,Nand"; "New_Tai_Lue,Talu";
  "Newa,Newa"; "Nko,Nkoo"; "Nushu,Nshu"; "Nyiakeng_Puachue_Hmong,Hmnp"; "Ogham,Ogam";
  "Ol_Chiki,Olck"; "Old_Hungarian,Hung"; "Old_Italic,Ital"; "Old_North_Arabian,Narb";
  "Old_Permic,Perm"; "Old_Persian,Xpeo"; "Old_Sogdian,Sogo"; "Old_South_Arabian,Sarb";
  "Old_Turkic,Orkh"; "Oriya,Orya"; "Osage,Osge"; "Osmanya,Osma"; "Pahawh_Hmong,Hmng";
  "Palmyrene,Palm"; "Pau_Cin_Hau,Pauc"; "Phags_Pa,Phag"; "Phoenician,Phnx";
  "Psalter_Pahlavi,Phlp"; "Rejang,Rjng"; "Runic,Runr"; "Samaritan,Samr"; "Saurashtra,Saur";
  "Sharada,Shrd"; "Shavian,Shaw"; "Siddham,Sidd"; "SignWriting,Sgnw"; "Sinhala,Sinh";
  "Sogdian,Sogd"; "Sora_Sompeng,Sora"; "Soyombo,Soyo"; "Sundanese,Sund"; "Syloti_Nagri,Sylo";
  "Syriac,Syrc"; "Tagalog,Tglg"; "Tagbanwa,Tagb"; "Tai_Le,Tale"; "Tai_Tham,Lana"; "Tai_Viet,Tavt";
  "Takri,Takr"; "Tamil,Taml"; "Tangut,Tang"; "Telugu,Telu"; "Thaana,Thaa"; "Thai,Thai";
  "Tibetan,Tibt"; "Tifinagh,Tfng"; "Tirhuta,Tirh"; "Ugaritic,Ugar"; "Vai,Vaii"; "Wancho,Wcho";
  "Warang_Citi,Wara"; "Yezidi,Yezi"; "Yi,Yiii"; "Zanabazar_Square,Zanb"
].

Definition unicode_script_name_table : list Z := c_names unicode_script_names.

Definition unicode_script_table : list Z := [
  0xc0; 0x19; 0x99; 0x45; 0x85; 0x19; 0x99; 0x45; 0xae; 0x19; 0x80; 0x45; 0x8e; 0x19; 0x80; 0x45;
  0x84; 0x19; 0x96; 0x45; 0x80; 0x19; 0x9e; 0x45; 0x80; 0x19; 0xe1; 0x60; 0x45; 0xa6; 0x19; 0x84;
  0x45; 0x84; 0x19; 0x81; 0x0d; 0x93; 0x19; 0xe0; 0x0f; 0x37; 0x83; 0x2b; 0x80; 0x19; 0x82; 0x2b;
  0x01; 0x83; 0x2b; 0x80; 0x19; 0x80; 0x2b; 0x03; 0x80; 0x2b; 0x80; 0x19; 0x80; 0x2b; 0x80; 0x19;
  0x82; 0x2b; 0x00; 0x80; 0x2b; 0x00; 0x93; 0x2b; 0x00; 0xbe; 0x2b; 0x8d; 0x1a; 0x8f; 0x2b; 0xe0;
  0x24; 0x1d; 0x81; 0x37; 0xe0; 0x48; 0x1d; 0x00; 0xa5; 0x05; 0x01; 0xb1; 0x05; 0x01; 0x82; 0x05;
  0x00; 0xb6; 0x34; 0x07; 0x9a; 0x34; 0x03; 0x85; 0x34; 0x0a; 0x84; 0x04; 0x80; 0x19; 0x85; 0x04;
  0x80; 0x19; 0x8d; 0x04; 0x80; 0x19; 0x80; 0x04; 0x00; 0x80; 0x04; 0x80; 0x19; 0x9f; 0x04; 0x80;
  0x19; 0x89; 0x04; 0x8a; 0x37; 0x99; 0x04; 0x80; 0x37; 0xe0; 0x0b; 0x04; 0x80; 0x19; 0xa1; 0x04;
  0x8d; 0x87; 0x00; 0xbb; 0x87; 0x01; 0x82; 0x87; 0xaf; 0x04; 0xb1; 0x91; 0x0d; 0xba; 0x63; 0x01;
  0x82; 0x63; 0xad; 0x7b; 0x01; 0x8e; 0x7b; 0x00; 0x9b; 0x50; 0x01; 0x80; 0x50; 0x00; 0x8a; 0x87;
  0x34; 0x94; 0x04; 0x00; 0x91; 0x04; 0x0a; 0x8e; 0x04; 0x80; 0x19; 0x9c; 0x04; 0xd0; 0x1f; 0x83;
  0x37; 0x8e; 0x1f; 0x81; 0x19; 0x99; 0x1f; 0x83; 0x0b; 0x00; 0x87; 0x0b; 0x01; 0x81; 0x0b; 0x01;
  0x95; 0x0b; 0x00; 0x86; 0x0b; 0x00; 0x80; 0x0b; 0x02; 0x83; 0x0b; 0x01; 0x88; 0x0b; 0x01; 0x81;
  0x0b; 0x01; 0x83; 0x0b; 0x07; 0x80; 0x0b; 0x03; 0x81; 0x0b; 0x00; 0x84; 0x0b; 0x01; 0x98; 0x0b;
  0x01; 0x82; 0x2e; 0x00; 0x85; 0x2e; 0x03; 0x81; 0x2e; 0x01; 0x95; 0x2e; 0x00; 0x86; 0x2e; 0x00;
  0x81; 0x2e; 0x00; 0x81; 0x2e; 0x00; 0x81; 0x2e; 0x01; 0x80; 0x2e; 0x00; 0x84; 0x2e; 0x03; 0x81;
  0x2e; 0x01; 0x82; 0x2e; 0x02; 0x80; 0x2e; 0x06; 0x83; 0x2e; 0x00; 0x80; 0x2e; 0x06; 0x90; 0x2e;
  0x09; 0x82; 0x2c; 0x00; 0x88; 0x2c; 0x00; 0x82; 0x2c; 0x00; 0x95; 0x2c; 0x00; 0x86; 0x2c; 0x00;
  0x81; 0x2c; 0x00; 0x84; 0x2c; 0x01; 0x89; 0x2c; 0x00; 0x82; 0x2c; 0x00; 0x82; 0x2c; 0x01; 0x80;
  0x2c; 0x0e; 0x83; 0x2c; 0x01; 0x8b; 0x2c; 0x06; 0x86; 0x2c; 0x00; 0x82; 0x70; 0x00; 0x87; 0x70;
  0x01; 0x81; 0x70; 0x01; 0x95; 0x70; 0x00; 0x86; 0x70; 0x00; 0x81; 0x70; 0x00; 0x84; 0x70; 0x01;
  0x88; 0x70; 0x01; 0x81; 0x70; 0x01; 0x82; 0x70; 0x06; 0x82; 0x70; 0x03; 0x81; 0x70; 0x00; 0x84;
  0x70; 0x01; 0x91; 0x70; 0x09; 0x81; 0x8e; 0x00; 0x85; 0x8e; 0x02; 0x82; 0x8e; 0x00; 0x83; 0x8e;
  0x02; 0x81; 0x8e; 0x00; 0x80; 0x8e; 0x00; 0x81; 0x8e; 0x02; 0x81; 0x8e; 0x02; 0x82; 0x8e; 0x02;
  0x8b; 0x8e; 0x03; 0x84; 0x8e; 0x02; 0x82; 0x8e; 0x00; 0x83; 0x8e; 0x01; 0x80; 0x8e; 0x05; 0x80;
  0x8e; 0x0d; 0x94; 0x8e; 0x04; 0x8c; 0x90; 0x00; 0x82; 0x90; 0x00; 0x96; 0x90; 0x00; 0x8f; 0x90;
  0x02; 0x87; 0x90; 0x00; 0x82; 0x90; 0x00; 0x83; 0x90; 0x06; 0x81; 0x90; 0x00; 0x82; 0x90; 0x04;
  0x83; 0x90; 0x01; 0x89; 0x90; 0x06; 0x88; 0x90; 0x8c; 0x3c; 0x00; 0x82; 0x3c; 0x00; 0x96; 0x3c;
  0x00; 0x89; 0x3c; 0x00; 0x84; 0x3c; 0x01; 0x88; 0x3c; 0x00; 0x82; 0x3c; 0x00; 0x83; 0x3c; 0x06;
  0x81; 0x3c; 0x06; 0x80; 0x3c; 0x00; 0x83; 0x3c; 0x01; 0x89; 0x3c; 0x00; 0x81; 0x3c; 0x0c; 0x8c;
  0x4f; 0x00; 0x82; 0x4f; 0x00; 0xb2; 0x4f; 0x00; 0x82; 0x4f; 0x00; 0x85; 0x4f; 0x03; 0x8f; 0x4f;
  0x01; 0x99; 0x4f; 0x00; 0x82; 0x81; 0x00; 0x91; 0x81; 0x02; 0x97; 0x81; 0x00; 0x88; 0x81; 0x00;
  0x80; 0x81; 0x01; 0x86; 0x81; 0x02; 0x80; 0x81; 0x03; 0x85; 0x81; 0x00; 0x80; 0x81; 0x00; 0x87;
  0x81; 0x05; 0x89; 0x81; 0x01; 0x82; 0x81; 0x0b; 0xb9; 0x92; 0x03; 0x80; 0x19; 0x9b; 0x92; 0x24;
  0x81; 0x44; 0x00; 0x80; 0x44; 0x00; 0x84; 0x44; 0x00; 0x97; 0x44; 0x00; 0x80; 0x44; 0x00; 0x96;
  0x44; 0x01; 0x84; 0x44; 0x00; 0x80; 0x44; 0x00; 0x85; 0x44; 0x01; 0x89; 0x44; 0x01; 0x83; 0x44;
  0x1f; 0xc7; 0x93; 0x00; 0xa3; 0x93; 0x03; 0xa6; 0x93; 0x00; 0xa3; 0x93; 0x00; 0x8e; 0x93; 0x00;
  0x86; 0x93; 0x83; 0x19; 0x81; 0x93; 0x24; 0xe0; 0x3f; 0x5e; 0xa5; 0x27; 0x00; 0x80; 0x27; 0x04;
  0x80; 0x27; 0x01; 0xaa; 0x27; 0x80; 0x19; 0x83; 0x27; 0xe0; 0x9f; 0x30; 0xc8; 0x26; 0x00; 0x83;
  0x26; 0x01; 0x86; 0x26; 0x00; 0x80; 0x26; 0x00; 0x83; 0x26; 0x01; 0xa8; 0x26; 0x00; 0x83; 0x26;
  0x01; 0xa0; 0x26; 0x00; 0x83; 0x26; 0x01; 0x86; 0x26; 0x00; 0x80; 0x26; 0x00; 0x83; 0x26; 0x01;
  0x8e; 0x26; 0x00; 0xb8; 0x26; 0x00; 0x83; 0x26; 0x01; 0xc2; 0x26; 0x01; 0x9f; 0x26; 0x02; 0x99;
  0x26; 0x05; 0xd5; 0x17; 0x01; 0x85; 0x17; 0x01; 0xe2; 0x1f; 0x12; 0x9c; 0x66; 0x02; 0xca; 0x7a;
  0x82; 0x19; 0x8a; 0x7a; 0x06; 0x8c; 0x88; 0x00; 0x86; 0x88; 0x0a; 0x94; 0x32; 0x81; 0x19; 0x08;
  0x93; 0x11; 0x0b; 0x8c; 0x89; 0x00; 0x82; 0x89; 0x00; 0x81; 0x89; 0x0b; 0xdd; 0x40; 0x01; 0x89;
  0x40; 0x05; 0x89; 0x40; 0x05; 0x81; 0x5b; 0x81; 0x19; 0x80; 0x5b; 0x80; 0x19; 0x88; 0x5b; 0x00;
  0x89; 0x5b; 0x05; 0xd8; 0x5b; 0x06; 0xaa; 0x5b; 0x04; 0xc5; 0x12; 0x09; 0x9e; 0x47; 0x00; 0x8b;
  0x47; 0x03; 0x8b; 0x47; 0x03; 0x80; 0x47; 0x02; 0x8b; 0x47; 0x9d; 0x8a; 0x01; 0x84; 0x8a; 0x0a;
  0xab; 0x61; 0x03; 0x99; 0x61; 0x05; 0x8a; 0x61; 0x02; 0x81; 0x61; 0x9f; 0x40; 0x9b; 0x10; 0x01;
  0x81; 0x10; 0xbe; 0x8b; 0x00; 0x9c; 0x8b; 0x01; 0x8a; 0x8b; 0x05; 0x89; 0x8b; 0x05; 0x8d; 0x8b;
  0x01; 0x90; 0x37; 0x3e; 0xcb; 0x07; 0x03; 0xac; 0x07; 0x02; 0xbf; 0x85; 0xb3; 0x0a; 0x07; 0x83;
  0x0a; 0xb7; 0x46; 0x02; 0x8e; 0x46; 0x02; 0x82; 0x46; 0xaf; 0x67; 0x88; 0x1d; 0x06; 0xaa; 0x27;
  0x01; 0x82; 0x27; 0x87; 0x85; 0x07; 0x82; 0x37; 0x80; 0x19; 0x8c; 0x37; 0x80; 0x19; 0x86; 0x37;
  0x83; 0x19; 0x80; 0x37; 0x85; 0x19; 0x80; 0x37; 0x82; 0x19; 0x81; 0x37; 0x80; 0x19; 0x04; 0xa5;
  0x45; 0x84; 0x2b; 0x80; 0x1d; 0xb0; 0x45; 0x84; 0x2b; 0x83; 0x45; 0x84; 0x2b; 0x8c; 0x45; 0x80;
  0x1d; 0xc5; 0x45; 0x80; 0x2b; 0xb9; 0x37; 0x00; 0x84; 0x37; 0xe0; 0x9f; 0x45; 0x95; 0x2b; 0x01;
  0x85; 0x2b; 0x01; 0xa5; 0x2b; 0x01; 0x85; 0x2b; 0x01; 0x87; 0x2b; 0x00; 0x80; 0x2b; 0x00; 0x80;
  0x2b; 0x00; 0x80; 0x2b; 0x00; 0x9e; 0x2b; 0x01; 0xb4; 0x2b; 0x00; 0x8e; 0x2b; 0x00; 0x8d; 0x2b;
  0x01; 0x85; 0x2b; 0x00; 0x92; 0x2b; 0x01; 0x82; 0x2b; 0x00; 0x88; 0x2b; 0x00; 0x8b; 0x19; 0x81;
  0x37; 0xd6; 0x19; 0x00; 0x8a; 0x19; 0x80; 0x45; 0x01; 0x8a; 0x19; 0x80; 0x45; 0x8e; 0x19; 0x00;
  0x8c; 0x45; 0x02; 0x9f; 0x19; 0x0f; 0xa0; 0x37; 0x0e; 0xa5; 0x19; 0x80; 0x2b; 0x82; 0x19; 0x81;
  0x45; 0x85; 0x19; 0x80; 0x45; 0x9a; 0x19; 0x80; 0x45; 0x90; 0x19; 0xa8; 0x45; 0x82; 0x19; 0x03;
  0xe2; 0x36; 0x19; 0x18; 0x8a; 0x19; 0x14; 0xe3; 0x3f; 0x19; 0xe0; 0x9f; 0x0f; 0xe2; 0x13; 0x19;
  0x01; 0x9f; 0x19; 0x00; 0xe0; 0x08; 0x19; 0xae; 0x28; 0x00; 0xae; 0x28; 0x00; 0x9f; 0x45; 0xe0;
  0x13; 0x1a; 0x04; 0x86; 0x1a; 0xa5; 0x27; 0x00; 0x80; 0x27; 0x04; 0x80; 0x27; 0x01; 0xb7; 0x94;
  0x06; 0x81; 0x94; 0x0d; 0x80; 0x94; 0x96; 0x26; 0x08; 0x86; 0x26; 0x00; 0x86; 0x26; 0x00; 0x86;
  0x26; 0x00; 0x86; 0x26; 0x00; 0x86; 0x26; 0x00; 0x86; 0x26; 0x00; 0x86; 0x26; 0x00; 0x86; 0x26;
  0x00; 0x9f; 0x1d; 0xd2; 0x19; 0x2c; 0x99; 0x2f; 0x00; 0xd8; 0x2f; 0x0b; 0xe0; 0x75; 0x2f; 0x19;
  0x8b; 0x19; 0x03; 0x84; 0x19; 0x80; 0x2f; 0x80; 0x19; 0x80; 0x2f; 0x98; 0x19; 0x88; 0x2f; 0x83;
  0x37; 0x81; 0x30; 0x87; 0x19; 0x83; 0x2f; 0x83; 0x19; 0x00; 0xd5; 0x35; 0x01; 0x81; 0x37; 0x81;
  0x19; 0x82; 0x35; 0x80; 0x19; 0xd9; 0x3d; 0x81; 0x19; 0x82; 0x3d; 0x04; 0xaa; 0x0d; 0x00; 0xdd;
  0x30; 0x00; 0x8f; 0x19; 0x9f; 0x0d; 0xa3; 0x19; 0x0b; 0x8f; 0x3d; 0x9e; 0x30; 0x00; 0xbf; 0x19;
  0x9e; 0x30; 0xd0; 0x19; 0xae; 0x3d; 0x80; 0x19; 0xd7; 0x3d; 0xe0; 0x47; 0x19; 0xf0; 0x09; 0x5f;
  0x2f; 0xbf; 0x19; 0xf0; 0x41; 0x9c; 0x2f; 0x02; 0xe4; 0x2c; 0x9b; 0x02; 0xb6; 0x9b; 0x08; 0xaf;
  0x4a; 0xe0; 0xcb; 0x97; 0x13; 0xdf; 0x1d; 0xd7; 0x08; 0x07; 0xa1; 0x19; 0xe0; 0x05; 0x45; 0x82;
  0x19; 0xb4; 0x45; 0x01; 0x88; 0x45; 0x29; 0x8a; 0x45; 0xac; 0x86; 0x02; 0x89; 0x19; 0x05; 0xb7;
  0x76; 0x07; 0xc5; 0x7c; 0x07; 0x8b; 0x7c; 0x05; 0x9f; 0x1f; 0xad; 0x3e; 0x80; 0x19; 0x80; 0x3e;
  0xa3; 0x79; 0x0a; 0x80; 0x79; 0x9c; 0x30; 0x02; 0xcd; 0x3a; 0x00; 0x80; 0x19; 0x89; 0x3a; 0x03;
  0x81; 0x3a; 0x9e; 0x5e; 0x00; 0xb6; 0x16; 0x08; 0x8d; 0x16; 0x01; 0x89; 0x16; 0x01; 0x83; 0x16;
  0x9f; 0x5e; 0xc2; 0x8c; 0x17; 0x84; 0x8c; 0x96; 0x55; 0x09; 0x85; 0x26; 0x01; 0x85; 0x26; 0x01;
  0x85; 0x26; 0x08; 0x86; 0x26; 0x00; 0x86; 0x26; 0x00; 0xaa; 0x45; 0x80; 0x19; 0x88; 0x45; 0x80;
  0x2b; 0x83; 0x45; 0x81; 0x19; 0x03; 0xcf; 0x17; 0xad; 0x55; 0x01; 0x89; 0x55; 0x05; 0xf0; 0x1b;
  0x43; 0x30; 0x0b; 0x96; 0x30; 0x03; 0xb0; 0x30; 0x70; 0x10; 0xa3; 0xe1; 0x0d; 0x2f; 0x01; 0xe0;
  0x09; 0x2f; 0x25; 0x86; 0x45; 0x0b; 0x84; 0x05; 0x04; 0x99; 0x34; 0x00; 0x84; 0x34; 0x00; 0x80;
  0x34; 0x00; 0x81; 0x34; 0x00; 0x81; 0x34; 0x00; 0x89; 0x34; 0xe0; 0x11; 0x04; 0x10; 0xe1; 0x0a;
  0x04; 0x81; 0x19; 0x0f; 0xbf; 0x04; 0x01; 0xb5; 0x04; 0x27; 0x8d; 0x04; 0x01; 0x8f; 0x37; 0x89;
  0x19; 0x05; 0x8d; 0x37; 0x81; 0x1d; 0xa2; 0x19; 0x00; 0x92; 0x19; 0x00; 0x83; 0x19; 0x03; 0x84;
  0x04; 0x00; 0xe0; 0x26; 0x04; 0x01; 0x80; 0x19; 0x00; 0x9f; 0x19; 0x99; 0x45; 0x85; 0x19; 0x99;
  0x45; 0x8a; 0x19; 0x89; 0x3d; 0x80; 0x19; 0xac; 0x3d; 0x81; 0x19; 0x9e; 0x30; 0x02; 0x85; 0x30;
  0x01; 0x85; 0x30; 0x01; 0x85; 0x30; 0x01; 0x82; 0x30; 0x02; 0x86; 0x19; 0x00; 0x86; 0x19; 0x09;
  0x84; 0x19; 0x01; 0x8b; 0x49; 0x00; 0x99; 0x49; 0x00; 0x92; 0x49; 0x00; 0x81; 0x49; 0x00; 0x8e;
  0x49; 0x01; 0x8d; 0x49; 0x21; 0xe0; 0x1a; 0x49; 0x04; 0x82; 0x19; 0x03; 0xac; 0x19; 0x02; 0x88;
  0x19; 0xce; 0x2b; 0x00; 0x8c; 0x19; 0x02; 0x80; 0x2b; 0x2e; 0xac; 0x19; 0x80; 0x37; 0x60; 0x21;
  0x9c; 0x4b; 0x02; 0xb0; 0x13; 0x0e; 0x80; 0x37; 0x9a; 0x19; 0x03; 0xa3; 0x69; 0x08; 0x82; 0x69;
  0x9a; 0x29; 0x04; 0xaa; 0x6b; 0x04; 0x9d; 0x96; 0x00; 0x80; 0x96; 0xa3; 0x6c; 0x03; 0x8d; 0x6c;
  0x29; 0xcf; 0x1e; 0xaf; 0x7e; 0x9d; 0x72; 0x01; 0x89; 0x72; 0x05; 0xa3; 0x71; 0x03; 0xa3; 0x71;
  0x03; 0xa7; 0x24; 0x07; 0xb3; 0x14; 0x0a; 0x80; 0x14; 0x60; 0x2f; 0xe0; 0xd6; 0x48; 0x08; 0x95;
  0x48; 0x09; 0x87; 0x48; 0x60; 0x37; 0x85; 0x1c; 0x01; 0x80; 0x1c; 0x00; 0xab; 0x1c; 0x00; 0x81;
  0x1c; 0x02; 0x80; 0x1c; 0x01; 0x80; 0x1c; 0x95; 0x36; 0x00; 0x88; 0x36; 0x9f; 0x74; 0x9e; 0x5f;
  0x07; 0x88; 0x5f; 0x2f; 0x92; 0x33; 0x00; 0x81; 0x33; 0x04; 0x84; 0x33; 0x9b; 0x77; 0x02; 0x80;
  0x77; 0x99; 0x4c; 0x04; 0x80; 0x4c; 0x3f; 0x9f; 0x58; 0x97; 0x57; 0x03; 0x93; 0x57; 0x01; 0xad;
  0x57; 0x83; 0x3f; 0x00; 0x81; 0x3f; 0x04; 0x87; 0x3f; 0x00; 0x82; 0x3f; 0x00; 0x9c; 0x3f; 0x01;
  0x82; 0x3f; 0x03; 0x89; 0x3f; 0x06; 0x88; 0x3f; 0x06; 0x9f; 0x6e; 0x9f; 0x6a; 0x1f; 0xa6; 0x51;
  0x03; 0x8b; 0x51; 0x08; 0xb5; 0x06; 0x02; 0x86; 0x06; 0x95; 0x39; 0x01; 0x87; 0x39; 0x92; 0x38;
  0x04; 0x87; 0x38; 0x91; 0x78; 0x06; 0x83; 0x78; 0x0b; 0x86; 0x78; 0x4f; 0xc8; 0x6f; 0x36; 0xb2;
  0x68; 0x0c; 0xb2; 0x68; 0x06; 0x85; 0x68; 0xa7; 0x31; 0x07; 0x89; 0x31; 0x60; 0xc5; 0x9e; 0x04;
  0x00; 0xa9; 0x9a; 0x00; 0x82; 0x9a; 0x01; 0x81; 0x9a; 0x4d; 0xa7; 0x6d; 0x07; 0xa9; 0x82; 0x55;
  0x9b; 0x18; 0x13; 0x96; 0x25; 0x08; 0xcd; 0x0e; 0x03; 0x9d; 0x0e; 0x0e; 0x80; 0x0e; 0xc1; 0x3b;
  0x0a; 0x80; 0x3b; 0x01; 0x98; 0x83; 0x06; 0x89; 0x83; 0x05; 0xb4; 0x15; 0x00; 0x91; 0x15; 0x07;
  0xa6; 0x4e; 0x08; 0xdf; 0x7d; 0x00; 0x93; 0x81; 0x0a; 0x91; 0x41; 0x00; 0xab; 0x41; 0x40; 0x86;
  0x5d; 0x00; 0x80; 0x5d; 0x00; 0x83; 0x5d; 0x00; 0x8e; 0x5d; 0x00; 0x8a; 0x5d; 0x05; 0xba; 0x43;
  0x04; 0x89; 0x43; 0x05; 0x83; 0x2a; 0x00; 0x87; 0x2a; 0x01; 0x81; 0x2a; 0x01; 0x95; 0x2a; 0x00;
  0x86; 0x2a; 0x00; 0x81; 0x2a; 0x00; 0x84; 0x2a; 0x00; 0x80; 0x37; 0x88; 0x2a; 0x01; 0x81; 0x2a;
  0x01; 0x82; 0x2a; 0x01; 0x80; 0x2a; 0x05; 0x80; 0x2a; 0x04; 0x86; 0x2a; 0x01; 0x86; 0x2a; 0x02;
  0x84; 0x2a; 0x60; 0x2a; 0xdb; 0x62; 0x00; 0x84; 0x62; 0x1d; 0xc7; 0x95; 0x07; 0x89; 0x95; 0x60;
  0x45; 0xb5; 0x7f; 0x01; 0xa5; 0x7f; 0x21; 0xc4; 0x5a; 0x0a; 0x89; 0x5a; 0x05; 0x8c; 0x5b; 0x12;
  0xb8; 0x8d; 0x06; 0x89; 0x8d; 0x35; 0x9a; 0x02; 0x01; 0x8e; 0x02; 0x03; 0x8f; 0x02; 0x60; 0x5f;
  0xbb; 0x21; 0x60; 0x03; 0xd2; 0x99; 0x0b; 0x80; 0x99; 0x86; 0x20; 0x01; 0x80; 0x20; 0x01; 0x87;
  0x20; 0x00; 0x81; 0x20; 0x00; 0x9d; 0x20; 0x00; 0x81; 0x20; 0x01; 0x8b; 0x20; 0x08; 0x89; 0x20;
  0x45; 0x87; 0x60; 0x01; 0xad; 0x60; 0x01; 0x8a; 0x60; 0x1a; 0xc7; 0x9c; 0x07; 0xd2; 0x84; 0x1c;
  0xb8; 0x75; 0x60; 0xa6; 0x88; 0x0c; 0x00; 0xac; 0x0c; 0x00; 0x8d; 0x0c; 0x09; 0x9c; 0x0c; 0x02;
  0x9f; 0x52; 0x01; 0x95; 0x52; 0x00; 0x8d; 0x52; 0x48; 0x86; 0x53; 0x00; 0x81; 0x53; 0x00; 0xab;
  0x53; 0x02; 0x80; 0x53; 0x00; 0x81; 0x53; 0x00; 0x88; 0x53; 0x07; 0x89; 0x53; 0x05; 0x85; 0x2d;
  0x00; 0x81; 0x2d; 0x00; 0xa4; 0x2d; 0x00; 0x81; 0x2d; 0x00; 0x85; 0x2d; 0x06; 0x89; 0x2d; 0x60;
  0xd5; 0x98; 0x4d; 0x60; 0x56; 0x80; 0x4a; 0x0e; 0xb1; 0x8e; 0x0c; 0x80; 0x8e; 0xe3; 0x39; 0x1b;
  0x60; 0x05; 0xe0; 0x0e; 0x1b; 0x00; 0x84; 0x1b; 0x0a; 0xe0; 0x63; 0x1b; 0x6a; 0x5b; 0xe3; 0xce;
  0x23; 0x00; 0x88; 0x23; 0x6f; 0x66; 0xe1; 0xe6; 0x03; 0x70; 0x11; 0x58; 0xe1; 0xd8; 0x08; 0x06;
  0x9e; 0x5c; 0x00; 0x89; 0x5c; 0x03; 0x81; 0x5c; 0x5f; 0x9d; 0x09; 0x01; 0x85; 0x09; 0x09; 0xc5;
  0x73; 0x09; 0x89; 0x73; 0x00; 0x86; 0x73; 0x00; 0x94; 0x73; 0x04; 0x92; 0x73; 0x62; 0x4f; 0xda;
  0x54; 0x60; 0x04; 0xca; 0x59; 0x03; 0xb8; 0x59; 0x06; 0x90; 0x59; 0x3f; 0x80; 0x8f; 0x80; 0x64;
  0x81; 0x19; 0x80; 0x42; 0x0a; 0x81; 0x2f; 0x0d; 0xf0; 0x07; 0x97; 0x8f; 0x07; 0xe2; 0x9f; 0x8f;
  0xe1; 0x75; 0x42; 0x29; 0x88; 0x8f; 0x70; 0x12; 0x96; 0x80; 0x3d; 0xe0; 0xbd; 0x35; 0x30; 0x82;
  0x35; 0x10; 0x83; 0x3d; 0x07; 0xe1; 0x2b; 0x64; 0x68; 0xa3; 0xe0; 0x0a; 0x22; 0x04; 0x8c; 0x22;
  0x02; 0x88; 0x22; 0x06; 0x89; 0x22; 0x01; 0x83; 0x22; 0x83; 0x19; 0x70; 0x02; 0xfb; 0xe0; 0x95;
  0x19; 0x09; 0xa6; 0x19; 0x01; 0xbd; 0x19; 0x82; 0x37; 0x90; 0x19; 0x87; 0x37; 0x81; 0x19; 0x86;
  0x37; 0x9d; 0x19; 0x83; 0x37; 0xba; 0x19; 0x16; 0xc5; 0x2b; 0x60; 0x39; 0x93; 0x19; 0x0b; 0xd6;
  0x19; 0x08; 0x98; 0x19; 0x60; 0x26; 0xd4; 0x19; 0x00; 0xc6; 0x19; 0x00; 0x81; 0x19; 0x01; 0x80;
  0x19; 0x01; 0x81; 0x19; 0x01; 0x83; 0x19; 0x00; 0x8b; 0x19; 0x00; 0x80; 0x19; 0x00; 0x86; 0x19;
  0x00; 0xc0; 0x19; 0x00; 0x83; 0x19; 0x01; 0x87; 0x19; 0x00; 0x86; 0x19; 0x00; 0x9b; 0x19; 0x00;
  0x83; 0x19; 0x00; 0x84; 0x19; 0x00; 0x80; 0x19; 0x02; 0x86; 0x19; 0x00; 0xe0; 0xf3; 0x19; 0x01;
  0xe0; 0xc3; 0x19; 0x01; 0xb1; 0x19; 0xe2; 0x2b; 0x80; 0x0e; 0x84; 0x80; 0x00; 0x8e; 0x80; 0x64;
  0xef; 0x86; 0x28; 0x00; 0x90; 0x28; 0x01; 0x86; 0x28; 0x00; 0x81; 0x28; 0x00; 0x84; 0x28; 0x60;
  0x74; 0xac; 0x65; 0x02; 0x8d; 0x65; 0x01; 0x89; 0x65; 0x03; 0x81; 0x65; 0x61; 0x0f; 0xb9; 0x98;
  0x04; 0x80; 0x98; 0x64; 0x9f; 0xe0; 0x64; 0x56; 0x01; 0x8f; 0x56; 0x28; 0xcb; 0x01; 0x03; 0x89;
  0x01; 0x03; 0x81; 0x01; 0x62; 0xb0; 0xc3; 0x19; 0x4b; 0xbc; 0x19; 0x60; 0x61; 0x83; 0x04; 0x00;
  0x9a; 0x04; 0x00; 0x81; 0x04; 0x00; 0x80; 0x04; 0x01; 0x80; 0x04; 0x00; 0x89; 0x04; 0x00; 0x83;
  0x04; 0x00; 0x80; 0x04; 0x00; 0x80; 0x04; 0x05; 0x80; 0x04; 0x03; 0x80; 0x04; 0x00; 0x80; 0x04;
  0x00; 0x80; 0x04; 0x00; 0x82; 0x04; 0x00; 0x81; 0x04; 0x00; 0x80; 0x04; 0x01; 0x80; 0x04; 0x00;
  0x80; 0x04; 0x00; 0x80; 0x04; 0x00; 0x80; 0x04; 0x00; 0x80; 0x04; 0x00; 0x81; 0x04; 0x00; 0x80;
  0x04; 0x01; 0x83; 0x04; 0x00; 0x86; 0x04; 0x00; 0x83; 0x04; 0x00; 0x83; 0x04; 0x00; 0x80; 0x04;
  0x00; 0x89; 0x04; 0x00; 0x90; 0x04; 0x04; 0x82; 0x04; 0x00; 0x84; 0x04; 0x00; 0x90; 0x04; 0x33;
  0x81; 0x04; 0x60; 0xad; 0xab; 0x19; 0x03; 0xe0; 0x03; 0x19; 0x0b; 0x8e; 0x19; 0x01; 0x8e; 0x19;
  0x00; 0x8e; 0x19; 0x00; 0xa4; 0x19; 0x09; 0xe0; 0x4d; 0x19; 0x37; 0x99; 0x19; 0x80; 0x35; 0x81;
  0x19; 0x0c; 0xab; 0x19; 0x03; 0x88; 0x19; 0x06; 0x81; 0x19; 0x0d; 0x85; 0x19; 0x60; 0x39; 0xe3;
  0x77; 0x19; 0x07; 0x8c; 0x19; 0x02; 0x8c; 0x19; 0x02; 0xe0; 0x13; 0x19; 0x0b; 0xd8; 0x19; 0x06;
  0x8b; 0x19; 0x13; 0x8b; 0x19; 0x03; 0xb7; 0x19; 0x07; 0x89; 0x19; 0x05; 0xa7; 0x19; 0x07; 0x9d;
  0x19; 0x01; 0x81; 0x19; 0x4d; 0xe0; 0x18; 0x19; 0x00; 0xd1; 0x19; 0x00; 0xe0; 0x26; 0x19; 0x0b;
  0x8d; 0x19; 0x01; 0x84; 0x19; 0x02; 0x82; 0x19; 0x04; 0x86; 0x19; 0x08; 0x98; 0x19; 0x06; 0x86;
  0x19; 0x08; 0x82; 0x19; 0x0c; 0x86; 0x19; 0x28; 0xe0; 0x32; 0x19; 0x00; 0xb6; 0x19; 0x24; 0x89;
  0x19; 0x63; 0xa5; 0xf0; 0x96; 0x7d; 0x2f; 0x21; 0xef; 0xd4; 0x2f; 0x0a; 0xe0; 0x7d; 0x2f; 0x01;
  0xf0; 0x06; 0x21; 0x2f; 0x0d; 0xf0; 0x0c; 0xd0; 0x2f; 0x6b; 0xbe; 0xe1; 0xbd; 0x2f; 0x65; 0x81;
  0xf0; 0x02; 0xea; 0x2f; 0x7a; 0xdc; 0x55; 0x80; 0x19; 0x1d; 0xdf; 0x19; 0x60; 0x1f; 0xe0; 0x8f;
  0x37
].

Definition unicode_script_ext_table : list Z := [
  0x82; 0xc1; 0x00; 0x00; 0x01; 0x2b; 0x01; 0x00; 0x00; 0x01; 0x2b; 0x1c; 0x00; 0x0c; 0x01; 0x45;
  0x80; 0x92; 0x00; 0x00; 0x02; 0x1d; 0x6b; 0x00; 0x02; 0x1d; 0x28; 0x01; 0x02; 0x1d; 0x45; 0x00;
  0x02; 0x1d; 0x28; 0x81; 0x03; 0x00; 0x00; 0x05; 0x04; 0x31; 0x87; 0x91; 0x9a; 0x0d; 0x00; 0x00;
  0x05; 0x04; 0x31; 0x87; 0x91; 0x9a; 0x00; 0x03; 0x04; 0x87; 0x91; 0x01; 0x00; 0x00; 0x05; 0x04;
  0x31; 0x87; 0x91; 0x9a; 0x1f; 0x00; 0x00; 0x08; 0x01; 0x04; 0x50; 0x51; 0x78; 0x31; 0x82; 0x87;
  0x09; 0x00; 0x0a; 0x02; 0x04; 0x87; 0x09; 0x00; 0x09; 0x03; 0x04; 0x91; 0x9a; 0x05; 0x00; 0x00;
  0x02; 0x04; 0x87; 0x62; 0x00; 0x00; 0x02; 0x04; 0x31; 0x81; 0xfb; 0x00; 0x00; 0x0d; 0x0b; 0x1f;
  0x2a; 0x2c; 0x2e; 0x3c; 0x45; 0x4f; 0x70; 0x7d; 0x8e; 0x90; 0x95; 0x00; 0x0c; 0x0b; 0x1f; 0x2a;
  0x2c; 0x2e; 0x3c; 0x45; 0x4f; 0x70; 0x8e; 0x90; 0x95; 0x10; 0x00; 0x00; 0x14; 0x0b; 0x1f; 0x21;
  0x2d; 0x53; 0x2a; 0x2c; 0x2e; 0x3c; 0x4e; 0x4f; 0x60; 0x70; 0x43; 0x81; 0x86; 0x8d; 0x8e; 0x90;
  0x95; 0x00; 0x15; 0x0b; 0x1f; 0x21; 0x2d; 0x53; 0x2a; 0x2c; 0x2e; 0x3c; 0x47; 0x4e; 0x4f; 0x60;
  0x70; 0x43; 0x81; 0x86; 0x8d; 0x8e; 0x90; 0x95; 0x09; 0x04; 0x1f; 0x21; 0x3b; 0x4e; 0x75; 0x00;
  0x09; 0x03; 0x0b; 0x15; 0x86; 0x75; 0x00; 0x09; 0x02; 0x2e; 0x5d; 0x75; 0x00; 0x09; 0x02; 0x2c;
  0x41; 0x80; 0x75; 0x00; 0x0d; 0x02; 0x2a; 0x8e; 0x80; 0x71; 0x00; 0x09; 0x02; 0x3c; 0x60; 0x82;
  0xcf; 0x00; 0x09; 0x03; 0x15; 0x5e; 0x8a; 0x80; 0x30; 0x00; 0x00; 0x02; 0x27; 0x45; 0x85; 0xb8;
  0x00; 0x01; 0x04; 0x11; 0x32; 0x89; 0x88; 0x80; 0x4a; 0x00; 0x01; 0x02; 0x5b; 0x76; 0x00; 0x00;
  0x00; 0x02; 0x5b; 0x76; 0x84; 0x49; 0x00; 0x00; 0x04; 0x0b; 0x1f; 0x2a; 0x3c; 0x00; 0x01; 0x1f;
  0x00; 0x04; 0x0b; 0x1f; 0x2a; 0x3c; 0x00; 0x02; 0x1f; 0x2a; 0x00; 0x01; 0x1f; 0x01; 0x02; 0x0b;
  0x1f; 0x00; 0x02; 0x1f; 0x7d; 0x00; 0x02; 0x0b; 0x1f; 0x00; 0x02; 0x1f; 0x7d; 0x00; 0x06; 0x1f;
  0x3c; 0x4f; 0x70; 0x8e; 0x90; 0x00; 0x01; 0x1f; 0x01; 0x02; 0x1f; 0x7d; 0x01; 0x01; 0x1f; 0x00;
  0x02; 0x1f; 0x7d; 0x00; 0x02; 0x0b; 0x1f; 0x06; 0x01; 0x1f; 0x00; 0x02; 0x1f; 0x60; 0x00; 0x02;
  0x0b; 0x1f; 0x01; 0x01; 0x1f; 0x00; 0x02; 0x0b; 0x1f; 0x03; 0x01; 0x1f; 0x00; 0x08; 0x0b; 0x1f;
  0x2a; 0x3c; 0x60; 0x70; 0x90; 0x95; 0x00; 0x02; 0x1f; 0x2a; 0x00; 0x03; 0x1f; 0x2a; 0x3c; 0x01;
  0x02; 0x0b; 0x1f; 0x00; 0x01; 0x0b; 0x01; 0x02; 0x1f; 0x2a; 0x00; 0x01; 0x60; 0x80; 0x44; 0x00;
  0x01; 0x01; 0x2b; 0x35; 0x00; 0x00; 0x02; 0x1d; 0x87; 0x81; 0xb5; 0x00; 0x00; 0x02; 0x45; 0x5b;
  0x80; 0x3f; 0x00; 0x00; 0x03; 0x1f; 0x2a; 0x45; 0x8c; 0xd1; 0x00; 0x00; 0x02; 0x1d; 0x28; 0x81;
  0x3c; 0x00; 0x01; 0x06; 0x0d; 0x30; 0x2f; 0x35; 0x3d; 0x9b; 0x00; 0x05; 0x0d; 0x30; 0x2f; 0x35;
  0x3d; 0x01; 0x00; 0x00; 0x01; 0x2f; 0x00; 0x00; 0x09; 0x06; 0x0d; 0x30; 0x2f; 0x35; 0x3d; 0x9b;
  0x00; 0x00; 0x00; 0x05; 0x0d; 0x30; 0x2f; 0x35; 0x3d; 0x07; 0x06; 0x0d; 0x30; 0x2f; 0x35; 0x3d;
  0x9b; 0x03; 0x05; 0x0d; 0x30; 0x2f; 0x35; 0x3d; 0x09; 0x00; 0x03; 0x02; 0x0d; 0x2f; 0x01; 0x00;
  0x00; 0x05; 0x0d; 0x30; 0x2f; 0x35; 0x3d; 0x04; 0x02; 0x35; 0x3d; 0x00; 0x00; 0x00; 0x05; 0x0d;
  0x30; 0x2f; 0x35; 0x3d; 0x03; 0x00; 0x01; 0x03; 0x2f; 0x35; 0x3d; 0x01; 0x01; 0x2f; 0x58; 0x00;
  0x03; 0x02; 0x35; 0x3d; 0x02; 0x00; 0x00; 0x02; 0x35; 0x3d; 0x59; 0x00; 0x00; 0x06; 0x0d; 0x30;
  0x2f; 0x35; 0x3d; 0x9b; 0x00; 0x02; 0x35; 0x3d; 0x80; 0x12; 0x00; 0x0f; 0x01; 0x2f; 0x1f; 0x00;
  0x23; 0x01; 0x2f; 0x3b; 0x00; 0x27; 0x01; 0x2f; 0x37; 0x00; 0x30; 0x01; 0x2f; 0x0e; 0x00; 0x0b;
  0x01; 0x2f; 0x32; 0x00; 0x00; 0x01; 0x2f; 0x57; 0x00; 0x18; 0x01; 0x2f; 0x09; 0x00; 0x04; 0x01;
  0x2f; 0x5f; 0x00; 0x1e; 0x01; 0x2f; 0xc0; 0x31; 0xef; 0x00; 0x00; 0x02; 0x1d; 0x28; 0x80; 0x0f;
  0x00; 0x07; 0x02; 0x2f; 0x45; 0x80; 0xa7; 0x00; 0x02; 0x0e; 0x1f; 0x21; 0x2c; 0x2e; 0x41; 0x3c;
  0x3b; 0x4e; 0x4f; 0x5a; 0x60; 0x43; 0x8d; 0x95; 0x02; 0x0d; 0x1f; 0x21; 0x2c; 0x2e; 0x41; 0x3c;
  0x3b; 0x4e; 0x5a; 0x60; 0x43; 0x8d; 0x95; 0x03; 0x0b; 0x1f; 0x21; 0x2c; 0x2e; 0x41; 0x3b; 0x4e;
  0x5a; 0x43; 0x8d; 0x95; 0x80; 0x36; 0x00; 0x00; 0x02; 0x0b; 0x1f; 0x00; 0x00; 0x00; 0x02; 0x1f;
  0x8e; 0x39; 0x00; 0x00; 0x03; 0x3e; 0x45; 0x5e; 0x80; 0x1f; 0x00; 0x00; 0x02; 0x10; 0x3a; 0xc0;
  0x13; 0xa1; 0x00; 0x00; 0x02; 0x04; 0x91; 0x09; 0x00; 0x00; 0x02; 0x04; 0x91; 0x46; 0x00; 0x01;
  0x05; 0x0d; 0x30; 0x2f; 0x35; 0x3d; 0x80; 0x99; 0x00; 0x04; 0x06; 0x0d; 0x30; 0x2f; 0x35; 0x3d;
  0x9b; 0x09; 0x00; 0x00; 0x02; 0x35; 0x3d; 0x2c; 0x00; 0x01; 0x02; 0x35; 0x3d; 0x80; 0xdf; 0x00;
  0x02; 0x02; 0x1c; 0x49; 0x03; 0x00; 0x2c; 0x03; 0x1c; 0x48; 0x49; 0x02; 0x00; 0x08; 0x02; 0x1c;
  0x49; 0x81; 0x1f; 0x00; 0x1b; 0x02; 0x04; 0x1a; 0x8f; 0x84; 0x00; 0x00; 0x02; 0x2a; 0x8e; 0x00;
  0x00; 0x00; 0x02; 0x2a; 0x8e; 0x36; 0x00; 0x01; 0x02; 0x2a; 0x8e; 0x8c; 0x12; 0x00; 0x01; 0x02;
  0x2a; 0x8e; 0x00; 0x00; 0x00; 0x02; 0x2a; 0x8e; 0xc0; 0x5c; 0x4b; 0x00; 0x03; 0x01; 0x22; 0x96;
  0x3b; 0x00; 0x11; 0x01; 0x2f; 0x9e; 0x5d; 0x00; 0x01; 0x01; 0x2f; 0xce; 0xcd; 0x2d; 0x00
].

Definition unicode_prop_Hyphen_table : list Z := [
  0xac; 0x80; 0xfe; 0x80; 0x44; 0xdb; 0x80; 0x52; 0x7a; 0x80; 0x48; 0x08; 0x81; 0x4e; 0x04; 0x80;
  0x42; 0xe2; 0x80; 0x60; 0xcd; 0x66; 0x80; 0x40; 0xa8; 0x80; 0xd6; 0x80
].

Definition unicode_prop_Other_Math_table : list Z := [
  0xdd; 0x80; 0x43; 0x70; 0x11; 0x80; 0x99; 0x09; 0x81; 0x5c; 0x1f; 0x80; 0x9a; 0x82; 0x8a; 0x80;
  0x9f; 0x83; 0x97; 0x81; 0x8d; 0x81; 0xc0; 0x8c; 0x18; 0x11; 0x1c; 0x91; 0x03; 0x01; 0x89; 0x00;
  0x14; 0x28; 0x11; 0x09; 0x02; 0x05; 0x13; 0x24; 0xca; 0x21; 0x18; 0x08; 0x08; 0x00; 0x21; 0x0b;
  0x0b; 0x91; 0x09; 0x00; 0x06; 0x00; 0x29; 0x41; 0x21; 0x83; 0x40; 0xa7; 0x08; 0x80; 0x97; 0x80;
  0x90; 0x80; 0x41; 0xbc; 0x81; 0x8b; 0x88; 0x24; 0x21; 0x09; 0x14; 0x8d; 0x00; 0x01; 0x85; 0x97;
  0x81; 0xb8; 0x00; 0x80; 0x9c; 0x83; 0x88; 0x81; 0x41; 0x55; 0x81; 0x9e; 0x89; 0x41; 0x92; 0x95;
  0xbe; 0x83; 0x9f; 0x81; 0x60; 0xd4; 0x62; 0x00; 0x03; 0x80; 0x40; 0xd2; 0x00; 0x80; 0x60; 0xd4;
  0xc0; 0xd4; 0x80; 0xc6; 0x01; 0x08; 0x09; 0x0b; 0x80; 0x8b; 0x00; 0x06; 0x80; 0xc0; 0x03; 0x0f;
  0x06; 0x80; 0x9b; 0x03; 0x04; 0x00; 0x16; 0x80; 0x41; 0x53; 0x81; 0x98; 0x80; 0x98; 0x80; 0x9e;
  0x80; 0x98; 0x80; 0x9e; 0x80; 0x98; 0x80; 0x9e; 0x80; 0x98; 0x80; 0x9e; 0x80; 0x98; 0x07; 0x81;
  0xb1; 0x55; 0xff; 0x18; 0x9a; 0x01; 0x00; 0x08; 0x80; 0x89; 0x03; 0x00; 0x00; 0x28; 0x18; 0x00;
  0x00; 0x02; 0x01; 0x00; 0x08; 0x00; 0x00; 0x00; 0x00; 0x01; 0x00; 0x0b; 0x06; 0x03; 0x03; 0x00;
  0x80; 0x89; 0x80; 0x90; 0x22; 0x04; 0x80; 0x90
].

Definition unicode_prop_Other_Alphabetic_table : list Z := [
  0x43; 0x44; 0x80; 0x42; 0x69; 0x8d; 0x00; 0x01; 0x01; 0x00; 0xc7; 0x8a; 0xaf; 0x8c; 0x06; 0x8f;
  0x80; 0xe4; 0x33; 0x19; 0x0b; 0x80; 0xa2; 0x80; 0x9d; 0x8f; 0xe5; 0x8a; 0xe4; 0x0a; 0x88; 0x02;
  0x03; 0x40; 0xa6; 0x8b; 0x16; 0x85; 0x93; 0xb5; 0x09; 0x8e; 0x01; 0x22; 0x89; 0x81; 0x9c; 0x82;
  0xb9; 0x31; 0x09; 0x81; 0x89; 0x80; 0x89; 0x81; 0x9c; 0x82; 0xb9; 0x23; 0x09; 0x0b; 0x80; 0x9d;
  0x0a; 0x80; 0x8a; 0x82; 0xb9; 0x38; 0x10; 0x81; 0x94; 0x81; 0x95; 0x13; 0x82; 0xb9; 0x31; 0x09;
  0x81; 0x88; 0x81; 0x89; 0x81; 0x9d; 0x80; 0xba; 0x22; 0x10; 0x82; 0x89; 0x80; 0xa7; 0x83; 0xb9;
  0x30; 0x10; 0x17; 0x81; 0x8a; 0x81; 0x9c; 0x82; 0xb9; 0x30; 0x10; 0x17; 0x81; 0x8a; 0x81; 0x9b;
  0x83; 0xb9; 0x30; 0x10; 0x82; 0x89; 0x80; 0x89; 0x81; 0x9c; 0x82; 0xca; 0x28; 0x00; 0x87; 0x91;
  0x81; 0xbc; 0x01; 0x86; 0x91; 0x80; 0xe2; 0x01; 0x28; 0x81; 0x8f; 0x80; 0x40; 0xa2; 0x90; 0x8a;
  0x8a; 0x80; 0xa3; 0xed; 0x8b; 0x00; 0x0b; 0x96; 0x1b; 0x10; 0x11; 0x32; 0x83; 0x8c; 0x8b; 0x00;
  0x89; 0x83; 0x46; 0x73; 0x81; 0x9d; 0x81; 0x9d; 0x81; 0x9d; 0x81; 0xc1; 0x92; 0x40; 0xbb; 0x81;
  0xa1; 0x80; 0xf5; 0x8b; 0x83; 0x88; 0x40; 0xdd; 0x84; 0xb8; 0x89; 0x81; 0x93; 0xc9; 0x81; 0xbe;
  0x84; 0xaf; 0x8e; 0xbb; 0x82; 0x9d; 0x88; 0x09; 0xb8; 0x8a; 0xb1; 0x92; 0x41; 0xaf; 0x8d; 0x46;
  0xc0; 0xb3; 0x48; 0xf5; 0x9f; 0x60; 0x78; 0x73; 0x87; 0xa1; 0x81; 0x41; 0x61; 0x07; 0x80; 0x96;
  0x84; 0xd7; 0x81; 0xb1; 0x8f; 0x00; 0xb8; 0x80; 0xa5; 0x84; 0x9b; 0x8b; 0xac; 0x83; 0xaf; 0x8b;
  0xa4; 0x80; 0xc2; 0x8d; 0x8b; 0x07; 0x81; 0xac; 0x82; 0xb1; 0x00; 0x11; 0x0c; 0x80; 0xab; 0x24;
  0x80; 0x40; 0xec; 0x87; 0x60; 0x4f; 0x32; 0x80; 0x48; 0x56; 0x84; 0x46; 0x85; 0x10; 0x0c; 0x83;
  0x43; 0x13; 0x83; 0x41; 0x82; 0x81; 0x41; 0x52; 0x82; 0xb4; 0x8d; 0xbb; 0x80; 0xac; 0x88; 0xc6;
  0x82; 0xa3; 0x8b; 0x91; 0x81; 0xb8; 0x82; 0xaf; 0x8c; 0x8d; 0x81; 0xdb; 0x88; 0x08; 0x28; 0x40;
  0x9f; 0x89; 0x96; 0x83; 0xb9; 0x31; 0x09; 0x81; 0x89; 0x80; 0x89; 0x81; 0x40; 0xd0; 0x8c; 0x02;
  0xe9; 0x91; 0x40; 0xec; 0x31; 0x86; 0x9c; 0x81; 0xd1; 0x8e; 0x00; 0xe9; 0x8a; 0xe6; 0x8d; 0x41;
  0x00; 0x8c; 0x40; 0xf6; 0x28; 0x09; 0x0a; 0x00; 0x80; 0x40; 0x8d; 0x31; 0x2b; 0x80; 0x9b; 0x89;
  0xa9; 0x20; 0x83; 0x91; 0x8a; 0xad; 0x8d; 0x41; 0x96; 0x38; 0x86; 0xd2; 0x95; 0x80; 0x8d; 0xf9;
  0x2a; 0x00; 0x08; 0x10; 0x02; 0x80; 0xc1; 0x20; 0x08; 0x83; 0x41; 0x5b; 0x83; 0x60; 0x50; 0x57;
  0x00; 0xb6; 0x33; 0xdc; 0x81; 0x60; 0x4c; 0xab; 0x80; 0x60; 0x23; 0x60; 0x30; 0x90; 0x0e; 0x01;
  0x04; 0x49; 0x1b; 0x80; 0x47; 0xe7; 0x99; 0x85; 0x99; 0x85; 0x99
].

Definition unicode_prop_Other_Lowercase_table : list Z := [
  0x40; 0xa9; 0x80; 0x8e; 0x80; 0x41; 0xf4; 0x88; 0x31; 0x9d; 0x84; 0xdf; 0x80; 0xb3; 0x80; 0x59;
  0xb0; 0xbe; 0x8c; 0x80; 0xa1; 0xa4; 0x42; 0xb0; 0x80; 0x8c; 0x80; 0x8f; 0x8c; 0x40; 0xd2; 0x8f;
  0x43; 0x4f; 0x99; 0x47; 0x91; 0x81; 0x60; 0x7a; 0x1d; 0x81; 0x40; 0xd1; 0x80; 0x40; 0x86; 0x81;
  0x43; 0x61; 0x83
].

Definition unicode_prop_Other_Uppercase_table : list Z := [
  0x60; 0x21; 0x5f; 0x8f; 0x43; 0x45; 0x99; 0x61; 0xcc; 0x5f; 0x99; 0x85; 0x99; 0x85; 0x99
].

Definition unicode_prop_Other_Grapheme_Extend_table : list Z := [
  0x49; 0xbd; 0x80; 0x97; 0x80; 0x41; 0x65; 0x80; 0x97; 0x80; 0xe5; 0x80; 0x97; 0x80; 0x40; 0xe9;
  0x80; 0x91; 0x81; 0xe6; 0x80; 0x97; 0x80; 0xf6; 0x80; 0x8e; 0x80; 0x4d; 0x54; 0x80; 0x44; 0xd5;
  0x80; 0x50; 0x20; 0x81; 0x60; 0xcf; 0x6d; 0x81; 0x53; 0x9d; 0x80; 0x97; 0x80; 0x41; 0x57; 0x80;
  0x8b; 0x80; 0x40; 0xf0; 0x80; 0x43; 0x7f; 0x80; 0x60; 0xb8; 0x33; 0x07; 0x84; 0x6c; 0x2e; 0xac;
  0xdf
].

Definition unicode_prop_Other_Default_Ignorable_Code_Point_table : list Z := [
  0x43; 0x4e; 0x80; 0x4e; 0x0e; 0x81; 0x46; 0x52; 0x81; 0x48; 0xae; 0x80; 0x50; 0xfd; 0x80; 0x60;
  0xce; 0x3a; 0x80; 0xce; 0x88; 0x6d; 0x00; 0x06; 0x00; 0x9d; 0xdf; 0xff; 0x40; 0xef; 0x4e; 0x0f
].

Definition unicode_prop_Other_ID_Start_table : list Z := [
  0x58; 0x84; 0x81; 0x48; 0x90; 0x80; 0x94; 0x80; 0x4f; 0x6b; 0x81
].

Definition unicode_prop_Other_ID_Continue_table : list Z := [
  0x40; 0xb6; 0x80; 0x42; 0xce; 0x80; 0x4f; 0xe0; 0x88; 0x46; 0x67; 0x80
].

Definition unicode_prop_Prepended_Concatenation_Mark_table : list Z := [
  0x45; 0xff; 0x85; 0x40; 0xd6; 0x80; 0xb0; 0x80; 0x41; 0xd1; 0x80; 0x61; 0x07; 0xd9; 0x80; 0x8e;
  0x80
].

Definition unicode_prop_XID_Start1_table : list Z := [
  0x43; 0x79; 0x80; 0x4a; 0xb7; 0x80; 0xfe; 0x80; 0x60; 0x21; 0xe6; 0x81; 0x60; 0xcb; 0xc0; 0x85;
  0x41; 0x95; 0x81; 0xf3; 0x00; 0x00; 0x00; 0x00; 0x00; 0x00; 0x00; 0x80; 0x41; 0x1e; 0x81
].

Definition unicode_prop_XID_Continue1_table : list Z := [
  0x43; 0x79; 0x80; 0x60; 0x2d; 0x1f; 0x81; 0x60; 0xcb; 0xc0; 0x85; 0x41; 0x95; 0x81; 0xf3; 0x00;
  0x00; 0x00; 0x00; 0x00; 0x00; 0x00; 0x80
].

Definition unicode_prop_Changes_When_Titlecased1_table : list Z := [
  0x41; 0xc3; 0x08; 0x08; 0x81; 0xa4; 0x81; 0x4e; 0xdc; 0xaa; 0x0a; 0x4e; 0x87; 0x3f; 0x3f; 0x87;
  0x8b; 0x80; 0x8e; 0x80; 0xae; 0x80
].

Definition unicode_prop_Changes_When_Casefolded1_table : list Z := [
  0x40; 0xde; 0x80; 0xcf; 0x80; 0x97; 0x80; 0x44; 0x3c; 0x80; 0x59; 0x11; 0x80; 0x40; 0xe4; 0x3f;
  0x3f; 0x87; 0x89; 0x11; 0x05; 0x02; 0x11; 0x80; 0xa9; 0x11; 0x80; 0x60; 0xdb; 0x07; 0x86; 0x8b;
  0x84
].

Definition unicode_prop_Changes_When_NFKC_Casefolded1_table : list Z := [
  0x40; 0x9f; 0x06; 0x00; 0x01; 0x00; 0x01; 0x12; 0x10; 0x82; 0x9f; 0x80; 0xcf; 0x01; 0x80; 0x8b;
  0x07; 0x80; 0xfb; 0x01; 0x01; 0x80; 0xa5; 0x80; 0x40; 0xbb; 0x88; 0x9e; 0x29; 0x84; 0xda; 0x08;
  0x81; 0x89; 0x80; 0xa3; 0x04; 0x02; 0x04; 0x08; 0x80; 0xc9; 0x82; 0x9c; 0x80; 0x41; 0x93; 0x80;
  0x40; 0x93; 0x80; 0xd7; 0x83; 0x42; 0xde; 0x87; 0xfb; 0x08; 0x80; 0xd2; 0x01; 0x80; 0xa1; 0x11;
  0x80; 0x40; 0xfc; 0x81; 0x42; 0xd4; 0x80; 0xfe; 0x80; 0xa7; 0x81; 0xad; 0x80; 0xb5; 0x80; 0x88;
  0x03; 0x03; 0x03; 0x80; 0x8b; 0x80; 0x88; 0x00; 0x26; 0x80; 0x90; 0x80; 0x88; 0x03; 0x03; 0x03;
  0x80; 0x8b; 0x80; 0x41; 0x41; 0x80; 0xe1; 0x81; 0x46; 0x52; 0x81; 0xd4; 0x83; 0x45; 0x1c; 0x10;
  0x8a; 0x80; 0x91; 0x80; 0x9b; 0x8c; 0x80; 0xa1; 0xa4; 0x40; 0xd9; 0x80; 0x40; 0xd5; 0x00; 0x00;
  0x00; 0x00; 0x00; 0x00; 0x01; 0x3f; 0x3f; 0x87; 0x89; 0x11; 0x04; 0x00; 0x29; 0x04; 0x12; 0x80;
  0x88; 0x12; 0x80; 0x88; 0x11; 0x11; 0x04; 0x08; 0x8f; 0x00; 0x20; 0x8b; 0x12; 0x2a; 0x08; 0x0b;
  0x00; 0x07; 0x82; 0x8c; 0x06; 0x92; 0x81; 0x9a; 0x80; 0x8c; 0x8a; 0x80; 0xd6; 0x18; 0x10; 0x8a;
  0x01; 0x0c; 0x0a; 0x00; 0x10; 0x11; 0x02; 0x06; 0x05; 0x1c; 0x85; 0x8f; 0x8f; 0x8f; 0x88; 0x80;
  0x40; 0xa1; 0x08; 0x81; 0x40; 0xf7; 0x81; 0x41; 0x34; 0xd5; 0x99; 0x9a; 0x45; 0x20; 0x80; 0xe6;
  0x82; 0xe4; 0x80; 0x41; 0x9e; 0x81; 0x40; 0xf0; 0x80; 0x41; 0x2e; 0x80; 0xd2; 0x80; 0x8b; 0x40;
  0xd5; 0xa9; 0x80; 0xb4; 0x00; 0x82; 0xdf; 0x09; 0x80; 0xde; 0x80; 0xb0; 0xdd; 0x82; 0x8d; 0xdf;
  0x9e; 0x80; 0xa7; 0x87; 0xae; 0x80; 0x41; 0x7f; 0x60; 0x72; 0x9b; 0x81; 0x40; 0xd1; 0x80; 0x40;
  0x86; 0x81; 0x43; 0x61; 0x83; 0x88; 0x80; 0x60; 0x4d; 0x95; 0x41; 0x0d; 0x08; 0x00; 0x81; 0x89;
  0x00; 0x00; 0x09; 0x82; 0xc3; 0x81; 0xe9; 0xa5; 0x86; 0x8b; 0x24; 0x00; 0x97; 0x04; 0x00; 0x01;
  0x01; 0x80; 0xeb; 0xa0; 0x41; 0x6a; 0x91; 0xbf; 0x81; 0xb5; 0xa7; 0x8c; 0x82; 0x99; 0x95; 0x94;
  0x81; 0x8b; 0x80; 0x92; 0x03; 0x1a; 0x00; 0x80; 0x40; 0x86; 0x08; 0x80; 0x9f; 0x99; 0x40; 0x83;
  0x15; 0x0d; 0x0d; 0x0a; 0x16; 0x06; 0x80; 0x88; 0x60; 0xbc; 0xa6; 0x83; 0x54; 0xb9; 0x86; 0x8d;
  0x87; 0xbf; 0x85; 0x42; 0x3e; 0xd4; 0x80; 0xc6; 0x01; 0x08; 0x09; 0x0b; 0x80; 0x8b; 0x00; 0x06;
  0x80; 0xc0; 0x03; 0x0f; 0x06; 0x80; 0x9b; 0x03; 0x04; 0x00; 0x16; 0x80; 0x41; 0x53; 0x81; 0x41;
  0x23; 0x81; 0xb1; 0x55; 0xff; 0x18; 0x9a; 0x01; 0x00; 0x08; 0x80; 0x89; 0x03; 0x00; 0x00; 0x28;
  0x18; 0x00; 0x00; 0x02; 0x01; 0x00; 0x08; 0x00; 0x00; 0x00; 0x00; 0x01; 0x00; 0x0b; 0x06; 0x03;
  0x03; 0x00; 0x80; 0x89; 0x80; 0x90; 0x22; 0x04; 0x80; 0x90; 0x42; 0x43; 0x8a; 0x84; 0x9e; 0x80;
  0x9f; 0x99; 0x82; 0xa2; 0x80; 0xee; 0x82; 0x8c; 0xab; 0x83; 0x88; 0x31; 0x49; 0x9d; 0x89; 0x60;
  0xfc; 0x05; 0x42; 0x1d; 0x6b; 0x05; 0xe1; 0x4f; 0xff
].

Definition unicode_prop_ASCII_Hex_Digit_table : list Z := [
  0xaf; 0x89; 0x35; 0x99; 0x85
].

Definition unicode_prop_Bidi_Control_table : list Z := [
  0x46; 0x1b; 0x80; 0x59; 0xf0; 0x81; 0x99; 0x84; 0xb6; 0x83
].

Definition unicode_prop_Dash_table : list Z := [
  0xac; 0x80; 0x45; 0x5b; 0x80; 0xb2; 0x80; 0x4e; 0x40; 0x80; 0x44; 0x04; 0x80; 0x48; 0x08; 0x85;
  0xbc; 0x80; 0xa6; 0x80; 0x8e; 0x80; 0x41; 0x85; 0x80; 0x4c; 0x03; 0x01; 0x80; 0x9e; 0x0b; 0x80;
  0x41; 0xda; 0x80; 0x92; 0x80; 0xee; 0x80; 0x60; 0xcd; 0x8f; 0x81; 0xa4; 0x80; 0x89; 0x80; 0x40;
  0xa8; 0x80; 0x4f; 0x9e; 0x80
].

Definition unicode_prop_Deprecated_table : list Z := [
  0x41; 0x48; 0x80; 0x45; 0x28; 0x80; 0x49; 0x02; 0x00; 0x80; 0x48; 0x28; 0x81; 0x48; 0xc4; 0x85;
  0x42; 0xb8; 0x81; 0x6d; 0xdc; 0xd5; 0x80
].

Definition unicode_prop_Diacritic_table : list Z := [
  0xdd; 0x00; 0x80; 0xc6; 0x05; 0x03; 0x01; 0x81; 0x41; 0xf6; 0x40; 0x9e; 0x07; 0x25; 0x90; 0x0b;
  0x80; 0x88; 0x81; 0x40; 0xfc; 0x84; 0x40; 0xd0; 0x80; 0xb6; 0x90; 0x80; 0x9a; 0x00; 0x01; 0x00;
  0x40; 0x85; 0x3b; 0x81; 0x40; 0x85; 0x0b; 0x0a; 0x82; 0xc2; 0x9a; 0xda; 0x8a; 0xb9; 0x8a; 0xa1;
  0x81; 0x40; 0xc8; 0x9b; 0xbc; 0x80; 0x8f; 0x02; 0x83; 0x9b; 0x80; 0xc9; 0x80; 0x8f; 0x80; 0xed;
  0x80; 0x8f; 0x80; 0xed; 0x80; 0x8f; 0x80; 0xae; 0x82; 0xbb; 0x80; 0x8f; 0x06; 0x80; 0xf6; 0x80;
  0xfe; 0x80; 0xed; 0x80; 0x8f; 0x80; 0xec; 0x81; 0x8f; 0x80; 0xfb; 0x80; 0xfb; 0x28; 0x80; 0xea;
  0x80; 0x8c; 0x84; 0xca; 0x81; 0x9a; 0x00; 0x00; 0x03; 0x81; 0xc1; 0x10; 0x81; 0xbd; 0x80; 0xef;
  0x00; 0x81; 0xa7; 0x0b; 0x84; 0x98; 0x30; 0x80; 0x89; 0x81; 0x42; 0xc0; 0x82; 0x44; 0x68; 0x8a;
  0x88; 0x80; 0x41; 0x5a; 0x82; 0x41; 0x38; 0x39; 0x80; 0xaf; 0x8d; 0xf5; 0x80; 0x8e; 0x80; 0xa5;
  0x88; 0xb5; 0x81; 0x40; 0x89; 0x81; 0xbf; 0x85; 0xd1; 0x98; 0x18; 0x28; 0x0a; 0xb1; 0xbe; 0xd8;
  0x8b; 0xa4; 0x22; 0x82; 0x41; 0xbc; 0x00; 0x82; 0x8a; 0x82; 0x8c; 0x82; 0x8c; 0x82; 0x8c; 0x81;
  0x4c; 0xef; 0x82; 0x41; 0x3c; 0x80; 0x41; 0xf9; 0x85; 0xe8; 0x83; 0xde; 0x80; 0x60; 0x75; 0x71;
  0x80; 0x8b; 0x08; 0x80; 0x9b; 0x81; 0xd1; 0x81; 0x8d; 0xa1; 0xe5; 0x82; 0xec; 0x81; 0x40; 0xc9;
  0x80; 0x9a; 0x91; 0xb8; 0x83; 0xa3; 0x80; 0xde; 0x80; 0x8b; 0x80; 0xa3; 0x80; 0x40; 0x94; 0x82;
  0xc0; 0x83; 0xb2; 0x80; 0xe3; 0x84; 0x88; 0x82; 0xff; 0x81; 0x60; 0x4f; 0x2f; 0x80; 0x43; 0x00;
  0x8f; 0x41; 0x0d; 0x00; 0x80; 0xae; 0x80; 0xac; 0x81; 0xc2; 0x80; 0x42; 0xfb; 0x80; 0x48; 0x03;
  0x81; 0x42; 0x3a; 0x85; 0x42; 0x1d; 0x8a; 0x41; 0x67; 0x81; 0xf7; 0x81; 0xbd; 0x80; 0xcb; 0x80;
  0x88; 0x82; 0xe7; 0x81; 0x40; 0xb1; 0x81; 0xd0; 0x80; 0x8f; 0x80; 0x97; 0x32; 0x84; 0x40; 0xcc;
  0x02; 0x80; 0xfa; 0x81; 0x40; 0xfa; 0x81; 0xfd; 0x80; 0xf5; 0x81; 0xf2; 0x80; 0x41; 0x0c; 0x81;
  0x41; 0x01; 0x0b; 0x80; 0x40; 0x9b; 0x80; 0xd2; 0x80; 0x91; 0x80; 0xd0; 0x80; 0x41; 0xa4; 0x80;
  0x41; 0x01; 0x00; 0x81; 0xd0; 0x80; 0x60; 0x4d; 0x57; 0x84; 0xba; 0x86; 0x44; 0x57; 0x90; 0xcf;
  0x81; 0x60; 0x61; 0x74; 0x12; 0x2f; 0x39; 0x86; 0x9d; 0x83; 0x4f; 0x81; 0x86; 0x41; 0xb4; 0x83;
  0x45; 0xdf; 0x86; 0xec; 0x10; 0x82
].

Definition unicode_prop_Extender_table : list Z := [
  0x40; 0xb6; 0x80; 0x42; 0x17; 0x81; 0x43; 0x6d; 0x80; 0x41; 0xb8; 0x80; 0x43; 0x59; 0x80; 0x42;
  0xef; 0x80; 0xfe; 0x80; 0x49; 0x42; 0x80; 0xb7; 0x80; 0x42; 0x62; 0x80; 0x41; 0x8d; 0x80; 0xc3;
  0x80; 0x53; 0x88; 0x80; 0xaa; 0x84; 0xe6; 0x81; 0xdc; 0x82; 0x60; 0x6f; 0x15; 0x80; 0x45; 0xf5;
  0x80; 0x43; 0xc1; 0x80; 0x95; 0x80; 0x40; 0x88; 0x80; 0xeb; 0x80; 0x94; 0x81; 0x60; 0x54; 0x7a;
  0x80; 0x53; 0xeb; 0x80; 0x42; 0x67; 0x82; 0x44; 0xce; 0x80; 0x60; 0x50; 0xa8; 0x81; 0x44; 0x9b;
  0x08; 0x80; 0x60; 0x71; 0x57; 0x81; 0x48; 0x05; 0x82
].

Definition unicode_prop_Hex_Digit_table : list Z := [
  0xaf; 0x89; 0x35; 0x99; 0x85; 0x60; 0xfe; 0xa8; 0x89; 0x35; 0x99; 0x85
].

Definition unicode_prop_IDS_Binary_Operator_table : list Z := [
  0x60; 0x2f; 0xef; 0x09; 0x87
].

Definition unicode_prop_IDS_Trinary_Operator_table : list Z := [
  0x60; 0x2f; 0xf1; 0x81
].

Definition unicode_prop_Ideographic_table : list Z := [
  0x60; 0x30; 0x05; 0x81; 0x98; 0x88; 0x8d; 0x82; 0x43; 0xc4; 0x59; 0xbf; 0xbf; 0x60; 0x51; 0xfc;
  0x60; 0x59; 0x02; 0x41; 0x6d; 0x81; 0xe9; 0x60; 0x75; 0x09; 0x80; 0x9a; 0x57; 0xf7; 0x87; 0x44;
  0xd5; 0xa9; 0x88; 0x60; 0x24; 0x66; 0x41; 0x8b; 0x60; 0x4d; 0x03; 0x60; 0xa6; 0xdd; 0xa1; 0x50;
  0x34; 0x8a; 0x40; 0xdd; 0x81; 0x56; 0x81; 0x8d; 0x5d; 0x30; 0x4c; 0x1e; 0x42; 0x1d; 0x45; 0xe1;
  0x53; 0x4a
].

Definition unicode_prop_Join_Control_table : list Z := [
  0x60; 0x20; 0x0b; 0x81
].

Definition unicode_prop_Logical_Order_Exception_table : list Z := [
  0x4e; 0x3f; 0x84; 0xfa; 0x84; 0x4a; 0xef; 0x11; 0x80; 0x60; 0x90; 0xf9; 0x09; 0x00; 0x81
].

Definition unicode_prop_Noncharacter_Code_Point_table : list Z := [
  0x60; 0xfd; 0xcf; 0x9f; 0x42; 0x0d; 0x81; 0x60; 0xff; 0xfd; 0x81; 0x60; 0xff; 0xfd; 0x81; 0x60;
  0xff; 0xfd; 0x81; 0x60; 0xff; 0xfd; 0x81; 0x60; 0xff; 0xfd; 0x81; 0x60; 0xff; 0xfd; 0x81; 0x60;
  0xff; 0xfd; 0x81; 0x60; 0xff; 0xfd; 0x81; 0x60; 0xff; 0xfd; 0x81; 0x60; 0xff; 0xfd; 0x81; 0x60;
  0xff; 0xfd; 0x81; 0x60; 0xff; 0xfd; 0x81; 0x60; 0xff; 0xfd; 0x81; 0x60; 0xff; 0xfd; 0x81; 0x60;
  0xff; 0xfd; 0x81; 0x60; 0xff; 0xfd; 0x81
].

Definition unicode_prop_Pattern_Syntax_table : list Z := [
  0xa0; 0x8e; 0x89; 0x86; 0x99; 0x18; 0x80; 0x99; 0x83; 0xa1; 0x30; 0x00; 0x08; 0x00; 0x0b; 0x03;
  0x02; 0x80; 0x96; 0x80; 0x9e; 0x80; 0x5f; 0x17; 0x97; 0x87; 0x8e; 0x81; 0x92; 0x80; 0x89; 0x41;
  0x30; 0x42; 0xcf; 0x40; 0x9f; 0x42; 0x75; 0x9d; 0x44; 0x6b; 0x41; 0xff; 0xff; 0x41; 0x80; 0x13;
  0x98; 0x8e; 0x80; 0x60; 0xcd; 0x0c; 0x81; 0x41; 0x04; 0x81
].

Definition unicode_prop_Pattern_White_Space_table : list Z := [
  0x88; 0x84; 0x91; 0x80; 0xe3; 0x80; 0x5f; 0x87; 0x81; 0x97; 0x81
].

Definition unicode_prop_Quotation_Mark_table : list Z := [
  0xa1; 0x03; 0x80; 0x40; 0x82; 0x80; 0x8e; 0x80; 0x5f; 0x5b; 0x87; 0x98; 0x81; 0x4e; 0x06; 0x80;
  0x41; 0xc8; 0x83; 0x8c; 0x82; 0x60; 0xce; 0x20; 0x83; 0x40; 0xbc; 0x03; 0x80; 0xd9; 0x81
].

Definition unicode_prop_Radical_table : list Z := [
  0x60; 0x2e; 0x7f; 0x99; 0x80; 0xd8; 0x8b; 0x40; 0xd5
].

Definition unicode_prop_Regional_Indicator_table : list Z := [
  0x61; 0xf1; 0xe5; 0x99
].

Definition unicode_prop_Sentence_Terminal_table : list Z := [
  0xa0; 0x80; 0x8b; 0x80; 0x8f; 0x80; 0x45; 0x48; 0x80; 0x40; 0x93; 0x81; 0x40; 0xb3; 0x80; 0xaa;
  0x82; 0x40; 0xf5; 0x80; 0xbc; 0x00; 0x02; 0x81; 0x41; 0x24; 0x81; 0x46; 0xe3; 0x81; 0x43; 0x15;
  0x03; 0x81; 0x43; 0x04; 0x80; 0x40; 0xc5; 0x81; 0x40; 0xcb; 0x04; 0x80; 0x41; 0x39; 0x81; 0x41;
  0x61; 0x83; 0x40; 0xad; 0x09; 0x81; 0x40; 0xda; 0x81; 0xc0; 0x81; 0x43; 0xbb; 0x81; 0x88; 0x82;
  0x4d; 0xe3; 0x80; 0x8c; 0x80; 0x41; 0xc4; 0x80; 0x60; 0x74; 0xfb; 0x80; 0x41; 0x0d; 0x81; 0x40;
  0xe2; 0x02; 0x80; 0x41; 0x7d; 0x81; 0xd5; 0x81; 0xde; 0x80; 0x40; 0x97; 0x81; 0x40; 0x92; 0x82;
  0x40; 0x8f; 0x81; 0x40; 0xf8; 0x80; 0x60; 0x52; 0x65; 0x02; 0x81; 0x40; 0xa8; 0x80; 0x8b; 0x80;
  0x8f; 0x80; 0xc0; 0x80; 0x4a; 0xf3; 0x81; 0x44; 0xfc; 0x84; 0x40; 0xec; 0x81; 0xf4; 0x83; 0xfe;
  0x82; 0x40; 0x80; 0x0d; 0x80; 0x8f; 0x81; 0xd7; 0x08; 0x81; 0xeb; 0x80; 0x41; 0xa0; 0x81; 0x41;
  0x74; 0x0c; 0x8e; 0xe8; 0x81; 0x40; 0xf8; 0x82; 0x42; 0x04; 0x00; 0x80; 0x40; 0xfa; 0x81; 0xd6;
  0x81; 0x41; 0xa3; 0x81; 0x42; 0xb3; 0x81; 0x60; 0x4b; 0x74; 0x81; 0x40; 0x84; 0x80; 0xc0; 0x81;
  0x8a; 0x80; 0x43; 0x52; 0x80; 0x60; 0x4e; 0x05; 0x80; 0x5d; 0xe7; 0x80
].

Definition unicode_prop_Soft_Dotted_table : list Z := [
  0xe8; 0x81; 0x40; 0xc3; 0x80; 0x41; 0x18; 0x80; 0x9d; 0x80; 0xb3; 0x80; 0x93; 0x80; 0x41; 0x3f;
  0x80; 0xe1; 0x00; 0x80; 0x59; 0x08; 0x80; 0xb2; 0x80; 0x8c; 0x02; 0x80; 0x40; 0x83; 0x80; 0x40;
  0x9c; 0x80; 0x41; 0xa4; 0x80; 0x40; 0xd5; 0x81; 0x4b; 0x31; 0x80; 0x61; 0xa7; 0xa4; 0x81; 0xb1;
  0x81; 0xb1; 0x81; 0xb1; 0x81; 0xb1; 0x81; 0xb1; 0x81; 0xb1; 0x81; 0xb1; 0x81; 0xb1; 0x81; 0xb1;
  0x81; 0xb1; 0x81; 0xb1; 0x81; 0xb1; 0x81
].

Definition unicode_prop_Terminal_Punctuation_table : list Z := [
  0xa0; 0x80; 0x89; 0x00; 0x80; 0x8a; 0x0a; 0x80; 0x43; 0x3d; 0x07; 0x80; 0x42; 0x00; 0x80; 0xb8;
  0x80; 0xc7; 0x80; 0x8d; 0x01; 0x81; 0x40; 0xb3; 0x80; 0xaa; 0x8a; 0x00; 0x40; 0xea; 0x81; 0xb5;
  0x8e; 0x9e; 0x80; 0x41; 0x04; 0x81; 0x44; 0xf3; 0x81; 0x40; 0xab; 0x03; 0x85; 0x41; 0x36; 0x81;
  0x43; 0x14; 0x87; 0x43; 0x04; 0x80; 0xfb; 0x82; 0xc6; 0x81; 0x40; 0x9c; 0x12; 0x80; 0xa6; 0x19;
  0x81; 0x41; 0x39; 0x81; 0x41; 0x61; 0x83; 0x40; 0xad; 0x08; 0x82; 0x40; 0xda; 0x84; 0xbd; 0x81;
  0x43; 0xbb; 0x81; 0x88; 0x82; 0x4d; 0xe3; 0x80; 0x8c; 0x03; 0x80; 0x89; 0x00; 0x81; 0x41; 0xb0;
  0x81; 0x60; 0x74; 0xfa; 0x81; 0x41; 0x0c; 0x82; 0x40; 0xe2; 0x84; 0x41; 0x7d; 0x81; 0xd5; 0x81;
  0xde; 0x80; 0x40; 0x96; 0x82; 0x40; 0x92; 0x82; 0xfe; 0x80; 0x8f; 0x81; 0x40; 0xf8; 0x80; 0x60;
  0x52; 0x63; 0x10; 0x83; 0x40; 0xa8; 0x80; 0x89; 0x00; 0x80; 0x8a; 0x0a; 0x80; 0xc0; 0x01; 0x80;
  0x44; 0x39; 0x80; 0xaf; 0x80; 0x44; 0x85; 0x80; 0x40; 0xc6; 0x80; 0x41; 0x35; 0x81; 0x40; 0x97;
  0x85; 0xc3; 0x85; 0xd8; 0x83; 0x43; 0xb7; 0x84; 0x40; 0xec; 0x86; 0xef; 0x83; 0xfe; 0x82; 0x40;
  0x80; 0x0d; 0x80; 0x8f; 0x81; 0xd7; 0x84; 0xeb; 0x80; 0x41; 0xa0; 0x82; 0x8b; 0x81; 0x41; 0x65;
  0x1a; 0x8e; 0xe8; 0x81; 0x40; 0xf8; 0x82; 0x42; 0x04; 0x00; 0x80; 0x40; 0xfa; 0x81; 0xd6; 0x0b;
  0x81; 0x41; 0x9d; 0x82; 0xac; 0x80; 0x42; 0x84; 0x81; 0x45; 0x76; 0x84; 0x60; 0x45; 0xf8; 0x81;
  0x40; 0x84; 0x80; 0xc0; 0x82; 0x89; 0x80; 0x43; 0x51; 0x81; 0x60; 0x4e; 0x05; 0x80; 0x5d; 0xe6;
  0x83
].

Definition unicode_prop_Unified_Ideograph_table : list Z := [
  0x60; 0x33; 0xff; 0x59; 0xbf; 0xbf; 0x60; 0x51; 0xfc; 0x60; 0x5a; 0x10; 0x08; 0x00; 0x81; 0x89;
  0x00; 0x00; 0x09; 0x82; 0x61; 0x05; 0xd5; 0x60; 0xa6; 0xdd; 0xa1; 0x50; 0x34; 0x8a; 0x40; 0xdd;
  0x81; 0x56; 0x81; 0x8d; 0x5d; 0x30; 0x54; 0x1e; 0x53; 0x4a
].

Definition unicode_prop_Variation_Selector_table : list Z := [
  0x58; 0x0a; 0x82; 0x60; 0xe5; 0xf1; 0x8f; 0x6d; 0x02; 0xef; 0x40; 0xef
].

Definition unicode_prop_White_Space_table : list Z := [
  0x88; 0x84; 0x91; 0x80; 0xe3; 0x80; 0x99; 0x80; 0x55; 0xde; 0x80; 0x49; 0x7e; 0x8a; 0x9c; 0x0c;
  0x80; 0xae; 0x80; 0x4f; 0x9f; 0x80
].

Definition unicode_prop_Bidi_Mirrored_table : list Z := [
  0xa7; 0x81; 0x91; 0x00; 0x80; 0x9b; 0x00; 0x80; 0x9c; 0x00; 0x80; 0xac; 0x80; 0x8e; 0x80; 0x4e;
  0x7d; 0x83; 0x47; 0x5c; 0x81; 0x49; 0x9b; 0x81; 0x89; 0x81; 0xb5; 0x81; 0x8d; 0x81; 0x40; 0xb0;
  0x80; 0x40; 0xbf; 0x1a; 0x2a; 0x02; 0x0a; 0x18; 0x18; 0x00; 0x03; 0x88; 0x20; 0x80; 0x91; 0x23;
  0x88; 0x08; 0x00; 0x39; 0x9e; 0x0b; 0x20; 0x88; 0x09; 0x92; 0x21; 0x88; 0x21; 0x0b; 0x97; 0x81;
  0x8f; 0x3b; 0x93; 0x0e; 0x81; 0x44; 0x3c; 0x8d; 0xc9; 0x01; 0x18; 0x08; 0x14; 0x1c; 0x12; 0x8d;
  0x41; 0x92; 0x95; 0x0d; 0x80; 0x8d; 0x38; 0x35; 0x10; 0x1c; 0x01; 0x0c; 0x18; 0x02; 0x09; 0x89;
  0x29; 0x81; 0x8b; 0x92; 0x03; 0x08; 0x00; 0x08; 0x03; 0x21; 0x2a; 0x97; 0x81; 0x8a; 0x0b; 0x18;
  0x09; 0x0b; 0xaa; 0x0f; 0x80; 0xa7; 0x20; 0x00; 0x14; 0x22; 0x18; 0x14; 0x00; 0x40; 0xff; 0x80;
  0x42; 0x02; 0x1a; 0x08; 0x81; 0x8d; 0x09; 0x89; 0x41; 0xdd; 0x89; 0x0f; 0x60; 0xce; 0x3c; 0x2c;
  0x81; 0x40; 0xa1; 0x81; 0x91; 0x00; 0x80; 0x9b; 0x00; 0x80; 0x9c; 0x00; 0x00; 0x08; 0x81; 0x60;
  0xd7; 0x76; 0x80; 0xb8; 0x80; 0xb8; 0x80; 0xb8; 0x80; 0xb8; 0x80
].

Definition unicode_prop_Emoji_table : list Z := [
  0xa2; 0x05; 0x04; 0x89; 0xee; 0x03; 0x80; 0x5f; 0x8c; 0x80; 0x8b; 0x80; 0x40; 0xd7; 0x80; 0x95;
  0x80; 0xd9; 0x85; 0x8e; 0x81; 0x41; 0x6e; 0x81; 0x8b; 0x80; 0x40; 0xa5; 0x80; 0x98; 0x8a; 0x1a;
  0x40; 0xc6; 0x80; 0x40; 0xe6; 0x81; 0x89; 0x80; 0x88; 0x80; 0xb9; 0x18; 0x84; 0x88; 0x01; 0x01;
  0x09; 0x03; 0x01; 0x00; 0x09; 0x02; 0x02; 0x0f; 0x14; 0x00; 0x04; 0x8b; 0x8a; 0x09; 0x00; 0x08;
  0x80; 0x91; 0x01; 0x81; 0x91; 0x28; 0x00; 0x0a; 0x0c; 0x01; 0x0b; 0x81; 0x8a; 0x0c; 0x09; 0x04;
  0x08; 0x00; 0x81; 0x93; 0x0c; 0x28; 0x19; 0x03; 0x01; 0x01; 0x28; 0x01; 0x00; 0x00; 0x05; 0x02;
  0x05; 0x80; 0x89; 0x81; 0x8e; 0x01; 0x03; 0x00; 0x03; 0x10; 0x80; 0x8a; 0x81; 0xaf; 0x82; 0x88;
  0x80; 0x8d; 0x80; 0x8d; 0x80; 0x41; 0x73; 0x81; 0x41; 0xce; 0x82; 0x92; 0x81; 0xb2; 0x03; 0x80;
  0x44; 0xd9; 0x80; 0x8b; 0x80; 0x42; 0x58; 0x00; 0x80; 0x61; 0xbd; 0x69; 0x80; 0x40; 0xc9; 0x80;
  0x40; 0x9f; 0x81; 0x8b; 0x81; 0x8d; 0x01; 0x89; 0xca; 0x99; 0x01; 0x96; 0x80; 0x93; 0x01; 0x88;
  0x94; 0x81; 0x40; 0xad; 0xa1; 0x81; 0xef; 0x09; 0x02; 0x81; 0xd2; 0x0a; 0x80; 0x41; 0x06; 0x80;
  0xbe; 0x8a; 0x28; 0x97; 0x31; 0x0f; 0x8b; 0x01; 0x19; 0x03; 0x81; 0x8c; 0x09; 0x07; 0x81; 0x88;
  0x04; 0x82; 0x8b; 0x17; 0x11; 0x00; 0x03; 0x05; 0x02; 0x05; 0xd5; 0xaf; 0xc5; 0x27; 0x0a; 0x3d;
  0x10; 0x01; 0x10; 0x81; 0x89; 0x40; 0xe2; 0x8b; 0x41; 0x1f; 0xae; 0x80; 0x89; 0x80; 0xb1; 0x80;
  0xd1; 0x80; 0xb2; 0xef; 0x22; 0x14; 0x86; 0x88; 0x98; 0x36; 0x88; 0x82; 0x8c; 0x86
].

Definition unicode_prop_Emoji_Component_table : list Z := [
  0xa2; 0x05; 0x04; 0x89; 0x5f; 0xd2; 0x80; 0x40; 0xd4; 0x80; 0x60; 0xdd; 0x2a; 0x80; 0x60; 0xf3;
  0xd5; 0x99; 0x41; 0xfa; 0x84; 0x45; 0xaf; 0x83; 0x6c; 0x06; 0x6b; 0xdf
].

Definition unicode_prop_Emoji_Modifier_table : list Z := [
  0x61; 0xf3; 0xfa; 0x84
].

Definition unicode_prop_Emoji_Modifier_Base_table : list Z := [
  0x60; 0x26; 0x1c; 0x80; 0x40; 0xda; 0x80; 0x8f; 0x83; 0x61; 0xcc; 0x76; 0x80; 0xbb; 0x11; 0x01;
  0x82; 0xf4; 0x09; 0x8a; 0x94; 0x92; 0x10; 0x1a; 0x02; 0x30; 0x00; 0x97; 0x80; 0x40; 0xc8; 0x0b;
  0x80; 0x94; 0x03; 0x81; 0x40; 0xad; 0x12; 0x84; 0xd2; 0x80; 0x8f; 0x82; 0x88; 0x80; 0x8a; 0x80;
  0x42; 0x3e; 0x01; 0x07; 0x3d; 0x80; 0x88; 0x89; 0x0a; 0xb7; 0x80; 0xbc; 0x08; 0x08; 0x80; 0x90;
  0x10; 0x8c
].

Definition unicode_prop_Emoji_Presentation_table : list Z := [
  0x60; 0x23; 0x19; 0x81; 0x40; 0xcc; 0x1a; 0x01; 0x80; 0x42; 0x08; 0x81; 0x94; 0x81; 0xb1; 0x8b;
  0xaa; 0x80; 0x92; 0x80; 0x8c; 0x07; 0x81; 0x90; 0x0c; 0x0f; 0x04; 0x80; 0x94; 0x06; 0x08; 0x03;
  0x01; 0x06; 0x03; 0x81; 0x9b; 0x80; 0xa2; 0x00; 0x03; 0x10; 0x80; 0xbc; 0x82; 0x97; 0x80; 0x8d;
  0x80; 0x43; 0x5a; 0x81; 0xb2; 0x03; 0x80; 0x61; 0xc4; 0xad; 0x80; 0x40; 0xc9; 0x80; 0x40; 0xbd;
  0x01; 0x89; 0xca; 0x99; 0x00; 0x97; 0x80; 0x93; 0x01; 0x20; 0x82; 0x94; 0x81; 0x40; 0xad; 0xa0;
  0x8b; 0x88; 0x80; 0xc5; 0x80; 0x95; 0x8b; 0xaa; 0x1c; 0x8b; 0x90; 0x10; 0x82; 0xc6; 0x00; 0x80;
  0x40; 0xba; 0x81; 0xbe; 0x8c; 0x18; 0x97; 0x91; 0x80; 0x99; 0x81; 0x8c; 0x80; 0xd5; 0xd4; 0xaf;
  0xc5; 0x28; 0x12; 0x0a; 0x92; 0x0e; 0x88; 0x40; 0xe2; 0x8b; 0x41; 0x1f; 0xae; 0x80; 0x89; 0x80;
  0xb1; 0x80; 0xd1; 0x80; 0xb2; 0xef; 0x22; 0x14; 0x86; 0x88; 0x98; 0x36; 0x88; 0x82; 0x8c; 0x86
].

Definition unicode_prop_Extended_Pictographic_table : list Z := [
  0x40; 0xa8; 0x03; 0x80; 0x5f; 0x8c; 0x80; 0x8b; 0x80; 0x40; 0xd7; 0x80; 0x95; 0x80; 0xd9; 0x85;
  0x8e; 0x81; 0x41; 0x6e; 0x81; 0x8b; 0x80; 0xde; 0x80; 0xc5; 0x80; 0x98; 0x8a; 0x1a; 0x40; 0xc6;
  0x80; 0x40; 0xe6; 0x81; 0x89; 0x80; 0x88; 0x80; 0xb9; 0x18; 0x28; 0x8b; 0x80; 0xf1; 0x89; 0xf5;
  0x81; 0x8a; 0x00; 0x00; 0x28; 0x10; 0x28; 0x89; 0x81; 0x8e; 0x01; 0x03; 0x00; 0x03; 0x10; 0x80;
  0x8a; 0x84; 0xac; 0x82; 0x88; 0x80; 0x8d; 0x80; 0x8d; 0x80; 0x41; 0x73; 0x81; 0x41; 0xce; 0x82;
  0x92; 0x81; 0xb2; 0x03; 0x80; 0x44; 0xd9; 0x80; 0x8b; 0x80; 0x42; 0x58; 0x00; 0x80; 0x61; 0xbd;
  0x65; 0x40; 0xff; 0x8c; 0x82; 0x9e; 0x80; 0xbb; 0x85; 0x8b; 0x81; 0x8d; 0x01; 0x89; 0x91; 0xb8;
  0x9a; 0x8e; 0x89; 0x80; 0x93; 0x01; 0x88; 0x03; 0x88; 0x41; 0xb1; 0x84; 0x41; 0x3d; 0x87; 0x41;
  0x09; 0xaf; 0xff; 0xf3; 0x8b; 0xd4; 0xaa; 0x8b; 0x83; 0xb7; 0x87; 0x89; 0x85; 0xa7; 0x87; 0x9d;
  0xd1; 0x8b; 0xae; 0x80; 0x89; 0x80; 0x41; 0xb8; 0x40; 0xff; 0x43; 0xfd
].

Definition unicode_prop_Default_Ignorable_Code_Point_table : list Z := [
  0x40; 0xac; 0x80; 0x42; 0xa0; 0x80; 0x42; 0xcb; 0x80; 0x4b; 0x41; 0x81; 0x46; 0x52; 0x81; 0xd4;
  0x83; 0x47; 0xfb; 0x84; 0x99; 0x84; 0xb0; 0x8f; 0x50; 0xf3; 0x80; 0x60; 0xcc; 0x9a; 0x8f; 0x40;
  0xee; 0x80; 0x40; 0x9f; 0x80; 0xce; 0x88; 0x60; 0xbc; 0xa6; 0x83; 0x54; 0xce; 0x87; 0x6c; 0x2e;
  0x84; 0x4f; 0xff
].

Inductive UnicodePropertyEnum :=
  | UNICODE_PROP_Hyphen | UNICODE_PROP_Other_Math | UNICODE_PROP_Other_Alphabetic
  | UNICODE_PROP_Other_Lowercase | UNICODE_PROP_Other_Uppercase
  | UNICODE_PROP_Other_Grapheme_Extend | UNICODE_PROP_Other_Default_Ignorable_Code_Point
  | UNICODE_PROP_Other_ID_Start | UNICODE_PROP_Other_ID_Continue
  | UNICODE_PROP_Prepended_Concatenation_Mark | UNICODE_PROP_ID_Continue1
  | UNICODE_PROP_XID_Start1 | UNICODE_PROP_XID_Continue1 | UNICODE_PROP_Changes_When_Titlecased1
  | UNICODE_PROP_Changes_When_Casefolded1 | UNICODE_PROP_Changes_When_NFKC_Casefolded1
  | UNICODE_PROP_ASCII_Hex_Digit | UNICODE_PROP_Bidi_Control | UNICODE_PROP_Dash
  | UNICODE_PROP_Deprecated | UNICODE_PROP_Diacritic | UNICODE_PROP_Extender
  | UNICODE_PROP_Hex_Digit | UNICODE_PROP_IDS_Binary_Operator | UNICODE_PROP_IDS_Trinary_Operator
  | UNICODE_PROP_Ideographic | UNICODE_PROP_Join_Control | UNICODE_PROP_Logical_Order_Exception
  | UNICODE_PROP_Noncharacter_Code_Point | UNICODE_PROP_Pattern_Syntax
  | UNICODE_PROP_Pattern_White_Space | UNICODE_PROP_Quotation_Mark | UNICODE_PROP_Radical
  | UNICODE_PROP_Regional_Indicator | UNICODE_PROP_Sentence_Terminal | UNICODE_PROP_Soft_Dotted
  | UNICODE_PROP_Terminal_Punctuation | UNICODE_PROP_Unified_Ideograph
  | UNICODE_PROP_Variation_Selector | UNICODE_PROP_White_Space | UNICODE_PROP_Bidi_Mirrored
  | UNICODE_PROP_Emoji | UNICODE_PROP_Emoji_Component | UNICODE_PROP_Emoji_Modifier
  | UNICODE_PROP_Emoji_Modifier_Base | UNICODE_PROP_Emoji_Presentation
  | UNICODE_PROP_Extended_Pictographic | UNICODE_PROP_Default_Ignorable_Code_Point
  | UNICODE_PROP_ID_Start | UNICODE_PROP_Case_Ignorable | UNICODE_PROP_ASCII
  | UNICODE_PROP_Alphabetic | UNICODE_PROP_Any | UNICODE_PROP_Assigned | UNICODE_PROP_Cased
  | UNICODE_PROP_Changes_When_Casefolded | UNICODE_PROP_Changes_When_Casemapped
  | UNICODE_PROP_Changes_When_Lowercased | UNICODE_PROP_Changes_When_NFKC_Casefolded
  | UNICODE_PROP_Changes_When_Titlecased | UNICODE_PROP_Changes_When_Uppercased
  | UNICODE_PROP_Grapheme_Base | UNICODE_PROP_Grapheme_Extend | UNICODE_PROP_ID_Continue
  | UNICODE_PROP_Lowercase | UNICODE_PROP_Math | UNICODE_PROP_Uppercase
  | UNICODE_PROP_XID_Continue | UNICODE_PROP_XID_Start | UNICODE_PROP_Cased1 | UNICODE_PROP_COUNT.

Definition prop_code (e : UnicodePropertyEnum) : Z :=
  match e with
  | UNICODE_PROP_Hyphen => 0 | UNICODE_PROP_Other_Math => 1 | UNICODE_PROP_Other_Alphabetic => 2
  | UNICODE_PROP_Other_Lowercase => 3 | UNICODE_PROP_Other_Uppercase => 4
  | UNICODE_PROP_Other_Grapheme_Extend => 5 | UNICODE_PROP_Other_Default_Ignorable_Code_Point => 6
  | UNICODE_PROP_Other_ID_Start => 7 | UNICODE_PROP_Other_ID_Continue => 8
  | UNICODE_PROP_Prepended_Concatenation_Mark => 9 | UNICODE_PROP_ID_Continue1 => 10
  | UNICODE_PROP_XID_Start1 => 11 | UNICODE_PROP_XID_Continue1 => 12
  | UNICODE_PROP_Changes_When_Titlecased1 => 13 | UNICODE_PROP_Changes_When_Casefolded1 => 14
  | UNICODE_PROP_Changes_When_NFKC_Casefolded1 => 15 | UNICODE_PROP_ASCII_Hex_Digit => 16
  | UNICODE_PROP_Bidi_Control => 17 | UNICODE_PROP_Dash => 18 | UNICODE_PROP_Deprecated => 19
  | UNICODE_PROP_Diacritic => 20 | UNICODE_PROP_Extender => 21 | UNICODE_PROP_Hex_Digit => 22
  | UNICODE_PROP_IDS_Binary_Operator => 23 | UNICODE_PROP_IDS_Trinary_Operator => 24
  | UNICODE_PROP_Ideographic => 25 | UNICODE_PROP_Join_Control => 26
  | UNICODE_PROP_Logical_Order_Exception => 27 | UNICODE_PROP_Noncharacter_Code_Point => 28
  | UNICODE_PROP_Pattern_Syntax => 29 | UNICODE_PROP_Pattern_White_Space => 30
  | UNICODE_PROP_Quotation_Mark => 31 | UNICODE_PROP_Radical => 32
  | UNICODE_PROP_Regional_Indicator => 33 | UNICODE_PROP_Sentence_Terminal => 34
  | UNICODE_PROP_Soft_Dotted => 35 | UNICODE_PROP_Terminal_Punctuation => 36
  | UNICODE_PROP_Unified_Ideograph => 37 | UNICODE_PROP_Variation_Selector => 38
  | UNICODE_PROP_White_Space => 39 | UNICODE_PROP_Bidi_Mirrored => 40 | UNICODE_PROP_Emoji => 41
  | UNICODE_PROP_Emoji_Component => 42 | UNICODE_PROP_Emoji_Modifier => 43
  | UNICODE_PROP_Emoji_Modifier_Base => 44 | UNICODE_PROP_Emoji_Presentation => 45
  | UNICODE_PROP_Extended_Pictographic => 46 | UNICODE_PROP_Default_Ignorable_Code_Point => 47
  | UNICODE_PROP_ID_Start => 48 | UNICODE_PROP_Case_Ignorable => 49 | UNICODE_PROP_ASCII => 50
  | UNICODE_PROP_Alphabetic => 51 | UNICODE_PROP_Any => 52 | UNICODE_PROP_Assigned => 53
  | UNICODE_PROP_Cased => 54 | UNICODE_PROP_Changes_When_Casefolded => 55
  | UNICODE_PROP_Changes_When_Casemapped => 56 | UNICODE_PROP_Changes_When_Lowercased => 57
  | UNICODE_PROP_Changes_When_NFKC_Casefolded => 58 | UNICODE_PROP_Changes_When_Titlecased => 59
  | UNICODE_PROP_Changes_When_Uppercased => 60 | UNICODE_PROP_Grapheme_Base => 61
  | UNICODE_PROP_Grapheme_Extend => 62 | UNICODE_PROP_ID_Continue => 63
  | UNICODE_PROP_Lowercase => 64 | UNICODE_PROP_Math => 65 | UNICODE_PROP_Uppercase => 66
  | UNICODE_PROP_XID_Continue => 67 | UNICODE_PROP_XID_Start => 68 | UNICODE_PROP_Cased1 => 69
  | UNICODE_PROP_COUNT => 70
  end.

Definition unicode_prop_names : list string := [
  "ASCII_Hex_Digit,AHex"; "Bidi_Control,Bidi_C"; "Dash"; "Deprecated,Dep"; "Diacritic,Dia";
  "Extender,Ext"; "Hex_Digit,Hex"; "IDS_Binary_Operator,IDSB"; "IDS_Trinary_Operator,IDST";
  "Ideographic,Ideo"; "Join_Control,Join_C"; "Logical_Order_Exception,LOE";
  "Noncharacter_Code_Point,NChar"; "Pattern_Syntax,Pat_Syn"; "Pattern_White_Space,Pat_WS";
  "Quotation_Mark,QMark"; "Radical"; "Regional_Indicator,RI"; "Sentence_Terminal,STerm";
  "Soft_Dotted,SD"; "Terminal_Punctuation,Term"; "Unified_Ideograph,UIdeo";
  "Variation_Selector,VS"; "White_Space,space"; "Bidi_Mirrored,Bidi_M"; "Emoji";
  "Emoji_Component,EComp"; "Emoji_Modifier,EMod"; "Emoji_Modifier_Base,EBase";
  "Emoji_Presentation,EPres"; "Extended_Pictographic,ExtPict"; "Default_Ignorable_Code_Point,DI";
  "ID_Start,IDS"; "Case_Ignorable,CI"; "ASCII"; "Alphabetic,Alpha"; "Any"; "Assigned"; "Cased";
  "Changes_When_Casefolded,CWCF"; "Changes_When_Casemapped,CWCM"; "Changes_When_Lowercased,CWL";
  "Changes_When_NFKC_Casefolded,CWKCF"; "Changes_When_Titlecased,CWT";
  "Changes_When_Uppercased,CWU"; "Grapheme_Base,Gr_Base"; "Grapheme_Extend,Gr_Ext";
  "ID_Continue,IDC"; "Lowercase,Lower"; "Math"; "Uppercase,Upper"; "XID_Continue,XIDC";
  "XID_Start,XIDS"
].

Definition unicode_prop_name_table : list Z := c_names unicode_prop_names.

Definition unicode_prop_table : list (list Z) := [
  unicode_prop_Hyphen_table; unicode_prop_Other_Math_table; unicode_prop_Other_Alphabetic_table;
  unicode_prop_Other_Lowercase_table; unicode_prop_Other_Uppercase_table;
  unicode_prop_Other_Grapheme_Extend_table; unicode_prop_Other_Default_Ignorable_Code_Point_table;
  unicode_prop_Other_ID_Start_table; unicode_prop_Other_ID_Continue_table;
  unicode_prop_Prepended_Concatenation_Mark_table; unicode_prop_ID_Continue1_table;
  unicode_prop_XID_Start1_table; unicode_prop_XID_Continue1_table;
  unicode_prop_Changes_When_Titlecased1_table; unicode_prop_Changes_When_Casefolded1_table;
  unicode_prop_Changes_When_NFKC_Casefolded1_table; unicode_prop_ASCII_Hex_Digit_table;
  unicode_prop_Bidi_Control_table; unicode_prop_Dash_table; unicode_prop_Deprecated_table;
  unicode_prop_Diacritic_table; unicode_prop_Extender_table; unicode_prop_Hex_Digit_table;
  unicode_prop_IDS_Binary_Operator_table; unicode_prop_IDS_Trinary_Operator_table;
  unicode_prop_Ideographic_table; unicode_prop_Join_Control_table;
  unicode_prop_Logical_Order_Exception_table; unicode_prop_Noncharacter_Code_Point_table;
  unicode_prop_Pattern_Syntax_table; unicode_prop_Pattern_White_Space_table;
  unicode_prop_Quotation_Mark_table; unicode_prop_Radical_table;
  unicode_prop_Regional_Indicator_table; unicode_prop_Sentence_Terminal_table;
  unicode_prop_Soft_Dotted_table; unicode_prop_Terminal_Punctuation_table;
  unicode_prop_Unified_Ideograph_table; unicode_prop_Variation_Selector_table;
  unicode_prop_White_Space_table; unicode_prop_Bidi_Mirrored_table; unicode_prop_Emoji_table;
  unicode_prop_Emoji_Component_table; unicode_prop_Emoji_Modifier_table;
  unicode_prop_Emoji_Modifier_Base_table; unicode_prop_Emoji_Presentation_table;
  unicode_prop_Extended_Pictographic_table; unicode_prop_Default_Ignorable_Code_Point_table;
  unicode_prop_ID_Start_table; unicode_prop_Case_Ignorable_table
].

Definition unicode_prop_len_table : list Z := [
  zlen unicode_prop_Hyphen_table; zlen unicode_prop_Other_Math_table;
  zlen unicode_prop_Other_Alphabetic_table; zlen unicode_prop_Other_Lowercase_table;
  zlen unicode_prop_Other_Uppercase_table; zlen unicode_prop_Other_Grapheme_Extend_table;
  zlen unicode_prop_Other_Default_Ignorable_Code_Point_table;
  zlen unicode_prop_Other_ID_Start_table; zlen unicode_prop_Other_ID_Continue_table;
  zlen unicode_prop_Prepended_Concatenation_Mark_table; zlen unicode_prop_ID_Continue1_table;
  zlen unicode_prop_XID_Start1_table; zlen unicode_prop_XID_Continue1_table;
  zlen unicode_prop_Changes_When_Titlecased1_table;
  zlen unicode_prop_Changes_When_Casefolded1_table;
  zlen unicode_prop_Changes_When_NFKC_Casefolded1_table; zlen unicode_prop_ASCII_Hex_Digit_table;
  zlen unicode_prop_Bidi_Control_table; zlen unicode_prop_Dash_table;
  zlen unicode_prop_Deprecated_table; zlen unicode_prop_Diacritic_table;
  zlen unicode_prop_Extender_table; zlen unicode_prop_Hex_Digit_table;
  zlen unicode_prop_IDS_Binary_Operator_table; zlen unicode_prop_IDS_Trinary_Operator_table;
  zlen unicode_prop_Ideographic_table; zlen unicode_prop_Join_Control_table;
  zlen unicode_prop_Logical_Order_Exception_table;
  zlen unicode_prop_Noncharacter_Code_Point_table; zlen unicode_prop_Pattern_Syntax_table;
  zlen unicode_prop_Pattern_White_Space_table; zlen unicode_prop_Quotation_Mark_table;
  zlen unicode_prop_Radical_table; zlen unicode_prop_Regional_Indicator_table;
  zlen unicode_prop_Sentence_Terminal_table; zlen unicode_prop_Soft_Dotted_table;
  zlen unicode_prop_Terminal_Punctuation_table; zlen unicode_prop_Unified_Ideograph_table;
  zlen unicode_prop_Variation_Selector_table; zlen unicode_prop_White_Space_table;
  zlen unicode_prop_Bidi_Mirrored_table; zlen unicode_prop_Emoji_table;
  zlen unicode_prop_Emoji_Component_table; zlen unicode_prop_Emoji_Modifier_table;
  zlen unicode_prop_Emoji_Modifier_Base_table; zlen unicode_prop_Emoji_Presentation_table;
  zlen unicode_prop_Extended_Pictographic_table;
  zlen unicode_prop_Default_Ignorable_Code_Point_table; zlen unicode_prop_ID_Start_table;
  zlen unicode_prop_Case_Ignorable_table
].
