(* ===== verification/UnicodeIndex.v ===== *)
(** * libunicode.c: lookup in the indexed run-length tables

    A property table alternates run lengths of code points outside and inside
    the set, packed in one to three bytes.  An index gives, for every block of
    32 bytes, a code point and a position where a run starts: [get_index_pos]
    finds the block of a character by dichotomy, [lre_is_in_table] scans the
    block.  The specification is the plain reading of the table from its first
    byte ([prop_runs], [scan]). *)

From S2P Require Import Prelude UnicodeTables.

Definition get_le24 (tab : list Z) (ptr : Z) : outcome Z :=
  b0 ← aget tab ptr;
  b1 ← aget tab (ptr + 1);
  b2 ← aget tab (ptr + 2);
  mret (b0 .| (b1 << 8) .| (b2 << 16)).

Definition UNICODE_INDEX_BLOCK_LEN : Z := 32.

(** The answer is the position (-1: not in the table) and [*pcode]. *)
Definition get_index_pos (c : Z) (index_table : list Z) (index_table_len : Z) : outcome (Z * Z) :=
  v ← get_le24 index_table 0;
  let code := v .& ((1 << 21) - 1) in
  if c <? code then mret (0, 0)
  else
    let idx_max := index_table_len - 1 in
    code ← get_le24 index_table (idx_max * 3);
    if c >=? code then mret (-1, 0)
    else
      idx_min ← loop (Z.to_nat index_table_len) (fun st : Z * Z =>
        let '(idx_min, idx_max) := st in
        if idx_max - idx_min >? 1 then
          let idx := (idx_max + idx_min) / 2 in
          v ← get_le24 index_table (idx * 3);
          let code := v .& ((1 << 21) - 1) in
          mret (if c <? code then inl (idx_min, idx) else inl (idx, idx_max))
        else mret (inr idx_min)) (0, idx_max);
      v ← get_le24 index_table (idx_min * 3);
      mret ((idx_min + 1) * UNICODE_INDEX_BLOCK_LEN + (v >> 21), v .& ((1 << 21) - 1)).

(** One turn of the loop of [lre_is_in_table] from the state [p], [code], [bit]. *)
Definition in_table_step (c : Z) (table : list Z) (st : Z * Z * bool) : outcome (Z * Z * bool + bool) :=
  let '(p, code, bit) := st in
  b ← aget table p;
  let p := p + 1 in
  if b <? 64 then
    let code := u32 (code + ((b >> 3) + 1)) in
    if c <? code then mret (inr bit)
    else
      let bit := negb bit in
      let code := u32 (code + ((b .& 7) + 1)) in
      mret (if c <? code then inr bit else inl (p, code, negb bit))
  else if b >=? 0x80 then
    let code := u32 (code + (b - 0x80 + 1)) in
    mret (if c <? code then inr bit else inl (p, code, negb bit))
  else if b <? 0x60 then
    b1 ← aget table p;
    let code := u32 (code + ((((b - 0x40) << 8) .| b1) + 1)) in
    mret (if c <? code then inr bit else inl (p + 1, code, negb bit))
  else
    b1 ← aget table p;
    b2 ← aget table (p + 1);
    let code := u32 (code + ((((b - 0x60) << 16) .| (b1 << 8) .| b2) + 1)) in
    mret (if c <? code then inr bit else inl (p + 2, code, negb bit)).

Definition lre_is_in_table (c : Z) (table index_table : list Z) (index_table_len : Z) : outcome bool :=
  r ← get_index_pos c index_table index_table_len;
  let '(pos, code) := r in
  if pos <? 0 then mret false
  else loop (S (length table)) (in_table_step c table) (pos, code, false).

Definition lre_is_case_ignorable (c : Z) : outcome bool :=
  lre_is_in_table c unicode_prop_Case_Ignorable_table unicode_prop_Case_Ignorable_index
    (zlen unicode_prop_Case_Ignorable_index / 3).

Definition lre_is_id_start (c : Z) : outcome bool :=
  lre_is_in_table c unicode_prop_ID_Start_table unicode_prop_ID_Start_index
    (zlen unicode_prop_ID_Start_index / 3).

Definition lre_is_id_continue (c : Z) : outcome bool :=
  b ← lre_is_id_start c;
  if (b : bool) then mret true
  else lre_is_in_table c unicode_prop_ID_Continue1_table unicode_prop_ID_Continue1_index
    (zlen unicode_prop_ID_Continue1_index / 3).

Example lre_is_id_start_ex :
  (lre_is_id_start 65, lre_is_id_start 48, lre_is_id_continue 48, lre_is_id_start 0x4e00, lre_is_id_start 0x10ffff)
  = (Ret true, Ret false, Ret true, Ret true, Ret false).
Proof. vm_compute. reflexivity. Qed.

(** * The plain reading of a table *)

(** The run lengths packed in the bytes of a table. *)
Fixpoint prop_runs (bs : list Z) : option (list Z) :=
  match bs with
  | [] => Some []
  | b :: bs =>
      if b <? 64 then (fun rs => (b >> 3) + 1 :: (b .& 7) + 1 :: rs) <$> prop_runs bs
      else if b >=? 0x80 then cons (b - 0x80 + 1) <$> prop_runs bs
      else match bs with
      | [] => None
      | b1 :: bs =>
          if b <? 0x60 then cons ((((b - 0x40) << 8) .| b1) + 1) <$> prop_runs bs
          else match bs with
          | [] => None
          | b2 :: bs => cons ((((b - 0x60) << 16) .| (b1 << 8) .| b2) + 1) <$> prop_runs bs
          end
      end
  end.

(** The runs start at [code], outside the set when [bit] is false. *)
Fixpoint scan (runs : list Z) (code : Z) (bit : bool) (c : Z) : bool :=
  match runs with
  | [] => false
  | r :: rs => if c <? code + r then bit else scan rs (code + r) (negb bit) c
  end.

Definition runs_len (runs : list Z) : Z := foldr Z.add 0 runs.

Lemma runs_len_cons r rs : runs_len (r :: rs) = r + runs_len rs.
Proof. done. Qed.

(** The set of a table. *)
Definition table_set (table : list Z) (c : Z) : bool :=
  match prop_runs table with Some rs => scan rs 0 false c | None => false end.

(** The position after [n] bytes: the code point and the bit there. *)
Fixpoint prop_seek (bs : list Z) (n : nat) (code : Z) (bit : bool) : option (Z * bool) :=
  match n with
  | O => Some (code, bit)
  | S n =>
      match bs with
      | [] => None
      | b :: bs =>
          if b <? 64 then prop_seek bs n (code + ((b >> 3) + 1) + ((b .& 7) + 1)) bit
          else if b >=? 0x80 then prop_seek bs n (code + (b - 0x80 + 1)) (negb bit)
          else match bs, n with
          | b1 :: bs, S n =>
              if b <? 0x60 then prop_seek bs n (code + ((((b - 0x40) << 8) .| b1) + 1)) (negb bit)
              else match bs, n with
              | b2 :: bs, S n =>
                  prop_seek bs n (code + ((((b - 0x60) << 16) .| (b1 << 8) .| b2) + 1)) (negb bit)
              | _, _ => None
              end
          | _, _ => None
          end
      end
  end.

(** * Correctness of the lookup *)

Definition le24_at (tab : list Z) (k : Z) : Z :=
  let i := Z.to_nat (k * 3) in
  (tab !!! i) .| ((tab !!! S i) << 8) .| ((tab !!! S (S i)) << 16).

(** Code point and position of entry [k] of an index. *)
Definition index_code (index : list Z) (k : Z) : Z := le24_at index k .& ((1 << 21) - 1).
Definition index_pos (index : list Z) (k : Z) : Z :=
  (k + 1) * UNICODE_INDEX_BLOCK_LEN + (le24_at index k >> 21).

Lemma get_le24_at tab k : 0 <= k -> (k + 1) * 3 <= zlen tab -> get_le24 tab (k * 3) = Ret (le24_at tab k).
Proof.
  intros Hk Hl. unfold get_le24, le24_at.
  assert (Hget : forall i, 0 <= i < zlen tab -> aget tab i = Ret (tab !!! Z.to_nat i)).
  { intros i Hi. apply aget_lookup. split; [lia|]. apply list_lookup_lookup_total_lt. zlia. }
  rewrite !Hget by lia. cbn.
  replace (Z.to_nat (k * 3 + 1)) with (S (Z.to_nat (k * 3))) by lia.
  by replace (Z.to_nat (k * 3 + 2)) with (S (S (Z.to_nat (k * 3)))) by lia.
Qed.

(** The dichotomy: -1 at or above the last code of the index, else the entry at or below [c]. *)
Lemma get_index_pos_spec c index n :
  0 <= c -> 1 < n -> n * 3 <= zlen index ->
  yields (get_index_pos c index n) (fun '(pos, code) =>
    pos = 0 /\ code = 0 /\ c < index_code index 0 \/
    pos = -1 /\ le24_at index (n - 1) <= c \/
    c < le24_at index (n - 1) /\
    exists k, 0 <= k < n - 1 /\ pos = index_pos index k /\ code = index_code index k /\ code <= c).
Proof.
  intros Hc Hn Hl. unfold get_index_pos.
  replace (get_le24 index 0) with (get_le24 index (0 * 3)) by done.
  rewrite (get_le24_at index 0) by lia. cbn [mbind outcome_bind]. fold (index_code index 0).
  destruct (Z.ltb_spec c (index_code index 0)) as [H0|H0]; [cbn [yields mret outcome_ret]; by left|].
  rewrite (get_le24_at index (n - 1)) by lia. cbn [mbind outcome_bind].
  destruct (Z.geb_spec c (le24_at index (n - 1))); [cbn [yields mret outcome_ret]; right; left; split; [done|lia]|].
  apply yields_bind. apply (yields_mono _ (fun k => 0 <= k < n - 1 /\ index_code index k <= c)).
  - apply (loop_yields _ (fun '(a, b) => 0 <= a /\ a < b /\ b <= n - 1 /\ index_code index a <= c)
      (fun '(a, b) => Z.to_nat (b - a))); [|lia|lia].
    intros [a b] (Ha & Hab & Hb & Hle). destruct (Z.gtb_spec (b - a) 1); [|cbn; lia].
    pose proof (Z.div_mod (b + a) 2 ltac:(lia)). pose proof (Z.mod_pos_bound (b + a) 2 ltac:(lia)).
    rewrite get_le24_at by lia. cbn [mbind outcome_bind]. fold (index_code index ((b + a) / 2)).
    destruct (Z.ltb_spec c (index_code index ((b + a) / 2))); cbn; (split; [split_and!|]; lia).
  - intros k [Hk Hle]. rewrite get_le24_at by lia. cbn. right. right. split; [lia|]. by exists k.
Qed.

Lemma prop_runs_seek bs n : forall code bit code' bit' rs,
  prop_seek bs n code bit = Some (code', bit') -> prop_runs bs = Some rs ->
  Forall (fun r => 1 <= r) rs ->
  exists rs', prop_runs (drop n bs) = Some rs' /\ Forall (fun r => 1 <= r) rs' /\
    code + runs_len rs = code' + runs_len rs' /\
    forall c, code' <= c -> scan rs code bit c = scan rs' code' bit' c.
Proof.
  assert (Hgen : forall m bs n, (length bs <= m)%nat -> forall code bit code' bit' rs,
    prop_seek bs n code bit = Some (code', bit') -> prop_runs bs = Some rs ->
    Forall (fun r => 1 <= r) rs ->
    code <= code' /\ exists rs', prop_runs (drop n bs) = Some rs' /\ Forall (fun r => 1 <= r) rs' /\
      code + runs_len rs = code' + runs_len rs' /\
      forall c, code' <= c -> scan rs code bit c = scan rs' code' bit' c).
  2:{ intros. by eapply Hgen. }
  clear. induction m as [|m IH]; intros bs [|n] Hm code bit code' bit' rs Hs Hr Hp.
  1, 3: (replace (prop_seek bs 0 code bit) with (Some (code, bit)) in Hs by (by destruct bs); injection Hs as <- <-; rewrite drop_0; split; [lia|]; exists rs; split_and!; done).
  { destruct bs; [done|cbn in Hm; lia]. }
  destruct bs as [|b bs]; [done|]. cbn [prop_seek prop_runs] in Hs, Hr. cbn in Hm.
  destruct (b <? 64).
  { destruct (prop_runs bs) as [rs0|] eqn:E; [|done]. cbn in Hr. injection Hr as <-.
    apply list.Forall_cons in Hp as [P1 [P2 P3]%list.Forall_cons].
    destruct (IH bs n ltac:(lia) _ _ _ _ _ Hs E P3) as (Hle & rs' & H1 & H2 & H3 & H4).
    split; [lia|]. exists rs'. rewrite ?runs_len_cons. split_and!; [done|done|lia|]. intros c Hc. cbn [scan].
    destruct (Z.ltb_spec c (code + ((b >> 3) + 1))); [lia|].
    destruct (Z.ltb_spec c (code + ((b >> 3) + 1) + ((b .& 7) + 1))); [lia|].
    rewrite negb_involutive. by apply H4. }
  assert (Hstep : forall bs n r rs0, (length bs <= m)%nat -> prop_runs bs = Some rs0 ->
    Forall (fun r => 1 <= r) (r :: rs0) -> prop_seek bs n (code + r) (negb bit) = Some (code', bit') ->
    code <= code' /\ exists rs', prop_runs (drop n bs) = Some rs' /\ Forall (fun r => 1 <= r) rs' /\
      code + runs_len (r :: rs0) = code' + runs_len rs' /\
      forall c, code' <= c -> scan (r :: rs0) code bit c = scan rs' code' bit' c).
  { intros bs0 n0 r rs0 Hl E [P1 P2]%list.Forall_cons Hs0.
    destruct (IH bs0 n0 Hl _ _ _ _ _ Hs0 E P2) as (Hle & rs' & H1 & H2 & H3 & H4).
    split; [lia|]. exists rs'. rewrite ?runs_len_cons. split_and!; [done|done|lia|]. intros c Hc. cbn [scan].
    destruct (Z.ltb_spec c (code + r)); [lia|]. by apply H4. }
  destruct (b >=? 0x80).
  { destruct (prop_runs bs) as [rs0|] eqn:E; [|done]. cbn in Hr. injection Hr as <-.
    apply (Hstep bs n); [lia|done|done|done]. }
  destruct bs as [|b1 bs], n as [|n]; try done. cbn in Hm. destruct (b <? 0x60).
  { destruct (prop_runs bs) as [rs0|] eqn:E; [|done]. cbn in Hr. injection Hr as <-.
    apply (Hstep bs n); [lia|done|done|done]. }
  destruct bs as [|b2 bs], n as [|n]; try done. cbn in Hm.
  destruct (prop_runs bs) as [rs0|] eqn:E; [|done]. cbn in Hr. injection Hr as <-.
  apply (Hstep bs n); [lia|done|done|done].
Qed.

(** An index that agrees with its table. *)
Record index_agrees (table index : list Z) (n : Z) (rs : list Z) : Prop := {
  ia_size : 1 < n /\ n * 3 <= zlen index;
  ia_runs : prop_runs table = Some rs;
  ia_pos : Forall (fun r => 1 <= r) rs;
  ia_small : runs_len rs < 2 ^ 31;
  ia_entry : forall k, 0 <= k < n - 1 ->
    0 <= index_pos index k /\
    prop_seek table (Z.to_nat (index_pos index k)) 0 false = Some (index_code index k, false);
  ia_last : le24_at index (n - 1) = runs_len rs
}.

Definition index_check (table index : list Z) (n : Z) : bool :=
  match prop_runs table with
  | None => false
  | Some rs =>
      (1 <? n) && (n * 3 <=? zlen index) && forallb (fun r => 1 <=? r) rs &&
      (runs_len rs <? 2 ^ 31) && (le24_at index (n - 1) =? runs_len rs) &&
      forallz 0 (n - 1) (fun k => (0 <=? index_pos index k) &&
        match prop_seek table (Z.to_nat (index_pos index k)) 0 false with
        | Some (code, bit) => (code =? index_code index k) && negb bit
        | None => false
        end)
  end.

Lemma index_check_agrees table index n :
  index_check table index n = true -> exists rs, index_agrees table index n rs.
Proof.
  unfold index_check. destruct (prop_runs table) as [rs|] eqn:E; [|done].
  rewrite !andb_true_iff. intros (((((H1 & H2) & H3) & H4) & H5) & H6). exists rs.
  constructor; try done.
  - rewrite Z.ltb_lt in H1. rewrite Z.leb_le in H2. done.
  - rewrite forallb_forall in H3. apply list.Forall_forall. intros r Hr. apply list_elem_of_In, H3 in Hr.
    by apply Z.leb_le.
  - by apply Z.ltb_lt.
  - intros k Hk. pose proof (forallz_spec _ _ _ H6 k Hk) as [Hp Hs]%andb_true_iff. split; [by apply Z.leb_le|].
    destruct (prop_seek _ _ _ _) as [[code bit]|]; [|done].
    apply andb_true_iff in Hs as [->%Z.eqb_eq Hb]. by destruct bit.
  - by apply Z.eqb_eq.
Qed.

Lemma runs_len_nonneg rs : Forall (fun r => 1 <= r) rs -> 0 <= runs_len rs.
Proof. induction 1; [done|]. rewrite runs_len_cons. lia. Qed.

Lemma scan_beyond rs : forall code bit c,
  Forall (fun r => 1 <= r) rs -> code + runs_len rs <= c -> scan rs code bit c = false.
Proof.
  induction rs as [|r rs IH]; intros code bit c Hp Hc; [done|]. rewrite runs_len_cons in Hc.
  apply list.Forall_cons in Hp as [Hr Hp]. pose proof (runs_len_nonneg rs Hp). cbn [scan].
  destruct (Z.ltb_spec c (code + r)); [lia|]. apply IH; [done|lia].
Qed.

(** The runs [rs] start at [code], at or below [c]. *)
Record scanning (total c code : Z) (rs : list Z) : Prop := {
  sc_pos : Forall (fun r => 1 <= r) rs;
  sc_total : code + runs_len rs = total;
  sc_c : 0 <= code /\ code <= c /\ c < total /\ total < 2 ^ 31
}.

(** One run: the answer is known, or the scan goes on behind it. *)
Lemma scanning_run total c code r rs bit :
  scanning total c code (r :: rs) ->
  u32 (code + r) = code + r /\
  ((c <? code + r) = true /\ scan (r :: rs) code bit c = bit \/
   (c <? code + r) = false /\ scan (r :: rs) code bit c = scan rs (code + r) (negb bit) c /\
   scanning total c (code + r) rs).
Proof.
  intros [S3 S4 (S5 & S6 & S7 & S8)].
  apply list.Forall_cons in S3 as [Hr S3]. rewrite runs_len_cons in S4.
  pose proof (runs_len_nonneg _ S3). split.
  { apply wrap_small. change (2 ^ 32) with (2 * 2 ^ 31). lia. }
  cbn [scan]. destruct (Z.ltb_spec c (code + r)); [by left|right]. split_and!; [done..|].
  constructor; [done|lia|lia].
Qed.

(** The outcome of a turn, with respect to the plain reading. *)
Definition scan_step_ok (table : list Z) (total c p : Z) (goal : bool) (x : Z * Z * bool + bool) : Prop :=
  match x with
  | inl (p', code', bit') => p < p' /\ p < zlen table /\
      exists rs', prop_runs (drop (Z.to_nat p') table) = Some rs' /\
        scanning total c code' rs' /\ scan rs' code' bit' c = goal
  | inr bit => bit = goal
  end.

Lemma scan_step_one table total c p code r rs p' bit :
  scanning total c code (r :: rs) -> p < p' -> p < zlen table ->
  prop_runs (drop (Z.to_nat p') table) = Some rs ->
  scan_step_ok table total c p (scan (r :: rs) code bit c)
    (if c <? u32 (code + r) then inr bit else inl (p', u32 (code + r), negb bit)).
Proof.
  intros S0 Hp Hl Hr.
  destruct (scanning_run _ _ _ _ _ bit S0) as [-> [[-> ->]|(-> & -> & Hs)]]; [done|].
  split_and!; [done|done|]. by exists rs.
Qed.

Lemma in_table_step_spec table total c p code rs bit :
  0 <= p -> prop_runs (drop (Z.to_nat p) table) = Some rs -> scanning total c code rs ->
  yields (in_table_step c table (p, code, bit)) (scan_step_ok table total c p (scan rs code bit c)).
Proof.
  intros Hp0 Hr S0.
  destruct (drop (Z.to_nat p) table) as [|b bs] eqn:Ed.
  { injection Hr as <-. destruct S0 as [_ S4 S5]. cbn in S4. lia. }
  destruct (drop_cons_aget _ _ _ _ Hp0 Ed) as (Eb & Ed1 & Hl). unfold in_table_step. rewrite Eb.
  cbn [mbind outcome_bind]. cbn [prop_runs] in Hr. destruct (b <? 64).
  { destruct (prop_runs bs) as [rs0|] eqn:Er; [|done]. injection Hr as <-.
    destruct (scanning_run _ _ _ _ _ bit S0) as [-> [[-> ->]|(-> & -> & Hs)]]; [done|].
    apply scan_step_one; [done|lia|lia|by rewrite Ed1]. }
  destruct (b >=? 0x80).
  { destruct (prop_runs bs) as [rs0|] eqn:Er; [|done]. injection Hr as <-.
    apply scan_step_one; [done|lia|lia|by rewrite Ed1]. }
  destruct bs as [|b1 bs]; [done|].
  destruct (drop_cons_aget _ _ _ _ (ltac:(lia) : 0 <= p + 1) Ed1) as (Eb1 & Ed2 & Hl1). rewrite Eb1.
  cbn [mbind outcome_bind]. destruct (b <? 0x60).
  { destruct (prop_runs bs) as [rs0|] eqn:Er; [|done]. injection Hr as <-.
    apply scan_step_one; [done|lia|lia|by rewrite Ed2]. }
  destruct bs as [|b2 bs]; [done|].
  destruct (drop_cons_aget _ _ _ _ (ltac:(lia) : 0 <= p + 1 + 1) Ed2) as (Eb2 & Ed3 & Hl2). rewrite Eb2.
  cbn [mbind outcome_bind].
  destruct (prop_runs bs) as [rs0|] eqn:Er; [|done]. injection Hr as <-.
  apply scan_step_one; [done|lia|lia|]. replace (p + 1 + 2) with (p + 1 + 1 + 1) by lia. by rewrite Ed3.
Qed.

Lemma in_table_loop_spec table total c p code rs bit :
  0 <= p -> prop_runs (drop (Z.to_nat p) table) = Some rs -> scanning total c code rs ->
  yields (loop (S (length table)) (in_table_step c table) (p, code, bit)) (fun b => b = scan rs code bit c).
Proof.
  intros Hp Hr S0. apply (loop_yields _ (fun '(p', code', bit') => 0 <= p' /\ exists rs',
    prop_runs (drop (Z.to_nat p') table) = Some rs' /\ scanning total c code' rs' /\
    scan rs' code' bit' c = scan rs code bit c) (fun '(p', _, _) => Z.to_nat (zlen table - p'))).
  - intros [[p' code'] bit'] (Hp' & rs' & Hr' & S' & <-).
    eapply yields_mono; [by apply in_table_step_spec|].
    intros [[[p2 code2] bit2]|b]; [|done]. intros (H1 & H2 & rs2 & H3 & H4 & H5).
    split; [|lia]. split; [lia|]. by exists rs2.
  - split; [done|]. by exists rs.
  - zlia.
Qed.

Lemma lre_is_in_table_yields c table index n rs :
  0 <= c -> index_agrees table index n rs ->
  lre_is_in_table c table index n = Ret (scan rs 0 false c).
Proof.
  intros Hc [[I1 I2] I3 I4 I5 I6 I7]. apply yields_eq. unfold lre_is_in_table. apply yields_bind.
  eapply yields_mono; [by apply get_index_pos_spec|].
  assert (Hblock : forall k, 0 <= k < n - 1 -> exists rs', prop_runs (drop (Z.to_nat (index_pos index k)) table) = Some rs' /\
    Forall (fun r => 1 <= r) rs' /\ index_code index k + runs_len rs' = runs_len rs /\ 0 <= index_pos index k /\
    forall c, index_code index k <= c -> scan rs 0 false c = scan rs' (index_code index k) false c).
  { intros k Hk. destruct (I6 k Hk) as [Hpos Hs].
    destruct (prop_runs_seek _ _ _ _ _ _ _ Hs I3 I4) as (rs' & H1 & H2 & H3 & H4).
    exists rs'. split_and!; [done|done|lia|done|done]. }
  intros [pos code] [(-> & -> & H)|[(-> & H)|(H & k & Hk & -> & -> & Hle)]].
  - eval_closed (0 <? 0). cbn iota.
    destruct (Hblock 0 ltac:(lia)) as (rs' & _ & Hpos & Hsum & _). pose proof (runs_len_nonneg _ Hpos).
    apply (in_table_loop_spec table (runs_len rs)); [lia|by rewrite drop_0|]. constructor; [done|lia|lia].
  - eval_closed (-1 <? 0). cbn. symmetry. apply scan_beyond; [done|lia].
  - destruct (Hblock k Hk) as (rs' & H1 & H2 & H3 & H4 & H5).
    destruct (Z.ltb_spec (index_pos index k) 0); [lia|]. rewrite H5 by done.
    assert (0 <= index_code index k) by (apply Z.land_nonneg; right; vm_compute; discriminate).
    apply (in_table_loop_spec table (runs_len rs)); [lia|done|]. constructor; [done|lia|lia].
Qed.

Lemma index_check_lookup table index n c :
  index_check table index n = true -> 0 <= c -> lre_is_in_table c table index n = Ret (table_set table c).
Proof.
  intros H Hc. destruct (index_check_agrees _ _ _ H) as [rs Hrs].
  rewrite (lre_is_in_table_yields c table index n rs) by done.
  unfold table_set. by rewrite (ia_runs _ _ _ _ Hrs).
Qed.

(** C24: the indexed lookups of the identifier and case-ignorable properties are
    the plain reading of their tables, for every code point: the dichotomy in
    the index and the scan of one block terminate, never read outside the
    tables, and answer what decoding the whole table from its start answers. *)
Theorem unicode_lookup_spec c :
  0 <= c ->
  lre_is_case_ignorable c = Ret (table_set unicode_prop_Case_Ignorable_table c) /\
  lre_is_id_start c = Ret (table_set unicode_prop_ID_Start_table c) /\
  lre_is_id_continue c = Ret (table_set unicode_prop_ID_Start_table c ||
                              table_set unicode_prop_ID_Continue1_table c).
Proof.
  intros Hc.
  assert (E1 : lre_is_case_ignorable c = Ret (table_set unicode_prop_Case_Ignorable_table c)).
  { apply index_check_lookup; [vm_compute; reflexivity|done]. }
  assert (E2 : lre_is_id_start c = Ret (table_set unicode_prop_ID_Start_table c)).
  { apply index_check_lookup; [vm_compute; reflexivity|done]. }
  split; [exact E1|]. split; [exact E2|]. unfold lre_is_id_continue. rewrite E2.
  cbn [mbind outcome_bind]. destruct (table_set unicode_prop_ID_Start_table c); cbn [orb]; [reflexivity|].
  apply index_check_lookup; [vm_compute; reflexivity|done].
Qed.

Lemma unicode_lookup_spec_witness :
  0 <= 0x4e2d /\ lre_is_id_start 0x4e2d = Ret true /\ lre_is_id_continue 0x30 = Ret true.
Proof.
  split; [lia|]. split.
  - destruct (unicode_lookup_spec 0x4e2d ltac:(lia)) as (_ & -> & _). vm_compute. reflexivity.
  - destruct (unicode_lookup_spec 0x30 ltac:(lia)) as (_ & _ & ->). vm_compute. reflexivity.
Defined.
