(* ===== verification/UnicodeRuns.v ===== *)
(** * The plain reading of a table of runs

    The general category, script and combining class tables pack, for
    consecutive runs of code points, a length and a value.  [table_runs] decodes
    a whole table with the decoder of one run, [run_find] looks a code point up. *)

From S2P Require Import Prelude.

(** The start and the value of the run of [x], the first run starting at [c0]. *)
Fixpoint run_find {V} (runs : list (Z * V)) (c0 x : Z) : option (Z * V) :=
  match runs with
  | [] => None
  | (n, v) :: rs => if x <? c0 + n then Some (c0, v) else run_find rs (c0 + n) x
  end.

Definition runs_total {V} (runs : list (Z * V)) : Z := foldr (fun r t => r.1 + t) 0 runs.

Lemma runs_total_cons {V} (r : Z * V) rs : runs_total (r :: rs) = r.1 + runs_total rs.
Proof. done. Qed.

Lemma runs_total_nonneg {V} (rs : list (Z * V)) : Forall (fun r => 1 <= r.1) rs -> 0 <= runs_total rs.
Proof. induction 1; [done|]. rewrite runs_total_cons. lia. Qed.

Section Runs.
Context {V : Type} (table : list Z) (decode : Z -> outcome (Z * Z * V)).

(** The plain reading of a table: all its runs from the position [p]. *)
Fixpoint runs_from (fuel : nat) (p : Z) : outcome (list (Z * V)) :=
  match fuel with
  | O => Fuel
  | S fuel =>
      if p <? zlen table then
        d ← decode p;
        let '(p', n, v) := d in
        rs ← (if p <? p' then runs_from fuel p' else Undef);
        mret ((n + 1, v) :: rs)
      else mret []
  end.

Definition table_runs : outcome (list (Z * V)) := runs_from (S (length table)) 0.

(** The code point where the run at the position [target] starts. *)
Fixpoint runs_seek (fuel : nat) (p c target : Z) : option Z :=
  match fuel with
  | O => None
  | S fuel =>
      if p =? target then Some c
      else if p <? zlen table then
        match decode p with
        | Ret (p', n, _) => runs_seek fuel p' (c + (n + 1)) target
        | _ => None
        end
      else None
  end.

Lemma runs_seek_spec fuel : forall p c target c' f rs,
  runs_seek fuel p c target = Some c' -> runs_from f p = Ret rs -> Forall (fun r => 1 <= r.1) rs ->
  c <= c' /\ exists f' rs', runs_from f' target = Ret rs' /\ Forall (fun r => 1 <= r.1) rs' /\
    c + runs_total rs = c' + runs_total rs' /\ forall x, c' <= x -> run_find rs c x = run_find rs' c' x.
Proof.
  induction fuel as [|fuel IH]; intros p c target c' f rs Hs Hr Hp; [done|]. cbn [runs_seek] in Hs.
  destruct (Z.eqb_spec p target) as [->|Hne].
  { injection Hs as <-. split; [lia|]. by exists f, rs. }
  destruct f as [|f]; [done|]. cbn [runs_from] in Hr. destruct (p <? zlen table); [|done].
  destruct (decode p) as [[[p' n] v]| |]; [|done|done]. cbn [mbind outcome_bind] in Hr.
  destruct (p <? p'); [|done]. destruct (runs_from f p') as [rs1| |] eqn:E1; [|done|done]. injection Hr as <-.
  apply list.Forall_cons in Hp as [Hn Hp]. cbn [fst] in Hn.
  destruct (IH _ _ _ _ _ _ Hs E1 Hp) as (Hle & f' & rs' & H1 & H2 & H3 & H4).
  split; [lia|]. exists f', rs'. rewrite runs_total_cons. cbn [fst]. split_and!; [done|done|lia|].
  intros x Hx. cbn [run_find]. destruct (Z.ltb_spec x (c + (n + 1))); [lia|by apply H4].
Qed.
End Runs.

(** Well-formed tables of runs: checked by evaluation. *)
Definition runs_good {V} (vok : V -> bool) (r : outcome (list (Z * V))) : bool :=
  match r with
  | Ret all => forallb (fun r => (1 <=? r.1) && vok r.2) all && (runs_total all <=? 0x110000)
  | _ => false
  end.

Lemma runs_good_spec {V} (vok : V -> bool) r : runs_good vok r = true ->
  exists all, r = Ret all /\ Forall (fun r => 1 <= r.1 /\ vok r.2 = true) all /\ runs_total all <= 0x110000.
Proof.
  destruct r as [all| |]; [|done|done]. cbn. intros [H1 H2%Z.leb_le]%andb_true_iff. exists all.
  split_and!; [done| |done]. apply list.Forall_forall. intros r Hr.
  rewrite forallb_forall in H1. apply list_elem_of_In, H1, andb_true_iff in Hr as [?%Z.leb_le ?]. done.
Qed.

Lemma run_find_some {V} (rs : list (Z * V)) c0 x :
  c0 <= x -> x < c0 + runs_total rs -> exists r, run_find rs c0 x = Some r.
Proof.
  revert c0. induction rs as [|[n v] rs IH]; intros c0 H1 H2; [cbn in H2; lia|].
  rewrite runs_total_cons in H2. cbn [run_find fst] in *.
  destruct (Z.ltb_spec x (c0 + n)); [eauto|]. apply IH; lia.
Qed.

Lemma run_find_none {V} (rs : list (Z * V)) c0 x :
  Forall (fun r => 1 <= r.1) rs -> c0 + runs_total rs <= x -> run_find rs c0 x = None.
Proof.
  intros Hp. revert c0. induction Hp as [|[n v] rs Hn Hp IH]; intros c0 H2; [done|].
  rewrite runs_total_cons in H2. cbn [run_find fst] in *. pose proof (runs_total_nonneg _ Hp).
  destruct (Z.ltb_spec x (c0 + n)); [lia|]. apply IH; lia.
Qed.


Lemma run_find_in {V} (rs : list (Z * V)) c0 x c v :
  c0 <= x -> run_find rs c0 x = Some (c, v) -> c <= x /\ exists n, (n, v) ∈ rs.
Proof.
  revert c0. induction rs as [|[n v'] rs IH]; intros c0 H1 H2; [done|]. cbn [run_find] in H2.
  destruct (Z.ltb_spec x (c0 + n)).
  - injection H2 as <- <-. split; [done|]. exists n. by left.
  - destruct (IH (c0 + n) ltac:(lia) H2) as [? [m ?]]. split; [done|]. exists m. by right.
Qed.
