(* ===== verification/UnicodeCase.v ===== *)
(** * libunicode.c: case conversion

    [case_conv_table1] is a sorted table of runs of characters with a common
    conversion rule; [lre_case_conv] finds the run of a character by dichotomy
    and applies its rule.  The result is the list of the characters stored in
    [res] (its length is the C return value). *)

From S2P Require Import Prelude UnicodeTables UnicodeIndex.

Inductive RunType :=
| RUN_TYPE_U | RUN_TYPE_L | RUN_TYPE_UF | RUN_TYPE_LF | RUN_TYPE_UL | RUN_TYPE_LSU
| RUN_TYPE_U2L_399_EXT2 | RUN_TYPE_UF_D20 | RUN_TYPE_UF_D1_EXT | RUN_TYPE_U_EXT
| RUN_TYPE_LF_EXT | RUN_TYPE_U_EXT2 | RUN_TYPE_L_EXT2 | RUN_TYPE_U_EXT3.

Definition run_type_code (t : RunType) : Z :=
  match t with
  | RUN_TYPE_U => 0 | RUN_TYPE_L => 1 | RUN_TYPE_UF => 2 | RUN_TYPE_LF => 3
  | RUN_TYPE_UL => 4 | RUN_TYPE_LSU => 5 | RUN_TYPE_U2L_399_EXT2 => 6
  | RUN_TYPE_UF_D20 => 7 | RUN_TYPE_UF_D1_EXT => 8 | RUN_TYPE_U_EXT => 9
  | RUN_TYPE_LF_EXT => 10 | RUN_TYPE_U_EXT2 => 11 | RUN_TYPE_L_EXT2 => 12
  | RUN_TYPE_U_EXT3 => 13
  end.

(** The switch on [type]; [default] is the case of [RUN_TYPE_U_EXT3]. *)
Definition run_type (type : Z) : RunType :=
  nth (Z.to_nat type)
    [RUN_TYPE_U; RUN_TYPE_L; RUN_TYPE_UF; RUN_TYPE_LF; RUN_TYPE_UL; RUN_TYPE_LSU;
     RUN_TYPE_U2L_399_EXT2; RUN_TYPE_UF_D20; RUN_TYPE_UF_D1_EXT; RUN_TYPE_U_EXT;
     RUN_TYPE_LF_EXT; RUN_TYPE_U_EXT2; RUN_TYPE_L_EXT2; RUN_TYPE_U_EXT3] RUN_TYPE_U_EXT3.

(** Fields of an entry [v] of [case_conv_table1]. *)
Definition cc_code (v : Z) : Z := v >> (32 - 17).
Definition cc_len (v : Z) : Z := (v >> (32 - 17 - 7)) .& 0x7f.
Definition cc_type (v : Z) : Z := (v >> (32 - 17 - 7 - 4)) .& 0xf.

(** The dichotomy shared by [lre_case_conv] and [lre_is_cased]. *)
Definition case_conv_search (c : Z) : outcome (option Z) :=
  loop (S (length case_conv_table1)) (fun st : Z * Z =>
    let '(idx_min, idx_max) := st in
    if idx_min <=? idx_max then
      let idx := (idx_max + idx_min) / 2 in
      v ← aget case_conv_table1 idx;
      if c <? cc_code v then mret (inl (idx_min, idx - 1))
      else if c >=? cc_code v + cc_len v then mret (inl (idx + 1, idx_max))
      else mret (inr (Some idx))
    else mret (inr None)) (0, zlen case_conv_table1 - 1).

(** The switch of [lre_case_conv] for the entry [idx]. *)
Definition case_conv_entry (c conv_type idx : Z) : outcome (list Z) :=
  v ← aget case_conv_table1 idx;
  let is_lower := b2z (negb (conv_type =? 0)) in
  let code := cc_code v in
  let type := cc_type v in
  d2 ← aget case_conv_table2 idx;
  let data := ((v .& 0xf) << 8) .| d2 in
  match run_type type with
  | RUN_TYPE_U | RUN_TYPE_L | RUN_TYPE_UF | RUN_TYPE_LF =>
      if (conv_type =? (type .& 1)) || ((type >=? run_type_code RUN_TYPE_UF) && (conv_type =? 2)) then
        v' ← aget case_conv_table1 data;
        mret [u32 (c - code + cc_code v')]
      else mret [c]
  | RUN_TYPE_UL =>
      let a := c - code in
      if negb ((a .& 1) =? 1 - is_lower) then mret [c] else mret [u32 ((a .^ 1) + code)]
  | RUN_TYPE_LSU =>
      let a := c - code in
      if a =? 1 then mret [u32 (c + (2 * is_lower - 1))]
      else if a =? (1 - is_lower) * 2 then mret [u32 (c + (2 * is_lower - 1) * 2)]
      else mret [c]
  | RUN_TYPE_U2L_399_EXT2 =>
      if is_lower =? 0 then
        e ← aget case_conv_ext (data >> 6);
        mret [u32 (c - code + e); 0x399]
      else
        e ← aget case_conv_ext (data .& 0x3f);
        mret [u32 (c - code + e)]
  | RUN_TYPE_UF_D20 =>
      if conv_type =? 1 then mret [c] else mret [data + b2z (conv_type =? 2) * 0x20]
  | RUN_TYPE_UF_D1_EXT =>
      if conv_type =? 1 then mret [c]
      else e ← aget case_conv_ext data; mret [e + b2z (conv_type =? 2)]
  | RUN_TYPE_U_EXT | RUN_TYPE_LF_EXT =>
      if negb (is_lower =? u32 (type - run_type_code RUN_TYPE_U_EXT)) then mret [c]
      else e ← aget case_conv_ext data; mret [e]
  | RUN_TYPE_U_EXT2 | RUN_TYPE_L_EXT2 =>
      if negb (conv_type =? u32 (type - run_type_code RUN_TYPE_U_EXT2)) then mret [c]
      else
        e1 ← aget case_conv_ext (data >> 6);
        e2 ← aget case_conv_ext (data .& 0x3f);
        mret [u32 (c - code + e1); e2]
  | RUN_TYPE_U_EXT3 =>
      if negb (conv_type =? 0) then mret [c]
      else
        e1 ← aget case_conv_ext (data >> 8);
        e2 ← aget case_conv_ext ((data >> 4) .& 0xf);
        e3 ← aget case_conv_ext (data .& 0xf);
        mret [e1; e2; e3]
  end.

(** [conv_type]: 0 = to upper, 1 = to lower, 2 = case folding. *)
Definition lre_case_conv (c conv_type : Z) : outcome (list Z) :=
  if c <? 128 then
    if negb (conv_type =? 0) then
      mret [if (65 <=? c) && (c <=? 90) then c - 65 + 97 else c]
    else
      mret [if (97 <=? c) && (c <=? 122) then c - 97 + 65 else c]
  else
    r ← case_conv_search c;
    match r with
    | None => mret [c]
    | Some idx => case_conv_entry c conv_type idx
    end.

Definition lre_is_cased (c : Z) : outcome bool :=
  r ← case_conv_search c;
  match r with
  | Some _ => mret true
  | None => lre_is_in_table c unicode_prop_Cased1_table unicode_prop_Cased1_index
      (zlen unicode_prop_Cased1_index / 3)
  end.

(** libregexp.c: the canonical form of a character for case insensitive matching. *)
Definition lre_canonicalize (c : Z) (is_utf16 : bool) : outcome Z :=
  if is_utf16 then
    if c <? 128 then mret (if (65 <=? c) && (c <=? 90) then c - 65 + 97 else c)
    else res ← lre_case_conv c 2; aget res 0
  else
    if c <? 128 then mret (if (97 <=? c) && (c <=? 122) then c - 97 + 65 else c)
    else
      res ← lre_case_conv c 0;
      r0 ← aget res 0;
      mret (if (zlen res =? 1) && (r0 >=? 128) then r0 else c).

Example lre_case_conv_ex :
  (lre_case_conv 0xdf 0, lre_case_conv 0x130 1, lre_case_conv 0xe9 0, lre_case_conv 0x1f80 0, lre_case_conv 0x390 0)
  = (Ret [0x53; 0x53], Ret [0x69; 0x307], Ret [0xc9], Ret [0x1f08; 0x399], Ret [0x399; 0x308; 0x301]).
Proof. vm_compute. reflexivity. Qed.

(** * The dichotomy *)

Definition run_at (k : Z) : Z := case_conv_table1 !!! Z.to_nat k.

(** The run [k] contains [c]. *)
Definition covers (k c : Z) : Prop := cc_code (run_at k) <= c < cc_code (run_at k) + cc_len (run_at k).

Abbreviation NRUNS := 361.

Lemma table1_len : zlen case_conv_table1 = NRUNS.
Proof. vm_compute. reflexivity. Qed.

Lemma aget_run k : 0 <= k < NRUNS -> aget case_conv_table1 k = Ret (run_at k).
Proof.
  intros Hk. apply aget_lookup. split; [lia|]. apply list_lookup_lookup_total_lt.
  pose proof table1_len as Hl. unfold zlen in Hl. lia.
Qed.

Lemma cc_len_nonneg v : 0 <= cc_len v.
Proof. apply Z.land_nonneg. right. done. Qed.

#[local] Opaque run_at cc_code cc_len.

(** The runs are in increasing order and do not overlap. *)
Lemma runs_sorted : forall j i, 0 <= i -> i < j -> j < NRUNS ->
  cc_code (run_at i) + cc_len (run_at i) <= cc_code (run_at j).
Proof.
  assert (Hadj : forall k, 0 <= k < NRUNS - 1 ->
    cc_code (run_at k) + cc_len (run_at k) <= cc_code (run_at (k + 1)) /\ 0 <= cc_len (run_at k)).
  { assert (Hc : forallz 0 (NRUNS - 1) (fun k =>
      (cc_code (run_at k) + cc_len (run_at k) <=? cc_code (run_at (k + 1))) && (0 <=? cc_len (run_at k))) = true)
      by (vm_compute; reflexivity).
    intros k Hk. pose proof (forallz_spec _ _ _ Hc k Hk) as [H1%Z.leb_le H2%Z.leb_le]%andb_true_iff. exact (conj H1 H2). }
  intros j i Hi Hij Hj. replace j with (i + 1 + Z.of_nat (Z.to_nat (j - i - 1))) in * by lia.
  generalize dependent (Z.to_nat (j - i - 1)). clear j. intros d _ Hd. induction d as [|d IH].
  - rewrite Z.add_0_r. apply Hadj. lia.
  - specialize (IH ltac:(lia)). pose proof (Hadj (i + 1 + Z.of_nat d) ltac:(lia)) as [H1 H2].
    replace (i + 1 + Z.of_nat (S d)) with (i + 1 + Z.of_nat d + 1) by lia. lia.
Qed.

(** The search finds the run of [c], if there is one. *)
Lemma case_conv_search_spec c :
  0 <= c ->
  (case_conv_search c = Ret None /\ forall k, 0 <= k < NRUNS -> ~ covers k c) \/
  exists k, case_conv_search c = Ret (Some k) /\ 0 <= k < NRUNS /\ covers k c.
Proof.
  intros Hc. assert (H : yields (case_conv_search c) (fun r =>
    match r with
    | None => forall k, 0 <= k < NRUNS -> ~ covers k c
    | Some k => 0 <= k < NRUNS /\ covers k c
    end)).
  { unfold case_conv_search. rewrite table1_len.
    apply (loop_yields _ (fun '(a, b) => 0 <= a /\ a <= b + 1 /\ b < NRUNS /\
      (forall k, 0 <= k < a -> cc_code (run_at k) + cc_len (run_at k) <= c) /\
      (forall k, b < k < NRUNS -> c < cc_code (run_at k))) (fun '(a, b) => Z.to_nat (b + 1 - a))).
    - intros [a b] (Ha & Hab & Hb & Hlo & Hhi). destruct (Z.leb_spec a b).
      2:{ cbn. intros k Hk [Hc1 Hc2]. destruct (Z_lt_le_dec k a) as [Hka|Hka].
          - specialize (Hlo k ltac:(lia)). lia.
          - specialize (Hhi k ltac:(lia)). lia. }
      pose proof (Z.div_mod (b + a) 2 ltac:(lia)). pose proof (Z.mod_pos_bound (b + a) 2 ltac:(lia)).
      set (m := (b + a) / 2) in *. rewrite aget_run by lia. cbn [mbind outcome_bind].
      destruct (Z.ltb_spec c (cc_code (run_at m))) as [Hm1|Hm1].
      { cbn. split; [|lia]. split_and!; [lia..|done|]. intros k Hk.
        destruct (decide (k = m)) as [->|]; [done|]. destruct (Z_lt_le_dec b k); [apply Hhi; lia|].
        pose proof (runs_sorted k m ltac:(lia) ltac:(lia) ltac:(lia)).
        pose proof (cc_len_nonneg (run_at m)). lia. }
      destruct (Z.geb_spec c (cc_code (run_at m) + cc_len (run_at m))) as [Hm2|Hm2].
      { cbn. split; [|lia]. split_and!; [lia..| |done]. intros k Hk.
        destruct (decide (k = m)) as [->|]; [lia|]. destruct (Z_lt_le_dec k a); [apply Hlo; lia|].
        pose proof (runs_sorted m k ltac:(lia) ltac:(lia) ltac:(lia)).
        lia. }
      cbn. split; [lia|]. unfold covers. lia.
    - split_and!; [lia..|lia|]. intros k Hk. lia.
    - pose proof table1_len as Hl. unfold zlen in Hl. lia. }
  apply yields_Ret in H as ([k|] & -> & H); [right; by exists k|by left].
Qed.

(** Checks over all the characters of all the runs. *)
Definition runs_check (p : Z -> Z -> bool) : bool :=
  forallz 0 NRUNS (fun k => forallz (cc_code (run_at k)) (cc_code (run_at k) + cc_len (run_at k)) (p k)).

Lemma runs_check_spec p k c : runs_check p = true -> 0 <= k < NRUNS -> covers k c -> p k c = true.
Proof.
  intros H Hk Hc. pose proof (forallz_spec _ _ _ H k Hk) as H1. exact (forallz_spec _ _ _ H1 c Hc).
Qed.

(** * Properties of the conversions *)

Definition is_codepoint (x : Z) : bool := (0 <=? x) && (x <? 0x110000).

Definition case_result_ok (conv_type : Z) (r : outcome (list Z)) : bool :=
  match r with
  | Ret res => (1 <=? zlen res) && (zlen res <=? (if conv_type =? 2 then 1 else 3)) && forallb is_codepoint res
  | _ => false
  end.

Lemma case_entries_ok :
  runs_check (fun k c => forallz 0 3 (fun ct => case_result_ok ct (case_conv_entry c ct k))) = true.
Proof. vm_compute. reflexivity. Qed.

(** C27: [lre_case_conv] always returns, reading its tables in bounds, for every code
    point and conversion; it stores between one and three code points, one
    only for the case folding that regular expressions use. *)
Theorem lre_case_conv_spec c conv_type :
  0 <= c < 0x110000 -> 0 <= conv_type <= 2 ->
  yields (lre_case_conv c conv_type) (fun res =>
    1 <= zlen res <= 3 /\ (conv_type = 2 -> zlen res = 1) /\ Forall (fun x => 0 <= x < 0x110000) res).
Proof.
  intros Hc Ht.
  assert (Hone : forall x, 0 <= x < 0x110000 -> 1 <= zlen [x] <= 3 /\ (conv_type = 2 -> zlen [x] = 1) /\
    Forall (fun x => 0 <= x < 0x110000) [x]).
  { intros x Hx. rewrite zlen_cons, zlen_nil. split_and!; [lia..|]. constructor; [exact Hx|constructor]. }
  unfold lre_case_conv. destruct (Z.ltb_spec c 128).
  { destruct (negb (conv_type =? 0)); cbn; apply Hone; destruct (_ && _) eqn:E; try lia;
      apply andb_true_iff in E as [E1%Z.leb_le E2%Z.leb_le]; lia. }
  destruct (case_conv_search_spec c ltac:(lia)) as [[-> _]|(k & -> & Hk & Hcov)]; cbn [mbind outcome_bind].
  { by apply Hone. }
  pose proof (runs_check_spec _ k c case_entries_ok Hk Hcov) as H1. cbn beta in H1.
  pose proof (forallz_spec _ _ _ H1 conv_type ltac:(lia)) as H2. cbn beta in H2.
  destruct (case_conv_entry c conv_type k) as [res| |]; [|done|done]. cbn in H2 |- *.
  apply andb_true_iff in H2 as [[H2%Z.leb_le H3%Z.leb_le]%andb_true_iff H4].
  split_and!; [lia|destruct (conv_type =? 2); lia| |].
  - intros ->. rewrite Z.eqb_refl in H3. lia.
  - rewrite forallb_forall in H4. apply list.Forall_forall. intros x Hx.
    apply list_elem_of_In, H4, andb_true_iff in Hx as [?%Z.leb_le ?%Z.ltb_lt]. done.
Qed.

Lemma lre_case_conv_spec_witness :
  0 <= 0x390 < 0x110000 /\ yields (lre_case_conv 0x390 0) (fun res => 1 <= zlen res <= 3).
Proof.
  split; [lia|]. eapply yields_mono; [apply (lre_case_conv_spec 0x390 0); lia|]. intros res (H & _). exact H.
Defined.

(** One application of the canonicalization, as a boolean check. *)
Definition canon_is (c x : Z) (u : bool) : bool :=
  match lre_canonicalize c u with Ret y => x =? y | _ => false end.

Definition canon_stable (u : bool) (c : Z) : bool :=
  match lre_canonicalize c u with Ret x => canon_is x x u | _ => false end.

(** A character of the run [k] is converted by the entry [k]. *)
Lemma lre_case_conv_covered c conv_type k :
  128 <= c -> 0 <= k < NRUNS -> covers k c -> lre_case_conv c conv_type = case_conv_entry c conv_type k.
Proof.
  intros Hc Hk Hcov. unfold lre_case_conv. destruct (Z.ltb_spec c 128); [lia|].
  destruct (case_conv_search_spec c ltac:(lia)) as [[_ Hn]|(j & -> & Hj & Hcov')]; [by destruct (Hn k Hk)|].
  cbn [mbind outcome_bind]. f_equal. unfold covers in *. destruct (Z_lt_le_dec j k) as [Hjk|Hjk].
  - pose proof (runs_sorted k j ltac:(lia) Hjk ltac:(lia)). lia.
  - destruct (decide (j = k)); [done|]. pose proof (runs_sorted j k ltac:(lia) ltac:(lia) ltac:(lia)). lia.
Qed.

(** The canonical form from the result of the conversion. *)
Definition canon_of (c : Z) (u : bool) (r : outcome (list Z)) : outcome Z :=
  res ← r;
  r0 ← aget res 0;
  mret (if u || (zlen res =? 1) && (r0 >=? 128) then r0 else c).

Lemma lre_canonicalize_conv c u : 128 <= c ->
  lre_canonicalize c u = canon_of c u (lre_case_conv c (if u then 2 else 0)).
Proof.
  intros Hc. unfold lre_canonicalize, canon_of. destruct (Z.ltb_spec c 128); [lia|]. destruct u.
  - destruct (lre_case_conv c 2) as [res| |]; cbn [mbind outcome_bind]; [|done|done].
    by destruct (aget res 0).
  - by destruct (lre_case_conv c 0) as [res| |].
Qed.

Definition canon_entry_ok (k c : Z) : bool :=
  (c <? 128) || forallb (fun u =>
    match canon_of c u (case_conv_entry c (if u : bool then 2 else 0) k) with
    | Ret x => (x =? c) || canon_is x x u
    | _ => false
    end) [true; false].

Lemma canon_runs_ok : runs_check canon_entry_ok = true.
Proof. vm_compute. reflexivity. Qed.

Lemma canon_ascii_ok : forallz 0 128 (fun c => canon_stable true c && canon_stable false c) = true.
Proof. vm_compute. reflexivity. Qed.

(** A character of no run is its own conversion. *)
Lemma lre_case_conv_uncovered c conv_type :
  128 <= c -> (forall k, 0 <= k < NRUNS -> ~ covers k c) -> lre_case_conv c conv_type = Ret [c].
Proof.
  intros Hc Hn. unfold lre_case_conv. destruct (Z.ltb_spec c 128); [lia|].
  destruct (case_conv_search_spec c ltac:(lia)) as [[-> _]|(k & -> & Hk & Hcov)]; [done|].
  by destruct (Hn k Hk).
Qed.

Lemma canon_stable_spec u c : canon_stable u c = true ->
  yields (lre_canonicalize c u) (fun x => lre_canonicalize x u = Ret x).
Proof.
  unfold canon_stable, canon_is. destruct (lre_canonicalize c u) as [x| |]; [|done|done]. cbn.
  destruct (lre_canonicalize x u) as [y| |]; [|done|done]. by intros <-%Z.eqb_eq.
Qed.

Lemma lre_canonicalize_stable c is_utf16 :
  0 <= c -> yields (lre_canonicalize c is_utf16) (fun x => lre_canonicalize x is_utf16 = Ret x).
Proof.
  intros Hc. destruct (Z_lt_le_dec c 128) as [Hlt|Hge].
  { apply canon_stable_spec. pose proof (forallz_spec _ _ _ canon_ascii_ok c ltac:(lia)) as H.
    apply andb_true_iff in H as [H1 H2]. by destruct is_utf16. }
  destruct (case_conv_search_spec c Hc) as [[_ Hn]|(k & _ & Hk & Hcov)].
  - assert (E : lre_canonicalize c is_utf16 = Ret c).
    { unfold lre_canonicalize. rewrite !lre_case_conv_uncovered by done.
      destruct (Z.ltb_spec c 128); [lia|]. cbn [mbind outcome_bind]. rewrite aget_0.
      destruct is_utf16; [done|]. cbn [mbind outcome_bind mret outcome_ret]. by destruct (_ && _). }
    rewrite E. exact E.
  - apply canon_stable_spec. pose proof (runs_check_spec _ k c canon_runs_ok Hk Hcov) as H.
    apply orb_true_iff in H as [H%Z.ltb_lt|H]; [lia|]. rewrite forallb_forall in H.
    specialize (H is_utf16 ltac:(destruct is_utf16; cbn; tauto)). unfold canon_stable, canon_is in *.
    rewrite (lre_canonicalize_conv c) by done. rewrite (lre_case_conv_covered c _ k) by done.
    destruct (canon_of _ _ _) as [x| |] eqn:E; [|done|done]. apply orb_true_iff in H as [->%Z.eqb_eq|H]; [|exact H].
    rewrite (lre_canonicalize_conv c), (lre_case_conv_covered c _ k), E by done. apply Z.eqb_refl.
Qed.

(** C26: the canonicalization of case insensitive matching is idempotent, in both
    modes and for every character: matching a canonical character against
    another canonicalizes it only once. *)
Theorem lre_canonicalize_idempotent c is_utf16 :
  0 <= c -> yields (lre_canonicalize c is_utf16) (fun x => lre_canonicalize x is_utf16 = Ret x).
Proof. apply lre_canonicalize_stable. Qed.

Lemma lre_canonicalize_idempotent_witness :
  0 <= 0x212a /\ yields (lre_canonicalize 0x212a true) (fun x => lre_canonicalize x true = Ret x).
Proof. split; [lia|]. apply (lre_canonicalize_idempotent 0x212a true). lia. Defined.

(** Some conversion of [conv] changes the character. *)
Definition changes (c : Z) (conv : Z -> outcome (list Z)) : bool :=
  negb (forallz 0 3 (fun ct => match conv ct with Ret [x] => x =? c | _ => false end)).
Definition case_changes (c : Z) : bool := changes c (lre_case_conv c).

Lemma cased_runs_ok : runs_check (fun k c => (c <? 128) || changes c (fun ct => case_conv_entry c ct k)) = true.
Proof. vm_compute. reflexivity. Qed.

Lemma cased_ascii_ok : forallz 0 128 (fun c =>
  match case_conv_search c with Ret (Some _) => case_changes c | Ret None => negb (case_changes c) | _ => false end) = true.
Proof. vm_compute. reflexivity. Qed.

(** C36: [lre_is_cased] holds exactly of the characters that a conversion to upper
    case, lower case or folded case changes, and of those of the [Cased1] table. *)
Theorem lre_is_cased_spec c :
  0 <= c -> lre_is_cased c = Ret (case_changes c || table_set unicode_prop_Cased1_table c).
Proof.
  intros Hc. unfold lre_is_cased.
  assert (Hidx : lre_is_in_table c unicode_prop_Cased1_table unicode_prop_Cased1_index
    (zlen unicode_prop_Cased1_index / 3) = Ret (table_set unicode_prop_Cased1_table c)).
  { apply index_check_lookup; [vm_compute; reflexivity|done]. }
  destruct (case_conv_search_spec c Hc) as [[E Hn]|(k & E & Hk & Hcov)]; rewrite E; cbn [mbind outcome_bind].
  - assert (Hch : case_changes c = false).
    { destruct (Z_lt_le_dec c 128) as [Hlt|Hge].
      - pose proof (forallz_spec _ _ _ cased_ascii_ok c ltac:(lia)) as H. cbn beta in H. rewrite E in H.
        by apply negb_true_iff in H.
      - unfold case_changes, changes, forallz. change (Z.to_nat (3 - 0)) with 3%nat. cbn [forallz_from].
        rewrite !lre_case_conv_uncovered by done. rewrite Z.eqb_refl. reflexivity. }
    rewrite Hch. exact Hidx.
  - assert (Hch : case_changes c = true); [|by rewrite Hch].
    destruct (Z_lt_le_dec c 128) as [Hlt|Hge].
    + pose proof (forallz_spec _ _ _ cased_ascii_ok c ltac:(lia)) as H. cbn beta in H. by rewrite E in H.
    + pose proof (runs_check_spec _ k c cased_runs_ok Hk Hcov) as H. cbn beta in H.
      apply orb_true_iff in H as [H%Z.ltb_lt|H]; [lia|]. rewrite <- H.
      unfold case_changes, changes, forallz. change (Z.to_nat (3 - 0)) with 3%nat. cbn [forallz_from].
      by rewrite !(lre_case_conv_covered c _ k).
Qed.

Lemma lre_is_cased_spec_witness : 0 <= 0xe9 /\ lre_is_cased 0xe9 = Ret true.
Proof. split; [lia|]. rewrite (lre_is_cased_spec 0xe9); [vm_compute; reflexivity|lia]. Defined.
