(* ===== verification/UnicodeProp.v ===== *)
(** * libunicode.c: the character sets of [\p{...}]

    Every function adds to a [CharRange] the set of a script, a general
    category or a binary property, decoding the packed tables of
    libunicode-table.h; [unicode_prop_ops] is the stack machine that combines
    sets into the derived properties.  The specification reads the tables as
    functions of the code point. *)

From Stdlib Require Import String.
From S2P Require Import Prelude Cutils DynBuf CharRange.
From S2P Require Import UnicodeTables UnicodePropTables UnicodeIndex UnicodeCase.

(** * Names *)

(** [strchr(p, ',')] and [strlen(p)]: the distance to the comma or to the end, and
    whether the comma was found. *)
Definition strchr_comma (mem : list Z) (p : Z) : outcome (Z * bool) :=
  loop (S (length mem)) (fun n =>
    b ← aget mem (p + n);
    mret (if b =? 44 then inr (n, true) else if b =? 0 then inr (n, false) else inl (n + 1))) 0.

Definition unicode_find_name (name_table name : list Z) : outcome Z :=
  b ← aget name_table 0;
  if b =? 0 then mret (-1)
  else
    loop (S (length name_table)) (fun st : Z * Z =>
      let '(p, pos) := st in
      r ← strchr_comma name_table p;
      let '(len, comma) := r in
      piece ← aread name_table p len;
      if bool_decide (piece = name) then mret (inr pos)
      else
        let p := p + len + 1 in
        if (comma : bool) then mret (inl (p, pos))
        else
          b ← aget name_table p;
          mret (if b =? 0 then inr (-1) else inl (p, pos + 1))) (0, 0).

Definition M (id : UnicodeGCEnum) : Z := 1 << gc_code id.

Section Props.
Context `{Realloc}.
Abbreviation cr_st := (CharRange * heap)%type.

(** * The table walks *)

(** The loops [while (p < p_end)] over a table of runs: [decode p] is the position
    behind the run at [p], its [n] and its value; the run of the [n + 1]
    characters from [c] is handed to [add_run] with its bounds. *)
Definition run_walk {V} (table : list Z) (decode : Z -> outcome (Z * Z * V))
    (add_run : cr_st -> Z -> Z -> V -> outcome (Z * cr_st)) (st : cr_st) : outcome (Z * cr_st) :=
  loop (S (length table)) (fun s : Z * Z * cr_st =>
    let '(p, c, st) := s in
    if p <? zlen table then
      d ← decode p;
      let '(p, n, v) := d in
      let c1 := u32 (c + (n + 1)) in
      r ← add_run st c c1 v;
      mret (if r.1 =? 0 then inl (p, c1, r.2) else inr (-1, r.2))
    else mret (inr (0, st))) (0, 0, st).

(** One run of [unicode_gc_table]: the position behind it, [n] and [v]. *)
Definition gc_decode (p : Z) : outcome (Z * Z * Z) :=
  b ← aget unicode_gc_table p;
  let p := p + 1 in
  let n := b >> 5 in
  let v := b .& 0x1f in
  if n =? 7 then
    n ← aget unicode_gc_table p;
    let p := p + 1 in
    if n <? 128 then mret (p, n + 7, v)
    else if n <? 128 + 64 then
      b1 ← aget unicode_gc_table p;
      mret (p + 1, (((n - 128) << 8) .| b1) + (7 + 128), v)
    else
      b1 ← aget unicode_gc_table p;
      b2 ← aget unicode_gc_table (p + 1);
      mret (p + 2, (((n - 128 - 64) << 16) .| (b1 << 8) .| b2) + (7 + 128 + (1 << 14)), v)
  else mret (p, n, v).

(** [for(; c0 < c; c0 += 2)]: every other character of the run. *)
Definition add_every_other (st : cr_st) (c0 c : Z) : outcome (Z * cr_st) :=
  loop (S (Z.to_nat (c - c0))) (fun s : Z * cr_st =>
    let '(c0, st) := s in
    if c0 <? c then
      r ← cr_add_interval st c0 (c0 + 1);
      mret (if r.1 =? 0 then inl (c0 + 2, r.2) else inr (-1, r.2))
    else mret (inr (0, st))) (c0, st).

(** The characters [c0 .. c - 1] have the general category [v], 31 for alternating Lu and Ll. *)
Definition gc_add_run (gc_mask : Z) (st : cr_st) (c0 c v : Z) : outcome (Z * cr_st) :=
  if v =? 31 then
    let b := gc_mask .& (M UNICODE_GC_Lu .| M UNICODE_GC_Ll) in
    if negb (b =? 0) then
      if b =? (M UNICODE_GC_Lu .| M UNICODE_GC_Ll) then cr_add_interval st c0 c
      else
        let c0 := c0 + b2z (negb (gc_mask .& M UNICODE_GC_Ll =? 0)) in
        add_every_other st c0 c
    else mret (0, st)
  else if negb ((gc_mask >> v) .& 1 =? 0) then cr_add_interval st c0 c
  else mret (0, st).

Definition unicode_general_category1 (st : cr_st) (gc_mask : Z) : outcome (Z * cr_st) :=
  run_walk unicode_gc_table gc_decode (gc_add_run gc_mask) st.

(** One byte group of a property table from [c] and [bit]. *)
Definition prop1_step (p_end : Z) (tab : list Z) (s : Z * Z * bool * cr_st)
    : outcome (Z * Z * bool * cr_st + Z * cr_st) :=
  let '(p, c, bit, st) := s in
  if p <? p_end then
    let c0 := c in
    b ← aget tab p;
    let p := p + 1 in
    let finish (p c0 c : Z) (bit : bool) (st : cr_st) :=
      r ← (if bit then cr_add_interval st c0 c else mret (0, st));
      mret (if r.1 =? 0 then inl (p, c, negb bit, r.2) else inr (-1, r.2)) in
    if b <? 64 then
      let c := u32 (c + ((b >> 3) + 1)) in
      r ← (if (bit : bool) then cr_add_interval st c0 c else mret (0, st));
      if negb (r.1 =? 0) then mret (inr (-1, r.2))
      else finish p c (u32 (c + ((b .& 7) + 1))) (negb bit) r.2
    else if b >=? 0x80 then finish p c0 (u32 (c + (b - 0x80 + 1))) bit st
    else if b <? 0x60 then
      b1 ← aget tab p;
      finish (p + 1) c0 (u32 (c + ((((b - 0x40) << 8) .| b1) + 1))) bit st
    else
      b1 ← aget tab p;
      b2 ← aget tab (p + 1);
      finish (p + 2) c0 (u32 (c + ((((b - 0x60) << 16) .| (b1 << 8) .| b2) + 1))) bit st
  else mret (inr (0, st)).

Definition unicode_prop1 (st : cr_st) (prop_idx : Z) : outcome (Z * cr_st) :=
  tab ← aget unicode_prop_table prop_idx;
  p_end ← aget unicode_prop_len_table prop_idx;
  loop (S (length tab)) (prop1_step p_end tab) (0, 0, false, st).

(** * Case properties *)

Definition CASE_U : Z := 1 << 0.
Definition CASE_L : Z := 1 << 1.
Definition CASE_F : Z := 1 << 2.

Definition MR (t : RunType) : Z := 1 << run_type_code t.

Definition tab_run_mask : list Z := [
  MR RUN_TYPE_U .| MR RUN_TYPE_UF .| MR RUN_TYPE_UL .| MR RUN_TYPE_LSU .| MR RUN_TYPE_U2L_399_EXT2
    .| MR RUN_TYPE_UF_D20 .| MR RUN_TYPE_UF_D1_EXT .| MR RUN_TYPE_U_EXT .| MR RUN_TYPE_U_EXT2
    .| MR RUN_TYPE_U_EXT3;
  MR RUN_TYPE_L .| MR RUN_TYPE_LF .| MR RUN_TYPE_UL .| MR RUN_TYPE_LSU .| MR RUN_TYPE_U2L_399_EXT2
    .| MR RUN_TYPE_LF_EXT .| MR RUN_TYPE_L_EXT2;
  MR RUN_TYPE_UF .| MR RUN_TYPE_LF .| MR RUN_TYPE_UL .| MR RUN_TYPE_LSU .| MR RUN_TYPE_U2L_399_EXT2
    .| MR RUN_TYPE_LF_EXT .| MR RUN_TYPE_UF_D20 .| MR RUN_TYPE_UF_D1_EXT .| MR RUN_TYPE_LF_EXT
].

Definition case1_mask (case_mask : Z) : Z :=
  foldl Z.lor 0 (imap (fun i m => if (case_mask >> Z.of_nat i) .& 1 =? 0 then 0 else m) tab_run_mask).

(** [for(i = 0; i < len; i += 2)] from [code]. *)
Definition add_alternate (st : cr_st) (code len : Z) : outcome (Z * cr_st) :=
  loop (S (Z.to_nat len)) (fun s : Z * cr_st =>
    let '(i, st) := s in
    if i <? len then
      r ← cr_add_interval st (code + i) (code + i + 1);
      mret (if r.1 =? 0 then inl (i + 2, r.2) else inr (-1, r.2))
    else mret (inr (0, st))) (0, st).

(** The switch of [unicode_case1] for a selected run. *)
Definition case1_add_run (st : cr_st) (case_mask type code len : Z) : outcome (Z * cr_st) :=
  let has m := negb (case_mask .& m =? 0) in
  match run_type type with
  | RUN_TYPE_UL =>
      if has CASE_U && has (CASE_L .| CASE_F) then cr_add_interval st code (code + len)
      else add_alternate st (code + b2z (has CASE_U)) len
  | RUN_TYPE_LSU =>
      if has CASE_U && has (CASE_L .| CASE_F) then cr_add_interval st code (code + len)
      else
        try st ← (if negb (has CASE_U) then cr_add_interval st code (code + 1) else mret (0, st));
        try st ← cr_add_interval st (code + 1) (code + 2);
        (if has CASE_U then cr_add_interval st (code + 2) (code + 3) else mret (0, st))
  | _ => cr_add_interval st code (code + len)
  end.

Definition unicode_case1 (st : cr_st) (case_mask : Z) : outcome (Z * cr_st) :=
  if case_mask =? 0 then mret (0, st)
  else
    let mask := case1_mask case_mask in
    loop (S (length case_conv_table1)) (fun s : Z * cr_st =>
      let '(idx, st) := s in
      if idx <? zlen case_conv_table1 then
        v ← aget case_conv_table1 idx;
        if negb ((mask >> cc_type v) .& 1 =? 0) then
          r ← case1_add_run st case_mask (cc_type v) (cc_code v) (cc_len v);
          mret (if r.1 =? 0 then inl (idx + 1, r.2) else inr (-1, r.2))
        else mret (inl (idx + 1, st))
      else mret (inr (0, st))) (0, st).

(** * Scripts *)

(** One run of [unicode_script_table]: the position behind it, [n] and the script. *)
Definition script_decode (p : Z) : outcome (Z * Z * Z) :=
  b ← aget unicode_script_table p;
  let p := p + 1 in
  let type := b >> 7 in
  let n := b .& 0x7f in
  r ← (if n <? 96 then mret (p, n)
       else if n <? 112 then
         b1 ← aget unicode_script_table p;
         mret (p + 1, (((n - 96) << 8) .| b1) + 96)
       else
         b1 ← aget unicode_script_table p;
         b2 ← aget unicode_script_table (p + 1);
         mret (p + 2, (((n - 112) << 16) .| (b1 << 8) .| b2) + (96 + (1 << 12))));
  let '(p, n) := r in
  if type =? 0 then mret (p, n, 0)
  else v ← aget unicode_script_table p; mret (p + 1, n, v).

Definition script_walk (st : cr_st) (script_idx : Z) : outcome (Z * cr_st) :=
  run_walk unicode_script_table script_decode (fun st c c1 v =>
    if v =? script_idx then cr_add_interval st c c1 else mret (0, st)) st.

(** One run of [unicode_script_ext_table]: the position behind it, [n] and its [v_len] scripts. *)
Definition script_ext_decode (p : Z) : outcome (Z * Z * list Z) :=
  b ← aget unicode_script_ext_table p;
  let p := p + 1 in
  r ← (if b <? 128 then mret (p, b)
       else if b <? 128 + 64 then
         b1 ← aget unicode_script_ext_table p;
         mret (p + 1, (((b - 128) << 8) .| b1) + 128)
       else
         b1 ← aget unicode_script_ext_table p;
         b2 ← aget unicode_script_ext_table (p + 1);
         mret (p + 2, (((b - 128 - 64) << 16) .| (b1 << 8) .| b2) + (128 + (1 << 14))));
  let '(p, n) := r in
  v_len ← aget unicode_script_ext_table p;
  vs ← aread unicode_script_ext_table (p + 1) v_len;
  mret (p + 1 + v_len, n, vs).

Definition script_ext_walk (st : cr_st) (script_idx : Z) (is_common : bool) : outcome (Z * cr_st) :=
  run_walk unicode_script_ext_table script_ext_decode (fun st c c1 vs =>
    if (if is_common then negb (zlen vs =? 0) else existsb (Z.eqb script_idx) vs)
    then cr_add_interval st c c1 else mret (0, st)) st.

(** The label [fail] of [unicode_script]: it frees the ranges and jumps to itself. *)
Definition script_fail (fuel : nat) (is_ext : bool) (h : heap) : outcome (Z * cr_st) :=
  loop fuel (fun h => mret (inl (if is_ext then heap_free (heap_free h) else h))) h.

Definition unicode_script (fuel : nat) (st : cr_st) (script_name : list Z) (is_ext : bool)
    : outcome (Z * cr_st) :=
  script_idx ← unicode_find_name unicode_script_name_table script_name;
  if script_idx <? 0 then mret (-2, st)
  else
    let script_idx := script_idx + (script_code UNICODE_SCRIPT_Unknown + 1) in
    let is_common := (script_idx =? script_code UNICODE_SCRIPT_Common) ||
                     (script_idx =? script_code UNICODE_SCRIPT_Inherited) in
    if negb is_ext then
      r ← script_walk st script_idx;
      if r.1 =? 0 then mret r else script_fail fuel is_ext r.2.2
    else
      let '(cr, h) := st in
      r1 ← script_walk (cr_init, h) script_idx;
      let '(ret, (cr1, h)) := r1 in
      if negb (ret =? 0) then script_fail fuel is_ext h
      else
        r2 ← script_ext_walk (cr_init, h) script_idx is_common;
        let '(ret, (cr2, h)) := r2 in
        if negb (ret =? 0) then script_fail fuel is_ext h
        else
          r2 ← (if is_common then cr_invert (cr2, h) else mret (0, (cr2, h)));
          let '(ret, (cr2, h)) := r2 in
          if negb (ret =? 0) then script_fail fuel is_ext h
          else
            r ← cr_op (cr, h) (cr_points cr1) (cr_points cr2) (if is_common then CR_OP_INTER else CR_OP_UNION);
            let '(ret, (cr, h)) := r in
            if negb (ret =? 0) then script_fail fuel is_ext h
            else mret (0, (cr, cr_free cr2 (cr_free cr1 h))).

(** * The stack machine of the derived properties *)

Inductive PropOPEnum :=
| POP_GC (mask : Z) | POP_PROP (prop : UnicodePropertyEnum) | POP_CASE (mask : Z)
| POP_UNION | POP_INTER | POP_XOR | POP_INVERT | POP_END.

Definition POP_STACK_LEN_MAX : Z := 4.

(** The stack of ranges, the top first, and the heap. *)
Abbreviation pop_st := (list CharRange * heap)%type.

Definition pop_push (st : pop_st) (gen : cr_st -> outcome (Z * cr_st)) : outcome (Z * pop_st) :=
  let '(stack, h) := st in
  _ ← c_assert (zlen stack <? POP_STACK_LEN_MAX);
  r ← gen (cr_init, h);
  let '(ret, (cr, h)) := r in
  mret (ret, (cr :: stack, h)).

Definition pop_binary (st : pop_st) (op : CharRangeOpEnum) : outcome (Z * pop_st) :=
  let '(stack, h) := st in
  _ ← c_assert (2 <=? zlen stack);
  _ ← c_assert (zlen stack <? POP_STACK_LEN_MAX);
  match stack with
  | cr2 :: cr1 :: rest =>
      r ← cr_op (cr_init, h) (cr_points cr1) (cr_points cr2) op;
      let '(ret, (cr3, h)) := r in
      if negb (ret =? 0) then mret (-1, (cr3 :: cr2 :: cr1 :: rest, h))
      else mret (0, (cr3 :: rest, cr_free cr2 (cr_free cr1 h)))
  | _ => Undef
  end.

Definition pop_step (op : PropOPEnum) (st : pop_st) : outcome (Z * pop_st) :=
  match op with
  | POP_GC a => pop_push st (fun cr => unicode_general_category1 cr a)
  | POP_PROP a => pop_push st (fun cr => unicode_prop1 cr (prop_code a))
  | POP_CASE a => pop_push st (fun cr => unicode_case1 cr a)
  | POP_UNION => pop_binary st CR_OP_UNION
  | POP_INTER => pop_binary st CR_OP_INTER
  | POP_XOR => pop_binary st CR_OP_XOR
  | POP_INVERT =>
      let '(stack, h) := st in
      _ ← c_assert (1 <=? zlen stack);
      match stack with
      | cr :: rest =>
          r ← cr_invert (cr, h);
          let '(ret, (cr, h)) := r in
          mret (ret, (cr :: rest, h))
      | [] => Undef
      end
  | POP_END => Undef
  end.

(** The operations run until [POP_END]; past the arguments, the behaviour is undefined. *)
Fixpoint pop_run (ops : list PropOPEnum) (st : pop_st) : outcome (Z * pop_st) :=
  match ops with
  | [] => Undef
  | POP_END :: _ => mret (0, st)
  | op :: ops => try st ← pop_step op st; pop_run ops st
  end.

Definition unicode_prop_ops (st : cr_st) (ops : list PropOPEnum) : outcome (Z * cr_st) :=
  let '(cr, h) := st in
  r ← pop_run ops ([], h);
  let '(ret, (stack, h)) := r in
  if ret =? 0 then
    match stack with
    | [cr0] =>
        r ← cr_copy (cr, h) cr0;
        let '(ret, (cr, h)) := r in
        mret (ret, (cr, cr_free cr0 h))
    | _ => Undef
    end
  else mret (-1, (cr, foldr cr_free h stack)).

(** * General categories and properties by name *)

Definition gc_mask_of (gcs : list UnicodeGCEnum) : Z := foldl (fun m g => m .| M g) 0 gcs.

Definition unicode_gc_mask_table : list Z := map gc_mask_of [
  [UNICODE_GC_Lu; UNICODE_GC_Ll; UNICODE_GC_Lt];
  [UNICODE_GC_Lu; UNICODE_GC_Ll; UNICODE_GC_Lt; UNICODE_GC_Lm; UNICODE_GC_Lo];
  [UNICODE_GC_Mn; UNICODE_GC_Mc; UNICODE_GC_Me];
  [UNICODE_GC_Nd; UNICODE_GC_Nl; UNICODE_GC_No];
  [UNICODE_GC_Sm; UNICODE_GC_Sc; UNICODE_GC_Sk; UNICODE_GC_So];
  [UNICODE_GC_Pc; UNICODE_GC_Pd; UNICODE_GC_Ps; UNICODE_GC_Pe; UNICODE_GC_Pi; UNICODE_GC_Pf; UNICODE_GC_Po];
  [UNICODE_GC_Zs; UNICODE_GC_Zl; UNICODE_GC_Zp];
  [UNICODE_GC_Cc; UNICODE_GC_Cf; UNICODE_GC_Cs; UNICODE_GC_Co; UNICODE_GC_Cn]
].

Definition unicode_general_category (st : cr_st) (gc_name : list Z) : outcome (Z * cr_st) :=
  gc_idx ← unicode_find_name unicode_gc_name_table gc_name;
  if gc_idx <? 0 then mret (-2, st)
  else
    gc_mask ← (if gc_idx <=? gc_code UNICODE_GC_Co then mret (u32 (u64 (1 << gc_idx)))
               else aget unicode_gc_mask_table (gc_idx - gc_code UNICODE_GC_LC));
    unicode_general_category1 st gc_mask.

(** The switch of [unicode_prop]: what each property is made of. *)
Inductive PropDef :=
| PD_interval (c1 c2 : Z)
| PD_ops (ops : list PropOPEnum)
| PD_case (mask : Z)
| PD_table.

Definition GC (gcs : list UnicodeGCEnum) : PropOPEnum := POP_GC (gc_mask_of gcs).

Definition unicode_prop_def (prop_idx : Z) : PropDef :=
  let isp (p : UnicodePropertyEnum) := prop_idx =? prop_code p in
  let letters := [UNICODE_GC_Lu; UNICODE_GC_Ll; UNICODE_GC_Lt; UNICODE_GC_Lm; UNICODE_GC_Lo; UNICODE_GC_Nl] in
  if isp UNICODE_PROP_ASCII then PD_interval 0x00 (0x7f + 1)
  else if isp UNICODE_PROP_Any then PD_interval 0x00000 (0x10ffff + 1)
  else if isp UNICODE_PROP_Assigned then PD_ops [GC [UNICODE_GC_Cn]; POP_INVERT; POP_END]
  else if isp UNICODE_PROP_Math then
    PD_ops [GC [UNICODE_GC_Sm]; POP_PROP UNICODE_PROP_Other_Math; POP_UNION; POP_END]
  else if isp UNICODE_PROP_Lowercase then
    PD_ops [GC [UNICODE_GC_Ll]; POP_PROP UNICODE_PROP_Other_Lowercase; POP_UNION; POP_END]
  else if isp UNICODE_PROP_Uppercase then
    PD_ops [GC [UNICODE_GC_Lu]; POP_PROP UNICODE_PROP_Other_Uppercase; POP_UNION; POP_END]
  else if isp UNICODE_PROP_Cased then
    PD_ops [GC [UNICODE_GC_Lu; UNICODE_GC_Ll; UNICODE_GC_Lt];
      POP_PROP UNICODE_PROP_Other_Uppercase; POP_UNION;
      POP_PROP UNICODE_PROP_Other_Lowercase; POP_UNION; POP_END]
  else if isp UNICODE_PROP_Alphabetic then
    PD_ops [GC letters; POP_PROP UNICODE_PROP_Other_Uppercase; POP_UNION;
      POP_PROP UNICODE_PROP_Other_Lowercase; POP_UNION;
      POP_PROP UNICODE_PROP_Other_Alphabetic; POP_UNION; POP_END]
  else if isp UNICODE_PROP_Grapheme_Base then
    PD_ops [GC [UNICODE_GC_Cc; UNICODE_GC_Cf; UNICODE_GC_Cs; UNICODE_GC_Co; UNICODE_GC_Cn;
        UNICODE_GC_Zl; UNICODE_GC_Zp; UNICODE_GC_Me; UNICODE_GC_Mn];
      POP_PROP UNICODE_PROP_Other_Grapheme_Extend; POP_UNION; POP_INVERT; POP_END]
  else if isp UNICODE_PROP_Grapheme_Extend then
    PD_ops [GC [UNICODE_GC_Me; UNICODE_GC_Mn];
      POP_PROP UNICODE_PROP_Other_Grapheme_Extend; POP_UNION; POP_END]
  else if isp UNICODE_PROP_XID_Start then
    PD_ops [GC letters; POP_PROP UNICODE_PROP_Other_ID_Start; POP_UNION;
      POP_PROP UNICODE_PROP_Pattern_Syntax; POP_PROP UNICODE_PROP_Pattern_White_Space; POP_UNION;
      POP_PROP UNICODE_PROP_XID_Start1; POP_UNION; POP_INVERT; POP_INTER; POP_END]
  else if isp UNICODE_PROP_XID_Continue then
    PD_ops [GC (letters ++ [UNICODE_GC_Mn; UNICODE_GC_Mc; UNICODE_GC_Nd; UNICODE_GC_Pc]);
      POP_PROP UNICODE_PROP_Other_ID_Start; POP_UNION;
      POP_PROP UNICODE_PROP_Other_ID_Continue; POP_UNION;
      POP_PROP UNICODE_PROP_Pattern_Syntax; POP_PROP UNICODE_PROP_Pattern_White_Space; POP_UNION;
      POP_PROP UNICODE_PROP_XID_Continue1; POP_UNION; POP_INVERT; POP_INTER; POP_END]
  else if isp UNICODE_PROP_Changes_When_Uppercased then PD_case CASE_U
  else if isp UNICODE_PROP_Changes_When_Lowercased then PD_case CASE_L
  else if isp UNICODE_PROP_Changes_When_Casemapped then PD_case (CASE_U .| CASE_L .| CASE_F)
  else if isp UNICODE_PROP_Changes_When_Titlecased then
    PD_ops [POP_CASE CASE_U; POP_PROP UNICODE_PROP_Changes_When_Titlecased1; POP_XOR; POP_END]
  else if isp UNICODE_PROP_Changes_When_Casefolded then
    PD_ops [POP_CASE CASE_F; POP_PROP UNICODE_PROP_Changes_When_Casefolded1; POP_XOR; POP_END]
  else if isp UNICODE_PROP_Changes_When_NFKC_Casefolded then
    PD_ops [POP_CASE CASE_F; POP_PROP UNICODE_PROP_Changes_When_NFKC_Casefolded1; POP_XOR; POP_END]
  else if isp UNICODE_PROP_ID_Continue then
    PD_ops [POP_PROP UNICODE_PROP_ID_Start; POP_PROP UNICODE_PROP_ID_Continue1; POP_XOR; POP_END]
  else PD_table.

Definition unicode_prop (st : cr_st) (prop_name : list Z) : outcome (Z * cr_st) :=
  prop_idx ← unicode_find_name unicode_prop_name_table prop_name;
  if prop_idx <? 0 then mret (-2, st)
  else
    let prop_idx := prop_idx + prop_code UNICODE_PROP_ASCII_Hex_Digit in
    match unicode_prop_def prop_idx with
    | PD_interval c1 c2 => try st ← cr_add_interval st c1 c2; mret (0, st)
    | PD_ops ops => unicode_prop_ops st ops
    | PD_case mask => unicode_case1 st mask
    | PD_table => if prop_idx >=? zlen unicode_prop_table then mret (-2, st) else unicode_prop1 st prop_idx
    end.
End Props.

(** Sanity checks. *)
Example unicode_prop_ASCII :
  (fun r => cr_points r.2.1) <$> @unicode_prop free_heap (cr_init, tt) (c_bytes "ASCII") = Ret [0; 128].
Proof. vm_compute. reflexivity. Qed.
Example unicode_prop_White_Space :
  (fun r => cr_points r.2.1) <$> @unicode_prop free_heap (cr_init, tt) (c_bytes "space")
  = Ret [9; 14; 32; 33; 133; 134; 160; 161; 5760; 5761; 8192; 8203; 8232; 8234; 8239; 8240; 8287; 8288; 12288; 12289].
Proof. vm_compute. reflexivity. Qed.
