(* ===== verification/UnicodeName.v ===== *)
(** * libunicode.c: [unicode_find_name] finds a name in a table of names

    The table is specified as a list of entries, each a comma-separated list
    of names: the answer is the number of the first entry that contains the
    name among its parts. *)

From Stdlib Require Import String.
From S2P Require Import Prelude UnicodePropTables UnicodeProp.

(** The parts of an entry. *)
Fixpoint split_comma (l : list Z) : list (list Z) :=
  match l with
  | [] => [[]]
  | b :: l =>
      if b =? 44 then [] :: split_comma l
      else match split_comma l with p :: ps => (b :: p) :: ps | [] => [[b]] end
  end.

Definition entry_has (name l : list Z) : bool := existsb (fun p => bool_decide (p = name)) (split_comma l).

Fixpoint find_entry (name : list Z) (entries : list (list Z)) (pos : Z) : Z :=
  match entries with
  | [] => -1
  | l :: entries => if entry_has name l then pos else find_entry name entries (pos + 1)
  end.

(** The memory of the table. *)
Definition flat_names (entries : list (list Z)) : list Z := List.concat (map (fun l => l ++ [0]) entries) ++ [0].

Definition no_nul (l : list Z) : Prop := Forall (fun b => b <> 0) l.

(** The first part of an entry and what follows it. *)
Lemma split_first s : no_nul s ->
  exists piece tail, s = piece ++ tail /\ Forall (fun b => b <> 0 /\ b <> 44) piece /\
    (tail = [] /\ split_comma s = [piece] \/
     exists s', tail = 44 :: s' /\ split_comma s = piece :: split_comma s' /\ no_nul s').
Proof.
  induction 1 as [|b s Hb Hs IH].
  { exists [], []. split_and!; [done|constructor|by left]. }
  cbn [split_comma]. destruct (Z.eqb_spec b 44) as [->|Hne].
  { exists [], (44 :: s). split_and!; [done|constructor|]. right. by exists s. }
  destruct IH as (piece & tail & -> & Hp & Ht). exists (b :: piece), tail.
  split_and!; [done|by constructor|]. destruct Ht as [[-> ->]|(s' & -> & -> & Hs')]; [by left|right; by exists s'].
Qed.

(** [strchr_comma] measures the first part. *)
Lemma strchr_comma_spec pre piece tail rest :
  Forall (fun b => b <> 0 /\ b <> 44) piece ->
  (tail = 0 :: rest \/ tail = 44 :: rest) ->
  strchr_comma (pre ++ piece ++ tail) (zlen pre) = Ret (zlen piece, bool_decide (tail = 44 :: rest)).
Proof.
  intros Hp Ht. apply yields_eq. unfold strchr_comma.
  apply (loop_yields _ (fun n => 0 <= n <= zlen piece) (fun n => Z.to_nat (zlen piece - n))).
  - intros n [Hn0 Hn]. destruct (decide (n = zlen piece)) as [->|Hne].
    + assert (E : aget (pre ++ piece ++ tail) (zlen pre + zlen piece) = aget tail 0).
      { rewrite aget_app_r by (pose proof (zlen_nonneg piece); lia).
        replace (zlen pre + zlen piece - zlen pre) with (zlen piece) by lia.
        rewrite aget_app_r by lia. by rewrite Z.sub_diag. }
      rewrite E. destruct Ht as [->| ->]; rewrite aget_0; cbn [mbind outcome_bind].
      * eval_closed (0 =? 44). eval_closed (0 =? 0). cbn. by rewrite bool_decide_eq_false_2.
      * eval_closed (44 =? 44). cbn. by rewrite bool_decide_eq_true_2.
    + destruct (aget_in_range piece n) as (b & Eb & Hb); [lia|].
      assert (E : aget (pre ++ piece ++ tail) (zlen pre + n) = Ret b).
      { rewrite aget_app_r by lia. replace (zlen pre + n - zlen pre) with n by lia. rewrite aget_app_l by lia. done. }
      rewrite E. cbn [mbind outcome_bind]. rewrite list.Forall_forall in Hp.
      destruct (Hp b) as [Hb0 Hb44]; [by eapply list_elem_of_lookup_2|].
      rewrite (proj2 (Z.eqb_neq b 44)), (proj2 (Z.eqb_neq b 0)) by done. cbn. lia.
  - pose proof (zlen_nonneg piece). lia.
  - zlia.
Qed.

Lemma aread_app_middle {A} (pre l rest : list A) : aread (pre ++ l ++ rest) (zlen pre) (zlen l) = Ret l.
Proof.
  rewrite aread_ok by (rewrite ?zlen_app; pose proof (zlen_nonneg pre); pose proof (zlen_nonneg l); pose proof (zlen_nonneg rest); lia).
  f_equal. unfold zlen. rewrite !Nat2Z.id, drop_app_length. by rewrite take_app_length.
Qed.

(** At the position [p] of the memory starts a part of an entry; the answer is [goal]. *)
Definition finding (name mem : list Z) (goal p pos : Z) : Prop :=
  exists pre s entries, mem = pre ++ s ++ 0 :: flat_names entries /\ p = zlen pre /\ no_nul s /\
    Forall (fun l => no_nul l /\ l <> []) entries /\
    goal = if entry_has name s then pos else find_entry name entries (pos + 1).

Lemma flat_names_cons l entries : flat_names (l :: entries) = l ++ 0 :: flat_names entries.
Proof. unfold flat_names. cbn. by rewrite <- !app_assoc. Qed.

Lemma unicode_find_name_flat entries name :
  Forall (fun l => no_nul l /\ l <> []) entries ->
  unicode_find_name (flat_names entries) name = Ret (find_entry name entries 0).
Proof.
  intros Hok. unfold unicode_find_name.
  destruct entries as [|l0 entries0].
  { done. }
  pose proof Hok as [[Hn0 Hne0] Hok0]%list.Forall_cons. destruct l0 as [|b0 l0]; [done|].
  rewrite flat_names_cons. cbn [app]. rewrite aget_0. cbn [mbind outcome_bind].
  pose proof Hn0 as [Hb0 _]%list.Forall_cons. destruct (Z.eqb_spec b0 0); [done|].
  change (b0 :: l0 ++ 0 :: flat_names entries0) with ((b0 :: l0) ++ 0 :: flat_names entries0).
  set (mem := (b0 :: l0) ++ 0 :: flat_names entries0). set (goal := find_entry _ _ _).
  apply yields_eq.
  apply (loop_yields _ (fun '(p, pos) => finding name mem goal p pos /\ p <= zlen mem)
    (fun '(p, _) => Z.to_nat (zlen mem - p))).
  2:{ split; [|pose proof (zlen_nonneg mem); lia]. exists [], (b0 :: l0), entries0. done. }
  2:{ zlia. }
  intros [p pos] ((pre & s & entries & Emem & -> & Hs & Hent & Hgoal) & Hle).
  destruct (split_first s Hs) as (piece & tail & -> & Hp & Htail).
  rewrite Emem. rewrite <- app_assoc.
  destruct Htail as [[-> Esplit]|(s' & -> & Esplit & Hs')].
  - cbn [app]. rewrite (strchr_comma_spec pre piece _ (flat_names entries)) by tauto. cbn [mbind outcome_bind].
    rewrite aread_app_middle. cbn [mbind outcome_bind]. rewrite app_nil_r in Hgoal, Esplit.
    unfold entry_has in Hgoal. rewrite Esplit in Hgoal. cbn in Hgoal. rewrite orb_false_r in Hgoal.
    destruct (bool_decide (piece = name)) eqn:Eb; [by cbn|].
    rewrite bool_decide_eq_false_2 by done.
    assert (Epre : pre ++ piece ++ 0 :: flat_names entries = (pre ++ piece ++ [0]) ++ flat_names entries) by (by rewrite <- !app_assoc).
    assert (Ez : zlen pre + zlen piece + 1 = zlen (pre ++ piece ++ [0])) by (rewrite !zlen_app, zlen_cons, zlen_nil; lia).
    rewrite Epre, Ez, aget_app_r, Z.sub_diag by lia.
    destruct entries as [|l entries].
    { cbn. rewrite Hgoal. done. }
    apply list.Forall_cons in Hent as [[Hl Hlne] Hent]. destruct l as [|b l]; [done|].
    rewrite flat_names_cons. cbn [app]. rewrite aget_0. cbn [mbind outcome_bind].
    pose proof Hl as [Hb _]%list.Forall_cons. destruct (Z.eqb_spec b 0); [done|]. cbn [yields mret outcome_ret].
    pose proof (zlen_nonneg piece). pose proof (zlen_nonneg l). pose proof (zlen_nonneg (flat_names entries)).
    split; [split|].
    + exists (pre ++ piece ++ [0]), (b :: l), entries. done.
    + rewrite (zlen_app (pre ++ piece ++ [0])). pose proof (zlen_nonneg (b :: l ++ 0 :: flat_names entries)). lia.
    + rewrite (zlen_app (pre ++ piece ++ [0]) (b :: _)), zlen_cons, (zlen_app l), !zlen_cons, !zlen_app, zlen_cons, zlen_nil.
      lia.
  - cbn [app]. rewrite (strchr_comma_spec pre piece _ (s' ++ 0 :: flat_names entries)) by tauto. cbn [mbind outcome_bind].
    rewrite aread_app_middle. cbn [mbind outcome_bind].
    unfold entry_has in Hgoal. rewrite Esplit in Hgoal. cbn [existsb] in Hgoal. fold (entry_has name s') in Hgoal.
    destruct (bool_decide (piece = name)) eqn:Eb; [by cbn|].
    rewrite bool_decide_eq_true_2 by done. cbn [yields mret outcome_ret].
    assert (Epre : pre ++ piece ++ 44 :: s' ++ 0 :: flat_names entries =
      (pre ++ piece ++ [44]) ++ s' ++ 0 :: flat_names entries) by (by rewrite <- !app_assoc).
    assert (Ez : zlen pre + zlen piece + 1 = zlen (pre ++ piece ++ [44])) by (rewrite !zlen_app, zlen_cons, zlen_nil; lia).
    rewrite Ez, Epre. pose proof (zlen_nonneg piece). pose proof (zlen_nonneg s'). pose proof (zlen_nonneg (flat_names entries)).
    split; [split|].
    + exists (pre ++ piece ++ [44]), s', entries. done.
    + rewrite (zlen_app (pre ++ piece ++ [44])). pose proof (zlen_nonneg (s' ++ 0 :: flat_names entries)). lia.
    + rewrite (zlen_app (pre ++ piece ++ [44]) (s' ++ _)), (zlen_app s'), !zlen_cons, !zlen_app, zlen_cons, zlen_nil.
      lia.
Qed.

(** The entries of a table of names in the source. *)
Definition name_entries (names : list string) : list (list Z) := map c_bytes names.

Lemma c_names_flat names : c_names names = flat_names (name_entries names).
Proof. unfold c_names, flat_names, name_entries. by rewrite map_map. Qed.

Definition names_ok (names : list string) : bool :=
  forallb (fun s => negb (bool_decide (c_bytes s = [])) && forallb (fun b => negb (b =? 0)) (c_bytes s)) names.

Lemma names_ok_spec names : names_ok names = true ->
  Forall (fun l => no_nul l /\ l <> []) (name_entries names).
Proof.
  intros Hok. unfold name_entries. apply list.Forall_forall. intros l Hl%list_elem_of_In.
  apply List.in_map_iff in Hl as (s & <- & Hs). unfold names_ok in Hok. rewrite forallb_forall in Hok.
  apply Hok, andb_true_iff in Hs as [H1 H2]. split.
  - apply list.Forall_forall. intros b Hb. rewrite forallb_forall in H2.
    apply list_elem_of_In, H2 in Hb. by destruct (Z.eqb_spec b 0).
  - by apply negb_true_iff, bool_decide_eq_false in H1.
Qed.

Lemma find_entry_range name entries pos :
  0 <= pos -> -1 <= find_entry name entries pos < pos + zlen entries.
Proof.
  revert pos. induction entries as [|l entries IH]; intros pos Hp; cbn [find_entry]; [rewrite zlen_nil; lia|].
  rewrite zlen_cons. pose proof (zlen_nonneg entries). destruct (entry_has name l); [lia|].
  specialize (IH (pos + 1) ltac:(lia)). lia.
Qed.

(** C37: [unicode_find_name] answers the number of the first entry of the table one of
    whose comma-separated names is the name searched for, -1 when there is none; it
    stays inside the table. *)
Theorem unicode_find_name_spec names name :
  names_ok names = true ->
  unicode_find_name (c_names names) name = Ret (find_entry name (name_entries names) 0).
Proof. intros Hok. rewrite c_names_flat. by apply unicode_find_name_flat, names_ok_spec. Qed.

Lemma unicode_find_name_spec_witness :
  unicode_find_name (c_names ["Cn,Unassigned"; "Lu,Uppercase_Letter"; "Ll"]%string) (c_bytes "Uppercase_Letter") = Ret 1.
Proof.
  rewrite (unicode_find_name_spec ["Cn,Unassigned"; "Lu,Uppercase_Letter"; "Ll"]%string); vm_compute; reflexivity.
Defined.
