(* ===== verification/UnicodePropSpec.v ===== *)
(** * The character sets of UnicodeProp.v denote what the tables say

    The tables are read as functions of the code point; every walk is shown to
    produce sorted points denoting the set so read, and the stack machine to
    compute the boolean combination its program spells. *)

From stdpp Require Import sorting.
From Stdlib Require Import String.
From S2P Require Import Prelude Cutils DynBuf CharRange.
From S2P Require Import UnicodeRuns UnicodeTables UnicodePropTables UnicodeIndex UnicodeCase UnicodeProp UnicodeName.

(** * Sets built from left to right *)

Lemma in_ranges_app p1 p2 x : even_len p1 -> in_ranges (p1 ++ p2) x = in_ranges p1 x || in_ranges p2 x.
Proof.
  assert (Hgen : forall n p1, (length p1 <= n)%nat -> even_len p1 ->
    in_ranges (p1 ++ p2) x = in_ranges p1 x || in_ranges p2 x); [|by eauto].
  clear p1. induction n as [|n IH]; intros [|a [|b p1]] Hn Hev; cbn in Hn; try lia; try done.
  apply even_len_cons2 in Hev. cbn. rewrite IH by (done || lia). by rewrite orb_assoc.
Qed.

Lemma even_len_app p1 p2 : even_len p1 -> even_len p2 -> even_len (p1 ++ p2).
Proof. unfold even_len. rewrite zlen_app, Z.even_add. by intros -> ->. Qed.

Lemma in_ranges_below pts x : (forall p, p ∈ pts -> x < p) -> in_ranges pts x = false.
Proof.
  assert (Hgen : forall n pts, (length pts <= n)%nat -> (forall p, p ∈ pts -> x < p) -> in_ranges pts x = false);
    [|by eauto].
  clear pts. induction n as [|n IH]; intros [|a [|b pts]] Hn H; cbn in Hn; try lia; try done.
  cbn. rewrite IH; [|lia|intros p Hp; apply H; rewrite !elem_of_cons; tauto].
  assert (x < a) by (apply H; by left). destruct (Z.leb_spec a x); [lia|done].
Qed.

Lemma in_ranges_above pts x : (forall p, p ∈ pts -> p <= x) -> in_ranges pts x = false.
Proof.
  assert (Hgen : forall n pts, (length pts <= n)%nat -> (forall p, p ∈ pts -> p <= x) -> in_ranges pts x = false);
    [|by eauto].
  clear pts. induction n as [|n IH]; intros [|a [|b pts]] Hn H; cbn in Hn; try lia; try done.
  cbn. rewrite IH; [|lia|intros p Hp; apply H; rewrite !elem_of_cons; tauto].
  assert (b <= x) by (apply H; right; by left). destruct (Z.ltb_spec x b); [lia|]. by rewrite andb_false_r.
Qed.

(** The points of the part of the set [S] in [lo, hi). *)
Record part (S : Z -> bool) (lo hi : Z) (pts : list Z) : Prop := {
  pt_even : even_len pts;
  pt_sorted : sorted_le pts;
  pt_range : forall x, x ∈ pts -> lo <= x <= hi;
  pt_len : zlen pts <= 2 * (hi - lo);
  pt_mem : forall x, in_ranges pts x = (lo <=? x) && (x <? hi) && S x
}.

Lemma part_empty S lo hi : lo <= hi -> (forall x, lo <= x < hi -> S x = false) -> part S lo hi [].
Proof.
  intros Hlo HS. constructor; [done|constructor| |rewrite zlen_nil; lia|].
  - intros x Hx. by apply elem_of_nil in Hx.
  - intros x. cbn. destruct (Z.leb_spec lo x), (Z.ltb_spec x hi); try done. cbn. by rewrite HS.
Qed.

Lemma part_full S lo hi : lo < hi -> (forall x, lo <= x < hi -> S x = true) -> part S lo hi [lo; hi].
Proof.
  intros Hlo HS. constructor.
  - done.
  - repeat constructor. lia.
  - intros x [->|Hx]%elem_of_cons; [lia|]. apply list_elem_of_singleton in Hx as ->. lia.
  - rewrite !zlen_cons, zlen_nil. lia.
  - intros x. cbn. destruct (Z.leb_spec lo x), (Z.ltb_spec x hi); try done. cbn. by rewrite HS.
Qed.

Lemma part_app S lo mid hi p1 p2 : lo <= mid -> mid <= hi ->
  part S lo mid p1 -> part S mid hi p2 -> part S lo hi (p1 ++ p2).
Proof.
  intros Hlm Hmh [E1 S1 R1 L1 M1] [E2 S2 R2 L2 M2]. constructor.
  - by apply even_len_app.
  - rewrite StronglySorted_app. split_and!; [|done|done].
    intros x y Hx%R1 Hy%R2. lia.
  - intros x [Hx%R1|Hx%R2]%elem_of_app; lia.
  - rewrite zlen_app. lia.
  - intros x. rewrite in_ranges_app, M1, M2 by done.
    destruct (Z.leb_spec lo x), (Z.ltb_spec x mid), (Z.leb_spec mid x), (Z.ltb_spec x hi); try lia; cbn; try done;
      by rewrite ?orb_false_r.
Qed.

Lemma part_ext S S' lo hi pts : (forall x, lo <= x < hi -> S x = S' x) -> part S lo hi pts -> part S' lo hi pts.
Proof.
  intros HS [E1 S1 R1 L1 M1]. constructor; try done. intros x. rewrite M1.
  destruct (Z.leb_spec lo x), (Z.ltb_spec x hi); try done. cbn. by apply HS.
Qed.

(** * The range operations that append a part *)

Section Walks.
Context `{Realloc}.

(** [f] appends to the range the part of [S] in [lo, hi). *)
Definition appends (f : CharRange * heap -> outcome (Z * (CharRange * heap))) (S : Z -> bool) (lo hi : Z) : Prop :=
  forall cr h, cr_wf cr -> cr_len cr + 2 * (hi - lo) <= CR_MAX ->
    yields (f (cr, h)) (cr_post (fun cr' => exists e, cr_points cr' = cr_points cr ++ e /\ part S lo hi e)).

Lemma appends_interval S lo hi : lo < hi -> (forall x, lo <= x < hi -> S x = true) ->
  appends (fun st => cr_add_interval st lo hi) S lo hi.
Proof.
  intros Hlo HS cr h Hwf Hl. eapply yields_mono; [apply cr_add_interval_spec; [done|lia]|].
  intros r Hr. eapply cr_post_mono; [exact Hr|]. intros cr' E. exists [lo; hi]. split; [done|by apply part_full].
Qed.

Lemma appends_none S lo hi : lo <= hi -> (forall x, lo <= x < hi -> S x = false) ->
  appends (fun st => mret (0, st)) S lo hi.
Proof.
  intros Hlo HS cr h Hwf Hl. cbn. split; [done|]. left. split; [done|]. exists [].
  rewrite app_nil_r. split; [done|by apply part_empty].
Qed.

Lemma appends_if (b : bool) f S lo hi : lo <= hi ->
  (b = true -> appends f S lo hi) -> (b = false -> forall x, lo <= x < hi -> S x = false) ->
  appends (fun st => if b then f st else mret (0, st)) S lo hi.
Proof. intros Hlo Ht Hf. destruct b; [by apply Ht|]. apply appends_none; auto. Qed.

Section RunWalk.
Context {V : Type} (table : list Z) (decode : Z -> outcome (Z * Z * V)).

Context (add_run : CharRange * heap -> Z -> Z -> V -> outcome (Z * (CharRange * heap))).
(** Which characters of a run (its start and value) are selected. *)
Context (sel : Z * V -> Z -> bool).
(** The values that occur. *)
Context (vok : V -> bool).

Definition run_set (runs : list (Z * V)) (x : Z) : bool :=
  match run_find runs 0 x with Some r => sel r x | None => false end.

Hypothesis add_run_ok : forall c c1 v, vok v = true -> 0 <= c -> c < c1 -> appends (fun st => add_run st c c1 v) (sel (c, v)) c c1.

(** The loop invariant: the runs left start at [c], the range holds the part below [c]. *)
Record walking (all : list (Z * V)) (p c : Z) (cr : CharRange) : Prop := {
  wk_p : 0 <= p;
  wk_runs : exists fuel rs, runs_from table decode fuel p = Ret rs /\ Forall (fun r => 1 <= r.1 /\ vok r.2 = true) rs /\
    c + runs_total rs = runs_total all /\ forall x, c <= x -> run_find all 0 x = run_find rs c x;
  wk_c : 0 <= c;
  wk_wf : cr_wf cr;
  wk_part : part (run_set all) 0 c (cr_points cr)
}.

Lemma run_walk_spec all cr h :
  table_runs table decode = Ret all -> Forall (fun r => 1 <= r.1 /\ vok r.2 = true) all -> runs_total all <= 0x110000 ->
  cr_wf cr -> cr_points cr = [] ->
  yields (run_walk table decode add_run (cr, h)) (cr_post (fun cr' =>
    part (run_set all) 0 (runs_total all) (cr_points cr'))).
Proof.
  intros Hall Hpos Htot Hwf Hnil. unfold run_walk.
  apply (loop_yields _ (fun '(p, c, st) => walking all p c st.1) (fun '(p, _, _) => Z.to_nat (zlen table - p))).
  2:{ constructor; cbn [fst]; [lia| |lia|done|].
      - exists (S (length table)), all. done.
      - rewrite Hnil. apply part_empty; lia. }
  2:{ zlia. }
  intros [[p c] [cr1 h1]]. cbn [fst]. intros [Hp (fuel & rs & Er & Hrs & Hsum & Hfind) Hc Hwf1 Hpart].
  destruct fuel as [|fuel]; [done|]. cbn [runs_from] in Er.
  destruct (Z.ltb_spec p (zlen table)) as [Hlt|Hge].
  2:{ injection Er as <-. cbn in Hsum |- *.
      split; [done|]. left. split; [done|]. cbn. by replace (runs_total all) with c by lia. }
  destruct (decode p) as [[[p' n] v]| |]; [|done|done]. cbn [mbind outcome_bind] in Er |- *.
  destruct (Z.ltb_spec p p') as [Hpp|]; [|done].
  destruct (runs_from table decode fuel p') as [rs'| |] eqn:Er'; [|done|done]. injection Er as <-.
  apply list.Forall_cons in Hrs as [[Hn Hv] Hrs]. cbn [fst snd] in Hn, Hv.
  rewrite runs_total_cons in Hsum. cbn [fst] in Hsum.
  assert (0 <= runs_total rs') by (apply runs_total_nonneg; eapply list.Forall_impl; [exact Hrs|]; by intros ? []).
  rewrite (wrap_small 32) by (change (2 ^ 32) with 4294967296; lia).
  apply yields_bind. pose proof (pt_len _ _ _ _ Hpart) as Hl. assert (CR_MAX = 268435456) by done.
  eapply yields_mono; [apply (add_run_ok c (c + (n + 1)) v Hv Hc); [lia|done|unfold cr_len; lia]|].
  intros [r [cr2 h2]] [Hwf2 Hr]. cbn [fst snd] in *.
  destruct Hr as [[-> (e & E & Hpe)]|[-> Ht]]; cbn [yields mret outcome_ret];
    [eval_closed (0 =? 0)|eval_closed (-1 =? 0); split; [done|by right]].
  split; [|lia]. constructor; cbn [fst]; [lia| |lia|done|].
  - exists fuel, rs'. split_and!; [done|done|lia|]. intros x Hx. rewrite Hfind by lia. cbn [run_find].
    destruct (Z.ltb_spec x (c + (n + 1))); [lia|done].
  - rewrite E. apply (part_app _ _ c); [lia|lia|done|].
    eapply part_ext; [|exact Hpe]. intros x Hx. unfold run_set. rewrite Hfind by lia. cbn [run_find].
    destruct (Z.ltb_spec x (c + (n + 1))); [done|lia].
Qed.
End RunWalk.

(** [pts] denotes the set [S] of code points. *)
Record denotes (S : Z -> bool) (n : Z) (pts : list Z) : Prop := {
  dn_sorted : cr_sorted pts;
  dn_len : zlen pts <= n;
  dn_mem : forall x, 0 <= x < 0x110000 -> in_ranges pts x = S x
}.

Definition PART_LEN : Z := 2 * 0x110000.

Lemma part_denotes S pts : part S 0 0x110000 pts -> denotes S PART_LEN pts.
Proof.
  intros [E1 S1 R1 L1 M1]. assert (UINT32_MAX = 4294967295) by done. constructor.
  - constructor; [done|done|]. intros x Hx%R1. lia.
  - unfold PART_LEN. lia.
  - intros x Hx. rewrite M1. destruct (Z.leb_spec 0 x), (Z.ltb_spec x 0x110000); lia || done.
Qed.

(** A walk over a checked table, from an empty range. *)
Lemma run_walk_denotes {V} table (decode : Z -> outcome (Z * Z * V)) add_run sel vok all h :
  table_runs table decode = Ret all -> runs_good vok (Ret all) = true ->
  (forall c c1 v, vok v = true -> 0 <= c -> c < c1 -> appends (fun st => add_run st c c1 v) (sel (c, v)) c c1) ->
  yields (run_walk table decode add_run (cr_init, h))
    (cr_post (fun cr' => denotes (run_set sel all) PART_LEN (cr_points cr'))).
Proof.
  intros E Hg Hadd. destruct (runs_good_spec _ _ Hg) as (all' & [= <-] & Hall & Ht).
  eapply yields_mono; [by apply (run_walk_spec table decode add_run sel vok Hadd all); try apply cr_init_wf|].
  assert (Hpos : Forall (fun r => 1 <= r.1) all) by (eapply list.Forall_impl; [exact Hall|]; by intros ? []).
  intros r Hr. eapply cr_post_mono; [exact Hr|]. intros cr' Hp. apply part_denotes.
  rewrite <- (app_nil_r (cr_points cr')). pose proof (runs_total_nonneg all Hpos).
  apply (part_app _ _ (runs_total all)); [done|done|done|]. apply part_empty; [done|].
  intros x Hx. unfold run_set. by rewrite run_find_none by (done || lia).
Qed.
End Walks.

Definition ret_true (o : outcome bool) : bool := match o with Ret b => b | _ => false end.

(** * General categories *)

(** The category of the character [x] of a run of [unicode_gc_table]; 31 stands for alternating Lu and Ll. *)
Definition gc_in_run (r : Z * Z) (x : Z) : Z :=
  if r.2 =? 31 then (if Z.even (x - r.1) then gc_code UNICODE_GC_Lu else gc_code UNICODE_GC_Ll) else r.2.

(** The general category of a character. *)
Definition unicode_gc (x : Z) : outcome Z :=
  runs ← table_runs unicode_gc_table gc_decode;
  match run_find runs 0 x with Some r => mret (gc_in_run r x) | None => Undef end.

(** The set of the categories of a mask. *)
Definition gc_set (gc_mask x : Z) : bool := ret_true (Z.testbit gc_mask <$> unicode_gc x).

Lemma land_bit m v : 0 <= v -> negb ((m >> v) .& 1 =? 0) = Z.testbit m v.
Proof. intros Hv. rewrite land_1, Z.testbit_odd. by destruct (Z.odd (m >> v)). Qed.

(** The two bits of Lu and Ll in a mask. *)
Lemma land_6 m : m .& 6 = 2 * b2z (Z.testbit m 1) + 4 * b2z (Z.testbit m 2).
Proof.
  replace (m .& 6) with ((m .& 7) .& 6) by (by rewrite <- Z.land_assoc).
  replace (Z.testbit m 1) with (Z.testbit (m .& 7) 1) by (rewrite Z.land_spec; by destruct (Z.testbit m 1)).
  replace (Z.testbit m 2) with (Z.testbit (m .& 7) 2) by (rewrite Z.land_spec; by destruct (Z.testbit m 2)).
  change 7 with (Z.ones 3). rewrite Z.land_ones by lia. pose proof (Z.mod_pos_bound m (2 ^ 3) ltac:(lia)) as Hr.
  revert Hr. generalize (m mod 2 ^ 3) as r. change (2 ^ 3) with 8. intros r Hr.
  assert (Hc : forallz 0 8 (fun r => r .& 6 =? 2 * b2z (Z.testbit r 1) + 4 * b2z (Z.testbit r 2)) = true)
    by (vm_compute; reflexivity).
  by apply Z.eqb_eq, (forallz_spec _ _ _ Hc).
Qed.

Lemma land_4 m : negb (m .& 4 =? 0) = Z.testbit m 2.
Proof.
  replace (m .& 4) with ((m .& 6) .& 4) by (by rewrite <- Z.land_assoc).
  rewrite land_6. by destruct (Z.testbit m 1), (Z.testbit m 2).
Qed.

Section GeneralCategory.
Context `{Realloc}.

(** Every other character from [c0]. *)
Lemma add_every_other_appends S c0 c :
  c0 <= c -> (forall x, c0 <= x < c -> S x = Z.even (x - c0)) ->
  appends (fun st => add_every_other st c0 c) S c0 c.
Proof.
  intros Hc HS cr h Hwf Hl. unfold add_every_other.
  apply (loop_yields _ (fun '(i, st) => c0 <= i /\ Z.even (i - c0) = true /\ cr_wf st.1 /\
    exists e, cr_points st.1 = cr_points cr ++ e /\ part S c0 (Z.min i c) e) (fun '(i, _) => Z.to_nat (c - i))).
  2:{ cbn. split_and!; [lia|by replace (c0 - c0) with 0 by lia|done|]. exists []. rewrite app_nil_r.
      split; [done|]. apply part_empty; lia. }
  2:{ lia. }
  intros [i [cr1 h1]]. cbn [fst]. intros (Hi & Hev & Hwf1 & e & E & He). destruct (Z.ltb_spec i c) as [Hic|Hic].
  2:{ cbn. split; [done|]. left. split; [done|]. exists e. by rewrite Z.min_r in He by lia. }
  rewrite Z.min_l in He by lia. pose proof (pt_len _ _ _ _ He).
  apply yields_bind. eapply yields_mono.
  { apply (appends_interval S i (i + 1)); [lia| |done|].
    - intros x Hx. rewrite HS by lia. by replace x with i by lia.
    - unfold cr_len in *. rewrite E, zlen_app. lia. }
  intros [r [cr2 h2]] [Hwf2 Hr]. cbn [fst snd] in *.
  destruct Hr as [[-> (e2 & E2 & He2)]|[-> Ht]]; cbn [yields mret outcome_ret];
    [eval_closed (0 =? 0)|eval_closed (-1 =? 0); split; [done|by right]].
  split; [|lia]. cbn [fst]. split_and!; [lia| |done|].
  { replace (i + 2 - c0) with (i - c0 + 2 * 1) by lia. by rewrite Z.even_add_mul_2. }
  exists (e ++ e2). rewrite E2, E, app_assoc. split; [done|].
  assert (Hpe : part S c0 (i + 1) (e ++ e2)) by (apply (part_app S c0 i); [lia|lia|done|done]).
  destruct (Z_lt_le_dec (i + 1) c).
  - rewrite <- (app_nil_r (e ++ e2)). apply (part_app S c0 (i + 1)); [lia|lia|done|].
    apply part_empty; [lia|]. intros x Hx. rewrite HS by lia. replace (x - c0) with (i - c0 + 1) by lia.
    by rewrite Z.even_add, Hev.
  - by replace (Z.min (i + 2) c) with (i + 1) by lia.
Qed.

Lemma gc_add_run_appends gc_mask c c1 v :
  0 <= v -> c < c1 ->
  appends (fun st => gc_add_run gc_mask st c c1 v) (fun x => Z.testbit gc_mask (gc_in_run (c, v) x)) c c1.
Proof.
  intros Hv Hc. unfold gc_add_run, gc_in_run. cbn [fst snd].
  destruct (Z.eqb_spec v 31) as [->|Hne].
  2:{ rewrite land_bit by done. apply appends_if; [lia|intros E|intros E]; [apply appends_interval; [lia|]; by intros|by intros]. }
  change (gc_code UNICODE_GC_Lu) with 1. change (gc_code UNICODE_GC_Ll) with 2.
  change (M UNICODE_GC_Lu .| M UNICODE_GC_Ll) with 6. change (M UNICODE_GC_Ll) with 4.
  rewrite land_6, land_4. destruct (Z.testbit gc_mask 1) eqn:E1, (Z.testbit gc_mask 2) eqn:E2; cbn [b2z].
  - eval_closed (negb (2 * 1 + 4 * 1 =? 0)). eval_closed (2 * 1 + 4 * 1 =? 6). cbn iota.
    apply appends_interval; [lia|]. intros x Hx. by destruct (Z.even _).
  - eval_closed (negb (2 * 1 + 4 * 0 =? 0)). eval_closed (2 * 1 + 4 * 0 =? 6). cbn iota. rewrite Z.add_0_r.
    apply add_every_other_appends; [lia|]. intros x Hx. by destruct (Z.even (x - c)).
  - eval_closed (negb (2 * 0 + 4 * 1 =? 0)). eval_closed (2 * 0 + 4 * 1 =? 6). cbn iota.
    intros cr h Hwf Hl. eapply yields_mono.
    { apply (add_every_other_appends (fun x => Z.testbit gc_mask (if Z.even (x - c) then 1 else 2)) (c + 1) c1); [lia| |done|lia].
      intros x Hx. replace (x - c) with (x - (c + 1) + 1) by lia. rewrite Z.even_add.
      by destruct (Z.even (x - (c + 1))). }
    intros r Hr. eapply cr_post_mono; [exact Hr|]. intros cr' (e & E & He). exists ([] ++ e).
    split; [done|]. apply (part_app _ c (c + 1)); [lia|lia| |done]. apply part_empty; [lia|].
    intros x Hx. replace (x - c) with 0 by lia. done.
  - eval_closed (negb (2 * 0 + 4 * 0 =? 0)). cbn iota. apply appends_none; [lia|]. intros x Hx. by destruct (Z.even _).
Qed.

Lemma gc_runs_good : runs_good (Z.leb 0) (table_runs unicode_gc_table gc_decode) = true.
Proof. vm_compute. reflexivity. Qed.

Lemma gc_runs_total : match table_runs unicode_gc_table gc_decode with Ret all => runs_total all =? 0x110000 | _ => false end = true.
Proof. vm_compute. reflexivity. Qed.

Lemma unicode_gc_total x : 0 <= x < 0x110000 -> exists g, unicode_gc x = Ret g.
Proof.
  intros Hx. pose proof gc_runs_total as Ht. unfold unicode_gc.
  destruct (table_runs unicode_gc_table gc_decode) as [all| |]; [|done|done]. apply Z.eqb_eq in Ht.
  cbn [mbind outcome_bind]. destruct (run_find_some all 0 x) as [r ->]; [lia|lia|]. by exists (gc_in_run r x).
Qed.

Lemma unicode_general_category1_yields h gc_mask :
  yields (unicode_general_category1 (cr_init, h) gc_mask)
    (cr_post (fun cr' => denotes (gc_set gc_mask) PART_LEN (cr_points cr'))).
Proof.
  destruct (runs_good_spec _ _ gc_runs_good) as (all & E & Hall & Ht).
  pose proof gc_runs_good as Hg. rewrite E in Hg.
  eapply yields_mono.
  - apply (run_walk_denotes _ _ _ (fun r x => Z.testbit gc_mask (gc_in_run r x)) (Z.leb 0) all h E Hg).
    intros c c1 v Hv Hc Hlt. apply gc_add_run_appends; [by apply Z.leb_le|done].
  - intros r Hr. eapply cr_post_mono; [exact Hr|]. intros cr' [D1 D2 D3]. constructor; [done|done|].
    intros x Hx. rewrite D3 by done. unfold run_set, gc_set, unicode_gc. rewrite E.
    cbn [mbind outcome_bind]. by destruct (run_find all 0 x).
Qed.
End GeneralCategory.

(** * Boolean combinations *)

Section Combinations.
Context `{Realloc}.

Lemma cr_op_denotes h op S1 S2 n1 n2 p1 p2 :
  denotes S1 n1 p1 -> denotes S2 n2 p2 -> n1 + n2 <= CR_MAX ->
  yields (cr_op (cr_init, h) p1 p2 op) (cr_post (fun cr' =>
    denotes (fun x => op_bool op (S1 x) (S2 x)) (n1 + n2) (cr_points cr'))).
Proof.
  intros [[E1 Q1 R1] L1 M1] [[E2 Q2 R2] L2 M2] Hn.
  eapply yields_mono; [apply (cr_op_yields cr_init h p1 p2 op); try done; try apply cr_init_wf; lia|].
  intros r Hr. eapply cr_post_mono; [exact Hr|]. intros cr' [O1 O2 O3 O4 O5]. constructor.
  - constructor; [done|by apply sorted_lt_le|]. intros x [Hx|Hx]%O4; auto.
  - lia.
  - intros x Hx. by rewrite O3, M1, M2.
Qed.

Lemma cr_invert_denotes cr h S n :
  cr_wf cr -> denotes S n (cr_points cr) -> n + 2 <= CR_MAX ->
  yields (cr_invert (cr, h)) (cr_post (fun cr' => denotes (fun x => negb (S x)) (n + 2) (cr_points cr'))).
Proof.
  intros Hwf [Hs Hl Hm] Hn.
  eapply yields_mono; [apply cr_invert_yields; [done|done|unfold cr_len; lia]|].
  intros r Hr. eapply cr_post_mono; [exact Hr|]. intros cr' (Hnf & Hlen & Hmem). constructor.
  - by apply cr_nf_sorted.
  - unfold cr_len in *. lia.
  - intros x Hx. assert (UINT32_MAX = 4294967295) by done. rewrite Hmem by lia. by rewrite Hm.
Qed.

(** * Scripts *)

(** The script of a character (0: unknown) and its script extensions. *)
Definition script_of (x : Z) : outcome Z :=
  runs ← table_runs unicode_script_table script_decode;
  mret (match run_find runs 0 x with Some (_, v) => v | None => 0 end).

Definition script_ext_of (x : Z) : outcome (list Z) :=
  runs ← table_runs unicode_script_ext_table script_ext_decode;
  mret (match run_find runs 0 x with Some (_, vs) => vs | None => [] end).

Definition is_common_script (script_idx : Z) : bool :=
  (script_idx =? script_code UNICODE_SCRIPT_Common) || (script_idx =? script_code UNICODE_SCRIPT_Inherited).

(** The characters of a script; of [Script_Extensions] when [is_ext]. *)
Definition script_set (script_idx : Z) (is_ext : bool) (x : Z) : bool :=
  ret_true (v ← script_of x;
    vs ← script_ext_of x;
    mret (if negb is_ext then v =? script_idx
          else if is_common_script script_idx then (v =? script_idx) && (zlen vs =? 0)
          else (v =? script_idx) || existsb (Z.eqb script_idx) vs)).

Lemma script_runs_good : runs_good (fun _ => true) (table_runs unicode_script_table script_decode) = true.
Proof. vm_compute. reflexivity. Qed.
Lemma script_ext_runs_good : runs_good (fun _ => true) (table_runs unicode_script_ext_table script_ext_decode) = true.
Proof. vm_compute. reflexivity. Qed.

Lemma script_walk_denotes h script_idx :
  0 < script_idx ->
  yields (script_walk (cr_init, h) script_idx) (cr_post (fun cr' =>
    denotes (fun x => ret_true (v ← script_of x; mret (v =? script_idx))) PART_LEN (cr_points cr'))).
Proof.
  intros Hidx. destruct (runs_good_spec _ _ script_runs_good) as (all & E & Hall & Ht).
  pose proof script_runs_good as Hg. rewrite E in Hg. eapply yields_mono.
  - apply (run_walk_denotes _ _ _ (fun r x => r.2 =? script_idx) _ all h E Hg).
    intros c c1 v _ Hc Hlt. cbn [snd]. apply appends_if; [lia|intros Ev|intros Ev; by intros].
    apply appends_interval; [lia|by intros].
  - intros r Hr. eapply cr_post_mono; [exact Hr|]. intros cr' [D1 D2 D3]. constructor; [done|done|].
    intros x Hx. rewrite D3 by done. unfold run_set, script_of. rewrite E.
    cbn [mbind outcome_bind]. destruct (run_find all 0 x) as [[c0 v]|]; cbn; [done|].
    symmetry. apply Z.eqb_neq. lia.
Qed.

Lemma script_ext_walk_denotes h script_idx is_common :
  yields (script_ext_walk (cr_init, h) script_idx is_common) (cr_post (fun cr' =>
    denotes (fun x => ret_true (vs ← script_ext_of x;
      mret (if is_common then negb (zlen vs =? 0) else existsb (Z.eqb script_idx) vs))) PART_LEN (cr_points cr'))).
Proof.
  destruct (runs_good_spec _ _ script_ext_runs_good) as (all & E & Hall & Ht).
  pose proof script_ext_runs_good as Hg. rewrite E in Hg. eapply yields_mono.
  - apply (run_walk_denotes _ _ _ (fun r x => if is_common then negb (zlen r.2 =? 0) else existsb (Z.eqb script_idx) r.2)
      _ all h E Hg).
    intros c c1 v _ Hc Hlt. cbn [snd]. apply appends_if; [lia|intros Ev|intros Ev; by intros].
    apply appends_interval; [lia|by intros].
  - intros r Hr. eapply cr_post_mono; [exact Hr|]. intros cr' [D1 D2 D3]. constructor; [done|done|].
    intros x Hx. rewrite D3 by done. unfold run_set, script_ext_of. rewrite E.
    cbn [mbind outcome_bind]. destruct (run_find all 0 x) as [[c0 v]|]; cbn; [done|].
    by destruct is_common.
Qed.

Lemma denotes_ext S S' n pts : (forall x, 0 <= x < 0x110000 -> S x = S' x) -> denotes S n pts -> denotes S' n pts.
Proof. intros HS [D1 D2 D3]. constructor; [done|done|]. intros x Hx. by rewrite D3, HS. Qed.

(** With an allocator that always grants, an operation returns 0. *)
Lemma cr_post_total (P : CharRange -> Prop) r : heap_total -> cr_post P r -> r.1 = 0 /\ cr_wf r.2.1 /\ P r.2.1.
Proof. intros Ht [Hwf [[? ?]|[_ Hn]]]; [done|by destruct Hn]. Qed.

Lemma script_of_ret x : exists v vs, script_of x = Ret v /\ script_ext_of x = Ret vs.
Proof.
  destruct (runs_good_spec _ _ script_runs_good) as (all & E & _).
  destruct (runs_good_spec _ _ script_ext_runs_good) as (all2 & E2 & _).
  unfold script_of, script_ext_of. rewrite E, E2. cbn. eauto.
Qed.

Lemma unicode_script_yields fuel h name is_ext idx :
  heap_total -> unicode_find_name unicode_script_name_table name = Ret idx -> 0 <= idx ->
  yields (unicode_script fuel (cr_init, h) name is_ext) (fun r =>
    r.1 = 0 /\ denotes (script_set (idx + 1) is_ext) (2 * PART_LEN + 2) (cr_points r.2.1)).
Proof.
  intros Ht Hname Hidx. unfold unicode_script. rewrite Hname. cbn [mbind outcome_bind].
  destruct (Z.ltb_spec idx 0); [lia|]. change (script_code UNICODE_SCRIPT_Unknown + 1) with 1.
  fold (is_common_script (idx + 1)). assert (HP : PART_LEN = 2228224) by done. assert (HC : CR_MAX = 268435456) by done.
  destruct is_ext; cbn [negb].
  - apply yields_bind. eapply yields_mono; [apply script_walk_denotes; lia|].
    intros [r1 [cr1 h1]] Hr. apply cr_post_total in Hr as (Hr1 & Hwf1 & Hd1); [|done]. cbn [fst snd] in *. subst r1.
    eval_closed (negb (0 =? 0)). cbn iota.
    apply yields_bind. eapply yields_mono; [apply script_ext_walk_denotes|].
    intros [r2 [cr2 h2]] Hr. apply cr_post_total in Hr as (Hr2 & Hwf2 & Hd2); [|done]. cbn [fst snd] in *. subst r2.
    eval_closed (negb (0 =? 0)). cbn iota. apply yields_bind.
    destruct (is_common_script (idx + 1)) eqn:Ec; cbn iota in *.
    + eapply yields_mono; [apply (cr_invert_denotes cr2 h2 _ _ Hwf2 Hd2); lia|].
      intros [r3 [cr3 h3]] Hr. apply cr_post_total in Hr as (Hr3 & Hwf3 & Hd3); [|done]. cbn [fst snd] in *. subst r3.
      eval_closed (negb (0 =? 0)). cbn iota. apply yields_bind.
      eapply yields_mono; [apply (cr_op_denotes h3 CR_OP_INTER _ _ _ _ _ _ Hd1 Hd3); lia|].
      intros [r4 [cr4 h4]] Hr. apply cr_post_total in Hr as (Hr4 & Hwf4 & Hd4); [|done]. cbn [fst snd] in *. subst r4.
      eval_closed (negb (0 =? 0)). cbn iota. split; [done|]. cbn [fst snd].
      replace (2 * PART_LEN + 2) with (PART_LEN + (PART_LEN + 2)) by lia. eapply denotes_ext; [|exact Hd4].
      intros x Hx. unfold script_set. destruct (script_of_ret x) as (v & vs & -> & ->). cbn. rewrite Ec.
      by rewrite negb_involutive.
    + cbn [yields mret outcome_ret]. eval_closed (negb (0 =? 0)). cbn iota. apply yields_bind.
      eapply yields_mono; [apply (cr_op_denotes h2 CR_OP_UNION _ _ _ _ _ _ Hd1 Hd2); lia|].
      intros [r4 [cr4 h4]] Hr. apply cr_post_total in Hr as (Hr4 & Hwf4 & [D1 D2 D3]); [|done]. cbn [fst snd] in *. subst r4.
      eval_closed (negb (0 =? 0)). cbn iota. split; [done|]. cbn [fst snd]. constructor; [done|lia|].
      intros x Hx. rewrite D3 by done. unfold script_set. destruct (script_of_ret x) as (v & vs & -> & ->). cbn.
      by rewrite Ec.
  - apply yields_bind. eapply yields_mono; [apply script_walk_denotes; lia|].
    intros [r1 [cr1 h1]] Hr. apply cr_post_total in Hr as (Hr1 & Hwf1 & [D1 D2 D3]); [|done]. cbn [fst snd] in *. subst r1.
    eval_closed (0 =? 0). cbn iota. split; [done|]. cbn [fst snd]. constructor; [done|lia|].
    intros x Hx. rewrite D3 by done. unfold script_set. by destruct (script_of_ret x) as (v & vs & -> & ->).
Qed.

(** The label [fail] of [unicode_script] never returns. *)
Lemma script_fail_diverges fuel is_ext h : script_fail fuel is_ext h = Fuel.
Proof. revert h. induction fuel as [|fuel IH]; intros h; [done|]. unfold script_fail in *. cbn. apply IH. Qed.
End Combinations.

(** * Property tables *)

Section PropTables.
Context `{Realloc}.

(** The state of [unicode_prop1] before the byte [p]. *)
Record prop_walking (tab all : list Z) (p c : Z) (bit : bool) (cr : CharRange) : Prop := {
  pw_p : 0 <= p;
  pw_runs : exists rs, prop_runs (drop (Z.to_nat p) tab) = Some rs /\ Forall (fun r => 1 <= r) rs /\
    c + runs_len rs = runs_len all /\ forall x, c <= x -> scan all 0 false x = scan rs c bit x;
  pw_c : 0 <= c;
  pw_wf : cr_wf cr;
  pw_part : part (scan all 0 false) 0 c (cr_points cr)
}.

(** One run: the range gets it when [bit] is set. *)
Lemma prop_run_ok all c r rs bit cr h :
  Forall (fun r => 1 <= r) (r :: rs) -> 0 <= c -> c + runs_len (r :: rs) = runs_len all -> runs_len all <= 0x110000 ->
  (forall x, c <= x -> scan all 0 false x = scan (r :: rs) c bit x) ->
  cr_wf cr -> part (scan all 0 false) 0 c (cr_points cr) ->
  u32 (c + r) = c + r /\
  (forall x, c + r <= x -> scan all 0 false x = scan rs (c + r) (negb bit) x) /\
  yields (if bit then cr_add_interval (cr, h) c (c + r) else mret (0, (cr, h))) (cr_post (fun cr' =>
    part (scan all 0 false) 0 (c + r) (cr_points cr'))).
Proof.
  intros [Hr Hrs]%list.Forall_cons Hc Hsum Htot Hscan Hwf Hp. rewrite runs_len_cons in Hsum.
  pose proof (runs_len_nonneg _ Hrs). pose proof (pt_len _ _ _ _ Hp). assert (CR_MAX = 268435456) by done.
  split; [apply wrap_small; change (2 ^ 32) with 4294967296; lia|]. split.
  { intros x Hx. rewrite Hscan by lia. cbn [scan]. destruct (Z.ltb_spec x (c + r)); [lia|done]. }
  assert (Hin : forall x, c <= x < c + r -> scan all 0 false x = bit).
  { intros x Hx. rewrite Hscan by lia. cbn [scan]. destruct (Z.ltb_spec x (c + r)); [done|lia]. }
  assert (Ha : appends (fun st => if bit then cr_add_interval st c (c + r) else mret (0, st)) (scan all 0 false) c (c + r)).
  { destruct bit; [apply appends_interval; [lia|done]|apply appends_none; [lia|done]]. }
  eapply yields_mono; [apply (Ha cr h Hwf); unfold cr_len; lia|].
  intros res Hres. eapply cr_post_mono; [exact Hres|]. intros cr' (e & E & He). rewrite E.
  apply (part_app _ _ c); [lia|lia|done|done].
Qed.

(** The outcome of a turn of the loop. *)
Definition prop_step_ok (tab all : list Z) (p : Z) (x : Z * Z * bool * (CharRange * heap) + Z * (CharRange * heap)) : Prop :=
  match x with
  | inl (p', c', bit', st') => p < p' /\ p < zlen tab /\ prop_walking tab all p' c' bit' st'.1
  | inr r => cr_post (fun cr' => part (scan all 0 false) 0 (runs_len all) (cr_points cr')) r
  end.

(** The end of a turn: the last run of the byte group. *)
Lemma prop_finish_ok tab all p p' c r rs bit cr h :
  prop_runs (drop (Z.to_nat p') tab) = Some rs -> 0 <= p -> p < p' -> p < zlen tab ->
  Forall (fun r => 1 <= r) (r :: rs) -> 0 <= c -> c + runs_len (r :: rs) = runs_len all -> runs_len all <= 0x110000 ->
  (forall x, c <= x -> scan all 0 false x = scan (r :: rs) c bit x) ->
  cr_wf cr -> part (scan all 0 false) 0 c (cr_points cr) ->
  yields (r0 ← (if bit then cr_add_interval (cr, h) c (u32 (c + r)) else mret (0, (cr, h)));
     mret (if r0.1 =? 0 then inl (p', u32 (c + r), negb bit, r0.2) else inr (-1, r0.2)))
    (prop_step_ok tab all p).
Proof.
  intros Er Hp Hpp Hlt Hrs Hc Hsum Htot Hscan Hwf Hpart.
  destruct (prop_run_ok all c r rs bit cr h Hrs Hc Hsum Htot Hscan Hwf Hpart) as (-> & Hscan' & Hy).
  apply yields_bind. eapply yields_mono; [exact Hy|].
  apply list.Forall_cons in Hrs as [Hr Hrs]. rewrite runs_len_cons in Hsum.
  intros [res [cr2 h2]] [Hwf2 Hres]. cbn [fst snd] in *.
  destruct Hres as [[-> Hp2]|[-> Ht]]; cbn [yields mret outcome_ret];
    [eval_closed (0 =? 0)|eval_closed (-1 =? 0); split; [done|by right]].
  split_and!; [done|done|]. constructor; cbn [fst]; [lia| |lia|done|done].
  exists rs. split_and!; [done|done|lia|done].
Qed.

Lemma prop1_step_spec tab all p c bit cr h :
  runs_len all <= 0x110000 -> prop_walking tab all p c bit cr ->
  yields (prop1_step (zlen tab) tab (p, c, bit, (cr, h))) (prop_step_ok tab all p).
Proof.
  intros Htot [Hp (rs & Er & Hrs & Hsum & Hscan) Hc Hwf Hpart]. unfold prop1_step.
  destruct (Z.ltb_spec p (zlen tab)) as [Hlt|Hge].
  2:{ rewrite drop_ge in Er by zlia. injection Er as <-. cbn in Hsum.
      cbn. split; [done|]. left. split; [done|]. cbn. by replace (runs_len all) with c by lia. }
  destruct (drop (Z.to_nat p) tab) as [|b bs] eqn:Ed.
  { apply (f_equal length) in Ed. rewrite length_drop in Ed. unfold zlen in Hlt. cbn in Ed. lia. }
  destruct (drop_cons_aget _ _ _ _ Hp Ed) as (Eb & Ed1 & _). rewrite Eb. cbn [mbind outcome_bind].
  cbn [prop_runs] in Er. destruct (b <? 64).
  { destruct (prop_runs bs) as [rs0|] eqn:E0; [|done]. injection Er as <-.
    destruct (prop_run_ok all c _ _ bit cr h Hrs Hc Hsum Htot Hscan Hwf Hpart) as (-> & Hscan' & Hy).
    apply yields_bind. eapply yields_mono; [exact Hy|].
    apply list.Forall_cons in Hrs as [Hr Hrs]. rewrite runs_len_cons in Hsum.
    intros [res [cr2 h2]] [Hwf2 Hres]. cbn [fst snd] in *.
    destruct Hres as [[-> Hp2]|[-> Ht]];
      [eval_closed (negb (0 =? 0))|eval_closed (negb (-1 =? 0)); cbn; split; [done|by right]]. cbn iota.
    apply prop_finish_ok with (rs := rs0); try done; try lia. by rewrite Ed1. }
  destruct (b >=? 0x80).
  { destruct (prop_runs bs) as [rs0|] eqn:E0; [|done]. injection Er as <-.
    apply prop_finish_ok with (rs := rs0); try done; try lia. by rewrite Ed1. }
  destruct bs as [|b1 bs]; [done|].
  destruct (drop_cons_aget _ _ _ _ (ltac:(lia) : 0 <= p + 1) Ed1) as (Eb1 & Ed2 & _). rewrite Eb1.
  cbn [mbind outcome_bind]. destruct (b <? 0x60).
  { destruct (prop_runs bs) as [rs0|] eqn:E0; [|done]. injection Er as <-.
    apply prop_finish_ok with (rs := rs0); try done; try lia. by rewrite Ed2. }
  destruct bs as [|b2 bs]; [done|].
  destruct (drop_cons_aget _ _ _ _ (ltac:(lia) : 0 <= p + 1 + 1) Ed2) as (Eb2 & Ed3 & _). rewrite Eb2.
  cbn [mbind outcome_bind].
  destruct (prop_runs bs) as [rs0|] eqn:E0; [|done]. injection Er as <-.
  apply prop_finish_ok with (rs := rs0); try done; try lia.
  replace (p + 1 + 2) with (p + 1 + 1 + 1) by lia. by rewrite Ed3.
Qed.

(** A well-formed property table. *)
Definition prop_good (tab : list Z) : bool :=
  match prop_runs tab with
  | Some rs => forallb (fun r => 1 <=? r) rs && (runs_len rs <=? 0x110000)
  | None => false
  end.

Lemma prop1_loop_denotes tab h :
  prop_good tab = true ->
  yields (loop (S (length tab)) (prop1_step (zlen tab) tab) (0, 0, false, (cr_init, h)))
    (cr_post (fun cr' => denotes (table_set tab) PART_LEN (cr_points cr'))).
Proof.
  unfold prop_good. destruct (prop_runs tab) as [all|] eqn:E; [|done].
  intros [Hpos Htot%Z.leb_le]%andb_true_iff.
  assert (Hall : Forall (fun r => 1 <= r) all).
  { apply list.Forall_forall. intros r Hr. rewrite forallb_forall in Hpos. apply Z.leb_le, Hpos. by apply list_elem_of_In. }
  eapply yields_mono.
  - apply (loop_yields _ (fun '(p, c, bit, st) => prop_walking tab all p c bit st.1)
      (fun '(p, _, _, _) => Z.to_nat (zlen tab - p))
      (cr_post (fun cr' => part (scan all 0 false) 0 (runs_len all) (cr_points cr')))).
    + intros [[[p c] bit] [cr1 h1]] Hw. eapply yields_mono; [by apply (prop1_step_spec tab all)|].
      intros [[[[p' c'] bit'] st']|r]; [|done]. intros (H1 & H2 & H3). split; [done|lia].
    + constructor; cbn [fst]; [lia| |lia|apply cr_init_wf|apply part_empty; lia].
      exists all. rewrite drop_0. split_and!; [done|done|lia|done].
    + zlia.
  - intros r Hr. eapply cr_post_mono; [exact Hr|]. intros cr' Hp. apply part_denotes.
    rewrite <- (app_nil_r (cr_points cr')). pose proof (runs_len_nonneg all Hall).
    apply (part_app _ _ (runs_len all)); [done|done| |].
    + eapply part_ext; [|exact Hp]. intros x Hx. unfold table_set. by rewrite E.
    + apply part_empty; [done|]. intros x Hx. unfold table_set. rewrite E. apply scan_beyond; [done|lia].
Qed.

Lemma prop_tables_good :
  forallz 0 (zlen unicode_prop_table) (fun i =>
    match aget unicode_prop_table i, aget unicode_prop_len_table i with
    | Ret tab, Ret n => prop_good tab && (n =? zlen tab)
    | _, _ => false
    end) = true.
Proof. vm_compute. reflexivity. Qed.

(** The set of the table of a property. *)
Definition prop_table_set (prop_idx : Z) (x : Z) : bool :=
  ret_true (tab ← aget unicode_prop_table prop_idx; mret (table_set tab x)).

Lemma unicode_prop1_yields h prop_idx :
  0 <= prop_idx < zlen unicode_prop_table ->
  yields (unicode_prop1 (cr_init, h) prop_idx)
    (cr_post (fun cr' => denotes (prop_table_set prop_idx) PART_LEN (cr_points cr'))).
Proof.
  intros Hi. pose proof (forallz_spec _ _ _ prop_tables_good prop_idx Hi) as Hg. cbn beta in Hg.
  unfold unicode_prop1, prop_table_set. destruct (aget unicode_prop_table prop_idx) as [tab| |]; [|done|done].
  cbn [mbind outcome_bind]. destruct (aget unicode_prop_len_table prop_idx) as [n| |]; [|done|done].
  cbn [mbind outcome_bind]. apply andb_true_iff in Hg as [Hg ->%Z.eqb_eq]. by apply prop1_loop_denotes.
Qed.
End PropTables.

(** * Case properties *)

(** The character is changed by a conversion selected in the mask: bit 0 upper, 1 lower, 2 folding. *)
Definition conv_changes (x : Z) (r : outcome (list Z)) : bool :=
  match r with Ret [y] => negb (y =? x) | _ => true end.
Definition selected (case_mask : Z) (up low fold : bool) : bool :=
  Z.testbit case_mask 0 && up || Z.testbit case_mask 1 && low || Z.testbit case_mask 2 && fold.
Definition case_set (case_mask x : Z) : bool :=
  selected case_mask (conv_changes x (lre_case_conv x 0)) (conv_changes x (lre_case_conv x 1))
    (conv_changes x (lre_case_conv x 2)).

(** The characters of a run that [unicode_case1] adds. *)
Definition case1_sel (case_mask type code x : Z) : bool :=
  let has m := negb (case_mask .& m =? 0) in
  negb ((case1_mask case_mask >> type) .& 1 =? 0) &&
  match run_type type with
  | RUN_TYPE_UL =>
      (has CASE_U && has (CASE_L .| CASE_F)) || Z.even (x - (code + b2z (has CASE_U)))
  | RUN_TYPE_LSU =>
      (has CASE_U && has (CASE_L .| CASE_F)) || (x =? code) && negb (has CASE_U) || (x =? code + 1)
      || (x =? code + 2) && has CASE_U
  | _ => true
  end.

Definition case1_sel_check (k x : Z) : bool :=
  if x <? 128 then true
  else
    let type := cc_type (run_at k) in
    let code := cc_code (run_at k) in
    let up := conv_changes x (case_conv_entry x 0 k) in
    let low := conv_changes x (case_conv_entry x 1 k) in
    let fold := conv_changes x (case_conv_entry x 2 k) in
    forallz 1 8 (fun m => eqb (case1_sel m type code x) (selected m up low fold)).

Lemma case1_sel_ok : runs_check case1_sel_check = true.
Proof. vm_compute. reflexivity. Qed.

Lemma case1_sel_ascii :
  runs_check (fun k x => if 128 <=? x then true else forallz 1 8 (fun m =>
    eqb (case1_sel m (cc_type (run_at k)) (cc_code (run_at k)) x) (case_set m x))) = true.
Proof. vm_compute. reflexivity. Qed.

Lemma case_set_ascii_uncovered :
  forallz 0 128 (fun x => match case_conv_search x with
    | Ret None => forallz 1 8 (fun m => negb (case_set m x)) | _ => true end) = true.
Proof. vm_compute. reflexivity. Qed.

(** Shapes of the runs: the lengths the alternating runs rely on. *)
Lemma case_runs_shape :
  forallz 0 NRUNS (fun k => (0 <=? cc_code (run_at k)) && (1 <=? cc_len (run_at k)) &&
    (cc_code (run_at k) + cc_len (run_at k) <=? 0x110000) &&
    match run_type (cc_type (run_at k)) with
    | RUN_TYPE_UL => Z.even (cc_len (run_at k))
    | RUN_TYPE_LSU => cc_len (run_at k) =? 3
    | _ => true
    end) = true.
Proof. vm_compute. reflexivity. Qed.

Lemma case_set_covered m x k :
  1 <= m < 8 -> 0 <= x -> 0 <= k < NRUNS -> covers k x ->
  case_set m x = case1_sel m (cc_type (run_at k)) (cc_code (run_at k)) x.
Proof.
  intros Hm Hx Hk Hcov. destruct (Z_lt_le_dec x 128) as [Hlt|Hge].
  - pose proof (runs_check_spec _ k x case1_sel_ascii Hk Hcov) as Hc. cbn beta in Hc.
    destruct (Z.leb_spec 128 x); [lia|]. symmetry. apply eqb_prop. exact (forallz_spec _ _ _ Hc m Hm).
  - pose proof (runs_check_spec _ k x case1_sel_ok Hk Hcov) as Hc. cbn beta in Hc.
    unfold case1_sel_check in Hc. destruct (Z.ltb_spec x 128); [lia|].
    pose proof (forallz_spec _ _ _ Hc m Hm) as Hs. cbn beta in Hs. apply eqb_prop in Hs. rewrite Hs.
    unfold case_set. by rewrite !(lre_case_conv_covered x _ k).
Qed.

Lemma case_set_uncovered m x :
  1 <= m < 8 -> 0 <= x -> (forall k, 0 <= k < NRUNS -> ~ covers k x) -> case_set m x = false.
Proof.
  intros Hm Hx Hn. destruct (Z_lt_le_dec x 128) as [Hlt|Hge].
  - pose proof (forallz_spec _ _ _ case_set_ascii_uncovered x ltac:(lia)) as Hc. cbn beta in Hc.
    destruct (case_conv_search_spec x Hx) as [[E _]|(k & _ & Hk & Hcov)]; [|by destruct (Hn k Hk)].
    rewrite E in Hc. apply negb_true_iff. exact (forallz_spec _ _ _ Hc m Hm).
  - unfold case_set, selected. rewrite !lre_case_conv_uncovered by done.
    unfold conv_changes. rewrite Z.eqb_refl. cbn. by rewrite !andb_false_r.
Qed.

Section CaseProps.
Context `{Realloc}.

(** [add_alternate] adds the even offsets; on an even number of characters it stops one before the last. *)
Lemma add_alternate_appends S code len hi :
  0 <= len -> hi = code + len \/ Z.even len = true /\ 0 < len /\ hi = code + len - 1 ->
  (forall x, code <= x < hi -> S x = Z.even (x - code)) ->
  appends (fun st => add_alternate st code len) S code hi.
Proof.
  intros Hc Hhi HS cr h Hwf Hl. unfold add_alternate.
  apply (loop_yields _ (fun '(i, st) => 0 <= i /\ Z.even i = true /\ cr_wf st.1 /\
    exists e, cr_points st.1 = cr_points cr ++ e /\ part S code (Z.min (code + i) hi) e) (fun '(i, _) => Z.to_nat (len - i))).
  2:{ cbn. split_and!; [lia|done|done|]. exists []. rewrite app_nil_r. split; [done|]. apply part_empty; lia. }
  2:{ lia. }
  intros [i [cr1 h1]]. cbn [fst]. intros (Hi & Hev & Hwf1 & e & E & He). destruct (Z.ltb_spec i len) as [Hic|Hic].
  2:{ cbn. split; [done|]. left. split; [done|]. exists e. by rewrite Z.min_r in He by lia. }
  assert (Hroom : code + i + 1 <= hi).
  { destruct Hhi as [->|(Hel & Hpos & ->)]; [lia|]. pose proof (even_succ_lt i len Hev Hel Hic). lia. }
  rewrite Z.min_l in He by lia. pose proof (pt_len _ _ _ _ He).
  apply yields_bind. eapply yields_mono.
  { apply (appends_interval S (code + i) (code + i + 1)); [lia| |done|].
    - intros x Hx. rewrite HS by lia. by replace (x - code) with i by lia.
    - unfold cr_len in *. rewrite E, zlen_app. lia. }
  intros [r [cr2 h2]] [Hwf2 Hr]. cbn [fst snd] in *.
  destruct Hr as [[-> (e2 & E2 & He2)]|[-> Ht]]; cbn [yields mret outcome_ret];
    [eval_closed (0 =? 0)|eval_closed (-1 =? 0); split; [done|by right]].
  split; [|lia]. cbn [fst]. split_and!; [lia| |done|].
  { replace (i + 2) with (i + 2 * 1) by lia. by rewrite Z.even_add_mul_2. }
  exists (e ++ e2). rewrite E2, E, app_assoc. split; [done|].
  assert (Hpe : part S code (code + i + 1) (e ++ e2)) by (apply (part_app S code (code + i)); [lia|lia|done|done]).
  destruct (Z_lt_le_dec (code + i + 1) hi).
  - rewrite <- (app_nil_r (e ++ e2)). apply (part_app S code (code + i + 1)); [lia|lia|done|].
    apply part_empty; [lia|]. intros x Hx. rewrite HS by lia. replace (x - code) with (i + 1) by lia.
    by rewrite Z.even_add, Hev.
  - by replace (Z.min (code + (i + 2)) hi) with (code + i + 1) by lia.
Qed.

Lemma appends_weaken f S lo mid hi : mid <= hi -> lo <= mid ->
  (forall x, mid <= x < hi -> S x = false) -> appends f S lo mid -> appends f S lo hi.
Proof.
  intros Hm Hl HS Hf cr h Hwf Hlen. eapply yields_mono; [apply Hf; [done|lia]|].
  intros r Hr. eapply cr_post_mono; [exact Hr|]. intros cr' (e & E & He). exists e. split; [done|].
  rewrite <- (app_nil_r e). apply (part_app S lo mid); [done|done|done|]. by apply part_empty.
Qed.

Lemma appends_shift f S lo mid hi : lo <= mid -> mid <= hi ->
  (forall x, lo <= x < mid -> S x = false) -> appends f S mid hi -> appends f S lo hi.
Proof.
  intros Hm Hl HS Hf cr h Hwf Hlen. eapply yields_mono; [apply Hf; [done|lia]|].
  intros r Hr. eapply cr_post_mono; [exact Hr|]. intros cr' (e & E & He). exists ([] ++ e). split; [done|].
  apply (part_app S lo mid); [done|done| |done]. by apply part_empty.
Qed.

(** Two appends in sequence. *)
Lemma appends_seq f g S lo mid hi : lo <= mid -> mid <= hi ->
  appends f S lo mid -> appends g S mid hi -> appends (fun st => c_try (f st) g) S lo hi.
Proof.
  intros Hm Hl Hf Hg cr h Hwf Hlen. eapply yields_cr_try; [apply Hf; [done|lia]|].
  intros cr1 h1 Hwf1 (e & E & He). cbn beta. pose proof (pt_len _ _ _ _ He).
  eapply yields_mono; [apply Hg; [done|unfold cr_len in *; rewrite E, zlen_app; lia]|].
  intros r Hr. eapply cr_post_mono; [exact Hr|]. intros cr' (e' & E' & He'). exists (e ++ e').
  rewrite E', E, app_assoc. split; [done|]. by apply (part_app S lo mid).
Qed.

Lemma appends_one S a b : b = a + 1 -> S a = true -> appends (fun st => cr_add_interval st a b) S a b.
Proof. intros -> HS. apply appends_interval; [lia|]. intros x Hx. by replace x with a by lia. Qed.

Lemma appends_if_one (b : bool) S x y : y = x + 1 -> S x = b ->
  appends (fun st => if b then cr_add_interval st x y else mret (0, st)) S x y.
Proof.
  intros -> HS. apply appends_if; [lia|intros ->; by apply appends_one|].
  intros -> z Hz. by replace z with x by lia.
Qed.

(** A selected run of the case table. *)
Lemma case1_add_run_appends m type code len :
  1 <= len -> negb ((case1_mask m >> type) .& 1 =? 0) = true ->
  match run_type type with RUN_TYPE_UL => Z.even len = true | RUN_TYPE_LSU => len = 3 | _ => True end ->
  appends (fun st => case1_add_run st m type code len) (case1_sel m type code) code (code + len).
Proof.
  intros Hlen Hmask Hshape. unfold case1_add_run, case1_sel. rewrite Hmask. cbn [andb].
  destruct (run_type type) eqn:Et; try (apply appends_interval; [lia|done]).
  - (* UL *) destruct (_ && _) eqn:Eboth; [apply appends_interval; [lia|done]|]. cbn [orb].
    destruct (negb (m .& CASE_U =? 0)); cbn [b2z].
    + apply appends_shift with (mid := code + 1); [lia|lia| |].
      { intros x Hx. replace x with code by lia. by replace (code - (code + 1)) with (-1) by lia. }
      apply add_alternate_appends; [lia|right; split_and!; [done|lia|lia]|done].
    + rewrite Z.add_0_r. apply add_alternate_appends; [lia|by left|done].
  - (* LSU *) subst len. destruct (_ && _) eqn:Eboth; [apply appends_interval; [lia|done]|]. cbn [orb].
    apply (appends_seq _ _ _ code (code + 1)); [lia|lia| |].
    { apply appends_if_one; [done|]. rewrite Z.eqb_refl. rewrite (proj2 (Z.eqb_neq code (code + 1))) by lia.
      rewrite (proj2 (Z.eqb_neq code (code + 2))) by lia. by rewrite !orb_false_r. }
    apply (appends_seq _ _ _ (code + 1) (code + 2)); [lia|lia| |].
    { apply appends_one; [lia|]. by rewrite Z.eqb_refl, orb_true_r. }
    apply appends_if_one; [lia|]. rewrite Z.eqb_refl. rewrite (proj2 (Z.eqb_neq (code + 2) (code + 1))) by lia.
    rewrite (proj2 (Z.eqb_neq (code + 2) code)) by lia. done.
Qed.

(** The end of the run before [k]. *)
Definition run_end (k : Z) : Z := if k =? 0 then 0 else cc_code (run_at (k - 1)) + cc_len (run_at (k - 1)).

Lemma run_shape k : 0 <= k < NRUNS ->
  0 <= cc_code (run_at k) /\ 1 <= cc_len (run_at k) /\ cc_code (run_at k) + cc_len (run_at k) <= 0x110000 /\
  match run_type (cc_type (run_at k)) with RUN_TYPE_UL => Z.even (cc_len (run_at k)) = true
    | RUN_TYPE_LSU => cc_len (run_at k) = 3 | _ => True end /\ run_end k <= cc_code (run_at k).
Proof.
  intros Hk. pose proof (forallz_spec _ _ _ case_runs_shape k Hk) as Hc. cbn beta in Hc.
  apply andb_true_iff in Hc as [[[H1%Z.leb_le H2%Z.leb_le]%andb_true_iff H3%Z.leb_le]%andb_true_iff H4].
  split; [exact H1|]. split; [exact H2|]. split; [exact H3|]. split.
  - destruct (run_type _); try exact I; [exact H4|by apply Z.eqb_eq].
  - unfold run_end. destruct (Z.eqb_spec k 0) as [->|]; [exact H1|]. apply runs_sorted; lia.
Qed.

Lemma run_end_range k : 0 <= k <= NRUNS -> 0 <= run_end k <= 0x110000.
Proof.
  intros Hk. unfold run_end. destruct (Z.eqb_spec k 0); [lia|].
  destruct (run_shape (k - 1) ltac:(lia)) as (H1 & H2 & H3 & _). lia.
Qed.

Lemma run_end_succ k : 0 <= k -> run_end (k + 1) = cc_code (run_at k) + cc_len (run_at k).
Proof. intros Hk. unfold run_end. destruct (Z.eqb_spec (k + 1) 0); [lia|]. by replace (k + 1 - 1) with k by lia. Qed.

(** No conversion changes the characters between two runs. *)
Lemma case_set_gap m k x : 1 <= m < 8 -> 0 <= k <= NRUNS -> 0 <= x -> run_end k <= x ->
  (k < NRUNS -> x < cc_code (run_at k)) -> case_set m x = false.
Proof.
  intros Hm Hk Hx Hx1 Hx2. apply case_set_uncovered; [done|done|]. intros j Hj [C1 C2]. unfold run_end in Hx1.
  destruct (Z_lt_le_dec j k) as [Hjk|Hjk].
  - destruct (Z.eqb_spec k 0); [lia|]. destruct (decide (j = k - 1)) as [->|]; [lia|].
    pose proof (runs_sorted (k - 1) j ltac:(lia) ltac:(lia) ltac:(lia)).
    pose proof (cc_len_nonneg (run_at (k - 1))). lia.
  - destruct (decide (j = k)) as [->|]; [lia|]. pose proof (runs_sorted j k ltac:(lia) ltac:(lia) ltac:(lia)).
    pose proof (cc_len_nonneg (run_at k)). lia.
Qed.

Lemma unicode_case1_yields h case_mask :
  1 <= case_mask < 8 ->
  yields (unicode_case1 (cr_init, h) case_mask)
    (cr_post (fun cr' => denotes (case_set case_mask) PART_LEN (cr_points cr'))).
Proof.
  intros Hm. unfold unicode_case1. destruct (Z.eqb_spec case_mask 0); [lia|].
  rewrite table1_len. eapply yields_mono.
  - apply (loop_yields _ (fun '(k, st) => 0 <= k <= NRUNS /\ cr_wf st.1 /\
      part (case_set case_mask) 0 (run_end k) (cr_points st.1)) (fun '(k, _) => Z.to_nat (NRUNS - k))
      (cr_post (fun cr' => part (case_set case_mask) 0 (run_end NRUNS) (cr_points cr')))).
    + intros [k [cr1 h1]]. cbn [fst]. intros (Hk & Hwf & Hpart). destruct (Z.ltb_spec k NRUNS).
      2:{ cbn [yields mret outcome_ret]. split; [done|]. left. split; [done|]. by replace NRUNS with k by lia. }
      rewrite aget_run by lia. cbn [mbind outcome_bind].
      destruct (run_shape k ltac:(lia)) as (H1 & H2 & H3 & H4 & H5). pose proof (run_end_range k ltac:(lia)).
      pose proof (run_end_succ k ltac:(lia)) as Hsucc.
      assert (Hpre : part (case_set case_mask) 0 (cc_code (run_at k)) (cr_points cr1)).
      { rewrite <- (app_nil_r (cr_points cr1)). apply (part_app _ _ (run_end k)); [lia|done|done|].
        apply part_empty; [done|]. intros x Hx. apply (case_set_gap _ k); done || lia. }
      assert (Hrun : forall x, cc_code (run_at k) <= x < cc_code (run_at k) + cc_len (run_at k) ->
        case1_sel case_mask (cc_type (run_at k)) (cc_code (run_at k)) x = case_set case_mask x).
      { intros x Hx. symmetry. apply case_set_covered; [done|lia|lia|done]. }
      pose proof (pt_len _ _ _ _ Hpart). assert (CR_MAX = 268435456) by done.
      destruct (negb _) eqn:Emask.
      * apply yields_bind. eapply yields_mono.
        { apply (case1_add_run_appends case_mask (cc_type (run_at k)) (cc_code (run_at k)) (cc_len (run_at k)));
            [lia|done|done|done|unfold cr_len; lia]. }
        intros [r [cr2 h2]] [Hwf2 Hr]. cbn [fst snd] in *.
        destruct Hr as [[-> (e & E & He)]|[-> Ht]]; cbn [yields mret outcome_ret];
          [eval_closed (0 =? 0)|eval_closed (-1 =? 0); split; [done|by right]].
        split; [|lia]. cbn [fst]. split_and!; [lia|lia|done|]. rewrite E, Hsucc.
        apply (part_app _ _ (cc_code (run_at k))); [lia|lia|done|]. eapply part_ext; [|exact He]. done.
      * cbn [yields mret outcome_ret]. split; [|lia]. cbn [fst]. split_and!; [lia|lia|done|]. rewrite Hsucc.
        rewrite <- (app_nil_r (cr_points cr1)). apply (part_app _ _ (cc_code (run_at k))); [lia|lia|done|].
        apply part_empty; [lia|]. intros x Hx. rewrite <- Hrun by done. unfold case1_sel. by rewrite Emask.
    + cbn [fst]. split_and!; [lia|lia|apply cr_init_wf|]. apply part_empty; unfold run_end; eval_closed (0 =? 0); lia.
    + pose proof table1_len as Hl. unfold zlen in Hl. lia.
  - intros r Hr. eapply cr_post_mono; [exact Hr|]. intros cr' Hp. apply part_denotes.
    rewrite <- (app_nil_r (cr_points cr')). pose proof (run_end_range NRUNS ltac:(lia)).
    apply (part_app _ _ (run_end NRUNS)); [lia|lia|done|]. apply part_empty; [lia|].
    intros x Hx. apply (case_set_gap _ NRUNS); done || lia.
Qed.
End CaseProps.

(** * The stack machine *)

(** The set a program computes: a stack of sets with bounds on their number of points. *)
Fixpoint pop_eval (ops : list PropOPEnum) (stk : list ((Z -> bool) * Z)) : option ((Z -> bool) * Z) :=
  let binary op :=
    match stk with
    | (S2, n2) :: (S1, n1) :: rest =>
        if (n1 + n2 <=? CR_MAX) && (zlen stk <? POP_STACK_LEN_MAX)
        then Some ((fun x => op_bool op (S1 x) (S2 x), n1 + n2) :: rest) else None
    | _ => None
    end in
  let push (ok : bool) (S : Z -> bool) := if ok && (zlen stk <? POP_STACK_LEN_MAX) then Some ((S, PART_LEN) :: stk) else None in
  match ops with
  | [] => None
  | op :: ops =>
      match op with
      | POP_END => match stk with [r] => Some r | _ => None end
      | POP_GC m => push true (gc_set m) ≫= pop_eval ops
      | POP_PROP p => push (prop_code p <? zlen unicode_prop_table) (prop_table_set (prop_code p)) ≫= pop_eval ops
      | POP_CASE m => push ((1 <=? m) && (m <? 8)) (case_set m) ≫= pop_eval ops
      | POP_UNION => binary CR_OP_UNION ≫= pop_eval ops
      | POP_INTER => binary CR_OP_INTER ≫= pop_eval ops
      | POP_XOR => binary CR_OP_XOR ≫= pop_eval ops
      | POP_INVERT =>
          match stk with
          | (R, n) :: rest => if n + 2 <=? CR_MAX then pop_eval ops ((fun x => negb (R x), n + 2) :: rest) else None
          | [] => None
          end
      end
  end.

Section StackMachine.
Context `{Realloc}.

(** The ranges of the stack denote the sets. *)
Definition stack_ok (stack : list CharRange) (stk : list ((Z -> bool) * Z)) : Prop :=
  Forall2 (fun cr s => cr_wf cr /\ denotes s.1 s.2 (cr_points cr)) stack stk.

(** 0 and a stack, or -1 when the allocator refuses. *)
Definition pop_post (P : list CharRange -> Prop) (r : Z * (list CharRange * heap)) : Prop :=
  r.1 = 0 /\ P r.2.1 \/ r.1 = -1 /\ ~ heap_total.

Lemma stack_ok_zlen stack stk : stack_ok stack stk -> zlen stack = zlen stk.
Proof. intros Hs%Forall2_length. by unfold zlen; rewrite Hs. Qed.

Lemma yields_pop_try P Q o k :
  yields o (pop_post P) -> (forall stack h, P stack -> yields (k (stack, h)) (pop_post Q)) ->
  yields (c_try o k) (pop_post Q).
Proof.
  intros Ho Hk. apply yields_try. eapply yields_mono; [exact Ho|].
  intros [r [stack h]] [[Hr HP]|[Hr Ht]]; cbn in Hr; subst r; [by apply Hk|by right].
Qed.

Lemma pop_push_spec stack stk h gen S n :
  stack_ok stack stk -> zlen stk < POP_STACK_LEN_MAX ->
  yields (gen (cr_init, h)) (cr_post (fun cr' => denotes S n (cr_points cr'))) ->
  yields (pop_push (stack, h) gen) (pop_post (fun stack' => stack_ok stack' ((S, n) :: stk))).
Proof.
  intros Hs Hlt Hg. unfold pop_push. rewrite (stack_ok_zlen _ _ Hs).
  destruct (Z.ltb_spec (zlen stk) POP_STACK_LEN_MAX); [|lia]. cbn [c_assert mbind outcome_bind].
  apply yields_bind. eapply yields_mono; [exact Hg|].
  intros [r [cr h']] [Hwf [[Hr HP]|[Hr Ht]]]; cbn in Hr, Hwf; subst r; cbn; [left|by right]. cbn in HP.
  split; [done|]. by constructor.
Qed.

Lemma pop_binary_spec stack stk h op S1 S2 n1 n2 :
  stack_ok stack ((S2, n2) :: (S1, n1) :: stk) -> zlen stk + 2 < POP_STACK_LEN_MAX -> n1 + n2 <= CR_MAX ->
  yields (pop_binary (stack, h) op)
    (pop_post (fun stack' => stack_ok stack' ((fun x => op_bool op (S1 x) (S2 x), n1 + n2) :: stk))).
Proof.
  intros Hs Hlt Hn. pose proof (stack_ok_zlen _ _ Hs) as Hz. rewrite !zlen_cons in Hz.
  pose proof (zlen_nonneg stk). unfold pop_binary. rewrite Hz.
  destruct (Z.leb_spec 2 (zlen stk + 1 + 1)); [|lia].
  destruct (Z.ltb_spec (zlen stk + 1 + 1) POP_STACK_LEN_MAX); [|lia]. cbn [c_assert mbind outcome_bind].
  inversion Hs as [|cr2 ? stack1 ? [Hwf2 Hd2] Hs1]; subst. inversion Hs1 as [|cr1 ? rest ? [Hwf1 Hd1] Hrest]; subst.
  cbn [fst snd] in *. apply yields_bind. eapply yields_mono; [by apply (cr_op_denotes h op S1 S2 n1 n2)|].
  intros [r [cr3 h3]] [Hwf3 [[Hr HP]|[Hr Ht]]]; cbn [fst snd] in *; subst r.
  - eval_closed (negb (0 =? 0)). cbn. left. split; [done|]. by constructor.
  - eval_closed (negb (-1 =? 0)). cbn. by right.
Qed.

Lemma pop_run_spec ops : forall stack stk h S n,
  stack_ok stack stk -> pop_eval ops stk = Some (S, n) ->
  yields (pop_run ops (stack, h)) (pop_post (fun stack' => stack_ok stack' [(S, n)])).
Proof.
  induction ops as [|op ops IH]; intros stack stk h S n Hs He; [done|].
  assert (Hpush : forall ok gen S0 o, (o = if ok && (zlen stk <? POP_STACK_LEN_MAX) then Some ((S0, PART_LEN) :: stk) else None) ->
    o ≫= pop_eval ops = Some (S, n) ->
    (ok = true -> forall h, yields (gen (cr_init, h)) (cr_post (fun cr' => denotes S0 PART_LEN (cr_points cr')))) ->
    yields (try st ← pop_push (stack, h) gen; pop_run ops st) (pop_post (fun stack' => stack_ok stack' [(S, n)]))).
  { intros ok gen S0 o -> Ho Hgen. destruct ok; [|done]. cbn [andb] in Ho.
    destruct (Z.ltb_spec (zlen stk) POP_STACK_LEN_MAX); [|done]. cbn in Ho.
    eapply yields_pop_try; [by apply (pop_push_spec stack stk h gen S0 PART_LEN); auto|].
    intros stack' h' Hs'. exact (IH _ _ _ _ _ Hs' Ho). }
  assert (Hbin : forall bop, (match stk with
      | (S2, n2) :: (S1, n1) :: rest =>
          if (n1 + n2 <=? CR_MAX) && (zlen stk <? POP_STACK_LEN_MAX)
          then Some ((fun x => op_bool bop (S1 x) (S2 x), n1 + n2) :: rest) else None
      | _ => None end) ≫= pop_eval ops = Some (S, n) ->
    yields (try st ← pop_binary (stack, h) bop; pop_run ops st) (pop_post (fun stack' => stack_ok stack' [(S, n)]))).
  { intros bop Ho. destruct stk as [|[S2 n2] [|[S1 n1] rest]]; [done|done|].
    destruct (_ && _) eqn:Eb; [|done]. apply andb_true_iff in Eb as [Hn%Z.leb_le Hl%Z.ltb_lt].
    rewrite !zlen_cons in Hl. cbn in Ho.
    eapply yields_pop_try; [by apply (pop_binary_spec stack rest h bop S1 S2 n1 n2); [done|lia|done]|].
    intros stack' h' Hs'. exact (IH _ _ _ _ _ Hs' Ho). }
  destruct op as [m|q|m| | | | |]; cbn [pop_eval pop_run pop_step] in *.
  - eapply (Hpush true); [done|exact He|]. intros _ h'. apply unicode_general_category1_yields.
  - eapply (Hpush (prop_code q <? zlen unicode_prop_table)); [done|exact He|]. intros Hp%Z.ltb_lt h'.
    apply unicode_prop1_yields. split; [destruct q; vm_compute; discriminate|done].
  - eapply (Hpush ((1 <=? m) && (m <? 8))); [done|exact He|]. intros [Hm1%Z.leb_le Hm2%Z.ltb_lt]%andb_true_iff h'.
    by apply unicode_case1_yields.
  - by apply Hbin.
  - by apply Hbin.
  - by apply Hbin.
  - destruct stk as [|[S0 n0] rest]; [done|]. destruct (Z.leb_spec (n0 + 2) CR_MAX); [|done].
    pose proof (stack_ok_zlen _ _ Hs) as Hz. rewrite zlen_cons in Hz. pose proof (zlen_nonneg rest).
    rewrite Hz. destruct (Z.leb_spec 1 (zlen rest + 1)); [|lia]. cbn [c_assert mbind outcome_bind].
    inversion Hs as [|cr ? rest' ? [Hwf Hd] Hrest]; subst. cbn [fst snd] in *.
    eapply (yields_pop_try (fun stack' => stack_ok stack' ((fun x => negb (S0 x), n0 + 2) :: rest))).
    + apply yields_bind. eapply yields_mono; [by apply (cr_invert_denotes cr h S0 n0)|].
      intros [r [cr3 h3]] [Hwf3 [[Hr HP]|[Hr Ht]]]; cbn in *; subst r; [left|by right]. split; [done|]. by constructor.
    + intros stack' h' Hs'. exact (IH _ _ _ _ _ Hs' He).
  - destruct stk as [|r [|]]; try done. injection He as ->. cbn. by left.
Qed.

Lemma unicode_prop_ops_yields h ops S n :
  pop_eval ops [] = Some (S, n) -> n <= CR_MAX ->
  yields (unicode_prop_ops (cr_init, h) ops) (cr_post (fun cr' => denotes S n (cr_points cr'))).
Proof.
  intros He Hn. unfold unicode_prop_ops. apply yields_bind.
  eapply yields_mono; [apply (pop_run_spec ops [] [] h S n); [constructor|done]|].
  intros [r [stack h']] [[Hr Hs]|[Hr Ht]]; cbn in Hr; subst r.
  2:{ eval_closed (-1 =? 0). cbn. split; [apply cr_init_wf|]. by right. }
  eval_closed (0 =? 0). cbn iota. cbn [fst snd] in Hs.
  inversion Hs as [|cr ? rest ? [Hwf Hd] Hrest]; subst. inversion Hrest; subst. cbn [fst snd] in Hd.
  apply yields_bind. unfold cr_copy.
  apply (yields_mono _ (cr_post (fun cr' => denotes S n (cr_points cr')))).
  - eapply yields_cr_try.
    + apply (cr_realloc_spec cr_init h' (cr_len cr) cr_init_wf). pose proof (dn_len _ _ _ Hd).
      unfold cr_len. lia.
    + intros cr1 h1 [Hl1 Hs1] [Ep Hsz]. destruct (Z.leb_spec (cr_len cr) (cr_size cr1)); [|lia].
      cbn. split; [|by left]. unfold cr_wf, cr_len. cbn. unfold cr_len in *. lia.
  - intros [r [cr1 h1]] [Hwf1 Hr]. cbn in *. by split.
Qed.

(** The set of a derived property. *)
Definition prop_set (prop_idx : Z) : Z -> bool :=
  match unicode_prop_def prop_idx with
  | PD_interval c1 c2 => fun x => (c1 <=? x) && (x <? c2)
  | PD_ops ops => match pop_eval ops [] with Some (R, _) => R | None => fun _ => false end
  | PD_case mask => case_set mask
  | PD_table => prop_table_set prop_idx
  end.

(** Every program of [unicode_prop] keeps within its stack. *)
Lemma unicode_prop_def_ok prop_idx :
  match unicode_prop_def prop_idx with
  | PD_interval c1 c2 => 0 <= c1 /\ c1 < c2 /\ c2 <= 0x110000
  | PD_ops ops => exists R n, pop_eval ops [] = Some (R, n) /\ n <= CR_MAX
  | PD_case mask => 1 <= mask < 8
  | PD_table => True
  end.
Proof.
  unfold unicode_prop_def.
  repeat match goal with |- context [if prop_idx =? ?c then _ else _] => destruct (prop_idx =? c) end;
    cbv beta iota;
    lazymatch goal with
    | |- True => exact I
    | |- ex _ => do 2 eexists; split; [reflexivity|vm_compute; discriminate]
    | |- _ => vm_compute; split_and?; first [done|discriminate]
    end.
Qed.
End StackMachine.

(** * The sets by name *)

Lemma gc_names_lookup name :
  unicode_find_name unicode_gc_name_table name = Ret (find_entry name (name_entries unicode_gc_names) 0).
Proof.
  unfold unicode_gc_name_table. rewrite c_names_flat. apply unicode_find_name_flat, names_ok_spec.
  vm_compute. reflexivity.
Qed.
Lemma script_names_lookup name :
  unicode_find_name unicode_script_name_table name = Ret (find_entry name (name_entries unicode_script_names) 0).
Proof.
  unfold unicode_script_name_table. rewrite c_names_flat. apply unicode_find_name_flat, names_ok_spec.
  vm_compute. reflexivity.
Qed.
Lemma prop_names_lookup name :
  unicode_find_name unicode_prop_name_table name = Ret (find_entry name (name_entries unicode_prop_names) 0).
Proof.
  unfold unicode_prop_name_table. rewrite c_names_flat. apply unicode_find_name_flat, names_ok_spec.
  vm_compute. reflexivity.
Qed.

(** The categories an entry of the table of names stands for. *)
Definition gc_entry_mask (gc_idx : Z) : Z :=
  if gc_idx <=? gc_code UNICODE_GC_Co then 1 << gc_idx
  else unicode_gc_mask_table !!! Z.to_nat (gc_idx - gc_code UNICODE_GC_LC).

(** C22: [unicode_general_category] returns -2 on an unknown name and otherwise builds, in
    sorted points, the set of the characters whose general category - read from
    the table of the runs - is one of those the name stands for; every code point
    has one.  It answers -1 only when the allocator refuses a request. *)
Theorem unicode_general_category_spec `{Realloc} h gc_name :
  let gc_idx := find_entry gc_name (name_entries unicode_gc_names) 0 in
  if gc_idx <? 0 then unicode_general_category (cr_init, h) gc_name = Ret (-2, (cr_init, h))
  else yields (unicode_general_category (cr_init, h) gc_name) (cr_post (fun cr' =>
    cr_sorted (cr_points cr') /\ forall x, 0 <= x < 0x110000 -> exists g, unicode_gc x = Ret g /\
      in_ranges (cr_points cr') x = Z.testbit (gc_entry_mask gc_idx) g)).
Proof.
  intros gc_idx. pose proof (find_entry_range gc_name (name_entries unicode_gc_names) 0 ltac:(lia)) as Hr.
  fold gc_idx in Hr. change (0 + zlen (name_entries unicode_gc_names)) with 38 in Hr.
  unfold unicode_general_category. rewrite gc_names_lookup. fold gc_idx. cbn [mbind outcome_bind].
  destruct (Z.ltb_spec gc_idx 0) as [Hneg|Hpos]; [done|].
  assert (Hmask : (if gc_idx <=? gc_code UNICODE_GC_Co then mret (u32 (u64 (1 << gc_idx)))
     else aget unicode_gc_mask_table (gc_idx - gc_code UNICODE_GC_LC)) = Ret (gc_entry_mask gc_idx)).
  { assert (Hc : forallz 0 38 (fun i => bool_decide ((if i <=? gc_code UNICODE_GC_Co then Some (u32 (u64 (1 << i)))
       else unicode_gc_mask_table !! Z.to_nat (i - gc_code UNICODE_GC_LC)) = Some (gc_entry_mask i))) = true)
      by (vm_compute; reflexivity).
    pose proof (forallz_spec _ _ _ Hc gc_idx ltac:(lia)) as Hb. apply bool_decide_eq_true in Hb.
    destruct (Z.leb_spec gc_idx (gc_code UNICODE_GC_Co)) as [Hle|Hgt]; [by injection Hb as ->|].
    apply aget_lookup. split; [change (gc_code UNICODE_GC_LC) with 30; change (gc_code UNICODE_GC_Co) with 29 in Hgt; lia|done]. }
  rewrite Hmask. cbn [mbind outcome_bind].
  eapply yields_mono; [apply unicode_general_category1_yields|].
  intros r Hres. eapply cr_post_mono; [exact Hres|]. intros cr' [D1 D2 D3]. split; [done|].
  intros x Hx. destruct (unicode_gc_total x Hx) as [g Hg]. exists g. split; [done|].
  rewrite D3 by done. unfold gc_set. by rewrite Hg.
Qed.

(** C21: [unicode_prop] returns -2 on a name without a table and otherwise builds the set
    of the property: an interval, the set of its table, the characters that a case
    conversion changes, or the boolean combination of such sets that its program
    spells; the program never overflows or underflows its stack of four ranges. *)
Theorem unicode_prop_spec `{Realloc} h prop_name :
  let idx := find_entry prop_name (name_entries unicode_prop_names) 0 in
  let prop_idx := idx + prop_code UNICODE_PROP_ASCII_Hex_Digit in
  0 <= idx -> (unicode_prop_def prop_idx = PD_table -> prop_idx < zlen unicode_prop_table) ->
  yields (unicode_prop (cr_init, h) prop_name) (cr_post (fun cr' =>
    cr_sorted (cr_points cr') /\
    forall x, 0 <= x < 0x110000 -> in_ranges (cr_points cr') x = prop_set prop_idx x)).
Proof.
  intros idx prop_idx Hidx Htab. unfold unicode_prop. rewrite prop_names_lookup. fold idx.
  cbn [mbind outcome_bind]. destruct (Z.ltb_spec idx 0); [lia|]. fold prop_idx.
  assert (Hden : forall S n o, (forall x, S x = prop_set prop_idx x) ->
    yields o (cr_post (fun cr' => denotes S n (cr_points cr'))) ->
    yields o (cr_post (fun cr' => cr_sorted (cr_points cr') /\
      forall x, 0 <= x < 0x110000 -> in_ranges (cr_points cr') x = prop_set prop_idx x))).
  { intros S n o HS Ho. eapply yields_mono; [exact Ho|]. intros r Hr. eapply cr_post_mono; [exact Hr|].
    intros cr' [D1 D2 D3]. split; [done|]. intros x Hx. by rewrite D3, HS. }
  unfold prop_set in *. pose proof (unicode_prop_def_ok prop_idx) as Hok.
  destruct (unicode_prop_def prop_idx) as [c1 c2|ops|m|].
  - destruct Hok as (H1 & H2 & H3).
    eapply (yields_cr_try (fun cr' => part (fun x => (c1 <=? x) && (x <? c2)) 0 0x110000 (cr_points cr'))).
    + eapply yields_mono; [apply (appends_interval (fun x => (c1 <=? x) && (x <? c2)) c1 c2 H2)|].
      * intros x Hx. destruct (Z.leb_spec c1 x), (Z.ltb_spec x c2); lia || done.
      * apply cr_init_wf.
      * change (cr_len cr_init) with 0. change CR_MAX with 268435456. lia.
      * intros r Hr. eapply cr_post_mono; [exact Hr|]. intros cr' (e & -> & He). cbn [cr_init cr_points app].
        assert (Hout : forall lo hi, (forall x, lo <= x < hi -> x < c1 \/ c2 <= x) -> forall x, lo <= x < hi ->
          (c1 <=? x) && (x <? c2) = false).
        { intros lo hi Hlh x Hx. destruct (Hlh x Hx); destruct (Z.leb_spec c1 x), (Z.ltb_spec x c2); lia || done. }
        rewrite <- (app_nil_r e). apply (part_app _ 0 c2); [lia|lia| |apply part_empty; [lia|]].
        -- rewrite <- (app_nil_l e). apply (part_app _ 0 c1); [lia|lia|apply part_empty; [lia|]|done].
           apply Hout. lia.
        -- apply Hout. lia.
    + intros cr h' Hwf Hp. cbn. split; [done|]. left. split; [done|]. destruct (part_denotes _ _ Hp). done.
  - destruct Hok as (R & n & He & Hn). rewrite He in Hden |- *. eapply Hden; [|by apply unicode_prop_ops_yields]. done.
  - eapply Hden; [done|by apply unicode_case1_yields].
  - specialize (Htab eq_refl). destruct (Z.geb_spec prop_idx (zlen unicode_prop_table)); [lia|].
    eapply Hden; [done|]. apply unicode_prop1_yields. unfold prop_idx in *.
    change (prop_code UNICODE_PROP_ASCII_Hex_Digit) with 16 in *. lia.
Qed.

Lemma unicode_prop_spec_witness :
  yields (@unicode_prop free_heap (cr_init, tt) (c_bytes "Dash")) (fun r =>
    r.1 = 0 /\ in_ranges (cr_points r.2.1) 45 = true \/ r.1 = -1).
Proof.
  eapply yields_mono; [apply (@unicode_prop_spec free_heap tt (c_bytes "Dash")); vm_compute; [discriminate|reflexivity]|].
  intros r [_ [[Hr [_ Hm]]|[Hr _]]]; [left|by right]. split; [exact Hr|].
  rewrite Hm by (split; [discriminate|reflexivity]). vm_compute. reflexivity.
Defined.

(** C23: [unicode_script], when the allocator grants its requests, builds the set of the
    characters of a script; with [is_ext], adds the characters that have the script among
    their extensions or, for Common and Inherited, removes those with any extension.
    (When a request is refused it need not return: see [unicode_script_hangs].) *)
Theorem unicode_script_spec `{Realloc} fuel h script_name is_ext :
  let idx := find_entry script_name (name_entries unicode_script_names) 0 in
  heap_total -> 0 <= idx ->
  yields (unicode_script fuel (cr_init, h) script_name is_ext) (fun r =>
    r.1 = 0 /\ cr_sorted (cr_points r.2.1) /\
    forall x, 0 <= x < 0x110000 -> in_ranges (cr_points r.2.1) x = script_set (idx + 1) is_ext x).
Proof.
  intros idx Ht Hidx. eapply yields_mono; [by apply unicode_script_yields; [|apply script_names_lookup|]|].
  intros r [Hr [D1 D2 D3]]. done.
Qed.

(** An allocator that grants every request. *)
Definition granting_heap : Realloc := {|
  heap := unit; heap_request := fun h _ => Some h; heap_free := fun h => h; heap_junk := fun _ _ => 0
|}.

Lemma unicode_script_spec_witness :
  yields (@unicode_script granting_heap 1 (cr_init, tt) (c_bytes "Grek") false) (fun r =>
    r.1 = 0 /\ in_ranges (cr_points r.2.1) 0x3b1 = true).
Proof.
  eapply yields_mono; [apply (@unicode_script_spec granting_heap 1 tt (c_bytes "Grek") false); [done|vm_compute; discriminate]|].
  intros r (Hr & _ & Hm). split; [exact Hr|]. rewrite Hm by (split; [discriminate|reflexivity]).
  vm_compute. reflexivity.
Defined.

(** With an allocator that refuses every request [unicode_script] does not return for the script Adlm: its label
    [fail] jumps to itself (and frees the ranges again at each turn). *)
Fact unicode_script_hangs fuel is_ext :
  @unicode_script (limited_heap 0) fuel (cr_init, tt) (c_bytes "Adlm") is_ext = Fuel.
Proof.
  unfold unicode_script. rewrite script_names_lookup. cbn [mbind outcome_bind].
  eval_closed (find_entry (c_bytes "Adlm") (name_entries unicode_script_names) 0).
  eval_closed (0 <? 0). cbn iota. change (0 + (script_code UNICODE_SCRIPT_Unknown + 1)) with 1.
  destruct is_ext; cbn [negb];
    (set (w := script_walk _ 1); assert (Ew : w = Ret (-1, (cr_init, tt))) by (vm_compute; reflexivity));
    rewrite Ew; cbn [mbind outcome_bind].
  - eval_closed (negb (-1 =? 0)). cbn iota. apply script_fail_diverges.
  - cbn [fst snd]. eval_closed (-1 =? 0). cbn iota. apply script_fail_diverges.
Qed.
