(* ===== verification/UnicodeNorm.v ===== *)
(** * libunicode.c: decomposition, composition and normalization

    The buffer of [unicode_normalize] is a [DynBuf] of 32-bit code points;
    [words] reads it back as the [int] array the code casts it to.  The array
    [res] of a decomposition is the list of the characters stored; the C
    return value is its length, 0 when there is no decomposition. *)

From S2P Require Import Prelude Cutils DynBuf UnicodeTables UnicodeIndex.

Definition UNICODE_DECOMP_LEN_MAX : Z := 18.

Inductive DecompTypeEnum :=
| DECOMP_TYPE_C1 | DECOMP_TYPE_L1 | DECOMP_TYPE_L2 | DECOMP_TYPE_L3 | DECOMP_TYPE_L4 | DECOMP_TYPE_L5
| DECOMP_TYPE_L6 | DECOMP_TYPE_L7 | DECOMP_TYPE_LL1 | DECOMP_TYPE_LL2 | DECOMP_TYPE_S1 | DECOMP_TYPE_S2
| DECOMP_TYPE_S3 | DECOMP_TYPE_S4 | DECOMP_TYPE_S5 | DECOMP_TYPE_I1 | DECOMP_TYPE_I2_0 | DECOMP_TYPE_I2_1
| DECOMP_TYPE_I3_1 | DECOMP_TYPE_I3_2 | DECOMP_TYPE_I4_1 | DECOMP_TYPE_I4_2 | DECOMP_TYPE_B1 | DECOMP_TYPE_B2
| DECOMP_TYPE_B3 | DECOMP_TYPE_B4 | DECOMP_TYPE_B5 | DECOMP_TYPE_B6 | DECOMP_TYPE_B7 | DECOMP_TYPE_B8
| DECOMP_TYPE_B18 | DECOMP_TYPE_LS2 | DECOMP_TYPE_PAT3 | DECOMP_TYPE_S2_UL | DECOMP_TYPE_LS2_UL.

(** The enumerator of a type field; [None]: no case of the switch. *)
Definition decomp_type (type : Z) : option DecompTypeEnum :=
  [DECOMP_TYPE_C1; DECOMP_TYPE_L1; DECOMP_TYPE_L2; DECOMP_TYPE_L3; DECOMP_TYPE_L4; DECOMP_TYPE_L5;
   DECOMP_TYPE_L6; DECOMP_TYPE_L7; DECOMP_TYPE_LL1; DECOMP_TYPE_LL2; DECOMP_TYPE_S1; DECOMP_TYPE_S2;
   DECOMP_TYPE_S3; DECOMP_TYPE_S4; DECOMP_TYPE_S5; DECOMP_TYPE_I1; DECOMP_TYPE_I2_0; DECOMP_TYPE_I2_1;
   DECOMP_TYPE_I3_1; DECOMP_TYPE_I3_2; DECOMP_TYPE_I4_1; DECOMP_TYPE_I4_2; DECOMP_TYPE_B1; DECOMP_TYPE_B2;
   DECOMP_TYPE_B3; DECOMP_TYPE_B4; DECOMP_TYPE_B5; DECOMP_TYPE_B6; DECOMP_TYPE_B7; DECOMP_TYPE_B8;
   DECOMP_TYPE_B18; DECOMP_TYPE_LS2; DECOMP_TYPE_PAT3; DECOMP_TYPE_S2_UL; DECOMP_TYPE_LS2_UL]
  !! Z.to_nat type.

Definition unicode_short_table : list Z := [0x2044; 0x2215].

Definition unicode_get_short_code (c : Z) : outcome Z :=
  if c <? 0x80 then mret c
  else if c <? 0x80 + 0x50 then mret (c - 0x80 + 0x300)
  else aget unicode_short_table (c - 0x80 - 0x50).

Definition unicode_get_lower_simple (c : Z) : Z :=
  if (c <? 0x100) || (0x410 <=? c) && (c <=? 0x42f) then c + 0x20 else c + 1.

Definition unicode_get16 (p : Z) : outcome Z :=
  b0 ← aget unicode_decomp_data p;
  b1 ← aget unicode_decomp_data (p + 1);
  mret (b0 .| (b1 << 8)).

(** [for(i = 0; i < l; i++)]: the characters [f i]; 0 ends the function with 0. *)
Fixpoint decomp_chars (n : nat) (i : Z) (f : Z -> outcome Z) : outcome (option (list Z)) :=
  match n with
  | O => mret (Some [])
  | S n =>
      c ← f i;
      if c =? 0 then mret None
      else r ← decomp_chars n (i + 1) f; mret (cons c <$> r)
  end.

(** The same loop without the test for 0. *)
Fixpoint decomp_chars_all (n : nat) (i : Z) (f : Z -> outcome Z) : outcome (list Z) :=
  match n with
  | O => mret []
  | S n => c ← f i; r ← decomp_chars_all n (i + 1) f; mret (c :: r)
  end.

Definition or_none (o : option (list Z)) : list Z := match o with Some l => l | None => [] end.

(** Cases [decomp_type_i] ([l] characters, the one at [p] incremented) and [decomp_type_b]. *)
Definition decomp_type_i (d l p delta : Z) : outcome (list Z) :=
  decomp_chars_all (Z.to_nat l) 0 (fun i =>
    c1 ← unicode_get16 (d + 2 * i); mret (if i =? p then c1 + delta else c1)).

Definition decomp_type_b (d l delta : Z) : outcome (list Z) :=
  c_min ← unicode_get16 d;
  let d := d + (2 + delta * l) in
  decomp_chars_all (Z.to_nat l) 0 (fun i =>
    c1 ← aget unicode_decomp_data (d + i); mret (if c1 =? 0xff then 0x20 else c1 + c_min)).

Definition unicode_decomp_entry (c idx code len type : Z) : outcome (list Z) :=
  d ← aget unicode_decomp_table2 idx;
  if type =? 0 then mret [d]
  else
    match decomp_type type with
    | Some (DECOMP_TYPE_L1 | DECOMP_TYPE_L2 | DECOMP_TYPE_L3 | DECOMP_TYPE_L4 | DECOMP_TYPE_L5
            | DECOMP_TYPE_L6 | DECOMP_TYPE_L7) =>
        let l := type - 1 + 1 in
        let d := d + (c - code) * l * 2 in
        or_none <$> decomp_chars (Z.to_nat l) 0 (fun i => unicode_get16 (d + 2 * i))
    | Some (DECOMP_TYPE_LL1 | DECOMP_TYPE_LL2) =>
        let l := type - 8 + 1 in
        let k := (c - code) * l in
        let p := len * l * 2 in
        or_none <$> decomp_chars (Z.to_nat l) 0 (fun i =>
          lo ← unicode_get16 (d + 2 * (k + i));
          hi ← aget unicode_decomp_data (d + (p + (k + i) / 4));
          mret (lo .| (((hi >> (((k + i) mod 4) * 2)) .& 3) << 16)))
    | Some (DECOMP_TYPE_S1 | DECOMP_TYPE_S2 | DECOMP_TYPE_S3 | DECOMP_TYPE_S4 | DECOMP_TYPE_S5) =>
        let l := type - 10 + 1 in
        let d := d + (c - code) * l in
        or_none <$> decomp_chars (Z.to_nat l) 0 (fun i =>
          b ← aget unicode_decomp_data (d + i); unicode_get_short_code b)
    | Some DECOMP_TYPE_I1 => decomp_type_i d 1 0 (c - code)
    | Some (DECOMP_TYPE_I2_0 | DECOMP_TYPE_I2_1 | DECOMP_TYPE_I3_1 | DECOMP_TYPE_I3_2
            | DECOMP_TYPE_I4_1 | DECOMP_TYPE_I4_2) =>
        let l := 2 + ((type - 16) >> 1) in
        let p := ((type - 16) .& 1) + b2z (l >? 2) in
        decomp_type_i d l p (c - code)
    | Some DECOMP_TYPE_B18 => decomp_type_b d 18 (c - code)
    | Some (DECOMP_TYPE_B1 | DECOMP_TYPE_B2 | DECOMP_TYPE_B3 | DECOMP_TYPE_B4 | DECOMP_TYPE_B5
            | DECOMP_TYPE_B6 | DECOMP_TYPE_B7 | DECOMP_TYPE_B8) =>
        decomp_type_b d (type - 22 + 1) (c - code)
    | Some DECOMP_TYPE_LS2 =>
        let d := d + (c - code) * 3 in
        c0 ← unicode_get16 d;
        if c0 =? 0 then mret []
        else
          b ← aget unicode_decomp_data (d + 2);
          c1 ← unicode_get_short_code b;
          mret [c0; c1]
    | Some DECOMP_TYPE_PAT3 =>
        c0 ← unicode_get16 d;
        c2 ← unicode_get16 (d + 2);
        c1 ← unicode_get16 (d + (4 + (c - code) * 2));
        mret [c0; c1; c2]
    | Some DECOMP_TYPE_S2_UL =>
        let c1 := c - code in
        let d := d + Z.ldiff c1 1 in
        b ← aget unicode_decomp_data d;
        c0 ← unicode_get_short_code b;
        let c0 := if negb (c1 .& 1 =? 0) then unicode_get_lower_simple c0 else c0 in
        b ← aget unicode_decomp_data (d + 1);
        c2 ← unicode_get_short_code b;
        mret [c0; c2]
    | Some DECOMP_TYPE_LS2_UL =>
        let c1 := c - code in
        let d := d + (c1 >> 1) * 3 in
        c0 ← unicode_get16 d;
        let c0 := if negb (c1 .& 1 =? 0) then unicode_get_lower_simple c0 else c0 in
        b ← aget unicode_decomp_data (d + 2);
        c2 ← unicode_get_short_code b;
        mret [c0; c2]
    | Some DECOMP_TYPE_C1 | None => mret []
    end.

(** Fields of an entry [v] of [unicode_decomp_table1]. *)
Definition dt_code (v : Z) : Z := v >> (32 - 18).
Definition dt_len (v : Z) : Z := (v >> (32 - 18 - 7)) .& 0x7f.
Definition dt_type (v : Z) : Z := (v >> (32 - 18 - 7 - 6)) .& 0x3f.

Definition unicode_decomp_char (c : Z) (is_compat1 : bool) : outcome (list Z) :=
  loop (S (length unicode_decomp_table1)) (fun st : Z * Z =>
    let '(idx_min, idx_max) := st in
    if idx_min <=? idx_max then
      let idx := (idx_max + idx_min) / 2 in
      v ← aget unicode_decomp_table1 idx;
      let code := dt_code v in
      let len := dt_len v in
      if c <? code then mret (inl (idx_min, idx - 1))
      else if c >=? code + len then mret (inl (idx + 1, idx_max))
      else
        let is_compat := v .& 1 in
        if b2z is_compat1 <? is_compat then mret (inr [])
        else inr <$> unicode_decomp_entry c idx code len (dt_type v)
    else mret (inr [])) (0, zlen unicode_decomp_table1 - 1).

(** The pair an entry [idx1] of [unicode_comp_table] composes, and the result [ch]. *)
Definition comp_entry (idx1 : Z) : outcome (Z * Z * Z) :=
  let d_idx := idx1 >> 6 in
  let d_offset := idx1 .& 0x3f in
  v ← aget unicode_decomp_table1 d_idx;
  let code := dt_code v in
  let ch := code + d_offset in
  pair ← unicode_decomp_entry ch d_idx code (dt_len v) (dt_type v);
  match pair with [p0; p1] => mret (p0, p1, ch) | _ => Undef end.

Definition unicode_compose_pair (c0 c1 : Z) : outcome Z :=
  loop (S (length unicode_comp_table)) (fun st : Z * Z =>
    let '(idx_min, idx_max) := st in
    if idx_min <=? idx_max then
      let idx := (idx_max + idx_min) / 2 in
      idx1 ← aget unicode_comp_table idx;
      e ← comp_entry idx1;
      let '(p0, p1, ch) := e in
      let d := s32 (c0 - p0) in
      let d := if d =? 0 then s32 (c1 - p1) else d in
      mret (if d <? 0 then inl (idx_min, idx - 1) else if d >? 0 then inl (idx + 1, idx_max) else inr ch)
    else mret (inr 0)) (0, zlen unicode_comp_table - 1).

(** One run of [unicode_cc_table]: the position behind it, [n], the type and its byte. *)
Definition cc_decode (p : Z) : outcome (Z * Z * (Z * Z)) :=
  b ← aget unicode_cc_table p;
  let p := p + 1 in
  let type := b >> 6 in
  let n := b .& 0x3f in
  r ← (if n <? 48 then mret (p, n)
       else if n <? 56 then
         b1 ← aget unicode_cc_table p;
         mret (p + 1, (((n - 48) << 8) .| b1) + 48)
       else
         b1 ← aget unicode_cc_table p;
         b2 ← aget unicode_cc_table (p + 1);
         mret (p + 2, (((n - 56) << 8) .| (b1 << 8) .| b2) + (48 + (1 << 11))));
  let '(p, n) := r in
  if type <=? 1 then v ← aget unicode_cc_table p; mret (p + 1, n, (type, v))
  else mret (p, n, (type, 0)).

(** The combining class of the character [c] of the run of type [type] at [code]. *)
Definition cc_value (code : Z) (tv : Z * Z) (c : Z) : Z :=
  let '(type, v) := tv in
  if type =? 0 then v
  else if type =? 1 then v + c - code
  else if type =? 2 then 0
  else 230.

Definition unicode_get_cc (c : Z) : outcome Z :=
  r ← get_index_pos c unicode_cc_index (zlen unicode_cc_index / 3);
  let '(pos, code) := r in
  if pos <? 0 then mret 0
  else
    loop (S (length unicode_cc_table)) (fun st : Z * Z =>
      let '(p, code) := st in
      d ← cc_decode p;
      let '(p, n, tv) := d in
      let c1 := u32 (code + n + 1) in
      mret (if c <? c1 then inr (cc_value code tv c) else inl (p, c1))) (pos, code).

(** The insertion loop of [sort_cc]: [while (k >= start)]. *)
Definition sort_cc_insert (buf : list Z) (start k cc1 : Z) : outcome (list Z * Z) :=
  loop (S (S (Z.to_nat (k - start)))) (fun st : list Z * Z =>
    let '(buf, k) := st in
    if k >=? start then
      ck ← aget buf k;
      cc ← unicode_get_cc ck;
      if cc <=? cc1 then mret (inr (buf, k))
      else buf ← aset buf (k + 1) ck; mret (inl (buf, k - 1))
    else mret (inr (buf, k))) (buf, k).

(** [while (j < len)]: the characters with a class not 0 from [start] on are inserted in order. *)
Definition sort_cc_run (buf : list Z) (len start j : Z) : outcome (list Z * Z) :=
  loop (S (Z.to_nat (len - j))) (fun st : list Z * Z =>
    let '(buf, j) := st in
    if j <? len then
      ch1 ← aget buf j;
      cc1 ← unicode_get_cc ch1;
      if cc1 =? 0 then mret (inr (buf, j))
      else
        r ← sort_cc_insert buf start (j - 1) cc1;
        let '(buf, k) := r in
        buf ← aset buf (k + 1) ch1;
        mret (inl (buf, j + 1))
    else mret (inr (buf, j))) (buf, j).

Definition sort_cc (buf : list Z) (len : Z) : outcome (list Z) :=
  loop (S (Z.to_nat len)) (fun st : list Z * Z =>
    let '(buf, i) := st in
    if i <? len then
      ci ← aget buf i;
      cc ← unicode_get_cc ci;
      if negb (cc =? 0) then
        r ← sort_cc_run buf len i (i + 1);
        let '(buf, j) := r in
        mret (inl (buf, j + 1))
      else mret (inl (buf, i + 1))
    else mret (inr buf)) (buf, 0).

(** Hangul composition, then the table. *)
Definition compose_pair (c0 c1 : Z) : outcome Z :=
  if (0x1100 <=? c0) && (c0 <? 0x1100 + 19) && (0x1161 <=? c1) && (c1 <? 0x1161 + 21) then
    mret (0xac00 + (c0 - 0x1100) * 588 + (c1 - 0x1161) * 28)
  else if (0xac00 <=? c0) && (c0 <? 0xac00 + 11172) && ((c0 - 0xac00) mod 28 =? 0) &&
          (0x11a7 <=? c1) && (c1 <? 0x11a7 + 28) then
    mret (c0 + c1 - 0x11a7)
  else unicode_compose_pair c0 c1.

Section Normalize.
Context `{Realloc}.

(** The errors of the buffer are recorded in it, not tested here. *)
Definition put_u32s (dbuf : DynBuf) (cs : list Z) : outcome DynBuf :=
  foldl (fun o c => dbuf ← o; r ← dbuf_put_u32 dbuf c; mret r.2) (Ret dbuf) cs.

Fixpoint to_nfd_rec (fuel : nat) (dbuf : DynBuf) (src : list Z) (is_compat : bool) : outcome DynBuf :=
  match fuel with
  | O => Fuel
  | S fuel =>
      foldl (fun o c =>
        dbuf ← o;
        if (0xac00 <=? c) && (c <? 0xd7a4) then
          let c := c - 0xac00 in
          let v := c mod 28 in
          put_u32s dbuf ([0x1100 + c / 588; 0x1161 + (c mod 588) / 28] ++
                         if negb (v =? 0) then [0x11a7 + v] else [])
        else
          res ← unicode_decomp_char c is_compat;
          match res with
          | [] => put_u32s dbuf [c]
          | _ => to_nfd_rec fuel dbuf res is_compat
          end) (Ret dbuf) src
  end.

Inductive UnicodeNormalizationEnum := UNICODE_NFC | UNICODE_NFD | UNICODE_NFKC | UNICODE_NFKD.

Definition is_compat_form (n_type : UnicodeNormalizationEnum) : bool :=
  match n_type with UNICODE_NFKC | UNICODE_NFKD => true | _ => false end.
Definition is_decomposed_form (n_type : UnicodeNormalizationEnum) : bool :=
  match n_type with UNICODE_NFD | UNICODE_NFKD => true | _ => false end.

(** The [int] array of a buffer of bytes. *)
Fixpoint words (bs : list Z) : list Z :=
  match bs with
  | b0 :: b1 :: b2 :: b3 :: bs => le_combine [b0; b1; b2; b3] :: words bs
  | _ => []
  end.

(** The search of the starter that [buf[i]] may compose with: its position, -1, or blocked ([None]). *)
Definition find_starter (buf : list Z) (starter_pos last_cc : Z) : outcome (option Z) :=
  loop (S (S (Z.to_nat starter_pos))) (fun st : Z * Z =>
    let '(starter_pos, last_cc) := st in
    if starter_pos >=? 0 then
      c ← aget buf starter_pos;
      cc ← unicode_get_cc c;
      mret (if cc =? 0 then inr (Some starter_pos)
            else if cc >=? last_cc then inr None
            else inl (starter_pos - 1, 256))
    else mret (inr (Some starter_pos))) (starter_pos, last_cc).

(** One turn of the composition loop: the buffer, [i] and [out_len]. *)
Definition compose_step (buf : list Z) (i out_len : Z) : outcome (list Z * Z * Z) :=
  ci ← aget buf i;
  last_cc ← unicode_get_cc ci;
  starter ← find_starter buf (out_len - 1) last_cc;
  let next := buf ← aset buf out_len ci; mret (buf, i + 1, out_len + 1) in
  match starter with
  | None => next
  | Some starter_pos =>
      if starter_pos >=? 0 then
        cs ← aget buf starter_pos;
        p ← compose_pair cs ci;
        if negb (p =? 0) then buf ← aset buf starter_pos p; mret (buf, i + 1, out_len)
        else next
      else next
  end.

Definition compose_loop (buf : list Z) (buf_len : Z) : outcome (list Z * Z) :=
  loop (S (Z.to_nat buf_len)) (fun st : list Z * Z * Z =>
    let '(buf, i, out_len) := st in
    if i <? buf_len then r ← compose_step buf i out_len; mret (inl r)
    else mret (inr (buf, out_len))) (buf, 1, 1).

(** The result: the C return value and the array stored in [*pdst] ([None]: [NULL]). *)
Definition unicode_normalize (fuel : nat) (src : list Z) (n_type : UnicodeNormalizationEnum) (opaque : heap)
    : outcome (Z * option (list Z)) :=
  let '(r, dbuf) := dbuf_realloc (dbuf_init2 opaque) (u64 (4 * zlen src)) in
  if negb (r =? 0) then mret (-1, None)
  else if match n_type with UNICODE_NFC => forallb (fun c => c <? 0x100) src | _ => false end then
    mret (zlen src, Some src)
  else
    dbuf ← to_nfd_rec fuel dbuf src (is_compat_form n_type);
    if db_error dbuf then mret (-1, None)
    else
      let buf := words (take (Z.to_nat (db_size dbuf)) (db_buf dbuf)) in
      let buf_len := db_size dbuf / 4 in
      buf ← sort_cc buf buf_len;
      if (buf_len <=? 1) || is_decomposed_form n_type then mret (buf_len, Some buf)
      else
        r ← compose_loop buf buf_len;
        let '(buf, out_len) := r in
        mret (out_len, Some (take (Z.to_nat out_len) buf)).
End Normalize.

Definition norm (src : list Z) (n_type : UnicodeNormalizationEnum) :=
  @unicode_normalize (limited_heap 1000000) 20 src n_type tt.
Example unicode_normalize_ex :
  (norm [0xe9; 0x301] UNICODE_NFD, norm [0x65; 0x301] UNICODE_NFC, norm [0xac01] UNICODE_NFD,
   norm [0x1100; 0x1161; 0x11a8] UNICODE_NFC, norm [0xfb01] UNICODE_NFKC, norm [0x1e9b; 0x323] UNICODE_NFKC)
  = (Ret (3, Some [0x65; 0x301; 0x301]), Ret (1, Some [0xe9]), Ret (3, Some [0x1100; 0x1161; 0x11a8]),
     Ret (1, Some [0xac01]), Ret (2, Some [0x66; 0x69]), Ret (1, Some [0x1e69])).
Proof. vm_compute. reflexivity. Qed.
