(* ===== verification/UnicodeNormSpec.v ===== *)
(** * Properties of the normalization of UnicodeNorm.v *)

From stdpp Require Import relations.
From S2P Require Import Prelude Cutils DynBuf UnicodeTables UnicodeIndex UnicodeRuns UnicodeNorm.

(** * Hangul *)

(** C31: the arithmetic decomposition of a Hangul syllable into a leading consonant, a
    vowel and possibly a trailing consonant is undone by [compose_pair]. *)
Theorem hangul_roundtrip c :
  0xac00 <= c < 0xd7a4 ->
  let s := c - 0xac00 in
  let l := 0x1100 + s / 588 in
  let v := 0x1161 + (s mod 588) / 28 in
  let t := 0x11a7 + s mod 28 in
  exists lv, compose_pair l v = Ret lv /\ (if s mod 28 =? 0 then lv = c else compose_pair lv t = Ret c).
Proof.
  intros Hc s l v t.
  pose proof (Z.div_mod s 588 ltac:(lia)). pose proof (Z.mod_pos_bound s 588 ltac:(lia)).
  pose proof (Z.div_mod (s mod 588) 28 ltac:(lia)). pose proof (Z.mod_pos_bound (s mod 588) 28 ltac:(lia)).
  pose proof (Z.mod_pos_bound s 28 ltac:(lia)).
  assert (Hm : (s mod 588) mod 28 = s mod 28).
  { rewrite (Z.div_mod s 588) at 2 by lia. replace 588 with (21 * 28) by lia.
    rewrite <- Z.mul_assoc, (Z.mul_comm 28), Z.mul_assoc, Z.add_comm, Z.mod_add by lia. done. }
  set (q := s / 588) in *. set (r := (s mod 588) / 28) in *.
  exists (0xac00 + q * 588 + r * 28). split.
  - unfold compose_pair.
    replace ((0x1100 <=? l) && (l <? 0x1100 + 19) && (0x1161 <=? v) && (v <? 0x1161 + 21)) with true.
    + cbn. f_equal. subst l v. lia.
    + symmetry. rewrite !andb_true_iff, !Z.leb_le, !Z.ltb_lt. subst l v. lia.
  - destruct (Z.eqb_spec (s mod 28) 0) as [E|Hne]; [lia|]. unfold compose_pair.
    replace ((0x1100 <=? 0xac00 + q * 588 + r * 28) && (0xac00 + q * 588 + r * 28 <? 0x1100 + 19) &&
      (0x1161 <=? t) && (t <? 0x1161 + 21)) with false.
    2:{ symmetry. rewrite (proj2 (Z.ltb_ge (0xac00 + q * 588 + r * 28) (0x1100 + 19))) by lia.
        by rewrite andb_false_r. }
    replace (0xac00 + q * 588 + r * 28 - 0xac00) with ((q * 21 + r) * 28) by lia. rewrite Z.mod_mul by lia.
    replace ((0xac00 <=? 0xac00 + q * 588 + r * 28) && (0xac00 + q * 588 + r * 28 <? 0xac00 + 11172) && (0 =? 0) &&
      (0x11a7 <=? t) && (t <? 0x11a7 + 28)) with true.
    + cbn. f_equal. subst t. lia.
    + symmetry. rewrite !andb_true_iff, !Z.leb_le, !Z.ltb_lt. subst t. repeat split; lia.
Qed.

Lemma hangul_roundtrip_witness :
  0xac00 <= 0xac01 < 0xd7a4 /\ exists lv, compose_pair 0x1100 0x1161 = Ret lv /\ compose_pair lv 0x11a8 = Ret 0xac01.
Proof. split; [lia|]. exact (hangul_roundtrip 0xac01 ltac:(lia)). Defined.

(** The vowel U+11A7 is swallowed behind U+AC00: it is no trailing consonant, yet [compose_pair]
    composes the two into U+AC00, and the normalization form C loses the character. *)
Fact hangul_tbase_lost :
  compose_pair 0xac00 0x11a7 = Ret 0xac00 /\ norm [0xac00; 0x11a7] UNICODE_NFC = Ret (1, Some [0xac00]).
Proof. vm_compute. auto. Qed.

(** * Combining classes *)

(** The combining class of a character, from the plain reading of the table. *)
Definition cc_of (x : Z) : outcome Z :=
  runs ← table_runs unicode_cc_table cc_decode;
  mret (match run_find runs 0 x with Some (c0, tv) => cc_value c0 tv x | None => 0 end).

Definition cc_index_check (r : outcome (list (Z * (Z * Z)))) : bool :=
  match r with
  | Ret all =>
      runs_good (fun tv => 0 <=? tv.2) r && (le24_at unicode_cc_index 26 =? runs_total all) &&
      forallz 0 26 (fun k => (0 <=? index_pos unicode_cc_index k) &&
        match runs_seek unicode_cc_table cc_decode (length unicode_cc_table) 0 0 (index_pos unicode_cc_index k) with
        | Some c => c =? index_code unicode_cc_index k
        | None => false
        end)
  | _ => false
  end.

Lemma cc_index_ok : cc_index_check (table_runs unicode_cc_table cc_decode) = true.
Proof. vm_compute. reflexivity. Qed.

(** The scan of a block. *)
Lemma cc_scan_spec c : forall f p code rs,
  runs_from unicode_cc_table cc_decode f p = Ret rs -> Forall (fun r => 1 <= r.1) rs ->
  0 <= p -> 0 <= code -> code <= c -> c < code + runs_total rs -> code + runs_total rs <= 0x110000 ->
  yields (loop (S (length unicode_cc_table)) (fun st : Z * Z =>
      let '(p, code) := st in
      d ← cc_decode p;
      let '(p, n, tv) := d in
      let c1 := u32 (code + n + 1) in
      mret (if c <? c1 then inr (cc_value code tv c) else inl (p, c1))) (p, code))
    (fun v => exists c0 tv, run_find rs code c = Some (c0, tv) /\ v = cc_value c0 tv c).
Proof.
  intros f p code rs Hr Hpos Hp Hcode Hc Hlt Hmax.
  apply (loop_yields _ (fun '(p', code') => 0 <= p' /\ exists f' rs',
      runs_from unicode_cc_table cc_decode f' p' = Ret rs' /\ Forall (fun r => 1 <= r.1) rs' /\
      0 <= code' /\ code' <= c /\ code' + runs_total rs' = code + runs_total rs /\
      run_find rs code c = run_find rs' code' c) (fun '(p', _) => Z.to_nat (zlen unicode_cc_table - p'))).
  - intros [p' code'] (Hp' & f' & rs' & Hr' & Hpos' & Hc0 & Hc' & Hsum & ->).
    destruct f' as [|f']; [done|]. cbn [runs_from] in Hr'.
    destruct (Z.ltb_spec p' (zlen unicode_cc_table)) as [Hlen|].
    2:{ injection Hr' as <-. cbn in Hsum. lia. }
    destruct (cc_decode p') as [[[p2 n] tv]| |]; [|done|done]. cbn [mbind outcome_bind] in Hr' |- *.
    destruct (Z.ltb_spec p' p2); [|done].
    destruct (runs_from unicode_cc_table cc_decode f' p2) as [rs2| |] eqn:E2; [|done|done]. injection Hr' as <-.
    apply list.Forall_cons in Hpos' as [Hn Hpos2]. cbn [fst] in Hn. rewrite runs_total_cons in Hsum. cbn [fst] in Hsum.
    pose proof (runs_total_nonneg _ Hpos2).
    rewrite (wrap_small 32) by (change (2 ^ 32) with 4294967296; lia). cbn [run_find].
    replace (code' + (n + 1)) with (code' + n + 1) by lia.
    destruct (Z.ltb_spec c (code' + n + 1)); cbn [yields mret outcome_ret].
    + eauto.
    + split; [|lia]. split; [lia|]. exists f', rs2. split_and!; [done|done|lia|lia|lia|done].
  - split; [done|]. exists f, rs. done.
  - zlia.
Qed.

(** What the check of the index establishes of the runs [all] of the table. *)
Record cc_indexed (all : list (Z * (Z * Z))) : Prop := {
  ci_runs : table_runs unicode_cc_table cc_decode = Ret all;
  ci_pos : Forall (fun r => 1 <= r.1) all;
  ci_nonneg : Forall (fun r => 0 <= r.2.2) all;
  ci_last : le24_at unicode_cc_index 26 = runs_total all;
  ci_total : runs_total all <= 0x110000;
  ci_block : forall k, 0 <= k < 26 -> 0 <= index_pos unicode_cc_index k /\ exists f rs,
    runs_from unicode_cc_table cc_decode f (index_pos unicode_cc_index k) = Ret rs /\ Forall (fun r => 1 <= r.1) rs /\
    runs_total all = index_code unicode_cc_index k + runs_total rs /\
    forall x, index_code unicode_cc_index k <= x -> run_find all 0 x = run_find rs (index_code unicode_cc_index k) x
}.

Lemma cc_indexed_of r : table_runs unicode_cc_table cc_decode = r -> cc_index_check r = true ->
  exists all, cc_indexed all.
Proof.
  intros Eall Hok. destruct r as [all| |]; [|discriminate|discriminate]. unfold cc_index_check in Hok.
  apply andb_true_iff in Hok as [[Hg Hlast%Z.eqb_eq]%andb_true_iff Hent].
  destruct (runs_good_spec _ _ Hg) as (all' & [= <-] & Hall & Htot).
  assert (Hpos : Forall (fun r => 1 <= r.1) all) by (eapply list.Forall_impl; [exact Hall|]; by intros ? []).
  assert (Hnn : Forall (fun r => 0 <= r.2.2) all) by
    (eapply list.Forall_impl; [exact Hall|]; by intros ? [_ ?%Z.leb_le]).
  exists all. constructor; [exact Eall|exact Hpos|exact Hnn|exact Hlast|exact Htot|].
  intros k Hk. pose proof (forallz_spec _ _ _ Hent k Hk) as Hb. cbn beta in Hb.
  apply andb_true_iff in Hb as [Hb0%Z.leb_le Hb]. split; [exact Hb0|].
  destruct (runs_seek _ _ _ _ _ _) as [c'|] eqn:Es; [|discriminate]. apply Z.eqb_eq in Hb. subst c'.
  destruct (runs_seek_spec _ _ _ _ _ _ _ _ _ Es Eall Hpos) as (_ & f & rs & H1 & H2 & H3 & H4).
  exists f, rs. split; [exact H1|]. split; [exact H2|]. split; [lia|exact H4].
Qed.

Lemma cc_indexed_ok : exists all, cc_indexed all.
Proof. exact (cc_indexed_of _ eq_refl cc_index_ok). Qed.

Lemma cc_index_len : zlen unicode_cc_index = 81.
Proof. vm_compute. reflexivity. Qed.

Lemma unicode_get_cc_indexed all c :
  cc_indexed all -> 0 <= c ->
  unicode_get_cc c = Ret (match run_find all 0 c with Some (c0, tv) => cc_value c0 tv c | None => 0 end).
Proof.
  intros [Eall Hpos _ Hlast Htot Hblock] Hc. apply yields_eq. unfold unicode_get_cc. rewrite cc_index_len.
  change (81 / 3) with 27. apply yields_bind.
  eapply yields_mono; [apply (get_index_pos_spec c unicode_cc_index 27 Hc); [lia|rewrite cc_index_len; lia]|].
  assert (Hcode : forall k, 0 <= index_code unicode_cc_index k).
  { intros k. apply Z.land_nonneg. right. vm_compute. discriminate. }
  change (27 - 1) with 26.
  intros [pos code] [(-> & -> & Hlt)|[(-> & Hge)|(Hlt & k & Hk & -> & -> & Hle)]].
  - eval_closed (0 <? 0). cbn iota. destruct (Hblock 0 ltac:(lia)) as (_ & f & rs & _ & Hrs & Hsum & _).
    pose proof (runs_total_nonneg _ Hrs).
    eapply yields_mono; [apply (cc_scan_spec c _ 0 0 all Eall Hpos); lia|].
    intros v (c0 & tv & -> & ->). reflexivity.
  - eval_closed (-1 <? 0). cbn [yields mret outcome_ret]. rewrite run_find_none; [reflexivity|exact Hpos|lia].
  - destruct (Hblock k ltac:(lia)) as (Hp & f & rs & Hr & Hrs & Hsum & Hfind).
    destruct (Z.ltb_spec (index_pos unicode_cc_index k) 0); [lia|].
    rewrite Hfind by exact Hle. pose proof (Hcode k).
    eapply yields_mono; [apply (cc_scan_spec c _ _ _ rs Hr Hrs); lia|].
    intros v (c0 & tv & -> & ->). reflexivity.
Qed.

(** C28: [unicode_get_cc] answers, for every code point, the combining class that the
    plain reading of the table gives; the dichotomy and the scan stay in their tables. *)
Theorem unicode_get_cc_spec c : 0 <= c -> unicode_get_cc c = cc_of c.
Proof.
  intros Hc. destruct cc_indexed_ok as [all Hall]. rewrite (unicode_get_cc_indexed all c Hall Hc).
  unfold cc_of. by rewrite (ci_runs all Hall).
Qed.

Lemma unicode_get_cc_spec_witness : 0 <= 0x301 /\ unicode_get_cc 0x301 = Ret 230.
Proof. split; [lia|]. rewrite (unicode_get_cc_spec 0x301); [vm_compute; reflexivity|lia]. Defined.

(** * Canonical ordering *)

(** The combining class as a function. *)
Definition ccz (c : Z) : Z := match cc_of c with Ret v => v | _ => 0 end.

Lemma unicode_get_cc_ccz c : 0 <= c -> unicode_get_cc c = Ret (ccz c).
Proof.
  intros Hc. destruct cc_indexed_ok as [all Hall]. rewrite (unicode_get_cc_indexed all c Hall Hc).
  unfold ccz, cc_of. by rewrite (ci_runs all Hall).
Qed.

Lemma ccz_nonneg c : 0 <= c -> 0 <= ccz c.
Proof.
  intros Hc. destruct cc_indexed_ok as [all Hall]. unfold ccz, cc_of. rewrite (ci_runs all Hall).
  cbn [mbind outcome_bind mret outcome_ret]. destruct (run_find all 0 c) as [[c0 [ty v]]|] eqn:E; [|lia].
  destruct (run_find_in _ _ _ _ _ Hc E) as [? [n Hin]].
  pose proof (proj1 (list.Forall_forall _ _) (ci_nonneg all Hall) _ Hin) as Hv. cbn in Hv. unfold cc_value.
  repeat case_match; lia.
Qed.
#[local] Opaque unicode_get_cc ccz.

(** One step of the Canonical Ordering Algorithm of Unicode: two adjacent characters, the
    second no starter, whose classes are in the wrong order, are exchanged. *)
Inductive canon_step : list Z -> list Z -> Prop :=
| canon_swap p x y s : ccz y <> 0 -> ccz y < ccz x -> canon_step (p ++ x :: y :: s) (p ++ y :: x :: s).

Definition canon_ordered (l : list Z) : Prop :=
  forall p x y s, l = p ++ x :: y :: s -> ccz y = 0 \/ ccz x <= ccz y.

Lemma canon_ordered_nf l : canon_ordered l <-> nf canon_step l.
Proof.
  split.
  - intros H [l' Hs]. inversion Hs; subst. destruct (H p x y s eq_refl); lia.
  - intros Hnf p x y s ->. destruct (decide (ccz y = 0)); [by left|]. right.
    destruct (Z_le_gt_dec (ccz x) (ccz y)); [done|]. exfalso. apply Hnf. eexists. constructor; lia.
Qed.

Lemma canon_step_perm l l' : canon_step l l' -> l ≡ₚ l'.
Proof. destruct 1. apply Permutation_app_head, Permutation_swap. Qed.

Lemma canon_steps_perm l l' : rtc canon_step l l' -> l ≡ₚ l'.
Proof. induction 1 as [|??? Hs%canon_step_perm]; [done|]. by etrans. Qed.

Lemma canon_steps_len l l' : rtc canon_step l l' -> length l' = length l.
Proof. intros H%canon_steps_perm. by rewrite H. Qed.

Lemma canon_steps_nonneg l l' : rtc canon_step l l' -> Forall (Z.le 0) l -> Forall (Z.le 0) l'.
Proof. intros H%canon_steps_perm. by rewrite H. Qed.

(** A character moves left over the characters of greater classes. *)
Lemma canon_move pre r x s : ccz x <> 0 -> Forall (fun y => ccz x < ccz y) r ->
  rtc canon_step (pre ++ r ++ x :: s) (pre ++ x :: r ++ s).
Proof.
  intros Hx. revert s. induction r as [|y r IH] using rev_ind; intros s Hr; [done|].
  apply Forall_app in Hr as [Hr Hy]. rewrite list.Forall_singleton in Hy. rewrite <- !app_assoc. cbn [app].
  eapply rtc_l.
  - rewrite app_assoc. constructor; [exact Hx|exact Hy].
  - rewrite <- app_assoc. by apply (IH (y :: s)).
Qed.

(** The insertion loop: [r] is cut before the characters of greater classes. *)
Lemma sort_cc_insert_spec a r x s :
  Forall (Z.le 0) (a ++ r ++ x :: s) ->
  yields (sort_cc_insert (a ++ r ++ x :: s) (zlen a) (zlen a + zlen r - 1) (ccz x)) (fun '(buf, k) =>
    exists r1 r2 g, r = r1 ++ r2 /\ Forall (fun y => ccz x < ccz y) r2 /\
      (forall r1' z, r1 = r1' ++ [z] -> ccz z <= ccz x) /\
      buf = a ++ r1 ++ g :: r2 ++ s /\ k = zlen a + zlen r1 - 1).
Proof.
  intros Hnn. unfold sort_cc_insert.
  apply (loop_yields _ (fun '(buf, k) => exists r1 r2 g, r = r1 ++ r2 /\
      Forall (fun y => ccz x < ccz y) r2 /\ buf = a ++ r1 ++ g :: r2 ++ s /\ k = zlen a + zlen r1 - 1)
    (fun '(_, k) => Z.to_nat (k - zlen a + 1))).
  - intros [buf k] (r1 & r2 & g & Hr & Hr2 & -> & ->). rewrite Z.geb_leb.
    destruct (Z.leb_spec (zlen a) (zlen a + zlen r1 - 1)) as [Hk|Hk].
    2:{ cbn [yields mret outcome_ret]. exists r1, r2, g. split; [exact Hr|]. split; [exact Hr2|]. split; [|auto].
        intros r1' z ->. rewrite zlen_app in Hk. pose proof (zlen_nonneg r1'). zlia. }
    destruct r1 as [|y r1 _] using rev_ind; [rewrite zlen_nil in Hk; lia|].
    rewrite zlen_app in *. change (zlen [y]) with 1.
    replace (a ++ (r1 ++ [y]) ++ g :: r2 ++ s) with ((a ++ r1) ++ y :: g :: r2 ++ s) by (by rewrite <- !app_assoc).
    rewrite (aget_at (a ++ r1)) by (rewrite zlen_app; lia). cbn [mbind outcome_bind].
    assert (0 <= y).
    { subst r. rewrite !Forall_app, !list.Forall_cons in Hnn. tauto. }
    rewrite unicode_get_cc_ccz by done. cbn [mbind outcome_bind].
    destruct (Z.leb_spec (ccz y) (ccz x)) as [Hle|Hlt].
    + cbn [yields mret outcome_ret]. exists (r1 ++ [y]), r2, g. rewrite zlen_app. split; [exact Hr|]. split; [exact Hr2|]. split; [|split; [|auto]].
      * intros r1' z [_ <-]%app_inj_tail. exact Hle.
      * by rewrite <- !app_assoc.
    + replace ((a ++ r1) ++ y :: g :: r2 ++ s) with ((a ++ r1 ++ [y]) ++ g :: r2 ++ s) by (by rewrite <- !app_assoc).
      rewrite (aset_at (a ++ r1 ++ [y])) by (rewrite !zlen_app; change (zlen [y]) with 1; lia).
      cbn [mbind outcome_bind yields mret outcome_ret]. split; [|zlia].
      exists r1, (y :: r2), y. split_and!; [by rewrite Hr, <- app_assoc|by constructor| |lia].
      by rewrite <- !app_assoc.
  - exists r, [], x. rewrite app_nil_r. auto.
  - zlia.
Qed.

Lemma canon_ordered_app l1 l2 :
  canon_ordered l1 -> canon_ordered l2 ->
  (forall l1' z y l2', l1 = l1' ++ [z] -> l2 = y :: l2' -> ccz y = 0 \/ ccz z <= ccz y) ->
  canon_ordered (l1 ++ l2).
Proof.
  intros H1 H2 Hg p x y s E. apply app_eq_inv in E as [(k & -> & E)|(k & -> & E)].
  - destruct k as [|a [|b k]]; cbn in E.
    + by apply (H2 [] x y s).
    + injection E as -> <-. by eapply Hg.
    + injection E as -> -> E. subst s. by apply (H1 p a b k).
  - by apply (H2 k x y s).
Qed.

Lemma canon_ordered_sub a l b : canon_ordered (a ++ l ++ b) -> canon_ordered l.
Proof. intros H p x y s ->. apply (H (a ++ p) x y (s ++ b)). by rewrite <- !app_assoc. Qed.

Lemma canon_ordered_one x : canon_ordered [x].
Proof. intros [|? [|??]] ???; discriminate. Qed.

Lemma canon_ordered_nil : canon_ordered [].
Proof. intros [|??] ???; discriminate. Qed.

Lemma canon_ordered_insert r1 r2 x :
  canon_ordered (r1 ++ r2) -> Forall (fun y => ccz x < ccz y) r2 ->
  (forall r1' z, r1 = r1' ++ [z] -> ccz z <= ccz x) -> canon_ordered (r1 ++ x :: r2).
Proof.
  intros H Hr2 Hr1. apply canon_ordered_app.
  - by apply (canon_ordered_sub [] r1 r2).
  - apply (canon_ordered_app [x] r2).
    + apply canon_ordered_one.
    + apply (canon_ordered_sub r1 r2 []). by rewrite app_nil_r.
    + intros l1' z y l2' E ->. destruct l1' as [|? [|]]; [|discriminate..]. injection E as <-.
      apply list.Forall_cons in Hr2. right. lia.
  - intros l1' z y l2' -> [= <- _]. right. by eapply Hr1.
Qed.

(** The state of a run: behind [a], the run [r] in order, then [t]; the whole is reached
    from [buf0] by exchanges. *)
Record cc_run (buf0 a r t : list Z) : Prop := {
  cr_steps : rtc canon_step buf0 (a ++ r ++ t);
  cr_nz : Forall (fun x => ccz x <> 0) r;
  cr_ord : canon_ordered r
}.

(** One insertion extends the run. *)
Lemma sort_cc_insert_run buf0 a r x t :
  Forall (Z.le 0) buf0 -> cc_run buf0 a r (x :: t) -> ccz x <> 0 ->
  yields (r0 ← sort_cc_insert (a ++ r ++ x :: t) (zlen a) (zlen a + zlen r - 1) (ccz x);
          let '(buf, k) := r0 in aset buf (k + 1) x)
    (fun buf => exists r', buf = a ++ r' ++ t /\ cc_run buf0 a r' t /\ zlen r' = zlen r + 1).
Proof.
  intros Hnn [Hs Hnz Hord] Hx. apply yields_bind.
  eapply yields_mono; [apply sort_cc_insert_spec; by eapply canon_steps_nonneg|].
  intros [buf k] (r1 & r2 & g & -> & Hr2 & Hr1 & -> & ->).
  replace (a ++ r1 ++ g :: r2 ++ t) with ((a ++ r1) ++ g :: r2 ++ t) by (by rewrite <- !app_assoc).
  rewrite aset_at by (rewrite zlen_app; lia). cbn [yields].
  exists (r1 ++ x :: r2). split_and!; [by rewrite <- !app_assoc| |rewrite !zlen_app, zlen_cons; lia].
  constructor.
  - etrans; [exact Hs|]. rewrite <- !app_assoc. cbn [app].
    pose proof (canon_move (a ++ r1) r2 x t Hx Hr2) as Hm. by rewrite <- !app_assoc in Hm.
  - rewrite Forall_app in Hnz. destruct Hnz as [Hn1 Hn2]. apply Forall_app. split; [exact Hn1|]. by constructor.
  - by apply canon_ordered_insert.
Qed.

Lemma sort_cc_run_spec buf0 a r t :
  Forall (Z.le 0) buf0 -> cc_run buf0 a r t ->
  yields (sort_cc_run (a ++ r ++ t) (zlen (a ++ r ++ t)) (zlen a) (zlen a + zlen r)) (fun '(buf, j) =>
    exists r' t', buf = a ++ r' ++ t' /\ cc_run buf0 a r' t' /\ j = zlen a + zlen r' /\
      (forall y t1, t' = y :: t1 -> ccz y = 0)).
Proof.
  intros Hnn Hrun. unfold sort_cc_run. set (len := zlen (a ++ r ++ t)).
  apply (loop_yields _ (fun '(buf, j) => exists r' t', buf = a ++ r' ++ t' /\ cc_run buf0 a r' t' /\
      j = zlen a + zlen r' /\ zlen a + zlen r' + zlen t' = len) (fun '(_, j) => Z.to_nat (len - j))).
  - intros [buf j] (r' & t' & -> & Hr' & -> & Hlen).
    destruct t' as [|x t'].
    + rewrite zlen_nil in Hlen. rewrite (proj2 (Z.ltb_ge _ _)) by lia. cbn [yields mret outcome_ret].
      exists r', []. do 3 (split; [by auto|]). intros ?? [=].
    + rewrite zlen_cons in Hlen. pose proof (zlen_nonneg t'). rewrite (proj2 (Z.ltb_lt _ _)) by lia.
      assert (0 <= x).
      { pose proof (canon_steps_nonneg _ _ (cr_steps _ _ _ _ Hr') Hnn) as Hx.
        rewrite !Forall_app, list.Forall_cons in Hx. tauto. }
      replace (a ++ r' ++ x :: t') with ((a ++ r') ++ x :: t') at 1 by (by rewrite <- app_assoc).
      rewrite aget_at by (rewrite zlen_app; lia). cbn [mbind outcome_bind].
      rewrite unicode_get_cc_ccz by done. cbn [mbind outcome_bind].
      destruct (Z.eqb_spec (ccz x) 0) as [E0|Hx0].
      * cbn [yields mret outcome_ret]. exists r', (x :: t'). do 3 (split; [by auto|]). by intros ?? [= <- _].
      * pose proof (sort_cc_insert_run buf0 a r' x t' Hnn Hr' Hx0) as Hi. apply yields_bind.
        apply yields_bind_inv in Hi. eapply yields_mono; [exact Hi|]. intros [buf k] Hk. apply yields_bind.
        eapply yields_mono; [exact Hk|]. intros ? (r2 & -> & Hr2 & Hl). cbn [yields mret outcome_ret].
        split; [|lia]. exists r2, t'. do 2 (split; [by auto|]). lia.
  - exists r, t. do 3 (split; [by auto|]). subst len. rewrite !zlen_app. lia.
  - lia.
Qed.

(** C25: [sort_cc] is the Canonical Ordering Algorithm: it returns, stays in its buffer, and
    its result is reached from the input by exchanging adjacent characters in the wrong
    order until none is left; in particular characters of equal class and starters keep their order. *)
Theorem sort_cc_spec buf :
  Forall (Z.le 0) buf ->
  yields (sort_cc buf (zlen buf)) (fun buf' => rtc canon_step buf buf' /\ nf canon_step buf').
Proof.
  intros Hnn. unfold sort_cc. set (len := zlen buf).
  (* [a] is done; it is empty or ends with a starter *)
  apply (loop_yields _ (fun '(b, i) => exists a t, b = a ++ t /\ rtc canon_step buf b /\ canon_ordered a /\
      ((i = zlen a /\ forall a' z, a = a' ++ [z] -> ccz z = 0) \/ t = [] /\ i >= zlen a))
    (fun '(_, i) => Z.to_nat (len - i))).
  - intros [b i] (a & t & -> & Hs & Ha & Hi).
    assert (Hl : zlen (a ++ t) = len) by (unfold len, zlen; by rewrite (canon_steps_len _ _ Hs)).
    assert (Hend : t = [] -> nf canon_step (a ++ t)) by (intros ->; by rewrite app_nil_r; apply canon_ordered_nf).
    destruct t as [|x t].
    { rewrite app_nil_r in Hl. rewrite (proj2 (Z.ltb_ge i len)) by (destruct Hi as [[]|[]]; lia).
      cbn [yields mret outcome_ret]. auto. }
    destruct Hi as [[-> Hz]|[? ?]]; [|done].
    rewrite zlen_app, zlen_cons in Hl. pose proof (zlen_nonneg t). rewrite (proj2 (Z.ltb_lt _ _)) by lia.
    rewrite aget_middle. cbn [mbind outcome_bind].
    assert (0 <= x).
    { pose proof (canon_steps_nonneg _ _ Hs Hnn) as Hx. rewrite Forall_app, list.Forall_cons in Hx. tauto. }
    rewrite unicode_get_cc_ccz by done. cbn [mbind outcome_bind].
    destruct (Z.eqb_spec (ccz x) 0) as [E0|Hx0]; cbn [negb].
    + cbn [yields mret outcome_ret]. split; [|lia]. exists (a ++ [x]), t. split_and!.
      * by rewrite <- app_assoc.
      * done.
      * apply canon_ordered_app; [done|apply canon_ordered_one|]. intros ???? _ [= <- _]. by left.
      * left. rewrite zlen_app, zlen_cons, zlen_nil. split; [lia|]. by intros ?? [_ [= <-]]%app_inj_tail.
    + assert (Hrun : cc_run buf a [x] t).
      { constructor; [done|by constructor|apply canon_ordered_one]. }
      pose proof (sort_cc_run_spec buf a [x] t Hnn Hrun) as Hr.
      rewrite !zlen_app, (zlen_cons x []), zlen_nil in Hr.
      replace (zlen a + (0 + 1 + zlen t)) with len in Hr by lia.
      replace (zlen a + (0 + 1)) with (zlen a + 1) in Hr by lia. apply yields_bind.
      eapply yields_mono; [exact Hr|].
      intros [? j] (r' & t' & -> & [Hs' Hnz Hord] & -> & Ht'). cbn [yields mret outcome_ret].
      pose proof (zlen_nonneg r'). split; [|lia].
      assert (Har : canon_ordered (a ++ r')).
      { apply canon_ordered_app; [done|done|]. intros a' z y r2 -> ->. right. rewrite (Hz a' z eq_refl).
        apply ccz_nonneg. pose proof (canon_steps_nonneg _ _ Hs' Hnn) as Hy.
        rewrite !Forall_app, !list.Forall_cons in Hy. tauto. }
      destruct t' as [|y t'].
      * exists (a ++ r'), []. rewrite !app_nil_r in *. do 3 (split; [by auto|]). right. rewrite zlen_app. split; [done|lia].
      * exists (a ++ r' ++ [y]), t'. split_and!.
        -- by rewrite <- !app_assoc.
        -- done.
        -- rewrite app_assoc. apply canon_ordered_app; [done|apply canon_ordered_one|]. intros ???? _ [= <- _].
           left. by eapply Ht'.
        -- left. rewrite !zlen_app, zlen_cons, zlen_nil. split; [lia|]. rewrite app_assoc.
           intros ?? [_ [= <-]]%app_inj_tail. by eapply Ht'.
  - exists [], buf. split_and!; [done|done|apply canon_ordered_nil|]. left. split; [done|]. intros a' z Ea. by destruct a'.
  - lia.
Qed.

Lemma sort_cc_spec_witness :
  Forall (Z.le 0) [0x61; 0x301; 0x323; 0x62] /\
  exists buf', sort_cc [0x61; 0x301; 0x323; 0x62] 4 = Ret buf' /\ nf canon_step buf'.
Proof.
  assert (H : Forall (Z.le 0) [0x61; 0x301; 0x323; 0x62]) by (repeat constructor; lia). split; [exact H|].
  pose proof (sort_cc_spec _ H) as Hy. apply yields_Ret in Hy as (b & E & _ & Hn). exists b. split; [exact E|exact Hn].
Defined.
