(* ===== verification/RegexpExec.v ===== *)
(** * libregexp.c: the backtracking matcher

    The text [cbuf] is a list of code units (8-bit characters or 16-bit units), a text
    pointer the index of a unit; the 16-bit units of the C array are two bytes
    wide, which only scales the pointers.  The bytecode is a list of bytes, [pc] an
    index into it.  [capture] holds [None] for [NULL].  The stack of the saved
    states is a list, the top first; its allocation is accounted for by
    [state_stack_size] and the allocator.  The C [goto]s are the calls of
    [unwind] (labels [no_match] and [recurse]). *)

From S2P Require Import Prelude Cutils DynBuf UnicodeCase.

Inductive REOPCodeEnum :=
| REOP_invalid | REOP_char | REOP_char32 | REOP_dot | REOP_any | REOP_line_start | REOP_line_end
| REOP_goto | REOP_split_goto_first | REOP_split_next_first | REOP_match | REOP_save_start
| REOP_save_end | REOP_save_reset | REOP_loop | REOP_push_i32 | REOP_drop | REOP_word_boundary
| REOP_not_word_boundary | REOP_back_reference | REOP_backward_back_reference | REOP_range
| REOP_range32 | REOP_lookahead | REOP_negative_lookahead | REOP_push_char_pos
| REOP_bne_char_pos | REOP_prev | REOP_simple_greedy_quant.

#[export] Instance REOPCodeEnum_eq_dec : EqDecision REOPCodeEnum.
Proof. solve_decision. Defined.

(** The opcodes in the order of their numbers. *)
Definition reop_all : list REOPCodeEnum :=
  [REOP_invalid; REOP_char; REOP_char32; REOP_dot; REOP_any; REOP_line_start; REOP_line_end;
   REOP_goto; REOP_split_goto_first; REOP_split_next_first; REOP_match; REOP_save_start;
   REOP_save_end; REOP_save_reset; REOP_loop; REOP_push_i32; REOP_drop; REOP_word_boundary;
   REOP_not_word_boundary; REOP_back_reference; REOP_backward_back_reference; REOP_range;
   REOP_range32; REOP_lookahead; REOP_negative_lookahead; REOP_push_char_pos;
   REOP_bne_char_pos; REOP_prev; REOP_simple_greedy_quant].

Definition reop_code (op : REOPCodeEnum) : Z :=
  match op with
  | REOP_invalid => 0 | REOP_char => 1 | REOP_char32 => 2 | REOP_dot => 3 | REOP_any => 4
  | REOP_line_start => 5 | REOP_line_end => 6 | REOP_goto => 7 | REOP_split_goto_first => 8
  | REOP_split_next_first => 9 | REOP_match => 10 | REOP_save_start => 11 | REOP_save_end => 12
  | REOP_save_reset => 13 | REOP_loop => 14 | REOP_push_i32 => 15 | REOP_drop => 16
  | REOP_word_boundary => 17 | REOP_not_word_boundary => 18 | REOP_back_reference => 19
  | REOP_backward_back_reference => 20 | REOP_range => 21 | REOP_range32 => 22
  | REOP_lookahead => 23 | REOP_negative_lookahead => 24 | REOP_push_char_pos => 25
  | REOP_bne_char_pos => 26 | REOP_prev => 27 | REOP_simple_greedy_quant => 28
  end.

(** The opcode of a byte; [None]: no enumerator below [REOP_COUNT]. *)
Definition reop_of (b : Z) : option REOPCodeEnum := if b <? 0 then None else reop_all !! Z.to_nat b.

(** [reopcode_info[op].size] *)
Definition reop_size (op : REOPCodeEnum) : Z :=
  match op with
  | REOP_char => 3 | REOP_char32 => 5
  | REOP_goto | REOP_split_goto_first | REOP_split_next_first | REOP_loop | REOP_push_i32 => 5
  | REOP_save_start | REOP_save_end | REOP_back_reference | REOP_backward_back_reference => 2
  | REOP_save_reset | REOP_range | REOP_range32 => 3
  | REOP_lookahead | REOP_negative_lookahead | REOP_bne_char_pos => 5
  | REOP_simple_greedy_quant => 17
  | _ => 1
  end.

Definition RE_HEADER_FLAGS : Z := 0.
Definition RE_HEADER_CAPTURE_COUNT : Z := 1.
Definition RE_HEADER_STACK_SIZE : Z := 2.
Definition RE_HEADER_LEN : Z := 7.
Definition CAPTURE_COUNT_MAX : Z := 255.
Definition STACK_SIZE_MAX : Z := 255.

Definition LRE_FLAG_IGNORECASE : Z := 1 << 1.
Definition LRE_FLAG_MULTILINE : Z := 1 << 2.
Definition LRE_FLAG_DOTALL : Z := 1 << 3.
Definition LRE_FLAG_UTF16 : Z := 1 << 4.
Definition LRE_FLAG_STICKY : Z := 1 << 5.
Definition LRE_FLAG_NAMED_GROUPS : Z := 1 << 7.

Definition CP_LS : Z := 0x2028.
Definition CP_PS : Z := 0x2029.

Definition is_line_terminator (c : Z) : bool := (c =? 10) || (c =? 13) || (c =? CP_LS) || (c =? CP_PS).

Definition is_word_char (c : Z) : bool :=
  (48 <=? c) && (c <=? 57) || (97 <=? c) && (c <=? 122) || (65 <=? c) && (c <=? 90) || (c =? 95).

(** ** Characters of the text *)

Definition is_hi (c : Z) : bool := (0xd800 <=? c) && (c <? 0xdc00).
Definition is_lo (c : Z) : bool := (0xdc00 <=? c) && (c <? 0xe000).
Definition surrogate_pair (hi lo : Z) : Z := (((hi .& 0x3ff) << 10) .| (lo .& 0x3ff)) + 0x10000.

(** The character at [cptr] and the pointer behind it. *)
Definition GET_CHAR (cbuf : list Z) (cbuf_type cptr cbuf_end : Z) : outcome (Z * Z) :=
  c ← aget cbuf cptr;
  let cptr := cptr + 1 in
  if is_hi c && (cbuf_type =? 2) && (cptr <? cbuf_end) then
    c1 ← aget cbuf cptr;
    mret (if is_lo c1 then (surrogate_pair c c1, cptr + 1) else (c, cptr))
  else mret (c, cptr).

Definition PEEK_CHAR (cbuf : list Z) (cbuf_type cptr cbuf_end : Z) : outcome Z :=
  c ← aget cbuf cptr;
  if is_hi c && (cbuf_type =? 2) && (cptr + 1 <? cbuf_end) then
    c1 ← aget cbuf (cptr + 1);
    mret (if is_lo c1 then surrogate_pair c c1 else c)
  else mret c.

Definition PEEK_PREV_CHAR (cbuf : list Z) (cbuf_type cptr cbuf_start : Z) : outcome Z :=
  c ← aget cbuf (cptr - 1);
  if is_lo c && (cbuf_type =? 2) && (cptr - 2 >=? cbuf_start) then
    c1 ← aget cbuf (cptr - 2);
    mret (if is_hi c1 then surrogate_pair c1 c else c)
  else mret c.

Definition GET_PREV_CHAR (cbuf : list Z) (cbuf_type cptr cbuf_start : Z) : outcome (Z * Z) :=
  let cptr := cptr - 1 in
  c ← aget cbuf cptr;
  if is_lo c && (cbuf_type =? 2) && (cptr >? cbuf_start) then
    c1 ← aget cbuf (cptr - 1);
    mret (if is_hi c1 then (surrogate_pair c1 c, cptr - 1) else (c, cptr))
  else mret (c, cptr).

(** Decrementing a pointer to the start of the text is undefined, also where the C code
    does not read there. *)
Definition PREV_CHAR (cbuf : list Z) (cbuf_type cptr cbuf_start : Z) : outcome Z :=
  let cptr := cptr - 1 in
  c ← aget cbuf cptr;
  if (cbuf_type =? 2) && is_lo c && (cptr >? cbuf_start) then
    c1 ← aget cbuf (cptr - 1);
    mret (if is_hi c1 then cptr - 1 else cptr)
  else mret cptr.

(** ** The state of a match *)

Inductive REExecStateEnum :=
| RE_EXEC_STATE_SPLIT | RE_EXEC_STATE_LOOKAHEAD | RE_EXEC_STATE_NEGATIVE_LOOKAHEAD | RE_EXEC_STATE_GREEDY_QUANT.

Record REExecState := MkREExecState {
  rs_type : REExecStateEnum;
  rs_count : Z;
  rs_cptr : Z;
  rs_pc : Z;
  rs_capture : list (option Z);
  rs_stack : list Z
}.

(** The parts of [REExecContext] that a match does not change, and the bytecode. *)
Record REExecContext := MkREExecContext {
  re_code : list Z;
  cbuf : list Z;
  cbuf_type : Z;
  capture_count : Z;
  stack_size_max : Z;
  multi_line : bool;
  ignore_case : bool;
  is_utf16 : bool
}.

Definition cbuf_end (s : REExecContext) : Z := zlen (cbuf s).

Section Exec.
Context `{Realloc}.

(** What a match changes: the captures, the stack (the top last), the saved states and their allocation. *)
Record REMatch := MkREMatch {
  m_capture : list (option Z);
  m_stack : list Z;
  m_states : list REExecState;
  m_state_stack_size : Z;
  m_opaque : heap
}.

Definition m_set_capture (m : REMatch) (c : list (option Z)) : REMatch :=
  MkREMatch c (m_stack m) (m_states m) (m_state_stack_size m) (m_opaque m).
Definition m_set_stack (m : REMatch) (st : list Z) : REMatch :=
  MkREMatch (m_capture m) st (m_states m) (m_state_stack_size m) (m_opaque m).
Definition m_set_states (m : REMatch) (ss : list REExecState) : REMatch :=
  MkREMatch (m_capture m) (m_stack m) ss (m_state_stack_size m) (m_opaque m).

(** [intptr_t] results: -1, 0, 1, or the pointer of a match with [no_recurse]. *)
Inductive REResult := RE_error | RE_no_match | RE_match | RE_ptr (cptr : Z).

(** [sizeof(REExecState) + capture_count * sizeof(capture[0]) * 2 + stack_size_max * sizeof(stack_buf[0])] *)
Definition state_size (s : REExecContext) : Z := 32 + capture_count s * 16 + stack_size_max s * 8.

(** The answer is false when the allocator refuses to grow the stack of states. *)
Definition push_state (s : REExecContext) (m : REMatch) (pc cptr : Z) (type : REExecStateEnum) (count : Z) : bool * REMatch :=
  let grown :=
    if zlen (m_states m) + 1 >? m_state_stack_size m then
      let new_size := u64 (m_state_stack_size m * 3) / 2 in
      let new_size := if new_size <? 8 then 8 else new_size in
      match heap_request (m_opaque m) (u64 (new_size * state_size s)) with
      | None => None
      | Some h => Some (MkREMatch (m_capture m) (m_stack m) (m_states m) new_size h)
      end
    else Some m in
  match grown with
  | None => (false, m)
  | Some m => (true, m_set_states m (MkREExecState type count cptr pc (m_capture m) (m_stack m) :: m_states m))
  end.

(** A configuration: the state of the match with [pc] and [cptr]. *)
Definition config : Type := REMatch * Z * Z.

Fixpoint prev_chars (s : REExecContext) (n : nat) (cptr : Z) : outcome Z :=
  match n with
  | O => mret cptr
  | S n => cptr ← PREV_CHAR (cbuf s) (cbuf_type s) cptr 0; prev_chars s n cptr
  end.

(** The label [recurse] with the value of [ret]: back to the latest state that
    takes over, or the end of the match. *)
Fixpoint unwind (s : REExecContext) (ret : bool) (m : REMatch) (states : list REExecState)
    : outcome (config + REResult * REMatch) :=
  match states with
  | [] => mret (inr (if ret then RE_match else RE_no_match, m_set_states m []))
  | rs :: rest =>
      let pop_state1 m := mret (inl (m_set_states (m_set_stack m (rs_stack rs)) rest, rs_pc rs, rs_cptr rs)) in
      let pop_state := pop_state1 (m_set_capture m (rs_capture rs)) in
      match rs_type rs with
      | RE_EXEC_STATE_SPLIT => if negb ret then pop_state else unwind s ret m rest
      | RE_EXEC_STATE_GREEDY_QUANT =>
          if negb ret then
            let pc := rs_pc rs in
            char_count ← get_u32 (re_code s) (pc + 12);
            cptr ← prev_chars s (Z.to_nat char_count) (rs_cptr rs);
            next ← get_u32 (re_code s) pc;
            let count := u64 (rs_count rs - 1) in
            let states :=
              if count =? 0 then rest
              else MkREExecState RE_EXEC_STATE_GREEDY_QUANT count cptr pc (rs_capture rs) (rs_stack rs) :: rest in
            mret (inl (m_set_states (m_set_stack (m_set_capture m (rs_capture rs)) (rs_stack rs)) states,
                       pc + 16 + s32 next, cptr))
          else unwind s ret m rest
      | RE_EXEC_STATE_LOOKAHEAD => if ret then pop_state1 m else unwind s false m rest
      | RE_EXEC_STATE_NEGATIVE_LOOKAHEAD => if negb ret then pop_state else unwind s false m rest
      end
  end.

Definition no_match (s : REExecContext) (no_recurse : bool) (m : REMatch) : outcome (config + REResult * REMatch) :=
  if no_recurse then mret (inr (RE_no_match, m)) else unwind s false m (m_states m).

(** Push a state and go on at [pc]. *)
Definition push_goto (s : REExecContext) (m : REMatch) (pc1 cptr1 : Z) (type : REExecStateEnum) (count pc cptr : Z)
    : outcome (config + REResult * REMatch) :=
  let '(ok, m) := push_state s m pc1 cptr1 type count in
  mret (if ok then inl (m, pc, cptr) else inr (RE_error, m)).

Definition canonicalize (s : REExecContext) (c : Z) : outcome Z :=
  if ignore_case s then lre_canonicalize c (is_utf16 s) else mret c.

(** The comparison loops of the back references: the pointer behind the text matched, [None] for no match. *)
Definition back_reference (s : REExecContext) (cptr1 cptr1_end cptr : Z) : outcome (option Z) :=
  loop (S (Z.to_nat (cptr1_end - cptr1))) (fun st : Z * Z =>
    let '(cptr1, cptr) := st in
    if cptr1 <? cptr1_end then
      if cptr >=? cbuf_end s then mret (inr None)
      else
        r1 ← GET_CHAR (cbuf s) (cbuf_type s) cptr1 cptr1_end;
        r2 ← GET_CHAR (cbuf s) (cbuf_type s) cptr (cbuf_end s);
        c1 ← canonicalize s r1.1;
        c2 ← canonicalize s r2.1;
        mret (if negb (c1 =? c2) then inr None else inl (r1.2, r2.2))
    else mret (inr (Some cptr))) (cptr1, cptr).

Definition backward_back_reference (s : REExecContext) (cptr1 cptr1_start cptr : Z) : outcome (option Z) :=
  loop (S (Z.to_nat (cptr1 - cptr1_start))) (fun st : Z * Z =>
    let '(cptr1, cptr) := st in
    if cptr1 >? cptr1_start then
      if cptr =? 0 then mret (inr None)
      else
        r1 ← GET_PREV_CHAR (cbuf s) (cbuf_type s) cptr1 cptr1_start;
        r2 ← GET_PREV_CHAR (cbuf s) (cbuf_type s) cptr 0;
        c1 ← canonicalize s r1.1;
        c2 ← canonicalize s r2.1;
        mret (if negb (c1 =? c2) then inr None else inl (r1.2, r2.2))
    else mret (inr (Some cptr))) (cptr1, cptr).

(** The dichotomy of [REOP_range] and [REOP_range32] in the [n] pairs at [pc]; [idx] is unsigned. *)
Definition range_search (get : Z -> outcome Z) (width n c : Z) : outcome bool :=
  loop (S (Z.to_nat n)) (fun st : Z * Z =>
    let '(idx_min, idx_max) := st in
    if idx_min <=? idx_max then
      let idx := u32 (idx_min + idx_max) / 2 in
      low ← get (idx * (2 * width));
      high ← get (idx * (2 * width) + width);
      mret (if c <? low then inl (idx_min, u32 (idx - 1))
            else if c >? high then inl (idx + 1, idx_max)
            else inr true)
    else mret (inr false)) (0, u32 (n - 1)).

Definition range_match (code : list Z) (pc n c : Z) : outcome bool :=
  low ← get_u16 code pc;
  if c <? low then mret false
  else
    high ← get_u16 code (pc + u32 (u32 (n - 1) * 4) + 2);
    if (c >=? 0xffff) && (high =? 0xffff) then mret true
    else if c >? high then mret false
    else range_search (fun k => get_u16 code (pc + k)) 2 n c.

Definition range32_match (code : list Z) (pc n c : Z) : outcome bool :=
  low ← get_u32 code pc;
  if c <? low then mret false
  else
    high ← get_u32 code (pc + u32 (u32 (n - 1) * 8) + 4);
    if c >? high then mret false
    else range_search (fun k => get_u32 code (pc + k)) 4 n c.

(** The loop of [REOP_save_reset]: [while (val <= val2)]. *)
Fixpoint save_reset (n : nat) (val : Z) (capture : list (option Z)) : outcome (list (option Z)) :=
  match n with
  | O => mret capture
  | S n =>
      capture ← aset capture (2 * val) None;
      capture ← aset capture (2 * val + 1) None;
      save_reset n (val + 1) capture
  end.

(** Is the character before (at) [cptr] a word character? *)
Definition word_before (s : REExecContext) (cptr : Z) : outcome bool :=
  if cptr =? 0 then mret false
  else c ← PEEK_PREV_CHAR (cbuf s) (cbuf_type s) cptr 0; mret (is_word_char c).
Definition word_at (s : REExecContext) (cptr : Z) : outcome bool :=
  if cptr >=? cbuf_end s then mret false
  else c ← PEEK_CHAR (cbuf s) (cbuf_type s) cptr (cbuf_end s); mret (is_word_char c).

Definition stack_push (s : REExecContext) (m : REMatch) (v : Z) : outcome REMatch :=
  _ ← c_assert (zlen (m_stack m) <? stack_size_max s); mret (m_set_stack m (m_stack m ++ [v])).
Definition stack_pop (m : REMatch) : outcome (Z * REMatch) :=
  v ← aget (m_stack m) (zlen (m_stack m) - 1);
  mret (v, m_set_stack m (take (length (m_stack m) - 1) (m_stack m))).

(** One turn of the main loop from the opcode at [pc]; [rec] is the recursive call with
    [no_recurse], [fuel] bounds the loop of the greedy quantifier. *)
Definition exec_op (fuel : nat) (rec : REMatch -> Z -> Z -> outcome (REResult * REMatch)) (s : REExecContext)
    (no_recurse : bool) (m : REMatch) (pc cptr : Z) (op : REOPCodeEnum) : outcome (config + REResult * REMatch) :=
  let code := re_code s in
  let fail := no_match s no_recurse m in
  let next (pc cptr : Z) := mret (inl (m, pc, cptr)) : outcome (config + REResult * REMatch) in
  let get_char := GET_CHAR (cbuf s) (cbuf_type s) cptr (cbuf_end s) in
  let test_char (val pc : Z) :=
    if cptr >=? cbuf_end s then fail
    else
      r ← get_char;
      c ← canonicalize s r.1;
      if negb (val =? c) then fail else next pc r.2 in
  match op with
  | REOP_match =>
      if no_recurse then mret (inr (RE_ptr cptr, m)) else unwind s true m (m_states m)
  | REOP_char32 => val ← get_u32 code pc; test_char val (pc + 4)
  | REOP_char => val ← get_u16 code pc; test_char val (pc + 2)
  | REOP_split_goto_first =>
      val ← get_u32 code pc;
      let pc := pc + 4 in
      push_goto s m pc cptr RE_EXEC_STATE_SPLIT 0 (pc + s32 val) cptr
  | REOP_split_next_first =>
      val ← get_u32 code pc;
      let pc := pc + 4 in
      push_goto s m (pc + s32 val) cptr RE_EXEC_STATE_SPLIT 0 pc cptr
  | REOP_lookahead =>
      val ← get_u32 code pc;
      let pc := pc + 4 in
      push_goto s m (pc + s32 val) cptr RE_EXEC_STATE_LOOKAHEAD 0 pc cptr
  | REOP_negative_lookahead =>
      val ← get_u32 code pc;
      let pc := pc + 4 in
      push_goto s m (pc + s32 val) cptr RE_EXEC_STATE_NEGATIVE_LOOKAHEAD 0 pc cptr
  | REOP_goto => val ← get_u32 code pc; next (pc + 4 + s32 val) cptr
  | REOP_line_start =>
      if cptr =? 0 then next pc cptr
      else if negb (multi_line s) then fail
      else
        c ← PEEK_PREV_CHAR (cbuf s) (cbuf_type s) cptr 0;
        if is_line_terminator c then next pc cptr else fail
  | REOP_line_end =>
      if cptr =? cbuf_end s then next pc cptr
      else if negb (multi_line s) then fail
      else
        c ← PEEK_CHAR (cbuf s) (cbuf_type s) cptr (cbuf_end s);
        if is_line_terminator c then next pc cptr else fail
  | REOP_dot =>
      if cptr =? cbuf_end s then fail
      else r ← get_char; if is_line_terminator r.1 then fail else next pc r.2
  | REOP_any =>
      if cptr =? cbuf_end s then fail else r ← get_char; next pc r.2
  | REOP_save_start | REOP_save_end =>
      val ← aget code pc;
      _ ← c_assert (val <? capture_count s);
      capture ← aset (m_capture m) (2 * val + b2z (bool_decide (op = REOP_save_end))) (Some cptr);
      mret (inl (m_set_capture m capture, pc + 1, cptr))
  | REOP_save_reset =>
      val ← aget code pc;
      val2 ← aget code (pc + 1);
      _ ← c_assert (val2 <? capture_count s);
      capture ← save_reset (Z.to_nat (val2 + 1 - val)) val (m_capture m);
      mret (inl (m_set_capture m capture, pc + 2, cptr))
  | REOP_push_i32 =>
      val ← get_u32 code pc;
      m ← stack_push s m val;
      mret (inl (m, pc + 4, cptr))
  | REOP_drop => r ← stack_pop m; mret (inl (r.2, pc, cptr))
  | REOP_loop =>
      val ← get_u32 code pc;
      let pc := pc + 4 in
      let top := zlen (m_stack m) - 1 in
      n ← aget (m_stack m) top;
      let n := u64 (n - 1) in
      stack ← aset (m_stack m) top n;
      mret (inl (m_set_stack m stack, if negb (n =? 0) then pc + s32 val else pc, cptr))
  | REOP_push_char_pos => m ← stack_push s m cptr; mret (inl (m, pc, cptr))
  | REOP_bne_char_pos =>
      val ← get_u32 code pc;
      let pc := pc + 4 in
      r ← stack_pop m;
      mret (inl (r.2, if negb (r.1 =? cptr) then pc + s32 val else pc, cptr))
  | REOP_word_boundary | REOP_not_word_boundary =>
      v1 ← word_before s cptr;
      v2 ← word_at s cptr;
      if xorb (xorb v1 v2) (bool_decide (op = REOP_word_boundary)) then fail else next pc cptr
  | REOP_back_reference | REOP_backward_back_reference =>
      val ← aget code pc;
      let pc := pc + 1 in
      if val >=? capture_count s then fail
      else
        cptr1_start ← aget (m_capture m) (2 * val);
        cptr1_end ← aget (m_capture m) (2 * val + 1);
        match cptr1_start, cptr1_end with
        | Some cptr1_start, Some cptr1_end =>
            r ← (if bool_decide (op = REOP_back_reference)
                 then back_reference s cptr1_start cptr1_end cptr
                 else backward_back_reference s cptr1_end cptr1_start cptr);
            match r with Some cptr => next pc cptr | None => fail end
        | _, _ => next pc cptr
        end
  | REOP_range =>
      n ← get_u16 code pc;
      let pc := pc + 2 in
      if cptr >=? cbuf_end s then fail
      else
        r ← get_char;
        c ← canonicalize s r.1;
        b ← range_match code pc n c;
        if (b : bool) then next (pc + 4 * n) r.2 else fail
  | REOP_range32 =>
      n ← get_u16 code pc;
      let pc := pc + 2 in
      if cptr >=? cbuf_end s then fail
      else
        r ← get_char;
        c ← canonicalize s r.1;
        b ← range32_match code pc n c;
        if (b : bool) then next (pc + 8 * n) r.2 else fail
  | REOP_prev =>
      if cptr =? 0 then fail
      else cptr ← PREV_CHAR (cbuf s) (cbuf_type s) cptr 0; next pc cptr
  | REOP_simple_greedy_quant =>
      next_pos ← get_u32 code pc;
      quant_min ← get_u32 code (pc + 4);
      quant_max ← get_u32 code (pc + 8);
      let pc1 := pc + 16 in
      let pc := pc1 + s32 next_pos in
      r ← loop fuel (fun st : REMatch * Z * Z =>
        let '(m, cptr, q) := st in
        res ← rec m pc1 cptr;
        let '(res, m) := res in
        match res with
        | RE_error => mret (inr (None, m, cptr, q))
        | RE_ptr cptr =>
            let q := q + 1 in
            mret (if (q >=? quant_max) && negb (quant_max =? INT32_MAX) then inr (Some tt, m, cptr, q)
                  else inl (m, cptr, q))
        | _ => mret (inr (Some tt, m, cptr, q))
        end) (m, cptr, 0);
      let '(ok, m, cptr, q) := r in
      match ok with
      | None => mret (inr (RE_error, m))
      | Some _ =>
          if q <? quant_min then no_match s no_recurse m
          else if q >? quant_min then
            push_goto s m (pc1 - 16) cptr RE_EXEC_STATE_GREEDY_QUANT (q - quant_min) pc cptr
          else mret (inl (m, pc, cptr))
      end
  | REOP_invalid => Undef
  end.

Definition exec_step (fuel : nat) (rec : REMatch -> Z -> Z -> outcome (REResult * REMatch)) (s : REExecContext)
    (no_recurse : bool) (c : config) : outcome (config + REResult * REMatch) :=
  let '(m, pc, cptr) := c in
  b ← aget (re_code s) pc;
  match reop_of b with
  | Some op => exec_op fuel rec s no_recurse m (pc + 1) cptr op
  | None => Undef
  end.

Fixpoint lre_exec_backtrack (fuel : nat) (s : REExecContext) (no_recurse : bool) (m : REMatch) (pc cptr : Z)
    : outcome (REResult * REMatch) :=
  match fuel with
  | O => Fuel
  | S fuel =>
      loop (S fuel) (exec_step (S fuel) (lre_exec_backtrack fuel s true) s no_recurse) (m, pc, cptr)
  end.

(** [lre_exec]: the C result and the captures.  [cbuf_type]: 0 for 8-bit and 1 for 16-bit characters. *)
Definition lre_exec (fuel : nat) (bc_buf text : list Z) (cindex type : Z) (opaque : heap)
    : outcome (Z * list (option Z)) :=
  re_flags ← aget bc_buf RE_HEADER_FLAGS;
  captures ← aget bc_buf RE_HEADER_CAPTURE_COUNT;
  stack_size ← aget bc_buf RE_HEADER_STACK_SIZE;
  let utf16 := negb (re_flags .& LRE_FLAG_UTF16 =? 0) in
  let s := {| re_code := bc_buf; cbuf := text; cbuf_type := if (type =? 1) && utf16 then 2 else type;
              capture_count := captures; stack_size_max := stack_size;
              multi_line := negb (re_flags .& LRE_FLAG_MULTILINE =? 0);
              ignore_case := negb (re_flags .& LRE_FLAG_IGNORECASE =? 0); is_utf16 := utf16 |} in
  let m := MkREMatch (replicate (Z.to_nat (captures * 2)) None) [] [] 0 opaque in
  r ← lre_exec_backtrack fuel s false m RE_HEADER_LEN cindex;
  mret (match r.1 with RE_error => -1 | RE_no_match => 0 | _ => 1 end, m_capture r.2).
End Exec.

Definition lre_get_capture_count (bc_buf : list Z) : outcome Z := aget bc_buf RE_HEADER_CAPTURE_COUNT.
Definition lre_get_flags (bc_buf : list Z) : outcome Z := aget bc_buf RE_HEADER_FLAGS.

(** The offset of the group names in the bytecode, [None] for [NULL]. *)
Definition lre_get_groupnames (bc_buf : list Z) : outcome (option Z) :=
  flags ← lre_get_flags bc_buf;
  if flags .& LRE_FLAG_NAMED_GROUPS =? 0 then mret None
  else re_bytecode_len ← get_u32 bc_buf 3; mret (Some (7 + re_bytecode_len)).
