(* ===== verification/RegexpLex.v ===== *)
(** * libregexp.c: the lexical level of the regular expression compiler

    The pattern [buf] is its array of bytes with the final zero; a pointer is an
    index.  Functions that update [*pp] return the new pointer. *)

From Stdlib Require Import String.
From S2P Require Import Prelude Cutils Utf8 DynBuf CharRange UnicodePropTables UnicodeIndex UnicodeProp.
#[local] Open Scope Z_scope.

Definition CLASS_RANGE_BASE : Z := 0x40000000.
Definition TMP_BUF_SIZE : Z := 128.

Definition is_digit (c : Z) : bool := (48 <=? c) && (c <=? 57).

Definition char_range_d : list Z := [1; 0x0030; 0x0039 + 1].
Definition char_range_s : list Z := [
  10;
  0x0009; 0x000D + 1; 0x0020; 0x0020 + 1; 0x00A0; 0x00A0 + 1; 0x1680; 0x1680 + 1; 0x2000; 0x200A + 1;
  0x2028; 0x2029 + 1; 0x202F; 0x202F + 1; 0x205F; 0x205F + 1; 0x3000; 0x3000 + 1; 0xFEFF; 0xFEFF + 1].
Definition char_range_w : list Z := [4; 0x0030; 0x0039 + 1; 0x0041; 0x005A + 1; 0x005F; 0x005F + 1; 0x0061; 0x007A + 1].

Definition lre_is_space (c : Z) : outcome bool :=
  let n := (zlen char_range_s - 1) / 2 in
  loop (S (Z.to_nat n)) (fun i =>
    if i <? n then
      low ← aget char_range_s (2 * i + 1);
      if c <? low then mret (inr false)
      else
        high ← aget char_range_s (2 * i + 2);
        mret (if c <? high then inr true else inl (i + 1))
    else mret (inr false)) 0.

Definition lre_id_start_table_ascii : list Z := [0x00000000; 0x00000010; 0x87FFFFFE; 0x07FFFFFE].
Definition lre_id_continue_table_ascii : list Z := [0x00000000; 0x03FF0010; 0x87FFFFFE; 0x07FFFFFE].

Definition lre_js_is_ident_first (c : Z) : outcome bool :=
  if u32 c <? 128 then
    v ← aget lre_id_start_table_ascii (c >> 5); mret (negb ((v >> (c .& 31)) .& 1 =? 0))
  else lre_is_id_start (u32 c).

Definition lre_js_is_ident_next (c : Z) : outcome bool :=
  if u32 c <? 128 then
    v ← aget lre_id_continue_table_ascii (c >> 5); mret (negb ((v >> (c .& 31)) .& 1 =? 0))
  else
    b ← lre_is_id_continue (u32 c);
    mret ((b : bool) || (c =? 0x200C) || (c =? 0x200D)).

(** [CHAR_RANGE_d] .. [CHAR_RANGE_W] *)
Inductive CharRangeEnum := CHAR_RANGE_d | CHAR_RANGE_D | CHAR_RANGE_s | CHAR_RANGE_S | CHAR_RANGE_w | CHAR_RANGE_W.

(** [char_range_table[c >> 1]] and [c & 1]. *)
Definition char_range_of (c : CharRangeEnum) : list Z * bool :=
  match c with
  | CHAR_RANGE_d => (char_range_d, false) | CHAR_RANGE_D => (char_range_d, true)
  | CHAR_RANGE_s => (char_range_s, false) | CHAR_RANGE_S => (char_range_s, true)
  | CHAR_RANGE_w => (char_range_w, false) | CHAR_RANGE_W => (char_range_w, true)
  end.

Section Ranges.
Context `{Realloc}.

Fixpoint cr_add_points (pts : list Z) (st : CharRange * heap) : outcome (Z * (CharRange * heap)) :=
  match pts with
  | [] => mret (0, st)
  | v :: pts => try st ← cr_add_point st v; cr_add_points pts st
  end.

(** On failure the range is freed. *)
Definition cr_init_char_range (h : heap) (c : CharRangeEnum) : outcome (Z * (CharRange * heap)) :=
  let '(c_pt, invert) := char_range_of c in
  len ← aget c_pt 0;
  pts ← aread c_pt 1 (len * 2);
  r ← cr_add_points pts (cr_init, h);
  r ← (if (r.1 =? 0) && invert then cr_invert r.2 else mret r);
  if r.1 =? 0 then mret r else mret (-1, (r.2.1, cr_free r.2.1 r.2.2)).

Definition cr_canonicalize (st : CharRange * heap) : outcome (Z * (CharRange * heap)) :=
  let '(cr, h) := st in
  r ← cr_op (cr_init, h) (cr_points cr) [97; 122 + 1] CR_OP_INTER;
  let '(ret, (a, h)) := r in
  if negb (ret =? 0) then mret (ret, (cr, cr_free a h))
  else
    let points := map (fun v => u32 (v + (65 - 97))) (cr_points a) in
    r ← cr_union1 (cr, h) points;
    let '(ret, (cr, h)) := r in
    mret (ret, (cr, cr_free a h)).
End Ranges.

(** ** Numbers and escapes *)

(** The value (-1 on overflow, when it is not allowed) and the pointer behind the digits. *)
Definition parse_digits (buf : list Z) (p : Z) (allow_overflow : bool) : outcome (Z * Z) :=
  loop (S (length buf)) (fun st : Z * Z =>
    let '(p', v) := st in
    c ← aget buf p';
    if negb (is_digit c) then mret (inr (s32 v, p'))
    else
      let v := u64 (v * 10 + c - 48) in
      if v >=? INT32_MAX then
        if allow_overflow then mret (inl (p' + 1, INT32_MAX)) else mret (inr (-1, p))
      else mret (inl (p' + 1, v))) (p, 0).

(** [for(i = 0; i < n; i++)]: [n] hexadecimal digits; [None] when one is missing. *)
Fixpoint hex_digits (n : nat) (buf : list Z) (p c : Z) : outcome (option (Z * Z)) :=
  match n with
  | O => mret (Some (c, p))
  | S n =>
      d ← aget buf p;
      let h := from_hex d in
      if h <? 0 then mret None else hex_digits n buf (p + 1) (u32 (c << 4) .| h)
  end.

(** [\u{...}]: [p] is behind the brace. *)
Definition hex_braces (buf : list Z) (p : Z) : outcome (option (Z * Z)) :=
  loop (S (length buf)) (fun st : Z * Z =>
    let '(p, c) := st in
    d ← aget buf p;
    let h := from_hex d in
    if h <? 0 then mret (inr None)
    else
      let c := u32 (c << 4) .| h in
      if c >? 0x10FFFF then mret (inr None)
      else
        d ← aget buf (p + 1);
        mret (if d =? 125 then inr (Some (c, p + 2)) else inl (p + 1, c))) (p, 0).

(** The low surrogate of an escaped pair, when [p] stands on one. *)
Definition escaped_low_surrogate (buf : list Z) (p : Z) : outcome (option Z) :=
  c0 ← aget buf p;
  if negb (c0 =? 92) then mret None
  else
    c1 ← aget buf (p + 1);
    if negb (c1 =? 117) then mret None
    else
      r ← hex_digits 4 buf (p + 2) 0;
      mret (match r with
            | Some (c1, _) => if (0xdc00 <=? c1) && (c1 <? 0xe000) then Some c1 else None
            | None => None
            end).

(** The answer is the character, -1 for a malformed escape, -2 for no escape, and the new pointer. *)
Definition lre_parse_escape (buf : list Z) (p0 allow_utf16 : Z) : outcome (Z * Z) :=
  c ← aget buf p0;
  let p := p0 + 1 in
  if c =? 98 then mret (8, p)
  else if c =? 102 then mret (12, p)
  else if c =? 110 then mret (10, p)
  else if c =? 114 then mret (13, p)
  else if c =? 116 then mret (9, p)
  else if c =? 118 then mret (11, p)
  else if (c =? 120) || (c =? 117) then
    d ← aget buf p;
    if (d =? 123) && negb (allow_utf16 =? 0) then
      r ← hex_braces buf (p + 1);
      mret (match r with Some (c, p) => (c, p) | None => (-1, p0) end)
    else
      r ← hex_digits (if c =? 120 then 2%nat else 4%nat) buf p 0;
      match r with
      | None => mret (-1, p0)
      | Some (c, p) =>
          if (0xd800 <=? c) && (c <? 0xdc00) && (allow_utf16 =? 2) then
            lo ← escaped_low_surrogate buf p;
            mret (match lo with
                  | Some c1 => ((((c .& 0x3ff) << 10) .| (c1 .& 0x3ff)) + 0x10000, p + 6)
                  | None => (c, p)
                  end)
          else mret (c, p)
      end
  else if (48 <=? c) && (c <=? 55) then
    let c := c - 48 in
    d ← aget buf p;
    if allow_utf16 =? 2 then
      mret (if negb (c =? 0) || is_digit d then (-1, p0) else (c, p))
    else
      let v := u32 (d - 48) in
      if v >? 7 then mret (c, p)
      else
        let c := (c << 3) .| v in
        let p := p + 1 in
        if c >=? 32 then mret (c, p)
        else
          d ← aget buf p;
          let v := u32 (d - 48) in
          mret (if v >? 7 then (c, p) else ((c << 3) .| v, p + 1))
  else mret (-2, p0).

(** [unicode_from_utf8(p, UTF8_CHAR_LEN_MAX, &p)]: -1 and [p] unchanged on failure. *)
Definition utf8_at (buf : list Z) (p : Z) : outcome (Z * Z) :=
  r ← unicode_from_utf8 (drop (Z.to_nat p) buf) UTF8_CHAR_LEN_MAX;
  mret (match r with Some (c, n) => (c, p + n) | None => (-1, p) end).

(** The name behind [<] as UTF-8, and the pointer behind [>]; [None] for -1. *)
Definition re_parse_group_name (buf : list Z) (p : Z) (buf_size : Z) (is_utf16 : bool) : outcome (option (list Z * Z)) :=
  loop (S (length buf)) (fun st : Z * list Z =>
    let '(p, q) := st in
    c ← aget buf p;
    if c =? 62 then mret (inr (if zlen q =? 0 then None else Some (q, p + 1)))
    else
      d ← aget buf (if c =? 92 then p + 1 else p);
      if (c =? 92) && negb (d =? 117) then mret (inr None)
      else
        r ← (if c =? 92 then lre_parse_escape buf (p + 1) (b2z is_utf16 * 2)
             else if c >=? 128 then utf8_at buf p
             else mret (c, p + 1));
        let '(c, p) := r in
        let c := u32 c in
        if c >? 0x10FFFF then mret (inr None)
        else
          ok ← (if zlen q =? 0 then lre_js_is_ident_first c else lre_js_is_ident_next c);
          if negb ok then mret (inr None)
          else if zlen q + UTF8_CHAR_LEN_MAX + 1 >? buf_size then mret (inr None)
          else mret (inl (p, q ++ (if c <? 128 then [c] else unicode_to_utf8 c)))) (p, []).
