(* ===== verification/RegexpParse.v ===== *)
(** * libregexp.c: the regular expression compiler

    The constants of [REParseState] are the record [REEnv], the fields that
    change [REParseState]; both buffers share the state of the allocator.  A
    parse function is a [parser]: it answers a value and the new state, or the
    error message ([None] where the C code returns -1 without setting one).
    On an error [lre_compile] releases everything, so the error carries no state. *)

From Stdlib Require Import String Ascii.
From S2P Require Import Prelude Cutils Utf8 DynBuf CharRange UnicodeCase UnicodePropTables UnicodeProp RegexpExec RegexpLex.
#[local] Open Scope Z_scope.

Record REEnv := MkREEnv {
  buf : list Z;
  buf_end : Z;
  e_is_utf16 : bool;
  e_ignore_case : bool;
  e_dotall : bool
}.

Section Parse.
Context `{Realloc}.

Record REParseState := MkREParseState {
  byte_code : DynBuf;
  buf_ptr : Z;
  s_capture_count : Z;
  total_capture_count : Z;
  has_named_captures : Z;
  group_names : DynBuf
}.

Inductive presult (A : Type) :=
| POk (a : A) (s : REParseState)
| PErr (msg : option string).
Arguments POk {A}.
Arguments PErr {A}.

Definition parser (A : Type) : Type := REParseState -> outcome (presult A).

Definition pret {A} (a : A) : parser A := fun s => mret (POk a s).
Definition pbind {A B} (x : parser A) (k : A -> parser B) : parser B := fun s =>
  r ← x s;
  match r with POk a s => k a s | PErr msg => mret (PErr msg) end.
Notation "x <-- o ;; k" := (pbind o (fun x => k)) (at level 100, o at next level, right associativity).
Notation "' pat <-- o ;; k" := (pbind o (fun x => match x with pat => k end))
  (at level 100, pat pattern, o at next level, right associativity).

Definition re_parse_error {A} (msg : string) : parser A := fun _ => mret (PErr (Some msg)).
(** [return -1] after a failure that left no message. *)
Definition silent_error {A} : parser A := fun _ => mret (PErr None).
Definition re_parse_out_of_memory {A} : parser A := re_parse_error "out of memory".

(** Reads that do not change the state. *)
Definition lift {A} (o : outcome A) : parser A := fun s => a ← o; mret (POk a s).
Definition gets {A} (f : REParseState -> A) : parser A := fun s => mret (POk (f s) s).

Definition set_byte_code (bc : DynBuf) : parser unit := fun s =>
  mret (POk tt (MkREParseState bc (buf_ptr s) (s_capture_count s) (total_capture_count s) (has_named_captures s) (group_names s))).
Definition set_buf_ptr (p : Z) : parser unit := fun s =>
  mret (POk tt (MkREParseState (byte_code s) p (s_capture_count s) (total_capture_count s) (has_named_captures s) (group_names s))).
Definition set_capture_count (n : Z) : parser unit := fun s =>
  mret (POk tt (MkREParseState (byte_code s) (buf_ptr s) n (total_capture_count s) (has_named_captures s) (group_names s))).
Definition set_total_captures (n named : Z) : parser unit := fun s =>
  mret (POk tt (MkREParseState (byte_code s) (buf_ptr s) (s_capture_count s) n named (group_names s))).
Definition set_has_named (named : Z) : parser unit := fun s =>
  mret (POk tt (MkREParseState (byte_code s) (buf_ptr s) (s_capture_count s) (total_capture_count s) named (group_names s))).

Definition db_set_opaque (b : DynBuf) (h : heap) : DynBuf :=
  MkDynBuf (db_buf b) (db_size b) (db_allocated_size b) (db_error b) h.

(** An operation on [byte_code], with its status. *)
Definition on_code (f : DynBuf -> outcome (Z * DynBuf)) : parser Z := fun s =>
  r ← f (byte_code s); (_ <-- set_byte_code r.2 ;; pret r.1) s.

(** An operation on [group_names], with the allocator of [byte_code]; its status is ignored. *)
Definition on_names (f : DynBuf -> outcome (Z * DynBuf)) : parser unit := fun s =>
  r ← f (db_set_opaque (group_names s) (db_opaque (byte_code s)));
  let bc := db_set_opaque (byte_code s) (db_opaque r.2) in
  mret (POk tt (MkREParseState bc (buf_ptr s) (s_capture_count s) (total_capture_count s) (has_named_captures s) r.2)).

(** An operation on a character range, with the same allocator. *)
Definition on_range (f : heap -> outcome (Z * (CharRange * heap))) : parser (Z * CharRange) := fun s =>
  r ← f (db_opaque (byte_code s));
  (_ <-- set_byte_code (db_set_opaque (byte_code s) r.2.2) ;; pret (r.1, r.2.1)) s.

Definition p_cr_free (cr : CharRange) : parser unit :=
  _ <-- on_range (fun h => mret (0, (cr, cr_free cr h))) ;; pret tt.

Definition code_size : parser Z := gets (fun s => db_size (byte_code s)).

(** [s->byte_code.buf[i] = v] and [put_u32(s->byte_code.buf + i, v)]: no bound but the allocated array. *)
Definition code_set (i v : Z) : parser unit := fun s =>
  b ← aset (db_buf (byte_code s)) i (u8 v); set_byte_code (db_set_buf (byte_code s) b) s.
Definition code_put_u32 (i v : Z) : parser unit := fun s =>
  b ← put_u32 (db_buf (byte_code s)) i v; set_byte_code (db_set_buf (byte_code s) b) s.

(** ** Emission; the errors of the buffer are recorded in it *)

Definition emit (f : DynBuf -> outcome (Z * DynBuf)) : parser unit := _ <-- on_code f ;; pret tt.

Definition re_emit_op (op : REOPCodeEnum) : parser unit := emit (fun b => dbuf_putc b (reop_code op)).

Definition re_emit_op_u32 (op : REOPCodeEnum) (val : Z) : parser Z :=
  _ <-- re_emit_op op ;;
  pos <-- code_size ;;
  _ <-- emit (fun b => dbuf_put_u32 b val) ;;
  pret (s32 pos).

Definition re_emit_goto (op : REOPCodeEnum) (val : Z) : parser Z :=
  _ <-- re_emit_op op ;;
  pos <-- code_size ;;
  let pos := s32 pos in
  _ <-- emit (fun b => dbuf_put_u32 b (u32 (val - (pos + 4)))) ;;
  pret pos.

Definition re_emit_op_u8 (op : REOPCodeEnum) (val : Z) : parser unit :=
  _ <-- re_emit_op op ;; emit (fun b => dbuf_putc b val).

Definition re_emit_op_u16 (op : REOPCodeEnum) (val : Z) : parser unit :=
  _ <-- re_emit_op op ;; emit (fun b => dbuf_put_u16 b val).

(** ** Character classes *)

Context (env : REEnv) (fuel : nat).

(** [*p] *)
Definition peek (p : Z) : parser Z := lift (aget (buf env) p).

Definition re_parse_expect (p c : Z) : parser Z :=
  d <-- peek p ;;
  if negb (d =? c) then re_parse_error ("expecting '" ++ String (ascii_of_N (Z.to_N c)) "'")%string else pret (p + 1).

Definition is_unicode_char (c : Z) : bool :=
  (48 <=? c) && (c <=? 57) || (65 <=? c) && (c <=? 90) || (97 <=? c) && (c <=? 122) || (c =? 95).

(** The name characters from [p]; [None] when there are more than 63. *)
Definition property_word (p : Z) : parser (option (list Z * Z)) :=
  lift (loop (S (length (buf env))) (fun st : list Z * Z =>
    let '(q, p) := st in
    c ← aget (buf env) p;
    if is_unicode_char c then
      mret (if zlen q >=? 64 - 1 then inr None else inl (q ++ [c], p + 1))
    else mret (inr (Some (q, p)))) ([], p)).

Definition name_is (name : list Z) (s : string) : bool := bool_decide (name = c_bytes s).

(** A range built by one of the property functions, with its errors; [unknown] for -2. *)
Definition property_range (f : CharRange * heap -> outcome (Z * (CharRange * heap))) (unknown : string) : parser CharRange :=
  '(ret, cr) <-- on_range (fun h => f (cr_init, h)) ;;
  if negb (ret =? 0) then
    _ <-- p_cr_free cr ;;
    if ret =? -2 then re_parse_error unknown else re_parse_out_of_memory
  else pret cr.

Definition parse_unicode_property (p : Z) (is_inv : bool) : parser (CharRange * Z) :=
  c <-- peek p ;;
  if negb (c =? 123) then re_parse_error "expecting '{' after \p"
  else
    r <-- property_word (p + 1) ;;
    match r with
    | None => re_parse_error "unknown unicode property name"
    | Some (name, p) =>
        c <-- peek p ;;
        v <-- (if c =? 61 then property_word (p + 1) else pret (Some ([], p))) ;;
        match v with
        | None => re_parse_error "unknown unicode property value"
        | Some (value, p) =>
            c <-- peek p ;;
            if negb (c =? 125) then re_parse_error "expecting '}'"
            else
              let p := p + 1 in
              cr <-- (if name_is name "Script" || name_is name "sc" then
                        property_range (fun st => unicode_script fuel st value false) "unknown unicode script"
                      else if name_is name "Script_Extensions" || name_is name "scx" then
                        property_range (fun st => unicode_script fuel st value true) "unknown unicode script"
                      else if name_is name "General_Category" || name_is name "gc" then
                        property_range (fun st => unicode_general_category st value) "unknown unicode general category"
                      else if zlen value =? 0 then
                        '(ret, cr) <-- on_range (fun h => unicode_general_category (cr_init, h) name) ;;
                        if ret =? -1 then _ <-- p_cr_free cr ;; re_parse_out_of_memory
                        else if ret <? 0 then
                          '(ret, cr) <-- on_range (fun h => unicode_prop (cr, h) name) ;;
                          if negb (ret =? 0) then
                            _ <-- p_cr_free cr ;;
                            if ret =? -2 then re_parse_error "unknown unicode property name"
                            else re_parse_out_of_memory
                          else pret cr
                        else pret cr
                      else re_parse_error "unknown unicode property name") ;;
              if is_inv then
                '(ret, cr) <-- on_range (fun h => cr_invert (cr, h)) ;;
                if negb (ret =? 0) then _ <-- p_cr_free cr ;; silent_error else pret (cr, p)
              else pret (cr, p)
        end
    end.

(** The result of [get_class_atom]: the character (or [CLASS_RANGE_BASE]), the
    range when it is one, and the new pointer. *)
Definition class_atom : Type := Z * option CharRange * Z.

(** The label [normal_char]: [c] is the byte at [p]. *)
Definition normal_char (p c : Z) : parser class_atom :=
  if c >=? 128 then
    '(c, p) <-- lift (utf8_at (buf env) p) ;;
    if (u32 c >? 0xffff) && negb (e_is_utf16 env) then re_parse_error "malformed unicode char"
    else if s32 c <? 0 then silent_error
    else pret (c, None, p)
  else pret (c, None, p + 1).

Definition class_range (c : CharRangeEnum) (p : Z) : parser class_atom :=
  '(ret, cr) <-- on_range (fun h => cr_init_char_range h c) ;;
  if negb (ret =? 0) then silent_error else pret (CLASS_RANGE_BASE, Some cr, p).

(** [strchr("^$\\.*+?()[]{}|/", c)] for [c] not 0. *)
Definition is_syntax_char (c : Z) : bool :=
  existsb (Z.eqb c) [94; 36; 92; 46; 42; 43; 63; 40; 41; 91; 93; 123; 125; 124; 47].

Definition get_class_atom (p : Z) (inclass : bool) : parser class_atom :=
  c <-- peek p ;;
  let invalid_escape := re_parse_error "invalid escape sequence in regular expression" in
  let unexpected_end := re_parse_error "unexpected end" in
  if c =? 92 then
    if p + 1 >=? buf_end env then unexpected_end
    else
      c <-- peek (p + 1) ;;
      let default :=
        '(ret, q) <-- lift (lre_parse_escape (buf env) (p + 1) (b2z (e_is_utf16 env) * 2)) ;;
        if ret >=? 0 then pret (ret, None, q)
        else if (ret =? -2) && negb (c =? 0) && is_syntax_char c then normal_char (p + 1) c
        else if e_is_utf16 env then invalid_escape
        else normal_char (p + 1) c in
      if c =? 100 then class_range CHAR_RANGE_d (p + 2)
      else if c =? 68 then class_range CHAR_RANGE_D (p + 2)
      else if c =? 115 then class_range CHAR_RANGE_s (p + 2)
      else if c =? 83 then class_range CHAR_RANGE_S (p + 2)
      else if c =? 119 then class_range CHAR_RANGE_w (p + 2)
      else if c =? 87 then class_range CHAR_RANGE_W (p + 2)
      else if c =? 99 then
        c <-- peek (p + 2) ;;
        if (97 <=? c) && (c <=? 122) || (65 <=? c) && (c <=? 90) ||
           (is_digit c || (c =? 95)) && inclass && negb (e_is_utf16 env)
        then pret (c .& 0x1f, None, p + 3)
        else if e_is_utf16 env then invalid_escape
        else pret (92, None, p + 1)
      else if (c =? 112) || (c =? 80) then
        if e_is_utf16 env then
          '(cr, q) <-- parse_unicode_property (p + 2) (c =? 80) ;;
          pret (CLASS_RANGE_BASE, Some cr, q)
        else default
      else default
  else if (c =? 0) && (p >=? buf_end env) then unexpected_end
  else normal_char p c.

(** The pairs of points as 16-bit and 32-bit bounds. *)
Fixpoint emit_range16 (pts : list Z) : parser unit :=
  match pts with
  | low :: high :: pts =>
      _ <-- emit (fun b => dbuf_put_u16 b low) ;;
      let high := u32 (high - 1) in
      let high := if high =? UINT32_MAX - 1 then 0xffff else high in
      _ <-- emit (fun b => dbuf_put_u16 b high) ;;
      emit_range16 pts
  | _ => pret tt
  end.

Fixpoint emit_range32 (pts : list Z) : parser unit :=
  match pts with
  | low :: high :: pts =>
      _ <-- emit (fun b => dbuf_put_u32 b low) ;;
      _ <-- emit (fun b => dbuf_put_u32 b (u32 (high - 1))) ;;
      emit_range32 pts
  | _ => pret tt
  end.

Definition re_emit_range (cr : CharRange) : parser unit :=
  let len := cr_len cr / 2 in
  if len >=? 65535 then re_parse_error "too many ranges"
  else if len =? 0 then _ <-- re_emit_op_u32 REOP_char32 (u32 (-1)) ;; pret tt
  else
    high <-- lift (aget (cr_points cr) (cr_len cr - 1)) ;;
    high <-- (if high =? UINT32_MAX then lift (aget (cr_points cr) (cr_len cr - 2)) else pret high) ;;
    if high <=? 0xffff then
      _ <-- re_emit_op_u16 REOP_range len ;; emit_range16 (cr_points cr)
    else
      _ <-- re_emit_op_u16 REOP_range32 len ;; emit_range32 (cr_points cr).

(** A status of a range operation of [re_parse_char_class]: -1 frees the range. *)
Definition class_op (cr : CharRange) (f : CharRange * heap -> outcome (Z * (CharRange * heap))) : parser CharRange :=
  '(ret, cr) <-- on_range (fun h => f (cr, h)) ;;
  if negb (ret =? 0) then _ <-- p_cr_free cr ;; re_parse_out_of_memory else pret cr.

(** The label [class_atom]: add the atom to the class. *)
Definition add_class_atom (cr : CharRange) (c1 : Z) (cr1 : option CharRange) : parser CharRange :=
  if c1 >=? CLASS_RANGE_BASE then
    match cr1 with
    | None => lift Undef
    | Some cr1 =>
        '(ret, cr) <-- on_range (fun h => cr_union1 (cr, h) (cr_points cr1)) ;;
        _ <-- p_cr_free cr1 ;;
        if negb (ret =? 0) then _ <-- p_cr_free cr ;; re_parse_out_of_memory else pret cr
    end
  else class_op cr (fun st => cr_union_interval st c1 c1).

(** One element of a class, from [p]: an atom or an interval. *)
Definition class_element (p : Z) (cr : CharRange) : parser (Z * CharRange) :=
  '(c1, cr1, p) <-- get_class_atom p true ;;
  d <-- peek p ;;
  let single := cr <-- add_class_atom cr c1 cr1 ;; pret (p, cr) in
  if negb (d =? 45) then single
  else
    d1 <-- peek (p + 1) ;;
    if d1 =? 93 then single
    else if c1 >=? CLASS_RANGE_BASE then
      if e_is_utf16 env then re_parse_error "invalid class range" else single
    else
      '(c2, cr2, p0) <-- get_class_atom (p + 1) true ;;
      if c2 >=? CLASS_RANGE_BASE then
        _ <-- p_cr_free (default cr_init cr2) ;;
        if e_is_utf16 env then re_parse_error "invalid class range" else single
      else if c2 <? c1 then re_parse_error "invalid class range"
      else cr <-- class_op cr (fun st => cr_union_interval st c1 c2) ;; pret (p0, cr).

Fixpoint class_elements (n : nat) (p : Z) (cr : CharRange) : parser (Z * CharRange) :=
  match n with
  | O => lift Fuel
  | S n =>
      d <-- peek p ;;
      if d =? 93 then pret (p, cr) else '(p, cr) <-- class_element p cr ;; class_elements n p cr
  end.

Definition re_parse_char_class (p : Z) : parser Z :=
  let p := p + 1 in
  d <-- peek p ;;
  let invert := d =? 94 in
  '(p, cr) <-- class_elements (S (length (buf env))) (if invert then p + 1 else p) cr_init ;;
  cr <-- (if e_ignore_case env then class_op cr cr_canonicalize else pret cr) ;;
  cr <-- (if invert then class_op cr cr_invert else pret cr) ;;
  _ <-- re_emit_range cr ;;
  _ <-- p_cr_free cr ;;
  pret (p + 1).

(** ** Analyses of the bytecode of an atom *)

(** The length of the instruction of opcode [op] at [pos], its ranges included. *)
Definition instr_len (bc : list Z) (pos : Z) (op : REOPCodeEnum) : outcome Z :=
  match op with
  | REOP_range => val ← get_u16 bc (pos + 1); mret (reop_size op + val * 4)
  | REOP_range32 => val ← get_u16 bc (pos + 1); mret (reop_size op + val * 8)
  | _ => mret (reop_size op)
  end.

Definition or_bit (bitmap : list Z) (val bit : Z) : outcome (list Z) :=
  b ← aget bitmap val; aset bitmap val (b .| bit).

(** [while (val < last)] *)
Fixpoint reset_bits (n : nat) (val : Z) (bitmap : list Z) : outcome (list Z) :=
  match n with
  | O => mret bitmap
  | S n => bitmap ← or_bit bitmap val 1; reset_bits n (val + 1) bitmap
  end.

(** 1: the code advances, 0: it may not, -1: it depends on its previous execution. *)
Definition re_check_advance (bc : list Z) : outcome Z :=
  r ← loop (S (length bc)) (fun st : Z * Z * bool * list Z =>
    let '(pos, ret, has_back_reference, bitmap) := st in
    if pos <? zlen bc then
      b ← aget bc pos;
      match reop_of b with
      | None => Undef
      | Some op =>
          len ← instr_len bc pos op;
          match op with
          | REOP_range | REOP_range32 | REOP_char | REOP_char32 | REOP_dot | REOP_any =>
              mret (inl (pos + len, if ret =? -2 then 1 else ret, has_back_reference, bitmap))
          | REOP_line_start | REOP_line_end | REOP_push_i32 | REOP_push_char_pos | REOP_drop
          | REOP_word_boundary | REOP_not_word_boundary | REOP_prev =>
              mret (inl (pos + len, ret, has_back_reference, bitmap))
          | REOP_save_start | REOP_save_end =>
              val ← aget bc (pos + 1);
              bitmap ← or_bit bitmap val 1;
              mret (inl (pos + len, ret, has_back_reference, bitmap))
          | REOP_save_reset =>
              val ← aget bc (pos + 1);
              last ← aget bc (pos + 2);
              bitmap ← reset_bits (Z.to_nat (last - val)) val bitmap;
              mret (inl (pos + len, ret, has_back_reference, bitmap))
          | REOP_back_reference | REOP_backward_back_reference =>
              val ← aget bc (pos + 1);
              bitmap ← or_bit bitmap val 2;
              mret (inl (pos + len, ret, true, bitmap))
          | _ => mret (inl (pos + len, if ret =? -2 then 0 else ret, has_back_reference, bitmap))
          end
      end
    else mret (inr (ret, has_back_reference, bitmap)))
    (0, -2, false, replicate (Z.to_nat CAPTURE_COUNT_MAX) 0);
  let '(ret, has_back_reference, bitmap) := r in
  mret (if has_back_reference && existsb (Z.eqb 3) bitmap then -1 else if ret =? -2 then 0 else ret).

(** The number of characters of an atom that only tests characters, -1 for any other. *)
Definition re_is_simple_quantifier (bc : list Z) : outcome Z :=
  loop (S (length bc)) (fun st : Z * Z =>
    let '(pos, count) := st in
    if pos <? zlen bc then
      b ← aget bc pos;
      match reop_of b with
      | None => Undef
      | Some op =>
          len ← instr_len bc pos op;
          match op with
          | REOP_range | REOP_range32 | REOP_char | REOP_char32 | REOP_dot | REOP_any =>
              mret (inl (pos + len, count + 1))
          | REOP_line_start | REOP_line_end | REOP_word_boundary | REOP_not_word_boundary =>
              mret (inl (pos + len, count))
          | _ => mret (inr (-1))
          end
      end
    else mret (inr count)) (0, 0).

(** ** Captures *)

(** The end of a class, from behind its bracket: [for (...; p < s->buf_end && *p != ']'; p++)]. *)
Definition skip_class (p : Z) : outcome Z :=
  loop (S (length (buf env))) (fun p =>
    if p <? buf_end env then
      c ← aget (buf env) p;
      mret (if c =? 93 then inr p else inl (if c =? 92 then p + 2 else p + 1))
    else mret (inr p)) p.

(** The number of captures and 1, or the index of the capture [capture_name] (-1: none);
    and whether there are named captures. *)
Definition re_parse_captures (capture_name : option (list Z)) : outcome (Z * Z) :=
  let finish (capture_index named : Z) :=
    (match capture_name with Some _ => -1 | None => capture_index end, named) in
  loop (S (length (buf env))) (fun st : Z * Z * Z =>
    let '(p, capture_index, named) := st in
    let counted p named :=
      if capture_index + 1 >=? CAPTURE_COUNT_MAX then inr (finish (capture_index + 1) named)
      else inl (p + 1, capture_index + 1, named) in
    if p <? buf_end env then
      c ← aget (buf env) p;
      if c =? 40 then
        c1 ← aget (buf env) (p + 1);
        if negb (c1 =? 63) then mret (counted p named)
        else
          c2 ← aget (buf env) (p + 2);
          if negb (c2 =? 60) then mret (inl (p + 1, capture_index, named))
          else
            c3 ← aget (buf env) (p + 3);
            if (c3 =? 61) || (c3 =? 33) then mret (inl (p + 1, capture_index, named))
            else
              match capture_name with
              | None => mret (counted p 1)
              | Some wanted =>
                  r ← re_parse_group_name (buf env) (p + 3) TMP_BUF_SIZE (e_is_utf16 env);
                  mret (match r with
                        | Some (name, q) =>
                            if bool_decide (name = wanted) then inr (capture_index, 1) else counted q 1
                        | None => counted (p + 3) 1
                        end)
              end
      else if c =? 92 then mret (inl (p + 2, capture_index, named))
      else if c =? 91 then
        (* [*p] is the bracket itself: nothing is added for a leading ']' *)
        q ← skip_class (p + 1 + b2z (c =? 93));
        mret (inl (q + 1, capture_index, named))
      else mret (inl (p + 1, capture_index, named))
    else mret (inr (finish capture_index named))) (0, 1, 0).

Definition re_count_captures : parser Z :=
  n <-- gets total_capture_count ;;
  if n <? 0 then
    '(n, named) <-- lift (re_parse_captures None) ;;
    _ <-- set_total_captures n named ;; pret n
  else pret n.

Definition re_has_named_captures : parser bool :=
  b <-- gets has_named_captures ;;
  _ <-- (if b <? 0 then re_count_captures else pret 0) ;;
  b <-- gets has_named_captures ;;
  pret (negb (b =? 0)).

(** The index of the group [name] among the names stored, -1 if none. *)
Definition find_group_name (name : list Z) : parser Z := fun s =>
  let names := group_names s in
  (lift (loop (S (length (db_buf names))) (fun st : Z * Z =>
    let '(p, capture_index) := st in
    if p <? db_size names then
      len ← c_strlen (db_buf names) p;
      n ← aread (db_buf names) p len;
      mret (if bool_decide (n = name) then inr capture_index else inl (p + len + 1, capture_index + 1))
    else mret (inr (-1))) (0, 1))) s.

(** ** Terms *)

(** An atom parsed: the pointer behind it, the start of its code (-1 for none) and the
    number of captures before it. *)
Definition atom : Type := Z * Z * Z.

(** [last_atom_start] and [last_capture_count] at the current position. *)
Definition atom_start : parser (Z * Z) :=
  start <-- code_size ;;
  n <-- gets s_capture_count ;;
  pret (s32 start, n).

(** [x] between two [REOP_prev] in a backward direction. *)
Definition directed {A} (is_backward_dir : bool) (x : parser A) : parser A :=
  _ <-- (if is_backward_dir then re_emit_op REOP_prev else pret tt) ;;
  r <-- x ;;
  _ <-- (if is_backward_dir then re_emit_op REOP_prev else pret tt) ;;
  pret r.

Definition emit_char (c : Z) : parser unit :=
  c <-- (if e_ignore_case env then lift (lre_canonicalize c (e_is_utf16 env)) else pret c) ;;
  if c <=? 0xffff then re_emit_op_u16 REOP_char c
  else _ <-- re_emit_op_u32 REOP_char32 c ;; pret tt.

(** The label [normal_char] of [re_parse_term]. *)
Definition term_char (is_backward_dir : bool) (a : class_atom) : parser atom :=
  let '(c, cr, p) := a in
  '(start, count) <-- atom_start ;;
  _ <-- directed is_backward_dir
    (if c >=? CLASS_RANGE_BASE then
       match cr with
       | None => lift Undef
       | Some cr => _ <-- re_emit_range cr ;; p_cr_free cr
       end
     else emit_char c) ;;
  pret (p, start, count).

(** The label [parse_class_atom]. *)
Definition parse_class_atom (is_backward_dir : bool) (p : Z) : parser atom :=
  a <-- get_class_atom p false ;; term_char is_backward_dir a.

(** The label [emit_back_reference]. *)
Definition emit_back_reference (is_backward_dir : bool) (p c : Z) : parser atom :=
  '(start, count) <-- atom_start ;;
  _ <-- re_emit_op_u8 (if is_backward_dir then REOP_backward_back_reference else REOP_back_reference) c ;;
  pret (p, start, count).

(** Up to [n] octal digits from [p]. *)
Fixpoint octal_digits (n : nat) (p c : Z) : outcome (Z * Z) :=
  match n with
  | O => mret (c, p)
  | S n =>
      d ← aget (buf env) p;
      if (48 <=? d) && (d <=? 55) then octal_digits n (p + 1) ((c << 3) + d - 48) else mret (c, p)
  end.

(** The escapes of a decimal digit not 0; [p] is at the digit. *)
Definition decimal_escape (is_backward_dir : bool) (p : Z) : parser atom :=
  '(c, q) <-- lift (parse_digits (buf env) p false) ;;
  count <-- gets s_capture_count ;;
  total <-- (if (c >=? 0) && (c >=? count) then re_count_captures else pret 0) ;;
  if (c <? 0) || ((c >=? count) && (c >=? total)) then
    if negb (e_is_utf16 env) then
      d <-- peek p ;;
      '(c, p) <-- (if d <=? 55 then
                     if d <=? 51 then lift (octal_digits 2 (p + 1) (d - 48)) else lift (octal_digits 2 p 0)
                   else pret (d, p + 1)) ;;
      term_char is_backward_dir (c, None, p)
    else re_parse_error "back reference out of range in regular expression"
  else emit_back_reference is_backward_dir q c.

(** [\k]: [p] is at the backslash. *)
Definition named_back_reference (is_backward_dir : bool) (p : Z) : parser atom :=
  let tolerate (msg : string) : parser atom :=
    named <-- (if e_is_utf16 env then pret true else re_has_named_captures) ;;
    if (named : bool) then re_parse_error msg else parse_class_atom is_backward_dir p in
  c2 <-- peek (p + 2) ;;
  if negb (c2 =? 60) then tolerate "expecting group name"%string
  else
    r <-- lift (re_parse_group_name (buf env) (p + 3) TMP_BUF_SIZE (e_is_utf16 env)) ;;
    match r with
    | None => tolerate "invalid group name"%string
    | Some (name, p1) =>
        c <-- find_group_name name ;;
        c <-- (if c <? 0 then r <-- lift (re_parse_captures (Some name)) ;; pret r.1 else pret c) ;;
        if c <? 0 then tolerate "group name not defined"%string else emit_back_reference is_backward_dir p1 c
    end.

Definition simple_op (p : Z) (op : REOPCodeEnum) : parser atom := _ <-- re_emit_op op ;; pret (p, -1, 0).

Section Term.
(** [re_parse_disjunction] one level deeper. *)
Context (rec : bool -> parser unit).

(** The body of a group from [p], its closing parenthesis checked by the caller. *)
Definition group_body (is_backward_dir : bool) (p : Z) : parser Z :=
  _ <-- set_buf_ptr p ;; _ <-- rec is_backward_dir ;; gets buf_ptr.

Definition lookahead (p : Z) (is_neg is_backward_lookahead : bool) : parser atom :=
  '(start, count) <-- (if negb (e_is_utf16 env) && negb is_backward_lookahead then atom_start else pret (-1, 0)) ;;
  pos <-- re_emit_op_u32 (if is_neg then REOP_negative_lookahead else REOP_lookahead) 0 ;;
  p <-- group_body is_backward_lookahead p ;;
  p <-- re_parse_expect p 41 ;;
  _ <-- re_emit_op REOP_match ;;
  err <-- gets (fun s => db_error (byte_code s)) ;;
  if (err : bool) then silent_error
  else
    size <-- code_size ;;
    _ <-- code_put_u32 pos (u32 (size - (pos + 4))) ;;
    pret (p, start, count).

(** The label [parse_capture]; [p] is behind the opening of the group. *)
Definition parse_capture (is_backward_dir : bool) (p : Z) : parser atom :=
  n <-- gets s_capture_count ;;
  if n >=? CAPTURE_COUNT_MAX then re_parse_error "too many captures"
  else
    '(start, count) <-- atom_start ;;
    _ <-- set_capture_count (n + 1) ;;
    _ <-- re_emit_op_u8 (if is_backward_dir then REOP_save_end else REOP_save_start) n ;;
    p <-- group_body is_backward_dir p ;;
    _ <-- re_emit_op_u8 (if is_backward_dir then REOP_save_start else REOP_save_end) n ;;
    p <-- re_parse_expect p 41 ;;
    pret (p, start, count).

(** [p] is at the opening parenthesis. *)
Definition parse_group (is_backward_dir : bool) (p : Z) : parser atom :=
  c1 <-- peek (p + 1) ;;
  if negb (c1 =? 63) then
    _ <-- on_names (fun b => dbuf_putc b 0) ;; parse_capture is_backward_dir (p + 1)
  else
    c2 <-- peek (p + 2) ;;
    if c2 =? 58 then
      '(start, count) <-- atom_start ;;
      p <-- group_body is_backward_dir (p + 3) ;;
      p <-- re_parse_expect p 41 ;;
      pret (p, start, count)
    else if (c2 =? 61) || (c2 =? 33) then lookahead (p + 3) (c2 =? 33) false
    else if negb (c2 =? 60) then re_parse_error "invalid group"
    else
      c3 <-- peek (p + 3) ;;
      if (c3 =? 61) || (c3 =? 33) then lookahead (p + 4) (c3 =? 33) true
      else
        r <-- lift (re_parse_group_name (buf env) (p + 3) TMP_BUF_SIZE (e_is_utf16 env)) ;;
        match r with
        | None => re_parse_error "invalid group name"
        | Some (name, p) =>
            k <-- find_group_name name ;;
            if k >? 0 then re_parse_error "duplicate group name"
            else
              _ <-- on_names (fun b => dbuf_put b (name ++ [0])) ;;
              _ <-- set_has_named 1 ;;
              parse_capture is_backward_dir p
        end.

(** Does the text from [p] (at a brace) look like a repetition count? *)
Definition looks_like_count (p : Z) : outcome bool :=
  r ← parse_digits (buf env) (p + 1) true;
  let p1 := r.2 in
  c ← aget (buf env) p1;
  if c =? 44 then
    d ← aget (buf env) (p1 + 1);
    p1 ← (if is_digit d then r ← parse_digits (buf env) (p1 + 1) true; mret r.2 else mret (p1 + 1));
    c ← aget (buf env) p1;
    mret (c =? 125)
  else mret (c =? 125).

Definition re_parse_atom (is_backward_dir : bool) : parser atom :=
  p <-- gets buf_ptr ;;
  c <-- peek p ;;
  let class_atom := parse_class_atom is_backward_dir p in
  if c =? 94 then simple_op (p + 1) REOP_line_start
  else if c =? 36 then simple_op (p + 1) REOP_line_end
  else if c =? 46 then
    '(start, count) <-- atom_start ;;
    _ <-- directed is_backward_dir (re_emit_op (if e_dotall env then REOP_any else REOP_dot)) ;;
    pret (p + 1, start, count)
  else if c =? 123 then
    if e_is_utf16 env then re_parse_error "syntax error"
    else
      d <-- peek (p + 1) ;;
      if negb (is_digit d) then class_atom
      else
        b <-- lift (looks_like_count p) ;;
        if (b : bool) then re_parse_error "nothing to repeat" else class_atom
  else if (c =? 42) || (c =? 43) || (c =? 63) then re_parse_error "nothing to repeat"
  else if c =? 40 then parse_group is_backward_dir p
  else if c =? 92 then
    c1 <-- peek (p + 1) ;;
    if c1 =? 98 then simple_op (p + 2) REOP_word_boundary
    else if c1 =? 66 then simple_op (p + 2) REOP_not_word_boundary
    else if c1 =? 107 then named_back_reference is_backward_dir p
    else if c1 =? 48 then
      d <-- peek (p + 2) ;;
      if e_is_utf16 env then
        if is_digit d then re_parse_error "invalid decimal escape in regular expression"
        else term_char is_backward_dir (0, None, p + 2)
      else
        '(c, p) <-- lift (octal_digits 2 (p + 2) 0) ;;
        term_char is_backward_dir (c, None, p)
    else if (49 <=? c1) && (c1 <=? 57) then decimal_escape is_backward_dir (p + 1)
    else class_atom
  else if c =? 91 then
    '(start, count) <-- atom_start ;;
    p <-- directed is_backward_dir (re_parse_char_class p) ;;
    pret (p, start, count)
  else if ((c =? 93) || (c =? 125)) && e_is_utf16 env then re_parse_error "syntax error"
  else class_atom.
End Term.

(** ** Quantifiers *)

(** [quant_min], [quant_max] and the pointer behind the count from [p]; [None]: no quantifier. *)
Definition parse_quantifier (p : Z) : parser (option (Z * Z * Z)) :=
  c <-- peek p ;;
  if c =? 42 then pret (Some (0, INT32_MAX, p + 1))
  else if c =? 43 then pret (Some (1, INT32_MAX, p + 1))
  else if c =? 63 then pret (Some (0, 1, p + 1))
  else if c =? 123 then
    d <-- peek (p + 1) ;;
    if negb (is_digit d) then
      if e_is_utf16 env then re_parse_error "invalid repetition count" else pret None
    else
      '(quant_min, q) <-- lift (parse_digits (buf env) (p + 1) true) ;;
      c <-- peek q ;;
      '(quant_max, q) <-- (if c =? 44 then
          d <-- peek (q + 1) ;;
          if is_digit d then
            '(quant_max, q) <-- lift (parse_digits (buf env) (q + 1) true) ;;
            if quant_max <? quant_min then re_parse_error "invalid repetition count" else pret (quant_max, q)
          else pret (INT32_MAX, q + 1)
        else pret (quant_min, q)) ;;
      c <-- peek q ;;
      if negb (c =? 125) && negb (e_is_utf16 env) then pret None
      else q <-- re_parse_expect q 125 ;; pret (Some (quant_min, quant_max, q))
  else pret None.

(** [dbuf_insert(&s->byte_code, ...)] with its error. *)
Definition code_insert (pos len : Z) : parser unit :=
  r <-- on_code (fun b => dbuf_insert b pos len) ;;
  if negb (r =? 0) then re_parse_out_of_memory else pret tt.

Definition code_check : parser unit :=
  err <-- gets (fun s => db_error (byte_code s)) ;;
  if (err : bool) then re_parse_out_of_memory else pret tt.

(** The code of the atom: [byte_code.buf + last_atom_start] up to the size. *)
Definition atom_code (start : Z) : parser (list Z) := fun s =>
  bc ← aread (db_buf (byte_code s)) start (db_size (byte_code s) - start); pret bc s.

Definition split_op (greedy : bool) : REOPCodeEnum := if greedy then REOP_split_next_first else REOP_split_goto_first.
(** [REOP_split_next_first - greedy] *)
Definition split_back_op (greedy : bool) : REOPCodeEnum := if greedy then REOP_split_goto_first else REOP_split_next_first.

(** An optimized greedy quantifier over [len] characters. *)
Definition simple_quantifier (start quant_min quant_max len : Z) : parser unit :=
  _ <-- re_emit_op REOP_match ;;
  _ <-- code_insert start 17 ;;
  _ <-- code_set start (reop_code REOP_simple_greedy_quant) ;;
  size <-- code_size ;;
  _ <-- code_put_u32 (start + 1) (u32 (size - start - 17)) ;;
  _ <-- code_put_u32 (start + 5) quant_min ;;
  _ <-- code_put_u32 (start + 9) quant_max ;;
  code_put_u32 (start + 13) len.

(** [quant_min = 0]: the code of the atom, of [len] bytes, starts at [start]. *)
Definition quantifier_min0 (start len quant_max : Z) (greedy add_zero_advance_check : bool) : parser unit :=
  let z := b2z add_zero_advance_check in
  if quant_max =? 0 then
    fun s => set_byte_code (db_set_size (byte_code s) start) s
  else if quant_max =? 1 then
    _ <-- code_insert start 5 ;;
    _ <-- code_set start (reop_code (split_op greedy)) ;;
    code_put_u32 (start + 1) len
  else if quant_max =? INT32_MAX then
    _ <-- code_insert start (5 + z) ;;
    _ <-- code_set start (reop_code (split_op greedy)) ;;
    _ <-- code_put_u32 (start + 1) (len + 5 + z) ;;
    if add_zero_advance_check then
      _ <-- code_set (start + 1 + 4) (reop_code REOP_push_char_pos) ;;
      _ <-- re_emit_goto REOP_bne_char_pos start ;; pret tt
    else _ <-- re_emit_goto REOP_goto start ;; pret tt
  else
    _ <-- code_insert start 10 ;;
    _ <-- code_set start (reop_code REOP_push_i32) ;;
    _ <-- code_put_u32 (start + 1) quant_max ;;
    _ <-- code_set (start + 5) (reop_code (split_op greedy)) ;;
    _ <-- code_put_u32 (start + 6) (len + 5) ;;
    _ <-- re_emit_goto REOP_loop (start + 5) ;;
    re_emit_op REOP_drop.

(** The repetitions above [quant_min], by a copy of the atom. *)
Definition quantifier_more (start len quant_min quant_max : Z) (greedy add_zero_advance_check : bool) : parser unit :=
  let copy := emit (fun b => dbuf_put_self b start len) in
  if quant_max =? INT32_MAX then
    pos <-- code_size ;;
    _ <-- re_emit_op_u32 (split_op greedy) (len + 5 + b2z add_zero_advance_check) ;;
    _ <-- (if add_zero_advance_check then re_emit_op REOP_push_char_pos else pret tt) ;;
    _ <-- copy ;;
    _ <-- re_emit_goto (if add_zero_advance_check then REOP_bne_char_pos else REOP_goto) (s32 pos) ;;
    pret tt
  else if quant_max >? quant_min then
    _ <-- re_emit_op_u32 REOP_push_i32 (quant_max - quant_min) ;;
    pos <-- code_size ;;
    _ <-- re_emit_op_u32 (split_op greedy) (len + 5) ;;
    _ <-- copy ;;
    _ <-- re_emit_goto REOP_loop (s32 pos) ;;
    re_emit_op REOP_drop
  else pret tt.

Definition general_quantifier (start last_capture_count quant_min quant_max : Z) (greedy add_zero_advance_check : bool)
    : parser unit :=
  size <-- code_size ;;
  let len := s32 (size - start) in
  if quant_min =? 0 then
    count <-- gets s_capture_count ;;
    if negb (last_capture_count =? count) then
      _ <-- code_insert start 3 ;;
      _ <-- code_set start (reop_code REOP_save_reset) ;;
      _ <-- code_set (start + 1) last_capture_count ;;
      _ <-- code_set (start + 2) (count - 1) ;;
      quantifier_min0 (start + 3) len quant_max greedy add_zero_advance_check
    else quantifier_min0 start len quant_max greedy add_zero_advance_check
  else if (quant_min =? 1) && (quant_max =? INT32_MAX) && negb add_zero_advance_check then
    _ <-- re_emit_goto (split_back_op greedy) start ;; pret tt
  else if quant_min =? 1 then
    quantifier_more start len quant_min quant_max greedy add_zero_advance_check
  else
    _ <-- code_insert start 5 ;;
    _ <-- code_set start (reop_code REOP_push_i32) ;;
    _ <-- code_put_u32 (start + 1) quant_min ;;
    _ <-- re_emit_goto REOP_loop (start + 5) ;;
    _ <-- re_emit_op REOP_drop ;;
    quantifier_more (start + 5) len quant_min quant_max greedy add_zero_advance_check.

(** The code of a quantifier behind the atom at [start]. *)
Definition emit_quantifier (start last_capture_count quant_min quant_max : Z) (greedy : bool) : parser unit :=
  let general z := general_quantifier start last_capture_count quant_min quant_max greedy z in
  if greedy then
    len <-- (if quant_max >? 0 then
               _ <-- code_check ;; bc <-- atom_code start ;; lift (re_is_simple_quantifier bc)
             else pret 0) ;;
    if len >? 0 then simple_quantifier start quant_min quant_max len
    else
      _ <-- code_check ;;
      bc <-- atom_code start ;;
      adv <-- lift (re_check_advance bc) ;;
      general (adv =? 0)
  else general false.

Definition re_parse_term (rec : bool -> parser unit) (is_backward_dir : bool) : parser unit :=
  '(p, start, count) <-- re_parse_atom rec is_backward_dir ;;
  if start <? 0 then set_buf_ptr p
  else
    q <-- parse_quantifier p ;;
    match q with
    | None => set_buf_ptr p
    | Some (quant_min, quant_max, p) =>
        d <-- peek p ;;
        let greedy := negb (d =? 63) in
        _ <-- emit_quantifier start count quant_min quant_max greedy ;;
        set_buf_ptr (if greedy then p else p + 1)
    end.

(** The last term, from [term_start], is moved before the code from [start]. *)
Definition reverse_term (start term_start : Z) : parser unit :=
  end_ <-- code_size ;;
  let term_size := end_ - term_start in
  r <-- on_code (fun b => mret (dbuf_realloc b (end_ + term_size))) ;;
  if negb (r =? 0) then silent_error
  else fun s =>
    let b := db_buf (byte_code s) in
    data ← aread b start (end_ - start);
    b ← awrite b (start + term_size) data;
    data ← aread b end_ term_size;
    b ← awrite b start data;
    set_byte_code (db_set_buf (byte_code s) b) s.

Fixpoint alternative_terms (rec : bool -> parser unit) (is_backward_dir : bool) (start : Z) (n : nat) : parser unit :=
  match n with
  | O => lift Fuel
  | S n =>
      p <-- gets buf_ptr ;;
      if p >=? buf_end env then pret tt
      else
        c <-- peek p ;;
        if (c =? 124) || (c =? 41) then pret tt
        else
          term_start <-- code_size ;;
          _ <-- re_parse_term rec is_backward_dir ;;
          _ <-- (if is_backward_dir then reverse_term start term_start else pret tt) ;;
          alternative_terms rec is_backward_dir start n
  end.

Definition re_parse_alternative (rec : bool -> parser unit) (is_backward_dir : bool) : parser unit :=
  start <-- code_size ;;
  alternative_terms rec is_backward_dir start (S (length (buf env))).

(** The alternatives behind the first; [start]: where the code of the disjunction starts. *)
Fixpoint more_alternatives (alternative : parser unit) (start : Z) (n : nat) : parser unit :=
  match n with
  | O => lift Fuel
  | S n =>
      p <-- gets buf_ptr ;;
      c <-- peek p ;;
      if negb (c =? 124) then pret tt
      else
        _ <-- set_buf_ptr (p + 1) ;;
        size <-- code_size ;;
        let len := s32 (size - start) in
        _ <-- code_insert start 5 ;;
        _ <-- code_set start (reop_code REOP_split_next_first) ;;
        _ <-- code_put_u32 (start + 1) (len + 5) ;;
        pos <-- re_emit_op_u32 REOP_goto 0 ;;
        _ <-- alternative ;;
        size <-- code_size ;;
        _ <-- code_put_u32 pos (s32 (size - (pos + 4))) ;;
        more_alternatives alternative start n
  end.

(** [lre_check_stack_overflow] of the embedding program, as a function of the recursion depth. *)
Context (lre_check_stack_overflow : nat -> bool).

Fixpoint re_parse_disjunction (depth_left depth : nat) (is_backward_dir : bool) : parser unit :=
  match depth_left with
  | O => lift Fuel
  | S depth_left =>
      if lre_check_stack_overflow depth then re_parse_error "stack overflow"
      else
        let alternative := re_parse_alternative (re_parse_disjunction depth_left (S depth)) is_backward_dir in
        start <-- code_size ;;
        _ <-- alternative ;;
        more_alternatives alternative (s32 start) (S (length (buf env)))
  end.

(** ** The compiler *)

(** The largest depth of the stack; -1 above [STACK_SIZE_MAX]. *)
Definition compute_stack_size (bc_buf : list Z) (bc_buf_len : Z) : outcome Z :=
  let bc := drop (Z.to_nat RE_HEADER_LEN) bc_buf in
  let bc_len := bc_buf_len - RE_HEADER_LEN in
  loop (S (length bc)) (fun st : Z * Z * Z =>
    let '(pos, stack_size, stack_size_max) := st in
    if pos <? bc_len then
      b ← aget bc pos;
      match reop_of b with
      | None => Undef
      | Some op =>
          _ ← c_assert (pos + reop_size op <=? bc_len);
          len ← instr_len bc pos op;
          match op with
          | REOP_push_i32 | REOP_push_char_pos =>
              let stack_size := stack_size + 1 in
              mret (if stack_size >? stack_size_max then
                      if stack_size >? STACK_SIZE_MAX then inr (-1) else inl (pos + len, stack_size, stack_size)
                    else inl (pos + len, stack_size, stack_size_max))
          | REOP_drop | REOP_bne_char_pos =>
              _ ← c_assert (stack_size >? 0);
              mret (inl (pos + len, stack_size - 1, stack_size_max))
          | _ => mret (inl (pos + len, stack_size, stack_size_max))
          end
      end
    else mret (inr stack_size_max)) (0, 0, 0).

(** The code up to the analysis of the stack. *)
Definition compile_body (depth_left : nat) (re_flags : Z) : parser unit :=
  _ <-- emit (fun b => dbuf_putc b re_flags) ;;
  _ <-- emit (fun b => dbuf_putc b 0) ;;
  _ <-- emit (fun b => dbuf_putc b 0) ;;
  _ <-- emit (fun b => dbuf_put_u32 b 0) ;;
  _ <-- (if re_flags .& LRE_FLAG_STICKY =? 0 then
           _ <-- re_emit_op_u32 REOP_split_goto_first (1 + 5) ;;
           _ <-- re_emit_op REOP_any ;;
           _ <-- re_emit_op_u32 REOP_goto (u32 (- (5 + 1 + 5))) ;; pret tt
         else pret tt) ;;
  _ <-- re_emit_op_u8 REOP_save_start 0 ;;
  _ <-- re_parse_disjunction depth_left 0 false ;;
  _ <-- re_emit_op_u8 REOP_save_end 0 ;;
  _ <-- re_emit_op REOP_match ;;
  p <-- gets buf_ptr ;;
  c <-- peek p ;;
  if negb (c =? 0) then re_parse_error "extraneous characters at the end" else code_check.

(** The header. *)
Definition compile_sizes : parser unit :=
  stack_size <-- (fun s => lift (compute_stack_size (db_buf (byte_code s)) (db_size (byte_code s))) s) ;;
  if stack_size <? 0 then re_parse_error "too many imbricated quantifiers"
  else
    count <-- gets s_capture_count ;;
    _ <-- code_set RE_HEADER_CAPTURE_COUNT count ;;
    _ <-- code_set RE_HEADER_STACK_SIZE stack_size ;;
    size <-- code_size ;;
    code_put_u32 3 (u32 (size - RE_HEADER_LEN)).

(** The named groups, if needed. *)
Definition compile_names : parser unit :=
  count <-- gets s_capture_count ;;
  names <-- gets group_names ;;
  if db_size names >? count - 1 then
    data <-- lift (aread (db_buf names) 0 (db_size names)) ;;
    _ <-- emit (fun b => dbuf_put b data) ;;
    flags <-- (fun s => lift (aget (db_buf (byte_code s)) RE_HEADER_FLAGS) s) ;;
    code_set RE_HEADER_FLAGS (flags .| LRE_FLAG_NAMED_GROUPS)
  else pret tt.

Definition compile_header : parser unit := _ <-- compile_sizes ;; compile_names.
End Parse.

(** The bytecode ([None] for [NULL]) or the error message. *)
Definition lre_compile `{Realloc} (fuel depth_left : nat) (lre_check_stack_overflow : nat -> bool)
    (buf : list Z) (buf_len re_flags : Z) (opaque : heap) : outcome (list Z + option string) :=
  let env := MkREEnv buf buf_len (negb (re_flags .& LRE_FLAG_UTF16 =? 0))
    (negb (re_flags .& LRE_FLAG_IGNORECASE =? 0)) (negb (re_flags .& LRE_FLAG_DOTALL =? 0)) in
  let s := MkREParseState (dbuf_init2 opaque) 0 1 (-1) (-1) (dbuf_init2 opaque) in
  r ← (pbind (compile_body env fuel lre_check_stack_overflow depth_left re_flags) (fun _ => compile_header)) s;
  match r with
  | POk _ _ s => bc ← aread (db_buf (byte_code s)) 0 (db_size (byte_code s)); mret (inl bc)
  | PErr _ msg => mret (inr msg)
  end.

(** ** Examples *)

Definition compile (re_flags : Z) (pattern : string) : outcome (list Z + option string) :=
  @lre_compile (limited_heap 1000000) 10 50 (fun d => (20 <? d)%nat) (c_bytes pattern ++ [0]) (zlen (c_bytes pattern)) re_flags tt.
Definition exec (re_flags : Z) (pattern text : string) : outcome (Z * list (option Z)) :=
  r ← compile re_flags pattern;
  match r with
  | inl bc => @lre_exec (limited_heap 1000000) 1000 bc (c_bytes text) 0 0 tt
  | inr _ => Undef
  end.
