(* ===== verification/RegexpText.v ===== *)
(** * The text of a match: moving forwards and backwards

    [rank] counts the characters before a position, surrogate pairs as one in
    UTF-16 mode.  It bounds how often the matcher may step back. *)

From S2P Require Import Prelude Cutils DynBuf UnicodeCase RegexpExec.

Section Text.
Context (s : REExecContext) (Htext : Forall (Z.le 0) (cbuf s)).

(** [j] is not in the middle of a surrogate pair. *)
Definition boundary (j : nat) : bool :=
  match j with
  | O => true
  | S i => match cbuf s !! i, cbuf s !! j with
           | Some hi, Some lo => negb ((cbuf_type s =? 2) && is_hi hi && is_lo lo)
           | _, _ => true
           end
  end.

Fixpoint rank (n : nat) : nat :=
  match n with O => O | S k => (rank k + if boundary k then 1 else 0)%nat end.

Definition rankz (i : Z) : Z := Z.of_nat (rank (Z.to_nat i)).
Definition boundaryz (i : Z) : bool := boundary (Z.to_nat i).

Lemma hi_not_lo c : is_hi c = true -> is_lo c = false.
Proof.
  unfold is_hi, is_lo. rewrite andb_true_iff, andb_false_iff, Z.leb_le, Z.ltb_lt, Z.leb_gt. lia.
Qed.

Lemma lo_not_hi c : is_lo c = true -> is_hi c = false.
Proof. intros H. destruct (is_hi c) eqn:E; [|done]. apply hi_not_lo in E. congruence. Qed.

Lemma rankz_0 : rankz 0 = 0.
Proof. done. Qed.

Lemma rankz_succ i : 0 <= i -> rankz (i + 1) = rankz i + b2z (boundaryz i).
Proof.
  intros Hi. unfold rankz, boundaryz. replace (Z.to_nat (i + 1)) with (S (Z.to_nat i)) by lia. cbn [rank].
  destruct (boundary (Z.to_nat i)); cbn [b2z]; lia.
Qed.

Lemma rankz_nonneg i : 0 <= rankz i.
Proof. unfold rankz. lia. Qed.

Lemma rankz_pos i : 1 <= i -> 1 <= rankz i.
Proof.
  unfold rankz. intros Hi. replace (Z.to_nat i) with (S (Nat.pred (Z.to_nat i))) by lia.
  induction (Nat.pred (Z.to_nat i)) as [|k IH]; [cbn; lia|]. cbn [rank] in *. lia.
Qed.

Lemma rankz_le i : 0 <= i -> rankz i <= i.
Proof.
  intros Hi. unfold rankz. rewrite <- (Z2Nat.id i) at 2 by done.
  induction (Z.to_nat i) as [|k IH]; [done|]. cbn [rank]. destruct (boundary k); lia.
Qed.

Lemma boundaryz_succ i hi lo :
  0 <= i -> aget (cbuf s) i = Ret hi -> aget (cbuf s) (i + 1) = Ret lo ->
  boundaryz (i + 1) = negb ((cbuf_type s =? 2) && is_hi hi && is_lo lo).
Proof.
  intros Hi [_ H1]%aget_lookup [_ H2]%aget_lookup. unfold boundaryz.
  replace (Z.to_nat (i + 1)) with (S (Z.to_nat i)) in * by lia. cbn [boundary]. by rewrite H1, H2.
Qed.

Lemma boundaryz_end i : zlen (cbuf s) <= i -> boundaryz i = true.
Proof.
  intros Hi. unfold boundaryz. destruct (Z.to_nat i) as [|k] eqn:E; [done|]. cbn [boundary].
  rewrite (lookup_ge_None_2 (cbuf s) (S k)) by zlia. by destruct (cbuf s !! k).
Qed.

Lemma boundaryz_not_lo i c : 0 <= i -> aget (cbuf s) i = Ret c -> is_lo c = false -> boundaryz i = true.
Proof.
  intros Hi [_ Hc]%aget_lookup Hlo. unfold boundaryz. destruct (Z.to_nat i) as [|k] eqn:E; [done|].
  cbn [boundary]. rewrite Hc. destruct (cbuf s !! k); [|done]. by rewrite Hlo, andb_false_r.
Qed.

Lemma cbuf_char i : 0 <= i < zlen (cbuf s) -> exists c, aget (cbuf s) i = Ret c /\ 0 <= c.
Proof.
  intros Hi. destruct (aget_in_range (cbuf s) i Hi) as (c & Hc & Hl). exists c. split; [done|].
  by eapply (proj1 (list.Forall_lookup _ _)) in Hl.
Qed.

Lemma surrogate_pair_nonneg hi lo : 0 <= surrogate_pair hi lo.
Proof.
  unfold surrogate_pair. assert (0 <= ((hi .& 0x3ff) << 10) .| (lo .& 0x3ff)); [|lia].
  apply Z.lor_nonneg. split; [apply Z.shiftl_nonneg|]; apply Z.land_nonneg; lia.
Qed.

(** Stepping forwards, below a limit [e] inside the text. *)
Lemma GET_CHAR_spec i e :
  0 <= i < e -> e <= zlen (cbuf s) ->
  yields (GET_CHAR (cbuf s) (cbuf_type s) i e) (fun '(c, i') => 0 <= c /\ i < i' <= e /\
    (e = zlen (cbuf s) -> boundaryz i' = true /\ rankz i + b2z (boundaryz i) <= rankz i')).
Proof.
  intros Hi He. unfold GET_CHAR. destruct (cbuf_char i ltac:(lia)) as (c & Hc & Hc0). rewrite Hc. cbn [mbind outcome_bind].
  assert (Hsucc := rankz_succ i ltac:(lia)).
  destruct (Z.ltb_spec (i + 1) e) as [Hlt|Hge].
  2:{ rewrite andb_false_r. cbn [yields mret outcome_ret]. split; [done|]. split; [lia|]. intros ->.
      split; [apply boundaryz_end; lia|lia]. }
  rewrite andb_true_r. destruct (cbuf_char (i + 1) ltac:(lia)) as (c1 & Hc1 & Hc10).
  pose proof (boundaryz_succ i c c1 ltac:(lia) Hc Hc1) as Hb.
  destruct (is_hi c) eqn:Ehi, (cbuf_type s =? 2) eqn:Et; cbn [andb]; try (rewrite Hc1; cbn [mbind outcome_bind]).
  1: destruct (is_lo c1) eqn:Elo.
  all: cbn [yields mret outcome_ret].
  { split; [apply surrogate_pair_nonneg|]. split; [lia|]. intros _.
    assert (E2 := rankz_succ (i + 1) ltac:(lia)). rewrite Hb in E2. cbn in E2.
    replace (i + 1 + 1) with (i + 2) in * by lia. split; [|lia].
    destruct (Z_lt_le_dec (i + 2) (zlen (cbuf s))); [|by apply boundaryz_end].
    destruct (cbuf_char (i + 2) ltac:(lia)) as (c2 & Hc2 & _).
    replace (i + 2) with (i + 1 + 1) in * by lia.
    rewrite (boundaryz_succ (i + 1) c1 c2) by (done || lia). by rewrite (lo_not_hi c1), andb_false_r. }
  all: split; [done|]; split; [lia|]; intros _; split; [|lia]; rewrite Hb.
  all: by destruct (is_lo c1).
Qed.

(** Stepping backwards consumes one character. *)
Lemma PREV_CHAR_spec i :
  1 <= i <= zlen (cbuf s) ->
  yields (PREV_CHAR (cbuf s) (cbuf_type s) i 0) (fun i' => 0 <= i' < i /\ rankz i' + 1 = rankz i).
Proof.
  intros Hi. unfold PREV_CHAR. destruct (cbuf_char (i - 1) ltac:(lia)) as (c & Hc & Hc0). rewrite Hc. cbn [mbind outcome_bind].
  assert (H1 := rankz_succ (i - 1) ltac:(lia)). replace (i - 1 + 1) with i in H1 by lia.
  destruct ((cbuf_type s =? 2) && is_lo c) eqn:E; cbn [andb].
  2:{ cbn [yields mret outcome_ret]. split; [lia|]. rewrite H1. replace (boundaryz (i - 1)) with true; [cbn; lia|].
      symmetry. destruct (Z.eq_dec (i - 1) 0) as [->|]; [done|].
      destruct (cbuf_char (i - 2) ltac:(lia)) as (c2 & Hc2 & _).
      replace (i - 1) with (i - 2 + 1) in * by lia. rewrite (boundaryz_succ (i - 2) c2 c) by (done || lia).
      apply negb_true_iff. destruct (cbuf_type s =? 2); [|done]. cbn in E |- *. by rewrite E, andb_false_r. }
  apply andb_true_iff in E as [Et Elo].
  destruct (i - 1 >? 0) eqn:E0.
  2:{ cbn [yields mret outcome_ret]. split; [lia|]. replace (i - 1) with 0 in * by lia. rewrite H1. done. }
  destruct (cbuf_char (i - 2) ltac:(lia)) as (c2 & Hc2 & _). replace (i - 1 - 1) with (i - 2) by lia.
  rewrite Hc2. cbn [mbind outcome_bind yields mret outcome_ret].
  assert (Hb := boundaryz_succ (i - 2) c2 c ltac:(lia) Hc2 ltac:(by replace (i - 2 + 1) with (i - 1) by lia)).
  replace (i - 2 + 1) with (i - 1) in Hb by lia. rewrite Et, Elo in Hb. cbn [andb] in Hb. rewrite andb_true_r in Hb.
  destruct (is_hi c2) eqn:Ehi; cbn [negb] in Hb; rewrite Hb in H1; cbn [b2z] in H1.
  - assert (H2 := rankz_succ (i - 2) ltac:(lia)). replace (i - 2 + 1) with (i - 1) in H2 by lia.
    rewrite (boundaryz_not_lo (i - 2) c2) in H2 by (done || lia || by apply hi_not_lo). cbn in H2. lia.
  - lia.
Qed.

Lemma prev_chars_spec n i :
  0 <= i <= zlen (cbuf s) -> Z.of_nat n <= rankz i ->
  yields (prev_chars s n i) (fun i' => 0 <= i' <= i /\ rankz i' + Z.of_nat n = rankz i).
Proof.
  revert i. induction n as [|n IH]; intros i Hi Hn; cbn [prev_chars].
  { cbn. lia. }
  assert (1 <= i) by (destruct (Z.eq_dec i 0) as [->|]; [rewrite rankz_0 in Hn; lia|lia]).
  apply yields_bind. eapply yields_mono; [apply PREV_CHAR_spec; lia|]. intros i' [H1 H2].
  eapply yields_mono; [apply IH; lia|]. cbn. intros. lia.
Qed.

Lemma PEEK_CHAR_spec i : 0 <= i < zlen (cbuf s) ->
  yields (PEEK_CHAR (cbuf s) (cbuf_type s) i (cbuf_end s)) (fun c => 0 <= c).
Proof.
  intros Hi. unfold PEEK_CHAR, cbuf_end. destruct (cbuf_char i Hi) as (c & -> & Hc0). cbn [mbind outcome_bind].
  destruct (Z.ltb_spec (i + 1) (zlen (cbuf s))); [|by rewrite andb_false_r].
  destruct (_ && _); [|done]. destruct (cbuf_char (i + 1) ltac:(lia)) as (c1 & -> & _). cbn.
  destruct (is_lo c1); [apply surrogate_pair_nonneg|done].
Qed.

Lemma PEEK_PREV_CHAR_spec i : 1 <= i <= zlen (cbuf s) ->
  yields (PEEK_PREV_CHAR (cbuf s) (cbuf_type s) i 0) (fun c => 0 <= c).
Proof.
  intros Hi. unfold PEEK_PREV_CHAR. destruct (cbuf_char (i - 1) ltac:(lia)) as (c & -> & Hc0). cbn [mbind outcome_bind].
  destruct (i - 2 >=? 0) eqn:E; [|by rewrite andb_false_r].
  destruct (_ && _); [|done]. destruct (cbuf_char (i - 2) ltac:(lia)) as (c1 & -> & _). cbn.
  destruct (is_hi c1); [apply surrogate_pair_nonneg|done].
Qed.

Lemma GET_PREV_CHAR_spec i b : 0 <= b < i -> i <= zlen (cbuf s) ->
  yields (GET_PREV_CHAR (cbuf s) (cbuf_type s) i b) (fun '(c, i') => 0 <= c /\ b <= i' < i).
Proof.
  intros Hb Hi. unfold GET_PREV_CHAR. destruct (cbuf_char (i - 1) ltac:(lia)) as (c & -> & Hc0). cbn [mbind outcome_bind].
  destruct (i - 1 >? b) eqn:E; [|rewrite andb_false_r; cbn; lia].
  destruct (_ && _); [|cbn; lia]. destruct (cbuf_char (i - 1 - 1) ltac:(lia)) as (c1 & -> & _). cbn.
  destruct (is_hi c1); [split; [apply surrogate_pair_nonneg|lia]|cbn; lia].
Qed.

Lemma canonicalize_spec c : 0 <= c -> yields (canonicalize s c) (fun _ => True).
Proof.
  intros Hc. unfold canonicalize. destruct (ignore_case s); [|done].
  eapply yields_mono; [by apply lre_canonicalize_stable|]. done.
Qed.
End Text.
