(* ===== verification/RegexpSafe.v ===== *)
(** * Safety of the matcher on well-typed bytecode

    A typing [D pc d] of the bytecode says that an instruction starts at [pc] and is
    reached with a stack of [d] entries.  On typed bytecode the matcher never
    leaves the bytecode, the text, its captures or its stack, whatever
    the text: [exec_safe].  RegexpTyped.v shows that the compiler produces typed code. *)

From S2P Require Import Prelude Cutils DynBuf UnicodeCase RegexpExec RegexpText.

(** ** The search in the ranges *)

Section RangeSearch.
Context (get : Z -> outcome Z) (w n c : Z) (lo hi : Z -> Z).
Hypothesis Hw : 0 <= w.
Hypothesis Hn : 1 <= n < 2 ^ 16.
Hypothesis Hget : forall k, 0 <= k < n -> get (k * (2 * w)) = Ret (lo k) /\ get (k * (2 * w) + w) = Ret (hi k).
Hypothesis Hlow : lo 0 <= c.

Definition in_range (k : Z) : Prop := 0 <= k < n /\ lo k <= c <= hi k.
Definition ranges_sorted : Prop := forall i j, 0 <= i -> i < j -> j < n -> lo i <= hi i /\ hi i < lo j /\ lo j <= hi j.

Lemma range_search_spec :
  yields (range_search get w n c) (fun b =>
    (b = true -> exists k, in_range k) /\ (ranges_sorted -> (exists k, in_range k) -> b = true)).
Proof using Hw Hn Hget Hlow.
  unfold range_search. rewrite (wrap_small 32) by lia.
  apply (loop_yields _ (fun '(a, b) => 0 <= a /\ a <= b + 1 /\ b < n /\ (b < a -> True) /\
      (ranges_sorted -> forall k, in_range k -> a <= k <= b)) (fun '(a, b) => Z.to_nat (b + 1 - a))).
  2: split_and!; try lia; intros _ k [Hk _]; lia.
  2: lia.
  intros [a b] (Ha & Hab & Hb & _ & Hinv). destruct (Z.leb_spec a b) as [Hle|Hgt].
  2:{ cbn [yields mret outcome_ret]. split; [done|]. intros Hs [k Hk]. specialize (Hinv Hs k Hk). lia. }
  rewrite (wrap_small 32 (a + b)) by lia. set (i := (a + b) / 2).
  assert (Hi : a <= i <= b) by (subst i; pose proof (Z.div_mod (a + b) 2); pose proof (Z.mod_pos_bound (a + b) 2); lia).
  destruct (Hget i ltac:(lia)) as [E1 E2]. rewrite E1. cbn [mbind outcome_bind]. rewrite E2. cbn [mbind outcome_bind].
  destruct (Z.ltb_spec c (lo i)) as [Hlt|Hge].
  - assert (i <> 0) by (intros E; rewrite E in Hlt; lia). rewrite (wrap_small 32 (i - 1)) by lia.
    cbn [yields mret outcome_ret]. split; [|lia]. split_and!; try lia.
    intros Hs k Hk. specialize (Hinv Hs k Hk). split; [lia|]. destruct Hk as [Hk1 Hk2].
    destruct (Z_lt_le_dec i k); [destruct (Hs i k); lia|]. destruct (Z.eq_dec k i) as [->|]; lia.
  - destruct (c >? hi i) eqn:Eh.
    + cbn [yields mret outcome_ret]. split; [|lia]. split_and!; try lia.
      intros Hs k Hk. specialize (Hinv Hs k Hk). split; [|lia]. destruct Hk as [Hk1 Hk2].
      destruct (Z_lt_le_dec k i); [destruct (Hs k i); lia|]. destruct (Z.eq_dec k i) as [->|]; lia.
    + cbn [yields mret outcome_ret]. split; [|done]. intros _. exists i. split; lia.
Qed.
End RangeSearch.

(** ** Typing *)

Definition op_at (code : list Z) (pc : Z) (op : REOPCodeEnum) : Prop :=
  exists b, aget code pc = Ret b /\ reop_of b = Some op.

(** The instructions that test one character; [len] is the length of the operands at [pc]. *)
Inductive char_ok (code : list Z) (pc : Z) : REOPCodeEnum -> Z -> Prop :=
| char_ok_dot : char_ok code pc REOP_dot 0
| char_ok_any : char_ok code pc REOP_any 0
| char_ok_char v : get_u16 code pc = Ret v -> char_ok code pc REOP_char 2
| char_ok_char32 v : get_u32 code pc = Ret v -> char_ok code pc REOP_char32 4
| char_ok_range n : get_u16 code pc = Ret n -> 1 <= n < 2 ^ 16 -> 0 <= pc -> pc + 2 + 4 * n <= zlen code ->
    char_ok code pc REOP_range (2 + 4 * n)
| char_ok_range32 n : get_u16 code pc = Ret n -> 1 <= n < 2 ^ 16 -> 0 <= pc -> pc + 2 + 8 * n <= zlen code ->
    char_ok code pc REOP_range32 (2 + 8 * n).

(** The instructions that test a position. *)
Definition zero_width (op : REOPCodeEnum) : bool :=
  match op with REOP_line_start | REOP_line_end | REOP_word_boundary | REOP_not_word_boundary => true | _ => false end.

(** The code from [pc] tests [n] characters and then matches. *)
Inductive simple_run (code : list Z) : Z -> Z -> Prop :=
| simple_match pc : op_at code pc REOP_match -> simple_run code pc 0
| simple_zero pc op n : op_at code pc op -> zero_width op = true -> simple_run code (pc + 1) n -> simple_run code pc n
| simple_char pc op len n : op_at code pc op -> char_ok code (pc + 1) op len -> simple_run code (pc + 1 + len) n ->
    simple_run code pc (n + 1).

Section Typed.
Context (code : list Z) (captures stack_max : Z) (D : Z -> Z -> Prop).

(** The instruction [op] with its operands at [pc], reached with [d] entries. *)
Inductive op_ok (pc d : Z) : REOPCodeEnum -> Prop :=
| ok_zero op : zero_width op = true -> D pc d -> op_ok pc d op
| ok_prev : D pc d -> op_ok pc d REOP_prev
| ok_char op len : char_ok code pc op len -> D (pc + len) d -> op_ok pc d op
| ok_match : op_ok pc d REOP_match
| ok_goto v : get_u32 code pc = Ret v -> D (pc + 4 + s32 v) d -> op_ok pc d REOP_goto
| ok_split op v : op ∈ [REOP_split_goto_first; REOP_split_next_first; REOP_lookahead; REOP_negative_lookahead] ->
    get_u32 code pc = Ret v -> D (pc + 4) d -> D (pc + 4 + s32 v) d -> op_ok pc d op
| ok_save op val : op = REOP_save_start \/ op = REOP_save_end ->
    aget code pc = Ret val -> 0 <= val < captures -> D (pc + 1) d -> op_ok pc d op
| ok_reset val val2 : aget code pc = Ret val -> aget code (pc + 1) = Ret val2 ->
    0 <= val -> val2 < captures -> D (pc + 2) d -> op_ok pc d REOP_save_reset
| ok_push_i32 v : get_u32 code pc = Ret v -> d < stack_max -> D (pc + 4) (d + 1) -> op_ok pc d REOP_push_i32
| ok_push_char_pos : d < stack_max -> D pc (d + 1) -> op_ok pc d REOP_push_char_pos
| ok_drop : 1 <= d -> D pc (d - 1) -> op_ok pc d REOP_drop
| ok_loop v : get_u32 code pc = Ret v -> 1 <= d -> D (pc + 4) d -> D (pc + 4 + s32 v) d -> op_ok pc d REOP_loop
| ok_bne v : get_u32 code pc = Ret v -> 1 <= d -> D (pc + 4) (d - 1) -> D (pc + 4 + s32 v) (d - 1) ->
    op_ok pc d REOP_bne_char_pos
| ok_back op val : op = REOP_back_reference \/ op = REOP_backward_back_reference ->
    aget code pc = Ret val -> 0 <= val -> D (pc + 1) d -> op_ok pc d op
| ok_quant n q1 q2 next : get_u32 code pc = Ret next -> get_u32 code (pc + 4) = Ret q1 -> get_u32 code (pc + 8) = Ret q2 ->
    get_u32 code (pc + 12) = Ret n -> 1 <= n -> 0 <= q1 -> simple_run code (pc + 16) n -> D (pc + 16 + s32 next) d ->
    op_ok pc d REOP_simple_greedy_quant.

Definition typed : Prop := forall pc d, D pc d -> exists op, op_at code pc op /\ op_ok (pc + 1) d op.

End Typed.

(** Bytecode with its header: the typing starts behind the header, with an empty stack. *)
Definition well_typed (bc_buf : list Z) : Prop :=
  Forall is_byte bc_buf /\
  exists re_flags captures stack_size D,
    aget bc_buf RE_HEADER_FLAGS = Ret re_flags /\ aget bc_buf RE_HEADER_CAPTURE_COUNT = Ret captures /\
    aget bc_buf RE_HEADER_STACK_SIZE = Ret stack_size /\ typed bc_buf captures stack_size D /\ D RE_HEADER_LEN 0.

(** What the proofs need of the context. *)
Record context_ok (s : REExecContext) (D : Z -> Z -> Prop) : Prop := {
  cx_text : Forall (Z.le 0) (cbuf s);
  cx_code : Forall is_byte (re_code s);
  cx_typed : typed (re_code s) (capture_count s) (stack_size_max s) D
}.

(** ** Reads of the bytecode *)

Lemma aread_len {A} (l : list A) p n r : aread l p n = Ret r -> zlen r = n /\ 0 <= p /\ p + n <= zlen l.
Proof.
  unfold aread. case_match eqn:E; [|done]. intros [= <-].
  rewrite !andb_true_iff, !Z.leb_le in E. unfold zlen in *. rewrite length_take, length_drop. lia.
Qed.

Lemma get_le_range code p n v (k : Z) :
  Forall is_byte code -> le_combine <$> aread code p k = Ret v -> n = 256 ^ k -> 0 <= v < n.
Proof.
  intros Hb E ->. destruct (aread code p k) as [r| |] eqn:Er; [|done|done]. injection E as <-.
  destruct (aread_len _ _ _ _ Er) as [<- _]. apply le_combine_range. by eapply Forall_aread.
Qed.

Lemma get_u16_range code p v : Forall is_byte code -> get_u16 code p = Ret v -> 0 <= v < 65536.
Proof. intros Hb E. by apply (get_le_range code p _ v 2 Hb E). Qed.
Lemma get_u32_range code p v : Forall is_byte code -> get_u32 code p = Ret v -> 0 <= v < 4294967296.
Proof. intros Hb E. by apply (get_le_range code p _ v 4 Hb E). Qed.

Lemma get_u16_in code p : Forall is_byte code -> 0 <= p -> p + 2 <= zlen code ->
  exists v, get_u16 code p = Ret v /\ 0 <= v < 65536.
Proof.
  intros Hb H1 H2. unfold get_u16. rewrite aread_ok by lia. eexists. split; [reflexivity|].
  apply (get_le_range code p _ _ 2); [done| |done]. by rewrite aread_ok by lia.
Qed.
Lemma get_u32_in code p : Forall is_byte code -> 0 <= p -> p + 4 <= zlen code ->
  exists v, get_u32 code p = Ret v /\ 0 <= v < 4294967296.
Proof.
  intros Hb H1 H2. unfold get_u32. rewrite aread_ok by lia. eexists. split; [reflexivity|].
  apply (get_le_range code p _ _ 4); [done| |done]. by rewrite aread_ok by lia.
Qed.

(** The ranges behind the opcode never leave the code. *)
Lemma range_match_yields code pc n c :
  Forall is_byte code -> 0 <= pc -> 1 <= n < 2 ^ 16 -> pc + 4 * n <= zlen code ->
  yields (range_match code pc n c) (fun _ => True).
Proof.
  intros Hb Hp Hn Hl. unfold range_match.
  destruct (get_u16_in code pc Hb ltac:(lia) ltac:(lia)) as (low & Elow & _). rewrite Elow. cbn [mbind outcome_bind].
  destruct (Z.ltb_spec c low) as [|Hlow]; [done|]. rewrite (wrap_small 32 (n - 1)), (wrap_small 32) by lia.
  destruct (get_u16_in code (pc + (n - 1) * 4 + 2) Hb ltac:(lia) ltac:(lia)) as (high & -> & _). cbn [mbind outcome_bind].
  destruct (_ && _); [done|]. destruct (c >? high); [done|].
  set (val := fun p => match get_u16 code p with Ret v => v | _ => 0 end).
  assert (Hval : forall p, 0 <= p -> p + 2 <= zlen code -> get_u16 code p = Ret (val p)).
  { intros p H1 H2. unfold val. by destruct (get_u16_in code p Hb H1 H2) as (v & -> & _). }
  eapply yields_mono.
  - eapply (range_search_spec _ 2 n c (fun k => val (pc + k * (2 * 2))) (fun k => val (pc + (k * (2 * 2) + 2)))); try lia.
    + intros k Hk. split; apply Hval; lia.
    + unfold val. replace (pc + 0 * (2 * 2)) with pc by lia. by rewrite Elow.
  - done.
Qed.

Lemma range32_match_yields code pc n c :
  Forall is_byte code -> 0 <= pc -> 1 <= n < 2 ^ 16 -> pc + 8 * n <= zlen code ->
  yields (range32_match code pc n c) (fun _ => True).
Proof.
  intros Hb Hp Hn Hl. unfold range32_match.
  destruct (get_u32_in code pc Hb ltac:(lia) ltac:(lia)) as (low & Elow & _). rewrite Elow. cbn [mbind outcome_bind].
  destruct (Z.ltb_spec c low) as [|Hlow]; [done|]. rewrite (wrap_small 32 (n - 1)), (wrap_small 32) by lia.
  destruct (get_u32_in code (pc + (n - 1) * 8 + 4) Hb ltac:(lia) ltac:(lia)) as (high & -> & _). cbn [mbind outcome_bind].
  destruct (c >? high); [done|].
  set (val := fun p => match get_u32 code p with Ret v => v | _ => 0 end).
  assert (Hval : forall p, 0 <= p -> p + 4 <= zlen code -> get_u32 code p = Ret (val p)).
  { intros p H1 H2. unfold val. by destruct (get_u32_in code p Hb H1 H2) as (v & -> & _). }
  eapply yields_mono.
  - eapply (range_search_spec _ 4 n c (fun k => val (pc + k * (2 * 4))) (fun k => val (pc + (k * (2 * 4) + 4)))); try lia.
    + intros k Hk. split; apply Hval; lia.
    + unfold val. replace (pc + 0 * (2 * 4)) with pc by lia. by rewrite Elow.
  - done.
Qed.

(** ** Safe states *)

Section Safe.
Context `{Realloc} (s : REExecContext) (D : Z -> Z -> Prop) (Hs : context_ok s D).
Abbreviation code := (re_code s).
Abbreviation len := (zlen (cbuf s)).

Definition captures_ok (c : list (option Z)) : Prop :=
  zlen c = 2 * capture_count s /\ Forall (fun o => match o with Some p => 0 <= p <= len | None => True end) c.

Definition quant_at (pc n d : Z) : Prop :=
  exists next, get_u32 code pc = Ret next /\ get_u32 code (pc + 12) = Ret n /\ 1 <= n /\ D (pc + 16 + s32 next) d.

Definition state_ok (rs : REExecState) : Prop :=
  captures_ok (rs_capture rs) /\ 0 <= rs_cptr rs <= len /\
  match rs_type rs with
  | RE_EXEC_STATE_GREEDY_QUANT => exists n, quant_at (rs_pc rs) n (zlen (rs_stack rs)) /\ 1 <= rs_count rs /\
      rs_count rs * n <= rankz s (rs_cptr rs)
  | _ => D (rs_pc rs) (zlen (rs_stack rs))
  end.

Definition match_ok (m : REMatch) : Prop := captures_ok (m_capture m) /\ Forall state_ok (m_states m).

Definition config_ok (c : config) : Prop :=
  let '(m, pc, cptr) := c in match_ok m /\ D pc (zlen (m_stack m)) /\ 0 <= cptr <= len.

Definition step_ok (x : config + REResult * REMatch) : Prop :=
  match x with inl c => config_ok c | inr (_, m) => captures_ok (m_capture m) end.

Lemma unwind_ok ret m states :
  captures_ok (m_capture m) -> Forall state_ok states -> yields (unwind s ret m states) step_ok.
Proof using Hs.
  intros Hc Hst. revert ret. induction Hst as [|rs rest Hrs Hst IH]; intros ret; cbn [unwind]; [done|].
  destruct Hrs as (Hrc & Hp & Hrs). destruct (rs_type rs) eqn:Et.
  - destruct ret; cbn [negb]; [apply IH|]. exact (conj (conj Hrc Hst) (conj Hrs Hp)).
  - destruct ret; [|apply IH]. exact (conj (conj Hc Hst) (conj Hrs Hp)).
  - destruct ret; cbn [negb]; [apply IH|]. exact (conj (conj Hrc Hst) (conj Hrs Hp)).
  - destruct ret; cbn [negb]; [apply IH|]. destruct Hrs as (n & Hq & Hcount & Hrank).
    destruct Hq as (next & E1 & E2 & Hn & HD). rewrite E2. cbn [mbind outcome_bind].
    apply yields_bind. eapply yields_mono.
    { apply (prev_chars_spec s (cx_text _ _ Hs)); [done|]. rewrite Z2Nat.id by lia. nia. }
    intros cptr [Hcp Hr]. rewrite Z2Nat.id in Hr by lia. rewrite E1. cbn [mbind outcome_bind yields mret outcome_ret].
    split; [|split; [done|lia]]. split; [done|]. cbn [m_states m_set_states].
    destruct (Z.eqb_spec (u64 (rs_count rs - 1)) 0) as [|Hne]; [done|].
    constructor; [|done]. split; [done|]. split; [cbn; lia|]. cbn [rs_type rs_pc rs_count rs_stack rs_cptr].
    exists n. split; [by exists next|].
    assert (0 <= u64 (rs_count rs - 1) <= rs_count rs - 1); [|nia].
    split; [apply Z.mod_pos_bound; lia|]. apply Z.mod_le; lia.
Qed.

Lemma no_match_ok nr m : match_ok m -> yields (no_match s nr m) step_ok.
Proof using Hs. intros [Hc Hst]. unfold no_match. destruct nr; [done|]. by apply unwind_ok. Qed.

(** The new state is on top, and nothing else changes. *)
Lemma push_goto_ok m pc1 cptr1 type count pc cptr :
  match_ok m -> state_ok (MkREExecState type count cptr1 pc1 (m_capture m) (m_stack m)) ->
  D pc (zlen (m_stack m)) -> 0 <= cptr <= len ->
  yields (push_goto s m pc1 cptr1 type count pc cptr) step_ok.
Proof using Hs.
  intros [Hc Hst] Hnew HD Hp. unfold push_goto, push_state.
  pose proof (conj (conj Hc (list.Forall_cons_2 _ _ _ Hnew Hst)) (conj HD Hp)) as Hok.
  destruct (_ >? _); [destruct (heap_request _ _)|]; [exact Hok|exact Hc|exact Hok].
Qed.

(** ** Instructions that test a character *)

(** The result of testing a character: a failure, or the next instruction behind it. *)
Definition char_result (nr : bool) (m : REMatch) (pc cptr : Z) (o : outcome (config + REResult * REMatch)) : Prop :=
  o = no_match s nr m \/
  exists cptr', o = Ret (inl (m, pc, cptr')) /\ cptr < cptr' <= len /\ boundaryz s cptr' = true /\
    rankz s cptr + b2z (boundaryz s cptr) <= rankz s cptr'.

Lemma char_op_result fuel rec nr m pc cptr op l :
  char_ok code pc op l -> 0 <= cptr <= len ->
  char_result nr m (pc + l) cptr (exec_op fuel rec s nr m pc cptr op).
Proof using Hs.
  intros Hop Hp. pose proof (cx_text _ _ Hs) as Ht. pose proof (cx_code _ _ Hs) as Hcode.
  assert (Hget : cptr < len -> exists c cptr', GET_CHAR (cbuf s) (cbuf_type s) cptr (cbuf_end s) = Ret (c, cptr') /\
    0 <= c /\ cptr < cptr' <= len /\ boundaryz s cptr' = true /\ rankz s cptr + b2z (boundaryz s cptr) <= rankz s cptr').
  { intros Hlt. pose proof (GET_CHAR_spec s Ht cptr (cbuf_end s) ltac:(unfold cbuf_end; lia) ltac:(unfold cbuf_end; lia)) as Hg.
    apply yields_Ret in Hg as ([c cptr'] & E & H0 & H1 & H2). exists c, cptr'. destruct (H2 eq_refl).
    split; [exact E|]. by unfold cbuf_end in H1. }
  assert (Hcan : forall c, 0 <= c -> exists c', canonicalize s c = Ret c').
  { intros c Hc. pose proof (canonicalize_spec s c Hc) as Hy. apply yields_Ret in Hy as (c' & E & _). eauto. }
  unfold char_result. destruct Hop as [| |v Hv|v Hv|n Hn Hn1 Hpc Hlen|n Hn Hn1 Hpc Hlen]; cbn [exec_op].
  1,2: unfold cbuf_end; destruct (Z.eqb_spec cptr len) as [|Hne]; [by left|];
    destruct (Hget ltac:(lia)) as (c & cptr' & E & Hc & Hrest); unfold cbuf_end in E; rewrite E; cbn [mbind outcome_bind fst snd].
  - destruct (is_line_terminator c); [by left|right]. exists cptr'. by rewrite Z.add_0_r.
  - right. exists cptr'. by rewrite Z.add_0_r.
  - rewrite Hv. cbn [mbind outcome_bind]. unfold cbuf_end. rewrite Z.geb_leb. destruct (Z.leb_spec len cptr); [by left|].
    destruct (Hget ltac:(lia)) as (c & cptr' & E & Hc & Hrest); unfold cbuf_end in E; rewrite E. cbn [mbind outcome_bind fst snd].
    destruct (Hcan c Hc) as [c' ->]. cbn [mbind outcome_bind]. destruct (negb _); [by left|right]. eauto.
  - rewrite Hv. cbn [mbind outcome_bind]. unfold cbuf_end. rewrite Z.geb_leb. destruct (Z.leb_spec len cptr); [by left|].
    destruct (Hget ltac:(lia)) as (c & cptr' & E & Hc & Hrest); unfold cbuf_end in E; rewrite E. cbn [mbind outcome_bind fst snd].
    destruct (Hcan c Hc) as [c' ->]. cbn [mbind outcome_bind]. destruct (negb _); [by left|right]. eauto.
  - rewrite Hn. cbn [mbind outcome_bind]. unfold cbuf_end. rewrite Z.geb_leb. destruct (Z.leb_spec len cptr); [by left|].
    destruct (Hget ltac:(lia)) as (c & cptr' & E & Hc & Hrest); unfold cbuf_end in E; rewrite E. cbn [mbind outcome_bind fst snd].
    destruct (Hcan c Hc) as [c' ->]. cbn [mbind outcome_bind].
    pose proof (range_match_yields code (pc + 2) n c' Hcode ltac:(lia) Hn1 ltac:(lia)) as Hy.
    apply yields_Ret in Hy as (b & -> & _). cbn [mbind outcome_bind]. destruct b; [right|by left].
    exists cptr'. by replace (pc + (2 + 4 * n)) with (pc + 2 + 4 * n) by lia.
  - rewrite Hn. cbn [mbind outcome_bind]. unfold cbuf_end. rewrite Z.geb_leb. destruct (Z.leb_spec len cptr); [by left|].
    destruct (Hget ltac:(lia)) as (c & cptr' & E & Hc & Hrest); unfold cbuf_end in E; rewrite E. cbn [mbind outcome_bind fst snd].
    destruct (Hcan c Hc) as [c' ->]. cbn [mbind outcome_bind].
    pose proof (range32_match_yields code (pc + 2) n c' Hcode ltac:(lia) Hn1 ltac:(lia)) as Hy.
    apply yields_Ret in Hy as (b & -> & _). cbn [mbind outcome_bind]. destruct b; [right|by left].
    exists cptr'. by replace (pc + (2 + 8 * n)) with (pc + 2 + 8 * n) by lia.
Qed.

(** ** Atoms of the greedy quantifier *)

Definition slack (i : Z) : Z := rankz s i + b2z (boundaryz s i) - 1.

Lemma slack_nonneg i : 0 <= i -> 0 <= slack i.
Proof using.
  intros Hi. unfold slack. destruct (Z.eq_dec i 0) as [->|]; [done|].
  pose proof (rankz_pos s i ltac:(lia)). destruct (boundaryz s i); cbn [b2z]; lia.
Qed.

Lemma zero_op_result fuel rec nr m pc cptr op :
  zero_width op = true -> 0 <= cptr <= len ->
  exec_op fuel rec s nr m pc cptr op = no_match s nr m \/ exec_op fuel rec s nr m pc cptr op = Ret (inl (m, pc, cptr)).
Proof using Hs.
  intros Hz Hp. pose proof (cx_text _ _ Hs) as Ht. unfold cbuf_end in *.
  assert (Hprev : cptr <> 0 -> exists c, PEEK_PREV_CHAR (cbuf s) (cbuf_type s) cptr 0 = Ret c).
  { intros Hne. pose proof (PEEK_PREV_CHAR_spec s Ht cptr ltac:(lia)) as Hy.
    apply yields_Ret in Hy as (c & E & _). eauto. }
  assert (Hpeek : cptr < len -> exists c, PEEK_CHAR (cbuf s) (cbuf_type s) cptr (cbuf_end s) = Ret c).
  { intros Hlt. pose proof (PEEK_CHAR_spec s Ht cptr ltac:(lia)) as Hy.
    apply yields_Ret in Hy as (c & E & _). eauto. }
  assert (Hw : exists v1 v2, word_before s cptr = Ret v1 /\ word_at s cptr = Ret v2).
  { unfold word_before, word_at. destruct (Z.eqb_spec cptr 0) as [E0|Hne].
    - rewrite Z.geb_leb. destruct (Z.leb_spec (cbuf_end s) cptr); [by eauto|].
      destruct (Hpeek ltac:(unfold cbuf_end in *; lia)) as [c ->]. cbn. eauto.
    - destruct (Hprev Hne) as [c1 ->]. cbn.
      rewrite Z.geb_leb. destruct (Z.leb_spec (cbuf_end s) cptr); [by eauto|].
      destruct (Hpeek ltac:(unfold cbuf_end in *; lia)) as [c ->]. cbn. eauto. }
  destruct op; try discriminate Hz; cbn [exec_op].
  - destruct (Z.eqb_spec cptr 0) as [|Hne]; [by right|]. destruct (negb (multi_line s)); [by left|].
    destruct (Hprev Hne) as [c ->]. cbn [mbind outcome_bind]. destruct (is_line_terminator c); [by right|by left].
  - unfold cbuf_end at 1 3. destruct (Z.eqb_spec cptr len) as [|Hne]; [by right|]. destruct (negb (multi_line s)); [by left|].
    destruct (Hpeek ltac:(lia)) as [c ->]. cbn [mbind outcome_bind]. destruct (is_line_terminator c); [by right|by left].
  - destruct Hw as (v1 & v2 & -> & ->). cbn [mbind outcome_bind]. destruct (xorb _ _); [by left|by right].
  - destruct Hw as (v1 & v2 & -> & ->). cbn [mbind outcome_bind]. destruct (xorb _ _); [by left|by right].
Qed.

(** The result of an atom of [n] characters run with [no_recurse]. *)
Definition atom_result (m : REMatch) (cptr n : Z) (r : REResult * REMatch) : Prop :=
  r.2 = m /\
  match r.1 with
  | RE_no_match => True
  | RE_ptr cptr' => cptr <= cptr' <= len /\ slack cptr + n <= slack cptr'
  | _ => False
  end.

Lemma simple_run_nonneg pc n : simple_run code pc n -> 0 <= n.
Proof. induction 1; lia. Qed.

Lemma simple_exec fuel rec m pc n : simple_run code pc n -> forall f cptr, 0 <= cptr <= len ->
  safe (loop f (exec_step fuel rec s true) (m, pc, cptr)) (atom_result m cptr n).
Proof using Hs.
  induction 1 as [pc (b & Eb & Eo)|pc op n (b & Eb & Eo) Hz Hrun IH|pc op l n (b & Eb & Eo) Hop Hrun IH];
    intros [|f] cptr Hp; try done; cbn [loop exec_step]; rewrite Eb; cbn [mbind outcome_bind]; rewrite Eo.
  - cbn [exec_op mbind outcome_bind mret outcome_ret safe]. split; [done|]. cbn [fst]. lia.
  - destruct (zero_op_result fuel rec true m (pc + 1) cptr op Hz Hp) as [-> | ->]; cbn [no_match mbind outcome_bind mret outcome_ret];
      [done|]. by apply IH.
  - destruct (char_op_result fuel rec true m (pc + 1) cptr op l Hop Hp) as [-> | (cptr' & -> & Hlt & Hb & Hr)];
      cbn [no_match mbind outcome_bind mret outcome_ret]; [done|].
    eapply safe_mono; [by apply IH; lia|]. intros [r m'] [Hm Hres]. split; [done|]. cbn [fst] in *. destruct r; try done.
    destruct Hres as [Hl Hsl]. split; [lia|]. unfold slack in *. rewrite Hb in *. cbn [b2z] in *. lia.
Qed.

(** ** Every instruction *)

Definition rec_ok (rec : REMatch -> Z -> Z -> outcome (REResult * REMatch)) : Prop :=
  forall m pc n cptr, simple_run code pc n -> 0 <= cptr <= len -> safe (rec m pc cptr) (atom_result m cptr n).

Lemma back_reference_ok a b cptr : 0 <= a <= len -> 0 <= b <= len -> 0 <= cptr <= len ->
  yields (back_reference s a b cptr) (fun r => match r with Some p => 0 <= p <= len | None => True end).
Proof using Hs.
  intros Ha Hb Hp. pose proof (cx_text _ _ Hs) as Ht. unfold back_reference.
  apply (loop_yields _ (fun '(c1, c2) => 0 <= c1 <= Z.max a b /\ 0 <= c2 <= len) (fun '(c1, _) => Z.to_nat (b - c1)));
    [|lia|lia].
  intros [c1 c2] [H1 H2]. destruct (Z.ltb_spec c1 b) as [Hlt|]; [|done].
  unfold cbuf_end. rewrite Z.geb_leb. destruct (Z.leb_spec len c2); [done|].
  apply yields_bind. eapply yields_mono; [apply (GET_CHAR_spec s Ht c1 b); lia|]. intros [x1 c1'] (Hx1 & H1' & _).
  apply yields_bind. eapply yields_mono; [apply (GET_CHAR_spec s Ht c2 len); lia|]. intros [x2 c2'] (Hx2 & H2' & _).
  apply yields_bind. eapply yields_mono; [by apply canonicalize_spec|]. intros y1 _.
  apply yields_bind. eapply yields_mono; [by apply canonicalize_spec|]. intros y2 _. cbn [fst snd].
  destruct (negb _); cbn; [done|]. split; lia.
Qed.

Lemma backward_back_reference_ok a b cptr : 0 <= a <= len -> 0 <= b <= len -> 0 <= cptr <= len ->
  yields (backward_back_reference s a b cptr) (fun r => match r with Some p => 0 <= p <= len | None => True end).
Proof using Hs.
  intros Ha Hb Hp. pose proof (cx_text _ _ Hs) as Ht. unfold backward_back_reference.
  apply (loop_yields _ (fun '(c1, c2) => 0 <= c1 <= len /\ 0 <= c2 <= len) (fun '(c1, _) => Z.to_nat (c1 - b)));
    [|lia|lia].
  intros [c1 c2] [H1 H2]. destruct (c1 >? b) eqn:Egt; [|done].
  destruct (Z.eqb_spec c2 0); [done|].
  apply yields_bind. eapply yields_mono; [apply (GET_PREV_CHAR_spec s Ht c1 b); lia|]. intros [x1 c1'] (Hx1 & H1').
  apply yields_bind. eapply yields_mono; [apply (GET_PREV_CHAR_spec s Ht c2 0); lia|]. intros [x2 c2'] (Hx2 & H2').
  apply yields_bind. eapply yields_mono; [by apply canonicalize_spec|]. intros y1 _.
  apply yields_bind. eapply yields_mono; [by apply canonicalize_spec|]. intros y2 _. cbn [fst snd].
  destruct (negb _); cbn; [done|]. split; lia.
Qed.

Lemma captures_set c i o c' :
  captures_ok c -> aset c i o = Ret c' -> match o with Some p => 0 <= p <= len | None => True end -> captures_ok c'.
Proof using.
  intros [Hl Hf] Hset Ho. unfold aset in Hset. destruct (_ && _); [|done]. injection Hset as <-.
  split; [unfold zlen in *; by rewrite length_insert|]. apply list.Forall_insert; [exact Hf|exact Ho].
Qed.

Lemma save_reset_ok n val c : captures_ok c -> 0 <= val -> val + Z.of_nat n <= capture_count s ->
  yields (save_reset n val c) captures_ok.
Proof using.
  revert val c. induction n as [|n IH]; intros val c Hc Hv Hn; cbn [save_reset]; [done|].
  pose proof (proj1 Hc) as Hl.
  destruct (aset c (2 * val) None) as [c1| |] eqn:E1; [|by rewrite aset_ok in E1 by lia..].
  pose proof (captures_set _ _ _ _ Hc E1 I) as Hc1. pose proof (proj1 Hc1) as Hl1. cbn [mbind outcome_bind].
  destruct (aset c1 (2 * val + 1) None) as [c2| |] eqn:E2; [|by rewrite aset_ok in E2 by lia..].
  cbn [mbind outcome_bind]. apply IH; [exact (captures_set _ _ _ _ Hc1 E2 I)|lia|lia].
Qed.

Lemma captures_get c i : captures_ok c -> 0 <= i < 2 * capture_count s ->
  exists o, aget c i = Ret o /\ match o with Some p => 0 <= p <= len | None => True end.
Proof using.
  intros [Hl Hf] Hi. destruct (aget_in_range c i ltac:(lia)) as (o & E & Hlk). exists o. split; [done|].
  by apply (proj1 (list.Forall_lookup _ _) Hf) in Hlk.
Qed.

Lemma stack_push_ok m v : zlen (m_stack m) < stack_size_max s ->
  yields (stack_push s m v) (fun m' => m' = m_set_stack m (m_stack m ++ [v])).
Proof. intros Hlt. unfold stack_push. by rewrite (proj2 (Z.ltb_lt _ _) Hlt). Qed.

Lemma stack_pop_ok m : 1 <= zlen (m_stack m) ->
  yields (stack_pop m) (fun '(_, m') => exists st, m' = m_set_stack m st /\ zlen st = zlen (m_stack m) - 1).
Proof.
  intros Hl. unfold stack_pop. destruct (aget_in_range (m_stack m) (zlen (m_stack m) - 1) ltac:(lia)) as (v & -> & _).
  cbn. eexists. split; [reflexivity|]. zlia.
Qed.

Lemma next_ok m pc cptr : match_ok m -> D pc (zlen (m_stack m)) -> 0 <= cptr <= len ->
  safe (mret (inl (m, pc, cptr)) : outcome (config + REResult * REMatch)) step_ok.
Proof using. intros Hm HD Hp. exact (conj Hm (conj HD Hp)). Qed.

Lemma fail_ok nr m : match_ok m -> safe (no_match s nr m) step_ok.
Proof using Hs. intros Hm. by apply yields_safe, no_match_ok. Qed.

(** The loop of the greedy quantifier stays within the text: every turn takes [n] characters. *)
Lemma quant_loop_ok fuel rec m pc1 n quant_max cptr :
  rec_ok rec -> simple_run code pc1 n -> 0 <= cptr <= len ->
  safe (loop fuel (fun st : REMatch * Z * Z =>
        let '(m, cptr, q) := st in
        res ← rec m pc1 cptr;
        let '(res, m) := res in
        match res with
        | RE_error => mret (inr (None, m, cptr, q))
        | RE_ptr cptr =>
            let q := q + 1 in
            mret (if (q >=? quant_max) && negb (quant_max =? INT32_MAX) then inr (Some tt, m, cptr, q)
                  else inl (m, cptr, q))
        | _ => mret (inr (Some tt, m, cptr, q))
        end) (m, cptr, 0))
    (fun '(ok, m', cptr', q) => m' = m /\ 0 <= cptr' <= len /\ 0 <= q /\ q * n <= slack cptr').
Proof using.
  intros Hrec Hrun Hp.
  apply (loop_safe _ (fun '(m', cptr', q) => m' = m /\ 0 <= cptr' <= len /\ 0 <= q /\ q * n <= slack cptr')).
  2: split_and!; [done|lia|lia|lia|]; pose proof (slack_nonneg cptr ltac:(lia)); lia.
  intros [[m' cptr'] q] (-> & Hp' & Hq & Hsl). apply safe_bind. eapply safe_mono; [by apply Hrec|].
  intros [r m''] [Hm Hr]. cbn [fst snd] in *. subst m''. destruct r; try done; cbn [safe mret outcome_ret].
  destruct Hr as [Hl Hr]. assert (Hsl' : (q + 1) * n <= slack cptr0) by lia.
  destruct (_ && _); split_and!; try done; lia.
Qed.

(** A greedy quantifier behind its loop: a match of [q] atoms, [q - quant_min] of them can be undone. *)
Lemma quant_end_ok nr m pc n q quant_min next cptr :
  get_u32 code pc = Ret next -> get_u32 code (pc + 12) = Ret n -> 1 <= n -> 0 <= quant_min ->
  D (pc + 16 + s32 next) (zlen (m_stack m)) -> match_ok m -> 0 <= cptr <= len -> q * n <= slack cptr ->
  safe (if q <? quant_min then no_match s nr m
        else if q >? quant_min then
          push_goto s m (pc + 16 - 16) cptr RE_EXEC_STATE_GREEDY_QUANT (q - quant_min) (pc + 16 + s32 next) cptr
        else mret (inl (m, pc + 16 + s32 next, cptr))) step_ok.
Proof using Hs.
  intros E1 E2 Hn Hmin HD Hm Hp Hsl. destruct (q <? quant_min); [by apply fail_ok|].
  destruct (Z.gtb_spec q quant_min) as [Hgt|]; [|by apply next_ok].
  apply yields_safe, push_goto_ok; try done. split; [exact (proj1 Hm)|]. split; [done|].
  cbn [rs_type rs_pc rs_stack rs_count rs_cptr]. exists n. replace (pc + 16 - 16) with pc by lia.
  split; [by exists next|]. split; [lia|]. unfold slack in Hsl. destruct (boundaryz s cptr); cbn [b2z] in Hsl; nia.
Qed.

Lemma split_op_ok m pc cptr v type op fuel rec nr :
  match_ok m -> 0 <= cptr <= len -> type <> RE_EXEC_STATE_GREEDY_QUANT -> get_u32 code pc = Ret v ->
  D (pc + 4) (zlen (m_stack m)) -> D (pc + 4 + s32 v) (zlen (m_stack m)) ->
  (exists a b, exec_op fuel rec s nr m pc cptr op = push_goto s m a cptr type 0 b cptr /\
     a ∈ [pc + 4; pc + 4 + s32 v] /\ b ∈ [pc + 4; pc + 4 + s32 v]) ->
  safe (exec_op fuel rec s nr m pc cptr op) step_ok.
Proof using Hs.
  intros Hm Hp Ht Hv H1 H2 (a & b & -> & Ha & Hb).
  assert (HD : forall x, x ∈ [pc + 4; pc + 4 + s32 v] -> D x (zlen (m_stack m))).
  { intros x [-> | [-> | Hx%elem_of_nil]%elem_of_cons]%elem_of_cons; done. }
  apply yields_safe, push_goto_ok; auto. split; [exact (proj1 Hm)|]. split; [done|].
  destruct type; cbn [rs_type rs_pc rs_stack]; auto. done.
Qed.

Lemma back_op_ok fuel rec nr m pc cptr op val :
  op = REOP_back_reference \/ op = REOP_backward_back_reference -> aget code pc = Ret val -> 0 <= val ->
  D (pc + 1) (zlen (m_stack m)) -> match_ok m -> 0 <= cptr <= len ->
  safe (exec_op fuel rec s nr m pc cptr op) step_ok.
Proof using Hs.
  intros Hop Hv H0 HD Hm Hp.
  assert (E : exec_op fuel rec s nr m pc cptr op = exec_op fuel rec s nr m pc cptr REOP_back_reference \/
              exec_op fuel rec s nr m pc cptr op = exec_op fuel rec s nr m pc cptr REOP_backward_back_reference)
    by (destruct Hop as [-> | ->]; auto).
  destruct E as [-> | ->]; cbn [exec_op]; rewrite Hv; cbn [mbind outcome_bind];
    rewrite Z.geb_leb; (destruct (Z.leb_spec (capture_count s) val); [by apply fail_ok|]);
    destruct (captures_get _ (2 * val) (proj1 Hm) ltac:(lia)) as ([a|] & -> & Ha);
    destruct (captures_get _ (2 * val + 1) (proj1 Hm) ltac:(lia)) as ([b|] & -> & Hb);
    cbn [mbind outcome_bind]; try (by apply next_ok); apply safe_bind, yields_safe.
  - rewrite bool_decide_true by done. eapply yields_mono; [by apply back_reference_ok|].
    intros [c|] Hc; [by apply next_ok|by apply fail_ok].
  - rewrite bool_decide_false by done. eapply yields_mono; [by apply backward_back_reference_ok|].
    intros [c|] Hc; [by apply next_ok|by apply fail_ok].
Qed.

Lemma save_op_ok fuel rec nr m pc cptr op val :
  op = REOP_save_start \/ op = REOP_save_end -> aget code pc = Ret val -> 0 <= val < capture_count s ->
  D (pc + 1) (zlen (m_stack m)) -> match_ok m -> 0 <= cptr <= len ->
  safe (exec_op fuel rec s nr m pc cptr op) step_ok.
Proof using Hs.
  intros Hop Hv Hval HD Hm Hp. pose proof (proj1 (proj1 Hm)) as Hl.
  assert (Hset : forall i, 0 <= i < 2 * capture_count s ->
    safe (capture ← aset (m_capture m) i (Some cptr); mret (inl (m_set_capture m capture, pc + 1, cptr))) step_ok).
  { intros i Hi. destruct (aset (m_capture m) i (Some cptr)) as [c| |] eqn:E; [|by rewrite aset_ok in E by lia..].
    apply next_ok; [|done|done]. split; [exact (captures_set _ _ _ _ (proj1 Hm) E Hp)|exact (proj2 Hm)]. }
  destruct Hop as [-> | ->]; cbn [exec_op]; rewrite Hv; cbn [mbind outcome_bind c_assert];
    rewrite (proj2 (Z.ltb_lt _ _)) by lia; apply Hset; [rewrite bool_decide_false by done|rewrite bool_decide_true by done];
    cbn [b2z]; lia.
Qed.

Lemma stack_op_ok fuel rec nr m pc cptr op :
  op ∈ [REOP_push_i32; REOP_push_char_pos; REOP_drop; REOP_loop; REOP_bne_char_pos] ->
  op_ok code (capture_count s) (stack_size_max s) D pc (zlen (m_stack m)) op -> match_ok m -> 0 <= cptr <= len ->
  safe (exec_op fuel rec s nr m pc cptr op) step_ok.
Proof using Hs.
  intros Hin Hop Hm Hp.
  assert (Hset : forall st pc', D pc' (zlen st) ->
    safe (mret (inl (m_set_stack m st, pc', cptr)) : outcome (config + REResult * REMatch)) step_ok).
  { intros st pc' HD. by apply next_ok. }
  destruct Hop; try (by (exfalso; rewrite !elem_of_cons, elem_of_nil in Hin; destruct_or!; subst; try done;
    match goal with Hx : char_ok _ _ _ _ |- _ => inversion Hx | Hx : _ ∈ _ |- _ =>
      rewrite !elem_of_cons, elem_of_nil in Hx; naive_solver | _ => naive_solver end)); cbn [exec_op].
  - rewrite H0. cbn [mbind outcome_bind]. apply safe_bind, yields_safe. eapply yields_mono; [by apply stack_push_ok|].
    intros m' ->. apply Hset. by rewrite zlen_app.
  - apply safe_bind, yields_safe. eapply yields_mono; [by apply stack_push_ok|].
    intros m' ->. apply Hset. by rewrite zlen_app.
  - apply safe_bind, yields_safe. eapply yields_mono; [by apply stack_pop_ok|].
    intros [v m'] (st & -> & Hst). apply Hset. by rewrite Hst.
  - rewrite H0. cbn [mbind outcome_bind].
    destruct (aget_in_range (m_stack m) (zlen (m_stack m) - 1) ltac:(lia)) as (n & -> & _). cbn [mbind outcome_bind].
    rewrite aset_ok by lia. cbn [mbind outcome_bind]. apply Hset.
    unfold zlen. rewrite length_insert. by destruct (negb _).
  - rewrite H0. cbn [mbind outcome_bind]. apply safe_bind, yields_safe. eapply yields_mono; [by apply stack_pop_ok|].
    intros [v' m'] (st & -> & Hst). apply Hset. rewrite Hst. cbn [fst snd]. by destruct (negb _).
Qed.

Lemma exec_op_ok fuel rec nr m pc cptr op :
  rec_ok rec -> match_ok m -> op_ok code (capture_count s) (stack_size_max s) D pc (zlen (m_stack m)) op -> 0 <= cptr <= len ->
  safe (exec_op fuel rec s nr m pc cptr op) step_ok.
Proof using Hs.
  intros Hrec Hm Hop Hp.
  destruct Hop as [op Hz HD| HD|op l Hc HD| |v Hv HD|op v Hin Hv H1 H2|op val Hop Hv H0 HD|val val2 Hv Hv2 H0 H1 HD|
    v Hv Hd HD|Hd HD|Hd HD|v Hv Hd H1 H2|v Hv Hd H1 H2|op val Hop Hv H0 HD|n q1 q2 nx Hnx Hq1 Hq2 Hn Hn1 H0 Hrun HD].
  - destruct (zero_op_result fuel rec nr m pc cptr op Hz Hp) as [-> | ->]; [by apply fail_ok|by apply next_ok].
  - cbn [exec_op]. destruct (Z.eqb_spec cptr 0); [by apply fail_ok|]. apply safe_bind, yields_safe.
    eapply yields_mono; [apply (PREV_CHAR_spec s (cx_text _ _ Hs)); lia|]. intros c [Hc _]. apply next_ok; [done|done|lia].
  - destruct (char_op_result fuel rec nr m pc cptr op l Hc Hp) as [-> | (c & -> & Hcp & _)]; [by apply fail_ok|].
    apply next_ok; [done|done|lia].
  - cbn [exec_op]. destruct nr; [exact (proj1 Hm)|]. apply yields_safe, unwind_ok; apply Hm.
  - cbn [exec_op]. rewrite Hv. by apply next_ok.
  - apply (split_op_ok m pc cptr v (match op with REOP_lookahead => RE_EXEC_STATE_LOOKAHEAD
      | REOP_negative_lookahead => RE_EXEC_STATE_NEGATIVE_LOOKAHEAD | _ => RE_EXEC_STATE_SPLIT end)); try done; [by destruct op|].
    rewrite !elem_of_cons, elem_of_nil in Hin. destruct_or! Hin; subst op; try done; cbn [exec_op]; rewrite Hv;
      do 2 eexists; (split; [reflexivity|]); rewrite !elem_of_cons; auto.
  - by apply (save_op_ok fuel rec nr m pc cptr op val).
  - cbn [exec_op]. rewrite Hv, Hv2. cbn [mbind outcome_bind c_assert].
    rewrite (proj2 (Z.ltb_lt _ _)) by lia. cbn [mbind outcome_bind c_assert]. apply safe_bind, yields_safe.
    destruct (Z_lt_le_dec val2 val) as [Hlt|Hle].
    { replace (Z.to_nat (val2 + 1 - val)) with 0%nat by lia. exact (conj Hm (conj HD Hp)). }
    eapply yields_mono; [apply save_reset_ok; [exact (proj1 Hm)|lia|lia]|]. intros c Hc.
    exact (conj (conj Hc (proj2 Hm)) (conj HD Hp)).
  - apply stack_op_ok; [rewrite !elem_of_cons; tauto|by econstructor|done|done].
  - apply stack_op_ok; [rewrite !elem_of_cons; tauto|by econstructor|done|done].
  - apply stack_op_ok; [rewrite !elem_of_cons; tauto|by econstructor|done|done].
  - apply stack_op_ok; [rewrite !elem_of_cons; tauto|by econstructor|done|done].
  - apply stack_op_ok; [rewrite !elem_of_cons; tauto|by econstructor|done|done].
  - by apply (back_op_ok fuel rec nr m pc cptr op val).
  - cbn [exec_op]. rewrite Hnx, Hq1, Hq2. cbn [mbind outcome_bind]. apply safe_bind.
    eapply safe_mono; [by apply (quant_loop_ok fuel rec m (pc + 16) n q2 cptr)|].
    intros [[[ok m'] cptr'] q] (-> & Hp' & Hq & Hsl). destruct ok; [|exact (proj1 Hm)].
    by apply (quant_end_ok nr m pc n q q1 nx cptr').
Qed.

Lemma exec_safe fuel : forall m pc cptr, match_ok m -> D pc (zlen (m_stack m)) -> 0 <= cptr <= len ->
  safe (lre_exec_backtrack fuel s false m pc cptr) (fun r => captures_ok (m_capture r.2)).
Proof using Hs.
  destruct fuel as [|fuel]; [done|]. intros m pc cptr Hm HD Hp. cbn [lre_exec_backtrack].
  apply (loop_safe _ config_ok); [|exact (conj Hm (conj HD Hp))].
  intros [[m' pc'] cptr'] (Hm' & HD' & Hp'). cbn [exec_step].
  destruct (cx_typed _ _ Hs _ _ HD') as (op & (b & -> & Hb) & Hop). cbn [mbind outcome_bind]. rewrite Hb.
  eapply safe_mono.
  - apply exec_op_ok; try done. intros m1 pc1 n cptr1 Hrun Hp1. destruct fuel as [|f]; [done|].
    exact (simple_exec (S f) _ m1 pc1 n Hrun (S f) cptr1 Hp1).
  - intros [[[m1 pc1] cptr1]|[r m1]] Hx; exact Hx.
Qed.
End Safe.

(** ** The matcher on well-typed bytecode *)

(** A capture of a text of [n] units. *)
Definition capture_in (n : Z) (o : option Z) : Prop := match o with Some p => 0 <= p <= n | None => True end.

Lemma well_typed_exec `{Realloc} bc_buf text cindex type opaque captures :
  well_typed bc_buf -> lre_get_capture_count bc_buf = Ret captures ->
  Forall (Z.le 0) text -> 0 <= cindex <= zlen text ->
  forall fuel, safe (lre_exec fuel bc_buf text cindex type opaque) (fun '(r, capture) =>
    r ∈ [-1; 0; 1] /\ zlen capture = 2 * captures /\ Forall (capture_in (zlen text)) capture).
Proof.
  intros (Hb & f & c & st & D & Hf & Hc & Hst & Ht & HD) Hcc Htext Hp fuel.
  unfold lre_get_capture_count in Hcc. rewrite Hc in Hcc. injection Hcc as ->.
  assert (Hc0 : 0 <= captures).
  { apply aget_lookup in Hc as [_ Hc]. by apply (proj1 (list.Forall_lookup _ _) Hb) in Hc as [? _]. }
  unfold lre_exec. rewrite Hf, Hc, Hst. cbn [mbind outcome_bind].
  match goal with |- context [lre_exec_backtrack _ ?s _ ?m _ _] => set (sx := s); set (m0 := m) end.
  apply safe_bind. eapply safe_mono.
  - apply (exec_safe sx D); [done| |exact HD|exact Hp]. split; [split|constructor].
    + cbn. zlia.
    + apply Forall_replicate. exact I.
  - intros [r m] [Hl Hcap]. cbn [fst snd safe mret outcome_ret]. split; [|done].
    rewrite !elem_of_cons. destruct r; auto.
Qed.

(** C18: On well-typed bytecode the matcher never reads outside the bytecode, the text, the captures or its
    stack and never fails an assertion, whatever the text and whatever the allocator answers, for as long as it runs.
    When it returns, the answer is -1, 0 or 1 and the captures are positions of the text. *)
Theorem lre_exec_safe `{Realloc} bc_buf text cindex type opaque captures :
  well_typed bc_buf -> lre_get_capture_count bc_buf = Ret captures ->
  Forall (Z.le 0) text -> 0 <= cindex <= zlen text ->
  forall fuel, safe (lre_exec fuel bc_buf text cindex type opaque) (fun '(r, capture) =>
    r ∈ [-1; 0; 1] /\ zlen capture = 2 * captures /\ Forall (capture_in (zlen text)) capture).
Proof. apply well_typed_exec. Qed.

(** The bytecode of /(a|b)*c/ and the stack depths of its instructions. *)
Definition sample_code : list Z :=
  [0; 2; 1; 53; 0; 0; 0; 8; 6; 0; 0; 0; 4; 7; 245; 255; 255; 255; 11; 0; 13; 1; 1; 9; 26; 0; 0; 0; 25; 11; 1;
   9; 8; 0; 0; 0; 1; 97; 0; 7; 3; 0; 0; 0; 1; 98; 0; 12; 1; 26; 225; 255; 255; 255; 1; 99; 0; 12; 0; 10].
Definition sample_typing : list (Z * Z) :=
  [(7, 0); (12, 0); (13, 0); (18, 0); (20, 0); (23, 0); (28, 0); (29, 1); (31, 1); (36, 1); (39, 1); (44, 1);
   (47, 1); (49, 1); (54, 0); (57, 0); (59, 0)].

(** Types one instruction of a closed bytecode. *)
Ltac type_side :=
  lazymatch goal with
  | |- aget _ _ = _ => reflexivity
  | |- get_u16 _ _ = _ => reflexivity
  | |- get_u32 _ _ = _ => reflexivity
  | |- _ = _ \/ _ => auto
  | |- _ ∈ _ => rewrite !elem_of_cons; auto
  | |- _ => first [done | lia | vm_compute; tauto]
  end.
Ltac type_op :=
  lazymatch goal with
  | |- op_ok _ _ _ _ _ _ REOP_any => eapply ok_char; [apply char_ok_any|]
  | |- op_ok _ _ _ _ _ _ REOP_char => eapply ok_char; [eapply char_ok_char; reflexivity|]
  | |- op_ok _ _ _ _ _ _ REOP_match => apply ok_match
  | |- op_ok _ _ _ _ _ _ REOP_goto => eapply ok_goto
  | |- op_ok _ _ _ _ _ _ REOP_split_goto_first => eapply ok_split
  | |- op_ok _ _ _ _ _ _ REOP_split_next_first => eapply ok_split
  | |- op_ok _ _ _ _ _ _ REOP_save_start => eapply ok_save
  | |- op_ok _ _ _ _ _ _ REOP_save_end => eapply ok_save
  | |- op_ok _ _ _ _ _ _ REOP_save_reset => eapply ok_reset
  | |- op_ok _ _ _ _ _ _ REOP_push_char_pos => eapply ok_push_char_pos
  | |- op_ok _ _ _ _ _ _ REOP_bne_char_pos => eapply ok_bne
  end; type_side.

Lemma lre_exec_safe_witness :
  well_typed sample_code /\ lre_get_capture_count sample_code = Ret 2 /\
  forall fuel, safe (@lre_exec (limited_heap 1000) fuel sample_code [97; 98; 99] 0 0 tt) (fun '(r, capture) =>
    r ∈ [-1; 0; 1] /\ zlen capture = 2 * 2 /\ Forall (capture_in 3) capture).
Proof.
  assert (Hw : well_typed sample_code).
  { split; [repeat constructor; lia|]. exists 0, 2, 1, (fun pc d => In (pc, d) sample_typing).
    split; [reflexivity|]. split; [reflexivity|]. split; [reflexivity|]. split; [|by left].
    intros pc d Hin. cbn [sample_typing In] in Hin.
    repeat (destruct Hin as [[= <- <-]|Hin]); [..|done]; (eexists; split; [eexists; split; reflexivity|type_op]). }
  split; [exact Hw|]. split; [reflexivity|]. intros fuel.
  apply (@lre_exec_safe (limited_heap 1000) sample_code [97; 98; 99] 0 0 tt 2 Hw);
    [reflexivity|repeat constructor; lia|done].
Defined.
