(* ===== verification/RegexpBlock.v ===== *)
(** * Code blocks of the regular expression compiler

    [block cc k l]: the bytes [l] are the code of a part of a regular expression with at most
    [cc] captures; it uses at most [k] stack entries.  The jumps are relative, so a block
    can be copied and moved.  [block_typed]: a block has a typing wherever it stands in a bytecode;
    [block_stack_size] and [block_simple]: what the scans of the compiler find in a block. *)

From S2P Require Import Prelude Cutils DynBuf UnicodeCase RegexpExec RegexpText RegexpSafe RegexpLex RegexpParse.

(** ** Blocks *)

(** The instructions that test a character, with their operands. *)
Inductive char_instr : REOPCodeEnum -> list Z -> Prop :=
| ci_dot : char_instr REOP_dot []
| ci_any : char_instr REOP_any []
| ci_char v : char_instr REOP_char (le_split 2 v)
| ci_char32 v : char_instr REOP_char32 (le_split 4 v)
| ci_range n l : 1 <= n < 2 ^ 16 -> zlen l = 4 * n -> char_instr REOP_range (le_split 2 n ++ l)
| ci_range32 n l : 1 <= n < 2 ^ 16 -> zlen l = 8 * n -> char_instr REOP_range32 (le_split 2 n ++ l).

(** The instructions without a jump that leave the stack alone. *)
Inductive straight (cc : Z) : REOPCodeEnum -> list Z -> Prop :=
| st_zero op : zero_width op = true -> straight cc op []
| st_prev : straight cc REOP_prev []
| st_char op l : char_instr op l -> straight cc op l
| st_save op val : op = REOP_save_start \/ op = REOP_save_end -> 0 <= val < cc -> straight cc op [val]
| st_reset a b : 0 <= a -> b < cc -> straight cc REOP_save_reset [a; b]
| st_back op val : op = REOP_back_reference \/ op = REOP_backward_back_reference -> 0 <= val -> straight cc op [val].

(** A sequence of character tests and position tests, [n] of the former. *)
Inductive simple : Z -> list Z -> Prop :=
| sim_nil : simple 0 []
| sim_zero op n l : zero_width op = true -> simple n l -> simple n (reop_code op :: l)
| sim_char op args n l : char_instr op args -> simple n l -> simple (n + 1) (reop_code op :: args ++ l).

Definition is_split (op : REOPCodeEnum) : Prop := op = REOP_split_goto_first \/ op = REOP_split_next_first.
Definition is_look (op : REOPCodeEnum) : Prop := op = REOP_lookahead \/ op = REOP_negative_lookahead.

(** A jump instruction. *)
Definition jump (op : REOPCodeEnum) (v : Z) : list Z := reop_code op :: le_split 4 v.

Inductive block (cc : Z) : Z -> list Z -> Prop :=
| bl_nil : block cc 0 []
| bl_straight op args : straight cc op args -> block cc 0 (reop_code op :: args)
| bl_app k1 k2 l1 l2 : block cc k1 l1 -> block cc k2 l2 -> block cc (Z.max k1 k2) (l1 ++ l2)
| bl_split op k l : is_split op -> block cc k l -> block cc k (jump op (zlen l) ++ l)
| bl_star op k l : is_split op -> block cc k l ->
    block cc k (jump op (zlen l + 5) ++ l ++ jump REOP_goto (- (zlen l + 10)))
| bl_star_check op k l : is_split op -> block cc k l ->
    block cc (k + 1) (jump op (zlen l + 6) ++ [reop_code REOP_push_char_pos] ++ l ++
                      jump REOP_bne_char_pos (- (zlen l + 11)))
| bl_loop n k l : block cc k l ->
    block cc (k + 1) (jump REOP_push_i32 n ++ l ++ jump REOP_loop (- (zlen l + 5)) ++ [reop_code REOP_drop])
| bl_loop_split n op k l : is_split op -> block cc k l ->
    block cc (k + 1) (jump REOP_push_i32 n ++ jump op (zlen l + 5) ++ l ++ jump REOP_loop (- (zlen l + 10)) ++
                      [reop_code REOP_drop])
| bl_plus op k l : is_split op -> block cc k l -> block cc k (l ++ jump op (- (zlen l + 5)))
| bl_alt op k1 k2 l1 l2 : is_split op -> block cc k1 l1 -> block cc k2 l2 ->
    block cc (Z.max k1 k2) (jump op (zlen l1 + 5) ++ l1 ++ jump REOP_goto (zlen l2) ++ l2)
| bl_look op k l : is_look op -> block cc k l -> block cc k (jump op (zlen l + 1) ++ l ++ [reop_code REOP_match])
| bl_simple q1 q2 n l : simple n l -> 1 <= n < 2 ^ 30 ->
    block cc 0 (jump REOP_simple_greedy_quant (zlen l + 1) ++ le_split 4 q1 ++ le_split 4 q2 ++ le_split 4 n ++ l ++
                [reop_code REOP_match]).

Lemma straight_mono cc cc' op l : cc <= cc' -> straight cc op l -> straight cc' op l.
Proof. intros Hle []; [constructor 1|constructor 2|constructor 3|constructor 4|constructor 5|constructor 6]; try done; lia. Qed.

Lemma block_mono cc cc' k l : cc <= cc' -> block cc k l -> block cc' k l.
Proof.
  intros Hle. induction 1; [constructor 1|constructor 2; by eapply straight_mono|constructor 3|constructor 4|constructor 5|
    constructor 6|constructor 7|constructor 8|constructor 9|apply bl_alt|constructor 11|constructor 12]; done.
Qed.

Lemma block_nonneg cc k l : block cc k l -> 0 <= k.
Proof. induction 1; lia. Qed.

(** ** Parts of a bytecode *)

Section At.
Context (code : list Z).

Definition at_ (p : Z) (l : list Z) : Prop := exists pre post, code = pre ++ l ++ post /\ zlen pre = p.

Lemma at_app p l1 l2 : at_ p (l1 ++ l2) <-> at_ p l1 /\ at_ (p + zlen l1) l2.
Proof.
  split.
  - intros (pre & post & E & <-). split.
    + exists pre, (l2 ++ post). by rewrite E, <- app_assoc.
    + exists (pre ++ l1), post. split; [by rewrite E, <- !app_assoc|zlia].
  - intros [(pre & post & E & <-) (pre2 & post2 & E2 & Hl)]. exists pre, post2. split; [|done].
    rewrite E in E2. rewrite app_assoc in E2. apply app_inj_1 in E2 as [E2 Epost]; [|zlia].
    by rewrite E, Epost, <- app_assoc.
Qed.

Lemma at_cons p x l : at_ p (x :: l) <-> aget code p = Ret x /\ at_ (p + 1) l.
Proof.
  rewrite (at_app p [x] l). split.
  - intros [(pre & post & E & <-) H]. split; [rewrite E; apply aget_middle|done].
  - intros [[Hp Hx]%aget_lookup H]. split; [|done]. exists (take (Z.to_nat p) code), (drop (S (Z.to_nat p)) code).
    split; [by rewrite <- (take_drop_middle _ _ _ Hx) at 1|]. apply lookup_lt_Some in Hx. zlia.
Qed.

Lemma at_range p l : at_ p l -> 0 <= p /\ p + zlen l <= zlen code.
Proof. intros (pre & post & E & <-). rewrite E. split; zlia. Qed.

Lemma at_read p l : at_ p l -> aread code p (zlen l) = Ret l.
Proof.
  intros (pre & post & E & <-). rewrite E, aread_ok by zlia. f_equal. unfold zlen. rewrite !Nat2Z.id.
  by rewrite drop_app_length, take_app_length.
Qed.

Lemma at_u32 p v : at_ p (le_split 4 v) -> get_u32 code p = Ret (u32 v).
Proof.
  intros Ha%at_read. unfold get_u32. change 4 with (zlen (le_split 4 v)). rewrite Ha. cbn [fmap outcome_fmap].
  by rewrite le_combine_split.
Qed.

Lemma at_u16 p v : at_ p (le_split 2 v) -> get_u16 code p = Ret (u16 v).
Proof.
  intros Ha%at_read. unfold get_u16. change 2 with (zlen (le_split 2 v)). rewrite Ha. cbn [fmap outcome_fmap].
  by rewrite le_combine_split.
Qed.

Lemma at_op p op l : at_ p (reop_code op :: l) -> op_at code p op /\ at_ (p + 1) l.
Proof. intros [Hb Hl]%at_cons. split; [|done]. exists (reop_code op). split; [done|]. by destruct op. Qed.

Lemma at_jump p op v : at_ p (jump op v) -> op_at code p op /\ get_u32 code (p + 1) = Ret (u32 v).
Proof. intros [Hop Hv]%at_op. split; [done|]. by apply at_u32. Qed.
End At.

Lemma zlen_le_split n v : zlen (le_split n v) = Z.of_nat n.
Proof. unfold zlen. by rewrite length_le_split. Qed.
Lemma zlen_jump op v : zlen (jump op v) = 5.
Proof. done. Qed.

(** ** Typing of a block *)

Section Cover.
Context (code : list Z) (cc st : Z).
Hypothesis Hsmall : zlen code < 2 ^ 30.

Definition typed_at (D : Z -> Z -> Prop) (pc d : Z) : Prop := exists op, op_at code pc op /\ op_ok code cc st D (pc + 1) d op.

(** From [p] with [d] entries the code stays typed up to its end [q], with [d] entries again. *)
Definition covers (p q d : Z) : Prop :=
  exists D : Z -> Z -> Prop, D p d /\ forall pc e, D pc e -> (pc = q /\ e = d) \/ typed_at D pc e.

(** A part with its typing [D1], and the points [L] around it. *)
Definition around (D1 : Z -> Z -> Prop) (L : list (Z * Z)) (pc e : Z) : Prop := D1 pc e \/ In (pc, e) L.

Lemma op_ok_mono (D D' : Z -> Z -> Prop) pc d op :
  (forall pc e, D pc e -> D' pc e) -> op_ok code cc st D pc d op -> op_ok code cc st D' pc d op.
Proof using. intros Hsub []; [econstructor 1|econstructor 2|econstructor 3|econstructor 4|econstructor 5|econstructor 6|
  econstructor 7|econstructor 8|econstructor 9|econstructor 10|econstructor 11|econstructor 12|econstructor 13|
  econstructor 14|econstructor 15]; eauto. Qed.

Lemma typed_at_mono (D D' : Z -> Z -> Prop) pc d :
  (forall pc e, D pc e -> D' pc e) -> typed_at D pc d -> typed_at D' pc d.
Proof using. intros Hsub (op & Hop & Hok). exists op. eauto using op_ok_mono. Qed.

Lemma covers_around p q d p1 q1 d1 L : covers p1 q1 d1 ->
  (forall D : Z -> Z -> Prop, D p1 d1 -> (forall x y, In (x, y) L -> D x y) ->
     D p d /\ ((q1 = q /\ d1 = d) \/ typed_at D q1 d1) /\
     Forall (fun x => (x.1 = q /\ x.2 = d) \/ typed_at D x.1 x.2) L) ->
  covers p q d.
Proof using.
  intros (D1 & H1 & HD1) Hall. destruct (Hall (around D1 L)) as (Hp & Hq & HL); [by left|by right|].
  exists (around D1 L). split; [done|]. intros pc e [HD|Hin].
  - destruct (HD1 _ _ HD) as [[-> ->]|Ht]; [done|]. right. eapply typed_at_mono; [|done]. by left.
  - rewrite List.Forall_forall in HL. by apply (HL (pc, e)).
Qed.

Lemma covers_here p d : covers p p d.
Proof using. exists (fun pc e => pc = p /\ e = d). split; [done|]. intros pc e H. by left. Qed.

Lemma covers_seq p r q d : covers p r d -> covers r q d -> covers p q d.
Proof using.
  intros (D1 & H1 & HD1) (D2 & H2 & HD2). exists (fun pc e => D1 pc e \/ D2 pc e). split; [by left|].
  intros pc e [HD|HD].
  - destruct (HD1 _ _ HD) as [[-> ->]|Ht].
    + destruct (HD2 _ _ H2) as [?|Ht]; [by left|right]. eapply typed_at_mono; [|done]. by right.
    + right. eapply typed_at_mono; [|done]. by left.
  - destruct (HD2 _ _ HD) as [?|Ht]; [by left|right]. eapply typed_at_mono; [|done]. by right.
Qed.

Lemma char_instr_ok p op args : char_instr op args -> at_ code p args -> char_ok code p op (zlen args).
Proof using.
  intros Hc Ha. destruct Hc as [| |v|v|n l Hn Hl|n l Hn Hl].
  - constructor.
  - constructor.
  - rewrite zlen_le_split. econstructor. by apply at_u16.
  - rewrite zlen_le_split. econstructor. by apply at_u32.
  - pose proof (at_range _ _ _ Ha) as [Hp Hr]. rewrite zlen_app, zlen_le_split in *. rewrite Hl in *.
    apply at_app in Ha as [Ha _]. constructor; [|done|done|lia]. by rewrite (at_u16 _ _ _ Ha), wrap_small by lia.
  - pose proof (at_range _ _ _ Ha) as [Hp Hr]. rewrite zlen_app, zlen_le_split in *. rewrite Hl in *.
    apply at_app in Ha as [Ha _]. constructor; [|done|done|lia]. by rewrite (at_u16 _ _ _ Ha), wrap_small by lia.
Qed.

Lemma straight_ok p op args D d : straight cc op args -> at_ code p args -> D (p + zlen args) d ->
  op_ok code cc st D p d op.
Proof using.
  intros Hs Ha HD. destruct Hs as [op Hz| |op l Hc|op val Hop Hv|a b H0 H1|op val Hop Hv].
  - apply ok_zero; [done|]. by rewrite zlen_nil, Z.add_0_r in HD.
  - apply ok_prev. by rewrite zlen_nil, Z.add_0_r in HD.
  - eapply ok_char; [by apply char_instr_ok|done].
  - apply at_cons in Ha as [Ha _]. eapply ok_save; [done|exact Ha|done|exact HD].
  - apply at_cons in Ha as [Ha [Hb _]%at_cons]. eapply ok_reset; [exact Ha|exact Hb|done|done|exact HD].
  - apply at_cons in Ha as [Ha _]. eapply ok_back; [done|exact Ha|done|exact HD].
Qed.

Lemma covers_straight p op args d : straight cc op args -> at_ code p (reop_code op :: args) ->
  covers p (p + 1 + zlen args) d.
Proof using.
  intros Hs [Hop Ha]%at_op. apply (covers_around _ _ _ _ _ _ [(p, d)] (covers_here (p + 1 + zlen args) d)).
  intros D Hq HL. split; [apply HL; by left|]. split; [by left|]. constructor; [|done]. right. exists op.
  split; [done|]. by apply straight_ok with args.
Qed.

(** Jumps: the target is relative to the end of the instruction. *)
Lemma s32_u32 v : - 2 ^ 31 <= v < 2 ^ 31 -> s32 (u32 v) = v.
Proof using. intros Hv. unfold sext. rewrite wrap_wrap by lia. by apply (sext_small 32). Qed.

Lemma split_at p op v D d : is_split op \/ is_look op -> at_ code p (jump op v) -> - 2 ^ 31 <= v < 2 ^ 31 ->
  D (p + 5) d -> D (p + 5 + v) d -> typed_at D p d.
Proof using.
  intros Hop [Ho Hv]%at_jump Hr H1 H2. exists op. split; [done|].
  apply ok_split with (u32 v); [|done|by replace (p + 1 + 4) with (p + 5) by lia|].
  - rewrite !elem_of_cons. unfold is_split, is_look in Hop. tauto.
  - rewrite s32_u32 by done. by replace (p + 1 + 4 + v) with (p + 5 + v) by lia.
Qed.

Lemma goto_at p v (D : Z -> Z -> Prop) d : at_ code p (jump REOP_goto v) -> - 2 ^ 31 <= v < 2 ^ 31 -> D (p + 5 + v) d -> typed_at D p d.
Proof using.
  intros [Ho Hv]%at_jump Hr H1. exists REOP_goto. split; [done|].
  apply ok_goto with (u32 v); [done|]. rewrite s32_u32 by done. by replace (p + 1 + 4 + v) with (p + 5 + v) by lia.
Qed.

Lemma push_at p v (D : Z -> Z -> Prop) d : at_ code p (jump REOP_push_i32 v) -> d < st -> D (p + 5) (d + 1) -> typed_at D p d.
Proof using.
  intros [Ho Hv]%at_jump Hr H1. exists REOP_push_i32. split; [done|].
  apply ok_push_i32 with (u32 v); [done|done|]. by replace (p + 1 + 4) with (p + 5) by lia.
Qed.

Lemma loop_at p v (D : Z -> Z -> Prop) d : at_ code p (jump REOP_loop v) -> - 2 ^ 31 <= v < 2 ^ 31 -> 1 <= d ->
  D (p + 5) d -> D (p + 5 + v) d -> typed_at D p d.
Proof using.
  intros [Ho Hv]%at_jump Hr Hd H1 H2. exists REOP_loop. split; [done|].
  apply ok_loop with (u32 v); [done|done|by replace (p + 1 + 4) with (p + 5) by lia|].
  rewrite s32_u32 by done. by replace (p + 1 + 4 + v) with (p + 5 + v) by lia.
Qed.

Lemma bne_at p v (D : Z -> Z -> Prop) d : at_ code p (jump REOP_bne_char_pos v) -> - 2 ^ 31 <= v < 2 ^ 31 -> 0 <= d ->
  D (p + 5) d -> D (p + 5 + v) d -> typed_at D p (d + 1).
Proof using.
  intros [Ho Hv]%at_jump Hr Hd H1 H2. exists REOP_bne_char_pos. split; [done|].
  apply ok_bne with (u32 v); [done|lia| |]; rewrite Z.add_simpl_r; [by replace (p + 1 + 4) with (p + 5) by lia|].
  rewrite s32_u32 by done. by replace (p + 1 + 4 + v) with (p + 5 + v) by lia.
Qed.

Lemma drop_at p (D : Z -> Z -> Prop) d : at_ code p [reop_code REOP_drop] -> 0 <= d -> D (p + 1) d -> typed_at D p (d + 1).
Proof using.
  intros [Ho _]%at_op Hd H1. exists REOP_drop. split; [done|]. apply ok_drop; [lia|]. by rewrite Z.add_simpl_r.
Qed.

Lemma push_pos_at p (D : Z -> Z -> Prop) d : at_ code p [reop_code REOP_push_char_pos] -> d < st -> D (p + 1) (d + 1) ->
  typed_at D p d.
Proof using. intros [Ho _]%at_op Hd H1. exists REOP_push_char_pos. split; [done|]. by apply ok_push_char_pos. Qed.

Lemma match_at p D d : at_ code p [reop_code REOP_match] -> typed_at D p d.
Proof using. intros [Ho _]%at_op. exists REOP_match. split; [done|]. apply ok_match. Qed.

Lemma at_point (D : Z -> Z -> Prop) x y x' y' : D x' y' -> x' = x -> y' = y -> D x y.
Proof using. by intros H -> ->. Qed.

(** Finds the point of a typing, up to arithmetic. *)
Ltac point HD HL :=
  first [ eapply at_point; [exact HD|lia|lia]
        | eapply at_point; [apply HL; left; reflexivity|lia|lia]
        | eapply at_point; [apply HL; right; left; reflexivity|lia|lia]
        | eapply at_point; [apply HL; right; right; left; reflexivity|lia|lia]
        | eapply at_point; [apply HL; right; right; right; left; reflexivity|lia|lia] ].
Ltac points := repeat apply List.Forall_cons; cbn [fst snd]; [..|apply List.Forall_nil].

Lemma covers_opt op n p d : is_split op \/ is_look op -> at_ code p (jump op n) -> 0 <= n < 2 ^ 30 ->
  covers (p + 5) (p + 5 + n) d -> covers p (p + 5 + n) d.
Proof using.
  intros Hop Ha Hn Hc. apply (covers_around _ _ _ _ _ _ [(p, d); (p + 5 + n, d)] Hc). intros D HD HL.
  split; [point HD HL|]. split; [by left|]. points; [right|by left].
  apply (split_at p op n D d); [done|done|lia|point HD HL|point HD HL].
Qed.

Lemma covers_star op n p d : is_split op -> at_ code p (jump op (n + 5)) -> 0 <= n < 2 ^ 30 ->
  covers (p + 5) (p + 5 + n) d -> at_ code (p + 5 + n) (jump REOP_goto (- (n + 10))) -> covers p (p + n + 10) d.
Proof using.
  intros Hop Ha Hn Hc Hg. apply (covers_around _ _ _ _ _ _ [(p, d); (p + n + 10, d)] Hc). intros D HD HL.
  split; [point HD HL|]. split.
  - right. eapply goto_at; [exact Hg|lia|point HD HL].
  - points; [right|by left]. apply (split_at p op (n + 5) D d); [by left|done|lia|point HD HL|point HD HL].
Qed.

Lemma covers_star_check op n p d : is_split op -> at_ code p (jump op (n + 6)) -> 0 <= n < 2 ^ 30 -> 0 <= d < st ->
  at_ code (p + 5) [reop_code REOP_push_char_pos] -> covers (p + 6) (p + 6 + n) (d + 1) ->
  at_ code (p + 6 + n) (jump REOP_bne_char_pos (- (n + 11))) -> covers p (p + n + 11) d.
Proof using.
  intros Hop Ha Hn Hd Hpush Hc Hg. apply (covers_around _ _ _ _ _ _ [(p, d); (p + 5, d); (p + n + 11, d)] Hc). intros D HD HL.
  split; [point HD HL|]. split.
  - right. eapply bne_at; [exact Hg|lia|lia|point HD HL|point HD HL].
  - points; [right|right|by left].
    + apply (split_at p op (n + 6) D d); [by left|done|lia|point HD HL|point HD HL].
    + apply push_pos_at; [done|lia|point HD HL].
Qed.

Lemma covers_loop v n p d : at_ code p (jump REOP_push_i32 v) -> 0 <= n < 2 ^ 30 -> 0 <= d < st ->
  covers (p + 5) (p + 5 + n) (d + 1) -> at_ code (p + 5 + n) (jump REOP_loop (- (n + 5))) ->
  at_ code (p + 10 + n) [reop_code REOP_drop] -> covers p (p + n + 11) d.
Proof using.
  intros Ha Hn Hd Hc Hl Hdrop.
  apply (covers_around _ _ _ _ _ _ [(p, d); (p + 10 + n, d + 1); (p + n + 11, d)] Hc). intros D HD HL.
  split; [point HD HL|]. split.
  - right. eapply loop_at; [exact Hl|lia|lia|point HD HL|point HD HL].
  - points; [right|right|by left].
    + eapply push_at; [exact Ha|lia|point HD HL].
    + apply drop_at; [done|lia|point HD HL].
Qed.

Lemma covers_loop_split v op n p d : is_split op -> at_ code p (jump REOP_push_i32 v) -> 0 <= n < 2 ^ 30 -> 0 <= d < st ->
  at_ code (p + 5) (jump op (n + 5)) -> covers (p + 10) (p + 10 + n) (d + 1) ->
  at_ code (p + 10 + n) (jump REOP_loop (- (n + 10))) -> at_ code (p + 15 + n) [reop_code REOP_drop] ->
  covers p (p + n + 16) d.
Proof using.
  intros Hop Ha Hn Hd Hs Hc Hl Hdrop.
  apply (covers_around _ _ _ _ _ _ [(p, d); (p + 5, d + 1); (p + 15 + n, d + 1); (p + n + 16, d)] Hc). intros D HD HL.
  split; [point HD HL|]. split.
  - right. eapply loop_at; [exact Hl|lia|lia|point HD HL|point HD HL].
  - points; [right|right|right|by left].
    + eapply push_at; [exact Ha|lia|point HD HL].
    + apply (split_at (p + 5) op (n + 5) D (d + 1)); [by left|done|lia|point HD HL|point HD HL].
    + apply drop_at; [done|lia|point HD HL].
Qed.

Lemma covers_plus op n p d : is_split op -> 0 <= n < 2 ^ 30 -> covers p (p + n) d ->
  at_ code (p + n) (jump op (- (n + 5))) -> covers p (p + n + 5) d.
Proof using.
  intros Hop Hn Hc Hs. apply (covers_around _ _ _ _ _ _ [(p + n + 5, d)] Hc). intros D HD HL.
  split; [done|]. split; [right|points; by left].
  apply (split_at (p + n) op (- (n + 5)) D d); [by left|done|lia|point HD HL|point HD HL].
Qed.

Lemma covers_alt op n1 n2 p d : is_split op -> 0 <= n1 < 2 ^ 30 -> 0 <= n2 < 2 ^ 30 ->
  at_ code p (jump op (n1 + 5)) -> covers (p + 5) (p + 5 + n1) d -> at_ code (p + 5 + n1) (jump REOP_goto n2) ->
  covers (p + 10 + n1) (p + 10 + n1 + n2) d -> covers p (p + 10 + n1 + n2) d.
Proof using.
  intros Hop H1 H2 Ha Hc1 Hg (D2 & Hd2 & HD2).
  destruct Hc1 as (D1 & Hd1 & HD1).
  exists (fun pc e => D1 pc e \/ D2 pc e \/ In (pc, e) [(p, d); (p + 10 + n1 + n2, d)]). split; [right; right; by left|].
  intros pc e [HD|[HD|Hin]].
  - destruct (HD1 _ _ HD) as [[-> ->]|Ht]; right; [|eapply typed_at_mono; [|done]; intros; by left].
    eapply goto_at; [exact Hg|lia|]. right. right. right. left. f_equal. lia.
  - destruct (HD2 _ _ HD) as [?|Ht]; [by left|right]. eapply typed_at_mono; [|done]. intros. right. by left.
  - destruct Hin as [[= <- <-]|[[= <- <-]|[]]]; [right|by left].
    apply (split_at p op (n1 + 5) _ d); [by left|done|lia|by left|].
    right. left. by replace (p + 5 + (n1 + 5)) with (p + 10 + n1) by lia.
Qed.

Lemma covers_look op n p d : is_look op -> 0 <= n < 2 ^ 30 -> at_ code p (jump op (n + 1)) ->
  covers (p + 5) (p + 5 + n) d -> at_ code (p + 5 + n) [reop_code REOP_match] -> covers p (p + n + 6) d.
Proof using.
  intros Hop Hn Ha Hc Hm. apply (covers_around _ _ _ _ _ _ [(p, d); (p + n + 6, d)] Hc). intros D HD HL.
  split; [point HD HL|]. split; [right; by apply match_at|]. points; [right|by left].
  apply (split_at p op (n + 1) D d); [by right|done|lia|point HD HL|point HD HL].
Qed.

Lemma simple_at n l p : simple n l -> at_ code p (l ++ [reop_code REOP_match]) -> simple_run code p n.
Proof using.
  intros Hs. revert p. induction Hs as [|op n l Hz Hs IH|op args n l Hc Hs IH]; intros p Ha.
  - apply at_op in Ha as [Ho _]. by apply simple_match.
  - apply at_op in Ha as [Ho Ha]. eapply simple_zero; [done|done|by apply IH].
  - change ((reop_code op :: args ++ l) ++ [reop_code REOP_match])
      with (reop_code op :: (args ++ l) ++ [reop_code REOP_match]) in Ha.
    apply at_op in Ha as [Ho Ha]. rewrite <- app_assoc in Ha. apply at_app in Ha as [Hargs Ha].
    eapply simple_char; [done|by apply char_instr_ok|]. by apply IH.
Qed.

Lemma covers_simple q1 q2 n l p d : simple n l -> 1 <= n < 2 ^ 30 -> zlen l < 2 ^ 30 ->
  at_ code p (jump REOP_simple_greedy_quant (zlen l + 1) ++ le_split 4 q1 ++ le_split 4 q2 ++ le_split 4 n ++ l ++
              [reop_code REOP_match]) -> covers p (p + 17 + zlen l + 1) d.
Proof using.
  intros Hs Hn Hl Ha. pose proof (zlen_nonneg l).
  apply at_app in Ha as [[Ho Hv]%at_jump Ha]. rewrite zlen_jump in Ha.
  apply at_app in Ha as [H1%at_u32 Ha]. apply at_app in Ha as [H2%at_u32 Ha]. apply at_app in Ha as [H3%at_u32 Ha].
  rewrite !zlen_le_split in *. apply simple_at with (1 := Hs) in Ha.
  apply (covers_around _ _ _ _ _ _ [(p, d)] (covers_here (p + 17 + zlen l + 1) d)). intros D HD HL.
  split; [point HD HL|]. split; [by left|]. points. right. exists REOP_simple_greedy_quant. split; [done|].
  apply ok_quant with n (u32 q1) (u32 q2) (u32 (zlen l + 1)).
  - exact Hv.
  - by replace (p + 1 + 4) with (p + 5) by lia.
  - by replace (p + 1 + 8) with (p + 5 + Z.of_nat 4) by lia.
  - replace (p + 1 + 12) with (p + 5 + Z.of_nat 4 + Z.of_nat 4) by lia. by rewrite (wrap_small 32 n) in H3 by lia.
  - lia.
  - apply wrap_range. lia.
  - by replace (p + 1 + 16) with (p + 5 + Z.of_nat 4 + Z.of_nat 4 + Z.of_nat 4) by lia.
  - rewrite s32_u32 by lia. point HD HL.
Qed.
End Cover.

Lemma at_eq code p q l : at_ code p l -> p = q -> at_ code q l.
Proof. by intros H ->. Qed.

(** Cuts the bytes of a block into its parts. *)
Ltac cut_block :=
  repeat match goal with H : at_ _ _ (_ ++ _) |- _ => apply at_app in H as [? H] end;
  rewrite ?zlen_app, ?zlen_jump, ?zlen_cons, ?zlen_nil, ?zlen_le_split in *;
  repeat match goal with l : list Z |- _ => lazymatch goal with H : 0 <= zlen l |- _ => fail | _ => pose proof (zlen_nonneg l) end end.
Ltac part :=
  match goal with
  | |- at_ _ _ _ => by eapply at_eq; [eassumption|lia]
  | IH : forall p d, _ -> _ -> _ -> covers _ _ _ _ _ _ |- covers _ _ _ _ _ _ =>
      eapply IH; [by eapply at_eq; [eassumption|lia]|lia|lia]
  | |- _ => done || lia
  end.

Lemma block_typed code cc st k l : block cc k l -> zlen code < 2 ^ 30 ->
  forall p d, at_ code p l -> 0 <= d -> d + k <= st -> covers code cc st p (p + zlen l) d.
Proof.
  intros Hb Hsmall. induction Hb as [|op args Hs|k1 k2 l1 l2 _ IH1 _ IH2|op k l Ho Hb IH|op k l Ho Hb IH|op k l Ho Hb IH|
    n k l Hb IH|n op k l Ho Hb IH|op k l Ho Hb IH|op k1 k2 l1 l2 Ho _ IH1 _ IH2|op k l Ho Hb IH|q1 q2 n l Hs Hn];
    intros p d Ha Hd Hk; pose proof (at_range _ _ _ Ha) as [Hp Hr]; try (apply block_nonneg in Hb).
  - rewrite zlen_nil, Z.add_0_r. apply covers_here.
  - rewrite zlen_cons. replace (p + (zlen args + 1)) with (p + 1 + zlen args) by lia. by apply covers_straight with op.
  - cut_block. apply (covers_seq _ _ _ _ (p + zlen l1)); [part|]. rewrite Z.add_assoc. part.
  - cut_block. rewrite Z.add_assoc. apply covers_opt with op; [by left|part|part|part].
  - cut_block. replace (p + _) with (p + zlen l + 10) by lia. apply covers_star with op; part.
  - cut_block. replace (p + _) with (p + zlen l + 11) by lia. apply covers_star_check with op; part.
  - cut_block. replace (p + _) with (p + zlen l + 11) by lia. apply covers_loop with n; part.
  - cut_block. replace (p + _) with (p + zlen l + 16) by lia. apply covers_loop_split with n op; part.
  - cut_block. rewrite Z.add_assoc. apply covers_plus with op; part.
  - cut_block. replace (p + _) with (p + 10 + zlen l1 + zlen l2) by lia. apply covers_alt with op; part.
  - cut_block. replace (p + _) with (p + zlen l + 6) by lia. apply covers_look with op; part.
  - pose proof (zlen_nonneg l). rewrite ?zlen_app, ?zlen_jump, ?zlen_le_split, ?zlen_cons, ?zlen_nil in *.
    replace (p + _) with (p + 17 + zlen l + 1) by lia.
    apply covers_simple with q1 q2 n; part.
Qed.

(** ** The scans of the compiler *)

(** Whatever loop [step] returns from [a] (that is not an error), it returns it from [b]. *)
Definition leads {St} (step : St -> outcome (St + Z)) (a b : St) : Prop :=
  forall f r, 0 <= r -> loop f step a = Ret r -> exists f', loop f' step b = Ret r.

Lemma leads_refl {St} (step : St -> outcome (St + Z)) a : leads step a a.
Proof. intros f r _ H. by exists f. Qed.

Lemma leads_trans {St} (step : St -> outcome (St + Z)) a b c : leads step a b -> leads step b c -> leads step a c.
Proof. intros H1 H2 f r Hr H. destruct (H1 f r Hr H) as [f' H']. by apply (H2 f'). Qed.

Lemma leads_step {St} (step : St -> outcome (St + Z)) a b :
  (forall x, step a = Ret x -> x = inl b \/ exists r, x = inr r /\ r < 0) -> leads step a b.
Proof.
  intros Hs [|f] r Hr; [done|]. cbn [loop]. destruct (step a) as [x| |]; [|done|done]. cbn [mbind outcome_bind].
  destruct (Hs x eq_refl) as [-> | (r' & -> & Hneg)].
  - intros H. by exists f.
  - intros [= ->]. lia.
Qed.

Lemma char_instr_len bc p op args : char_instr op args -> at_ bc (p + 1) args ->
  instr_len bc p op = Ret (1 + zlen args) /\
  op ∈ [REOP_range; REOP_range32; REOP_char; REOP_char32; REOP_dot; REOP_any].
Proof.
  intros Hc Ha. destruct Hc as [| |v|v|n l Hn Hl|n l Hn Hl]; try (split; [done|rewrite !elem_of_cons; tauto]).
  - rewrite zlen_app, zlen_le_split, Hl. apply at_app in Ha as [Ha _]. cbn [instr_len].
    rewrite (at_u16 _ _ _ Ha), wrap_small by lia. cbn. split; [f_equal; lia|rewrite !elem_of_cons; tauto].
  - rewrite zlen_app, zlen_le_split, Hl. apply at_app in Ha as [Ha _]. cbn [instr_len].
    rewrite (at_u16 _ _ _ Ha), wrap_small by lia. cbn. split; [f_equal; lia|rewrite !elem_of_cons; tauto].
Qed.

Lemma straight_len bc p cc op args : straight cc op args -> at_ bc (p + 1) args ->
  instr_len bc p op = Ret (1 + zlen args) /\
  op ∉ [REOP_push_i32; REOP_push_char_pos; REOP_drop; REOP_bne_char_pos].
Proof.
  intros Hs Ha. destruct Hs as [op Hz| |op l Hc|op val Hop Hv|a b H0 H1|op val Hop Hv].
  - rewrite !not_elem_of_cons. destruct op; try discriminate Hz; (split; [done|]); (split_and!; [done..|]);
      apply not_elem_of_nil.
  - rewrite !not_elem_of_cons. (split; [done|]); (split_and!; [done..|]); apply not_elem_of_nil.
  - destruct (char_instr_len bc p op l Hc Ha) as [E Hin]. split; [done|].
    rewrite !elem_of_cons, elem_of_nil in *. intros Hin'. destruct_or! Hin'; subst op; destruct_or! Hin; done.
  - rewrite !not_elem_of_cons. destruct Hop as [-> | ->]; (split; [done|]); (split_and!; [done..|]); apply not_elem_of_nil.
  - rewrite !not_elem_of_cons. (split; [done|]); (split_and!; [done..|]); apply not_elem_of_nil.
  - rewrite !not_elem_of_cons. destruct Hop as [-> | ->]; (split; [done|]); (split_and!; [done..|]); apply not_elem_of_nil.
Qed.

Section StackScan.
Context (bc : list Z) (bc_len : Z).

(** One turn of the loop of [compute_stack_size]. *)
Definition stack_step (st : Z * Z * Z) : outcome (Z * Z * Z + Z) :=
  let '(pos, stack_size, stack_size_max) := st in
  if pos <? bc_len then
    b ← aget bc pos;
    match reop_of b with
    | None => Undef
    | Some op =>
        _ ← c_assert (pos + reop_size op <=? bc_len);
        len ← instr_len bc pos op;
        match op with
        | REOP_push_i32 | REOP_push_char_pos =>
            let stack_size := stack_size + 1 in
            mret (if stack_size >? stack_size_max then
                    if stack_size >? STACK_SIZE_MAX then inr (-1) else inl (pos + len, stack_size, stack_size)
                  else inl (pos + len, stack_size, stack_size_max))
        | REOP_drop | REOP_bne_char_pos =>
            _ ← c_assert (stack_size >? 0);
            mret (inl (pos + len, stack_size - 1, stack_size_max))
        | _ => mret (inl (pos + len, stack_size, stack_size_max))
        end
    end
  else mret (inr stack_size_max).

Lemma scan_plain p op len ss mx : op_at bc p op -> p < bc_len -> instr_len bc p op = Ret len ->
  op ∉ [REOP_push_i32; REOP_push_char_pos; REOP_drop; REOP_bne_char_pos] ->
  leads stack_step (p, ss, mx) (p + len, ss, mx).
Proof using.
  intros (b & Eb & Eo) Hp Hlen Hop. apply leads_step. intros x. unfold stack_step.
  rewrite (proj2 (Z.ltb_lt _ _) Hp), Eb. cbn [mbind outcome_bind]. rewrite Eo.
  destruct (c_assert (p + reop_size op <=? bc_len)); cbn [mbind outcome_bind]; [|done|done]. rewrite Hlen. cbn [mbind outcome_bind].
  rewrite !not_elem_of_cons in Hop. destruct Hop as (H1 & H2 & H3 & H4 & _).
  destruct op; try done; intros [= <-]; by left.
Qed.

Lemma scan_push p op ss mx : op = REOP_push_i32 \/ op = REOP_push_char_pos -> op_at bc p op -> p < bc_len ->
  leads stack_step (p, ss, mx) (p + reop_size op, ss + 1, Z.max mx (ss + 1)).
Proof using.
  intros Hop (b & Eb & Eo) Hp. apply leads_step. intros x. unfold stack_step.
  rewrite (proj2 (Z.ltb_lt _ _) Hp), Eb. cbn [mbind outcome_bind]. rewrite Eo.
  destruct (c_assert (p + reop_size op <=? bc_len)); cbn [mbind outcome_bind]; [|done|done].
  assert (Hx : forall y, (if ss + 1 >? mx then if ss + 1 >? STACK_SIZE_MAX then inr (-1)
                     else inl (p + reop_size op, ss + 1, ss + 1) else inl (p + reop_size op, ss + 1, mx)) = y ->
    y = inl (p + reop_size op, ss + 1, Z.max mx (ss + 1)) \/ exists r, y = inr r /\ r < 0).
  { intros y <-. destruct (Z.gtb_spec (ss + 1) mx); [|left; by rewrite Z.max_l by lia].
    destruct (_ >? _); [right; by exists (-1)|left; by rewrite Z.max_r by lia]. }
  destruct Hop as [-> | ->]; cbn [instr_len mbind outcome_bind mret outcome_ret]; intros [= E]; by apply Hx.
Qed.

Lemma scan_pop p op ss mx : op = REOP_drop \/ op = REOP_bne_char_pos -> op_at bc p op -> p < bc_len ->
  leads stack_step (p, ss, mx) (p + reop_size op, ss - 1, mx).
Proof using.
  intros Hop (b & Eb & Eo) Hp. apply leads_step. intros x. unfold stack_step.
  rewrite (proj2 (Z.ltb_lt _ _) Hp), Eb. cbn [mbind outcome_bind]. rewrite Eo.
  destruct (c_assert (p + reop_size op <=? bc_len)); cbn [mbind outcome_bind]; [|done|done].
  destruct Hop as [-> | ->]; cbn [instr_len mbind outcome_bind mret outcome_ret];
    (destruct (c_assert (ss >? 0)); cbn [mbind outcome_bind mret outcome_ret]; [|done|done]); intros [= <-]; by left.
Qed.

Lemma scan_jump p op v ss mx : at_ bc p (jump op v) -> p < bc_len ->
  op ∈ [REOP_goto; REOP_split_goto_first; REOP_split_next_first; REOP_loop; REOP_lookahead; REOP_negative_lookahead] ->
  leads stack_step (p, ss, mx) (p + 5, ss, mx).
Proof using.
  intros [Ho _]%at_jump Hp Hop. rewrite !elem_of_cons, elem_of_nil in Hop.
  apply (scan_plain p op 5 ss mx Ho Hp).
  - by destruct_or! Hop; subst op.
  - rewrite !not_elem_of_cons. destruct_or! Hop; subst op; done || (split_and!; [done..|]; apply not_elem_of_nil).
Qed.

Lemma leads_eq {St} (step : St -> outcome (St + Z)) a b b' : leads step a b -> b = b' -> leads step a b'.
Proof using. by intros H <-. Qed.

Lemma scan_straight cc p op args ss mx : straight cc op args -> at_ bc p (reop_code op :: args) -> p < bc_len ->
  leads (stack_step) (p, ss, mx) (p + 1 + zlen args, ss, mx).
Proof using.
  intros Hs [Ho Ha]%at_op Hp. destruct (straight_len bc p cc op args Hs Ha) as [Hlen Hop].
  eapply leads_eq; [by apply (scan_plain p op (1 + zlen args))|]. by rewrite Z.add_assoc.
Qed.

Lemma scan_byte p op ss mx : op = REOP_match -> at_ bc p [reop_code op] -> p < bc_len ->
  leads (stack_step) (p, ss, mx) (p + 1, ss, mx).
Proof using.
  intros -> [Ho _]%at_op Hp. apply (scan_plain p _ 1 ss mx Ho Hp); [done|].
  rewrite !not_elem_of_cons. split_and!; [done..|]. apply not_elem_of_nil.
Qed.

Lemma scan_simple n l : simple n l -> forall p ss mx, at_ bc p l -> p + zlen l <= bc_len ->
  leads (stack_step) (p, ss, mx) (p + zlen l, ss, mx).
Proof using.
  induction 1 as [|op n l Hz Hs IH|op args n l Hc Hs IH]; intros p ss mx Ha Hp; rewrite ?zlen_cons, ?zlen_app in *.
  - rewrite zlen_nil, Z.add_0_r. apply leads_refl.
  - pose proof (zlen_nonneg l). apply (at_app _ _ [reop_code op] l) in Ha as [Ho Ha].
    eapply leads_trans; [apply (scan_straight 0 p op []); [by apply st_zero|done|lia]|].
    rewrite zlen_cons, zlen_nil in *.
    eapply leads_eq; [apply IH; [by eapply at_eq; [exact Ha|lia]|lia]|]. do 2 f_equal. lia.
  - pose proof (zlen_nonneg l). apply (at_app _ _ (reop_code op :: args) l) in Ha as [Ho Ha]. rewrite zlen_cons in Ha.
    pose proof (zlen_nonneg args).
    eapply leads_trans; [apply (scan_straight 0 p op args); [by apply st_char|done|lia]|].
    eapply leads_eq; [apply IH; [by eapply at_eq; [exact Ha|lia]|lia]|]. do 2 f_equal. lia.
Qed.

Ltac jump_op := rewrite !elem_of_cons; unfold is_split, is_look in *; tauto.

Lemma triple_eq (a a' b b' c c' : Z) : a = a' -> b = b' -> c = c' -> (a, b, c) = (a', b', c').
Proof using. by intros -> -> ->. Qed.

(** The next instruction of a scan. *)
Ltac scan_next tac := eapply leads_trans; [eapply leads_eq; [tac|reflexivity]|].
Ltac at_here := match goal with Ha : at_ _ _ _ |- _ => eapply at_eq; [exact Ha|lia] end.
Ltac scan_end := eapply leads_eq; [apply leads_refl|]; apply triple_eq; lia.
Ltac scan_jmp := scan_next ltac:(eapply scan_jump; [at_here|lia|jump_op]).

Lemma block_scan cc k l : block cc k l -> forall p ss mx, at_ bc p l -> p + zlen l <= bc_len -> ss <= mx ->
  leads (stack_step) (p, ss, mx) (p + zlen l, ss, Z.max mx (ss + k)).
Proof using.
  induction 1 as [|op args Hs|k1 k2 l1 l2 Hb1 IH1 Hb2 IH2|op k l Ho Hb IH|op k l Ho Hb IH|op k l Ho Hb IH|
    n k l Hb IH|n op k l Ho Hb IH|op k l Ho Hb IH|op k1 k2 l1 l2 Ho Hb1 IH1 Hb2 IH2|op k l Ho Hb IH|q1 q2 n l Hs Hn];
    intros p ss mx Ha Hp Hm; try (apply block_nonneg in Hb); try (apply block_nonneg in Hb1; apply block_nonneg in Hb2).
  - rewrite zlen_nil. scan_end.
  - rewrite zlen_cons in *. pose proof (zlen_nonneg args).
    scan_next ltac:(apply (scan_straight cc p op args ss mx Hs Ha); lia). scan_end.
  - cut_block. scan_next ltac:(apply IH1; [done|lia|lia]). scan_next ltac:(apply IH2; [done|lia|lia]). scan_end.
  - cut_block. scan_jmp. scan_next ltac:(apply IH; [at_here|lia|lia]). scan_end.
  - cut_block. scan_jmp. scan_next ltac:(apply IH; [at_here|lia|lia]). scan_jmp. scan_end.
  - cut_block. scan_jmp. scan_next ltac:(eapply (scan_push _ REOP_push_char_pos); [by right|by eapply at_op|lia]).
    cbn [reop_size]. scan_next ltac:(apply IH; [at_here|lia|lia]).
    scan_next ltac:(eapply (scan_pop _ REOP_bne_char_pos); [by right|eapply at_jump; at_here|lia]). cbn [reop_size]. scan_end.
  - cut_block. scan_next ltac:(eapply (scan_push _ REOP_push_i32); [by left|eapply at_jump; at_here|lia]).
    cbn [reop_size]. scan_next ltac:(apply IH; [at_here|lia|lia]). scan_jmp.
    scan_next ltac:(eapply (scan_pop _ REOP_drop); [by left|eapply at_op; at_here|lia]). cbn [reop_size]. scan_end.
  - cut_block. scan_next ltac:(eapply (scan_push _ REOP_push_i32); [by left|eapply at_jump; at_here|lia]).
    cbn [reop_size]. scan_jmp. scan_next ltac:(apply IH; [at_here|lia|lia]). scan_jmp.
    scan_next ltac:(eapply (scan_pop _ REOP_drop); [by left|eapply at_op; at_here|lia]). cbn [reop_size]. scan_end.
  - cut_block. scan_next ltac:(apply IH; [at_here|lia|lia]). scan_jmp. scan_end.
  - cut_block. scan_jmp. scan_next ltac:(apply IH1; [at_here|lia|lia]). scan_jmp.
    scan_next ltac:(apply IH2; [at_here|lia|lia]). scan_end.
  - cut_block. scan_jmp. scan_next ltac:(apply IH; [at_here|lia|lia]).
    scan_next ltac:(eapply scan_byte; [reflexivity|at_here|lia]). scan_end.
  - pose proof (zlen_nonneg l). rewrite ?zlen_app, ?zlen_jump, ?zlen_le_split, ?zlen_cons, ?zlen_nil in *.
    apply at_app in Ha as [[Ho _]%at_jump Ha]. do 3 apply at_app in Ha as [_ Ha].
    apply at_app in Ha as [Ha Hmatch]. rewrite ?zlen_jump, ?zlen_le_split in *.
    scan_next ltac:(apply (scan_plain p REOP_simple_greedy_quant 17); [done|lia|done|
      rewrite !not_elem_of_cons; split_and!; [done..|]; apply not_elem_of_nil]).
    scan_next ltac:(eapply scan_simple; [exact Hs|at_here|lia]).
    scan_next ltac:(eapply scan_byte; [reflexivity|at_here|lia]). scan_end.
Qed.
End StackScan.

(** The stack size found by the compiler is the one of the block in front of the final [REOP_match]. *)
Lemma block_stack_size cc k l bc_buf n r : block cc k l -> at_ bc_buf RE_HEADER_LEN (l ++ [reop_code REOP_match]) ->
  n = RE_HEADER_LEN + zlen l + 1 -> compute_stack_size bc_buf n = Ret r -> 0 <= r -> r = k.
Proof.
  intros Hb Ha -> Hc Hr. unfold compute_stack_size in Hc.
  replace (RE_HEADER_LEN + zlen l + 1 - RE_HEADER_LEN) with (zlen l + 1) in Hc by lia.
  set (bc := drop (Z.to_nat RE_HEADER_LEN) bc_buf) in *. change (loop (S (length bc)) (stack_step bc (zlen l + 1)) (0, 0, 0) = Ret r) in Hc.
  assert (Ha0 : at_ bc 0 (l ++ [reop_code REOP_match])).
  { destruct Ha as (pre & post & -> & Hpre). exists [], post. split; [|done]. unfold bc. rewrite drop_app_length'; [done|zlia]. }
  apply at_app in Ha0 as [Ha0 Hm].
  destruct (block_scan bc (zlen l + 1) cc k l Hb 0 0 0 Ha0 ltac:(lia) ltac:(lia) _ r Hr Hc) as (f1 & Hf1).
  destruct (scan_byte bc (zlen l + 1) _ REOP_match 0 (Z.max 0 (0 + k)) eq_refl Hm ltac:(lia) _ r Hr Hf1) as ([|f] & Hf); [done|].
  cbn [loop stack_step] in Hf. rewrite Z.add_0_l, Z.ltb_irrefl in Hf.
  injection Hf as <-. apply block_nonneg in Hb. lia.
Qed.

Section SimpleScan.
Context (bc : list Z).

(** One turn of the loop of [re_is_simple_quantifier]. *)
Definition simple_step (st : Z * Z) : outcome (Z * Z + Z) :=
  let '(pos, count) := st in
  if pos <? zlen bc then
    b ← aget bc pos;
    match reop_of b with
    | None => Undef
    | Some op =>
        len ← instr_len bc pos op;
        match op with
        | REOP_range | REOP_range32 | REOP_char | REOP_char32 | REOP_dot | REOP_any =>
            mret (inl (pos + len, count + 1))
        | REOP_line_start | REOP_line_end | REOP_word_boundary | REOP_not_word_boundary =>
            mret (inl (pos + len, count))
        | _ => mret (inr (-1))
        end
    end
  else mret (inr count).

Definition is_simple_op (op : REOPCodeEnum) : bool :=
  bool_decide (op ∈ [REOP_range; REOP_range32; REOP_char; REOP_char32; REOP_dot; REOP_any]) || zero_width op.

(** The scan succeeds from [(p, c)] only over a simple sequence up to [q]. *)
Definition simple_to (p c q : Z) (l : list Z) : Prop := forall f r, 0 <= r -> loop f simple_step (p, c) = Ret r ->
  exists n f', simple n l /\ loop f' simple_step (q, c + n) = Ret r.

(** An instruction that is not simple ends the scan with -1. *)
Lemma not_simple_stuck p c op f r : op_at bc p op -> p < zlen bc -> is_simple_op op = false -> 0 <= r ->
  loop f simple_step (p, c) <> Ret r.
Proof using.
  intros (b & Eb & Eo) Hp Hop Hr. destruct f as [|f]; [done|]. cbn [loop simple_step].
  rewrite (proj2 (Z.ltb_lt _ _) Hp), Eb. cbn [mbind outcome_bind]. rewrite Eo.
  destruct op; try discriminate Hop; cbn [instr_len mbind outcome_bind mret outcome_ret]; intros [= <-]; lia.
Qed.

Lemma not_simple p c q op l : op_at bc p op -> p < zlen bc -> is_simple_op op = false -> simple_to p c q l.
Proof using. intros Ho Hp Hop f r Hr Hl. by apply (not_simple_stuck p c op f r) in Hl. Qed.

Lemma simple_to_straight cc p c op args : straight cc op args -> at_ bc p (reop_code op :: args) ->
  simple_to p c (p + zlen (reop_code op :: args)) (reop_code op :: args).
Proof using.
  intros Hs Ha. pose proof (at_range _ _ _ Ha) as [Hp Hr]. rewrite zlen_cons in *. pose proof (zlen_nonneg args).
  pose proof Ha as [Ho Hargs]%at_op.
  destruct Hs as [op Hz| |op l Hc|op val Hop Hv|a b H0 H1|op val Hop Hv].
  2: apply (not_simple p c _ _ _ Ho); [lia|done].
  3: apply (not_simple p c _ _ _ Ho); [lia|by destruct Hop as [-> | ->]].
  3: apply (not_simple p c _ _ _ Ho); [lia|done].
  3: apply (not_simple p c _ _ _ Ho); [lia|by destruct Hop as [-> | ->]].
  - intros [|f] r Hr0; [done|]. cbn [loop simple_step]. destruct Ho as (b & Eb & Eo).
    rewrite (proj2 (Z.ltb_lt p (zlen bc))) by lia. rewrite Eb. cbn [mbind outcome_bind]. rewrite Eo.
    intros Hl. exists 0, f. split; [apply sim_zero; [done|constructor]|].
    rewrite zlen_nil, Z.add_0_r. by destruct op; try discriminate Hz.
  - intros [|f] r Hr0; [done|]. cbn [loop simple_step]. destruct Ho as (b & Eb & Eo).
    rewrite (proj2 (Z.ltb_lt p (zlen bc))) by lia. rewrite Eb. cbn [mbind outcome_bind]. rewrite Eo.
    destruct (char_instr_len bc p op l Hc Hargs) as [-> Hin]. cbn [mbind outcome_bind].
    intros Hl. exists 1, f. split.
    { rewrite <- (app_nil_r l). apply (sim_char op l 0 []); [done|constructor]. }
    rewrite Z.add_comm. rewrite (Z.add_comm (zlen l)), (Z.add_comm _ p).
    rewrite !elem_of_cons, elem_of_nil in Hin. by destruct_or! Hin; subst op.
Qed.

Lemma simple_app n1 n2 l1 l2 : simple n1 l1 -> simple n2 l2 -> simple (n1 + n2) (l1 ++ l2).
Proof using.
  induction 1 as [|op n l Hz Hs IH|op args n l Hc Hs IH]; intros H2; [done| |].
  - apply (sim_zero op _ (l ++ l2)); auto.
  - replace (n + 1 + n2) with (n + n2 + 1) by lia. cbn [app]. rewrite <- app_assoc. apply sim_char; auto.
Qed.

Lemma jump_not_simple p c q op v l : at_ bc p (jump op v) -> is_simple_op op = false -> simple_to p c q l.
Proof using.
  intros Ha Hop. pose proof (at_range _ _ _ Ha) as [Hp Hr]. rewrite zlen_jump in Hr. apply at_jump in Ha as [Ho _].
  apply (not_simple p c q op l Ho); [lia|done].
Qed.

Lemma block_simple cc k l : block cc k l -> forall p c, at_ bc p l -> simple_to p c (p + zlen l) l.
Proof using.
  induction 1 as [|op args Hs|k1 k2 l1 l2 _ IH1 _ IH2|op k l Ho Hb IH|op k l Ho Hb IH|op k l Ho Hb IH|
    n k l Hb IH|n op k l Ho Hb IH|op k l Ho Hb IH|op k1 k2 l1 l2 Ho _ IH1 _ IH2|op k l Ho Hb IH|q1 q2 n l Hs Hn];
    intros p c Ha.
  - intros f r Hr Hl. exists 0, f. split; [constructor|]. by rewrite zlen_nil, !Z.add_0_r.
  - by apply simple_to_straight with cc.
  - apply at_app in Ha as [H1 H2]. intros f r Hr Hl. destruct (IH1 p c H1 f r Hr Hl) as (n1 & f1 & Hs1 & Hl1).
    destruct (IH2 _ (c + n1) H2 f1 r Hr Hl1) as (n2 & f2 & Hs2 & Hl2).
    exists (n1 + n2), f2. split; [by apply simple_app|]. by rewrite zlen_app, !Z.add_assoc.
  - apply at_app in Ha as [Ha _]. eapply jump_not_simple; [exact Ha|by destruct Ho as [-> | ->]].
  - apply at_app in Ha as [Ha _]. eapply jump_not_simple; [exact Ha|by destruct Ho as [-> | ->]].
  - apply at_app in Ha as [Ha _]. eapply jump_not_simple; [exact Ha|by destruct Ho as [-> | ->]].
  - apply at_app in Ha as [Ha _]. by eapply jump_not_simple; [exact Ha|].
  - apply at_app in Ha as [Ha _]. by eapply jump_not_simple; [exact Ha|].
  - apply at_app in Ha as [Ha Hj]. intros f r Hr Hl. destruct (IH p c Ha f r Hr Hl) as (n1 & f1 & Hs1 & Hl1).
    exfalso. pose proof (at_range _ _ _ Hj) as [_ Hr2]. rewrite zlen_jump in Hr2. apply at_jump in Hj as [Hj _].
    apply (not_simple_stuck _ _ _ _ _ Hj) in Hl1; [done|lia|by destruct Ho as [-> | ->]|done].
  - apply at_app in Ha as [Ha _]. eapply jump_not_simple; [exact Ha|by destruct Ho as [-> | ->]].
  - apply at_app in Ha as [Ha _]. eapply jump_not_simple; [exact Ha|by destruct Ho as [-> | ->]].
  - apply at_app in Ha as [Ha _]. by eapply jump_not_simple; [exact Ha|].
Qed.
End SimpleScan.

Lemma simple_bound n l : simple n l -> n <= zlen l.
Proof.
  induction 1 as [|op n l Hz Hs IH|op args n l Hc Hs IH]; rewrite ?zlen_cons, ?zlen_app; [done|lia|].
  pose proof (zlen_nonneg args). lia.
Qed.

(** A positive answer: the atom is [n] character tests. *)
Lemma simple_quantifier_code cc k l n : block cc k l -> re_is_simple_quantifier l = Ret n -> 0 < n -> simple n l.
Proof.
  intros Hb Hl Hn. change (loop (S (length l)) (simple_step l) (0, 0) = Ret n) in Hl.
  destruct (block_simple l cc k l Hb 0 0 ltac:(by exists [], []; rewrite app_nil_r) _ n ltac:(lia) Hl)
    as (n' & [|f] & Hs & Hf); [done|].
  cbn [loop simple_step] in Hf. rewrite Z.add_0_l, Z.ltb_irrefl in Hf. injection Hf as <-. by rewrite Z.add_0_l.
Qed.
