(* ===== verification/RegexpTyped.v ===== *)
(** * The compiler emits well-typed bytecode

    [lre_compile_typed]: whatever [lre_compile] returns is well typed, so that the matcher
    never goes wrong on it ([lre_compile_exec_safe]).  A parse function is specified by [wp]: if it
    succeeds and the buffer records no allocation error, then the state is good
    again and the postcondition holds; [sticky]: an allocation error is never forgotten, and
    [lre_compile] checks for it at the end.  The one hypothesis is that the allocator
    never grants a block of 2^30 bytes, which keeps the [int] positions of the compiler exact. *)

From Stdlib Require Import String.
From S2P Require Import Prelude Cutils Utf8 DynBuf CharRange UnicodeCase.
From S2P Require Import UnicodeProp RegexpExec RegexpLex RegexpParse RegexpSafe RegexpBlock.
#[local] Open Scope Z_scope.
#[local] Arguments POk {_ A}.
#[local] Arguments PErr {_ A}.

Section Typed.
Context `{Realloc}.

Definition heap_bounded : Prop := forall h n, 2 ^ 30 <= n -> heap_request h n = None.
Hypothesis Hheap : heap_bounded.

(** ** The code buffer *)

Record buf_good (b : DynBuf) : Prop := {
  bg_wf : dbuf_wf b;
  bg_size : db_allocated_size b < 2 ^ 30
}.

Lemma buf_good_size b : buf_good b -> 0 <= db_size b < 2 ^ 30.
Proof. intros [[_ Hs _] Hm]. lia. Qed.

Lemma realloc_sticky b n r b' : dbuf_realloc b n = (r, b') -> db_error b' = false -> db_error b = false.
Proof.
  unfold dbuf_realloc. destruct (_ >? _); [|by intros [= <- <-]].
  destruct (db_error b) eqn:E; [intros [= <- <-]; congruence|done].
Qed.

Lemma realloc_good b n r b' : buf_good b -> 0 <= n <= 2 ^ 63 -> dbuf_realloc b n = (r, b') -> db_error b' = false ->
  r = 0 /\ buf_good b' /\ dbuf_data b' = dbuf_data b /\ db_size b' = db_size b /\ n <= db_allocated_size b'.
Proof using Hheap.
  intros [Hwf Hm] Hn E He. pose proof (dbuf_realloc_spec b n Hwf ltac:(unfold DBUF_MAX; lia) Hn) as R.
  rewrite E in R. destruct R as (Hwf' & Hd & Hs & _ & [(-> & Hle & _)|(_ & He' & _)]); [|congruence].
  split; [done|]. split; [|done]. split; [done|].
  unfold dbuf_realloc in E. destruct (_ >? _); [|by simplify_eq].
  destruct (db_error b); [by simplify_eq|].
  match type of E with context [realloc _ _ ?k] => set (sz := k) in E end. unfold realloc in E.
  destruct (heap_request (db_opaque b) sz) eqn:Er; [|done]. simplify_eq. cbn [db_allocated_size] in *.
  destruct (Z_lt_le_dec sz (2 ^ 30)) as [|Hge]; [done|]. by rewrite Hheap in Er.
Qed.

Lemma grow_sticky b n r b' : dbuf_grow b n = (r, b') -> db_error b' = false -> db_error b = false.
Proof. unfold dbuf_grow. destruct (_ >? _); [apply realloc_sticky|by intros [= <- <-]]. Qed.

Lemma grow_good b n r b' : buf_good b -> 0 <= n <= 2 ^ 62 -> dbuf_grow b n = (r, b') -> db_error b' = false ->
  r = 0 /\ buf_good b' /\ dbuf_data b' = dbuf_data b /\ db_size b' = db_size b /\ db_size b + n <= db_allocated_size b'.
Proof using Hheap.
  intros Hb Hn E He. pose proof (buf_good_size b Hb). unfold dbuf_grow in E. rewrite wrap64_small in E by lia.
  destruct (Z.gtb_spec (db_size b + n) (db_allocated_size b)); [exact (realloc_good b (db_size b + n) r b' Hb ltac:(lia) E He)|].
  simplify_eq. split_and!; done || lia.
Qed.

Lemma put_sticky b data r b' : dbuf_put b data = Ret (r, b') -> db_error b' = false -> db_error b = false.
Proof.
  unfold dbuf_put. destruct (dbuf_grow b (zlen data)) as [r1 b1] eqn:E. pose proof (grow_sticky _ _ _ _ E) as Hst.
  destruct (negb _); [by intros [= <- <-]|].
  destruct (awrite _ _ _); [|done|done]. cbn. by intros [= <- <-].
Qed.

Lemma put_good b data r b' : buf_good b -> zlen data <= 2 ^ 62 -> Forall is_byte data -> dbuf_put b data = Ret (r, b') ->
  db_error b' = false -> r = 0 /\ buf_good b' /\ dbuf_data b' = dbuf_data b ++ data.
Proof using Hheap.
  intros Hb Hl Hd E He. pose proof (put_sticky _ _ _ _ E He) as He0. unfold dbuf_put in E.
  pose proof (zlen_nonneg data). destruct (dbuf_grow b (zlen data)) as [r1 b1] eqn:Eg.
  assert (He1 : db_error b1 = false).
  { destruct (negb (r1 =? 0)); [by injection E as <- <-|]. by destruct (awrite _ _ _); [injection E as <- <-|..]. }
  destruct (grow_good b (zlen data) r1 b1 Hb ltac:(lia) Eg He1) as (-> & [Hwf1 Hm1] & Hd1 & Hs1 & Hroom).
  rewrite <- Hs1 in Hroom. cbn [negb] in E. rewrite Z.eqb_refl in E. cbn [negb] in E.
  destruct (dbuf_append_room b1 data Hwf1 Hd Hroom ltac:(lia)) as (buf & Ew & Hwf' & Hd').
  rewrite Ew in E. cbn [mbind outcome_bind] in E. injection E as <- <-. split; [done|]. split; [by split|].
  by rewrite Hd', Hd1.
Qed.

(** The array of a buffer: its data and the room behind. *)
Lemma buf_split b : buf_good b -> exists room, db_buf b = dbuf_data b ++ room.
Proof. intros _. exists (drop (Z.to_nat (db_size b)) (db_buf b)). unfold dbuf_data. by rewrite take_drop. Qed.

Lemma put_self_sticky b o n r b' : dbuf_put_self b o n = Ret (r, b') -> db_error b' = false -> db_error b = false.
Proof.
  unfold dbuf_put_self. destruct (dbuf_grow b n) as [r1 b1] eqn:E. pose proof (grow_sticky _ _ _ _ E) as Hst.
  destruct (negb _); [by intros [= <- <-]|].
  destruct (aread _ _ _); cbn [mbind outcome_bind]; [|done|done]. destruct (awrite _ _ _); cbn [mbind outcome_bind]; [|done|done]. by intros [= <- <-].
Qed.

Lemma put_self_good b n r b' pre l post : buf_good b -> dbuf_data b = pre ++ l ++ post -> n = zlen l ->
  dbuf_put_self b (zlen pre) n = Ret (r, b') -> db_error b' = false ->
  r = 0 /\ buf_good b' /\ dbuf_data b' = dbuf_data b ++ l.
Proof using Hheap.
  intros Hb Hdata -> E He. unfold dbuf_put_self in E.
  pose proof (dbuf_data_length b (bg_wf _ Hb)) as Hlen. rewrite Hdata in Hlen.
  pose proof (buf_good_size b Hb). pose proof (zlen_nonneg l). pose proof (zlen_nonneg pre). pose proof (zlen_nonneg post).
  rewrite !zlen_app in Hlen.
  destruct (dbuf_grow b (zlen l)) as [r1 b1] eqn:Eg.
  assert (He1 : db_error b1 = false).
  { destruct (negb (r1 =? 0)); [by injection E as <- <-|]. destruct (aread _ _ _); cbn [mbind outcome_bind] in E; [|done|done].
    destruct (awrite _ _ _); cbn [mbind outcome_bind] in E; [|done|done]. by injection E as <- <-. }
  destruct (grow_good b (zlen l) r1 b1 Hb ltac:(lia) Eg He1) as (-> & Hb1 & Hd1 & Hs1 & Hroom).
  rewrite <- Hs1 in Hroom. rewrite Z.eqb_refl in E. cbn [negb] in E.
  destruct (buf_split b1 Hb1) as [room Eb]. destruct Hb1 as [Hwf1 Hm1].
  assert (Hbytes : Forall is_byte l).
  { pose proof (Forall_take is_byte (Z.to_nat (db_size b1)) _ (wf_bytes _ Hwf1)) as Hf. fold (dbuf_data b1) in Hf.
    rewrite Hd1, Hdata, !Forall_app in Hf. tauto. }
  assert (Er : aread (db_buf b1) (zlen pre) (zlen l) = Ret l).
  { rewrite Eb, Hd1, Hdata, <- !app_assoc. apply (at_read _ (zlen pre) l). by exists pre, (post ++ room). }
  rewrite Er in E. cbn [mbind outcome_bind] in E.
  destruct (dbuf_append_room b1 l Hwf1 Hbytes Hroom ltac:(lia)) as (buf & Ew & Hwf' & Hd').
  rewrite Ew in E. cbn [mbind outcome_bind] in E. injection E as <- <-. split; [done|]. split; [by split|].
  by rewrite Hd', Hd1.
Qed.

Lemma insert_sticky b p n r b' : dbuf_insert b p n = Ret (r, b') -> db_error b' = false -> db_error b = false.
Proof.
  unfold dbuf_insert. destruct (dbuf_realloc b _) as [r1 b1] eqn:E. pose proof (realloc_sticky _ _ _ _ E) as Hst.
  destruct (negb _); [by intros [= <- <-]|].
  destruct (aread _ _ _); cbn [mbind outcome_bind]; [|done|done]. destruct (awrite _ _ _); cbn [mbind outcome_bind]; [|done|done]. by intros [= <- <-].
Qed.

Lemma awrite_at {A} (pre old post src : list A) i : i = zlen pre -> zlen old = zlen src ->
  awrite (pre ++ old ++ post) i src = Ret (pre ++ src ++ post).
Proof.
  intros -> Hl. rewrite awrite_ok by zlia. f_equal. unfold zlen in *. rewrite Nat2Z.id.
  rewrite take_app_length. do 2 f_equal. rewrite drop_app_ge by lia.
  replace (length pre + length src - length pre)%nat with (length old) by lia. by rewrite drop_app_length.
Qed.

Lemma insert_good b n r b' pre post : buf_good b -> dbuf_data b = pre ++ post -> 0 <= n < 2 ^ 30 ->
  dbuf_insert b (zlen pre) n = Ret (r, b') -> db_error b' = false ->
  r = 0 /\ buf_good b' /\ exists gap, zlen gap = n /\ dbuf_data b' = pre ++ gap ++ post.
Proof using Hheap.
  intros Hb Hdata Hn E He. unfold dbuf_insert in E.
  pose proof (dbuf_data_length b (bg_wf _ Hb)) as Hlen. rewrite Hdata, zlen_app in Hlen.
  pose proof (buf_good_size b Hb). pose proof (zlen_nonneg pre). pose proof (zlen_nonneg post).
  rewrite wrap64_small in E by lia. destruct (dbuf_realloc b (db_size b + n)) as [r1 b1] eqn:Eg.
  assert (He1 : db_error b1 = false).
  { destruct (negb (r1 =? 0)); [by injection E as <- <-|]. destruct (aread _ _ _); cbn [mbind outcome_bind] in E; [|done|done].
    destruct (awrite _ _ _); cbn [mbind outcome_bind] in E; [|done|done]. by injection E as <- <-. }
  destruct (realloc_good b (db_size b + n) r1 b1 Hb ltac:(lia) Eg He1) as (-> & Hb1 & Hd1 & Hs1 & Hroom).
  rewrite Z.eqb_refl in E. cbn [negb] in E. destruct (buf_split b1 Hb1) as [room Eb]. destruct Hb1 as [Hwf1 Hm1].
  rewrite Hd1, Hdata in Eb. rewrite <- app_assoc in Eb. rewrite Hs1 in E.
  assert (Hroomlen : n <= zlen room).
  { pose proof (wf_alloc _ Hwf1) as Ha. rewrite Eb, !zlen_app in Ha. lia. }
  assert (Er : aread (db_buf b1) (zlen pre) (db_size b - zlen pre) = Ret post).
  { replace (db_size b - zlen pre) with (zlen post) by lia. apply (at_read _ (zlen pre) post). exists pre, room. done. }
  rewrite Er in E. cbn [mbind outcome_bind] in E.
  set (gap := take (Z.to_nat n) (post ++ room)). set (rest := drop (Z.to_nat n) (post ++ room)).
  assert (Hgap : zlen gap = n) by (unfold gap; zlia).
  assert (Ecut : db_buf b1 = (pre ++ gap) ++ take (length post) rest ++ drop (length post) rest).
  { rewrite take_drop, Eb, <- app_assoc. unfold gap, rest. by rewrite take_drop. }
  rewrite Ecut, (awrite_at (pre ++ gap)) in E by (unfold rest; zlia). cbn [mbind outcome_bind] in E.
  injection E as <- <-. split; [done|].
  assert (Hd' : dbuf_data (db_set_size (db_set_buf b1 ((pre ++ gap) ++ post ++ drop (length post) rest)) (u64 (db_size b + n))) =
    pre ++ gap ++ post).
  { unfold dbuf_data. cbn [db_size db_buf db_set_size db_set_buf]. rewrite wrap64_small by lia.
    rewrite !app_assoc. apply take_app_length'. zlia. }
  pose proof (wf_bytes _ Hwf1) as Hbytes. pose proof (wf_alloc _ Hwf1) as Ha. pose proof (f_equal zlen Ecut) as Hcl.
  split; [split; [constructor|]|exists gap; split; [exact Hgap|exact Hd']]; cbn [db_size db_buf db_allocated_size db_set_size db_set_buf].
  - rewrite !zlen_app in *. unfold rest in *. zlia.
  - rewrite wrap64_small by lia. lia.
  - rewrite Eb, !Forall_app in Hbytes. destruct Hbytes as (Hb1 & Hb2 & Hb3). rewrite !Forall_app.
    assert (Hpr : Forall is_byte (post ++ room)) by (by apply Forall_app).
    split_and!; [done|by apply Forall_take|done|]. by do 2 apply Forall_drop.
  - done.
Qed.

(** ** Specifications of parse functions *)

Definition err (s : REParseState) : bool := db_error (byte_code s).
Definition code (s : REParseState) : list Z := dbuf_data (byte_code s).
Abbreviation cc := s_capture_count.

Definition names_ok (l : list Z) : Prop := Forall is_byte l /\ zlen l < 2 ^ 30.

Record good (s : REParseState) : Prop := {
  g_buf : buf_good (byte_code s);
  g_cc : 1 <= cc s <= 255;
  g_err : err s = false;
  g_names : names_ok (db_buf (group_names s))
}.

(** An error of the buffer stays. *)
Definition sticky {A} (x : parser A) : Prop := forall s a s', x s = Ret (POk a s') -> err s' = false -> err s = false.

Definition wp {A} (x : parser A) (s : REParseState) (Q : A -> REParseState -> Prop) : Prop :=
  forall a s', x s = Ret (POk a s') -> err s' = false -> good s' /\ Q a s'.

Lemma wp_bind {A B} (x : parser A) (k : A -> parser B) s Q :
  (forall a, sticky (k a)) -> wp x s (fun a s1 => good s1 -> wp (k a) s1 Q) -> wp (pbind x k) s Q.
Proof.
  intros Hst Hx b s2 E He. unfold pbind in E. destruct (x s) as [[a s1|msg]| |] eqn:Ex; try done.
  cbn [mbind outcome_bind] in E. destruct (Hx a s1 Ex) as [Hg Hk]; [by apply (Hst a s1 b s2)|]. by apply Hk.
Qed.

Lemma wp_mono {A} (x : parser A) s (P Q : A -> REParseState -> Prop) :
  wp x s P -> (forall a s', good s' -> P a s' -> Q a s') -> wp x s Q.
Proof. intros Hx HPQ a s' E He. destruct (Hx a s' E He) as [Hg HP]. auto. Qed.

Lemma wp_pret {A} (a : A) s (Q : A -> REParseState -> Prop) : good s -> Q a s -> wp (pret a) s Q.
Proof. intros Hg HQ b s' [= <- <-] He. done. Qed.

Lemma wp_fail {A} msg s (Q : A -> REParseState -> Prop) : wp (fun _ => mret (PErr msg)) s Q.
Proof. by intros a s' E. Qed.

Lemma wp_lift {A} (o : outcome A) s (Q : A -> REParseState -> Prop) :
  good s -> (forall a, o = Ret a -> Q a s) -> wp (lift o) s Q.
Proof. intros Hg HQ b s' E He. unfold lift in E. destruct o; try done. injection E as <- <-. auto. Qed.

Lemma wp_gets {A} (f : REParseState -> A) s (Q : A -> REParseState -> Prop) : good s -> Q (f s) s -> wp (gets f) s Q.
Proof. intros Hg HQ b s' [= <- <-] He. done. Qed.

Lemma sticky_bind {A B} (x : parser A) (k : A -> parser B) : sticky x -> (forall a, sticky (k a)) -> sticky (pbind x k).
Proof.
  intros Hx Hk s b s2 E He. unfold pbind in E. destruct (x s) as [[a s1|msg]| |] eqn:Ex; try done.
  cbn [mbind outcome_bind] in E. eapply Hx; [done|]. by eapply Hk.
Qed.

Lemma sticky_same {A} (x : parser A) : (forall s a s', x s = Ret (POk a s') -> err s' = err s) -> sticky x.
Proof. intros Hx s a s' E He. by rewrite <- (Hx s a s' E). Qed.

Lemma sticky_pret {A} (a : A) : sticky (pret a).
Proof. apply sticky_same. by intros s b s' [= <- <-]. Qed.
Lemma sticky_fail {A} msg : sticky (fun _ => mret (PErr msg) : outcome (presult A)).
Proof. by intros s a s' E. Qed.
Lemma sticky_lift {A} (o : outcome A) : sticky (lift o).
Proof. apply sticky_same. unfold lift. intros s a s' E. destruct o; try done. by injection E as <- <-. Qed.
Lemma sticky_gets {A} (f : REParseState -> A) : sticky (gets f).
Proof. apply sticky_same. by intros s b s' [= <- <-]. Qed.
(** A computation that depends on the state. *)
Lemma sticky_at {A} (f : REParseState -> parser A) : (forall s0, sticky (f s0)) -> sticky (fun s => f s s).
Proof. intros Hf s a s'. apply Hf. Qed.

Lemma sticky_set_ptr v : sticky (set_buf_ptr v).
Proof. apply sticky_same. by intros s b s' [= <- <-]. Qed.
Lemma sticky_set_cc v : sticky (set_capture_count v).
Proof. apply sticky_same. by intros s b s' [= <- <-]. Qed.
Lemma sticky_set_total v w : sticky (set_total_captures v w).
Proof. apply sticky_same. by intros s b s' [= <- <-]. Qed.
Lemma sticky_set_named v : sticky (set_has_named v).
Proof. apply sticky_same. by intros s b s' [= <- <-]. Qed.

Lemma sticky_on_code f : (forall b r b', f b = Ret (r, b') -> db_error b' = false -> db_error b = false) -> sticky (on_code f).
Proof.
  intros Hf s a s' E He. unfold on_code in E. destruct (f (byte_code s)) as [[r b]| |] eqn:Ef; try done.
  cbn in E. injection E as <- <-. by eapply Hf.
Qed.
Lemma sticky_on_names f : sticky (on_names f).
Proof. apply sticky_same. intros s a s' E. unfold on_names in E. destruct (f _) as [r| |]; try done. by injection E as <- <-. Qed.
Lemma sticky_on_range f : sticky (on_range f).
Proof. apply sticky_same. intros s a s' E. unfold on_range in E. destruct (f _) as [r| |]; try done. by injection E as <- <-. Qed.
Lemma sticky_code_set i v : sticky (code_set i v).
Proof. apply sticky_same. intros s a s' E. unfold code_set in E. destruct (aset _ _ _); try done. by injection E as <- <-. Qed.
Lemma sticky_code_put i v : sticky (code_put_u32 i v).
Proof. apply sticky_same. intros s a s' E. unfold code_put_u32 in E. destruct (put_u32 _ _ _); try done. by injection E as <- <-. Qed.
Lemma sticky_put_data data : sticky (emit (fun b => dbuf_put b data)).
Proof. apply sticky_bind; [|intros; apply sticky_pret]. apply sticky_on_code. intros b r b'. apply put_sticky. Qed.
Lemma sticky_copy o n : sticky (emit (fun b => dbuf_put_self b o n)).
Proof. apply sticky_bind; [|intros; apply sticky_pret]. apply sticky_on_code. intros b r b'. apply put_self_sticky. Qed.

Lemma sticky_if {A} (b : bool) (x y : parser A) : sticky x -> sticky y -> sticky (if b then x else y).
Proof. by destruct b. Qed.

(** Follows the structure of a parse function. *)
Ltac sticky_base :=
  first [ assumption | apply sticky_pret | apply sticky_fail | apply sticky_lift | apply sticky_gets | apply sticky_set_ptr
        | apply sticky_set_cc | apply sticky_set_total | apply sticky_set_named | apply sticky_on_names | apply sticky_on_range
        | apply sticky_code_set | apply sticky_code_put | apply sticky_put_data | apply sticky_copy
        | solve [auto with sticky] ].
Ltac sticky_solve :=
  repeat first [ match goal with |- sticky (pbind _ _) => apply sticky_bind; [|intros ?] end | sticky_base | apply sticky_if
               | match goal with |- sticky (match ?x with _ => _ end) => destruct x end | progress cbv zeta ].

Create HintDb sticky.

(** [same s s']: nothing of interest has changed. *)
Definition same (s s' : REParseState) : Prop := code s' = code s /\ cc s' = cc s.

(** A parse function that neither emits code nor counts captures. *)
Definition quiet {A} (x : parser A) : Prop := sticky x /\ forall s, good s -> wp x s (fun _ s' => same s s').

Lemma quiet_bind {A B} (x : parser A) (k : A -> parser B) : quiet x -> (forall a, quiet (k a)) -> quiet (pbind x k).
Proof.
  intros [Hs Hx] Hk. split; [apply sticky_bind; [done|]; intros a; apply Hk|]. intros s Hg.
  apply wp_bind; [intros a; apply Hk|]. eapply wp_mono; [by apply Hx|]. intros a s1 _ [E1 E2] Hg1.
  eapply wp_mono; [by apply Hk|]. intros b s2 _ [E3 E4]. split; congruence.
Qed.

Lemma quiet_if {A} (b : bool) (x y : parser A) : quiet x -> quiet y -> quiet (if b then x else y).
Proof. by destruct b. Qed.
Lemma quiet_pret {A} (a : A) : quiet (pret a).
Proof. split; [apply sticky_pret|]. intros s Hg. by apply wp_pret. Qed.
Lemma quiet_fail {A} msg : quiet (fun _ => mret (PErr msg) : outcome (presult A)).
Proof. split; [apply sticky_fail|]. intros s Hg. apply wp_fail. Qed.
Lemma quiet_lift {A} (o : outcome A) : quiet (lift o).
Proof. split; [apply sticky_lift|]. intros s Hg. by apply wp_lift. Qed.
Lemma quiet_gets {A} (f : REParseState -> A) : quiet (gets f).
Proof. split; [apply sticky_gets|]. intros s Hg. by apply wp_gets. Qed.
Lemma quiet_set_ptr v : quiet (set_buf_ptr v).
Proof. split; [apply sticky_set_ptr|]. intros s [Hb Hc He Hn] a s' [= <- <-] _. split; [by split|by split]. Qed.
Lemma quiet_set_total v w : quiet (set_total_captures v w).
Proof. split; [apply sticky_set_total|]. intros s [Hb Hc He Hn] a s' [= <- <-] _. split; [by split|by split]. Qed.
Lemma quiet_set_named v : quiet (set_has_named v).
Proof. split; [apply sticky_set_named|]. intros s [Hb Hc He Hn] a s' [= <- <-] _. split; [by split|by split]. Qed.
(** An operation on the group names. *)
Definition keeps_names (f : DynBuf -> outcome (Z * DynBuf)) : Prop :=
  forall b r b', names_ok (db_buf b) -> f b = Ret (r, b') -> names_ok (db_buf b').

Lemma keeps_realloc b n r b' : 0 <= n -> names_ok (db_buf b) -> dbuf_realloc b n = (r, b') -> names_ok (db_buf b').
Proof using Hheap.
  intros Hn [Hb Hl] E. unfold dbuf_realloc in E. destruct (n >? _); [|by injection E as <- <-].
  destruct (db_error b); [by injection E as <- <-|]. set (m := if _ >? n then _ else n) in E.
  assert (Hm : 0 <= m).
  { unfold m. destruct (_ >? n); [|done]. apply Z.div_pos; [|lia]. apply (wrap_range 64). lia. }
  destruct (realloc _ _ _) as [[nb h]|] eqn:Er; injection E as <- <-; [|done]. cbn. split; [by eapply realloc_bytes|].
  pose proof (realloc_length _ _ m _ _ Hm Er) as ->. unfold realloc in Er.
  destruct (heap_request _ m) eqn:Eh; [|done]. destruct (Z_lt_le_dec m (2 ^ 30)) as [|Hge]; [done|]. by rewrite Hheap in Eh.
Qed.

Lemma keeps_put data : Forall is_byte data -> keeps_names (fun b => dbuf_put b data).
Proof using Hheap.
  intros Hd b r b' Hb E. unfold dbuf_put in E. destruct (dbuf_grow b (zlen data)) as [r1 b1] eqn:Eg.
  assert (Hb1 : names_ok (db_buf b1)).
  { unfold dbuf_grow in Eg. destruct (_ >? _); [|by injection Eg as <- <-].
    eapply keeps_realloc; [|exact Hb|exact Eg]. apply (wrap_range 64). lia. }
  destruct (negb _); [by injection E as <- <-|]. destruct (awrite _ _ _) as [w| |] eqn:Ew; try done.
  injection E as <- <-. cbn. destruct Hb1 as [Hb1 Hl1]. split; [by eapply Forall_awrite; [| |exact Ew]|].
  unfold zlen in *. by rewrite (awrite_length _ _ _ _ Ew).
Qed.

Lemma keeps_putc v : keeps_names (fun b => dbuf_putc b v).
Proof. apply keeps_put. constructor; [|constructor]. apply (wrap_range 8). lia. Qed.

Lemma quiet_on_names f : keeps_names f -> quiet (on_names f).
Proof.
  intros Hf. split; [apply sticky_on_names|]. intros s [[[Ha Hs Hy] Hm] Hc He Hn] a s' E _. unfold on_names in E.
  destruct (f _) as [[r nb]| |] eqn:Ef; try done. injection E as <- <-. apply Hf in Ef; [|done].
  split; [|by split]. split; [|done|done|done]. split; [by constructor|done].
Qed.
Lemma quiet_on_range f : quiet (on_range f).
Proof.
  split; [apply sticky_on_range|]. intros s [[[Ha Hs Hy] Hm] Hc He Hn] a s' E _. unfold on_range in E.
  destruct (f _) as [r| |]; try done. injection E as <- <-.
  split; [|by split]. split; [|done|done|done]. split; [by constructor|done].
Qed.

Create HintDb quiet.
Hint Resolve keeps_putc : quiet.
Ltac quiet_base :=
  first [ assumption | apply quiet_pret | apply quiet_fail | apply quiet_lift | apply quiet_gets | apply quiet_set_ptr
        | apply quiet_set_total | apply quiet_set_named | apply quiet_on_names; solve [auto with quiet] | apply quiet_on_range
        | solve [auto with quiet] ].
Ltac quiet_solve :=
  repeat first [ match goal with |- quiet (pbind _ _) => apply quiet_bind; [|intros ?] end | quiet_base | apply quiet_if
               | match goal with |- quiet (match ?x with _ => _ end) => destruct x end | progress cbv zeta ].

(** ** Character classes *)

Context (env : REEnv) (fuel : nat).

Lemma quiet_p_cr_free cr : quiet (p_cr_free cr).
Proof. unfold p_cr_free. quiet_solve. Qed.
Lemma quiet_peek p : quiet (peek env p).
Proof. apply quiet_lift. Qed.
Lemma quiet_property_word p : quiet (property_word env p).
Proof. apply quiet_lift. Qed.
Hint Resolve quiet_p_cr_free quiet_peek quiet_property_word : quiet.

Lemma quiet_expect p c : quiet (re_parse_expect env p c).
Proof. unfold re_parse_expect, re_parse_error. quiet_solve. Qed.
Lemma quiet_property_range f u : quiet (property_range f u).
Proof. unfold property_range, re_parse_error, re_parse_out_of_memory. quiet_solve. Qed.
Hint Resolve quiet_expect quiet_property_range : quiet.

Lemma quiet_property p inv : quiet (parse_unicode_property env fuel p inv).
Proof. unfold parse_unicode_property, re_parse_error, re_parse_out_of_memory, silent_error. quiet_solve. Qed.
Lemma quiet_normal_char p c : quiet (normal_char env p c).
Proof. unfold normal_char, re_parse_error, silent_error. quiet_solve. Qed.
Lemma quiet_class_range c p : quiet (class_range c p).
Proof. unfold class_range, silent_error. quiet_solve. Qed.
Hint Resolve quiet_property quiet_normal_char quiet_class_range : quiet.

Lemma quiet_class_atom p b : quiet (get_class_atom env fuel p b).
Proof. unfold get_class_atom, re_parse_error. quiet_solve. Qed.
Lemma quiet_class_op cr f : quiet (class_op cr f).
Proof. unfold class_op, re_parse_error, re_parse_out_of_memory. quiet_solve. Qed.
Hint Resolve quiet_class_atom quiet_class_op : quiet.

Lemma quiet_add_class_atom cr c1 cr1 : quiet (add_class_atom cr c1 cr1).
Proof. unfold add_class_atom, re_parse_error, re_parse_out_of_memory. quiet_solve. Qed.
Hint Resolve quiet_add_class_atom : quiet.
Lemma quiet_class_element p cr : quiet (class_element env fuel p cr).
Proof. unfold class_element, re_parse_error. quiet_solve. Qed.
Hint Resolve quiet_class_element : quiet.
Lemma quiet_class_elements n p cr : quiet (class_elements env fuel n p cr).
Proof. revert p cr. induction n as [|n IH]; intros p cr; cbn [class_elements]; quiet_solve. Qed.

Lemma quiet_find_group_name name : quiet (find_group_name name).
Proof.
  split; [intros s a s' E; exact (sticky_lift _ s a s' E)|]. intros s Hg a s' E He.
  exact (wp_lift _ s (fun _ s' => same s s') Hg (fun _ _ => conj eq_refl eq_refl) a s' E He).
Qed.
Lemma quiet_count_captures : quiet (re_count_captures env).
Proof. unfold re_count_captures. quiet_solve. Qed.
Hint Resolve quiet_find_group_name quiet_count_captures quiet_class_elements : quiet.
Lemma quiet_has_named : quiet (re_has_named_captures env).
Proof. unfold re_has_named_captures. quiet_solve. Qed.
Lemma quiet_quantifier p : quiet (parse_quantifier env p).
Proof. unfold parse_quantifier, re_parse_error. quiet_solve. Qed.
Lemma quiet_code_check : quiet code_check.
Proof. unfold code_check, re_parse_error, re_parse_out_of_memory. quiet_solve. Qed.
Hint Resolve quiet_has_named quiet_quantifier quiet_code_check : quiet.

(** ** Emission *)

(** [x] appends [l]. *)
Definition appended (s s' : REParseState) (l : list Z) : Prop := code s' = code s ++ l /\ cc s' = cc s.

Lemma appended_same s s' : same s s' -> appended s s' [].
Proof. intros [E1 E2]. split; [by rewrite app_nil_r|done]. Qed.
Lemma appended_trans s1 s2 s3 l1 l2 : appended s1 s2 l1 -> appended s2 s3 l2 -> appended s1 s3 (l1 ++ l2).
Proof. intros [E1 E2] [E3 E4]. split; [by rewrite E3, E1, app_assoc|congruence]. Qed.

Lemma code_len s : good s -> db_size (byte_code s) = zlen (code s).
Proof. intros [[Hwf _] _ _ _]. symmetry. by apply dbuf_data_length. Qed.
Lemma code_small s : good s -> zlen (code s) < 2 ^ 30.
Proof. intros Hg. rewrite <- code_len by done. destruct Hg as [Hb _ _ _]. apply buf_good_size in Hb. lia. Qed.

Lemma s32_len s : good s -> s32 (zlen (code s)) = zlen (code s).
Proof. intros Hg. pose proof (code_small s Hg). pose proof (zlen_nonneg (code s)). apply (sext_small 32); lia. Qed.

Lemma wp_code_size s (Q : Z -> REParseState -> Prop) : good s -> Q (zlen (code s)) s -> wp code_size s Q.
Proof. intros Hg HQ. apply wp_gets; [done|]. by rewrite code_len by done. Qed.

Lemma wp_put data s : good s -> zlen data <= 2 ^ 62 -> Forall is_byte data ->
  wp (emit (fun b => dbuf_put b data)) s (fun _ s' => appended s s' data).
Proof using Hheap.
  intros [Hb Hc He0 Hn0] Hl Hd a s' E He. unfold emit, pbind, on_code in E.
  destruct (dbuf_put (byte_code s) data) as [[r b]| |] eqn:Ep; try done. cbn in E. injection E as <- <-.
  destruct (put_good _ data r b Hb Hl Hd Ep He) as (_ & Hb' & Hdata). split; [by split|by split].
Qed.

Lemma wp_copy n s pre l post : good s -> code s = pre ++ l ++ post -> n = zlen l ->
  wp (emit (fun b => dbuf_put_self b (zlen pre) n)) s (fun _ s' => appended s s' l).
Proof using Hheap.
  intros [Hb Hc He0 Hn0] Hcode Hn a s' E He. unfold emit, pbind, on_code in E.
  destruct (dbuf_put_self (byte_code s) (zlen pre) n) as [[r b]| |] eqn:Ep; try done. cbn in E. injection E as <- <-.
  destruct (put_self_good _ n r b pre l post Hb Hcode Hn Ep He) as (_ & Hb' & Hdata). split; [by split|by split].
Qed.

Lemma sticky_putc v : sticky (emit (fun b => dbuf_putc b v)).
Proof. apply sticky_put_data. Qed.
Lemma sticky_put16 v : sticky (emit (fun b => dbuf_put_u16 b v)).
Proof. apply sticky_put_data. Qed.
Lemma sticky_put32 v : sticky (emit (fun b => dbuf_put_u32 b v)).
Proof. apply sticky_put_data. Qed.
Hint Resolve sticky_putc sticky_put16 sticky_put32 : sticky.

Lemma wp_putc v s : good s -> wp (emit (fun b => dbuf_putc b v)) s (fun _ s' => appended s s' [u8 v]).
Proof using Hheap. intros Hg. apply wp_put; [done|done|]. constructor; [|constructor]. apply (wrap_range 8). lia. Qed.
Lemma wp_put16 v s : good s -> wp (emit (fun b => dbuf_put_u16 b v)) s (fun _ s' => appended s s' (le_split 2 v)).
Proof using Hheap. intros Hg. apply wp_put; [done|done|]. apply le_split_bytes. Qed.
Lemma wp_put32 v s : good s -> wp (emit (fun b => dbuf_put_u32 b v)) s (fun _ s' => appended s s' (le_split 4 v)).
Proof using Hheap. intros Hg. apply wp_put; [done|done|]. apply le_split_bytes. Qed.

Lemma sticky_op op : sticky (re_emit_op op).
Proof. apply sticky_putc. Qed.
Hint Resolve sticky_op : sticky.
Lemma sticky_op8 op v : sticky (re_emit_op_u8 op v).
Proof. unfold re_emit_op_u8. sticky_solve. Qed.
Lemma sticky_op16 op v : sticky (re_emit_op_u16 op v).
Proof. unfold re_emit_op_u16. sticky_solve. Qed.
Lemma sticky_op32 op v : sticky (re_emit_op_u32 op v).
Proof. unfold re_emit_op_u32, code_size. sticky_solve. Qed.
Lemma sticky_goto op v : sticky (re_emit_goto op v).
Proof. unfold re_emit_goto, code_size. sticky_solve. Qed.
Hint Resolve sticky_op8 sticky_op16 sticky_op32 sticky_goto : sticky.

Lemma u8_op op : u8 (reop_code op) = reop_code op.
Proof. by destruct op. Qed.

Lemma wp_op op s : good s -> wp (re_emit_op op) s (fun _ s' => appended s s' [reop_code op]).
Proof using Hheap. intros Hg. rewrite <- (u8_op op). by apply wp_putc. Qed.

(** Sequencing: the state after [x] satisfies [P]. *)
Lemma wp_seq {A B} (x : parser A) (k : A -> parser B) s (P : A -> REParseState -> Prop) Q :
  wp x s P -> (forall a, sticky (k a)) -> (forall a s1, good s1 -> P a s1 -> wp (k a) s1 Q) -> wp (pbind x k) s Q.
Proof. intros Hx Hst Hk. apply wp_bind; [done|]. eapply wp_mono; [done|]. auto. Qed.

Lemma wp_op8 op v s : good s -> wp (re_emit_op_u8 op v) s (fun _ s' => appended s s' [reop_code op; u8 v]).
Proof using Hheap.
  intros Hg. apply (wp_seq _ _ _ _ _ (wp_op op s Hg)); [intros; apply sticky_putc|]. intros ? s1 Hg1 A1.
  eapply wp_mono; [by apply wp_putc|]. intros ? s2 _ A2. exact (appended_trans _ _ _ _ _ A1 A2).
Qed.

Lemma wp_op16 op v s : good s -> wp (re_emit_op_u16 op v) s (fun _ s' => appended s s' (reop_code op :: le_split 2 v)).
Proof using Hheap.
  intros Hg. apply (wp_seq _ _ _ _ _ (wp_op op s Hg)); [intros; apply sticky_put16|]. intros ? s1 Hg1 A1.
  eapply wp_mono; [by apply wp_put16|]. intros ? s2 _ A2. exact (appended_trans _ _ _ _ _ A1 A2).
Qed.

Lemma wp_op32 op v s : good s ->
  wp (re_emit_op_u32 op v) s (fun pos s' => pos = zlen (code s) + 1 /\ appended s s' (jump op v)).
Proof using Hheap.
  intros Hg. apply (wp_seq _ _ _ _ _ (wp_op op s Hg)); [intros; unfold code_size; sticky_solve|]. intros ? s1 Hg1 A1.
  apply wp_bind; [intros; sticky_solve|]. apply wp_code_size; [done|]. intros _.
  apply (wp_seq _ _ _ _ _ (wp_put32 v s1 Hg1)); [intros; apply sticky_pret|]. intros ? s2 Hg2 A2.
  apply wp_pret; [done|]. split; [|exact (appended_trans _ _ _ _ _ A1 A2)].
  rewrite s32_len by done. rewrite (proj1 A1). by rewrite zlen_app.
Qed.

Lemma le_split_mod v : le_split 4 (u32 v) = le_split 4 v.
Proof.
  pose proof (le_split_combine (le_split 4 v) (le_split_bytes 4 v)) as E. rewrite length_le_split, le_combine_split in E.
  exact E.
Qed.

Lemma wp_goto op target s : good s ->
  wp (re_emit_goto op target) s (fun _ s' => appended s s' (jump op (target - (zlen (code s) + 5)))).
Proof using Hheap.
  intros Hg. apply (wp_seq _ _ _ _ _ (wp_op op s Hg)); [intros; unfold code_size; sticky_solve|]. intros ? s1 Hg1 A1.
  apply wp_bind; [intros; sticky_solve|]. apply wp_code_size; [done|]. intros _. cbv zeta.
  eapply wp_seq; [by apply wp_put32|intros; apply sticky_pret|]. intros ? s2 Hg2 A2.
  apply wp_pret; [done|]. rewrite le_split_mod, s32_len in A2 by done. rewrite (proj1 A1), zlen_app in A2.
  pose proof (appended_trans _ _ _ _ _ A1 A2) as A. unfold jump.
  replace (target - (zlen (code s) + 5)) with (target - (zlen (code s) + zlen [reop_code op] + 4)); [done|].
  rewrite zlen_cons, zlen_nil. lia.
Qed.

(** ** Patching the code *)

(** The data of a buffer after a write into its array below the size. *)
Lemma set_data b pre old post src buf : buf_good b -> dbuf_data b = pre ++ old ++ post -> zlen old = zlen src ->
  Forall is_byte src -> awrite (db_buf b) (zlen pre) src = Ret buf ->
  buf_good (db_set_buf b buf) /\ dbuf_data (db_set_buf b buf) = pre ++ src ++ post.
Proof.
  intros Hb Hd Hl Hbytes E. pose proof (dbuf_data_length b (bg_wf _ Hb)) as Hlen. destruct (buf_split b Hb) as [room Eb].
  destruct Hb as [[Ha Hs Hby] Hm]. rewrite Hd, <- !app_assoc in Eb. rewrite Eb in E.
  rewrite (awrite_at pre old) in E by done. injection E as <-.
  rewrite Hd in Hlen. rewrite Eb in Ha, Hby. rewrite !zlen_app in *. rewrite !Forall_app in Hby.
  split; [split; [constructor|]|]; cbn [db_buf db_size db_allocated_size db_set_buf]; [|done| |done|].
  - rewrite !zlen_app. lia.
  - rewrite !Forall_app. tauto.
  - unfold dbuf_data. cbn [db_buf db_size db_set_buf]. rewrite !app_assoc. apply take_app_length'. zlia.
Qed.

Lemma wp_code_set i v s pre old post : good s -> code s = pre ++ [old] ++ post -> i = zlen pre ->
  wp (code_set i v) s (fun _ s' => code s' = pre ++ [u8 v] ++ post /\ cc s' = cc s).
Proof.
  intros [Hb Hc He0 Hn0] Hcode -> a s' E He. unfold code_set in E.
  destruct (aset _ _ _) as [buf| |] eqn:Ea; try done. injection E as <- <-.
  assert (Ew : awrite (db_buf (byte_code s)) (zlen pre) [u8 v] = Ret buf).
  { destruct (buf_split _ Hb) as [room Eb]. unfold code in Hcode. rewrite Hcode, <- !app_assoc in Eb. rewrite Eb in *. cbn [app] in *.
    rewrite aset_middle in Ea. injection Ea as <-. by apply (awrite_at pre [old]). }
  destruct (set_data _ pre [old] post [u8 v] buf Hb Hcode) as [Hb' Hd]; [done| |done|by split; [split|]].
  constructor; [|constructor]. apply (wrap_range 8). lia.
Qed.

Lemma wp_code_put i v s pre old post : good s -> code s = pre ++ old ++ post -> i = zlen pre -> zlen old = 4 ->
  wp (code_put_u32 i v) s (fun _ s' => code s' = pre ++ le_split 4 v ++ post /\ cc s' = cc s).
Proof.
  intros [Hb Hc He0 Hn0] Hcode -> Hold a s' E He. unfold code_put_u32, put_u32 in E.
  destruct (awrite _ _ _) as [buf| |] eqn:Ea; try done. injection E as <- <-.
  destruct (set_data _ pre old post (le_split 4 v) buf Hb Hcode) as [Hb' Hd]; [done|apply le_split_bytes|done|].
  by split; [split|].
Qed.

Lemma sticky_insert p n : sticky (code_insert p n).
Proof.
  unfold code_insert, re_parse_out_of_memory, re_parse_error. apply sticky_bind; [|intros; sticky_solve].
  apply sticky_on_code. intros b r b'. apply insert_sticky.
Qed.
Hint Resolve sticky_insert : sticky.

Lemma wp_insert n s pre post : good s -> code s = pre ++ post -> 0 <= n < 2 ^ 30 ->
  wp (code_insert (zlen pre) n) s (fun _ s' => exists gap, zlen gap = n /\ code s' = pre ++ gap ++ post /\ cc s' = cc s).
Proof using Hheap.
  intros [Hb Hc He0 Hn0] Hcode Hn a s' E He. unfold code_insert, on_code, pbind in E.
  destruct (dbuf_insert _ _ _) as [[r b]| |] eqn:Ei; try done. cbn [mbind outcome_bind set_byte_code pret mret outcome_ret fst snd] in E.
  destruct (negb (r =? 0)); [done|]. injection E as <- <-.
  destruct (insert_good _ n r b pre post Hb Hcode Hn Ei He) as (_ & Hb' & gap & Hg & Hd).
  split; [by split|]. by exists gap.
Qed.

(** A gap of five bytes becomes a jump. *)
Lemma wp_fill_jump_end op v pos pos' s pre gap post : good s -> code s = pre ++ gap ++ post -> zlen gap = 5 ->
  pos = zlen pre -> pos' = pos + 1 ->
  wp (pbind (code_set pos (reop_code op)) (fun _ => code_put_u32 pos' v)) s
    (fun _ s' => code s' = pre ++ jump op v ++ post /\ cc s' = cc s).
Proof.
  intros Hg Hcode Hgap -> ->. destruct gap as [|g0 gap]; [done|]. rewrite zlen_cons in Hgap.
  eapply wp_seq; [by apply (wp_code_set _ _ _ pre g0 (gap ++ post))|intros; sticky_solve|]. intros ? s1 Hg1 [E1 C1].
  rewrite u8_op in E1. eapply wp_mono; [apply (wp_code_put _ v s1 (pre ++ [reop_code op]) gap post); [done| | |lia]|].
  - by rewrite E1, <- app_assoc.
  - by rewrite zlen_app.
  - intros ? s2 _ [E2 C2]. split; [|congruence]. by rewrite E2, <- app_assoc.
Qed.

Lemma wp_fill_jump {A} op v pos pos' s pre gap post (k : parser A) Q : good s -> code s = pre ++ gap ++ post -> zlen gap = 5 ->
  pos = zlen pre -> pos' = pos + 1 -> sticky k ->
  (forall s', good s' -> code s' = pre ++ jump op v ++ post -> cc s' = cc s -> wp k s' Q) ->
  wp (pbind (code_set pos (reop_code op)) (fun _ => pbind (code_put_u32 pos' v) (fun _ => k))) s Q.
Proof.
  intros Hg Hcode Hgap Hpos Hpos' Hst Hk a s' E He.
  assert (E' : pbind (pbind (code_set pos (reop_code op)) (fun _ => code_put_u32 pos' v)) (fun _ => k) s = Ret (POk a s')).
  { rewrite <- E. unfold pbind. by destruct (code_set _ _ s) as [[]| |]. }
  clear E. revert a s' E' He. change (wp (pbind (pbind (code_set pos (reop_code op)) (fun _ => code_put_u32 pos' v)) (fun _ => k)) s Q).
  eapply wp_seq; [by apply (wp_fill_jump_end op v pos pos' s pre gap post)|intros; done|].
  intros ? s1 Hg1 [E1 C1]. by apply Hk.
Qed.

(** ** Ranges and classes *)

Lemma sticky_emit_range16 pts : sticky (emit_range16 pts).
Proof.
  assert (Hl : forall n pts, (length pts <= n)%nat -> sticky (emit_range16 pts)).
  { clear pts. induction n as [|n IH]; intros [|low [|high pts]] Hn; cbn [emit_range16 length] in *;
      try apply sticky_pret; [lia..|]. pose proof (IH pts ltac:(lia)). cbv zeta. sticky_solve. }
  by apply (Hl (length pts)).
Qed.
Lemma sticky_emit_range32 pts : sticky (emit_range32 pts).
Proof.
  assert (Hl : forall n pts, (length pts <= n)%nat -> sticky (emit_range32 pts)).
  { clear pts. induction n as [|n IH]; intros [|low [|high pts]] Hn; cbn [emit_range32 length] in *;
      try apply sticky_pret; [lia..|]. pose proof (IH pts ltac:(lia)). cbv zeta. sticky_solve. }
  by apply (Hl (length pts)).
Qed.
Hint Resolve sticky_emit_range16 sticky_emit_range32 : sticky.

(** The bytes of the ranges. *)
Fixpoint range16_bytes (pts : list Z) : list Z :=
  match pts with
  | low :: high :: pts =>
      le_split 2 low ++ le_split 2 (let high := u32 (high - 1) in if high =? UINT32_MAX - 1 then 0xffff else high) ++
      range16_bytes pts
  | _ => []
  end.
Fixpoint range32_bytes (pts : list Z) : list Z :=
  match pts with
  | low :: high :: pts => le_split 4 low ++ le_split 4 (u32 (high - 1)) ++ range32_bytes pts
  | _ => []
  end.

Lemma wp_emit_range16 pts s : good s -> wp (emit_range16 pts) s (fun _ s' => appended s s' (range16_bytes pts)).
Proof using Hheap.
  assert (Hl : forall n pts s, (length pts <= n)%nat -> good s ->
    wp (emit_range16 pts) s (fun _ s' => appended s s' (range16_bytes pts))).
  { clear pts s. induction n as [|n IH]; intros [|low [|high pts]] s Hn Hg; cbn [emit_range16 range16_bytes length] in *;
      try (by apply wp_pret; [|apply appended_same]); [lia..|]. cbv zeta.
    eapply wp_seq; [by apply wp_put16|intros; sticky_solve|]. intros ? s1 Hg1 A1.
    eapply wp_seq; [by apply wp_put16|intros; sticky_solve|]. intros ? s2 Hg2 A2.
    eapply wp_mono; [apply IH; [lia|done]|]. intros ? s3 _ A3.
    exact (appended_trans _ _ _ _ _ A1 (appended_trans _ _ _ _ _ A2 A3)). }
  by apply (Hl (length pts)).
Qed.
Lemma wp_emit_range32 pts s : good s -> wp (emit_range32 pts) s (fun _ s' => appended s s' (range32_bytes pts)).
Proof using Hheap.
  assert (Hl : forall n pts s, (length pts <= n)%nat -> good s ->
    wp (emit_range32 pts) s (fun _ s' => appended s s' (range32_bytes pts))).
  { clear pts s. induction n as [|n IH]; intros [|low [|high pts]] s Hn Hg; cbn [emit_range32 range32_bytes length] in *;
      try (by apply wp_pret; [|apply appended_same]); [lia..|]. cbv zeta.
    eapply wp_seq; [by apply wp_put32|intros; sticky_solve|]. intros ? s1 Hg1 A1.
    eapply wp_seq; [by apply wp_put32|intros; sticky_solve|]. intros ? s2 Hg2 A2.
    eapply wp_mono; [apply IH; [lia|done]|]. intros ? s3 _ A3.
    exact (appended_trans _ _ _ _ _ A1 (appended_trans _ _ _ _ _ A2 A3)). }
  by apply (Hl (length pts)).
Qed.

Lemma range16_len pts : zlen (range16_bytes pts) = 4 * (zlen pts / 2).
Proof.
  assert (Hl : forall n pts, (length pts <= n)%nat -> zlen (range16_bytes pts) = 4 * (zlen pts / 2)).
  { clear pts. induction n as [|n IH]; intros [|low [|high pts]] Hn; cbn [range16_bytes length] in *; try done; [lia|].
    rewrite !zlen_app, !zlen_le_split, (IH pts) by lia. rewrite !zlen_cons.
    replace (zlen pts + 1 + 1) with (zlen pts + 1 * 2) by lia. rewrite Z.div_add by lia. lia. }
  by apply (Hl (length pts)).
Qed.
Lemma range32_len pts : zlen (range32_bytes pts) = 8 * (zlen pts / 2).
Proof.
  assert (Hl : forall n pts, (length pts <= n)%nat -> zlen (range32_bytes pts) = 8 * (zlen pts / 2)).
  { clear pts. induction n as [|n IH]; intros [|low [|high pts]] Hn; cbn [range32_bytes length] in *; try done; [lia|].
    rewrite !zlen_app, !zlen_le_split, (IH pts) by lia. rewrite !zlen_cons.
    replace (zlen pts + 1 + 1) with (zlen pts + 1 * 2) by lia. rewrite Z.div_add by lia. lia. }
  by apply (Hl (length pts)).
Qed.

(** The last point of a class, the one before it when it is the point at infinity. *)
Definition last_finite (pts : list Z) (high : Z) : Prop :=
  exists h, aget pts (zlen pts - 1) = Ret h /\
    (if h =? UINT32_MAX then aget pts (zlen pts - 2) else Ret h) = Ret high.

(** The instruction of a class. *)
Inductive range_instr (pts : list Z) : REOPCodeEnum -> list Z -> Prop :=
| ri_empty : zlen pts / 2 = 0 -> range_instr pts REOP_char32 (le_split 4 (u32 (-1)))
| ri_16 high : 1 <= zlen pts / 2 < 65535 -> last_finite pts high -> high <= 0xffff ->
    range_instr pts REOP_range (le_split 2 (zlen pts / 2) ++ range16_bytes pts)
| ri_32 high : 1 <= zlen pts / 2 < 65535 -> last_finite pts high -> 0xffff < high ->
    range_instr pts REOP_range32 (le_split 2 (zlen pts / 2) ++ range32_bytes pts).

Lemma range_char_instr pts op args : range_instr pts op args -> char_instr op args.
Proof.
  intros [Hz|high Hn _ _|high Hn _ _]; [constructor|constructor; [lia|by rewrite range16_len]|
    constructor; [lia|by rewrite range32_len]].
Qed.

Lemma sticky_emit_range cr : sticky (re_emit_range cr).
Proof. unfold re_emit_range, re_parse_error. sticky_solve. Qed.
Hint Resolve sticky_emit_range : sticky.

Lemma wp_emit_range cr s : good s ->
  wp (re_emit_range cr) s (fun _ s' => exists op args, range_instr (cr_points cr) op args /\
    appended s s' (reop_code op :: args)).
Proof using Hheap.
  intros Hg. unfold re_emit_range, cr_len. cbv zeta. pose proof (zlen_nonneg (cr_points cr)).
  pose proof (Z.div_pos (zlen (cr_points cr)) 2 ltac:(lia) ltac:(lia)).
  rewrite Z.geb_leb. destruct (Z.leb_spec 65535 (zlen (cr_points cr) / 2)); [apply wp_fail|].
  destruct (Z.eqb_spec (zlen (cr_points cr) / 2) 0) as [Hz|Hnz].
  { eapply wp_seq; [by apply wp_op32|intros; apply sticky_pret|]. intros ? s1 Hg1 [_ A]. apply wp_pret; [done|].
    exists REOP_char32, (le_split 4 (u32 (-1))). split; [by constructor|done]. }
  apply wp_bind; [intros; sticky_solve|]. apply wp_lift; [done|]. intros h Eh _.
  apply (wp_seq _ _ _ (fun high s' => s' = s /\ last_finite (cr_points cr) high)).
  { destruct (h =? UINT32_MAX) eqn:Emax.
    - apply wp_lift; [done|]. intros high Eh2. split; [done|]. exists h. by rewrite Emax.
    - apply wp_pret; [done|]. split; [done|]. exists h. by rewrite Emax. }
  { intros; sticky_solve. }
  intros high s1 Hg1 [-> Hlast]. destruct (Z.leb_spec high 0xffff).
  - eapply wp_seq; [by apply wp_op16|intros; sticky_solve|]. intros ? s1 Hg2 A1.
    eapply wp_mono; [by apply wp_emit_range16|]. intros ? s2 _ A2.
    eexists REOP_range, _. split; [by apply (ri_16 _ high); [lia|..]|]. exact (appended_trans _ _ _ _ _ A1 A2).
  - eapply wp_seq; [by apply wp_op16|intros; sticky_solve|]. intros ? s1 Hg2 A1.
    eapply wp_mono; [by apply wp_emit_range32|]. intros ? s2 _ A2.
    eexists REOP_range32, _. split; [by apply (ri_32 _ high); [lia|..]|]. exact (appended_trans _ _ _ _ _ A1 A2).
Qed.

(** What an atom or a term appends: a block. *)
Definition grows (s s' : REParseState) : Prop :=
  cc s <= cc s' /\ exists k l, block (cc s') k l /\ code s' = code s ++ l.

Lemma grows_block s s' k l : appended s s' l -> block (cc s) k l -> grows s s'.
Proof. intros [E C] Hb. split; [lia|]. exists k, l. by rewrite C. Qed.

Lemma grows_same s s' : same s s' -> grows s s'.
Proof. intros A. apply (grows_block s s' 0 []); [by apply appended_same|constructor]. Qed.

Lemma grows_trans s1 s2 s3 : grows s1 s2 -> grows s2 s3 -> grows s1 s3.
Proof.
  intros (C1 & k1 & l1 & B1 & E1) (C2 & k2 & l2 & B2 & E2). split; [lia|].
  exists (Z.max k1 k2), (l1 ++ l2). split; [|by rewrite E2, E1, app_assoc].
  apply bl_app; [by apply block_mono with (cc s2)|done].
Qed.

Lemma grows_straight s s' op args : appended s s' (reop_code op :: args) -> straight (cc s) op args -> grows s s'.
Proof. intros A Hs. eapply grows_block; [done|by apply bl_straight]. Qed.

Lemma sticky_quiet {A} (x : parser A) : quiet x -> sticky x.
Proof. by intros [? _]. Qed.
Lemma wp_quiet {A} (x : parser A) s : quiet x -> good s -> wp x s (fun _ s' => same s s').
Proof. intros [_ Hx] Hg. by apply Hx. Qed.

(** In [sticky] goals the quiet functions are sticky. *)
Hint Extern 5 (sticky _) => apply sticky_quiet; solve [auto with quiet] : sticky.

Lemma sticky_char_class p : sticky (re_parse_char_class env fuel p).
Proof. unfold re_parse_char_class. sticky_solve. Qed.

Lemma grows_trans_same s1 s2 s3 : same s1 s2 -> grows s2 s3 -> grows s1 s3.
Proof. intros Hs Hg. eapply grows_trans; [by apply grows_same|done]. Qed.

(** The next quiet call. *)
Ltac next_quiet := eapply wp_seq; [apply wp_quiet; [quiet_solve|done]|intros; sticky_solve|].

Lemma wp_char_class p s : good s -> wp (re_parse_char_class env fuel p) s (fun _ s' => grows s s').
Proof using Hheap.
  intros Hg. unfold re_parse_char_class. cbv zeta.
  next_quiet. intros d s1 Hg1 S1. next_quiet. intros [q cr] s2 Hg2 S2. cbn beta iota.
  next_quiet. intros cr2 s3 Hg3 S3. next_quiet. intros cr3 s4 Hg4 S4.
  eapply wp_seq; [by apply wp_emit_range|intros; sticky_solve|]. intros ? s5 Hg5 (op & args & Hr & A).
  next_quiet. intros ? s6 Hg6 S6. apply wp_pret; [done|].
  apply (grows_trans_same _ _ _ S1), (grows_trans_same _ _ _ S2), (grows_trans_same _ _ _ S3), (grows_trans_same _ _ _ S4).
  apply (grows_trans _ s5); [|by apply grows_same].
  apply (grows_straight _ _ _ _ A). apply st_char. by eapply range_char_instr.
Qed.

(** ** Atoms *)

Definition atom_post (s : REParseState) (a : atom) (s' : REParseState) : Prop :=
  grows s s' /\ (0 <= a.1.2 -> a.1.2 = zlen (code s) /\ 0 <= a.2).

Hint Resolve sticky_char_class sticky_emit_range sticky_insert : sticky.

Lemma wp_atom_start s (Q : Z * Z -> REParseState -> Prop) : good s -> Q (zlen (code s), cc s) s -> wp atom_start s Q.
Proof.
  intros Hg HQ. unfold atom_start. apply wp_bind; [intros; sticky_solve|]. apply wp_code_size; [done|]. intros _.
  apply wp_bind; [intros; sticky_solve|]. apply wp_gets; [done|]. intros _. apply wp_pret; [done|]. by rewrite s32_len.
Qed.
Lemma quiet_atom_start : quiet atom_start.
Proof. unfold atom_start, code_size. quiet_solve. Qed.
Hint Resolve quiet_atom_start : quiet.

Lemma sticky_directed {A} b (x : parser A) : sticky x -> sticky (directed b x).
Proof. intros Hx. unfold directed. sticky_solve. Qed.

Lemma wp_opt_prev (b : bool) s : good s -> wp (if b then re_emit_op REOP_prev else pret tt) s (fun _ s' => grows s s').
Proof using Hheap.
  intros Hg. destruct b; [|apply wp_pret; [done|by apply grows_same]].
  eapply wp_mono; [by apply wp_op|]. intros ? s1 _ A. apply (grows_straight _ _ _ _ A), st_prev.
Qed.

Lemma wp_directed {A} b (x : parser A) s : good s -> sticky x -> (forall s, good s -> wp x s (fun _ s' => grows s s')) ->
  wp (directed b x) s (fun _ s' => grows s s').
Proof using Hheap.
  intros Hg Hst Hx. unfold directed. eapply wp_seq; [by apply wp_opt_prev|intros; sticky_solve|]. intros ? s1 Hg1 G1.
  eapply wp_seq; [by apply Hx|intros; sticky_solve|]. intros ? s2 Hg2 G2.
  eapply wp_seq; [by apply wp_opt_prev|intros; sticky_solve|]. intros ? s3 Hg3 G3. apply wp_pret; [done|].
  exact (grows_trans _ _ _ G1 (grows_trans _ _ _ G2 G3)).
Qed.

Lemma sticky_emit_char c : sticky (emit_char env c).
Proof. unfold emit_char. sticky_solve. Qed.
Hint Resolve sticky_emit_char : sticky.

Lemma wp_emit_char c s : good s -> wp (emit_char env c) s (fun _ s' => grows s s').
Proof using Hheap.
  intros Hg. unfold emit_char. next_quiet. intros c' s1 Hg1 S1. destruct (c' <=? 0xffff).
  - eapply wp_mono; [by apply wp_op16|]. intros ? s2 _ A. apply (grows_trans_same _ _ _ S1).
    apply (grows_straight _ _ _ _ A), st_char. constructor.
  - eapply wp_seq; [by apply wp_op32|intros; sticky_solve|]. intros ? s2 Hg2 [_ A]. apply wp_pret; [done|].
    apply (grows_trans_same _ _ _ S1). apply (grows_straight _ _ _ _ A), st_char. constructor.
Qed.

Definition class_code (c : Z) (cr : option CharRange) : parser unit :=
  if c >=? CLASS_RANGE_BASE then
    match cr with None => lift Undef | Some cr => pbind (re_emit_range cr) (fun _ => p_cr_free cr) end
  else emit_char env c.

Lemma sticky_class_code c cr : sticky (class_code c cr).
Proof. unfold class_code. sticky_solve. Qed.
Lemma wp_class_code c cr s : good s -> wp (class_code c cr) s (fun _ s' => grows s s').
Proof using Hheap.
  intros Hg. unfold class_code. destruct (_ >=? _); [|by apply wp_emit_char].
  destruct cr as [cr|]; [|apply wp_lift; [done|]; by intros a E].
  eapply wp_seq; [by apply wp_emit_range|intros; sticky_solve|]. intros ? s1 Hg1 (op & args & Hr & A).
  eapply wp_mono; [apply wp_quiet; [quiet_solve|done]|]. intros ? s2 _ S. apply (grows_trans _ s1); [|by apply grows_same].
  apply (grows_straight _ _ _ _ A), st_char. by eapply range_char_instr.
Qed.
Hint Resolve sticky_class_code sticky_directed : sticky.

(** An atom whose code [x] starts at the current position. *)
Lemma wp_atom {A} (x : parser A) (f : A -> Z * Z -> atom) s : good s -> sticky x ->
  (forall a st, (f a st).1.2 = st.1 /\ (f a st).2 = st.2) ->
  (forall s, good s -> wp x s (fun _ s' => grows s s')) ->
  wp (pbind atom_start (fun '(start, count) => pbind x (fun a => pret (f a (start, count))))) s (atom_post s).
Proof.
  intros Hg Hst Hf Hx. apply wp_bind; [intros [start count]; sticky_solve|]. apply wp_atom_start; [done|]. intros _.
  eapply wp_seq; [by apply Hx|intros; sticky_solve|]. intros a s1 Hg1 G. apply wp_pret; [done|]. split; [done|].
  destruct (Hf a (zlen (code s), cc s)) as [-> ->]. intros _. split; [done|]. cbn [snd]. destruct Hg. lia.
Qed.

Lemma sticky_term_char b a : sticky (term_char env b a).
Proof. destruct a as [[c cr] p]. change (sticky (pbind atom_start (fun '(start, count) => pbind (directed b (class_code c cr)) (fun _ => pret (p, start, count))))).
  sticky_solve. Qed.
Lemma wp_term_char b a s : good s -> wp (term_char env b a) s (atom_post s).
Proof using Hheap.
  intros Hg. destruct a as [[c cr] p].
  apply (wp_atom (directed b (class_code c cr)) (fun _ st => (p, st.1, st.2)) s Hg); [auto with sticky|done|].
  intros s1 Hg1. apply wp_directed; [done|apply sticky_class_code|]. intros. by apply wp_class_code.
Qed.
Hint Resolve sticky_term_char : sticky.

Lemma atom_post_same s s1 a s2 : same s s1 -> atom_post s1 a s2 -> atom_post s a s2.
Proof. intros S [G Hs]. split; [by apply grows_trans_same with s1|]. by rewrite <- (proj1 S). Qed.

Lemma sticky_parse_class_atom b p : sticky (parse_class_atom env fuel b p).
Proof. unfold parse_class_atom. sticky_solve. Qed.
Lemma wp_parse_class_atom b p s : good s -> wp (parse_class_atom env fuel b p) s (atom_post s).
Proof using Hheap.
  intros Hg. unfold parse_class_atom. next_quiet. intros a s1 Hg1 S1.
  eapply wp_mono; [by apply wp_term_char|]. intros ? ? _ HP. exact (atom_post_same _ _ _ _ S1 HP).
Qed.
Hint Resolve sticky_parse_class_atom : sticky.

Lemma sticky_back_reference b p c : sticky (emit_back_reference b p c).
Proof. unfold emit_back_reference. sticky_solve. Qed.
Lemma wp_back_reference b p c s : good s -> wp (emit_back_reference b p c) s (atom_post s).
Proof using Hheap.
  intros Hg. apply (wp_atom (re_emit_op_u8 (if b then REOP_backward_back_reference else REOP_back_reference) c)
    (fun _ st => (p, st.1, st.2)) s Hg); [auto with sticky|done|].
  intros s1 Hg1. eapply wp_mono; [by apply wp_op8|]. intros ? s2 _ A. apply (grows_straight _ _ _ _ A), st_back.
  - destruct b; auto.
  - apply (wrap_range 8). lia.
Qed.
Hint Resolve sticky_back_reference : sticky.

(** Atoms that only choose between others. *)
Ltac atom_step :=
  first
    [ apply wp_fail
    | eapply wp_mono; [first [by apply wp_term_char | by apply wp_parse_class_atom | by apply wp_back_reference]|];
      intros; assumption
    | match goal with |- wp (if ?b then _ else _) _ _ => destruct b end
    | match goal with |- wp (match ?b with _ => _ end) _ _ => destruct b end
    | next_quiet;
      let S := fresh "S" in intros ? ? ? S; eapply wp_mono; [|intros ? ? ? HP; exact (atom_post_same _ _ _ _ S HP)]
    | progress cbv zeta ].

Lemma sticky_decimal_escape b p : sticky (decimal_escape env b p).
Proof. unfold decimal_escape, re_parse_error. sticky_solve. Qed.
Lemma wp_decimal_escape b p s : good s -> wp (decimal_escape env b p) s (atom_post s).
Proof using Hheap. intros Hg. unfold decimal_escape, re_parse_error. repeat atom_step. Qed.

Lemma sticky_named_back_reference b p : sticky (named_back_reference env fuel b p).
Proof. unfold named_back_reference, re_parse_error. sticky_solve. Qed.
Lemma wp_named_back_reference b p s : good s -> wp (named_back_reference env fuel b p) s (atom_post s).
Proof using Hheap. intros Hg. unfold named_back_reference, re_parse_error. repeat atom_step. Qed.
Hint Resolve sticky_decimal_escape sticky_named_back_reference : sticky.

(** ** Groups *)

Section Group.
Context (rec : bool -> parser unit).
Hypothesis Hrec_sticky : forall b, sticky (rec b).
Hypothesis Hrec : forall b s, good s -> wp (rec b) s (fun _ s' => grows s s').
Hint Resolve Hrec_sticky : sticky.

Lemma sticky_group_body b p : sticky (group_body rec b p).
Proof using Hrec_sticky. unfold group_body. sticky_solve. Qed.
Hint Resolve sticky_group_body : sticky.

Lemma wp_group_body b p s : good s -> wp (group_body rec b p) s (fun _ s' => grows s s').
Proof using Hrec Hrec_sticky.
  intros Hg. unfold group_body. next_quiet. intros ? s1 Hg1 S1.
  eapply wp_seq; [by apply Hrec|intros; sticky_solve|]. intros ? s2 Hg2 G. apply wp_gets; [done|].
  exact (grows_trans_same _ _ _ S1 G).
Qed.

Lemma sticky_lookahead p neg back : sticky (lookahead env rec p neg back).
Proof using Hrec_sticky. unfold lookahead, silent_error, code_size. sticky_solve. Qed.
Lemma sticky_parse_capture b p : sticky (parse_capture env rec b p).
Proof using Hrec_sticky. unfold parse_capture, re_parse_error. sticky_solve. Qed.
Hint Resolve sticky_lookahead sticky_parse_capture : sticky.

(** The code of a lookahead, before the distance is patched. *)
Lemma wp_lookahead p neg back s : good s -> wp (lookahead env rec p neg back) s (atom_post s).
Proof using Hheap Hrec Hrec_sticky.
  intros Hg. unfold lookahead, code_size. set (op := if neg then REOP_negative_lookahead else REOP_lookahead).
  assert (Hop : is_look op) by (subst op; unfold is_look; destruct neg; auto).
  apply (wp_seq _ _ _ (fun st s' => s' = s /\ (0 <= st.1 -> st.1 = zlen (code s) /\ 0 <= st.2))).
  { destruct (_ && _); [|apply wp_pret; [done|by split]]. apply wp_atom_start; [done|]. split; [done|]. destruct Hg. cbn. lia. }
  { intros; sticky_solve. }
  intros [start count] s0 Hg0 [-> Hst]. eapply wp_seq; [by apply wp_op32|intros; sticky_solve|].
  intros pos s1 Hg1 [-> [E1 C1]]. eapply wp_seq; [by apply wp_group_body|intros; sticky_solve|].
  intros q s2 Hg2 (C2 & k & l & Hb & E2). next_quiet. intros q3 s3 Hg3 [E3 C3].
  eapply wp_seq; [by apply wp_op|intros; sticky_solve|]. intros ? s4 Hg4 [E4 C4].
  apply wp_bind; [intros; unfold silent_error; sticky_solve|]. apply wp_gets; [done|]. intros _.
  destruct (db_error _); [apply wp_fail|]. apply wp_bind; [intros; sticky_solve|]. apply wp_code_size; [done|]. intros _.
  assert (Ecode : code s4 = (code s ++ [reop_code op]) ++ le_split 4 0 ++ l ++ [reop_code REOP_match]).
  { rewrite E4, E3, E2, E1. unfold jump. rewrite <- !app_assoc. done. }
  eapply wp_seq; [eapply (wp_code_put _ _ s4 (code s ++ [reop_code op])); [done|exact Ecode|by rewrite zlen_app|done]
    |intros; sticky_solve|].
  intros ? s5 Hg5 [E5 C5]. apply wp_pret; [done|]. split; [|done].
  assert (Hlen : u32 (zlen (code s4) - (zlen (code s) + 1 + 4)) = u32 (zlen l + 1)).
  { rewrite Ecode, !zlen_app. change (zlen [reop_code op]) with 1. change (zlen (le_split 4 0)) with 4.
    change (zlen [reop_code REOP_match]) with 1. f_equal. lia. }
  rewrite Hlen, le_split_mod in E5. split; [lia|]. exists k, (jump op (zlen l + 1) ++ l ++ [reop_code REOP_match]). split.
  - apply bl_look; [done|]. apply block_mono with (cc s2); [lia|done].
  - rewrite E5. unfold jump. rewrite <- !app_assoc. done.
Qed.

Lemma wp_set_cc n s : good s -> 1 <= n <= 255 -> wp (set_capture_count n) s (fun _ s' => code s' = code s /\ cc s' = n).
Proof. intros [Hb Hc He Hnm] Hn a s' [= <- <-] _. split; [by split|done]. Qed.

Lemma wp_parse_capture b p s : good s -> wp (parse_capture env rec b p) s (atom_post s).
Proof using Hheap Hrec Hrec_sticky.
  intros Hg. unfold parse_capture. apply wp_bind; [intros; unfold re_parse_error; sticky_solve|].
  apply wp_gets; [done|]. intros _. rewrite Z.geb_leb. destruct (Z.leb_spec CAPTURE_COUNT_MAX (cc s)); [apply wp_fail|].
  unfold CAPTURE_COUNT_MAX in *. pose proof (g_cc _ Hg) as Hcc.
  apply wp_bind; [intros [? ?]; sticky_solve|]. apply wp_atom_start; [done|]. intros _.
  eapply wp_seq; [by apply wp_set_cc; [|lia]|intros; sticky_solve|]. intros ? s1 Hg1 [E1 C1].
  eapply wp_seq; [by apply wp_op8|intros; sticky_solve|]. intros ? s2 Hg2 A2.
  eapply wp_seq; [by apply wp_group_body|intros; sticky_solve|]. intros q s3 Hg3 G3.
  eapply wp_seq; [by apply wp_op8|intros; sticky_solve|]. intros ? s4 Hg4 A4. next_quiet. intros q5 s5 Hg5 S5.
  apply wp_pret; [done|]. assert (Hu : u8 (cc s) = cc s) by (apply wrap_small; lia). rewrite Hu in *.
  assert (G2 : grows s1 s2).
  { apply (grows_straight _ _ _ _ A2), st_save; [destruct b; auto|lia]. }
  assert (G4 : grows s3 s4).
  { apply (grows_straight _ _ _ _ A4), st_save; [destruct b; auto|]. destruct G2, G3. lia. }
  destruct (grows_trans _ _ _ G2 (grows_trans _ _ _ G3 (grows_trans _ _ _ G4 (grows_same _ _ S5)))) as (C & k & l & Hb & E).
  split; [|cbn; split; [done|lia]]. split; [lia|]. exists k, l. by rewrite <- E1.
Qed.

Lemma sticky_parse_group b p : sticky (parse_group env rec b p).
Proof using Hrec_sticky. unfold parse_group, re_parse_error. sticky_solve. Qed.
Hint Resolve sticky_parse_group : sticky.

(** A loop that returns keeps an invariant. *)
Lemma loop_inv {St R} (step : St -> outcome (St + R)) (I : St -> Prop) (Q : R -> Prop) :
  (forall s x, I s -> step s = Ret x -> match x with inl s' => I s' | inr r => Q r end) ->
  forall f s r, I s -> loop f step s = Ret r -> Q r.
Proof.
  intros Hstep f. induction f as [|f IH]; intros s r HI; cbn [loop]; [done|].
  destruct (step s) as [x| |] eqn:Ex; cbn [mbind outcome_bind]; [|done|done]. pose proof (Hstep s x HI Ex) as Hx.
  destruct x as [s'|r']; [by apply IH|]. by intros [= <-].
Qed.

Lemma utf8_bytes c : Forall is_byte (unicode_to_utf8 c).
Proof. unfold unicode_to_utf8. repeat case_match; repeat constructor; apply (wrap_range 8); lia. Qed.

Lemma group_name_bytes b p n u name q : re_parse_group_name b p n u = Ret (Some (name, q)) -> Forall is_byte name.
Proof.
  unfold re_parse_group_name. intros E.
  refine (loop_inv _ (fun st => Forall is_byte st.2) (fun r => forall m e, r = Some (m, e) -> Forall is_byte m) _ _ _ _ _ E _ _ eq_refl);
    [|constructor].
  intros [p0 q0] x Hq Ex. cbn [snd] in Hq. cbv beta iota in Ex.
  destruct (aget b p0) as [c| |]; try done. cbn [mbind outcome_bind] in Ex.
  destruct (c =? 62). { injection Ex as <-. destruct (zlen q0 =? 0); [done|]. by intros m e [= <- <-]. }
  destruct (aget b (if c =? 92 then p0 + 1 else p0)) as [d| |]; try done. cbn [mbind outcome_bind] in Ex.
  destruct (_ && _); [by injection Ex as <-|].
  match type of Ex with (?o ≫= _) = _ => destruct o as [[c' p']| |]; try done end. cbn [mbind outcome_bind] in Ex. cbv zeta in Ex.
  destruct (_ >? _); [by injection Ex as <-|].
  match type of Ex with (?o ≫= _) = _ => destruct o as [ok| |]; try done end. cbn [mbind outcome_bind] in Ex.
  destruct (negb ok); [by injection Ex as <-|]. destruct (_ >? _); [by injection Ex as <-|]. injection Ex as <-. cbn [snd].
  apply Forall_app. split; [done|]. destruct (Z.ltb_spec (u32 c') 128); [|apply utf8_bytes].
  constructor; [|constructor]. pose proof (wrap_range 32 c' ltac:(lia)). split; lia.
Qed.

Ltac group_step :=
  first [ eapply wp_mono; [first [by apply wp_lookahead | by apply wp_parse_capture]|]; intros; assumption | atom_step ].

Lemma wp_parse_group b p s : good s -> wp (parse_group env rec b p) s (atom_post s).
Proof using Hheap Hrec Hrec_sticky.
  intros Hg. unfold parse_group, re_parse_error. next_quiet. intros c1 s1 Hg1 S1.
  eapply wp_mono; [|intros ? ? _ HP; exact (atom_post_same _ _ _ _ S1 HP)]. destruct (negb (c1 =? 63)); [repeat group_step|].
  next_quiet. intros c2 s2 Hg2 S2. eapply wp_mono; [|intros ? ? _ HP; exact (atom_post_same _ _ _ _ S2 HP)].
  destruct (c2 =? 58).
  2:{ destruct (_ || _); [repeat group_step|]. destruct (negb _); [apply wp_fail|].
      next_quiet. intros c3 s3 Hg3 S3. eapply wp_mono; [|intros ? ? _ HP; exact (atom_post_same _ _ _ _ S3 HP)].
      destruct (_ || _); [repeat group_step|]. apply wp_bind; [intros; sticky_solve|]. apply wp_lift; [done|]. intros r Er _.
      destruct r as [[name q]|]; [|apply wp_fail].
      assert (Hkeep : keeps_names (fun b => dbuf_put b (name ++ [0]))).
      { apply keeps_put. apply Forall_app. split; [by eapply group_name_bytes|]. constructor; [split; lia|constructor]. }
      repeat group_step. }
  apply wp_bind; [intros [? ?]; sticky_solve|]. apply wp_atom_start; [done|]. intros _.
  eapply wp_seq; [by apply wp_group_body|intros; sticky_solve|]. intros q s3 Hg3 G3. next_quiet. intros q4 s4 Hg4 S4.
  apply wp_pret; [done|]. split; [exact (grows_trans _ _ _ G3 (grows_same _ _ S4))|]. cbn. destruct Hg2. split; [done|lia].
Qed.

Lemma sticky_parse_atom b : sticky (re_parse_atom env fuel rec b).
Proof using Hrec_sticky. unfold re_parse_atom, simple_op, re_parse_error. sticky_solve. Qed.

Lemma sticky_simple_op p op : sticky (simple_op p op).
Proof. unfold simple_op. sticky_solve. Qed.
Hint Resolve sticky_simple_op : sticky.

Lemma wp_simple_op p op s : good s -> zero_width op = true -> wp (simple_op p op) s (atom_post s).
Proof using Hheap.
  intros Hg Hz. unfold simple_op. eapply wp_seq; [by apply wp_op|intros; apply sticky_pret|]. intros ? s1 Hg1 A.
  apply wp_pret; [done|]. split; [apply (grows_straight _ _ _ _ A); by apply st_zero|]. cbn. lia.
Qed.

Lemma wp_parse_atom b s : good s -> wp (re_parse_atom env fuel rec b) s (atom_post s).
Proof using Hheap Hrec Hrec_sticky.
  intros Hg. unfold re_parse_atom, re_parse_error.
  assert (Hdot : forall q s, good s -> wp (pbind atom_start (fun '(start, count) =>
      pbind (directed b (re_emit_op (if e_dotall env then REOP_any else REOP_dot))) (fun _ => pret (q, start, count)))) s (atom_post s)).
  { intros q s1 Hg1. apply (wp_atom _ (fun _ st => (q, st.1, st.2)) s1 Hg1); [auto with sticky|done|].
    intros s2 Hg2. apply wp_directed; [done|apply sticky_op|]. intros s3 Hg3. eapply wp_mono; [by apply wp_op|].
    intros ? s4 _ A. apply (grows_straight _ _ _ _ A), st_char. destruct (e_dotall env); constructor. }
  assert (Hclass : forall q s, good s -> wp (pbind atom_start (fun '(start, count) =>
      pbind (directed b (re_parse_char_class env fuel q)) (fun r => pret (r, start, count)))) s (atom_post s)).
  { intros q s1 Hg1. apply (wp_atom _ (fun r st => (r, st.1, st.2)) s1 Hg1); [auto with sticky|done|].
    intros s2 Hg2. apply wp_directed; [done|apply sticky_char_class|]. intros s3 Hg3. by apply wp_char_class. }
  repeat first
    [ eapply wp_mono; [first [ by apply wp_parse_group | by apply wp_simple_op | by apply wp_decimal_escape
                             | by apply wp_named_back_reference | by apply Hdot | by apply Hclass ]|]; intros; assumption
    | group_step ].
Qed.
End Group.

(** ** Quantifiers *)

Hint Resolve sticky_code_set sticky_code_put sticky_copy : sticky.

(** The code behind [base] is a block. *)
Definition block_at (base : list Z) (s s' : REParseState) : Prop :=
  cc s' = cc s /\ exists k l, block (cc s) k l /\ code s' = base ++ l.

Lemma block_at_intro base s s' k l : cc s' = cc s -> code s' = base ++ l -> block (cc s) k l -> block_at base s s'.
Proof. intros C E Hb. split; [done|]. eauto. Qed.

Lemma cut_gap (gap : list Z) a b : zlen gap = a + b -> 0 <= a -> 0 <= b ->
  exists g1 g2, gap = g1 ++ g2 /\ zlen g1 = a /\ zlen g2 = b.
Proof.
  intros Hl Ha Hb. exists (take (Z.to_nat a) gap), (drop (Z.to_nat a) gap). rewrite take_drop. split; [done|]. split; zlia.
Qed.

Lemma split_op_split g : is_split (split_op g).
Proof. destruct g; [by right|by left]. Qed.
Lemma split_back_split g : is_split (split_back_op g).
Proof. destruct g; [by left|by right]. Qed.

Lemma sticky_set_size n : sticky (fun s => set_byte_code (db_set_size (byte_code s) n) s).
Proof. apply sticky_same. by intros s a s' [= <- <-]. Qed.
Hint Resolve sticky_set_size : sticky.

Lemma wp_set_size base l s : good s -> code s = base ++ l ->
  wp (fun s => set_byte_code (db_set_size (byte_code s) (zlen base)) s) s (fun _ s' => code s' = base /\ cc s' = cc s).
Proof.
  intros Hg Hcode a s' [= <- <-] _. pose proof (code_len s Hg) as Hl. pose proof (zlen_nonneg base). pose proof (zlen_nonneg l).
  destruct Hg as [[[Ha Hs Hb] Hm] Hc He Hnm]. rewrite Hcode, zlen_app in Hl.
  split; [split; [split; [constructor|]|..]|]; cbn; try done; [lia|].
  split; [|done]. unfold code, dbuf_data in *. cbn [db_buf db_size db_set_size byte_code] in *.
  assert (E : take (Z.to_nat (zlen base)) (take (Z.to_nat (db_size (byte_code s))) (db_buf (byte_code s))) = base).
  { rewrite Hcode. apply take_app_length'. zlia. }
  rewrite take_take, Nat.min_l in E by lia. exact E.
Qed.

Lemma sticky_min0 start len qmax g z : sticky (quantifier_min0 start len qmax g z).
Proof. unfold quantifier_min0. sticky_solve. Qed.
Lemma sticky_more start len qmin qmax g z : sticky (quantifier_more start len qmin qmax g z).
Proof. unfold quantifier_more, code_size. sticky_solve. Qed.
Hint Resolve sticky_min0 sticky_more : sticky.

Section Quantifier.
Context (base l : list Z) (k : Z) (greedy : bool).

Lemma wp_min0 qmax z s : good s -> code s = base ++ l -> block (cc s) k l ->
  wp (quantifier_min0 (zlen base) (zlen l) qmax greedy z) s (fun _ s' => block_at base s s').
Proof using Hheap.
  intros Hg Hcode Hb. unfold quantifier_min0. cbv zeta. pose proof (split_op_split greedy) as Hop.
  destruct (qmax =? 0).
  { eapply wp_mono; [by eapply wp_set_size|]. intros ? s1 _ [E C].
    apply (block_at_intro _ _ _ 0 []); [done|by rewrite app_nil_r|constructor]. }
  destruct (qmax =? 1).
  { eapply wp_seq; [by eapply wp_insert|intros; sticky_solve|]. intros ? s1 Hg1 (gap & Hgap & E1 & C1).
    eapply wp_mono; [by apply (wp_fill_jump_end _ _ _ _ s1 base gap l)|]. intros ? s2 _ [E2 C2].
    apply (block_at_intro _ _ _ k (jump (split_op greedy) (zlen l) ++ l)); [congruence|done|by apply bl_split]. }
  destruct (qmax =? INT32_MAX).
  { eapply wp_seq; [by eapply (wp_insert (5 + b2z z) s base l); [..|destruct z; cbn; lia]|intros; sticky_solve|].
    intros ? s1 Hg1 (gap & Hgap & E1 & C1).
    destruct (cut_gap gap 5 (b2z z)) as (g1 & g2 & -> & Hl1 & Hl2); [lia|lia|by destruct z|]. rewrite <- app_assoc in E1.
    eapply wp_fill_jump; [done|exact E1|done|done|done|sticky_solve|]. intros s2 Hg2 E2 C2. destruct z; cbn [b2z] in *.
    - destruct g2 as [|x [|? ?]]; [done| |unfold zlen in Hl2; cbn [length] in Hl2; lia].
      eapply wp_seq; [apply (wp_code_set _ _ s2 (base ++ jump (split_op greedy) (zlen l + 5 + 1)) x l); [done| |]|intros; sticky_solve|].
      { by rewrite E2, <- app_assoc. } { rewrite zlen_app, zlen_jump. lia. }
      intros ? s3 Hg3 [E3 C3]. eapply wp_seq; [by apply wp_goto|intros; sticky_solve|]. intros ? s4 Hg4 [E4 C4].
      apply wp_pret; [done|]. eapply (block_at_intro _ _ _ (k + 1)); [congruence| |by apply bl_star_check].
      rewrite E4, E3, u8_op. rewrite !zlen_app, zlen_jump, zlen_cons, zlen_nil.
      replace (zlen base - _) with (- (zlen l + 11)) by lia. replace (zlen l + 5 + 1) with (zlen l + 6) by lia.
      by rewrite <- !app_assoc.
    - destruct g2; [|unfold zlen in Hl2; cbn [length] in Hl2; lia]. rewrite Z.add_0_r in E2.
      eapply wp_seq; [by apply wp_goto|intros; sticky_solve|]. intros ? s4 Hg4 [E4 C4].
      apply wp_pret; [done|]. eapply (block_at_intro _ _ _ k); [congruence| |by apply bl_star].
      rewrite E4, E2. cbn [app]. rewrite !zlen_app, zlen_jump.
      replace (zlen base - _) with (- (zlen l + 10)) by lia. by rewrite <- !app_assoc. }
  eapply wp_seq; [by eapply (wp_insert 10 s base l)|intros; sticky_solve|].
  intros ? s1 Hg1 (gap & Hgap & E1 & C1).
  destruct (cut_gap gap 5 5) as (g1 & g2 & -> & Hl1 & Hl2); [lia|lia|lia|]. rewrite <- app_assoc in E1.
  eapply wp_fill_jump; [done|exact E1|done|done|done|sticky_solve|]. intros s2 Hg2 E2 C2.
  eapply (wp_fill_jump _ _ _ _ s2 (base ++ jump REOP_push_i32 qmax) g2 l); [done|by rewrite E2, <- app_assoc|done|
    rewrite zlen_app, zlen_jump; lia|lia|sticky_solve|]. intros s3 Hg3 E3 C3.
  eapply wp_seq; [by apply wp_goto|intros; sticky_solve|]. intros ? s4 Hg4 [E4 C4].
  eapply wp_mono; [by apply wp_op|]. intros ? s5 _ [E5 C5].
  eapply (block_at_intro _ _ _ (k + 1)); [congruence| |by apply (bl_loop_split _ qmax (split_op greedy))].
  rewrite E5, E4, E3. rewrite !zlen_app, !zlen_jump. replace (zlen base + 5 - _) with (- (zlen l + 10)) by lia.
  by rewrite <- !app_assoc.
Qed.

(** A block appended by the copy of an atom that stands behind [pre]. *)
Lemma wp_more pre post qmin qmax z s : good s -> code s = pre ++ l ++ post -> block (cc s) k l ->
  wp (quantifier_more (zlen pre) (zlen l) qmin qmax greedy z) s (fun _ s' => block_at (code s) s s').
Proof using Hheap.
  intros Hg Hcode Hb. unfold quantifier_more, code_size. cbv zeta. pose proof (split_op_split greedy) as Hop.
  destruct (qmax =? INT32_MAX).
  { apply wp_bind; [intros; sticky_solve|]. apply wp_code_size; [done|]. intros _.
    eapply wp_seq; [by apply wp_op32|intros; sticky_solve|]. intros ? s1 Hg1 [_ [E1 C1]].
    apply (wp_seq _ _ _ (fun _ s' => appended s1 s' (if z then [reop_code REOP_push_char_pos] else []))).
    { destruct z; [by apply wp_op|apply wp_pret; [done|by apply appended_same]]. } { intros; sticky_solve. }
    intros ? s2 Hg2 [E2 C2].
    eapply wp_seq; [eapply (wp_copy _ s2 pre l (post ++ jump (split_op greedy) (zlen l + 5 + b2z z) ++ _)); [done|
      rewrite E2, E1, Hcode, <- !app_assoc; reflexivity|done]|intros; sticky_solve|]. intros ? s3 Hg3 [E3 C3].
    eapply wp_seq; [by apply wp_goto|intros; sticky_solve|]. intros ? s4 Hg4 [E4 C4]. apply wp_pret; [done|].
    rewrite (s32_len s Hg) in E4. rewrite E3, E2, E1, !zlen_app, zlen_jump in E4. destruct z; cbn [b2z] in *.
    - eapply (block_at_intro _ _ _ (k + 1)); [congruence| |by apply (bl_star_check _ (split_op greedy))].
      rewrite E4. change (zlen [reop_code REOP_push_char_pos]) with 1.
      replace (zlen (code s) - _) with (- (zlen l + 11)) by lia. replace (zlen l + 5 + 1) with (zlen l + 6) by lia.
      by rewrite <- !app_assoc.
    - eapply (block_at_intro _ _ _ k); [congruence| |by apply (bl_star _ (split_op greedy))].
      rewrite E4, (Z.add_0_r (zlen l + 5)), zlen_nil.
      replace (zlen (code s) - _) with (- (zlen l + 10)) by lia. by rewrite app_nil_r, <- !app_assoc. }
  destruct (qmax >? qmin).
  2:{ apply wp_pret; [done|]. apply (block_at_intro _ _ _ 0 []); [done|by rewrite app_nil_r|constructor]. }
  eapply wp_seq; [by apply wp_op32|intros; sticky_solve|]. intros ? s1 Hg1 [_ [E1 C1]].
  apply wp_bind; [intros; sticky_solve|]. apply wp_code_size; [done|]. intros _.
  eapply wp_seq; [by apply wp_op32|intros; sticky_solve|]. intros ? s2 Hg2 [_ [E2 C2]].
  eapply wp_seq; [eapply (wp_copy _ s2 pre l (post ++ jump REOP_push_i32 _ ++ jump (split_op greedy) (zlen l + 5))); [done|
    rewrite E2, E1, Hcode, <- !app_assoc; reflexivity|done]|intros; sticky_solve|]. intros ? s3 Hg3 [E3 C3].
  eapply wp_seq; [by apply wp_goto|intros; sticky_solve|]. intros ? s4 Hg4 [E4 C4].
  eapply wp_mono; [by apply wp_op|]. intros ? s5 _ [E5 C5].
  eapply (block_at_intro _ _ _ (k + 1)); [congruence| |by apply (bl_loop_split _ (qmax - qmin) (split_op greedy))].
  rewrite s32_len in E4 by done. rewrite E5, E4, E3, E2, E1, !zlen_app, !zlen_jump.
  replace (zlen (code s) + 5 - _) with (- (zlen l + 10)) by lia. by rewrite <- !app_assoc.
Qed.

Lemma sticky_simple start qmin qmax n : sticky (simple_quantifier start qmin qmax n).
Proof. unfold simple_quantifier, code_size. sticky_solve. Qed.

Lemma wp_simple qmin qmax n s : good s -> code s = base ++ l -> simple n l -> 1 <= n < 2 ^ 30 ->
  wp (simple_quantifier (zlen base) qmin qmax n) s (fun _ s' => block_at base s s').
Proof using Hheap.
  intros Hg Hcode Hs Hn. unfold simple_quantifier.
  eapply wp_seq; [by apply wp_op|intros; unfold code_size; sticky_solve|]. intros ? s1 Hg1 [E1 C1].
  eapply wp_seq; [eapply (wp_insert 17 s1 base (l ++ [reop_code REOP_match])); [done|by rewrite E1, Hcode, <- app_assoc|lia]
    |intros; unfold code_size; sticky_solve|]. intros ? s2 Hg2 (gap & Hgap & E2 & C2).
  destruct (cut_gap gap 1 16) as (g0 & g & -> & Hl0 & Hg'); [lia..|].
  destruct (cut_gap g 4 12) as (g1 & g' & -> & Hl1 & Hg''); [lia..|].
  destruct (cut_gap g' 4 8) as (g2 & g'' & -> & Hl2 & Hg3); [lia..|].
  destruct (cut_gap g'' 4 4) as (g3 & g4 & -> & Hl3 & Hl4); [lia..|].
  destruct g0 as [|x [|? ?]]; [done| |unfold zlen in Hl0; cbn [length] in Hl0; lia].
  set (tl := l ++ [reop_code REOP_match]) in *. set (op := reop_code REOP_simple_greedy_quant).
  eapply wp_seq; [apply (wp_code_set _ _ s2 base x ((g1 ++ g2 ++ g3 ++ g4) ++ tl)); [done| |done]|
    intros; unfold code_size; sticky_solve|]; [by rewrite E2, <- app_assoc|]. intros ? s3 Hg3' [E3 C3].
  apply wp_bind; [intros; sticky_solve|]. apply wp_code_size; [done|]. intros _. change (u8 op) with op in E3.
  assert (Hsize : zlen (code s3) - zlen base - 17 = zlen l + 1).
  { rewrite E3, !zlen_app. unfold tl. rewrite zlen_app. change (zlen [op]) with 1. change (zlen [reop_code REOP_match]) with 1. lia. }
  rewrite Hsize. rewrite <- !app_assoc in E3.
  eapply wp_seq; [apply (wp_code_put _ _ s3 (base ++ [op]) g1 (g2 ++ g3 ++ g4 ++ tl)); [done| | |lia]|intros; sticky_solve|];
    [by rewrite E3, <- !app_assoc|by rewrite zlen_app|]. intros ? s4 Hg4' [E4 C4].
  eapply wp_seq; [apply (wp_code_put _ qmin s4 ((base ++ [op]) ++ le_split 4 (u32 (zlen l + 1))) g2 (g3 ++ g4 ++ tl)); [done| | |lia]
    |intros; sticky_solve|]; [by rewrite E4, <- !app_assoc|rewrite !zlen_app, zlen_le_split; change (zlen [op]) with 1; lia|].
  intros ? s5 Hg5 [E5 C5].
  eapply wp_seq; [apply (wp_code_put _ qmax s5 (((base ++ [op]) ++ le_split 4 (u32 (zlen l + 1))) ++ le_split 4 qmin) g3 (g4 ++ tl));
      [done| | |lia]|intros; sticky_solve|];
    [by rewrite E5, <- !app_assoc|rewrite !zlen_app, !zlen_le_split; change (zlen [op]) with 1; lia|].
  intros ? s6 Hg6 [E6 C6].
  eapply wp_mono; [apply (wp_code_put _ n s6 ((((base ++ [op]) ++ le_split 4 (u32 (zlen l + 1))) ++ le_split 4 qmin) ++
      le_split 4 qmax) g4 tl); [done| | |lia]|];
    [by rewrite E6, <- !app_assoc|rewrite !zlen_app, !zlen_le_split; change (zlen [op]) with 1; lia|].
  intros ? s7 _ [E7 C7]. eapply (block_at_intro _ _ _ 0); [congruence| |by apply (bl_simple _ qmin qmax n l)].
  rewrite E7, le_split_mod. unfold jump, tl, op. rewrite <- !app_assoc. done.
Qed.

End Quantifier.

Lemma sticky_general start last qmin qmax greedy z : sticky (general_quantifier start last qmin qmax greedy z).
Proof. unfold general_quantifier, code_size. sticky_solve. Qed.

Lemma block_at_weaken base base' s s1 s2 k0 l0 : cc s1 = cc s -> base' = base ++ l0 -> block (cc s) k0 l0 -> block_at base' s1 s2 ->
  block_at base s s2.
Proof.
  intros C -> Hb0 (C2 & k1 & l1 & Hb1 & E). split; [congruence|]. rewrite C in Hb1.
  exists (Z.max k0 k1), (l0 ++ l1). split; [by apply bl_app|]. by rewrite E, app_assoc.
Qed.

(** [REOP_save_reset] in front of the atom. *)
Lemma wp_reset base l last s : good s -> code s = base ++ l -> 0 <= last ->
  wp (pbind (code_insert (zlen base) 3) (fun _ => pbind (code_set (zlen base) (reop_code REOP_save_reset)) (fun _ =>
      pbind (code_set (zlen base + 1) last) (fun _ => code_set (zlen base + 2) (cc s - 1))))) s
    (fun _ s' => cc s' = cc s /\ exists args, straight (cc s) REOP_save_reset args /\ zlen args = 2 /\
      code s' = (base ++ reop_code REOP_save_reset :: args) ++ l).
Proof using Hheap.
  intros Hg Hcode Hlast. pose proof (g_cc _ Hg) as Hcc.
  eapply wp_seq; [by apply (wp_insert 3 s base l); [..|lia]|intros; sticky_solve|]. intros ? s1 Hg1 (gap & Hgap & E1 & C1).
  destruct gap as [|x [|y [|z [|? ?]]]]; try (unfold zlen in Hgap; cbn [length] in Hgap; lia).
  eapply wp_seq; [by apply (wp_code_set _ _ s1 base x ([y; z] ++ l))|intros; sticky_solve|]. intros ? s2 Hg2 [E2 C2].
  set (o := u8 (reop_code REOP_save_reset)) in *.
  eapply wp_seq; [apply (wp_code_set _ _ s2 (base ++ [o]) y ([z] ++ l)); [done| |by rewrite zlen_app]|intros; sticky_solve|];
    [by rewrite E2, <- !app_assoc|]. intros ? s3 Hg3 [E3 C3].
  eapply wp_mono; [apply (wp_code_set _ _ s3 ((base ++ [o]) ++ [u8 last]) z l); [done| |]|];
    [by rewrite E3, <- !app_assoc|rewrite !zlen_app; change (zlen [o]) with 1; change (zlen [u8 last]) with 1; lia|].
  intros ? s4 _ [E4 C4]. split; [congruence|]. exists [u8 last; u8 (cc s - 1)]. split; [|split; [done|]].
  - apply st_reset; [apply (wrap_range 8); lia|]. rewrite wrap_small by lia. lia.
  - rewrite E4, <- !app_assoc. done.
Qed.

Lemma pbind_assoc {A B C} (x : parser A) (f : A -> parser B) (g : B -> parser C) s :
  pbind x (fun a => pbind (f a) g) s = pbind (pbind x f) g s.
Proof. unfold pbind. by destruct (x s) as [[]| |]. Qed.

Lemma wp_ext {A} (x y : parser A) s Q : (forall s, x s = y s) -> wp x s Q -> wp y s Q.
Proof. intros E Hx a s' Ey. apply Hx. by rewrite E. Qed.

Lemma wp_general base l k greedy last qmin qmax z s : good s -> code s = base ++ l -> block (cc s) k l -> 0 <= last ->
  wp (general_quantifier (zlen base) last qmin qmax greedy z) s (fun _ s' => block_at base s s').
Proof using Hheap.
  intros Hg Hcode Hb Hlast. unfold general_quantifier, code_size. pose proof (code_small s Hg) as Hsm.
  pose proof (zlen_nonneg l). pose proof (zlen_nonneg base).
  assert (Hlen : s32 (zlen (code s) - zlen base) = zlen l).
  { rewrite Hcode, zlen_app in *. replace (zlen base + zlen l - zlen base) with (zlen l) by lia. apply (sext_small 32); lia. }
  apply wp_bind; [intros; sticky_solve|]. apply wp_code_size; [done|]. intros _. cbv zeta. rewrite Hlen.
  destruct (qmin =? 0).
  - apply wp_bind; [intros; sticky_solve|]. apply wp_gets; [done|]. intros _. destruct (negb _); [|by apply (wp_min0 base l k)].
    eapply (wp_ext (pbind (pbind (code_insert (zlen base) 3) (fun _ => pbind (code_set (zlen base) (reop_code REOP_save_reset))
      (fun _ => pbind (code_set (zlen base + 1) last) (fun _ => code_set (zlen base + 2) (cc s - 1)))))
      (fun _ => quantifier_min0 (zlen base + 3) (zlen l) qmax greedy z))).
    { intros s0. rewrite <- pbind_assoc. unfold pbind. destruct (code_insert _ _ s0) as [[? s1|]| |]; try done.
      cbn [mbind outcome_bind]. destruct (code_set _ _ s1) as [[? s2|]| |]; try done. cbn [mbind outcome_bind].
      by destruct (code_set _ _ s2) as [[]| |]. }
    eapply wp_seq; [by apply wp_reset|intros; sticky_solve|]. intros ? s1 Hg1 (C1 & args & Hs & Hargs & E1).
    replace (zlen base + 3) with (zlen (base ++ reop_code REOP_save_reset :: args)) by (rewrite zlen_app, zlen_cons; lia).
    eapply wp_mono; [apply (wp_min0 (base ++ reop_code REOP_save_reset :: args) l k); [done|done|by rewrite C1]|].
    intros ? s2 _ HP. eapply block_at_weaken; [exact C1|reflexivity|by apply bl_straight|exact HP].
  - destruct (_ && _).
    { eapply wp_seq; [by apply wp_goto|intros; sticky_solve|]. intros ? s1 Hg1 [E1 C1]. apply wp_pret; [done|].
      eapply (block_at_intro _ _ _ k); [done| |by apply (bl_plus _ (split_back_op greedy)); [apply split_back_split|]].
      rewrite E1, Hcode, zlen_app. replace (zlen base - _) with (- (zlen l + 5)) by lia. by rewrite <- app_assoc. }
    destruct (qmin =? 1).
    { eapply wp_mono; [apply (wp_more l k greedy base []); [done|by rewrite app_nil_r|done]|]. intros ? s1 _ HP.
      eapply block_at_weaken; [done|exact Hcode|exact Hb|exact HP]. }
    eapply wp_seq; [by eapply (wp_insert 5 s base l)|intros; sticky_solve|]. intros ? s1 Hg1 (gap & Hgap & E1 & C1).
    eapply wp_fill_jump; [done|exact E1|done|done|done|sticky_solve|]. intros s2 Hg2 E2 C2.
    eapply wp_seq; [by apply wp_goto|intros; sticky_solve|]. intros ? s3 Hg3 [E3 C3].
    eapply wp_seq; [by apply wp_op|intros; sticky_solve|]. intros ? s4 Hg4 [E4 C4].
    set (post := jump REOP_loop (zlen base + 5 - (zlen (code s2) + 5)) ++ [reop_code REOP_drop]) in *.
    assert (E : code s4 = (base ++ jump REOP_push_i32 qmin) ++ l ++ post) by (unfold post; rewrite E4, E3, E2; by rewrite <- !app_assoc).
    replace (zlen base + 5) with (zlen (base ++ jump REOP_push_i32 qmin)) by (by rewrite zlen_app, zlen_jump).
    eapply wp_mono; [apply (wp_more l k greedy _ post); [done|exact E|by replace (cc s4) with (cc s) by congruence]|]. intros ? s5 _ HP.
    eapply (block_at_weaken base _ s s4); [congruence| |apply (bl_loop _ qmin k l Hb)|exact HP].
    rewrite E. unfold post. rewrite E2, !zlen_app, zlen_jump.
    replace (zlen base + 5 - _) with (- (zlen l + 5)) by lia. by rewrite <- !app_assoc.
Qed.

Hint Resolve sticky_simple sticky_general : sticky.

Lemma atom_code_quiet start : quiet (atom_code start).
Proof.
  split; [intros s a s' E; unfold atom_code in E; destruct (aread _ _ _); try done; by injection E as <- <-|].
  intros s Hg a s' E He. unfold atom_code in E. destruct (aread _ _ _); try done. by injection E as <- <-.
Qed.
Hint Resolve atom_code_quiet : quiet.

Lemma wp_atom_code base l s : good s -> code s = base ++ l ->
  wp (atom_code (zlen base)) s (fun bc s' => bc = l /\ s' = s).
Proof.
  intros Hg Hcode a s' E He. unfold atom_code in E. pose proof (code_len s Hg) as Hl. rewrite Hcode, zlen_app in Hl.
  pose proof (zlen_nonneg l). pose proof (zlen_nonneg base).
  destruct (buf_split _ (g_buf _ Hg)) as [room Eb]. unfold code in Hcode. rewrite Hcode, <- app_assoc in Eb. rewrite Eb, Hl in E.
  replace (zlen base + zlen l - zlen base) with (zlen l) in E by lia.
  rewrite (at_read _ (zlen base) l) in E by (by exists base, room). by injection E as <- <-.
Qed.

Lemma sticky_quantifier start n qmin qmax g : sticky (emit_quantifier start n qmin qmax g).
Proof. unfold emit_quantifier. sticky_solve. Qed.
Hint Resolve sticky_quantifier : sticky.

Lemma wp_emit_quantifier base l k greedy last qmin qmax s : good s -> code s = base ++ l -> block (cc s) k l -> 0 <= last ->
  wp (emit_quantifier (zlen base) last qmin qmax greedy) s (fun _ s' => block_at base s s').
Proof using Hheap.
  intros Hg Hcode Hb Hlast. unfold emit_quantifier. cbv zeta. destruct greedy; [|by apply (wp_general base l k)].
  assert (Hcheck : forall (Q : unit -> REParseState -> Prop), Q tt s -> wp code_check s Q).
  { intros Q HQ. unfold code_check. apply wp_bind; [intros; unfold re_parse_out_of_memory, re_parse_error; sticky_solve|].
    apply wp_gets; [done|]. intros _. destruct (db_error _); [apply wp_fail|by apply wp_pret]. }
  apply (wp_seq _ _ _ (fun n s' => s' = s /\ (0 < n -> simple n l))).
  - destruct (qmax >? 0); [|apply wp_pret; [done|by split]].
    apply wp_bind; [intros; sticky_solve|]. apply Hcheck. intros _.
    eapply wp_seq; [by apply (wp_atom_code base l)|intros; sticky_solve|]. intros bc s1 Hg1 [-> ->].
    apply wp_lift; [done|]. intros n En. split; [done|]. by apply (simple_quantifier_code (cc s) k).
  - intros; sticky_solve.
  - intros n s1 Hg1 [-> Hn]. destruct (Z.gtb_spec n 0) as [Hpos|_].
    + apply (wp_simple base l); [done|done|by apply Hn; lia|]. pose proof (simple_bound n l (Hn ltac:(lia))).
      pose proof (code_small s Hg) as Hsm. rewrite Hcode, zlen_app in Hsm. pose proof (zlen_nonneg base). lia.
    + apply wp_bind; [intros; sticky_solve|]. apply Hcheck. intros _.
      eapply wp_seq; [by apply (wp_atom_code base l)|intros; sticky_solve|]. intros bc s1 _ [-> ->].
      apply wp_bind; [intros; sticky_solve|]. apply wp_lift; [done|]. intros adv _ _. by apply (wp_general base l k).
Qed.

(** ** Terms, alternatives and disjunctions *)

Section Body.
Context (rec : bool -> parser unit).
Hypothesis Hrec_sticky : forall b, sticky (rec b).
Hypothesis Hrec : forall b s, good s -> wp (rec b) s (fun _ s' => grows s s').
Hint Resolve Hrec_sticky sticky_parse_atom : sticky.

Lemma sticky_term b : sticky (re_parse_term env fuel rec b).
Proof using Hrec_sticky. unfold re_parse_term. sticky_solve. Qed.
Hint Resolve sticky_term : sticky.

Lemma wp_term b s : good s -> wp (re_parse_term env fuel rec b) s (fun _ s' => grows s s').
Proof using Hheap Hrec Hrec_sticky.
  intros Hg. unfold re_parse_term. eapply wp_seq; [by apply wp_parse_atom|intros; sticky_solve|].
  intros [[p start] count] s1 Hg1 [(C1 & k & l & Hb & E1) Hst]. cbn [fst snd] in Hst.
  assert (Hdone : forall q s2, good s2 -> same s1 s2 -> wp (set_buf_ptr q) s2 (fun _ s' => grows s s')).
  { intros q s2 Hg2 [E2 C2]. eapply wp_mono; [by apply wp_quiet; [apply quiet_set_ptr|]|]. intros ? s3 _ [E3 C3].
    split; [lia|]. exists k, l. split; [|congruence]. by replace (cc s3) with (cc s1) by congruence. }
  destruct (Z.ltb_spec start 0); [by apply Hdone|]. destruct (Hst ltac:(lia)) as [-> Hcount].
  next_quiet. intros [[[qmin qmax] q]|] s2 Hg2 S2; [|by apply Hdone]. next_quiet. intros d s3 Hg3 S3. cbv zeta.
  destruct S2 as [E2 C2]. destruct S3 as [E3 C3].
  eapply wp_seq; [apply (wp_emit_quantifier (code s) l k); [done|congruence| |done]|intros; sticky_solve|].
  { by replace (cc s3) with (cc s1) by congruence. }
  intros ? s4 Hg4 (C4 & k' & l' & Hb' & E4). eapply wp_mono; [apply wp_quiet; [apply quiet_set_ptr|done]|].
  intros ? s5 _ [E5 C5]. split; [lia|]. exists k', l'. split; [|congruence]. by replace (cc s5) with (cc s3) by congruence.
Qed.

Lemma sticky_reverse start term_start : sticky (reverse_term start term_start).
Proof.
  unfold reverse_term, code_size, silent_error. apply sticky_bind; [sticky_solve|]. intros e. cbv zeta.
  apply sticky_bind.
  { apply sticky_on_code. intros b r b' [= Er]. exact (realloc_sticky _ _ _ _ Er). }
  intros r. apply sticky_if; [apply sticky_fail|]. apply sticky_same. intros s a s' E. cbv zeta in E.
  destruct (aread _ _ _); try done. cbn [mbind outcome_bind] in E. destruct (awrite _ _ _); try done. cbn [mbind outcome_bind] in E.
  destruct (aread _ _ _); try done. cbn [mbind outcome_bind] in E. destruct (awrite _ _ _); try done. by injection E as <- <-.
Qed.

(** The move of the last term [t] before the code [l] of the alternative. *)
Lemma move_term (base l t room : list Z) : zlen t <= zlen room -> exists room',
  (b ← awrite ((base ++ l ++ t) ++ room) (zlen base + zlen t) (l ++ t);
   data ← aread b (zlen base + (zlen l + zlen t)) (zlen t);
   awrite b (zlen base) data) = Ret ((base ++ t ++ l) ++ room') /\ zlen room' = zlen room.
Proof.
  intros Hroom. destruct (cut_gap room (zlen t) (zlen room - zlen t)) as (r1 & r2 & -> & Hr1 & Hr2); [lia|apply zlen_nonneg|lia|].
  pose proof (zlen_nonneg t). pose proof (zlen_nonneg l).
  destruct (cut_gap (l ++ t) (zlen t) (zlen l)) as (x & y & Exy & Hx & Hy); [rewrite zlen_app; lia|lia|lia|].
  exists (t ++ r2). split; [|rewrite !zlen_app in *; lia].
  assert (E1 : (base ++ l ++ t) ++ r1 ++ r2 = (base ++ x) ++ (y ++ r1) ++ r2) by (rewrite Exy, <- !app_assoc; done).
  rewrite E1, awrite_at by (rewrite ?zlen_app; lia). cbn [mbind outcome_bind].
  replace ((base ++ x) ++ (l ++ t) ++ r2) with ((base ++ x ++ l) ++ t ++ r2) by (by rewrite <- !app_assoc).
  rewrite (at_read _ (zlen base + (zlen l + zlen t)) t) by (exists (base ++ x ++ l), r2; split; [done|rewrite !zlen_app; lia]).
  cbn [mbind outcome_bind]. replace ((base ++ x ++ l) ++ t ++ r2) with (base ++ x ++ l ++ t ++ r2) by (by rewrite <- !app_assoc).
  rewrite awrite_at by lia. by rewrite <- !app_assoc.
Qed.

Lemma wp_reverse base l t s : good s -> code s = base ++ l ++ t ->
  wp (reverse_term (zlen base) (zlen base + zlen l)) s (fun _ s' => code s' = base ++ t ++ l /\ cc s' = cc s).
Proof using Hheap.
  intros Hg Hcode a s' E He. pose proof (code_len s Hg) as Hl. pose proof (zlen_nonneg t). pose proof (zlen_nonneg l).
  pose proof (zlen_nonneg base). pose proof (code_small s Hg) as Hsm. rewrite Hcode, !zlen_app in Hl, Hsm.
  unfold reverse_term, code_size, on_code, pbind, gets in E. cbn [mbind outcome_bind mret outcome_ret fst snd] in E.
  rewrite Hl in E. replace (zlen base + (zlen l + zlen t) - (zlen base + zlen l)) with (zlen t) in E by lia.
  destruct (dbuf_realloc (byte_code s) _) as [r b] eqn:Er. cbn [fst snd set_byte_code pret mret outcome_ret mbind outcome_bind] in E.
  assert (Heb : db_error b = false).
  { destruct (negb (r =? 0)); [done|]. destruct (aread _ _ _); try done. cbn [mbind outcome_bind] in E.
    destruct (awrite _ _ _); try done. cbn [mbind outcome_bind] in E. destruct (aread _ _ _); try done. cbn [mbind outcome_bind] in E.
    destruct (awrite _ _ _); try done. by injection E as <- <-. }
  destruct (realloc_good _ (zlen base + (zlen l + zlen t) + zlen t) r b (g_buf _ Hg) ltac:(lia) Er Heb) as (-> & Hb & Hd & Hs & Hroom).
  destruct (buf_split b Hb) as [room Eb]. rewrite Hd in Eb. unfold code in Hcode. rewrite Hcode in Eb.
  destruct Hb as [[Ha Hs1 Hby] Hm]. rewrite Z.eqb_refl in E. cbn [negb byte_code] in E. rewrite Eb in E.
  rewrite Eb in Hby. rewrite Eb, !zlen_app in Ha. destruct (move_term base l t room ltac:(lia)) as (room' & Emove & Hroom').
  replace (zlen base + (zlen l + zlen t) - zlen base) with (zlen (l ++ t)) in E by (rewrite zlen_app; lia).
  rewrite (at_read _ (zlen base) (l ++ t)) in E by (by exists base, room; rewrite <- app_assoc). cbn [mbind outcome_bind] in E.
  assert (Hroomb : Forall is_byte room').
  { destruct (awrite _ _ _) as [b1| |] eqn:E1; try done. cbn [mbind outcome_bind] in Emove.
    destruct (aread b1 _ _) as [d1| |] eqn:E2; try done. cbn [mbind outcome_bind] in Emove.
    rewrite !Forall_app in Hby. assert (Hb1 : Forall is_byte b1) by (eapply Forall_awrite; [| |exact E1]; rewrite !Forall_app; tauto).
    apply Forall_awrite with (P := is_byte) in Emove; [|done|by eapply Forall_aread]. by apply Forall_app in Emove as [_ ?]. }
  destruct (awrite _ _ _) as [b1| |]; try done. cbn [mbind outcome_bind] in E, Emove.
  destruct (aread b1 _ _) as [d1| |]; try done. cbn [mbind outcome_bind] in E, Emove.
  rewrite Emove in E. cbn [mbind outcome_bind] in E. injection E as <- <-. rewrite !Forall_app in Hby.
  split; [split; [split; [constructor|]|..]|split; [|done]]; cbn; try done.
  - rewrite !zlen_app. lia.
  - rewrite !Forall_app. tauto.
  - apply Hg.
  - apply Hg.
  - unfold code, dbuf_data. cbn. apply take_app_length'. rewrite Hs, Hl. zlia.
Qed.
Hint Resolve sticky_reverse : sticky.

Lemma sticky_terms b start n : sticky (alternative_terms env fuel rec b start n).
Proof using Hrec_sticky. induction n as [|n IH]; cbn [alternative_terms]; [apply sticky_lift|]. unfold code_size. sticky_solve. Qed.
Hint Resolve sticky_terms : sticky.
Lemma sticky_alternative b : sticky (re_parse_alternative env fuel rec b).
Proof using Hrec_sticky. unfold re_parse_alternative, code_size. sticky_solve. Qed.

(** [s'] extends the code [base] of [s] by a block. *)
Definition extends (base : list Z) (s s' : REParseState) : Prop :=
  cc s <= cc s' /\ exists k l, block (cc s') k l /\ code s' = base ++ l.

Lemma extends_same base s s1 s2 : same s1 s2 -> extends base s s1 -> extends base s s2.
Proof. intros [E2 C2] (C & k & l & Hb & E). split; [lia|]. exists k, l. by rewrite C2, E2. Qed.

Lemma wp_terms b base s0 n : forall s, good s -> extends base s0 s ->
  wp (alternative_terms env fuel rec b (zlen base) n) s (fun _ s' => extends base s0 s').
Proof using Hheap Hrec Hrec_sticky.
  induction n as [|n IH]; intros s Hg Hx; cbn [alternative_terms]; [by apply wp_lift|].
  next_quiet. intros p s1 Hg1 S1. apply (extends_same _ _ _ _ S1) in Hx. destruct (p >=? buf_end env); [by apply wp_pret|].
  next_quiet. intros c s2 Hg2 S2. apply (extends_same _ _ _ _ S2) in Hx. destruct (_ || _); [by apply wp_pret|].
  clear S1 S2. destruct Hx as (C & k & l & Hb & E).
  apply wp_bind; [intros; unfold code_size; sticky_solve|]. apply wp_code_size; [done|]. intros _.
  eapply wp_seq; [by apply wp_term|intros; sticky_solve|]. intros ? s3 Hg3 (C3 & k1 & t & Hb1 & E3).
  apply block_mono with (cc' := cc s3) in Hb; [|lia].
  apply (wp_seq _ _ _ (fun _ s' => extends base s0 s')); [|intros; sticky_solve|intros; by apply IH]. destruct b.
  - rewrite E, zlen_app. eapply wp_mono; [apply (wp_reverse base l t); [done|by rewrite E3, E, <- app_assoc]|].
    intros ? s4 _ [E4 C4]. split; [lia|]. exists (Z.max k1 k), (t ++ l). rewrite C4. split; [by apply bl_app|done].
  - apply wp_pret; [done|]. split; [lia|]. exists (Z.max k k1), (l ++ t). split; [by apply bl_app|].
    by rewrite E3, E, <- app_assoc.
Qed.

Lemma wp_alternative b s : good s -> wp (re_parse_alternative env fuel rec b) s (fun _ s' => grows s s').
Proof using Hheap Hrec Hrec_sticky.
  intros Hg. unfold re_parse_alternative. apply wp_bind; [intros; sticky_solve|]. apply wp_code_size; [done|]. intros _.
  apply (wp_terms b (code s) s); [done|]. split; [lia|]. exists 0, []. split; [constructor|by rewrite app_nil_r].
Qed.
End Body.

Section Alternatives.
Context (alternative : parser unit).
Hypothesis Halt_sticky : sticky alternative.
Hypothesis Halt : forall s, good s -> wp alternative s (fun _ s' => grows s s').

Lemma sticky_more_alternatives start n : sticky (more_alternatives env alternative start n).
Proof using Halt_sticky. induction n as [|n IH]; cbn [more_alternatives]; [apply sticky_lift|]. unfold code_size. sticky_solve. Qed.
Hint Resolve sticky_more_alternatives : sticky.

Lemma wp_more_alternatives base s0 n : forall s, good s -> extends base s0 s ->
  wp (more_alternatives env alternative (zlen base) n) s (fun _ s' => extends base s0 s').
Proof using Hheap Halt Halt_sticky.
  induction n as [|n IH]; intros s Hg Hx; cbn [more_alternatives]; [by apply wp_lift|]. unfold code_size.
  next_quiet. intros p s1 Hg1 S1. apply (extends_same _ _ _ _ S1) in Hx.
  next_quiet. intros c s2 Hg2 S2. apply (extends_same _ _ _ _ S2) in Hx. destruct (negb _); [by apply wp_pret|].
  next_quiet. intros ? s3 Hg3 S3. apply (extends_same _ _ _ _ S3) in Hx. clear S1 S2 S3.
  destruct Hx as (C & k & l & Hb & E). pose proof (code_small s3 Hg3) as Hsm.
  apply wp_bind; [intros; sticky_solve|]. apply wp_code_size; [done|]. intros _. cbv zeta.
  pose proof (zlen_nonneg base). pose proof (zlen_nonneg l).
  assert (Hlen : s32 (zlen (code s3) - zlen base) = zlen l).
  { rewrite E, zlen_app in *. replace (zlen base + zlen l - zlen base) with (zlen l) by lia. apply (sext_small 32); lia. }
  rewrite Hlen. eapply wp_seq; [by eapply (wp_insert 5 s3 base l)|intros; sticky_solve|].
  intros ? s4 Hg4 (gap & Hgap & E4 & C4).
  eapply wp_fill_jump; [done|exact E4|done|done|done|sticky_solve|]. intros s5 Hg5 E5 C5.
  eapply wp_seq; [by apply wp_op32|intros; sticky_solve|]. intros ? s6 Hg6 [-> [E6 C6]].
  eapply wp_seq; [by apply Halt|intros; sticky_solve|]. intros ? s7 Hg7 (C7 & k2 & l2 & Hb2 & E7).
  apply wp_bind; [intros; sticky_solve|]. apply wp_code_size; [done|]. intros _.
  pose proof (code_small s7 Hg7) as Hsm7. pose proof (zlen_nonneg l2). pose proof (zlen_nonneg (code s5)).
  assert (Hlen2 : s32 (zlen (code s7) - (zlen (code s5) + 1 + 4)) = zlen l2).
  { rewrite E7, E6, !zlen_app, zlen_jump in *. replace (zlen (code s5) + 5 + zlen l2 - _) with (zlen l2) by lia.
    apply (sext_small 32); lia. }
  rewrite Hlen2. eapply wp_seq; [apply (wp_code_put _ _ s7 (code s5 ++ [reop_code REOP_goto]) (le_split 4 0) l2); [done| |by rewrite zlen_app|done]
    |intros; sticky_solve|]; [rewrite E7, E6; unfold jump; by rewrite <- !app_assoc|]. intros ? s8 Hg8 [E8 C8].
  apply IH; [done|]. split; [lia|]. apply block_mono with (cc' := cc s8) in Hb; [|lia].
  exists (Z.max k k2), (jump REOP_split_next_first (zlen l + 5) ++ l ++ jump REOP_goto (zlen l2) ++ l2). split.
  - apply bl_alt; [by right|done|]. by replace (cc s8) with (cc s7).
  - rewrite E8, E5. unfold jump. by rewrite <- !app_assoc.
Qed.
End Alternatives.

Context (lre_check_stack_overflow : nat -> bool).

Lemma sticky_disjunction n : forall depth b, sticky (re_parse_disjunction env fuel lre_check_stack_overflow n depth b).
Proof.
  induction n as [|n IH]; intros depth b; cbn [re_parse_disjunction]; [apply sticky_lift|].
  apply sticky_if; [apply sticky_fail|]. cbv zeta.
  assert (Ha : sticky (re_parse_alternative env fuel (re_parse_disjunction env fuel lre_check_stack_overflow n (S depth)) b))
    by (apply sticky_alternative, IH).
  apply sticky_bind; [unfold code_size; sticky_solve|]. intros start. apply sticky_bind; [done|]. intros ?.
  by apply sticky_more_alternatives.
Qed.

Lemma wp_disjunction n : forall depth b s, good s ->
  wp (re_parse_disjunction env fuel lre_check_stack_overflow n depth b) s (fun _ s' => grows s s').
Proof using Hheap.
  induction n as [|n IH]; intros depth b s Hg; cbn [re_parse_disjunction]; [by apply wp_lift|].
  destruct (lre_check_stack_overflow depth); [apply wp_fail|]. cbv zeta.
  set (rec := re_parse_disjunction env fuel lre_check_stack_overflow n (S depth)).
  assert (Hrec_sticky : forall b, sticky (rec b)) by (intros; apply sticky_disjunction).
  assert (Ha : sticky (re_parse_alternative env fuel rec b)) by (by apply sticky_alternative).
  assert (Hw : forall s, good s -> wp (re_parse_alternative env fuel rec b) s (fun _ s' => grows s s')).
  { intros s1 Hg1. apply wp_alternative; [done| |done]. intros b1 s2 Hg2. by apply IH. }
  apply wp_bind; [intros; apply sticky_bind; [done|]; intros; by apply sticky_more_alternatives|].
  apply wp_code_size; [done|]. intros _. rewrite s32_len by done.
  eapply wp_seq; [by apply Hw|intros; by apply sticky_more_alternatives|]. intros ? s1 Hg1 G1.
  eapply wp_mono; [apply (wp_more_alternatives _ Ha Hw (code s) s); [done|]|]; [exact G1|].
  intros ? s2 _ Hx. exact Hx.
Qed.

(** ** The compiler *)

(** Compiled code: the header, a block, the final [REOP_match]. *)
Definition compiled (s : REParseState) (hdr : list Z) (k : Z) (l rest : list Z) : Prop :=
  zlen hdr = RE_HEADER_LEN /\ block (cc s) k l /\ code s = hdr ++ (l ++ [reop_code REOP_match]) ++ rest.

Hint Resolve sticky_disjunction : sticky.

Lemma wp_prefix (b : bool) s : good s ->
  wp (if b then
        pbind (re_emit_op_u32 REOP_split_goto_first (1 + 5)) (fun _ => pbind (re_emit_op REOP_any) (fun _ =>
        pbind (re_emit_op_u32 REOP_goto (u32 (- (5 + 1 + 5)))) (fun _ => pret tt)))
      else pret tt) s (fun _ s' => grows s s').
Proof using Hheap.
  intros Hg. destruct b; [|apply wp_pret; [done|by apply grows_same]].
  eapply wp_seq; [by apply wp_op32|intros; sticky_solve|]. intros ? s1 Hg1 [_ A1].
  eapply wp_seq; [by apply wp_op|intros; sticky_solve|]. intros ? s2 Hg2 A2.
  eapply wp_seq; [by apply wp_op32|intros; sticky_solve|]. intros ? s3 Hg3 [_ A3]. apply wp_pret; [done|].
  refine (grows_block s s3 0 _ (appended_trans _ _ _ _ _ A1 (appended_trans _ _ _ _ _ A2 A3)) _).
  apply (bl_star (cc s) REOP_split_goto_first 0 [reop_code REOP_any]); [by left|].
  apply (bl_straight _ REOP_any []). apply st_char. constructor.
Qed.

Lemma wp_compile_body depth_left re_flags s : good s -> code s = [] ->
  wp (compile_body env fuel lre_check_stack_overflow depth_left re_flags) s
    (fun _ s' => exists hdr k l, compiled s' hdr k l []).
Proof using Hheap.
  intros Hg Hcode. unfold compile_body.
  eapply wp_seq; [by apply wp_putc|intros; sticky_solve|]. intros ? s1 Hg1 A1.
  eapply wp_seq; [by apply wp_putc|intros; sticky_solve|]. intros ? s2 Hg2 A2.
  eapply wp_seq; [by apply wp_putc|intros; sticky_solve|]. intros ? s3 Hg3 A3.
  eapply wp_seq; [by apply wp_put32|intros; sticky_solve|]. intros ? s4 Hg4 A4.
  pose proof (appended_trans _ _ _ _ _ A1 (appended_trans _ _ _ _ _ A2 (appended_trans _ _ _ _ _ A3 A4))) as [E4 C4].
  clear A1 A2 A3 A4. rewrite Hcode in E4. cbn [app] in E4.
  set (hdr := u8 re_flags :: _) in E4. assert (Hhdr : zlen hdr = RE_HEADER_LEN) by done. clearbody hdr.
  eapply wp_seq; [by apply wp_prefix|intros; sticky_solve|]. intros ? s5 Hg5 G5.
  eapply wp_seq; [by apply wp_op8|intros; sticky_solve|]. intros ? s6 Hg6 A6.
  eapply wp_seq; [by apply wp_disjunction|intros; sticky_solve|]. intros ? s7 Hg7 G7.
  eapply wp_seq; [by apply wp_op8|intros; sticky_solve|]. intros ? s8 Hg8 A8.
  eapply wp_seq; [by apply wp_op|intros; sticky_solve|]. intros ? s9 Hg9 [E9 C9].
  next_quiet. intros ? s10 Hg10 S10. next_quiet. intros ? s11 Hg11 S11.
  assert (G : grows s4 s8).
  { apply (grows_trans _ s5); [done|]. apply (grows_trans _ s6).
    { apply (grows_straight _ _ _ _ A6), st_save; [by left|]. change (u8 0) with 0. destruct Hg5. lia. }
    apply (grows_trans _ s7); [done|]. apply (grows_straight _ _ _ _ A8), st_save; [by right|]. change (u8 0) with 0. destruct Hg7. lia. }
  destruct G as (C8 & k & l & Hb & E8). destruct S10 as [E10 C10]. destruct S11 as [E11 C11].
  assert (Hdone : forall s12, same s11 s12 -> compiled s12 hdr k l []).
  { intros s12 [E12 C12]. split; [done|]. split; [by replace (cc s12) with (cc s8) by congruence|].
    rewrite E12, E11, E10, E9, E8, E4, app_nil_r. by rewrite <- app_assoc. }
  destruct (negb _); [apply wp_fail|].
  eapply wp_mono; [by apply wp_quiet; [apply quiet_code_check|]|]. intros ? s12 _ S12. exists hdr, k, l. by apply Hdone.
Qed.

Lemma compute_stack_size_bound b n r : compute_stack_size b n = Ret r -> r <= STACK_SIZE_MAX.
Proof.
  unfold compute_stack_size. intros E.
  refine (loop_inv _ (fun st : Z * Z * Z => st.2 <= STACK_SIZE_MAX) (fun r => r <= STACK_SIZE_MAX) _ _ _ _ _ E); [|by cbn].
  intros [[p ss] mx] x Hmx Ex. cbn [snd] in Hmx. destruct (p <? _); [|by injection Ex as <-].
  destruct (aget _ _) as [c| |]; try done. cbn [mbind outcome_bind] in Ex. destruct (reop_of c) as [op|]; [|done].
  destruct (c_assert (_ <=? _)); try done. cbn [mbind outcome_bind] in Ex.
  destruct (instr_len _ _ _) as [len| |]; try done. cbn [mbind outcome_bind] in Ex.
  assert (Hpush : forall y : Z * Z * Z + Z, (if ss + 1 >? mx then if ss + 1 >? STACK_SIZE_MAX then inr (-1) else inl (p + len, ss + 1, ss + 1)
      else inl (p + len, ss + 1, mx)) = y -> match y with inl s' => s'.2 <= STACK_SIZE_MAX | inr r => r <= STACK_SIZE_MAX end).
  { intros y <-. destruct (_ >? mx); [|done]. destruct (Z.gtb_spec (ss + 1) STACK_SIZE_MAX); [done|]. cbn. lia. }
  destruct op; cbv zeta in Ex; try (by injection Ex as <-); try (injection Ex as Ey; by apply Hpush);
    (destruct (c_assert (ss >? 0)); [|done|done]; by injection Ex as <-).
Qed.

(** The header of a bytecode with [c] captures and [st] stack entries. *)
Definition header (hdr : list Z) (c st : Z) : Prop :=
  exists f b3 b4 b5 b6, hdr = [f; c; st; b3; b4; b5; b6].

Lemma wp_at {A} (f : REParseState -> parser A) s Q : wp (f s) s Q -> wp (fun s => f s s) s Q.
Proof. done. Qed.

Lemma wp_compile_sizes s hdr k l : good s -> compiled s hdr k l [] ->
  wp compile_sizes s (fun _ s' => exists hdr', header hdr' (cc s') k /\ 0 <= k <= STACK_SIZE_MAX /\ compiled s' hdr' k l []).
Proof.
  intros Hg (Hhdr & Hb & Hcode). unfold compile_sizes. pose proof (code_len s Hg) as Hl.
  rewrite app_nil_r in Hcode. rewrite Hcode, !zlen_app, Hhdr in Hl. change (zlen [reop_code REOP_match]) with 1 in Hl.
  apply (wp_seq _ _ _ (fun r s' => s' = s /\ (0 <= r -> r = k /\ r <= STACK_SIZE_MAX))).
  { apply (wp_at (fun s => lift (compute_stack_size (db_buf (byte_code s)) (db_size (byte_code s))))).
    apply wp_lift; [done|]. intros r Er. split; [done|]. intros Hr. split; [|by eapply compute_stack_size_bound].
    destruct (buf_split _ (g_buf _ Hg)) as [room Eb]. unfold code in Hcode. rewrite Hcode, <- app_assoc in Eb.
    assert (Hat : at_ (db_buf (byte_code s)) RE_HEADER_LEN (l ++ [reop_code REOP_match])) by (by exists hdr, room).
    apply (block_stack_size (cc s) k l (db_buf (byte_code s)) (db_size (byte_code s)) r Hb Hat); [lia|exact Er|exact Hr]. }
  { intros; unfold re_parse_error, code_size; sticky_solve. }
  intros r s1 Hg1 [-> Hr]. destruct (Z.ltb_spec r 0); [apply wp_fail|]. destruct (Hr ltac:(lia)) as [-> Hk]. unfold code_size.
  apply wp_bind; [intros; sticky_solve|]. apply wp_gets; [done|]. intros _.
  destruct hdr as [|f [|b1 [|b2 [|b3 [|b4 [|b5 [|b6 [|? ?]]]]]]]]; try (unfold zlen, RE_HEADER_LEN in Hhdr; cbn [length] in Hhdr; lia).
  set (tl := l ++ [reop_code REOP_match]) in *.
  eapply wp_seq; [by apply (wp_code_set _ _ s [f] b1 ([b2; b3; b4; b5; b6] ++ tl))|intros; sticky_solve|]. intros ? s2 Hg2 [E2 C2].
  eapply wp_seq; [by apply (wp_code_set _ _ s2 [f; u8 (cc s)] b2 ([b3; b4; b5; b6] ++ tl))|intros; sticky_solve|].
  intros ? s3 Hg3 [E3 C3]. apply wp_bind; [intros; sticky_solve|]. apply wp_code_size; [done|]. intros _.
  eapply wp_mono; [by apply (wp_code_put _ _ s3 [f; u8 (cc s); u8 k] [b3; b4; b5; b6] tl)|]. intros ? s4 _ [E4 C4].
  pose proof (g_cc _ Hg). apply block_nonneg in Hb as Hk0. unfold STACK_SIZE_MAX in *. rewrite !wrap_small in E4 by lia.
  assert (Hcc : cc s4 = cc s) by congruence. set (v := u32 _) in E4.
  exists ([f; cc s; k] ++ le_split 4 v). rewrite Hcc. split; [|split; [done|]].
  - exists f. do 4 eexists. reflexivity.
  - split; [done|]. split; [by rewrite Hcc|]. by rewrite E4, app_nil_r, <- app_assoc.
Qed.

(** Appending the names: all of them, or none if the allocator refuses. *)
Lemma put_names b data r b' : buf_good b -> Forall is_byte data -> zlen data <= 2 ^ 62 -> dbuf_put b data = Ret (r, b') ->
  buf_good b' /\ (dbuf_data b' = dbuf_data b ++ data \/ dbuf_data b' = dbuf_data b).
Proof using Hheap.
  intros Hb Hd Hl E. destruct (db_error b') eqn:He.
  2:{ destruct (put_good b data r b' Hb Hl Hd E He) as (_ & Hb' & Hdata). auto. }
  pose proof Hb as [Hwf Hm]. pose proof (zlen_nonneg data).
  pose proof (dbuf_grow_spec b (zlen data) Hwf ltac:(unfold DBUF_MAX; lia) ltac:(unfold DBUF_MAX; lia)) as G.
  unfold dbuf_put in E. destruct (dbuf_grow b (zlen data)) as [r1 b1] eqn:Eg.
  destruct G as (Hwf1 & Hd1 & Hs1 & H63 & [(-> & Hroom & He1)|(-> & He1 & Hbuf & _)]).
  - rewrite Z.eqb_refl in E. cbn [negb] in E. rewrite <- Hs1 in Hroom.
    destruct (dbuf_append_room b1 data Hwf1 Hd Hroom ltac:(lia)) as (buf & Ew & Hwf' & Hd'). rewrite Ew in E.
    injection E as <- <-. rewrite Hd', Hd1. split; [|by left]. split; [done|]. cbn.
    unfold dbuf_grow, dbuf_realloc in Eg. destruct (u64 _ >? db_allocated_size b); [|by simplify_eq].
    destruct (db_error b); [done|].
    match type of Eg with context [realloc _ _ ?k] => set (sz := k) in Eg end. unfold realloc in Eg.
    destruct (heap_request (db_opaque b) sz) eqn:Er; simplify_eq.
  - injection E as <- <-. split; [|by right]. split; [done|].
    pose proof (wf_alloc _ Hwf1) as Ha1. rewrite Hbuf, (wf_alloc _ Hwf) in Ha1. lia.
Qed.

Lemma wf_is_byte b : buf_good b -> Forall is_byte (dbuf_data b).
Proof. intros [[_ _ Hb] _]. by apply Forall_take. Qed.

(** The result of the compiler. *)
Definition final (s : REParseState) (hdr : list Z) (k : Z) (l rest : list Z) : Prop :=
  buf_good (byte_code s) /\ 1 <= cc s <= 255 /\ header hdr (cc s) k /\ compiled s hdr k l rest.

Lemma names_final s s' hdr k l : good s -> header hdr (cc s) k -> compiled s hdr k l [] ->
  compile_names s = Ret (POk tt s') -> exists hdr' rest, final s' hdr' k l rest.
Proof using Hheap.
  intros Hg Hh (Hhdr & Hb & Hcode) E. unfold compile_names, pbind, gets in E. cbn [mbind outcome_bind mret outcome_ret] in E.
  destruct (_ >? _).
  2:{ injection E as <-. exists hdr, []. split; [apply Hg|]. split; [apply Hg|]. done. }
  unfold lift at 1 in E. destruct (aread _ _ _) as [data| |] eqn:Er; try done.
  destruct (g_names _ Hg) as [Hnb Hnl]. pose proof (aread_len _ _ _ _ Er) as (_ & Hlen0 & Hlen).
  assert (Hbytes : Forall is_byte data) by (eapply Forall_aread; [exact Hnb|exact Er]).
  assert (Hdl : zlen data <= 2 ^ 62) by (pose proof (aread_len _ _ _ _ Er); lia).
  cbn [lift mbind outcome_bind mret outcome_ret] in E. unfold emit, on_code, pbind in E.
  destruct (dbuf_put (byte_code s) data) as [[r b]| |] eqn:Ep; try done.
  destruct (put_names _ _ _ _ (g_buf _ Hg) Hbytes Hdl Ep) as [Hb1 Hd1].
  cbn [lift mbind outcome_bind mret outcome_ret set_byte_code pret fst snd byte_code] in E.
  destruct (aget (db_buf b) RE_HEADER_FLAGS) as [flags| |]; try done.
  unfold code_set in E. cbn [mbind outcome_bind mret outcome_ret byte_code] in E. destruct (aset _ _ _) as [buf| |] eqn:Ea; try done.
  injection E as <-. destruct Hh as (f & b3 & b4 & b5 & b6 & ->).
  assert (Hx : exists rest, dbuf_data b = [f; cc s; k; b3; b4; b5; b6] ++ (l ++ [reop_code REOP_match]) ++ rest).
  { destruct Hd1 as [-> | ->]; [exists data|exists []]; unfold code in Hcode; rewrite Hcode; [|done]. by rewrite app_nil_r, <- !app_assoc. }
  destruct Hx as [rest Hx]. destruct (buf_split b Hb1) as [room Eb].
  assert (Ew : awrite (db_buf b) (zlen (@nil Z)) [u8 (flags .| LRE_FLAG_NAMED_GROUPS)] = Ret buf).
  { rewrite Eb, Hx in *. cbn [app] in *. rewrite <- Ea. apply (awrite_at [] [f]); done. }
  destruct (set_data b [] [f] ([cc s; k; b3; b4; b5; b6] ++ (l ++ [reop_code REOP_match]) ++ rest)
    [u8 (flags .| LRE_FLAG_NAMED_GROUPS)] buf Hb1 Hx) as [Hb2 Hd2];
    [done| |exact Ew|]; [constructor; [|constructor]; apply (wrap_range 8); lia|].
  exists [u8 (flags .| LRE_FLAG_NAMED_GROUPS); cc s; k; b3; b4; b5; b6], rest. split; [exact Hb2|]. split; [apply Hg|].
  split; [by do 5 eexists|]. split; [done|]. split; [exact Hb|exact Hd2].
Qed.

Lemma final_well_typed s hdr k l rest : final s hdr k l rest -> 0 <= k -> well_typed (code s).
Proof.
  intros (Hg & Hcc & (f & b3 & b4 & b5 & b6 & ->) & (Hhdr & Hb & Hcode)) Hk. split; [by apply wf_is_byte|].
  assert (Hat : at_ (code s) RE_HEADER_LEN (l ++ [reop_code REOP_match])).
  { exists [f; cc s; k; b3; b4; b5; b6], rest. by rewrite Hcode. }
  apply at_app in Hat as [Hl Hm].
  assert (Hsmall : zlen (code s) < 2 ^ 30).
  { unfold code. rewrite dbuf_data_length by apply Hg. apply buf_good_size in Hg. lia. }
  destruct (block_typed (code s) (cc s) k k l Hb Hsmall RE_HEADER_LEN 0 Hl ltac:(lia) ltac:(lia)) as (D & HD & Htyped).
  exists f, (cc s), k, D. rewrite Hcode. split; [done|]. split; [done|]. split; [done|]. rewrite <- Hcode. split; [|done].
  intros pc d Hpd. destruct (Htyped pc d Hpd) as [[-> ->]|Ht]; [|exact Ht].
  exact (match_at (code s) (cc s) k (RE_HEADER_LEN + zlen l) D 0 Hm).
Qed.

(** [compile_body] ends with a check of the buffer, [compile_sizes] does not emit. *)
Lemma compile_body_checked depth_left re_flags s s' :
  compile_body env fuel lre_check_stack_overflow depth_left re_flags s = Ret (POk tt s') -> err s' = false.
Proof.
  assert (Hbind : forall A (x : parser A) (k : A -> parser unit), (forall a s, k a s = Ret (POk tt s') -> err s' = false) ->
    forall s, pbind x k s = Ret (POk tt s') -> err s' = false).
  { intros A x k Hk s1 E. unfold pbind in E. destruct (x s1) as [[a s2|]| |]; try done. by apply (Hk a s2). }
  revert s. unfold compile_body. repeat (apply Hbind; intros ?). intros s E.
  destruct (negb _); [done|]. unfold code_check, pbind, gets in E. cbn [mbind outcome_bind mret outcome_ret] in E.
  destruct (db_error (byte_code s)) eqn:He; [done|]. by injection E as <-.
Qed.

Lemma compile_sizes_err s s' : compile_sizes s = Ret (POk tt s') -> err s' = err s.
Proof.
  intros E. unfold compile_sizes, code_set, code_put_u32, code_size, gets, lift, pbind in E.
  destruct (compute_stack_size _ _) as [r| |]; try done. cbn [mbind outcome_bind mret outcome_ret] in E.
  destruct (r <? 0); [done|]. cbn [mbind outcome_bind mret outcome_ret] in E.
  destruct (aset _ _ _) as [b1| |]; try done. cbn [mbind outcome_bind mret outcome_ret set_byte_code byte_code] in E.
  destruct (aset _ _ _) as [b2| |]; try done. cbn [mbind outcome_bind mret outcome_ret set_byte_code byte_code] in E.
  destruct (put_u32 _ _ _) as [b3| |]; try done. by injection E as <-.
Qed.
End Typed.

Lemma compile_well_typed `{Realloc} fuel depth_left overflow buf buf_len re_flags opaque bc :
  heap_bounded -> lre_compile fuel depth_left overflow buf buf_len re_flags opaque = Ret (inl bc) -> well_typed bc.
Proof.
  intros Hheap E. unfold lre_compile in E. cbv zeta in E.
  match type of E with context [MkREParseState (dbuf_init2 opaque) 0 1 (-1) (-1) _] =>
    set (s0 := MkREParseState (dbuf_init2 opaque) 0 1 (-1) (-1) (dbuf_init2 opaque)) in E end.
  set (env := MkREEnv _ _ _ _ _) in E.
  assert (Hg0 : good s0) by (split; [split; [by constructor|done]|cbn; lia|done|split; [constructor|done]]).
  destruct (pbind _ _ s0) as [[[] s3|msg]| |] eqn:Ec; try done.
  assert (Hs3 : bc = dbuf_data (byte_code s3)).
  { cbn [mbind outcome_bind] in E. destruct (aread _ _ _) as [d| |] eqn:Er; try done. injection E as <-. unfold aread in Er.
    destruct (_ && _); [|done]. by injection Er as <-. }
  clear E. rewrite Hs3. change (well_typed (code s3)). unfold pbind at 1 in Ec.
  destruct (compile_body _ _ _ _ _ s0) as [[[] s1|msg]| |] eqn:Eb; try done. cbn [mbind outcome_bind] in Ec.
  unfold compile_header, pbind at 1 in Ec. destruct (compile_sizes s1) as [[[] s2|msg]| |] eqn:Es; try done.
  cbn [mbind outcome_bind] in Ec.
  assert (He1 : err s1 = false) by (by apply (compile_body_checked env fuel overflow depth_left re_flags s0)).
  destruct (wp_compile_body Hheap env fuel overflow depth_left re_flags s0 Hg0 eq_refl tt s1 Eb He1) as (Hg1 & hdr & k & l & Hc1).
  assert (He2 : err s2 = false) by (rewrite <- He1; by apply (compile_sizes_err s1)).
  destruct (wp_compile_sizes s1 hdr k l Hg1 Hc1 tt s2 Es He2) as (Hg2 & hdr' & Hh & Hk & Hc2).
  destruct (names_final Hheap s2 s3 hdr' k l Hg2 Hh Hc2 Ec) as (hdr'' & rest & Hf).
  by apply (final_well_typed s3 hdr'' k l rest); [done|lia].
Qed.

(** C17: Whatever [lre_compile] returns is well typed: every jump of the bytecode leads to an instruction, the
    operands stay inside, captures and stack depths keep to the bounds of the header.  The allocator never
    grants 2^30 bytes; whatever else it does, also refusing in the middle, no other bytecode comes out. *)
Theorem lre_compile_typed `{Realloc} fuel depth_left overflow buf buf_len re_flags opaque bc :
  heap_bounded -> lre_compile fuel depth_left overflow buf buf_len re_flags opaque = Ret (inl bc) -> well_typed bc.
Proof. apply compile_well_typed. Qed.

(** The pattern (a|b)*c, zero-terminated. *)
Definition sample_pattern : list Z := [40; 97; 124; 98; 41; 42; 99; 0].

Lemma limited_heap_bounded : @heap_bounded (limited_heap 1000).
Proof. intros h n Hn. cbn. destruct (Z.leb_spec n 1000); [lia|done]. Qed.

Lemma lre_compile_typed_witness :
  @heap_bounded (limited_heap 1000) /\
  @lre_compile (limited_heap 1000) 10 10 (fun _ => false) sample_pattern 7 0 tt = Ret (inl sample_code) /\
  well_typed sample_code.
Proof.
  split; [exact limited_heap_bounded|]. split; [vm_compute; reflexivity|].
  apply (@lre_compile_typed (limited_heap 1000) 10 10 (fun _ => false) sample_pattern 7 0 tt sample_code limited_heap_bounded).
  vm_compute. reflexivity.
Defined.

(** C1: End to end: on the bytecode of any regular expression the matcher never reads outside the bytecode, the
    text, the captures or its stack, and the captures it reports are positions of the text. *)
Theorem lre_compile_exec_safe `{Realloc} fuel depth_left overflow buf buf_len re_flags opaque bc captures text cindex type opaque' :
  heap_bounded -> lre_compile fuel depth_left overflow buf buf_len re_flags opaque = Ret (inl bc) ->
  lre_get_capture_count bc = Ret captures -> Forall (Z.le 0) text -> 0 <= cindex <= zlen text ->
  forall fuel', safe (lre_exec fuel' bc text cindex type opaque') (fun '(r, capture) =>
    r ∈ [-1; 0; 1] /\ zlen capture = 2 * captures /\ Forall (capture_in (zlen text)) capture).
Proof. intros Hheap E. apply well_typed_exec. by apply compile_well_typed in E. Qed.

Lemma lre_compile_exec_safe_witness :
  @lre_compile (limited_heap 1000) 10 10 (fun _ => false) sample_pattern 7 0 tt = Ret (inl sample_code) /\
  @lre_exec (limited_heap 1000) 100 sample_code [97; 98; 99] 0 0 tt = Ret (1, [Some 0; Some 3; Some 1; Some 2]) /\
  forall fuel', safe (@lre_exec (limited_heap 1000) fuel' sample_code [97; 98; 99] 0 0 tt) (fun '(r, capture) =>
    r ∈ [-1; 0; 1] /\ zlen capture = 2 * 2 /\ Forall (capture_in 3) capture).
Proof.
  split; [vm_compute; reflexivity|]. split; [vm_compute; reflexivity|].
  apply (@lre_compile_exec_safe (limited_heap 1000) 10 10 (fun _ => false) sample_pattern 7 0 tt sample_code 2
    [97; 98; 99] 0 0 tt limited_heap_bounded); [vm_compute; reflexivity|reflexivity|repeat constructor; lia|done].
Defined.

(** ** Defects *)

(** When the allocator refuses the operand of the [goto] of an alternative, the patch of that operand writes
    behind the allocated code (pattern aa|b). *)
Fact lre_compile_overflow :
  @lre_compile (limited_heap 45) 10 10 (fun _ => false) [97; 97; 124; 98; 0] 4 0 tt = Undef.
Proof. vm_compute. reflexivity. Qed.

(** When it refuses the group names (pattern with one group called n), the bytecode claims to have them and
    [lre_get_groupnames] points behind its end. *)
Definition lost_names_code : list Z :=
  [128; 2; 0; 23; 0; 0; 0; 8; 6; 0; 0; 0; 4; 7; 245; 255; 255; 255; 11; 0; 11; 1; 1; 97; 0; 12; 1; 12; 0; 10].
Fact lre_compile_lost_names :
  @lre_compile (limited_heap 33) 10 10 (fun _ => false) [40; 63; 60; 110; 97; 109; 101; 62; 97; 41; 0] 10 0 tt =
    Ret (inl lost_names_code) /\
  lre_get_groupnames lost_names_code = Ret (Some 30) /\ zlen lost_names_code = 30.
Proof. vm_compute. done. Qed.

(** A named back reference before its group: [re_parse_captures] skips the character behind a named group with another name,
    here a parenthesis, and counts one group less. The lookbehind (?<=\k<c>(?<a>(b))(?<c>x)) then fails on xbx and
    succeeds on bbx. *)
Fact named_back_reference_misplaced :
  exec 0 "(?<=\k<c>(?<a>(b))(?<c>x))" "xbx" = Ret (0, repeat None 8) /\
  exec 0 "(?<=\k<c>(?<a>(b))(?<c>x))" "bbx" =
    Ret (1, [Some 3; Some 3; Some 1; Some 2; Some 1; Some 2; Some 2; Some 3]).
Proof. vm_compute. done. Qed.
