(* ===== verification/RegexpRange.v ===== *)
(** * Character classes: what the compiled ranges match

    [class_instr_matches]: the instruction emitted for the points of a class accepts a
    character exactly when it is in the class, in the 16-bit and in the 32-bit form, the class that reaches
    to infinity included.  [re_emit_range_matches] joins it with the compiler. *)

From stdpp Require Import sorting.
From S2P Require Import Prelude Cutils DynBuf CharRange UnicodeCase RegexpExec.
From S2P Require Import RegexpLex RegexpParse RegexpText RegexpSafe RegexpBlock RegexpTyped.

(** The points as intervals. *)
Definition flatten (ps : list (Z * Z)) : list Z := mjoin (map (fun '(a, b) => [a; b]) ps).

Lemma even_flatten pts : even_len pts -> exists ps, pts = flatten ps.
Proof.
  assert (Hl : forall n pts, (length pts <= n)%nat -> even_len pts -> exists ps, pts = flatten ps).
  { clear pts. induction n as [|n IH]; intros [|a [|b pts]] Hn He; cbn [length] in Hn;
      try lia; try discriminate He; try (by exists []).
    apply even_len_cons2 in He. destruct (IH pts ltac:(lia) He) as [ps ->]. by exists ((a, b) :: ps). }
  by apply (Hl (length pts)).
Qed.

Lemma flatten_app ps qs : flatten (ps ++ qs) = flatten ps ++ flatten qs.
Proof. unfold flatten. by rewrite map_app, join_app. Qed.

Lemma flatten_len ps : zlen (flatten ps) = 2 * zlen ps.
Proof.
  induction ps as [|[a b] ps IH]; [done|]. change (flatten ((a, b) :: ps)) with (a :: b :: flatten ps).
  rewrite !zlen_cons, IH. lia.
Qed.

Lemma in_flatten ps c : in_ranges (flatten ps) c = true <-> exists k a b, ps !! k = Some (a, b) /\ a <= c < b.
Proof.
  induction ps as [|[a b] ps IH].
  - split; [done|]. by intros (k & a & b & E & _).
  - change (flatten ((a, b) :: ps)) with (a :: b :: flatten ps). cbn [in_ranges].
    rewrite orb_true_iff, andb_true_iff, Z.leb_le, Z.ltb_lt, IH. split.
    + intros [Hc|(k & a' & b' & E & Hc)]; [by exists 0%nat, a, b|by exists (S k), a', b'].
    + intros ([|k] & a' & b' & E & Hc); cbn in E; [left; by injection E as -> ->|right; eauto].
Qed.

(** The intervals of sorted points are disjoint and in order. *)
Lemma sorted_pair ps k a b : sorted_lt (flatten ps) -> ps !! k = Some (a, b) -> a < b.
Proof.
  intros Hs Hk. apply list_elem_of_split_length in Hk as (l1 & l2 & -> & _). rewrite flatten_app in Hs.
  apply StronglySorted_app_1_r in Hs. change (flatten ((a, b) :: l2)) with (a :: b :: flatten l2) in Hs.
  apply StronglySorted_inv in Hs as [_ Hf]. by apply list.Forall_cons in Hf as [? _].
Qed.

Lemma sorted_pairs ps i j a b a' b' : sorted_lt (flatten ps) -> ps !! i = Some (a, b) -> ps !! j = Some (a', b') ->
  (i < j)%nat -> b < a'.
Proof.
  intros Hs Hi Hj Hlt. apply list_elem_of_split_length in Hi as (l1 & l2 & -> & ->). rewrite flatten_app in Hs.
  apply StronglySorted_app_1_r in Hs. change (flatten ((a, b) :: l2)) with (a :: b :: flatten l2) in Hs.
  apply StronglySorted_inv in Hs as [Hs _]. apply StronglySorted_inv in Hs as [_ Hf].
  rewrite lookup_app_r in Hj by lia. destruct (j - length l1)%nat as [|m] eqn:Em; [lia|]. cbn in Hj.
  apply list_elem_of_split_length in Hj as (l3 & l4 & -> & _). rewrite flatten_app, Forall_app in Hf. destruct Hf as [_ Hf].
  change (flatten ((a', b') :: l4)) with (a' :: b' :: flatten l4) in Hf. by apply list.Forall_cons in Hf as [? _].
Qed.

(** ** The bytes of the intervals *)

Definition high16 (b : Z) : Z := let high := u32 (b - 1) in if high =? UINT32_MAX - 1 then 0xffff else high.

Lemma range16_app ps qs : range16_bytes (flatten (ps ++ qs)) = range16_bytes (flatten ps) ++ range16_bytes (flatten qs).
Proof.
  induction ps as [|[a b] ps IH]; [done|]. rewrite <- app_comm_cons.
  change (flatten ((a, b) :: ps ++ qs)) with (a :: b :: flatten (ps ++ qs)).
  change (flatten ((a, b) :: ps)) with (a :: b :: flatten ps). cbn [range16_bytes]. by rewrite IH, <- !app_assoc.
Qed.
Lemma range32_app ps qs : range32_bytes (flatten (ps ++ qs)) = range32_bytes (flatten ps) ++ range32_bytes (flatten qs).
Proof.
  induction ps as [|[a b] ps IH]; [done|]. rewrite <- app_comm_cons.
  change (flatten ((a, b) :: ps ++ qs)) with (a :: b :: flatten (ps ++ qs)).
  change (flatten ((a, b) :: ps)) with (a :: b :: flatten ps). cbn [range32_bytes]. by rewrite IH, <- !app_assoc.
Qed.

Lemma half_flatten ps : zlen (flatten ps) / 2 = zlen ps.
Proof. rewrite flatten_len. rewrite Z.mul_comm. by apply Z.div_mul. Qed.

Lemma range16_read code pc ps k a b : at_ code pc (range16_bytes (flatten ps)) -> ps !! k = Some (a, b) ->
  get_u16 code (pc + 4 * Z.of_nat k) = Ret (u16 a) /\ get_u16 code (pc + 4 * Z.of_nat k + 2) = Ret (u16 (high16 b)).
Proof.
  intros Ha Hk. apply list_elem_of_split_length in Hk as (l1 & l2 & -> & ->).
  rewrite range16_app in Ha. apply at_app in Ha as [_ Ha]. rewrite range16_len, half_flatten in Ha.
  change (flatten ((a, b) :: l2)) with (a :: b :: flatten l2) in Ha. cbn [range16_bytes] in Ha.
  apply at_app in Ha as [H1 Ha]. apply at_app in Ha as [H2 _]. rewrite zlen_le_split in H2.
  split; [by apply (at_u16 _ _ _ H1)|by apply (at_u16 _ _ _ H2)].
Qed.
Lemma range32_read code pc ps k a b : at_ code pc (range32_bytes (flatten ps)) -> ps !! k = Some (a, b) ->
  get_u32 code (pc + 8 * Z.of_nat k) = Ret (u32 a) /\ get_u32 code (pc + 8 * Z.of_nat k + 4) = Ret (u32 (u32 (b - 1))).
Proof.
  intros Ha Hk. apply list_elem_of_split_length in Hk as (l1 & l2 & -> & ->).
  rewrite range32_app in Ha. apply at_app in Ha as [_ Ha]. rewrite range32_len, half_flatten in Ha.
  change (flatten ((a, b) :: l2)) with (a :: b :: flatten l2) in Ha. cbn [range32_bytes] in Ha.
  apply at_app in Ha as [H1 Ha]. apply at_app in Ha as [H2 _]. rewrite zlen_le_split in H2.
  split; [by apply (at_u32 _ _ _ H1)|by apply (at_u32 _ _ _ H2)].
Qed.

(** ** Matching *)

Section Match.
Context (code : list Z) (ps : list (Z * Z)) (pc c : Z).
Abbreviation n := (zlen ps).
Hypothesis Hn : 1 <= n < 2 ^ 16.
Hypothesis Hsorted : sorted_lt (flatten ps).
Hypothesis Hpts : forall x, x ∈ flatten ps -> 0 <= x <= UINT32_MAX.
Hypothesis Hc : 0 <= c < UINT32_MAX.

Lemma point_range k a b : ps !! k = Some (a, b) -> 0 <= a < b /\ b <= UINT32_MAX.
Proof using Hc Hn Hsorted Hpts.
  intros Hk. pose proof (sorted_pair ps k a b Hsorted Hk).
  assert (Hin : a ∈ flatten ps /\ b ∈ flatten ps).
  { apply list_elem_of_split_length in Hk as (l1 & l2 & -> & _). rewrite flatten_app, !elem_of_app.
    change (flatten ((a, b) :: l2)) with (a :: b :: flatten l2). rewrite !elem_of_cons. tauto. }
  destruct Hin as [Ha Hb]. apply Hpts in Ha, Hb. lia.
Qed.

Lemma nth_pair k : 0 <= k < n -> exists a b, ps !! Z.to_nat k = Some (a, b).
Proof using.
  intros Hk. destruct (lookup_lt_is_Some_2 ps (Z.to_nat k)) as [[a b] E]; [unfold zlen in Hk; lia|]. eauto.
Qed.

(** The search finds the interval of [c], if any; [hi] is the last element of an interval as stored. *)
Lemma search_intervals get w (hi : Z -> Z) :
  0 <= w -> (forall k a b, ps !! k = Some (a, b) -> get (Z.of_nat k * (2 * w)) = Ret a /\ get (Z.of_nat k * (2 * w) + w) = Ret (hi b)) ->
  (forall k a b, ps !! k = Some (a, b) -> a <= hi b < b /\ (a <= c < b -> c <= hi b)) ->
  (forall a b, ps !! 0%nat = Some (a, b) -> a <= c) ->
  range_search get w n c = Ret (in_ranges (flatten ps) c).
Proof using Hc Hn Hsorted Hpts.
  intros Hw Hget Hhi Hlow.
  set (lo := fun k => match ps !! Z.to_nat k with Some (a, _) => a | None => 0 end).
  set (up := fun k => match ps !! Z.to_nat k with Some (_, b) => hi b | None => 0 end).
  pose proof (range_search_spec get w n c lo up Hw Hn) as Hy.
  apply yields_Ret in Hy as (b & -> & H1 & H2).
  - f_equal. apply eq_bool_prop_intro. rewrite !Is_true_true, in_flatten. split.
    + intros Hb. destruct (H1 Hb) as (k & Hk & Hin). destruct (nth_pair k Hk) as (a & e & E).
      exists (Z.to_nat k), a, e. split; [done|]. unfold lo, up in Hin. rewrite E in Hin.
      destruct (Hhi _ _ _ E). lia.
    + intros (k & a & e & E & Hin). apply H2.
      * intros i j Hi Hij Hj. destruct (nth_pair i ltac:(lia)) as (a1 & e1 & E1). destruct (nth_pair j ltac:(lia)) as (a2 & e2 & E2).
        unfold lo, up. rewrite E1, E2. pose proof (sorted_pairs ps _ _ _ _ _ _ Hsorted E1 E2 ltac:(lia)).
        destruct (Hhi _ _ _ E1) as [? _]. destruct (Hhi _ _ _ E2) as [? _]. lia.
      * exists (Z.of_nat k). pose proof (lookup_lt_Some _ _ _ E). split; [unfold zlen; lia|]. unfold lo, up. rewrite Nat2Z.id, E.
        destruct (Hhi _ _ _ E) as [? Hx]. split; [lia|by apply Hx].
  - intros k Hk. destruct (nth_pair k Hk) as (a & e & E). unfold lo, up. rewrite E.
    destruct (Hget _ _ _ E) as [G1 G2]. by rewrite Z2Nat.id in G1, G2 by lia.
  - unfold lo. change (Z.to_nat 0) with 0%nat. destruct (ps !! 0%nat) as [[a e]|] eqn:E; [by apply (Hlow a e)|]. lia.
Qed.

Lemma first_last : exists a b a' b', ps !! 0%nat = Some (a, b) /\ ps !! Z.to_nat (n - 1) = Some (a', b').
Proof using Hn.
  destruct (nth_pair 0) as (a & b & E1); [lia|]. destruct (nth_pair (n - 1)) as (a' & b' & E2); [lia|].
  exists a, b, a', b'. done.
Qed.

(** Below the first interval, or above the last, there is nothing. *)
Lemma below_first a b : ps !! 0%nat = Some (a, b) -> c < a -> in_ranges (flatten ps) c = false.
Proof using Hc Hn Hsorted Hpts.
  intros E Hlt. apply not_true_is_false. rewrite in_flatten. intros (k & a' & b' & E' & Hin).
  destruct k as [|k]; [rewrite E in E'; injection E' as -> ->; lia|].
  pose proof (sorted_pairs ps 0 (S k) _ _ _ _ Hsorted E E' ltac:(lia)). pose proof (point_range _ _ _ E). lia.
Qed.
Lemma above_last a b : ps !! Z.to_nat (n - 1) = Some (a, b) -> b <= c -> in_ranges (flatten ps) c = false.
Proof using Hc Hn Hsorted Hpts.
  intros E Hle. apply not_true_is_false. rewrite in_flatten. intros (k & a' & b' & E' & Hin).
  pose proof (lookup_lt_Some _ _ _ E') as Hk. destruct (decide (k = Z.to_nat (n - 1))) as [->|Hne];
    [rewrite E in E'; injection E' as -> ->; lia|].
  pose proof (sorted_pairs ps k (Z.to_nat (n - 1)) _ _ _ _ Hsorted E' E ltac:(unfold zlen in *; lia)).
  pose proof (point_range _ _ _ E). lia.
Qed.

Lemma range32_match_spec : at_ code pc (range32_bytes (flatten ps)) ->
  range32_match code pc n c = Ret (in_ranges (flatten ps) c).
Proof using Hc Hn Hsorted Hpts.
  intros Ha. destruct first_last as (a & b & a' & b' & E1 & E2).
  assert (Hread : forall k x y, ps !! k = Some (x, y) ->
    get_u32 code (pc + 8 * Z.of_nat k) = Ret x /\ get_u32 code (pc + 8 * Z.of_nat k + 4) = Ret (y - 1)).
  { intros k x y E. destruct (range32_read _ _ _ _ _ _ Ha E) as [-> ->]. destruct (point_range _ _ _ E). unfold UINT32_MAX in *.
    rewrite wrap_wrap by lia. by rewrite !wrap_small by lia. }
  unfold range32_match. destruct (Hread _ _ _ E1) as [R1 _]. rewrite Z.mul_0_r, Z.add_0_r in R1. rewrite R1. cbn [mbind outcome_bind].
  destruct (Z.ltb_spec c a) as [Hlt|Hge]; [by rewrite (below_first a b)|].
  rewrite (wrap_small 32 (n - 1)), (wrap_small 32) by lia.
  destruct (Hread _ _ _ E2) as [_ R2]. rewrite Z2Nat.id in R2 by lia.
  replace (pc + (n - 1) * 8 + 4) with (pc + 8 * (n - 1) + 4) by lia. rewrite R2. cbn [mbind outcome_bind].
  destruct (Z.gtb_spec c (b' - 1)); [rewrite (above_last a' b'); [done|done|lia]|].
  apply (search_intervals _ 4 (fun y => y - 1)); [lia| | |].
  - intros k x y E. destruct (Hread _ _ _ E) as [R3 R4]. split.
    + by replace (pc + Z.of_nat k * (2 * 4)) with (pc + 8 * Z.of_nat k) by lia.
    + by replace (pc + (Z.of_nat k * (2 * 4) + 4)) with (pc + 8 * Z.of_nat k + 4) by lia.
  - intros k x y E. pose proof (point_range _ _ _ E). split; lia.
  - intros x y E. rewrite E1 in E. by injection E as <- <-.
Qed.

(** In the 16-bit form the points fit, but for a last interval that reaches to infinity. *)
Definition fits16 : Prop := forall k x y, ps !! k = Some (x, y) -> x <= 0xffff /\ (y <= 0xffff \/ y = UINT32_MAX).

Lemma last_fits16 high : last_finite (flatten ps) high -> high <= 0xffff -> fits16.
Proof using Hc Hn Hsorted Hpts.
  intros (h & Eh & Ehigh) Hle. destruct first_last as (_ & _ & a' & b' & _ & E2).
  pose proof (list_elem_of_split_length _ _ _ E2) as (l1 & l2 & Ep & El).
  assert (l2 = []) as ->.
  { destruct l2 as [|q l2]; [done|]. apply (f_equal length) in Ep. rewrite length_app in Ep. cbn in Ep. unfold zlen in El. lia. }
  assert (Hlast : aget (flatten ps) (zlen (flatten ps) - 1) = Ret b' /\ aget (flatten ps) (zlen (flatten ps) - 2) = Ret a').
  { rewrite Ep, flatten_app. change (flatten [(a', b')]) with [a'; b']. rewrite zlen_app. change (zlen [a'; b']) with 2.
    replace (zlen (flatten l1) + 2 - 1) with (zlen (flatten l1 ++ [a'])) by (rewrite zlen_app; change (zlen [a']) with 1; lia).
    replace (zlen (flatten l1) + 2 - 2) with (zlen (flatten l1)) by lia.
    split; [|apply aget_middle]. rewrite (app_assoc _ [a'] [b']). apply aget_middle. }
  destruct Hlast as [Hl1 Hl2]. rewrite Hl1 in Eh. injection Eh as <-.
  assert (Hfin : a' <= 0xffff /\ (b' <= 0xffff \/ b' = UINT32_MAX)).
  { pose proof (point_range _ _ _ E2). destruct (Z.eqb_spec b' UINT32_MAX); [rewrite Hl2 in Ehigh|]; injection Ehigh as <-; lia. }
  intros k x y E. pose proof (lookup_lt_Some _ _ _ E) as Hk. destruct (decide (k = Z.to_nat (n - 1))) as [->|Hne].
  { rewrite E2 in E. by injection E as <- <-. }
  pose proof (sorted_pairs ps k (Z.to_nat (n - 1)) _ _ _ _ Hsorted E E2 ltac:(unfold zlen in *; lia)).
  pose proof (point_range _ _ _ E). lia.
Qed.

Lemma high16_value y : 0 < y <= UINT32_MAX -> high16 y = if y =? UINT32_MAX then 0xffff else y - 1.
Proof using.
  intros Hy. unfold high16, UINT32_MAX in *. cbv zeta. rewrite wrap_small by lia.
  destruct (Z.eqb_spec (y - 1) (4294967295 - 1)), (Z.eqb_spec y 4294967295); lia.
Qed.

Lemma range_match_spec : fits16 -> at_ code pc (range16_bytes (flatten ps)) ->
  range_match code pc n c = Ret (in_ranges (flatten ps) c).
Proof using Hc Hn Hsorted Hpts.
  intros Hfit Ha. destruct first_last as (a & b & a' & b' & E1 & E2).
  set (hi := fun y => if y =? UINT32_MAX then 0xffff else y - 1).
  assert (Hread : forall k x y, ps !! k = Some (x, y) ->
    get_u16 code (pc + 4 * Z.of_nat k) = Ret x /\ get_u16 code (pc + 4 * Z.of_nat k + 2) = Ret (hi y) /\ x <= hi y < y).
  { intros k x y E. destruct (range16_read _ _ _ _ _ _ Ha E) as [-> ->]. pose proof (point_range _ _ _ E).
    destruct (Hfit _ _ _ E). rewrite high16_value by lia. fold (hi y).
    assert (x <= hi y < y) by (unfold hi, UINT32_MAX in *; destruct (Z.eqb_spec y 4294967295); lia).
    assert (hi y <= 0xffff) by (unfold hi, UINT32_MAX in *; destruct (Z.eqb_spec y 4294967295); lia).
    by rewrite !wrap_small by lia. }
  unfold range_match. destruct (Hread _ _ _ E1) as (R1 & _ & _). rewrite Z.mul_0_r, Z.add_0_r in R1. rewrite R1. cbn [mbind outcome_bind].
  destruct (Z.ltb_spec c a) as [Hlt|Hge]; [by rewrite (below_first a b)|].
  rewrite (wrap_small 32 (n - 1)), (wrap_small 32) by lia.
  destruct (Hread _ _ _ E2) as (_ & R2 & Hb'). rewrite Z2Nat.id in R2 by lia.
  replace (pc + (n - 1) * 4 + 2) with (pc + 4 * (n - 1) + 2) by lia. rewrite R2. cbn [mbind outcome_bind].
  destruct (Hfit _ _ _ E2) as [Ha' Hfit'].
  destruct ((c >=? 0xffff) && (hi b' =? 0xffff)) eqn:Einf.
  { apply andb_true_iff in Einf as [Hcf Hhf%Z.eqb_eq]. rewrite Z.geb_le in Hcf.
    assert (b' = UINT32_MAX) as -> by (unfold hi, UINT32_MAX in *; destruct (Z.eqb_spec b' 4294967295); lia).
    f_equal. symmetry. apply in_flatten. exists (Z.to_nat (n - 1)), a', UINT32_MAX. split; [done|lia]. }
  assert (Hnot : b' = UINT32_MAX -> c < 0xffff).
  { intros ->. apply andb_false_iff in Einf as [Hx|Hx]; [rewrite Z.geb_leb in Hx; by apply Z.leb_gt in Hx|done]. }
  destruct (Z.gtb_spec c (hi b')).
  { rewrite (above_last a' b'); [done|done|]. unfold hi in *. destruct (Z.eqb_spec b' UINT32_MAX); lia. }
  apply (search_intervals _ 2 hi); [lia| | |].
  - intros k x y E. destruct (Hread _ _ _ E) as (R3 & R4 & _). split.
    + by replace (pc + Z.of_nat k * (2 * 2)) with (pc + 4 * Z.of_nat k) by lia.
    + by replace (pc + (Z.of_nat k * (2 * 2) + 2)) with (pc + 4 * Z.of_nat k + 2) by lia.
  - intros k x y E. destruct (Hread _ _ _ E) as (_ & _ & Hxy). split; [done|]. intros Hin. unfold hi in *.
    destruct (Z.eqb_spec y UINT32_MAX) as [->|]; [|lia].
    destruct (decide (k = Z.to_nat (n - 1))) as [->|Hne]; [rewrite E2 in E; injection E as -> ->; specialize (Hnot eq_refl); lia|].
    pose proof (lookup_lt_Some _ _ _ E) as Hk.
    pose proof (sorted_pairs ps k (Z.to_nat (n - 1)) _ _ _ _ Hsorted E E2 ltac:(unfold zlen in *; lia)).
    pose proof (point_range _ _ _ E2). lia.
  - intros x y E. rewrite E1 in E. by injection E as <- <-.
Qed.
End Match.

(** The instruction of a class, run on a text that is not at its end. *)
Lemma class_instr_matches `{Realloc} fuel rec s nr m pc cptr pts op args c0 c cptr' :
  cr_nf pts -> range_instr pts op args -> at_ (re_code s) pc args -> 0 <= c < UINT32_MAX ->
  cptr < cbuf_end s -> GET_CHAR (cbuf s) (cbuf_type s) cptr (cbuf_end s) = Ret (c0, cptr') -> canonicalize s c0 = Ret c ->
  exec_op fuel rec s nr m pc cptr op =
    if in_ranges pts c then Ret (inl (m, pc + zlen args, cptr')) else no_match s nr m.
Proof.
  intros [He Hs Hr] Hi Ha Hc Hlt Hget Hcan. destruct (even_flatten pts He) as [ps ->]. pose proof (half_flatten ps) as Hh.
  destruct Hi as [Hz|high Hn Hlast Hle|high Hn Hlast Hgt]; cbn [exec_op].
  - rewrite (at_u32 _ _ _ Ha). cbn [mbind outcome_bind]. rewrite Z.geb_leb. rewrite (proj2 (Z.leb_gt _ _)) by done.
    rewrite Hget. cbn [mbind outcome_bind fst snd]. rewrite Hcan. cbn [mbind outcome_bind].
    change (u32 (u32 (-1))) with UINT32_MAX. rewrite (proj2 (Z.eqb_neq _ _)) by lia. cbn [negb].
    assert (ps = []) as -> by (destruct ps; [done|rewrite zlen_cons in Hh; pose proof (zlen_nonneg ps); lia]). done.
  - rewrite Hh in *. pose proof (at_app (re_code s) pc (le_split 2 (zlen ps)) (range16_bytes (flatten ps))) as [Hsp _].
    destruct (Hsp Ha) as [Ha1 Ha2]. rewrite zlen_le_split in Ha2.
    rewrite (at_u16 _ _ _ Ha1), wrap_small by lia. cbn [mbind outcome_bind]. rewrite Z.geb_leb, (proj2 (Z.leb_gt _ _)) by done.
    rewrite Hget. cbn [mbind outcome_bind fst snd]. rewrite Hcan. cbn [mbind outcome_bind].
    rewrite (range_match_spec (re_code s) ps (pc + 2) c); try done; [|lia|by apply (last_fits16 ps c ltac:(lia) Hs Hr Hc high)].
    cbn [mbind outcome_bind]. rewrite zlen_app, zlen_le_split, range16_len, Hh.
    destruct (in_ranges _ _); [|done]. do 4 f_equal. lia.
  - rewrite Hh in *. pose proof (at_app (re_code s) pc (le_split 2 (zlen ps)) (range32_bytes (flatten ps))) as [Hsp _].
    destruct (Hsp Ha) as [Ha1 Ha2]. rewrite zlen_le_split in Ha2.
    rewrite (at_u16 _ _ _ Ha1), wrap_small by lia. cbn [mbind outcome_bind]. rewrite Z.geb_leb, (proj2 (Z.leb_gt _ _)) by done.
    rewrite Hget. cbn [mbind outcome_bind fst snd]. rewrite Hcan. cbn [mbind outcome_bind].
    rewrite (range32_match_spec (re_code s) ps (pc + 2) c); try done; [|lia].
    cbn [mbind outcome_bind]. rewrite zlen_app, zlen_le_split, range32_len, Hh.
    destruct (in_ranges _ _); [|done]. do 4 f_equal. lia.
Qed.

#[local] Arguments POk {_ A}.

(** C19: The code [re_emit_range] emits for a class accepts exactly the characters of the class: at the end of the code of
    [s], the emitted instruction goes on behind itself if the (canonicalized) character of the text is in the
    class, and fails otherwise - in the 16-bit form, where a class that reaches to infinity ends at 0xffff, in
    the 32-bit form, and for the empty class. *)
Theorem re_emit_range_matches `{Realloc} cr s s' ctx rest fuel rec nr m cptr c0 c cptr' :
  heap_bounded -> good s -> cr_nf (cr_points cr) -> re_emit_range cr s = Ret (POk tt s') -> err s' = false ->
  re_code ctx = code s' ++ rest -> 0 <= c < UINT32_MAX ->
  cptr < cbuf_end ctx -> GET_CHAR (cbuf ctx) (cbuf_type ctx) cptr (cbuf_end ctx) = Ret (c0, cptr') ->
  canonicalize ctx c0 = Ret c ->
  exec_step fuel rec ctx nr (m, zlen (code s), cptr) =
    if in_ranges (cr_points cr) c then Ret (inl (m, zlen (code s'), cptr')) else no_match ctx nr m.
Proof.
  intros Hheap Hg Hnf E He Hcode Hc Hlt Hget Hcan.
  destruct (wp_emit_range Hheap cr s Hg tt s' E He) as (_ & op & args & Hi & [Ecode _]).
  assert (Ha : at_ (re_code ctx) (zlen (code s)) (reop_code op :: args)).
  { exists (code s), rest. by rewrite Hcode, Ecode, <- app_assoc. }
  apply at_op in Ha as [(b & Hb & Ho) Ha]. cbn [exec_step]. rewrite Hb. cbn [mbind outcome_bind]. rewrite Ho.
  rewrite (class_instr_matches fuel rec ctx nr m _ cptr _ op args c0 c cptr' Hnf Hi Ha Hc Hlt Hget Hcan).
  rewrite Ecode, zlen_app, zlen_cons. destruct (in_ranges _ _); [|done]. do 4 f_equal. lia.
Qed.

(** The class [a-c\u{c8}-], infinite, at the start of a bytecode. *)
Definition sample_class : CharRange := MkCharRange 4 [97; 100; 200; UINT32_MAX].
Definition sample_start : @REParseState (limited_heap 1000) :=
  let H := limited_heap 1000 in MkREParseState (dbuf_init2 tt) 0 1 (-1) (-1) (dbuf_init2 tt).
Definition sample_end : @REParseState (limited_heap 1000) :=
  match @re_emit_range (limited_heap 1000) sample_class sample_start with Ret (POk _ s) => s | _ => sample_start end.
Definition sample_context : REExecContext := MkREExecContext (@code (limited_heap 1000) sample_end) [98; 120] 0 1 0 false false false.

Lemma re_emit_range_matches_witness :
  let m := @MkREMatch (limited_heap 1000) [] [] [] 0 tt in
  @code (limited_heap 1000) sample_end = [21; 2; 0; 97; 0; 99; 0; 200; 0; 255; 255] /\
  @exec_step (limited_heap 1000) 1 (fun _ _ _ => Fuel) sample_context true (m, 0, 0) = Ret (inl (m, 11, 1)) /\
  @exec_step (limited_heap 1000) 1 (fun _ _ _ => Fuel) sample_context true (m, 0, 1) = Ret (inr (RE_no_match, m)).
Proof.
  assert (Hg : @good (limited_heap 1000) sample_start).
  { split; [split; [by constructor|done]|cbn; lia|done|split; [constructor|done]]. }
  assert (Hnf : cr_nf (cr_points sample_class)).
  { split; [done|repeat constructor; unfold UINT32_MAX; lia|]. intros x Hx. cbn in Hx. rewrite !elem_of_cons, elem_of_nil in Hx.
    unfold UINT32_MAX in *. lia. }
  intros m. split; [vm_compute; reflexivity|]. split.
  - refine (@re_emit_range_matches (limited_heap 1000) sample_class sample_start sample_end sample_context [] 1 _ true m 0 98 98 1
      limited_heap_bounded Hg Hnf _ eq_refl _ _ _ _ _); [vm_compute; reflexivity|by rewrite app_nil_r|done|done|done|done].
  - refine (@re_emit_range_matches (limited_heap 1000) sample_class sample_start sample_end sample_context [] 1 _ true m 1 120 120 2
      limited_heap_bounded Hg Hnf _ eq_refl _ _ _ _ _); [vm_compute; reflexivity|by rewrite app_nil_r|done|done|done|done].
Defined.
