(* ===== verification/ListHead.v ===== *)
(** * list.h: intrusive circular doubly-linked lists

    Nodes live in a store from addresses to their two links; reading or
    writing a link of an address that is not allocated is [Undef].  The lists
    alias freely (the head of an empty list is its own neighbour), so every
    operation is the source's sequence of field writes.  The theorems relate
    the store to the sequence of the elements. *)

From stdpp Require Import gmap.
From S2P Require Import Prelude.

Record list_head := MkListHead { lh_prev : Z; lh_next : Z }.
Abbreviation store := (gmap Z list_head).

Definition NULL : Z := 0.

Definition get_prev (m : store) (p : Z) : outcome Z :=
  match m !! p with Some n => Ret (lh_prev n) | None => Undef end.
Definition get_next (m : store) (p : Z) : outcome Z :=
  match m !! p with Some n => Ret (lh_next n) | None => Undef end.
Definition set_prev (m : store) (p v : Z) : outcome store :=
  match m !! p with Some n => Ret (<[p := MkListHead v (lh_next n)]> m) | None => Undef end.
Definition set_next (m : store) (p v : Z) : outcome store :=
  match m !! p with Some n => Ret (<[p := MkListHead (lh_prev n) v]> m) | None => Undef end.

Definition init_list_head (m : store) (head : Z) : outcome store :=
  m ← set_prev m head head;
  set_next m head head.

Definition __list_add (m : store) (el prev next : Z) : outcome store :=
  m ← set_next m prev el;
  m ← set_prev m el prev;
  m ← set_next m el next;
  set_prev m next el.

Definition list_add (m : store) (el head : Z) : outcome store :=
  next ← get_next m head;
  __list_add m el head next.

Definition list_add_tail (m : store) (el head : Z) : outcome store :=
  prev ← get_prev m head;
  __list_add m el prev head.

Definition list_del (m : store) (el : Z) : outcome store :=
  prev ← get_prev m el;
  next ← get_next m el;
  m ← set_next m prev next;
  m ← set_prev m next prev;
  m ← set_prev m el NULL;
  set_next m el NULL.

Definition list_empty (m : store) (el : Z) : outcome bool :=
  n ← get_next m el;
  mret (n =? el).

(** [list_for_each] with a body that leaves the list alone: the elements in
    the order of the visit.  [list_for_each_prev] walks the other way. *)
Definition list_for_each (fuel : nat) (m : store) (head : Z) : outcome (list Z) :=
  el ← get_next m head;
  loop fuel (fun st : Z * list Z =>
    let '(el, acc) := st in
    if el =? head then mret (inr acc)
    else el' ← get_next m el; mret (inl (el', acc ++ [el]))) (el, []).

Definition list_for_each_prev (fuel : nat) (m : store) (head : Z) : outcome (list Z) :=
  el ← get_prev m head;
  loop fuel (fun st : Z * list Z =>
    let '(el, acc) := st in
    if el =? head then mret (inr acc)
    else el' ← get_prev m el; mret (inl (el', acc ++ [el]))) (el, []).

(** [list_for_each_safe] with the body [list_del(el)]: the successor is read
    before the body runs, as [free_...] loops of the engine rely on. *)
Definition list_del_all (fuel : nat) (m : store) (head : Z) : outcome store :=
  el ← get_next m head;
  el1 ← get_next m el;
  loop fuel (fun st : store * Z * Z =>
    let '(m, el, el1) := st in
    if el =? head then mret (inr m)
    else
      m ← list_del m el;
      el2 ← get_next m el1;
      mret (inl (m, el1, el2))) (m, el, el1).

(** * Properties *)

Definition next_of (m : store) (p : Z) : option Z := lh_next <$> m !! p.
Definition prev_of (m : store) (p : Z) : option Z := lh_prev <$> m !! p.

(** Consecutive nodes of [l] point at each other. *)
Fixpoint chain (m : store) (l : list Z) : Prop :=
  match l with
  | p :: (q :: _) as t => next_of m p = Some q /\ prev_of m q = Some p /\ chain m t
  | _ => True
  end.

(** [is_list m head xs]: the list of head [head] holds the elements [xs]. *)
Definition is_list (m : store) (head : Z) (xs : list Z) : Prop :=
  NoDup (head :: xs) /\ chain m (head :: xs ++ [head]).

Lemma next_of_get m p q : next_of m p = Some q <-> get_next m p = Ret q.
Proof. unfold next_of, get_next. destruct (m !! p); simpl; split; congruence. Qed.

Lemma prev_of_get m p q : prev_of m p = Some q <-> get_prev m p = Ret q.
Proof. unfold prev_of, get_prev. destruct (m !! p); simpl; split; congruence. Qed.

Lemma set_next_ok m p v : is_Some (m !! p) ->
  exists m', set_next m p v = Ret m' /\ next_of m' p = Some v /\
    (forall q, q <> p -> next_of m' q = next_of m q) /\
    (forall q, prev_of m' q = prev_of m q) /\ dom m' = dom m /\
    (forall q, q <> p -> m' !! q = m !! q).
Proof.
  intros [n Hn]. unfold set_next. rewrite Hn. eexists. split; [done|].
  unfold next_of, prev_of. split_and!.
  - by rewrite lookup_insert_eq.
  - intros q Hq. by rewrite lookup_insert_ne.
  - intros q. destruct (decide (q = p)) as [->|].
    + by rewrite lookup_insert_eq, Hn.
    + by rewrite lookup_insert_ne.
  - apply dom_insert_lookup_L. eauto.
  - intros q Hq. by rewrite lookup_insert_ne.
Qed.

Lemma set_prev_ok m p v : is_Some (m !! p) ->
  exists m', set_prev m p v = Ret m' /\ prev_of m' p = Some v /\
    (forall q, q <> p -> prev_of m' q = prev_of m q) /\
    (forall q, next_of m' q = next_of m q) /\ dom m' = dom m /\
    (forall q, q <> p -> m' !! q = m !! q).
Proof.
  intros [n Hn]. unfold set_prev. rewrite Hn. eexists. split; [done|].
  unfold next_of, prev_of. split_and!.
  - by rewrite lookup_insert_eq.
  - intros q Hq. by rewrite lookup_insert_ne.
  - intros q. destruct (decide (q = p)) as [->|].
    + by rewrite lookup_insert_eq, Hn.
    + by rewrite lookup_insert_ne.
  - apply dom_insert_lookup_L. eauto.
  - intros q Hq. by rewrite lookup_insert_ne.
Qed.

(** A chain reads the [next] link of all its nodes but the last and the
    [prev] link of all but the first. *)
Lemma chain_ext m m' l :
  (forall p, p ∈ removelast l -> next_of m' p = next_of m p) ->
  (forall p, p ∈ tail l -> prev_of m' p = prev_of m p) ->
  chain m l -> chain m' l.
Proof.
  induction l as [|p [|q t] IH]; intros Hn Hp Hc; [done..|].
  destruct Hc as (H1 & H2 & H3). split_and!.
  - rewrite Hn; [done|]. apply list_elem_of_here.
  - rewrite Hp; [done|]. apply list_elem_of_here.
  - apply IH; [| |done].
    + intros r Hr. apply Hn. by apply list_elem_of_further.
    + intros r Hr. apply Hp. by apply list_elem_of_further.
Qed.

Lemma chain_app m l1 x l2 : chain m (l1 ++ x :: l2) <-> chain m (l1 ++ [x]) /\ chain m (x :: l2).
Proof.
  induction l1 as [|p l1 IH]; [by cbn; tauto|].
  destruct l1 as [|q l1]; [by cbn; tauto|].
  cbn [app] in *.
  change (chain m (p :: q :: l1 ++ x :: l2)) with
    (next_of m p = Some q /\ prev_of m q = Some p /\ chain m (q :: l1 ++ x :: l2)).
  change (chain m (p :: q :: l1 ++ [x])) with
    (next_of m p = Some q /\ prev_of m q = Some p /\ chain m (q :: l1 ++ [x])).
  tauto.
Qed.

Lemma chain_link m l1 p q l2 :
  chain m (l1 ++ p :: q :: l2) -> next_of m p = Some q /\ prev_of m q = Some p.
Proof. rewrite chain_app. intros [_ (? & ? & _)]. done. Qed.

Lemma next_of_alloc m p q : next_of m p = Some q -> is_Some (m !! p).
Proof. unfold next_of. destruct (m !! p); [by eauto|done]. Qed.
Lemma prev_of_alloc m p q : prev_of m p = Some q -> is_Some (m !! p).
Proof. unfold prev_of. destruct (m !! p); [by eauto|done]. Qed.

Lemma removelast_snoc {A} (l : list A) x : removelast (l ++ [x]) = l.
Proof. apply removelast_last. Qed.

(** Rewiring only [p -> .] and [. <- n] between the two halves of a ring keeps the halves. *)
Lemma chain_sides m m' l1 p n l2 el :
  NoDup (removelast (l1 ++ p :: n :: l2)) -> NoDup (tail (l1 ++ p :: n :: l2)) ->
  el ∉ l1 ++ p :: n :: l2 ->
  (forall q, q <> p -> q <> el -> next_of m' q = next_of m q) ->
  (forall q, q <> n -> q <> el -> prev_of m' q = prev_of m q) ->
  chain m (l1 ++ [p]) -> chain m (n :: l2) -> chain m' (l1 ++ [p]) /\ chain m' (n :: l2).
Proof.
  intros Hnd1 Hnd2 Hel NN PP Hc1 Hc2. rewrite elem_of_app, !elem_of_cons in Hel.
  rewrite removelast_app in Hnd1 by done.
  change (removelast (p :: n :: l2)) with (p :: removelast (n :: l2)) in Hnd1.
  apply list.NoDup_app in Hnd1 as (_ & Hd1 & Hnd1). apply list.NoDup_cons in Hnd1 as [Hp _].
  assert (tail (l1 ++ p :: n :: l2) = tail (l1 ++ [p]) ++ n :: l2) as E.
  { destruct l1; cbn; [done|]. by rewrite <- app_assoc. }
  rewrite E in Hnd2. clear E. apply list.NoDup_app in Hnd2 as (_ & Hd2 & Hnd2).
  apply list.NoDup_cons in Hnd2 as [Hn _].
  split; (eapply chain_ext; [| |eassumption]); intros q Hq.
  - rewrite removelast_snoc in Hq. apply NN; [|naive_solver].
    intros ->. apply (Hd1 p Hq). apply list_elem_of_here.
  - apply PP; [intros ->; apply (Hd2 n Hq); apply list_elem_of_here|]. intros ->.
    destruct l1 as [|z l1]; [by apply elem_of_nil in Hq|]. cbn in Hq.
    apply elem_of_app in Hq as [Hq|Hq]; [set_solver|]. apply list_elem_of_singleton in Hq. tauto.
  - apply NN; [by intros ->|]. intros ->. assert (el ∈ n :: l2); [|set_solver].
    rewrite (app_removelast_last 0 (l := n :: l2)) by done. apply elem_of_app. by left.
  - cbn in Hq. apply PP; [by intros ->|set_solver].
Qed.

(** The four writes of [__list_add] between two neighbours of a ring. *)
Lemma __list_add_chain m el p n l1 l2 :
  chain m (l1 ++ p :: n :: l2) ->
  NoDup (removelast (l1 ++ p :: n :: l2)) -> NoDup (tail (l1 ++ p :: n :: l2)) ->
  el ∉ l1 ++ p :: n :: l2 -> is_Some (m !! el) ->
  exists m', __list_add m el p n = Ret m' /\ chain m' (l1 ++ p :: el :: n :: l2) /\
    dom m' = dom m /\ (forall q, q ∉ el :: l1 ++ p :: n :: l2 -> m' !! q = m !! q).
Proof.
  intros Hc Hnd1 Hnd2 Hel Hal.
  destruct (chain_link _ _ _ _ _ Hc) as [Hpn Hnp].
  rewrite elem_of_app, !elem_of_cons in Hel.
  unfold __list_add.
  destruct (set_next_ok m p el) as (m1 & -> & N1 & N1' & P1 & D1 & F1); [by eapply next_of_alloc|].
  cbn.
  assert (forall q, is_Some (m1 !! q) <-> is_Some (m !! q)) as A1
    by (intros; by rewrite <- !elem_of_dom, D1).
  destruct (set_prev_ok m1 el p) as (m2 & -> & P2 & P2' & N2 & D2 & F2); [by apply A1|]. cbn.
  assert (forall q, is_Some (m2 !! q) <-> is_Some (m1 !! q)) as A2
    by (intros; by rewrite <- !elem_of_dom, D2).
  destruct (set_next_ok m2 el n) as (m3 & -> & N3 & N3' & P3 & D3 & F3); [by apply A2, A1|]. cbn.
  assert (forall q, is_Some (m3 !! q) <-> is_Some (m2 !! q)) as A3
    by (intros; by rewrite <- !elem_of_dom, D3).
  destruct (set_prev_ok m3 n el) as (m4 & -> & P4 & P4' & N4 & D4 & F4).
  { apply A3, A2, A1. by eapply prev_of_alloc. }
  eexists. split; [done|].
  assert (el <> p /\ el <> n) as [Hep Hen] by tauto.
  assert (forall q, q <> p -> q <> el -> next_of m4 q = next_of m q) as NN.
  { intros q ? ?. by rewrite N4, N3', N2, N1'. }
  assert (forall q, q <> n -> q <> el -> prev_of m4 q = prev_of m q) as PP.
  { intros q ? ?. by rewrite P4', P3, P2', P1. }
  split_and!.
  - rewrite chain_app in Hc. destruct Hc as [Hc1 (_ & _ & Hc2)].
    destruct (chain_sides m m4 l1 p n l2 el) as [S1 S2]; try done.
    { rewrite elem_of_app, !elem_of_cons. tauto. }
    rewrite chain_app. split; [done|].
    change (next_of m4 p = Some el /\ prev_of m4 el = Some p /\
      next_of m4 el = Some n /\ prev_of m4 n = Some el /\ chain m4 (n :: l2)).
    split_and!; [by rewrite N4, N3', N2|by rewrite P4', P3|by rewrite N4|done..].
  - by rewrite D4, D3, D2, D1.
  - intros q Hq. rewrite not_elem_of_cons, elem_of_app, !elem_of_cons in Hq.
    destruct Hq as [? Hq]. rewrite F4, F3, F2, F1; tauto || naive_solver.
Qed.

(** The writes of [list_del] on a node inside a ring. *)
Lemma list_del_chain m el p n l1 l2 :
  chain m (l1 ++ p :: el :: n :: l2) ->
  NoDup (removelast (l1 ++ p :: n :: l2)) -> NoDup (tail (l1 ++ p :: n :: l2)) ->
  el ∉ l1 ++ p :: n :: l2 ->
  exists m', list_del m el = Ret m' /\ chain m' (l1 ++ p :: n :: l2) /\
    m' !! el = Some (MkListHead NULL NULL) /\
    dom m' = dom m /\ (forall q, q ∉ el :: l1 ++ p :: n :: l2 -> m' !! q = m !! q).
Proof.
  intros Hc Hnd1 Hnd2 Hel.
  destruct (chain_link _ _ _ _ _ Hc) as [Hpe Hep].
  assert (Hc' := Hc). change (l1 ++ p :: el :: n :: l2) with (l1 ++ [p] ++ el :: n :: l2) in Hc'.
  rewrite app_assoc in Hc'. destruct (chain_link _ _ _ _ _ Hc') as [Hen Hne]. clear Hc'.
  rewrite elem_of_app, !elem_of_cons in Hel. assert (el <> p /\ el <> n) as [Dep Den] by tauto.
  unfold list_del.
  rewrite (proj1 (prev_of_get _ _ _) Hep), (proj1 (next_of_get _ _ _) Hen). cbn.
  destruct (set_next_ok m p n) as (m1 & -> & N1 & N1' & P1 & D1 & F1); [by eapply next_of_alloc|].
  cbn.
  assert (forall q, is_Some (m1 !! q) <-> is_Some (m !! q)) as A1
    by (intros; by rewrite <- !elem_of_dom, D1).
  destruct (set_prev_ok m1 n p) as (m2 & -> & P2 & P2' & N2 & D2 & F2).
  { apply A1. by eapply prev_of_alloc. }
  cbn. assert (forall q, is_Some (m2 !! q) <-> is_Some (m1 !! q)) as A2
    by (intros; by rewrite <- !elem_of_dom, D2).
  destruct (set_prev_ok m2 el NULL) as (m3 & -> & P3 & P3' & N3 & D3 & F3).
  { apply A2, A1. by eapply next_of_alloc. }
  cbn. assert (forall q, is_Some (m3 !! q) <-> is_Some (m2 !! q)) as A3
    by (intros; by rewrite <- !elem_of_dom, D3).
  destruct (set_next_ok m3 el NULL) as (m4 & -> & N4 & N4' & P4 & D4 & F4).
  { apply A3, A2, A1. by eapply next_of_alloc. }
  eexists. split; [done|].
  assert (forall q, q <> p -> q <> el -> next_of m4 q = next_of m q) as NN.
  { intros q ? ?. by rewrite N4', N3, N2, N1'. }
  assert (forall q, q <> n -> q <> el -> prev_of m4 q = prev_of m q) as PP.
  { intros q ? ?. by rewrite P4, P3', P2', P1. }
  split_and!.
  - rewrite chain_app in Hc. destruct Hc as [Hc1 (_ & _ & (_ & _ & Hc2))].
    destruct (chain_sides m m4 l1 p n l2 el) as [S1 S2]; try done.
    { rewrite elem_of_app, !elem_of_cons. tauto. }
    rewrite chain_app. split; [done|].
    change (next_of m4 p = Some n /\ prev_of m4 n = Some p /\ chain m4 (n :: l2)).
    split_and!; [by rewrite N4', N3, N2|by rewrite P4, P3'|done].
  - assert (is_Some (m4 !! el)) as [[a b] Hn4].
    { rewrite <- elem_of_dom, D4, D3, D2, D1, elem_of_dom. by eapply next_of_alloc. }
    specialize (P4 el). unfold next_of, prev_of in *. rewrite Hn4 in *. cbn in *.
    rewrite P3 in P4. congruence.
  - by rewrite D4, D3, D2, D1.
  - intros q Hq. rewrite not_elem_of_cons, elem_of_app, !elem_of_cons in Hq.
    destruct Hq as [? Hq]. rewrite F4, F3, F2, F1; tauto || naive_solver.
Qed.

Lemma list_snoc_inv {A} (x : A) l : exists l1 y, x :: l = l1 ++ [y].
Proof. destruct (exists_last (l := x :: l)) as (l1 & y & E); [done|]. by exists l1, y. Qed.

Lemma list_cons_inv {A} (l : list A) x : exists y l2, l ++ [x] = y :: l2.
Proof. destruct l as [|y l]; [by exists x, []|by exists y, (l ++ [x])]. Qed.

Lemma ring_removelast {A} (h : A) xs : removelast (h :: xs ++ [h]) = h :: xs.
Proof. change (h :: xs ++ [h]) with ((h :: xs) ++ [h]). apply removelast_snoc. Qed.

Lemma ring_tail_NoDup (h : Z) xs : NoDup (h :: xs) -> NoDup (tail (h :: xs ++ [h])).
Proof. cbn. intros H. by rewrite Permutation_app_comm. Qed.

(** [list_add] puts a fresh node at the front of the list, and touches no node
    outside of it. *)
Theorem list_add_spec m el head xs :
  is_list m head xs -> el ∉ head :: xs -> is_Some (m !! el) ->
  exists m', list_add m el head = Ret m' /\ is_list m' head (el :: xs) /\
    (forall q, q ∉ el :: head :: xs -> m' !! q = m !! q).
Proof.
  intros [Hnd Hc] Hel Hal.
  pose proof (ring_removelast head xs) as R1. pose proof (ring_tail_NoDup head xs Hnd) as R2.
  destruct (list_cons_inv xs head) as (n & l2 & E). rewrite E in Hc, R1, R2.
  destruct (chain_link m [] head n l2 Hc) as [Hn _].
  unfold list_add. rewrite (proj1 (next_of_get _ _ _) Hn). cbn.
  assert (forall q, q ∈ n :: l2 -> q ∈ head :: xs) as Hsub.
  { intros q Hq. rewrite <- E in Hq. set_solver. }
  destruct (__list_add_chain m el head n [] l2) as (m' & Hm' & Hc' & _ & F); [done|..].
  - cbn [app]. by rewrite R1.
  - done.
  - cbn [app]. intros [->|Hin]%elem_of_cons; [set_solver|]. by apply Hel, Hsub.
  - done.
  - exists m'. split; [done|]. split.
    + split; [|cbn [app] in *; by rewrite E].
      rewrite Permutation_swap. constructor; [done|done].
    + intros q Hq. apply F. cbn [app].
      intros [->|[->|Hin%Hsub]%elem_of_cons]%elem_of_cons; set_solver.
Qed.

(** [list_add_tail] puts a fresh node at the end of the list, and touches no node
    outside of it. *)
Theorem list_add_tail_spec m el head xs :
  is_list m head xs -> el ∉ head :: xs -> is_Some (m !! el) ->
  exists m', list_add_tail m el head = Ret m' /\ is_list m' head (xs ++ [el]) /\
    (forall q, q ∉ el :: head :: xs -> m' !! q = m !! q).
Proof.
  intros [Hnd Hc] Hel Hal.
  pose proof (ring_removelast head xs) as R1. pose proof (ring_tail_NoDup head xs Hnd) as R2.
  destruct (list_snoc_inv head xs) as (l1 & p & E).
  assert (E' : head :: xs ++ [head] = l1 ++ p :: head :: []).
  { change (head :: xs ++ [head]) with ((head :: xs) ++ [head]). by rewrite E, <- app_assoc. }
  rewrite E' in Hc, R1, R2. destruct (chain_link m _ _ _ _ Hc) as [_ Hp].
  unfold list_add_tail. rewrite (proj1 (prev_of_get _ _ _) Hp). cbn.
  assert (forall q, q ∈ l1 ++ p :: head :: [] -> q ∈ head :: xs) as Hsub.
  { intros q Hq. rewrite <- E' in Hq. set_solver. }
  destruct (__list_add_chain m el p head l1 []) as (m' & Hm' & Hc' & _ & F); [done|..].
  - by rewrite R1.
  - done.
  - intros Hin. by apply Hel, Hsub.
  - done.
  - exists m'. split; [done|]. split.
    + split; [by rewrite app_comm_cons, Permutation_app_comm; constructor|].
      rewrite <- app_assoc. cbn [app].
      replace (head :: xs ++ [el; head]) with ((head :: xs) ++ [el; head]) by done.
      by rewrite E, <- app_assoc.
    + intros q Hq. apply F. intros [->|Hin%Hsub]%elem_of_cons; set_solver.
Qed.

(** [list_del] removes a node from the list it is in, resets its links to NULL, and
    touches no node outside of the list. *)
Theorem list_del_spec m el head xs ys :
  is_list m head (xs ++ el :: ys) ->
  exists m', list_del m el = Ret m' /\ is_list m' head (xs ++ ys) /\
    m' !! el = Some (MkListHead NULL NULL) /\
    (forall q, q ∉ head :: xs ++ el :: ys -> m' !! q = m !! q).
Proof.
  intros [Hnd Hc].
  assert (Hnd' : NoDup (el :: head :: xs ++ ys)).
  { rewrite <- (Permutation_middle xs ys el), Permutation_swap in Hnd. done. }
  apply list.NoDup_cons in Hnd' as [Hel Hnd'].
  pose proof (ring_removelast head (xs ++ ys)) as R1.
  pose proof (ring_tail_NoDup head (xs ++ ys) Hnd') as R2.
  destruct (list_snoc_inv head xs) as (l1 & p & E1).
  destruct (list_cons_inv ys head) as (n & l2 & E2).
  assert (E' : head :: (xs ++ ys) ++ [head] = l1 ++ p :: n :: l2).
  { rewrite <- app_assoc, E2. rewrite app_comm_cons, E1, <- app_assoc. done. }
  assert (E3 : head :: (xs ++ el :: ys) ++ [head] = l1 ++ p :: el :: n :: l2).
  { rewrite <- app_assoc. cbn [app]. rewrite E2. rewrite app_comm_cons, E1, <- app_assoc. done. }
  rewrite E3 in Hc. rewrite E' in R1, R2.
  assert (forall q, q ∈ l1 ++ p :: n :: l2 -> q ∈ head :: xs ++ ys) as Hsub.
  { intros q Hq. rewrite <- E' in Hq. set_solver. }
  destruct (list_del_chain m el p n l1 l2) as (m' & Hm' & Hc' & Hnull & _ & F); [done|..].
  - by rewrite R1.
  - done.
  - intros Hin. by apply Hel, Hsub.
  - exists m'. split; [done|]. split; [|split; [done|]].
    + split; [done|]. by rewrite E'.
    + intros q Hq. apply F. intros [->|Hin%Hsub]%elem_of_cons; set_solver.
Qed.

Lemma init_list_head_spec m head :
  is_Some (m !! head) -> exists m', init_list_head m head = Ret m' /\ is_list m' head [] /\
    (forall q, q <> head -> m' !! q = m !! q).
Proof.
  intros Hal. unfold init_list_head.
  destruct (set_prev_ok m head head Hal) as (m1 & -> & P1 & _ & _ & D1 & F1). cbn.
  destruct (set_next_ok m1 head head) as (m2 & -> & N2 & _ & P2 & _ & F2).
  { by rewrite <- elem_of_dom, D1, elem_of_dom. }
  exists m2. split; [done|]. split.
  - split; [apply NoDup_singleton|]. cbn. rewrite P2. done.
  - intros q Hq. by rewrite F2, F1.
Qed.

Lemma list_empty_spec m head xs :
  is_list m head xs -> list_empty m head = Ret (bool_decide (xs = [])).
Proof.
  intros [Hnd Hc]. unfold list_empty. destruct xs as [|x xs].
  - cbn in Hc. destruct Hc as [Hn _]. rewrite (proj1 (next_of_get _ _ _) Hn). cbn.
    by rewrite Z.eqb_refl.
  - cbn [app chain] in Hc. destruct Hc as [Hn _]. rewrite (proj1 (next_of_get _ _ _) Hn). cbn.
    destruct (Z.eqb_spec x head) as [->|]; [|done].
    apply list.NoDup_cons in Hnd as [Hh _]. set_solver.
Qed.

(** Another list that shares no node is not affected: with [..._spec] this is the frame rule. *)
Lemma is_list_frame m m' head xs :
  (forall q, q ∈ head :: xs -> m' !! q = m !! q) -> is_list m head xs -> is_list m' head xs.
Proof.
  intros F [Hnd Hc]. split; [done|]. revert Hc. apply chain_ext; intros q Hq; unfold next_of, prev_of.
  - rewrite ring_removelast in Hq. by rewrite F.
  - cbn in Hq. rewrite F; [done|set_solver].
Qed.

(** [list_for_each] terminates and visits every element once, in order;
    [list_for_each_prev] visits them in the reverse order. *)
Theorem list_for_each_spec m head xs fuel :
  is_list m head xs -> (length xs < fuel)%nat ->
  list_for_each fuel m head = Ret xs /\ list_for_each_prev fuel m head = Ret (reverse xs).
Proof.
  intros [Hnd Hc] Hf. apply list.NoDup_cons in Hnd as [Hh _]. split; apply yields_eq.
  - unfold list_for_each. destruct (list_cons_inv xs head) as (n & l2 & E).
    assert (Hc' := Hc). rewrite E in Hc'. destruct (chain_link m [] head n l2 Hc') as [Hn _].
    rewrite (proj1 (next_of_get _ _ _) Hn). cbn [mbind outcome_bind].
    apply (loop_yields _ (fun st => exists ys rest, xs = st.2 ++ ys /\ ys ++ [head] = st.1 :: rest)
      (fun st => (length xs - length st.2)%nat)).
    + intros [el acc] (ys & rest & Hxs & Hel). cbn [fst snd] in *. destruct ys as [|y ys].
      { injection Hel as <- _. rewrite Z.eqb_refl. cbn. by rewrite Hxs, app_nil_r. }
      injection Hel as -> Hrest. destruct (Z.eqb_spec el head) as [->|_]; [set_solver|].
      destruct (list_cons_inv ys head) as (z & l3 & Ez).
      assert (next_of m el = Some z) as Hz.
      { assert (head :: xs ++ [head] = (head :: acc) ++ el :: z :: l3) as Er.
        { rewrite Hxs, <- app_assoc. cbn [app]. by rewrite Ez. }
        rewrite Er in Hc. by destruct (chain_link m _ _ _ _ Hc). }
      rewrite (proj1 (next_of_get _ _ _) Hz). cbn. split.
      * exists ys, l3. split; [by rewrite <- app_assoc|done].
      * rewrite Hxs, !length_app. cbn. lia.
    + exists xs, l2. done.
    + cbn. lia.
  - unfold list_for_each_prev. destruct (list_snoc_inv head xs) as (l1 & p & E).
    assert (Hc' := Hc). rewrite app_comm_cons, E, <- app_assoc in Hc'.
    destruct (chain_link m _ _ _ _ Hc') as [_ Hp].
    rewrite (proj1 (prev_of_get _ _ _) Hp). cbn [mbind outcome_bind].
    apply (loop_yields _ (fun st => exists ys rest, xs = ys ++ reverse st.2 /\
      head :: ys = rest ++ [st.1]) (fun st => (length xs - length st.2)%nat)).
    + intros [el acc] (ys & rest & Hxs & Hel). cbn [fst snd] in *.
      destruct (list_snoc_inv head (reverse acc)) as (la & z & Ea).
      destruct ys as [|y ys _] using rev_ind.
      { destruct rest as [|? [|]]; [|done..]. injection Hel as <-. rewrite Z.eqb_refl. cbn.
        rewrite Hxs; cbn [app]; by rewrite reverse_involutive. }
      rewrite app_comm_cons in Hel. apply app_inj_tail in Hel as [<- ->].
      destruct (Z.eqb_spec el head) as [->|_]; [set_solver|].
      destruct (list_snoc_inv head ys) as (lb & w & Eb).
      assert (prev_of m el = Some w) as Hw.
      { assert (head :: xs ++ [head] = lb ++ w :: el :: (reverse acc ++ [head])) as Er.
        { rewrite Hxs, <- !app_assoc. cbn [app]. by rewrite app_comm_cons, Eb, <- app_assoc. }
        rewrite Er in Hc. by destruct (chain_link m _ _ _ _ Hc). }
      rewrite (proj1 (prev_of_get _ _ _) Hw). cbn [mbind outcome_bind mret outcome_ret yields]. split.
      * exists ys, lb. split; [|done]. cbn [snd]. rewrite reverse_snoc. by rewrite Hxs, <- app_assoc.
      * cbn [snd]. rewrite Hxs, !length_app, length_reverse. cbn. lia.
    + exists xs, l1. split; [cbn; by rewrite app_nil_r|done].
    + cbn. lia.
Qed.

(** the deleting [list_for_each_safe] loop empties the list, visiting a node only
    before it is unlinked. *)
Theorem list_del_all_spec m head xs fuel :
  is_list m head xs -> (length xs < fuel)%nat ->
  exists m', list_del_all fuel m head = Ret m' /\ is_list m' head [] /\
    (forall q, q ∈ xs -> m' !! q = Some (MkListHead NULL NULL)) /\
    (forall q, q ∉ head :: xs -> m' !! q = m !! q).
Proof.
  intros Hl Hf. pose proof Hl as [Hnd _]. apply yields_Ret. unfold list_del_all.
  assert (Hlinks : forall m ys, is_list m head ys -> exists n l2, ys ++ [head] = n :: l2 /\
    get_next m head = Ret n).
  { intros m0 ys [_ Hc]. destruct (list_cons_inv ys head) as (n & l2 & E).
    exists n, l2. split; [done|]. rewrite E in Hc. apply next_of_get.
    by destruct (chain_link m0 [] head n l2 Hc). }
  assert (Hnext : forall m y ys, is_list m head (y :: ys) -> exists n l2, ys ++ [head] = n :: l2 /\
    get_next m y = Ret n).
  { intros m0 y ys [_ Hc]. destruct (list_cons_inv ys head) as (n & l2 & E).
    exists n, l2. split; [done|]. cbn [app] in Hc. rewrite E in Hc. apply next_of_get.
    by destruct (chain_link m0 [head] y n l2 Hc). }
  destruct (Hlinks m xs Hl) as (n & l2 & En & ->). cbn [mbind outcome_bind].
  assert (exists n2, get_next m n = Ret n2 /\ forall y ys, xs = y :: ys -> exists l3, ys ++ [head] = n2 :: l3)
    as (n2 & -> & Hn2).
  { destruct xs as [|y ys].
    - injection En as <- _. destruct (Hlinks m [] Hl) as (? & ? & _ & ->). eexists. split; [done|].
      intros ? ? ?. done.
    - injection En as <- _. destruct (Hnext m y ys Hl) as (n2 & l3 & ? & ->).
      eexists. split; [done|]. intros ? ? [= <- <-]. by exists l3. }
  cbn [mbind outcome_bind].
  apply (loop_yields_nat _ (fun k '(m', el, el1) => exists done ys rest, xs = done ++ ys /\
    k = length ys /\ is_list m' head ys /\ ys ++ [head] = el :: rest /\
    (forall y zs, ys = y :: zs -> exists l3, zs ++ [head] = el1 :: l3) /\
    (forall q, q ∈ done -> m' !! q = Some (MkListHead NULL NULL)) /\
    (forall q, q ∉ head :: xs -> m' !! q = m !! q)) _) with (n := length xs).
  - intros k [[m' el] el1] (dn & ys & rest & Hxs & -> & Hl' & Hel & Hel1 & Hdn & Hfr).
    destruct ys as [|y ys].
    { injection Hel as <- _. rewrite Z.eqb_refl. cbn. rewrite app_nil_r in Hxs. by subst dn. }
    injection Hel as -> Hrest. pose proof Hl' as [Hnd' _].
    destruct (Z.eqb_spec el head) as [->|_].
    { apply list.NoDup_cons in Hnd' as [Hh _]. set_solver. }
    destruct (list_del_spec m' el head [] ys Hl') as (m'' & -> & Hl'' & Hnull & Hfr').
    cbn [mbind outcome_bind app] in *.
    destruct (Hel1 el ys eq_refl) as (l3 & Hl3).
    destruct (Hlinks m'' ys Hl'') as (z & lz & Ez & Hz).
    assert (exists n2, get_next m'' el1 = Ret n2 /\
      forall y zs, ys = y :: zs -> exists l4, zs ++ [head] = n2 :: l4) as (n3 & Hn3 & Hn3').
    { destruct ys as [|y ys].
      - injection Hl3 as <- _. exists z. split; [done|]. intros ? ? ?. done.
      - injection Hl3 as <- _. destruct (Hnext m'' y ys Hl'') as (n3 & l4 & ? & ?).
        exists n3. split; [done|]. intros ? ? [= <- <-]. by exists l4. }
    rewrite Hn3. cbn. exists (length ys). split; [lia|].
    exists (dn ++ [el]), ys, l3. split_and!; [by rewrite <- app_assoc|done|done|done|done|..].
    + intros q [Hq| ->%list_elem_of_singleton]%elem_of_app; [|done].
      rewrite Hfr'; [by apply Hdn|]. rewrite Hxs in Hnd. apply list.NoDup_cons in Hnd as [Hh Hnd].
      apply list.NoDup_app in Hnd as (_ & Hd & _). specialize (Hd q Hq). set_solver.
    + intros q Hq. rewrite Hfr'; [by apply Hfr|]. rewrite Hxs in Hq. set_solver.
  - exists [], xs, l2. split_and!; [done|done|done|done|done|set_solver|done].
  - done.
Qed.
