(* ===== verification/ListRun.v ===== *)
(** * list.h: several lists in one store

    The engine keeps many lists at once and moves nodes from one to another (objects between the lists of the collector, jobs, modules).
    A family of lists is a finite map from heads to sequences; the operations of ListHead.v, on pointers, implement the
    operations on the family. *)

From stdpp Require Import gmap.
From S2P Require Import Prelude ListHead.
#[local] Open Scope Z_scope.

Inductive list_command :=
| Init (h : Z) | AddHead (h el : Z) | AddTail (h el : Z) | Del (h el : Z) | IsEmpty (h : Z) | Walk (h : Z) | WalkBack (h : Z) | DelAll (h : Z).
Inductive list_answer := Done | Bool (b : bool) | Elements (l : list Z).

(** ** The specification *)

Notation family := (gmap Z (list Z)).

(** [q] is neither the head nor an element of one of the lists. *)
Definition unused (L : family) (q : Z) : Prop := map_Forall (fun h xs => q ∉ h :: xs) L.
#[export] Instance unused_dec L q : Decision (unused L q) := _.
Definition cut (el : Z) (xs : list Z) : list Z := filter (fun x => x <> el) xs.

(** The nodes [N] are allocated. *)
Definition spec (N : gset Z) (c : list_command) (L : family) : option (list_answer * family) :=
  match c with
  | Init h => if decide (h ∈ N /\ unused L h) then Some (Done, <[h := []]> L) else None
  | AddHead h el => xs ← L !! h; if decide (el ∈ N /\ unused L el) then Some (Done, <[h := el :: xs]> L) else None
  | AddTail h el => xs ← L !! h; if decide (el ∈ N /\ unused L el) then Some (Done, <[h := xs ++ [el]]> L) else None
  | Del h el => xs ← L !! h; if decide (el ∈ xs) then Some (Done, <[h := cut el xs]> L) else None
  | IsEmpty h => xs ← L !! h; Some (Bool (bool_decide (xs = [])), L)
  | Walk h => xs ← L !! h; Some (Elements xs, L)
  | WalkBack h => xs ← L !! h; Some (Elements (reverse xs), L)
  | DelAll h => xs ← L !! h; Some (Done, <[h := []]> L)
  end.
Fixpoint spec_all (N : gset Z) (cs : list list_command) (L : family) : option (list list_answer * family) :=
  match cs with
  | [] => Some ([], L)
  | c :: cs => '(a, L) ← spec N c L; '(answers, L) ← spec_all N cs L; Some (a :: answers, L)
  end.

(** ** The implementation *)

Definition perform (c : list_command) (m : store) : outcome (list_answer * store) :=
  match c with
  | Init h => m ← init_list_head m h; mret (Done, m)
  | AddHead h el => m ← list_add m el h; mret (Done, m)
  | AddTail h el => m ← list_add_tail m el h; mret (Done, m)
  | Del h el => m ← list_del m el; mret (Done, m)
  | IsEmpty h => b ← list_empty m h; mret (Bool b, m)
  | Walk h => l ← list_for_each (S (size m)) m h; mret (Elements l, m)
  | WalkBack h => l ← list_for_each_prev (S (size m)) m h; mret (Elements l, m)
  | DelAll h => m ← list_del_all (S (size m)) m h; mret (Done, m)
  end.
Fixpoint perform_all (cs : list list_command) (m : store) : outcome (list list_answer * store) :=
  match cs with
  | [] => mret ([], m)
  | c :: cs => '(a, m) ← perform c m; '(answers, m) ← perform_all cs m; mret (a :: answers, m)
  end.

(** ** The store holds the family *)

Record holds (m : store) (L : family) : Prop := {
  ho_list h xs : L !! h = Some xs -> is_list m h xs;
  ho_apart h1 xs1 h2 xs2 q : L !! h1 = Some xs1 -> L !! h2 = Some xs2 -> h1 <> h2 -> q ∈ h1 :: xs1 -> q ∉ h2 :: xs2 }.

Lemma is_list_alloc m h xs q : is_list m h xs -> q ∈ h :: xs -> is_Some (m !! q).
Proof.
  intros [_ Hc] Hq. apply list_elem_of_split in Hq as (l1 & l2 & E).
  assert (E' : h :: xs ++ [h] = l1 ++ q :: (l2 ++ [h])) by (rewrite app_comm_cons, E, <- app_assoc; done).
  destruct (list_cons_inv l2 h) as (n & l3 & En). rewrite E', En in Hc.
  destruct (chain_link m _ _ _ _ Hc) as [Hn _]. by eapply next_of_alloc.
Qed.
Lemma is_list_size m h xs : is_list m h xs -> (length xs < S (size m))%nat.
Proof.
  intros Hl. pose proof Hl as [Hnd _]. assert (list_to_set (h :: xs) ⊆ dom m).
  { intros q Hq. rewrite elem_of_list_to_set in Hq. apply elem_of_dom. by eapply is_list_alloc. }
  assert (Hsz : (size (list_to_set (h :: xs) : gset Z) <= size (dom m))%nat) by (by apply subseteq_size).
  rewrite size_list_to_set, size_dom in Hsz by done. cbn in Hsz. lia.
Qed.

(** One list changes, and the nodes outside of it do not. *)
Lemma holds_update m m' L h ys : holds m L -> is_list m' h ys ->
  (forall h' xs' q, L !! h' = Some xs' -> h' <> h -> q ∈ h' :: xs' -> m' !! q = m !! q /\ q ∉ h :: ys) -> holds m' (<[h := ys]> L).
Proof.
  intros [Hl Ha] Hh Hf. split.
  - intros k zs Hk. destruct (decide (k = h)) as [->|Hne]; [rewrite lookup_insert_eq in Hk; by simplify_eq|].
    rewrite lookup_insert_ne in Hk by done. apply (is_list_frame m); [|by apply Hl]. intros q Hq. by apply (Hf k zs).
  - intros h1 xs1 h2 xs2 q H1 H2 Hne Hq. destruct (decide (h1 = h)) as [->|N1], (decide (h2 = h)) as [->|N2].
    + done.
    + rewrite lookup_insert_eq in H1. rewrite lookup_insert_ne in H2 by done. simplify_eq. intros Hq2. by apply (Hf h2 xs2 q H2 N2 Hq2).
    + rewrite lookup_insert_eq in H2. rewrite lookup_insert_ne in H1 by done. simplify_eq. by apply (Hf h1 xs1 q H1 N1 Hq).
    + rewrite lookup_insert_ne in H1, H2 by done. by apply (Ha h1 xs1 h2 xs2).
Qed.
Lemma cut_middle el xs ys : NoDup (xs ++ el :: ys) -> cut el (xs ++ el :: ys) = xs ++ ys.
Proof.
  intros Hnd. unfold cut. rewrite list.filter_app, filter_cons_False by tauto. apply list.NoDup_app in Hnd as (_ & Hd & Hnd).
  apply list.NoDup_cons in Hnd as [Hy _].
  assert (Hid : forall l : list Z, el ∉ l -> filter (fun x => x <> el) l = l).
  { induction l as [|x l IH]; intros Hx; [done|]. rewrite filter_cons_True by set_solver. f_equal. set_solver. }
  rewrite !Hid; [done|done|]. intros Hx. apply (Hd _ Hx). constructor.
Qed.

(** Nodes stay allocated. *)
Lemma outside_other m L h xs h' xs' q : holds m L -> L !! h = Some xs -> L !! h' = Some xs' -> h' <> h -> q ∈ h' :: xs' -> q ∉ h :: xs.
Proof. intros [_ Ha] Hh Hh' Hne Hq. by apply (Ha h' xs' h xs). Qed.
Lemma unused_other L q h xs p : unused L q -> L !! h = Some xs -> p ∈ h :: xs -> p <> q.
Proof. intros Hu Hh Hp ->. by apply (Hu h xs Hh). Qed.

Lemma dom_kept (m m' : store) (N : list Z) : (forall q, q ∉ N -> m' !! q = m !! q) -> (forall q, q ∈ N -> is_Some (m' !! q)) -> dom m ⊆ dom m'.
Proof.
  intros Hf HN q Hq. destruct (decide (q ∈ N)) as [Hin|Hout]; [by apply elem_of_dom, HN|]. apply elem_of_dom. rewrite Hf by done. by apply elem_of_dom.
Qed.

(** One command, in a store with the nodes [N]. *)
Lemma perform_spec N c m L a L' : holds m L -> N ⊆ dom m -> spec N c L = Some (a, L') ->
  exists m', perform c m = Ret (a, m') /\ holds m' L' /\ N ⊆ dom m'.
Proof.
  intros Hm HN. destruct c as [h|h el|h el|h el|h|h|h|h]; cbn [spec perform].
  - case_decide as Hd; [|done]. destruct Hd as [Hh Hu]. intros [= <- <-].
    destruct (init_list_head_spec m h) as (m' & -> & Hl & Hf); [by apply elem_of_dom, HN|]. exists m'. split; [done|]. split.
    + apply (holds_update m); [done|done|]. intros h' xs' q Hh' Hne Hq. pose proof (unused_other _ _ _ _ _ Hu Hh' Hq) as Hqh.
      split; [by apply Hf|]. by rewrite list_elem_of_singleton.
    + etrans; [exact HN|]. apply (dom_kept _ _ [h]); intros q; rewrite list_elem_of_singleton; [apply Hf|]. intros ->. apply (is_list_alloc _ _ _ h Hl). constructor.
  - destruct (L !! h) as [xs|] eqn:Hh; [|done]. cbn. case_decide as Hd; [|done]. destruct Hd as [He Hu]. intros [= <- <-].
    destruct (list_add_spec m el h xs) as (m' & -> & Hl & Hf); [by apply Hm|by apply (Hu h xs)|by apply elem_of_dom, HN|]. exists m'. split; [done|]. split.
    + apply (holds_update m); [done|done|]. intros h' xs' q Hh' Hne Hq. pose proof (unused_other _ _ _ _ _ Hu Hh' Hq) as Hqe.
      pose proof (outside_other _ _ _ _ _ _ _ Hm Hh Hh' Hne Hq) as Hqx. split; [apply Hf; set_solver|set_solver].
    + etrans; [exact HN|]. apply (dom_kept _ _ (el :: h :: xs)); [apply Hf|]. intros q Hq. apply (is_list_alloc _ _ _ q Hl). set_solver.
  - destruct (L !! h) as [xs|] eqn:Hh; [|done]. cbn. case_decide as Hd; [|done]. destruct Hd as [He Hu]. intros [= <- <-].
    destruct (list_add_tail_spec m el h xs) as (m' & -> & Hl & Hf); [by apply Hm|by apply (Hu h xs)|by apply elem_of_dom, HN|]. exists m'. split; [done|]. split.
    + apply (holds_update m); [done|done|]. intros h' xs' q Hh' Hne Hq. pose proof (unused_other _ _ _ _ _ Hu Hh' Hq) as Hqe.
      pose proof (outside_other _ _ _ _ _ _ _ Hm Hh Hh' Hne Hq) as Hqx. split; [apply Hf; set_solver|set_solver].
    + etrans; [exact HN|]. apply (dom_kept _ _ (el :: h :: xs)); [apply Hf|]. intros q Hq. apply (is_list_alloc _ _ _ q Hl). set_solver.
  - destruct (L !! h) as [xs|] eqn:Hh; [|done]. cbn. case_decide as He; [|done]. intros [= <- <-].
    pose proof (ho_list _ _ Hm _ _ Hh) as Hl0. pose proof Hl0 as [Hnd _]. apply list.NoDup_cons in Hnd as [_ Hnd].
    apply list_elem_of_split in He as (l1 & l2 & ->). rewrite cut_middle by done.
    destruct (list_del_spec m el h l1 l2 Hl0) as (m' & -> & Hl & Hnull & Hf). exists m'. split; [done|]. split.
    + apply (holds_update m); [done|done|]. intros h' xs' q Hh' Hne Hq. pose proof (outside_other _ _ _ _ _ _ _ Hm Hh Hh' Hne Hq) as Hqx.
      split; [by apply Hf|set_solver].
    + etrans; [exact HN|]. apply (dom_kept _ _ (h :: l1 ++ el :: l2)); [apply Hf|]. intros q Hq. destruct (decide (q = el)) as [->|]; [by eexists|].
      apply (is_list_alloc _ _ _ q Hl). set_solver.
  - destruct (L !! h) as [xs|] eqn:Hh; [|done]. intros [= <- <-]. rewrite (list_empty_spec m h xs) by (by apply Hm). by exists m.
  - destruct (L !! h) as [xs|] eqn:Hh; [|done]. intros [= <- <-]. pose proof (ho_list _ _ Hm _ _ Hh) as Hl.
    destruct (list_for_each_spec m h xs (S (size m)) Hl (is_list_size _ _ _ Hl)) as [-> _]. by exists m.
  - destruct (L !! h) as [xs|] eqn:Hh; [|done]. intros [= <- <-]. pose proof (ho_list _ _ Hm _ _ Hh) as Hl.
    destruct (list_for_each_spec m h xs (S (size m)) Hl (is_list_size _ _ _ Hl)) as [_ ->]. by exists m.
  - destruct (L !! h) as [xs|] eqn:Hh; [|done]. intros [= <- <-]. pose proof (ho_list _ _ Hm _ _ Hh) as Hl0.
    destruct (list_del_all_spec m h xs (S (size m)) Hl0 (is_list_size _ _ _ Hl0)) as (m' & -> & Hl & Hnull & Hf). exists m'. split; [done|]. split.
    + apply (holds_update m); [done|done|]. intros h' xs' q Hh' Hne Hq. pose proof (outside_other _ _ _ _ _ _ _ Hm Hh Hh' Hne Hq) as Hqx.
      split; [by apply Hf|set_solver].
    + etrans; [exact HN|]. apply (dom_kept _ _ (h :: xs)); [apply Hf|]. intros q [->|Hq]%elem_of_cons; [apply (is_list_alloc _ _ _ h Hl); constructor|].
      rewrite (Hnull q Hq). by eexists.
Qed.

(** C38: the pointer operations of list.h refine operations on a family of sequences: any sequence of commands that initialises lists, moves nodes in and
    out of them, walks them both ways and empties them returns the answers of the specification, and leaves a store that holds the
    family of the specification; no list disturbs another, and the walks terminate. *)
Theorem lists_refine N cs : forall m L answers L', holds m L -> N ⊆ dom m -> spec_all N cs L = Some (answers, L') ->
  exists m', perform_all cs m = Ret (answers, m') /\ holds m' L' /\ N ⊆ dom m'.
Proof.
  induction cs as [|c cs IH]; intros m L answers L' Hm HN; cbn [spec_all perform_all].
  - intros [= <- <-]. by exists m.
  - destruct (spec N c L) as [[a L1]|] eqn:E1; [|done]. cbn. destruct (spec_all N cs L1) as [[as1 L2]|] eqn:E2; [|done]. intros [= <- <-].
    destruct (perform_spec N c m L a L1 Hm HN E1) as (m1 & -> & Hm1 & HN1). cbn [mbind outcome_bind].
    destruct (IH m1 L1 as1 L2 Hm1 HN1 E2) as (m2 & -> & Hm2 & HN2). by exists m2.
Qed.

(** Two lists; a node moves from one to the other. *)
Definition nodes : store := list_to_map ((fun p => (p, MkListHead 0 0)) <$> [1; 2; 3; 4; 5]).
Definition moves : list list_command :=
  [Init 1; Init 2; AddTail 1 3; AddTail 1 4; AddHead 1 5; Walk 1; Del 1 3; AddHead 2 3; Walk 1; WalkBack 1; Walk 2; DelAll 1; IsEmpty 1; IsEmpty 2].
Lemma lists_refine_witness : exists m', perform_all moves nodes =
  Ret ([Done; Done; Done; Done; Done; Elements [5; 3; 4]; Done; Done; Elements [5; 4]; Elements [4; 5]; Elements [3]; Done; Bool true; Bool false], m') /\
  holds m' {[1 := []; 2 := [3]]}.
Proof.
  destruct (lists_refine {[1; 2; 3; 4; 5]} moves nodes ∅
    [Done; Done; Done; Done; Done; Elements [5; 3; 4]; Done; Done; Elements [5; 4]; Elements [4; 5]; Elements [3]; Done; Bool true; Bool false]
    {[1 := []; 2 := [3]]}) as (m' & Hp & Hh & _).
  - by split.
  - by apply (bool_decide_eq_true_1 _).
  - by vm_compute.
  - by exists m'.
Defined.
