(* ===== verification/Sums.v ===== *)
(** * Sums over finite maps

    Reference counts are sums over the objects of a heap. *)

From stdpp Require Import gmap.
From S2P Require Import Prelude.
#[local] Open Scope Z_scope.

Section Sum.
Context {A : Type}.
Implicit Types (f g : Z -> A -> Z) (m : gmap Z A).

Definition sum_with (f : Z -> A -> Z) (m : gmap Z A) : Z := map_fold (fun p a n => f p a + n) 0 m.

Lemma sum_empty f : sum_with f ∅ = 0.
Proof. done. Qed.
Lemma sum_insert f m p a : m !! p = None -> sum_with f (<[p := a]> m) = f p a + sum_with f m.
Proof. intros Hp. unfold sum_with. rewrite map_fold_insert_L; [done| |done]. intros; lia. Qed.
Lemma sum_delete f m p a : m !! p = Some a -> sum_with f m = f p a + sum_with f (delete p m).
Proof. intros Hp. rewrite <- (sum_insert f (delete p m) p a) by apply lookup_delete_eq. by rewrite insert_delete_id. Qed.
Lemma sum_update f m p a b : m !! p = Some a -> sum_with f (<[p := b]> m) = sum_with f m - f p a + f p b.
Proof. intros Hp. rewrite (sum_delete f m p a Hp), <- (insert_delete_eq m p b), sum_insert by apply lookup_delete_eq. lia. Qed.
Lemma sum_nonneg f m : (forall p a, 0 <= f p a) -> 0 <= sum_with f m.
Proof. intros Hf. induction m as [|p a m Hp IH] using map_ind; [done|]. rewrite sum_insert by done. specialize (Hf p a). lia. Qed.
Lemma sum_ge f m p a : (forall q b, 0 <= f q b) -> m !! p = Some a -> f p a <= sum_with f m.
Proof. intros Hf Hp. rewrite (sum_delete f m p a Hp). pose proof (sum_nonneg f (delete p m) Hf). lia. Qed.
Lemma sum_ge2 f m p q a b : (forall q b, 0 <= f q b) -> m !! p = Some a -> m !! q = Some b -> p <> q -> f p a + f q b <= sum_with f m.
Proof.
  intros Hf Hp Hq Hne. rewrite (sum_delete f m p a Hp). pose proof (sum_ge f (delete p m) q b Hf) as H.
  rewrite lookup_delete_ne in H by done. specialize (H Hq). lia.
Qed.
Lemma sum_ext f g m : (forall p a, m !! p = Some a -> f p a = g p a) -> sum_with f m = sum_with g m.
Proof.
  induction m as [|p a m Hp IH] using map_ind; intros Hf; [done|]. rewrite !sum_insert by done. rewrite (Hf p a) by apply lookup_insert_eq.
  f_equal. apply IH. intros q b Hq. apply Hf. rewrite lookup_insert_ne; [done|]. intros ->. congruence.
Qed.
Lemma sum_zero f m : (forall p a, m !! p = Some a -> f p a = 0) -> sum_with f m = 0.
Proof.
  intros Hf. rewrite (sum_ext f (fun _ _ => 0) m Hf). clear Hf. induction m as [|p a m Hp IH] using map_ind; [done|]. by rewrite sum_insert.
Qed.
Lemma sum_pos f m : 0 < sum_with f m -> exists p a, m !! p = Some a /\ 0 < f p a.
Proof.
  induction m as [|p a m Hp IH] using map_ind; [done|]. rewrite sum_insert by done. intros H. destruct (decide (0 < f p a)) as [Hf|Hf].
  - exists p, a. split; [apply lookup_insert_eq|done].
  - destruct IH as (q & b & Hq & Hb); [lia|]. exists q, b. split; [|done]. rewrite lookup_insert_ne; [done|]. intros ->. congruence.
Qed.
End Sum.
