(* ===== verification/GcHeap.v ===== *)
(** * The garbage collected heap of the engine (quickjs.c)

    Objects with a reference count, the lists of the collector, and every function that marks or releases references: [mark_children]
    with the mark function of each class, [free_object] with the finalizer of each class, [free_zero_refcount] for
    counts that reach zero and [JS_RunGC] for cycles.

    A pointer is an integer, the heap a finite map: an access to a freed object is undefined.  Of a value only the pointers to
    garbage collected objects are kept; strings, symbols and big numbers have counts of their own and
    no references.  An intrusive list is the list of its elements (ListHead.v).  The collector
    never allocates, so the allocator is not involved. *)

From stdpp Require Import gmap.
From S2P Require Import Prelude.
#[local] Open Scope Z_scope.

(** ** Data *)

Inductive JSValue := JS_OBJECT (p : Z) | JS_FUNCTION_BYTECODE (p : Z) | JS_SCALAR (bits : Z).
Definition JS_UNDEFINED : JSValue := JS_SCALAR 3.
Definition JS_ATOM_NULL : Z := 0.

(** The union of a property, by the type bits of its flags: a value, [JS_PROP_GETSET], [JS_PROP_VARREF], [JS_PROP_AUTOINIT]. *)
Inductive JSPropertyU :=
| PROP_VALUE (value : JSValue)
| PROP_GETSET (getter setter : option Z)
| PROP_VARREF (var_ref : Z)
| PROP_AUTOINIT (realm : Z).

(** A property of the shape with its slot in the object. *)
Record JSProperty := MkJSProperty { atom : Z; prop_u : JSPropertyU }.

(** A suspended or running frame. [arg_buf] holds the arguments, the variables and the stack up to [cur_sp]; [frame] names the list
    [var_ref_list] of the variables captured while they are on the stack. *)
Record JSAsyncFunctionState := MkJSAsyncFunctionState {
  cur_func : JSValue; this_val : JSValue; arg_buf : option (list JSValue); arg_count : Z; cur_sp_null : bool; frame : Z }.

Record JSMapRecord := MkJSMapRecord { mr_id : Z; mr_ref_count : Z; mr_empty : bool; mr_key : JSValue; mr_value : JSValue }.
Record JSPromiseReactionData := MkJSPromiseReactionData { rd_resolving0 : JSValue; rd_resolving1 : JSValue; rd_handler : JSValue }.
Record JSAsyncGeneratorRequest := MkJSAsyncGeneratorRequest {
  req_result : JSValue; req_promise : JSValue; req_resolving0 : JSValue; req_resolving1 : JSValue }.

Inductive JSGeneratorStateEnum :=
  JS_GENERATOR_STATE_SUSPENDED_START | JS_GENERATOR_STATE_SUSPENDED_YIELD | JS_GENERATOR_STATE_SUSPENDED_YIELD_STAR
| JS_GENERATOR_STATE_EXECUTING | JS_GENERATOR_STATE_COMPLETED.
#[global] Instance JSGeneratorStateEnum_eq_dec : EqDecision JSGeneratorStateEnum.
Proof. solve_decision. Defined.

Inductive JSAsyncGeneratorStateEnum :=
  JS_ASYNC_GENERATOR_STATE_SUSPENDED_START | JS_ASYNC_GENERATOR_STATE_SUSPENDED_YIELD
| JS_ASYNC_GENERATOR_STATE_SUSPENDED_YIELD_STAR | JS_ASYNC_GENERATOR_STATE_EXECUTING
| JS_ASYNC_GENERATOR_STATE_AWAITING_RETURN | JS_ASYNC_GENERATOR_STATE_COMPLETED.
#[global] Instance JSAsyncGeneratorStateEnum_eq_dec : EqDecision JSAsyncGeneratorStateEnum.
Proof. solve_decision. Defined.

(** The union [u] of an object with its class. A class without references, or an opaque pointer that is NULL, is [CD_none]. *)
Inductive class_data :=
| CD_none
| CD_array (values : list JSValue)
| CD_object_data (object_data : JSValue)
| CD_cfunc (realm : option Z)
| CD_func (home_object function_bytecode : option Z) (var_refs : option (list (option Z)))
| CD_bound_function (func_obj this_val : JSValue) (argv : list JSValue)
| CD_c_function_data (data : list JSValue)
| CD_for_in_iterator (obj : JSValue)
| CD_typed_array (buffer : Z)
| CD_map (is_weak : bool) (records : list JSMapRecord)
| CD_map_iterator (obj : JSValue) (cur_record : option Z)
| CD_array_iterator (obj : JSValue)
| CD_regexp_string_iterator (iterating_regexp iterated_string : JSValue)
| CD_generator (state : JSGeneratorStateEnum) (func_state : JSAsyncFunctionState)
| CD_proxy (target handler : JSValue)
| CD_promise (promise_reactions0 promise_reactions1 : list JSPromiseReactionData) (promise_result : JSValue)
| CD_promise_function (promise : JSValue)
| CD_async_function_resolve (s : Z)
| CD_async_from_sync_iterator (sync_iter next_method : JSValue)
| CD_async_generator (queue : list JSAsyncGeneratorRequest) (state : JSAsyncGeneratorStateEnum) (func_state : JSAsyncFunctionState)
| CD_operator_set (self_ops : list (option Z)) (ops_left ops_right : list (list (option Z))).

Record JSModuleDef := MkJSModuleDef { export_var_refs : list (option Z); module_values : list JSValue }.

(** The contents of a garbage collected object, by [JSGCObjectTypeEnum]. [shape] is NULL in a zombie: an object that was released but
    whose memory is still referenced. A weak reference is a map and a record of it.  The
    [values] of a context are those [JS_MarkContext] visits, in its order. *)
Inductive gc_data :=
| GC_OBJ (shape : option Z) (prop : list JSProperty) (u : class_data) (first_weak_ref : list (Z * Z)) (free_mark : bool)
| GC_BYTECODE (cpool : list JSValue) (realm : option Z)
| GC_SHAPE (proto : option Z)
| GC_VAR_REF (is_detached is_arg : bool) (var_idx : Z) (value : JSValue)
| GC_ASYNC (is_active : bool) (func_state : JSAsyncFunctionState) (resolving0 resolving1 : JSValue)
| GC_CONTEXT (loaded_modules : list JSModuleDef) (values : list JSValue) (array_shape : option Z).

(** [JSGCObjectHeader] with the object behind it. *)
Record gc_object := MkGCObject { ref_count : Z; mark : Z; data : gc_data }.

Inductive JSGCPhaseEnum := JS_GC_PHASE_NONE | JS_GC_PHASE_DECREF | JS_GC_PHASE_REMOVE_CYCLES.
#[global] Instance JSGCPhaseEnum_eq_dec : EqDecision JSGCPhaseEnum.
Proof. solve_decision. Defined.

Record JSRuntime := MkJSRuntime {
  heap : gmap Z gc_object;
  gc_obj_list : list Z;
  gc_zero_ref_count_list : list Z;
  tmp_obj_list : list Z;
  var_ref_lists : gmap Z (list Z);   (* the captured variables of each frame *)
  gc_phase : JSGCPhaseEnum }.

(** ** Operations on the runtime *)

Definition op : Type := JSRuntime -> outcome JSRuntime.
Definition skip : op := fun rt => mret rt.
Definition seq (f g : op) : op := fun rt => rt ← f rt; g rt.
Notation "f ;;; g" := (seq f g) (at level 100, right associativity).
Fixpoint each {A} (f : A -> op) (l : list A) : op :=
  match l with [] => skip | x :: l => f x ;;; each f l end.
Definition opt {A} (f : A -> op) (o : option A) : op := match o with Some x => f x | None => skip end.

Definition set_heap (h : gmap Z gc_object) (rt : JSRuntime) : JSRuntime :=
  MkJSRuntime h (gc_obj_list rt) (gc_zero_ref_count_list rt) (tmp_obj_list rt) (var_ref_lists rt) (gc_phase rt).
Definition set_lists (gc zero tmp : list Z) (rt : JSRuntime) : JSRuntime :=
  MkJSRuntime (heap rt) gc zero tmp (var_ref_lists rt) (gc_phase rt).
Definition set_frames (fr : gmap Z (list Z)) (rt : JSRuntime) : JSRuntime :=
  MkJSRuntime (heap rt) (gc_obj_list rt) (gc_zero_ref_count_list rt) (tmp_obj_list rt) fr (gc_phase rt).
Definition set_phase (ph : JSGCPhaseEnum) : op := fun rt =>
  mret (MkJSRuntime (heap rt) (gc_obj_list rt) (gc_zero_ref_count_list rt) (tmp_obj_list rt) (var_ref_lists rt) ph).

(** An access to an object; undefined when it is freed. *)
Definition get (p : Z) (rt : JSRuntime) : outcome gc_object :=
  match heap rt !! p with Some o => mret o | None => Undef end.
Definition update (p : Z) (f : gc_object -> gc_object) : op := fun rt =>
  o ← get p rt; mret (set_heap (<[p := f o]> (heap rt)) rt).
Definition set_ref_count (n : Z) (o : gc_object) : gc_object := MkGCObject n (mark o) (data o).
Definition set_mark (m : Z) (o : gc_object) : gc_object := MkGCObject (ref_count o) m (data o).
Definition set_data (d : gc_data) (o : gc_object) : gc_object := MkGCObject (ref_count o) (mark o) d.

Definition js_free_rt (p : Z) : op := fun rt => _ ← get p rt; mret (set_heap (delete p (heap rt)) rt).

(** [p->link] is in at most one list; [list_del] takes it out of there. *)
Definition remove_one (p : Z) (l : list Z) : list Z := filter (fun q => q <> p) l.
Definition list_del (p : Z) : op := fun rt =>
  let frames := var_ref_lists rt in
  if bool_decide (p ∈ gc_obj_list rt) || bool_decide (p ∈ gc_zero_ref_count_list rt) || bool_decide (p ∈ tmp_obj_list rt)
     || existsb (fun '(_, l) => bool_decide (p ∈ l)) (map_to_list frames)
  then mret (set_frames (remove_one p <$> frames)
               (set_lists (remove_one p (gc_obj_list rt)) (remove_one p (gc_zero_ref_count_list rt))
                  (remove_one p (tmp_obj_list rt)) rt))
  else Undef.

Definition add_tail_gc (p : Z) : op := fun rt =>
  mret (set_lists (gc_obj_list rt ++ [p]) (gc_zero_ref_count_list rt) (tmp_obj_list rt) rt).
Definition add_tail_zero (p : Z) : op := fun rt =>
  mret (set_lists (gc_obj_list rt) (gc_zero_ref_count_list rt ++ [p]) (tmp_obj_list rt) rt).
Definition add_zero (p : Z) : op := fun rt =>
  mret (set_lists (gc_obj_list rt) (p :: gc_zero_ref_count_list rt) (tmp_obj_list rt) rt).
Definition add_tail_tmp (p : Z) : op := fun rt =>
  mret (set_lists (gc_obj_list rt) (gc_zero_ref_count_list rt) (tmp_obj_list rt ++ [p]) rt).

Definition add_gc_object (p : Z) : op := update p (set_mark 0) ;;; add_tail_gc p.
Definition remove_gc_object (p : Z) : op := list_del p.

(** [--p->ref_count] *)
Definition decref (p : Z) (rt : JSRuntime) : outcome (Z * JSRuntime) :=
  o ← get p rt;
  let n := ref_count o - 1 in
  mret (n, set_heap (<[p := set_ref_count n o]> (heap rt)) rt).
Definition incref (p : Z) : op := update p (fun o => set_ref_count (ref_count o + 1) o).

Definition JS_DupValueRT (v : JSValue) : op :=
  match v with JS_OBJECT p | JS_FUNCTION_BYTECODE p => incref p | JS_SCALAR _ => skip end.

(** ** Marking *)

Section Mark.
Context (mark_func : Z -> op).

Definition JS_MarkValue (v : JSValue) : op :=
  match v with JS_OBJECT p | JS_FUNCTION_BYTECODE p => mark_func p | JS_SCALAR _ => skip end.

(** Only a detached variable is an object of the collector. *)
Definition mark_var_ref (p : Z) : op := fun rt =>
  o ← get p rt;
  match data o with
  | GC_VAR_REF is_detached _ _ _ => if is_detached then mark_func p rt else mret rt
  | _ => Undef
  end.

Definition async_func_mark (s : JSAsyncFunctionState) : op :=
  JS_MarkValue (cur_func s) ;;;
  JS_MarkValue (this_val s) ;;;
  if cur_sp_null s then skip else opt (each JS_MarkValue) (arg_buf s).

Definition js_array_mark (values : list JSValue) : op := each JS_MarkValue values.
Definition js_object_data_mark (object_data : JSValue) : op := JS_MarkValue object_data.
Definition js_c_function_mark (realm : option Z) : op := opt mark_func realm.
Definition js_bytecode_function_mark (home_object b : option Z) (var_refs : option (list (option Z))) : op :=
  opt mark_func home_object ;;;
  opt (fun b => opt (each (opt mark_var_ref)) var_refs ;;; mark_func b) b.
Definition js_bound_function_mark (func_obj this_val : JSValue) (argv : list JSValue) : op :=
  JS_MarkValue func_obj ;;; JS_MarkValue this_val ;;; each JS_MarkValue argv.
Definition js_c_function_data_mark (data : list JSValue) : op := each JS_MarkValue data.
Definition js_for_in_iterator_mark (obj : JSValue) : op := JS_MarkValue obj.
Definition js_typed_array_mark (buffer : Z) : op := mark_func buffer.
Definition js_map_mark (is_weak : bool) (records : list JSMapRecord) : op :=
  each (fun mr => (if is_weak then skip else JS_MarkValue (mr_key mr)) ;;; JS_MarkValue (mr_value mr)) records.
Definition js_map_iterator_mark (obj : JSValue) : op := JS_MarkValue obj.
Definition js_array_iterator_mark (obj : JSValue) : op := JS_MarkValue obj.
Definition js_regexp_string_iterator_mark (iterating_regexp iterated_string : JSValue) : op :=
  JS_MarkValue iterating_regexp ;;; JS_MarkValue iterated_string.
Definition js_generator_mark (state : JSGeneratorStateEnum) (func_state : JSAsyncFunctionState) : op :=
  if decide (state = JS_GENERATOR_STATE_COMPLETED) then skip else async_func_mark func_state.
Definition js_proxy_mark (target handler : JSValue) : op := JS_MarkValue target ;;; JS_MarkValue handler.
Definition mark_reaction (rd : JSPromiseReactionData) : op :=
  JS_MarkValue (rd_resolving0 rd) ;;; JS_MarkValue (rd_resolving1 rd) ;;; JS_MarkValue (rd_handler rd).
Definition js_promise_mark (reactions0 reactions1 : list JSPromiseReactionData) (promise_result : JSValue) : op :=
  each mark_reaction reactions0 ;;; each mark_reaction reactions1 ;;; JS_MarkValue promise_result.
Definition js_promise_resolve_function_mark (promise : JSValue) : op := JS_MarkValue promise.
Definition js_async_function_resolve_mark (s : Z) : op := mark_func s.
Definition js_async_from_sync_iterator_mark (sync_iter next_method : JSValue) : op :=
  JS_MarkValue sync_iter ;;; JS_MarkValue next_method.
Definition js_async_generator_mark (queue : list JSAsyncGeneratorRequest) (state : JSAsyncGeneratorStateEnum)
    (func_state : JSAsyncFunctionState) : op :=
  each (fun req => JS_MarkValue (req_result req) ;;; JS_MarkValue (req_promise req) ;;;
                   JS_MarkValue (req_resolving0 req) ;;; JS_MarkValue (req_resolving1 req)) queue ;;;
  if decide (state = JS_ASYNC_GENERATOR_STATE_COMPLETED) then skip
  else if decide (state = JS_ASYNC_GENERATOR_STATE_AWAITING_RETURN) then skip
  else async_func_mark func_state.
Definition js_operator_set_mark (self_ops : list (option Z)) (ops_left ops_right : list (list (option Z))) : op :=
  each (opt mark_func) self_ops ;;; each (each (opt mark_func)) ops_left ;;; each (each (opt mark_func)) ops_right.

(** [rt->class_array[p->class_id].gc_mark] *)
Definition gc_mark (u : class_data) : op :=
  match u with
  | CD_none => skip
  | CD_array values => js_array_mark values
  | CD_object_data v => js_object_data_mark v
  | CD_cfunc realm => js_c_function_mark realm
  | CD_func home b var_refs => js_bytecode_function_mark home b var_refs
  | CD_bound_function f this argv => js_bound_function_mark f this argv
  | CD_c_function_data data => js_c_function_data_mark data
  | CD_for_in_iterator obj => js_for_in_iterator_mark obj
  | CD_typed_array buffer => js_typed_array_mark buffer
  | CD_map is_weak records => js_map_mark is_weak records
  | CD_map_iterator obj _ => js_map_iterator_mark obj
  | CD_array_iterator obj => js_array_iterator_mark obj
  | CD_regexp_string_iterator re s => js_regexp_string_iterator_mark re s
  | CD_generator state fs => js_generator_mark state fs
  | CD_proxy target handler => js_proxy_mark target handler
  | CD_promise r0 r1 result => js_promise_mark r0 r1 result
  | CD_promise_function promise => js_promise_resolve_function_mark promise
  | CD_async_function_resolve s => js_async_function_resolve_mark s
  | CD_async_from_sync_iterator it next => js_async_from_sync_iterator_mark it next
  | CD_async_generator queue state fs => js_async_generator_mark queue state fs
  | CD_operator_set self l r => js_operator_set_mark self l r
  end.

Definition mark_property (pr : JSProperty) : op :=
  if atom pr =? JS_ATOM_NULL then skip
  else
    match prop_u pr with
    | PROP_VALUE v => JS_MarkValue v
    | PROP_GETSET getter setter => opt mark_func getter ;;; opt mark_func setter
    | PROP_VARREF v => mark_var_ref v
    | PROP_AUTOINIT realm => mark_func realm
    end.

Definition js_mark_module_def (m : JSModuleDef) : op :=
  each (opt mark_func) (export_var_refs m) ;;; each JS_MarkValue (module_values m).

Definition JS_MarkContext (modules : list JSModuleDef) (values : list JSValue) (array_shape : option Z) : op :=
  each js_mark_module_def modules ;;; each JS_MarkValue values ;;; opt mark_func array_shape.

Definition mark_data (d : gc_data) : op :=
  match d with
  | GC_OBJ shape prop u _ _ =>
      match shape with
      | Some sh => mark_func sh ;;; each mark_property prop ;;; gc_mark u
      | None => fun _ => Undef
      end
  | GC_BYTECODE cpool realm => each JS_MarkValue cpool ;;; opt mark_func realm
  | GC_VAR_REF is_detached _ _ value => fun rt => _ ← c_assert is_detached; JS_MarkValue value rt
  | GC_ASYNC is_active fs r0 r1 =>
      (if is_active then async_func_mark fs else skip) ;;; JS_MarkValue r0 ;;; JS_MarkValue r1
  | GC_SHAPE proto => opt mark_func proto
  | GC_CONTEXT modules values array_shape => JS_MarkContext modules values array_shape
  end.

Definition mark_children (p : Z) : op := fun rt => o ← get p rt; mark_data (data o) rt.
End Mark.

(** ** Releasing references

    [free_zero_refcount] is called when a count reaches zero outside of the collector; it calls the functions below again, so
    that they take it as an argument. *)
Section Free.
Context (free_zero_refcount : op).

(** For the two tags of garbage collected values; the count is zero. *)
Definition __JS_FreeValueRT (p : Z) : op := fun rt =>
  if decide (gc_phase rt = JS_GC_PHASE_REMOVE_CYCLES) then mret rt
  else
    rt ← (list_del p ;;; add_zero p) rt;
    if decide (gc_phase rt = JS_GC_PHASE_NONE) then free_zero_refcount rt else mret rt.

Definition JS_FreeValueRT (v : JSValue) : op := fun rt =>
  match v with
  | JS_OBJECT p | JS_FUNCTION_BYTECODE p =>
      '(n, rt) ← decref p rt;
      if n <=? 0 then __JS_FreeValueRT p rt else mret rt
  | JS_SCALAR _ => mret rt
  end.
Definition free_obj (p : Z) : op := JS_FreeValueRT (JS_OBJECT p).

Definition js_free_shape0 (sh : Z) : op := fun rt =>
  o ← get sh rt;
  match data o with
  | GC_SHAPE proto =>
      _ ← c_assert (ref_count o =? 0);
      (opt free_obj proto ;;; remove_gc_object sh ;;; js_free_rt sh) rt
  | _ => Undef
  end.
Definition js_free_shape (sh : Z) : op := fun rt =>
  '(n, rt) ← decref sh rt; if n <=? 0 then js_free_shape0 sh rt else mret rt.
Definition js_free_shape_null (sh : option Z) : op := opt js_free_shape sh.

Definition free_var_ref (var_ref : option Z) : op := opt (fun p rt =>
  o ← get p rt;
  _ ← c_assert (0 <? ref_count o);
  '(n, rt) ← decref p rt;
  if n =? 0 then
    match data o with
    | GC_VAR_REF is_detached _ _ value =>
        ((if is_detached then JS_FreeValueRT value ;;; remove_gc_object p else list_del p) ;;; js_free_rt p) rt
    | _ => Undef
    end
  else mret rt) var_ref.

Definition js_free_module_def (m : JSModuleDef) : op :=
  each free_var_ref (export_var_refs m) ;;; each JS_FreeValueRT (module_values m).

Definition JS_FreeContext (ctx : Z) : op := fun rt =>
  '(n, rt) ← decref ctx rt;
  if n >? 0 then mret rt
  else
    _ ← c_assert (n =? 0);
    o ← get ctx rt;
    match data o with
    | GC_CONTEXT modules values array_shape =>
        (each js_free_module_def modules ;;; each JS_FreeValueRT values ;;; js_free_shape_null array_shape ;;;
         remove_gc_object ctx ;;; js_free_rt ctx) rt
    | _ => Undef
    end.

(** The captured variables of a frame get the value they had on the stack. *)
Definition close_var_ref (sf : JSAsyncFunctionState) (p : Z) : op := fun rt =>
  o ← get p rt;
  match data o with
  | GC_VAR_REF _ is_arg var_idx _ =>
      v ← aget (default [] (arg_buf sf)) (if is_arg : bool then var_idx else arg_count sf + var_idx);
      (JS_DupValueRT v ;;; update p (set_data (GC_VAR_REF true is_arg var_idx v)) ;;; add_gc_object p) rt
  | _ => Undef
  end.
Definition close_var_refs (sf : JSAsyncFunctionState) : op := fun rt =>
  each (close_var_ref sf) (default [] (var_ref_lists rt !! frame sf)) (set_frames (delete (frame sf) (var_ref_lists rt)) rt).

Definition async_func_free (s : JSAsyncFunctionState) : op :=
  close_var_refs s ;;;
  opt (fun stack rt => _ ← c_assert (negb (cur_sp_null s)); each JS_FreeValueRT stack rt) (arg_buf s) ;;;
  JS_FreeValueRT (cur_func s) ;;;
  JS_FreeValueRT (this_val s).

Definition js_async_function_terminate (is_active : bool) (s : JSAsyncFunctionState) : op :=
  if is_active then async_func_free s else skip.

Definition js_async_function_free0 (s : Z) : op := fun rt =>
  o ← get s rt;
  match data o with
  | GC_ASYNC is_active fs r0 r1 =>
      (js_async_function_terminate is_active fs ;;; JS_FreeValueRT r0 ;;; JS_FreeValueRT r1 ;;;
       remove_gc_object s ;;; js_free_rt s) rt
  | _ => Undef
  end.
Definition js_async_function_free (s : Z) : op := fun rt =>
  '(n, rt) ← decref s rt; if n =? 0 then js_async_function_free0 s rt else mret rt.

Definition js_autoinit_free (realm : Z) : op := JS_FreeContext realm.

Definition free_property (pr : JSProperty) : op :=
  match prop_u pr with
  | PROP_VALUE v => JS_FreeValueRT v
  | PROP_GETSET getter setter => opt free_obj getter ;;; opt free_obj setter
  | PROP_VARREF v => free_var_ref (Some v)
  | PROP_AUTOINIT realm => js_autoinit_free realm
  end.

(** *** Records of maps *)

Definition set_class (u : class_data) (o : gc_object) : gc_object :=
  match data o with
  | GC_OBJ sh prop _ weak fm => set_data (GC_OBJ sh prop u weak fm) o
  | _ => o
  end.
Definition get_class (p : Z) (rt : JSRuntime) : outcome class_data :=
  o ← get p rt; match data o with GC_OBJ _ _ u _ _ => mret u | _ => Undef end.

Definition find_record (id : Z) (records : list JSMapRecord) : option JSMapRecord :=
  List.find (fun mr => mr_id mr =? id) records.
Definition drop_record (id : Z) (records : list JSMapRecord) : list JSMapRecord :=
  filter (fun mr => mr_id mr <> id) records.

Definition map_decref_record (map id : Z) : op := fun rt =>
  u ← get_class map rt;
  match u with
  | CD_map is_weak records =>
      match find_record id records with
      | Some mr =>
          let n := mr_ref_count mr - 1 in
          if n =? 0 then
            _ ← c_assert (mr_empty mr);
            update map (set_class (CD_map is_weak (drop_record id records))) rt
          else
            let dec mr := if mr_id mr =? id
                          then MkJSMapRecord id n (mr_empty mr) (mr_key mr) (mr_value mr) else mr in
            update map (set_class (CD_map is_weak (dec <$> records))) rt
      | None => Undef
      end
  | _ => Undef
  end.

Definition set_weak_refs (weak : list (Z * Z)) (o : gc_object) : gc_object :=
  match data o with
  | GC_OBJ sh prop u _ fm => set_data (GC_OBJ sh prop u weak fm) o
  | _ => o
  end.

(** [map] holds the record [mr]: its key forgets the record. *)
Definition delete_weak_ref (map : Z) (mr : JSMapRecord) : op := fun rt =>
  match mr_key mr with
  | JS_OBJECT p =>
      o ← get p rt;
      match data o with
      | GC_OBJ _ _ _ weak _ =>
          _ ← c_assert (bool_decide ((map, mr_id mr) ∈ weak));
          update p (set_weak_refs (filter (fun w => w <> (map, mr_id mr)) weak)) rt
      | _ => Undef
      end
  | _ => Undef
  end.

(** First pass: take the record out of its map. *)
Fixpoint unlink_records (weak : list (Z * Z)) (rt : JSRuntime) : outcome (list JSValue * JSRuntime) :=
  match weak with
  | [] => mret ([], rt)
  | (map, id) :: weak =>
      u ← get_class map rt;
      match u with
      | CD_map is_weak records =>
          _ ← c_assert is_weak;
          match find_record id records with
          | Some mr =>
              _ ← c_assert (negb (mr_empty mr));
              rt ← update map (set_class (CD_map is_weak (drop_record id records))) rt;
              '(vs, rt) ← unlink_records weak rt;
              mret (mr_value mr :: vs, rt)
          | None => Undef
          end
      | _ => Undef
      end
  end.
Definition reset_weak_ref (p : Z) (weak : list (Z * Z)) : op := fun rt =>
  '(vs, rt) ← unlink_records weak rt;
  (each JS_FreeValueRT vs ;;; update p (set_weak_refs [])) rt.

Definition JS_IsLiveObject (v : JSValue) (rt : JSRuntime) : outcome bool :=
  match v with
  | JS_OBJECT p =>
      o ← get p rt; match data o with GC_OBJ _ _ _ _ free_mark => mret (negb free_mark) | _ => Undef end
  | _ => mret false
  end.

(** *** Finalizers *)

Definition js_array_finalizer (values : list JSValue) : op := each JS_FreeValueRT values.
Definition js_object_data_finalizer (object_data : JSValue) : op := JS_FreeValueRT object_data.
Definition js_c_function_finalizer (realm : option Z) : op := opt JS_FreeContext realm.
Definition js_bytecode_function_finalizer (home_object b : option Z) (var_refs : option (list (option Z))) : op :=
  opt free_obj home_object ;;;
  opt (fun b => opt (each free_var_ref) var_refs ;;; JS_FreeValueRT (JS_FUNCTION_BYTECODE b)) b.
Definition js_bound_function_finalizer (func_obj this_val : JSValue) (argv : list JSValue) : op :=
  JS_FreeValueRT func_obj ;;; JS_FreeValueRT this_val ;;; each JS_FreeValueRT argv.
Definition js_c_function_data_finalizer (data : list JSValue) : op := each JS_FreeValueRT data.
Definition js_for_in_iterator_finalizer (obj : JSValue) : op := JS_FreeValueRT obj.
(** The list of the views of the buffer is not modelled; whether it is still there is looked up. *)
Definition js_typed_array_finalizer (buffer : Z) : op := fun rt =>
  _ ← JS_IsLiveObject (JS_OBJECT buffer) rt; free_obj buffer rt.
Definition js_map_finalizer (map : Z) (is_weak : bool) (records : list JSMapRecord) : op :=
  each (fun mr =>
    if mr_empty mr then skip
    else (if is_weak then delete_weak_ref map mr else JS_FreeValueRT (mr_key mr)) ;;; JS_FreeValueRT (mr_value mr)) records.
Definition js_map_iterator_finalizer (obj : JSValue) (cur_record : option Z) : op := fun rt =>
  live ← JS_IsLiveObject obj rt;
  rt ← match obj, cur_record with
       | JS_OBJECT map, Some id => if live : bool then map_decref_record map id rt else mret rt
       | _, _ => mret rt
       end;
  JS_FreeValueRT obj rt.
Definition js_array_iterator_finalizer (obj : JSValue) : op := JS_FreeValueRT obj.
Definition js_regexp_string_iterator_finalizer (iterating_regexp iterated_string : JSValue) : op :=
  JS_FreeValueRT iterating_regexp ;;; JS_FreeValueRT iterated_string.
Definition free_generator_stack_rt (state : JSGeneratorStateEnum) (func_state : JSAsyncFunctionState) : op :=
  if decide (state = JS_GENERATOR_STATE_COMPLETED) then skip else async_func_free func_state.
Definition js_generator_finalizer (state : JSGeneratorStateEnum) (func_state : JSAsyncFunctionState) : op :=
  free_generator_stack_rt state func_state.
Definition js_proxy_finalizer (target handler : JSValue) : op := JS_FreeValueRT target ;;; JS_FreeValueRT handler.
Definition promise_reaction_data_free (rd : JSPromiseReactionData) : op :=
  JS_FreeValueRT (rd_resolving0 rd) ;;; JS_FreeValueRT (rd_resolving1 rd) ;;; JS_FreeValueRT (rd_handler rd).
Definition js_promise_finalizer (reactions0 reactions1 : list JSPromiseReactionData) (promise_result : JSValue) : op :=
  each promise_reaction_data_free reactions0 ;;; each promise_reaction_data_free reactions1 ;;;
  JS_FreeValueRT promise_result.
Definition js_promise_resolve_function_finalizer (promise : JSValue) : op := JS_FreeValueRT promise.
Definition js_async_function_resolve_finalizer (s : Z) : op := js_async_function_free s.
Definition js_async_from_sync_iterator_finalizer (sync_iter next_method : JSValue) : op :=
  JS_FreeValueRT sync_iter ;;; JS_FreeValueRT next_method.
Definition js_async_generator_free (queue : list JSAsyncGeneratorRequest) (state : JSAsyncGeneratorStateEnum)
    (func_state : JSAsyncFunctionState) : op :=
  each (fun req => JS_FreeValueRT (req_result req) ;;; JS_FreeValueRT (req_promise req) ;;;
                   JS_FreeValueRT (req_resolving0 req) ;;; JS_FreeValueRT (req_resolving1 req)) queue ;;;
  if decide (state = JS_ASYNC_GENERATOR_STATE_COMPLETED) then skip
  else if decide (state = JS_ASYNC_GENERATOR_STATE_AWAITING_RETURN) then skip
  else async_func_free func_state.
Definition js_async_generator_finalizer (queue : list JSAsyncGeneratorRequest) (state : JSAsyncGeneratorStateEnum)
    (func_state : JSAsyncFunctionState) : op := js_async_generator_free queue state func_state.
Definition js_operator_set_finalizer (self_ops : list (option Z)) (ops_left ops_right : list (list (option Z))) : op :=
  each (opt free_obj) self_ops ;;; each (each (opt free_obj)) ops_left ;;; each (each (opt free_obj)) ops_right.

(** [rt->class_array[p->class_id].finalizer] *)
Definition finalizer (p : Z) (u : class_data) : op :=
  match u with
  | CD_none => skip
  | CD_array values => js_array_finalizer values
  | CD_object_data v => js_object_data_finalizer v
  | CD_cfunc realm => js_c_function_finalizer realm
  | CD_func home b var_refs => js_bytecode_function_finalizer home b var_refs
  | CD_bound_function f this argv => js_bound_function_finalizer f this argv
  | CD_c_function_data data => js_c_function_data_finalizer data
  | CD_for_in_iterator obj => js_for_in_iterator_finalizer obj
  | CD_typed_array buffer => js_typed_array_finalizer buffer
  | CD_map is_weak records => js_map_finalizer p is_weak records
  | CD_map_iterator obj cur => js_map_iterator_finalizer obj cur
  | CD_array_iterator obj => js_array_iterator_finalizer obj
  | CD_regexp_string_iterator re s => js_regexp_string_iterator_finalizer re s
  | CD_generator state fs => js_generator_finalizer state fs
  | CD_proxy target handler => js_proxy_finalizer target handler
  | CD_promise r0 r1 result => js_promise_finalizer r0 r1 result
  | CD_promise_function promise => js_promise_resolve_function_finalizer promise
  | CD_async_function_resolve s => js_async_function_resolve_finalizer s
  | CD_async_from_sync_iterator it next => js_async_from_sync_iterator_finalizer it next
  | CD_async_generator queue state fs => js_async_generator_finalizer queue state fs
  | CD_operator_set self l r => js_operator_set_finalizer self l r
  end.

(** *** Objects *)

(** The end of [free_object] and [free_function_bytecode]: the memory goes when nothing refers to it, or at the end
    of [gc_free_cycles]. *)
Definition free_or_keep (p : Z) : op :=
  remove_gc_object p ;;;
  (fun rt =>
     o ← get p rt;
     if decide (gc_phase rt = JS_GC_PHASE_REMOVE_CYCLES /\ ref_count o <> 0) then add_tail_zero p rt
     else js_free_rt p rt).

Definition set_free_mark (o : gc_object) : gc_object :=
  match data o with
  | GC_OBJ sh prop u weak _ => set_data (GC_OBJ sh prop u weak true) o
  | _ => o
  end.
Definition zombie : gc_data := GC_OBJ None [] CD_none [] true.

Definition free_object (p : Z) : op := fun rt =>
  rt ← update p set_free_mark rt;
  o ← get p rt;
  match data o with
  | GC_OBJ (Some sh) prop _ weak _ =>
      rt ← (each free_property prop ;;; js_free_shape sh) rt;
      rt ← (match weak with [] => skip | _ => reset_weak_ref p weak end) rt;
      u ← get_class p rt;
      (finalizer p u ;;; update p (set_data zombie) ;;; free_or_keep p) rt
  | _ => Undef
  end.

Definition free_function_bytecode (b : Z) : op := fun rt =>
  o ← get b rt;
  match data o with
  | GC_BYTECODE cpool realm =>
      (each JS_FreeValueRT cpool ;;; opt JS_FreeContext realm ;;;
       update b (set_data (GC_BYTECODE [] None)) ;;; free_or_keep b) rt
  | _ => Undef
  end.

Definition free_gc_object (p : Z) : op := fun rt =>
  o ← get p rt;
  match data o with
  | GC_OBJ _ _ _ _ _ => free_object p rt
  | GC_BYTECODE _ _ => free_function_bytecode p rt
  | _ => Undef
  end.
End Free.

(** The number of passes is bounded by the objects of the heap: each frees one. *)
Definition free_zero_step (free_zero_refcount : op) (rt : JSRuntime) : outcome (JSRuntime + JSRuntime) :=
  match gc_zero_ref_count_list rt with
  | [] => rt ← set_phase JS_GC_PHASE_NONE rt; mret (inr rt)
  | p :: _ =>
      o ← get p rt;
      _ ← c_assert (ref_count o =? 0);
      rt ← free_gc_object free_zero_refcount p rt;
      mret (inl rt)
  end.
Fixpoint free_zero_refcount (depth : nat) : op := fun rt =>
  match depth with
  | O => Fuel
  | S depth =>
      rt ← set_phase JS_GC_PHASE_DECREF rt;
      loop (S (size (heap rt))) (free_zero_step (free_zero_refcount depth)) rt
  end.

(** ** Garbage collection *)

(** The element behind [p] of a list; [None] is the head. *)
Fixpoint next_of (p : Z) (l : list Z) : outcome (option Z) :=
  match l with
  | [] => Undef
  | q :: l => if p =? q then mret (head l) else next_of p l
  end.

Definition gc_decref_child (p : Z) : op := fun rt =>
  o ← get p rt;
  _ ← c_assert (0 <? ref_count o);
  '(n, rt) ← decref p rt;
  if decide (n = 0 /\ mark o = 1) then (list_del p ;;; add_tail_tmp p) rt else mret rt.

Definition gc_decref_step (st : option Z * JSRuntime) : outcome (option Z * JSRuntime + JSRuntime) :=
  let '(el, rt) := st in
  match el with
  | None => mret (inr rt)
  | Some p =>
      el1 ← next_of p (gc_obj_list rt);
      o ← get p rt;
      _ ← c_assert (mark o =? 0);
      rt ← (mark_children gc_decref_child p ;;; update p (set_mark 1)) rt;
      o ← get p rt;
      rt ← (if ref_count o =? 0 then list_del p ;;; add_tail_tmp p else skip) rt;
      mret (inl (el1, rt))
  end.
Definition gc_decref : op := fun rt =>
  let rt := set_lists (gc_obj_list rt) (gc_zero_ref_count_list rt) [] rt in
  loop (S (S (size (heap rt)))) gc_decref_step (head (gc_obj_list rt), rt).

Definition gc_scan_incref_child (p : Z) : op := fun rt =>
  rt ← incref p rt;
  o ← get p rt;
  if ref_count o =? 1 then (list_del p ;;; add_tail_gc p ;;; update p (set_mark 0)) rt else mret rt.
Definition gc_scan_incref_child2 (p : Z) : op := incref p.

Definition gc_scan_step (st : option Z * JSRuntime) : outcome (option Z * JSRuntime + JSRuntime) :=
  let '(el, rt) := st in
  match el with
  | None => mret (inr rt)
  | Some p =>
      o ← get p rt;
      _ ← c_assert (0 <? ref_count o);
      rt ← (update p (set_mark 0) ;;; mark_children gc_scan_incref_child p) rt;
      el1 ← next_of p (gc_obj_list rt);
      mret (inl (el1, rt))
  end.
Definition gc_scan : op := fun rt =>
  rt ← loop (S (S (size (heap rt)))) gc_scan_step (head (gc_obj_list rt), rt);
  each (mark_children gc_scan_incref_child2) (tmp_obj_list rt) rt.

Definition is_value (d : gc_data) : bool :=
  match d with GC_OBJ _ _ _ _ _ | GC_BYTECODE _ _ => true | _ => false end.

Definition gc_free_step (free_zero_refcount : op) (rt : JSRuntime) : outcome (JSRuntime + JSRuntime) :=
  match tmp_obj_list rt with
  | [] => mret (inr rt)
  | p :: _ =>
      o ← get p rt;
      rt ← (if is_value (data o) then free_gc_object free_zero_refcount p
            else list_del p ;;; add_tail_zero p) rt;
      mret (inl rt)
  end.
Definition gc_free_zombie (p : Z) : op := fun rt =>
  o ← get p rt; _ ← c_assert (is_value (data o)); js_free_rt p rt.
Definition gc_free_cycles (free_zero_refcount : op) : op := fun rt =>
  rt ← set_phase JS_GC_PHASE_REMOVE_CYCLES rt;
  rt ← loop (S (length (tmp_obj_list rt))) (gc_free_step free_zero_refcount) rt;
  rt ← set_phase JS_GC_PHASE_NONE rt;
  rt ← each gc_free_zombie (gc_zero_ref_count_list rt) rt;
  mret (set_lists (gc_obj_list rt) [] (tmp_obj_list rt) rt).

Definition JS_RunGC (depth : nat) : op :=
  gc_decref ;;; gc_scan ;;; gc_free_cycles (free_zero_refcount depth).
