(* ===== verification/GcCount.v ===== *)
(** * References of the garbage collected heap

    The references an object owns, by the kind of their target ([data_refs], in the order of [mark_children]), the count of the
    references to an object ([counted]), the places of the objects in the lists ([located]), and the predicates
    [consumes] and [releases] under which the mark functions and the finalizers of GcHeap.v are taken apart. *)

From stdpp Require Import gmap.
From S2P Require Import Prelude Sums GcHeap.
#[local] Open Scope Z_scope.

(** ** References *)

Inductive ref := RObject (p : Z) | RBytecode (p : Z) | RShape (p : Z) | RVarRef (p : Z) | RContext (p : Z) | RAsync (p : Z).
Definition target (r : ref) : Z :=
  match r with RObject p | RBytecode p | RShape p | RVarRef p | RContext p | RAsync p => p end.

Definition value_refs (v : JSValue) : list ref :=
  match v with JS_OBJECT p => [RObject p] | JS_FUNCTION_BYTECODE p => [RBytecode p] | JS_SCALAR _ => [] end.
Definition opt_refs {A} (f : A -> list ref) (o : option A) : list ref := match o with Some x => f x | None => [] end.
Definition list_refs {A} (f : A -> list ref) (l : list A) : list ref := flat_map f l.
Definition one (k : Z -> ref) (p : Z) : list ref := [k p].

Definition frame_refs (s : JSAsyncFunctionState) : list ref :=
  value_refs (cur_func s) ++ value_refs (this_val s) ++
  if cur_sp_null s then [] else opt_refs (list_refs value_refs) (arg_buf s).
Definition reaction_refs (rd : JSPromiseReactionData) : list ref :=
  value_refs (rd_resolving0 rd) ++ value_refs (rd_resolving1 rd) ++ value_refs (rd_handler rd).
Definition request_refs (req : JSAsyncGeneratorRequest) : list ref :=
  value_refs (req_result req) ++ value_refs (req_promise req) ++ value_refs (req_resolving0 req) ++ value_refs (req_resolving1 req).
Definition record_refs (is_weak : bool) (mr : JSMapRecord) : list ref :=
  (if is_weak then [] else value_refs (mr_key mr)) ++ value_refs (mr_value mr).

Definition class_refs (u : class_data) : list ref :=
  match u with
  | CD_none => []
  | CD_array vs | CD_c_function_data vs => list_refs value_refs vs
  | CD_object_data v | CD_for_in_iterator v | CD_map_iterator v _ | CD_array_iterator v | CD_promise_function v => value_refs v
  | CD_cfunc realm => opt_refs (one RContext) realm
  | CD_func home b var_refs =>
      opt_refs (one RObject) home ++
      opt_refs (fun b => opt_refs (list_refs (opt_refs (one RVarRef))) var_refs ++ [RBytecode b]) b
  | CD_bound_function f this argv => value_refs f ++ value_refs this ++ list_refs value_refs argv
  | CD_typed_array buffer => [RObject buffer]
  | CD_map is_weak records => list_refs (record_refs is_weak) records
  | CD_regexp_string_iterator v w | CD_proxy v w | CD_async_from_sync_iterator v w => value_refs v ++ value_refs w
  | CD_generator state fs => if decide (state = JS_GENERATOR_STATE_COMPLETED) then [] else frame_refs fs
  | CD_promise r0 r1 result => list_refs reaction_refs r0 ++ list_refs reaction_refs r1 ++ value_refs result
  | CD_async_function_resolve s => [RAsync s]
  | CD_async_generator queue state fs =>
      list_refs request_refs queue ++
      if decide (state = JS_ASYNC_GENERATOR_STATE_COMPLETED) then []
      else if decide (state = JS_ASYNC_GENERATOR_STATE_AWAITING_RETURN) then [] else frame_refs fs
  | CD_operator_set self l r =>
      list_refs (opt_refs (one RObject)) self ++ list_refs (list_refs (opt_refs (one RObject))) l ++
      list_refs (list_refs (opt_refs (one RObject))) r
  end.

Definition property_refs (pr : JSProperty) : list ref :=
  if atom pr =? JS_ATOM_NULL then []
  else
    match prop_u pr with
    | PROP_VALUE v => value_refs v
    | PROP_GETSET getter setter => opt_refs (one RObject) getter ++ opt_refs (one RObject) setter
    | PROP_VARREF v => [RVarRef v]
    | PROP_AUTOINIT realm => [RContext realm]
    end.
Definition module_refs (m : JSModuleDef) : list ref :=
  list_refs (opt_refs (one RVarRef)) (export_var_refs m) ++ list_refs value_refs (module_values m).

Definition data_refs (d : gc_data) : list ref :=
  match d with
  | GC_OBJ shape prop u _ _ => opt_refs (one RShape) shape ++ list_refs property_refs prop ++ class_refs u
  | GC_BYTECODE cpool realm => list_refs value_refs cpool ++ opt_refs (one RContext) realm
  | GC_SHAPE proto => opt_refs (one RObject) proto
  | GC_VAR_REF _ _ _ value => value_refs value
  | GC_ASYNC is_active fs r0 r1 => (if is_active then frame_refs fs else []) ++ value_refs r0 ++ value_refs r1
  | GC_CONTEXT modules values array_shape =>
      list_refs module_refs modules ++ list_refs value_refs values ++ opt_refs (one RShape) array_shape
  end.

(** ** Objects without their counts *)

Abbreviation skeleton := (gmap Z gc_data).
Definition skel (h : gmap Z gc_object) : skeleton := data <$> h.

(** The target of a reference is there and of the right kind; captured variables are detached. *)
Definition kind_ok (r : ref) (d : gc_data) : bool :=
  match r, d with
  | RObject _, GC_OBJ _ _ _ _ _ | RBytecode _, GC_BYTECODE _ _ | RShape _, GC_SHAPE _
  | RVarRef _, GC_VAR_REF true _ _ _ | RContext _, GC_CONTEXT _ _ _ | RAsync _, GC_ASYNC _ _ _ _ => true
  | _, _ => false
  end.
Definition ref_ok (D : skeleton) (r : ref) : Prop := exists d, D !! target r = Some d /\ kind_ok r d = true.

(** ** Counting *)

Fixpoint cnt (p : Z) (l : list ref) : Z :=
  match l with [] => 0 | r :: l => (if target r =? p then 1 else 0) + cnt p l end.

Lemma cnt_app p l1 l2 : cnt p (l1 ++ l2) = cnt p l1 + cnt p l2.
Proof. induction l1 as [|r l1 IH]; cbn; lia. Qed.
Lemma cnt_nonneg p l : 0 <= cnt p l.
Proof. induction l as [|r l IH]; cbn; [lia|]. destruct (_ =? _); lia. Qed.
Lemma cnt_perm p l1 l2 : l1 ≡ₚ l2 -> cnt p l1 = cnt p l2.
Proof. induction 1; cbn; lia. Qed.
Lemma cnt_in r l : r ∈ l -> 0 < cnt (target r) l.
Proof.
  induction 1 as [r l|r r' l Hin IH]; cbn.
  - rewrite Z.eqb_refl. pose proof (cnt_nonneg (target r) l). lia.
  - destruct (_ =? _); lia.
Qed.
Lemma cnt_pos p l : 0 < cnt p l -> exists r, r ∈ l /\ target r = p.
Proof.
  induction l as [|r l IH]; cbn; [lia|]. destruct (Z.eqb_spec (target r) p) as [E|E].
  - intros _. exists r. split; [constructor|done].
  - intros Hp. destruct IH as (r' & Hin & Ht); [lia|]. exists r'. split; [by constructor|done].
Qed.

(** The references to [p] from the objects that count: those for which [act] holds. *)
Definition weigh (act : Z -> bool) (p q : Z) (d : gc_data) : Z := if act q then cnt p (data_refs d) else 0.
Definition total (act : Z -> bool) (p : Z) (D : skeleton) : Z := sum_with (weigh act p) D.

Lemma weigh_nonneg act p q d : 0 <= weigh act p q d.
Proof. unfold weigh. pose proof (cnt_nonneg p (data_refs d)). destruct (act q); lia. Qed.

Lemma total_insert act p q d D : D !! q = None -> total act p (<[q := d]> D) = weigh act p q d + total act p D.
Proof. apply sum_insert. Qed.
Lemma total_delete act p q d D : D !! q = Some d -> total act p D = weigh act p q d + total act p (delete q D).
Proof. apply sum_delete. Qed.
Lemma total_nonneg act p D : 0 <= total act p D.
Proof. apply sum_nonneg. intros q d. apply weigh_nonneg. Qed.
Lemma total_ext act act' p D :
  (forall q d, D !! q = Some d -> weigh act p q d = weigh act' p q d) -> total act p D = total act' p D.
Proof. apply sum_ext. Qed.
Lemma total_pos act p D : 0 < total act p D -> exists q d, D !! q = Some d /\ act q = true /\ 0 < cnt p (data_refs d).
Proof. intros (q & d & HD & Hw)%sum_pos. exists q, d. split; [done|]. unfold weigh in Hw. by destruct (act q). Qed.
Lemma total_ge act p q d D : D !! q = Some d -> weigh act p q d <= total act p D.
Proof. apply sum_ge. intros x e. apply weigh_nonneg. Qed.

(** Switching an object on or off. *)
Definition without (act : Z -> bool) (q : Z) : Z -> bool := fun x => if x =? q then false else act x.

Lemma weigh_without act p q d : weigh (without act q) p q d = 0.
Proof. unfold weigh, without. by rewrite Z.eqb_refl. Qed.
Lemma weigh_without_ne act p q q' d : q' <> q -> weigh (without act q) p q' d = weigh act p q' d.
Proof. intros Hne. unfold weigh, without. destruct (Z.eqb_spec q' q); [done|reflexivity]. Qed.

Lemma total_without act p q d D :
  D !! q = Some d -> act q = true -> total act p D = cnt p (data_refs d) + total (without act q) p D.
Proof.
  intros HD Ha. rewrite (total_delete act p q d), (total_delete (without act q) p q d) by done.
  rewrite weigh_without. unfold weigh at 1. rewrite Ha. rewrite Z.add_0_l. f_equal. apply total_ext.
  intros q' d' H'. rewrite weigh_without_ne; [done|]. intros ->. by rewrite lookup_delete_eq in H'.
Qed.

(** ** Counts are right: [l] are the references from elsewhere *)

Record counted (act : Z -> bool) (l : list ref) (h : gmap Z gc_object) : Prop := {
  counted_count p o : h !! p = Some o -> ref_count o = cnt p l + total act p (skel h);
  counted_list r : r ∈ l -> ref_ok (skel h) r;
  counted_refs q d r : skel h !! q = Some d -> act q = true -> r ∈ data_refs d -> ref_ok (skel h) r }.

Lemma skel_lookup h p o : h !! p = Some o -> skel h !! p = Some (data o).
Proof. intros E. unfold skel. by rewrite lookup_fmap, E. Qed.
Lemma skel_inv h p d : skel h !! p = Some d -> exists o, h !! p = Some o /\ data o = d.
Proof. unfold skel. rewrite lookup_fmap. destruct (h !! p) as [o|]; [|done]. intros [= <-]. by exists o. Qed.
Lemma skel_insert h p o : skel (<[p := o]> h) = <[p := data o]> (skel h).
Proof. apply fmap_insert. Qed.
Lemma skel_insert_same h p o o' : h !! p = Some o -> data o' = data o -> skel (<[p := o']> h) = skel h.
Proof. intros E Ed. rewrite skel_insert, Ed. apply insert_id. by apply skel_lookup. Qed.
Lemma skel_delete h p : skel (delete p h) = delete p (skel h).
Proof. apply fmap_delete. Qed.

Lemma counted_nonneg act l h p o : counted act l h -> h !! p = Some o -> 0 <= ref_count o.
Proof.
  intros Hc E. rewrite (counted_count _ _ _ Hc p o E).
  pose proof (cnt_nonneg p l). pose proof (total_nonneg act p (skel h)). lia.
Qed.

Lemma counted_perm act l l' h : l ≡ₚ l' -> counted act l h -> counted act l' h.
Proof.
  intros Hp [H1 H2 H3]. split.
  - intros p o E. rewrite <- (cnt_perm p l l' Hp). by apply H1.
  - intros r Hr. apply H2. by rewrite Hp.
  - done.
Qed.

(** A change of the counts only. *)
Lemma counted_set act l h p o n m :
  counted act l h -> h !! p = Some o -> forall l',
  n = ref_count o + cnt p l' - cnt p l -> (forall q, q <> p -> cnt q l' = cnt q l) -> (forall r, r ∈ l' -> ref_ok (skel h) r) ->
  counted act l' (<[p := MkGCObject n m (data o)]> h).
Proof.
  intros [H1 H2 H3] E l' Hn Hne Hok.
  assert (Es : skel (<[p := MkGCObject n m (data o)]> h) = skel h) by (by apply (skel_insert_same h p o)).
  split; rewrite Es; [|done|done]. intros q oq Eq.
  destruct (decide (q = p)) as [->|Hq].
  - rewrite lookup_insert_eq in Eq. injection Eq as <-. cbn. rewrite Hn, (H1 p o E). lia.
  - rewrite lookup_insert_ne in Eq by done. rewrite (H1 q oq Eq), Hne by done. lia.
Qed.

Lemma counted_decref act r l h o m :
  counted act (r :: l) h -> h !! target r = Some o ->
  counted act l (<[target r := MkGCObject (ref_count o - 1) m (data o)]> h).
Proof.
  intros Hc E. apply (counted_set act (r :: l) h (target r) o _ _ Hc E).
  - cbn. rewrite Z.eqb_refl. lia.
  - intros q Hq. cbn. destruct (Z.eqb_spec (target r) q); [congruence|lia].
  - intros r' Hr'. apply (counted_list _ _ _ Hc). by constructor.
Qed.
Lemma counted_incref act r l h o m :
  counted act l h -> ref_ok (skel h) r -> h !! target r = Some o ->
  counted act (r :: l) (<[target r := MkGCObject (ref_count o + 1) m (data o)]> h).
Proof.
  intros Hc Hr E. apply (counted_set act l h (target r) o _ _ Hc E).
  - cbn. rewrite Z.eqb_refl. lia.
  - intros q Hq. cbn. destruct (Z.eqb_spec (target r) q); [congruence|lia].
  - intros r' Hr'. apply elem_of_cons in Hr' as [->|Hr']; [done|]. by apply (counted_list _ _ _ Hc).
Qed.

(** The references of [q] become references from elsewhere, and back. *)
Lemma counted_expose act l h q d :
  counted act l h -> skel h !! q = Some d -> act q = true -> counted (without act q) (data_refs d ++ l) h.
Proof.
  intros [H1 H2 H3] E Ha. split.
  - intros p o Ep. rewrite (H1 p o Ep), cnt_app, (total_without act p q d) by done. lia.
  - intros r Hr. apply elem_of_app in Hr as [Hr|Hr]; [|by apply H2]. by apply (H3 q d).
  - intros q' d' r E' Ha'. unfold without in Ha'. destruct (Z.eqb_spec q' q); [done|]. intros Hr. by apply (H3 q' d').
Qed.
Lemma counted_absorb act l h q d :
  counted (without act q) (data_refs d ++ l) h -> skel h !! q = Some d -> act q = true -> counted act l h.
Proof.
  intros [H1 H2 H3] E Ha. split.
  - intros p o Ep. rewrite (H1 p o Ep), cnt_app, (total_without act p q d) by done. lia.
  - intros r Hr. apply H2. apply elem_of_app. by right.
  - intros q' d' r E' Ha' Hr. destruct (decide (q' = q)) as [->|Hne].
    + apply H2. apply elem_of_app. left. congruence.
    + apply (H3 q' d'); [done| |done]. unfold without. destruct (Z.eqb_spec q' q); done.
Qed.
Lemma counted_act act act' l h : (forall q d, skel h !! q = Some d -> act q = act' q) -> counted act l h -> counted act' l h.
Proof.
  intros Ha [H1 H2 H3]. split.
  - intros p o E. rewrite (H1 p o E). f_equal. apply total_ext. intros q d Eq. unfold weigh. by rewrite (Ha q d Eq).
  - done.
  - intros q d r E Hq. apply (H3 q d); [done|]. by rewrite (Ha q d E).
Qed.

(** Nobody refers to an object of count zero. *)
Lemma counted_zero act l h p o :
  counted act l h -> h !! p = Some o -> ref_count o = 0 ->
  (forall r, r ∈ l -> target r <> p) /\
  (forall q d r, skel h !! q = Some d -> act q = true -> r ∈ data_refs d -> target r <> p).
Proof.
  intros Hc E E0. rewrite (counted_count _ _ _ Hc p o E) in E0.
  pose proof (cnt_nonneg p l). pose proof (total_nonneg act p (skel h)). split.
  - intros r Hr Ht. apply cnt_in in Hr. rewrite Ht in Hr. lia.
  - intros q d r Eq Ha Hr Ht. pose proof (total_ge act p q d _ Eq) as Hw. unfold weigh in Hw. rewrite Ha in Hw.
    apply cnt_in in Hr. rewrite Ht in Hr. lia.
Qed.

Lemma ref_ok_delete D r p : ref_ok D r -> target r <> p -> ref_ok (delete p D) r.
Proof. intros (d & E & K) Hne. exists d. by rewrite lookup_delete_ne by done. Qed.

(** Freeing an object nobody refers to and whose references are gone. *)
Lemma counted_free act l h p o :
  counted (without act p) l h -> h !! p = Some o -> ref_count o = 0 -> counted act l (delete p h).
Proof.
  intros Hc E E0. destruct (counted_zero _ _ _ _ _ Hc E E0) as [Hl Hh]. destruct Hc as [H1 H2 H3].
  assert (Hact : forall q d, delete p (skel h) !! q = Some d -> act q = without act p q).
  { intros q d Hq. unfold without. destruct (Z.eqb_spec q p) as [->|]; [|done]. by rewrite lookup_delete_eq in Hq. }
  split; rewrite skel_delete.
  - intros q oq Eq. apply lookup_delete_Some in Eq as [Hne Eq]. rewrite (H1 q oq Eq).
    rewrite (total_delete _ q p (data o)) by (by apply skel_lookup). rewrite weigh_without, Z.add_0_l. f_equal.
    apply total_ext. intros q' d' E'. unfold weigh. by rewrite (Hact q' d' E').
  - intros r Hr. apply ref_ok_delete; [by apply H2|by apply Hl].
  - intros q d r Eq Ha Hr. rewrite (Hact q d Eq) in Ha. apply lookup_delete_Some in Eq as [Hne Eq].
    apply ref_ok_delete; [by apply (H3 q d)|by apply (Hh q d)].
Qed.
