(* ===== verification/GcMark.v ===== *)
(** * Marking and releasing, reference by reference

    [consumes l g]: from a state where the references [l] and others are pending, [g] leads to a state where only the others are.
    If a mark function consumes one reference to its argument then [mark_children] consumes the references of the object; if the
    functions that release one reference consume it then the finalizer of a class consumes what its mark function visits:
    what a class marks is what it releases, which the collector relies on. *)

From stdpp Require Import gmap.
From S2P Require Import Prelude GcHeap GcCount.
#[local] Open Scope Z_scope.

Create HintDb refs.

Section Consume.
Context (J : list ref -> JSRuntime -> Prop).
Hypothesis J_perm : forall l l' rt, l ≡ₚ l' -> J l rt -> J l' rt.

Definition consumes (l : list ref) (g : op) : Prop := forall l' rt, J (l ++ l') rt -> yields (g rt) (J l').

Lemma consumes_skip : consumes [] skip.
Proof. by intros l' rt H. Qed.
Lemma consumes_seq l1 l2 f g : consumes l1 f -> consumes l2 g -> consumes (l1 ++ l2) (f ;;; g).
Proof.
  intros Hf Hg l' rt H. unfold seq. apply yields_bind. rewrite <- app_assoc in H.
  eapply yields_mono; [by apply Hf|]. intros rt' H'. by apply Hg.
Qed.
Lemma consumes_each {A} (f : A -> list ref) (g : A -> op) l :
  Forall (fun x => consumes (f x) (g x)) l -> consumes (list_refs f l) (each g l).
Proof. induction 1 as [|x l Hx Hl IH]; [apply consumes_skip|]. by apply consumes_seq. Qed.
Lemma consumes_all {A} (f : A -> list ref) (g : A -> op) l : (forall x, consumes (f x) (g x)) -> consumes (list_refs f l) (each g l).
Proof. intros H. apply consumes_each. by apply list.Forall_true. Qed.
Lemma consumes_opt {A} (f : A -> list ref) (g : A -> op) o : (forall x, consumes (f x) (g x)) -> consumes (opt_refs f o) (opt g o).
Proof. intros H. destruct o; [apply H|apply consumes_skip]. Qed.
Lemma consumes_perm l1 l2 g : l1 ≡ₚ l2 -> consumes l1 g -> consumes l2 g.
Proof. intros Hp Hg l' rt H. apply Hg. eapply J_perm; [|done]. by rewrite Hp. Qed.
Lemma consumes_swap l1 l2 f g : consumes l2 f -> consumes l1 g -> consumes (l1 ++ l2) (f ;;; g).
Proof. intros Hf Hg. eapply consumes_perm; [|by apply consumes_seq]. by rewrite Permutation_app_comm. Qed.
Lemma consumes_ext l f g : (forall l' rt, J (l ++ l') rt -> f rt = g rt) -> consumes l g -> consumes l f.
Proof. intros E Hg l' rt H. rewrite (E l' rt H). by apply Hg. Qed.
Lemma consumes_if (b : bool) l f g : consumes l f -> consumes l g -> consumes l (if b then f else g).
Proof. by destruct b. Qed.

#[local] Hint Resolve consumes_skip consumes_seq consumes_all consumes_opt : refs.

(** ** Marking *)

Section Mark.
Context (mark_func : Z -> op).
Hypothesis mark_one : forall r, consumes [r] (mark_func (target r)).
Hypothesis detached : forall p l rt, J (RVarRef p :: l) rt ->
  exists o is_arg idx v, heap rt !! p = Some o /\ data o = GC_VAR_REF true is_arg idx v.

Lemma mark_value v : consumes (value_refs v) (JS_MarkValue mark_func v).
Proof. destruct v; cbn; [by apply (mark_one (RObject p))|by apply (mark_one (RBytecode p))|apply consumes_skip]. Qed.
Lemma mark_object p : consumes (one RObject p) (mark_func p).
Proof. apply (mark_one (RObject p)). Qed.
Lemma mark_bytecode p : consumes [RBytecode p] (mark_func p).
Proof. apply (mark_one (RBytecode p)). Qed.
Lemma mark_context p : consumes (one RContext p) (mark_func p).
Proof. apply (mark_one (RContext p)). Qed.
Lemma mark_shape p : consumes (one RShape p) (mark_func p).
Proof. apply (mark_one (RShape p)). Qed.
Lemma mark_module_var p : consumes (one RVarRef p) (mark_func p).
Proof. apply (mark_one (RVarRef p)). Qed.
Lemma mark_async p : consumes [RAsync p] (mark_func p).
Proof. apply (mark_one (RAsync p)). Qed.
Lemma mark_var p : consumes (one RVarRef p) (mark_var_ref mark_func p).
Proof.
  eapply consumes_ext; [|apply mark_module_var]. intros l' rt H.
  destruct (detached _ _ _ H) as (o & is_arg & idx & v & E & Ed). unfold mark_var_ref, get. rewrite E. cbn. by rewrite Ed.
Qed.
#[local] Hint Resolve mark_value mark_object mark_bytecode mark_context mark_shape mark_module_var mark_async mark_var : refs.

Lemma mark_frame s : consumes (frame_refs s) (async_func_mark mark_func s).
Proof.
  unfold frame_refs, async_func_mark. do 2 (apply consumes_seq; [apply mark_value|]).
  destruct (cur_sp_null s); [apply consumes_skip|]. auto with refs.
Qed.
Lemma mark_record is_weak mr :
  consumes (record_refs is_weak mr)
    ((if is_weak then skip else JS_MarkValue mark_func (mr_key mr)) ;;; JS_MarkValue mark_func (mr_value mr)).
Proof. unfold record_refs. destruct is_weak; auto with refs. Qed.

Lemma mark_class u : consumes (class_refs u) (gc_mark mark_func u).
Proof.
  destruct u; cbn; unfold js_array_mark, js_object_data_mark, js_c_function_mark, js_bytecode_function_mark,
    js_bound_function_mark, js_c_function_data_mark, js_for_in_iterator_mark, js_typed_array_mark, js_map_mark,
    js_map_iterator_mark, js_array_iterator_mark, js_regexp_string_iterator_mark, js_generator_mark, js_proxy_mark,
    js_promise_mark, js_promise_resolve_function_mark, js_async_function_resolve_mark, js_async_from_sync_iterator_mark,
    js_async_generator_mark, js_operator_set_mark, reaction_refs, mark_reaction; try solve [auto 8 with refs].
  - apply consumes_all. apply mark_record.
  - case_decide; [apply consumes_skip|apply mark_frame].
  - repeat apply consumes_seq; try apply consumes_all; intros; unfold request_refs; auto 6 with refs.
    repeat case_decide; [apply consumes_skip|apply consumes_skip|apply mark_frame].
Qed.

Lemma mark_prop pr : consumes (property_refs pr) (mark_property mark_func pr).
Proof.
  unfold property_refs, mark_property. destruct (_ =? _); [apply consumes_skip|]. destruct (prop_u pr); auto with refs.
  by apply mark_var.
Qed.
Lemma mark_module m : consumes (module_refs m) (js_mark_module_def mark_func m).
Proof. unfold module_refs, js_mark_module_def. auto with refs. Qed.

(** Not a zombie, not a variable on the stack. *)
Definition markable (d : gc_data) : bool :=
  match d with GC_OBJ None _ _ _ _ => false | GC_VAR_REF is_detached _ _ _ => is_detached | _ => true end.

Lemma mark_data_refs d : markable d = true -> consumes (data_refs d) (mark_data mark_func d).
Proof.
  intros Hd. destruct d as [[sh|] prop u w fm|cpool realm|proto|is_detached ? ? v|is_active fs r0 r1|ms vs sh];
    cbn in *; try done.
  - apply (consumes_seq [RShape sh]); [apply mark_shape|]. apply consumes_seq; [apply consumes_all, mark_prop|apply mark_class].
  - auto with refs.
  - auto with refs.
  - subst is_detached. apply mark_value.
  - apply consumes_seq; [destruct is_active; [apply mark_frame|apply consumes_skip]|auto with refs].
  - unfold JS_MarkContext. apply consumes_seq; [apply consumes_all, mark_module|auto with refs].
Qed.
End Mark.

(** ** Releasing *)

(** Suspended, not running. *)
Definition frame_idle (s : JSAsyncFunctionState) : bool := negb (cur_sp_null s).
Definition record_ok (is_weak : bool) (mr : JSMapRecord) : bool :=
  match mr_empty mr, mr_key mr, mr_value mr with
  | true, JS_SCALAR _, JS_SCALAR _ => true
  | true, _, _ => false
  | false, _, _ => negb is_weak
  end.

(** Objects whose finalizer touches only the counts of what they refer to: no running frame, no weak
    references, no map iterator in the middle of its map. *)
Definition releasable_class (u : class_data) : bool :=
  match u with
  | CD_generator state fs => bool_decide (state = JS_GENERATOR_STATE_COMPLETED) || frame_idle fs
  | CD_async_generator _ state fs =>
      bool_decide (state = JS_ASYNC_GENERATOR_STATE_COMPLETED) ||
      bool_decide (state = JS_ASYNC_GENERATOR_STATE_AWAITING_RETURN) || frame_idle fs
  | CD_map is_weak records => forallb (record_ok is_weak) records
  | CD_map_iterator _ cur => match cur with Some _ => false | None => true end
  | _ => true
  end.
(** A deleted property holds no reference. *)
Definition property_ok (pr : JSProperty) : bool :=
  if atom pr =? JS_ATOM_NULL then match prop_u pr with PROP_VALUE (JS_SCALAR _) => true | _ => false end else true.
Definition releasable (d : gc_data) : bool :=
  match d with
  | GC_OBJ shape prop u weak _ =>
      match shape, weak with Some _, [] => true | _, _ => false end && forallb property_ok prop && releasable_class u
  | GC_ASYNC is_active fs _ _ => negb is_active || frame_idle fs
  | _ => true
  end.

Section Free.
Context (zero : op).
Hypothesis free_value : forall v, consumes (value_refs v) (JS_FreeValueRT zero v).
Hypothesis free_context : forall p, consumes (one RContext p) (JS_FreeContext zero p).
Hypothesis free_var : forall p, consumes (one RVarRef p) (free_var_ref zero (Some p)).
Hypothesis free_async : forall p, consumes [RAsync p] (js_async_function_free zero p).
Hypothesis no_frames : forall l rt, J l rt -> var_ref_lists rt = ∅.
Hypothesis live_object : forall p l rt, J (RObject p :: l) rt ->
  exists o sh prop u w fm, heap rt !! p = Some o /\ data o = GC_OBJ sh prop u w fm.

Lemma free_object_ref p : consumes (one RObject p) (free_obj zero p).
Proof. apply (free_value (JS_OBJECT p)). Qed.
Lemma free_bytecode_ref p : consumes [RBytecode p] (JS_FreeValueRT zero (JS_FUNCTION_BYTECODE p)).
Proof. apply (free_value (JS_FUNCTION_BYTECODE p)). Qed.
Lemma free_var_opt v : consumes (opt_refs (one RVarRef) v) (free_var_ref zero v).
Proof. destruct v as [p|]; [apply free_var|apply consumes_skip]. Qed.
#[local] Hint Resolve free_value free_context free_var free_var_opt free_async free_object_ref free_bytecode_ref : refs.

Lemma free_frame s : frame_idle s = true -> consumes (frame_refs s) (async_func_free zero s).
Proof.
  unfold frame_idle, frame_refs, async_func_free. intros Hi. destruct (cur_sp_null s); [done|].
  eapply (consumes_ext _ _ (opt (each (JS_FreeValueRT zero)) (arg_buf s) ;;;
                            JS_FreeValueRT zero (cur_func s) ;;; JS_FreeValueRT zero (this_val s))).
  - intros l' rt H. apply no_frames in H. unfold seq at 1. unfold close_var_refs. rewrite H, lookup_empty.
    cbn [default each skip]. rewrite delete_empty. unfold skip.
    assert (E : set_frames ∅ rt = rt) by (destruct rt; cbn in *; by rewrite H). rewrite E. by destruct (arg_buf s).
  - rewrite app_assoc. apply consumes_swap; [|auto with refs]. apply consumes_opt. intros. auto with refs.
Qed.

Lemma free_record map is_weak mr : record_ok is_weak mr = true ->
  consumes (record_refs is_weak mr)
    (if mr_empty mr then skip
     else (if is_weak then delete_weak_ref map mr else JS_FreeValueRT zero (mr_key mr)) ;;; JS_FreeValueRT zero (mr_value mr)).
Proof.
  unfold record_ok, record_refs. destruct mr as [id n [] k v]; cbn.
  - destruct k, v; try done. intros _. destruct is_weak; apply consumes_skip.
  - destruct is_weak; [done|]. auto with refs.
Qed.

Lemma free_class p u : releasable_class u = true -> consumes (class_refs u) (finalizer zero p u).
Proof.
  intros Hu. destruct u; cbn in *; unfold js_array_finalizer, js_object_data_finalizer, js_c_function_finalizer,
    js_bytecode_function_finalizer, js_bound_function_finalizer, js_c_function_data_finalizer, js_for_in_iterator_finalizer,
    js_array_iterator_finalizer, js_regexp_string_iterator_finalizer, js_generator_finalizer, js_proxy_finalizer,
    js_promise_finalizer, js_promise_resolve_function_finalizer, js_async_function_resolve_finalizer,
    js_async_from_sync_iterator_finalizer, js_async_generator_finalizer, js_async_generator_free,
    js_operator_set_finalizer, reaction_refs, promise_reaction_data_free; try solve [auto 8 with refs].
  - apply (consumes_ext _ _ (free_obj zero buffer)); [|apply free_object_ref]. intros l' rt H.
    destruct (live_object _ _ _ H) as (o & sh & prop & u & w & fm & E & Ed).
    unfold js_typed_array_finalizer, JS_IsLiveObject, get. rewrite E. cbn. by rewrite Ed.
  - apply consumes_each. apply Is_true_true, forallb_True in Hu. eapply list.Forall_impl; [exact Hu|]. intros mr Hmr.
    apply free_record. by apply Is_true_true.
  - destruct cur_record; [done|]. apply (consumes_ext _ _ (JS_FreeValueRT zero obj)); [|apply free_value]. intros l' rt H.
    unfold js_map_iterator_finalizer, JS_IsLiveObject. destruct obj; try done. cbn in H.
    destruct (live_object _ _ _ H) as (o & sh & prop & u & w & fm & E & Ed). unfold get. rewrite E. cbn. by rewrite Ed.
  - unfold free_generator_stack_rt. case_decide; [apply consumes_skip|]. rewrite bool_decide_false in Hu by done.
    by apply free_frame.
  - apply consumes_seq; [apply consumes_all; intros; unfold request_refs; auto 6 with refs|].
    case_decide; [apply consumes_skip|]. case_decide; [apply consumes_skip|].
    rewrite !bool_decide_false in Hu by done. by apply free_frame.
Qed.

Lemma free_prop pr : property_ok pr = true -> consumes (property_refs pr) (free_property zero pr).
Proof.
  unfold property_ok, property_refs, free_property, js_autoinit_free. destruct (_ =? _).
  - destruct (prop_u pr) as [[]| | |]; try done. intros _. apply consumes_skip.
  - intros _. destruct (prop_u pr); auto with refs; [by apply free_var|by apply free_context].
Qed.
Lemma free_module m : consumes (module_refs m) (js_free_module_def zero m).
Proof. unfold module_refs, js_free_module_def. auto with refs. Qed.
End Free.
End Consume.
