(* ===== verification/GcRun.v ===== *)
(** * Trial deletion: [gc_decref] and [gc_scan]

    After [gc_decref] a count is the number of references from outside of the heap; after [gc_scan] the counts are back and
    [gc_obj_list] holds the objects that can be reached from outside, [tmp_obj_list] the garbage. *)

From stdpp Require Import gmap relations.
From S2P Require Import Prelude GcHeap GcCount GcMark.
#[local] Open Scope Z_scope.

(** ** Lists *)

#[local] Arguments remove_one : simpl never.

Lemma remove_one_notin p l : p ∉ l -> remove_one p l = l.
Proof.
  induction l as [|q l IH]; intros H; [done|]. unfold remove_one in *. apply not_elem_of_cons in H as [Hne H].
  rewrite filter_cons_True by congruence. by rewrite IH.
Qed.
Lemma remove_one_app p l1 l2 : remove_one p (l1 ++ l2) = remove_one p l1 ++ remove_one p l2.
Proof. apply list.filter_app. Qed.
Lemma elem_of_remove_one p q l : q ∈ remove_one p l <-> q <> p /\ q ∈ l.
Proof. unfold remove_one. by rewrite list_elem_of_filter. Qed.
Lemma remove_one_NoDup p l : NoDup l -> NoDup (remove_one p l).
Proof. apply list.NoDup_filter. Qed.
Lemma remove_one_middle p l1 l2 : NoDup (l1 ++ p :: l2) -> remove_one p (l1 ++ p :: l2) = l1 ++ l2.
Proof.
  intros H. apply list.NoDup_app in H as (H1 & Hd & H2). apply list.NoDup_cons in H2 as [Hp H2].
  rewrite remove_one_app. unfold remove_one at 2. rewrite filter_cons_False by (intros Hn; by apply Hn).
  fold (remove_one p l2). rewrite !remove_one_notin; [done|done|]. intros Hin. apply (Hd p Hin). constructor.
Qed.

Lemma list_del_eq p rt : var_ref_lists rt = ∅ -> p ∈ gc_obj_list rt ++ gc_zero_ref_count_list rt ++ tmp_obj_list rt ->
  list_del p rt = Ret (set_lists (remove_one p (gc_obj_list rt)) (remove_one p (gc_zero_ref_count_list rt))
                         (remove_one p (tmp_obj_list rt)) rt).
Proof.
  intros Hf Hp. unfold list_del. rewrite !elem_of_app in Hp.
  assert (E : bool_decide (p ∈ gc_obj_list rt) || bool_decide (p ∈ gc_zero_ref_count_list rt) ||
              bool_decide (p ∈ tmp_obj_list rt) = true).
  { destruct Hp as [Hp|[Hp|Hp]]; rewrite (bool_decide_true _ Hp); by rewrite ?orb_true_r. }
  rewrite E, Hf. cbn [orb]. rewrite fmap_empty. unfold set_frames, set_lists. cbn. by rewrite Hf.
Qed.

Lemma yields_seq f g rt Q : yields (f rt) (fun rt' => yields (g rt') Q) -> yields ((f ;;; g) rt) Q.
Proof. apply yields_bind. Qed.

(** Where the objects are. *)
Definition places (rt : JSRuntime) : list Z := gc_obj_list rt ++ tmp_obj_list rt ++ gc_zero_ref_count_list rt.
Record located (rt : JSRuntime) : Prop := {
  located_frames : var_ref_lists rt = ∅;
  located_nodup : NoDup (places rt);
  located_dom p : p ∈ places rt <-> is_Some (heap rt !! p) }.

Lemma next_of_app A p l : p ∉ A -> next_of p (A ++ p :: l) = Ret (head l).
Proof.
  induction A as [|q A IH]; intros H; cbn.
  - by rewrite Z.eqb_refl.
  - apply not_elem_of_cons in H as [Hne H]. destruct (Z.eqb_spec p q); [done|]. by apply IH.
Qed.

Lemma get_eq p o rt : heap rt !! p = Some o -> get p rt = Ret o.
Proof. intros E. unfold get. by rewrite E. Qed.
Lemma update_eq p f o rt : heap rt !! p = Some o -> update p f rt = Ret (set_heap (<[p := f o]> (heap rt)) rt).
Proof. intros E. unfold update. by rewrite (get_eq _ _ _ E). Qed.
Lemma decref_eq p o rt : heap rt !! p = Some o ->
  decref p rt = Ret (ref_count o - 1, set_heap (<[p := set_ref_count (ref_count o - 1) o]> (heap rt)) rt).
Proof. intros E. unfold decref. by rewrite (get_eq _ _ _ E). Qed.

Lemma located_update p o rt : located rt -> is_Some (heap rt !! p) -> located (set_heap (<[p := o]> (heap rt)) rt).
Proof.
  intros [H1 H2 H3] Hp. split; [done|done|]. intros q. cbn [heap set_heap].
  assert (E : places (set_heap (<[p:=o]> (heap rt)) rt) = places rt) by done. rewrite E, H3.
  destruct (decide (q = p)) as [->|Hne]; [|by rewrite lookup_insert_ne].
  rewrite lookup_insert_eq. by split.
Qed.

(** ** Reachability *)

Definition edge (D : skeleton) (p q : Z) : Prop := exists d r, D !! p = Some d /\ r ∈ data_refs d /\ target r = q.
Definition reachable (D : skeleton) (E : list ref) (p : Z) : Prop := exists r, r ∈ E /\ rtc (edge D) (target r) p.

Lemma reachable_root D E r : r ∈ E -> reachable D E (target r).
Proof. intros H. exists r. by split. Qed.
Lemma reachable_edge D E p d r : reachable D E p -> D !! p = Some d -> r ∈ data_refs d -> reachable D E (target r).
Proof.
  intros (r0 & H0 & Hr) Ed Hin. exists r0. split; [done|]. eapply rtc_r; [done|]. by exists d, r.
Qed.
Lemma reachable_closed D E (P : Z -> Prop) p :
  (forall r, r ∈ E -> P (target r)) -> (forall q d r, P q -> D !! q = Some d -> r ∈ data_refs d -> P (target r)) ->
  reachable D E p -> P p.
Proof.
  intros HE Hs (r0 & H0 & Hr). apply HE in H0. induction Hr as [|x y z (d & r & Ed & Hin & <-) Hr IH]; [done|].
  apply IH. by apply (Hs x d).
Qed.

(** ** The invariant between two collections *)

(** [E] are the references from outside of the heap: those of C variables and of the stack. A running generator is among
    their targets, so that its frame, which is not marked, is not released. *)
Record gc_inv (E : list ref) (rt : JSRuntime) : Prop := {
  inv_phase : gc_phase rt = JS_GC_PHASE_NONE;
  inv_located : located rt;
  inv_tmp : tmp_obj_list rt = [];
  inv_zero : gc_zero_ref_count_list rt = [];
  inv_counted : counted (fun _ => true) E (heap rt);
  inv_mark p o : heap rt !! p = Some o -> mark o = 0;
  inv_pos p o : heap rt !! p = Some o -> 0 < ref_count o;
  inv_markable p d : skel (heap rt) !! p = Some d -> markable d = true;
  inv_releasable p d : skel (heap rt) !! p = Some d -> releasable d = true \/ exists r, r ∈ E /\ target r = p }.

(** ** [gc_decref] *)

Definition inl_ (l : list Z) : Z -> bool := fun q => bool_decide (q ∈ l).

(** [cur] is being visited, [todo] is not yet; the references [l] of [cur] are still to be counted down. *)
Record dec_inv (E : list ref) (D : skeleton) (cur todo : list Z) (l : list ref) (rt : JSRuntime) : Prop := {
  dec_phase : gc_phase rt = JS_GC_PHASE_NONE;
  dec_located : located rt;
  dec_skel : skel (heap rt) = D;
  dec_zero : gc_zero_ref_count_list rt = [];
  dec_list : exists A, gc_obj_list rt = A ++ cur ++ todo /\
    (forall p o, p ∈ A -> heap rt !! p = Some o -> mark o = 1 /\ 0 < ref_count o);
  dec_counted : counted (inl_ todo) (l ++ E) (heap rt);
  dec_mark0 p o : p ∈ cur ++ todo -> heap rt !! p = Some o -> mark o = 0;
  dec_tmp p o : p ∈ tmp_obj_list rt -> heap rt !! p = Some o -> ref_count o = 0 }.

Lemma dec_inv_perm E D cur todo l l' rt : l ≡ₚ l' -> dec_inv E D cur todo l rt -> dec_inv E D cur todo l' rt.
Proof. intros Hp []. split; try done. eapply counted_perm; [|done]. by rewrite Hp. Qed.

Lemma places_perm_tmp p A l tmp zero :
  NoDup ((A ++ l) ++ tmp ++ zero) -> p ∈ A ++ l ->
  NoDup (remove_one p (A ++ l) ++ (tmp ++ [p]) ++ zero) /\
  (forall q, q ∈ remove_one p (A ++ l) ++ (tmp ++ [p]) ++ zero <-> q ∈ (A ++ l) ++ tmp ++ zero).
Proof.
  set (L := A ++ l). intros Hn Hp. apply list_elem_of_split in Hp as (l1 & l2 & E). rewrite E in *.
  assert (HL : NoDup (l1 ++ p :: l2)) by (by apply list.NoDup_app in Hn as [? _]).
  rewrite remove_one_middle by done.
  assert (Hperm : (l1 ++ l2) ++ (tmp ++ [p]) ++ zero ≡ₚ (l1 ++ p :: l2) ++ tmp ++ zero) by solve_Permutation.
  split; [by rewrite Hperm|]. intros q. by rewrite Hperm.
Qed.

(** Moving an object of [gc_obj_list] to [tmp_obj_list]. *)
Lemma move_to_tmp p rt :
  located rt -> p ∈ gc_obj_list rt -> gc_zero_ref_count_list rt = [] ->
  (list_del p ;;; add_tail_tmp p) rt =
    Ret (set_lists (remove_one p (gc_obj_list rt)) [] (tmp_obj_list rt ++ [p]) rt) /\
  located (set_lists (remove_one p (gc_obj_list rt)) [] (tmp_obj_list rt ++ [p]) rt).
Proof.
  intros [Hf Hn Hd] Hp Hz. unfold places in *. rewrite Hz in *.
  assert (Ht : p ∉ tmp_obj_list rt).
  { intros Ht. apply list.NoDup_app in Hn as (_ & Hn & _). apply (Hn p Hp). rewrite app_nil_r. done. }
  split.
  - unfold seq. rewrite list_del_eq by (done || (rewrite elem_of_app; by left)).
    cbn [mbind outcome_bind]. unfold add_tail_tmp. cbn. rewrite Hz. rewrite (remove_one_notin p (tmp_obj_list rt)) by done. done.
  - destruct (places_perm_tmp p [] (gc_obj_list rt) (tmp_obj_list rt) [] Hn Hp) as [Hn' Hm].
    split; cbn; [done|done|]. intros q. unfold places. cbn. rewrite Hm. apply Hd.
Qed.

Lemma remove_one_split p A l : p ∉ l -> remove_one p (A ++ l) = remove_one p A ++ l.
Proof. intros H. by rewrite remove_one_app, (remove_one_notin p l). Qed.

Lemma dec_child E D cur todo r : consumes (dec_inv E D cur todo) [r] (gc_decref_child (target r)).
Proof.
  intros l rt H. cbn in H. set (p := target r). destruct H as [Hph Hloc HD Hz (A & HA & Hpos) Hc Hm0 Ht].
  destruct (counted_list _ _ _ Hc r) as (d & Ed & _); [by constructor|]. apply skel_inv in Ed as (o & Eo & _). fold p in Eo.
  assert (Hn : 0 < ref_count o).
  { rewrite (counted_count _ _ _ Hc p o Eo). pose proof (cnt_in r ((r :: l) ++ E)) as Hi. fold p in Hi.
    pose proof (total_nonneg (inl_ todo) p (skel (heap rt))). specialize (Hi ltac:(by constructor)). lia. }
  unfold gc_decref_child. rewrite (get_eq _ _ _ Eo). cbn [mbind outcome_bind mret outcome_ret].
  destruct (Z.ltb_spec 0 (ref_count o)); [|lia]. cbn [c_assert mbind outcome_bind].
  rewrite (decref_eq _ _ _ Eo). cbn [mbind outcome_bind].
  set (o' := set_ref_count (ref_count o - 1) o). set (rt1 := set_heap (<[p:=o']> (heap rt)) rt).
  assert (Hloc1 : located rt1) by (apply located_update; [done|by rewrite Eo]).
  assert (HD1 : skel (heap rt1) = D) by (rewrite <- HD; by apply (skel_insert_same _ p o)).
  assert (Hc1 : counted (inl_ todo) (l ++ E) (heap rt1)) by (apply (counted_decref _ r (l ++ E) _ o); done).
  assert (Hlk : forall q oq, heap rt1 !! q = Some oq ->
            (q = p /\ oq = o') \/ (q <> p /\ heap rt !! q = Some oq)).
  { intros q oq Eq. cbn in Eq. destruct (decide (q = p)) as [->|Hne].
    - rewrite lookup_insert_eq in Eq. left. split; [done|congruence].
    - rewrite lookup_insert_ne in Eq by done. by right. }
  assert (Hpt : p ∉ tmp_obj_list rt) by (intros Hin; specialize (Ht p o Hin Eo); lia).
  case_decide as Hdec; [destruct Hdec as [Hn0 Hmk]|].
  - assert (HpA : p ∈ gc_obj_list rt).
    { assert (Hin : p ∈ places rt) by (apply Hloc; by rewrite Eo). unfold places in Hin. rewrite Hz, app_nil_r in Hin.
      apply elem_of_app in Hin as [Hin|Hin]; done. }
    assert (Hnc : p ∉ cur ++ todo) by (intros Hin; specialize (Hm0 p o Hin Eo); lia).
    destruct (move_to_tmp p rt1 Hloc1 HpA Hz) as [Eq Hloc2]. rewrite Eq. cbn.
    split; try done.
    + exists (remove_one p A). split.
      * cbn. by rewrite HA, remove_one_split.
      * intros q oq Hq Eq'. apply elem_of_remove_one in Hq as [Hne Hq]. destruct (Hlk q oq Eq') as [[? _]|[_ Eq0]]; [done|].
        by apply (Hpos q).
    + intros q oq Hq Eq'. destruct (Hlk q oq Eq') as [[-> _]|[_ Eq0]]; [done|]. by apply (Hm0 q).
    + cbn. intros q oq Hq Eq'. apply elem_of_app in Hq as [Hq|Hq].
      * destruct (Hlk q oq Eq') as [[-> _]|[_ Eq0]]; [done|]. by apply (Ht q).
      * apply list_elem_of_singleton in Hq as ->. destruct (Hlk p oq Eq') as [[_ ->]|[? _]]; [|done]. cbn. lia.
  - cbn. split; try done.
    + exists A. split; [done|]. intros q oq Hq Eq'. destruct (Hlk q oq Eq') as [[-> ->]|[_ Eq0]]; [|by apply (Hpos q)].
      destruct (Hpos p o Hq Eo) as [Hmk _]. cbn. split; [done|]. destruct (decide (ref_count o - 1 = 0)); [naive_solver|lia].
    + intros q oq Hq Eq'. destruct (Hlk q oq Eq') as [[-> ->]|[_ Eq0]]; [|by apply (Hm0 q)]. cbn. by apply (Hm0 p).
    + intros q oq Hq Eq'. destruct (Hlk q oq Eq') as [[-> _]|[_ Eq0]]; [done|]. by apply (Ht q).
Qed.

Lemma ref_ok_detached D p : ref_ok D (RVarRef p) -> exists is_arg idx v, D !! p = Some (GC_VAR_REF true is_arg idx v).
Proof. intros (d & Ed & K). cbn in *. destruct d as [| | |[] ? ? ?| |]; try done. eauto. Qed.
Lemma counted_detached act l h p : counted act (RVarRef p :: l) h ->
  exists o is_arg idx v, h !! p = Some o /\ data o = GC_VAR_REF true is_arg idx v.
Proof.
  intros Hc. destruct (counted_list _ _ _ Hc (RVarRef p)) as (d & Ed & K); [by constructor|].
  cbn in Ed. apply skel_inv in Ed as (o & Eo & <-). cbn in K. destruct (data o) as [| | |[] ? ? ?| |] eqn:Ed; try done. by eauto 10.
Qed.

Section Collect.
Context (E : list ref) (D : skeleton).
Hypothesis all_markable : forall p d, D !! p = Some d -> markable d = true.
Hypothesis all_ok : forall p d r, D !! p = Some d -> r ∈ data_refs d -> ref_ok D r.

Lemma visit_children J mark_func p d :
  (forall l l' rt, l ≡ₚ l' -> J l rt -> J l' rt) ->
  (forall r, consumes J [r] (mark_func (target r))) ->
  (forall q l rt, J (RVarRef q :: l) rt -> exists o is_arg idx v, heap rt !! q = Some o /\ data o = GC_VAR_REF true is_arg idx v) ->
  (forall l rt, J l rt -> skel (heap rt) = D) -> D !! p = Some d ->
  consumes J (data_refs d) (mark_children mark_func p).
Proof.
  intros Hperm Hone Hdet Hskel Ep l rt H. pose proof (Hskel _ _ H) as HD. rewrite <- HD in Ep.
  apply skel_inv in Ep as (o & Eo & <-). unfold mark_children. rewrite (get_eq _ _ _ Eo). cbn [mbind outcome_bind].
  apply mark_data_refs; [done|done| |done]. apply (all_markable p). rewrite <- HD. by apply skel_lookup.
Qed.

Lemma places_length rt : located rt -> length (places rt) = size (heap rt).
Proof.
  intros [Hf Hn Hd]. rewrite <- size_dom. assert (Ed : dom (heap rt) = list_to_set (places rt)).
  { apply set_eq. intros q. by rewrite elem_of_dom, elem_of_list_to_set, Hd. }
  by rewrite Ed, size_list_to_set.
Qed.
Lemma skel_size h : skel h = D -> size h = size D.
Proof. intros <-. unfold skel. by rewrite map_size_fmap. Qed.

Lemma gc_decref_step_spec todo rt :
  dec_inv E D [] todo [] rt ->
  yields (gc_decref_step (head todo, rt)) (fun x => match x with
    | inl (el, rt') => exists todo', (length todo' < length todo)%nat /\ el = head todo' /\ dec_inv E D [] todo' [] rt'
    | inr rt' => dec_inv E D [] [] [] rt' end).
Proof.
  intros H. destruct todo as [|q todo]; [done|]. pose proof H as H'. destruct H' as [Hph Hloc HD Hz (A & HA & Hpos) Hc Hm0 Ht].
  cbn [app] in HA. cbn [gc_decref_step head].
  pose proof (located_nodup _ Hloc) as Hn. unfold places in Hn. rewrite HA, <- app_assoc in Hn.
  assert (HqA : q ∉ A) by (intros Hin; apply list.NoDup_app in Hn as (_ & Hn & _); apply (Hn q Hin); constructor).
  assert (Hqt : q ∉ todo).
  { apply list.NoDup_app in Hn as (_ & _ & Hn). cbn in Hn. apply list.NoDup_cons in Hn as [Hn _].
    rewrite elem_of_app in Hn. tauto. }
  rewrite HA, next_of_app by done. cbn [mbind outcome_bind].
  assert (Hq : is_Some (heap rt !! q)).
  { apply Hloc. unfold places. rewrite HA, !elem_of_app, elem_of_cons. tauto. }
  destruct Hq as [o Eo]. rewrite (get_eq _ _ _ Eo). cbn [mbind outcome_bind].
  rewrite (Hm0 q o) by (done || constructor). cbn [Z.eqb]. change (c_assert (0 =? 0)) with (Ret tt). cbn [mbind outcome_bind].
  assert (Eq : D !! q = Some (data o)) by (rewrite <- HD; by apply skel_lookup).
  assert (Hstart : dec_inv E D [q] todo (data_refs (data o) ++ []) rt).
  { split; try done.
    - by exists A.
    - rewrite app_nil_r. cbn in Hc. apply (counted_expose _ _ _ q (data o)) in Hc; [|by apply skel_lookup|].
      + eapply counted_act; [|exact Hc]. intros x d Hx. unfold without, inl_. destruct (Z.eqb_spec x q) as [->|Hne].
        * by rewrite bool_decide_false.
        * apply bool_decide_ext. rewrite elem_of_cons. tauto.
      + unfold inl_. apply bool_decide_true. constructor. }
  apply yields_bind. apply yields_seq.
  eapply yields_mono.
  { apply (visit_children (dec_inv E D [q] todo) gc_decref_child q (data o)); [| | | |done|exact Hstart].
    - intros. by eapply dec_inv_perm.
    - intros. apply dec_child.
    - intros p l rt' []. by eapply counted_detached.
    - by intros l rt' []. }
  clear Hpos Hc Hm0 Ht HA Hn HqA Hloc Hph Hz HD Eo Hstart rt H A.
  intros rt [Hph Hloc HD Hz (A & HA & Hpos) Hc Hm0 Ht]. cbn in HA, Hc.
  destruct (skel_inv (heap rt) q (data o)) as (o1 & Eo & Ed); [by rewrite HD|].
  pose proof (located_nodup _ Hloc) as Hn. unfold places in Hn. rewrite HA, <- app_assoc in Hn.
  assert (HqA : q ∉ A) by (intros Hin; apply list.NoDup_app in Hn as (_ & Hn & _); apply (Hn q Hin); constructor).
  assert (Hqg : q ∈ gc_obj_list rt) by (rewrite HA, elem_of_app, elem_of_cons; tauto).
  assert (Hqtmp : q ∉ tmp_obj_list rt).
  { pose proof (located_nodup _ Hloc) as Hn'. unfold places in Hn'. apply list.NoDup_app in Hn' as (_ & Hn' & _).
    intros Hin. apply (Hn' q Hqg). apply elem_of_app. by left. }
  rewrite (update_eq _ _ _ _ Eo). cbn [yields]. set (rt1 := set_heap _ rt).
  assert (Eo1 : heap rt1 !! q = Some (set_mark 1 o1)) by (apply lookup_insert_eq).
  rewrite (get_eq _ _ _ Eo1). cbn [mbind outcome_bind ref_count set_mark].
  assert (Hloc1 : located rt1) by (apply located_update; [done|by rewrite Eo]).
  assert (HD1 : skel (heap rt1) = D) by (rewrite <- HD; by apply (skel_insert_same _ q o1)).
  assert (Hc1 : counted (inl_ todo) E (heap rt1)) by (apply (counted_set _ E _ q o1); [done|done|lia|done|apply Hc]).
  assert (Hlk : forall x ox, heap rt1 !! x = Some ox -> (x = q /\ ox = set_mark 1 o1) \/ (x <> q /\ heap rt !! x = Some ox)).
  { intros x ox Ex. cbn in Ex. destruct (decide (x = q)) as [->|Hne].
    - rewrite lookup_insert_eq in Ex. left. split; [done|congruence].
    - rewrite lookup_insert_ne in Ex by done. by right. }
  destruct (Z.eqb_spec (ref_count o1) 0) as [E0|E0].
  - destruct (move_to_tmp q rt1 Hloc1 Hqg Hz) as [Eqm Hloc2]. rewrite Eqm. cbn.
    exists todo. split; [lia|]. split; [done|]. split; try done.
    + exists A. split.
      * cbn. rewrite HA. apply (remove_one_middle q A todo).
        rewrite app_assoc in Hn. by apply list.NoDup_app in Hn as [Hn _].
      * intros x ox Hx Ex. destruct (Hlk x ox Ex) as [[-> _]|[_ Ex']]; [done|by apply (Hpos x)].
    + intros x ox Hx Ex. destruct (Hlk x ox Ex) as [[-> _]|[_ Ex']]; [done|]. apply (Hm0 x); [by constructor|done].
    + cbn. intros x ox Hx Ex. apply elem_of_app in Hx as [Hx|Hx].
      * destruct (Hlk x ox Ex) as [[-> _]|[_ Ex']]; [done|by apply (Ht x)].
      * apply list_elem_of_singleton in Hx as ->. destruct (Hlk q ox Ex) as [[_ ->]|[? _]]; [done|done].
  - cbn. exists todo. split; [lia|]. split; [done|]. split; try done.
    + exists (A ++ [q]). split; [by rewrite <- app_assoc|]. intros x ox Hx Ex.
      destruct (Hlk x ox Ex) as [[-> ->]|[Hne Ex']].
      * cbn. split; [done|]. pose proof (counted_nonneg _ _ _ _ _ Hc Eo). lia.
      * apply (Hpos x); [|done]. apply elem_of_app in Hx as [Hx|Hx]; [done|]. by apply list_elem_of_singleton in Hx.
    + intros x ox Hx Ex. destruct (Hlk x ox Ex) as [[-> _]|[_ Ex']]; [done|]. apply (Hm0 x); [by constructor|done].
    + intros x ox Hx Ex. destruct (Hlk x ox Ex) as [[-> _]|[_ Ex']]; [done|by apply (Ht x)].
Qed.

Lemma gc_decref_spec rt : gc_inv E rt -> skel (heap rt) = D -> yields (gc_decref rt) (dec_inv E D [] [] []).
Proof.
  intros [Hph Hloc Ht Hz Hc Hm Hp _ _] HD. unfold gc_decref.
  assert (Hlen : (length (gc_obj_list rt) = size (heap rt))%nat).
  { rewrite <- places_length by done. unfold places. by rewrite Ht, Hz, !app_nil_r. }
  apply (loop_yields_nat gc_decref_step
           (fun n '(el, rt) => exists todo, n = length todo /\ el = head todo /\ dec_inv E D [] todo [] rt) _)
    with (n := length (gc_obj_list rt)).
  - intros n [el rt'] (todo & -> & -> & Hi). eapply yields_mono; [by apply gc_decref_step_spec|].
    intros [[el rt'']|rt'']; [|done]. intros (todo' & Hl & -> & Hi'). exists (length todo'). split; [done|]. by exists todo'.
  - exists (gc_obj_list rt). split; [done|]. split; [done|].
    assert (Ers : set_lists (gc_obj_list rt) (gc_zero_ref_count_list rt) [] rt = rt) by (rewrite <- Ht; by destruct rt).
    rewrite Ers. split; try done.
    + exists []. split; [done|]. intros p o Hin. by apply elem_of_nil in Hin.
    + eapply counted_act; [|exact Hc]. intros q d Hq. unfold inl_. rewrite bool_decide_true; [done|].
      apply skel_inv in Hq as (o & Eo & _). assert (Hin : q ∈ places rt) by (apply Hloc; by rewrite Eo).
      unfold places in Hin. by rewrite Ht, Hz, !app_nil_r in Hin.
    + intros p o _. apply Hm.
    + intros p o Hin. rewrite Ht in Hin. by apply elem_of_nil in Hin.
  - rewrite Hlen. cbn [heap set_lists]. lia.
Qed.
(** ** [gc_scan] *)

(** The objects of [done] were visited; [pend] are the references of those of [cur], being visited, and [l] those of [pend] still to be
    counted. *)
Record scan_inv (done cur : list Z) (pend l : list ref) (rt : JSRuntime) : Prop := {
  scan_phase : gc_phase rt = JS_GC_PHASE_NONE;
  scan_located : located rt;
  scan_skel : skel (heap rt) = D;
  scan_zero : gc_zero_ref_count_list rt = [];
  scan_list : exists todo, gc_obj_list rt = done ++ cur ++ todo;
  scan_pos p o : p ∈ gc_obj_list rt -> heap rt !! p = Some o -> 0 < ref_count o;
  scan_reachable p : p ∈ gc_obj_list rt -> reachable D E p;
  scan_tmp p o : p ∈ tmp_obj_list rt -> heap rt !! p = Some o -> ref_count o = 0;
  scan_mark p o : p ∈ done ++ cur -> heap rt !! p = Some o -> mark o = 0;
  scan_counted : exists k, k ++ l ≡ₚ pend /\ counted (inl_ done) (k ++ E) (heap rt);
  scan_pend r : r ∈ pend -> ref_ok D r /\ reachable D E (target r) }.

Lemma scan_inv_perm done cur pend l l' rt : l ≡ₚ l' -> scan_inv done cur pend l rt -> scan_inv done cur pend l' rt.
Proof.
  intros Hp [H1 H2 H3 H4 H5 H6 H7 H8 H9 (k & Hk & Hc) H11]. split; try done. exists k. by rewrite <- Hp.
Qed.

(** Moving an object of [tmp_obj_list] back. *)
Lemma move_to_gc p rt :
  located rt -> p ∈ tmp_obj_list rt -> gc_zero_ref_count_list rt = [] ->
  (list_del p ;;; add_tail_gc p) rt = Ret (set_lists (gc_obj_list rt ++ [p]) [] (remove_one p (tmp_obj_list rt)) rt) /\
  located (set_lists (gc_obj_list rt ++ [p]) [] (remove_one p (tmp_obj_list rt)) rt).
Proof.
  intros [Hf Hn Hd] Hp Hz. unfold places in *. rewrite Hz, app_nil_r in *.
  assert (Hg : p ∉ gc_obj_list rt).
  { intros Hg. apply list.NoDup_app in Hn as (_ & Hn & _). by apply (Hn p Hg). }
  split.
  - unfold seq. rewrite list_del_eq by (done || (rewrite !elem_of_app; tauto)).
    cbn [mbind outcome_bind]. unfold add_tail_gc. cbn. rewrite Hz. by rewrite (remove_one_notin p (gc_obj_list rt)) by done.
  - assert (Hperm : (gc_obj_list rt ++ [p]) ++ remove_one p (tmp_obj_list rt) ++ [] ≡ₚ gc_obj_list rt ++ tmp_obj_list rt).
    { apply list_elem_of_split in Hp as (l1 & l2 & El). rewrite El in *. apply list.NoDup_app in Hn as (_ & _ & Hn).
      rewrite remove_one_middle by done. solve_Permutation. }
    split; cbn; [done| |]; unfold places; cbn; [by rewrite Hperm|]. intros q. rewrite Hperm. apply Hd.
Qed.

Lemma gc_scan_incref_child_spec done cur pend r :
  consumes (scan_inv done cur pend) [r] (gc_scan_incref_child (target r)).
Proof.
  intros l rt [Hph Hloc HD Hz (todo & Htodo) Hpos Hreach Ht Hm (k & Hk & Hc) Hpend]. cbn in Hk. set (p := target r).
  assert (Hr : r ∈ pend) by (rewrite <- Hk, elem_of_app, elem_of_cons; tauto).
  destruct (Hpend r Hr) as [(d & Ed & Kd) Hrr]. rewrite <- HD in Ed. pose proof Ed as Ed'. apply skel_inv in Ed' as (o & Eo & _).
  fold p in Eo, Hrr. unfold gc_scan_incref_child, incref. rewrite (update_eq _ _ _ _ Eo). cbn [mbind outcome_bind].
  set (o' := set_ref_count (ref_count o + 1) o). set (rt1 := set_heap _ rt).
  assert (Eo1 : heap rt1 !! p = Some o') by apply lookup_insert_eq.
  rewrite (get_eq _ _ _ Eo1). cbn [mbind outcome_bind].
  assert (Hloc1 : located rt1) by (apply located_update; [done|by rewrite Eo]).
  assert (HD1 : skel (heap rt1) = D) by (rewrite <- HD; by apply (skel_insert_same _ p o)).
  assert (Hc1 : counted (inl_ done) ((r :: k) ++ E) (heap rt1)).
  { apply (counted_incref _ r (k ++ E) _ o); [done| |done]. by exists d. }
  assert (Hk1 : (r :: k) ++ l ≡ₚ pend) by (rewrite <- Hk; solve_Permutation).
  assert (Hge : 0 <= ref_count o) by (exact (counted_nonneg _ _ _ _ _ Hc Eo)).
  assert (Hlk : forall x ox, heap rt1 !! x = Some ox -> (x = p /\ ox = o') \/ (x <> p /\ heap rt !! x = Some ox)).
  { intros x ox Ex. cbn in Ex. destruct (decide (x = p)) as [->|Hne].
    - rewrite lookup_insert_eq in Ex. left. split; [done|congruence].
    - rewrite lookup_insert_ne in Ex by done. by right. }
  change (ref_count o') with (ref_count o + 1).
  destruct (Z.eqb_spec (ref_count o + 1) 1) as [E1|E1].
  - assert (Hpg : p ∉ gc_obj_list rt) by (intros Hin; specialize (Hpos p o Hin Eo); lia).
    assert (Hpt : p ∈ tmp_obj_list rt).
    { assert (Hin : p ∈ places rt) by (apply Hloc; by rewrite Eo). unfold places in Hin. rewrite Hz, app_nil_r in Hin.
      apply elem_of_app in Hin as [Hin|Hin]; done. }
    destruct (move_to_gc p rt1 Hloc1 Hpt Hz) as [Eqm Hloc2]. set (rt2 := set_lists _ _ _ rt1) in *.
    assert (Eq' : (list_del p ;;; add_tail_gc p ;;; update p (set_mark 0)) rt1 = update p (set_mark 0) rt2).
    { unfold seq in *. destruct (list_del p rt1) as [rx| |]; try done. cbn [mbind outcome_bind] in *. by rewrite Eqm. }
    rewrite Eq', (update_eq p _ o' rt2 Eo1). cbn [yields].
    assert (Hlk2 : forall x ox, heap (set_heap (<[p:=set_mark 0 o']> (heap rt2)) rt2) !! x = Some ox ->
              (x = p /\ ox = set_mark 0 o') \/ (x <> p /\ heap rt !! x = Some ox)).
    { intros x ox Ex. cbn in Ex. destruct (decide (x = p)) as [->|Hne].
      - rewrite lookup_insert_eq in Ex. left. split; [done|congruence].
      - rewrite lookup_insert_ne in Ex by done. right. split; [done|]. cbn in Ex. by rewrite lookup_insert_ne in Ex. }
    split; try done.
    + apply located_update; [done|]. cbn. by rewrite lookup_insert_eq.
    + cbn [heap set_heap]. rewrite <- HD1. by apply (skel_insert_same _ p o').
    + exists (todo ++ [p]). cbn. by rewrite Htodo, <- !app_assoc.
    + cbn [gc_obj_list set_heap rt2 set_lists]. intros x ox Hx Ex. destruct (Hlk2 x ox Ex) as [[-> ->]|[Hne Ex']].
      * cbn. lia.
      * apply (Hpos x); [|done]. apply elem_of_app in Hx as [Hx|Hx]; [done|]. by apply list_elem_of_singleton in Hx.
    + cbn. intros x Hx. apply elem_of_app in Hx as [Hx|Hx]; [by apply Hreach|]. by apply list_elem_of_singleton in Hx as ->.
    + cbn. intros x ox Hx Ex. apply elem_of_remove_one in Hx as [Hne Hx]. destruct (Hlk2 x ox Ex) as [[-> _]|[_ Ex']]; [done|].
      by apply (Ht x).
    + intros x ox Hx Ex. destruct (Hlk2 x ox Ex) as [[_ ->]|[_ Ex']]; [done|by apply (Hm x)].
    + exists (r :: k). split; [done|]. cbn [heap set_heap].
      apply (counted_set _ ((r :: k) ++ E) _ p o' _ 0 Hc1 Eo1); [cbn; lia|done|]. apply Hc1.
  - cbn [yields]. split; try done.
    + by exists todo.
    + intros x ox Hx Ex. destruct (Hlk x ox Ex) as [[-> ->]|[_ Ex']]; [cbn; lia|by apply (Hpos x)].
    + intros x ox Hx Ex. destruct (Hlk x ox Ex) as [[-> ->]|[_ Ex']]; [|by apply (Ht x)]. specialize (Ht p o Hx Eo). lia.
    + intros x ox Hx Ex. destruct (Hlk x ox Ex) as [[-> ->]|[_ Ex']]; [|by apply (Hm x)]. cbn. by apply (Hm p).
    + by exists (r :: k).
Qed.

Lemma scan_detached done cur pend q l rt : scan_inv done cur pend (RVarRef q :: l) rt ->
  exists o is_arg idx v, heap rt !! q = Some o /\ data o = GC_VAR_REF true is_arg idx v.
Proof.
  intros [_ _ HD _ _ _ _ _ _ (k & Hk & _) Hpend]. destruct (Hpend (RVarRef q)) as [Hok _].
  { rewrite <- Hk, elem_of_app, elem_of_cons. tauto. }
  destruct (ref_ok_detached _ _ Hok) as (is_arg & idx & v & Eq). rewrite <- HD in Eq. apply skel_inv in Eq as (o & Eo & Ed). eauto 10.
Qed.

Lemma gc_scan_step_spec done todo rt :
  gc_obj_list rt = done ++ todo -> scan_inv done [] [] [] rt ->
  yields (gc_scan_step (head todo, rt)) (fun x => match x with
    | inl (el, rt') => exists q todo', gc_obj_list rt' = (done ++ [q]) ++ todo' /\ el = head todo' /\
                                       scan_inv (done ++ [q]) [] [] [] rt'
    | inr rt' => gc_obj_list rt' = done /\ scan_inv done [] [] [] rt' end).
Proof.
  intros Hlist H. destruct todo as [|q todo]; [by rewrite app_nil_r in Hlist|].
  destruct H as [Hph Hloc HD Hz _ Hpos Hreach Ht Hm (k & Hk & Hc) _]. rewrite app_nil_r in Hk. symmetry in Hk. apply Permutation_nil in Hk as ->.
  cbn in Hc. cbn [gc_scan_step head].
  assert (Hqg : q ∈ gc_obj_list rt) by (rewrite Hlist, elem_of_app, elem_of_cons; tauto).
  assert (Hq : is_Some (heap rt !! q)) by (apply Hloc; unfold places; rewrite elem_of_app; by left).
  destruct Hq as [o Eo]. rewrite (get_eq _ _ _ Eo). cbn [mbind outcome_bind].
  destruct (Z.ltb_spec 0 (ref_count o)) as [_|Hle]; [|specialize (Hpos q o Hqg Eo); lia]. cbn [c_assert mbind outcome_bind].
  assert (Eq : D !! q = Some (data o)) by (rewrite <- HD; by apply skel_lookup).
  pose proof (located_nodup _ Hloc) as Hn. unfold places in Hn. apply list.NoDup_app in Hn as (Hn & _ & _). rewrite Hlist in Hn.
  assert (Hqd : q ∉ done) by (intros Hin; apply list.NoDup_app in Hn as (_ & Hn & _); apply (Hn q Hin); constructor).
  apply yields_bind. apply yields_seq. rewrite (update_eq _ _ _ _ Eo). cbn [yields]. set (rt1 := set_heap _ rt).
  assert (Hc1 : counted (inl_ done) E (heap rt1)) by (apply (counted_set _ E _ q o _ 0 Hc Eo); [cbn; lia|done|apply Hc]).
  assert (Hlk : forall x ox, heap rt1 !! x = Some ox -> (x = q /\ ox = set_mark 0 o) \/ (x <> q /\ heap rt !! x = Some ox)).
  { intros x ox Ex. cbn in Ex. destruct (decide (x = q)) as [->|Hne].
    - rewrite lookup_insert_eq in Ex. left. split; [done|congruence].
    - rewrite lookup_insert_ne in Ex by done. by right. }
  assert (Hstart : scan_inv done [q] (data_refs (data o)) (data_refs (data o) ++ []) rt1).
  { split; try done.
    - apply located_update; [done|by rewrite Eo].
    - rewrite <- HD. by apply (skel_insert_same _ q o).
    - by exists todo.
    - intros x ox Hx Ex. destruct (Hlk x ox Ex) as [[-> ->]|[_ Ex']]; [by apply (Hpos q o)|by apply (Hpos x)].
    - intros x ox Hx Ex. destruct (Hlk x ox Ex) as [[-> ->]|[_ Ex']]; [by apply (Ht q o)|by apply (Ht x)].
    - intros x ox Hx Ex. destruct (Hlk x ox Ex) as [[-> ->]|[Hne Ex']]; [done|]. apply (Hm x); [|done].
      rewrite app_nil_r. apply elem_of_app in Hx as [Hx|Hx]; [done|]. by apply list_elem_of_singleton in Hx.
    - exists []. by rewrite app_nil_r.
    - intros r Hr. split; [by apply (all_ok q (data o))|]. eapply reachable_edge; [by apply Hreach|done|done]. }
  eapply yields_mono.
  { apply (visit_children (scan_inv done [q] (data_refs (data o))) gc_scan_incref_child q (data o)); [| | | |done|exact Hstart].
    - intros. by eapply scan_inv_perm.
    - intros. apply gc_scan_incref_child_spec.
    - intros p l rt'. apply scan_detached.
    - by intros l rt' []. }
  clear Hpos Hc Hm Ht Hlist Hn Hloc Hph Hz HD Eo Hstart Hreach Hc1 Hlk rt1 Hqg rt.
  intros rt [Hph Hloc HD Hz (todo' & Hlist) Hpos Hreach Ht Hm (k & Hk & Hc) _]. rewrite app_nil_r in Hk. cbn beta.
  cbn in Hlist. rewrite Hlist, next_of_app by done. cbn [mbind outcome_bind mret outcome_ret yields].
  exists q, todo'. rewrite <- app_assoc. split; [done|]. split; [done|].
  assert (Eqs : skel (heap rt) !! q = Some (data o)) by (by rewrite HD).
  split; try done.
  - exists todo'. by rewrite <- app_assoc.
  - by rewrite app_nil_r.
  - exists []. split; [done|]. apply (counted_absorb _ _ _ q (data o)); [|done|].
    + apply (counted_perm _ (k ++ E)); [by rewrite Hk|]. eapply counted_act; [|exact Hc]. intros x d Hx. unfold without, inl_.
      destruct (Z.eqb_spec x q) as [->|Hne]; [by rewrite bool_decide_false|].
      apply bool_decide_ext. rewrite elem_of_app, list_elem_of_singleton. tauto.
    + unfold inl_. apply bool_decide_true. rewrite elem_of_app, list_elem_of_singleton. by right.
  - intros r Hr. by apply elem_of_nil in Hr.
Qed.

(** The counts of the garbage go back up. *)
Record rest_inv (L T : list Z) (act : Z -> bool) (pend l : list ref) (rt : JSRuntime) : Prop := {
  rest_phase : gc_phase rt = JS_GC_PHASE_NONE;
  rest_located : located rt;
  rest_skel : skel (heap rt) = D;
  rest_zero : gc_zero_ref_count_list rt = [];
  rest_gc : gc_obj_list rt = L;
  rest_tmp : tmp_obj_list rt = T;
  rest_mark p o : p ∈ L -> heap rt !! p = Some o -> mark o = 0;
  rest_counted : exists k, k ++ l ≡ₚ pend /\ counted act (k ++ E) (heap rt);
  rest_pend r : r ∈ pend -> ref_ok D r }.

Lemma rest_child L T act pend r : consumes (rest_inv L T act pend) [r] (gc_scan_incref_child2 (target r)).
Proof.
  intros l rt [Hph Hloc HD Hz Hg Ht Hm (k & Hk & Hc) Hpend]. cbn in Hk. set (p := target r).
  assert (Hr : r ∈ pend) by (rewrite <- Hk, elem_of_app, elem_of_cons; tauto).
  pose proof (Hpend r Hr) as Hok. pose proof Hok as (d & Ed & _). rewrite <- HD in Ed, Hok.
  apply skel_inv in Ed as (o & Eo & _). fold p in Eo. unfold gc_scan_incref_child2, incref. rewrite (update_eq _ _ _ _ Eo). cbn.
  split; try done.
  - apply located_update; [done|by rewrite Eo].
  - rewrite <- HD. by apply (skel_insert_same _ p o).
  - cbn. intros x ox Hx Ex. destruct (decide (x = p)) as [->|Hne].
    + rewrite lookup_insert_eq in Ex. injection Ex as <-. cbn. by apply (Hm p).
    + rewrite lookup_insert_ne in Ex by done. by apply (Hm x).
  - exists (r :: k). split; [rewrite <- Hk; solve_Permutation|]. by apply (counted_incref _ r (k ++ E) _ o).
Qed.

Lemma rest_spec L T2 : forall T1 rt,
  NoDup (L ++ T1 ++ T2) -> rest_inv L (T1 ++ T2) (inl_ (L ++ T1)) [] [] rt ->
  yields (each (mark_children gc_scan_incref_child2) T2 rt) (rest_inv L (T1 ++ T2) (inl_ (L ++ T1 ++ T2)) [] []).
Proof.
  induction T2 as [|q T2 IH]; intros T1 rt Hn H; [by rewrite app_nil_r in *|]. cbn [each]. apply yields_seq.
  destruct H as [Hph Hloc HD Hz Hg Ht Hm (k & Hk & Hc) _]. rewrite app_nil_r in Hk. symmetry in Hk. apply Permutation_nil in Hk as ->.
  assert (Hq : is_Some (heap rt !! q)).
  { apply Hloc. unfold places. rewrite Ht, !elem_of_app, elem_of_cons. tauto. }
  destruct Hq as [o Eo].
  assert (Eq : D !! q = Some (data o)) by (rewrite <- HD; by apply skel_lookup).
  assert (Hstart : rest_inv L (T1 ++ q :: T2) (inl_ (L ++ T1)) (data_refs (data o)) (data_refs (data o) ++ []) rt).
  { split; try done; [exists []; by rewrite app_nil_r|]. intros r Hr. by apply (all_ok q (data o)). }
  eapply yields_mono.
  { apply (visit_children (rest_inv L (T1 ++ q :: T2) (inl_ (L ++ T1)) (data_refs (data o))) gc_scan_incref_child2 q (data o));
      [| | | |done|exact Hstart].
    - intros l l' rt' Hp []. split; try done. destruct rest_counted0 as (k & Hk & Hc'). exists k. by rewrite <- Hp.
    - intros. apply rest_child.
    - intros p l rt' []. destruct rest_counted0 as (k & Hk & _). destruct (ref_ok_detached D p) as (a & i & v & Ep).
      { apply rest_pend0. rewrite <- Hk, elem_of_app, elem_of_cons. tauto. }
      rewrite <- rest_skel0 in Ep. apply skel_inv in Ep as (o' & Eo' & Ed). eauto 10.
    - by intros l rt' []. }
  clear Hph Hloc HD Hz Hg Ht Hm Hc Eo Hstart rt. intros rt [Hph Hloc HD Hz Hg Ht Hm (k & Hk & Hc) _]. cbn beta.
  rewrite app_nil_r in Hk. assert (El : T1 ++ q :: T2 = (T1 ++ [q]) ++ T2) by (by rewrite <- app_assoc). rewrite El in *.
  apply IH; [done|]. split; try done.
  - exists []. split; [done|]. apply (counted_absorb _ _ _ q (data o)); [| |].
    + apply (counted_perm _ (k ++ E)); [by rewrite Hk|]. eapply counted_act; [|exact Hc]. intros x d Hx. unfold without, inl_.
      destruct (Z.eqb_spec x q) as [->|Hne].
      * apply bool_decide_false. rewrite <- app_assoc in Hn. cbn in Hn. rewrite app_assoc in Hn.
        apply list.NoDup_app in Hn as (_ & Hn & _). intros Hin. apply (Hn q Hin). constructor.
      * apply bool_decide_ext. rewrite !elem_of_app, list_elem_of_singleton. tauto.
    + by rewrite HD.
    + unfold inl_. apply bool_decide_true. rewrite !elem_of_app, list_elem_of_singleton. tauto.
  - intros r Hr. by apply elem_of_nil in Hr.
Qed.

(** What [gc_scan] leaves: the counts as they were, the garbage in [tmp_obj_list]. *)
Record scanned (rt : JSRuntime) : Prop := {
  scanned_phase : gc_phase rt = JS_GC_PHASE_NONE;
  scanned_located : located rt;
  scanned_skel : skel (heap rt) = D;
  scanned_zero : gc_zero_ref_count_list rt = [];
  scanned_counted : counted (fun _ => true) E (heap rt);
  scanned_mark p o : p ∈ gc_obj_list rt -> heap rt !! p = Some o -> mark o = 0;
  scanned_live p : p ∈ gc_obj_list rt <-> is_Some (D !! p) /\ reachable D E p }.

Lemma scan_loop_spec rt : scan_inv [] [] [] [] rt ->
  yields (loop (S (S (size (heap rt)))) gc_scan_step (head (gc_obj_list rt), rt))
    (fun rt' => scan_inv (gc_obj_list rt') [] [] [] rt').
Proof.
  intros H. pose proof (scan_skel _ _ _ _ _ H) as HD.
  apply (loop_yields_nat gc_scan_step
    (fun n '(el, rt') => exists done todo, n = (size D - length done)%nat /\ gc_obj_list rt' = done ++ todo /\
                                           el = head todo /\ scan_inv done [] [] [] rt') _)
    with (n := size D).
  - intros n [el rt'] (done & todo & -> & Hl & -> & Hi). eapply yields_mono; [by apply gc_scan_step_spec|].
    intros [[el rt'']|rt''].
    + intros (q & todo' & Hl' & -> & Hi'). exists (size D - length (done ++ [q]))%nat.
      assert (Hle : (length (done ++ [q]) <= size D)%nat).
      { destruct Hi' as [_ Hloc HD' _ _ _ _ _ _ _ _]. rewrite <- (skel_size _ HD'), <- places_length by exact Hloc.
        unfold places. rewrite Hl', !length_app. lia. }
      rewrite length_app in *. cbn in *. split; [lia|]. exists (done ++ [q]), todo'. rewrite length_app. by cbn.
    + by intros [-> Hi'].
  - exists [], (gc_obj_list rt). cbn. split; [lia|done].
  - rewrite (skel_size _ HD). lia.
Qed.

Lemma scan_closed L rt : gc_obj_list rt = L -> scan_inv L [] [] [] rt -> forall p, p ∈ L <-> is_Some (D !! p) /\ reachable D E p.
Proof.
  intros HL [Hph Hloc HD Hz _ Hpos Hreach Ht Hm (k & Hk & Hc) _] p. rewrite app_nil_r in Hk. symmetry in Hk.
  apply Permutation_nil in Hk as ->. cbn in Hc. rewrite HL in *.
  assert (Hin : forall r, ref_ok D r -> 0 < cnt (target r) E + total (inl_ L) (target r) (skel (heap rt)) -> target r ∈ L).
  { intros r (d & Ed & _) Hr. rewrite <- HD in Ed. apply skel_inv in Ed as (o & Eo & _).
    rewrite <- (counted_count _ _ _ Hc _ o Eo) in Hr.
    assert (Hp : target r ∈ places rt) by (apply Hloc; by rewrite Eo). unfold places in Hp.
    rewrite HL, Hz, app_nil_r in Hp. apply elem_of_app in Hp as [Hp|Hp]; [done|]. specialize (Ht _ o Hp Eo). lia. }
  split.
  - intros Hp. split; [|by apply Hreach]. destruct (located_dom _ Hloc p) as [Hd _].
    destruct Hd as [o Eo]; [unfold places; rewrite HL, elem_of_app; by left|]. rewrite <- HD. exists (data o). by apply skel_lookup.
  - intros [_ Hr]. apply (reachable_closed D E (fun p => p ∈ L) p); [| |done].
    + intros r HrE. apply Hin; [rewrite <- HD; by apply Hc|]. pose proof (cnt_in r E HrE).
      pose proof (total_nonneg (inl_ L) (target r) (skel (heap rt))). lia.
    + intros q d r Hq Eq Hrd. apply Hin; [by apply (all_ok q d)|]. pose proof (cnt_in r _ Hrd).
      pose proof (cnt_nonneg (target r) E). rewrite <- HD in Eq.
      pose proof (total_ge (inl_ L) (target r) q d _ Eq) as Hw. unfold weigh, inl_ in Hw. rewrite bool_decide_true in Hw by done. unfold inl_. lia.
Qed.

Lemma gc_scan_spec rt : dec_inv E D [] [] [] rt -> yields (gc_scan rt) scanned.
Proof.
  intros [Hph Hloc HD Hz (A & HA & Hpos) Hc Hm0 Ht]. cbn in Hc. rewrite app_nil_r in HA. cbn in HA. subst A.
  unfold gc_scan. apply yields_bind.
  assert (Hc0 : counted (inl_ []) E (heap rt)) by done.
  eapply yields_mono.
  { apply scan_loop_spec. split; try done.
    - by exists (gc_obj_list rt).
    - intros p o Hp Eo. by apply (Hpos p).
    - intros p Hp. assert (Hq : is_Some (heap rt !! p)) by (apply Hloc; unfold places; rewrite elem_of_app; by left).
      destruct Hq as [o Eo]. destruct (Hpos p o Hp Eo) as [_ Hr]. rewrite (counted_count _ _ _ Hc0 p o Eo) in Hr.
      assert (E0 : total (inl_ []) p (skel (heap rt)) = 0).
      { destruct (decide (0 < total (inl_ []) p (skel (heap rt)))) as [Hw|Hw].
        - apply total_pos in Hw as (q & d & _ & Ha & _). unfold inl_ in Ha. apply bool_decide_eq_true in Ha. by apply elem_of_nil in Ha.
        - pose proof (total_nonneg (inl_ []) p (skel (heap rt))). lia. }
      rewrite E0, Z.add_0_r in Hr. apply cnt_pos in Hr as (r & Hr & <-). by apply reachable_root.
    - by exists [].
    - intros r Hr. by apply elem_of_nil in Hr. }
  clear Hph Hloc HD Hz Hpos Hc Hm0 Ht Hc0 rt. intros rt Hi.
  pose proof (scan_closed _ rt eq_refl Hi) as Hlive.
  destruct Hi as [Hph Hloc HD Hz _ _ _ _ Hm (k & Hk & Hc) _]. rewrite app_nil_r in Hk. symmetry in Hk.
  apply Permutation_nil in Hk as ->. cbn in Hc. rewrite app_nil_r in Hm.
  pose proof (located_nodup _ Hloc) as Hn. unfold places in Hn. rewrite Hz, app_nil_r in Hn.
  eapply yields_mono.
  { apply (rest_spec (gc_obj_list rt) (tmp_obj_list rt) [] rt Hn). split; try done; [rewrite app_nil_r; by exists []|]. intros r Hr. by apply elem_of_nil in Hr. }
  clear Hph Hm. intros rt' [Hph' Hloc' HD' Hz' Hg' Ht' Hm' (k & Hk & Hc') _]. rewrite app_nil_r in Hk. symmetry in Hk.
  apply Permutation_nil in Hk as ->. cbn in Hc', Ht'. split; try done.
  - eapply counted_act; [|exact Hc']. intros q d Eq. unfold inl_. apply bool_decide_true. apply skel_inv in Eq as (o & Eo & _).
    assert (Hp : q ∈ places rt') by (apply Hloc'; by rewrite Eo). unfold places in Hp. by rewrite Hg', Ht', Hz', app_nil_r in Hp.
  - rewrite Hg'. intros p o. apply Hm'.
  - intros p. rewrite Hg'. apply Hlive.
Qed.
End Collect.
