(* ===== verification/GcFree.v ===== *)
(** * Releasing references: the counts stay right

    While references are released, [free_inv] holds of the pending ones; the functions that release one reference preserve it ([consumes]),
    [free_gc_object] releases an object ([free_gc_object_spec]). *)

From stdpp Require Import gmap relations.
From S2P Require Import Prelude GcHeap GcCount GcMark GcRun.
#[local] Open Scope Z_scope.
#[local] Arguments remove_one : simpl never.

Section Release.
Context (zero_op : op) (E : list ref).

(** ** The invariant *)

(** [l] are the pending references, [act] tells which objects still own theirs. *)
Record free_inv (act : Z -> bool) (l : list ref) (rt : JSRuntime) : Prop := {
  fi_phase : gc_phase rt <> JS_GC_PHASE_NONE;
  fi_located : located rt;
  fi_counted : counted act (l ++ E) (heap rt);
  fi_pos p o : heap rt !! p = Some o -> is_value (data o) = false -> if act p then 0 < ref_count o else ref_count o = 0;
  fi_zero p o : gc_phase rt = JS_GC_PHASE_DECREF -> heap rt !! p = Some o ->
    (is_value (data o) = true /\ ref_count o = 0 <-> p ∈ gc_zero_ref_count_list rt);
  fi_data p d : skel (heap rt) !! p = Some d ->
    (gc_phase rt = JS_GC_PHASE_REMOVE_CYCLES /\ d = zombie) \/
    (markable d = true /\ (releasable d = true \/ exists r, r ∈ E /\ target r = p)) }.

(** What releasing does to the rest of the heap. *)
Record evolves (rt rt' : JSRuntime) : Prop := {
  ev_phase : gc_phase rt' = gc_phase rt;
  ev_data p o' : heap rt' !! p = Some o' ->
    exists o, heap rt !! p = Some o /\ data o' = data o /\ mark o' = mark o /\ ref_count o' <= ref_count o;
  ev_keep p o : heap rt !! p = Some o -> is_value (data o) = true \/ ref_count o <= 0 -> is_Some (heap rt' !! p);
  ev_gc p : p ∈ gc_obj_list rt' -> p ∈ gc_obj_list rt;
  ev_tmp p : p ∈ tmp_obj_list rt' -> p ∈ tmp_obj_list rt;
  ev_zero p : p ∈ gc_zero_ref_count_list rt' -> p ∈ gc_zero_ref_count_list rt \/ gc_phase rt = JS_GC_PHASE_DECREF }.

Lemma evolves_refl rt : evolves rt rt.
Proof.
  split; try done; [|by left]. intros p o Eo. exists o. split; [done|]. split; [done|]. split; [done|lia].
Qed.

Definition J (rt0 : JSRuntime) (act : Z -> bool) (l : list ref) (rt : JSRuntime) : Prop := free_inv act l rt /\ evolves rt0 rt.

Lemma J_perm rt0 act l l' rt : l ≡ₚ l' -> J rt0 act l rt -> J rt0 act l' rt.
Proof. intros Hp [[] Hev]. split; [|done]. split; try done. eapply counted_perm; [|done]. by rewrite Hp. Qed.

Section From.
Context (rt0 : JSRuntime).
Abbreviation J := (J rt0).

(** ** One reference *)

Lemma release_target act r l rt : J act (r :: l) rt ->
  exists o, heap rt !! target r = Some o /\ kind_ok r (data o) = true /\ 0 < ref_count o.
Proof.
  intros [[_ _ Hc _ _ _] _]. destruct (counted_list _ _ _ Hc r) as (d & Ed & K); [by constructor|].
  apply skel_inv in Ed as (o & Eo & <-). exists o. split; [done|]. split; [done|].
  rewrite (counted_count _ _ _ Hc _ _ Eo). pose proof (cnt_in r ((r :: l) ++ E) ltac:(by constructor)).
  pose proof (total_nonneg act (target r) (skel (heap rt))). lia.
Qed.

Lemma evolves_dec p o rt n : evolves rt0 rt -> heap rt !! p = Some o -> n <= ref_count o ->
  evolves rt0 (set_heap (<[p := set_ref_count n o]> (heap rt)) rt).
Proof.
  intros [H1 H2 H3 H4 H5 H6] Eo Hn. split; try done.
  - cbn. intros q o' Eq. destruct (decide (q = p)) as [->|Hne].
    + rewrite lookup_insert_eq in Eq. injection Eq as <-. destruct (H2 p o Eo) as (o0 & E0 & Ed & Em & Er).
      exists o0. cbn. split; [done|]. split; [done|]. split; [done|lia].
    + rewrite lookup_insert_ne in Eq by done. by apply H2.
  - cbn. intros q oq Eq Hq. specialize (H3 q oq Eq Hq). destruct (decide (q = p)) as [->|Hne].
    + by rewrite lookup_insert_eq.
    + by rewrite lookup_insert_ne.
Qed.

Lemma dec_lookup p o n rt q oq : heap (set_heap (<[p := set_ref_count n o]> (heap rt)) rt) !! q = Some oq ->
  (q = p /\ oq = set_ref_count n o) \/ (q <> p /\ heap rt !! q = Some oq).
Proof.
  cbn. intros Eq. destruct (decide (q = p)) as [->|Hne].
  - rewrite lookup_insert_eq in Eq. left. split; [done|congruence].
  - rewrite lookup_insert_ne in Eq by done. by right.
Qed.

(** A value whose count reaches zero waits in [gc_zero_ref_count_list], outside of [gc_free_cycles]. *)
Lemma release_value act r v : value_refs v = [r] -> consumes (J act) [r] (JS_FreeValueRT zero_op v).
Proof.
  intros Ev l rt HJ. cbn in HJ. destruct (release_target _ _ _ _ HJ) as (o & Eo & K & Hpos).
  set (p := target r) in *. destruct HJ as [[Hph Hloc Hc Hnv Hz Hd] Hev].
  assert (Hval : is_value (data o) = true) by (destruct v; cbn in Ev; simplify_eq; cbn in K; by destruct (data o)).
  set (rt1 := set_heap (<[p := set_ref_count (ref_count o - 1) o]> (heap rt)) rt).
  assert (Ef : JS_FreeValueRT zero_op v rt = if ref_count o - 1 <=? 0 then __JS_FreeValueRT zero_op p rt1 else Ret rt1).
  { unfold JS_FreeValueRT. destruct v; cbn in Ev; simplify_eq; subst rt1 p; cbn in Eo; by rewrite (decref_eq _ _ _ Eo). }
  assert (Hc1 : counted act (l ++ E) (heap rt1)) by (by apply (counted_decref _ r (l ++ E) _ o)).
  assert (Hloc1 : located rt1) by (apply located_update; [done|by rewrite Eo]).
  assert (Hev1 : evolves rt0 rt1) by (apply evolves_dec; [done|done|lia]).
  assert (Hnv1 : forall q oq, heap rt1 !! q = Some oq -> is_value (data oq) = false ->
                   if act q then 0 < ref_count oq else ref_count oq = 0).
  { intros q oq Eq Hq. destruct (dec_lookup _ _ _ _ _ _ Eq) as [[-> ->]|[_ Eq']]; [|by apply Hnv].
    cbn in Hq. congruence. }
  assert (Hsk : skel (heap rt1) = skel (heap rt)) by (by apply (skel_insert_same _ p o)).
  assert (Hd1 : forall q d, skel (heap rt1) !! q = Some d ->
            (gc_phase rt1 = JS_GC_PHASE_REMOVE_CYCLES /\ d = zombie) \/
            (markable d = true /\ (releasable d = true \/ exists r, r ∈ E /\ target r = q))) by (rewrite Hsk; apply Hd).
  rewrite Ef. destruct (Z.leb_spec (ref_count o - 1) 0) as [Hle|Hgt].
  - assert (E0 : ref_count o - 1 = 0) by lia. unfold __JS_FreeValueRT. case_decide as Hrm.
    + cbn. split; [|done]. split; try done. intros q oq Hdec. change (gc_phase rt1) with (gc_phase rt) in *. congruence.
    + assert (Hdec : gc_phase rt = JS_GC_PHASE_DECREF) by (change (gc_phase rt1) with (gc_phase rt) in *; by destruct (gc_phase rt)).
      assert (Hpz : p ∉ gc_zero_ref_count_list rt) by (intros Hin; apply (Hz p o Hdec Eo) in Hin; lia).
      assert (Hpp : p ∈ places rt) by (apply Hloc; by rewrite Eo).
      apply yields_bind. apply yields_seq. rewrite list_del_eq.
      2:{ apply Hloc. }
      2:{ change (p ∈ gc_obj_list rt ++ gc_zero_ref_count_list rt ++ tmp_obj_list rt). unfold places in Hpp.
          rewrite !elem_of_app in *. tauto. }
      cbn [yields]. unfold add_zero. cbn [yields mret outcome_ret].
      change (gc_phase (set_lists _ _ _ _)) with (gc_phase rt). rewrite decide_False by done. cbn [yields mret outcome_ret gc_phase set_lists].
      cbn [gc_obj_list gc_zero_ref_count_list tmp_obj_list set_heap set_lists rt1].
      rewrite (remove_one_notin p (gc_zero_ref_count_list rt)) by done.
      assert (Hin : forall q, q ∈ remove_one p (gc_obj_list rt) ++ remove_one p (tmp_obj_list rt) ++ p :: gc_zero_ref_count_list rt
                              <-> q ∈ places rt).
      { intros q. unfold places. rewrite !elem_of_app, elem_of_cons, !elem_of_remove_one. unfold places in Hpp. rewrite !elem_of_app in Hpp.
        destruct (decide (q = p)) as [->|Hne]; tauto. }
      split; [split|]; try done.
      * split; cbn; [apply Hloc| |].
        -- unfold places. cbn. destruct Hloc as [_ Hn _]. unfold places in Hn.
           apply list.NoDup_app in Hn as (Hn1 & Hn2 & Hn3). apply list.NoDup_app in Hn3 as (Hn3 & Hn4 & Hn5).
           apply list.NoDup_app. split; [by apply remove_one_NoDup|]. split.
           { intros q Hq Hq'. apply elem_of_remove_one in Hq as [Hne Hq]. apply (Hn2 q Hq).
             rewrite !elem_of_app, elem_of_cons, elem_of_remove_one in *. tauto. }
           apply list.NoDup_app. split; [by apply remove_one_NoDup|]. split.
           { intros q Hq Hq'. apply elem_of_remove_one in Hq as [Hne Hq]. apply (Hn4 q Hq).
             rewrite elem_of_cons in Hq'. tauto. }
           by apply list.NoDup_cons.
        -- intros q. etransitivity; [apply Hin|]. apply (located_dom _ Hloc1 q).
      * cbn. intros q oq _ Eq. rewrite elem_of_cons. destruct (dec_lookup _ _ _ _ _ _ Eq) as [[-> ->]|[Hne Eq']].
        -- cbn. split; [by left|]. by split.
        -- rewrite <- (Hz q oq Hdec Eq'). tauto.
      * destruct Hev1 as [H1 H2 H3 H4 H5 H6]. split; try done; cbn.
        -- intros q Hq. apply elem_of_remove_one in Hq as [_ Hq]. by apply H4.
        -- intros q Hq. apply elem_of_remove_one in Hq as [_ Hq]. by apply H5.
        -- intros q _. right. change (gc_phase rt = gc_phase rt0) in H1. congruence.
  - cbn. split; [|done]. split; try done. intros q oq Hdec Eq. change (gc_zero_ref_count_list rt1) with (gc_zero_ref_count_list rt).
    destruct (dec_lookup _ _ _ _ _ _ Eq) as [[-> ->]|[Hne Eq']]; [|by apply Hz].
    rewrite <- (Hz p o Hdec Eo). cbn. lia.
Qed.

Lemma release_any act v : consumes (J act) (value_refs v) (JS_FreeValueRT zero_op v).
Proof. destruct v; [by apply release_value|by apply release_value|apply consumes_skip]. Qed.
End From.

Lemma evolves_trans rt1 rt2 rt3 : evolves rt1 rt2 -> evolves rt2 rt3 -> evolves rt1 rt3.
Proof.
  intros [A1 A2 A3 A4 A5 A6] [B1 B2 B3 B4 B5 B6]. split; [by rewrite B1| | |by auto|by auto|].
  - intros p o3 E3. destruct (B2 p o3 E3) as (o2 & E2 & Ed & Em & Er). destruct (A2 p o2 E2) as (o1 & E1 & Ed' & Em' & Er').
    exists o1. split; [done|]. split; [congruence|]. split; [congruence|lia].
  - intros p o1 E1 Hk. destruct (A3 p o1 E1 Hk) as [o2 E2]. apply (B3 p o2 E2).
    destruct (A2 p o2 E2) as (o1' & E1' & Ed & _ & Er). assert (o1' = o1) as -> by congruence. rewrite Ed.
    destruct Hk as [Hk|Hk]; [by left|right; lia].
  - intros p Hp. destruct (B6 p Hp) as [Hz|Hd]; [by apply A6|]. right. congruence.
Qed.

(** *** Taking an object away *)

Lemma located_gone p rt rt' :
  located rt -> heap rt' = delete p (heap rt) -> var_ref_lists rt' = ∅ ->
  gc_obj_list rt' = remove_one p (gc_obj_list rt) -> tmp_obj_list rt' = remove_one p (tmp_obj_list rt) ->
  gc_zero_ref_count_list rt' = remove_one p (gc_zero_ref_count_list rt) -> located rt'.
Proof.
  intros [Hf Hn Hd] Hh Hf' Hg Ht Hz. assert (Ep : places rt' = remove_one p (places rt)).
  { unfold places. by rewrite Hg, Ht, Hz, !remove_one_app. }
  split; [done| |]; rewrite Ep; [by apply remove_one_NoDup|]. intros q. rewrite elem_of_remove_one, Hd, Hh.
  destruct (decide (q = p)) as [->|Hne].
  - rewrite lookup_delete_eq. split; [by intros []|by intros [? ?]].
  - rewrite lookup_delete_ne by done. tauto.
Qed.

Lemma remove_free_eq p o rt : located rt -> heap rt !! p = Some o ->
  (remove_gc_object p ;;; js_free_rt p) rt =
    Ret (set_heap (delete p (heap rt))
           (set_lists (remove_one p (gc_obj_list rt)) (remove_one p (gc_zero_ref_count_list rt)) (remove_one p (tmp_obj_list rt)) rt)).
Proof.
  intros Hloc Eo. unfold seq, remove_gc_object. rewrite list_del_eq.
  - cbn [mbind outcome_bind]. unfold js_free_rt, get. cbn [heap set_lists]. by rewrite Eo.
  - apply Hloc.
  - assert (Hp : p ∈ places rt) by (apply Hloc; by rewrite Eo). unfold places in Hp. rewrite !elem_of_app in *. tauto.
Qed.

Lemma free_tail rt0 act p l o rt :
  J rt0 (without act p) l rt -> heap rt !! p = Some o -> ref_count o = 0 -> is_value (data o) = false ->
  (forall o0, heap rt0 !! p = Some o0 -> is_value (data o0) = false /\ 0 < ref_count o0) ->
  yields ((remove_gc_object p ;;; js_free_rt p) rt) (J rt0 act l).
Proof.
  intros [[Hph Hloc Hc Hnv Hz Hd] [H1 H2 H3 H4 H5 H6]] Eo E0 Ev H0. rewrite (remove_free_eq p o rt Hloc Eo). cbn.
  assert (Hdel : forall q oq, delete p (heap rt) !! q = Some oq -> q <> p /\ heap rt !! q = Some oq).
  { intros q oq Eq. apply lookup_delete_Some in Eq as [Hne Eq]. by split. }
  split; split; cbn; try done.
  - by apply (located_gone p rt); [|cbn|apply Hloc|cbn|cbn|cbn].
  - by apply (counted_free act _ _ p o).
  - intros q oq Eq Hq. destruct (Hdel q oq Eq) as [Hne Eq']. specialize (Hnv q oq Eq' Hq). unfold without in Hnv.
    destruct (Z.eqb_spec q p); done.
  - intros q oq Hdec Eq. destruct (Hdel q oq Eq) as [Hne Eq']. rewrite elem_of_remove_one, (Hz q oq Hdec Eq'). tauto.
  - intros q d Eq. rewrite skel_delete in Eq. apply lookup_delete_Some in Eq as [Hne Eq]. by apply Hd.
  - intros q oq Eq. destruct (Hdel q oq Eq) as [Hne Eq']. by apply H2.
  - intros q oq Eq Hk. destruct (decide (q = p)) as [->|Hne].
    + destruct (H0 oq Eq) as [Hv Hr]. exfalso. destruct Hk; [congruence|lia].
    + rewrite lookup_delete_ne by done. by apply (H3 q oq).
  - intros q Hq. apply elem_of_remove_one in Hq as [_ Hq]. by apply H4.
  - intros q Hq. apply elem_of_remove_one in Hq as [_ Hq]. by apply H5.
  - intros q Hq. apply elem_of_remove_one in Hq as [_ Hq]. by apply H6.
Qed.

(** *** Structures other than values: freed when the count reaches zero *)

Definition dec_heap (p : Z) (o : gc_object) (rt : JSRuntime) : JSRuntime :=
  set_heap (<[p := set_ref_count (ref_count o - 1) o]> (heap rt)) rt.

Lemma release_struct r (f : op) (body : gc_data -> op) :
  (forall d, kind_ok r d = true -> is_value d = false) ->
  (forall rt o, heap rt !! target r = Some o -> kind_ok r (data o) = true -> 0 < ref_count o ->
     f rt = if ref_count o - 1 =? 0
            then (body (data o) ;;; remove_gc_object (target r) ;;; js_free_rt (target r)) (dec_heap (target r) o rt)
            else Ret (dec_heap (target r) o rt)) ->
  (forall rt0 act d, kind_ok r d = true -> releasable d = true -> consumes (J rt0 act) (data_refs d) (body d)) ->
  forall rt0 act, consumes (J rt0 act) [r] f.
Proof.
  intros Hkind Hf Hbody rt0 act l rt HJ. cbn in HJ. destruct (release_target _ _ _ _ _ HJ) as (o & Eo & K & Hpos).
  set (p := target r) in *. destruct HJ as [[Hph Hloc Hc Hnv Hz Hd] Hev]. pose proof (Hkind _ K) as Hval.
  rewrite (Hf rt o Eo K Hpos). set (rt1 := dec_heap p o rt).
  assert (Hc1 : counted act (l ++ E) (heap rt1)) by (by apply (counted_decref _ r (l ++ E) _ o)).
  assert (Hloc1 : located rt1) by (apply located_update; [done|by rewrite Eo]).
  assert (Hev1 : evolves rt0 rt1) by (apply evolves_dec; [done|done|lia]).
  assert (Hsk : skel (heap rt1) = skel (heap rt)) by (by apply (skel_insert_same _ p o)).
  assert (Hact : act p = true) by (specialize (Hnv p o Eo Hval); destruct (act p); [done|lia]).
  assert (Eo1 : heap rt1 !! p = Some (set_ref_count (ref_count o - 1) o)) by apply lookup_insert_eq.
  assert (Hz1 : forall q oq, gc_phase rt1 = JS_GC_PHASE_DECREF -> heap rt1 !! q = Some oq ->
            (is_value (data oq) = true /\ ref_count oq = 0 <-> q ∈ gc_zero_ref_count_list rt1)).
  { intros q oq Hdec Eq. change (gc_zero_ref_count_list rt1) with (gc_zero_ref_count_list rt).
    destruct (dec_lookup _ _ _ _ _ _ Eq) as [[-> ->]|[Hne Eq']]; [|by apply Hz].
    rewrite <- (Hz p o Hdec Eo). cbn. rewrite Hval. naive_solver. }
  assert (Hd1 : forall q d, skel (heap rt1) !! q = Some d ->
            (gc_phase rt1 = JS_GC_PHASE_REMOVE_CYCLES /\ d = zombie) \/
            (markable d = true /\ (releasable d = true \/ exists r, r ∈ E /\ target r = q))) by (rewrite Hsk; apply Hd).
  destruct (Z.eqb_spec (ref_count o - 1) 0) as [E0|E0].
  - assert (HJ1 : J rt1 (without act p) (data_refs (data o) ++ l) rt1).
    { split; [|apply evolves_refl]. split; try done.
      - rewrite <- app_assoc. apply counted_expose; [done| |done]. rewrite Hsk. by apply skel_lookup.
      - intros q oq Eq Hq. unfold without. destruct (dec_lookup _ _ _ _ _ _ Eq) as [[-> ->]|[Hne Eq']].
        + rewrite Z.eqb_refl. by cbn.
        + destruct (Z.eqb_spec q p); [done|]. by apply Hnv. }
    assert (Hrel : releasable (data o) = true).
    { destruct (Hd p (data o)) as [[_ Hzo]|[_ [Hr|(r' & Hr' & Ht)]]]; [by apply skel_lookup| |done|].
      - rewrite Hzo in Hval. done.
      - destruct (counted_zero _ _ _ _ _ Hc1 Eo1 E0) as [Hno _]. exfalso. apply (Hno r'); [|done]. apply elem_of_app. by right. }
    apply yields_seq. eapply yields_mono; [by apply (Hbody rt1 (without act p) (data o) K Hrel l rt1)|].
    intros rt2 [Hi2 Hev2]. cbn beta. destruct (ev_keep _ _ Hev2 p _ Eo1) as [o2 Eo2]; [right; cbn; lia|].
    destruct (ev_data _ _ Hev2 p o2 Eo2) as (o1' & E1' & Ed2 & _ & Er2). rewrite Eo1 in E1'. injection E1' as <-. cbn in Ed2, Er2.
    pose proof (counted_nonneg _ _ _ _ _ (fi_counted _ _ _ Hi2) Eo2).
    apply (free_tail rt0 act p l o2); [|done|lia|congruence|].
    + split; [done|]. by apply (evolves_trans rt0 rt1 rt2).
    + intros o0 Er0. destruct (ev_data _ _ Hev p o Eo) as (o0' & Er0' & Ed0 & _ & Hr0).
      assert (o0' = o0) as -> by congruence. split; [congruence|lia].
  - cbn. split; [|done]. split; try done. intros q oq Eq Hq.
    destruct (dec_lookup _ _ _ _ _ _ Eq) as [[-> ->]|[Hne Eq']]; [|by apply Hnv]. rewrite Hact. cbn. lia.
Qed.

Lemma seq_assoc (f g h : op) rt : ((f ;;; g) ;;; h) rt = (f ;;; g ;;; h) rt.
Proof. unfold seq. by destruct (f rt). Qed.

Lemma release_shape rt0 act sh : consumes (J rt0 act) [RShape sh] (js_free_shape zero_op sh).
Proof.
  apply (release_struct (RShape sh) _ (fun d => match d with GC_SHAPE proto => opt (free_obj zero_op) proto | _ => skip end)).
  - by intros [].
  - cbn [target]. intros rt o Eo K Hpos. unfold js_free_shape. rewrite (decref_eq _ _ _ Eo). cbn [mbind outcome_bind].
    fold (dec_heap sh o rt). destruct (Z.eqb_spec (ref_count o - 1) 0) as [E0|E0].
    + destruct (Z.leb_spec (ref_count o - 1) 0); [|lia]. unfold js_free_shape0.
      rewrite (get_eq sh (set_ref_count (ref_count o - 1) o)) by apply lookup_insert_eq. cbn [mbind outcome_bind data set_ref_count ref_count].
      destruct (data o); try done. by rewrite E0.
    + destruct (Z.leb_spec (ref_count o - 1) 0); [lia|done].
  - intros rt1 act1 d K _. destruct d as [| |[p|]| | |]; try done; [|apply consumes_skip].
    apply (release_any rt1 act1 (JS_OBJECT p)).
Qed.

Lemma release_var rt0 act p : consumes (J rt0 act) [RVarRef p] (free_var_ref zero_op (Some p)).
Proof.
  apply (release_struct (RVarRef p) _ (fun d => match d with GC_VAR_REF _ _ _ v => JS_FreeValueRT zero_op v | _ => skip end)).
  - by intros [].
  - cbn [target]. intros rt o Eo K Hpos. unfold free_var_ref. cbn [opt]. rewrite (get_eq _ _ _ Eo). cbn [mbind outcome_bind].
    destruct (Z.ltb_spec 0 (ref_count o)); [|lia]. cbn [c_assert mbind outcome_bind]. rewrite (decref_eq _ _ _ Eo).
    cbn [mbind outcome_bind]. fold (dec_heap p o rt). destruct (_ =? 0); [|done].
    cbn in K. destruct (data o) as [| | |[] a i v| |]; try done. by rewrite seq_assoc.
  - intros rt1 act1 d K _. destruct d; try done. apply release_any.
Qed.

Lemma release_async rt0 act s : consumes (J rt0 act) [RAsync s] (js_async_function_free zero_op s).
Proof.
  apply (release_struct (RAsync s) _ (fun d => match d with
    | GC_ASYNC is_active fs r0 r1 =>
        js_async_function_terminate zero_op is_active fs ;;; JS_FreeValueRT zero_op r0 ;;; JS_FreeValueRT zero_op r1
    | _ => skip end)).
  - by intros [].
  - cbn [target]. intros rt o Eo K Hpos. unfold js_async_function_free. rewrite (decref_eq _ _ _ Eo). cbn [mbind outcome_bind].
    fold (dec_heap s o rt). destruct (_ =? 0); [|done]. unfold js_async_function_free0.
    rewrite (get_eq s (set_ref_count (ref_count o - 1) o)) by apply lookup_insert_eq. cbn [mbind outcome_bind data set_ref_count].
    destruct (data o); try done. rewrite seq_assoc. unfold seq at 1 5. destruct (js_async_function_terminate _ _ _ _); try done.
    cbn [mbind outcome_bind]. by rewrite seq_assoc.
  - intros rt1 act1 d K Hrel. destruct d; try done. cbn in *. unfold js_async_function_terminate.
    apply consumes_seq; [|apply consumes_seq; apply release_any]. destruct is_active; [|apply consumes_skip]. cbn in Hrel.
    apply free_frame; [apply J_perm|apply release_any| |done].
    intros l rt [[_ [Hf _ _] _ _ _ _] _]. done.
Qed.

Lemma release_context rt0 act ctx : consumes (J rt0 act) [RContext ctx] (JS_FreeContext zero_op ctx).
Proof.
  apply (release_struct (RContext ctx) _ (fun d => match d with
    | GC_CONTEXT modules values array_shape =>
        each (js_free_module_def zero_op) modules ;;; each (JS_FreeValueRT zero_op) values ;;; js_free_shape_null zero_op array_shape
    | _ => skip end)).
  - by intros [].
  - cbn [target]. intros rt o Eo K Hpos. unfold JS_FreeContext. rewrite (decref_eq _ _ _ Eo). cbn [mbind outcome_bind].
    fold (dec_heap ctx o rt). rewrite Z.gtb_ltb. destruct (Z.eqb_spec (ref_count o - 1) 0) as [E0|E0].
    + rewrite E0. change (0 <? 0) with false. change (c_assert (0 =? 0)) with (Ret tt). cbn [mbind outcome_bind].
      rewrite (get_eq ctx (set_ref_count (ref_count o - 1) o)) by apply lookup_insert_eq. cbn [mbind outcome_bind data set_ref_count].
      destruct (data o); try done. rewrite seq_assoc. unfold seq at 1 5. destruct (each _ _ _); try done.
      cbn [mbind outcome_bind]. by rewrite seq_assoc.
    + destruct (Z.ltb_spec 0 (ref_count o - 1)); [done|lia].
  - intros rt1 act1 d K _. destruct d; try done. cbn. apply consumes_seq; [|apply consumes_seq].
    + apply consumes_all. intros m. apply free_module; [apply release_any|apply release_var].
    + apply consumes_all. apply release_any.
    + apply consumes_opt. apply release_shape.
Qed.

(** ** A whole object *)

Definition all : Z -> bool := fun _ => true.

(** What releasing the value [p] does: it goes, or stays as a zombie until the end of [gc_free_cycles]. *)
Record freed (p : Z) (rt rt' : JSRuntime) : Prop := {
  fr_phase : gc_phase rt' = gc_phase rt;
  fr_data q o' : q <> p -> heap rt' !! q = Some o' ->
    exists o, heap rt !! q = Some o /\ data o' = data o /\ mark o' = mark o /\ ref_count o' <= ref_count o;
  fr_keep q o : q <> p -> heap rt !! q = Some o -> is_value (data o) = true \/ ref_count o <= 0 -> is_Some (heap rt' !! q);
  fr_this : heap rt' !! p = None \/
    (gc_phase rt = JS_GC_PHASE_REMOVE_CYCLES /\ exists o', heap rt' !! p = Some o' /\ is_value (data o') = true /\ data_refs (data o') = []);
  fr_gc q : q ∈ gc_obj_list rt' -> q <> p /\ q ∈ gc_obj_list rt;
  fr_tmp q : q ∈ tmp_obj_list rt' -> q <> p /\ q ∈ tmp_obj_list rt;
  fr_zero q : q ∈ gc_zero_ref_count_list rt' -> q = p \/ q ∈ gc_zero_ref_count_list rt \/ gc_phase rt = JS_GC_PHASE_DECREF }.

Lemma freed_after p rt1 rt2 rt3 : evolves rt1 rt2 -> freed p rt2 rt3 -> freed p rt1 rt3.
Proof.
  intros [A1 A2 A3 A4 A5 A6] [B1 B2 B3 B4 B5 B6 B7]. split; [by rewrite B1| | |by rewrite <- A1| | |].
  - intros q o3 Hne E3. destruct (B2 q o3 Hne E3) as (o2 & E2 & Ed & Em & Er). destruct (A2 q o2 E2) as (o1 & E1 & Ed' & Em' & Er').
    exists o1. split; [done|]. split; [congruence|]. split; [congruence|lia].
  - intros q o1 Hne E1 Hk. destruct (A3 q o1 E1 Hk) as [o2 E2]. apply (B3 q o2 Hne E2).
    destruct (A2 q o2 E2) as (o1' & E1' & Ed & _ & Er). assert (o1' = o1) as -> by congruence. rewrite Ed.
    destruct Hk as [Hk|Hk]; [by left|right; lia].
  - intros q Hq. destruct (B5 q Hq) as [Hne Hq']. auto.
  - intros q Hq. destruct (B6 q Hq) as [Hne Hq']. auto.
  - intros q Hq. destruct (B7 q Hq) as [Hp|[Hz|Hd]]; [by left| |right; right; congruence].
    destruct (A6 q Hz) as [Hz'|Hd]; auto.
Qed.

(** A change of the object itself before. *)
Lemma freed_change p o' rt rt' : freed p (set_heap (<[p := o']> (heap rt)) rt) rt' -> freed p rt rt'.
Proof.
  intros [B1 B2 B3 B4 B5 B6 B7]. split; try done.
  - intros q o3 Hne E3. destruct (B2 q o3 Hne E3) as (o2 & E2 & H). cbn in E2. rewrite lookup_insert_ne in E2 by done. by exists o2.
  - intros q o1 Hne E1. apply (B3 q o1 Hne). cbn. by rewrite lookup_insert_ne.
Qed.

Lemma total_set act p x d D : total (without act p) x (<[p := d]> D) = total (without act p) x (delete p D).
Proof.
  rewrite <- insert_delete_eq, total_insert by apply lookup_delete_eq. by rewrite weigh_without.
Qed.
Lemma ref_ok_set D p d d' r : D !! p = Some d -> (forall r, kind_ok r d' = kind_ok r d) -> ref_ok D r -> ref_ok (<[p := d']> D) r.
Proof.
  intros Ep Hk (dr & Er & Kr). unfold ref_ok. destruct (decide (target r = p)) as [Et|Hne].
  - exists d'. rewrite Et, lookup_insert_eq. split; [done|]. rewrite Hk. congruence.
  - exists dr. by rewrite lookup_insert_ne.
Qed.
Lemma counted_data act p l h o d' :
  counted (without act p) l h -> h !! p = Some o -> (forall r, kind_ok r d' = kind_ok r (data o)) ->
  counted (without act p) l (<[p := set_data d' o]> h).
Proof.
  intros [H1 H2 H3] Eo Hk. pose proof (skel_lookup _ _ _ Eo) as Es. split; rewrite skel_insert; cbn [data set_data].
  - intros q oq Eq. rewrite total_set. assert (Et : total (without act p) q (delete p (skel h)) = total (without act p) q (skel h)).
    { rewrite (total_delete _ q p (data o) (skel h)) by done. by rewrite weigh_without. }
    rewrite Et. destruct (decide (q = p)) as [->|Hne].
    + rewrite lookup_insert_eq in Eq. injection Eq as <-. by apply (H1 p o).
    + rewrite lookup_insert_ne in Eq by done. by apply H1.
  - intros r Hr. apply (ref_ok_set _ _ (data o)); [done|done|by apply H2].
  - intros q d r Eq Ha Hr. apply (ref_ok_set _ _ (data o)); [done|done|]. unfold without in Ha.
    destruct (Z.eqb_spec q p); [done|]. rewrite lookup_insert_ne in Eq by done. apply (H3 q d); [done| |done].
    unfold without. by destruct (Z.eqb_spec q p).
Qed.

(** The object is changed while its references are pending. *)
Lemma change_value act p l rt o d' :
  free_inv (without act p) l rt -> heap rt !! p = Some o -> is_value (data o) = true -> is_value d' = true ->
  (forall r, kind_ok r d' = kind_ok r (data o)) ->
  (gc_phase rt = JS_GC_PHASE_REMOVE_CYCLES /\ d' = zombie) \/
    (markable d' = true /\ (releasable d' = true \/ exists r, r ∈ E /\ target r = p)) ->
  free_inv (without act p) l (set_heap (<[p := set_data d' o]> (heap rt)) rt).
Proof.
  intros [Hph Hloc Hc Hnv Hz Hd] Eo Hv Hv' Hk Hd'.
  assert (Hlk : forall q oq, <[p := set_data d' o]> (heap rt) !! q = Some oq ->
            (q = p /\ oq = set_data d' o) \/ (q <> p /\ heap rt !! q = Some oq)).
  { intros q oq Eq. destruct (decide (q = p)) as [->|Hne].
    - rewrite lookup_insert_eq in Eq. left. split; [done|congruence].
    - rewrite lookup_insert_ne in Eq by done. by right. }
  split; cbn; [done|apply located_update; [done|by rewrite Eo]|by apply counted_data| | |].
  - intros q oq Eq Hq. destruct (Hlk q oq Eq) as [[-> ->]|[_ Eq']]; [cbn in Hq; congruence|by apply Hnv].
  - intros q oq Hdec Eq. destruct (Hlk q oq Eq) as [[-> ->]|[_ Eq']]; [|by apply Hz].
    rewrite <- (Hz p o Hdec Eo). cbn. by rewrite Hv, Hv'.
  - intros q d Eq. rewrite skel_insert in Eq. destruct (decide (q = p)) as [->|Hne].
    + rewrite lookup_insert_eq in Eq. cbn in Eq. by simplify_eq.
    + rewrite lookup_insert_ne in Eq by done. by apply Hd.
Qed.

Definition emptied (d : gc_data) : Prop := d = zombie \/ d = GC_BYTECODE [] None.

Lemma finish_free p rt o d' :
  free_inv (without all p) [] rt -> heap rt !! p = Some o -> is_value (data o) = true -> emptied d' ->
  (forall r, kind_ok r d' = kind_ok r (data o)) ->
  (gc_phase rt = JS_GC_PHASE_DECREF -> ref_count o = 0) ->
  yields ((update p (set_data d') ;;; free_or_keep p) rt) (fun rt' => free_inv all [] rt' /\ freed p rt rt').
Proof.
  intros [Hph Hloc Hc Hnv Hz Hd] Eo Hv Hem Hk H0. apply yields_seq. rewrite (update_eq _ _ _ _ Eo). cbn [yields].
  set (rt1 := set_heap (<[p := set_data d' o]> (heap rt)) rt).
  assert (Eo1 : heap rt1 !! p = Some (set_data d' o)) by apply lookup_insert_eq.
  assert (Hloc1 : located rt1) by (apply located_update; [done|by rewrite Eo]).
  assert (Hc1 : counted (without all p) E (heap rt1)) by (by apply counted_data).
  assert (Hp : p ∈ places rt1) by (apply Hloc1; by rewrite Eo1).
  unfold free_or_keep. apply yields_seq. unfold remove_gc_object. rewrite list_del_eq.
  2:{ apply Hloc1. }
  2:{ unfold places in Hp. rewrite !elem_of_app in *. tauto. }
  cbn [yields]. set (rt2 := set_lists _ _ _ rt1).
  assert (Eo2 : heap rt2 !! p = Some (set_data d' o)) by done.
  rewrite (get_eq _ _ _ Eo2). cbn [mbind outcome_bind ref_count set_data].
  assert (Hne : forall q oq, q <> p -> heap rt2 !! q = Some oq -> heap rt !! q = Some oq).
  { intros q oq Hq Eq. cbn in Eq. by rewrite lookup_insert_ne in Eq. }
  assert (Hv' : is_value d' = true) by (by destruct Hem as [-> | ->]).
  assert (Hrefs : data_refs d' = []) by (by destruct Hem as [-> | ->]).
  case_decide as Hkeep; [destruct Hkeep as [Hrm Hn0]|].
  - change (gc_phase rt2) with (gc_phase rt) in Hrm. cbn. split; split; cbn; try done.
    + split; cbn; [apply Hloc| |].
      * unfold places. cbn. pose proof (located_nodup _ Hloc1) as Hn. apply (remove_one_NoDup p) in Hn. unfold places in Hn.
        rewrite !remove_one_app in Hn. rewrite !app_assoc. apply list.NoDup_app. rewrite <- app_assoc. split; [done|]. split.
        { intros q Hq Hq'. apply list_elem_of_singleton in Hq' as ->. rewrite !elem_of_app, !elem_of_remove_one in Hq. tauto. }
        apply list.NoDup_singleton.
      * intros q. etransitivity; [|apply (located_dom _ Hloc1 q)]. unfold places in *. cbn in *.
        rewrite !elem_of_app, list_elem_of_singleton, !elem_of_remove_one. rewrite !elem_of_app in Hp.
        destruct (decide (q = p)) as [->|]; tauto.
    + apply (counted_absorb _ _ _ p d'); [by rewrite Hrefs| |done]. rewrite skel_insert. by rewrite lookup_insert_eq.
    + intros q oq Eq Hq. destruct (decide (q = p)) as [->|Hqp]; [rewrite lookup_insert_eq in Eq; injection Eq as <-; cbn in Hq; congruence|].
      rewrite lookup_insert_ne in Eq by done. specialize (Hnv q oq Eq Hq). unfold without in Hnv. by destruct (Z.eqb_spec q p).
    + intros q oq Hdec. congruence.
    + intros q d Eq. rewrite skel_insert in Eq. destruct (decide (q = p)) as [->|Hqp].
      * rewrite lookup_insert_eq in Eq. injection Eq as <-. destruct Hem as [-> | ->]; [by left|right]. split; [done|by left].
      * rewrite lookup_insert_ne in Eq by done. by apply Hd.
    + intros q oq Hq Eq. rewrite lookup_insert_ne in Eq by done. exists oq. split; [done|]. split; [done|]. split; [done|lia].
    + intros q oq Hq Eq _. by rewrite lookup_insert_ne.
    + right. split; [done|]. exists (set_data d' o). by rewrite lookup_insert_eq.
    + intros q Hq. by apply elem_of_remove_one in Hq.
    + intros q Hq. by apply elem_of_remove_one in Hq.
    + intros q Hq. apply elem_of_app in Hq as [Hq|Hq].
      * apply elem_of_remove_one in Hq as [_ Hq]. auto.
      * apply list_elem_of_singleton in Hq. auto.
  - assert (E0 : ref_count o = 0).
    { change (gc_phase rt2) with (gc_phase rt) in Hkeep. destruct (gc_phase rt) eqn:Eph; [done|by apply H0|].
      destruct (decide (ref_count o = 0)); [done|naive_solver]. }
    unfold js_free_rt. rewrite (get_eq _ _ _ Eo2). cbn [mbind outcome_bind mret outcome_ret yields].
    assert (Hdel : forall q oq, delete p (<[p := set_data d' o]> (heap rt)) !! q = Some oq -> q <> p /\ heap rt !! q = Some oq).
    { intros q oq Eq. apply lookup_delete_Some in Eq as [Hqp Eq]. rewrite lookup_insert_ne in Eq by done. by split. }
    split; split; cbn; try done.
    + by apply (located_gone p rt1); [|cbn|apply Hloc|cbn|cbn|cbn].
    + by apply (counted_free all _ _ p (set_data d' o)).
    + intros q oq Eq Hq. destruct (Hdel q oq Eq) as [Hqp Eq']. specialize (Hnv q oq Eq' Hq). unfold without in Hnv.
      by destruct (Z.eqb_spec q p).
    + intros q oq Hdec Eq. destruct (Hdel q oq Eq) as [Hqp Eq']. rewrite elem_of_remove_one, (Hz q oq Hdec Eq'). tauto.
    + intros q d Eq. rewrite skel_delete, skel_insert in Eq. apply lookup_delete_Some in Eq as [Hqp Eq].
      rewrite lookup_insert_ne in Eq by done. by apply Hd.
    + intros q oq Hq Eq. destruct (Hdel q oq Eq) as [_ Eq']. exists oq. split; [done|]. split; [done|]. split; [done|lia].
    + intros q oq Hq Eq _. rewrite lookup_delete_ne, lookup_insert_ne by done. done.
    + left. apply lookup_delete_eq.
    + intros q Hq. by apply elem_of_remove_one in Hq.
    + intros q Hq. by apply elem_of_remove_one in Hq.
    + intros q Hq. apply elem_of_remove_one in Hq as [_ Hq]. auto.
Qed.

(** The references of [p] become pending. *)
Lemma start_free p rt o : free_inv all [] rt -> heap rt !! p = Some o -> is_value (data o) = true ->
  free_inv (without all p) (data_refs (data o) ++ []) rt.
Proof.
  intros [Hph Hloc Hc Hnv Hz Hd] Eo Hv. split; try done.
  - rewrite app_nil_r. apply counted_expose; [done|by apply skel_lookup|done].
  - intros q oq Eq Hq. unfold without. destruct (Z.eqb_spec q p) as [->|]; [congruence|by apply (Hnv q oq)].
Qed.

Lemma after_release p rt1 rt2 o1 d :
  J rt1 (without all p) [] rt2 -> heap rt1 !! p = Some o1 -> data o1 = d -> is_value d = true ->
  (gc_phase rt1 = JS_GC_PHASE_DECREF -> ref_count o1 = 0) ->
  exists o2, heap rt2 !! p = Some o2 /\ data o2 = d /\ (gc_phase rt2 = JS_GC_PHASE_DECREF -> ref_count o2 = 0).
Proof.
  intros [Hi Hev] E1 Ed Hv H0. destruct (ev_keep _ _ Hev p o1 E1) as [o2 E2]; [left; congruence|].
  destruct (ev_data _ _ Hev p o2 E2) as (o1' & E1' & Ed2 & _ & Er). assert (o1' = o1) as -> by congruence.
  exists o2. split; [done|]. split; [congruence|]. rewrite (ev_phase _ _ Hev). intros Hdec. specialize (H0 Hdec).
  pose proof (counted_nonneg _ _ _ _ _ (fi_counted _ _ _ Hi) E2). lia.
Qed.

Lemma no_frames_J rt0 act l rt : J rt0 act l rt -> var_ref_lists rt = ∅.
Proof. intros [[_ [Hf _ _] _ _ _ _] _]. done. Qed.
Lemma live_object_J rt0 act p l rt : J rt0 act (RObject p :: l) rt ->
  exists o sh prop u w fm, heap rt !! p = Some o /\ data o = GC_OBJ sh prop u w fm.
Proof.
  intros HJ. destruct (release_target _ _ _ _ _ HJ) as (o & Eo & K & _). cbn in *.
  destruct (data o) as [sh prop u w fm| | | | |] eqn:Ed; try done. by exists o, sh, prop, u, w, fm.
Qed.

Lemma free_object_spec p rt o :
  free_inv all [] rt -> heap rt !! p = Some o -> (exists sh prop u w fm, data o = GC_OBJ sh prop u w fm) -> releasable (data o) = true ->
  (gc_phase rt = JS_GC_PHASE_DECREF -> ref_count o = 0) ->
  yields (free_object zero_op p rt) (fun rt' => free_inv all [] rt' /\ freed p rt rt').
Proof.
  intros Hi Eo (sh & prop & u & w & fm & Ed) Hrel H0. rewrite Ed in Hrel. cbn in Hrel.
  destruct sh as [sh|]; [|done]. destruct w; [|done]. cbn in Hrel. apply andb_prop in Hrel as [Hprop Hu].
  unfold free_object. rewrite (update_eq _ _ _ _ Eo). cbn [mbind outcome_bind].
  set (d1 := GC_OBJ (Some sh) prop u [] true).
  assert (Es : set_free_mark o = set_data d1 o) by (unfold set_free_mark; by rewrite Ed). rewrite Es.
  set (rt1 := set_heap (<[p := set_data d1 o]> (heap rt)) rt).
  assert (E1 : heap rt1 !! p = Some (set_data d1 o)) by apply lookup_insert_eq.
  rewrite (get_eq _ _ _ E1). cbn [mbind outcome_bind data set_data d1].
  assert (Hv : is_value (data o) = true) by (by rewrite Ed).
  assert (HJ1 : J rt1 (without all p) ((list_refs property_refs prop ++ [RShape sh]) ++ class_refs u ++ []) rt1).
  { split; [|apply evolves_refl]. apply change_value; try done.
    - pose proof (start_free p rt o Hi Eo Hv) as [? ? Hc ? ? ?]. split; try done.
      eapply counted_perm; [|exact Hc]. rewrite Ed. cbn. solve_Permutation.
    - intros r. rewrite Ed. by destruct r.
    - right. split; [done|]. left. cbn. by rewrite Hprop, Hu. }
  apply yields_bind. eapply yields_mono.
  { apply (consumes_seq (J rt1 (without all p)) (list_refs property_refs prop) [RShape sh]); [| |exact HJ1].
    - apply consumes_each. apply Is_true_true, forallb_True in Hprop. eapply list.Forall_impl; [exact Hprop|].
      intros pr Hpr. apply free_prop; [apply release_any|apply release_context|apply release_var|by apply Is_true_true].
    - apply release_shape. }
  intros rt2 HJ2. cbn beta. cbn [mbind outcome_bind skip mret outcome_ret]. change (skip rt2) with (Ret rt2). cbn [mbind outcome_bind].
  assert (Hlk2 : exists o2, heap rt2 !! p = Some o2 /\ data o2 = d1).
  { destruct HJ2 as [Hi2 Hev2]. destruct (ev_keep _ _ Hev2 p _ E1) as [o2 E2]; [by left|].
    destruct (ev_data _ _ Hev2 p o2 E2) as (o1' & E1' & Ed2 & _). rewrite E1 in E1'. injection E1' as <-. by exists o2. }
  destruct Hlk2 as (o2 & E2 & Ed2). unfold get_class. rewrite (get_eq _ _ _ E2). cbn [mbind outcome_bind]. rewrite Ed2.
  cbn [d1 mbind outcome_bind mret outcome_ret]. apply yields_seq. eapply yields_mono.
  { apply (free_class (J rt1 (without all p))); [apply J_perm|apply release_any|apply release_context|apply release_var|
      apply release_async|apply no_frames_J|apply live_object_J|exact Hu|exact HJ2]. }
  intros rt3 HJ3. cbn beta.
  destruct (after_release p rt1 rt3 _ d1 HJ3 E1 eq_refl eq_refl H0) as (o3 & E3 & Ed3 & H03).
  eapply yields_mono.
  { apply (finish_free p rt3 o3 zombie); [by destruct HJ3|done|by rewrite Ed3|by left| |done]. intros r. rewrite Ed3. by destruct r. }
  intros rt4 [Hi4 Hf4]. split; [done|]. apply (freed_change p (set_data d1 o)). destruct HJ3 as [_ Hev3]. by apply (freed_after p rt1 rt3).
Qed.

Lemma free_bytecode_spec b rt o :
  free_inv all [] rt -> heap rt !! b = Some o -> (exists cpool realm, data o = GC_BYTECODE cpool realm) ->
  (gc_phase rt = JS_GC_PHASE_DECREF -> ref_count o = 0) ->
  yields (free_function_bytecode zero_op b rt) (fun rt' => free_inv all [] rt' /\ freed b rt rt').
Proof.
  intros Hi Eo (cpool & realm & Ed) H0. unfold free_function_bytecode. rewrite (get_eq _ _ _ Eo). cbn [mbind outcome_bind]. rewrite Ed.
  assert (Hv : is_value (data o) = true) by (by rewrite Ed).
  assert (HJ1 : J rt (without all b) ((list_refs value_refs cpool ++ opt_refs (one RContext) realm) ++ []) rt).
  { split; [|apply evolves_refl]. pose proof (start_free b rt o Hi Eo Hv) as Hs. by rewrite Ed in Hs. }
  rewrite <- seq_assoc. apply yields_seq. eapply yields_mono.
  { apply (consumes_seq (J rt (without all b)) (list_refs value_refs cpool) (opt_refs (one RContext) realm)); [| |exact HJ1].
    - apply consumes_all, release_any.
    - apply consumes_opt, release_context. }
  intros rt2 HJ2. cbn beta. destruct (after_release b rt rt2 o _ HJ2 Eo Ed eq_refl H0) as (o2 & E2 & Ed2 & H02).
  eapply yields_mono.
  { apply (finish_free b rt2 o2 (GC_BYTECODE [] None)); [by destruct HJ2|done|by rewrite Ed2|by right| |done].
    intros r. rewrite Ed2. by destruct r. }
  intros rt3 [Hi3 Hf3]. split; [done|]. destruct HJ2 as [_ Hev2]. by apply (freed_after b rt rt2).
Qed.

Lemma free_gc_object_spec p rt o :
  free_inv all [] rt -> heap rt !! p = Some o -> is_value (data o) = true -> releasable (data o) = true ->
  (gc_phase rt = JS_GC_PHASE_DECREF -> ref_count o = 0) ->
  yields (free_gc_object zero_op p rt) (fun rt' => free_inv all [] rt' /\ freed p rt rt').
Proof.
  intros Hi Eo Hv Hrel H0. unfold free_gc_object. rewrite (get_eq _ _ _ Eo). cbn [mbind outcome_bind].
  destruct (data o) as [sh prop u w fm|cpool realm| | | |] eqn:Ed; try done.
  - apply (free_object_spec p rt o); [done|done|by eauto 10|by rewrite Ed|done].
  - apply (free_bytecode_spec p rt o); [done|done|by eauto|done].
Qed.
End Release.
