(* ===== verification/GcSpec.v ===== *)
(** * Correctness of the collector and of reference counting

    [JS_RunGC_spec]: the objects that survive are exactly those that can be reached from outside of the heap, unchanged, and the
    invariant of the heap holds again.  [JS_FreeValueRT_spec]: giving up one reference preserves the invariant and everything that
    can still be reached.  At the end, the use after free that a captured variable of a suspended generator causes. *)

From stdpp Require Import gmap relations.
From S2P Require Import Prelude GcHeap GcCount GcMark GcRun GcFree.
#[local] Open Scope Z_scope.
#[local] Arguments remove_one : simpl never.

(** ** References by kind *)

Definition ref_class (r : ref) : Z :=
  match r with RObject _ | RBytecode _ => 0 | RShape _ | RVarRef _ => 1 | RContext _ | RAsync _ => 2 end.
Definition data_class (d : gc_data) : Z :=
  match d with
  | GC_OBJ _ _ _ _ _ | GC_BYTECODE _ _ => 3 | GC_CONTEXT _ _ _ => 2 | GC_SHAPE _ | GC_VAR_REF _ _ _ _ | GC_ASYNC _ _ _ _ => 1
  end.

Lemma value_refs_class v r : r ∈ value_refs v -> ref_class r = 0.
Proof. destruct v; cbn; intros H; [| |by apply elem_of_nil in H]; by apply list_elem_of_singleton in H as ->. Qed.
Lemma list_refs_elem {A} (f : A -> list ref) l r : r ∈ list_refs f l -> exists x, x ∈ l /\ r ∈ f x.
Proof. intros H. apply list_elem_of_In, in_flat_map in H as (x & Hx & Hr). exists x. by rewrite !list_elem_of_In. Qed.
Lemma values_class l r : r ∈ list_refs value_refs l -> ref_class r = 0.
Proof. intros H. apply list_refs_elem in H as (v & _ & Hr). by eapply value_refs_class. Qed.
Lemma frame_class s r : r ∈ frame_refs s -> ref_class r = 0.
Proof.
  unfold frame_refs. rewrite !elem_of_app. intros [H|[H|H]]; [by eapply value_refs_class..|].
  destruct (cur_sp_null s); [by apply elem_of_nil in H|]. destruct (arg_buf s); [|by apply elem_of_nil in H].
  by eapply values_class.
Qed.

(** A structure that is not a value is referred to by values and contexts only; a context by values only. *)
Lemma refs_class d r : r ∈ data_refs d -> ref_class r < data_class d.
Proof.
  destruct d as [sh prop u w fm|cpool realm|proto|dt a i v|act fs r0 r1|ms vs sh]; cbn [data_class data_refs].
  - intros _. destruct r; cbn; lia.
  - intros _. destruct r; cbn; lia.
  - destruct proto; cbn; intros H; [|by apply elem_of_nil in H]. apply list_elem_of_singleton in H as ->. cbn. lia.
  - intros H. rewrite (value_refs_class _ _ H). lia.
  - rewrite !elem_of_app. intros [H|[H|H]]; [|rewrite (value_refs_class _ _ H); lia..].
    destruct act; [rewrite (frame_class _ _ H); lia|by apply elem_of_nil in H].
  - rewrite !elem_of_app. intros [H|[H|H]].
    + apply list_refs_elem in H as (m & _ & H). unfold module_refs in H. apply elem_of_app in H as [H|H].
      * apply list_refs_elem in H as ([p|] & _ & H); [|by apply elem_of_nil in H]. apply list_elem_of_singleton in H as ->. cbn. lia.
      * rewrite (values_class _ _ H). lia.
    + rewrite (values_class _ _ H). lia.
    + destruct sh; cbn in H; [|by apply elem_of_nil in H]. apply list_elem_of_singleton in H as ->. cbn. lia.
Qed.

Lemma kind_class r d : kind_ok r d = true -> is_value d = false -> 1 <= data_class d <= ref_class r.
Proof. destruct r, d; cbn; try done; lia. Qed.
Lemma struct_class d : is_value d = false -> data_class d <= 2.
Proof. destruct d; cbn; try done; lia. Qed.

(** ** Sweeping *)

Lemma reachable_inv D E p : reachable D E p ->
  (exists r, r ∈ E /\ target r = p) \/ (exists q d r, reachable D E q /\ D !! q = Some d /\ r ∈ data_refs d /\ target r = p).
Proof.
  intros (r & Hr & Hp). apply rtc_inv_r in Hp as [<-|(q & Hq & d & r' & Ed & Hr' & <-)]; [by left; exists r|].
  right. exists q, d, r'. split; [by exists r|done].
Qed.

Section Sweep.
Context (zero_op : op) (E : list ref) (D0 : skeleton).
Hypothesis D0_ok : forall p d r, D0 !! p = Some d -> r ∈ data_refs d -> ref_ok D0 r.
Hypothesis E_ok : forall r, r ∈ E -> ref_ok D0 r.

Definition live (p : Z) : Prop := reachable D0 E p.

Record sweep_inv (rt : JSRuntime) : Prop := {
  sw_phase : gc_phase rt = JS_GC_PHASE_REMOVE_CYCLES;
  sw_free : free_inv E all [] rt;
  sw_gc p : p ∈ gc_obj_list rt <-> is_Some (D0 !! p) /\ live p;
  sw_live p o : p ∈ gc_obj_list rt -> heap rt !! p = Some o -> D0 !! p = Some (data o) /\ mark o = 0;
  sw_tmp p o : p ∈ tmp_obj_list rt -> heap rt !! p = Some o -> data o <> zombie;
  sw_zero p o : p ∈ gc_zero_ref_count_list rt -> heap rt !! p = Some o -> is_value (data o) = true -> data_refs (data o) = [] }.

Lemma nodup_lists rt p : located rt ->
  (p ∈ gc_obj_list rt -> p ∉ tmp_obj_list rt) /\ (p ∈ gc_obj_list rt -> p ∉ gc_zero_ref_count_list rt) /\
  (p ∈ tmp_obj_list rt -> p ∉ gc_zero_ref_count_list rt).
Proof.
  intros [_ Hn _]. unfold places in Hn. apply list.NoDup_app in Hn as (_ & H1 & Hn). apply list.NoDup_app in Hn as (_ & H2 & _).
  split; [|split].
  - intros Hp Ht. apply (H1 p Hp). apply elem_of_app. by left.
  - intros Hp Ht. apply (H1 p Hp). apply elem_of_app. by right.
  - intros Hp. by apply H2.
Qed.

Lemma target_live r : r ∈ E -> live (target r).
Proof. apply reachable_root. Qed.

(** What can be reached is still there: nothing refers to a freed object. *)
Lemma live_stays p rt rt' :
  sweep_inv rt -> p ∈ tmp_obj_list rt -> free_inv E all [] rt' -> freed p rt rt' ->
  forall q, live q -> q ∈ gc_obj_list rt /\ exists o', heap rt' !! q = Some o' /\ D0 !! q = Some (data o').
Proof.
  intros [Hph Hfi Hgc Hl Htm Hz] Hpt Hfi' Hfr.
  assert (Hone : forall r, ref_ok (skel (heap rt')) r -> ref_ok D0 r -> live (target r) ->
            target r ∈ gc_obj_list rt /\ exists o', heap rt' !! target r = Some o' /\ D0 !! target r = Some (data o')).
  { intros r (d & Ed & _) (d0 & Ed0 & _) Hlive. assert (Hg : target r ∈ gc_obj_list rt) by (apply Hgc; by rewrite Ed0).
    split; [done|]. apply skel_inv in Ed as (o' & Eo' & _). exists o'. split; [done|].
    destruct (nodup_lists rt (target r) (fi_located _ _ _ _ Hfi)) as [Hgt _].
    assert (Hne : target r <> p) by (intros Et; rewrite Et in *; by apply Hgt).
    destruct (fr_data _ _ _ Hfr _ _ Hne Eo') as (o & Eo & Ed & _). rewrite Ed. by apply Hl. }
  intros q Hq. apply (reachable_closed D0 E (fun q => live q /\ (q ∈ gc_obj_list rt /\ exists o', heap rt' !! q = Some o' /\ D0 !! q = Some (data o')))) in Hq as [_ Hq]; [done| |].
  - intros r Hr. split; [by apply target_live|]. apply Hone; [apply (counted_list _ _ _ (fi_counted _ _ _ _ Hfi'))|by apply E_ok|by apply target_live].
    apply elem_of_app. by right.
  - intros x d r (Hx & _ & o' & Eo' & Ed) Ed' Hr. assert (d = data o') as -> by congruence.
    assert (Hlr : live (target r)) by (by apply (reachable_edge D0 E x (data o') r)).
    split; [done|]. apply Hone; [|by apply (D0_ok x (data o'))|done].
    apply (counted_refs _ _ _ (fi_counted _ _ _ _ Hfi') x (data o')); [by apply skel_lookup|done|done].
Qed.

Lemma sweep_value p rt rt' :
  sweep_inv rt -> p ∈ tmp_obj_list rt -> free_inv E all [] rt' -> freed p rt rt' -> sweep_inv rt'.
Proof.
  intros Hsw Hpt Hfi' Hfr. pose proof (live_stays p rt rt' Hsw Hpt Hfi' Hfr) as Hst. destruct Hsw as [Hph Hfi Hgc Hl Htm Hz].
  pose proof (fi_located _ _ _ _ Hfi) as Hloc. pose proof (fi_located _ _ _ _ Hfi') as Hloc'.
  assert (Hgc' : forall q, q ∈ gc_obj_list rt' <-> q ∈ gc_obj_list rt).
  { intros q. split; [intros Hq; by apply (fr_gc _ _ _ Hfr) in Hq as [_ Hq]|]. intros Hq.
    destruct (nodup_lists rt q Hloc) as (Hgt & Hgz & _). destruct (Hgc q) as [Hlv _]. destruct (Hlv Hq) as [_ Hlive].
    destruct (Hst q Hlive) as [_ (o' & Eo' & _)]. assert (Hp : q ∈ places rt') by (apply Hloc'; by rewrite Eo').
    unfold places in Hp. rewrite !elem_of_app in Hp. destruct Hp as [Hp|[Hp|Hp]]; [done| |].
    - apply (fr_tmp _ _ _ Hfr) in Hp as [_ Hp]. exfalso. by apply (Hgt Hq).
    - apply (fr_zero _ _ _ Hfr) in Hp as [->|[Hp|Hp]]; [|exfalso; by apply (Hgz Hq)|congruence].
      exfalso. by apply (Hgt Hq). }
  split; [by rewrite (fr_phase _ _ _ Hfr)|done| | | |].
  - intros q. by rewrite Hgc', Hgc.
  - intros q o' Hq Eo'. assert (Hne : q <> p) by (by apply (fr_gc _ _ _ Hfr) in Hq as [Hne _]).
    destruct (fr_data _ _ _ Hfr q o' Hne Eo') as (o & Eo & Ed & Em & _). rewrite Ed, Em. apply Hl; [by apply Hgc'|done].
  - intros q o' Hq Eo'. apply (fr_tmp _ _ _ Hfr) in Hq as [Hne Hq].
    destruct (fr_data _ _ _ Hfr q o' Hne Eo') as (o & Eo & Ed & _). rewrite Ed. by apply (Htm q o).
  - intros q o' Hq Eo' Hv. destruct (decide (q = p)) as [->|Hne].
    + destruct (fr_this _ _ _ Hfr) as [Hn|(_ & o'' & Eo'' & _ & Hr)]; [congruence|]. by assert (o'' = o') as <- by congruence.
    + destruct (fr_data _ _ _ Hfr q o' Hne Eo') as (o & Eo & Ed & _). rewrite Ed in *.
      destruct (fr_zero _ _ _ Hfr q Hq) as [?|[Hq'|Hd]]; [done|by apply (Hz q o)|congruence].
Qed.

Lemma tmp_shrinks p rt rt' : located rt -> located rt' -> p ∈ tmp_obj_list rt -> (forall q, q ∈ tmp_obj_list rt' -> q <> p /\ q ∈ tmp_obj_list rt) ->
  (length (tmp_obj_list rt') < length (tmp_obj_list rt))%nat.
Proof.
  intros _ [_ Hn _] Hp Hsub. unfold places in Hn. apply list.NoDup_app in Hn as (_ & _ & Hn). apply list.NoDup_app in Hn as (Hn & _ & _).
  apply (submseteq_length (p :: tmp_obj_list rt')). apply NoDup_submseteq.
  - apply list.NoDup_cons. split; [|done]. intros Hin. by apply Hsub in Hin as [? _].
  - intros q Hq. apply elem_of_cons in Hq as [->|Hq]; [done|]. by apply Hsub in Hq as [_ Hq].
Qed.

(** A structure of the garbage waits for the values that refer to it. *)
Lemma sweep_struct p rt o : sweep_inv rt -> p ∈ tmp_obj_list rt -> heap rt !! p = Some o -> is_value (data o) = false ->
  yields ((list_del p ;;; add_tail_zero p) rt) (fun rt' => sweep_inv rt' /\ (length (tmp_obj_list rt') < length (tmp_obj_list rt))%nat).
Proof.
  intros [Hph Hfi Hgc Hl Htm Hz] Hpt Eo Hv. pose proof Hfi as [_ Hloc Hc Hnv Hzz Hd].
  destruct (nodup_lists rt p Hloc) as (Hgt & _ & Htz).
  assert (Hpg : p ∉ gc_obj_list rt) by (intros Hin; by apply Hgt).
  apply yields_seq. rewrite list_del_eq; [|apply Hloc|rewrite !elem_of_app; tauto]. cbn [yields]. unfold add_tail_zero. cbn.
  rewrite (remove_one_notin p (gc_obj_list rt)), (remove_one_notin p (gc_zero_ref_count_list rt)) by (done || by apply Htz).
  assert (Hloc' : located (set_lists (gc_obj_list rt) (gc_zero_ref_count_list rt ++ [p]) (remove_one p (tmp_obj_list rt)) rt)).
  { assert (Hperm : gc_obj_list rt ++ remove_one p (tmp_obj_list rt) ++ gc_zero_ref_count_list rt ++ [p] ≡ₚ places rt).
    { unfold places. pose proof (located_nodup _ Hloc) as Hn. unfold places in Hn.
      apply list.NoDup_app in Hn as (_ & _ & Hn). apply list.NoDup_app in Hn as (Hn & _ & _).
      apply list_elem_of_split in Hpt as (l1 & l2 & El). rewrite El in *. rewrite remove_one_middle by done. solve_Permutation. }
    split; cbn; [apply Hloc| |]; unfold places; cbn; [rewrite Hperm; apply Hloc|]. intros q. rewrite Hperm. apply Hloc. }
  split.
  - split; cbn; try done.
    + split; cbn; [congruence|apply Hloc'|done|done|intros q oq Hdec; congruence|done].
    + intros q oq Hq Eq. apply elem_of_remove_one in Hq as [_ Hq]. by apply (Htm q oq).
    + intros q oq Hq Eq Hvq. apply elem_of_app in Hq as [Hq|Hq]; [by apply (Hz q)|].
      apply list_elem_of_singleton in Hq as ->. congruence.
  - apply list_elem_of_split in Hpt as (l1 & l2 & El). pose proof (located_nodup _ Hloc) as Hn. unfold places in Hn.
    apply list.NoDup_app in Hn as (_ & _ & Hn). apply list.NoDup_app in Hn as (Hn & _ & _).
    rewrite El in *. rewrite remove_one_middle by done. rewrite !length_app. cbn. lia.
Qed.

Lemma gc_free_step_spec rt : sweep_inv rt ->
  yields (gc_free_step zero_op rt) (fun x => match x with
    | inl rt' => sweep_inv rt' /\ (length (tmp_obj_list rt') < length (tmp_obj_list rt))%nat
    | inr rt' => sweep_inv rt' /\ tmp_obj_list rt' = [] end).
Proof.
  intros Hsw. pose proof Hsw as [Hph Hfi Hgc Hl Htm Hz]. pose proof Hfi as [_ Hloc Hc Hnv Hzz Hd]. unfold gc_free_step.
  destruct (tmp_obj_list rt) as [|p tmp] eqn:Et; [done|].
  assert (Hpt : p ∈ tmp_obj_list rt) by (rewrite Et; constructor).
  assert (Hq : is_Some (heap rt !! p)) by (apply Hloc; unfold places; rewrite !elem_of_app; tauto).
  destruct Hq as [o Eo]. rewrite (get_eq _ _ _ Eo). cbn [mbind outcome_bind]. apply yields_bind. rewrite <- Et.
  destruct (is_value (data o)) eqn:Hv; [|eapply yields_mono; [by apply (sweep_struct p rt o)|by intros rt' H]].
  destruct (nodup_lists rt p Hloc) as (Hgt & _ & Htz).
  assert (Hnl : forall r, r ∈ E -> target r <> p).
  { intros r Hr Ht. destruct (E_ok r Hr) as (d & Ed & _). assert (Hg : target r ∈ gc_obj_list rt).
    { apply Hgc. split; [by rewrite Ed|by apply target_live]. }
    rewrite Ht in Hg. by apply Hgt. }
  destruct (Hd p (data o)) as [[_ Hzo]|[Hm [Hr|(r & Hr & Ht)]]]; [by apply skel_lookup| | |by exfalso; apply (Hnl r)].
  - exfalso. rewrite Et in Hpt. exact (Htm p o Hpt Eo Hzo).
  - eapply yields_mono.
    { apply (free_gc_object_spec zero_op E p rt o); try done. congruence. }
    intros rt' [Hfi' Hfr]. cbn. split; [by apply (sweep_value p rt rt')|].
    apply (tmp_shrinks p); [done|apply Hfi'|done|apply Hfr].
Qed.

(** Whatever refers to the rest of the garbage is a structure of it. *)
Lemma referrer rt x o : sweep_inv rt -> tmp_obj_list rt = [] -> x ∈ gc_zero_ref_count_list rt -> heap rt !! x = Some o -> 0 < ref_count o ->
  exists q oq r, q ∈ gc_zero_ref_count_list rt /\ heap rt !! q = Some oq /\ is_value (data oq) = false /\
                 r ∈ data_refs (data oq) /\ target r = x /\ kind_ok r (data o) = true.
Proof.
  intros [Hph Hfi Hgc Hl Htm Hz] Ht Hx Eo Hr. pose proof (fi_located _ _ _ _ Hfi) as Hloc. pose proof (fi_counted _ _ _ _ Hfi) as Hc. cbn in Hc.
  destruct (nodup_lists rt x Hloc) as (_ & Hgz & _).
  assert (Hnl : forall r, ref_ok D0 r -> live (target r) -> target r <> x).
  { intros r (d & Ed & _) Hlr Et. apply (Hgz); [|done]. apply Hgc. rewrite <- Et. split; [by rewrite Ed|done]. }
  rewrite (counted_count _ _ _ Hc x o Eo) in Hr. pose proof (cnt_nonneg x E) as Hn.
  destruct (decide (0 < cnt x E)) as [HcE|HcE].
  - apply cnt_pos in HcE as (r & HrE & Et). exfalso. apply (Hnl r); [by apply E_ok|by apply target_live|done].
  - assert (Hw : 0 < total all x (skel (heap rt))) by lia. apply total_pos in Hw as (q & d & Eq & _ & Hcq).
    apply cnt_pos in Hcq as (r & Hrd & Et). pose proof Eq as Eq'. apply skel_inv in Eq as (oq & Eoq & <-).
    assert (Hq : q ∈ places rt) by (apply Hloc; by rewrite Eoq). unfold places in Hq. rewrite Ht, app_nil_l in Hq.
    apply elem_of_app in Hq as [Hq|Hq].
    + destruct (Hl q oq Hq Eoq) as [Ed0 _]. exfalso. apply (Hnl r); [by apply (D0_ok q (data oq))| |done].
      apply (reachable_edge D0 E q (data oq)); [by apply Hgc|done|done].
    + exists q, oq, r. split; [done|]. split; [done|]. split.
      * destruct (is_value (data oq)) eqn:Hv; [|done]. rewrite (Hz q oq Hq Eoq Hv) in Hrd. by apply elem_of_nil in Hrd.
      * split; [done|]. split; [done|]. destruct (counted_refs _ _ _ Hc q (data oq) r Eq' eq_refl Hrd) as (d & Ed & K).
        rewrite Et in Ed. apply skel_inv in Ed as (o' & Eo' & <-). by assert (o' = o) as -> by congruence.
Qed.

Lemma only_zombies rt x o : sweep_inv rt -> tmp_obj_list rt = [] -> x ∈ gc_zero_ref_count_list rt -> heap rt !! x = Some o ->
  is_value (data o) = true /\ ref_count o = 0.
Proof.
  intros Hsw Ht. pose proof Hsw as [Hph Hfi _ _ _ _].
  assert (Hno : forall y oy, y ∈ gc_zero_ref_count_list rt -> heap rt !! y = Some oy -> is_value (data oy) = true).
  { intros y oy Hy Ey. destruct (is_value (data oy)) eqn:Hv; [done|exfalso].
    assert (Hup : forall z oz, z ∈ gc_zero_ref_count_list rt -> heap rt !! z = Some oz -> is_value (data oz) = false ->
      exists q oq, q ∈ gc_zero_ref_count_list rt /\ heap rt !! q = Some oq /\ is_value (data oq) = false /\ data_class (data oz) < data_class (data oq)).
    { intros z oz Hz Ez Hvz. pose proof (fi_pos _ _ _ _ Hfi z oz Ez Hvz) as Hp.
      destruct (referrer rt z oz Hsw Ht Hz Ez Hp) as (q & oq & r & Hq & Eq & Hvq & Hr & _ & K).
      exists q, oq. split; [done|]. split; [done|]. split; [done|]. pose proof (refs_class _ _ Hr). pose proof (kind_class _ _ K Hvz). lia. }
    destruct (Hup y oy Hy Ey Hv) as (q & oq & Hq & Eq & Hvq & H1). destruct (Hup q oq Hq Eq Hvq) as (q' & oq' & Hq' & Eq' & Hvq' & H2).
    pose proof (struct_class _ Hvq'). destruct (data oy); cbn in H1; try done; lia. }
  intros Hx Eo. split; [by apply (Hno x)|]. pose proof (counted_nonneg _ _ _ _ _ (fi_counted _ _ _ _ Hfi) Eo).
  destruct (decide (0 < ref_count o)) as [Hr|]; [|lia]. exfalso.
  destruct (referrer rt x o Hsw Ht Hx Eo Hr) as (q & oq & r & Hq & Eq & Hvq & _). specialize (Hno q oq Hq Eq). congruence.
Qed.

Lemma free_zombies l : forall rt, NoDup l -> counted all E (heap rt) ->
  (forall p, p ∈ l -> exists o, heap rt !! p = Some o /\ is_value (data o) = true /\ ref_count o = 0 /\ data_refs (data o) = []) ->
  yields (each gc_free_zombie l rt) (fun rt' => counted all E (heap rt') /\ rt' = set_heap (heap rt') rt /\
    forall q, heap rt' !! q = if bool_decide (q ∈ l) then None else heap rt !! q).
Proof.
  induction l as [|p l IH]; intros rt Hn Hc Hl.
  - cbn. split; [done|]. split; [by destruct rt|]. intros q. rewrite bool_decide_false; [done|]. apply not_elem_of_nil.
  - apply list.NoDup_cons in Hn as [Hp Hn]. destruct (Hl p) as (o & Eo & Hv & E0 & Hr); [constructor|].
    cbn [each]. apply yields_seq. unfold gc_free_zombie at 1. rewrite (get_eq _ _ _ Eo). cbn [mbind outcome_bind]. rewrite Hv.
    cbn [c_assert mbind outcome_bind]. unfold js_free_rt. rewrite (get_eq _ _ _ Eo). cbn [mbind outcome_bind mret outcome_ret yields].
    eapply yields_mono.
    { apply IH; [done| |].
      - cbn. apply (counted_free all E _ p o); [|done|done].
        pose proof (counted_expose all E (heap rt) p (data o) Hc (skel_lookup _ _ _ Eo) eq_refl) as Hx. by rewrite Hr in Hx.
      - intros q Hq. destruct (Hl q) as (oq & Eq & H); [by constructor|]. exists oq. split; [|done]. cbn.
        rewrite lookup_delete_ne; [done|]. intros ->. done. }
    intros rt' (Hc' & Ert & Hh). split; [done|]. split; [rewrite Ert; by destruct rt|]. intros q. rewrite Hh. cbn.
    destruct (decide (q = p)) as [->|Hne].
    + rewrite lookup_delete_eq. rewrite (bool_decide_true (p ∈ p :: l)) by constructor. by case_bool_decide.
    + rewrite lookup_delete_ne by done. assert (Eb : bool_decide (q ∈ p :: l) = bool_decide (q ∈ l)); [|by rewrite Eb].
      apply bool_decide_ext. rewrite elem_of_cons. naive_solver.
Qed.

Lemma gc_free_cycles_spec rt : gc_phase rt = JS_GC_PHASE_NONE -> scanned E D0 rt ->
  (forall p o, heap rt !! p = Some o -> 0 < ref_count o) -> (forall p d, D0 !! p = Some d -> markable d = true) ->
  (forall p d, D0 !! p = Some d -> releasable d = true \/ exists r, r ∈ E /\ target r = p) ->
  yields (gc_free_cycles zero_op rt) (fun rt' =>
    gc_inv E rt' /\ forall p d, skel (heap rt') !! p = Some d <-> D0 !! p = Some d /\ live p).
Proof.
  intros _ [Hph Hloc HD Hz Hc Hm Hlive] Hpos Hmk Hrel. unfold gc_free_cycles. cbn [set_phase mbind outcome_bind mret outcome_ret].
  set (rt1 := MkJSRuntime _ _ _ _ _ JS_GC_PHASE_REMOVE_CYCLES).
  assert (Hloc1 : located rt1) by (destruct Hloc; by split).
  assert (Hsw : sweep_inv rt1).
  { split; try done.
    - split; try done.
      + intros p o Eo _. by apply (Hpos p).
      + intros p d Eq. right. change (skel (heap rt) !! p = Some d) in Eq. rewrite HD in Eq. split; [by apply (Hmk p)|by apply Hrel].
    - intros p o Hp Eo. split; [rewrite <- HD; by apply skel_lookup|by apply (Hm p)].
    - intros p o _ Eo Hzo. assert (Ep : D0 !! p = Some (data o)) by (rewrite <- HD; by apply skel_lookup).
      specialize (Hmk p (data o) Ep). by rewrite Hzo in Hmk.
    - intros p o Hp. change (gc_zero_ref_count_list rt1) with (gc_zero_ref_count_list rt) in Hp. rewrite Hz in Hp. by apply elem_of_nil in Hp. }
  apply yields_bind. eapply yields_mono.
  { apply (loop_yields (gc_free_step zero_op) sweep_inv (fun rt => length (tmp_obj_list rt))
             (fun rt' => sweep_inv rt' /\ tmp_obj_list rt' = [])); [|exact Hsw|lia]. apply gc_free_step_spec. }
  clear Hloc Hz Hc Hm Hlive Hpos Hloc1 Hsw Hph HD rt rt1. intros rt [Hsw Ht]. cbn beta.
  pose proof (only_zombies rt) as Hzo. cbn [set_phase mbind outcome_bind mret outcome_ret].
  set (rt1 := MkJSRuntime _ _ _ _ _ JS_GC_PHASE_NONE).
  pose proof Hsw as [Hph Hfi Hgc Hl _ Hz]. pose proof Hfi as [_ Hloc Hc _ _ Hd].
  apply yields_bind. change (gc_zero_ref_count_list rt1) with (gc_zero_ref_count_list rt).
  assert (Hzlook : forall p, p ∈ gc_zero_ref_count_list rt -> is_Some (heap rt !! p)).
  { intros p Hp. apply Hloc. unfold places. rewrite !elem_of_app. tauto. }
  eapply yields_mono.
  { apply free_zombies; [|exact Hc|].
    - pose proof (located_nodup _ Hloc) as Hn. unfold places in Hn. rewrite Ht in Hn. by apply list.NoDup_app in Hn as (_ & _ & Hn).
    - intros p Hp. destruct (Hzlook p Hp) as [o Eo]. exists o. split; [done|]. destruct (Hzo p o Hsw Ht Hp Eo) as [Hv E0].
      split; [done|]. split; [done|]. by apply (Hz p o). }
  intros rt2 (Hc2 & Ert & Hh). cbn [yields mret outcome_ret].
  assert (Hh2 : forall p, heap rt2 !! p = if bool_decide (p ∈ gc_obj_list rt) then heap rt !! p else None).
  { intros p. rewrite Hh. change (heap rt1) with (heap rt). destruct (nodup_lists rt p Hloc) as (_ & Hgz & _).
    destruct (heap rt !! p) as [o|] eqn:Eo; [|by do 2 case_bool_decide].
    assert (Hp : p ∈ places rt) by (apply Hloc; by rewrite Eo). unfold places in Hp. rewrite Ht in Hp. cbn in Hp.
    apply elem_of_app in Hp as [Hp|Hp].
    - rewrite (bool_decide_true (p ∈ gc_obj_list rt)), bool_decide_false by auto. done.
    - rewrite (bool_decide_true (p ∈ gc_zero_ref_count_list rt)) by done. rewrite bool_decide_false; [done|]. intros Hg. by apply (Hgz Hg). }
  assert (Hlk : forall p o, heap rt2 !! p = Some o -> p ∈ gc_obj_list rt /\ heap rt !! p = Some o).
  { intros p o Eo. rewrite Hh2 in Eo. by case_bool_decide. }
  assert (Hsk : forall p d, skel (heap rt2) !! p = Some d <-> D0 !! p = Some d /\ live p).
  { intros p d. split.
    - intros Eq. apply skel_inv in Eq as (o & Eo & <-). apply Hlk in Eo as [Hg Eo]. split; [by apply Hl|by apply Hgc].
    - intros [Ed Hlv]. assert (Hg : p ∈ gc_obj_list rt) by (apply Hgc; split; [by rewrite Ed|done]).
      destruct (located_dom _ Hloc p) as [Hdom _]. destruct Hdom as [o Eo]; [unfold places; rewrite elem_of_app; by left|].
      destruct (Hl p o Hg Eo) as [Ed' _]. assert (d = data o) as -> by congruence. apply skel_lookup. rewrite Hh2.
      by rewrite bool_decide_true. }
  split; [|exact Hsk].
  split; cbn; try (rewrite Ert; done).
  - split; cbn.
    + rewrite Ert. apply Hloc.
    + unfold places. cbn. rewrite Ert. cbn. rewrite Ht. pose proof (located_nodup _ Hloc) as Hn. unfold places in Hn.
      rewrite app_nil_r. by apply list.NoDup_app in Hn as [Hn _].
    + intros p. unfold places. cbn. rewrite Ert at 1 2. cbn. rewrite Ht, app_nil_r, Hh2. case_bool_decide as Hg.
      * split; [intros _|done]. apply Hloc. unfold places. rewrite elem_of_app. by left.
      * split; [done|by intros [? ?]].
  - done.
  - intros p o Eo. apply Hlk in Eo as [Hg Eo]. by apply (Hl p).
  - intros p o Eo. pose proof Eo as Eo'. apply Hlk in Eo' as [Hg Eo']. rewrite (counted_count _ _ _ Hc2 p o Eo).
    pose proof (cnt_nonneg p E). pose proof (total_nonneg all p (skel (heap rt2))).
    destruct (Hgc p) as [Hgl _]. destruct (Hgl Hg) as [_ Hlv]. destruct (reachable_inv _ _ _ Hlv) as [(r & Hr & <-)|(q & d & r & Hq & Ed & Hr & <-)].
    + pose proof (cnt_in r E Hr). lia.
    + assert (Eq : skel (heap rt2) !! q = Some d) by (by apply Hsk). pose proof (total_ge all (target r) q d _ Eq) as Hw.
      pose proof (cnt_in r _ Hr). unfold weigh, all in *. lia.
  - intros p d Ed. apply Hsk in Ed as [Ed _]. by apply (Hmk p).
  - intros p d Ed. apply Hsk in Ed as [Ed _]. by apply Hrel.
Qed.
End Sweep.

(** ** The collector *)

(** C2: [JS_RunGC] collects exactly the garbage: it terminates without touching freed memory, the surviving objects are those that
    can be reached from the references outside of the heap, with their contents as before, and the invariant of the heap -
    every count is the number of references to its object - holds again. *)
Theorem JS_RunGC_spec E rt depth : gc_inv E rt ->
  yields (JS_RunGC depth rt) (fun rt' => gc_inv E rt' /\
    forall p d, skel (heap rt') !! p = Some d <-> skel (heap rt) !! p = Some d /\ reachable (skel (heap rt)) E p).
Proof.
  intros Hinv. set (D0 := skel (heap rt)).
  assert (Hmk : forall p d, D0 !! p = Some d -> markable d = true) by apply Hinv.
  assert (Hok : forall p d r, D0 !! p = Some d -> r ∈ data_refs d -> ref_ok D0 r).
  { intros p d r Ed Hr. by apply (counted_refs _ _ _ (inv_counted _ _ Hinv) p d r). }
  assert (HE : forall r, r ∈ E -> ref_ok D0 r) by apply (counted_list _ _ _ (inv_counted _ _ Hinv)).
  unfold JS_RunGC. apply yields_seq. eapply yields_mono; [by apply (gc_decref_spec E D0)|]. intros rt1 Hdec. cbn beta.
  apply yields_seq. eapply yields_mono; [by apply (gc_scan_spec E D0)|]. intros rt2 Hsc. cbn beta.
  apply gc_free_cycles_spec; [done|done|apply Hsc|done| |done|apply Hinv].
  intros p o Eo. pose proof (scanned_skel _ _ _ Hsc) as HD. pose proof (skel_lookup _ _ _ Eo) as Es. rewrite HD in Es.
  unfold D0 in Es. apply skel_inv in Es as (o0 & Eo0 & _). pose proof (inv_pos _ _ Hinv p o0 Eo0) as Hp.
  rewrite (counted_count _ _ _ (inv_counted _ _ Hinv) p o0 Eo0) in Hp. rewrite (counted_count _ _ _ (scanned_counted _ _ _ Hsc) p o Eo).
  by rewrite HD.
Qed.

(** ** Reference counting *)

Section Zero.
Context (E : list ref) (D0 : skeleton).

(** Objects of count zero are being freed; the others are as before. *)
Record zero_inv (rt : JSRuntime) : Prop := {
  zi_phase : gc_phase rt = JS_GC_PHASE_DECREF;
  zi_free : free_inv E all [] rt;
  zi_tmp : tmp_obj_list rt = [];
  zi_mark p o : heap rt !! p = Some o -> mark o = 0;
  zi_sub p d : skel (heap rt) !! p = Some d -> D0 !! p = Some d }.

Lemma zero_inv_freed zero_op p rt : zero_inv rt -> p ∈ gc_zero_ref_count_list rt ->
  yields (free_gc_object zero_op p rt) (fun rt' => zero_inv rt' /\ (size (heap rt') < size (heap rt))%nat).
Proof.
  intros [Hph Hfi Ht Hm Hs] Hp. pose proof Hfi as [_ Hloc Hc _ Hz Hd].
  assert (Hq : is_Some (heap rt !! p)) by (apply Hloc; unfold places; rewrite !elem_of_app; tauto).
  destruct Hq as [o Eo]. destruct (proj2 (Hz p o Hph Eo) Hp) as [Hv E0].
  assert (Hrel : releasable (data o) = true).
  { destruct (Hd p (data o)) as [[Hrm _]|[_ [Hr|(r & Hr & Et)]]]; [by apply skel_lookup|congruence|done|].
    destruct (counted_zero _ _ _ _ _ Hc Eo E0) as [Hno _]. exfalso. by apply (Hno r). }
  eapply yields_mono; [by apply (free_gc_object_spec zero_op E p rt o)|]. intros rt' [Hfi' Hfr].
  assert (Hn : heap rt' !! p = None) by (destruct (fr_this _ _ _ Hfr) as [?|[? _]]; [done|congruence]).
  assert (Hlk : forall q o', heap rt' !! q = Some o' -> exists o, heap rt !! q = Some o /\ data o' = data o /\ mark o' = mark o).
  { intros q o' Eq. assert (Hne : q <> p) by (intros ->; congruence).
    destruct (fr_data _ _ _ Hfr q o' Hne Eq) as (o1 & Eo1 & Ed & Em & _). by exists o1. }
  split.
  - split; [by rewrite (fr_phase _ _ _ Hfr)|done| | |].
    + destruct (tmp_obj_list rt') as [|q l] eqn:Et; [done|]. destruct (fr_tmp _ _ _ Hfr q) as [_ Hin]; [rewrite Et; constructor|].
      rewrite Ht in Hin. by apply elem_of_nil in Hin.
    + intros q o' Eq. destruct (Hlk q o' Eq) as (o1 & Eo1 & _ & ->). by apply (Hm q).
    + intros q d Eq. apply skel_inv in Eq as (o' & Eq & <-). destruct (Hlk q o' Eq) as (o1 & Eo1 & -> & _). apply Hs. by apply skel_lookup.
  - rewrite <- !size_dom. apply subset_size. split.
    + intros q Hq. apply elem_of_dom in Hq as [o' Eq]. destruct (Hlk q o' Eq) as (o1 & Eo1 & _). apply elem_of_dom. by rewrite Eo1.
    + intros Hsub. assert (Hin : p ∈ dom (heap rt')) by (apply Hsub, elem_of_dom; by rewrite Eo).
      apply elem_of_dom in Hin. rewrite Hn in Hin. by destruct Hin.
Qed.

Lemma free_zero_spec zero_op rt fuel : zero_inv rt -> (size (heap rt) < fuel)%nat ->
  yields (loop fuel (free_zero_step zero_op) rt) (fun rt' => gc_inv E rt' /\ forall p d, skel (heap rt') !! p = Some d -> D0 !! p = Some d).
Proof.
  intros Hz Hf. apply (loop_yields (free_zero_step zero_op) zero_inv (fun rt => size (heap rt))); [|done|done].
  clear Hz Hf rt. intros rt Hzi. pose proof Hzi as [Hph Hfi Ht Hm Hs]. unfold free_zero_step.
  destruct (gc_zero_ref_count_list rt) as [|p l] eqn:Ez.
  - cbn. pose proof Hfi as [_ Hloc Hc Hnv Hzz Hd]. split; [|exact Hs].
    split; cbn; try done; [by destruct Hloc; split| | |].
    + intros p o Eo. pose proof (counted_nonneg _ _ _ _ _ Hc Eo). destruct (is_value (data o)) eqn:Hv; [|by apply (Hnv p o Eo Hv)].
      destruct (decide (ref_count o = 0)) as [E0|]; [|lia]. exfalso. rewrite Ez in Hzz.
      destruct (Hzz p o Hph Eo) as [Hin _]. specialize (Hin (conj Hv E0)). by apply elem_of_nil in Hin.
    + intros p d Ed. destruct (Hd p d Ed) as [[Hrm _]|[Hmk _]]; [congruence|done].
    + intros p d Ed. destruct (Hd p d Ed) as [[Hrm _]|[_ Hr]]; [congruence|done].
  - assert (Hp : p ∈ gc_zero_ref_count_list rt) by (rewrite Ez; constructor).
    assert (Hq : is_Some (heap rt !! p)) by (apply (located_dom _ (fi_located _ _ _ _ Hfi)); unfold places; rewrite !elem_of_app; tauto).
    destruct Hq as [o Eo]. rewrite (get_eq _ _ _ Eo). cbn [mbind outcome_bind].
    destruct (proj2 (fi_zero _ _ _ _ Hfi p o Hph Eo) Hp) as [_ ->]. change (c_assert (0 =? 0)) with (Ret tt). cbn [mbind outcome_bind].
    apply yields_bind. eapply yields_mono; [by apply (zero_inv_freed zero_op p rt)|]. done.
Qed.
End Zero.

Lemma reach_kept E rt rt' : gc_inv E rt' -> (forall p d, skel (heap rt') !! p = Some d -> skel (heap rt) !! p = Some d) ->
  forall p, reachable (skel (heap rt)) E p -> skel (heap rt') !! p = skel (heap rt) !! p.
Proof.
  intros Hinv Hs p Hp. apply (reachable_closed (skel (heap rt)) E (fun p => exists d, skel (heap rt') !! p = Some d)) in Hp as [d Ed].
  - by rewrite Ed, (Hs p d Ed).
  - intros r Hr. destruct (counted_list _ _ _ (inv_counted _ _ Hinv) r Hr) as (d & Ed & _). by exists d.
  - intros q d r [d' Ed'] Ed Hr. assert (d' = d) as -> by (apply Hs in Ed'; congruence).
    destruct (counted_refs _ _ _ (inv_counted _ _ Hinv) q d r Ed' eq_refl Hr) as (dr & Er & _). by exists dr.
Qed.

(** The count of the value goes down and stays positive, or the value is freed with all that goes with it. *)
Lemma free_value_inv E p r rt depth v : value_refs v = [r] -> target r = p -> gc_inv (r :: E) rt ->
  (forall d, skel (heap rt) !! p = Some d -> releasable d = true \/ exists r', r' ∈ E /\ target r' = p) ->
  yields (JS_FreeValueRT (free_zero_refcount (S depth)) v rt) (fun rt' =>
    gc_inv E rt' /\ forall q d, skel (heap rt') !! q = Some d -> skel (heap rt) !! q = Some d).
Proof.
  intros Ev Ht Hinv Hrel. pose proof Hinv as [Hph Hloc Htmp Hz Hc Hm Hpos Hmk Hr].
  destruct (counted_list _ _ _ Hc r) as (d & Ed & K); [constructor|]. rewrite Ht in Ed. apply skel_inv in Ed as (o & Eo & <-).
  assert (Hval : is_value (data o) = true) by (destruct v; cbn in Ev; simplify_eq; cbn in K; by destruct (data o)).
  set (rt1 := set_heap (<[p := set_ref_count (ref_count o - 1) o]> (heap rt)) rt).
  assert (Ef : JS_FreeValueRT (free_zero_refcount (S depth)) v rt =
               if ref_count o - 1 <=? 0 then __JS_FreeValueRT (free_zero_refcount (S depth)) p rt1 else Ret rt1).
  { unfold JS_FreeValueRT. destruct v; cbn in Ev; simplify_eq; cbn [target] in *; subst rt1; by rewrite (decref_eq _ _ _ Eo). }
  rewrite Ef. specialize (Hpos p o Eo) as Hpo.
  assert (Hc1 : counted all E (heap rt1)) by (subst p; by apply (counted_decref _ r E _ o)).
  assert (Hloc1 : located rt1) by (apply located_update; [done|by rewrite Eo]).
  assert (Hsk : skel (heap rt1) = skel (heap rt)) by (by apply (skel_insert_same _ p o)).
  assert (Hm1 : forall q oq, heap rt1 !! q = Some oq -> mark oq = 0).
  { intros q oq Eq. destruct (dec_lookup _ _ _ _ _ _ Eq) as [[-> ->]|[_ Eq']]; [exact (Hm p o Eo)|by apply (Hm q)]. }
  assert (Hr1 : forall q d, skel (heap rt1) !! q = Some d -> releasable d = true \/ exists r', r' ∈ E /\ target r' = q).
  { rewrite Hsk. intros q d Ed. destruct (Hr q d Ed) as [H|(r' & Hr' & Et)]; [by left|].
    apply elem_of_cons in Hr' as [->|Hr']; [|right; by exists r']. rewrite Ht in Et. subst q. by apply Hrel. }
  destruct (Z.leb_spec (ref_count o - 1) 0) as [Hle|Hgt].
  - unfold __JS_FreeValueRT. change (gc_phase rt1) with (gc_phase rt). rewrite Hph, decide_False by done.
    assert (Hg : p ∈ gc_obj_list rt).
    { assert (Hp : p ∈ places rt) by (apply Hloc; by rewrite Eo). unfold places in Hp. by rewrite Htmp, Hz, !app_nil_r in Hp. }
    apply yields_bind. apply yields_seq. rewrite list_del_eq; [|apply Hloc1|rewrite elem_of_app; by left].
    cbn [yields]. unfold add_zero. cbn [yields mret outcome_ret].
    change (gc_phase (set_lists _ _ _ _)) with (gc_phase rt). rewrite Hph. rewrite decide_True by done.
    cbn [gc_zero_ref_count_list tmp_obj_list set_lists gc_obj_list rt1 set_heap]. rewrite Hz, Htmp. change (remove_one p []) with (@nil Z).
    cbn [free_zero_refcount]. unfold set_phase. cbn [mbind outcome_bind mret outcome_ret].
    set (rt2 := MkJSRuntime _ _ _ _ _ JS_GC_PHASE_DECREF). rewrite <- Hsk. apply free_zero_spec; [|lia].
    split; cbn; try done. split; cbn; try done.
    + split; cbn; [apply Hloc| |].
      * unfold places. cbn. pose proof (located_nodup _ Hloc) as Hn. unfold places in Hn. rewrite Htmp, Hz, !app_nil_r in Hn.
        apply list.NoDup_app. split; [by apply remove_one_NoDup|]. split; [|apply list.NoDup_singleton].
        intros q Hq Hq'. apply list_elem_of_singleton in Hq' as ->. by apply elem_of_remove_one in Hq as [? _].
      * intros q. etransitivity; [|apply (located_dom _ Hloc1 q)]. unfold places. cbn. rewrite Htmp, Hz, !app_nil_r.
        cbn. rewrite elem_of_app, list_elem_of_singleton, elem_of_remove_one. destruct (decide (q = p)) as [->|]; tauto.
    + intros q oq Eq Hv. destruct (dec_lookup _ _ _ _ _ _ Eq) as [[-> ->]|[_ Eq']]; [cbn in Hv; congruence|by apply (Hpos q)].
    + intros q oq _ Eq. rewrite list_elem_of_singleton. destruct (dec_lookup _ _ _ _ _ _ Eq) as [[-> ->]|[Hne Eq']].
      * cbn. split; [done|]. intros _. split; [done|lia].
      * specialize (Hpos q oq Eq'). split; [intros [_ ?]; lia|done].
    + intros q d Ed. right. split; [|by apply Hr1]. apply (Hmk q). by rewrite <- Hsk.
  - cbn [yields]. split; [|intros q d; by rewrite Hsk]. split; try done; [|intros q d; rewrite Hsk; apply Hmk].
    intros q oq Eq. destruct (dec_lookup _ _ _ _ _ _ Eq) as [[-> ->]|[_ Eq']]; [cbn; lia|by apply (Hpos q)].
Qed.

(** C11: [JS_FreeValueRT] gives up one reference: it terminates without touching freed memory, the invariant of the heap holds for the references that
    are left, nothing new appears, and whatever can still be reached is as it was. *)
Theorem JS_FreeValueRT_spec E v rt depth : gc_inv (value_refs v ++ E) rt -> (0 < depth)%nat ->
  (forall r d, r ∈ value_refs v -> skel (heap rt) !! target r = Some d -> releasable d = true \/ exists r', r' ∈ E /\ target r' = target r) ->
  yields (JS_FreeValueRT (free_zero_refcount depth) v rt) (fun rt' => gc_inv E rt' /\
    (forall p d, skel (heap rt') !! p = Some d -> skel (heap rt) !! p = Some d) /\
    (forall p, reachable (skel (heap rt)) E p -> skel (heap rt') !! p = skel (heap rt) !! p)).
Proof.
  intros Hinv Hdepth Hrel. destruct depth as [|depth]; [lia|].
  apply (yields_mono _ (fun rt' => gc_inv E rt' /\ forall q d, skel (heap rt') !! q = Some d -> skel (heap rt) !! q = Some d)).
  - destruct v as [p|p|b]; cbn in Hinv, Hrel; [| |by split].
    + apply (free_value_inv E p (RObject p)); [done..|]. intros d. by apply (Hrel (RObject p)), list_elem_of_singleton.
    + apply (free_value_inv E p (RBytecode p)); [done..|]. intros d. by apply (Hrel (RBytecode p)), list_elem_of_singleton.
  - intros rt' [Hi Hs]. split; [done|]. split; [done|]. by apply reach_kept.
Qed.

(** ** Checking the invariant of a concrete heap *)

Definition ref_ok_b (h : gmap Z gc_object) (r : ref) : bool :=
  match h !! target r with Some o => kind_ok r (data o) | None => false end.
Definition object_ok_b (E : list ref) (rt : JSRuntime) (e : Z * gc_object) : bool :=
  let '(p, o) := e in
  bool_decide (p ∈ gc_obj_list rt) && (ref_count o =? cnt p E + total all p (skel (heap rt))) && (mark o =? 0) && (0 <? ref_count o) &&
  markable (data o) && (releasable (data o) || existsb (fun r => target r =? p) E) && forallb (ref_ok_b (heap rt)) (data_refs (data o)).
Definition gc_inv_b (E : list ref) (rt : JSRuntime) : bool :=
  bool_decide (gc_phase rt = JS_GC_PHASE_NONE) && bool_decide (var_ref_lists rt = ∅) && bool_decide (tmp_obj_list rt = []) &&
  bool_decide (gc_zero_ref_count_list rt = []) && bool_decide (NoDup (gc_obj_list rt)) &&
  forallb (fun p => bool_decide (is_Some (heap rt !! p))) (gc_obj_list rt) && forallb (ref_ok_b (heap rt)) E &&
  forallb (object_ok_b E rt) (map_to_list (heap rt)).

Lemma ref_ok_check h l : forallb (ref_ok_b h) l = true -> forall r, r ∈ l -> ref_ok (skel h) r.
Proof.
  intros H r Hr. rewrite forallb_forall in H. apply list_elem_of_In, H in Hr. unfold ref_ok_b in Hr.
  destruct (h !! target r) as [o|] eqn:Eo; [|done]. exists (data o). split; [by apply skel_lookup|done].
Qed.

Lemma gc_inv_check E rt : gc_inv_b E rt = true -> gc_inv E rt.
Proof.
  unfold gc_inv_b. rewrite !andb_true_iff, !bool_decide_eq_true. intros [[[[[[[Hph Hfr] Ht] Hz] Hnd] Hl] HE] Ho].
  assert (Hob : forall p o, heap rt !! p = Some o -> object_ok_b E rt (p, o) = true).
  { intros p o Eo. rewrite forallb_forall in Ho. by apply Ho, list_elem_of_In, elem_of_map_to_list. }
  unfold object_ok_b in Hob. setoid_rewrite andb_true_iff in Hob. repeat setoid_rewrite andb_true_iff in Hob.
  assert (Hsk : forall p d, skel (heap rt) !! p = Some d -> exists o, heap rt !! p = Some o /\ data o = d) by apply skel_inv.
  split; try done.
  - split; [done|unfold places; by rewrite Ht, Hz, !app_nil_r|]. intros p. unfold places. rewrite Ht, Hz, !app_nil_r. split.
    + intros Hp. rewrite forallb_forall in Hl. apply list_elem_of_In, Hl in Hp. by apply bool_decide_eq_true in Hp.
    + intros [o Eo]. destruct (Hob p o Eo) as [[[[[[Hp _] _] _] _] _] _]. by apply bool_decide_eq_true in Hp.
  - split; [|by apply ref_ok_check|].
    + intros p o Eo. destruct (Hob p o Eo) as [[[[[[_ Hp] _] _] _] _] _]. by apply Z.eqb_eq.
    + intros q d r Ed _. destruct (Hsk q d Ed) as (o & Eo & <-). destruct (Hob q o Eo) as [_ Hp]. by apply ref_ok_check.
  - intros p o Eo. destruct (Hob p o Eo) as [[[[[_ Hp] _] _] _] _]. by apply Z.eqb_eq.
  - intros p o Eo. destruct (Hob p o Eo) as [[[[_ Hp] _] _] _]. by apply Z.ltb_lt.
  - intros p d Ed. destruct (Hsk p d Ed) as (o & Eo & <-). by destruct (Hob p o Eo) as [[[_ Hp] _] _].
  - intros p d Ed. destruct (Hsk p d Ed) as (o & Eo & <-). destruct (Hob p o Eo) as [[_ Hp] _].
    apply orb_true_iff in Hp as [Hp|Hp]; [by left|right]. apply existsb_exists in Hp as (r & Hr & Et). exists r.
    rewrite list_elem_of_In. split; [done|by apply Z.eqb_eq].
Qed.

(** A shape, a cycle of two objects and an object that a C variable refers to. *)
Definition plain (n : Z) (l : list JSProperty) : gc_object := MkGCObject n 0 (GC_OBJ (Some 1) l CD_none [] false).
Definition link (p : Z) : JSProperty := MkJSProperty 100 (PROP_VALUE (JS_OBJECT p)).
Definition cycle_rt : JSRuntime :=
  MkJSRuntime (list_to_map [(1, MkGCObject 3 0 (GC_SHAPE None)); (2, plain 1 [link 3]); (3, plain 1 [link 2; link 4]); (4, plain 2 [])])
    [1; 2; 3; 4] [] [] ∅ JS_GC_PHASE_NONE.

Lemma JS_RunGC_spec_witness :
  gc_inv_b [RObject 4] cycle_rt = true /\
  yields (JS_RunGC 10 cycle_rt) (fun rt' => gc_inv [RObject 4] rt' /\
    forall p d, skel (heap rt') !! p = Some d <-> skel (heap cycle_rt) !! p = Some d /\ reachable (skel (heap cycle_rt)) [RObject 4] p).
Proof. split; [by vm_compute|]. apply JS_RunGC_spec, gc_inv_check. by vm_compute. Defined.

Example JS_RunGC_cycle :
  match JS_RunGC 10 cycle_rt with
  | Ret rt => map_to_list (heap rt) = [(4, plain 1 []); (1, MkGCObject 1 0 (GC_SHAPE None))] | _ => False end.
Proof. by vm_compute. Qed.

(** Object 2 refers to object 3, which is also referred to from outside. *)
Definition chain_rt : JSRuntime :=
  MkJSRuntime (list_to_map [(1, MkGCObject 2 0 (GC_SHAPE None)); (2, plain 1 [link 3]); (3, plain 2 [])])
    [1; 2; 3] [] [] ∅ JS_GC_PHASE_NONE.

Lemma JS_FreeValueRT_spec_witness :
  gc_inv_b [RObject 2; RObject 3] chain_rt = true /\
  yields (JS_FreeValueRT (free_zero_refcount 1) (JS_OBJECT 2) chain_rt) (fun rt' => gc_inv [RObject 3] rt' /\
    (forall p d, skel (heap rt') !! p = Some d -> skel (heap chain_rt) !! p = Some d) /\
    (forall p, reachable (skel (heap chain_rt)) [RObject 3] p -> skel (heap rt') !! p = skel (heap chain_rt) !! p)).
Proof.
  split; [by vm_compute|]. apply (JS_FreeValueRT_spec [RObject 3] (JS_OBJECT 2)).
  - apply gc_inv_check. by vm_compute.
  - lia.
  - intros r d Hr Ed. apply list_elem_of_singleton in Hr as ->. left. vm_compute in Ed. by simplify_eq.
Defined.

Example JS_FreeValueRT_chain :
  match JS_FreeValueRT (free_zero_refcount 1) (JS_OBJECT 2) chain_rt with
  | Ret rt => map_to_list (heap rt) = [(3, plain 1 []); (1, MkGCObject 1 0 (GC_SHAPE None))] | _ => False end.
Proof. by vm_compute. Qed.

(** ** A captured variable of a suspended generator

    Function 4 (of bytecode 8) is the body of generator 2, whose variable holds object 3; closure 6 (of bytecode 7) captures the
    variable as [JSVarRef] 5, which is still on the stack of the generator.  The generator is only referred to by itself, the
    closure by a C variable. *)
Definition captured_frame : JSAsyncFunctionState := MkJSAsyncFunctionState (JS_OBJECT 4) JS_UNDEFINED (Some [JS_OBJECT 3]) 0 false 0.
Definition captured_rt : JSRuntime :=
  MkJSRuntime (list_to_map [
      (1, MkGCObject 4 0 (GC_SHAPE None));
      (2, MkGCObject 1 0 (GC_OBJ (Some 1) [link 2] (CD_generator JS_GENERATOR_STATE_SUSPENDED_YIELD captured_frame) [] false));
      (3, plain 1 []);
      (4, MkGCObject 1 0 (GC_OBJ (Some 1) [] (CD_func None (Some 8) None) [] false));
      (5, MkGCObject 1 0 (GC_VAR_REF false false 0 JS_UNDEFINED));
      (6, MkGCObject 1 0 (GC_OBJ (Some 1) [] (CD_func None (Some 7) (Some [Some 5])) [] false));
      (7, MkGCObject 1 0 (GC_BYTECODE [] None)); (8, MkGCObject 1 0 (GC_BYTECODE [] None))])
    [1; 7; 8; 4; 3; 2; 6] [] [] {[0 := [5]]} JS_GC_PHASE_NONE.

(** The collection frees an object that is in use: the closure shares the variable with a suspended generator that is
    garbage, so that the variable of the closure is closed with the value that the generator held, but that value is released
    with the generator: every count is right before, and afterwards the live variable refers to freed memory. *)
Fact JS_RunGC_captured :
  (forall p o, heap captured_rt !! p = Some o -> ref_count o = cnt p [RObject 6] + total all p (skel (heap captured_rt))) /\
  exists rt', JS_RunGC 10 captured_rt = Ret rt' /\
    heap rt' !! 6 = heap captured_rt !! 6 /\
    heap rt' !! 5 = Some (MkGCObject 1 0 (GC_VAR_REF true false 0 (JS_OBJECT 3))) /\
    heap rt' !! 3 = None.
Proof.
  split.
  - assert (H : forallb (fun '(p, o) => ref_count o =? cnt p [RObject 6] + total all p (skel (heap captured_rt)))
                 (map_to_list (heap captured_rt)) = true) by (by vm_compute).
    intros p o Eo. rewrite forallb_forall in H. apply Z.eqb_eq.
    by apply (H (p, o)), list_elem_of_In, elem_of_map_to_list.
  - eexists. split; [by vm_compute|]. by vm_compute.
Qed.
