(* ===== verification/Alloc.v ===== *)
(** * The allocator of the engine

    The functions of the engine allocate through [js_malloc], which the embedder supplies and which may refuse any request.  The class [Malloc]
    is what they rely on; its state is explicit. *)

From stdpp Require Import gmap.
From S2P Require Import Prelude.
#[local] Open Scope Z_scope.

(** The allocator: [js_malloc m used n] asks for [n] bytes while the blocks [used] are allocated. *)
Class Malloc := {
  mem : Type;
  js_malloc : mem -> gset Z -> Z -> option Z * mem;
  sizeof_pointer : Z;
  js_malloc_fresh m used n p : (js_malloc m used n).1 = Some p -> p <> 0 /\ p ∉ used }.

(** A concrete allocator: requests above [limit] bytes fail. *)
Definition next_block (used : gset Z) : Z := set_fold Z.max 0 used + 1.
Lemma next_block_fresh used : 0 < next_block used /\ next_block used ∉ used.
Proof.
  unfold next_block. assert (H : 0 <= set_fold Z.max 0 used /\ forall p, p ∈ used -> p <= set_fold Z.max 0 used).
  { apply (set_fold_ind_L (fun b X => 0 <= b /\ forall p, p ∈ X -> p <= b) Z.max 0); [by split|].
    intros x X b Hx [Hb HX]. split; [lia|]. intros p. rewrite elem_of_union, elem_of_singleton. intros [->|Hp]; [lia|].
    specialize (HX p Hp). lia. }
  destruct H as [H0 H]. split; [lia|]. intros Hin. apply H in Hin. lia.
Qed.
#[refine] Definition limited_malloc (limit : Z) : Malloc := {|
  mem := unit;
  js_malloc := fun m used n => (if n <=? limit then Some (next_block used) else None, m);
  sizeof_pointer := 8 |}.
Proof.
  intros m used n p. cbn. destruct (n <=? limit); [|done]. intros [= <-]. pose proof (next_block_fresh used) as [? ?]. split; [lia|done].
Defined.

(** No block of 2^29 bytes is granted. *)
Class MallocBounded `{Malloc} : Prop := malloc_bounded m used n p : (js_malloc m used n).1 = Some p -> n < 2 ^ 29.

(** An allocator within the bound. *)
Definition small_malloc : Malloc := limited_malloc (2 ^ 29 - 1).
Lemma small_malloc_bounded : MallocBounded (H := small_malloc).
Proof. intros m used n p. cbn. destruct (Z.leb_spec n (2 ^ 29 - 1)); [lia|done]. Qed.
Lemma small_pointer : 4 <= @sizeof_pointer small_malloc.
Proof. done. Qed.
