(* ===== verification/Shape.v ===== *)
(** * Objects and shapes (quickjs.c)

    An object has an array of property values; the names and flags of its properties are in its shape, which objects of equal layout
    share.  A shape finds a name through a hash table of chains of indices; the runtime finds a shape to share through a hash table of
    the shapes.  Pointers are integers, 0 is NULL, and the shapes and objects of the runtime are finite maps, so sharing is explicit.

    Calls of other parts of the engine (counts of atoms and of prototypes, release of values, collection of garbage: GcHeap.v)
    are recorded in [log], in order. *)

From stdpp Require Import gmap.
From S2P Require Import Prelude Cutils Alloc GcHeap.
#[local] Open Scope Z_scope.

(** ** Data *)

Record JSShapeProperty := MkShapeProperty { hash_next : Z; pr_flags : Z; pr_atom : Z }.

(** [prop_hash] is the table in front of the structure, entry [h] at offset [-h - 1]; [sh_prop] holds the initialised properties,
    there is room for [prop_size]. *)
Record JSShape := MkJSShape {
  sh_ref_count : Z; is_hashed : bool; has_small_array_index : bool; sh_hash : Z; prop_hash_mask : Z; prop_size : Z;
  deleted_prop_count : Z; shape_hash_next : Z; proto : Z; prop_hash : list Z; sh_prop : list JSShapeProperty }.
Definition prop_count (sh : JSShape) : Z := zlen (sh_prop sh).

(** How an object treats the properties it does not find: not specially; as the elements of a fast array (of class Array or Arguments, or a
    typed array of so many elements); by the [delete_property] method of its class. *)
Inductive exotic := NOT_EXOTIC | FAST_ARRAY (values : list JSValue) | TYPED_ARRAY (count : Z) | EXOTIC (has_delete_property : bool).

(** The values of an object; [None] is memory that is not initialised. *)
Record JSObject := MkJSObject { shape : Z; prop : list (option JSPropertyU); kind : exotic }.

Inductive effect :=
| DupAtom (a : Z) | FreeAtom (a : Z) | DupObject (p : Z) | FreeObject (p : Z) | FreeProperty (u : JSPropertyU) (flags : Z)
| FreeValue (v : JSValue) | TriggerGC.

Section Shape.
Context `{Malloc}.

Record Runtime := MkRuntime {
  shapes : gmap Z JSShape;
  objects : gmap Z JSObject;
  hash_table : list Z;          (* rt->shape_hash *)
  shape_hash_bits : Z; shape_hash_size : Z; shape_hash_count : Z;
  gc_list : list Z;             (* rt->gc_obj_list *)
  array_shape : Z;              (* ctx->array_shape *)
  num_atoms : gmap Z Z;         (* the atoms whose string is an array index above 2^31 - 1 *)
  log : list effect;
  rt_mem : mem }.

Definition set_shapes (s : gmap Z JSShape) (rt : Runtime) : Runtime :=
  MkRuntime s (objects rt) (hash_table rt) (shape_hash_bits rt) (shape_hash_size rt) (shape_hash_count rt) (gc_list rt) (array_shape rt)
    (num_atoms rt) (log rt) (rt_mem rt).
Definition set_objects (o : gmap Z JSObject) (rt : Runtime) : Runtime :=
  MkRuntime (shapes rt) o (hash_table rt) (shape_hash_bits rt) (shape_hash_size rt) (shape_hash_count rt) (gc_list rt) (array_shape rt)
    (num_atoms rt) (log rt) (rt_mem rt).
Definition set_table (tab : list Z) (bits size count : Z) (rt : Runtime) : Runtime :=
  MkRuntime (shapes rt) (objects rt) tab bits size count (gc_list rt) (array_shape rt) (num_atoms rt) (log rt) (rt_mem rt).
Definition set_gc_list (l : list Z) (rt : Runtime) : Runtime :=
  MkRuntime (shapes rt) (objects rt) (hash_table rt) (shape_hash_bits rt) (shape_hash_size rt) (shape_hash_count rt) l (array_shape rt)
    (num_atoms rt) (log rt) (rt_mem rt).
Definition emit (e : effect) (rt : Runtime) : Runtime :=
  MkRuntime (shapes rt) (objects rt) (hash_table rt) (shape_hash_bits rt) (shape_hash_size rt) (shape_hash_count rt) (gc_list rt)
    (array_shape rt) (num_atoms rt) (log rt ++ [e]) (rt_mem rt).
Definition set_mem (m : mem) (rt : Runtime) : Runtime :=
  MkRuntime (shapes rt) (objects rt) (hash_table rt) (shape_hash_bits rt) (shape_hash_size rt) (shape_hash_count rt) (gc_list rt)
    (array_shape rt) (num_atoms rt) (log rt) m.

Definition get_shape (p : Z) (rt : Runtime) : outcome JSShape := match shapes rt !! p with Some sh => mret sh | None => Undef end.
Definition put_shape (p : Z) (sh : JSShape) (rt : Runtime) : Runtime := set_shapes (<[p := sh]> (shapes rt)) rt.
Definition get_object (p : Z) (rt : Runtime) : outcome JSObject := match objects rt !! p with Some o => mret o | None => Undef end.
Definition put_object (p : Z) (o : JSObject) (rt : Runtime) : Runtime := set_objects (<[p := o]> (objects rt)) rt.

Definition blocks (rt : Runtime) : gset Z := dom (shapes rt) ∪ dom (objects rt).
Definition malloc (n : Z) (rt : Runtime) : option Z * Runtime :=
  let '(r, m) := js_malloc (rt_mem rt) (blocks rt) n in (r, set_mem m rt).
(** [js_realloc] of the block [p]: it may stay where it is. *)
Definition realloc_block (p n : Z) (rt : Runtime) : option Z * Runtime :=
  let '(r, m) := js_malloc (rt_mem rt) (blocks rt ∖ {[p]}) n in (r, set_mem m rt).

Definition set_next (n : Z) (sh : JSShape) : JSShape :=
  MkJSShape (sh_ref_count sh) (is_hashed sh) (has_small_array_index sh) (sh_hash sh) (prop_hash_mask sh) (prop_size sh)
    (deleted_prop_count sh) n (proto sh) (prop_hash sh) (sh_prop sh).
Definition set_count (n : Z) (sh : JSShape) : JSShape :=
  MkJSShape n (is_hashed sh) (has_small_array_index sh) (sh_hash sh) (prop_hash_mask sh) (prop_size sh)
    (deleted_prop_count sh) (shape_hash_next sh) (proto sh) (prop_hash sh) (sh_prop sh).
Definition set_hashed (b : bool) (h : Z) (sh : JSShape) : JSShape :=
  MkJSShape (sh_ref_count sh) b (has_small_array_index sh) h (prop_hash_mask sh) (prop_size sh)
    (deleted_prop_count sh) (shape_hash_next sh) (proto sh) (prop_hash sh) (sh_prop sh).
Definition set_props (mask size deleted : Z) (tab : list Z) (props : list JSShapeProperty) (sh : JSShape) : JSShape :=
  MkJSShape (sh_ref_count sh) (is_hashed sh) (has_small_array_index sh) (sh_hash sh) mask size
    deleted (shape_hash_next sh) (proto sh) tab props.

(** ** The hash table of shapes *)

Definition get_shape_size (hash_size prop_size : Z) : Z := hash_size * 4 + 64 + prop_size * 8.

Definition init_shape_hash (rt : Runtime) : Z * Runtime :=
  let bits := 4 in
  let size := 1 << bits in
  let '(r, rt) := malloc (sizeof_pointer * size) rt in
  match r with
  | None => (-1, set_table (hash_table rt) bits size 0 rt)
  | Some _ => (0, set_table (replicate (Z.to_nat size) 0) bits size 0 rt)
  end.

Definition shape_hash (h val : Z) : Z := u32 (u32 (h + val) * 0x9e370001).
Definition get_shape_hash (h hash_bits : Z) : Z := h >> (32 - hash_bits).
Definition shape_initial_hash (proto : Z) : Z :=
  let h := shape_hash 1 (u32 proto) in
  if sizeof_pointer >? 4 then shape_hash h (u32 (proto >> 32)) else h.

(** The chain of the shape [sh] is moved to the new table. *)
Definition rehash_shape (bits : Z) (st : Z * list Z * Runtime) : outcome (Z * list Z * Runtime + list Z * Runtime) :=
  let '(p, tab, rt) := st in
  if p =? 0 then mret (inr (tab, rt))
  else
    sh ← get_shape p rt;
    let h := get_shape_hash (sh_hash sh) bits in
    next ← aget tab h;
    tab ← aset tab h p;
    mret (inl (shape_hash_next sh, tab, put_shape p (set_next next sh) rt)).
Fixpoint rehash_chains (bits : Z) (heads : list Z) (tab : list Z) (rt : Runtime) : outcome (list Z * Runtime) :=
  match heads with
  | [] => mret (tab, rt)
  | p :: heads =>
      '(tab, rt) ← loop (S (size (shapes rt))) (rehash_shape bits) (p, tab, rt);
      rehash_chains bits heads tab rt
  end.
Definition resize_shape_hash (new_shape_hash_bits : Z) (rt : Runtime) : outcome (Z * Runtime) :=
  new_shape_hash_size ← c_int (1 << new_shape_hash_bits);
  let '(r, rt) := malloc (sizeof_pointer * new_shape_hash_size) rt in
  match r with
  | None => mret (-1, rt)
  | Some _ =>
      '(tab, rt) ← rehash_chains new_shape_hash_bits (take (Z.to_nat (shape_hash_size rt)) (hash_table rt))
                     (replicate (Z.to_nat new_shape_hash_size) 0) rt;
      mret (0, set_table tab new_shape_hash_bits new_shape_hash_size (shape_hash_count rt) rt)
  end.

Definition js_shape_hash_link (p : Z) (rt : Runtime) : outcome Runtime :=
  sh ← get_shape p rt;
  let h := get_shape_hash (sh_hash sh) (shape_hash_bits rt) in
  next ← aget (hash_table rt) h;
  tab ← aset (hash_table rt) h p;
  mret (set_table tab (shape_hash_bits rt) (shape_hash_size rt) (shape_hash_count rt + 1) (put_shape p (set_next next sh) rt)).

(** [psh] is the entry of the table ([None]) or the [shape_hash_next] of a shape. *)
Definition unlink_step (p head : Z) (rt : Runtime) (psh : option Z) : outcome (option Z + option Z) :=
  cur ← match psh with None => mret head | Some q => sh ← get_shape q rt; mret (shape_hash_next sh) end;
  if cur =? p then mret (inr psh)
  else if cur =? 0 then Undef
  else mret (inl (Some cur)).
Definition js_shape_hash_unlink (p : Z) (rt : Runtime) : outcome Runtime :=
  sh ← get_shape p rt;
  let h := get_shape_hash (sh_hash sh) (shape_hash_bits rt) in
  head ← aget (hash_table rt) h;
  psh ← loop (S (S (size (shapes rt)))) (unlink_step p head rt) None;
  rt ← match psh with
       | None => tab ← aset (hash_table rt) h (shape_hash_next sh);
                 mret (set_table tab (shape_hash_bits rt) (shape_hash_size rt) (shape_hash_count rt) rt)
       | Some q => shq ← get_shape q rt; mret (put_shape q (set_next (shape_hash_next sh) shq) rt)
       end;
  mret (set_table (hash_table rt) (shape_hash_bits rt) (shape_hash_size rt) (shape_hash_count rt - 1) rt).

(** ** Creation and release *)

Definition JS_PROP_INITIAL_SIZE : Z := 2.
Definition JS_PROP_INITIAL_HASH_SIZE : Z := 4.

Definition js_new_shape2 (proto hash_size prop_size : Z) (rt : Runtime) : outcome (Z * Runtime) :=
  rt ← (if 2 * (shape_hash_count rt + 1) >? shape_hash_size rt
        then '(_, rt) ← resize_shape_hash (shape_hash_bits rt + 1) rt; mret rt else mret rt);
  let '(r, rt) := malloc (get_shape_size hash_size prop_size) rt in
  match r with
  | None => mret (0, rt)
  | Some p =>
      let rt := set_gc_list (gc_list rt ++ [p]) rt in
      let rt := if proto =? 0 then rt else emit (DupObject proto) rt in
      let sh := MkJSShape 1 true false (shape_initial_hash proto) (hash_size - 1) prop_size 0 0 proto
                  (replicate (Z.to_nat hash_size) 0) [] in
      rt ← js_shape_hash_link p (put_shape p sh rt);
      mret (p, rt)
  end.
Definition js_new_shape (proto : Z) (rt : Runtime) : outcome (Z * Runtime) :=
  js_new_shape2 proto JS_PROP_INITIAL_HASH_SIZE JS_PROP_INITIAL_SIZE rt.

Definition emit_all (l : list effect) (rt : Runtime) : Runtime := fold_left (fun rt e => emit e rt) l rt.

Definition js_clone_shape (p1 : Z) (rt : Runtime) : outcome (Z * Runtime) :=
  sh1 ← get_shape p1 rt;
  let '(r, rt) := malloc (get_shape_size (prop_hash_mask sh1 + 1) (prop_size sh1)) rt in
  match r with
  | None => mret (0, rt)
  | Some p =>
      let sh := set_hashed false (sh_hash sh1) (set_count 1 sh1) in
      let rt := set_gc_list (gc_list rt ++ [p]) (put_shape p sh rt) in
      let rt := if proto sh =? 0 then rt else emit (DupObject (proto sh)) rt in
      mret (p, emit_all ((fun pr => DupAtom (pr_atom pr)) <$> sh_prop sh) rt)
  end.

Definition js_dup_shape (p : Z) (rt : Runtime) : outcome Runtime :=
  sh ← get_shape p rt; mret (put_shape p (set_count (sh_ref_count sh + 1) sh) rt).

Definition free_shape0 (p : Z) (rt : Runtime) : outcome Runtime :=
  sh ← get_shape p rt;
  _ ← c_assert (sh_ref_count sh =? 0);
  rt ← (if is_hashed sh then js_shape_hash_unlink p rt else mret rt);
  let rt := if proto sh =? 0 then rt else emit (FreeObject (proto sh)) rt in
  let rt := emit_all ((fun pr => FreeAtom (pr_atom pr)) <$> sh_prop sh) rt in
  mret (set_shapes (delete p (shapes rt)) (set_gc_list (filter (fun q => q <> p) (gc_list rt)) rt)).
Definition free_shape (p : Z) (rt : Runtime) : outcome Runtime :=
  sh ← get_shape p rt;
  let rt := put_shape p (set_count (sh_ref_count sh - 1) sh) rt in
  if sh_ref_count sh - 1 <=? 0 then free_shape0 p rt else mret rt.

(** ** Properties of a shape *)

Definition JS_PROP_CONFIGURABLE : Z := 1.
Definition JS_PROP_WRITABLE : Z := 2.
Definition JS_PROP_C_W_E : Z := 7.
Definition JS_PROP_LENGTH : Z := 8.
Definition JS_ATOM_TAG_INT : Z := 2147483648.
Definition __JS_AtomIsTaggedInt (v : Z) : bool := negb (v .& JS_ATOM_TAG_INT =? 0).
Definition __JS_AtomFromUInt32 (v : Z) : Z := v .| JS_ATOM_TAG_INT.
Definition __JS_AtomToUInt32 (atom : Z) : Z := atom .& 2147483647.
Definition JS_AtomIsArrayIndex (atom : Z) (rt : Runtime) : option Z :=
  if __JS_AtomIsTaggedInt atom then Some (__JS_AtomToUInt32 atom) else num_atoms rt !! atom.

(** [*psh = sh]: the shape pointer of the object [p], or a variable. *)
Definition set_psh (p : option Z) (sh : Z) (rt : Runtime) : outcome Runtime :=
  match p with
  | None => mret rt
  | Some p => o ← get_object p rt; mret (put_object p (MkJSObject sh (prop o) (kind o)) rt)
  end.
(** [js_realloc] of the values of an object; the block has no other use. *)
Definition resize_values (n : Z) (vs : list (option JSPropertyU)) : list (option JSPropertyU) :=
  take (Z.to_nat n) vs ++ replicate (Z.to_nat n - length vs) None.
Definition realloc_prop (p n : Z) (rt : Runtime) : outcome (bool * Runtime) :=
  o ← get_object p rt;
  let '(r, rt) := malloc (16 * n) rt in
  match r with
  | None => mret (false, rt)
  | Some _ => mret (true, put_object p (MkJSObject (shape o) (resize_values n (prop o)) (kind o)) rt)
  end.

(** The chains of the hash table, built anew from the property with index [i] on. *)
Fixpoint rehash_props (mask : Z) (i : Z) (props : list JSShapeProperty) (tab : list Z) : outcome (list Z * list JSShapeProperty) :=
  match props with
  | [] => mret (tab, [])
  | pr :: props =>
      if pr_atom pr =? JS_ATOM_NULL then
        '(tab, props) ← rehash_props mask (i + 1) props tab; mret (tab, pr :: props)
      else
        let h := pr_atom pr .& mask in
        next ← aget tab h;
        tab ← aset tab h (i + 1);
        '(tab, props) ← rehash_props mask (i + 1) props tab;
        mret (tab, MkShapeProperty (wrap 26 next) (pr_flags pr) (pr_atom pr) :: props)
  end.

Definition double_hash_size (new_size : Z) (n : Z) : outcome (Z + Z) :=
  mret (if n <? new_size then inl (u32 (2 * n)) else inr n).
Definition halve_hash_size (new_size : Z) (n : Z) : outcome (Z + Z) :=
  mret (if n / 2 >=? new_size then inl (n / 2) else inr n).

Definition move_in_gc_list (p q : Z) (rt : Runtime) : Runtime := set_gc_list (filter (fun x => x <> p) (gc_list rt) ++ [q]) rt.

(** Answers the status and the shape. *)
Definition resize_properties (psh : Z) (p : option Z) (count : Z) (rt : Runtime) : outcome (Z * Z * Runtime) :=
  sh ← get_shape psh rt;
  n ← c_int (prop_size sh * 3);
  let new_size := max_int count (n / 2) in
  '(ok, rt) ← match p with Some p => realloc_prop p new_size rt | None => mret (true, rt) end;
  if negb ok then mret (-1, psh, rt)
  else
    new_hash_size ← loop 64 (double_hash_size new_size) (u32 (prop_hash_mask sh + 1));
    if negb (new_hash_size =? u32 (prop_hash_mask sh + 1)) then
      let '(r, rt) := malloc (get_shape_size new_hash_size new_size) rt in
      match r with
      | None => mret (-1, psh, rt)
      | Some q =>
          '(tab, props) ← rehash_props (new_hash_size - 1) 0 (sh_prop sh) (replicate (Z.to_nat new_hash_size) 0);
          let sh' := set_props (new_hash_size - 1) new_size (deleted_prop_count sh) tab props sh in
          let rt := put_shape q sh' (set_shapes (delete psh (shapes rt)) (move_in_gc_list psh q rt)) in
          rt ← set_psh p q rt;
          mret (0, q, rt)
      end
    else
      let '(r, rt) := realloc_block psh (get_shape_size new_hash_size new_size) rt in
      match r with
      | None => mret (-1, psh, move_in_gc_list psh psh rt)
      | Some q =>
          let sh' := set_props (prop_hash_mask sh) new_size (deleted_prop_count sh) (prop_hash sh) (sh_prop sh) sh in
          let rt := put_shape q sh' (set_shapes (delete psh (shapes rt)) (move_in_gc_list psh q rt)) in
          rt ← set_psh p q rt;
          mret (0, q, rt)
      end.

(** The values of the properties that are left. *)
Fixpoint compact_values (props : list JSShapeProperty) (vs : list (option JSPropertyU)) : list (option JSPropertyU) :=
  match props, vs with
  | pr :: props, v :: vs => if pr_atom pr =? JS_ATOM_NULL then compact_values props vs else v :: compact_values props vs
  | _, _ => []
  end.
Definition compact_properties (p : Z) (rt : Runtime) : outcome (Z * Runtime) :=
  o ← get_object p rt;
  sh ← get_shape (shape o) rt;
  _ ← c_assert (negb (is_hashed sh));
  let new_size := max_int JS_PROP_INITIAL_SIZE (prop_count sh - deleted_prop_count sh) in
  _ ← c_assert (new_size <=? prop_size sh);
  new_hash_size ← loop 64 (halve_hash_size new_size) (u32 (prop_hash_mask sh + 1));
  let '(r, rt) := malloc (get_shape_size new_hash_size new_size) rt in
  match r with
  | None => mret (-1, rt)
  | Some q =>
      let live := filter (fun pr => pr_atom pr <> JS_ATOM_NULL) (sh_prop sh) in
      '(tab, props) ← rehash_props (new_hash_size - 1) 0 live (replicate (Z.to_nat new_hash_size) 0);
      _ ← c_assert (zlen props =? prop_count sh - deleted_prop_count sh);
      _ ← c_assert (prop_count sh <=? zlen (prop o));
      let vs := compact_values (sh_prop sh) (prop o) in
      let sh' := set_props (new_hash_size - 1) new_size 0 tab props sh in
      let rt := put_shape q sh' (set_shapes (delete (shape o) (shapes rt)) (move_in_gc_list (shape o) q rt)) in
      let rt := put_object p (MkJSObject q (vs ++ drop (length vs) (prop o)) (kind o)) rt in
      '(_, rt) ← realloc_prop p new_size rt;
      mret (0, rt)
  end.

Definition add_shape_property (psh : Z) (p : option Z) (atom prop_flags : Z) (rt : Runtime) : outcome (Z * Z * Runtime) :=
  sh ← get_shape psh rt;
  rt ← (if is_hashed sh then js_shape_hash_unlink psh rt else mret rt);
  let new_shape_hash := shape_hash (shape_hash (sh_hash sh) atom) (u32 prop_flags) in
  '(r, q, rt) ← (if prop_count sh >=? prop_size sh then resize_properties psh p (prop_count sh + 1) rt else mret (0, psh, rt));
  if negb (r =? 0) then
    rt ← (if is_hashed sh then js_shape_hash_link psh rt else mret rt); mret (-1, psh, rt)
  else
    sh ← get_shape q rt;
    rt ← (if is_hashed sh then js_shape_hash_link q (put_shape q (set_hashed true new_shape_hash sh) rt) else mret rt);
    sh ← get_shape q rt;
    _ ← c_assert (prop_count sh <? prop_size sh);
    let h := atom .& prop_hash_mask sh in
    next ← aget (prop_hash sh) h;
    let pr := MkShapeProperty (wrap 26 next) (wrap 6 prop_flags) atom in
    tab ← aset (prop_hash sh) h (prop_count sh + 1);
    let sh' := MkJSShape (sh_ref_count sh) (is_hashed sh) (has_small_array_index sh || __JS_AtomIsTaggedInt atom) (sh_hash sh)
                 (prop_hash_mask sh) (prop_size sh) (deleted_prop_count sh) (shape_hash_next sh) (proto sh) tab (sh_prop sh ++ [pr]) in
    mret (0, q, put_shape q sh' (emit (DupAtom atom) rt)).

(** ** Looking for a shape to share *)

Definition match_proto (h proto : Z) (sh1 : JSShape) : bool :=
  (sh_hash sh1 =? h) && (Shape.proto sh1 =? proto) && (prop_count sh1 =? 0).
Definition same_prop (pr1 pr2 : JSShapeProperty) : bool := (pr_atom pr1 =? pr_atom pr2) && (pr_flags pr1 =? pr_flags pr2).
Definition match_prop (h : Z) (sh : JSShape) (atom prop_flags : Z) (sh1 : JSShape) : bool :=
  (sh_hash sh1 =? h) && (Shape.proto sh1 =? Shape.proto sh) && (prop_count sh1 =? prop_count sh + 1) &&
  forallb (fun '(pr1, pr) => same_prop pr1 pr) (zip (sh_prop sh1) (sh_prop sh)) &&
  match sh_prop sh1 !! Z.to_nat (prop_count sh) with Some pr => (pr_atom pr =? atom) && (pr_flags pr =? prop_flags) | None => false end.
Definition find_step (ok : JSShape -> bool) (rt : Runtime) (p : Z) : outcome (Z + Z) :=
  if p =? 0 then mret (inr 0)
  else sh1 ← get_shape p rt; mret (if ok sh1 then inr p else inl (shape_hash_next sh1)).
Definition find_hashed (ok : JSShape -> bool) (h : Z) (rt : Runtime) : outcome Z :=
  head ← aget (hash_table rt) (get_shape_hash h (shape_hash_bits rt));
  loop (S (size (shapes rt))) (find_step ok rt) head.
Definition find_hashed_shape_proto (proto : Z) (rt : Runtime) : outcome Z :=
  let h := shape_initial_hash proto in find_hashed (match_proto h proto) h rt.
Definition find_hashed_shape_prop (p atom prop_flags : Z) (rt : Runtime) : outcome Z :=
  sh ← get_shape p rt;
  let h := shape_hash (shape_hash (sh_hash sh) atom) (u32 prop_flags) in
  find_hashed (match_prop h sh atom prop_flags) h rt.

(** ** Properties of an object *)

(** The index of the property; [None] is NULL. *)
Definition find_own_step (sh : JSShape) (atom h : Z) : outcome (Z + option Z) :=
  if h =? 0 then mret (inr None)
  else pr ← aget (sh_prop sh) (h - 1); mret (if pr_atom pr =? atom then inr (Some (h - 1)) else inl (hash_next pr)).
Definition find_own_property1 (p atom : Z) (rt : Runtime) : outcome (option Z) :=
  o ← get_object p rt;
  sh ← get_shape (shape o) rt;
  h ← aget (prop_hash sh) (atom .& prop_hash_mask sh);
  loop (S (length (sh_prop sh))) (find_own_step sh atom) h.
(** With the flags and the value. *)
Definition find_own_property (p atom : Z) (rt : Runtime) : outcome (option (Z * Z * option JSPropertyU)) :=
  r ← find_own_property1 p atom rt;
  match r with
  | None => mret None
  | Some i => o ← get_object p rt; sh ← get_shape (shape o) rt; pr ← aget (sh_prop sh) i; v ← aget (prop o) i; mret (Some (i, pr_flags pr, v))
  end.

(** The end of [add_property]: the shape of the object is its own. *)
Definition add_owned (p atom prop_flags : Z) (rt : Runtime) : outcome (option Z * Runtime) :=
  o ← get_object p rt;
  sh ← get_shape (shape o) rt;
  _ ← c_assert (sh_ref_count sh =? 1);
  '(r, _, rt) ← add_shape_property (shape o) (Some p) atom prop_flags rt;
  if negb (r =? 0) then mret (None, rt)
  else o ← get_object p rt; sh ← get_shape (shape o) rt; mret (Some (prop_count sh - 1), rt).
(** The index of the new value, which is not initialised; [None] is NULL. *)
Definition add_property (p atom prop_flags : Z) (rt : Runtime) : outcome (option Z * Runtime) :=
  o ← get_object p rt;
  sh ← get_shape (shape o) rt;
  if is_hashed sh then
    q ← find_hashed_shape_prop (shape o) atom prop_flags rt;
    if negb (q =? 0) then
      new_sh ← get_shape q rt;
      '(ok, rt) ← (if negb (prop_size new_sh =? prop_size sh) then realloc_prop p (prop_size new_sh) rt else mret (true, rt));
      if negb ok then mret (None, rt)
      else
        rt ← js_dup_shape q rt;
        rt ← set_psh (Some p) q rt;
        rt ← free_shape (shape o) rt;
        mret (Some (prop_count new_sh - 1), rt)
    else if negb (sh_ref_count sh =? 1) then
      '(q, rt) ← js_clone_shape (shape o) rt;
      if q =? 0 then mret (None, rt)
      else
        new_sh ← get_shape q rt;
        rt ← js_shape_hash_link q (put_shape q (set_hashed true (sh_hash new_sh) new_sh) rt);
        rt ← free_shape (shape o) rt;
        rt ← set_psh (Some p) q rt;
        add_owned p atom prop_flags rt
    else add_owned p atom prop_flags rt
  else add_owned p atom prop_flags rt.

Definition js_shape_prepare_update (p : Z) (rt : Runtime) : outcome (Z * Runtime) :=
  o ← get_object p rt;
  sh ← get_shape (shape o) rt;
  if is_hashed sh then
    if negb (sh_ref_count sh =? 1) then
      '(q, rt) ← js_clone_shape (shape o) rt;
      if q =? 0 then mret (-1, rt)
      else
        rt ← free_shape (shape o) rt;
        rt ← set_psh (Some p) q rt;
        mret (0, rt)
    else
      rt ← js_shape_hash_unlink (shape o) rt;
      sh ← get_shape (shape o) rt;
      mret (0, put_shape (shape o) (set_hashed false (sh_hash sh) sh) rt)
  else mret (0, rt).

Definition set_prop (i : Z) (pr : JSShapeProperty) (sh : JSShape) : outcome JSShape :=
  props ← aset (sh_prop sh) i pr;
  mret (set_props (prop_hash_mask sh) (prop_size sh) (deleted_prop_count sh) (prop_hash sh) props sh).

(** [i] is the index of the property. *)
Definition js_update_property_flags (p i flags : Z) (rt : Runtime) : outcome (Z * Runtime) :=
  o ← get_object p rt;
  sh ← get_shape (shape o) rt;
  pr ← aget (sh_prop sh) i;
  if negb (flags =? pr_flags pr) then
    '(r, rt) ← js_shape_prepare_update p rt;
    if negb (r =? 0) then mret (-1, rt)
    else
      o ← get_object p rt;
      sh ← get_shape (shape o) rt;
      pr ← aget (sh_prop sh) i;
      sh' ← set_prop i (MkShapeProperty (hash_next pr) (wrap 6 flags) (pr_atom pr)) sh;
      mret (0, put_shape (shape o) sh' rt)
  else mret (0, rt).

Definition set_value (p i : Z) (u : JSPropertyU) (rt : Runtime) : outcome Runtime :=
  o ← get_object p rt;
  vs ← aset (prop o) i (Some u);
  mret (put_object p (MkJSObject (shape o) vs (kind o)) rt).

(** The elements become properties. *)
Fixpoint add_elements (p i : Z) (tab : list JSValue) (rt : Runtime) : outcome Runtime :=
  match tab with
  | [] => mret rt
  | v :: tab =>
      '(r, rt) ← add_property p (__JS_AtomFromUInt32 i) JS_PROP_C_W_E rt;
      match r with
      | None => Undef
      | Some k => rt ← set_value p k (PROP_VALUE v) rt; add_elements p (i + 1) tab rt
      end
  end.
Definition convert_fast_array_to_array (p : Z) (values : list JSValue) (rt : Runtime) : outcome (Z * Runtime) :=
  '(r, rt) ← js_shape_prepare_update p rt;
  if negb (r =? 0) then mret (-1, rt)
  else
    o ← get_object p rt;
    sh ← get_shape (shape o) rt;
    let new_count := prop_count sh + zlen values in
    '(r, _, rt) ← (if new_count >? prop_size sh then resize_properties (shape o) (Some p) new_count rt else mret (0, shape o, rt));
    if negb (r =? 0) then mret (-1, rt)
    else
      rt ← add_elements p 0 values rt;
      o ← get_object p rt;
      mret (0, put_object p (MkJSObject (shape o) (prop o) (EXOTIC false)) rt).

(** The property with index [i] is taken out of its chain, behind the property [lpr] if there is one. *)
Definition unlink_prop (sh : JSShape) (h1 : Z) (lpr : option Z) (i : Z) : outcome JSShape :=
  pr ← aget (sh_prop sh) i;
  match lpr with
  | Some l => lp ← aget (sh_prop sh) l; set_prop l (MkShapeProperty (hash_next pr) (pr_flags lp) (pr_atom lp)) sh
  | None =>
      tab ← aset (prop_hash sh) h1 (hash_next pr);
      mret (set_props (prop_hash_mask sh) (prop_size sh) (deleted_prop_count sh) tab (sh_prop sh) sh)
  end.

(** The part of [delete_property] behind "found". *)
Definition delete_found (p atom h1 : Z) (lpr : option Z) (i : Z) (rt : Runtime) : outcome (Z * Runtime) :=
  o ← get_object p rt;
  sh ← get_shape (shape o) rt;
  pr ← aget (sh_prop sh) i;
  if pr_flags pr .& JS_PROP_CONFIGURABLE =? 0 then mret (0, rt)
  else
    '(r, rt) ← js_shape_prepare_update p rt;
    if negb (r =? 0) then mret (-1, rt)
    else
      o ← get_object p rt;
      sh ← get_shape (shape o) rt;
      sh ← unlink_prop sh h1 lpr i;
      let sh := set_props (prop_hash_mask sh) (prop_size sh) (deleted_prop_count sh + 1) (prop_hash sh) (sh_prop sh) sh in
      pr ← aget (sh_prop sh) i;
      v ← aget (prop o) i;
      match v with
      | None => Undef
      | Some u =>
          let rt := emit (FreeAtom (pr_atom pr)) (emit (FreeProperty u (pr_flags pr)) rt) in
          sh ← set_prop i (MkShapeProperty (hash_next pr) 0 JS_ATOM_NULL) sh;
          rt ← set_value p i (PROP_VALUE JS_UNDEFINED) (put_shape (shape o) sh rt);
          rt ← (if (deleted_prop_count sh >=? 8) && (u32 (deleted_prop_count sh) >=? u32 (prop_count sh) / 2)
                then '(_, rt) ← compact_properties p rt; mret rt else mret rt);
          mret (1, rt)
      end.

Definition delete_walk (sh : JSShape) (atom : Z) (st : option Z * Z) : outcome (option Z * Z + option (option Z * Z)) :=
  let '(lpr, h) := st in
  if h =? 0 then mret (inr None)
  else
    pr ← aget (sh_prop sh) (h - 1);
    mret (if pr_atom pr =? atom then inr (Some (lpr, h - 1)) else inl (Some (h - 1), hash_next pr)).

Context (em_delete_property : Z -> Z -> Runtime -> outcome (Z * Runtime)).

(** The part of [delete_property] behind the walk: no property was found. *)
Definition delete_missing (p atom : Z) (o : JSObject) (rt : Runtime) : outcome (Runtime + Z * Runtime) :=
  match kind o with
  | NOT_EXOTIC => mret (inr (1, rt))
  | FAST_ARRAY values =>
      match JS_AtomIsArrayIndex atom rt with
      | Some idx =>
          if idx <? zlen values then
            if idx =? zlen values - 1 then
              v ← aget values idx;
              mret (inr (1, put_object p (MkJSObject (shape o) (prop o) (FAST_ARRAY (take (Z.to_nat idx) values)))
                              (emit (FreeValue v) rt)))
            else
              '(r, rt) ← convert_fast_array_to_array p values rt;
              if negb (r =? 0) then mret (inr (-1, rt)) else mret (inl rt)
          else mret (inr (1, rt))
      | None => mret (inr (1, rt))
      end
  | TYPED_ARRAY count =>
      match JS_AtomIsArrayIndex atom rt with
      | Some idx => mret (inr (if idx <? count then 0 else 1, rt))
      | None => mret (inr (1, rt))
      end
  | EXOTIC has_delete => if has_delete : bool then r ← em_delete_property p atom rt; mret (inr r) else mret (inr (1, rt))
  end.
(** One turn of the [redo] loop. *)
Definition delete_turn (p atom : Z) (rt : Runtime) : outcome (Runtime + Z * Runtime) :=
  o ← get_object p rt;
  sh ← get_shape (shape o) rt;
  let h1 := atom .& prop_hash_mask sh in
  h ← aget (prop_hash sh) h1;
  r ← loop (S (length (sh_prop sh))) (delete_walk sh atom) (None, h);
  match r with
  | Some (lpr, i) => r ← delete_found p atom h1 lpr i rt; mret (inr r)
  | None => delete_missing p atom o rt
  end.
Definition delete_property (p atom : Z) (rt : Runtime) : outcome (Z * Runtime) := loop 3 (delete_turn p atom) rt.

(** ** Creation of objects *)

Inductive class_kind := CK_object | CK_array | CK_c_function | CK_fast_array | CK_typed_array | CK_other (exotic has_delete_property : bool).

Definition JS_ATOM_length : Z := 48.

(** The part of the [switch] of [JS_NewObjectFromShape] that concerns the properties. *)
Definition init_class (p psh : Z) (class_id : class_kind) (rt : Runtime) : outcome Runtime :=
  match class_id with
  | CK_object | CK_fast_array | CK_typed_array | CK_other _ _ => mret rt
  | CK_array =>
      '(i, rt) ← (if psh =? array_shape rt then mret (Some 0, rt)
                  else add_property p JS_ATOM_length (JS_PROP_WRITABLE .| JS_PROP_LENGTH) rt);
      match i with
      | None => Undef
      | Some i => set_value p i (PROP_VALUE (JS_SCALAR 0)) rt
      end
  | CK_c_function => set_value p 0 (PROP_VALUE JS_UNDEFINED) rt
  end.
Definition class_exotic (class_id : class_kind) : exotic :=
  match class_id with
  | CK_array | CK_fast_array => FAST_ARRAY []
  | CK_typed_array => TYPED_ARRAY 0
  | CK_other true d => EXOTIC d
  | _ => NOT_EXOTIC
  end.
(** 0 is JS_EXCEPTION. *)
Definition JS_NewObjectFromShape (psh : Z) (class_id : class_kind) (rt : Runtime) : outcome (Z * Runtime) :=
  let rt := emit TriggerGC rt in
  sh ← get_shape psh rt;
  let '(r, rt) := malloc 48 rt in
  match r with
  | None => rt ← free_shape psh rt; mret (0, rt)
  | Some p =>
      let '(r, rt) := malloc (16 * prop_size sh) rt in
      match r with
      | None => rt ← free_shape psh rt; mret (0, rt)
      | Some _ =>
          let o := MkJSObject psh (replicate (Z.to_nat (prop_size sh)) None) (class_exotic class_id) in
          rt ← init_class p psh class_id (put_object p o rt);
          mret (p, set_gc_list (gc_list rt ++ [p]) rt)
      end
  end.
Definition JS_NewObjectProtoClass (proto : Z) (class_id : class_kind) (rt : Runtime) : outcome (Z * Runtime) :=
  q ← find_hashed_shape_proto proto rt;
  if negb (q =? 0) then rt ← js_dup_shape q rt; JS_NewObjectFromShape q class_id rt
  else
    '(q, rt) ← js_new_shape proto rt;
    if q =? 0 then mret (0, rt) else JS_NewObjectFromShape q class_id rt.
End Shape.
