(* ===== verification/ShapeProps.v ===== *)
(** * The property table of a shape

    [shape_ok]: every chain of the hash table visits the properties of its hash in the order of decreasing index.  Lookup, addition, deletion
    and the two ways to rebuild the table are proved against this reading; [entries] is the list of properties it stands for. *)

From stdpp Require Import gmap.
From S2P Require Import Prelude Cutils Alloc GcHeap Shape.
#[local] Open Scope Z_scope.

Definition live (pr : JSShapeProperty) : bool := negb (pr_atom pr =? JS_ATOM_NULL).
Definition hash_of (mask : Z) (pr : JSShapeProperty) : Z := pr_atom pr .& mask.

(** The last property of hash [h], counted from 1; 0 when there is none. *)
Fixpoint last_rev (mask h : Z) (r : list JSShapeProperty) : Z :=
  match r with
  | [] => 0
  | pr :: r => if live pr && (hash_of mask pr =? h) then zlen r + 1 else last_rev mask h r
  end.
Definition last_in (mask h : Z) (props : list JSShapeProperty) : Z := last_rev mask h (reverse props).

Lemma last_in_nil mask h : last_in mask h [] = 0.
Proof. done. Qed.
Lemma last_in_snoc mask h props pr :
  last_in mask h (props ++ [pr]) = if live pr && (hash_of mask pr =? h) then zlen props + 1 else last_in mask h props.
Proof. unfold last_in. rewrite reverse_snoc. cbn. unfold zlen. by rewrite length_reverse. Qed.

Lemma last_in_range mask h props : 0 <= last_in mask h props <= zlen props.
Proof.
  induction props as [|pr props IH] using rev_ind; [by rewrite last_in_nil|].
  rewrite last_in_snoc, zlen_app. change (zlen [pr]) with 1. destruct (_ && _); lia.
Qed.

(** What the last property is. *)
Lemma last_in_pos mask h props i : last_in mask h props = i + 1 -> 0 <= i ->
  exists pr, props !! Z.to_nat i = Some pr /\ live pr = true /\ hash_of mask pr = h.
Proof.
  induction props as [|pr props IH] using rev_ind; [rewrite last_in_nil; lia|].
  rewrite last_in_snoc. destruct (live pr && (hash_of mask pr =? h)) eqn:E; intros Hi H0.
  - apply andb_prop in E as [El Eh]. exists pr. split; [|split; [done|by apply Z.eqb_eq]].
    assert (i = zlen props) as -> by lia. unfold zlen. by rewrite Nat2Z.id, list_lookup_middle.
  - destruct (IH Hi H0) as (pr' & Hp & Hr). exists pr'. split; [|done]. by apply lookup_app_l_Some.
Qed.
Lemma last_in_max mask props j pr : props !! j = Some pr -> live pr = true -> Z.of_nat j + 1 <= last_in mask (hash_of mask pr) props.
Proof.
  induction props as [|pr' props IH] using rev_ind; [done|]. intros Hj Hl. rewrite last_in_snoc.
  apply lookup_app_Some in Hj as [Hj|[Hlt Hj]].
  - specialize (IH Hj Hl). apply lookup_lt_Some in Hj. destruct (_ && _); [|done]. unfold zlen. lia.
  - destruct (j - length props)%nat as [|n] eqn:En; [|done]. cbn in Hj. simplify_eq. rewrite Hl, Z.eqb_refl. cbn. unfold zlen. lia.
Qed.

(** Only atoms matter. *)
Lemma last_in_ext mask h props props' : pr_atom <$> props = pr_atom <$> props' -> last_in mask h props = last_in mask h props'.
Proof.
  revert props'. induction props as [|pr props IH] using rev_ind; intros props' E.
  - symmetry in E. by apply fmap_nil_inv in E as ->.
  - rewrite fmap_app in E. destruct props' as [|pr' props' _] using rev_ind; [by destruct (pr_atom <$> props)|].
    rewrite fmap_app in E. apply app_inj_tail in E as [E1 E2]. rewrite !last_in_snoc.
    assert (zlen props = zlen props') as -> by (unfold zlen; apply (f_equal length) in E1; rewrite !length_fmap in E1; lia).
    unfold live, hash_of. rewrite E2. by rewrite (IH _ E1).
Qed.

(** Steps down a chain. *)
Lemma last_in_take mask h props n i : last_in mask h (take n props) = i + 1 -> 0 <= i ->
  (Z.to_nat i < n)%nat /\ forall j pr, (Z.to_nat i < j < n)%nat -> props !! j = Some pr -> live pr = true -> hash_of mask pr <> h.
Proof.
  intros E Hi. pose proof (last_in_range mask h (take n props)) as Hr. unfold zlen in Hr. rewrite length_take in Hr. split; [lia|].
  intros j pr Hj Hp Hl Hh. assert (Hp' : take n props !! j = Some pr) by (by rewrite lookup_take_lt by lia).
  pose proof (last_in_max mask _ j pr Hp' Hl) as Hm. rewrite Hh in Hm. lia.
Qed.

(** A deleted property leaves its chain. *)
Lemma last_in_delete mask h props i pr0 pr : props !! i = Some pr0 -> live pr = false ->
  last_in mask h (<[i := pr]> props) = if last_in mask h props =? Z.of_nat i + 1 then last_in mask h (take i props) else last_in mask h props.
Proof.
  intros Hi Hl. induction props as [|pr' props IH] using rev_ind; [done|]. apply lookup_app_Some in Hi as [Hi|[Hlt Hi]].
  - pose proof (lookup_lt_Some _ _ _ Hi) as Hlt. rewrite insert_app_l, !last_in_snoc by done.
    rewrite take_app_le by lia. unfold zlen. rewrite length_insert. destruct (_ && _); [|by apply IH].
    destruct (Z.eqb_spec (Z.of_nat (length props) + 1) (Z.of_nat i + 1)); [lia|done].
  - destruct (i - length props)%nat as [|n] eqn:En; [|done]. cbn in Hi. simplify_eq.
    assert (i = length props + 0)%nat as -> by lia. rewrite insert_app_r. cbn. rewrite !last_in_snoc, Hl. cbn.
    rewrite Nat.add_0_r, take_app_length. unfold zlen. destruct (live pr0 && _); [by rewrite Z.eqb_refl|].
    pose proof (last_in_range mask h props) as Hr. unfold zlen in Hr.
    destruct (Z.eqb_spec (last_in mask h props) (Z.of_nat (length props) + 1)); [lia|done].
Qed.

(** ** The table *)

Definition atoms (props : list JSShapeProperty) : list Z := pr_atom <$> filter (fun pr => live pr = true) props.
Definition dead (props : list JSShapeProperty) : Z := zlen (filter (fun pr => live pr = false) props).

(** [tab] is the table of the properties [props]; those from [n] on are in chains of their own. *)
Record chained (mask : Z) (props : list JSShapeProperty) (tab : list Z) : Prop := {
  ch_tab h : 0 <= h <= mask -> tab !! Z.to_nat h = Some (last_in mask h props);
  ch_next i pr : props !! i = Some pr -> live pr = true -> hash_next pr = last_in mask (hash_of mask pr) (take i props) }.

Definition MAX_PROPS : Z := 2 ^ 26.

Record shape_ok (sh : JSShape) : Prop := {
  so_mask : exists k, 0 <= k <= 30 /\ prop_hash_mask sh + 1 = 2 ^ k;
  so_len : zlen (prop_hash sh) = prop_hash_mask sh + 1;
  so_chained : chained (prop_hash_mask sh) (sh_prop sh) (prop_hash sh);
  so_count : prop_count sh <= prop_size sh;
  so_size : 0 <= prop_size sh < MAX_PROPS;
  so_deleted : deleted_prop_count sh = dead (sh_prop sh);
  so_nodup : NoDup (atoms (sh_prop sh));
  so_hash : 0 <= sh_hash sh < 2 ^ 32 }.

Lemma mask_land k x : 0 <= k -> x .& (2 ^ k - 1) = x mod 2 ^ k.
Proof. intros. rewrite <- Z.land_ones by done. by rewrite Z.ones_equiv, Z.sub_1_r. Qed.
Lemma land_mask sh x : shape_ok sh -> 0 <= x .& prop_hash_mask sh <= prop_hash_mask sh.
Proof.
  intros Hs. destruct (so_mask _ Hs) as (k & Hk & E). assert (prop_hash_mask sh = 2 ^ k - 1) as -> by lia.
  rewrite mask_land by lia. pose proof (Z.mod_pos_bound x (2 ^ k) ltac:(lia)). lia.
Qed.

(** ** Lookup *)

Lemma live_elem props pr i : props !! i = Some pr -> live pr = true -> pr_atom pr ∈ atoms props.
Proof.
  intros Hi Hl. unfold atoms. apply list_elem_of_fmap. exists pr. split; [done|]. apply list_elem_of_filter.
  split; [done|]. by eapply list_elem_of_lookup_2.
Qed.

(** The walk over a chain ends at the property of the atom, and then knows the one before, or at the end of the chain. *)
Definition walk_result (sh : JSShape) (atom : Z) (r : option (option Z * Z)) : Prop :=
  match r with
  | None => atom ∉ atoms (sh_prop sh)
  | Some (lpr, i) =>
      exists pr, 0 <= i /\ sh_prop sh !! Z.to_nat i = Some pr /\ pr_atom pr = atom /\
      match lpr with
      | None => last_in (prop_hash_mask sh) (atom .& prop_hash_mask sh) (sh_prop sh) = i + 1
      | Some l => exists pl, i < l /\ sh_prop sh !! Z.to_nat l = Some pl /\ live pl = true /\ hash_of (prop_hash_mask sh) pl = atom .& prop_hash_mask sh /\
                  hash_next pl = i + 1
      end
  end.

Lemma delete_walk_spec sh atom h fuel : shape_ok sh -> atom <> JS_ATOM_NULL ->
  prop_hash sh !! Z.to_nat (atom .& prop_hash_mask sh) = Some h -> (length (sh_prop sh) < fuel)%nat ->
  yields (loop fuel (delete_walk sh atom) (None, h)) (walk_result sh atom).
Proof.
  intros Hs Ha Hh Hf. set (mask := prop_hash_mask sh). set (a := atom .& mask). set (props := sh_prop sh).
  pose proof (so_chained _ Hs) as [Htab Hnext]. fold mask props in Htab, Hnext.
  set (I := fun n (st : option Z * Z) => exists m, (m <= length props)%nat /\ (n = m)%nat /\ st.2 = last_in mask a (take m props) /\
    (forall j pr, (m <= j)%nat -> props !! j = Some pr -> live pr = true -> pr_atom pr <> atom) /\
    match st.1 with
    | None => m = length props
    | Some l => exists pl, l = Z.of_nat m /\ props !! m = Some pl /\ live pl = true /\ hash_of mask pl = a
    end).
  apply (loop_yields_nat (delete_walk sh atom) I _) with (n := length props); [| |done].
  - intros n [lpr x] (m & Hm & -> & Hx & Hno & Hl). cbn [fst snd] in *. unfold delete_walk.
    destruct (Z.eqb_spec x 0) as [->|Hx0].
    + cbn. intros Hin. apply list_elem_of_fmap in Hin as (pr & Ep & Hin). apply list_elem_of_filter in Hin as [Hlv Hin].
      apply list_elem_of_lookup in Hin as [j Hj]. fold props in Hj. destruct (decide (m <= j)%nat) as [Hle|Hlt].
      * by apply (Hno j pr Hle Hj Hlv).
      * assert (Hj' : take m props !! j = Some pr) by (rewrite lookup_take_lt by lia; done).
        pose proof (last_in_max mask _ j pr Hj' Hlv) as Hmx. unfold hash_of in Hmx. rewrite <- Ep in Hmx. fold a in Hmx. lia.
    + pose proof (last_in_range mask a (take m props)) as Hr. unfold zlen in Hr. rewrite length_take in Hr.
      destruct (last_in_pos mask a (take m props) (x - 1)) as (pr & Hp & Hlv & Hhash); [lia|lia|].
      assert (Hp' : props !! Z.to_nat (x - 1) = Some pr) by (rewrite lookup_take_lt in Hp by lia; done).
      assert (Eg : aget (sh_prop sh) (x - 1) = Ret pr) by (apply aget_lookup; split; [lia|done]). rewrite Eg. cbn.
      destruct (last_in_take mask a props m (x - 1)) as [Hlt Hbetween]; [lia|lia|].
      destruct (Z.eqb_spec (pr_atom pr) atom) as [Ea|Ea].
      * cbn. exists pr. split; [lia|]. split; [done|]. split; [done|]. fold mask a props. destruct lpr as [l|].
        -- destruct Hl as (pl & -> & Hpl & Hll & Hlh). exists pl. split; [lia|]. split; [by rewrite Nat2Z.id|]. split; [done|]. split; [done|].
           rewrite (Hnext m pl Hpl Hll), Hlh. lia.
        -- subst m. rewrite firstn_all in Hx. lia.
      * exists (Z.to_nat (x - 1)). split; [lia|]. exists (Z.to_nat (x - 1)). cbn [fst snd]. split; [lia|]. split; [done|]. split.
        { rewrite (Hnext _ pr Hp' Hlv), Hhash. done. }
        split.
        { intros j prj Hj Hpj Hlj Eq. destruct (decide (m <= j)%nat) as [Hle|Hlt']; [by apply (Hno j prj)|].
          destruct (decide (j = Z.to_nat (x - 1))) as [->|Hne]; [congruence|].
          apply (Hbetween j prj); [lia|done..|]. unfold hash_of. by rewrite Eq. }
        exists pr. split; [lia|]. done.
  - exists (length props). cbn. rewrite firstn_all. split; [lia|]. split; [done|]. split.
    + pose proof (land_mask sh atom Hs) as Hb. fold mask a in Hb. specialize (Htab a Hb). fold mask a in Hh. congruence.
    + split; [|done]. intros j pr Hj Hp. apply lookup_lt_Some in Hp. lia.
Qed.

Lemma find_own_walk sh atom fuel lpr h :
  loop fuel (find_own_step sh atom) h = (r ← loop fuel (delete_walk sh atom) (lpr, h); Ret (option_map snd r)).
Proof.
  revert lpr h. induction fuel as [|fuel IH]; intros lpr h; [done|].
  set (f := find_own_step sh atom) in *. set (g := delete_walk sh atom) in *. cbn [loop].
  assert (Ef : f h = if h =? 0 then Ret (inr None) else
    pr ← aget (sh_prop sh) (h - 1); Ret (if pr_atom pr =? atom then inr (Some (h - 1)) else inl (hash_next pr))) by done.
  assert (Eg : g (lpr, h) = if h =? 0 then Ret (inr None) else
    pr ← aget (sh_prop sh) (h - 1); Ret (if pr_atom pr =? atom then inr (Some (lpr, h - 1)) else inl (Some (h - 1), hash_next pr))) by done.
  rewrite Ef, Eg. destruct (h =? 0); [done|]. destruct (aget (sh_prop sh) (h - 1)) as [pr| |]; cbn; [|done..].
  destruct (pr_atom pr =? atom); [done|]. apply IH.
Qed.

(** ** Changes *)

Lemma live_true pr : pr_atom pr <> JS_ATOM_NULL -> live pr = true.
Proof. intros Hp. unfold live. by destruct (Z.eqb_spec (pr_atom pr) JS_ATOM_NULL). Qed.
Lemma live_atom pr : live pr = true -> pr_atom pr <> JS_ATOM_NULL.
Proof. unfold live. by destruct (Z.eqb_spec (pr_atom pr) JS_ATOM_NULL). Qed.

Lemma atoms_app l1 l2 : atoms (l1 ++ l2) = atoms l1 ++ atoms l2.
Proof. unfold atoms. by rewrite list.filter_app, fmap_app. Qed.
Lemma atoms_cons pr props : atoms (pr :: props) = if live pr then pr_atom pr :: atoms props else atoms props.
Proof. unfold atoms. destruct (live pr) eqn:E; [by rewrite filter_cons_True|by rewrite filter_cons_False by congruence]. Qed.
Lemma atoms_ext props props' : pr_atom <$> props = pr_atom <$> props' -> atoms props = atoms props'.
Proof.
  revert props'. induction props as [|pr props IH]; intros [|pr' props'] E; try done. cbn in E. injection E as E1 E2.
  assert (El : live pr = live pr') by (unfold live; by rewrite E1). unfold atoms in *. destruct (live pr') eqn:El'.
  - rewrite !filter_cons_True by done. cbn. f_equal; [done|]. by apply IH.
  - rewrite !filter_cons_False by congruence. by apply IH.
Qed.
Lemma dead_app l1 l2 : dead (l1 ++ l2) = dead l1 + dead l2.
Proof. unfold dead. by rewrite list.filter_app, zlen_app. Qed.
Lemma dead_count props : dead props = zlen props - zlen (atoms props).
Proof.
  unfold dead, atoms, zlen. rewrite length_fmap. induction props as [|pr props IH]; [done|]. destruct (live pr) eqn:E.
  - rewrite (filter_cons_False (fun pr => live pr = false)), (filter_cons_True (fun pr => live pr = true)) by congruence. cbn [length]. lia.
  - rewrite (filter_cons_True (fun pr => live pr = false)), (filter_cons_False (fun pr => live pr = true)) by congruence. cbn [length]. lia.
Qed.

(** A new property is the head of its chain. *)
Lemma chained_snoc mask props tab pr : chained mask props tab -> live pr = true -> 0 <= hash_of mask pr <= mask ->
  hash_next pr = last_in mask (hash_of mask pr) props ->
  chained mask (props ++ [pr]) (<[Z.to_nat (hash_of mask pr) := zlen props + 1]> tab).
Proof.
  intros [Ht Hn] Hl Hr He. split.
  - intros h Hh. rewrite last_in_snoc, Hl. cbn. destruct (Z.eqb_spec (hash_of mask pr) h) as [<-|Hne].
    + apply list_lookup_insert_eq. specialize (Ht _ Hh). by apply lookup_lt_Some in Ht.
    + rewrite list_lookup_insert_ne by lia. by apply Ht.
  - intros i pr' Hi Hl'. apply lookup_app_Some in Hi as [Hi|[Hlt Hi]].
    + pose proof (lookup_lt_Some _ _ _ Hi). rewrite take_app_le by lia. by apply Hn.
    + destruct (i - length props)%nat as [|n] eqn:En; [|done]. cbn in Hi. simplify_eq.
      assert (i = length props) as -> by lia. by rewrite take_app_length.
Qed.

Lemma chained_ext mask props tab : chained mask props tab -> forall props', pr_atom <$> props' = pr_atom <$> props ->
  hash_next <$> props' = hash_next <$> props -> chained mask props' tab.
Proof.
  intros [Ht Hn] props' Ea Eh. split.
  - intros h Hh. rewrite (last_in_ext _ _ _ _ Ea). by apply Ht.
  - intros i pr Hi Hl. assert (Hx : exists pr0, props !! i = Some pr0 /\ pr_atom pr0 = pr_atom pr /\ hash_next pr0 = hash_next pr).
    { apply (f_equal (.!! i)) in Ea, Eh. rewrite !list_lookup_fmap, Hi in *. destruct (props !! i) as [pr0|]; [|done]. cbn in *.
      exists pr0. split; [done|]. split; congruence. }
    destruct Hx as (pr0 & Hi0 & E1 & E2). unfold live, hash_of in *. rewrite <- E1 in *. rewrite <- E2, (Hn i pr0 Hi0 Hl). apply last_in_ext.
    by rewrite !fmap_take, Ea.
Qed.

(** *** Building the table anew *)

Lemma rehash_props_spec k mask props : 0 <= k -> mask = 2 ^ k - 1 -> forall pre tab,
  zlen tab = mask + 1 -> zlen pre + zlen props < MAX_PROPS -> chained mask pre tab ->
  yields (rehash_props mask (zlen pre) props tab) (fun '(tab', props') =>
    zlen tab' = mask + 1 /\ chained mask (pre ++ props') tab' /\
    pr_atom <$> props' = pr_atom <$> props /\ pr_flags <$> props' = pr_flags <$> props).
Proof.
  intros Hk Hm. induction props as [|pr props IH]; intros pre tab Hlen Hmax Hc.
  - cbn. rewrite app_nil_r. done.
  - rewrite zlen_cons in Hmax. cbn [rehash_props]. destruct (Z.eqb_spec (pr_atom pr) JS_ATOM_NULL) as [E0|E0].
    + apply yields_bind. assert (Hc1 : chained mask (pre ++ [pr]) tab).
      { assert (Hd : live pr = false) by (unfold live; by rewrite E0). destruct Hc as [Ht Hn]. split.
        - intros h Hh. rewrite last_in_snoc, Hd. by apply Ht.
        - intros i pr' Hi Hl'. apply lookup_app_Some in Hi as [Hi|[Hlt Hi]].
          + pose proof (lookup_lt_Some _ _ _ Hi). rewrite take_app_le by lia. by apply Hn.
          + destruct (i - length pre)%nat as [|n]; [|done]. cbn in Hi. simplify_eq. congruence. }
      specialize (IH (pre ++ [pr]) tab Hlen). rewrite zlen_app in IH. change (zlen [pr]) with 1 in IH.
      eapply yields_mono; [apply IH; [lia|done]|]. intros [tab' props'] (Hl' & Hch & Ea & Ef). cbn. rewrite <- app_assoc in Hch.
      split; [done|]. split; [done|]. by rewrite Ea, Ef.
    + pose proof (live_true pr E0) as Hl. assert (Hb : 0 <= hash_of mask pr <= mask).
      { unfold hash_of. subst mask. rewrite mask_land by done. pose proof (Z.mod_pos_bound (pr_atom pr) (2 ^ k) ltac:(lia)). lia. }
      change (pr_atom pr .& mask) with (hash_of mask pr). rewrite (proj2 (aget_lookup tab (hash_of mask pr) _) (conj (proj1 Hb) (ch_tab _ _ _ Hc _ Hb))).
      cbn [mbind outcome_bind]. unfold aset. assert (Er : (0 <=? hash_of mask pr) && (hash_of mask pr <? zlen tab) = true) by (apply andb_true_intro; split; lia).
      rewrite Er. cbn [mbind outcome_bind]. pose proof (last_in_range mask (hash_of mask pr) pre) as Hrange. pose proof (zlen_nonneg props).
      set (pr' := MkShapeProperty _ _ _). apply yields_bind.
      assert (Hc1 : chained mask (pre ++ [pr']) (<[Z.to_nat (hash_of mask pr) := zlen pre + 1]> tab)).
      { apply (chained_snoc mask pre tab pr'); [done|done|done|]. change (wrap 26 (last_in mask (hash_of mask pr) pre) = last_in mask (hash_of mask pr) pre). apply wrap_small. unfold MAX_PROPS in Hmax. lia. }
      specialize (IH (pre ++ [pr']) (<[Z.to_nat (hash_of mask pr) := zlen pre + 1]> tab)). rewrite zlen_app in IH. change (zlen [pr']) with 1 in IH.
      eapply yields_mono; [apply IH; [unfold zlen in *; by rewrite length_insert|lia|done]|].
      intros [tab' props'] (Hl' & Hch & Ea & Ef). cbn. rewrite <- app_assoc in Hch. split; [done|]. split; [done|]. by rewrite Ea, Ef.
Qed.

Lemma chained_empty mask : chained mask [] (replicate (Z.to_nat (mask + 1)) 0).
Proof.
  split; [|done]. intros h Hh. rewrite last_in_nil. apply lookup_replicate. split; [done|lia].
Qed.

(** *** Deletion *)

(** The property [i] of the hash [b] is replaced by the dead [dl]; the link to it, in the table or in the property [l], skips it. *)
Section Delete.
Context (mask : Z) (props : list JSShapeProperty) (tab : list Z) (i : nat) (pr dl : JSShapeProperty).
Hypothesis Hc : chained mask props tab.
Hypothesis Hi : props !! i = Some pr.
Hypothesis Hl : live pr = true.
Hypothesis Hdl : live dl = false.
Let b := hash_of mask pr.

Lemma last_in_hash h n : last_in mask h (take n props) = Z.of_nat i + 1 -> h = b.
Proof.
  intros E. destruct (last_in_pos mask h (take n props) (Z.of_nat i)) as (pr' & Hp & _ & Hh); [done|lia|].
  rewrite Nat2Z.id in Hp. apply lookup_take_Some in Hp as [Hp _]. by simplify_eq.
Qed.
Lemma last_in_cut props1 h n : pr_atom <$> props1 = pr_atom <$> props -> (i < n)%nat ->
  last_in mask h (take n (<[i := dl]> props1)) =
  if last_in mask h (take n props) =? Z.of_nat i + 1 then last_in mask h (take i props) else last_in mask h (take n props).
Proof.
  intros Ea Hn. rewrite take_insert_lt by done.
  assert (Hx : exists pr1, props1 !! i = Some pr1).
  { apply (f_equal (.!! i)) in Ea. rewrite !list_lookup_fmap, Hi in Ea. destruct (props1 !! i); [by eexists|done]. }
  destruct Hx as [pr1 Hx]. rewrite (last_in_delete mask h (take n props1) i pr1 dl) by (try done; by rewrite lookup_take_lt).
  rewrite take_take, Nat.min_l by lia.
  rewrite (last_in_ext mask h (take n props1) (take n props)), (last_in_ext mask h (take i props1) (take i props)); [done|by rewrite !fmap_take, Ea..].
Qed.
Lemma below j pr' : props !! j = Some pr' -> live pr' = true -> hash_of mask pr' = b -> forall n, (j < n)%nat ->
  Z.of_nat j + 1 <= last_in mask b (take n props).
Proof. intros Hj Hlj Hh n Hn. rewrite <- Hh. apply (last_in_max mask _ j pr'); [by rewrite lookup_take_lt|done]. Qed.

Lemma chained_delete_head : 0 <= b -> last_in mask b props = Z.of_nat i + 1 ->
  chained mask (<[i := dl]> props) (<[Z.to_nat b := hash_next pr]> tab).
Proof.
  intros Hb0 Hhd. pose proof (lookup_lt_Some _ _ _ Hi) as Hlt. rewrite <- (firstn_all props) in Hhd. split.
  - intros h Hh. rewrite <- (firstn_all (<[i := dl]> props)), length_insert, last_in_cut by done.
    destruct (decide (h = b)) as [->|Hne].
    + rewrite Hhd, Z.eqb_refl. rewrite list_lookup_insert_eq by (pose proof (ch_tab _ _ _ Hc _ Hh) as E; by apply lookup_lt_Some in E).
      by rewrite (ch_next _ _ _ Hc i pr Hi Hl).
    + rewrite list_lookup_insert_ne by lia.
      destruct (Z.eqb_spec (last_in mask h (take (length props) props)) (Z.of_nat i + 1)) as [E|E]; [by apply last_in_hash in E|].
      rewrite firstn_all. by apply Hc.
  - intros j prj Hj Hlj. destruct (decide (j = i)) as [->|Hne]; [rewrite list_lookup_insert_eq in Hj by done; congruence|].
    rewrite list_lookup_insert_ne in Hj by done. destruct (decide (j < i)%nat) as [Hji|Hji].
    + rewrite take_insert_ge by lia. by apply Hc.
    + rewrite last_in_cut by (done || lia). rewrite (ch_next _ _ _ Hc j prj Hj Hlj).
      destruct (Z.eqb_spec (last_in mask (hash_of mask prj) (take j props)) (Z.of_nat i + 1)) as [E|E]; [|done].
      apply last_in_hash in E as Hb. pose proof (lookup_lt_Some _ _ _ Hj). pose proof (below j prj Hj Hlj Hb (length props)) as Hbe.
      rewrite Hhd in Hbe. lia.
Qed.

Lemma chained_delete_next l pl : (i < l)%nat -> props !! l = Some pl -> live pl = true -> hash_of mask pl = b -> hash_next pl = Z.of_nat i + 1 ->
  chained mask (<[i := dl]> (<[l := MkShapeProperty (hash_next pr) (pr_flags pl) (pr_atom pl)]> props)) tab.
Proof.
  intros Hil Hpl Hll Hlh Hln. pose proof (lookup_lt_Some _ _ _ Hpl) as Hlt. rewrite (ch_next _ _ _ Hc l pl Hpl Hll), Hlh in Hln.
  set (pl' := MkShapeProperty _ _ _). assert (Ea : pr_atom <$> (<[l := pl']> props) = pr_atom <$> props).
  { rewrite list_fmap_insert. apply list_insert_id. by rewrite list_lookup_fmap, Hpl. }
  split.
  - intros h Hh. rewrite <- (firstn_all (<[i := dl]> (<[l := pl']> props))), !length_insert, last_in_cut by (done || lia).
    destruct (Z.eqb_spec (last_in mask h (take (length props) props)) (Z.of_nat i + 1)) as [E|E]; [|rewrite firstn_all; by apply Hc].
    apply last_in_hash in E as Hb. subst h. pose proof (below l pl Hpl Hll Hlh (length props)). lia.
  - intros j prj Hj Hlj. destruct (decide (j = i)) as [->|Hne]; [rewrite list_lookup_insert_eq in Hj by (rewrite length_insert; lia); congruence|].
    rewrite list_lookup_insert_ne in Hj by done. destruct (decide (j < i)%nat) as [Hji|Hji].
    + rewrite take_insert_ge by lia. rewrite list_lookup_insert_ne in Hj by lia. rewrite take_insert_ge by lia. by apply Hc.
    + rewrite last_in_cut by (done || lia). destruct (decide (j = l)) as [->|Hjl].
      * rewrite list_lookup_insert_eq in Hj by done. assert (prj = pl') as -> by congruence. change (hash_next pl') with (hash_next pr). change (hash_of mask pl') with (hash_of mask pl).
        rewrite Hlh, Hln, Z.eqb_refl. by apply (ch_next _ _ _ Hc).
      * rewrite list_lookup_insert_ne in Hj by done. rewrite (ch_next _ _ _ Hc j prj Hj Hlj).
        destruct (Z.eqb_spec (last_in mask (hash_of mask prj) (take j props)) (Z.of_nat i + 1)) as [E|E]; [|done].
        apply last_in_hash in E as Hb. destruct (decide (j < l)%nat) as [Hjl'|Hjl'].
        -- pose proof (below j prj Hj Hlj Hb l). lia.
        -- rewrite Hb in E. pose proof (below l pl Hpl Hll Hlh j). lia.
Qed.
End Delete.

(** ** The list of properties *)

Definition entries (props : list JSShapeProperty) (vs : list (option JSPropertyU)) : list (Z * Z * option JSPropertyU) :=
  (fun '(pr, v) => (pr_atom pr, pr_flags pr, v)) <$> filter (fun pv => live pv.1 = true) (zip props vs).

Lemma entries_nil vs : entries [] vs = [].
Proof. done. Qed.
Lemma entries_cons pr props v vs :
  entries (pr :: props) (v :: vs) = if live pr then (pr_atom pr, pr_flags pr, v) :: entries props vs else entries props vs.
Proof.
  unfold entries. change (zip (pr :: props) (v :: vs)) with ((pr, v) :: zip props vs).
  destruct (live pr) eqn:E; [by rewrite filter_cons_True|by rewrite filter_cons_False by (cbn; congruence)].
Qed.
Lemma entries_ext props props' vs vs' : pr_atom <$> props' = pr_atom <$> props -> pr_flags <$> props' = pr_flags <$> props ->
  (exists l l', vs = take (length props) vs ++ l /\ vs' = take (length props) vs ++ l') -> (length props <= length vs)%nat ->
  entries props' vs' = entries props vs.
Proof.
  intros Ea Ef (l & l' & El & El') Hlen. rewrite El, El'. clear El El'. remember (take (length props) vs) as ws.
  assert (Hw : length ws = length props) by (subst ws; rewrite length_take; lia). clear Heqws Hlen vs vs'.
  revert props' ws Ea Ef Hw. induction props as [|pr props IH]; intros [|pr' props'] [|w ws] Ea Ef Hw; try done.
  cbn in Ea, Ef, Hw. injection Ea as E1 Ea. injection Ef as E2 Ef. cbn [app]. rewrite !entries_cons. unfold live. rewrite E1, E2.
  destruct (negb _); [f_equal|]; apply IH; done || lia.
Qed.
Lemma entries_app l1 l2 vs1 vs2 : length vs1 = length l1 -> entries (l1 ++ l2) (vs1 ++ vs2) = entries l1 vs1 ++ entries l2 vs2.
Proof. intros Hl. unfold entries. rewrite zip_with_app by done. by rewrite list.filter_app, fmap_app. Qed.

Lemma entries_atoms props vs : (length props <= length vs)%nat -> (fun e => e.1.1) <$> entries props vs = atoms props.
Proof.
  revert vs. induction props as [|pr props IH]; intros [|v vs] Hl; cbn in Hl; try lia; [done|done|]. rewrite entries_cons. unfold atoms in *.
  destruct (live pr) eqn:E; [rewrite filter_cons_True by done|rewrite filter_cons_False by congruence].
  - cbn. f_equal. apply IH. lia.
  - apply IH. lia.
Qed.

Lemma entries_lookup props vs i pr v : props !! i = Some pr -> live pr = true -> vs !! i = Some v -> (pr_atom pr, pr_flags pr, v) ∈ entries props vs.
Proof.
  intros Hp Hl Hv. unfold entries. apply list_elem_of_fmap. exists (pr, v). split; [done|]. apply list_elem_of_filter. split; [done|].
  apply (list_elem_of_lookup_2 _ i). apply lookup_zip_with_Some. by exists pr, v.
Qed.

(** Without the property of one atom. *)
Definition without_atom (a : Z) (l : list (Z * Z * option JSPropertyU)) : list (Z * Z * option JSPropertyU) := filter (fun e => e.1.1 <> a) l.

(** The entry of one property, which may be exchanged. *)
Lemma entries_at props vs i pr : NoDup (atoms props) -> (length props <= length vs)%nat -> props !! i = Some pr -> live pr = true ->
  exists l1 l2 w, vs !! i = Some w /\ entries props vs = l1 ++ (pr_atom pr, pr_flags pr, w) :: l2 /\
    Forall (fun e => e.1.1 <> pr_atom pr) l1 /\ Forall (fun e => e.1.1 <> pr_atom pr) l2 /\
    forall pr' v', entries (<[i := pr']> props) (<[i := v']> vs) = l1 ++ (if live pr' then [(pr_atom pr', pr_flags pr', v')] else []) ++ l2.
Proof.
  intros Hnd Hlen Hi Hl. pose proof (lookup_lt_Some _ _ _ Hi) as Hlt. destruct (lookup_lt_is_Some_2 vs i) as [w Hw]; [lia|].
  pose proof (take_drop_middle props i pr Hi) as Ep. pose proof (take_drop_middle vs i w Hw) as Ev.
  set (p1 := take i props) in *. set (p2 := drop (S i) props) in *. set (v1 := take i vs) in *. set (v2 := drop (S i) vs) in *.
  assert (L1 : length p1 = i) by (subst p1; rewrite length_take; lia). assert (L2 : length v1 = i) by (subst v1; rewrite length_take; lia).
  assert (L3 : (length p2 <= length v2)%nat) by (subst p2 v2; rewrite !length_drop; lia). clearbody p1 p2 v1 v2. subst props vs.
  rewrite !atoms_app in Hnd. change (pr :: p2) with ([pr] ++ p2) in Hnd. rewrite atoms_app in Hnd.
  assert (Ha : atoms [pr] = [pr_atom pr]) by (unfold atoms; by rewrite filter_cons_True). rewrite Ha in Hnd.
  apply list.NoDup_app in Hnd as (_ & Hd1 & Hnd). apply list.NoDup_cons in Hnd as [Hd2 _].
  assert (Hid : forall q ws, (length q <= length ws)%nat -> pr_atom pr ∉ atoms q -> Forall (fun e => e.1.1 <> pr_atom pr) (entries q ws)).
  { intros q ws Hq Hn. apply list.Forall_forall. intros e He Ee. apply Hn. rewrite <- Ee, <- (entries_atoms q ws Hq). apply list_elem_of_fmap. by exists e. }
  exists (entries p1 v1), (entries p2 v2), w. split; [done|]. split; [|split; [|split]].
  - rewrite entries_app by lia. by rewrite entries_cons, Hl.
  - apply Hid; [lia|]. intros Hin. apply (Hd1 _ Hin). constructor.
  - by apply Hid.
  - intros pr' v'. rewrite <- L1 at 1. rewrite <- L2. rewrite <- (Nat.add_0_r (length p1)), <- (Nat.add_0_r (length v1)), !insert_app_r.
    change (<[0%nat := pr']> (pr :: p2)) with (pr' :: p2). change (<[0%nat := v']> (w :: v2)) with (v' :: v2).
    rewrite entries_app by lia. rewrite entries_cons. by destruct (live pr').
Qed.

Lemma entries_delete props vs i pr dl v : NoDup (atoms props) -> (length props <= length vs)%nat ->
  props !! i = Some pr -> live pr = true -> live dl = false ->
  entries (<[i := dl]> props) (<[i := v]> vs) = without_atom (pr_atom pr) (entries props vs).
Proof.
  intros Hnd Hlen Hi Hl Hd. destruct (entries_at _ _ _ _ Hnd Hlen Hi Hl) as (l1 & l2 & w & _ & -> & H1 & H2 & ->). rewrite Hd. unfold without_atom.
  rewrite list.filter_app, filter_cons_False by (cbn; tauto). by rewrite !filter_all_id.
Qed.

(** Without the dead properties. *)
Lemma entries_compact props vs props' l : (length props <= length vs)%nat ->
  pr_atom <$> props' = pr_atom <$> filter (fun pr => pr_atom pr <> JS_ATOM_NULL) props ->
  pr_flags <$> props' = pr_flags <$> filter (fun pr => pr_atom pr <> JS_ATOM_NULL) props ->
  entries props' (compact_values props vs ++ l) = entries props vs /\ length (compact_values props vs) = length props'.
Proof.
  revert vs props'. induction props as [|pr props IH]; intros [|v vs] props' Hl Ea Ef; cbn in Hl; try lia.
  - by apply fmap_nil_inv in Ea as ->.
  - by apply fmap_nil_inv in Ea as ->.
  - cbn [compact_values]. rewrite entries_cons. unfold live. destruct (Z.eqb_spec (pr_atom pr) JS_ATOM_NULL) as [E|E].
    + rewrite filter_cons_False in Ea, Ef by tauto. cbn [negb]. apply IH; [lia|done..].
    + rewrite filter_cons_True in Ea, Ef by done. destruct props' as [|pr' props']; [done|]. cbn in Ea, Ef. injection Ea as E1 Ea.
      injection Ef as E2 Ef. destruct (IH vs props' ltac:(lia) Ea Ef) as [He Hlen]. cbn [negb app length]. rewrite entries_cons.
      unfold live. rewrite E1, E2. destruct (Z.eqb_spec (pr_atom pr) JS_ATOM_NULL) as [|_]; [done|]. cbn [negb]. rewrite He. split; [done|lia].
Qed.
