(* ===== verification/ShapeHash.v ===== *)
(** * The hash table of shapes

    [table_ok X]: the chain of every entry links exactly the shapes in [X] of that hash.  Linking, unlinking, growing the table and searching it
    preserve this; they change shapes in the link only ([strip]). *)

From stdpp Require Import gmap.
From S2P Require Import Prelude Cutils Alloc GcHeap Shape ShapeProps.
#[local] Open Scope Z_scope.

Definition strip (sh : JSShape) : JSShape := set_next 0 sh.
Definition same_shapes (s s' : gmap Z JSShape) : Prop := strip <$> s' = strip <$> s.

Lemma same_refl s : same_shapes s s.
Proof. done. Qed.
Lemma same_trans s1 s2 s3 : same_shapes s1 s2 -> same_shapes s2 s3 -> same_shapes s1 s3.
Proof. unfold same_shapes. congruence. Qed.
Lemma same_sym s s' : same_shapes s s' -> same_shapes s' s.
Proof. done. Qed.
Lemma same_lookup s s' p sh : same_shapes s s' -> s !! p = Some sh -> exists n, s' !! p = Some (set_next n sh).
Proof.
  intros E Hp. apply (f_equal (.!! p)) in E. rewrite !lookup_fmap, Hp in E. destruct (s' !! p) as [sh'|] eqn:E'; [|done].
  cbn in E. exists (shape_hash_next sh'). f_equal. injection E as Er Ec Es Eh Em Ez Ed Ep Et Epr. destruct sh, sh'. cbn in *. by subst.
Qed.
Lemma same_none s s' p : same_shapes s s' -> s !! p = None -> s' !! p = None.
Proof. intros E Hp. apply (f_equal (.!! p)) in E. rewrite !lookup_fmap, Hp in E. by destruct (s' !! p). Qed.
Lemma same_next s p sh n : s !! p = Some sh -> same_shapes s (<[p := set_next n sh]> s).
Proof.
  intros Hp. unfold same_shapes. rewrite fmap_insert. apply insert_id. by rewrite lookup_fmap, Hp.
Qed.
Lemma same_insert s s' p sh : same_shapes s s' -> same_shapes (<[p := sh]> s) (<[p := sh]> s').
Proof. unfold same_shapes. intros E. by rewrite !fmap_insert, E. Qed.
Lemma same_delete s s' p : same_shapes s s' -> same_shapes (delete p s) (delete p s').
Proof. unfold same_shapes. intros E. by rewrite !fmap_delete, E. Qed.
Lemma same_dom s s' : same_shapes s s' -> dom s' = dom s.
Proof. intros E. apply (f_equal dom) in E. by rewrite !dom_fmap_L in E. Qed.
Lemma same_size s s' : same_shapes s s' -> size s' = size s.
Proof. intros E. rewrite <- !size_dom. by rewrite (same_dom _ _ E). Qed.

(** ** Chains *)

Fixpoint chain (s : gmap Z JSShape) (p : Z) (l : list Z) : Prop :=
  match l with
  | [] => p = 0
  | x :: l => p = x /\ x <> 0 /\ exists sh, s !! x = Some sh /\ chain s (shape_hash_next sh) l
  end.
Definition bucket (bits : Z) (sh : JSShape) : Z := get_shape_hash (sh_hash sh) bits.

Lemma chain_dom s p l x : chain s p l -> x ∈ l -> is_Some (s !! x).
Proof.
  revert p. induction l as [|y l IH]; intros p Hc Hx; [by apply elem_of_nil in Hx|]. destruct Hc as (-> & Hy & sh & Es & Hc).
  apply elem_of_cons in Hx as [->|Hx]; [by exists sh|by eapply IH].
Qed.
Lemma chain_nonzero s p l x : chain s p l -> x ∈ l -> x <> 0.
Proof.
  revert p. induction l as [|y l IH]; intros p Hc Hx; [by apply elem_of_nil in Hx|]. destruct Hc as (-> & Hy & sh & Es & Hc).
  apply elem_of_cons in Hx as [->|Hx]; [done|by eapply IH].
Qed.
Lemma chain_frame s s' p l : chain s p l ->
  (forall x sh, x ∈ l -> s !! x = Some sh -> exists sh', s' !! x = Some sh' /\ shape_hash_next sh' = shape_hash_next sh) -> chain s' p l.
Proof.
  revert p. induction l as [|y l IH]; intros p Hc Hs; [done|]. destruct Hc as (-> & Hy & sh & Es & Hc). split; [done|]. split; [done|].
  destruct (Hs y sh) as (sh' & Es' & En); [constructor|done|]. exists sh'. split; [done|]. rewrite En. apply IH; [done|].
  intros x shx Hx. apply Hs. by constructor.
Qed.
Lemma chain_insert s p l q sh : chain s p l -> q ∉ l -> chain (<[q := sh]> s) p l.
Proof.
  intros Hc Hq. apply (chain_frame s); [done|]. intros x shx Hx Es. exists shx. split; [|done].
  rewrite lookup_insert_ne; [done|]. by intros ->.
Qed.
Lemma shape_chain_app s p l1 x l2 : chain s p (l1 ++ x :: l2) -> exists sh, s !! x = Some sh /\ chain s (shape_hash_next sh) l2.
Proof.
  revert p. induction l1 as [|y l1 IH]; intros p Hc.
  - destruct Hc as (_ & _ & sh & Es & Hc). by exists sh.
  - destruct Hc as (_ & _ & sh & _ & Hc). by eapply IH.
Qed.
(** The link behind [q] is changed. *)
Lemma chain_splice s p l1 q l2 l2' shq n : chain s p (l1 ++ q :: l2) -> NoDup (l1 ++ q :: l2) -> s !! q = Some shq ->
  chain (<[q := set_next n shq]> s) n l2' -> chain (<[q := set_next n shq]> s) p (l1 ++ q :: l2').
Proof.
  revert p. induction l1 as [|y l1 IH]; intros p Hc Hnd Hq Hc'.
  - destruct Hc as (-> & Hq0 & _). split; [done|]. split; [done|]. exists (set_next n shq). by rewrite lookup_insert_eq.
  - destruct Hc as (-> & Hy & sh & Es & Hc). cbn in Hnd. apply list.NoDup_cons in Hnd as [Hyl Hnd]. split; [done|]. split; [done|].
    exists sh. rewrite lookup_insert_ne; [split; [done|by apply IH]|]. intros ->. apply Hyl. rewrite elem_of_app. right. constructor.
Qed.
Lemma chain_length s p l : chain s p l -> NoDup l -> (length l <= size s)%nat.
Proof.
  intros Hc Hnd. rewrite <- (size_list_to_set (C := gset Z) l Hnd), <- size_dom. apply subseteq_size. intros x Hx.
  apply elem_of_list_to_set in Hx. apply elem_of_dom. by eapply chain_dom.
Qed.

(** ** The table *)

Record table_ok (X : Z -> Prop) (s : gmap Z JSShape) (tab : list Z) (bits : Z) : Prop := {
  tb_bits : 0 <= bits <= 30;
  tb_len : zlen tab = 2 ^ bits;
  tb_chain b : 0 <= b < 2 ^ bits -> exists head l, tab !! Z.to_nat b = Some head /\ chain s head l /\ NoDup l /\
    forall p, p ∈ l <-> X p /\ exists sh, s !! p = Some sh /\ bucket bits sh = b }.

Definition shapes_ok (s : gmap Z JSShape) : Prop := forall p sh, s !! p = Some sh -> p <> 0 /\ 0 <= sh_hash sh < 2 ^ 32.

Lemma bucket_range bits sh : 0 <= bits <= 30 -> 0 <= sh_hash sh < 2 ^ 32 -> 0 <= bucket bits sh < 2 ^ bits.
Proof.
  intros Hb Hh. unfold bucket, get_shape_hash. rewrite shiftr_div by lia. split; [apply Z.div_pos; lia|].
  apply Z.div_lt_upper_bound; [lia|]. rewrite <- Z.pow_add_r by lia. replace (32 - bits + bits) with 32 by lia. lia.
Qed.

Lemma table_ok_ext X X' s tab bits : (forall p, is_Some (s !! p) -> X p <-> X' p) -> table_ok X s tab bits -> table_ok X' s tab bits.
Proof.
  intros HX [Hb Hl Hc]. split; [done|done|]. intros b Hr. destruct (Hc b Hr) as (head & l & Et & Hch & Hnd & Hin).
  exists head, l. split; [done|]. split; [done|]. split; [done|]. intros p. rewrite Hin.
  split; (intros [Hx (sh & Es & Eb)]; split; [apply HX; [by exists sh|done]|by exists sh]).
Qed.

(** Shapes that are not linked may change. *)
Lemma table_ok_frame X s s' tab bits : table_ok X s tab bits ->
  (forall p, X p -> s' !! p = s !! p) -> table_ok X s' tab bits.
Proof.
  intros [Hb Hl Hc] Hs. split; [done|done|]. intros b Hr. destruct (Hc b Hr) as (head & l & Et & Hch & Hnd & Hin).
  exists head, l. split; [done|]. split.
  { apply (chain_frame s); [done|]. intros x sh Hx Es. exists sh. split; [|done]. rewrite Hs; [done|]. by apply Hin in Hx as [? _]. }
  split; [done|]. intros p. rewrite Hin. split; (intros [Hx (sh & Es & Eb)]; split; [done|exists sh; split; [|done]]); [by rewrite Hs|by rewrite <- Hs].
Qed.
(** So may linked shapes, except in link and hash. *)
Lemma table_ok_insert X s tab bits p sh sh' : table_ok X s tab bits -> s !! p = Some sh ->
  shape_hash_next sh' = shape_hash_next sh -> sh_hash sh' = sh_hash sh -> table_ok X (<[p := sh']> s) tab bits.
Proof.
  intros [Hb Hl Hc] Es En Eh. split; [done|done|]. intros b Hr. destruct (Hc b Hr) as (head & l & Et & Hch & Hnd & Hin).
  exists head, l. split; [done|]. split.
  { apply (chain_frame s); [done|]. intros x shx Hx Ex. destruct (decide (x = p)) as [->|Hne].
    - rewrite lookup_insert_eq. exists sh'. split; [done|]. congruence.
    - rewrite lookup_insert_ne by done. by exists shx. }
  split; [done|]. intros q. rewrite Hin. destruct (decide (q = p)) as [->|Hne].
  - rewrite lookup_insert_eq. unfold bucket. split; (intros [Hx (shx & Ex & Eb)]; split; [done|]); simplify_eq.
    + exists sh'. by rewrite Eh.
    + exists sh. by rewrite <- Eh.
  - by rewrite lookup_insert_ne by done.
Qed.

Definition with_p (p : Z) (X : Z -> Prop) : Z -> Prop := fun q => q = p \/ X q.
Definition minus_p (p : Z) (X : Z -> Prop) : Z -> Prop := fun q => q <> p /\ X q.

(** A shape in front of its chain. *)
Lemma table_ok_push X s tab bits p sh next : table_ok X s tab bits -> s !! p = Some sh -> p <> 0 -> ~ X p -> 0 <= sh_hash sh < 2 ^ 32 ->
  tab !! Z.to_nat (bucket bits sh) = Some next ->
  table_ok (with_p p X) (<[p := set_next next sh]> s) (<[Z.to_nat (bucket bits sh) := p]> tab) bits.
Proof.
  intros Ht Es Hp HX Hh Et. pose proof Ht as [Hb Hl Hc]. pose proof (bucket_range bits sh Hb Hh) as Hr. split; [done|unfold zlen in *; by rewrite length_insert|].
  intros b Hbr. destruct (Hc b Hbr) as (head & l & Etb & Hch & Hnd & Hin).
  assert (Hpl : p ∉ l) by (intros Hpl; apply Hin in Hpl as [? _]; done). destruct (decide (b = bucket bits sh)) as [->|Hne].
  - assert (head = next) as -> by congruence. exists p, (p :: l). split; [apply list_lookup_insert_eq; by apply lookup_lt_Some in Et|]. split.
    { split; [done|]. split; [done|]. exists (set_next next sh). rewrite lookup_insert_eq. split; [done|]. by apply chain_insert. }
    split; [by apply list.NoDup_cons|]. intros q. rewrite elem_of_cons, Hin. unfold with_p. destruct (decide (q = p)) as [->|Hq].
    + rewrite lookup_insert_eq. split; [|by left]. intros _. split; [by left|]. by exists (set_next next sh).
    + rewrite lookup_insert_ne by done. tauto.
  - exists head, l. split; [rewrite list_lookup_insert_ne by lia; done|]. split; [by apply chain_insert|]. split; [done|].
    intros q. rewrite Hin. unfold with_p. destruct (decide (q = p)) as [->|Hq].
    + rewrite lookup_insert_eq. split; [tauto|]. intros [_ (sh' & E & Eb)]. simplify_eq.
    + rewrite lookup_insert_ne by done. tauto.
Qed.

Section Hash.
Context `{Malloc}.

(** What the operations on the table may change. *)
Definition retabled (rt rt' : Runtime) : Prop := exists s tab n,
  rt' = set_table tab (shape_hash_bits rt) (shape_hash_size rt) n (set_shapes s rt) /\ same_shapes (shapes rt) s.
Definition rt_table (X : Z -> Prop) (rt : Runtime) : Prop :=
  table_ok X (shapes rt) (hash_table rt) (shape_hash_bits rt) /\ shape_hash_size rt = 2 ^ shape_hash_bits rt.

Lemma get_shape_eq p sh rt : shapes rt !! p = Some sh -> get_shape p rt = Ret sh.
Proof. intros E. unfold get_shape. by rewrite E. Qed.
Lemma get_object_eq p o rt : objects rt !! p = Some o -> get_object p rt = Ret o.
Proof. intros E. unfold get_object. by rewrite E. Qed.

Lemma aget_some {A} (l : list A) i a : 0 <= i -> l !! Z.to_nat i = Some a -> aget l i = Ret a.
Proof. intros. apply aget_lookup. done. Qed.
Lemma aset_some {A} (l : list A) i a : 0 <= i < zlen l -> aset l i a = Ret (<[Z.to_nat i := a]> l).
Proof. intros Hi. unfold aset. by rewrite (proj2 (andb_true_iff _ _)) by (split; lia). Qed.

Lemma link_spec X p sh rt : rt_table X rt -> shapes_ok (shapes rt) -> shapes rt !! p = Some sh -> ~ X p ->
  yields (js_shape_hash_link p rt) (fun rt' => retabled rt rt' /\ rt_table (with_p p X) rt').
Proof.
  intros [Ht Hs] Hok Es HX. destruct (Hok _ _ Es) as [Hp Hh]. pose proof (bucket_range _ sh (tb_bits _ _ _ _ Ht) Hh) as Hr.
  destruct (tb_chain _ _ _ _ Ht _ Hr) as (head & l & Et & _). unfold js_shape_hash_link. rewrite (get_shape_eq _ _ _ Es). cbn [mbind outcome_bind].
  change (get_shape_hash _ _) with (bucket (shape_hash_bits rt) sh). rewrite (aget_some _ _ _ (proj1 Hr) Et). cbn [mbind outcome_bind].
  rewrite aset_some by (rewrite (tb_len _ _ _ _ Ht); lia). cbn. split.
  - eexists _, _, _. split; [reflexivity|]. by apply same_next.
  - split; [|done]. by apply table_ok_push.
Qed.

(** ** Unlinking *)

(** The walk stops behind the elements in front of [p]. *)
Lemma unlink_walk p head rt l1 l2 fuel : chain (shapes rt) head (l1 ++ p :: l2) -> NoDup (l1 ++ p :: l2) -> (S (length l1) < fuel)%nat ->
  yields (loop fuel (unlink_step p head rt) None) (fun psh => psh = list.last l1).
Proof.
  intros Hc Hnd Hf.
  apply (loop_yields_nat (unlink_step p head rt) (fun n psh => exists done rest, l1 = done ++ rest /\ psh = list.last done /\ n = length rest) _)
    with (n := length l1); [|by exists [], l1|lia].
  intros n psh (dn & rest & El & -> & ->). unfold unlink_step.
  assert (Hcur : yields (match list.last dn with None => mret head | Some q => sh ← get_shape q rt; mret (shape_hash_next sh) end)
                   (fun cur => chain (shapes rt) cur (rest ++ p :: l2))).
  { destruct dn as [|x dn _] using rev_ind.
    - cbn. subst l1. done.
    - rewrite last_snoc. rewrite El, <- !app_assoc in Hc. destruct (shape_chain_app _ _ _ _ _ Hc) as (sh & Es & Hc').
      rewrite (get_shape_eq _ _ _ Es). done. }
  apply yields_bind. eapply yields_mono; [exact Hcur|]. intros cur Hch. cbn beta. clear Hcur. destruct rest as [|x rest].
  - destruct Hch as (-> & _). rewrite Z.eqb_refl. cbn. by rewrite El, app_nil_r.
  - destruct Hch as (-> & Hx & _). destruct (Z.eqb_spec x p) as [->|Hne].
    + exfalso. rewrite El, <- app_assoc in Hnd. apply list.NoDup_app in Hnd as (_ & _ & Hnd). cbn in Hnd.
      apply list.NoDup_cons in Hnd as [Hnd _]. apply Hnd. rewrite elem_of_app. right. constructor.
    + destruct (Z.eqb_spec x 0); [done|]. cbn. exists (length rest). split; [lia|]. exists (dn ++ [x]), rest.
      rewrite <- app_assoc, last_snoc. done.
Qed.

(** The shape [p] is skipped by the link in front of it. *)
Lemma table_ok_unlink X s tab bits p sh b head l1 l2 : table_ok X s tab bits -> s !! p = Some sh -> bucket bits sh = b ->
  tab !! Z.to_nat b = Some head -> chain s head (l1 ++ p :: l2) -> NoDup (l1 ++ p :: l2) -> 0 <= b ->
  (forall q, q ∈ l1 ++ p :: l2 <-> X q /\ exists sh, s !! q = Some sh /\ bucket bits sh = b) -> forall s' tab',
  same_shapes s s' -> zlen tab' = zlen tab -> (forall b', b' <> b -> 0 <= b' -> tab' !! Z.to_nat b' = tab !! Z.to_nat b') ->
  (forall q, q ∉ l1 -> s' !! q = s !! q) ->
  (exists head', tab' !! Z.to_nat b = Some head' /\ chain s' head' (l1 ++ l2)) -> table_ok (minus_p p X) s' tab' bits.
Proof.
  intros [Hb Hlen Hc] Es Eb Et Hch Hnd Hb0 Hin s' tab' Hsame Hlen' Htab Hs' (head' & Et' & Hch'). split; [done|by rewrite Hlen'|].
  assert (Hmem : forall q b', (exists sh, s' !! q = Some sh /\ bucket bits sh = b') <-> (exists sh, s !! q = Some sh /\ bucket bits sh = b')).
  { intros q b'. split; intros (shq & Eq & Ebq).
    - destruct (same_lookup _ _ _ _ (same_sym _ _ Hsame) Eq) as [n E]. by exists (set_next n shq).
    - destruct (same_lookup _ _ _ _ Hsame Eq) as [n E]. by exists (set_next n shq). }
  intros b' Hr. destruct (decide (b' = b)) as [->|Hne].
  - exists head', (l1 ++ l2). split; [done|]. split; [done|]. rewrite <- Permutation_middle in Hnd. apply list.NoDup_cons in Hnd as [Hp Hnd].
    split; [done|]. intros q. rewrite Hmem. unfold minus_p. specialize (Hin q). rewrite elem_of_app, elem_of_cons in Hin. rewrite elem_of_app.
    split.
    + intros Hq. split; [|apply Hin; tauto]. split; [|apply Hin; tauto]. intros ->. apply Hp. by rewrite elem_of_app.
    + intros [[Hqp Hx] Hq]. destruct Hin as [_ Hin]. destruct (Hin (conj Hx Hq)) as [?|[?|?]]; tauto.
  - destruct (Hc b' Hr) as (head2 & l & E2 & Hch2 & Hnd2 & Hin2). exists head2, l. rewrite Htab by (done || lia). split; [done|]. split.
    { apply (chain_frame s); [done|]. intros x shx Hx Ex. exists shx. split; [|done]. rewrite Hs'; [done|]. intros Hx1.
      apply Hin2 in Hx as [_ (shx' & Ex' & Ebx)]. destruct (proj1 (Hin x)) as [_ (shx2 & Ex2 & Ebx2)]; [rewrite elem_of_app; by left|]. congruence. }
    split; [done|]. intros q. rewrite Hin2, Hmem. unfold minus_p. split; [|tauto]. intros [Hx Hq]. split; [|done]. split; [|done]. intros ->.
    destruct Hq as (sh' & Es' & Eb'). congruence.
Qed.

Lemma unlink_spec X p sh rt : rt_table X rt -> shapes_ok (shapes rt) -> shapes rt !! p = Some sh -> X p ->
  yields (js_shape_hash_unlink p rt) (fun rt' => retabled rt rt' /\ rt_table (minus_p p X) rt').
Proof.
  intros [Ht Hs] Hok Es HX. destruct (Hok _ _ Es) as [Hp Hh]. pose proof (bucket_range _ sh (tb_bits _ _ _ _ Ht) Hh) as Hr.
  destruct (tb_chain _ _ _ _ Ht _ Hr) as (head & l & Et & Hch & Hnd & Hin). assert (Hpl : p ∈ l) by (apply Hin; split; [done|by exists sh]).
  apply list_elem_of_split in Hpl as (l1 & l2 & ->). pose proof (chain_length _ _ _ Hch Hnd) as Hlen. rewrite length_app in Hlen. cbn in Hlen.
  unfold js_shape_hash_unlink. rewrite (get_shape_eq _ _ _ Es). cbn [mbind outcome_bind].
  change (get_shape_hash _ _) with (bucket (shape_hash_bits rt) sh). rewrite (aget_some _ _ _ (proj1 Hr) Et). cbn [mbind outcome_bind].
  apply yields_bind. eapply yields_mono; [by apply (unlink_walk p head rt l1 l2); [| |lia]|]. intros psh ->. cbn beta.
  destruct (shape_chain_app _ _ _ _ _ Hch) as (sh' & Es' & Hc2). assert (sh' = sh) as -> by congruence. clear Es'.
  assert (Hfin : forall tab' s', same_shapes (shapes rt) s' -> zlen tab' = zlen (hash_table rt) ->
    (forall b', b' <> bucket (shape_hash_bits rt) sh -> 0 <= b' -> tab' !! Z.to_nat b' = hash_table rt !! Z.to_nat b') ->
    (forall q, q ∉ l1 -> s' !! q = shapes rt !! q) ->
    (exists head', tab' !! Z.to_nat (bucket (shape_hash_bits rt) sh) = Some head' /\ chain s' head' (l1 ++ l2)) ->
    table_ok (minus_p p X) s' tab' (shape_hash_bits rt)).
  { intros tab' s' H1 H2 H3 H4 H5. by eapply (table_ok_unlink X); [done..|lia|done|done|done|done|done|done]. }
  destruct l1 as [|q l1 _] using rev_ind.
  - cbn [list.last]. apply yields_bind. rewrite aset_some by (rewrite (tb_len _ _ _ _ Ht); lia). cbn. split.
    + eexists _, _, _. split; [reflexivity|apply same_refl].
    + split; [|done]. cbn. apply Hfin; [apply same_refl|unfold zlen; by rewrite length_insert| |done|].
      * intros b' Hb' Hb0. by rewrite list_lookup_insert_ne by lia.
      * exists (shape_hash_next sh). split; [|done]. apply list_lookup_insert_eq. by apply lookup_lt_Some in Et.
  - rewrite last_snoc. assert (Eq : exists shq, shapes rt !! q = Some shq).
    { apply (chain_dom _ _ _ q Hch). rewrite !elem_of_app, list_elem_of_singleton. tauto. }
    destruct Eq as [shq Eq]. apply yields_bind. rewrite (get_shape_eq _ _ _ Eq). cbn. split.
    + eexists _, _, _. split; [reflexivity|]. by apply same_next.
    + split; [|done]. cbn. apply Hfin; [by apply same_next|done|done| |].
      * intros x Hx. rewrite lookup_insert_ne; [done|]. intros ->. apply Hx. rewrite elem_of_app, list_elem_of_singleton. tauto.
      * exists head. split; [done|]. rewrite <- !app_assoc in Hch, Hnd |- *. cbn [app] in *. apply (chain_splice _ _ _ _ (p :: l2)); [done..|].
        apply chain_insert; [done|]. intros Hq. apply list.NoDup_app in Hnd as (_ & _ & Hnd). apply list.NoDup_cons in Hnd as [Hnd _].
        apply Hnd. by constructor.
Qed.

(** ** Growing the table *)

Lemma table_ok_empty s bits : 0 <= bits <= 30 -> table_ok (fun _ => False) s (replicate (Z.to_nat (2 ^ bits)) 0) bits.
Proof.
  intros Hb. pose proof (Z.pow_pos_nonneg 2 bits ltac:(lia) ltac:(lia)). split; [done|unfold zlen; rewrite length_replicate; lia|].
  intros b Hr. exists 0, []. split; [apply lookup_replicate; split; [done|lia]|]. split; [done|]. split; [constructor|].
  intros p. split; [intros Hp; by apply elem_of_nil in Hp|tauto].
Qed.

(** The chains that are still to be moved. *)
Definition pending (s : gmap Z JSShape) (heads : list Z) (ls : list (list Z)) : Prop := Forall2 (chain s) heads ls.

Definition in_concat (ls : list (list Z)) (p : Z) : Prop := exists l, l ∈ ls /\ p ∈ l.

Lemma pending_insert s heads ls p sh : pending s heads ls -> ~ in_concat ls p -> pending (<[p := sh]> s) heads ls.
Proof.
  intros Hp Hn. induction Hp as [|h l heads ls Hc Hp IH]; constructor.
  - apply chain_insert; [done|]. intros Hin. apply Hn. exists l. split; [constructor|done].
  - apply IH. intros (l' & Hl' & Hin). apply Hn. exists l'. split; [by constructor|done].
Qed.

Lemma rehash_shape_spec bits heads ls : forall l fuel p X tab rt,
  table_ok X (shapes rt) tab bits -> shapes_ok (shapes rt) -> chain (shapes rt) p l -> pending (shapes rt) heads ls ->
  NoDup l -> (forall q, q ∈ l -> ~ X q /\ ~ in_concat ls q) -> (length l < fuel)%nat ->
  yields (loop fuel (rehash_shape bits) (p, tab, rt)) (fun '(tab', rt') => exists s', rt' = set_shapes s' rt /\ same_shapes (shapes rt) s' /\
    table_ok (fun q => q ∈ l \/ X q) s' tab' bits /\ pending s' heads ls).
Proof.
  intros l. induction l as [|x l IH]; intros fuel p X tab rt Ht Hok Hc Hp Hnd Hdis Hf; destruct fuel as [|fuel]; try (cbn in Hf; lia).
  - cbn in Hc. subst p. cbn. exists (shapes rt). split; [by destruct rt|]. split; [done|]. split; [|done].
    eapply table_ok_ext; [|done]. intros q _. split; [by right|]. intros [Hq|]; [by apply elem_of_nil in Hq|done].
  - destruct Hc as (-> & Hx & sh & Es & Hc). destruct (Hok _ _ Es) as [_ Hh].
    pose proof (bucket_range bits sh (tb_bits _ _ _ _ Ht) Hh) as Hr. destruct (tb_chain _ _ _ _ Ht _ Hr) as (next & l0 & Et & _).
    set (rt1 := put_shape x (set_next next sh) rt).
    assert (Est : rehash_shape bits (x, tab, rt) = Ret (inl (shape_hash_next sh, <[Z.to_nat (bucket bits sh) := x]> tab, rt1))).
    { unfold rehash_shape. destruct (Z.eqb_spec x 0); [done|]. rewrite (get_shape_eq _ _ _ Es). cbn [mbind outcome_bind].
      change (get_shape_hash _ _) with (bucket bits sh). rewrite (aget_some _ _ _ (proj1 Hr) Et). cbn [mbind outcome_bind].
      rewrite aset_some by (rewrite (tb_len _ _ _ _ Ht); lia). done. }
    cbn [loop]. rewrite Est. cbn [mbind outcome_bind].
    apply list.NoDup_cons in Hnd as [Hxl Hnd]. destruct (Hdis x) as [HxX Hxls]; [constructor|].
    assert (Hok1 : shapes_ok (shapes rt1)).
    { intros q shq Eq. cbn in Eq. destruct (decide (q = x)) as [->|Hq]; [rewrite lookup_insert_eq in Eq; simplify_eq; by split|].
      rewrite lookup_insert_ne in Eq by done. by apply (Hok q). }
    eapply yields_mono; [apply (IH fuel (shape_hash_next sh) (with_p x X) _ rt1)|].
    + by apply table_ok_push.
    + done.
    + by apply chain_insert.
    + by apply pending_insert.
    + done.
    + intros q Hq. destruct (Hdis q) as [H1 H2]; [by constructor|]. split; [|done]. intros [->|?]; done.
    + cbn in Hf. lia.
    + intros [tab' rt'] (s' & -> & Hs & Ht' & Hp'). exists s'. split; [done|]. split.
      { eapply same_trans; [|done]. by apply same_next. }
      split; [|done]. eapply table_ok_ext; [|done]. intros q _. unfold with_p. rewrite elem_of_cons. tauto.
Qed.

Lemma same_pending s s' heads ls : pending s heads ls -> s' = s -> pending s' heads ls.
Proof. by intros ? ->. Qed.

Lemma rehash_chains_spec bits : forall heads ls X tab rt,
  table_ok X (shapes rt) tab bits -> shapes_ok (shapes rt) -> pending (shapes rt) heads ls ->
  Forall (NoDup (A := Z)) ls -> (forall q, in_concat ls q -> ~ X q) -> (forall i j l l' q, ls !! i = Some l -> ls !! j = Some l' -> q ∈ l -> q ∈ l' -> i = j) ->
  yields (rehash_chains bits heads tab rt) (fun '(tab', rt') => exists s', rt' = set_shapes s' rt /\ same_shapes (shapes rt) s' /\
    table_ok (fun q => in_concat ls q \/ X q) s' tab' bits).
Proof.
  intros heads. induction heads as [|p heads IH]; intros ls X tab rt Ht Hok Hp Hnd HX Hdis.
  - inversion Hp. subst ls. cbn. exists (shapes rt). split; [by destruct rt|]. split; [done|]. eapply table_ok_ext; [|done].
    intros q _. split; [by right|]. intros [(l & Hl & _)|]; [by apply elem_of_nil in Hl|done].
  - inversion Hp as [|? l ? ls' Hc Hp']. subst. cbn [rehash_chains]. apply yields_bind. inversion Hnd as [|? ? Hl Hnd']. subst.
    eapply yields_mono; [apply (rehash_shape_spec bits heads ls' l _ p X); [done|done|done|done|done| |]|].
    + intros q Hq. split.
      * apply HX. exists l. split; [constructor|done].
      * intros (l' & Hl' & Hq'). apply list_elem_of_lookup in Hl' as [j Hj]. pose proof (Hdis 0%nat (S j) l l' q eq_refl Hj Hq Hq'). done.
    + pose proof (chain_length _ _ _ Hc Hl). lia.
    + intros [tab1 rt1] (s1 & -> & Hs1 & Ht1 & Hp1). cbn beta. cbn match.
      eapply yields_mono; [apply (IH ls' (fun q => q ∈ l \/ X q)); [exact Ht1| |exact Hp1|done| |]|].
      * intros q shq Eq. cbn in Eq. destruct (same_lookup _ _ _ _ (same_sym _ _ Hs1) Eq) as [n E]. by apply (Hok q) in E.
      * intros q (l' & Hl' & Hq') [Hq|Hx].
        -- apply list_elem_of_lookup in Hl' as [j Hj]. pose proof (Hdis 0%nat (S j) l l' q eq_refl Hj Hq Hq'). done.
        -- revert Hx. apply HX. exists l'. split; [by constructor|done].
      * intros i j l1 l2 q Hi Hj Hq1 Hq2. pose proof (Hdis (S i) (S j) l1 l2 q Hi Hj Hq1 Hq2). lia.
      * intros [tab' rt'] (s' & -> & Hs' & Ht'). exists s'. split; [done|]. split; [by eapply same_trans|]. eapply table_ok_ext; [|done].
        intros q _. unfold in_concat. setoid_rewrite elem_of_cons. split.
        -- intros [(l' & Hl' & Hq)|[Hq|Hx]]; [left; exists l'; tauto|left; exists l; tauto|by right].
        -- intros [(l' & [->|Hl'] & Hq)|Hx]; [right; by left|left; by exists l'|right; by right].
Qed.

(** The chains of a table. *)
Lemma table_chains X s tab bits : table_ok X s tab bits -> exists ls, pending s tab ls /\ Forall (NoDup (A := Z)) ls /\
  (forall i l q, ls !! i = Some l -> q ∈ l <-> X q /\ exists sh, s !! q = Some sh /\ bucket bits sh = Z.of_nat i) /\ length ls = length tab.
Proof.
  intros [Hb Hlen Hc]. unfold zlen in Hlen.
  assert (Hn : forall n, (n <= length tab)%nat -> exists ls, pending s (take n tab) ls /\ Forall (NoDup (A := Z)) ls /\
    (forall i l q, ls !! i = Some l -> q ∈ l <-> X q /\ exists sh, s !! q = Some sh /\ bucket bits sh = Z.of_nat i) /\ length ls = n).
  { intros n. induction n as [|n IH]; intros Hn.
    - exists []. split; [constructor|]. split; [constructor|]. by split.
    - destruct IH as (ls & Hp & Hnd & Hin & Hl); [lia|]. destruct (Hc (Z.of_nat n)) as (head & l & Et & Hch & Hnl & Hq); [lia|].
      rewrite Nat2Z.id in Et. exists (ls ++ [l]). split.
      { rewrite (take_S_r _ _ _ Et). apply Forall2_app; [done|]. by constructor. }
      split; [apply list.Forall_app; split; [done|by constructor]|]. split; [|rewrite length_app; cbn; lia].
      intros i l' q Hi. apply lookup_app_Some in Hi as [Hi|[Hge Hi]]; [by apply Hin|].
      destruct (i - length ls)%nat as [|k] eqn:Ek; [|done]. cbn in Hi. simplify_eq. replace i with (length ls) by lia. apply Hq. }
  destruct (Hn (length tab) ltac:(lia)) as (ls & H1 & H2 & H3 & H4). exists ls. rewrite firstn_all in H1. done.
Qed.

Context {Hbounded : MallocBounded} {Hpointer : 4 <= sizeof_pointer}.

Lemma resize_shape_hash_spec X rt : rt_table X rt -> shapes_ok (shapes rt) -> (forall q, X q -> is_Some (shapes rt !! q)) ->
  shape_hash_bits rt <= 27 ->
  yields (resize_shape_hash (shape_hash_bits rt + 1) rt) (fun '(r, rt') =>
    (r = -1 /\ (exists m, rt' = set_mem m rt)) \/
    (r = 0 /\ (exists s tab n m, rt' = set_table tab (shape_hash_bits rt + 1) (2 ^ (shape_hash_bits rt + 1)) n (set_shapes s (set_mem m rt)) /\
      same_shapes (shapes rt) s /\ rt_table X rt' /\ shape_hash_bits rt' <= 27))).
Proof.
  intros [Ht Hsz] Hok HX Hbits. set (bits := shape_hash_bits rt) in *. pose proof (tb_bits _ _ _ _ Ht) as Hb. unfold resize_shape_hash.
  assert (Esz : 1 << (bits + 1) = 2 ^ (bits + 1)) by (rewrite shiftl_mul by lia; lia).
  assert (Hpow : 2 ^ (bits + 1) <= 2 ^ 28) by (apply Z.pow_le_mono_r; lia). pose proof (Z.pow_pos_nonneg 2 (bits + 1) ltac:(lia) ltac:(lia)).
  rewrite Esz. unfold c_int. assert (Hi : int_ok (2 ^ (bits + 1)) = true) by (unfold int_ok, INT32_MAX; lia). rewrite Hi. cbn [mbind outcome_bind].
  unfold malloc. destruct (js_malloc _ _ _) as [r m] eqn:Em. destruct r as [p|].
  - assert (Hlim : sizeof_pointer * 2 ^ (bits + 1) < 2 ^ 29) by (eapply malloc_bounded; by rewrite Em).
    destruct (table_chains _ _ _ _ Ht) as (ls & Hp & Hnd & Hin & Hl). fold bits in Ht.
    assert (Etake : take (Z.to_nat (shape_hash_size rt)) (hash_table rt) = hash_table rt).
    { apply take_ge. pose proof (tb_len _ _ _ _ Ht). unfold zlen in *. lia. }
    apply yields_bind. cbn [shape_hash_size hash_table set_mem]. rewrite Etake.
    eapply yields_mono; [apply (rehash_chains_spec (bits + 1) (hash_table rt) ls (fun _ => False)); [apply table_ok_empty; lia|done|done|done|tauto|]|].
    + intros i j l l' q Hi' Hj Hq Hq'. apply (Hin i l q Hi') in Hq as [_ (sh & E & Eb)]. apply (Hin j l' q Hj) in Hq' as [_ (sh' & E' & Eb')].
      simplify_eq. lia.
    + intros [tab' rt'] (s' & -> & Hs & Ht'). cbn. right. split; [done|]. eexists s', tab', _, m. split; [reflexivity|]. split; [done|].
      assert (Hb27 : bits + 1 <= 27).
      { destruct (decide (bits + 1 <= 27)); [done|]. exfalso. assert (2 ^ 28 <= 2 ^ (bits + 1)) by (apply Z.pow_le_mono_r; lia). nia. }
      split; [|cbn; lia]. split; [|done]. cbn. eapply table_ok_ext; [|done]. intros q _. split.
      * intros [(l & Hl' & Hq)|?]; [|done]. apply list_elem_of_lookup in Hl' as [i Hi']. by apply (Hin i l q Hi') in Hq as [? _].
      * intros Hx. left. destruct (HX q Hx) as [sh Es]. destruct (Hok _ _ Es) as [_ Hh]. pose proof (bucket_range bits sh Hb Hh) as Hr.
        destruct (lookup_lt_is_Some_2 ls (Z.to_nat (bucket bits sh))) as [l Hl']; [pose proof (tb_len _ _ _ _ Ht); unfold zlen in *; lia|].
        exists l. split; [by eapply list_elem_of_lookup_2|]. apply (Hin _ l q Hl'). split; [done|]. exists sh. split; [done|]. lia.
  - cbn. left. split; [done|]. by exists m.
Qed.

(** ** Searching *)

Lemma find_hashed_spec X ok h rt : rt_table X rt -> 0 <= h < 2 ^ 32 ->
  yields (find_hashed ok h rt) (fun p => p = 0 \/ exists sh, p <> 0 /\ X p /\ shapes rt !! p = Some sh /\ ok sh = true).
Proof.
  intros [Ht Hsz] Hh. set (b := get_shape_hash h (shape_hash_bits rt)). unfold find_hashed. fold b.
  assert (Hr : 0 <= b < 2 ^ shape_hash_bits rt).
  { pose proof (tb_bits _ _ _ _ Ht). unfold b, get_shape_hash. rewrite shiftr_div by lia. split; [apply Z.div_pos; lia|].
    apply Z.div_lt_upper_bound; [lia|]. rewrite <- Z.pow_add_r by lia. replace (32 - shape_hash_bits rt + shape_hash_bits rt) with 32 by lia. lia. }
  destruct (tb_chain _ _ _ _ Ht _ Hr) as (head & l & Et & Hch & Hnd & Hin). rewrite (aget_some _ _ _ (proj1 Hr) Et). cbn [mbind outcome_bind].
  pose proof (chain_length _ _ _ Hch Hnd) as Hlen.
  apply (loop_yields_nat (find_step ok rt) (fun n p => exists l', chain (shapes rt) p l' /\ n = length l' /\ forall q, q ∈ l' -> q ∈ l) _)
    with (n := length l); [|by exists l|lia].
  intros n p (l' & Hc' & -> & Hsub). unfold find_step. destruct l' as [|x l'].
  - cbn in Hc'. subst p. cbn. by left.
  - destruct Hc' as (-> & Hx & sh & Es & Hc'). destruct (Z.eqb_spec x 0); [done|]. rewrite (get_shape_eq _ _ _ Es). cbn. destruct (ok sh) eqn:Eok.
    + right. exists sh. split; [done|]. split; [|done]. apply (Hin x). apply Hsub. constructor.
    + exists (length l'). split; [lia|]. exists l'. split; [done|]. split; [done|]. intros q Hq. apply Hsub. by constructor.
Qed.
End Hash.
