(* ===== verification/ShapeSpec.v ===== *)
(** * Objects: sharing of shapes is invisible

    [rt_ok E]: every shape has as count the objects of this shape and its references [E] from elsewhere, a shape that is not in the hash
    table has one owner, and the hash table holds the others.  Every operation on the properties of one object
    preserves this, changes the properties of that object as specified, and those of no other object. *)

From stdpp Require Import gmap.
From S2P Require Import Prelude Sums Cutils Alloc GcHeap Shape ShapeProps ShapeHash.
#[local] Open Scope Z_scope.

(** ** Counting *)

Definition points (p : Z) (_ : Z) (o : JSObject) : Z := if shape o =? p then 1 else 0.
Fixpoint count (p : Z) (E : list Z) : Z := match E with [] => 0 | q :: E => (if q =? p then 1 else 0) + count p E end.
Definition refs (E : list Z) (os : gmap Z JSObject) (p : Z) : Z := count p E + sum_with (points p) os.

Lemma points_nonneg p x o : 0 <= points p x o.
Proof. unfold points. by destruct (_ =? _). Qed.
Lemma points_eq p x o : shape o = p -> points p x o = 1.
Proof. intros <-. unfold points. by rewrite Z.eqb_refl. Qed.
Lemma points_ne p x o : shape o <> p -> points p x o = 0.
Proof. intros Hp. unfold points. by destruct (Z.eqb_spec (shape o) p). Qed.
Lemma count_nonneg p E : 0 <= count p E.
Proof. induction E as [|q E IH]; cbn; [lia|]. destruct (_ =? _); lia. Qed.
Lemma count_in p E : p ∈ E -> 0 < count p E.
Proof.
  induction E as [|q E IH]; intros Hp; [by apply elem_of_nil in Hp|]. cbn. pose proof (count_nonneg p E).
  apply elem_of_cons in Hp as [->|Hp]; [rewrite Z.eqb_refl; lia|]. specialize (IH Hp). destruct (_ =? _); lia.
Qed.

(** ** The invariant *)

Definition hashed (s : gmap Z JSShape) (p : Z) : Prop := exists sh, s !! p = Some sh /\ is_hashed sh = true.

Record core (E : list Z) (s : gmap Z JSShape) (os : gmap Z JSObject) : Prop := {
  co_nonzero p sh : s !! p = Some sh -> p <> 0;
  co_shape p sh : s !! p = Some sh -> shape_ok sh;
  co_count p sh : s !! p = Some sh -> sh_ref_count sh = refs E os p;
  co_pos p sh : s !! p = Some sh -> 0 < sh_ref_count sh;
  co_owner p sh : s !! p = Some sh -> is_hashed sh = false -> sh_ref_count sh = 1;
  co_object p o : os !! p = Some o -> exists sh, s !! shape o = Some sh /\ prop_size sh <= zlen (prop o);
  co_root p : p ∈ E -> is_Some (s !! p) }.

(** The properties of the objects other than [p] and of the shapes in [E] are as before. *)
Record kept (p : Z) (E : list Z) (s : gmap Z JSShape) (os : gmap Z JSObject) (s' : gmap Z JSShape) (os' : gmap Z JSObject) : Prop := {
  kp_objects q o : q <> p -> os !! q = Some o -> os' !! q = Some o;
  kp_shapes q o sh : q <> p -> os !! q = Some o -> s !! shape o = Some sh ->
    exists sh', s' !! shape o = Some sh' /\ sh_prop sh' = sh_prop sh /\ proto sh' = proto sh;
  kp_roots q sh : q ∈ E -> s !! q = Some sh -> exists sh', s' !! q = Some sh' /\ sh_prop sh' = sh_prop sh /\ proto sh' = proto sh }.

Lemma kept_refl p E s os : kept p E s os s os.
Proof. split; [done| |]; intros; by exists sh. Qed.
Lemma kept_trans p E s1 os1 s2 os2 s3 os3 : kept p E s1 os1 s2 os2 -> kept p E s2 os2 s3 os3 -> kept p E s1 os1 s3 os3.
Proof.
  intros [A1 A2 A3] [B1 B2 B3]. split.
  - intros q o Hq Ho. by apply B1, A1.
  - intros q o sh Hq Ho Hs. destruct (A2 q o sh Hq Ho Hs) as (sh2 & E2 & Ep & Er). destruct (B2 q o sh2 Hq (A1 q o Hq Ho) E2) as (sh3 & E3 & Ep' & Er').
    exists sh3. split; [done|]. split; congruence.
  - intros q sh Hq Hs. destruct (A3 q sh Hq Hs) as (sh2 & E2 & Ep & Er). destruct (B3 q sh2 Hq E2) as (sh3 & E3 & Ep' & Er').
    exists sh3. split; [done|]. split; congruence.
Qed.
Lemma kept_same p E s os s' : same_shapes s s' -> kept p E s os s' os.
Proof.
  intros Hs. split; [done| |].
  - intros q o sh _ _ Es. destruct (same_lookup _ _ _ _ Hs Es) as [n ->]. by eexists.
  - intros q sh _ Es. destruct (same_lookup _ _ _ _ Hs Es) as [n ->]. by eexists.
Qed.
Lemma kept_weaken p E E' s os s' os' : (forall q, q ∈ E' -> q ∈ E) -> kept p E s os s' os' -> kept p E' s os s' os'.
Proof. intros HE [A B C]. split; [done|done|]. intros q sh Hq. apply C. by apply HE. Qed.

Lemma shape_ok_next n sh : shape_ok sh -> shape_ok (set_next n sh).
Proof. intros [? ? ? ? ? ? ? ?]. by split. Qed.

Lemma core_same E s s' os : same_shapes s s' -> core E s os -> core E s' os.
Proof.
  intros Hs [A B C D F G R].
  assert (Hl : forall p sh', s' !! p = Some sh' -> exists n sh, s !! p = Some sh /\ sh' = set_next n sh).
  { intros p sh' Es'. destruct (same_lookup _ _ _ _ (same_sym _ _ Hs) Es') as [n Es]. exists (shape_hash_next sh'), (set_next n sh').
    split; [done|]. by destruct sh'. }
  split.
  - intros p sh' Es'. destruct (Hl _ _ Es') as (n & sh & Es & ->). by eapply A.
  - intros p sh' Es'. destruct (Hl _ _ Es') as (n & sh & Es & ->). apply shape_ok_next. by eapply B.
  - intros p sh' Es'. destruct (Hl _ _ Es') as (n & sh & Es & ->). by apply (C p sh).
  - intros p sh' Es'. destruct (Hl _ _ Es') as (n & sh & Es & ->). by apply (D p sh).
  - intros p sh' Es'. destruct (Hl _ _ Es') as (n & sh & Es & ->). by apply (F p sh).
  - intros p o Eo. destruct (G p o Eo) as (sh & Es & Hsz). destruct (same_lookup _ _ _ _ Hs Es) as [n Es']. by exists (set_next n sh).
  - intros p Hp. destruct (R p Hp) as [sh Es]. destruct (same_lookup _ _ _ _ Hs Es) as [n Es']. by eexists.
Qed.

(** The object [p] is the owner of its shape: nothing else refers to it. *)
Lemma core_owned E s os p o sh : core E s os -> os !! p = Some o -> s !! shape o = Some sh -> sh_ref_count sh = 1 ->
  shape o ∉ E /\ forall q oq, q <> p -> os !! q = Some oq -> shape oq <> shape o.
Proof.
  intros Hc Eo Es H1. rewrite (co_count _ _ _ Hc _ _ Es) in H1. unfold refs in H1. pose proof (count_nonneg (shape o) E).
  pose proof (sum_ge (points (shape o)) os p o (points_nonneg _) Eo) as Hge. rewrite points_eq in Hge by done. split.
  - intros Hin. apply count_in in Hin. lia.
  - intros q oq Hq Eq Heq. pose proof (sum_ge2 (points (shape o)) os p q o oq (points_nonneg _) Eo Eq (not_eq_sym Hq)) as H2.
    rewrite !points_eq in H2 by done. lia.
Qed.

(** The owner changes its shape, which may move. *)
Lemma core_own E s os p o sh o' sh' : core E s os -> os !! p = Some o -> s !! shape o = Some sh -> sh_ref_count sh = 1 ->
  shape o' = shape o \/ s !! shape o' = None -> shape o' <> 0 -> shape_ok sh' -> sh_ref_count sh' = 1 -> prop_size sh' <= zlen (prop o') ->
  core E (<[shape o' := sh']> (delete (shape o) s)) (<[p := o']> os) /\ kept p E s os (<[shape o' := sh']> (delete (shape o) s)) (<[p := o']> os).
Proof.
  intros Hc Eo Es H1 Hy Hy0 Hok Hc' Hsz. destruct (core_owned _ _ _ _ _ _ Hc Eo Es H1) as [HE Hown].
  pose proof (co_count _ _ _ Hc _ _ Es) as Hcnt.
  assert (Hlk : forall q, q <> shape o -> is_Some (s !! q) -> q <> shape o' /\ (<[shape o' := sh']> (delete (shape o) s)) !! q = s !! q).
  { intros q Hq [shq Eq]. assert (q <> shape o') by (intros ->; destruct Hy as [?|Hy]; congruence).
    split; [done|]. by rewrite lookup_insert_ne, lookup_delete_ne by done. }
  assert (Hrefs : forall q, q <> shape o' -> q <> shape o -> refs E (<[p := o']> os) q = refs E os q).
  { intros q H2 H3. unfold refs. rewrite (sum_update _ _ _ _ _ Eo), !points_ne by done. lia. }
  assert (Hnew : refs E (<[p := o']> os) (shape o') = 1).
  { unfold refs. rewrite (sum_update _ _ _ _ _ Eo), (points_eq _ _ o') by done. destruct Hy as [Hy|Hy].
    - rewrite Hy, points_eq by done. unfold refs in Hcnt. lia.
    - rewrite points_ne by congruence. assert (count (shape o') E = 0).
      { pose proof (count_nonneg (shape o') E). destruct (decide (count (shape o') E = 0)); [done|]. exfalso.
        assert (Hin : shape o' ∈ E). { clear -n. induction E as [|q E IH]; [done|]. cbn in n. destruct (Z.eqb_spec q (shape o')) as [->|Hne]; [constructor|]. constructor. apply IH. lia. }
        destruct (co_root _ _ _ Hc _ Hin). congruence. }
      assert (sum_with (points (shape o')) os = 0); [|lia].
      assert (Hz : forall m : gmap Z JSObject, (forall q oq, m !! q = Some oq -> shape oq <> shape o') -> sum_with (points (shape o')) m = 0).
      { intros m. induction m as [|q oq m Hq IH] using map_ind; intros Hm; [done|]. rewrite sum_insert by done.
        rewrite IH; [|intros q' oq' Eq'; apply (Hm q'); rewrite lookup_insert_ne; [done|congruence]].
        specialize (Hm q oq). rewrite lookup_insert_eq in Hm. specialize (Hm eq_refl). rewrite points_ne by done. lia. }
      apply Hz. intros q oq Eq Heq. destruct (co_object _ _ _ Hc q oq Eq) as (shq & Eshq & _). congruence. }
  assert (Hcase : forall q shq, (<[shape o' := sh']> (delete (shape o) s)) !! q = Some shq ->
    (q = shape o' /\ shq = sh') \/ (q <> shape o' /\ q <> shape o /\ s !! q = Some shq)).
  { intros q shq Eq. destruct (decide (q = shape o')) as [->|Hne]; [rewrite lookup_insert_eq in Eq; left; by simplify_eq|].
    rewrite lookup_insert_ne in Eq by done. apply lookup_delete_Some in Eq as [? ?]. right. done. }
  split; [split|split].
  - intros q shq Eq. destruct (Hcase _ _ Eq) as [[-> ->]|(_ & _ & Eq')]; [done|by eapply co_nonzero].
  - intros q shq Eq. destruct (Hcase _ _ Eq) as [[-> ->]|(_ & _ & Eq')]; [done|by eapply co_shape].
  - intros q shq Eq. destruct (Hcase _ _ Eq) as [[-> ->]|(H2 & H3 & Eq')]; [by rewrite Hnew|]. rewrite Hrefs by done. by apply (co_count _ _ _ Hc).
  - intros q shq Eq. destruct (Hcase _ _ Eq) as [[-> ->]|(_ & _ & Eq')]; [lia|by eapply co_pos].
  - intros q shq Eq Hh. destruct (Hcase _ _ Eq) as [[-> ->]|(_ & _ & Eq')]; [done|by eapply co_owner].
  - intros q oq Eq. destruct (decide (q = p)) as [->|Hne].
    + rewrite lookup_insert_eq in Eq. simplify_eq. exists sh'. by rewrite lookup_insert_eq.
    + rewrite lookup_insert_ne in Eq by done. destruct (co_object _ _ _ Hc q oq Eq) as (shq & Eshq & Hq). exists shq.
      destruct (Hlk (shape oq) (Hown q oq Hne Eq)) as [_ ->]; [by exists shq|done].
  - intros q Hq. assert (Hne : q <> shape o) by congruence. pose proof (co_root _ _ _ Hc q Hq) as Hs. by destruct (Hlk q Hne Hs) as [_ ->].
  - intros q oq Hne Eq. by rewrite lookup_insert_ne.
  - intros q oq shq Hne Eq Eshq. exists shq. destruct (Hlk (shape oq) (Hown q oq Hne Eq)) as [_ ->]; [by exists shq|done].
  - intros q shq Hq Eq. exists shq. assert (Hne : q <> shape o) by congruence. destruct (Hlk q Hne) as [_ ->]; [by exists shq|done].
Qed.

Lemma refs_cons q E os p : refs (q :: E) os p = (if q =? p then 1 else 0) + refs E os p.
Proof. unfold refs. cbn. lia. Qed.

(** Another reference to a shape of the table. *)
Lemma core_dup E s os q sh : core E s os -> s !! q = Some sh -> is_hashed sh = true ->
  core (q :: E) (<[q := set_count (sh_ref_count sh + 1) sh]> s) os.
Proof.
  intros Hc Es Hh. assert (Hcase : forall x shx, (<[q := set_count (sh_ref_count sh + 1) sh]> s) !! x = Some shx ->
    (x = q /\ shx = set_count (sh_ref_count sh + 1) sh) \/ (x <> q /\ s !! x = Some shx)).
  { intros x shx Ex. destruct (decide (x = q)) as [->|Hne]; [rewrite lookup_insert_eq in Ex; left; by simplify_eq|].
    rewrite lookup_insert_ne in Ex by done. by right. }
  split.
  - intros x shx Ex. destruct (Hcase _ _ Ex) as [[-> _]|[_ Ex']]; by eapply co_nonzero.
  - intros x shx Ex. destruct (Hcase _ _ Ex) as [[-> ->]|[_ Ex']]; [|by eapply co_shape]. destruct (co_shape _ _ _ Hc _ _ Es). by split.
  - intros x shx Ex. rewrite refs_cons. destruct (Hcase _ _ Ex) as [[-> ->]|[Hne Ex']].
    + rewrite Z.eqb_refl. cbn. rewrite (co_count _ _ _ Hc _ _ Es). lia.
    + destruct (Z.eqb_spec q x); [done|]. by apply (co_count _ _ _ Hc).
  - intros x shx Ex. destruct (Hcase _ _ Ex) as [[-> ->]|[_ Ex']]; [|by eapply co_pos]. pose proof (co_pos _ _ _ Hc _ _ Es). cbn. lia.
  - intros x shx Ex Hx. destruct (Hcase _ _ Ex) as [[-> ->]|[_ Ex']]; [cbn in Hx; congruence|by eapply co_owner].
  - intros x o Ex. destruct (co_object _ _ _ Hc x o Ex) as (shx & Ex' & Hsz). destruct (decide (shape o = q)) as [Heq|Hne].
    + rewrite Heq in Ex' |- *. exists (set_count (sh_ref_count sh + 1) sh). rewrite lookup_insert_eq. split; [done|]. simplify_eq. done.
    + exists shx. by rewrite lookup_insert_ne.
  - intros x Hx. destruct (decide (x = q)) as [->|Hne]; [by rewrite lookup_insert_eq; eexists|]. rewrite lookup_insert_ne by done.
    apply elem_of_cons in Hx as [?|Hx]; [done|]. by eapply co_root.
Qed.
Lemma kept_dup p E s os q sh n : s !! q = Some sh -> kept p E s os (<[q := set_count n sh]> s) os.
Proof.
  intros Es. assert (H : forall x shx, s !! x = Some shx -> exists sh', (<[q := set_count n sh]> s) !! x = Some sh' /\ sh_prop sh' = sh_prop shx /\ proto sh' = proto shx).
  { intros x shx Ex. destruct (decide (x = q)) as [->|Hne]; [rewrite lookup_insert_eq; simplify_eq; by eexists|]. rewrite lookup_insert_ne by done. by eexists. }
  split; [done| |]; intros; by apply H.
Qed.

(** A new shape, referred to by a variable. *)
Lemma core_new E s os y sh : core E s os -> s !! y = None -> y <> 0 -> shape_ok sh -> sh_ref_count sh = 1 -> core (y :: E) (<[y := sh]> s) os.
Proof.
  intros Hc Ey Hy Hok H1. assert (Hcase : forall x shx, (<[y := sh]> s) !! x = Some shx -> (x = y /\ shx = sh) \/ (x <> y /\ s !! x = Some shx)).
  { intros x shx Ex. destruct (decide (x = y)) as [->|Hne]; [rewrite lookup_insert_eq in Ex; left; by simplify_eq|].
    rewrite lookup_insert_ne in Ex by done. by right. }
  assert (Hy1 : refs E os y = 0).
  { unfold refs. assert (count y E = 0) as ->.
    { pose proof (count_nonneg y E). destruct (decide (count y E = 0)) as [|n]; [done|]. exfalso.
      assert (Hin : y ∈ E). { assert (H0 : 0 < count y E) by lia. clear -H0. induction E as [|q E IH]; [cbn in H0; lia|]. cbn in H0. destruct (Z.eqb_spec q y) as [->|Hne]; [constructor|]. constructor. apply IH. lia. }
      destruct (co_root _ _ _ Hc _ Hin). congruence. }
    assert (Hz : forall m : gmap Z JSObject, (forall q oq, m !! q = Some oq -> shape oq <> y) -> sum_with (points y) m = 0).
    { intros m. induction m as [|q oq m Hq IH] using map_ind; intros Hm; [done|]. rewrite sum_insert by done.
      rewrite IH; [|intros q' oq' Eq'; apply (Hm q'); rewrite lookup_insert_ne; [done|congruence]].
      specialize (Hm q oq). rewrite lookup_insert_eq in Hm. rewrite points_ne by (by apply Hm). lia. }
    rewrite Hz; [done|]. intros q oq Eq Heq. destruct (co_object _ _ _ Hc q oq Eq) as (shq & Eshq & _). congruence. }
  split.
  - intros x shx Ex. destruct (Hcase _ _ Ex) as [[-> ->]|[_ Ex']]; [done|by eapply co_nonzero].
  - intros x shx Ex. destruct (Hcase _ _ Ex) as [[-> ->]|[_ Ex']]; [done|by eapply co_shape].
  - intros x shx Ex. rewrite refs_cons. destruct (Hcase _ _ Ex) as [[-> ->]|[Hne Ex']]; [rewrite Z.eqb_refl; lia|].
    destruct (Z.eqb_spec y x); [done|]. by apply (co_count _ _ _ Hc).
  - intros x shx Ex. destruct (Hcase _ _ Ex) as [[-> ->]|[_ Ex']]; [lia|by eapply co_pos].
  - intros x shx Ex Hx. destruct (Hcase _ _ Ex) as [[-> ->]|[_ Ex']]; [done|by eapply co_owner].
  - intros x o Ex. destruct (co_object _ _ _ Hc x o Ex) as (shx & Ex' & Hsz). exists shx. rewrite lookup_insert_ne; [done|congruence].
  - intros x Hx. destruct (decide (x = y)) as [->|Hne]; [by rewrite lookup_insert_eq; eexists|]. rewrite lookup_insert_ne by done.
    apply elem_of_cons in Hx as [?|Hx]; [done|]. by eapply co_root.
Qed.
Lemma kept_new p E s os y sh : s !! y = None -> kept p E s os (<[y := sh]> s) os.
Proof.
  intros Ey. assert (H : forall x shx, s !! x = Some shx -> exists sh', (<[y := sh]> s) !! x = Some sh' /\ sh_prop sh' = sh_prop shx /\ proto sh' = proto shx).
  { intros x shx Ex. rewrite lookup_insert_ne by congruence. by eexists. }
  split; [done| |]; intros; by apply H.
Qed.

(** A reference goes. *)
Lemma core_drop E s os q sh : core (q :: E) s os -> s !! q = Some sh ->
  let s' := if sh_ref_count sh =? 1 then delete q s else <[q := set_count (sh_ref_count sh - 1) sh]> s in
  core E s' os /\ forall p, kept p E s os s' os.
Proof.
  intros Hc Es s'. pose proof (co_count _ _ _ Hc _ _ Es) as Hn. rewrite refs_cons, Z.eqb_refl in Hn. pose proof (co_pos _ _ _ Hc _ _ Es) as Hpos.
  assert (Hother : forall x, x <> q -> s' !! x = s !! x).
  { intros x Hx. subst s'. destruct (_ =? _); [by rewrite lookup_delete_ne|by rewrite lookup_insert_ne]. }
  assert (Hcase : forall x shx, s' !! x = Some shx -> exists shx0 n, s !! x = Some shx0 /\ shx = set_count n shx0 /\ n = refs E os x /\ 0 < n /\ n <= sh_ref_count shx0).
  { intros x shx Ex. destruct (decide (x = q)) as [->|Hne].
    - subst s'. destruct (Z.eqb_spec (sh_ref_count sh) 1) as [E1|E1]; [by rewrite lookup_delete_eq in Ex|]. rewrite lookup_insert_eq in Ex. simplify_eq.
      exists sh, (sh_ref_count sh - 1). split; [done|]. split; [done|]. lia.
    - rewrite Hother in Ex by done. exists shx, (sh_ref_count shx). split; [done|]. split; [by destruct shx|].
      pose proof (co_count _ _ _ Hc _ _ Ex) as Hx. rewrite refs_cons in Hx. destruct (Z.eqb_spec q x); [congruence|].
      pose proof (co_pos _ _ _ Hc _ _ Ex). split; [lia|]. split; [lia|]. lia. }
  assert (Hkeep : forall x, (x ∈ E \/ exists p o, os !! p = Some o /\ shape o = x) -> forall shx, s !! x = Some shx ->
    exists sh', s' !! x = Some sh' /\ sh_prop sh' = sh_prop shx /\ proto sh' = proto shx /\ prop_size sh' = prop_size shx).
  { intros x Hx shx Ex. destruct (decide (x = q)) as [->|Hne]; [|rewrite Hother by done; by eexists]. simplify_eq.
    assert (H1 : 1 <= refs E os q).
    { unfold refs. pose proof (count_nonneg q E). pose proof (sum_nonneg (points q) os (points_nonneg q)). destruct Hx as [Hx|(p & o & Eo & Hx)].
      - apply count_in in Hx. lia.
      - pose proof (sum_ge (points q) os p o (points_nonneg q) Eo) as Hge. rewrite points_eq in Hge by done. lia. }
    subst s'. destruct (Z.eqb_spec (sh_ref_count sh) 1); [lia|]. rewrite lookup_insert_eq. by eexists. }
  split; [split|].
  - intros x shx Ex. destruct (Hcase _ _ Ex) as (shx0 & n & Ex0 & -> & _). by eapply co_nonzero.
  - intros x shx Ex. destruct (Hcase _ _ Ex) as (shx0 & n & Ex0 & -> & _). destruct (co_shape _ _ _ Hc _ _ Ex0). by split.
  - intros x shx Ex. destruct (Hcase _ _ Ex) as (shx0 & n & Ex0 & -> & Hx & _). done.
  - intros x shx Ex. destruct (Hcase _ _ Ex) as (shx0 & n & Ex0 & -> & _ & Hx & _). done.
  - intros x shx Ex Hh. destruct (Hcase _ _ Ex) as (shx0 & n & Ex0 & -> & _ & Hx & Hle). cbn in *. pose proof (co_owner _ _ _ Hc _ _ Ex0 Hh). lia.
  - intros x o Eo. destruct (co_object _ _ _ Hc x o Eo) as (shx & Ex & Hsz). destruct (Hkeep (shape o)) with (shx := shx) as (sh' & E' & _ & _ & Ez); [right; by exists x, o|done|].
    exists sh'. split; [done|lia].
  - intros x Hx. destruct (co_root _ _ _ Hc x) as [shx Ex]; [by constructor|]. destruct (Hkeep x) with (shx := shx) as (sh' & E' & _); [by left|done|]. by exists sh'.
  - intros p. split; [done| |].
    + intros x o shx _ Eo Ex. destruct (Hkeep (shape o)) with (shx := shx) as (sh' & E' & E1 & E2 & _); [right; by exists x, o|done|]. by exists sh'.
    + intros x shx Hx Ex. destruct (Hkeep x) with (shx := shx) as (sh' & E' & E1 & E2 & _); [by left|done|]. by exists sh'.
Qed.

(** The object takes over the reference of a variable. *)
Lemma core_reassign E s os p o y sh o' : core (y :: E) s os -> os !! p = Some o -> s !! y = Some sh -> shape o' = y -> prop_size sh <= zlen (prop o') ->
  core (shape o :: E) s (<[p := o']> os) /\ kept p E s os s (<[p := o']> os).
Proof.
  intros Hc Eo Es Hy Hsz. split; [split|split].
  - by apply (co_nonzero _ _ _ Hc).
  - by apply (co_shape _ _ _ Hc).
  - intros x shx Ex. rewrite (co_count _ _ _ Hc _ _ Ex), !refs_cons. unfold refs. rewrite (sum_update _ _ _ _ _ Eo). unfold points at 3 4.
    rewrite Hy. lia.
  - by apply (co_pos _ _ _ Hc).
  - by apply (co_owner _ _ _ Hc).
  - intros x ox Ex. destruct (decide (x = p)) as [->|Hne].
    + rewrite lookup_insert_eq in Ex. simplify_eq. by exists sh.
    + rewrite lookup_insert_ne in Ex by done. by apply (co_object _ _ _ Hc x).
  - intros x Hx. apply elem_of_cons in Hx as [->|Hx].
    + destruct (co_object _ _ _ Hc p o Eo) as (sho & Eso & _). by exists sho.
    + apply (co_root _ _ _ Hc). by constructor.
  - intros x ox Hne Ex. by rewrite lookup_insert_ne.
  - intros x ox shx _ _ Ex. by exists shx.
  - intros x shx _ Ex. by exists shx.
Qed.
