(* ===== verification/ShapeOps.v ===== *)
(** * The operations on objects, one by one

    Each operation of Shape.v on the object [p], from a state with the invariant: it returns, the invariant holds again, the other objects and
    shapes have the same properties ([rt_kept]), and what becomes of [p]. *)

From stdpp Require Import gmap.
From S2P Require Import Prelude Cutils Alloc GcHeap Shape ShapeProps ShapeHash ShapeSpec.
#[local] Open Scope Z_scope.

Section Ops.
Context `{HM : Malloc} {Hbounded : MallocBounded} {Hpointer : 4 <= sizeof_pointer}.

Record rt_ok (E : list Z) (rt : Runtime) : Prop := {
  rt_tab : rt_table (hashed (shapes rt)) rt;
  rt_bits : shape_hash_bits rt <= 27;
  rt_core : core E (shapes rt) (objects rt) }.
Definition rt_kept (p : Z) (E : list Z) (rt rt' : Runtime) : Prop := kept p E (shapes rt) (objects rt) (shapes rt') (objects rt').
Definition own (rt : Runtime) (p : Z) (o : JSObject) (sh : JSShape) : Prop := objects rt !! p = Some o /\ shapes rt !! shape o = Some sh.

Lemma core_shapes_ok E s os : core E s os -> shapes_ok s.
Proof. intros Hc p sh Es. split; [by eapply co_nonzero|]. by apply (so_hash _ (co_shape _ _ _ Hc _ _ Es)). Qed.
Lemma rt_table_ext X X' rt : (forall p, is_Some (shapes rt !! p) -> X p <-> X' p) -> rt_table X rt -> rt_table X' rt.
Proof. intros HX [Ht Hs]. split; [|done]. by eapply table_ok_ext. Qed.
Lemma hashed_same s s' p : same_shapes s s' -> hashed s p -> hashed s' p.
Proof. intros Hs (sh & Es & Hh). destruct (same_lookup _ _ _ _ Hs Es) as [n E]. by exists (set_next n sh). Qed.
Lemma hashed_same_iff s s' p : same_shapes s s' -> hashed s p <-> hashed s' p.
Proof. intros Hs. split; apply hashed_same; [done|by apply same_sym]. Qed.

Lemma emit_all_same l rt : let rt' := emit_all l rt in
  shapes rt' = shapes rt /\ objects rt' = objects rt /\ hash_table rt' = hash_table rt /\ shape_hash_bits rt' = shape_hash_bits rt /\
  shape_hash_size rt' = shape_hash_size rt /\ array_shape rt' = array_shape rt.
Proof. revert rt. induction l as [|e l IH]; intros rt; [done|]. exact (IH (emit e rt)). Qed.

(** Changes outside of the shapes, the objects and the table. *)
Definition same_state (rt rt' : Runtime) : Prop :=
  shapes rt' = shapes rt /\ objects rt' = objects rt /\ hash_table rt' = hash_table rt /\ shape_hash_bits rt' = shape_hash_bits rt /\
  shape_hash_size rt' = shape_hash_size rt.
Lemma same_state_ok E rt rt' : same_state rt rt' -> rt_ok E rt -> rt_ok E rt'.
Proof.
  intros (Hs & Ho & Ht & Hb & Hz) [[T1 T2] B C]. split; [split|by rewrite Hb|by rewrite Hs, Ho].
  - by rewrite Hs, Ht, Hb.
  - by rewrite Hz, Hb.
Qed.
Lemma same_state_emit e rt : same_state rt (emit e rt).
Proof. done. Qed.

Lemma malloc_spec n rt : exists r m, malloc n rt = (r, set_mem m rt) /\
  (forall p, r = Some p -> p <> 0 /\ shapes rt !! p = None /\ objects rt !! p = None /\ n < 2 ^ 29).
Proof.
  unfold malloc. destruct (js_malloc (rt_mem rt) (blocks rt) n) as [r m] eqn:Em. exists r, m. split; [done|]. intros p ->.
  assert (E1 : (js_malloc (rt_mem rt) (blocks rt) n).1 = Some p) by (by rewrite Em). destruct (js_malloc_fresh _ _ _ _ E1) as [H0 Hf].
  unfold blocks in Hf. rewrite elem_of_union, !elem_of_dom in Hf. split; [done|].
  split; [apply eq_None_not_Some; tauto|]. split; [apply eq_None_not_Some; tauto|]. by eapply malloc_bounded.
Qed.
Lemma realloc_spec p n rt : exists r m, realloc_block p n rt = (r, set_mem m rt) /\
  (forall q, r = Some q -> q <> 0 /\ (q = p \/ shapes rt !! q = None) /\ n < 2 ^ 29).
Proof.
  unfold realloc_block. destruct (js_malloc (rt_mem rt) (blocks rt ∖ {[p]}) n) as [r m] eqn:Em. exists r, m. split; [done|]. intros q ->.
  assert (E1 : (js_malloc (rt_mem rt) (blocks rt ∖ {[p]}) n).1 = Some q) by (by rewrite Em). destruct (js_malloc_fresh _ _ _ _ E1) as [H0 Hf].
  unfold blocks in Hf. rewrite elem_of_difference, elem_of_union, !elem_of_dom, elem_of_singleton in Hf. split; [done|].
  split; [|by eapply malloc_bounded]. destruct (decide (q = p)); [by left|right]. apply eq_None_not_Some. tauto.
Qed.

(** ** References to shapes *)

Lemma clone_spec E x sh rt : rt_ok E rt -> shapes rt !! x = Some sh ->
  yields (js_clone_shape x rt) (fun '(y, rt') => (y = 0 /\ same_state rt rt') \/
    (y <> 0 /\ shapes rt !! y = None /\ objects rt' = objects rt /\ shapes rt' = <[y := set_hashed false (sh_hash sh) (set_count 1 sh)]> (shapes rt) /\
     rt_ok (y :: E) rt')).
Proof.
  intros [[Ht Hz] Hb Hc] Es. unfold js_clone_shape. rewrite (get_shape_eq _ _ _ Es). cbn [mbind outcome_bind].
  destruct (malloc_spec (get_shape_size (prop_hash_mask sh + 1) (prop_size sh)) rt) as (r & m & -> & Hr). destruct r as [y|].
  - destruct (Hr y eq_refl) as (Hy & Eys & Eyo & _). cbn [yields mret outcome_ret].
    set (sh' := set_hashed false (sh_hash sh) (set_count 1 sh)). right.
    match goal with |- context [emit_all ?l ?rt0] => destruct (emit_all_same l rt0) as (E1 & E2 & E3 & E4 & E5 & _); set (rt' := emit_all l rt0) in * end.
    assert (Hs : shapes rt' = <[y := sh']> (shapes rt)) by (rewrite E1; by destruct (_ =? 0)).
    assert (Ho : objects rt' = objects rt) by (rewrite E2; by destruct (_ =? 0)).
    split; [done|]. split; [done|]. split; [done|]. split; [done|]. split.
    + split.
      * rewrite Hs, E3, E4. replace (hash_table _) with (hash_table rt) by (by destruct (_ =? 0)).
        replace (shape_hash_bits _) with (shape_hash_bits rt) by (by destruct (_ =? 0)).
        apply (table_ok_ext (hashed (shapes rt))).
        { intros p _. unfold hashed. destruct (decide (p = y)) as [->|Hne]; [|by rewrite lookup_insert_ne].
          rewrite lookup_insert_eq, Eys. split; intros (? & ? & ?); by simplify_eq. }
        apply (table_ok_frame _ (shapes rt)); [done|]. intros p (shp & Ep & _). rewrite lookup_insert_ne; [done|]. congruence.
      * rewrite E5, E4. by destruct (_ =? 0).
    + rewrite E4. by destruct (_ =? 0).
    + rewrite Hs, Ho. apply core_new; [done|done|done| |done]. destruct (co_shape _ _ _ Hc _ _ Es). by split.
  - cbn. by left.
Qed.

Lemma hashed_insert s x sh sh' p : s !! x = Some sh -> is_hashed sh' = is_hashed sh -> hashed (<[x := sh']> s) p <-> hashed s p.
Proof.
  intros Es Hh. unfold hashed. destruct (decide (p = x)) as [->|Hne]; [|by rewrite lookup_insert_ne].
  rewrite lookup_insert_eq, Es. split; intros (? & ? & ?); simplify_eq; eexists; (split; [done|congruence]).
Qed.

Lemma dup_spec E x sh rt : rt_ok E rt -> shapes rt !! x = Some sh -> is_hashed sh = true ->
  yields (js_dup_shape x rt) (fun rt' => rt_ok (x :: E) rt' /\ shapes rt' = <[x := set_count (sh_ref_count sh + 1) sh]> (shapes rt) /\ objects rt' = objects rt).
Proof.
  intros [[Ht Hz] Hb Hc] Es Hh. unfold js_dup_shape. rewrite (get_shape_eq _ _ _ Es). cbn. split; [|done]. split; [split|done|by apply core_dup].
  - cbn. apply (table_ok_ext (hashed (shapes rt))); [intros p _; symmetry; by apply (hashed_insert _ _ sh)|]. by apply (table_ok_insert _ _ _ _ _ sh).
  - done.
Qed.

Lemma free_spec E x sh rt : rt_ok (x :: E) rt -> shapes rt !! x = Some sh ->
  yields (free_shape x rt) (fun rt' => rt_ok E rt' /\ (forall p, rt_kept p E rt rt') /\ objects rt' = objects rt /\
    (sh_ref_count sh <> 1 -> shapes rt' = <[x := set_count (sh_ref_count sh - 1) sh]> (shapes rt)) /\
    (forall q, q <> x -> forall shq, shapes rt !! q = Some shq -> exists n, shapes rt' !! q = Some (set_next n shq))).
Proof.
  intros [[Ht Hz] Hb Hc] Es. unfold free_shape. rewrite (get_shape_eq _ _ _ Es). cbn [mbind outcome_bind].
  pose proof (co_pos _ _ _ Hc _ _ Es) as Hpos. destruct (core_drop _ _ _ _ _ Hc Es) as [Hc' Hk].
  set (sh1 := set_count (sh_ref_count sh - 1) sh) in *. set (rt1 := put_shape x sh1 rt).
  assert (Ht1 : rt_table (hashed (shapes rt1)) rt1).
  { split; [|done]. cbn. apply (table_ok_ext (hashed (shapes rt))); [intros p _; symmetry; by apply (hashed_insert _ _ sh)|].
    by apply (table_ok_insert _ _ _ _ _ sh). }
  destruct (Z.leb_spec (sh_ref_count sh - 1) 0) as [Hle|Hgt].
  - assert (H1 : sh_ref_count sh = 1) by lia. rewrite H1, Z.eqb_refl in Hc', Hk. unfold free_shape0.
    assert (Es1 : shapes rt1 !! x = Some sh1) by (cbn; by rewrite lookup_insert_eq). rewrite (get_shape_eq _ _ _ Es1). cbn [mbind outcome_bind].
    change (sh_ref_count sh1) with (sh_ref_count sh - 1). rewrite H1. change (c_assert (1 - 1 =? 0)) with (Ret tt). cbn [mbind outcome_bind].
    assert (Hok1 : shapes_ok (shapes rt1)).
    { intros q shq Eq. cbn in Eq. destruct (decide (q = x)) as [->|Hne]; [rewrite lookup_insert_eq in Eq; simplify_eq; by apply (core_shapes_ok _ _ _ Hc _ sh)|].
      rewrite lookup_insert_ne in Eq by done. by apply (core_shapes_ok _ _ _ Hc). }
    apply yields_bind.
    apply (yields_mono _ (fun rt2 => retabled rt1 rt2 /\ rt_table (minus_p x (hashed (shapes rt1))) rt2)).
    { destruct (is_hashed sh1) eqn:Hh.
      - apply (unlink_spec _ _ sh1); [done|done|done|]. by exists sh1.
      - cbn. split; [eexists (shapes rt1), (hash_table rt1), _; split; [reflexivity|done]|]. eapply rt_table_ext; [|done].
        intros q _. unfold minus_p. split; [|tauto]. intros Hq. split; [|done]. intros ->. destruct Hq as (? & ? & ?). congruence. }
    intros rt2 [(s2 & tab & n & E2 & Hs2) [Ht2 Hz2]]. subst rt2.
    match goal with |- context [emit_all ?l ?rt0] => destruct (emit_all_same l rt0) as (E1 & E2 & E3 & E4 & E5 & _); set (rt' := emit_all l rt0) in * end.
    assert (Hs : shapes rt' = s2) by (rewrite E1; by destruct (_ =? 0)). assert (Ho : objects rt' = objects rt) by (rewrite E2; by destruct (_ =? 0)).
    assert (Ht' : hash_table rt' = tab) by (rewrite E3; by destruct (_ =? 0)). assert (Hb' : shape_hash_bits rt' = shape_hash_bits rt) by (rewrite E4; by destruct (_ =? 0)).
    assert (Hz' : shape_hash_size rt' = shape_hash_size rt) by (rewrite E5; by destruct (_ =? 0)).
    clearbody rt'. assert (Hsame : same_shapes (delete x (shapes rt)) (delete x s2)).
    { pose proof (same_delete _ _ x Hs2) as Hd. cbn in Hd. by rewrite delete_insert_eq in Hd. }
    cbn [yields]. split; [split|split; [|split; [|split]]].
    + split; cbn.
      * rewrite Hs, Ht', Hb'. cbn in Ht2. apply (table_ok_frame _ s2).
        -- eapply table_ok_ext; [|done]. intros q [shq Eq]. unfold minus_p. rewrite (hashed_same_iff (<[x := sh1]> (shapes rt)) s2 q Hs2). unfold hashed.
           destruct (decide (q = x)) as [->|Hne]; [rewrite lookup_delete_eq; split; [tauto|intros (? & ? & ?); done]|]. rewrite lookup_delete_ne by done. tauto.
        -- intros q Hq. destruct Hq as (shq & Eq & _). destruct (decide (q = x)) as [->|Hne]; [by rewrite lookup_delete_eq in Eq|]. by rewrite lookup_delete_ne.
      * by rewrite Hz', Hb'.
    + cbn. by rewrite Hb'.
    + cbn. rewrite Hs, Ho. by apply (core_same _ (delete x (shapes rt))).
    + intros p. unfold rt_kept. cbn. rewrite Hs, Ho. eapply kept_trans; [apply Hk|]. by apply kept_same.
    + cbn. by rewrite Ho.
    + congruence.
    + intros q Hq shq Eq. cbn. rewrite Hs. apply (same_lookup _ _ _ _ Hsame). by rewrite lookup_delete_ne.
  - assert (H1 : sh_ref_count sh <> 1) by lia. destruct (Z.eqb_spec (sh_ref_count sh) 1); [done|]. cbn. split; [by split|]. split; [done|].
    split; [done|]. split; [done|]. intros q Hq shq Eq. exists (shape_hash_next shq). rewrite lookup_insert_ne by done. rewrite Eq. by destruct shq.
Qed.

(** ** An object that owns its shape *)

Lemma delete_insert_same (s : gmap Z JSShape) x sh : <[x := sh]> (delete x s) = <[x := sh]> s.
Proof. apply insert_delete_eq. Qed.

(** The object [p] owns its shape, which is not in the table. *)
Record unlinked (E : list Z) (rt : Runtime) (p : Z) (o : JSObject) (sh : JSShape) : Prop := {
  ul_tab : rt_table (minus_p (shape o) (hashed (shapes rt))) rt;
  ul_bits : shape_hash_bits rt <= 27;
  ul_core : core E (shapes rt) (objects rt);
  ul_own : own rt p o sh;
  ul_one : sh_ref_count sh = 1 }.

Lemma detached_unlinked E rt p o sh : rt_ok E rt -> own rt p o sh -> is_hashed sh = false -> unlinked E rt p o sh.
Proof.
  intros [Ht Hb Hc] [Eo Es] Hh. split; [|done|done|done|by eapply co_owner].
  eapply rt_table_ext; [|done]. intros q _. unfold minus_p. split; [|tauto]. intros Hq. split; [|done]. intros ->. destruct Hq as (? & ? & ?). congruence.
Qed.
Lemma unlinked_detached E rt p o sh : unlinked E rt p o sh -> is_hashed sh = false -> rt_ok E rt.
Proof.
  intros [Ht Hb Hc [Eo Es] H1] Hh. split; [|done|done]. eapply rt_table_ext; [|done].
  intros q _. unfold minus_p. split; [tauto|]. intros Hq. split; [|done]. intros ->. destruct Hq as (? & ? & ?). congruence.
Qed.
Lemma unlinked_linked E rt p o sh : unlinked E rt p o sh -> is_hashed sh = true ->
  yields (js_shape_hash_link (shape o) rt) (fun rt' => rt_ok E rt' /\ rt_kept p E rt rt' /\ objects rt' = objects rt /\ exists n, own rt' p o (set_next n sh)).
Proof.
  intros [Ht Hb Hc [Eo Es] H1] Hh.
  eapply yields_mono; [apply (link_spec (minus_p (shape o) (hashed (shapes rt))) _ sh); [done|by eapply core_shapes_ok|done|unfold minus_p; tauto]|].
  intros rt' [(s' & tab & n & -> & Hs) [Ht' Hz']]. split; [split|].
  - split; [|done]. cbn in *. eapply table_ok_ext; [|done]. intros q _. rewrite <- (hashed_same_iff _ _ q Hs). unfold with_p, minus_p.
    destruct (decide (q = shape o)) as [->|Hne]; [|tauto]. split; [intros _; by exists sh|by left].
  - done.
  - by eapply core_same.
  - split; [by apply kept_same|]. split; [done|]. destruct (same_lookup _ _ _ _ Hs Es) as [k E']. by exists k.
Qed.

Lemma unlinked_update E rt p o sh rt' o' sh' : unlinked E rt p o sh ->
  shape o' = shape o \/ shapes rt !! shape o' = None -> shape o' <> 0 -> shape_ok sh' -> sh_ref_count sh' = 1 -> prop_size sh' <= zlen (prop o') ->
  shapes rt' = <[shape o' := sh']> (delete (shape o) (shapes rt)) -> objects rt' = <[p := o']> (objects rt) ->
  hash_table rt' = hash_table rt -> shape_hash_bits rt' = shape_hash_bits rt -> shape_hash_size rt' = shape_hash_size rt ->
  unlinked E rt' p o' sh' /\ rt_kept p E rt rt'.
Proof.
  intros [[Ht Hz] Hb Hc [Eo Es] H1] Hy Hy0 Hok Hc1 Hsz Hs Ho Htab Hbits Hsize.
  destruct (core_own _ _ _ _ _ _ _ _ Hc Eo Es H1 Hy Hy0 Hok Hc1 Hsz) as [Hc' Hk]. split; [|unfold rt_kept; by rewrite Hs, Ho]. split.
  - split; [|by rewrite Hsize, Hbits]. rewrite Htab, Hbits, Hs.
    assert (Hx : forall q, q <> shape o' -> q <> shape o -> (<[shape o' := sh']> (delete (shape o) (shapes rt))) !! q = shapes rt !! q).
    { intros q H2 H3. by rewrite lookup_insert_ne, lookup_delete_ne. }
    assert (Hmem : forall q, minus_p (shape o) (hashed (shapes rt)) q -> q <> shape o').
    { intros q [Hne (shq & Eq & _)] ->. destruct Hy as [?|?]; congruence. }
    apply (table_ok_ext (minus_p (shape o) (hashed (shapes rt)))).
    + intros q _. unfold minus_p at 2. split.
      * intros Hq. pose proof (Hmem q Hq). destruct Hq as [Hne Hq]. split; [done|]. unfold hashed. by rewrite Hx.
      * intros [H2 (shq & Eq & Hq)]. rewrite lookup_insert_ne in Eq by done. apply lookup_delete_Some in Eq as [H3 Eq]. split; [done|]. by exists shq.
    + apply (table_ok_frame _ (shapes rt)); [done|]. intros q Hq. apply Hx; [by apply Hmem|apply Hq].
  - by rewrite Hbits.
  - by rewrite Hs, Ho.
  - split; [rewrite Ho; apply lookup_insert_eq|rewrite Hs; apply lookup_insert_eq].
  - done.
Qed.

(** In place. *)
Lemma unlinked_put E rt p o sh sh' : unlinked E rt p o sh -> shape_ok sh' -> sh_ref_count sh' = 1 -> prop_size sh' <= zlen (prop o) ->
  unlinked E (put_shape (shape o) sh' rt) p o sh' /\ rt_kept p E rt (put_shape (shape o) sh' rt).
Proof.
  intros Hu Hok H1 Hsz. pose proof (ul_own _ _ _ _ _ Hu) as [Eo Es].
  apply (unlinked_update E rt p o sh _ o sh' Hu); [by left| |done|done|done| | |done|done|done].
  - by apply (co_nonzero _ _ _ (ul_core _ _ _ _ _ Hu) _ _ Es).
  - cbn. by rewrite delete_insert_same.
  - cbn. symmetry. by apply insert_id.
Qed.
Lemma unlinked_values E rt p o sh vs k : unlinked E rt p o sh -> prop_size sh <= zlen vs ->
  unlinked E (put_object p (MkJSObject (shape o) vs k) rt) p (MkJSObject (shape o) vs k) sh /\ rt_kept p E rt (put_object p (MkJSObject (shape o) vs k) rt).
Proof.
  intros Hu Hsz. pose proof (ul_own _ _ _ _ _ Hu) as [Eo Es]. pose proof (ul_core _ _ _ _ _ Hu) as Hc.
  apply (unlinked_update E rt p o sh _ (MkJSObject (shape o) vs k) sh Hu); [by left| | | |done| |done|done|done|done].
  - by apply (co_nonzero _ _ _ Hc _ _ Es).
  - by apply (co_shape _ _ _ Hc _ _ Es).
  - apply Hu.
  - cbn. rewrite delete_insert_same. symmetry. by apply insert_id.
Qed.

(** ** Getting a shape that may be changed *)

Definition layout (sh sh' : JSShape) : Prop :=
  sh_prop sh' = sh_prop sh /\ prop_hash sh' = prop_hash sh /\ prop_hash_mask sh' = prop_hash_mask sh /\ prop_size sh' = prop_size sh /\
  deleted_prop_count sh' = deleted_prop_count sh /\ sh_hash sh' = sh_hash sh.

Lemma own_size E rt p o sh : rt_ok E rt -> own rt p o sh -> prop_size sh <= zlen (prop o).
Proof. intros Hok [Eo Es]. destruct (co_object _ _ _ (rt_core _ _ Hok) _ _ Eo) as (sh' & Es' & H). by simplify_eq. Qed.

(** The object moves from a shared shape to the shape [y]. *)
Lemma move_spec E rt p o sh y shy : rt_ok (y :: E) rt -> own rt p o sh -> shapes rt !! y = Some shy -> y <> shape o -> sh_ref_count sh <> 1 ->
  prop_size shy <= zlen (prop o) ->
  yields (free_shape (shape o) rt) (fun rt1 => objects rt1 = objects rt /\
    let rt' := put_object p (MkJSObject y (prop o) (kind o)) rt1 in
    rt_ok E rt' /\ rt_kept p E rt rt' /\ own rt' p (MkJSObject y (prop o) (kind o)) shy).
Proof.
  intros Hok [Eo Es] Ey Hne H1 Hsz. set (o' := MkJSObject y (prop o) (kind o)). pose proof (rt_core _ _ Hok) as Hc.
  destruct (core_reassign E _ _ p o y shy o' Hc Eo Ey eq_refl Hsz) as [Hc2 Hk2]. pose proof (co_pos _ _ _ Hc _ _ Es) as Hpos.
  assert (Hok2 : rt_ok (shape o :: E) (put_object p o' rt)) by (split; [apply Hok|apply Hok|done]).
  pose proof (free_spec E (shape o) sh _ Hok2 Es) as Hf. unfold free_shape in *. rewrite (get_shape_eq _ _ _ Es).
  rewrite (get_shape_eq (shape o) sh (put_object p o' rt) Es) in Hf. cbn [mbind outcome_bind] in *. destruct (Z.leb_spec (sh_ref_count sh - 1) 0) as [?|_]; [lia|].
  cbn [yields mret outcome_ret] in *. destruct Hf as (Hok3 & Hk3 & _). split; [done|]. split; [done|]. split.
  - eapply kept_trans; [exact Hk2|apply Hk3].
  - split; cbn; [apply lookup_insert_eq|]. by rewrite lookup_insert_ne.
Qed.

Lemma prepare_update_spec E p o sh rt : rt_ok E rt -> own rt p o sh ->
  yields (js_shape_prepare_update p rt) (fun '(r, rt') => rt_ok E rt' /\ rt_kept p E rt rt' /\
    ((r = -1 /\ is_hashed sh = true /\ objects rt' = objects rt /\ exists n, shapes rt' !! shape o = Some (set_next n sh)) \/
     (r = 0 /\ exists y sh', own rt' p (MkJSObject y (prop o) (kind o)) sh' /\ layout sh sh' /\ is_hashed sh' = false))).
Proof.
  intros Hok Hown. pose proof Hown as [Eo Es]. pose proof (own_size _ _ _ _ _ Hok Hown) as Hsz. unfold js_shape_prepare_update.
  rewrite (get_object_eq _ _ _ Eo). cbn [mbind outcome_bind]. rewrite (get_shape_eq _ _ _ Es). cbn [mbind outcome_bind].
  destruct (is_hashed sh) eqn:Hh; [destruct (Z.eqb_spec (sh_ref_count sh) 1) as [H1|H1]; cbn [negb]|].
  - pose proof Hok as [Ht Hb Hc]. apply yields_bind.
    eapply yields_mono; [apply (unlink_spec (hashed (shapes rt)) _ sh); [done|by eapply core_shapes_ok|done|by exists sh]|].
    intros rt1 [(s1 & tab & n & -> & Hs) Ht1]. cbn beta. destruct (same_lookup _ _ _ _ Hs Es) as [k Es1].
    set (rt1 := set_table _ _ _ _ _) in *. rewrite (get_shape_eq (shape o) (set_next k sh) rt1) by done. cbn [mbind outcome_bind].
    assert (Hu : unlinked E rt1 p o (set_next k sh)).
    { split; [|done|by eapply core_same|done|done]. eapply rt_table_ext; [|done]. intros q _. unfold minus_p. cbn. by rewrite (hashed_same_iff _ _ q Hs). }
    destruct (unlinked_put _ _ _ _ _ (set_hashed false (sh_hash (set_next k sh)) (set_next k sh)) Hu) as [Hu2 Hk2].
    + destruct (co_shape _ _ _ Hc _ _ Es). by split.
    + done.
    + done.
    + cbn [yields]. split; [by eapply unlinked_detached|]. split; [eapply kept_trans; [by apply (kept_same _ _ _ _ s1)|done]|]. right. split; [done|].
      exists (shape o), (set_hashed false (sh_hash sh) (set_next k sh)). split; [|done]. destruct o. apply Hu2.
  - apply yields_bind. eapply yields_mono; [by apply (clone_spec E (shape o) sh)|]. intros [y rt1] [[-> Hss]|(Hy & Ey & Ho & Hs & Hok1)].
    + rewrite Z.eqb_refl. cbn [yields]. split; [by eapply same_state_ok|]. destruct Hss as (Hs & Ho & _). unfold rt_kept. rewrite Hs, Ho. split; [apply kept_refl|].
      left. split; [done|]. split; [done|]. split; [done|]. exists (shape_hash_next sh). rewrite Es. by destruct sh.
    + destruct (Z.eqb_spec y 0); [done|]. cbn beta. assert (Hne : y <> shape o) by congruence. apply yields_bind.
      assert (Hown1 : own rt1 p o sh) by (split; [by rewrite Ho|by rewrite Hs, lookup_insert_ne]).
      eapply yields_mono; [eapply (move_spec E rt1 p o sh y); [done|done|by rewrite Hs, lookup_insert_eq|done|done|done]|].
      intros rt2 (Ho2 & Hok2 & Hk2 & Hown2). cbn beta. unfold set_psh. rewrite (get_object_eq p o rt2) by (by rewrite Ho2, Ho). cbn [mbind outcome_bind].
      cbn [yields mret outcome_ret]. split; [done|]. split.
      * eapply kept_trans; [|exact Hk2]. unfold rt_kept. rewrite Hs, Ho. by apply kept_new.
      * right. split; [done|]. eexists _, _. split; [done|]. by split.
  - cbn [yields]. split; [done|]. split; [apply kept_refl|]. right. split; [done|]. exists (shape o), sh. split; [by destruct o|]. by split.
Qed.

(** ** Room for more properties *)

(** The same properties; the values of all of them are still there. *)
Record evolved (o : JSObject) (sh : JSShape) (o' : JSObject) (sh' : JSShape) : Prop := {
  ev_kind : kind o' = kind o;
  ev_atoms : pr_atom <$> sh_prop sh' = pr_atom <$> sh_prop sh;
  ev_flags : pr_flags <$> sh_prop sh' = pr_flags <$> sh_prop sh;
  ev_values : take (length (sh_prop sh)) (prop o') = take (length (sh_prop sh)) (prop o);
  ev_hashed : is_hashed sh' = is_hashed sh;
  ev_proto : proto sh' = proto sh }.
Lemma evolved_refl o sh : evolved o sh o sh.
Proof. by split. Qed.
Lemma evolved_length o sh o' sh' : evolved o sh o' sh' -> length (sh_prop sh') = length (sh_prop sh).
Proof. intros [_ Ha _ _ _ _]. apply (f_equal length) in Ha. by rewrite !length_fmap in Ha. Qed.
Lemma evolved_trans o1 sh1 o2 sh2 o3 sh3 : evolved o1 sh1 o2 sh2 -> evolved o2 sh2 o3 sh3 -> evolved o1 sh1 o3 sh3.
Proof.
  intros H1 H2. pose proof (evolved_length _ _ _ _ H1) as Hl. destruct H1 as [A1 A2 A3 A4 A5 A6], H2 as [B1 B2 B3 B4 B5 B6]. rewrite Hl in B4.
  split; congruence.
Qed.
Lemma evolved_entries o sh o' sh' : evolved o sh o' sh' -> (length (sh_prop sh) <= length (prop o))%nat ->
  entries (sh_prop sh') (prop o') = entries (sh_prop sh) (prop o).
Proof.
  intros [_ Ha Hf Hv _ _] Hl. apply entries_ext; [done|done| |done]. exists (drop (length (sh_prop sh)) (prop o)), (drop (length (sh_prop sh)) (prop o')).
  rewrite take_drop. split; [done|]. by rewrite <- Hv, take_drop.
Qed.

Lemma unlinked_mem E m rt p o sh : unlinked E rt p o sh -> unlinked E (set_mem m rt) p o sh.
Proof. intros [[A A'] B C D F]. by split. Qed.

Lemma resize_values_spec n vs k : 0 <= n -> (k <= length vs)%nat -> Z.of_nat k <= n ->
  zlen (resize_values n vs) = n /\ take k (resize_values n vs) = take k vs.
Proof.
  intros Hn Hk Hkn. unfold resize_values. split.
  - unfold zlen. rewrite length_app, length_take, length_replicate. lia.
  - rewrite take_app_le by (rewrite length_take; lia). rewrite take_take. f_equal. lia.
Qed.

Lemma shape_count_nat E rt p o sh : unlinked E rt p o sh -> (length (sh_prop sh) <= length (prop o))%nat /\ prop_size sh <= zlen (prop o) /\ shape_ok sh.
Proof.
  intros Hu. pose proof (ul_own _ _ _ _ _ Hu) as [Eo Es]. pose proof (ul_core _ _ _ _ _ Hu) as Hc.
  destruct (co_object _ _ _ Hc _ _ Eo) as (sh' & Es' & Hsz). simplify_eq. pose proof (co_shape _ _ _ Hc _ _ Es) as Hok. pose proof (so_count _ Hok).
  unfold prop_count, zlen in *. split; [lia|]. by split.
Qed.

Lemma realloc_prop_spec E rt p o sh n : unlinked E rt p o sh -> prop_size sh <= n ->
  yields (realloc_prop p n rt) (fun '(ok, rt') => exists o', unlinked E rt' p o' sh /\ rt_kept p E rt rt' /\ evolved o sh o' sh /\ shape o' = shape o /\
    (ok = true -> n <= zlen (prop o')) /\ shapes rt' = shapes rt).
Proof.
  intros Hu Hn. pose proof (ul_own _ _ _ _ _ Hu) as [Eo Es]. destruct (shape_count_nat _ _ _ _ _ Hu) as (Hlen & Hsz & Hok).
  unfold realloc_prop. rewrite (get_object_eq _ _ _ Eo). cbn [mbind outcome_bind]. destruct (malloc_spec (16 * n) rt) as (r & m & -> & Hr).
  pose proof (unlinked_mem E m rt p o sh Hu) as Hum. pose proof (so_count _ Hok) as Hcnt. pose proof (so_size _ Hok). unfold prop_count, zlen in Hcnt.
  destruct r as [q|]; cbn [yields mret outcome_ret].
  - destruct (resize_values_spec n (prop o) (length (sh_prop sh))) as [Hv1 Hv2]; [lia|done|lia|].
    destruct (unlinked_values _ _ _ _ _ (resize_values n (prop o)) (kind o) Hum) as [Hu' Hk']; [lia|].
    exists (MkJSObject (shape o) (resize_values n (prop o)) (kind o)). split; [done|]. split; [done|]. split; [by split|]. split; [done|]. split; [|done].
    intros _. cbn. lia.
  - exists o. split; [done|]. split; [apply kept_refl|]. split; [apply evolved_refl|]. split; [done|]. by split.
Qed.

Lemma double_hash_spec n new_size k : n = 2 ^ k -> 0 <= k <= 30 -> new_size <= 2 ^ 30 ->
  yields (loop 64 (double_hash_size new_size) n) (fun n' => exists k', n' = 2 ^ k' /\ k <= k' <= 30 /\ new_size <= n').
Proof.
  intros Hn Hk Hs. apply (loop_yields_nat (double_hash_size new_size) (fun i n => exists k', n = 2 ^ k' /\ k <= k' <= 30 /\ i = Z.to_nat (30 - k')) _)
    with (n := Z.to_nat (30 - k)); [|exists k; split; [done|]; split; [lia|done]|lia].
  intros i x (k' & -> & Hk' & ->). unfold double_hash_size. destruct (Z.ltb_spec (2 ^ k') new_size) as [Hlt|Hge]; cbn.
  - assert (k' < 30) by (destruct (decide (k' = 30)) as [->|]; lia). assert (E2 : 2 * 2 ^ k' = 2 ^ (k' + 1)) by (rewrite Z.pow_add_r by lia; lia).
    rewrite E2. rewrite wrap_small by (split; [lia|apply Z.pow_lt_mono_r; lia]). exists (Z.to_nat (30 - (k' + 1))). split; [lia|].
    exists (k' + 1). split; [done|]. split; lia.
  - exists k'. split; [done|]. split; [lia|lia].
Qed.

Lemma mask_u32 sh : shape_ok sh -> exists k, 0 <= k <= 30 /\ prop_hash_mask sh = 2 ^ k - 1 /\ u32 (prop_hash_mask sh + 1) = 2 ^ k.
Proof.
  intros Hok. destruct (so_mask _ Hok) as (k & Hk & E). exists k. split; [done|]. split; [lia|]. rewrite E. apply wrap_small.
  split; [lia|apply Z.pow_lt_mono_r; lia].
Qed.

(** The table that [rehash_props] builds makes a good shape. *)
Lemma rehashed_ok sh k new_size tab props : shape_ok sh -> 0 <= k <= 30 -> zlen tab = 2 ^ k -> chained (2 ^ k - 1) props tab ->
  pr_atom <$> props = pr_atom <$> sh_prop sh -> prop_count sh <= new_size < MAX_PROPS ->
  shape_ok (set_props (2 ^ k - 1) new_size (deleted_prop_count sh) tab props sh).
Proof.
  intros [A B C D F G N P] Hk Hl Hc Ha Hn. assert (Hlen : zlen props = prop_count sh).
  { unfold prop_count, zlen. apply (f_equal length) in Ha. rewrite !length_fmap in Ha. lia. }
  split; cbn; [exists k; lia|lia|done|unfold prop_count in *; cbn; lia| | | |done].
  - pose proof (zlen_nonneg (sh_prop sh)). unfold prop_count in Hn. lia.
  - rewrite G, !dead_count, (atoms_ext _ _ Ha). unfold prop_count in Hlen. lia.
  - change (NoDup (atoms props)). by rewrite (atoms_ext _ _ Ha).
Qed.

(** After an attempt to resize: status, shape, state. *)
Definition resized (E : list Z) (rt : Runtime) (p : Z) (o : JSObject) (sh : JSShape) (count : Z) (res : Z * Z * Runtime) : Prop :=
  let '(r, q, rt') := res in
  exists o' sh', unlinked E rt' p o' sh' /\ rt_kept p E rt rt' /\ evolved o sh o' sh' /\
    ((r = -1 /\ q = shape o /\ shape o' = shape o /\ sh' = sh) \/ (r = 0 /\ q = shape o' /\ count <= prop_size sh' /\ sh_hash sh' = sh_hash sh)).

Lemma resize_properties_spec E rt p o sh count : unlinked E rt p o sh -> 0 <= count < 2 ^ 30 -> prop_count sh <= count ->
  yields (resize_properties (shape o) (Some p) count rt) (resized E rt p o sh count).
Proof.
  intros Hu Hcount Hcnt. pose proof (ul_own _ _ _ _ _ Hu) as [Eo Es]. destruct (shape_count_nat _ _ _ _ _ Hu) as (Hlen & Hsz & Hok).
  pose proof (so_size _ Hok) as Hps. unfold MAX_PROPS in Hps. unfold resize_properties. rewrite (get_shape_eq _ _ _ Es). cbn [mbind outcome_bind].
  unfold c_int. assert (Hi : int_ok (prop_size sh * 3) = true) by (unfold int_ok, INT32_MAX; lia). rewrite Hi. cbn [mbind outcome_bind].
  set (new_size := max_int count (prop_size sh * 3 / 2)).
  assert (Hns : count <= new_size /\ prop_size sh <= new_size /\ new_size <= 2 ^ 30).
  { pose proof (Z.div_mod (prop_size sh * 3) 2 ltac:(lia)). pose proof (Z.mod_pos_bound (prop_size sh * 3) 2 ltac:(lia)).
    unfold new_size, max_int. destruct (Z.gtb_spec count (prop_size sh * 3 / 2)); lia. }
  apply yields_bind. eapply yields_mono; [by apply (realloc_prop_spec E rt p o sh new_size); [|lia]|].
  intros [ok rt1] (o1 & Hu1 & Hk1 & Hev1 & Hsh1 & Hok1 & Hs1). cbn beta. destruct ok; cbn [negb].
  2:{ cbn [yields mret outcome_ret resized]. exists o1, sh. split; [done|]. split; [done|]. split; [done|]. left. done. }
  specialize (Hok1 eq_refl). destruct (mask_u32 sh Hok) as (k & Hk & Hmask & ->).
  apply yields_bind. eapply yields_mono; [apply (double_hash_spec (2 ^ k) new_size k); [done|done|lia]|]. intros n' (k' & -> & Hk' & Hn').
  pose proof (ul_own _ _ _ _ _ Hu1) as [Eo1 Es1]. rewrite Hsh1 in Es1.
  destruct (Z.eqb_spec (2 ^ k') (2 ^ k)) as [Heq|Hneq]; cbn [negb].
  - destruct (realloc_spec (shape o) (get_shape_size (2 ^ k') new_size) rt1) as (r & m & -> & Hr). destruct r as [q|].
    + destruct (Hr q eq_refl) as (Hq0 & Hq & Hlim). unfold get_shape_size in Hlim. pose proof (Z.pow_nonneg 2 k' ltac:(lia)).
      set (sh' := set_props _ _ _ _ _ _). unfold set_psh. rewrite (get_object_eq p o1) by done. cbn [mbind outcome_bind yields mret outcome_ret resized].
      set (o' := MkJSObject q (prop o1) (kind o1)).
      match goal with |- exists _ _, unlinked _ ?r _ _ _ /\ _ => destruct (unlinked_update E rt1 p o1 sh r o' sh' Hu1) as [Hu' Hk'2] end.
      * cbn. rewrite Hsh1. destruct Hq as [->|Hq]; [by left|by right].
      * done.
      * assert (E' : sh' = set_props (2 ^ k - 1) new_size (deleted_prop_count sh) (prop_hash sh) (sh_prop sh) sh) by (unfold sh'; by rewrite Hmask).
        rewrite E'. apply rehashed_ok; [done|done| | |done|].
        -- rewrite (so_len _ Hok). lia.
        -- rewrite <- Hmask. apply Hok.
        -- pose proof (so_count _ Hok). unfold MAX_PROPS. lia.
      * apply Hu.
      * cbn. lia.
      * cbn. by rewrite Hsh1.
      * done.
      * done.
      * done.
      * done.
      * exists o', sh'. split; [done|]. split; [by eapply kept_trans|]. split; [by destruct Hev1; split|]. right. split; [done|]. split; [done|].
        split; [cbn; lia|done].
    + cbn [yields mret outcome_ret resized]. exists o1, sh. split; [|split; [done|split; [done|by left]]].
      by apply (unlinked_mem E m) in Hu1 as [[A A'] B C D F].
  - destruct (malloc_spec (get_shape_size (2 ^ k') new_size) rt1) as (r & m & -> & Hr). destruct r as [q|].
    + destruct (Hr q eq_refl) as (Hq0 & Hq & _ & Hlim). unfold get_shape_size in Hlim. pose proof (Z.pow_nonneg 2 k' ltac:(lia)). pose proof (so_count _ Hok) as Hpc.
      apply yields_bind. replace (2 ^ k') with (2 ^ k' - 1 + 1) at 2 by lia.
      eapply yields_mono; [apply (rehash_props_spec k' (2 ^ k' - 1) (sh_prop sh) ltac:(lia) eq_refl [])|].
      * unfold zlen. rewrite length_replicate. lia.
      * unfold prop_count in Hpc. change (zlen []) with 0. unfold MAX_PROPS. lia.
      * apply chained_empty.
      * intros [tab props] (Htl & Hch & Ha & Hf). cbn beta. cbn match.
        set (sh' := set_props _ _ _ _ _ _). unfold set_psh. rewrite (get_object_eq p o1) by done. cbn [mbind outcome_bind yields mret outcome_ret resized].
        set (o' := MkJSObject q (prop o1) (kind o1)).
        match goal with |- exists _ _, unlinked _ ?r _ _ _ /\ _ => destruct (unlinked_update E rt1 p o1 sh r o' sh' Hu1) as [Hu' Hk'2] end.
        -- cbn. by right.
        -- done.
        -- apply rehashed_ok; [done|lia|lia|done|done|]. unfold MAX_PROPS. lia.
        -- apply Hu.
        -- cbn. lia.
        -- cbn. by rewrite Hsh1.
        -- done.
        -- done.
        -- done.
        -- done.
        -- exists o', sh'. split; [done|]. split; [by eapply kept_trans|]. split; [by destruct Hev1; split|]. right. split; [done|]. split; [done|].
           split; [cbn; lia|done].
    + cbn [yields mret outcome_ret resized]. exists o1, sh. split; [|split; [done|split; [done|by left]]]. by apply unlinked_mem.
Qed.

(** ** Adding a property *)

Lemma own_unlink E rt p o sh : rt_ok E rt -> own rt p o sh -> sh_ref_count sh = 1 ->
  yields (if is_hashed sh then js_shape_hash_unlink (shape o) rt else mret rt) (fun rt' => exists n, unlinked E rt' p o (set_next n sh) /\ rt_kept p E rt rt').
Proof.
  intros Hok Hown H1. pose proof Hown as [Eo Es]. destruct (is_hashed sh) eqn:Hh.
  - pose proof Hok as [Ht Hb Hc].
    eapply yields_mono; [apply (unlink_spec (hashed (shapes rt)) _ sh); [done|by eapply core_shapes_ok|done|by exists sh]|].
    intros rt1 [(s1 & tab & n & -> & Hs) Ht1]. destruct (same_lookup _ _ _ _ Hs Es) as [k Es1]. exists k. split; [|by apply kept_same].
    split; [|done|by eapply core_same|done|done]. eapply rt_table_ext; [|done]. intros q _. unfold minus_p. cbn. by rewrite (hashed_same_iff _ _ q Hs).
  - cbn. exists (shape_hash_next sh). split; [|apply kept_refl]. replace (set_next (shape_hash_next sh) sh) with sh by (by destruct sh).
    by apply detached_unlinked.
Qed.

(** The owner changes its shape in place, except for its place in the table. *)
Lemma owned_put E rt p o sh sh' : rt_ok E rt -> own rt p o sh -> sh_ref_count sh = 1 -> shape_ok sh' -> sh_ref_count sh' = 1 ->
  prop_size sh' <= zlen (prop o) -> is_hashed sh' = is_hashed sh -> sh_hash sh' = sh_hash sh -> shape_hash_next sh' = shape_hash_next sh ->
  rt_ok E (put_shape (shape o) sh' rt) /\ rt_kept p E rt (put_shape (shape o) sh' rt) /\ own (put_shape (shape o) sh' rt) p o sh'.
Proof.
  intros [[Ht Hz] Hb Hc] [Eo Es] H1 Hok H1' Hsz Hh Hhash Hn.
  destruct (core_own E _ _ p o sh o sh' Hc Eo Es H1) as [Hc' Hk']; [by left|by eapply co_nonzero|done|done|done|].
  rewrite delete_insert_same, (insert_id (objects rt)) in Hc', Hk' by done. split; [split; [split|done|done]|split; [done|]].
  - cbn. apply (table_ok_ext (hashed (shapes rt))); [intros q _; symmetry; by apply (hashed_insert _ _ sh)|]. by apply (table_ok_insert _ _ _ _ _ sh).
  - done.
  - split; [done|]. cbn. apply lookup_insert_eq.
Qed.

Definition append_property (sh : JSShape) (next atom flags : Z) : JSShape :=
  MkJSShape (sh_ref_count sh) (is_hashed sh) (has_small_array_index sh || __JS_AtomIsTaggedInt atom) (sh_hash sh) (prop_hash_mask sh) (prop_size sh)
    (deleted_prop_count sh) (shape_hash_next sh) (proto sh) (<[Z.to_nat (atom .& prop_hash_mask sh) := prop_count sh + 1]> (prop_hash sh))
    (sh_prop sh ++ [MkShapeProperty next flags atom]).
Lemma append_ok sh atom flags next : shape_ok sh -> prop_count sh < prop_size sh -> atom <> JS_ATOM_NULL -> atom ∉ atoms (sh_prop sh) ->
  prop_hash sh !! Z.to_nat (atom .& prop_hash_mask sh) = Some next -> shape_ok (append_property sh (wrap 26 next) atom flags).
Proof.
  intros Hok Hroom Ha Hn Hnx. pose proof (land_mask sh atom Hok) as Hb. pose proof Hok as [A B C D F G N P].
  pose proof (ch_tab _ _ _ C _ Hb) as Hl. assert (next = last_in (prop_hash_mask sh) (atom .& prop_hash_mask sh) (sh_prop sh)) as -> by congruence.
  pose proof (last_in_range (prop_hash_mask sh) (atom .& prop_hash_mask sh) (sh_prop sh)) as Hr. unfold prop_count, MAX_PROPS in *.
  set (pr := MkShapeProperty (wrap 26 (last_in (prop_hash_mask sh) (atom .& prop_hash_mask sh) (sh_prop sh))) flags atom). assert (Hlive : live pr = true) by (by apply live_true).
  assert (Hap : atoms [pr] = [atom]) by (unfold atoms; by rewrite filter_cons_True).
  split; cbn; [done|unfold zlen in *; by rewrite length_insert| | |done| | |done].
  - apply (chained_snoc _ _ _ pr); [done|done|done|]. cbn. rewrite wrap_small; [done|lia].
  - unfold prop_count. cbn. rewrite zlen_app. change (zlen [_]) with 1. lia.
  - fold pr. rewrite G, dead_app. assert (dead [pr] = 0) as ->; [|lia]. unfold dead. rewrite filter_cons_False; [done|]. rewrite Hlive. done.
  - fold pr. change (NoDup (atoms (sh_prop sh ++ [pr]))). rewrite atoms_app, Hap. apply list.NoDup_app. split; [done|]. split; [|apply list.NoDup_singleton].
    intros x Hx Hx'. apply list_elem_of_singleton in Hx' as ->. done.
Qed.

(** A property has been added to [p]. *)
Record added (rt' : Runtime) (p atom flags i : Z) (o : JSObject) (sh : JSShape) (o' : JSObject) (sh' : JSShape) : Prop := {
  ad_own : own rt' p o' sh';
  ad_props : exists props next, sh_prop sh' = props ++ [MkShapeProperty next flags atom] /\ i = zlen props /\
    pr_atom <$> props = pr_atom <$> sh_prop sh /\ pr_flags <$> props = pr_flags <$> sh_prop sh;
  ad_values : take (length (sh_prop sh)) (prop o') = take (length (sh_prop sh)) (prop o);
  ad_kind : kind o' = kind o }.

Lemma add_shape_property_spec E rt p o sh atom flags : rt_ok E rt -> own rt p o sh -> sh_ref_count sh = 1 ->
  atom <> JS_ATOM_NULL -> atom ∉ atoms (sh_prop sh) -> 0 <= flags < 64 ->
  yields (add_shape_property (shape o) (Some p) atom flags rt) (fun '(r, q, rt') => rt_ok E rt' /\ rt_kept p E rt rt' /\
    ((r = -1 /\ (exists o' sh', own rt' p o' sh' /\ evolved o sh o' sh') /\ prop_count sh >= prop_size sh) \/
     (r = 0 /\ exists o' sh', added rt' p atom flags (prop_count sh' - 1) o sh o' sh' /\ is_hashed sh' = is_hashed sh /\ sh_ref_count sh' = 1 /\
        (prop_count sh < prop_size sh -> prop_size sh' = prop_size sh)))).
Proof.
  intros Hok Hown H1 Ha Hna Hf. pose proof Hown as [Eo Es]. unfold add_shape_property. rewrite (get_shape_eq _ _ _ Es). cbn [mbind outcome_bind].
  apply yields_bind. eapply yields_mono; [by apply (own_unlink E rt p o sh)|]. intros rt1 (n & Hu1 & Hk1). cbn beta.
  set (sh1 := set_next n sh) in *. set (new_hash := shape_hash _ _).
  assert (Hres : yields (if prop_count sh >=? prop_size sh then resize_properties (shape o) (Some p) (prop_count sh + 1) rt1 else mret (0, shape o, rt1))
    (fun res => resized E rt1 p o sh1 (prop_count sh + 1) res /\ (prop_count sh < prop_size sh -> res = (0, shape o, rt1)))).
  { destruct (shape_count_nat _ _ _ _ _ Hu1) as (_ & _ & Hok1). pose proof (so_count _ Hok1) as Hc1. pose proof (so_size _ Hok1) as Hs1. unfold MAX_PROPS in Hs1.
    change (prop_count sh1) with (prop_count sh) in Hc1. change (prop_size sh1) with (prop_size sh) in *. pose proof (zlen_nonneg (sh_prop sh)).
    unfold prop_count in *. destruct (Z.geb_spec (zlen (sh_prop sh)) (prop_size sh)) as [Hge|Hlt].
    - eapply yields_mono; [apply (resize_properties_spec E rt1 p o sh1); [done|lia|unfold prop_count; cbn; lia]|]. intros res Hr. split; [done|lia].
    - cbn. split; [|done]. exists o, sh1. split; [done|]. split; [apply kept_refl|]. split; [apply evolved_refl|]. right. split; [done|]. split; [done|]. cbn. split; [lia|done]. }
  apply yields_bind. eapply yields_mono; [exact Hres|]. clear Hres. intros [[r q] rt2] [(o2 & sh2 & Hu2 & Hk2 & Hev2 & Hcase) Hroom]. cbn beta. cbn match.
  pose proof (ul_own _ _ _ _ _ Hu2) as [Eo2 Es2]. assert (Hh2 : is_hashed sh2 = is_hashed sh) by (by rewrite (ev_hashed _ _ _ _ Hev2)).
  assert (Hkept2 : rt_kept p E rt rt2) by (by eapply kept_trans).
  destruct Hcase as [(-> & -> & Hsh & ->)|(-> & -> & Hcount & Hhash)].
  - cbn [Z.eqb negb]. change (-1 =? 0) with false. cbn [negb]. rewrite <- Hsh. apply yields_bind.
    assert (Hge : prop_count sh >= prop_size sh).
    { destruct (decide (prop_count sh < prop_size sh)) as [Hlt|]; [|lia]. specialize (Hroom Hlt). by injection Hroom. }
    destruct (is_hashed sh) eqn:Hh.
    + eapply yields_mono; [by apply (unlinked_linked E rt2 p o2 sh1)|]. intros rt3 (Hok3 & Hk3 & Ho3 & m & Hown3). cbn [yields mret outcome_ret].
      split; [done|]. split; [by eapply kept_trans|]. left. split; [done|]. split; [|done]. exists o2, (set_next m sh1). split; [done|].
      by destruct Hev2; split.
    + cbn [yields mret outcome_ret]. split; [by eapply unlinked_detached|]. split; [done|]. left. split; [done|]. split; [|done].
      exists o2, sh1. split; [done|]. by destruct Hev2; split.
  - change (negb (0 =? 0)) with false. cbn match. rewrite (get_shape_eq _ _ _ Es2). cbn [mbind outcome_bind].
    pose proof (ul_core _ _ _ _ _ Hu2) as Hc2. pose proof (co_shape _ _ _ Hc2 _ _ Es2) as Hok2. destruct (shape_count_nat _ _ _ _ _ Hu2) as (Hl2 & Hz2 & _).
    assert (Hlink : yields (if is_hashed sh then js_shape_hash_link (shape o2) (put_shape (shape o2) (set_hashed true new_hash sh2) rt2) else mret rt2)
      (fun rt3 => exists sh3, rt_ok E rt3 /\ rt_kept p E rt rt3 /\ own rt3 p o2 sh3 /\ sh_prop sh3 = sh_prop sh2 /\ prop_size sh3 = prop_size sh2 /\
         sh_ref_count sh3 = 1 /\ is_hashed sh3 = is_hashed sh)).
    { destruct (is_hashed sh) eqn:Hh.
      - destruct (unlinked_put _ _ _ _ _ (set_hashed true new_hash sh2) Hu2) as [Hu3 Hk3]; [|apply Hu2|done|].
        { destruct Hok2. split; try done. cbn. unfold new_hash, shape_hash. apply wrap_range. done. }
        eapply yields_mono; [by apply (unlinked_linked E _ p o2 _ Hu3)|]. intros rt3 (Hok3 & Hk4 & Ho3 & m & Hown3).
        exists (set_next m (set_hashed true new_hash sh2)). split; [done|]. split; [eapply kept_trans; [done|]; by eapply kept_trans|]. split; [done|].
        split; [done|]. split; [done|]. split; [apply Hu2|done].
      - cbn. exists sh2. split; [by eapply unlinked_detached|]. split; [done|]. split; [done|]. split; [done|]. split; [done|]. split; [apply Hu2|done]. }
    apply yields_bind. rewrite Hh2. eapply yields_mono; [exact Hlink|]. clear Hlink. intros rt3 (sh3 & Hok3 & Hk3 & Hown3 & Hp3 & Hsz3 & H13 & Hh3). cbn beta.
    pose proof Hown3 as [Eo3 Es3]. rewrite (get_shape_eq _ _ _ Es3). cbn [mbind outcome_bind]. pose proof (co_shape _ _ _ (rt_core _ _ Hok3) _ _ Es3) as Hso3.
    assert (Hpc : prop_count sh3 = prop_count sh).
    { unfold prop_count, zlen. rewrite Hp3, (evolved_length _ _ _ _ Hev2). done. }
    assert (Hlt : prop_count sh3 < prop_size sh3) by lia. unfold c_assert. rewrite (proj2 (Z.ltb_lt _ _) Hlt). cbn [mbind outcome_bind].
    pose proof (land_mask sh3 atom Hso3) as Hb. pose proof (ch_tab _ _ _ (so_chained _ Hso3) _ Hb) as Hnx. rewrite (aget_some _ _ _ (proj1 Hb) Hnx).
    cbn [mbind outcome_bind]. rewrite aset_some by (rewrite (so_len _ Hso3); lia). cbn [mbind outcome_bind yields mret outcome_ret].
    rewrite (wrap_small 6 flags) by (change (2 ^ 6) with 64; lia). set (next := last_in _ _ _) in *.
    change (rt_ok E (emit (DupAtom atom) (put_shape (shape o2) (append_property sh3 (wrap 26 next) atom flags) rt3)) /\
            rt_kept p E rt (emit (DupAtom atom) (put_shape (shape o2) (append_property sh3 (wrap 26 next) atom flags) rt3)) /\
            ((0 = -1 /\ (exists o' sh', own (emit (DupAtom atom) (put_shape (shape o2) (append_property sh3 (wrap 26 next) atom flags) rt3)) p o' sh' /\ evolved o sh o' sh') /\
               prop_count sh >= prop_size sh) \/
             (0 = 0 /\ exists o' sh', added (emit (DupAtom atom) (put_shape (shape o2) (append_property sh3 (wrap 26 next) atom flags) rt3)) p atom flags
               (prop_count sh' - 1) o sh o' sh' /\ is_hashed sh' = is_hashed sh /\ sh_ref_count sh' = 1 /\ (prop_count sh < prop_size sh -> prop_size sh' = prop_size sh)))).
    assert (Hatoms : atoms (sh_prop sh3) = atoms (sh_prop sh)) by (rewrite Hp3; apply atoms_ext; by rewrite (ev_atoms _ _ _ _ Hev2)).
    destruct (owned_put E rt3 p o2 sh3 (append_property sh3 (wrap 26 next) atom flags)) as (Hok4 & Hk4 & Hown4); [done|done|done| |done| |done|done|done|].
    { apply append_ok; [done|done|done|by rewrite Hatoms|done]. }
    { cbn. lia. }
    split; [exact (same_state_ok E _ _ (same_state_emit (DupAtom atom) _) Hok4)|]. split; [by eapply kept_trans|]. right. split; [done|].
    exists o2, (append_property sh3 (wrap 26 next) atom flags). split; [|split; [done|split; [done|]]].
    + split; [done| |exact (ev_values _ _ _ _ Hev2)|exact (ev_kind _ _ _ _ Hev2)]. exists (sh_prop sh3), (wrap 26 next). split; [done|].
      split; [unfold prop_count; cbn; rewrite zlen_app; change (zlen [_]) with 1; lia|]. rewrite Hp3. split; [exact (ev_atoms _ _ _ _ Hev2)|exact (ev_flags _ _ _ _ Hev2)].
    + intros Hlt'. specialize (Hroom Hlt'). injection Hroom as Ho2 Hrt. cbn. rewrite Hsz3. subst rt2. pose proof (ul_own _ _ _ _ _ Hu1) as [Eo1 Es1].
      assert (o2 = o) as -> by congruence. assert (sh2 = sh1) as -> by congruence. done.
Qed.

Lemma added_evolved rt' p atom flags i o sh o2 sh2 o' sh' : evolved o sh o2 sh2 -> added rt' p atom flags i o2 sh2 o' sh' ->
  added rt' p atom flags i o sh o' sh'.
Proof.
  intros Hev [A (props & nx & B1 & B2 & B3 & B4) C D]. pose proof (evolved_length _ _ _ _ Hev) as Hl. destruct Hev as [E1 E2 E3 E4 E5 E6].
  rewrite Hl in C. split; [done| |congruence|congruence]. exists props, nx. split; [done|]. split; [done|]. split; congruence.
Qed.

(** What [add_property] answers. *)
Definition add_result (E : list Z) (rt : Runtime) (p atom flags : Z) (o : JSObject) (sh : JSShape) (res : option Z * Runtime) : Prop :=
  let '(r, rt') := res in
  rt_ok E rt' /\ rt_kept p E rt rt' /\
  match r with
  | None => (exists o' sh', own rt' p o' sh' /\ evolved o sh o' sh') /\ ~ (is_hashed sh = false /\ prop_count sh < prop_size sh)
  | Some i => exists o' sh', added rt' p atom flags i o sh o' sh' /\
      (is_hashed sh = false -> is_hashed sh' = false /\ (prop_count sh < prop_size sh -> prop_size sh' = prop_size sh))
  end.

(** The shape is owned: the last part of [add_property]. *)
Lemma add_finish E rt p o sh atom flags : rt_ok E rt -> own rt p o sh -> sh_ref_count sh = 1 ->
  atom <> JS_ATOM_NULL -> atom ∉ atoms (sh_prop sh) -> 0 <= flags < 64 ->
  yields (add_owned p atom flags rt) (add_result E rt p atom flags o sh).
Proof.
  intros Hok Hown H1 Ha Hna Hf. pose proof Hown as [Eo Es]. unfold add_owned. rewrite (get_object_eq _ _ _ Eo). cbn [mbind outcome_bind]. rewrite (get_shape_eq _ _ _ Es).
  cbn [mbind outcome_bind]. rewrite H1. change (c_assert (1 =? 1)) with (Ret tt). cbn [mbind outcome_bind]. apply yields_bind.
  eapply yields_mono; [by apply (add_shape_property_spec E rt p o sh)|]. intros [[r q] rt'] (Hok' & Hk' & [(-> & Hx & Hfull)|(-> & o' & sh' & Had & Hh & _ & Hroom)]); cbn beta; cbn match.
  - change (negb (-1 =? 0)) with true. cbn match. cbn [yields mret outcome_ret add_result]. split; [done|]. split; [done|]. split; [done|]. lia.
  - change (negb (0 =? 0)) with false. cbn match. pose proof (ad_own _ _ _ _ _ _ _ _ _ Had) as [Eo' Es']. rewrite (get_object_eq _ _ _ Eo'). cbn [mbind outcome_bind].
    rewrite (get_shape_eq _ _ _ Es'). cbn [mbind outcome_bind yields mret outcome_ret add_result]. split; [done|]. split; [done|].
    exists o', sh'. split; [done|]. intros Hu. split; [congruence|done].
Qed.

(** A shape with the wanted property. *)
Lemma forallb_same_prop l1 l2 : length l1 = length l2 -> forallb (fun '(a, b) => same_prop a b) (zip l1 l2) = true ->
  pr_atom <$> l1 = pr_atom <$> l2 /\ pr_flags <$> l1 = pr_flags <$> l2.
Proof.
  revert l2. induction l1 as [|a l1 IH]; intros [|b l2] Hl H; try done. cbn in H. apply andb_prop in H as [Hab H].
  unfold same_prop in Hab. apply andb_prop in Hab as [E1%Z.eqb_eq E2%Z.eqb_eq]. cbn in Hl. destruct (IH l2 ltac:(lia) H) as [H1 H2].
  cbn. by rewrite E1, E2, H1, H2.
Qed.
Lemma zip_short {A B} (l1 : list A) (l2 : list B) : (length l2 <= length l1)%nat -> zip l1 l2 = zip (take (length l2) l1) l2.
Proof.
  revert l2. induction l1 as [|a l1 IH]; intros [|b l2] Hl; cbn in *; try done; try lia. f_equal. apply IH. lia.
Qed.
Lemma match_prop_true h sh atom flags sh1 : match_prop h sh atom flags sh1 = true -> exists props nx,
  sh_prop sh1 = props ++ [MkShapeProperty nx flags atom] /\ pr_atom <$> props = pr_atom <$> sh_prop sh /\ pr_flags <$> props = pr_flags <$> sh_prop sh /\
  zlen props = prop_count sh /\ Shape.proto sh1 = Shape.proto sh.
Proof.
  unfold match_prop, prop_count. rewrite !andb_true_iff. intros [[[[_ Hp%Z.eqb_eq] Hn%Z.eqb_eq] Hall] Hlast]. unfold zlen in *.
  destruct (sh_prop sh1 !! Z.to_nat (Z.of_nat (length (sh_prop sh)))) as [pr|] eqn:Epr; [|done]. rewrite Nat2Z.id in Epr.
  apply andb_prop in Hlast as [E1%Z.eqb_eq E2%Z.eqb_eq]. exists (take (length (sh_prop sh)) (sh_prop sh1)), (hash_next pr).
  assert (Hlen : length (sh_prop sh1) = S (length (sh_prop sh))) by lia. rewrite zip_short in Hall by lia.
  destruct (forallb_same_prop (take (length (sh_prop sh)) (sh_prop sh1)) (sh_prop sh)) as [H1 H2]; [rewrite length_take; lia|done|].
  split; [|split; [done|split; [done|split; [rewrite length_take; lia|done]]]].
  rewrite <- (take_drop (length (sh_prop sh)) (sh_prop sh1)) at 1. f_equal. rewrite (drop_S _ _ _ Epr), (drop_ge _ (S _)) by lia. subst. by destruct pr.
Qed.

(** Sharing a shape of the table. *)
Lemma share_spec E rt p o sh q shq vs rt1 : rt_ok E rt -> own rt p o sh -> shapes rt !! q = Some shq -> is_hashed shq = true -> q <> shape o ->
  prop_size shq <= zlen vs -> same_state (put_object p (MkJSObject (shape o) vs (kind o)) rt) rt1 ->
  yields (rt ← js_dup_shape q rt1; rt ← set_psh (Some p) q rt; free_shape (shape o) rt) (fun rt' =>
    rt_ok E rt' /\ rt_kept p E rt rt' /\ exists n, own rt' p (MkJSObject q vs (kind o)) (set_next n (set_count (sh_ref_count shq + 1) shq))).
Proof.
  intros Hok [Eo Es] Eq Hq Hne Hsz (Hs & Ho & Ht & Hb & Hz). cbn in Hs, Ho, Ht, Hb, Hz.
  set (shq' := set_count (sh_ref_count shq + 1) shq). set (o' := MkJSObject q vs (kind o)).
  pose proof (dup_spec E q shq rt Hok Eq Hq) as Hdup. unfold js_dup_shape in *. rewrite (get_shape_eq _ _ _ Eq) in Hdup. rewrite (get_shape_eq q shq rt1) by (by rewrite Hs).
  cbn [mbind outcome_bind mret outcome_ret] in *. cbn [yields] in Hdup. destruct Hdup as (Hok2 & _). fold shq' in Hok2 |- *. unfold set_psh.
  rewrite (get_object_eq p (MkJSObject (shape o) vs (kind o))) by (cbn; rewrite Ho; apply lookup_insert_eq). cbn [mbind outcome_bind mret outcome_ret prop kind]. fold o'.
  pose proof (rt_core _ _ Hok2) as Hc2. cbn in Hc2.
  destruct (core_reassign E _ _ p o q shq' o' Hc2 Eo) as [Hc3 Hk3]; [apply lookup_insert_eq|done|done|].
  set (rt3 := put_object p o' (put_shape q shq' rt1)).
  assert (Hok3 : rt_ok (shape o :: E) rt3).
  { apply (same_state_ok _ (put_object p o' (put_shape q shq' rt))); [|split; [apply Hok2|apply Hok2|done]]. unfold same_state, rt3. cbn.
    rewrite Hs, Ho, Ht, Hb, Hz. rewrite insert_insert_eq. done. }
  eapply yields_mono; [apply (free_spec E (shape o) sh rt3); [done|cbn; by rewrite Hs, lookup_insert_ne]|].
  intros rt' (Hok' & Hk' & Ho' & _ & Hl'). split; [done|]. split.
  - eapply kept_trans; [|apply Hk']. unfold rt_kept, rt3. cbn. rewrite Hs, Ho, insert_insert_eq. eapply kept_trans; [by apply (kept_dup _ _ _ _ q shq)|].
    exact Hk3.
  - destruct (Hl' q Hne shq') as [n En]; [cbn; by rewrite Hs, lookup_insert_eq|]. exists n. split; [|done]. rewrite Ho'. cbn. by rewrite lookup_insert_eq.
Qed.

(** Putting a new shape into the table. *)
Lemma link_root_spec E rt y shy : rt_ok (y :: E) rt -> shapes rt !! y = Some shy -> is_hashed shy = false ->
  yields (js_shape_hash_link y (put_shape y (set_hashed true (sh_hash shy) shy) rt)) (fun rt' => rt_ok (y :: E) rt' /\ objects rt' = objects rt /\
    same_shapes (<[y := set_hashed true (sh_hash shy) shy]> (shapes rt)) (shapes rt')).
Proof.
  intros [[Ht Hz] Hb Hc] Ey Hh. set (shy' := set_hashed true (sh_hash shy) shy). set (rt1 := put_shape y shy' rt).
  assert (Hc1 : core (y :: E) (shapes rt1) (objects rt1)).
  { cbn. assert (Hl : forall x shx, (<[y := shy']> (shapes rt)) !! x = Some shx -> exists shx0, shapes rt !! x = Some shx0 /\
      (shx = shx0 \/ (x = y /\ shx = shy' /\ shx0 = shy))).
    { intros x shx Ex. destruct (decide (x = y)) as [->|Hne]; [rewrite lookup_insert_eq in Ex; simplify_eq; exists shy; tauto|].
      rewrite lookup_insert_ne in Ex by done. exists shx. tauto. }
    split.
    - intros x shx Ex. destruct (Hl _ _ Ex) as (shx0 & Ex0 & _). by eapply co_nonzero.
    - intros x shx Ex. destruct (Hl _ _ Ex) as (shx0 & Ex0 & [->|(-> & -> & ->)]); [by eapply co_shape|]. destruct (co_shape _ _ _ Hc _ _ Ey). by split.
    - intros x shx Ex. destruct (Hl _ _ Ex) as (shx0 & Ex0 & [->|(-> & -> & ->)]); [by eapply co_count|]. apply (co_count _ _ _ Hc _ _ Ey).
    - intros x shx Ex. destruct (Hl _ _ Ex) as (shx0 & Ex0 & [->|(-> & -> & ->)]); [by eapply co_pos|]. apply (co_pos _ _ _ Hc _ _ Ey).
    - intros x shx Ex Hx. destruct (Hl _ _ Ex) as (shx0 & Ex0 & [->|(-> & -> & ->)]); [by eapply co_owner|done].
    - intros x ox Ex. destruct (co_object _ _ _ Hc x ox Ex) as (shx & Esx & Hsx). destruct (decide (shape ox = y)) as [Heq|Hne].
      + rewrite Heq in Esx |- *. exists shy'. rewrite lookup_insert_eq. simplify_eq. done.
      + exists shx. by rewrite lookup_insert_ne.
    - intros x Hx. destruct (decide (x = y)) as [->|Hne]; [rewrite lookup_insert_eq; by eexists|]. rewrite lookup_insert_ne by done. by apply (co_root _ _ _ Hc). }
  eapply yields_mono; [apply (link_spec (hashed (shapes rt)) y shy' rt1)|].
  - split; [|done]. cbn. apply (table_ok_frame _ (shapes rt)); [done|]. intros x (shx & Ex & Hx). rewrite lookup_insert_ne; [done|]. intros <-. congruence.
  - by eapply core_shapes_ok.
  - cbn. apply lookup_insert_eq.
  - intros (shx & Ex & Hx). congruence.
  - intros rt' [(s' & tab & n & -> & Hs) [Ht' Hz']]. split; [split; [split; [|done]|done|by eapply core_same]|by split].
    cbn in *. eapply table_ok_ext; [|done]. intros x _. rewrite <- (hashed_same_iff _ _ x Hs). unfold with_p, hashed.
    destruct (decide (x = y)) as [->|Hne]; [rewrite lookup_insert_eq; split; [intros _; by exists shy'|by left]|]. rewrite lookup_insert_ne by done. tauto.
Qed.

Lemma own_count E rt p o sh : rt_ok E rt -> own rt p o sh -> (length (sh_prop sh) <= length (prop o))%nat.
Proof.
  intros Hok Hown. pose proof (own_size _ _ _ _ _ Hok Hown) as Hsz. destruct Hown as [Eo Es].
  pose proof (so_count _ (co_shape _ _ _ (rt_core _ _ Hok) _ _ Es)) as Hc. unfold prop_count, zlen in *. lia.
Qed.

(** The shape [q] of the table has one more property. *)
Lemma add_shared E rt p o sh q shq atom flags : rt_ok E rt -> own rt p o sh -> is_hashed sh = true ->
  shapes rt !! q = Some shq -> is_hashed shq = true -> (exists h, match_prop h sh atom flags shq = true) ->
  yields ('(ok, rt) ← (if negb (prop_size shq =? prop_size sh) then realloc_prop p (prop_size shq) rt else mret (true, rt));
    if negb ok then mret (None, rt)
    else rt ← js_dup_shape q rt; rt ← set_psh (Some p) q rt; rt ← free_shape (shape o) rt; mret (Some (prop_count shq - 1), rt))
    (add_result E rt p atom flags o sh).
Proof.
  intros Hok Hown Hh Eq Hq [h Hm]. pose proof Hown as [Eo Es]. destruct (match_prop_true _ _ _ _ _ Hm) as (props & nx & Ep & Ha & Hf & Hl & Hproto).
  pose proof (co_shape _ _ _ (rt_core _ _ Hok) _ _ Eq) as Hokq. pose proof (so_count _ Hokq) as Hcq. pose proof (own_count _ _ _ _ _ Hok Hown) as Hlen.
  pose proof (own_size _ _ _ _ _ Hok Hown) as Hsz. assert (Hpc : prop_count shq = zlen props + 1) by (unfold prop_count; by rewrite Ep, zlen_app).
  assert (Hne : q <> shape o) by (intros ->; simplify_eq; lia).
  assert (Hgo : forall rt1 vs, same_state (put_object p (MkJSObject (shape o) vs (kind o)) rt) rt1 -> prop_size shq <= zlen vs ->
    take (length (sh_prop sh)) vs = take (length (sh_prop sh)) (prop o) ->
    yields (rt ← js_dup_shape q rt1; rt ← set_psh (Some p) q rt; rt ← free_shape (shape o) rt; mret (Some (prop_count shq - 1), rt)) (add_result E rt p atom flags o sh)).
  { intros rt1 vs Hs Hv Ht. pose proof (share_spec E rt p o sh q shq vs rt1 Hok Hown Eq Hq Hne Hv Hs) as H1.
    apply yields_bind_inv in H1. apply yields_bind. eapply yields_mono; [exact H1|]. cbn beta. intros rt2 H2.
    apply yields_bind_inv in H2. apply yields_bind. eapply yields_mono; [exact H2|]. cbn beta. intros rt3 H3.
    apply yields_bind. eapply yields_mono; [exact H3|]. intros rt4 (Hok4 & Hk4 & n & Hown4). cbn [yields mret outcome_ret add_result].
    split; [done|]. split; [done|]. eexists _, _. split; [|congruence]. split; [done| |done|done]. exists props, nx. split; [done|]. split; [lia|done]. }
  apply yields_bind. destruct (Z.eqb_spec (prop_size shq) (prop_size sh)) as [Hz|Hz]; cbn [negb].
  - cbn [yields mret outcome_ret]. apply (Hgo rt (prop o)); [|lia|done]. unfold same_state. cbn. split; [done|]. split; [|done]. symmetry. apply insert_id.
    rewrite Eo. by destruct o.
  - unfold realloc_prop. rewrite (get_object_eq _ _ _ Eo). cbn [mbind outcome_bind]. destruct (malloc_spec (16 * prop_size shq) rt) as (r & m & -> & Hr).
    destruct r as [x|]; cbn [yields mret outcome_ret negb].
    + pose proof (so_size _ Hokq). unfold prop_count, zlen in *.
      destruct (resize_values_spec (prop_size shq) (prop o) (length (sh_prop sh))) as [Hv1 Hv2]; [lia|done|lia|].
      apply (Hgo _ (resize_values (prop_size shq) (prop o))); [done|unfold zlen in *; lia|done].
    + split; [|split].
      * by apply (same_state_ok E rt).
      * apply kept_refl.
      * split; [exists o, sh; split; [done|apply evolved_refl]|]. rewrite Hh. by intros [? _].
Qed.

Lemma add_property_spec_ok E rt p o sh atom flags : rt_ok E rt -> own rt p o sh ->
  atom <> JS_ATOM_NULL -> atom ∉ atoms (sh_prop sh) -> 0 <= flags < 64 ->
  yields (add_property p atom flags rt) (add_result E rt p atom flags o sh).
Proof.
  intros Hok Hown Ha Hna Hf. pose proof Hown as [Eo Es]. unfold add_property. rewrite (get_object_eq _ _ _ Eo). cbn [mbind outcome_bind].
  rewrite (get_shape_eq _ _ _ Es). cbn [mbind outcome_bind]. pose proof (rt_core _ _ Hok) as Hc. destruct (is_hashed sh) eqn:Hh.
  - assert (Hfind : yields (find_hashed_shape_prop (shape o) atom flags rt) (fun q => q = 0 \/
      exists shq, q <> 0 /\ hashed (shapes rt) q /\ shapes rt !! q = Some shq /\ exists h, match_prop h sh atom flags shq = true)).
    { unfold find_hashed_shape_prop. rewrite (get_shape_eq _ _ _ Es). cbn [mbind outcome_bind].
      eapply yields_mono; [apply find_hashed_spec; [apply Hok|unfold shape_hash; by apply wrap_range]|].
      intros q [->|(shq & H1 & H2 & H3 & H4)]; [by left|right]. exists shq. repeat split; try done. by eexists. }
    apply yields_bind. eapply yields_mono; [exact Hfind|]. intros q [->|(shq & Hq0 & (shq' & Eq' & Hhq) & Eq & Hm)]; cbn beta.
    + cbn [Z.eqb negb]. change (negb (0 =? 0)) with false. cbn match. destruct (Z.eqb_spec (sh_ref_count sh) 1) as [H1|H1]; cbn [negb].
      * by apply add_finish.
      * apply yields_bind. eapply yields_mono; [by apply (clone_spec E (shape o) sh)|]. intros [y rt1] [[-> Hss]|(Hy & Ey & Ho & Hs & Hok1)]; cbn beta; cbn match.
        -- change (0 =? 0) with true. cbn match. cbn [yields mret outcome_ret add_result]. split; [by eapply same_state_ok|].
           destruct Hss as (Hs & Ho & _). unfold rt_kept. rewrite Hs, Ho. split; [apply kept_refl|]. split; [|rewrite Hh; by intros [? _]].
           exists o, sh. split; [|apply evolved_refl]. unfold own. by rewrite Hs, Ho.
        -- destruct (Z.eqb_spec y 0) as [|_]; [done|]. set (cl := set_hashed false (sh_hash sh) (set_count 1 sh)) in *.
           assert (Ecl : shapes rt1 !! y = Some cl) by (by rewrite Hs, lookup_insert_eq). rewrite (get_shape_eq _ _ _ Ecl). cbn [mbind outcome_bind].
           assert (Hne : y <> shape o) by congruence.
           apply yields_bind. eapply yields_mono; [by apply (link_root_spec E rt1 y cl)|]. intros rt2 (Hok2 & Ho2 & Hs2). cbn beta.
           set (cl' := set_hashed true (sh_hash cl) cl) in *.
           destruct (same_lookup _ _ y cl' Hs2) as [n Ecl2]; [by rewrite lookup_insert_eq|].
           destruct (same_lookup _ _ (shape o) sh Hs2) as [k Es2]; [by rewrite lookup_insert_ne, Hs, lookup_insert_ne|].
           assert (Hown2 : own rt2 p o (set_next k sh)) by (split; [by rewrite Ho2, Ho|done]).
           apply yields_bind. eapply yields_mono; [apply (move_spec E rt2 p o (set_next k sh) y (set_next n cl') Hok2 Hown2 Ecl2 Hne H1)|].
           { by apply (own_size _ _ _ _ _ Hok Hown). }
           intros rt3 (Ho3 & Hok3 & Hk3 & Hown3). cbn beta. unfold set_psh at 1. rewrite (get_object_eq p o) by (by rewrite Ho3, Ho2, Ho).
           cbn [mbind outcome_bind mret outcome_ret]. set (rt4 := put_object p _ rt3) in *.
           eapply yields_mono; [apply (add_finish E rt4 p (MkJSObject y (prop o) (kind o)) (set_next n cl') atom flags); try done|].
           assert (Hk4 : rt_kept p E rt rt4).
           { eapply kept_trans; [by apply (kept_new _ _ _ _ y cl)|]. rewrite <- Hs, <- Ho.
             eapply kept_trans; [|exact Hk3]. rewrite Ho2. eapply kept_trans; [|by apply kept_same].
             unfold cl'. split; [done| |]; (intros; match goal with H : shapes rt1 !! ?x = Some _ |- _ => destruct (decide (x = y)) as [Hxy|Hxy] end;
               [rewrite Hxy in *; rewrite lookup_insert_eq; simplify_eq; by eexists|rewrite lookup_insert_ne by done; by eexists]). }
           intros [r rt'] (Hok' & Hk' & Hr). cbn. split; [done|]. split; [by eapply kept_trans|]. destruct r as [i|].
           ++ destruct Hr as (o' & sh' & Had & _). exists o', sh'. split; [|congruence]. eapply (added_evolved _ _ _ _ _ o sh); [|done]. by split.
           ++ destruct Hr as [(o' & sh' & Hown' & Hev) _]. split; [|rewrite Hh; by intros [? _]]. exists o', sh'. split; [done|].
              eapply evolved_trans; [|done]. by split.
    + destruct (Z.eqb_spec q 0) as [|_]; [done|]. cbn [negb]. rewrite (get_shape_eq _ _ _ Eq). cbn [mbind outcome_bind].
      apply add_shared; try done. congruence.
  - apply add_finish; try done. by eapply co_owner.
Qed.
End Ops.
