(* ===== verification/ShapeEdit.v ===== *)
(** * Values, flags, deletion and compaction

    The other operations on the properties of one object, and the conversion of a fast array to ordinary properties. *)

From stdpp Require Import gmap.
From S2P Require Import Prelude Sums Cutils Alloc GcHeap Shape ShapeProps ShapeHash ShapeSpec ShapeOps.
#[local] Open Scope Z_scope.

Section Edit.
Context `{HM : Malloc} {Hbounded : MallocBounded} {Hpointer : 4 <= sizeof_pointer}.

(** ** Values *)

Lemma core_values E s os p o o' sh : core E s os -> os !! p = Some o -> shape o' = shape o -> s !! shape o = Some sh -> prop_size sh <= zlen (prop o') ->
  core E s (<[p := o']> os) /\ kept p E s os s (<[p := o']> os).
Proof.
  intros Hc Eo Hsh Es Hsz. assert (Hr : forall x, refs E (<[p := o']> os) x = refs E os x).
  { intros x. unfold refs. rewrite (sum_update _ _ _ _ _ Eo). unfold points at 2 3. rewrite Hsh. lia. }
  split; [split|split].
  - apply Hc.
  - apply Hc.
  - intros x shx Ex. rewrite Hr. by apply Hc.
  - apply Hc.
  - apply Hc.
  - intros x ox Ex. destruct (decide (x = p)) as [->|Hne]; [rewrite lookup_insert_eq in Ex; simplify_eq; exists sh; by rewrite Hsh|].
    rewrite lookup_insert_ne in Ex by done. by eapply co_object.
  - apply Hc.
  - intros x ox Hne Ex. by rewrite lookup_insert_ne.
  - intros x ox shx _ _ Ex. by exists shx.
  - intros x shx _ Ex. by exists shx.
Qed.

Lemma set_value_spec E rt p o sh i u : rt_ok E rt -> own rt p o sh -> 0 <= i < zlen (prop o) ->
  yields (set_value p i u rt) (fun rt' => rt_ok E rt' /\ rt_kept p E rt rt' /\
    own rt' p (MkJSObject (shape o) (<[Z.to_nat i := Some u]> (prop o)) (kind o)) sh /\ shapes rt' = shapes rt).
Proof.
  intros Hok Hown Hi. pose proof (own_size _ _ _ _ _ Hok Hown) as Hsz. destruct Hown as [Eo Es]. unfold set_value.
  rewrite (get_object_eq _ _ _ Eo). cbn [mbind outcome_bind]. rewrite aset_some by done. cbn. set (o' := MkJSObject _ _ _).
  destruct (core_values E _ _ p o o' sh (rt_core _ _ Hok) Eo eq_refl Es) as [Hc Hk].
  { cbn. unfold zlen in *. by rewrite length_insert. }
  split; [split; [apply Hok|apply Hok|done]|]. split; [done|]. split; [|done]. split; [cbn; apply lookup_insert_eq|done].
Qed.

(** The properties of the object, in order. *)
Definition view (o : JSObject) (sh : JSShape) : list (Z * Z * option JSPropertyU) := entries (sh_prop sh) (prop o).

Lemma entries_snoc props pr vs v : vs !! length props = Some v -> entries (props ++ [pr]) vs =
  entries props vs ++ (if live pr then [(pr_atom pr, pr_flags pr, v)] else []).
Proof.
  intros Hv. pose proof (take_drop_middle vs (length props) v Hv) as E. assert (Hl : length (take (length props) vs) = length props).
  { apply lookup_lt_Some in Hv. rewrite length_take. lia. }
  rewrite <- E at 1. change (v :: drop (S (length props)) vs) with ([v] ++ drop (S (length props)) vs). rewrite app_assoc.
  rewrite (entries_ext (props ++ [pr]) (props ++ [pr]) (take (length props) vs ++ [v])); [|done|done| |rewrite !length_app, Hl; cbn; lia].
  - rewrite entries_app by done. f_equal; [|by rewrite entries_cons; destruct (live pr)].
    symmetry. apply entries_ext; [done|done| |lia]. exists [], (drop (length props) vs). rewrite app_nil_r, take_take, Nat.min_id. by rewrite take_drop.
  - exists [], (drop (S (length props)) vs). rewrite (take_ge (take (length props) vs ++ [v])) by (rewrite !length_app, Hl; cbn; lia). by rewrite app_nil_r.
Qed.

(** The added property with its value. *)
Lemma added_view E rt p atom flags i o sh o' sh' u : rt_ok E rt -> own rt p o sh -> forall rt', rt_ok E rt' -> added rt' p atom flags i o sh o' sh' -> atom <> JS_ATOM_NULL ->
  0 <= i < zlen (prop o') /\
  view (MkJSObject (shape o') (<[Z.to_nat i := Some u]> (prop o')) (kind o')) sh' = view o sh ++ [(atom, flags, Some u)] /\
  prop_count sh' = i + 1 /\ atoms (sh_prop sh') = atoms (sh_prop sh) ++ [atom] /\ i = prop_count sh.
Proof.
  intros Hok Hown rt' Hok' [Hown' (props & nx & Ep & -> & Ha & Hf) Hv Hkd] Hnz. pose proof (own_count _ _ _ _ _ Hok Hown) as Hl.
  pose proof (own_count _ _ _ _ _ Hok' Hown') as Hl'. rewrite Ep, length_app in Hl'. cbn in Hl'.
  assert (Hlen : length props = length (sh_prop sh)) by (apply (f_equal length) in Ha; by rewrite !length_fmap in Ha).
  set (pr := MkShapeProperty nx flags atom) in *. assert (Hlive : live pr = true) by (by apply live_true). unfold view. cbn [prop]. rewrite Ep.
  split; [unfold zlen; lia|]. split; [|split; [|split]].
  - unfold zlen. rewrite Nat2Z.id. rewrite (entries_snoc _ _ _ (Some u)) by (apply list_lookup_insert_eq; lia). rewrite Hlive. f_equal.
    apply entries_ext; [done|done| |done]. exists (drop (length (sh_prop sh)) (prop o)), (drop (length (sh_prop sh)) (<[length props := Some u]> (prop o'))).
    rewrite take_drop. split; [done|]. rewrite <- Hv. rewrite <- (take_drop (length (sh_prop sh)) (<[length props := Some u]> (prop o'))) at 1. f_equal.
    by rewrite take_insert_ge by lia.
  - unfold prop_count. rewrite Ep, zlen_app. done.
  - rewrite atoms_app, (atoms_ext _ _ Ha). unfold atoms at 2. by rewrite filter_cons_True.
  - unfold prop_count, zlen. lia.
Qed.

(** ** Flags *)

(** The property of one name, amended. *)
Definition amend (a : Z) (f : Z * Z * option JSPropertyU -> Z * Z * option JSPropertyU) (l : list (Z * Z * option JSPropertyU)) :=
  (fun e => if e.1.1 =? a then f e else e) <$> l.
Definition with_flags (a flags : Z) : list (Z * Z * option JSPropertyU) -> list (Z * Z * option JSPropertyU) := amend a (fun e => (a, flags, e.2)).
Definition with_value (a : Z) (u : JSPropertyU) : list (Z * Z * option JSPropertyU) -> list (Z * Z * option JSPropertyU) :=
  amend a (fun e => (a, e.1.2, Some u)).

Lemma amend_other a f l : Forall (fun e => e.1.1 <> a) l -> amend a f l = l.
Proof.
  intros Hl. unfold amend. rewrite <- (list_fmap_id l) at 2. apply list_fmap_ext. intros j e Hj. cbn.
  pose proof (Forall_lookup_1 _ _ _ _ Hl Hj) as H. cbn in H. by destruct (Z.eqb_spec e.1.1 a).
Qed.
Lemma amend_at a f l1 e l2 : Forall (fun e => e.1.1 <> a) l1 -> Forall (fun e => e.1.1 <> a) l2 -> e.1.1 = a -> amend a f (l1 ++ e :: l2) = l1 ++ [f e] ++ l2.
Proof.
  intros H1 H2 He. unfold amend. rewrite fmap_app, fmap_cons. fold (amend a f l1). fold (amend a f l2). rewrite !amend_other by done. by rewrite He, Z.eqb_refl.
Qed.
Lemma entries_flags props vs i pr flags : NoDup (atoms props) -> (length props <= length vs)%nat -> props !! i = Some pr -> live pr = true ->
  entries (<[i := MkShapeProperty (hash_next pr) flags (pr_atom pr)]> props) vs = with_flags (pr_atom pr) flags (entries props vs).
Proof.
  intros Hnd Hlen Hi Hl. destruct (entries_at _ _ _ _ Hnd Hlen Hi Hl) as (l1 & l2 & w & Hw & -> & H1 & H2 & Hx).
  rewrite <- (list_insert_id vs i w Hw), Hx. change (live (MkShapeProperty _ _ _)) with (live pr). rewrite Hl. by unfold with_flags; rewrite amend_at.
Qed.
Lemma entries_value props vs i pr u : NoDup (atoms props) -> (length props <= length vs)%nat -> props !! i = Some pr -> live pr = true ->
  entries props (<[i := Some u]> vs) = with_value (pr_atom pr) u (entries props vs).
Proof.
  intros Hnd Hlen Hi Hl. destruct (entries_at _ _ _ _ Hnd Hlen Hi Hl) as (l1 & l2 & w & _ & -> & H1 & H2 & Hx).
  rewrite <- (list_insert_id props i pr Hi) at 1. rewrite Hx, Hl. by unfold with_value; rewrite amend_at.
Qed.

Lemma shape_ok_flags sh i pr flags : shape_ok sh -> sh_prop sh !! i = Some pr ->
  shape_ok (set_props (prop_hash_mask sh) (prop_size sh) (deleted_prop_count sh) (prop_hash sh)
    (<[i := MkShapeProperty (hash_next pr) flags (pr_atom pr)]> (sh_prop sh)) sh).
Proof.
  intros [A B C D F G N P] Hi. set (pr' := MkShapeProperty _ _ _).
  assert (Ha : pr_atom <$> <[i := pr']> (sh_prop sh) = pr_atom <$> sh_prop sh).
  { rewrite list_fmap_insert. apply list_insert_id. by rewrite list_lookup_fmap, Hi. }
  assert (Hn : hash_next <$> <[i := pr']> (sh_prop sh) = hash_next <$> sh_prop sh).
  { rewrite list_fmap_insert. apply list_insert_id. by rewrite list_lookup_fmap, Hi. }
  split; cbn; [done|done|by eapply chained_ext|unfold prop_count, zlen in *; cbn; by rewrite length_insert|done| | |done].
  - rewrite G, !dead_count. change (atoms (sh_prop (set_props _ _ _ _ ?l _))) with (atoms l). rewrite (atoms_ext _ _ Ha). unfold zlen. by rewrite length_insert.
  - change (NoDup (atoms (<[i := pr']> (sh_prop sh)))). by rewrite (atoms_ext _ _ Ha).
Qed.

Lemma update_flags_spec E rt p o sh i pr flags : rt_ok E rt -> own rt p o sh -> 0 <= i -> sh_prop sh !! Z.to_nat i = Some pr -> live pr = true ->
  0 <= flags < 64 ->
  yields (js_update_property_flags p i flags rt) (fun '(r, rt') => rt_ok E rt' /\ rt_kept p E rt rt' /\ exists o' sh', own rt' p o' sh' /\ kind o' = kind o /\
    ((r = -1 /\ view o' sh' = view o sh) \/ (r = 0 /\ view o' sh' = with_flags (pr_atom pr) flags (view o sh)))).
Proof.
  intros Hok Hown Hi Hp Hl Hf. pose proof Hown as [Eo Es]. pose proof (own_count _ _ _ _ _ Hok Hown) as Hlen.
  pose proof (co_shape _ _ _ (rt_core _ _ Hok) _ _ Es) as Hso. unfold js_update_property_flags. rewrite (get_object_eq _ _ _ Eo). cbn [mbind outcome_bind].
  rewrite (get_shape_eq _ _ _ Es). cbn [mbind outcome_bind]. rewrite (aget_some _ _ _ Hi Hp). cbn [mbind outcome_bind].
  destruct (Z.eqb_spec flags (pr_flags pr)) as [->|Hne]; cbn [negb].
  - cbn [yields mret outcome_ret]. split; [done|]. split; [apply kept_refl|]. exists o, sh. split; [done|]. split; [done|]. right. split; [done|].
    unfold view. rewrite <- (entries_flags _ _ (Z.to_nat i)) by (done || apply Hso). rewrite list_insert_id; [done|]. rewrite Hp. by destruct pr.
  - apply yields_bind. eapply yields_mono; [by apply (prepare_update_spec E p o sh)|]. intros [r rt1] (Hok1 & Hk1 & Hcase). cbn beta. cbn match.
    destruct Hcase as [(-> & Hwas & Ho1 & n & Es1)|(-> & y & sh1 & Hown1 & (L1 & L2 & L3 & L4 & L5 & L6) & Hh1)].
    + change (negb (-1 =? 0)) with true. cbn [yields mret outcome_ret]. split; [done|]. split; [done|]. exists o, (set_next n sh).
      split; [split; [by rewrite Ho1|done]|]. split; [done|]. by left.
    + change (negb (0 =? 0)) with false. cbn match. pose proof Hown1 as [Eo1 Es1]. cbn [shape] in Es1. rewrite (get_object_eq _ _ _ Eo1). cbn [mbind outcome_bind shape].
      rewrite (get_shape_eq _ _ _ Es1). cbn [mbind outcome_bind]. rewrite <- L1 in Hp. rewrite (aget_some _ _ _ Hi Hp). cbn [mbind outcome_bind].
      unfold set_prop. rewrite aset_some by (apply lookup_lt_Some in Hp; unfold zlen; lia). cbn [mbind outcome_bind mret outcome_ret yields].
      rewrite (wrap_small 6) by (change (2 ^ 6) with 64; lia).
      pose proof (detached_unlinked _ _ _ _ _ Hok1 Hown1 Hh1) as Hu. destruct (shape_count_nat _ _ _ _ _ Hu) as (_ & Hsz1 & Hso1).
      pose proof (shape_ok_flags sh1 (Z.to_nat i) pr flags Hso1 Hp) as Hso2. set (sh2 := set_props _ _ _ _ _ _) in *.
      destruct (unlinked_put E rt1 p _ sh1 sh2 Hu Hso2) as [Hu2 Hk2]; [apply Hu|done|]. cbn [shape] in Hu2, Hk2.
      split; [by apply (unlinked_detached _ _ _ _ _ Hu2)|]. split; [by eapply kept_trans|]. exists (MkJSObject y (prop o) (kind o)), sh2.
      split; [apply Hu2|]. split; [done|]. right. split; [done|]. unfold view, sh2. cbn [sh_prop set_props prop]. rewrite L1.
      rewrite L1 in Hp. apply entries_flags; [apply Hso|done|done|done].
Qed.
End Edit.
