(* ===== verification/ShapeDelete.v ===== *)
(** * Deletion and fast arrays *)

From stdpp Require Import gmap.
From S2P Require Import Prelude Cutils Alloc GcHeap Shape ShapeProps ShapeHash ShapeSpec ShapeOps ShapeEdit.
#[local] Open Scope Z_scope.

Section Delete.
Context `{HM : Malloc} {Hbounded : MallocBounded} {Hpointer : 4 <= sizeof_pointer}.

(** ** Compaction *)

Lemma halve_hash_spec n new_size k : n = 2 ^ k -> 0 <= k <= 30 -> 2 <= new_size ->
  yields (loop 64 (halve_hash_size new_size) n) (fun n' => exists k', n' = 2 ^ k' /\ 0 <= k' <= k).
Proof.
  intros Hn Hk Hs. apply (loop_yields_nat (halve_hash_size new_size) (fun i n => exists k', n = 2 ^ k' /\ 0 <= k' <= k /\ i = Z.to_nat k') _)
    with (n := Z.to_nat k); [|exists k; split; [done|]; split; [lia|done]|lia].
  intros i x (k' & -> & Hk' & ->). unfold halve_hash_size. destruct (Z.geb_spec (2 ^ k' / 2) new_size) as [Hge|Hlt]; cbn; [|exists k'; split; [done|lia]].
  assert (0 < k') by (destruct (decide (k' = 0)) as [->|]; [change (2 ^ 0 / 2) with 0 in Hge; lia|lia]).
  assert (E2 : 2 ^ k' / 2 = 2 ^ (k' - 1)).
  { replace k' with (k' - 1 + 1) at 1 by lia. rewrite Z.pow_add_r by lia. change (2 ^ 1) with 2. by rewrite Z.div_mul by lia. }
  rewrite E2. exists (Z.to_nat (k' - 1)). split; [lia|]. exists (k' - 1). split; [done|]. lia.
Qed.

Lemma live_filter (props : list JSShapeProperty) : filter (fun pr => pr_atom pr <> JS_ATOM_NULL) props = filter (fun pr => live pr = true) props.
Proof. apply list_filter_iff. intros pr. split; [apply live_true|apply live_atom]. Qed.
Lemma atoms_live (props : list JSShapeProperty) : pr_atom <$> filter (fun pr => pr_atom pr <> JS_ATOM_NULL) props = atoms props.
Proof. by rewrite live_filter. Qed.
Lemma all_live l : (forall pr, pr ∈ l -> live pr = true) -> atoms l = pr_atom <$> l.
Proof. intros H. unfold atoms. by rewrite filter_all_id by (by apply list.Forall_forall). Qed.

Lemma compact_spec E rt p o sh : rt_ok E rt -> own rt p o sh -> is_hashed sh = false -> 2 <= prop_size sh ->
  yields (compact_properties p rt) (fun '(r, rt') => rt_ok E rt' /\ rt_kept p E rt rt' /\ exists o' sh', own rt' p o' sh' /\ kind o' = kind o /\
    is_hashed sh' = false /\ view o' sh' = view o sh).
Proof.
  intros Hok Hown Hh Hz2. pose proof Hown as [Eo Es]. pose proof (detached_unlinked _ _ _ _ _ Hok Hown Hh) as Hu.
  destruct (shape_count_nat _ _ _ _ _ Hu) as (Hlen & Hsz & Hso). pose proof (so_count _ Hso) as Hcnt. pose proof (so_size _ Hso) as Hps.
  pose proof (so_deleted _ Hso) as Hdel. rewrite dead_count in Hdel. unfold prop_count in Hcnt. pose proof (zlen_nonneg (atoms (sh_prop sh))).
  unfold compact_properties. rewrite (get_object_eq _ _ _ Eo). cbn [mbind outcome_bind]. rewrite (get_shape_eq _ _ _ Es). cbn [mbind outcome_bind].
  rewrite Hh. change (c_assert (negb false)) with (Ret tt). cbn [mbind outcome_bind]. unfold prop_count. rewrite Hdel.
  replace (zlen (sh_prop sh) - (zlen (sh_prop sh) - zlen (atoms (sh_prop sh)))) with (zlen (atoms (sh_prop sh))) by lia.
  set (n := zlen (atoms (sh_prop sh))) in *. assert (Hn : n <= zlen (sh_prop sh)).
  { unfold n, atoms, zlen. rewrite length_fmap. pose proof (length_filter (fun pr => live pr = true) (sh_prop sh)). lia. }
  set (new_size := max_int JS_PROP_INITIAL_SIZE n). assert (Hns : 2 <= new_size /\ n <= new_size /\ new_size <= prop_size sh).
  { unfold new_size, max_int, JS_PROP_INITIAL_SIZE. destruct (Z.gtb_spec 2 n); lia. }
  assert (Hca : c_assert (new_size <=? prop_size sh) = Ret tt) by (unfold c_assert; by rewrite (proj2 (Z.leb_le _ _)) by lia).
  rewrite Hca. cbn [mbind outcome_bind]. destruct (mask_u32 sh Hso) as (k & Hk & Hmask & ->).
  apply yields_bind. eapply yields_mono; [apply (halve_hash_spec (2 ^ k) new_size k); [done|done|lia]|]. intros n' (k' & -> & Hk').
  destruct (malloc_spec (get_shape_size (2 ^ k') new_size) rt) as (r & m & -> & Hr). destruct r as [q|].
  2:{ cbn [yields mret outcome_ret]. split; [by apply (same_state_ok E rt)|]. split; [apply kept_refl|]. by exists o, sh. }
  destruct (Hr q eq_refl) as (Hq0 & Hq & _ & _). pose proof (Z.pow_pos_nonneg 2 k' ltac:(lia) ltac:(lia)).
  apply yields_bind. replace (2 ^ k') with (2 ^ k' - 1 + 1) at 2 by lia. set (lv := filter _ (sh_prop sh)).
  assert (Hlv : pr_atom <$> lv = atoms (sh_prop sh)) by apply atoms_live. assert (Hll : zlen lv = n).
  { unfold n. rewrite <- Hlv. unfold zlen. by rewrite length_fmap. }
  eapply yields_mono; [apply (rehash_props_spec k' (2 ^ k' - 1) lv ltac:(lia) eq_refl [])|].
  { unfold zlen. rewrite length_replicate. lia. }
  { change (zlen []) with 0. unfold MAX_PROPS in *. lia. }
  { apply chained_empty. }
  intros [tab props] (Htl & Hch & Ha & Hf). cbn beta. cbn match. assert (Hpl : length props = length lv) by (apply (f_equal length) in Ha; by rewrite !length_fmap in Ha).
  assert (Hz : zlen props = n) by (unfold zlen in *; lia). rewrite Hz, Z.eqb_refl. change (c_assert true) with (Ret tt). cbn [mbind outcome_bind].
  unfold c_assert. rewrite (proj2 (Z.leb_le _ _)) by (unfold zlen; lia). cbn [mbind outcome_bind].
  destruct (entries_compact (sh_prop sh) (prop o) props (drop (length (compact_values (sh_prop sh) (prop o))) (prop o)) Hlen Ha Hf) as [Hent Hcv].
  set (vs := compact_values (sh_prop sh) (prop o)) in *. set (sh' := set_props _ _ _ _ _ _). set (o' := MkJSObject q _ _).
  assert (Hvl : (length vs <= length (prop o))%nat) by (unfold zlen in *; lia).
  assert (Hat : atoms props = atoms (sh_prop sh)).
  { rewrite all_live; [by rewrite Ha|]. intros pr Hpr. apply live_true. assert (Hin : pr_atom pr ∈ pr_atom <$> props) by (by apply list_elem_of_fmap_2).
    rewrite Ha in Hin. apply list_elem_of_fmap in Hin as (pr' & -> & Hin). by apply list_elem_of_filter in Hin as [? _]. }
  assert (Hso' : shape_ok sh').
  { split; cbn; [exists k'; lia|lia|done|unfold prop_count; cbn; lia| | | |apply Hso].
    - unfold MAX_PROPS in *. lia.
    - rewrite dead_count, Hat. fold n. lia.
    - change (NoDup (atoms props)). rewrite Hat. apply Hso. }
  match goal with |- context [realloc_prop p new_size ?r] => destruct (unlinked_update E rt p o sh r o' sh' Hu) as [Hu' Hk2] end.
  { cbn. by right. } { done. } { done. } { apply Hu. } { cbn. unfold zlen in *. rewrite length_app, length_drop. lia. } { done. } { done. } { done. } { done. } { done. }
  apply yields_bind. eapply yields_mono; [by apply (realloc_prop_spec E _ p o' sh' new_size)|]. intros [ok rt'] (o2 & Hu2 & Hk3 & Hev & _). cbn beta. cbn match.
  cbn [yields mret outcome_ret]. split; [by eapply unlinked_detached|]. split; [by eapply kept_trans|]. exists o2, sh'. split; [apply Hu2|].
  split; [by rewrite (ev_kind _ _ _ _ Hev)|]. split; [done|]. unfold view. rewrite (evolved_entries o' sh' o2 sh' Hev); [exact Hent|].
  cbn. rewrite length_app, length_drop. lia.
Qed.

(** ** Deletion of a property that was found *)

Lemma dead_atoms props i pr dl : props !! i = Some pr -> live pr = true -> live dl = false ->
  (exists l1 l2, atoms props = l1 ++ pr_atom pr :: l2 /\ atoms (<[i := dl]> props) = l1 ++ l2).
Proof.
  intros Hi Hl Hd. pose proof (take_drop_middle props i pr Hi) as Ep. pose proof (lookup_lt_Some _ _ _ Hi) as Hlt.
  set (p1 := take i props) in *. set (p2 := drop (S i) props) in *. assert (L1 : length p1 = i) by (subst p1; rewrite length_take; lia).
  exists (atoms p1), (atoms p2). rewrite <- Ep.
  replace (<[i:=dl]> (p1 ++ pr :: p2)) with (p1 ++ dl :: p2) by (rewrite <- L1 at 1; by rewrite <- (Nat.add_0_r (length p1)), insert_app_r).
  by rewrite !atoms_app, !atoms_cons, Hl, Hd.
Qed.

Lemma deleted_ok sh i pr dl props tab : shape_ok sh -> sh_prop sh !! i = Some pr -> live pr = true -> live dl = false ->
  pr_atom <$> props = pr_atom <$> sh_prop sh -> zlen tab = zlen (prop_hash sh) -> chained (prop_hash_mask sh) (<[i := dl]> props) tab ->
  shape_ok (set_props (prop_hash_mask sh) (prop_size sh) (deleted_prop_count sh + 1) tab (<[i := dl]> props) sh).
Proof.
  intros [A B C D F G N P] Hi Hl Hd Ha Ht Hc. assert (Hlen : length props = length (sh_prop sh)) by (apply (f_equal length) in Ha; by rewrite !length_fmap in Ha).
  assert (Hx : exists pr', props !! i = Some pr' /\ pr_atom pr' = pr_atom pr).
  { apply (f_equal (.!! i)) in Ha. rewrite !list_lookup_fmap, Hi in Ha. destruct (props !! i) as [pr'|]; [|done]. exists pr'. split; [done|]. cbn in Ha. congruence. }
  destruct Hx as (pr' & Hp' & Hpa). destruct (dead_atoms props i pr' dl Hp') as (l1 & l2 & H1 & H2); [unfold live in *; by rewrite Hpa|done|].
  rewrite (atoms_ext _ _ Ha) in H1. split; cbn; [done|lia|done| |done| | |done].
  - unfold prop_count, zlen in *. cbn. rewrite length_insert. lia.
  - rewrite G, !dead_count, H1. change (atoms (sh_prop (set_props _ _ _ _ ?l _))) with (atoms l). rewrite H2. unfold zlen. rewrite length_insert, !length_app, Hlen. cbn. lia.
  - change (NoDup (atoms (<[i := dl]> props))). rewrite H2. rewrite H1 in N. rewrite <- Permutation_middle in N. by apply list.NoDup_cons in N as [_ N].
Qed.

(** [sh]: the shape before, [sh1]: the shape that may be changed, of the same layout. *)
Lemma delete_marked sh1 atom lpr i : shape_ok sh1 -> atom <> JS_ATOM_NULL -> walk_result sh1 atom (Some (lpr, i)) ->
  exists pr, 0 <= i /\ sh_prop sh1 !! Z.to_nat i = Some pr /\ pr_atom pr = atom /\
  yields (unlink_prop sh1 (atom .& prop_hash_mask sh1) lpr i) (fun sh2 => exists props tab,
    sh2 = set_props (prop_hash_mask sh1) (prop_size sh1) (deleted_prop_count sh1) tab props sh1 /\ sh_prop sh2 = props /\
    pr_atom <$> props = pr_atom <$> sh_prop sh1 /\ pr_flags <$> props = pr_flags <$> sh_prop sh1 /\ props !! Z.to_nat i = Some pr /\
    let dl := MkShapeProperty (hash_next pr) 0 JS_ATOM_NULL in
    shape_ok (set_props (prop_hash_mask sh1) (prop_size sh1) (deleted_prop_count sh1 + 1) tab (<[Z.to_nat i := dl]> props) sh1)).
Proof.
  intros Hso Ha (pr & Hi & Hp & Hpa & Hl). exists pr. split; [done|]. split; [done|]. split; [done|]. assert (Hlive : live pr = true) by (apply live_true; congruence).
  pose proof (land_mask sh1 atom Hso) as Hb. unfold unlink_prop. rewrite (aget_some _ _ _ Hi Hp). cbn [mbind outcome_bind]. set (dl := MkShapeProperty _ _ _).
  pose proof (so_chained _ Hso) as Hch. assert (Hha : hash_of (prop_hash_mask sh1) pr = atom .& prop_hash_mask sh1) by (unfold hash_of; by rewrite Hpa).
  destruct lpr as [l|].
  - destruct Hl as (pl & Hil & Hpl & Hll & Hlh & Hln). rewrite (aget_some (sh_prop sh1) l pl ltac:(lia) Hpl). cbn [mbind outcome_bind]. unfold set_prop.
    rewrite aset_some by (apply lookup_lt_Some in Hpl; unfold zlen; lia). cbn [mbind outcome_bind mret outcome_ret yields]. set (pl' := MkShapeProperty _ _ _).
    eexists _, (prop_hash sh1). split; [reflexivity|]. split; [done|].
    assert (Hat : pr_atom <$> <[Z.to_nat l := pl']> (sh_prop sh1) = pr_atom <$> sh_prop sh1).
    { rewrite list_fmap_insert. apply list_insert_id. by rewrite list_lookup_fmap, Hpl. }
    split; [done|]. split; [rewrite list_fmap_insert; apply list_insert_id; by rewrite list_lookup_fmap, Hpl|].
    split; [rewrite list_lookup_insert_ne by lia; done|]. apply (deleted_ok sh1 (Z.to_nat i) pr dl); [done|done|done|done|done|done|].
    apply (chained_delete_next _ _ _ _ pr); [done|done|done|done|lia|done|done|congruence|lia].
  - rewrite aset_some by (rewrite (so_len _ Hso); lia). cbn [mbind outcome_bind mret outcome_ret yields].
    eexists _, _. split; [reflexivity|]. split; [done|]. split; [done|]. split; [done|]. split; [done|].
    apply (deleted_ok sh1 (Z.to_nat i) pr dl); [done|done|done|done|done|unfold zlen; by rewrite length_insert|]. rewrite <- Hha.
    apply (chained_delete_head _ _ _ _ pr); [done|done|done|done|lia|rewrite Hha; lia].
Qed.

Lemma walk_layout sh sh1 atom lpr i : layout sh sh1 -> walk_result sh atom (Some (lpr, i)) -> walk_result sh1 atom (Some (lpr, i)).
Proof. intros (L1 & L2 & L3 & L4 & L5 & L6). unfold walk_result. by rewrite L1, L3. Qed.

Lemma delete_found_spec E rt p o sh atom lpr i pr u : rt_ok E rt -> own rt p o sh -> atom <> JS_ATOM_NULL -> walk_result sh atom (Some (lpr, i)) ->
  sh_prop sh !! Z.to_nat i = Some pr -> prop o !! Z.to_nat i = Some (Some u) ->
  yields (delete_found p atom (atom .& prop_hash_mask sh) lpr i rt) (fun '(r, rt') => rt_ok E rt' /\ rt_kept p E rt rt' /\ exists o' sh', own rt' p o' sh' /\ kind o' = kind o /\
    if pr_flags pr .& JS_PROP_CONFIGURABLE =? 0 then r = 0 /\ view o' sh' = view o sh
    else (r = -1 /\ is_hashed sh = true /\ view o' sh' = view o sh) \/ (r = 1 /\ view o' sh' = without_atom atom (view o sh))).
Proof.
  intros Hok Hown Ha Hw Hp Hv. pose proof Hown as [Eo Es]. pose proof (own_count _ _ _ _ _ Hok Hown) as Hlen.
  pose proof (co_shape _ _ _ (rt_core _ _ Hok) _ _ Es) as Hso. assert (Hi : 0 <= i) by (by destruct Hw as (? & ? & _)).
  unfold delete_found. rewrite (get_object_eq _ _ _ Eo). cbn [mbind outcome_bind]. rewrite (get_shape_eq _ _ _ Es). cbn [mbind outcome_bind].
  rewrite (aget_some _ _ _ Hi Hp). cbn [mbind outcome_bind]. destruct (pr_flags pr .& JS_PROP_CONFIGURABLE =? 0).
  { cbn [yields mret outcome_ret]. split; [done|]. split; [apply kept_refl|]. by exists o, sh. }
  apply yields_bind. eapply yields_mono; [by apply (prepare_update_spec E p o sh)|]. intros [r rt1] (Hok1 & Hk1 & Hcase). cbn beta. cbn match.
  destruct Hcase as [(-> & Hwas & Ho1 & n & Es1)|(-> & y & sh1 & Hown1 & Hlay & Hh1)].
  { change (negb (-1 =? 0)) with true. cbn [yields mret outcome_ret]. split; [done|]. split; [done|]. exists o, (set_next n sh).
    split; [split; [by rewrite Ho1|done]|]. split; [done|]. left. done. }
  change (negb (0 =? 0)) with false. cbn match. pose proof Hown1 as [Eo1 Es1]. cbn [shape] in Es1. rewrite (get_object_eq _ _ _ Eo1). cbn [mbind outcome_bind shape].
  rewrite (get_shape_eq _ _ _ Es1). cbn [mbind outcome_bind]. pose proof (detached_unlinked _ _ _ _ _ Hok1 Hown1 Hh1) as Hu.
  destruct (shape_count_nat _ _ _ _ _ Hu) as (_ & Hsz1 & Hso1). pose proof (walk_layout _ _ _ _ _ Hlay Hw) as Hw1. destruct Hlay as (L1 & L2 & L3 & L4 & L5 & L6).
  rewrite <- L3. destruct (delete_marked sh1 atom lpr i Hso1 Ha Hw1) as (pr' & _ & Hp1 & Hpa & Hul). assert (pr' = pr) as -> by (rewrite L1 in Hp1; congruence).
  apply yields_bind. eapply yields_mono; [exact Hul|]. clear Hul. intros sh2 (props & tab & -> & _ & Hat & Hfl & Hpi & Hso2). cbn zeta in Hso2.
  cbn [prop_hash_mask prop_size deleted_prop_count prop_hash sh_prop set_props]. rewrite (aget_some _ _ _ Hi Hpi). cbn [mbind outcome_bind prop].
  rewrite (aget_some _ _ _ Hi Hv). cbn [mbind outcome_bind]. set (dl := MkShapeProperty _ _ _) in *.
  unfold set_prop. cbn [sh_prop set_props]. rewrite aset_some by (apply lookup_lt_Some in Hpi; unfold zlen; lia). cbn [mbind outcome_bind mret outcome_ret].
  cbn [prop_hash_mask prop_size deleted_prop_count prop_hash sh_prop set_props]. set (sh3 := set_props _ _ _ _ (<[Z.to_nat i := dl]> props) _).
  set (rt2 := emit _ (emit _ rt1)). assert (Hu2 : unlinked E rt2 p (MkJSObject y (prop o) (kind o)) sh1) by (destruct Hu as [[U1 U1'] U2 U3 U4 U5]; by split).
  assert (Hso3 : shape_ok sh3) by (by destruct Hso2; split).
  destruct (unlinked_put E rt2 p _ sh1 sh3 Hu2 Hso3) as [Hu3 Hk3]; [apply Hu|done|]. cbn [shape] in Hu3, Hk3. set (rt3 := put_shape y sh3 rt2) in *.
  assert (Hok3 : rt_ok E rt3) by (by eapply unlinked_detached). pose proof (ul_own _ _ _ _ _ Hu3) as Hown3.
  apply yields_bind. eapply yields_mono; [apply (set_value_spec E rt3 p _ sh3 i (PROP_VALUE JS_UNDEFINED) Hok3 Hown3)|].
  { cbn. apply lookup_lt_Some in Hv. unfold zlen. lia. }
  cbn [shape prop kind]. intros rt4 (Hok4 & Hk4 & Hown4 & _). cbn beta. set (o4 := MkJSObject y (<[Z.to_nat i := Some (PROP_VALUE JS_UNDEFINED)]> (prop o)) (kind o)) in *.
  assert (Hview : view o4 sh3 = without_atom atom (view o sh)).
  { unfold view, o4, sh3. cbn [prop sh_prop set_props]. rewrite <- Hpa, <- L1. rewrite <- (entries_ext (sh_prop sh1) props (prop o) (prop o)); [|done|done| |by rewrite L1].
    - apply entries_delete; [|apply (f_equal length) in Hat; rewrite !length_fmap in Hat; rewrite Hat, L1; done|done|apply live_true; congruence|done].
      rewrite (atoms_ext _ _ Hat), L1. apply Hso.
    - exists (drop (length (sh_prop sh1)) (prop o)), (drop (length (sh_prop sh1)) (prop o)). by rewrite take_drop. }
  assert (Hk14 : rt_kept p E rt rt4) by (eapply kept_trans; [exact Hk1|]; eapply kept_trans; [exact Hk3|exact Hk4]).
  match goal with |- context [if ?b then _ else _] => destruct b eqn:Hcomp end.
  - apply yields_bind. apply andb_prop in Hcomp as [H8 _]. cbn in H8. apply Z.geb_le in H8.
    apply yields_bind. eapply yields_mono; [apply (compact_spec E rt4 p o4 sh3 Hok4 Hown4)|].
    + done.
    + pose proof (so_count _ Hso3) as Hc3. pose proof (so_deleted _ Hso3) as Hd3. unfold dead in Hd3. unfold prop_count in Hc3.
      pose proof (length_filter (fun pr => live pr = false) (sh_prop sh3)). unfold zlen in *. change (deleted_prop_count sh3) with (deleted_prop_count sh1 + 1) in Hd3. lia.
    + intros [r' rt5] (Hok5 & Hk5 & o5 & sh5 & Hown5 & Hkd5 & _ & Hv5). cbn [yields mret outcome_ret]. split; [done|]. split; [by eapply kept_trans|].
      exists o5, sh5. split; [done|]. split; [done|]. right. split; [done|]. by rewrite Hv5.
  - cbn [mbind outcome_bind yields mret outcome_ret]. split; [done|]. split; [done|]. exists o4, sh3. split; [done|]. split; [done|]. by right.
Qed.
End Delete.
