(* ===== verification/ShapeSpecs.v ===== *)
(** * Objects as lists of properties

    The abstract reading of an object is the list of its properties ([view]) with how it treats other names ([kind]).  Theorems: adding and deleting
    a property, looking one up, creating an object. *)

From stdpp Require Import gmap.
From S2P Require Import Prelude Sums Cutils Alloc GcHeap Shape ShapeProps ShapeHash ShapeSpec ShapeOps ShapeEdit ShapeDelete.
#[local] Open Scope Z_scope.

Section Specs.
Context `{HM : Malloc} {Hbounded : MallocBounded} {Hpointer : 4 <= sizeof_pointer}.

(** ** Fast arrays *)

Fixpoint elements (i : Z) (tab : list JSValue) : list (Z * Z * option JSPropertyU) :=
  match tab with [] => [] | v :: tab => (__JS_AtomFromUInt32 i, JS_PROP_C_W_E, Some (PROP_VALUE v)) :: elements (i + 1) tab end.

Lemma tagged_atom v : 0 <= v < 2 ^ 31 -> __JS_AtomFromUInt32 v = v + 2 ^ 31.
Proof. intros Hv. unfold __JS_AtomFromUInt32, JS_ATOM_TAG_INT. apply (lor_add 31); [lia|done|]. by apply Z.mod_same. Qed.

Lemma view_atoms E rt p o sh : rt_ok E rt -> own rt p o sh -> (fun e => e.1.1) <$> view o sh = atoms (sh_prop sh).
Proof. intros Hok Hown. apply entries_atoms. by apply (own_count _ _ _ _ _ Hok Hown). Qed.

Lemma add_elements_spec E p : forall tab i rt o sh, rt_ok E rt -> own rt p o sh -> is_hashed sh = false -> prop_count sh + zlen tab <= prop_size sh ->
  0 <= i -> i + zlen tab <= 2 ^ 31 -> (forall j, i <= j < i + zlen tab -> __JS_AtomFromUInt32 j ∉ atoms (sh_prop sh)) ->
  yields (add_elements p i tab rt) (fun rt' => rt_ok E rt' /\ rt_kept p E rt rt' /\ exists o' sh', own rt' p o' sh' /\ kind o' = kind o /\
    is_hashed sh' = false /\ view o' sh' = view o sh ++ elements i tab).
Proof.
  intros tab. induction tab as [|v tab IH]; intros i rt o sh Hok Hown Hh Hroom Hi Hmax Hfresh; cbn [add_elements].
  - cbn. split; [done|]. split; [apply kept_refl|]. exists o, sh. by rewrite app_nil_r.
  - rewrite zlen_cons in *. pose proof (zlen_nonneg tab). assert (Htag : __JS_AtomFromUInt32 i = i + 2 ^ 31) by (apply tagged_atom; lia).
    assert (Hnz : __JS_AtomFromUInt32 i <> JS_ATOM_NULL) by (rewrite Htag; unfold JS_ATOM_NULL; lia).
    apply yields_bind. eapply yields_mono; [apply (add_property_spec_ok E rt p o sh (__JS_AtomFromUInt32 i) JS_PROP_C_W_E); [done|done|done|apply Hfresh; lia|done]|].
    intros [r rt1] (Hok1 & Hk1 & Hr). cbn beta. cbn match. destruct r as [k|]; [|exfalso; destruct Hr as [_ Hr]; apply Hr; split; [done|lia]].
    destruct Hr as (o1 & sh1 & Had & Hun). destruct (Hun Hh) as [Hh1 Hsz1]. specialize (Hsz1 ltac:(lia)).
    destruct (added_view E rt p _ _ _ o sh o1 sh1 (PROP_VALUE v) Hok Hown rt1 Hok1 Had Hnz) as (Hk & Hview & Hpc & Hat & Hkc).
    apply yields_bind. eapply yields_mono; [apply (set_value_spec E rt1 p o1 sh1 k (PROP_VALUE v) Hok1 (ad_own _ _ _ _ _ _ _ _ _ Had) Hk)|].
    intros rt2 (Hok2 & Hk2 & Hown2 & _). cbn beta. eapply yields_mono; [apply (IH (i + 1) rt2 _ sh1 Hok2 Hown2 Hh1)|].
    + lia.
    + lia.
    + lia.
    + intros j Hj. rewrite Hat, not_elem_of_app. split; [apply Hfresh; lia|]. rewrite not_elem_of_cons. split; [|apply not_elem_of_nil].
      rewrite Htag, tagged_atom by lia. lia.
    + intros rt3 (Hok3 & Hk3 & o3 & sh3 & Hown3 & Hkd3 & Hh3 & Hv3). split; [done|]. split; [eapply kept_trans; [exact Hk1|]; by eapply kept_trans|].
      exists o3, sh3. split; [done|]. split; [rewrite Hkd3; apply (ad_kind _ _ _ _ _ _ _ _ _ Had)|]. split; [done|].
      rewrite Hv3, Hview, <- app_assoc. done.
Qed.

(** The elements of a fast array are not properties as well. *)
Definition fast_array_ok (o : JSObject) (sh : JSShape) : Prop :=
  match kind o with
  | FAST_ARRAY values => zlen values < 2 ^ 25 /\ forall j, 0 <= j < zlen values -> __JS_AtomFromUInt32 j ∉ atoms (sh_prop sh)
  | _ => True
  end.

Lemma convert_spec E rt p o sh values : rt_ok E rt -> own rt p o sh -> kind o = FAST_ARRAY values -> fast_array_ok o sh ->
  yields (convert_fast_array_to_array p values rt) (fun '(r, rt') => rt_ok E rt' /\ rt_kept p E rt rt' /\ exists o' sh', own rt' p o' sh' /\
    ((r = -1 /\ kind o' = kind o /\ view o' sh' = view o sh) \/ (r = 0 /\ is_hashed sh' = false /\ kind o' = EXOTIC false /\ view o' sh' = view o sh ++ elements 0 values))).
Proof.
  intros Hok Hown Hkind Hfa. unfold fast_array_ok in Hfa. rewrite Hkind in Hfa. destruct Hfa as [Hlen Hfresh]. unfold convert_fast_array_to_array.
  apply yields_bind. eapply yields_mono; [by apply (prepare_update_spec E p o sh)|]. intros [r rt1] (Hok1 & Hk1 & Hcase). cbn beta. cbn match.
  destruct Hcase as [(-> & Hwas & Ho1 & n & Es1)|(-> & y & sh1 & Hown1 & (L1 & L2 & L3 & L4 & L5 & L6) & Hh1)].
  { change (negb (-1 =? 0)) with true. cbn [yields mret outcome_ret]. split; [done|]. split; [done|]. exists o, (set_next n sh). destruct Hown as [Eo Es].
    split; [split; [by rewrite Ho1|done]|]. left. done. }
  change (negb (0 =? 0)) with false. cbn match. pose proof Hown1 as [Eo1 Es1]. cbn [shape] in Es1. rewrite (get_object_eq _ _ _ Eo1). cbn [mbind outcome_bind shape].
  rewrite (get_shape_eq _ _ _ Es1). cbn [mbind outcome_bind]. pose proof (zlen_nonneg values). set (o1 := MkJSObject y (prop o) (kind o)) in *.
  pose proof (detached_unlinked _ _ _ _ _ Hok1 Hown1 Hh1) as Hu1. destruct (shape_count_nat _ _ _ _ _ Hu1) as (Hl1 & Hz1 & Hso1).
  pose proof (so_count _ Hso1). pose proof (so_size _ Hso1) as Hps1. unfold MAX_PROPS in Hps1. pose proof (zlen_nonneg (sh_prop sh1)) as Hp0.
  assert (Hres : yields (if prop_count sh1 + zlen values >? prop_size sh1 then resize_properties y (Some p) (prop_count sh1 + zlen values) rt1 else mret (0, y, rt1))
    (resized E rt1 p o1 sh1 (prop_count sh1 + zlen values))).
  { destruct (Z.gtb_spec (prop_count sh1 + zlen values) (prop_size sh1)).
    - unfold prop_count in *. apply (resize_properties_spec E rt1 p o1 sh1); [done|lia|unfold prop_count; lia].
    - cbn. exists o1, sh1. split; [done|]. split; [apply kept_refl|]. split; [apply evolved_refl|]. right. split; [done|]. split; [done|]. split; [lia|done]. }
  apply yields_bind. eapply yields_mono; [exact Hres|]. clear Hres. intros [[r q] rt2] (o2 & sh2 & Hu2 & Hk2 & Hev2 & Hcase). cbn beta. cbn match.
  assert (Hh2 : is_hashed sh2 = false) by (by rewrite (ev_hashed _ _ _ _ Hev2)). assert (Hok2 : rt_ok E rt2) by (by eapply unlinked_detached).
  pose proof (ul_own _ _ _ _ _ Hu2) as Hown2. assert (Hv2 : view o2 sh2 = view o sh).
  { unfold view. rewrite (evolved_entries _ _ _ _ Hev2 Hl1). cbn [prop o1]. by rewrite L1. }
  assert (Hk12 : rt_kept p E rt rt2) by (by eapply kept_trans).
  destruct Hcase as [(-> & _)|(-> & -> & Hcount & _)].
  { change (negb (-1 =? 0)) with true. cbn [yields mret outcome_ret]. split; [done|]. split; [done|]. exists o2, sh2. split; [done|]. left.
    split; [done|]. split; [by rewrite (ev_kind _ _ _ _ Hev2)|done]. }
  change (negb (0 =? 0)) with false. cbn match. apply yields_bind.
  assert (Hpc2 : prop_count sh2 = prop_count sh1) by (unfold prop_count, zlen; by rewrite (evolved_length _ _ _ _ Hev2)).
  eapply yields_mono; [apply (add_elements_spec E p values 0 rt2 o2 sh2 Hok2 Hown2 Hh2)|].
  { lia. } { lia. } { lia. }
  { intros j Hj. rewrite (atoms_ext _ _ (ev_atoms _ _ _ _ Hev2)), L1. apply Hfresh. lia. }
  intros rt3 (Hok3 & Hk3 & o3 & sh3 & Hown3 & Hkd3 & Hh3 & Hv3). cbn beta. pose proof Hown3 as [Eo3 Es3]. rewrite (get_object_eq _ _ _ Eo3).
  cbn [mbind outcome_bind yields mret outcome_ret]. set (o4 := MkJSObject (shape o3) (prop o3) (EXOTIC false)).
  pose proof (own_size _ _ _ _ _ Hok3 Hown3) as Hsz3. destruct (core_values E _ _ p o3 o4 sh3 (rt_core _ _ Hok3) Eo3 eq_refl Es3 Hsz3) as [Hc4 Hk4].
  split; [split; [apply Hok3|apply Hok3|done]|]. split; [eapply kept_trans; [exact Hk12|]; eapply kept_trans; [exact Hk3|exact Hk4]|].
  exists o4, sh3. split; [split; [cbn; apply lookup_insert_eq|done]|]. right. split; [done|]. split; [done|]. split; [done|]. change (view o4 sh3) with (view o3 sh3). by rewrite Hv3, Hv2.
Qed.

(** ** Lookup *)

Definition lookup_atom (a : Z) (l : list (Z * Z * option JSPropertyU)) : option (Z * option JSPropertyU) :=
  match list_find (fun e => e.1.1 = a) l with Some (_, e) => Some (e.1.2, e.2) | None => None end.

Lemma lookup_atom_elem a l f v : NoDup ((fun e => e.1.1) <$> l) -> (a, f, v) ∈ l -> lookup_atom a l = Some (f, v).
Proof.
  intros Hnd Hin. unfold lookup_atom. induction l as [|[[b g] w] l IH]; [by apply elem_of_nil in Hin|]. cbn in Hnd. apply list.NoDup_cons in Hnd as [Hb Hnd].
  cbn. destruct (decide (b = a)) as [->|Hne].
  - apply elem_of_cons in Hin as [Hin|Hin]; [by simplify_eq|]. exfalso. apply Hb. apply list_elem_of_fmap. by exists (a, f, v).
  - apply elem_of_cons in Hin as [Hin|Hin]; [simplify_eq|]. specialize (IH Hnd Hin). by destruct (list_find _ l) as [[? ?]|].
Qed.
Lemma lookup_atom_none a l : a ∉ (fun e => e.1.1) <$> l -> lookup_atom a l = None.
Proof.
  intros Ha. unfold lookup_atom. assert (list_find (fun e : Z * Z * option JSPropertyU => e.1.1 = a) l = None) as ->; [|done].
  apply list_find_None. apply list.Forall_forall. intros e He <-. apply Ha. apply list_elem_of_fmap. by exists e.
Qed.

Lemma find_own_walk_spec E rt p o sh atom : rt_ok E rt -> own rt p o sh -> atom <> JS_ATOM_NULL ->
  yields (find_own_property1 p atom rt) (fun r => match r with None => atom ∉ atoms (sh_prop sh) | Some i => exists lpr, walk_result sh atom (Some (lpr, i)) end).
Proof.
  intros Hok [Eo Es] Ha. pose proof (co_shape _ _ _ (rt_core _ _ Hok) _ _ Es) as Hso. unfold find_own_property1. rewrite (get_object_eq _ _ _ Eo).
  cbn [mbind outcome_bind]. rewrite (get_shape_eq _ _ _ Es). cbn [mbind outcome_bind]. pose proof (land_mask sh atom Hso) as Hb.
  pose proof (ch_tab _ _ _ (so_chained _ Hso) _ Hb) as Hh. rewrite (aget_some _ _ _ (proj1 Hb) Hh). cbn [mbind outcome_bind].
  rewrite (find_own_walk sh atom _ None). apply yields_bind. eapply yields_mono; [by apply (delete_walk_spec sh atom); [| | |lia]|].
  intros [[lpr i]|] Hw; cbn; [by exists lpr|exact Hw].
Qed.

(** [find_own_property] finds a property of an object exactly when it has one of this name, and then answers its flags and value. *)
Lemma find_own_property_ok E rt p o sh atom : rt_ok E rt -> own rt p o sh -> atom <> JS_ATOM_NULL ->
  yields (find_own_property p atom rt) (fun r => (fun '(_, flags, v) => (flags, v)) <$> r = lookup_atom atom (view o sh)).
Proof.
  intros Hok Hown Ha. pose proof Hown as [Eo Es]. unfold find_own_property. apply yields_bind. eapply yields_mono; [by apply (find_own_walk_spec E rt p o sh)|].
  pose proof (view_atoms _ _ _ _ _ Hok Hown) as Hva. pose proof (own_count _ _ _ _ _ Hok Hown) as Hlen. intros [i|] Hr; cbn beta; cbn match.
  - destruct Hr as (lpr & pr & Hi & Hp & Hpa & _). rewrite (get_object_eq _ _ _ Eo). cbn [mbind outcome_bind]. rewrite (get_shape_eq _ _ _ Es). cbn [mbind outcome_bind].
    rewrite (aget_some _ _ _ Hi Hp). cbn [mbind outcome_bind]. destruct (lookup_lt_is_Some_2 (prop o) (Z.to_nat i)) as [v Hv]; [apply lookup_lt_Some in Hp; lia|].
    rewrite (aget_some _ _ _ Hi Hv). cbn. symmetry. apply lookup_atom_elem.
    + rewrite Hva. apply (co_shape _ _ _ (rt_core _ _ Hok) _ _ Es).
    + rewrite <- Hpa. eapply entries_lookup; [done|apply live_true; congruence|done].
  - cbn. symmetry. apply lookup_atom_none. by rewrite Hva.
Qed.

(** ** Addition *)

(** What is left of a property when it was added and its value stored; or nothing has changed. *)
Definition added_value (E : list Z) (rt : Runtime) (p atom flags : Z) (o : JSObject) (sh : JSShape) (res : option Z * Runtime) : Prop :=
  let '(r, rt') := res in
  rt_ok E rt' /\ rt_kept p E rt rt' /\
  match r with
  | None => exists o' sh', own rt' p o' sh' /\ kind o' = kind o /\ view o' sh' = view o sh
  | Some k => forall u, yields (set_value p k u rt') (fun rt2 => rt_ok E rt2 /\ rt_kept p E rt rt2 /\
      exists o' sh', own rt2 p o' sh' /\ kind o' = kind o /\ view o' sh' = view o sh ++ [(atom, flags, Some u)])
  end.

(** [add_property] puts a new property at the end of the properties of an object, or fails and leaves them; whether shapes are shared, cloned,
    resized or found in the hash table, no other object changes and the invariant of shapes and objects is preserved. *)
Lemma add_property_ok E rt p o sh atom flags : rt_ok E rt -> own rt p o sh -> atom <> JS_ATOM_NULL -> lookup_atom atom (view o sh) = None -> 0 <= flags < 64 ->
  yields (add_property p atom flags rt) (added_value E rt p atom flags o sh).
Proof.
  intros Hok Hown Ha Hl Hf. pose proof (own_count _ _ _ _ _ Hok Hown) as Hlen.
  assert (Hna : atom ∉ atoms (sh_prop sh)).
  { rewrite <- (view_atoms _ _ _ _ _ Hok Hown). intros Hin. apply list_elem_of_fmap in Hin as ([[a f] v] & Ea & Hin). cbn in Ea. subst a.
    rewrite (lookup_atom_elem atom _ f v) in Hl; [done| |done]. rewrite (view_atoms _ _ _ _ _ Hok Hown). destruct Hown as [_ Es].
    apply (co_shape _ _ _ (rt_core _ _ Hok) _ _ Es). }
  eapply yields_mono; [by apply (add_property_spec_ok E rt p o sh)|]. intros [[k|] rt1] (Hok1 & Hk1 & Hr); (split; [done|]; split; [done|]).
  - destruct Hr as (o1 & sh1 & Had & _). intros u. destruct (added_view E rt p _ _ _ o sh o1 sh1 u Hok Hown rt1 Hok1 Had Ha) as (Hk & Hview & _).
    eapply yields_mono; [apply (set_value_spec E rt1 p o1 sh1 k u Hok1 (ad_own _ _ _ _ _ _ _ _ _ Had) Hk)|].
    intros rt2 (Hok2 & Hk2 & Hown2 & _). split; [done|]. split; [by eapply kept_trans|]. eexists _, sh1. split; [done|]. split; [|done].
    apply (ad_kind _ _ _ _ _ _ _ _ _ Had).
  - destruct Hr as [(o1 & sh1 & Hown1 & Hev) _]. exists o1, sh1. split; [done|]. split; [by rewrite (ev_kind _ _ _ _ Hev)|].
    by apply (evolved_entries _ _ _ _ Hev).
Qed.

(** ** Deletion *)

(** Status, properties and kind after the deletion of [atom]. *)
Definition deleted (rt : Runtime) (atom : Z) (l : list (Z * Z * option JSPropertyU)) (k : exotic) : Z * list (Z * Z * option JSPropertyU) * exotic :=
  match lookup_atom atom l with
  | Some (flags, _) => if flags .& JS_PROP_CONFIGURABLE =? 0 then (0, l, k) else (1, without_atom atom l, k)
  | None =>
      match k, JS_AtomIsArrayIndex atom rt with
      | FAST_ARRAY values, Some idx =>
          if idx <? zlen values then
            if idx =? zlen values - 1 then (1, l, FAST_ARRAY (take (Z.to_nat idx) values))
            else (1, without_atom atom (l ++ elements 0 values), EXOTIC false)
          else (1, l, k)
      | TYPED_ARRAY count, Some idx => (if idx <? count then 0 else 1, l, k)
      | _, _ => (1, l, k)
      end
  end.

(** One turn that finds the property. *)
Lemma delete_turn_found em E rt p o sh atom flags v : rt_ok E rt -> own rt p o sh -> atom <> JS_ATOM_NULL -> lookup_atom atom (view o sh) = Some (flags, Some v) ->
  yields (delete_turn em p atom rt) (fun x => exists r rt', x = inr (r, rt') /\ rt_ok E rt' /\ rt_kept p E rt rt' /\ exists o' sh', own rt' p o' sh' /\ kind o' = kind o /\
    if flags .& JS_PROP_CONFIGURABLE =? 0 then r = 0 /\ view o' sh' = view o sh
    else (r = -1 /\ is_hashed sh = true /\ view o' sh' = view o sh) \/ (r = 1 /\ view o' sh' = without_atom atom (view o sh))).
Proof.
  intros Hok Hown Ha Hl. pose proof Hown as [Eo Es]. pose proof (co_shape _ _ _ (rt_core _ _ Hok) _ _ Es) as Hso. pose proof (own_count _ _ _ _ _ Hok Hown) as Hlen.
  pose proof (view_atoms _ _ _ _ _ Hok Hown) as Hva. unfold delete_turn. rewrite (get_object_eq _ _ _ Eo). cbn [mbind outcome_bind].
  rewrite (get_shape_eq _ _ _ Es). cbn [mbind outcome_bind]. pose proof (land_mask sh atom Hso) as Hb.
  pose proof (ch_tab _ _ _ (so_chained _ Hso) _ Hb) as Hh. rewrite (aget_some _ _ _ (proj1 Hb) Hh). cbn [mbind outcome_bind].
  apply yields_bind. eapply yields_mono; [by apply (delete_walk_spec sh atom); [| | |lia]|]. intros [[lpr i]|] Hw; cbn beta; cbn match.
  - pose proof Hw as (pr & Hi & Hp & Hpa & _). destruct (lookup_lt_is_Some_2 (prop o) (Z.to_nat i)) as [w Hv]; [apply lookup_lt_Some in Hp; lia|].
    assert (Hlk : lookup_atom atom (view o sh) = Some (pr_flags pr, w)).
    { apply lookup_atom_elem; [rewrite Hva; apply Hso|]. rewrite <- Hpa. eapply entries_lookup; [done|apply live_true; congruence|done]. }
    rewrite Hl in Hlk. simplify_eq. apply yields_bind. eapply yields_mono; [by apply (delete_found_spec E rt p o sh (pr_atom pr) lpr i pr v)|].
    intros [r rt'] (Hok' & Hk' & o' & sh' & Hown' & Hkd' & Hr). cbn. exists r, rt'. split; [done|]. split; [done|]. split; [done|]. exists o', sh'. done.
  - cbn in Hw. rewrite lookup_atom_none in Hl; [done|]. by rewrite Hva.
Qed.

(** One turn that does not find it. *)
Lemma delete_turn_missing em E rt p o sh atom Q : rt_ok E rt -> own rt p o sh -> atom <> JS_ATOM_NULL -> lookup_atom atom (view o sh) = None ->
  yields (delete_missing em p atom o rt) Q -> yields (delete_turn em p atom rt) Q.
Proof.
  intros Hok Hown Ha Hl HQ. pose proof Hown as [Eo Es]. pose proof (co_shape _ _ _ (rt_core _ _ Hok) _ _ Es) as Hso.
  pose proof (own_count _ _ _ _ _ Hok Hown) as Hlen. pose proof (view_atoms _ _ _ _ _ Hok Hown) as Hva.
  unfold delete_turn. rewrite (get_object_eq _ _ _ Eo). cbn [mbind outcome_bind]. rewrite (get_shape_eq _ _ _ Es). cbn [mbind outcome_bind].
  pose proof (land_mask sh atom Hso) as Hb. pose proof (ch_tab _ _ _ (so_chained _ Hso) _ Hb) as Hh. rewrite (aget_some _ _ _ (proj1 Hb) Hh). cbn [mbind outcome_bind].
  apply yields_bind. eapply yields_mono; [by apply (delete_walk_spec sh atom); [| | |lia]|]. intros [[lpr i]|] Hw; cbn beta; cbn match; [|exact HQ].
  exfalso. destruct Hw as (pr & Hi & Hp & Hpa & _). destruct (lookup_lt_is_Some_2 (prop o) (Z.to_nat i)) as [w Hv]; [apply lookup_lt_Some in Hp; lia|].
  rewrite (lookup_atom_elem atom _ (pr_flags pr) w) in Hl; [done|rewrite Hva; apply Hso|]. rewrite <- Hpa.
  eapply entries_lookup; [done|apply live_true; congruence|done].
Qed.

Definition has_values (l : list (Z * Z * option JSPropertyU)) : Prop := forall a f v, lookup_atom a l = Some (f, v) -> is_Some v.

Lemma lookup_atom_app a l1 l2 : lookup_atom a l1 = None -> lookup_atom a (l1 ++ l2) = lookup_atom a l2.
Proof.
  unfold lookup_atom. induction l1 as [|e l1 IH]; [done|]. cbn. destruct (decide (e.1.1 = a)); [done|]. intros H.
  assert (H' : match list_find (fun e : Z * Z * option JSPropertyU => e.1.1 = a) l1 with Some (_, e) => Some (e.1.2, e.2) | None => None end = None).
  { by destruct (list_find _ l1) as [[? ?]|]. }
  specialize (IH H'). rewrite <- IH. by destruct (list_find _ (l1 ++ l2)) as [[? ?]|].
Qed.
Lemma lookup_elements tab : forall i j v, 0 <= i -> i + zlen tab <= 2 ^ 31 -> tab !! j = Some v ->
  lookup_atom (__JS_AtomFromUInt32 (i + Z.of_nat j)) (elements i tab) = Some (JS_PROP_C_W_E, Some (PROP_VALUE v)).
Proof.
  induction tab as [|w tab IH]; intros i j v Hi Hmax Hj; [done|]. rewrite zlen_cons in Hmax. pose proof (zlen_nonneg tab).
  pose proof (lookup_lt_Some _ _ _ Hj) as Hlt. cbn in Hlt. unfold zlen in *. unfold lookup_atom. cbn [elements list_find fst]. destruct j as [|j].
  - cbn in Hj. simplify_eq. replace (i + Z.of_nat 0) with i by lia. by rewrite decide_True.
  - rewrite decide_False by (rewrite !tagged_atom by lia; lia). cbn in Hj. specialize (IH (i + 1) j v ltac:(lia) ltac:(lia) Hj).
    replace (i + Z.of_nat (S j)) with (i + 1 + Z.of_nat j) by lia. unfold lookup_atom in IH. by destruct (list_find _ (elements (i + 1) tab)) as [[? ?]|].
Qed.

(** A property name that is an index below 2^31 is a tagged integer. *)
Lemma index_tagged rt atom idx : 0 <= atom < 2 ^ 32 -> (forall a i, num_atoms rt !! a = Some i -> 2 ^ 31 <= i) ->
  JS_AtomIsArrayIndex atom rt = Some idx -> idx < 2 ^ 31 -> atom = __JS_AtomFromUInt32 idx /\ 0 <= idx.
Proof.
  intros Har Hnum Hidx Hlt. unfold JS_AtomIsArrayIndex in Hidx. destruct (__JS_AtomIsTaggedInt atom) eqn:Htag; [|apply Hnum in Hidx; lia].
  injection Hidx as <-. unfold __JS_AtomToUInt32, __JS_AtomIsTaggedInt, JS_ATOM_TAG_INT in *. change 2147483647 with (Z.ones 31) in *.
  rewrite Z.land_ones in * by lia. pose proof (Z.mod_pos_bound atom (2 ^ 31) ltac:(lia)). rewrite tagged_atom by lia. split; [|lia].
  assert (Hbit : atom .& 2147483648 <> 0) by (by destruct (Z.eqb_spec (atom .& 2147483648) 0)).
  assert (2 ^ 31 <= atom).
  { destruct (decide (2 ^ 31 <= atom)); [done|]. exfalso. apply Hbit. change 2147483648 with (2 ^ 31). apply Z.bits_inj_iff'. intros b Hb0.
    rewrite Z.land_spec, Z.bits_0, Z.pow2_bits_eqb by lia. destruct (Z.eqb_spec 31 b) as [<-|]; [|by rewrite andb_false_r]. rewrite andb_true_r.
    destruct (decide (atom = 0)) as [->|]; [done|]. apply Z.bits_above_log2; [lia|]. apply Z.log2_lt_pow2; lia. }
  rewrite (Z.div_mod atom (2 ^ 31)) at 1 by lia. assert (atom / 2 ^ 31 = 1) as ->; [|lia]. symmetry. apply (Z.div_unique _ _ _ (atom - 2 ^ 31)); lia.
Qed.

(** [delete_property] takes the property out of the object, unless it is not configurable; the rest of the properties keep their order and values, also when the
    table is compacted; the last element of a fast array is cut off and another element turns the array into an ordinary object.  On failure nothing
    has changed.  No other object changes, and the invariant is preserved. *)
Lemma delete_property_ok em E rt p o sh atom : rt_ok E rt -> own rt p o sh -> atom <> JS_ATOM_NULL -> 0 <= atom < 2 ^ 32 -> kind o <> EXOTIC true -> fast_array_ok o sh ->
  has_values (view o sh) -> (kind o <> NOT_EXOTIC -> forall a i, num_atoms rt !! a = Some i -> 2 ^ 31 <= i) ->
  yields (delete_property em p atom rt) (fun '(r, rt') => rt_ok E rt' /\ rt_kept p E rt rt' /\ exists o' sh', own rt' p o' sh' /\
    ((r = -1 /\ view o' sh' = view o sh /\ kind o' = kind o) \/ (r, view o' sh', kind o') = deleted rt atom (view o sh) (kind o))).
Proof.
  intros Hok Hown Ha Har Hem Hfa Hvals Hnum. pose proof Hown as [Eo Es]. pose proof (co_shape _ _ _ (rt_core _ _ Hok) _ _ Es) as Hso.
  pose proof (own_count _ _ _ _ _ Hok Hown) as Hlen. pose proof (view_atoms _ _ _ _ _ Hok Hown) as Hva. unfold deleted.
  destruct (lookup_atom atom (view o sh)) as [[flags v]|] eqn:Hl.
  - destruct (Hvals _ _ _ Hl) as [u ->]. unfold delete_property. cbn [loop]. apply yields_bind.
    eapply yields_mono; [by apply (delete_turn_found em E rt p o sh atom flags u)|]. intros x (r & rt' & -> & Hok' & Hk' & o' & sh' & Hown' & Hkd' & Hr).
    cbn [yields]. split; [done|]. split; [done|]. exists o', sh'. split; [done|]. destruct (flags .& JS_PROP_CONFIGURABLE =? 0).
    + destruct Hr as [-> ->]. right. by rewrite Hkd'.
    + destruct Hr as [(-> & _ & ->)|[-> ->]]; [by left|right; by rewrite Hkd'].
  - unfold delete_property. change 3%nat with (S 2). cbn [loop]. apply yields_bind. apply (delete_turn_missing em E rt p o sh atom _ Hok Hown Ha Hl). unfold delete_missing.
    assert (Hsame : forall r k, (r, view o sh, k) = (r, view o sh, kind o) -> yields (mret (inr (r, rt)) : outcome (Runtime + Z * Runtime)) (fun x =>
      yields (match x with inl s' => loop 2 (delete_turn em p atom) s' | inr r => Ret r end) (fun '(r', rt') => rt_ok E rt' /\ rt_kept p E rt rt' /\ exists o' sh', own rt' p o' sh' /\
        ((r' = -1 /\ view o' sh' = view o sh /\ kind o' = kind o) \/ (r', view o' sh', kind o') = (r, view o sh, k))))).
    { intros r k Hk. cbn. split; [done|]. split; [apply kept_refl|]. exists o, sh. split; [done|]. by right. }
    destruct (kind o) as [|values|count|[|]] eqn:Hkind; [by apply Hsame| | |done|by apply Hsame].
    + destruct (JS_AtomIsArrayIndex atom rt) as [idx|] eqn:Hidx; [|by apply Hsame].
      unfold fast_array_ok in Hfa. rewrite Hkind in Hfa. pose proof Hfa as [Hvl Hfresh].
      destruct (Z.ltb_spec idx (zlen values)) as [Hlt|Hge]; [|by apply Hsame].
      pose proof (index_tagged rt atom idx Har (Hnum ltac:(congruence)) Hidx ltac:(lia)) as Hat.
      destruct Hat as [Hat Hi0]. destruct (Z.eqb_spec idx (zlen values - 1)) as [Hlast|Hnl].
      * destruct (aget_in_range values idx ltac:(lia)) as (w & Hw & _). rewrite Hw. cbn [mbind outcome_bind mret outcome_ret yields].
        set (o' := MkJSObject _ _ _). pose proof (own_size _ _ _ _ _ Hok Hown) as Hsz.
        destruct (core_values E _ _ p o o' sh (rt_core _ _ Hok) Eo eq_refl Es Hsz) as [Hc' Hk'].
        split; [split; [apply Hok|apply Hok|done]|]. split; [done|]. exists o', sh. split; [split; [cbn; apply lookup_insert_eq|done]|]. by right.
      * apply yields_bind. eapply yields_mono; [apply (convert_spec E rt p o sh values Hok Hown Hkind)|].
        { unfold fast_array_ok. by rewrite Hkind. }
        intros [r rt1] (Hok1 & Hk1 & o1 & sh1 & Hown1 & Hcase). cbn beta. cbn match. destruct Hcase as [(-> & Hkd1 & Hv1)|(-> & Hh1 & Hkd1 & Hv1)].
        -- change (negb (-1 =? 0)) with true. cbn [yields mret outcome_ret]. split; [done|]. split; [done|]. exists o1, sh1. split; [done|]. left.
           split; [done|]. split; [done|]. congruence.
        -- change (negb (0 =? 0)) with false. cbn [yields mret outcome_ret]. destruct (lookup_lt_is_Some_2 values (Z.to_nat idx)) as [w Hw]; [unfold zlen in *; lia|].
           assert (Hl1 : lookup_atom atom (view o1 sh1) = Some (JS_PROP_C_W_E, Some (PROP_VALUE w))).
           { rewrite Hv1, lookup_atom_app by done. rewrite Hat. replace idx with (0 + Z.of_nat (Z.to_nat idx)) by lia. apply lookup_elements; [lia|lia|done]. }
           change 2%nat with (S 1). cbn [loop]. apply yields_bind.
           eapply yields_mono; [by apply (delete_turn_found em E rt1 p o1 sh1 atom JS_PROP_C_W_E (PROP_VALUE w))|].
           intros x (r & rt2 & -> & Hok2 & Hk2 & o2 & sh2 & Hown2 & Hkd2 & Hr). cbn [yields]. split; [done|]. split; [by eapply kept_trans|]. exists o2, sh2.
           split; [done|]. change (JS_PROP_C_W_E .& JS_PROP_CONFIGURABLE =? 0) with false in Hr. cbn match in Hr.
           destruct Hr as [(-> & Hwas & Hv2)|[-> Hv2]]; [congruence|right; by rewrite Hv2, Hv1, Hkd2, Hkd1].
    + destruct (JS_AtomIsArrayIndex atom rt) as [idx|]; by apply Hsame.
Qed.

(** ** Creation *)

Lemma core_add_object E s os p q sh o : core (q :: E) s os -> s !! q = Some sh -> os !! p = None -> shape o = q -> prop_size sh <= zlen (prop o) ->
  core E s (<[p := o]> os) /\ forall x, kept x E s os s (<[p := o]> os).
Proof.
  intros Hc Es Hp Ho Hsz. split; [split|intros x; split].
  - apply Hc.
  - apply Hc.
  - intros x shx Ex. rewrite (co_count _ _ _ Hc _ _ Ex), refs_cons. unfold refs. rewrite sum_insert by done. unfold points at 2. rewrite Ho. lia.
  - apply Hc.
  - apply Hc.
  - intros x ox Ex. destruct (decide (x = p)) as [->|Hne]; [rewrite lookup_insert_eq in Ex; simplify_eq; by exists sh|].
    rewrite lookup_insert_ne in Ex by done. by eapply co_object.
  - intros x Hx. apply (co_root _ _ _ Hc). by constructor.
  - intros y oy _ Ey. rewrite lookup_insert_ne; [done|congruence].
  - intros y oy shy _ _ Ey. by exists shy.
  - intros y shy _ Ey. by exists shy.
Qed.

Definition simple_class (c : class_kind) : bool := match c with CK_array | CK_c_function => false | _ => true end.

(** A new object of the shape [q], whose reference it takes. *)
Definition created (E : list Z) (rt : Runtime) (proto : Z) (props : list JSShapeProperty) (k : exotic) (res : Z * Runtime) : Prop :=
  let '(p, rt') := res in
  rt_ok E rt' /\ (forall x, rt_kept x E rt rt') /\
  (p = 0 \/ objects rt !! p = None /\ exists o sh, own rt' p o sh /\ sh_prop sh = props /\ Shape.proto sh = proto /\ kind o = k).

Lemma new_from_shape_spec E rt q sh c : rt_ok (q :: E) rt -> shapes rt !! q = Some sh -> simple_class c = true ->
  yields (JS_NewObjectFromShape q c rt) (created E rt (Shape.proto sh) (sh_prop sh) (class_exotic c)).
Proof.
  intros Hok Es Hcl. unfold JS_NewObjectFromShape. rewrite (get_shape_eq q sh (emit TriggerGC rt) Es). cbn [mbind outcome_bind].
  pose proof (so_size _ (co_shape _ _ _ (rt_core _ _ Hok) _ _ Es)) as Hsz0.
  assert (Hfail : forall m, yields (rt ← free_shape q (set_mem m (emit TriggerGC rt)); mret (0, rt)) (created E rt (Shape.proto sh) (sh_prop sh) (class_exotic c))).
  { intros m. apply yields_bind. eapply yields_mono; [apply (free_spec E q sh); [by apply (same_state_ok _ rt)|done]|].
    intros rt' (Hok' & Hk' & _). cbn. split; [done|]. split; [|by left]. intros x. apply Hk'. }
  destruct (malloc_spec 48 (emit TriggerGC rt)) as (r & m & -> & Hr). destruct r as [p|]; [|apply Hfail]. destruct (Hr p eq_refl) as (Hp0 & _ & Hpo & _).
  destruct (malloc_spec (16 * prop_size sh) (set_mem m (emit TriggerGC rt))) as (r' & m' & -> & _). destruct r' as [x|].
  2:{ exact (Hfail m'). }
  set (o := MkJSObject q _ (class_exotic c)). set (rt1 := put_object p o _).
  assert (Hi : init_class p q c rt1 = Ret rt1) by (by destruct c). rewrite Hi. cbn [mbind outcome_bind mret outcome_ret yields].
  destruct (core_add_object E _ _ p q sh o (rt_core _ _ Hok) Es Hpo eq_refl) as [Hc' Hk'].
  { cbn. unfold zlen. rewrite length_replicate. lia. }
  split; [|split].
  - split; [apply Hok|apply Hok|exact Hc'].
  - intros y. apply Hk'.
  - right. split; [done|]. exists o, sh. split; [split; [cbn; apply lookup_insert_eq|done]|done].
Qed.

Lemma empty_shape_ok proto k n : 0 <= k <= 30 -> 0 <= n < MAX_PROPS ->
  shape_ok (MkJSShape 1 true false (shape_initial_hash proto) (2 ^ k - 1) n 0 0 proto (replicate (Z.to_nat (2 ^ k)) 0) []).
Proof.
  intros Hk Hn. pose proof (Z.pow_pos_nonneg 2 k ltac:(lia) ltac:(lia)).
  split; cbn; [exists k; lia|unfold zlen; rewrite length_replicate; lia| |unfold prop_count; cbn; change (zlen []) with 0; lia|done|done|constructor|].
  - replace (2 ^ k) with (2 ^ k - 1 + 1) at 2 by lia. apply chained_empty.
  - unfold shape_initial_hash, shape_hash. destruct (_ >? _); by apply wrap_range.
Qed.

Lemma new_shape_spec E rt proto k n : rt_ok E rt -> 0 <= k <= 30 -> 0 <= n < MAX_PROPS ->
  yields (js_new_shape2 proto (2 ^ k) n rt) (fun '(p, rt') => (forall x, rt_kept x E rt rt') /\ objects rt' = objects rt /\
    (p = 0 /\ rt_ok E rt' \/ p <> 0 /\ rt_ok (p :: E) rt' /\ exists sh, shapes rt' !! p = Some sh /\ sh_prop sh = [] /\ Shape.proto sh = proto)).
Proof.
  intros Hok Hk Hn. unfold js_new_shape2. apply yields_bind.
  apply (yields_mono _ (fun rt1 => rt_ok E rt1 /\ same_shapes (shapes rt) (shapes rt1) /\ objects rt1 = objects rt)).
  { destruct (_ >? _); [|cbn; split; [done|]; split; [apply same_refl|done]]. apply yields_bind.
    assert (Hres : yields (resize_shape_hash (shape_hash_bits rt + 1) rt) (fun '(_, rt1) => rt_ok E rt1 /\ same_shapes (shapes rt) (shapes rt1) /\ objects rt1 = objects rt)).
    { eapply yields_mono; [apply (resize_shape_hash_spec (Hpointer := Hpointer) (hashed (shapes rt)) rt); [apply Hok|by eapply core_shapes_ok, Hok| |apply Hok]|].
      - intros q (sh & Eq & _). by exists sh.
      - intros [r rt1] [(-> & m & ->)|(-> & s & tab & cnt & m & -> & Hs & Ht & Hb)].
        + split; [by apply (same_state_ok _ rt)|]. split; [apply same_refl|done].
        + split; [|done]. split; [|done|by eapply core_same, Hok]. eapply rt_table_ext; [|done]. intros q _. by apply hashed_same_iff. }
    eapply yields_mono; [exact Hres|]. by intros [r rt1]. }
  intros rt1 (Hok1 & Hs1 & Ho1). cbn beta. destruct (malloc_spec (get_shape_size (2 ^ k) n) rt1) as (r & m & -> & Hr).
  assert (Hk1 : forall x, kept x E (shapes rt) (objects rt) (shapes rt1) (objects rt1)) by (intros x; rewrite Ho1; by apply kept_same).
  destruct r as [p|].
  2:{ cbn. split; [exact Hk1|]. split; [done|]. left. split; [done|]. by apply (same_state_ok _ rt1). }
  destruct (Hr p eq_refl) as (Hp0 & Hps & _ & _). set (sh := MkJSShape _ _ _ _ _ _ _ _ _ _ _). set (rt2 := put_shape p sh _).
  assert (E2 : same_state (put_shape p sh rt1) rt2) by (unfold rt2; by destruct (proto =? 0)).
  destruct E2 as (E1 & E2 & E3 & E4 & E5). clearbody rt2. cbn in E1, E2, E3, E4, E5. pose proof Hok1 as [[Ht Hz] Hb Hc].
  assert (Hc2 : core (p :: E) (shapes rt2) (objects rt2)) by (rewrite E1, E2; apply core_new; [done|done|done|by apply empty_shape_ok|done]).
  apply yields_bind. eapply yields_mono; [apply (link_spec (hashed (shapes rt1)) p sh rt2)|].
  - split; [|by rewrite E5, E4]. rewrite E1, E3, E4. apply (table_ok_frame _ (shapes rt1)); [done|]. intros q (shq & Eq & _). rewrite lookup_insert_ne; [done|congruence].
  - by eapply core_shapes_ok.
  - rewrite E1. apply lookup_insert_eq.
  - intros (? & ? & ?). congruence.
  - intros rt3 [(s3 & tab & cnt & -> & Hs3) [Ht3 Hz3]]. cbn [yields mret outcome_ret]. split; [|split].
    + intros x. eapply kept_trans; [apply Hk1|]. cbn. rewrite E2. eapply kept_trans; [by apply (kept_new _ _ _ _ p sh)|]. rewrite <- E1. by apply kept_same.
    + cbn. by rewrite E2, Ho1.
    + right. split; [done|]. split.
      * split; [split; [|done]|cbn; by rewrite E4|by eapply core_same]. cbn in *. eapply table_ok_ext; [|done]. intros q _.
        rewrite <- (hashed_same_iff _ _ q Hs3), E1. unfold with_p, hashed. destruct (decide (q = p)) as [->|Hne].
        -- rewrite lookup_insert_eq. split; [intros _; by exists sh|by left].
        -- rewrite lookup_insert_ne by done. tauto.
      * destruct (same_lookup _ _ p sh Hs3) as [j Ej]; [rewrite E1; apply lookup_insert_eq|]. by exists (set_next j sh).
Qed.

(** [JS_NewObjectProtoClass] creates an object without properties with the prototype and class asked for, sharing a shape when the hash table has one, or
    fails; no other object changes, and the invariant is preserved. *)
Lemma new_object_ok E rt proto c : rt_ok E rt -> simple_class c = true ->
  yields (JS_NewObjectProtoClass proto c rt) (created E rt proto [] (class_exotic c)).
Proof.
  intros Hok Hcl. unfold JS_NewObjectProtoClass, find_hashed_shape_proto. apply yields_bind.
  eapply yields_mono; [apply (find_hashed_spec (hashed (shapes rt))); [apply Hok|]|].
  { unfold shape_initial_hash, shape_hash. destruct (_ >? _); by apply wrap_range. }
  intros q [->|(sh & Hq & (sh' & Es' & Hh) & Es & Hm)]; cbn beta.
  - change (negb (0 =? 0)) with false. cbn match. unfold js_new_shape. apply yields_bind.
    eapply yields_mono; [by apply (new_shape_spec E rt proto 2 2)|]. intros [q rt1] (Hk1 & Ho1 & [[-> Hok1]|(Hq & Hok1 & sh & Es & Hp & Hproto)]); cbn beta; cbn match.
    + change (0 =? 0) with true. cbn. split; [done|]. split; [done|]. by left.
    + destruct (Z.eqb_spec q 0); [done|]. eapply yields_mono; [by apply (new_from_shape_spec E rt1 q sh c)|].
      intros [p rt2] (Hok2 & Hk2 & Hr). split; [done|]. split; [intros x; eapply kept_trans; [apply Hk1|apply Hk2]|].
      rewrite Hp, Hproto, Ho1 in Hr. exact Hr.
  - destruct (Z.eqb_spec q 0); [done|]. cbn [negb]. assert (sh' = sh) as -> by congruence. clear Es'.
    unfold match_proto in Hm. rewrite !andb_true_iff in Hm. destruct Hm as [[_ Hproto%Z.eqb_eq] Hcnt%Z.eqb_eq].
    apply yields_bind. eapply yields_mono; [by apply (dup_spec E q sh)|]. intros rt1 (Hok1 & Hs1 & Ho1). cbn beta.
    eapply yields_mono; [apply (new_from_shape_spec E rt1 q (set_count (sh_ref_count sh + 1) sh) c Hok1); [by rewrite Hs1, lookup_insert_eq|done]|].
    intros [p rt2] (Hok2 & Hk2 & Hr). split; [done|]. split.
    + intros x. eapply kept_trans; [|apply Hk2]. rewrite Hs1, Ho1. by apply kept_dup.
    + cbn [sh_prop Shape.proto set_count] in Hr. rewrite Hproto, Ho1 in Hr. assert (sh_prop sh = []) as Hnil; [|by rewrite Hnil in Hr].
      unfold prop_count, zlen in Hcnt. destruct (sh_prop sh); [done|cbn in Hcnt; lia].
Qed.
End Specs.
