(* ===== verification/ShapeRun.v ===== *)
(** * Objects against their specification

    A client of objects creates them and adds, reads, overwrites and deletes properties.  Its specification knows nothing of shapes: an object is a
    list of names, flags and values.  The operations of Shape.v implement it, sharing, cloning and compacting shapes behind the
    scenes, and running out of memory at any point. *)

From stdpp Require Import gmap.
From S2P Require Import Prelude Cutils Alloc GcHeap Shape ShapeProps ShapeHash ShapeSpec ShapeOps ShapeEdit ShapeDelete ShapeSpecs.
#[local] Open Scope Z_scope.

Notation property := (Z * Z * option JSPropertyU)%type.

(** ** The specification *)

Inductive command :=
| New (proto : Z)
| Get (p atom : Z)
| Add (p atom flags : Z) (u : JSPropertyU)
| SetValue (p atom : Z) (u : JSPropertyU)
| SetFlags (p atom flags : Z)
| Delete (p atom : Z).
Inductive answer := Pointer (p : Z) | Found (r : option (Z * option JSPropertyU)) | Status (r : Z).

(** What a command on the object with properties [l] may answer and leave: -1 is a failure, 0 a refusal. *)
Inductive edits : command -> list property -> answer -> list property -> Prop :=
| edits_get p a l : edits (Get p a) l (Found (lookup_atom a l)) l
| edits_add p a f u l : lookup_atom a l = None -> edits (Add p a f u) l (Status 1) (l ++ [(a, f, Some u)])
| edits_set p a u l e : lookup_atom a l = Some e -> edits (SetValue p a u) l (Status 1) (with_value a u l)
| edits_flags p a f l e : lookup_atom a l = Some e -> edits (SetFlags p a f) l (Status 1) (with_flags a f l)
| edits_delete p a l : match lookup_atom a l with Some (f, _) => f .& JS_PROP_CONFIGURABLE <> 0 | None => True end ->
    edits (Delete p a) l (Status 1) (without_atom a l)
| edits_keep p a l f v : lookup_atom a l = Some (f, v) -> f .& JS_PROP_CONFIGURABLE = 0 -> edits (Delete p a) l (Status 0) l
| edits_add_twice p a f u l e : lookup_atom a l = Some e -> edits (Add p a f u) l (Status 0) l
| edits_set_missing p a u l : lookup_atom a l = None -> edits (SetValue p a u) l (Status 0) l
| edits_flags_missing p a f l : lookup_atom a l = None -> edits (SetFlags p a f) l (Status 0) l
| edits_memory c l : match c with Add _ _ _ _ | SetFlags _ _ _ | Delete _ _ => True | _ => False end -> edits c l (Status (-1)) l.

Definition subject (c : command) : Z :=
  match c with New _ => 0 | Get p _ | Add p _ _ _ | SetValue p _ _ | SetFlags p _ _ | Delete p _ => p end.

Notation heap := (gmap Z (list property)).
Inductive steps_to : command -> heap -> answer -> heap -> Prop :=
| steps_new pr (A : heap) p : p <> 0 -> A !! p = None -> steps_to (New pr) A (Pointer p) (<[p := []]> A)
| steps_new_memory pr A : steps_to (New pr) A (Pointer 0) A
| steps_edit c (A : heap) l ans l' : A !! subject c = Some l -> edits c l ans l' -> steps_to c A ans (<[subject c := l']> A).

(** The objects exist, the names are atoms, the flags have six bits. *)
Definition atom_ok (a : Z) : Prop := a <> JS_ATOM_NULL /\ 0 <= a < 2 ^ 32.
Definition command_ok (A : heap) (c : command) : Prop :=
  match c with
  | New _ => True
  | Get p a | SetValue p a _ | Delete p a => is_Some (A !! p) /\ atom_ok a
  | Add p a f _ | SetFlags p a f => is_Some (A !! p) /\ atom_ok a /\ 0 <= f < 64
  end.

(** A client decides from the answers how to go on; it is safe when it keeps to the preconditions of the commands whatever happens. *)
Inductive client := Finish | Call (c : command) (next : answer -> client).
Inductive safe : heap -> client -> Prop :=
| safe_finish A : safe A Finish
| safe_call A c next : command_ok A c -> (forall ans A', steps_to c A ans A' -> safe A' (next ans)) -> safe A (Call c next).
Inductive behaves : client -> heap -> list answer -> heap -> Prop :=
| behaves_finish A : behaves Finish A [] A
| behaves_call c next A ans A1 answers A2 : steps_to c A ans A1 -> behaves (next ans) A1 answers A2 -> behaves (Call c next) A (ans :: answers) A2.

(** ** The implementation *)

Section Run.
Context `{HM : Malloc} {Hbounded : MallocBounded} {Hpointer : 4 <= sizeof_pointer}.

Definition no_delete_method (p atom : Z) (rt : Runtime) : outcome (Z * Runtime) := Undef.

Definition execute (c : command) (rt : Runtime) : outcome (answer * Runtime) :=
  match c with
  | New pr => '(p, rt) ← JS_NewObjectProtoClass pr CK_object rt; mret (Pointer p, rt)
  | Get p a => r ← find_own_property p a rt; mret (Found ((fun '(_, f, v) => (f, v)) <$> r), rt)
  | Add p a f u =>
      r ← find_own_property1 p a rt;
      match r with
      | Some _ => mret (Status 0, rt)
      | None =>
          '(i, rt) ← add_property p a f rt;
          match i with
          | None => mret (Status (-1), rt)
          | Some i => rt ← set_value p i u rt; mret (Status 1, rt)
          end
      end
  | SetValue p a u =>
      r ← find_own_property1 p a rt;
      match r with None => mret (Status 0, rt) | Some i => rt ← set_value p i u rt; mret (Status 1, rt) end
  | SetFlags p a f =>
      r ← find_own_property1 p a rt;
      match r with
      | None => mret (Status 0, rt)
      | Some i => '(r, rt) ← js_update_property_flags p i f rt; mret (Status (if r =? 0 then 1 else -1), rt)
      end
  | Delete p a => '(r, rt) ← delete_property no_delete_method p a rt; mret (Status r, rt)
  end.
Fixpoint run (cl : client) (rt : Runtime) : outcome (list answer * Runtime) :=
  match cl with
  | Finish => mret ([], rt)
  | Call c next => '(ans, rt) ← execute c rt; '(answers, rt) ← run (next ans) rt; mret (ans :: answers, rt)
  end.

Lemma forall_values l : Forall (fun e : property => is_Some e.2) l -> has_values l.
Proof.
  intros Hl a f v Ha. unfold lookup_atom in Ha. destruct (list_find _ l) as [[i e]|] eqn:Hf; [|done]. simplify_eq.
  apply list_find_Some in Hf as (Hi & _). by eapply Forall_lookup_1 in Hl.
Qed.
Lemma edits_values c l ans l' : edits c l ans l' -> Forall (fun e => is_Some e.2) l -> Forall (fun e => is_Some e.2) l'.
Proof.
  intros He Hl. inversion He; subst; try done.
  - apply Forall_app. split; [done|]. by repeat constructor.
  - apply list.Forall_fmap. eapply list.Forall_impl; [done|]. intros [[b f] v] Hv. cbn. by destruct (b =? a).
  - apply list.Forall_fmap. eapply list.Forall_impl; [done|]. intros [[b g] v] Hv. cbn. by destruct (b =? a).
  - apply list.Forall_forall. intros e He2. apply list_elem_of_filter in He2 as [_ He2]. rewrite list.Forall_forall in Hl. by apply Hl.
Qed.

Lemma without_missing a l : lookup_atom a l = None -> without_atom a l = l.
Proof.
  unfold lookup_atom. intros Hl. apply filter_all_id. apply (list_find_None (fun e : property => e.1.1 = a)). by destruct (list_find _ l) as [[? ?]|].
Qed.

Definition represents_at (rt : Runtime) (p : Z) (l : list property) : Prop :=
  Forall (fun e => is_Some e.2) l /\ exists o sh, own rt p o sh /\ kind o = NOT_EXOTIC /\ view o sh = l.
(** The objects of the specification are objects of the runtime, with the same properties. *)
Definition represents (rt : Runtime) (A : heap) : Prop := forall p l, A !! p = Some l -> represents_at rt p l.

Lemma represents_other p E rt rt' q l : rt_kept p E rt rt' -> q <> p -> represents_at rt q l -> represents_at rt' q l.
Proof.
  intros Hk Hne (Hl & o & sh & [Eo Es] & Hkd & Hv). split; [done|].
  destruct (kp_shapes _ _ _ _ _ _ Hk q o sh Hne Eo Es) as (sh2 & Es2 & Ep & _). exists o, sh2.
  split; [split; [by eapply kp_objects|done]|]. split; [done|]. unfold view. by rewrite Ep.
Qed.
Lemma represents_insert p E rt rt' (A : heap) l : represents rt A -> rt_kept p E rt rt' -> represents_at rt' p l -> represents rt' (<[p := l]> A).
Proof.
  intros HA Hk Hp q lq Hq. destruct (decide (q = p)) as [->|Hne].
  - rewrite lookup_insert_eq in Hq. by simplify_eq.
  - rewrite lookup_insert_ne in Hq by done. by eapply represents_other, HA.
Qed.

(** The index that [find_own_property1] answers. *)
Lemma find_index E rt p o sh a : rt_ok E rt -> own rt p o sh -> a <> JS_ATOM_NULL ->
  yields (find_own_property1 p a rt) (fun r => match r with
    | None => lookup_atom a (view o sh) = None
    | Some i => 0 <= i < zlen (prop o) /\ (exists e, lookup_atom a (view o sh) = Some e) /\
        exists pr, sh_prop sh !! Z.to_nat i = Some pr /\ live pr = true /\ pr_atom pr = a
    end).
Proof.
  intros Hok Hown Ha. pose proof (own_count _ _ _ _ _ Hok Hown) as Hlen. pose proof (view_atoms _ _ _ _ _ Hok Hown) as Hva.
  eapply yields_mono; [by apply (find_own_walk_spec E rt p o sh)|]. intros [i|] Hr; [|apply lookup_atom_none; by rewrite Hva].
  destruct Hr as (lpr & pr & Hi & Hp & Hpa & _). pose proof (lookup_lt_Some _ _ _ Hp). assert (Hl : live pr = true) by (apply live_true; congruence).
  split; [unfold zlen; lia|]. split; [|by exists pr]. destruct (lookup_lt_is_Some_2 (prop o) (Z.to_nat i)) as [w Hw]; [lia|].
  exists (pr_flags pr, w). apply lookup_atom_elem; [rewrite Hva; apply (co_shape _ _ _ (rt_core _ _ Hok)) with (1 := proj2 Hown)|].
  rewrite <- Hpa. by eapply entries_lookup.
Qed.

(** What a command on one object does. *)
Definition edited (E : list Z) (c : command) (rt : Runtime) (o : JSObject) (sh : JSShape) (res : answer * Runtime) : Prop :=
  let '(ans, rt') := res in
  rt_ok E rt' /\ rt_kept (subject c) E rt rt' /\ exists o' sh', own rt' (subject c) o' sh' /\ kind o' = kind o /\ edits c (view o sh) ans (view o' sh').

Lemma edited_same E c rt o sh ans : rt_ok E rt -> own rt (subject c) o sh -> edits c (view o sh) ans (view o sh) -> edited E c rt o sh (ans, rt).
Proof. intros Hok Hown He. split; [done|]. split; [apply kept_refl|]. by exists o, sh. Qed.

Lemma get_edited E p a rt o sh : rt_ok E rt -> own rt p o sh -> atom_ok a -> yields (execute (Get p a) rt) (edited E (Get p a) rt o sh).
Proof.
  intros Hok Hown [Ha _]. cbn [execute]. apply yields_bind. eapply yields_mono; [by apply (find_own_property_ok E rt p o sh a)|].
  intros r Hr. cbn beta. rewrite Hr. cbn [yields mret outcome_ret]. apply edited_same; [done|done|constructor].
Qed.
Lemma add_edited E p a f u rt o sh : rt_ok E rt -> own rt p o sh -> atom_ok a -> 0 <= f < 64 ->
  yields (execute (Add p a f u) rt) (edited E (Add p a f u) rt o sh).
Proof.
  intros Hok Hown [Ha _] Hf. cbn [execute]. apply yields_bind. eapply yields_mono; [by apply (find_index E rt p o sh a)|]. intros [i|] Hr; cbn beta; cbn match.
  - destruct Hr as (_ & [e He] & _). cbn [yields mret outcome_ret]. apply edited_same; [done|done|by econstructor].
  - apply yields_bind. eapply yields_mono; [by apply (add_property_ok E rt p o sh a f)|]. intros [[i|] rt1] (Hok1 & Hk1 & Hadd); cbn beta; cbn match.
    + apply yields_bind. eapply yields_mono; [apply Hadd|]. intros rt2 (Hok2 & Hk2 & o2 & sh2 & Hown2 & Hkd2 & Hv2). cbn.
      split; [done|]. split; [done|]. exists o2, sh2. split; [done|]. split; [done|]. rewrite Hv2. by constructor.
    + destruct Hadd as (o1 & sh1 & Hown1 & Hkd1 & Hv1). cbn. split; [done|]. split; [done|]. exists o1, sh1. split; [done|]. split; [done|].
      rewrite Hv1. by constructor.
Qed.
Lemma set_edited E p a u rt o sh : rt_ok E rt -> own rt p o sh -> atom_ok a -> yields (execute (SetValue p a u) rt) (edited E (SetValue p a u) rt o sh).
Proof.
  intros Hok Hown [Ha _]. cbn [execute]. apply yields_bind. eapply yields_mono; [by apply (find_index E rt p o sh a)|]. intros [i|] Hr; cbn beta; cbn match.
  - destruct Hr as (Hi & [e He] & pr & Hp & Hl & Hpa). apply yields_bind. eapply yields_mono; [by apply (set_value_spec E rt p o sh i u)|].
    intros rt1 (Hok1 & Hk1 & Hown1 & _). cbn. split; [done|]. split; [done|]. eexists _, sh. split; [done|]. split; [done|].
    unfold view at 2. cbn [prop]. pose proof (own_count _ _ _ _ _ Hok Hown). rewrite (entries_value _ _ _ pr); [|apply (co_shape _ _ _ (rt_core _ _ Hok) _ _ (proj2 Hown))|done..].
    rewrite Hpa. by econstructor.
  - cbn [yields mret outcome_ret]. apply edited_same; [done|done|by constructor].
Qed.
Lemma flags_edited E p a f rt o sh : rt_ok E rt -> own rt p o sh -> atom_ok a -> 0 <= f < 64 ->
  yields (execute (SetFlags p a f) rt) (edited E (SetFlags p a f) rt o sh).
Proof.
  intros Hok Hown [Ha _] Hf. cbn [execute]. apply yields_bind. eapply yields_mono; [by apply (find_index E rt p o sh a)|]. intros [i|] Hr; cbn beta; cbn match.
  - destruct Hr as (Hi & [e He] & pr & Hp & Hl & Hpa). apply yields_bind. eapply yields_mono; [apply (update_flags_spec E rt p o sh i pr f); [done..|lia|done|done|done]|].
    intros [r rt1] (Hok1 & Hk1 & o1 & sh1 & Hown1 & Hkd1 & [[-> Hv1]|[-> Hv1]]); cbn; (split; [done|]; split; [done|]; exists o1, sh1; split; [done|]; split; [done|]); rewrite Hv1.
    + by constructor.
    + rewrite Hpa. by econstructor.
  - cbn [yields mret outcome_ret]. apply edited_same; [done|done|by constructor].
Qed.
Lemma delete_edited E p a rt o sh : rt_ok E rt -> own rt p o sh -> kind o = NOT_EXOTIC -> Forall (fun e => is_Some e.2) (view o sh) -> atom_ok a ->
  yields (execute (Delete p a) rt) (edited E (Delete p a) rt o sh).
Proof.
  intros Hok Hown Hkd Hl [Ha Har]. cbn [execute]. apply yields_bind. eapply yields_mono.
  { apply (delete_property_ok no_delete_method E rt p o sh a Hok Hown Ha Har); [congruence|by unfold fast_array_ok; rewrite Hkd|by apply forall_values|done]. }
  intros [r rt1] (Hok1 & Hk1 & o1 & sh1 & Hown1 & Hr). cbn. split; [done|]. split; [done|]. exists o1, sh1. split; [done|].
  destruct Hr as [(-> & -> & ->)|Hr]; [split; [done|by constructor]|]. unfold deleted in Hr.
  destruct (lookup_atom a (view o sh)) as [[f v]|] eqn:Hlk; [destruct (Z.eqb_spec (f .& JS_PROP_CONFIGURABLE) 0)|]; rewrite ?Hkd in Hr; simplify_eq; (split; [congruence|]); match goal with Hv : view o1 sh1 = _ |- _ => rewrite Hv end.
  - by eapply edits_keep.
  - apply edits_delete. by rewrite Hlk.
  - rewrite <- (without_missing a (view o sh)) at 2 by done. apply edits_delete. by rewrite Hlk.
Qed.

Lemma execute_edited E c rt o sh (A : heap) : rt_ok E rt -> own rt (subject c) o sh -> kind o = NOT_EXOTIC -> Forall (fun e => is_Some e.2) (view o sh) ->
  command_ok A c -> match c with New _ => False | _ => True end -> yields (execute c rt) (edited E c rt o sh).
Proof.
  intros Hok Hown Hkd Hl Hc Hn. destruct c as [|p a|p a f u|p a u|p a f|p a]; cbn in Hc; [done|destruct Hc as [_ Hc]..]; try destruct Hc as [Hc Hf].
  - by apply get_edited.
  - by apply add_edited.
  - by apply set_edited.
  - by apply flags_edited.
  - by apply delete_edited.
Qed.

Lemma new_steps E pr rt (A : heap) : rt_ok E rt -> represents rt A ->
  yields (execute (New pr) rt) (fun '(ans, rt') => exists A', steps_to (New pr) A ans A' /\ rt_ok E rt' /\ represents rt' A').
Proof.
  intros Hok HA. cbn [execute]. apply yields_bind. eapply yields_mono; [by apply (new_object_ok (Hpointer := Hpointer) E rt pr CK_object)|].
  intros [p rt1] (Hok1 & Hk1 & Hp). cbn. destruct (decide (p = 0)) as [->|Hp0].
  - exists A. split; [apply steps_new_memory|]. split; [done|]. intros q l Hq. apply (represents_other (q + 1) E rt); [apply Hk1|lia|by apply HA].
  - destruct Hp as [->|(Hfree & o & sh & Hown & Hprops & _ & Hkd)]; [done|]. assert (Hnone : A !! p = None).
    { apply eq_None_not_Some. intros [l Hl]. destruct (HA p l Hl) as (_ & o1 & sh1 & [Eo1 _] & _). congruence. }
    exists (<[p := []]> A). split; [by apply steps_new|]. split; [done|]. apply (represents_insert p E rt); [done|apply Hk1|].
    split; [done|]. exists o, sh. split; [done|]. split; [done|]. unfold view. by rewrite Hprops.
Qed.

(** One command of the implementation is one of the specification. *)
Lemma execute_steps E c rt (A : heap) : rt_ok E rt -> represents rt A -> command_ok A c ->
  yields (execute c rt) (fun '(ans, rt') => exists A', steps_to c A ans A' /\ rt_ok E rt' /\ represents rt' A').
Proof.
  intros Hok HA Hc. assert (Hn : (exists pr, c = New pr) \/ match c with New _ => False | _ => True end) by (destruct c; eauto).
  destruct Hn as [[pr ->]|Hn]; [by apply new_steps|].
  assert (Hs : is_Some (A !! subject c)) by (destruct c; cbn in Hc; done || apply Hc). destruct Hs as [l Hl].
  destruct (HA _ _ Hl) as (Hvals & o & sh & Hown & Hkd & <-).
  eapply yields_mono; [by apply (execute_edited E c rt o sh A)|].
  intros [ans rt1] (Hok1 & Hk1 & o1 & sh1 & Hown1 & Hkd1 & He). exists (<[subject c := view o1 sh1]> A).
  split; [by eapply steps_edit|]. split; [done|]. apply (represents_insert _ E rt); [done|done|].
  split; [by eapply edits_values|]. exists o1, sh1. split; [done|]. split; [congruence|done].
Qed.

Lemma run_behaves E cl : forall A rt, safe A cl -> rt_ok E rt -> represents rt A ->
  yields (run cl rt) (fun '(answers, rt') => exists A', behaves cl A answers A' /\ rt_ok E rt' /\ represents rt' A').
Proof.
  induction cl as [|c next IH]; intros A rt Hsafe Hok HA; inversion Hsafe as [|? ? ? Hc Hnext]; subst; cbn [run].
  - cbn. exists A. split; [constructor|done].
  - apply yields_bind. eapply yields_mono; [by apply (execute_steps E c rt A)|]. intros [ans rt1] (A1 & Hst & Hok1 & HA1). cbn beta. cbn match.
    apply yields_bind. eapply yields_mono; [apply (IH ans A1 rt1); [by apply Hnext|done|done]|]. intros [answers rt2] (A2 & Hb & Hok2 & HA2). cbn.
    exists A2. split; [by econstructor|done].
Qed.

(** ** Theorems *)

(** C3: objects with shared shapes refine lists of properties: whatever a client does that creates objects and adds, reads, overwrites, re-flags and deletes
    properties, the engine answers as the specification may, object by object; and the invariant of shapes, hash table and counts holds at the end. *)
Theorem run_refines E cl A rt : safe A cl -> rt_ok E rt -> represents rt A ->
  yields (run cl rt) (fun '(answers, rt') => exists A', behaves cl A answers A' /\ rt_ok E rt' /\ represents rt' A').
Proof. apply run_behaves. Qed.

(** C4: [add_property] puts a new property at the end of the properties of an object, or fails and leaves them; whether shapes are shared, cloned,
    resized or found in the hash table, no other object changes and the invariant of shapes and objects is preserved. *)
Theorem add_property_spec E rt p o sh atom flags : rt_ok E rt -> own rt p o sh -> atom <> JS_ATOM_NULL -> lookup_atom atom (view o sh) = None -> 0 <= flags < 64 ->
  yields (add_property p atom flags rt) (added_value E rt p atom flags o sh).
Proof. apply add_property_ok. Qed.

(** C5: [delete_property] takes the property out of the object, unless it is not configurable; the rest of the properties keep their order and values, also when the
    table is compacted; the last element of a fast array is cut off and another element turns the array into an ordinary object.  On failure nothing
    has changed.  No other object changes, and the invariant is preserved. *)
Theorem delete_property_spec em E rt p o sh atom : rt_ok E rt -> own rt p o sh -> atom <> JS_ATOM_NULL -> 0 <= atom < 2 ^ 32 -> kind o <> EXOTIC true -> fast_array_ok o sh ->
  has_values (view o sh) -> (kind o <> NOT_EXOTIC -> forall a i, num_atoms rt !! a = Some i -> 2 ^ 31 <= i) ->
  yields (delete_property em p atom rt) (fun '(r, rt') => rt_ok E rt' /\ rt_kept p E rt rt' /\ exists o' sh', own rt' p o' sh' /\
    ((r = -1 /\ view o' sh' = view o sh /\ kind o' = kind o) \/ (r, view o' sh', kind o') = deleted rt atom (view o sh) (kind o))).
Proof. apply delete_property_ok. Qed.

(** C6: [JS_NewObjectProtoClass] creates an object without properties with the prototype and class asked for, sharing a shape when the hash table has one, or
    fails; no other object changes, and the invariant is preserved. *)
Theorem JS_NewObjectProtoClass_spec E rt proto c : rt_ok E rt -> simple_class c = true ->
  yields (JS_NewObjectProtoClass proto c rt) (created E rt proto [] (class_exotic c)).
Proof. by apply (new_object_ok (Hpointer := Hpointer)). Qed.
End Run.

(** ** Witnesses *)

#[local] Existing Instances small_malloc small_malloc_bounded.

(** A runtime without objects. *)
Definition empty_runtime : Runtime := MkRuntime ∅ ∅ (replicate 16 0) 4 16 0 [] 0 ∅ [] tt.
Lemma empty_runtime_ok : rt_ok [] empty_runtime.
Proof.
  split; [split; [split; [cbn; lia|done|]|done]|cbn; lia|split; try done].
  - intros b Hb. exists 0, []. split; [apply lookup_replicate; cbn in Hb; split; [done|lia]|]. split; [constructor|]. split; [constructor|].
    intros p. split; [intros Hp; by apply elem_of_nil in Hp|]. intros [_ (sh & Hp & _)]. done.
  - intros p Hp. by apply elem_of_nil in Hp.
Qed.

(** Commands whatever the answers. *)
Fixpoint sequence (cs : list command) : client := match cs with [] => Finish | c :: cs => Call c (fun _ => sequence cs) end.
Lemma steps_dom c A ans A' : steps_to c A ans A' -> forall p, is_Some (A !! p) -> is_Some (A' !! p).
Proof.
  intros Hs p Hp. inversion Hs; subst; [|done|]; (rewrite lookup_insert; case_decide; [by eexists|done]).
Qed.
Lemma command_ok_dom A A' c : (forall p, is_Some (A !! p) -> is_Some (A' !! p)) -> command_ok A c -> command_ok A' c.
Proof. intros HA Hc. destruct c; cbn in *; [done|..]; destruct Hc as [Hc Hr]; (split; [apply HA|]; assumption). Qed.
Lemma sequence_safe cs : forall A, Forall (command_ok A) cs -> safe A (sequence cs).
Proof.
  induction cs as [|c cs IH]; intros A Hcs; inversion Hcs as [|? ? Hc Hrest]; subst; constructor; [done|]. intros ans A' Hs. apply IH.
  eapply list.Forall_impl; [exact Hrest|]. intros c'. apply command_ok_dom. by eapply steps_dom.
Qed.

(** Two objects; the commands of [cs] follow. *)
Definition two_objects (cs : Z -> Z -> list command) : client :=
  Call (New 0) (fun a => Call (New 0) (fun b =>
    match a, b with
    | Pointer a, Pointer b => if (a =? 0) || (b =? 0) then Finish else sequence (cs a b)
    | _, _ => Finish
    end)).
Lemma two_objects_safe cs : (forall a b (A : heap), is_Some (A !! a) -> is_Some (A !! b) -> Forall (command_ok A) (cs a b)) -> safe ∅ (two_objects cs).
Proof.
  intros Hcs. constructor; [done|]. intros a A Ha. constructor; [done|]. intros b A' Hb. destruct a as [a| |]; try constructor. destruct b as [b| |]; try constructor.
  destruct (Z.eqb_spec a 0); [constructor|]. destruct (Z.eqb_spec b 0); [constructor|]. cbn [orb]. apply sequence_safe, Hcs.
  - eapply steps_dom; [done|]. inversion Ha as [| |? ? l ? l' Hl He]; subst; [by rewrite lookup_insert_eq|done|inversion He].
  - inversion Hb as [| |? ? l ? l' Hl He]; subst; [by rewrite lookup_insert_eq|done|inversion He].
Qed.

(** They get the same property, so they share a shape. *)
Definition sharing (a b : Z) : list command := [Add a 100 7 (PROP_VALUE (JS_SCALAR 1)); Add b 100 7 (PROP_VALUE (JS_SCALAR 2))].
Definition parting (a b : Z) : list command := [Add b 101 7 (PROP_VALUE (JS_SCALAR 3)); SetFlags b 101 0; Delete a 100; Delete b 101; Get b 100].
Lemma sharing_safe : safe ∅ (two_objects sharing).
Proof. apply two_objects_safe. intros a b A Ha Hb. by repeat constructor. Qed.
Definition after (cl : client) : Runtime := match run cl empty_runtime with Ret (_, rt) => rt | _ => empty_runtime end.
Definition shared_runtime : Runtime := after (two_objects sharing).
Lemma after_ok cl : safe ∅ cl -> rt_ok [] (after cl).
Proof.
  intros Hs. assert (HA : represents empty_runtime ∅) by done. pose proof (run_behaves (Hpointer := small_pointer) [] cl ∅ _ Hs empty_runtime_ok HA) as H.
  unfold after. destruct (run cl empty_runtime) as [[ans rt]| |]; [|done..]. by destruct H as (A' & _ & H & _).
Qed.
Definition object_at (p : Z) (rt : Runtime) : JSObject := default (MkJSObject 0 [] NOT_EXOTIC) (objects rt !! p).
Definition shape_at (p : Z) (rt : Runtime) : JSShape := default (MkJSShape 0 true false 0 0 0 0 0 0 [] []) (shapes rt !! p).

Definition demo : client := two_objects (fun a b => sharing a b ++ parting a b).
Definition answers (cl : client) : list answer := match run cl empty_runtime with Ret (ans, _) => ans | _ => [] end.
Lemma run_refines_witness : exists A', behaves demo ∅ (answers demo) A' /\
  answers demo = [Pointer 2; Pointer 3; Status 1; Status 1; Status 1; Status 1; Status 1; Status 0; Found (Some (7, Some (PROP_VALUE (JS_SCALAR 2))))].
Proof.
  assert (Hs : safe ∅ demo).
  { apply two_objects_safe. intros a b A Ha Hb. by repeat constructor. }
  assert (HA : represents empty_runtime ∅) by done.
  pose proof (run_refines (Hpointer := small_pointer) [] demo ∅ empty_runtime Hs empty_runtime_ok HA) as H.
  assert (Ha : answers demo = match run demo empty_runtime with Ret (ans, _) => ans | _ => [] end) by reflexivity.
  destruct (run demo empty_runtime) as [[ans rt]| |]; [|destruct H..]. destruct H as (A' & Hb & _). exists A'. rewrite Ha at 1. split; [exact Hb|by vm_compute].
Defined.
Lemma add_property_spec_witness :
  yields (add_property 3 101 7 shared_runtime) (added_value [] shared_runtime 3 101 7 (object_at 3 shared_runtime) (shape_at (shape (object_at 3 shared_runtime)) shared_runtime)).
Proof.
  apply add_property_spec; [exact (after_ok _ sharing_safe)|split; by vm_compute|done|by vm_compute|lia].
Defined.
Lemma delete_property_spec_witness :
  let o := object_at 3 shared_runtime in let sh := shape_at (shape o) shared_runtime in
  sh_ref_count sh = 2 /\
  yields (delete_property no_delete_method 3 100 shared_runtime) (fun '(r, rt') => rt_ok [] rt' /\ rt_kept 3 [] shared_runtime rt' /\ exists o' sh', own rt' 3 o' sh' /\
    ((r = -1 /\ view o' sh' = view o sh /\ kind o' = kind o) \/ (r, view o' sh', kind o') = (1, [], NOT_EXOTIC))).
Proof.
  split; [by vm_compute|].
  apply (delete_property_spec no_delete_method [] shared_runtime 3 (object_at 3 shared_runtime) (shape_at (shape (object_at 3 shared_runtime)) shared_runtime) 100);
    [exact (after_ok _ sharing_safe)|split; by vm_compute|done|lia|by vm_compute|by vm_compute| |by vm_compute].
  apply forall_values. apply (bool_decide_eq_true_1 _). by vm_compute.
Defined.
Lemma JS_NewObjectProtoClass_spec_witness : yields (JS_NewObjectProtoClass 3 CK_typed_array shared_runtime) (created [] shared_runtime 3 [] (TYPED_ARRAY 0)).
Proof. apply (JS_NewObjectProtoClass_spec (Hpointer := small_pointer) [] shared_runtime 3 CK_typed_array); [exact (after_ok _ sharing_safe)|done]. Defined.

(** The length of an array whose shape is not the usual one is added with [add_property], which may fail: then NULL is dereferenced. *)
#[refine, local] Instance counted_malloc : Malloc := {|
  mem := nat;
  js_malloc := fun m used n => match m with S m => (Some (next_block used), m) | O => (None, O) end;
  sizeof_pointer := 8 |}.
Proof.
  intros [|m] used n p; cbn; [done|]. intros [= <-]. pose proof (next_block_fresh used) as [? ?]. split; [lia|done].
Defined.
Definition first_array (budget : nat) : outcome (Z * Runtime (H := counted_malloc)) :=
  '(_, rt) ← JS_NewObjectProtoClass 0 CK_object (MkRuntime ∅ ∅ (replicate 16 0) 4 16 0 [] 0 ∅ [] budget);
  JS_NewObjectProtoClass 0 CK_array rt.
Fact array_length_null : first_array 5 = Undef /\ match first_array 6 with Ret _ => true | _ => false end = true.
Proof. by vm_compute. Qed.
