(* ===== verification/Equality.v ===== *)
(** * Values and their equality (quickjs.c)

    Values as scripts see them: a number is an integer of 32 bits or the bits of a double, a string is a sequence of 8-bit or of 16-bit characters.
    Comparison of strings, strict equality, SameValue and SameValueZero, and the hash of a key of a Map.  Big floats and big
    decimals are left out. *)

From stdpp Require Import base list.
From S2P Require Import Prelude Cutils.
#[local] Open Scope Z_scope.

Record JSString := MkJSString { is_wide_char : bool; str : list Z }.
#[export] Instance JSString_eq_dec : EqDecision JSString.
Proof. solve_decision. Defined.

Inductive JSValue :=
| Undefined | Null | Bool (b : bool) | Int (n : Z) | Float64 (bits : Z) | String (s : JSString) | Symbol (p : Z) | Object (p : Z) | BigInt (n : Z).
#[export] Instance JSValue_eq_dec : EqDecision JSValue.
Proof. solve_decision. Defined.

Definition JS_TAG_BIG_INT : Z := -10.
Definition JS_TAG_SYMBOL : Z := -8.
Definition JS_TAG_STRING : Z := -7.
Definition JS_TAG_OBJECT : Z := -1.
Definition JS_TAG_INT : Z := 0.
Definition JS_TAG_BOOL : Z := 1.
Definition JS_TAG_NULL : Z := 2.
Definition JS_TAG_UNDEFINED : Z := 3.
Definition JS_TAG_FLOAT64 : Z := 7.
Definition JS_VALUE_GET_NORM_TAG (v : JSValue) : Z :=
  match v with
  | Undefined => JS_TAG_UNDEFINED | Null => JS_TAG_NULL | Bool _ => JS_TAG_BOOL | Int _ => JS_TAG_INT | Float64 _ => JS_TAG_FLOAT64
  | String _ => JS_TAG_STRING | Symbol _ => JS_TAG_SYMBOL | Object _ => JS_TAG_OBJECT | BigInt _ => JS_TAG_BIG_INT
  end.
Definition JS_IsObject (v : JSValue) : bool := match v with Object _ => true | _ => false end.

(** ** Doubles of 64 bits *)

(** The double of an integer below 2^53, exactly. *)
Definition double_of_int (n : Z) : Z :=
  if n =? 0 then 0
  else let a := Z.abs n in let e := Z.log2 a in
       (if n <? 0 then 2 ^ 63 else 0) + (1023 + e) * 2 ^ 52 + (a * 2 ^ (52 - e) - 2 ^ 52).
Definition magnitude (d : Z) : Z := d .& 0x7fffffffffffffff.
Definition isnan (d : Z) : bool := magnitude d >? 0x7ff0000000000000.
(** [d1 == d2] of C. *)
Definition double_eq (d1 d2 : Z) : bool :=
  negb (isnan d1) && negb (isnan d2) && ((d1 =? d2) || ((magnitude d1 =? 0) && (magnitude d2 =? 0))).

(** ** Strings *)

(** [memcmp], [memcmp16] and [memcmp16_8]: the difference of the first characters that differ. *)
Fixpoint memcmp16 (src1 src2 : list Z) (len : nat) : outcome Z :=
  match len, src1, src2 with
  | O, _, _ => mret 0
  | S len, c1 :: src1, c2 :: src2 => if negb (c1 - c2 =? 0) then mret (c1 - c2) else memcmp16 src1 src2 len
  | S _, _, _ => Undef
  end.
Definition js_string_memcmp (p1 p2 : JSString) (len : nat) : outcome Z :=
  if negb (is_wide_char p1) && is_wide_char p2 then r ← memcmp16 (str p2) (str p1) len; mret (- r)
  else memcmp16 (str p1) (str p2) len.
Definition js_string_compare (p1 p2 : JSString) : outcome Z :=
  let len := Z.to_nat (min_int (zlen (str p1)) (zlen (str p2))) in
  res ← js_string_memcmp p1 p2 len;
  mret (if res =? 0 then if zlen (str p1) =? zlen (str p2) then 0 else if zlen (str p1) <? zlen (str p2) then -1 else 1 else res).

Fixpoint hash_string8 (str : list Z) (h : Z) : Z := match str with [] => h | c :: str => hash_string8 str (u32 (h * 263 + c)) end.
Fixpoint hash_string16 (str : list Z) (h : Z) : Z := match str with [] => h | c :: str => hash_string16 str (u32 (h * 263 + c)) end.
Definition hash_string (s : JSString) (h : Z) : Z := if is_wide_char s then hash_string16 (str s) h else hash_string8 (str s) h.

(** ** Equality *)

Inductive JSStrictEqModeEnum := JS_EQ_STRICT | JS_EQ_SAME_VALUE | JS_EQ_SAME_VALUE_ZERO.

Definition number_test (eq_mode : JSStrictEqModeEnum) (d1 d2 : Z) : bool :=
  match eq_mode with
  | JS_EQ_STRICT => double_eq d1 d2
  | _ => if isnan d1 || isnan d2 then Bool.eqb (isnan d1) (isnan d2)
         else match eq_mode with JS_EQ_SAME_VALUE_ZERO => double_eq d1 d2 | _ => d1 =? d2 end
  end.
Definition js_strict_eq2 (op1 op2 : JSValue) (eq_mode : JSStrictEqModeEnum) : outcome bool :=
  match op1, op2 with
  | Bool b1, Bool b2 => mret (Bool.eqb b1 b2)
  | Null, Null | Undefined, Undefined => mret true
  | String p1, String p2 => r ← js_string_compare p1 p2; mret (r =? 0)
  | Symbol p1, Symbol p2 => mret (p1 =? p2)
  | Object p1, Object p2 => mret (p1 =? p2)
  | Int n1, Int n2 => mret (number_test eq_mode (double_of_int n1) (double_of_int n2))
  | Int n1, Float64 d2 => mret (number_test eq_mode (double_of_int n1) d2)
  | Float64 d1, Float64 d2 => mret (number_test eq_mode d1 d2)
  | Float64 d1, Int n2 => mret (number_test eq_mode d1 (double_of_int n2))
  | BigInt n1, BigInt n2 => mret (n1 =? n2)
  | _, _ => mret false
  end.
Definition js_strict_eq (op1 op2 : JSValue) : outcome bool := js_strict_eq2 op1 op2 JS_EQ_STRICT.
Definition js_same_value (op1 op2 : JSValue) : outcome bool := js_strict_eq2 op1 op2 JS_EQ_SAME_VALUE.
Definition js_same_value_zero (op1 op2 : JSValue) : outcome bool := js_strict_eq2 op1 op2 JS_EQ_SAME_VALUE_ZERO.

(** ** Keys of maps *)

Definition map_normalize_key (key : JSValue) : JSValue :=
  match key with Float64 d => if double_eq d 0 then Int 0 else key | _ => key end.

Definition hash_float64 (d : Z) : Z := u32 (Z.lxor (u32 d) (u32 (d >> 32)) * 3163).
(** The product of an integer key is one of [int]. *)
Definition map_hash_key (key : JSValue) : outcome Z :=
  h ← match key with
      | Bool b => mret (b2z b)
      | String s => mret (hash_string s 0)
      | Object p | Symbol p => mret (u32 (p * 3163))
      | Int n => m ← c_int (n * 3163); mret (hash_float64 (double_of_int m))
      | Float64 d => mret (hash_float64 (if isnan d then 0x7ff8000000000000 else d))
      | Null | Undefined | BigInt _ => mret 0
      end;
  mret (Z.lxor h (u32 (JS_VALUE_GET_NORM_TAG key))).

(** ** What the comparisons decide *)

Definition canonical_double (d : Z) : Z := if isnan d then 0x7ff8000000000000 else if magnitude d =? 0 then 0 else d.
(** One value of each class of SameValueZero. *)
Definition canonical (v : JSValue) : JSValue :=
  match v with
  | Int n => Float64 (canonical_double (double_of_int n))
  | Float64 d => Float64 (canonical_double d)
  | String s => String (MkJSString true (str s))
  | _ => v
  end.

Lemma isnan_canonical : isnan 0x7ff8000000000000 = true.
Proof. done. Qed.
Lemma canonical_double_eq d1 d2 : isnan d1 = false -> isnan d2 = false -> double_eq d1 d2 = bool_decide (canonical_double d1 = canonical_double d2).
Proof.
  intros N1 N2. unfold double_eq, canonical_double. rewrite N1, N2. cbn [negb andb].
  destruct (Z.eqb_spec (magnitude d1) 0) as [M1|M1], (Z.eqb_spec (magnitude d2) 0) as [M2|M2]; cbn [andb]; rewrite ?orb_true_r, ?orb_false_r.
  - by rewrite bool_decide_true.
  - rewrite bool_decide_false by (intros <-; done). destruct (Z.eqb_spec d1 d2); [congruence|done].
  - rewrite bool_decide_false by (intros ->; done). destruct (Z.eqb_spec d1 d2); [congruence|done].
  - destruct (Z.eqb_spec d1 d2) as [->|]; [by rewrite bool_decide_true|by rewrite bool_decide_false].
Qed.
Lemma canonical_nan d : isnan (canonical_double d) = isnan d.
Proof. unfold canonical_double. destruct (isnan d) eqn:E; [done|]. by destruct (_ =? _). Qed.
Lemma number_test_zero d1 d2 : number_test JS_EQ_SAME_VALUE_ZERO d1 d2 = bool_decide (canonical_double d1 = canonical_double d2).
Proof.
  unfold number_test. pose proof (canonical_nan d1) as C1. pose proof (canonical_nan d2) as C2.
  destruct (isnan d1) eqn:N1, (isnan d2) eqn:N2; cbn [orb Bool.eqb].
  - unfold canonical_double. rewrite N1, N2. by rewrite bool_decide_true.
  - rewrite bool_decide_false; [done|congruence].
  - rewrite bool_decide_false; [done|congruence].
  - by apply canonical_double_eq.
Qed.

Lemma memcmp16_spec s1 s2 len : (len <= length s1)%nat -> (len <= length s2)%nat ->
  exists r, memcmp16 s1 s2 len = Ret r /\ (r = 0 <-> take len s1 = take len s2).
Proof.
  revert s1 s2. induction len as [|len IH]; intros [|c1 s1] [|c2 s2] H1 H2; cbn in *; try lia; try (by exists 0).
  destruct (Z.eqb_spec (c1 - c2) 0) as [E|E]; cbn [negb].
  - destruct (IH s1 s2) as (r & -> & Hr); [lia..|]. exists r. split; [done|]. rewrite Hr. split; [intros ->; f_equal; lia|congruence].
  - exists (c1 - c2). split; [done|]. split; [lia|]. intros [= -> _]. lia.
Qed.
Lemma js_string_compare_spec p1 p2 : exists r, js_string_compare p1 p2 = Ret r /\ (r = 0 <-> str p1 = str p2).
Proof.
  unfold js_string_compare, min_int. set (len := Z.to_nat _).
  assert (Hl : (len <= length (str p1) /\ len <= length (str p2) /\ (len = length (str p1) \/ len = length (str p2)))%nat).
  { unfold len, zlen. destruct (Z.ltb_spec (Z.of_nat (length (str p1))) (Z.of_nat (length (str p2)))); lia. }
  destruct Hl as (H1 & H2 & H3).
  assert (Hm : exists r, js_string_memcmp p1 p2 len = Ret r /\ (r = 0 <-> take len (str p1) = take len (str p2))).
  { unfold js_string_memcmp. destruct (negb _ && _); [|by apply memcmp16_spec]. destruct (memcmp16_spec (str p2) (str p1) len H2 H1) as (r & -> & Hr).
    exists (- r). split; [done|]. split; [intros E; symmetry; apply Hr; lia|intros E; symmetry in E; apply Hr in E; lia]. }
  destruct Hm as (r & -> & Hr). cbn [mbind outcome_bind mret outcome_ret]. eexists. split; [done|]. unfold zlen.
  destruct (Z.eqb_spec r 0) as [E|E].
  - apply Hr in E. destruct (Z.eqb_spec (Z.of_nat (length (str p1))) (Z.of_nat (length (str p2)))) as [L|L].
    + split; [|done]. intros _. rewrite !take_ge in E by lia. done.
    + split; [destruct (_ <? _); lia|]. intros Es. rewrite Es in L. lia.
  - split; [done|]. intros Es. exfalso. apply E, Hr. by rewrite Es.
Qed.

Lemma js_same_value_zero_eq v1 v2 : js_same_value_zero v1 v2 = Ret (bool_decide (canonical v1 = canonical v2)).
Proof.
  unfold js_same_value_zero. assert (Hb : forall d1 d2, bool_decide (canonical_double d1 = canonical_double d2) = bool_decide (Float64 (canonical_double d1) = Float64 (canonical_double d2))).
  { intros d1 d2. apply bool_decide_ext. split; congruence. }
  destruct v1 as [| |b1|n1|d1|s1|p1|p1|m1], v2 as [| |b2|n2|d2|s2|p2|p2|m2]; try (symmetry; apply f_equal, bool_decide_false; discriminate); try done.
  - cbn. f_equal. destruct b1, b2; done.
  - cbn [js_strict_eq2 canonical]. by rewrite number_test_zero, Hb.
  - cbn [js_strict_eq2 canonical]. by rewrite number_test_zero, Hb.
  - cbn [js_strict_eq2 canonical]. by rewrite number_test_zero, Hb.
  - cbn [js_strict_eq2 canonical]. by rewrite number_test_zero, Hb.
  - cbn [js_strict_eq2 canonical]. destruct (js_string_compare_spec s1 s2) as (r & -> & Hr). cbn. f_equal.
    destruct (Z.eqb_spec r 0) as [E|E]; symmetry; [apply bool_decide_true|apply bool_decide_false]; [apply Hr in E; congruence|].
    intros [= Es]. by apply E, Hr.
  - cbn. f_equal. destruct (Z.eqb_spec p1 p2) as [->|]; symmetry; [by apply bool_decide_true|apply bool_decide_false; congruence].
  - cbn. f_equal. destruct (Z.eqb_spec p1 p2) as [->|]; symmetry; [by apply bool_decide_true|apply bool_decide_false; congruence].
  - cbn. f_equal. destruct (Z.eqb_spec m1 m2) as [->|]; symmetry; [by apply bool_decide_true|apply bool_decide_false; congruence].
Qed.

(** C10: [js_same_value_zero] is the equality of canonical values: numbers are compared by value, whether they are integers or doubles, all NaN are equal and
    so are the zeros, strings are compared by their characters whatever their width; it always returns. *)
Theorem js_same_value_zero_spec v1 v2 : js_same_value_zero v1 v2 = Ret (bool_decide (canonical v1 = canonical v2)).
Proof. apply js_same_value_zero_eq. Qed.

(** ** Integers as doubles *)

Lemma magnitude_mod d : magnitude d = d mod 2 ^ 63.
Proof. unfold magnitude. change 0x7fffffffffffffff with (Z.ones 63). by rewrite Z.land_ones. Qed.

(** Sign, exponent and fraction. *)
Lemma double_parts n : n <> 0 -> Z.abs n < 2 ^ 53 ->
  exists e f, 0 <= e <= 52 /\ 0 <= f < 2 ^ 52 /\ Z.abs n * 2 ^ (52 - e) = 2 ^ 52 + f /\
    magnitude (double_of_int n) = (1023 + e) * 2 ^ 52 + f /\ double_of_int n = (if n <? 0 then 2 ^ 63 else 0) + ((1023 + e) * 2 ^ 52 + f).
Proof.
  intros Hn Hb. pose proof (Z.log2_spec (Z.abs n) ltac:(lia)) as [L1 L2]. pose proof (Z.log2_nonneg (Z.abs n)).
  assert (He : Z.log2 (Z.abs n) < 53) by (apply Z.log2_lt_pow2; lia). unfold double_of_int. destruct (Z.eqb_spec n 0) as [|_]; [done|].
  set (e := Z.log2 (Z.abs n)) in *. assert (P : 2 ^ e * 2 ^ (52 - e) = 2 ^ 52) by (rewrite <- Z.pow_add_r by lia; f_equal; lia).
  assert (P2 : 2 ^ Z.succ e = 2 * 2 ^ e) by (rewrite Z.pow_succ_r by lia; lia). pose proof (Z.pow_pos_nonneg 2 (52 - e) ltac:(lia) ltac:(lia)).
  exists e, (Z.abs n * 2 ^ (52 - e) - 2 ^ 52). assert (F : 0 <= Z.abs n * 2 ^ (52 - e) - 2 ^ 52 < 2 ^ 52) by nia.
  split; [lia|]. split; [exact F|]. split; [lia|]. split; [|lia]. rewrite magnitude_mod.
  assert (R : 0 <= (1023 + e) * 2 ^ 52 + (Z.abs n * 2 ^ (52 - e) - 2 ^ 52) < 2 ^ 63) by lia. rewrite <- Z.add_assoc. destruct (n <? 0).
  - rewrite <- (Z.mod_small _ _ R) at 2.
    rewrite <- (Z.mod_add ((1023 + e) * 2 ^ 52 + (Z.abs n * 2 ^ (52 - e) - 2 ^ 52)) 1 (2 ^ 63)) by lia. f_equal. lia.
  - rewrite Z.add_0_l. by apply Z.mod_small.
Qed.

Lemma double_of_int_finite n : Z.abs n < 2 ^ 53 -> isnan (double_of_int n) = false /\ (magnitude (double_of_int n) = 0 <-> n = 0).
Proof.
  intros Hb. destruct (decide (n = 0)) as [->|Hn]; [done|]. destruct (double_parts n Hn Hb) as (e & f & He & Hf & Ha & Hm & _).
  unfold isnan. rewrite Hm. change 0x7ff0000000000000 with (2047 * 2 ^ 52). split; [|split; [|done]].
  - destruct (Z.gtb_spec ((1023 + e) * 2 ^ 52 + f) (2047 * 2 ^ 52)); [nia|done].
  - nia.
Qed.
Lemma double_of_int_inj n m : Z.abs n < 2 ^ 53 -> Z.abs m < 2 ^ 53 -> double_of_int n = double_of_int m -> n = m.
Proof.
  intros Hn Hm E. destruct (decide (n = 0)) as [->|N]; [symmetry; apply (double_of_int_finite m Hm); by rewrite <- E|].
  destruct (decide (m = 0)) as [->|M]; [apply (double_of_int_finite n Hn); by rewrite E|].
  destruct (double_parts n N Hn) as (e & f & He & Hf & Ha & _ & En). destruct (double_parts m M Hm) as (e' & f' & He' & Hf' & Ha' & _ & Em).
  rewrite En, Em in E. assert (Hs : (n <? 0) = (m <? 0) /\ e = e' /\ f = f') by (destruct (n <? 0), (m <? 0); (split; [done || lia|]); nia).
  destruct Hs as (Hs & -> & ->). assert (Z.abs n = Z.abs m) by nia.
  destruct (Z.ltb_spec n 0), (Z.ltb_spec m 0); try done; lia.
Qed.
Lemma canonical_int n : Z.abs n < 2 ^ 53 -> canonical_double (double_of_int n) = double_of_int n.
Proof.
  intros Hb. destruct (double_of_int_finite n Hb) as [Hnan Hz]. unfold canonical_double. rewrite Hnan. destruct (Z.eqb_spec (magnitude (double_of_int n)) 0) as [E|]; [|done].
  apply Hz in E as ->. done.
Qed.

(** ** Keys with a hash that agrees with their equality *)

Definition int32 (n : Z) : Prop := - 2 ^ 31 <= n < 2 ^ 31.
(** A number that is an integer of 32 bits is not a double, and the product of the hash of an integer does not overflow. *)
Definition key_ok (k : JSValue) : Prop :=
  match k with
  | Int n => int32 (n * 3163)
  | Float64 d => forall n, int32 n -> canonical_double d <> double_of_int n
  | _ => True
  end.

Lemma hash_string_width l h : hash_string16 l h = hash_string8 l h.
Proof. revert h. induction l as [|c l IH]; intros h; [done|]. apply IH. Qed.
Lemma int32_abs n : int32 (n * 3163) -> int32 n /\ Z.abs n < 2 ^ 53.
Proof. unfold int32. lia. Qed.

Lemma map_hash_key_compat k1 k2 : key_ok k1 -> key_ok k2 -> canonical k1 = canonical k2 -> map_hash_key k1 = map_hash_key k2.
Proof.
  intros H1 H2 E. destruct k1 as [| |b1|n1|d1|s1|p1|p1|m1], k2 as [| |b2|n2|d2|s2|p2|p2|m2]; try discriminate; try done; cbn [key_ok canonical] in *.
  - congruence.
  - injection E as E. apply int32_abs in H1 as [_ H1], H2 as [_ H2]. rewrite !canonical_int in E by done. apply double_of_int_inj in E; [congruence|done..].
  - injection E as E. apply int32_abs in H1 as [H1 H1']. rewrite canonical_int in E by done. by destruct (H2 n1).
  - injection E as E. apply int32_abs in H2 as [H2 H2']. rewrite canonical_int in E by done. by destruct (H1 n2).
  - injection E as E. assert (Hd : (if isnan d1 then 0x7ff8000000000000 else d1) = if isnan d2 then 0x7ff8000000000000 else d2).
    { pose proof (canonical_nan d1) as C1. pose proof (canonical_nan d2) as C2. rewrite E, C2 in C1. unfold canonical_double in E. rewrite <- C1 in *.
      destruct (isnan d2) eqn:N; [done|]. destruct (Z.eqb_spec (magnitude d1) 0) as [M|M].
      - destruct (H1 0); [unfold int32; lia|]. unfold canonical_double. rewrite <- C1. by rewrite M.
      - destruct (Z.eqb_spec (magnitude d2) 0) as [M2|M2]; [|done]. subst d1. by destruct M. }
    unfold map_hash_key. by rewrite Hd.
  - injection E as E. unfold map_hash_key, hash_string. destruct (is_wide_char s1), (is_wide_char s2); rewrite ?hash_string_width, E; done.
  - congruence.
  - congruence.
Qed.

Lemma hash_string8_range l h : 0 <= h < 2 ^ 32 -> 0 <= hash_string8 l h < 2 ^ 32.
Proof. revert h. induction l as [|c l IH]; intros h Hh; [done|]. apply IH, wrap_range. lia. Qed.
Lemma lxor_range a b : 0 <= a < 2 ^ 32 -> 0 <= b < 2 ^ 32 -> 0 <= Z.lxor a b < 2 ^ 32.
Proof.
  intros Ha Hb. rewrite <- (Z.mod_small a (2 ^ 32)), <- (Z.mod_small b (2 ^ 32)) by done. rewrite <- !Z.land_ones by lia.
  assert (E : Z.lxor (Z.land a (Z.ones 32)) (Z.land b (Z.ones 32)) = Z.land (Z.lxor a b) (Z.ones 32)).
  { apply Z.bits_inj'. intros i Hi. rewrite Z.lxor_spec, !Z.land_spec, Z.lxor_spec. by destruct (Z.testbit a i), (Z.testbit b i), (Z.testbit (Z.ones 32) i). }
  rewrite E, Z.land_ones by lia. apply Z.mod_pos_bound. lia.
Qed.
Lemma map_hash_key_spec k : key_ok k -> exists h, map_hash_key k = Ret h /\ 0 <= h < 2 ^ 32.
Proof.
  intros Hk. unfold map_hash_key.
  assert (Hh : exists h, (match k with
      | Bool b => mret (b2z b) | String s => mret (hash_string s 0) | Object p | Symbol p => mret (u32 (p * 3163))
      | Int n => m ← c_int (n * 3163); mret (hash_float64 (double_of_int m))
      | Float64 d => mret (hash_float64 (if isnan d then 0x7ff8000000000000 else d))
      | Null | Undefined | BigInt _ => mret 0 end) = Ret h /\ 0 <= h < 2 ^ 32).
  { destruct k as [| |b|n|d|s|p|p|m]; cbn [key_ok] in Hk.
    - by exists 0.
    - by exists 0.
    - exists (b2z b). split; [done|]. by destruct b.
    - unfold c_int. assert (int_ok (n * 3163) = true) as ->; [|eexists; split; [done|by apply wrap_range]].
      unfold int_ok, int32, INT32_MAX in *. apply andb_true_iff. lia.
    - eexists. split; [done|]. by apply wrap_range.
    - eexists. split; [done|]. unfold hash_string. destruct (is_wide_char s); rewrite ?hash_string_width; by apply hash_string8_range.
    - eexists. split; [done|]. by apply wrap_range.
    - eexists. split; [done|]. by apply wrap_range.
    - by exists 0. }
  destruct Hh as (h & -> & Hh). eexists. split; [done|]. apply lxor_range; [done|]. by apply wrap_range.
Qed.

(** Equal keys with different hashes: the integer 1 and the double 1, as 0.5 + 0.5 computes it. *)
Fact map_hash_key_double : let one := Float64 (double_of_int 1) in
  js_same_value_zero (Int 1) one = Ret true /\ map_normalize_key one = one /\ map_hash_key (Int 1) <> map_hash_key one.
Proof. by vm_compute. Qed.
(** The product of the hash overflows. *)
Fact map_hash_key_overflow : map_hash_key (Int 1000000) = Undef.
Proof. by vm_compute. Qed.
