(* ===== verification/MapSet.v ===== *)
(** * Map, Set, WeakMap and WeakSet (quickjs.c)

    One map with its records, its hash table and the iterators over it.  A record is allocated while it is in the list of the records; an
    iterator locks the record it stands on, and a deleted record stays in the list, empty, as long as it is locked.  Lists are
    sequences of pointers (ListRun.v); to read a link of a record that is not in the list is [Undef].

    Values of the map may be iterators over the map: giving up the last reference to one runs its finalizer in the middle of an operation
    of the map.  The references to other values are only recorded in [log]. *)

From stdpp Require Import gmap.
From S2P Require Import Prelude Cutils Alloc Equality.
#[local] Open Scope Z_scope.

(** The size of the block behind a pointer, as far as the allocator tells. *)
Class MallocUsable `{Malloc} := {
  malloc_usable_size : mem -> Z -> Z;
  malloc_usable_range m n : 0 <= malloc_usable_size m n < 2 ^ 32 }.

(** ** Data *)

Record JSMapRecord := MkMapRecord { ref_count : Z; empty : bool; key : JSValue; value : JSValue }.
Inductive JSIteratorKindEnum := JS_ITERATOR_KIND_KEY | JS_ITERATOR_KIND_VALUE | JS_ITERATOR_KIND_KEY_AND_VALUE.
(** The iterator object with its count of references; [it_obj]: it still refers to the map. *)
Record JSMapIteratorData := MkIterator { it_count : Z; it_obj : bool; it_kind : JSIteratorKindEnum; cur_record : Z }.

(** A fast array with the room for its elements; [array_length] is its property length. *)
Record fast_array := MkArray { array_length : Z; array_values : list JSValue; array_size : Z }.

Inductive effect := DupValue (v : JSValue) | FreeValue (v : JSValue) | DupMap | FreeMap.

Section MapSet.
Context {HM : Malloc} {HU : MallocUsable}.

Record State := MkState {
  recs : gmap Z JSMapRecord;              (* the allocated records *)
  is_weak : bool;
  records : list Z;
  record_count : Z;
  hash_table : list (list Z);
  hash_size : Z;
  record_count_threshold : Z;
  weak_refs : gmap Z (list Z);            (* first_weak_ref of the keys of a weak map, with the chain behind it *)
  iterators : gmap Z JSMapIteratorData;
  others : gset Z;                        (* the other objects *)
  log : list effect;
  st_mem : mem }.

Definition set_recs (x : gmap Z JSMapRecord) (st : State) : State :=
  MkState x (is_weak st) (records st) (record_count st) (hash_table st) (hash_size st) (record_count_threshold st) (weak_refs st)
    (iterators st) (others st) (log st) (st_mem st).
Definition set_records (l : list Z) (n : Z) (st : State) : State :=
  MkState (recs st) (is_weak st) l n (hash_table st) (hash_size st) (record_count_threshold st) (weak_refs st)
    (iterators st) (others st) (log st) (st_mem st).
Definition set_hash (tab : list (list Z)) (size threshold : Z) (st : State) : State :=
  MkState (recs st) (is_weak st) (records st) (record_count st) tab size threshold (weak_refs st)
    (iterators st) (others st) (log st) (st_mem st).
Definition set_weak (w : gmap Z (list Z)) (st : State) : State :=
  MkState (recs st) (is_weak st) (records st) (record_count st) (hash_table st) (hash_size st) (record_count_threshold st) w
    (iterators st) (others st) (log st) (st_mem st).
Definition set_iterators (x : gmap Z JSMapIteratorData) (st : State) : State :=
  MkState (recs st) (is_weak st) (records st) (record_count st) (hash_table st) (hash_size st) (record_count_threshold st) (weak_refs st)
    x (others st) (log st) (st_mem st).
Definition emit (e : effect) (st : State) : State :=
  MkState (recs st) (is_weak st) (records st) (record_count st) (hash_table st) (hash_size st) (record_count_threshold st) (weak_refs st)
    (iterators st) (others st) (log st ++ [e]) (st_mem st).
Definition set_mem (m : mem) (st : State) : State :=
  MkState (recs st) (is_weak st) (records st) (record_count st) (hash_table st) (hash_size st) (record_count_threshold st) (weak_refs st)
    (iterators st) (others st) (log st) m.

Definition get_rec (p : Z) (st : State) : outcome JSMapRecord := match recs st !! p with Some mr => mret mr | None => Undef end.
Definition put_rec (p : Z) (mr : JSMapRecord) (st : State) : State := set_recs (<[p := mr]> (recs st)) st.
Definition get_iterator (q : Z) (st : State) : outcome JSMapIteratorData := match iterators st !! q with Some it => mret it | None => Undef end.
Definition put_iterator (q : Z) (it : JSMapIteratorData) (st : State) : State := set_iterators (<[q := it]> (iterators st)) st.

Definition blocks (st : State) : gset Z := dom (recs st) ∪ dom (iterators st) ∪ others st.
Definition malloc (n : Z) (st : State) : option Z * State :=
  let '(r, m) := js_malloc (st_mem st) (blocks st) n in (r, set_mem m st).

(** ** Links *)

(** [el->next] in the list of the records; 0 is the head of the list. *)
Fixpoint next_in (l : list Z) (p : Z) : outcome Z :=
  match l with
  | [] => Undef
  | q :: l => if q =? p then mret (match l with [] => 0 | r :: _ => r end) else next_in l p
  end.
Definition records_next (st : State) (p : Z) : outcome Z :=
  if p =? 0 then mret (match records st with [] => 0 | r :: _ => r end) else next_in (records st) p.
Definition list_del (p : Z) (l : list Z) : outcome (list Z) := if decide (p ∈ l) then mret (filter (fun q => q <> p) l) else Undef.
(** [list_del(&mr->hash_link)]: the list it is in is not named. *)
Definition hash_unlink (p : Z) (tab : list (list Z)) : outcome (list (list Z)) :=
  if decide (Exists (fun b => p ∈ b) tab) then mret (filter (fun q => q <> p) <$> tab) else Undef.
Definition list_add_tail (h p : Z) (tab : list (list Z)) : outcome (list (list Z)) := b ← aget tab h; aset tab h (b ++ [p]).

(** ** References *)

Definition map_decref_record (p : Z) (st : State) : outcome State :=
  mr ← get_rec p st;
  let mr := MkMapRecord (ref_count mr - 1) (empty mr) (key mr) (value mr) in
  if ref_count mr =? 0 then
    _ ← c_assert (empty mr);
    l ← list_del p (records st);
    mret (set_records l (record_count st) (set_recs (delete p (recs st)) st))
  else mret (put_rec p mr st).

(** The map is alive as long as something refers to it. *)
Definition js_map_iterator_finalizer (q : Z) (st : State) : outcome State :=
  it ← get_iterator q st;
  st ← (if it_obj it && negb (cur_record it =? 0) then map_decref_record (cur_record it) st else mret st);
  mret (if it_obj it then emit FreeMap st else st).

Definition JS_DupValue (v : JSValue) (st : State) : State :=
  let st := emit (DupValue v) st in
  match v with
  | Object q => match iterators st !! q with
                | Some it => put_iterator q (MkIterator (it_count it + 1) (it_obj it) (it_kind it) (cur_record it)) st
                | None => st
                end
  | _ => st
  end.
Definition JS_FreeValue (v : JSValue) (st : State) : outcome State :=
  let st := emit (FreeValue v) st in
  match v with
  | Object q => match iterators st !! q with
                | Some it =>
                    if it_count it - 1 <=? 0 then
                      st ← js_map_iterator_finalizer q st; mret (set_iterators (delete q (iterators st)) st)
                    else mret (put_iterator q (MkIterator (it_count it - 1) (it_obj it) (it_kind it) (cur_record it)) st)
                | None => mret st
                end
  | _ => mret st
  end.

(** ** Records *)

Fixpoint find_in (key0 : JSValue) (l : list Z) (st : State) : outcome (option Z) :=
  match l with
  | [] => mret None
  | p :: l => mr ← get_rec p st; b ← js_same_value_zero (key mr) key0; if b : bool then mret (Some p) else find_in key0 l st
  end.
(** [None] is NULL. *)
Definition map_find_record (key0 : JSValue) (st : State) : outcome (option Z) :=
  h ← map_hash_key key0;
  l ← aget (hash_table st) (h .& (hash_size st - 1));
  find_in key0 l st.

(** The records that are not empty, in the new table. *)
Fixpoint rehash (size : Z) (l : list Z) (tab : list (list Z)) (st : State) : outcome (list (list Z)) :=
  match l with
  | [] => mret tab
  | p :: l =>
      mr ← get_rec p st;
      tab ← (if empty mr then mret tab else h ← map_hash_key (key mr); list_add_tail (h .& (size - 1)) p tab);
      rehash size l tab st
  end.
Definition map_hash_resize (st : State) : outcome State :=
  let new_hash_size := if hash_size st =? 1 then 4 else u32 (hash_size st * 2) in
  let size := 2 * sizeof_pointer * new_hash_size in
  let '(r, st) := malloc size st in
  match r with
  | None => mret st
  | Some _ =>
      let usable := malloc_usable_size (st_mem st) size in
      let slack := if usable >? size then usable - size else 0 in
      let new_hash_size := u32 (new_hash_size + slack / (2 * sizeof_pointer)) in
      tab ← rehash new_hash_size (records st) (replicate (Z.to_nat new_hash_size) []) st;
      mret (set_hash tab new_hash_size (u32 (new_hash_size * 2)) st)
  end.

(** The value of the new record is not initialised. *)
Definition map_add_record (key0 : JSValue) (st : State) : outcome (option Z * State) :=
  let '(r, st) := malloc 88 st in
  match r with
  | None => mret (None, st)
  | Some p =>
      st ← (if is_weak st then
              match key0 with Object o => mret (set_weak (<[o := p :: default [] (weak_refs st !! o)]> (weak_refs st)) st) | _ => Undef end
            else mret (JS_DupValue key0 st));
      h ← map_hash_key key0;
      tab ← list_add_tail (h .& (hash_size st - 1)) p (hash_table st);
      let st := set_hash tab (hash_size st) (record_count_threshold st) (put_rec p (MkMapRecord 1 false key0 Undefined) st) in
      let st := set_records (records st ++ [p]) (u32 (record_count st + 1)) st in
      st ← (if record_count st >=? record_count_threshold st then map_hash_resize st else mret st);
      mret (Some p, st)
  end.

Definition delete_weak_ref (p : Z) (st : State) : outcome State :=
  mr ← get_rec p st;
  match key mr with
  | Object o => l ← list_del p (default [] (weak_refs st !! o)); mret (set_weak (<[o := l]> (weak_refs st)) st)
  | _ => Undef
  end.

Definition map_delete_record (p : Z) (st : State) : outcome State :=
  mr ← get_rec p st;
  if empty mr then mret st
  else
    tab ← hash_unlink p (hash_table st);
    let st := set_hash tab (hash_size st) (record_count_threshold st) st in
    st ← (if is_weak st then delete_weak_ref p st else JS_FreeValue (key mr) st);
    mr ← get_rec p st;
    st ← JS_FreeValue (value mr) st;
    mr ← get_rec p st;
    st ← (if ref_count mr - 1 =? 0 then
            l ← list_del p (records st); mret (set_records l (record_count st) (set_recs (delete p (recs st)) st))
          else mret (put_rec p (MkMapRecord (ref_count mr - 1) true Undefined Undefined) st));
    mret (set_records (records st) (u32 (record_count st - 1)) st).

(** An object that was the key of weak records is freed. *)
Fixpoint unlink_weak (l : list Z) (st : State) : outcome State :=
  match l with
  | [] => mret st
  | p :: l =>
      mr ← get_rec p st;
      _ ← c_assert (is_weak st);
      _ ← c_assert (negb (empty mr));
      tab ← hash_unlink p (hash_table st);
      r ← list_del p (records st);
      unlink_weak l (set_records r (record_count st) (set_hash tab (hash_size st) (record_count_threshold st) st))
  end.
Fixpoint free_weak (l : list Z) (st : State) : outcome State :=
  match l with
  | [] => mret st
  | p :: l =>
      mr ← get_rec p st;
      st ← JS_FreeValue (value mr) st;
      free_weak l (set_recs (delete p (recs st)) st)
  end.
Definition reset_weak_ref (o : Z) (st : State) : outcome State :=
  let l := default [] (weak_refs st !! o) in
  st ← unlink_weak l st;
  st ← free_weak l st;
  mret (set_weak (delete o (weak_refs st)) st).

(** ** Methods; [is_set] is the magic MAGIC_SET *)

Context (is_set : bool).

(** [false] is an exception. *)
Definition js_map_set (key0 value0 : JSValue) (st : State) : outcome (bool * State) :=
  let key0 := map_normalize_key key0 in
  if is_weak st && negb (JS_IsObject key0) then mret (false, st)
  else
    let value0 := if is_set then Undefined else value0 in
    r ← map_find_record key0 st;
    '(r, st) ← match r with
               | Some p => mr ← get_rec p st; st ← JS_FreeValue (value mr) st; mret (Some p, st)
               | None => map_add_record key0 st
               end;
    match r with
    | None => mret (false, st)
    | Some p =>
        let st := JS_DupValue value0 st in
        mr ← get_rec p st;
        mret (true, put_rec p (MkMapRecord (ref_count mr) (empty mr) (key mr) value0) st)
    end.
Definition js_map_get (key0 : JSValue) (st : State) : outcome (JSValue * State) :=
  r ← map_find_record (map_normalize_key key0) st;
  match r with
  | None => mret (Undefined, st)
  | Some p => mr ← get_rec p st; mret (value mr, JS_DupValue (value mr) st)
  end.
Definition js_map_has (key0 : JSValue) (st : State) : outcome bool :=
  r ← map_find_record (map_normalize_key key0) st;
  mret (match r with None => false | Some _ => true end).
Definition js_map_delete (key0 : JSValue) (st : State) : outcome (bool * State) :=
  r ← map_find_record (map_normalize_key key0) st;
  match r with
  | None => mret (false, st)
  | Some p => st ← map_delete_record p st; mret (true, st)
  end.

(** One turn of [list_for_each_safe]. *)
Definition clear_step (s : State * Z * Z) : outcome (State * Z * Z + State) :=
  let '(st, el, el1) := s in
  if el =? 0 then mret (inr st)
  else st ← map_delete_record el st; el2 ← records_next st el1; mret (inl (st, el1, el2)).
Definition js_map_clear (st : State) : outcome State :=
  el ← records_next st 0;
  el1 ← records_next st el;
  loop (S (S (length (records st)))) clear_step (st, el, el1).
Definition js_map_get_size (st : State) : Z := record_count st.

(** The function called; [None] is an exception. *)
Context (call : JSValue -> JSValue -> State -> outcome (option JSValue * State)).

Definition forEach_step (s : State * Z) : outcome (State * Z + bool * State) :=
  let '(st, el) := s in
  if el =? 0 then mret (inr (true, st))
  else
    mr ← get_rec el st;
    if empty mr then el ← records_next st el; mret (inl (st, el))
    else
      let st := put_rec el (MkMapRecord (ref_count mr + 1) (empty mr) (key mr) (value mr)) st in
      let st := JS_DupValue (key mr) st in
      let st := if is_set then st else JS_DupValue (value mr) st in
      '(ret, st) ← call (if is_set then key mr else value mr) (key mr) st;
      st ← JS_FreeValue (if is_set then key mr else value mr) st;
      st ← (if is_set then mret st else JS_FreeValue (key mr) st);
      next ← records_next st el;
      st ← map_decref_record el st;
      match ret with
      | None => mret (inr (false, st))
      | Some ret => st ← JS_FreeValue ret st; mret (inl (st, next))
      end.
Definition js_map_forEach (fuel : nat) (st : State) : outcome (bool * State) :=
  el ← records_next st 0; loop fuel forEach_step (st, el).

(** ** Iterators *)

Definition js_create_map_iterator (kind : JSIteratorKindEnum) (st : State) : outcome (option Z * State) :=
  let '(r, st) := malloc 72 st in
  match r with
  | None => mret (None, st)
  | Some q =>
      let '(r, st) := malloc 32 st in
      match r with
      | None => mret (None, st)
      | Some _ => mret (Some q, emit DupMap (put_iterator q (MkIterator 1 true kind 0) st))
      end
  end.

(** ** The array of an entry *)

(** The object and its property, at JS_CLASS_ARRAY and the shape of all arrays. *)
Definition JS_NewObjectFromShape (st : State) : option fast_array * State :=
  let '(r, st) := malloc 72 st in
  match r with
  | None => (None, st)
  | Some _ =>
      let '(r, st) := malloc 16 st in
      match r with
      | None => (None, st)
      | Some _ => (Some (MkArray 0 [] 0), st)
      end
  end.
Definition JS_NewArray (st : State) : option fast_array * State := JS_NewObjectFromShape st.
Definition expand_fast_array (p : fast_array) (new_len : Z) (st : State) : option fast_array * State :=
  let new_size := u32 (Z.max (s32 new_len) (s32 (u32 (array_size p * 3) / 2))) in
  let size := 16 * new_size in
  let '(r, st) := malloc size st in
  match r with
  | None => (None, st)
  | Some _ =>
      let usable := malloc_usable_size (st_mem st) size in
      let slack := if usable >? size then usable - size else 0 in
      (Some (MkArray (array_length p) (array_values p) (u32 (new_size + slack / 16))), st)
  end.
(** The length is writable.  [false] is an exception. *)
Definition add_fast_array_element (p : fast_array) (val : JSValue) (st : State) : outcome (bool * fast_array * State) :=
  let new_len := u32 (zlen (array_values p) + 1) in
  let p := if new_len >? array_length p then MkArray new_len (array_values p) (array_size p) else p in
  let '(r, st) := if new_len >? array_size p then expand_fast_array p new_len st else (Some p, st) in
  match r with
  | None => st ← JS_FreeValue val st; mret (false, p, st)
  | Some p => mret (true, MkArray (array_length p) (array_values p ++ [val]) (array_size p), st)
  end.
(** At the index behind the last element: [JS_DefineProperty] finds no such property, and [JS_CreateProperty] adds an element. *)
Definition JS_CreateDataPropertyUint32 (p : fast_array) (idx : Z) (val : JSValue) (st : State) : outcome (bool * fast_array * State) :=
  _ ← c_assert (idx =? zlen (array_values p));
  '(ok, p, st) ← add_fast_array_element p val (JS_DupValue val st);
  st ← JS_FreeValue val st;
  mret (ok, p, st).
Fixpoint js_array_finalizer (values : list JSValue) (st : State) : outcome State :=
  match values with
  | [] => mret st
  | v :: values => st ← JS_FreeValue v st; js_array_finalizer values st
  end.
Fixpoint create_elements (i : Z) (tab : list JSValue) (p : fast_array) (st : State) : outcome (option (list JSValue) * State) :=
  match tab with
  | [] => mret (Some (array_values p), st)
  | v :: tab =>
      '(ok, p, st) ← JS_CreateDataPropertyUint32 p i v (JS_DupValue v st);
      if ok : bool then create_elements (i + 1) tab p st
      else st ← js_array_finalizer (array_values p) st; mret (None, st)
  end.
(** The elements of the new array; [None] is JS_EXCEPTION. *)
Definition js_create_array (tab : list JSValue) (st : State) : outcome (option (list JSValue) * State) :=
  let '(r, st) := JS_NewArray st in
  match r with
  | None => mret (None, st)
  | Some p => create_elements 0 tab p st
  end.

(** [Exception] is JS_EXCEPTION with [*pdone] unset. *)
Inductive next_result := Done | Item (v : JSValue) | Array (values : list JSValue) | Exception.

(** The first record from [el] on that is not empty. *)
Definition skip_empty (st : State) (el : Z) : outcome (Z + Z) :=
  if el =? 0 then mret (inr 0)
  else mr ← get_rec el st; if empty mr then el ← records_next st el; mret (inl el) else mret (inr el).
Definition js_map_iterator_next (q : Z) (st : State) : outcome (next_result * State) :=
  it ← get_iterator q st;
  if negb (it_obj it) then mret (Done, st)
  else
    '(el, st) ← (if cur_record it =? 0 then el ← records_next st 0; mret (el, st)
                 else el ← records_next st (cur_record it); st ← map_decref_record (cur_record it) st; mret (el, st));
    el ← loop (S (length (records st))) (skip_empty st) el;
    if el =? 0 then mret (Done, emit FreeMap (put_iterator q (MkIterator (it_count it) false (it_kind it) 0) st))
    else
      mr ← get_rec el st;
      let st := put_rec el (MkMapRecord (ref_count mr + 1) (empty mr) (key mr) (value mr)) st in
      let st := put_iterator q (MkIterator (it_count it) true (it_kind it) el) st in
      let second := if is_set then key mr else value mr in
      match it_kind it with
      | JS_ITERATOR_KIND_KEY => mret (Item (key mr), JS_DupValue (key mr) st)
      | JS_ITERATOR_KIND_VALUE => mret (Item second, JS_DupValue second st)
      | JS_ITERATOR_KIND_KEY_AND_VALUE => '(r, st) ← js_create_array [key mr; second] st; mret (match r with Some vs => Array vs | None => Exception end, st)
      end.

(** A new map: the part of [js_map_constructor] in front of the elements. *)
Definition js_map_new (weak : bool) (objects : gset Z) (m : mem) : option State :=
  let st := MkState ∅ weak [] 0 [] 0 0 ∅ ∅ objects [] m in
  let '(r, st) := malloc 64 st in
  match r with
  | None => None
  | Some _ =>
      let '(r, st) := malloc (2 * sizeof_pointer) st in
      match r with None => None | Some _ => Some (set_hash [[]] 1 4 st) end
  end.
End MapSet.
