(* ===== verification/MapInv.v ===== *)
(** * The invariant of maps

    ECMAScript describes a Map as a list of entries that only grows: a deleted entry becomes empty and keeps its place, and an iterator is
    a position in the list.  The engine frees an empty record as soon as no iterator stands on it.  [inv] relates the two: every record has
    a position in the list of entries, increasing along the list of the records, and an iterator on a record continues at the position behind it.

    Four parameters describe the middle of an operation: the references [E] from outside of the map; a record [stale] whose value
    was given up and not replaced yet; a record [dying] that is being deleted; an iterator [loose] that has lost its lock. *)

From stdpp Require Import gmap sorting.
From S2P Require Import Prelude Sums Cutils Alloc Equality MapSet.
#[local] Open Scope Z_scope.

Notation entry := (option (JSValue * JSValue)).
Notation cursor := (JSIteratorKindEnum * option nat)%type.

(** ** Counting *)

Definition is_ref (q : Z) (v : JSValue) : Z := match v with Object p => if p =? q then 1 else 0 | _ => 0 end.
Fixpoint uses (q : Z) (vs : list JSValue) : Z := match vs with [] => 0 | v :: vs => is_ref q v + uses q vs end.
Definition live_count (es : list entry) : Z := zlen (filter is_Some es).

Lemma is_ref_nonneg q v : 0 <= is_ref q v.
Proof. destruct v as [| | | | | | |p|]; cbn; try lia. destruct (_ =? _); lia. Qed.
Lemma uses_nonneg q vs : 0 <= uses q vs.
Proof. induction vs as [|v vs IH]; cbn; [lia|]. pose proof (is_ref_nonneg q v). lia. Qed.
Lemma uses_in q vs : Object q ∈ vs -> 0 < uses q vs.
Proof.
  induction vs as [|v vs IH]; intros Hq; [by apply elem_of_nil in Hq|]. cbn. pose proof (is_ref_nonneg q v). pose proof (uses_nonneg q vs).
  apply elem_of_cons in Hq as [<-|Hq]; [cbn; rewrite Z.eqb_refl; lia|]. specialize (IH Hq). lia.
Qed.
Lemma uses_app q vs ws : uses q (vs ++ ws) = uses q vs + uses q ws.
Proof. induction vs as [|v vs IH]; cbn; lia. Qed.
Lemma live_count_insert es i e e' : es !! i = Some e ->
  live_count (<[i := e']> es) = live_count es - (if decide (is_Some e) then 1 else 0) + (if decide (is_Some e') then 1 else 0).
Proof.
  intros Hi. pose proof (take_drop_middle es i e Hi) as E. pose proof (lookup_lt_Some _ _ _ Hi). unfold live_count.
  rewrite <- E at 2. rewrite (insert_take_drop es i e') by done. rewrite !list.filter_app, !zlen_app, !filter_cons.
  repeat case_decide; rewrite ?zlen_cons; lia.
Qed.
Lemma live_count_app es e : live_count (es ++ [e]) = live_count es + (if decide (is_Some e) then 1 else 0).
Proof. unfold live_count. rewrite list.filter_app, zlen_app, filter_cons. case_decide; rewrite ?zlen_cons; change (filter is_Some (@nil entry)) with (@nil entry); rewrite zlen_nil; lia. Qed.

Lemma live_count_empty n : live_count (replicate n None) = 0.
Proof. induction n as [|n IH]; [done|]. unfold live_count in *. cbn [replicate]. rewrite filter_cons_False by (by intros []). done. Qed.

Section Inv.
Context {HM : Malloc} {HU : MallocUsable}.

(** The references of a record. *)
Definition weight (stale dying : option Z) (q p : Z) (mr : JSMapRecord) : Z :=
  if empty mr then 0 else if decide (dying = Some p) then 0
  else is_ref q (key mr) + (if decide (stale = Some p) then 0 else is_ref q (value mr)).
(** The locks of the record [p]. *)
Definition lock (loose : option Z) (p q : Z) (it : JSMapIteratorData) : Z :=
  if it_obj it && (cur_record it =? p) && negb (bool_decide (loose = Some q)) then 1 else 0.
Definition locks (loose : option Z) (p : Z) (st : State) : Z := sum_with (lock loose p) (iterators st).

Definition linked (dying : option Z) (p : Z) (mr : JSMapRecord) : Prop := empty mr = false /\ dying <> Some p.
Definition rec_entry (stale dying : option Z) (p : Z) (mr : JSMapRecord) (e : entry) : Prop :=
  if empty mr then e = None else if decide (dying = Some p) then e = None
  else exists w, e = Some (key mr, w) /\ (stale = Some p \/ w = value mr).
Definition cursor_ok (pos : Z -> nat) (st : State) (it : JSMapIteratorData) (c : option nat) : Prop :=
  if it_obj it then
    if cur_record it =? 0 then c = Some 0%nat else is_Some (recs st !! cur_record it) /\ c = Some (S (pos (cur_record it)))
  else c = None.

(** The key of a record in the hash table. *)
Definition keyed (dying : option Z) (st : State) (p : Z) (k : JSValue) : Prop := exists mr, recs st !! p = Some mr /\ linked dying p mr /\ key mr = k.
(** The part about the hash table. *)
Record hash_ok (dying : option Z) (st : State) : Prop := {
  ha_size : 0 < hash_size st < 2 ^ 31;
  ha_len : zlen (hash_table st) = hash_size st;
  ha_chain b l : hash_table st !! b = Some l -> NoDup l /\ forall p, p ∈ l <-> exists k h, keyed dying st p k /\
    map_hash_key k = Ret h /\ Z.to_nat (h .& (hash_size st - 1)) = b;
  ha_keys p k : keyed dying st p k -> key_ok k;
  ha_apart p q k1 k2 : keyed dying st p k1 -> keyed dying st q k2 -> canonical k1 = canonical k2 -> p = q }.

Record inv (E : list JSValue) (stale dying loose : option Z) (es : list entry) (cs : gmap Z cursor) (pos : Z -> nat) (st : State) : Prop := {
  i_strong : is_weak st = false;
  i_sorted : StronglySorted (fun p q => (pos p < pos q)%nat) (records st);
  i_mem p : p ∈ records st <-> is_Some (recs st !! p);
  i_zero : recs st !! 0 = None;
  i_rec p mr : recs st !! p = Some mr -> exists e, es !! pos p = Some e /\ rec_entry stale dying p mr e;
  i_full i kv : es !! i = Some (Some kv) -> exists p mr, recs st !! p = Some mr /\ linked dying p mr /\ pos p = i;
  i_count p mr : recs st !! p = Some mr -> ref_count mr = (if empty mr then 0 else 1) + locks loose p st /\ 0 < ref_count mr;
  i_cursor q it : iterators st !! q = Some it -> loose <> Some q -> exists c, cs !! q = Some (it_kind it, c) /\ cursor_ok pos st it c;
  i_uses q it : iterators st !! q = Some it -> it_count it = uses q E + sum_with (weight stale dying q) (recs st) /\ 0 < it_count it;
  i_refs q : 0 < uses q E + sum_with (weight stale dying q) (recs st) -> q ∈ others st \/ is_Some (iterators st !! q);
  i_others q : q ∈ others st -> iterators st !! q = None;
  i_hash : hash_ok dying st;
  i_size : record_count st = u32 (live_count es + (if dying then 1 else 0)) }.

Lemma record_weight_nonneg stale dying q p mr : 0 <= weight stale dying q p mr.
Proof.
  unfold weight. destruct (empty mr); [lia|]. case_decide; [lia|]. pose proof (is_ref_nonneg q (key mr)). pose proof (is_ref_nonneg q (value mr)).
  case_decide; lia.
Qed.
Lemma lock_nonneg loose p q it : 0 <= lock loose p q it.
Proof. unfold lock. by destruct (_ && _). Qed.
Lemma locks_nonneg loose p st : 0 <= locks loose p st.
Proof. apply sum_nonneg. intros q it. apply lock_nonneg. Qed.
Lemma get_rec_eq p mr st : recs st !! p = Some mr -> get_rec p st = Ret mr.
Proof. intros E. unfold get_rec. by rewrite E. Qed.
Lemma get_iterator_eq q it st : iterators st !! q = Some it -> get_iterator q st = Ret it.
Proof. intros E. unfold get_iterator. by rewrite E. Qed.

Lemma sorted_nodup (f : Z -> nat) l : StronglySorted (fun p q => (f p < f q)%nat) l -> NoDup l.
Proof.
  induction 1 as [|p l Hs IH Hall]; [constructor|]. apply list.NoDup_cons. split; [|done]. intros Hin. rewrite list.Forall_forall in Hall. specialize (Hall p Hin). lia.
Qed.
Lemma sorted_filter (f : Z -> nat) (P : Z -> Prop) `{forall x, Decision (P x)} l :
  StronglySorted (fun p q => (f p < f q)%nat) l -> StronglySorted (fun p q => (f p < f q)%nat) (filter P l).
Proof.
  induction 1 as [|p l Hs IH Hall]; [constructor|]. rewrite filter_cons. case_decide; [|done]. constructor; [done|].
  rewrite list.Forall_forall in *. intros q [_ Hq]%list_elem_of_filter. by apply Hall.
Qed.
Lemma sorted_snoc (f : Z -> nat) l p : StronglySorted (fun p q => (f p < f q)%nat) l -> (forall q, q ∈ l -> (f q < f p)%nat) ->
  StronglySorted (fun p q => (f p < f q)%nat) (l ++ [p]).
Proof.
  induction 1 as [|q l Hs IH Hall]; intros Hp; cbn; constructor.
  - constructor.
  - constructor.
  - apply IH. intros r Hr. apply Hp. by constructor.
  - apply Forall_app. split; [done|]. constructor; [|constructor]. apply Hp. constructor.
Qed.

(** A position has one record. *)
Lemma sorted_inj (f : Z -> nat) l p q : StronglySorted (fun p q => (f p < f q)%nat) l -> p ∈ l -> q ∈ l -> f p = f q -> p = q.
Proof.
  induction 1 as [|x l Hs IH Hf]; intros Hp Hq E; [by apply elem_of_nil in Hp|]. rewrite list.Forall_forall in Hf.
  apply elem_of_cons in Hp as [->|Hp], Hq as [->|Hq]; [done|specialize (Hf _ Hq); lia|specialize (Hf _ Hp); lia|by apply IH].
Qed.
Lemma pos_inj E stale dying loose es cs pos st p q : inv E stale dying loose es cs pos st -> is_Some (recs st !! p) -> is_Some (recs st !! q) -> pos p = pos q -> p = q.
Proof. intros Hi Hp Hq. apply (sorted_inj pos (records st)); [apply Hi|by apply Hi..]. Qed.

(** ** Changes of the counts *)

Definition content (mr : JSMapRecord) : bool * JSValue * JSValue := (empty mr, key mr, value mr).
Definition recount (n : Z) (mr : JSMapRecord) : JSMapRecord := MkMapRecord n (empty mr) (key mr) (value mr).

Lemma content_lookup (R R' : gmap Z JSMapRecord) p mr : content <$> R = content <$> R' -> R' !! p = Some mr ->
  exists n, R !! p = Some (recount n mr).
Proof.
  intros E Hp. assert (H : (content <$> R) !! p = Some (content mr)) by (rewrite E, lookup_fmap, Hp; done).
  rewrite lookup_fmap in H. destruct (R !! p) as [mr'|]; [|done]. injection H as H1 H2 H3. exists (ref_count mr'). by destruct mr', mr; cbn in *; subst.
Qed.
Lemma content_insert (R : gmap Z JSMapRecord) p mr n : R !! p = Some mr -> content <$> R = content <$> <[p := recount n mr]> R.
Proof. intros Hp. rewrite fmap_insert. symmetry. apply insert_id. by rewrite lookup_fmap, Hp. Qed.
Lemma weight_recount stale dying q p n mr : weight stale dying q p (recount n mr) = weight stale dying q p mr.
Proof. done. Qed.
Lemma content_weight stale dying q (R R' : gmap Z JSMapRecord) : content <$> R = content <$> R' ->
  sum_with (weight stale dying q) R = sum_with (weight stale dying q) R'.
Proof.
  intros E. assert (H : forall R : gmap Z JSMapRecord, sum_with (weight stale dying q) R =
    sum_with (fun p c => weight stale dying q p (MkMapRecord 0 c.1.1 c.1.2 c.2)) (content <$> R)).
  { clear. intros R. induction R as [|p mr R Hp IH] using map_ind; [by rewrite fmap_empty|].
    rewrite fmap_insert, !sum_insert; [by rewrite IH|by rewrite lookup_fmap, Hp|done]. }
  by rewrite !H, E.
Qed.
Lemma keyed_content dying st st' p k : content <$> recs st = content <$> recs st' -> keyed dying st p k -> keyed dying st' p k.
Proof.
  intros E (mr & Hp & Hl & Hk). destruct (content_lookup _ _ _ _ (eq_sym E) Hp) as [n Hn]. by exists (recount n mr).
Qed.
Lemma hash_ok_keyed dying dying' st st' : hash_table st' = hash_table st -> hash_size st' = hash_size st ->
  (forall p k, keyed dying st p k <-> keyed dying' st' p k) -> hash_ok dying st -> hash_ok dying' st'.
Proof.
  intros Et Es Hk [A B C D F]. split; [by rewrite Es|by rewrite Et, Es| | |].
  - intros b l Hb. rewrite Et in Hb. destruct (C b l Hb) as [H1 H2]. split; [done|]. intros p. rewrite H2, Es. by setoid_rewrite Hk.
  - intros p k H. by apply (D p), Hk.
  - intros p q k1 k2 H1 H2. apply F; by apply Hk.
Qed.

(** The structure of the map is as before; counts, references and cursors are given. *)
Lemma inv_recount E E' stale dying loose loose' es cs cs' pos st st' : inv E stale dying loose es cs pos st ->
  is_weak st' = is_weak st -> records st' = records st -> hash_table st' = hash_table st -> hash_size st' = hash_size st ->
  record_count st' = record_count st -> content <$> recs st = content <$> recs st' ->
  (forall p mr, recs st' !! p = Some mr -> ref_count mr = (if empty mr then 0 else 1) + locks loose' p st' /\ 0 < ref_count mr) ->
  (forall q it, iterators st' !! q = Some it -> loose' <> Some q -> exists c, cs' !! q = Some (it_kind it, c) /\ cursor_ok pos st' it c) ->
  (forall q it, iterators st' !! q = Some it -> it_count it = uses q E' + sum_with (weight stale dying q) (recs st) /\ 0 < it_count it) ->
  (forall q, 0 < uses q E' + sum_with (weight stale dying q) (recs st) -> q ∈ others st' \/ is_Some (iterators st' !! q)) ->
  (forall q, q ∈ others st' -> iterators st' !! q = None) ->
  inv E' stale dying loose' es cs' pos st'.
Proof.
  intros [] E1 E2 E3 E4 E5 Ec Hcnt Hcur Huse Href Hoth. pose proof (fun q => content_weight stale dying q _ _ Ec) as Hw.
  assert (Hk : forall p k, keyed dying st p k <-> keyed dying st' p k) by (intros p k; split; apply keyed_content; [done|by symmetry]).
  split; [congruence|by rewrite E2| | | | |done|done| | |done|by eapply hash_ok_keyed|congruence].
  - intros p. rewrite E2, i_mem0. split; intros [mr Hp].
    + destruct (content_lookup _ _ _ _ (eq_sym Ec) Hp) as [n Hn]. by eexists.
    + destruct (content_lookup _ _ _ _ Ec Hp) as [n Hn]. by eexists.
  - apply eq_None_not_Some. intros [mr Hp]. destruct (content_lookup _ _ _ _ Ec Hp) as [n Hn]. congruence.
  - intros p mr Hp. destruct (content_lookup _ _ _ _ Ec Hp) as [n Hn]. by destruct (i_rec0 _ _ Hn) as (e & He & Hr); exists e.
  - intros i kv Hi. destruct (i_full0 i kv Hi) as (p & mr & Hp & Hl & Hpos). destruct (content_lookup _ _ _ _ (eq_sym Ec) Hp) as [n Hn]. by exists p, (recount n mr).
  - intros q it Hq. rewrite <- Hw. by apply Huse.
  - intros q. rewrite <- Hw. apply Href.
Qed.
End Inv.

Arguments i_strong {_ _ _ _ _ _ _ _ _} _.
Arguments i_sorted {_ _ _ _ _ _ _ _ _} _.
Arguments i_mem {_ _ _ _ _ _ _ _ _} _.
Arguments i_zero {_ _ _ _ _ _ _ _ _} _.
Arguments i_rec {_ _ _ _ _ _ _ _ _} _.
Arguments i_full {_ _ _ _ _ _ _ _ _} _.
Arguments i_count {_ _ _ _ _ _ _ _ _} _.
Arguments i_cursor {_ _ _ _ _ _ _ _ _} _.
Arguments i_uses {_ _ _ _ _ _ _ _ _} _.
Arguments i_refs {_ _ _ _ _ _ _ _ _} _.
Arguments i_others {_ _ _ _ _ _ _ _ _} _.
Arguments i_hash {_ _ _ _ _ _ _ _ _} _.
Arguments i_size {_ _ _ _ _ _ _ _ _} _.
Arguments ha_size {_ _ _} _.
Arguments ha_len {_ _ _} _.
Arguments ha_chain {_ _ _} _.
Arguments ha_keys {_ _ _} _.
Arguments ha_apart {_ _ _} _.

Ltac open_inv H := pose proof H as [Istrong Isorted Imem Izero Irec Ifull Icount Icursor Iuses Irefs Iothers Ihash Isize].
