(* ===== verification/MapOps.v ===== *)
(** * The steps of the operations on a map

    Releasing a value, with the finalizer of an iterator it may run, duplicating one, unlocking a record, finding a key, adding and removing
    a record: each from a state with the invariant of MapInv.v. *)

From stdpp Require Import gmap sorting.
From S2P Require Import Prelude Sums Cutils Alloc Equality MapSet MapInv.
#[local] Open Scope Z_scope.

Section Ops.
Context {HM : Malloc} {HU : MallocUsable}.

(** What the release of values leaves: the records that are not empty, the hash table. *)
Record keeps (st st' : State) : Prop := {
  ks_rec p mr : recs st !! p = Some mr -> empty mr = false -> exists n, recs st' !! p = Some (recount n mr);
  ks_table : hash_table st' = hash_table st;
  ks_size : hash_size st' = hash_size st;
  ks_threshold : record_count_threshold st' = record_count_threshold st;
  ks_count : record_count st' = record_count st;
  ks_others : others st' = others st }.
Lemma keeps_refl st : keeps st st.
Proof. split; try done. intros p mr Hp _. exists (ref_count mr). by destruct mr. Qed.
Lemma keeps_trans st1 st2 st3 : keeps st1 st2 -> keeps st2 st3 -> keeps st1 st3.
Proof.
  intros [A1 A2 A3 A4 A5 A6] [B1 B2 B3 B4 B5 B6]. split; [|congruence..].
  intros p mr Hp He. destruct (A1 p mr Hp He) as [n Hn]. by apply (B1 p (recount n mr)).
Qed.

(** ** Locks *)

Lemma lock_self p q it : lock (Some q) p q it = 0.
Proof. unfold lock. rewrite bool_decide_true by done. cbn [negb]. by rewrite andb_false_r. Qed.
Lemma lock_none p q it : lock None p q it = if it_obj it && (cur_record it =? p) then 1 else 0.
Proof. unfold lock. rewrite bool_decide_false by done. cbn [negb]. by rewrite andb_true_r. Qed.
Lemma lock_other p q x it : q <> x -> lock (Some q) p x it = lock None p x it.
Proof. intros Hne. unfold lock. rewrite !bool_decide_false by congruence. done. Qed.
Lemma locks_others p q (m : gmap Z JSMapIteratorData) : m !! q = None -> sum_with (lock (Some q) p) m = sum_with (lock None p) m.
Proof. intros Hq. apply sum_ext. intros x jt Hx. apply lock_other. congruence. Qed.

Lemma locks_loose p q it st : iterators st !! q = Some it ->
  locks None p st = locks (Some q) p st + (if it_obj it && (cur_record it =? p) then 1 else 0).
Proof.
  intros Hq. unfold locks. rewrite !(sum_delete _ _ q it Hq), locks_others by apply lookup_delete_eq. rewrite lock_self, lock_none. lia.
Qed.
Lemma locks_same loose p st st' : iterators st' = iterators st -> locks loose p st' = locks loose p st.
Proof. intros E. unfold locks. by rewrite E. Qed.
(** A new cursor for the loose iterator. *)
Lemma locks_put p q it it' st : iterators st !! q = Some it ->
  locks None p (put_iterator q it' st) = locks (Some q) p st + (if it_obj it' && (cur_record it' =? p) then 1 else 0).
Proof.
  intros Hq. rewrite (locks_loose p q it' _) by (apply lookup_insert_eq). f_equal.
  unfold locks. cbn [iterators put_iterator set_iterators]. rewrite (sum_update _ _ _ _ _ Hq), !lock_self. lia.
Qed.
Lemma locks_delete p q it st : iterators st !! q = Some it -> locks None p (set_iterators (delete q (iterators st)) st) = locks (Some q) p st.
Proof.
  intros Hq. unfold locks. cbn [iterators set_iterators]. rewrite (sum_delete (lock (Some q) p) _ q it Hq), lock_self, locks_others by apply lookup_delete_eq. lia.
Qed.
Lemma locks_zero loose p st q it : locks loose p st = 0 -> iterators st !! q = Some it -> loose <> Some q -> it_obj it = true -> cur_record it <> p.
Proof.
  intros H0 Hq Hl Ho <-. pose proof (sum_ge (lock loose (cur_record it)) (iterators st) q it ltac:(intros; apply lock_nonneg) Hq) as Hge.
  unfold locks in H0. rewrite H0 in Hge. unfold lock in Hge. rewrite Ho, Z.eqb_refl, bool_decide_false in Hge by done. cbn in Hge. lia.
Qed.

(** The iterator [q] leaves the record it stands on. *)
Lemma decref_spec E stale dying es cs pos st q it : inv E stale dying None es cs pos st -> iterators st !! q = Some it -> it_obj it = true -> cur_record it <> 0 ->
  yields (map_decref_record (cur_record it) st) (fun st' => inv E stale dying (Some q) es cs pos st' /\ keeps st st' /\ iterators st' = iterators st /\ st_mem st' = st_mem st /\
    (records st' = records st \/ records st' = filter (fun p => p <> cur_record it) (records st))).
Proof.
  intros Hi Hq Ho Hc. set (p := cur_record it) in *. destruct (i_cursor Hi q it Hq ltac:(done)) as (c & Hcs & Hcur).
  unfold cursor_ok in Hcur. rewrite Ho in Hcur. fold p in Hcur. destruct (Z.eqb_spec p 0) as [|_]; [done|]. destruct Hcur as [[mr Hp] ->].
  pose proof (i_count Hi p mr Hp) as [Hn Hpos]. assert (Hl : locks None p st = locks (Some q) p st + 1).
  { rewrite (locks_loose p q it st Hq), Ho. unfold p. by rewrite Z.eqb_refl. }
  assert (Hl' : forall x, x <> p -> locks None x st = locks (Some q) x st).
  { intros x Hx. rewrite (locks_loose x q it st Hq), Ho. fold p. destruct (Z.eqb_spec p x); [congruence|]. cbn. lia. }
  pose proof (locks_nonneg (Some q) p st) as Hnn. unfold map_decref_record. rewrite (get_rec_eq _ _ _ Hp). cbn [mbind outcome_bind]. change (MkMapRecord _ _ _ _) with (recount (ref_count mr - 1) mr).
  cbn [ref_count recount]. destruct (Z.eqb_spec (ref_count mr - 1) 0) as [H1|H1].
  - assert (He : empty mr = true) by (destruct (empty mr); [done|lia]). cbn [empty recount]. rewrite He. change (c_assert true) with (Ret tt).
    cbn [mbind outcome_bind]. assert (Hin : p ∈ records st) by (apply (i_mem Hi); by eexists).
    unfold list_del. rewrite decide_True by done. cbn [mbind outcome_bind mret outcome_ret yields]. rewrite He in Hn.
    assert (Hw : forall x, sum_with (weight stale dying x) (delete p (recs st)) = sum_with (weight stale dying x) (recs st)).
    { intros x. rewrite (sum_delete _ (recs st) p mr Hp). unfold weight at 2. rewrite He. lia. }
    assert (Hk : forall x k, keyed dying st x k <-> keyed dying (set_records (filter (fun y => y <> p) (records st)) (record_count st) (set_recs (delete p (recs st)) st)) x k).
    { intros x k. unfold keyed. cbn [recs set_records set_recs]. split; intros (nr & Hx & Hlk & Hkey); exists nr; (split; [|done]).
      - rewrite lookup_delete_ne; [done|]. intros <-. assert (nr = mr) as -> by congruence. destruct Hlk. congruence.
      - by apply lookup_delete_Some in Hx as [_ Hx]. }
    split; [|split; [|by split; [|split; [|right]]]].
    + open_inv Hi. split; cbn [is_weak records recs set_records set_recs iterators others record_count]; try done.
      * by apply sorted_filter.
      * intros x. rewrite list_elem_of_filter, (i_mem Hi), lookup_delete_is_Some. split; intros [? ?]; split; congruence.
      * by rewrite lookup_delete_ne.
      * intros x nr Hx. apply lookup_delete_Some in Hx as [_ Hx]. by apply (i_rec Hi).
      * intros i kv Hes. destruct ((i_full Hi) i kv Hes) as (x & nr & Hx & Hlk & Hpx). exists x, nr. split; [|done].
        rewrite lookup_delete_ne; [done|]. intros <-. assert (nr = mr) as -> by congruence. destruct Hlk. congruence.
      * intros x nr Hx. apply lookup_delete_Some in Hx as [Hne Hx]. rewrite (locks_same _ _ st) by done. rewrite <- Hl' by done. by apply (i_count Hi).
      * intros y jt Hy Hne. destruct ((i_cursor Hi) y jt Hy ltac:(done)) as (c & Hc1 & Hc2). exists c. split; [done|]. unfold cursor_ok in *.
        destruct (it_obj jt) eqn:Hoj; [|done]. destruct (Z.eqb_spec (cur_record jt) 0); [done|]. destruct Hc2 as [Hc2 ->]. split; [|done].
        cbn [recs set_records set_recs]. rewrite lookup_delete_ne; [done|]. intros Heq. by apply (locks_zero (Some q) p st y jt); [lia|..].
      * intros y jt Hy. rewrite Hw. by apply (i_uses Hi).
      * intros y. rewrite Hw. apply (i_refs Hi).
      * apply (hash_ok_keyed dying dying st); [done|done|exact Hk|done].
    + split; try done. intros x nr Hx Hex. exists (ref_count nr). cbn [recs set_records set_recs]. rewrite lookup_delete_ne; [by destruct nr|]. intros <-. congruence.
  - cbn [yields mret outcome_ret]. split; [|split; [|by split; [|split; [|left]]]].
    + eapply inv_recount; [exact Hi|done|done|done|done|done| | | | | |]; cbn [recs put_rec set_recs iterators others].
      * by apply content_insert.
      * intros x nr Hx. rewrite (locks_same _ _ st) by done. destruct (decide (x = p)) as [->|Hne].
        -- rewrite lookup_insert_eq in Hx. simplify_eq. cbn [ref_count empty recount]. lia.
        -- rewrite lookup_insert_ne in Hx by done. rewrite <- Hl' by done. by apply (i_count Hi).
      * intros y jt Hy Hne. destruct (i_cursor Hi y jt Hy ltac:(done)) as (c & Hc1 & Hc2). exists c. split; [done|]. unfold cursor_ok in *.
        destruct (it_obj jt); [|done]. destruct (_ =? 0); [done|]. destruct Hc2 as [Hc2 ->]. split; [|done]. cbn [recs put_rec set_recs].
        rewrite lookup_insert_is_Some. destruct (decide (p = cur_record jt)); [by left|by right].
      * apply Hi.
      * apply Hi.
      * apply Hi.
    + split; try done. intros x nr Hx Hex. cbn [recs put_rec set_recs]. destruct (decide (x = p)) as [->|Hne].
      * rewrite lookup_insert_eq. simplify_eq. by eexists.
      * rewrite lookup_insert_ne by done. exists (ref_count nr). by destruct nr.
Qed.

(** ** References *)

(** States that differ in the log, the memory and the threshold only. *)
Definition same_map (st st' : State) : Prop :=
  recs st' = recs st /\ is_weak st' = is_weak st /\ records st' = records st /\ record_count st' = record_count st /\ hash_table st' = hash_table st /\
  hash_size st' = hash_size st /\ iterators st' = iterators st /\ others st' = others st.
Lemma inv_same E stale dying loose es cs pos st st' : same_map st st' -> inv E stale dying loose es cs pos st -> inv E stale dying loose es cs pos st'.
Proof.
  intros (E1 & E2 & E3 & E4 & E5 & E6 & E7 & E8) Hi. open_inv Hi. eapply (inv_recount _ _ _ _ _ _ _ _ _ _ _ _ Hi); try done.
  - by rewrite E1.
  - intros p mr. rewrite E1, (locks_same _ _ st) by done. apply Icount.
  - intros q it. rewrite E7. intros Hq Hl. destruct (Icursor q it Hq Hl) as (c & Hc1 & Hc2). exists c. split; [done|]. unfold cursor_ok in *. by rewrite E1.
  - intros q it. rewrite E7. apply Iuses.
  - intros q. rewrite E7, E8. apply Irefs.
  - intros q. rewrite E7, E8. apply Iothers.
Qed.

Lemma uses_cons_ref q v E : uses q (v :: E) = is_ref q v + uses q E.
Proof. done. Qed.
Lemma is_ref_object q p : is_ref q (Object p) = if p =? q then 1 else 0.
Proof. done. Qed.

(** A reference is given up that is none to an iterator. *)
Lemma drop_plain E v stale dying es cs pos st : inv (v :: E) stale dying None es cs pos st ->
  (forall q, is_Some (iterators st !! q) -> is_ref q v = 0) -> inv E stale dying None es cs pos st.
Proof.
  intros Hi Hv. open_inv Hi. eapply (inv_recount _ _ _ _ _ _ _ _ _ _ _ _ Hi); try done.
  - intros q it Hq. destruct (Iuses q it Hq) as [H1 H2]. rewrite uses_cons_ref, Hv in H1 by (by eexists). split; [lia|done].
  - intros q Hq. apply Irefs. rewrite uses_cons_ref. pose proof (is_ref_nonneg q v). lia.
Qed.

(** The last reference to the iterator [q] is gone: it is deleted. *)
Lemma delete_iterator E q it v stale dying es cs pos st : inv (v :: E) stale dying (Some q) es cs pos st -> iterators st !! q = Some it -> v = Object q ->
  it_count it = 1 -> inv E stale dying None es cs pos (set_iterators (delete q (iterators st)) st).
Proof.
  intros Hi Hq -> H1. open_inv Hi. assert (H0 : uses q E + sum_with (weight stale dying q) (recs st) = 0).
  { destruct (Iuses q it Hq) as [H _]. rewrite uses_cons_ref, is_ref_object, Z.eqb_refl in H. lia. }
  eapply (inv_recount _ _ _ _ _ _ _ _ _ _ _ _ Hi); try done; cbn [iterators set_iterators others recs].
  - intros p mr Hp. rewrite (locks_delete p q it st Hq). by apply Icount.
  - intros x jt Hx _. apply lookup_delete_Some in Hx as [Hne Hx]. apply Icursor; [done|congruence].
  - intros x jt Hx. apply lookup_delete_Some in Hx as [Hne Hx]. destruct (Iuses x jt Hx) as [H2 H3]. rewrite uses_cons_ref, is_ref_object in H2.
    destruct (Z.eqb_spec q x); [congruence|]. split; [lia|done].
  - intros x Hx. destruct (decide (x = q)) as [->|Hne]; [lia|]. rewrite lookup_delete_ne by done. apply Irefs. rewrite uses_cons_ref. pose proof (is_ref_nonneg x (Object q)). lia.
  - intros x Hx. rewrite lookup_delete_None. right. by apply Iothers.
Qed.

(** An iterator without a lock may be taken as loose. *)
Lemma loosen E stale dying es cs pos st q it : inv E stale dying None es cs pos st -> iterators st !! q = Some it ->
  it_obj it && negb (cur_record it =? 0) = false -> inv E stale dying (Some q) es cs pos st.
Proof.
  intros Hi Hq Hc. open_inv Hi. eapply (inv_recount _ _ _ _ _ _ _ _ _ _ _ _ Hi); try done.
  - intros p mr Hp. destruct (Icount p mr Hp) as [H1 H2]. rewrite (locks_loose p q it st Hq) in H1. split; [|done].
    assert (p <> 0) by (intros ->; congruence). destruct (it_obj it); cbn in *; [|lia]. apply negb_false_iff, Z.eqb_eq in Hc. rewrite Hc in H1.
    destruct (Z.eqb_spec 0 p); [congruence|lia].
  - intros x jt Hx _. by apply Icursor.
Qed.

Lemma keeps_iterators x st : keeps st (set_iterators x st).
Proof. split; try done. intros p mr Hp _. exists (ref_count mr). by destruct mr. Qed.

Lemma free_value_spec E v stale dying es cs pos st : inv (v :: E) stale dying None es cs pos st ->
  yields (JS_FreeValue v st) (fun st' => inv E stale dying None es cs pos st' /\ keeps st st').
Proof.
  intros Hi. unfold JS_FreeValue. assert (Hi' : inv (v :: E) stale dying None es cs pos (emit (FreeValue v) st)) by (by apply (inv_same _ _ _ _ _ _ _ st)).
  assert (Hk : keeps st (emit (FreeValue v) st)) by (split; try done; intros p mr Hp _; exists (ref_count mr); by destruct mr).
  cut (yields (match v with
      | Object q => match iterators (emit (FreeValue v) st) !! q with
        | Some it => if it_count it - 1 <=? 0 then st ← js_map_iterator_finalizer q (emit (FreeValue v) st); mret (set_iterators (delete q (iterators st)) st)
            else mret (put_iterator q (MkIterator (it_count it - 1) (it_obj it) (it_kind it) (cur_record it)) (emit (FreeValue v) st))
        | None => mret (emit (FreeValue v) st) end
      | _ => mret (emit (FreeValue v) st) end) (fun st' => inv E stale dying None es cs pos st' /\ keeps (emit (FreeValue v) st) st')).
  { intros H. eapply yields_mono; [exact H|]. intros st' [H1 H2]. split; [done|]. by eapply keeps_trans. }
  clear Hk Hi. revert Hi'. generalize (emit (FreeValue v) st). clear st. intros st Hi. open_inv Hi.
  assert (Hplain : (forall q, is_Some (iterators st !! q) -> is_ref q v = 0) -> yields (mret st) (fun st' => inv E stale dying None es cs pos st' /\ keeps st st')).
  { intros Hv. cbn. split; [by eapply drop_plain|apply keeps_refl]. }
  destruct v as [| | | | | | |q|]; try by apply Hplain. destruct (iterators st !! q) as [it|] eqn:Hq.
  2:{ apply Hplain. intros x [jt Hx]. rewrite is_ref_object. destruct (Z.eqb_spec q x); [congruence|done]. }
  destruct (Iuses q it Hq) as [Hn Hpos]. destruct (Z.leb_spec (it_count it - 1) 0) as [Hlast|Hmore].
  - unfold js_map_iterator_finalizer. rewrite (get_iterator_eq _ _ _ Hq). cbn [mbind outcome_bind]. apply yields_bind. apply yields_bind.
    apply (yields_mono _ (fun st1 => inv (Object q :: E) stale dying (Some q) es cs pos st1 /\ keeps st st1 /\ iterators st1 = iterators st)).
    + destruct (it_obj it && negb (cur_record it =? 0)) eqn:Hc.
      * apply andb_true_iff in Hc as [Ho Hc%negb_true_iff%Z.eqb_neq]. eapply yields_mono; [by apply (decref_spec _ _ _ _ _ _ _ q it Hi Hq)|].
        intros st1 (H1 & H2 & H3 & _). done.
      * cbn. split; [by eapply loosen|]. split; [apply keeps_refl|done].
    + intros st1 (H1 & H2 & H3). cbn [yields mret outcome_ret]. set (st2 := if it_obj it then emit FreeMap st1 else st1).
      assert (Hi2 : inv (Object q :: E) stale dying (Some q) es cs pos st2 /\ keeps st st2 /\ iterators st2 = iterators st).
      { unfold st2. destruct (it_obj it); [|done]. split; [by apply (inv_same _ _ _ _ _ _ _ st1)|]. split; [|done]. eapply keeps_trans; [done|].
        split; try done. intros p mr Hp _. exists (ref_count mr). by destruct mr. }
      destruct Hi2 as (Hi2 & Hk2 & Hit2). split; [|eapply keeps_trans; [done|apply keeps_iterators]].
      apply (delete_iterator E q it (Object q)); [done|by rewrite Hit2|done|lia].
  - cbn [yields mret outcome_ret]. split; [|apply keeps_iterators]. eapply (inv_recount _ _ _ _ _ _ _ _ _ _ _ _ Hi); try done; cbn [iterators put_iterator set_iterators others].
    + intros p mr Hp. rewrite (locks_put p q it _ st Hq). cbn [it_obj cur_record]. rewrite <- (locks_loose p q it st Hq). by apply Icount.
    + intros x jt Hx _. destruct (decide (x = q)) as [->|Hne]; [|rewrite lookup_insert_ne in Hx by done; by apply Icursor].
      rewrite lookup_insert_eq in Hx. simplify_eq. by apply (Icursor q it).
    + intros x jt Hx. destruct (decide (x = q)) as [->|Hne].
      * rewrite lookup_insert_eq in Hx. simplify_eq. cbn [it_count]. rewrite uses_cons_ref, is_ref_object, Z.eqb_refl in Hn. lia.
      * rewrite lookup_insert_ne in Hx by done. destruct (Iuses x jt Hx) as [H1 H2]. rewrite uses_cons_ref, is_ref_object in H1.
        destruct (Z.eqb_spec q x); [congruence|]. split; [lia|done].
    + intros x Hx. rewrite lookup_insert_is_Some. destruct (decide (q = x)) as [|Hne]; [by right; left|]. destruct (Irefs x) as [H|H]; [|by left|by right; right].
      rewrite uses_cons_ref. pose proof (is_ref_nonneg x (Object q)). lia.
    + intros x Hx. rewrite lookup_insert_ne; [by apply Iothers|]. intros ->. rewrite (Iothers x Hx) in Hq. done.
Qed.

(** The object of a value is there. *)
Definition known (st : State) (v : JSValue) : Prop := match v with Object q => q ∈ others st \/ is_Some (iterators st !! q) | _ => True end.

Lemma keeps_recs st st' : recs st' = recs st -> hash_table st' = hash_table st -> hash_size st' = hash_size st ->
  record_count_threshold st' = record_count_threshold st -> record_count st' = record_count st -> others st' = others st -> keeps st st'.
Proof. intros E. split; try done. intros p mr Hp _. exists (ref_count mr). rewrite E. by destruct mr. Qed.

Lemma dup_value_spec E v stale dying es cs pos st : inv E stale dying None es cs pos st -> known st v ->
  inv (v :: E) stale dying None es cs pos (JS_DupValue v st) /\ recs (JS_DupValue v st) = recs st /\ keeps st (JS_DupValue v st).
Proof.
  intros Hi Hv. set (st1 := emit (DupValue v) st). assert (Hi1 : inv E stale dying None es cs pos st1) by (by apply (inv_same _ _ _ _ _ _ _ st)). open_inv Hi1.
  assert (Hplain : (forall q, is_Some (iterators st !! q) -> is_ref q v = 0) -> (forall q, 0 < is_ref q v -> q ∈ others st) -> inv (v :: E) stale dying None es cs pos st1).
  { intros H1 H2. eapply (inv_recount _ _ _ _ _ _ _ _ _ _ _ _ Hi1); try done.
    - intros q it Hq. rewrite uses_cons_ref, H1 by (by eexists). rewrite Z.add_0_l. by apply Iuses.
    - intros q. rewrite uses_cons_ref. intros Hq. destruct (decide (0 < is_ref q v)) as [Hd|Hd]; [left; by apply H2|]. apply Irefs. pose proof (is_ref_nonneg q v). lia. }
  unfold JS_DupValue. fold st1. destruct v as [| | | | | | |q|]; try (split; [by apply Hplain|]; split; [done|by apply keeps_recs]).
  change (iterators st1) with (iterators st) in *. destruct (iterators st !! q) as [it|] eqn:Hq.
  2:{ split; [|split; [done|by apply keeps_recs]]. apply Hplain.
      - intros x [jt Hx]. rewrite is_ref_object. destruct (Z.eqb_spec q x); [congruence|done].
      - intros x. rewrite is_ref_object. destruct (Z.eqb_spec q x) as [->|]; [|lia]. intros _. destruct Hv as [Hv|[jt Hv]]; [done|congruence]. }
  split; [|split; [done|by apply keeps_recs]].
  eapply (inv_recount _ _ _ _ _ _ _ _ _ _ _ _ Hi1); try done; cbn [iterators put_iterator set_iterators others].
  - intros p mr Hp. rewrite (locks_put p q it _ st1 Hq). cbn [it_obj cur_record]. rewrite <- (locks_loose p q it st1 Hq). by apply Icount.
  - intros x jt Hx _. destruct (decide (x = q)) as [->|Hne]; [|rewrite lookup_insert_ne in Hx by done; by apply Icursor].
    rewrite lookup_insert_eq in Hx. simplify_eq. by apply (Icursor q it).
  - intros x jt Hx. rewrite uses_cons_ref, is_ref_object. destruct (decide (x = q)) as [->|Hne].
    + rewrite lookup_insert_eq in Hx. simplify_eq. cbn [it_count]. rewrite Z.eqb_refl. destruct (Iuses q it Hq). change (recs st1) with (recs st) in *. lia.
    + rewrite lookup_insert_ne in Hx by done. destruct (Z.eqb_spec q x); [congruence|]. rewrite Z.add_0_l. by apply Iuses.
  - intros x Hx. rewrite lookup_insert_is_Some. destruct (decide (q = x)) as [|Hne]; [by right; left|]. destruct (Irefs x) as [H|H]; [|by left|by right; right].
    rewrite uses_cons_ref, is_ref_object in Hx. destruct (Z.eqb_spec q x); [congruence|]. lia.
  - intros x Hx. rewrite lookup_insert_ne; [by apply Iothers|]. intros ->. pose proof (Iothers x Hx) as Hn. change (iterators st1) with (iterators st) in Hn. congruence.
Qed.

Lemma dup_known v st w : known st w -> known (JS_DupValue v st) w.
Proof.
  intros Hw. destruct w as [| | | | | | |q|]; try done. unfold JS_DupValue. destruct v as [| | | | | | |p|]; try done.
  cbn [iterators emit]. destruct (iterators st !! p) as [it|] eqn:Hp; [|done]. destruct Hw as [Hw|Hw]; [by left|right]. cbn [iterators put_iterator set_iterators emit].
  rewrite lookup_insert_is_Some. destruct (decide (p = q)); [by left|by right].
Qed.

(** ** Looking for a key *)

Lemma find_in_spec st k l : (forall p, p ∈ l -> is_Some (recs st !! p)) ->
  yields (find_in k l st) (fun r => match r with
    | Some p => p ∈ l /\ exists mr, recs st !! p = Some mr /\ canonical (key mr) = canonical k
    | None => forall p mr, p ∈ l -> recs st !! p = Some mr -> canonical (key mr) <> canonical k end).
Proof.
  induction l as [|p l IH]; intros Hl; cbn [find_in].
  - cbn. intros p mr Hp. by apply elem_of_nil in Hp.
  - destruct (Hl p ltac:(constructor)) as [mr Hp]. rewrite (get_rec_eq _ _ _ Hp). cbn [mbind outcome_bind]. rewrite js_same_value_zero_eq. cbn [mbind outcome_bind].
    case_bool_decide as Hc.
    + cbn. split; [constructor|by exists mr].
    + eapply yields_mono; [apply IH; intros x Hx; apply Hl; by constructor|]. intros [x|] Hr.
      * destruct Hr as (Hx & Hr). split; [by constructor|done].
      * intros x nr Hx. apply elem_of_cons in Hx as [->|Hx]; [|by apply Hr]. intros Hx. by simplify_eq.
Qed.

Lemma land_le h m : 0 <= m -> 0 <= h .& m <= m.
Proof.
  intros Hm. split; [apply Z.land_nonneg; lia|]. assert (E : Z.land (h .& m) (Z.ldiff m h) = 0).
  { apply Z.bits_inj'. intros i Hi. rewrite Z.land_spec, Z.land_spec, Z.ldiff_spec, Z.bits_0. by destruct (Z.testbit h i), (Z.testbit m i). }
  assert (S : h .& m + Z.ldiff m h = m).
  { rewrite Z.add_nocarry_lxor by done. apply Z.bits_inj'. intros i Hi. rewrite Z.lxor_spec, Z.land_spec, Z.ldiff_spec.
    by destruct (Z.testbit h i), (Z.testbit m i). }
  assert (0 <= Z.ldiff m h) by (apply Z.ldiff_nonneg; lia). lia.
Qed.
Lemma bucket_ok dying st h : hash_ok dying st -> exists l, hash_table st !! Z.to_nat (h .& (hash_size st - 1)) = Some l /\
  aget (hash_table st) (h .& (hash_size st - 1)) = Ret l.
Proof.
  intros Hh. pose proof (ha_size Hh). pose proof (land_le h (hash_size st - 1) ltac:(lia)) as Hb.
  destruct (aget_in_range (hash_table st) (h .& (hash_size st - 1))) as (l & Hl & Hl'); [rewrite (ha_len Hh); lia|]. by exists l.
Qed.

Lemma find_record_spec E stale dying loose es cs pos st k : inv E stale dying loose es cs pos st -> key_ok k ->
  yields (map_find_record k st) (fun r => match r with
    | Some p => exists k', keyed dying st p k' /\ canonical k' = canonical k
    | None => forall p k', keyed dying st p k' -> canonical k' <> canonical k end).
Proof.
  intros Hi Hk. pose proof (i_hash Hi) as Hh. unfold map_find_record. destruct (map_hash_key_spec k Hk) as (h & Eh & Hr). rewrite Eh. cbn [mbind outcome_bind].
  destruct (bucket_ok _ _ h Hh) as (l & Hl & ->). cbn [mbind outcome_bind]. destruct (ha_chain Hh _ _ Hl) as [_ Hch].
  eapply yields_mono; [apply find_in_spec; intros p Hp; apply Hch in Hp as (k' & h' & (mr & Hp & _) & _); by eexists|]. intros [p|] Hf.
  - destruct Hf as (Hp & mr & Hmr & Hc). apply Hch in Hp as (k' & h' & Hkd & _). exists k'. split; [done|]. destruct Hkd as (nr & Hnr & _ & <-). congruence.
  - intros p k' Hkd Hc. pose proof Hkd as (mr & Hmr & _ & Hkey). apply (Hf p mr); [|done|congruence]. apply Hch. exists k', h. split; [done|].
    split; [|done]. rewrite <- Eh. by apply map_hash_key_compat; [by eapply ha_keys| |].
Qed.

(** ** The hash table *)

(** The bucket of a key in a table of [n] lists. *)
Definition bucket (n : Z) (k : JSValue) (b : nat) : Prop := exists h, map_hash_key k = Ret h /\ Z.to_nat (h .& (n - 1)) = b.
Lemma bucket_unique n k b b' : bucket n k b -> bucket n k b' -> b = b'.
Proof. intros (h & E & Hb) (h' & E' & Hb'). congruence. Qed.
(** The lists hold the records of [S]. *)
Definition chains (n : Z) (tab : list (list Z)) (S : Z -> JSValue -> Prop) : Prop :=
  zlen tab = n /\ forall b l, tab !! b = Some l -> NoDup l /\ forall p, p ∈ l <-> exists k, S p k /\ bucket n k b.
Lemma hash_chains dying st : hash_ok dying st -> chains (hash_size st) (hash_table st) (keyed dying st).
Proof.
  intros Hh. split; [apply (ha_len Hh)|]. intros b l Hb. destruct (ha_chain Hh b l Hb) as [H1 H2]. split; [done|]. intros p. rewrite H2.
  split; [intros (k & h & Hk & E & Eb); exists k; split; [done|by exists h]|intros (k & Hk & h & E & Eb); by exists k, h].
Qed.
Lemma chains_hash dying st : 0 < hash_size st < 2 ^ 31 -> chains (hash_size st) (hash_table st) (keyed dying st) ->
  (forall p k, keyed dying st p k -> key_ok k) -> (forall p q k1 k2, keyed dying st p k1 -> keyed dying st q k2 -> canonical k1 = canonical k2 -> p = q) ->
  hash_ok dying st.
Proof.
  intros Hn [Hl Hc] Hk Ha. split; try done. intros b l Hb. destruct (Hc b l Hb) as [H1 H2]. split; [done|]. intros p. rewrite H2.
  split; [intros (k & Hp & h & E & Eb); by exists k, h|intros (k & h & Hp & E & Eb); exists k; split; [done|by exists h]].
Qed.
Lemma chains_ext n tab S S' : (forall p k, S p k <-> S' p k) -> chains n tab S -> chains n tab S'.
Proof. intros HS [Hl Hc]. split; [done|]. intros b l Hb. destruct (Hc b l Hb) as [H1 H2]. split; [done|]. intros p. rewrite H2. by setoid_rewrite HS. Qed.

Lemma chains_add n tab S p k h : chains n tab S -> 0 < n -> (forall k', ~ S p k') -> map_hash_key k = Ret h ->
  yields (list_add_tail (h .& (n - 1)) p tab) (fun tab' => chains n tab' (fun x k' => S x k' \/ x = p /\ k' = k)).
Proof.
  intros [Hl Hc] Hn Hp Eh. unfold list_add_tail. pose proof (land_le h (n - 1) ltac:(lia)) as Hb.
  destruct (aget_in_range tab (h .& (n - 1))) as (l & -> & Hlb); [lia|]. cbn [mbind outcome_bind]. unfold aset.
  assert ((0 <=? h .& (n - 1)) && (h .& (n - 1) <? zlen tab) = true) as -> by (apply andb_true_iff; lia). cbn. split; [unfold zlen; by rewrite length_insert|].
  intros b l' Hb'. destruct (Hc _ _ Hlb) as [Hnd Hin]. destruct (decide (b = Z.to_nat (h .& (n - 1)))) as [->|Hne].
  - rewrite list_lookup_insert_eq in Hb' by (by eapply lookup_lt_Some). injection Hb' as <-. split.
    + apply list.NoDup_app. split; [done|]. split; [|apply list.NoDup_singleton]. intros x Hx Hx'%list_elem_of_singleton. subst x.
      apply Hin in Hx as (k' & Hx & _). by apply Hp in Hx.
    + intros x. rewrite elem_of_app, list_elem_of_singleton, Hin. split.
      * intros [(k' & Hx & Hbk)| ->]; [exists k'; by split; [left|]|exists k; split; [by right|by exists h]].
      * intros (k' & [Hx|[-> ->]] & Hbk); [left; by exists k'|by right].
  - rewrite list_lookup_insert_ne in Hb' by done. destruct (Hc _ _ Hb') as [Hnd' Hin']. split; [done|]. intros x. rewrite Hin'. split.
    + intros (k' & Hx & Hbk). exists k'. by split; [left|].
    + intros (k' & [Hx|[-> ->]] & Hbk); [by exists k'|]. exfalso. apply Hne, (bucket_unique n k); [done|by exists h].
Qed.

Lemma chains_remove n tab S p k : chains n tab S -> 0 < n -> S p k -> key_ok k ->
  yields (hash_unlink p tab) (fun tab' => chains n tab' (fun x k' => S x k' /\ x <> p)).
Proof.
  intros [Hl Hc] Hn Hp Hk. destruct (map_hash_key_spec k Hk) as (h & Eh & _). pose proof (land_le h (n - 1) ltac:(lia)) as Hb.
  destruct (aget_in_range tab (h .& (n - 1))) as (l & _ & Hlb); [lia|]. unfold hash_unlink. rewrite decide_True.
  - cbn. split; [unfold zlen; by rewrite length_fmap|]. intros b l' Hb'. rewrite list_lookup_fmap in Hb'. destruct (tab !! b) as [l0|] eqn:E0; [|done].
    injection Hb' as <-. destruct (Hc b l0 E0) as [Hnd Hin]. split; [by apply list.NoDup_filter|]. intros x. rewrite list_elem_of_filter, Hin. split.
    + intros [Hne (k' & Hx & Hbk)]. by exists k'.
    + intros (k' & [Hx Hne] & Hbk). split; [done|]. by exists k'.
  - apply list.Exists_exists. exists l. split; [by eapply list_elem_of_lookup_2|]. apply (Hc _ _ Hlb). exists k. split; [done|]. by exists h.
Qed.

Lemma rehash_spec st n l : forall dn tab, chains n tab (fun p k => p ∈ dn /\ keyed None st p k) -> 0 < n -> NoDup (dn ++ l) ->
  (forall p, p ∈ l -> is_Some (recs st !! p)) -> (forall p k, keyed None st p k -> key_ok k) ->
  yields (rehash n l tab st) (fun tab' => chains n tab' (fun p k => p ∈ dn ++ l /\ keyed None st p k)).
Proof.
  induction l as [|p l IH]; intros dn tab Hc Hn Hnd Hl Hk; cbn [rehash].
  - cbn. by rewrite app_nil_r.
  - destruct (Hl p ltac:(constructor)) as [mr Hp]. rewrite (get_rec_eq _ _ _ Hp). cbn [mbind outcome_bind].
    assert (Hpd : p ∉ dn). { intros Hin. apply list.NoDup_app in Hnd as (_ & Hd & _). apply (Hd p Hin). constructor. }
    apply yields_bind. apply (yields_mono _ (fun tab' => chains n tab' (fun x k => x ∈ dn ++ [p] /\ keyed None st x k))).
    + destruct (empty mr) eqn:He.
      * cbn. eapply chains_ext; [|exact Hc]. intros x k. rewrite elem_of_app, list_elem_of_singleton. split; [intros [H1 H2]; by split; [left|]|].
        intros [[H1| ->] H2]; [done|]. destruct H2 as (nr & Hx & [He' _] & _). congruence.
      * assert (Hkey : keyed None st p (key mr)) by (by exists mr). destruct (map_hash_key_spec (key mr) (Hk _ _ Hkey)) as (h & Eh & _). rewrite Eh. cbn [mbind outcome_bind].
        eapply yields_mono; [apply (chains_add n tab _ p (key mr) h Hc Hn); [|done]|].
        { intros k' [Hin _]. done. }
        intros tab' Hc'. eapply chains_ext; [|exact Hc']. intros x k. cbn beta. rewrite elem_of_app, list_elem_of_singleton. split.
        -- intros [[H1 H2]|[-> ->]]; [by split; [left|]|by split; [right|]].
        -- intros [[H1| ->] H2]; [by left|]. right. split; [done|]. destruct H2 as (nr & Hx & _ & <-). congruence.
    + intros tab' Hc'. cbn beta. eapply yields_mono; [apply (IH (dn ++ [p]) tab' Hc' Hn); [by rewrite <- app_assoc|intros x Hx; apply Hl; by constructor|done]|].
      intros tab2. by rewrite <- app_assoc.
Qed.

(** A hash table that holds the same records. *)
Lemma inv_table E stale dying dying' loose es cs pos st st' : inv E stale dying loose es cs pos st -> dying' = dying -> is_weak st' = is_weak st ->
  recs st' = recs st -> records st' = records st -> record_count st' = record_count st -> iterators st' = iterators st -> others st' = others st ->
  hash_ok dying' st' -> inv E stale dying' loose es cs pos st'.
Proof.
  intros Hi -> E1 E2 E3 E4 E5 E6 Hh. open_inv Hi. split; rewrite ?E1, ?E2, ?E3, ?E4, ?E5, ?E6; try done.
  - intros p mr Hp. rewrite (locks_same _ _ st) by done. by apply Icount.
  - intros q it Hq Hl. destruct (Icursor q it Hq Hl) as (c & Hc1 & Hc2). exists c. split; [done|]. unfold cursor_ok in *. by rewrite E2.
Qed.

Lemma chains_empty n S : 0 <= n -> (forall p k, ~ S p k) -> chains n (replicate (Z.to_nat n) []) S.
Proof.
  intros Hn HS. split; [unfold zlen; rewrite length_replicate; lia|]. intros b l Hb. apply lookup_replicate in Hb as [-> _]. split; [constructor|].
  intros p. split; [intros Hp; by apply elem_of_nil in Hp|]. intros (k & Hp & _). by apply HS in Hp.
Qed.

Context {Hbounded : MallocBounded} {Hpointer : 4 <= sizeof_pointer}.

Lemma state_malloc_spec n st : exists r m, malloc n st = (r, set_mem m st) /\
  (forall p, r = Some p -> p <> 0 /\ recs st !! p = None /\ iterators st !! p = None /\ p ∉ others st /\ n < 2 ^ 29).
Proof.
  unfold malloc. destruct (js_malloc (st_mem st) (blocks st) n) as [r m] eqn:Em. exists r, m. split; [done|]. intros p ->.
  assert (E1 : (js_malloc (st_mem st) (blocks st) n).1 = Some p) by (by rewrite Em). destruct (js_malloc_fresh _ _ _ _ E1) as [H0 Hf].
  unfold blocks in Hf. rewrite !elem_of_union, !elem_of_dom in Hf. split; [done|].
  split; [apply eq_None_not_Some; tauto|]. split; [apply eq_None_not_Some; tauto|]. split; [tauto|]. by eapply malloc_bounded.
Qed.

Lemma resize_spec E stale loose es cs pos st : inv E stale None loose es cs pos st ->
  yields (map_hash_resize st) (fun st' => inv E stale None loose es cs pos st' /\ recs st' = recs st /\ iterators st' = iterators st /\ others st' = others st /\ records st' = records st).
Proof.
  intros Hi. pose proof (i_hash Hi) as Hh. pose proof (ha_size Hh) as Hsz. unfold map_hash_resize.
  set (n0 := if hash_size st =? 1 then 4 else u32 (hash_size st * 2)). assert (Hn0 : 0 < n0).
  { unfold n0. destruct (hash_size st =? 1); [lia|]. rewrite wrap_small; lia. }
  destruct (state_malloc_spec (2 * sizeof_pointer * n0) st) as (r & m & -> & Hr). destruct r as [x|]; [|cbn; split; [by apply (inv_same _ _ _ _ _ _ _ st)|done]].
  destruct (Hr x eq_refl) as (_ & _ & _ & _ & Hlt). clear Hr. set (size := 2 * sizeof_pointer * n0) in *. set (st1 := set_mem m st).
  set (slack := if _ >? size then _ - size else 0). set (n := u32 (n0 + slack / (2 * sizeof_pointer))).
  assert (Hsl : 0 <= slack < 2 ^ 32).
  { unfold slack. pose proof (malloc_usable_range (st_mem st1) size). destruct (Z.gtb_spec (malloc_usable_size (st_mem st1) size) size); nia. }
  assert (Hn : 0 < n < 2 ^ 31).
  { assert (0 <= slack / (2 * sizeof_pointer) < 2 ^ 29).
    { split; [apply Z.div_pos; lia|]. apply Z.div_lt_upper_bound; [lia|]. nia. }
    assert (n0 < 2 ^ 29) by nia. unfold n. rewrite wrap_small; lia. }
  assert (Hi1 : inv E stale None loose es cs pos st1) by (by apply (inv_same _ _ _ _ _ _ _ st)). pose proof (i_hash Hi1) as Hh1. apply yields_bind.
  eapply yields_mono; [apply (rehash_spec st1 n (records st1) [] _); [apply chains_empty; [lia|]| |cbn; by apply (sorted_nodup pos), (i_sorted Hi1)| |by apply ha_keys]|].
  - intros p k [Hp _]. by apply elem_of_nil in Hp.
  - lia.
  - intros p Hp. by apply (i_mem Hi1).
  - intros tab Hc. cbn [yields mret outcome_ret]. split; [|done]. apply (inv_table _ _ None None _ _ _ _ st1); try done. apply chains_hash; cbn [hash_size hash_table set_hash]; [done| | |].
    + eapply chains_ext; [|exact Hc]. intros p k. cbn [app]. split; [by intros [_ H]|]. intros H. split; [|done]. apply (i_mem Hi1).
      destruct H as (mr & Hp & _). by eexists.
    + exact (ha_keys Hh1).
    + exact (ha_apart Hh1).
Qed.

(** What was known of values stays known. *)
Definition keeps_known (st st' : State) : Prop := forall v, known st v -> known st' v.

(** ** Adding a record *)

Definition at_end (pos : Z -> nat) (p : Z) (es : list entry) : Z -> nat := fun x => if x =? p then length es else pos x.

Lemma no_locks E stale dying es cs pos st p : inv E stale dying None es cs pos st -> p <> 0 -> recs st !! p = None -> locks None p st = 0.
Proof.
  intros Hi Hp0 Hp. apply sum_zero. intros q it Hq. rewrite lock_none. destruct (i_cursor Hi q it Hq ltac:(done)) as (c & _ & Hc). unfold cursor_ok in Hc.
  destruct (it_obj it); [|done]. destruct (Z.eqb_spec (cur_record it) p) as [Heq|]; [|done]. rewrite Heq in Hc. destruct (Z.eqb_spec p 0); [done|].
  destruct Hc as [[mr Hc] _]. congruence.
Qed.
Lemma pos_lt E stale dying loose es cs pos st p : inv E stale dying loose es cs pos st -> is_Some (recs st !! p) -> (pos p < length es)%nat.
Proof. intros Hi [mr Hp]. destruct (i_rec Hi p mr Hp) as (e & He & _). by eapply lookup_lt_Some. Qed.

(** The new record [p] with the key [k], at the end; its value is still to be set. *)
Lemma inv_append E es cs pos st st' p k : inv (k :: E) None None None es cs pos st -> p <> 0 -> recs st !! p = None ->
  key_ok k -> (forall q k', keyed None st q k' -> canonical k' <> canonical k) ->
  is_weak st' = is_weak st -> recs st' = <[p := MkMapRecord 1 false k Undefined]> (recs st) -> records st' = records st ++ [p] ->
  record_count st' = u32 (record_count st + 1) -> iterators st' = iterators st -> others st' = others st -> hash_size st' = hash_size st ->
  chains (hash_size st') (hash_table st') (fun x k' => keyed None st x k' \/ x = p /\ k' = k) ->
  inv E (Some p) None None (es ++ [Some (k, Undefined)]) cs (at_end pos p es) st'.
Proof.
  intros Hi Hp0 Hp Hk Hnew E1 E2 E3 E4 E5 E6 E7 Hch. pose proof (fun x => pos_lt _ _ _ _ _ _ _ _ x Hi) as Hlt.
  open_inv Hi. set (nr := MkMapRecord 1 false k Undefined) in *.
  assert (Hpos : forall x, is_Some (recs st !! x) -> at_end pos p es x = pos x).
  { intros x [mr Hx]. unfold at_end. destruct (Z.eqb_spec x p); [congruence|done]. }
  assert (Hkeyed : forall x k', keyed None st' x k' <-> keyed None st x k' \/ x = p /\ k' = k).
  { intros x k'. unfold keyed. rewrite E2. split.
    - intros (mr & Hx & Hl & Hkx). destruct (decide (x = p)) as [->|Hne]; [rewrite lookup_insert_eq in Hx; simplify_eq; by right|].
      rewrite lookup_insert_ne in Hx by done. left. by exists mr.
    - intros [(mr & Hx & Hl & Hkx)|[-> ->]]; [exists mr; rewrite lookup_insert_ne by congruence; done|exists nr; by rewrite lookup_insert_eq]. }
  assert (Hw : forall q, sum_with (weight (Some p) None q) (recs st') = is_ref q k + sum_with (weight None None q) (recs st)).
  { intros q. rewrite E2, sum_insert by done. unfold weight at 1. cbn [empty nr key]. rewrite decide_False, decide_True by done. rewrite Z.add_0_r. f_equal.
    apply sum_ext. intros x mr Hx. unfold weight. destruct (empty mr); [done|]. rewrite !decide_False by congruence. done. }
  split; rewrite ?E1, ?E3, ?E4, ?E5, ?E6; try done.
  - apply sorted_snoc.
    + clear -Isorted Hpos Imem. assert (Hall : forall x, x ∈ records st -> is_Some (recs st !! x)) by (intros x; apply Imem). clear Imem.
      induction Isorted as [|x l Hs IH Hf]; [constructor|]. constructor; [apply IH; intros y Hy; apply Hall; by constructor|].
      rewrite list.Forall_forall in *. intros y Hy. rewrite !Hpos by (apply Hall; constructor; done). by apply Hf.
    + intros x Hx%Imem. rewrite Hpos by done. unfold at_end. rewrite Z.eqb_refl. by apply Hlt.
  - intros x. rewrite elem_of_app, list_elem_of_singleton, Imem, E2, lookup_insert_is_Some. split; [intros [H| ->]; [destruct (decide (p = x)); [by left|by right]|by left]|].
    intros [->|[_ H]]; [by right|by left].
  - by rewrite E2, lookup_insert_ne.
  - intros x mr. rewrite E2. destruct (decide (x = p)) as [->|Hne].
    + rewrite lookup_insert_eq. intros [= <-]. unfold at_end. rewrite Z.eqb_refl. exists (Some (k, Undefined)). split; [by rewrite lookup_app_r, Nat.sub_diag|].
      unfold rec_entry. cbn [empty nr key value]. rewrite decide_False by done. exists Undefined. split; [done|by left].
    + rewrite lookup_insert_ne by done. intros Hx. rewrite Hpos by (by eexists). destruct (Irec x mr Hx) as (e & He & Hr). exists e.
      split; [by apply lookup_app_l_Some|]. unfold rec_entry in *. destruct (empty mr); [done|]. rewrite decide_False in * by done.
      destruct Hr as (w & -> & Hw'). exists w. split; [done|]. right. by destruct Hw' as [|].
  - intros i kv Hes. rewrite lookup_app_Some in Hes. destruct Hes as [Hes|[Hge Hes]].
    + destruct (Ifull i kv Hes) as (x & mr & Hx & Hl & Hpx). exists x, mr. rewrite E2, lookup_insert_ne by congruence. rewrite Hpos by (by eexists). done.
    + apply list_lookup_singleton_Some in Hes as [Hz _]. exists p, nr. rewrite E2, lookup_insert_eq. split; [done|]. split; [done|].
      unfold at_end. rewrite Z.eqb_refl. lia.
  - intros x mr. rewrite E2, (locks_same _ _ st) by done. destruct (decide (x = p)) as [->|Hne].
    + rewrite lookup_insert_eq. intros [= <-]. rewrite (no_locks _ _ _ _ _ _ _ _ Hi Hp0 Hp). done.
    + rewrite lookup_insert_ne by done. apply Icount.
  - intros q it Hq Hl. destruct (Icursor q it Hq Hl) as (c & Hc1 & Hc2). exists c. split; [done|]. unfold cursor_ok in *.
    destruct (it_obj it); [|done]. destruct (_ =? 0); [done|]. destruct Hc2 as [Hc2 ->]. rewrite Hpos by done. split; [|done]. rewrite E2, lookup_insert_is_Some.
    destruct (decide (p = cur_record it)); [by left|by right].
  - intros q it Hq. rewrite Hw. destruct (Iuses q it Hq) as [H1 H2]. rewrite uses_cons_ref in H1. split; [lia|done].
  - intros q. rewrite Hw. intros H. apply Irefs. rewrite uses_cons_ref. lia.
  - apply chains_hash; [rewrite E7; apply (ha_size Ihash)|by eapply chains_ext; [|exact Hch]|..].
    + intros x k' [Hx|[-> ->]]%Hkeyed; [by eapply (ha_keys Ihash)|done].
    + intros x y k1 k2 [Hx|[-> ->]]%Hkeyed [Hy|[-> ->]]%Hkeyed Hc; [by eapply (ha_apart Ihash)|by apply Hnew in Hx|symmetry in Hc; by apply Hnew in Hy|done].
  - rewrite Isize, live_count_app, decide_True by done. rewrite !Z.add_0_r. unfold wrap. by rewrite Zplus_mod_idemp_l.
Qed.

Lemma add_record_spec E es cs pos st k : inv E None None None es cs pos st -> key_ok k -> known st k ->
  (forall q k', keyed None st q k' -> canonical k' <> canonical k) ->
  yields (map_add_record k st) (fun '(r, st') => keeps_known st st' /\ others st' = others st /\ match r with
    | None => inv E None None None es cs pos st'
    | Some p => p <> 0 /\ recs st' !! p = Some (MkMapRecord 1 false k Undefined) /\ at_end pos p es p = length es /\
        inv E (Some p) None None (es ++ [Some (k, Undefined)]) cs (at_end pos p es) st'
    end).
Proof.
  intros Hi Hk Hkn Hnew. unfold map_add_record. destruct (state_malloc_spec 88 st) as (r & m & -> & Hr). destruct r as [p|].
  2:{ cbn. split; [by intros v|]. split; [done|]. by apply (inv_same _ _ _ _ _ _ _ st). }
  destruct (Hr p eq_refl) as (Hp0 & Hp & _ & _ & _). clear Hr. set (st1 := set_mem m st).
  assert (Hi1 : inv E None None None es cs pos st1) by (by apply (inv_same _ _ _ _ _ _ _ st)).
  change (is_weak st1) with (is_weak st). rewrite (i_strong Hi). cbn [mbind outcome_bind mret outcome_ret].
  destruct (dup_value_spec E k None None es cs pos st1 Hi1 Hkn) as (Hi2 & Hrec2 & Hk2). set (st2 := JS_DupValue k st1) in *.
  destruct (map_hash_key_spec k Hk) as (h & Eh & _). rewrite Eh. cbn [mbind outcome_bind]. pose proof (i_hash Hi2) as Hh2. pose proof (ha_size Hh2) as Hsz.
  assert (Hkeyed : forall q k', keyed None st2 q k' <-> keyed None st q k') by (intros q k'; unfold keyed; by rewrite Hrec2).
  apply yields_bind. eapply yields_mono; [apply (chains_add _ _ _ p k h (hash_chains _ _ Hh2)); [lia| |exact Eh]|].
  { intros k' (mr & Hx & _). rewrite Hrec2 in Hx. change (recs st1) with (recs st) in Hx. congruence. }
  intros tab Hch. cbn beta. set (st4 := set_records _ _ _). assert (Hi4 : inv E (Some p) None None (es ++ [Some (k, Undefined)]) cs (at_end pos p es) st4).
  { apply (inv_append E es cs pos st2 st4 p k Hi2 Hp0); [by rewrite Hrec2|done| |done..]. intros q k' Hq. apply (Hnew q k'), Hkeyed, Hq. }
  apply yields_bind. apply (yields_mono _ (fun st5 => inv E (Some p) None None (es ++ [Some (k, Undefined)]) cs (at_end pos p es) st5 /\ recs st5 = recs st4 /\
    iterators st5 = iterators st4 /\ others st5 = others st4)).
  - destruct (_ >=? _); [|done]. eapply yields_mono; [apply (resize_spec _ _ _ _ _ _ _ Hi4)|]. intros st5 (H1 & H2 & H3 & H4 & _). done.
  - intros st5 (Hi5 & H2 & H3 & H4). cbn. split; [|split; [rewrite H4; apply Hk2|split; [done|split; [|split; [|done]]]]].
    + intros v Hv. apply (dup_known k st1) in Hv. unfold known in *. destruct v; try done. by rewrite H3, H4.
    + rewrite H2. apply lookup_insert_eq.
    + unfold at_end. by rewrite Z.eqb_refl.
Qed.

(** ** Setting a value *)

(** The value of a record is about to be given up. *)
Lemma make_stale E es cs pos st p mr : inv E None None None es cs pos st -> recs st !! p = Some mr -> empty mr = false ->
  inv (value mr :: E) (Some p) None None es cs pos st.
Proof.
  intros Hi Hp He. open_inv Hi. assert (Hw : forall q, sum_with (weight None None q) (recs st) = is_ref q (value mr) + sum_with (weight (Some p) None q) (recs st)).
  { intros q. rewrite !(sum_delete _ _ p mr Hp). unfold weight at 1 3. rewrite He. rewrite !decide_False, decide_True by done.
    assert (sum_with (weight None None q) (delete p (recs st)) = sum_with (weight (Some p) None q) (delete p (recs st))); [|lia].
    apply sum_ext. intros x nr Hx. apply lookup_delete_Some in Hx as [Hne _]. unfold weight. destruct (empty nr); [done|]. rewrite !decide_False by congruence. done. }
  split; try done.
  - intros x nr Hx. destruct (Irec x nr Hx) as (e & He' & Hr). exists e. split; [done|]. unfold rec_entry in *. destruct (empty nr); [done|].
    rewrite decide_False in * by done. destruct Hr as (w & -> & Hr). exists w. split; [done|]. right. by destruct Hr.
  - intros q it Hq. rewrite uses_cons_ref. destruct (Iuses q it Hq) as [H1 H2]. rewrite Hw in H1. split; [lia|done].
  - intros q Hq. apply Irefs. rewrite Hw. rewrite uses_cons_ref in Hq. lia.
Qed.

(** The new value of the stale record. *)
Lemma put_value E es cs pos st p mr v : inv (v :: E) (Some p) None None es cs pos st -> recs st !! p = Some mr -> empty mr = false ->
  inv E None None None (<[pos p := Some (key mr, v)]> es) cs pos (put_rec p (MkMapRecord (ref_count mr) false (key mr) v) st).
Proof.
  intros Hi Hp He. open_inv Hi. set (mr' := MkMapRecord _ _ _ _). destruct (Irec p mr Hp) as (e & Hes & Hr). pose proof (lookup_lt_Some _ _ _ Hes) as Hlt.
  assert (Hlive : is_Some e). { unfold rec_entry in Hr. rewrite He, decide_False in Hr by done. destruct Hr as (w & -> & _). by eexists. }
  assert (Hw : forall q, sum_with (weight None None q) (<[p := mr']> (recs st)) = is_ref q v + sum_with (weight (Some p) None q) (recs st)).
  { intros q. rewrite (sum_delete _ (recs st) p mr Hp), <- insert_delete_eq, sum_insert by apply lookup_delete_eq. unfold weight at 1 3. rewrite He. cbn [empty mr' key value].
    rewrite !decide_False, decide_True by done.
    assert (sum_with (weight None None q) (delete p (recs st)) = sum_with (weight (Some p) None q) (delete p (recs st))); [|lia].
    apply sum_ext. intros x nr Hx. apply lookup_delete_Some in Hx as [Hne _]. unfold weight. destruct (empty nr); [done|]. rewrite !decide_False by congruence. done. }
  assert (Hinj : forall x, is_Some (recs st !! x) -> pos x = pos p -> x = p) by (intros x Hx; by apply (pos_inj _ _ _ _ _ _ _ _ x p Hi Hx); eexists).
  assert (Hkeyed : forall x k, keyed None st x k <-> keyed None (put_rec p mr' st) x k).
  { intros x k. unfold keyed. cbn [recs put_rec set_recs]. destruct (decide (x = p)) as [->|Hne].
    - rewrite lookup_insert_eq, Hp. split; intros (nr & [= <-] & [_ Hd] & Hk); eexists; done.
    - by rewrite lookup_insert_ne. }
  split; cbn [is_weak records recs put_rec set_recs record_count iterators others]; try done.
  - intros x. rewrite Imem, lookup_insert_is_Some. destruct (decide (p = x)) as [->|]; [split; [by left|by eexists]|split; [by right|by intros [|[]]]].
  - rewrite lookup_insert_ne; [done|]. intros ->. congruence.
  - intros x nr Hx. destruct (decide (x = p)) as [->|Hne].
    + rewrite lookup_insert_eq in Hx. injection Hx as <-. eexists. split; [by apply list_lookup_insert_eq|]. unfold rec_entry. cbn [empty mr']. rewrite decide_False by done.
      exists v. split; [done|by right].
    + rewrite lookup_insert_ne in Hx by done. destruct (Irec x nr Hx) as (f & Hf & Hrf). exists f.
      split; [rewrite list_lookup_insert_ne; [done|intros Heq; apply Hne, Hinj; [by eexists|done]]|]. unfold rec_entry in *. destruct (empty nr); [done|].
      rewrite decide_False in * by done. destruct Hrf as (w & -> & Hrf). exists w. split; [done|]. right. destruct Hrf as [Hrf|]; [congruence|done].
  - intros i kv Hi'. destruct (decide (i = pos p)) as [->|Hne]; [exists p, mr'; by rewrite lookup_insert_eq|].
    rewrite list_lookup_insert_ne in Hi' by done. destruct (Ifull i kv Hi') as (x & nr & Hx & Hl & Hpx). exists x, nr. rewrite lookup_insert_ne by (intros ->; congruence). done.
  - intros x nr Hx. rewrite (locks_same _ _ st) by done. destruct (decide (x = p)) as [->|Hne].
    + rewrite lookup_insert_eq in Hx. injection Hx as <-. destruct (Icount p mr Hp) as [H1 H2]. by rewrite He in H1.
    + rewrite lookup_insert_ne in Hx by done. by apply Icount.
  - intros q it Hq Hl. destruct (Icursor q it Hq Hl) as (c & Hc1 & Hc2). exists c. split; [done|]. unfold cursor_ok in *.
    destruct (it_obj it); [|done]. destruct (_ =? 0); [done|]. destruct Hc2 as [Hc2 ->]. split; [|done]. cbn [recs put_rec set_recs]. rewrite lookup_insert_is_Some.
    destruct (decide (p = cur_record it)); [by left|by right].
  - intros q it Hq. rewrite Hw. destruct (Iuses q it Hq) as [H1 H2]. rewrite uses_cons_ref in H1. split; [lia|done].
  - intros q. rewrite Hw. intros H. apply Irefs. rewrite uses_cons_ref. lia.
  - by apply (hash_ok_keyed None None st).
  - rewrite Isize. f_equal. rewrite (live_count_insert es (pos p) e) by done. rewrite !decide_True by done. lia.
Qed.
End Ops.
