(* ===== verification/MapEdit.v ===== *)
(** * Deleting a record, and the methods that look up, set and delete *)

From stdpp Require Import gmap sorting.
From S2P Require Import Prelude Sums Cutils Alloc Equality MapSet MapInv MapOps.
#[local] Open Scope Z_scope.

Section Edit.
Context {HM : Malloc} {HU : MallocUsable}.

(** ** Deleting a record *)

Lemma weight_dying q p mr (R : gmap Z JSMapRecord) : R !! p = Some mr -> empty mr = false ->
  sum_with (weight None None q) R = is_ref q (key mr) + is_ref q (value mr) + sum_with (weight None (Some p) q) R.
Proof.
  intros Hp He. rewrite !(sum_delete _ R p mr Hp). unfold weight at 1 3. rewrite He, !decide_False, decide_True by done.
  rewrite (sum_ext (weight None (Some p) q) (weight None None q)); [lia|]. intros x nr Hx. apply lookup_delete_Some in Hx as [Hne _].
  unfold weight. rewrite (decide_False (P := Some p = Some x)) by congruence. done.
Qed.

(** The record [p] leaves the hash table; its references are still to be released. *)
Lemma inv_dying E es cs pos st p mr tab : inv E None None None es cs pos st -> recs st !! p = Some mr -> empty mr = false ->
  chains (hash_size st) tab (fun x k => keyed None st x k /\ x <> p) ->
  inv (key mr :: value mr :: E) None (Some p) None (<[pos p := None]> es) cs pos (set_hash tab (hash_size st) (record_count_threshold st) st).
Proof.
  intros Hi Hp He Hch. open_inv Hi. destruct (Irec p mr Hp) as (e & Hes & Hr). pose proof (lookup_lt_Some _ _ _ Hes) as Hlt.
  pose proof (fun q => weight_dying q p mr _ Hp He) as Hw.
  assert (Hkeyed : forall x k, keyed None st x k /\ x <> p <-> keyed (Some p) (set_hash tab (hash_size st) (record_count_threshold st) st) x k).
  { intros x k. unfold keyed, linked. cbn [recs set_hash]. split; [intros [(nr & Hx & [? _] & Hk) Hne]; exists nr; naive_solver|].
    intros (nr & Hx & [? Hne] & Hk). split; [by exists nr|congruence]. }
  split; cbn [is_weak records recs set_hash record_count iterators others]; try done.
  - intros x nr Hx. destruct (decide (x = p)) as [->|Hne].
    + assert (nr = mr) as -> by congruence. exists None. split; [by apply list_lookup_insert_eq|]. unfold rec_entry. by rewrite He, decide_True.
    + destruct (Irec x nr Hx) as (f & Hf & Hrf). exists f.
      split; [rewrite list_lookup_insert_ne; [done|intros Heq; apply Hne, (pos_inj _ _ _ _ _ _ _ _ x p Hi); [by eexists..|done]]|].
      unfold rec_entry in *. rewrite (decide_False (P := Some p = Some x)) by congruence. done.
  - intros i kv Hes'. destruct (decide (i = pos p)) as [->|Hne]; [by rewrite list_lookup_insert_eq in Hes'|]. rewrite list_lookup_insert_ne in Hes' by done.
    destruct (Ifull i kv Hes') as (x & nr & Hx & [Hl _] & Hpx). exists x, nr. split; [done|]. split; [|done]. split; [done|congruence].
  - intros q it Hq. destruct (Iuses q it Hq) as [H1 H2]. rewrite Hw in H1. rewrite !uses_cons_ref. split; [lia|done].
  - intros q Hq. apply Irefs. rewrite Hw. rewrite !uses_cons_ref in Hq. lia.
  - apply chains_hash; cbn [hash_size hash_table set_hash]; [apply (ha_size Ihash)|by eapply chains_ext; [exact Hkeyed|]|..].
    + intros x k [Hx _]%Hkeyed. by eapply (ha_keys Ihash).
    + intros x y k1 k2 [Hx _]%Hkeyed [Hy _]%Hkeyed. by eapply (ha_apart Ihash).
  - rewrite Isize, (live_count_insert es (pos p) e) by done.
    assert (is_Some e). { unfold rec_entry in Hr. rewrite He, decide_False in Hr by done. destruct Hr as (w & -> & _). by eexists. }
    rewrite (decide_True (P := is_Some e)), (decide_False (P := is_Some None)) by (done || by intros []). f_equal. lia.
Qed.
Lemma weight_dead q p mr (R : gmap Z JSMapRecord) : R !! p = Some mr -> empty mr = false ->
  sum_with (weight None (Some p) q) R = sum_with (weight None None q) (delete p R).
Proof.
  intros Hp He. rewrite (sum_delete _ R p mr Hp). unfold weight at 1. rewrite He, decide_True by done. rewrite Z.add_0_l.
  apply sum_ext. intros x nr Hx. apply lookup_delete_Some in Hx as [Hne _]. unfold weight. rewrite (decide_False (P := Some p = Some x)) by congruence. done.
Qed.

(** The dying record is freed, or kept empty for the iterators that stand on it. *)
Definition bury (p : Z) (mr : JSMapRecord) (st : State) : State :=
  if ref_count mr - 1 =? 0 then set_records (filter (fun q => q <> p) (records st)) (record_count st) (set_recs (delete p (recs st)) st)
  else put_rec p (MkMapRecord (ref_count mr - 1) true Undefined Undefined) st.
Lemma inv_buried E es cs pos st p mr : inv E None (Some p) None es cs pos st -> recs st !! p = Some mr -> empty mr = false ->
  inv E None None None es cs pos (set_records (records (bury p mr st)) (u32 (record_count st - 1)) (bury p mr st)).
Proof.
  intros Hi Hp He. open_inv Hi. destruct (Icount p mr Hp) as [Hn Hpos]. rewrite He in Hn.
  pose proof (fun q => weight_dead q p mr _ Hp He) as Hw. destruct (Irec p mr Hp) as (e & Hes & Hr). unfold rec_entry in Hr. rewrite He, decide_True in Hr by done. subst e.
  assert (Hkeyed : forall R' x k, delete p R' = delete p (recs st) -> (forall nr, R' !! p = Some nr -> empty nr = true) ->
    (keyed (Some p) st x k <-> exists nr, R' !! x = Some nr /\ linked None x nr /\ key nr = k)).
  { intros R' x k ER Hem. unfold keyed, linked. assert (HR : x <> p -> R' !! x = recs st !! x).
    { intros Hne. by rewrite <- (lookup_delete_ne R' p x), ER, lookup_delete_ne. }
    split; intros (nr & Hx & [He' Hd] & Hk); exists nr.
    - rewrite HR by congruence. done.
    - assert (x <> p) by (intros ->; rewrite (Hem nr Hx) in He'; done). rewrite <- HR by done. split; [done|]. split; [|done]. split; [done|congruence]. }
  assert (Hsz : u32 (record_count st - 1) = u32 (live_count es + (if None : option Z then 1 else 0))).
  { rewrite Isize. cbn. unfold wrap. rewrite Zminus_mod_idemp_l. f_equal. lia. }
  assert (Hfull : forall i kv, es !! i = Some (Some kv) -> exists x nr, x <> p /\ recs st !! x = Some nr /\ linked None x nr /\ pos x = i).
  { intros i kv Hi'. destruct (Ifull i kv Hi') as (x & nr & Hx & [Hl1 Hl2] & Hpx). exists x, nr. split; [congruence|]. split; [done|]. by split. }
  assert (Hrec : forall x nr, x <> p -> recs st !! x = Some nr -> exists e, es !! pos x = Some e /\ rec_entry None None x nr e).
  { intros x nr Hne Hx. destruct (Irec x nr Hx) as (e & He1 & Hr). exists e. split; [done|]. unfold rec_entry in *. by rewrite (decide_False (P := Some p = Some x)) in Hr by congruence. }
  unfold bury. destruct (Z.eqb_spec (ref_count mr - 1) 0) as [H1|H1].
  - split; cbn [is_weak records recs set_records set_recs iterators others record_count]; try done.
    + by apply sorted_filter.
    + intros x. rewrite list_elem_of_filter, Imem, lookup_delete_is_Some. split; intros [? ?]; split; congruence.
    + by rewrite lookup_delete_ne by (intros ->; congruence).
    + intros x nr [Hne Hx]%lookup_delete_Some. by apply Hrec.
    + intros i kv Hi'. destruct (Hfull i kv Hi') as (x & nr & Hne & Hx & Hl & Hpx). exists x, nr. by rewrite lookup_delete_ne.
    + intros x nr [Hne Hx]%lookup_delete_Some. rewrite (locks_same _ _ st) by done. by apply Icount.
    + intros y jt Hy Hne. destruct (Icursor y jt Hy Hne) as (c & Hc1 & Hc2). exists c. split; [done|]. unfold cursor_ok in *.
      destruct (it_obj jt) eqn:Hoj; [|done]. destruct (Z.eqb_spec (cur_record jt) 0); [done|]. destruct Hc2 as [Hc2 ->]. split; [|done].
      cbn [recs set_records set_recs]. rewrite lookup_delete_ne; [done|]. intros Heq. apply (locks_zero None p st y jt); [lia|done..].
    + intros q it Hq. rewrite <- Hw. by apply Iuses.
    + intros q. rewrite <- Hw. apply Irefs.
    + apply (hash_ok_keyed (Some p) None st); [done|done| |done]. intros x k. apply (Hkeyed (delete p (recs st))); [by rewrite delete_delete_eq|by rewrite lookup_delete_eq].
  - set (zr := MkMapRecord (ref_count mr - 1) true Undefined Undefined) in *.
    assert (Hz : forall q, sum_with (weight None None q) (<[p := zr]> (recs st)) = sum_with (weight None None q) (delete p (recs st))).
    { intros q. rewrite <- insert_delete_eq, sum_insert by apply lookup_delete_eq. done. }
    split; cbn [is_weak records recs set_records put_rec set_recs iterators others record_count]; try done.
    + intros x. rewrite Imem, lookup_insert_is_Some. destruct (decide (p = x)) as [->|]; [split; [by left|by eexists]|split; [by right|by intros [|[]]]].
    + rewrite lookup_insert_ne; [done|]. intros ->. congruence.
    + intros x nr [[<- <-]|[Hne Hx]]%lookup_insert_Some; [by exists None|]. by apply Hrec.
    + intros i kv Hi'. destruct (Hfull i kv Hi') as (x & nr & Hne & Hx & Hl & Hpx). exists x, nr. by rewrite lookup_insert_ne.
    + intros x nr. rewrite (locks_same _ _ st) by done. intros [[<- <-]|[Hne Hx]]%lookup_insert_Some; [|by apply Icount]. cbn [ref_count empty zr].
      pose proof (locks_nonneg None p st). lia.
    + intros y jt Hy Hne. destruct (Icursor y jt Hy Hne) as (c & Hc1 & Hc2). exists c. split; [done|]. unfold cursor_ok in *.
      destruct (it_obj jt); [|done]. destruct (_ =? 0); [done|]. destruct Hc2 as [Hc2 ->]. split; [|done]. cbn [recs set_records put_rec set_recs].
      rewrite lookup_insert_is_Some. destruct (decide (p = cur_record jt)); [by left|by right].
    + intros q it Hq. rewrite Hz, <- Hw. by apply Iuses.
    + intros q. rewrite Hz, <- Hw. apply Irefs.
    + apply (hash_ok_keyed (Some p) None st); [done|done| |done]. intros x k. apply (Hkeyed (<[p := zr]> (recs st))); [by rewrite delete_insert_eq|]. intros nr. rewrite lookup_insert_eq. by intros [= <-].
Qed.

(** A value that is not an iterator of the map. *)
Definition inert (st : State) (v : JSValue) : Prop := match v with Object q => iterators st !! q = None | _ => True end.
Lemma free_value_inert v st : inert st v -> JS_FreeValue v st = Ret (emit (FreeValue v) st).
Proof. unfold JS_FreeValue. destruct v as [| | | | | | |q|]; try done. cbn. by intros ->. Qed.

Definition quiet (p : Z) (st st' : State) : Prop :=
  iterators st' = iterators st /\ (records st' = records st \/ records st' = filter (fun q => q <> p) (records st)) /\
  (forall x, x <> p -> recs st' !! x = recs st !! x) /\ (forall mr, recs st' !! p = Some mr -> empty mr = true).

Lemma release_spec E v w stale dying es cs pos st : inv (v :: w :: E) stale dying None es cs pos st ->
  yields (JS_FreeValue v st) (fun st1 => yields (JS_FreeValue w st1) (fun st2 => inv E stale dying None es cs pos st2 /\ keeps st st2 /\
    (inert st v -> inert st w -> st2 = emit (FreeValue w) (emit (FreeValue v) st))) /\ keeps st st1).
Proof.
  intros Hi. pose proof (free_value_spec _ _ _ _ _ _ _ _ Hi) as H1. apply yields_Ret in H1 as (st1 & E1 & Hi1 & Hk1). rewrite E1. cbn. split; [|done].
  pose proof (free_value_spec _ _ _ _ _ _ _ _ Hi1) as H2. apply yields_Ret in H2 as (st2 & E2 & Hi2 & Hk2). rewrite E2. cbn. split; [done|]. split; [by eapply keeps_trans|].
  intros Hv Hw. rewrite (free_value_inert v) in E1 by done. injection E1 as <-. rewrite (free_value_inert w) in E2 by done. by injection E2 as <-.
Qed.

Lemma delete_record_spec E es cs pos st p mr : inv E None None None es cs pos st -> recs st !! p = Some mr -> empty mr = false ->
  yields (map_delete_record p st) (fun st' => inv E None None None (<[pos p := None]> es) cs pos st' /\ others st' = others st /\
    (inert st (key mr) -> inert st (value mr) -> quiet p st st')).
Proof.
  intros Hi Hp He. pose proof (i_hash Hi) as Hh. pose proof (ha_size Hh) as Hsz. unfold map_delete_record. rewrite (get_rec_eq _ _ _ Hp). cbn [mbind outcome_bind]. rewrite He.
  assert (Hkd : keyed None st p (key mr)) by (by exists mr).
  apply yields_bind. eapply yields_mono; [apply (chains_remove _ _ _ p (key mr) (hash_chains _ _ Hh)); [lia|done|by eapply ha_keys]|]. intros tab Hch. cbn beta.
  pose proof (inv_dying _ _ _ _ _ _ _ _ Hi Hp He Hch) as Hi1. set (st1 := set_hash _ _ _ st) in *. change (is_weak st1) with (is_weak st). rewrite (i_strong Hi).
  apply yields_bind. eapply yields_mono; [apply (release_spec _ _ _ _ _ _ _ _ _ Hi1)|]. intros st2 [H2 Hk2]. cbn beta.
  destruct (ks_rec _ _ Hk2 p mr Hp He) as [n2 Hp2]. rewrite (get_rec_eq _ _ _ Hp2). cbn [mbind outcome_bind value recount].
  apply yields_bind. eapply yields_mono; [exact H2|]. intros st3 (Hi3 & Hk3 & Hin). cbn beta.
  destruct (ks_rec _ _ Hk3 p mr Hp He) as [n3 Hp3]. rewrite (get_rec_eq _ _ _ Hp3). cbn [mbind outcome_bind].
  pose proof (inv_buried _ _ _ _ _ _ _ Hi3 Hp3 He) as Hi4.
  assert (Hb : (if ref_count (recount n3 mr) - 1 =? 0 then l ← list_del p (records st3); mret (set_records l (record_count st3) (set_recs (delete p (recs st3)) st3))
      else mret (put_rec p (MkMapRecord (ref_count (recount n3 mr) - 1) true Undefined Undefined) st3)) = Ret (bury p (recount n3 mr) st3)).
  { unfold bury. destruct (_ =? 0); [|done]. unfold list_del. by rewrite decide_True by (apply (i_mem Hi3); by eexists). }
  rewrite Hb. cbn [mbind outcome_bind mret outcome_ret yields]. assert (Hcnt : record_count (bury p (recount n3 mr) st3) = record_count st3) by (unfold bury; by destruct (_ =? 0)).
  rewrite Hcnt. split; [exact Hi4|]. split; [rewrite <- (ks_others _ _ Hk3 : others st3 = others st); unfold bury; by destruct (_ =? 0)|].
  intros Hk Hv. specialize (Hin Hk Hv). subst st3. unfold quiet, bury. destruct (_ =? 0); cbn; (split; [done|]).
  - split; [by right|]. split; [intros x Hx; by apply lookup_delete_ne|]. intros nr Hx. by rewrite lookup_delete_eq in Hx.
  - split; [by left|]. split; [intros x Hx; by apply lookup_insert_ne|]. intros nr. rewrite lookup_insert_eq. by intros [= <-].
Qed.

(** ** The methods *)

(** The entry with the key [k]. *)
Definition entry_at (es : list entry) (k : JSValue) (i : nat) (k' w : JSValue) : Prop := es !! i = Some (Some (k', w)) /\ canonical k' = canonical k.
Definition no_entry (es : list entry) (k : JSValue) : Prop := forall i k' w, es !! i = Some (Some (k', w)) -> canonical k' <> canonical k.
(** The client may pass [v]. *)
Definition bring (E : list JSValue) (objects : gset Z) (v : JSValue) : Prop := match v with Object q => q ∈ objects \/ Object q ∈ E | _ => True end.

Lemma bring_known E stale dying loose es cs pos st v : inv E stale dying loose es cs pos st -> bring E (others st) v -> known st v.
Proof.
  intros Hi Hv. destruct v as [| | | | | | |q|]; try done. destruct Hv as [Hv|Hv]; [by left|]. apply (i_refs Hi). pose proof (uses_in q E Hv).
  assert (0 <= sum_with (weight stale dying q) (recs st)) by (apply sum_nonneg; intros; apply record_weight_nonneg). lia.
Qed.
Lemma keyed_entry E es cs pos st p k : inv E None None None es cs pos st -> keyed None st p k ->
  exists mr, recs st !! p = Some mr /\ empty mr = false /\ key mr = k /\ es !! pos p = Some (Some (k, value mr)).
Proof.
  intros Hi (mr & Hp & [He _] & Hk). exists mr. split; [done|]. split; [done|]. split; [done|]. destruct (i_rec Hi p mr Hp) as (e & Hes & Hr). unfold rec_entry in Hr.
  rewrite He, decide_False in Hr by done. destruct Hr as (w & -> & [| ->]); [done|]. by rewrite Hes, Hk.
Qed.
Lemma entry_keyed E es cs pos st i k w : inv E None None None es cs pos st -> es !! i = Some (Some (k, w)) -> exists p, keyed None st p k /\ pos p = i.
Proof.
  intros Hi Hes. destruct (i_full Hi i _ Hes) as (p & mr & Hp & Hl & Hpos). exists p. split; [|done]. exists mr. split; [done|]. split; [done|].
  destruct (keyed_entry _ _ _ _ _ p (key mr) Hi) as (nr & Hp' & _ & _ & Hes'); [by exists mr|]. rewrite Hpos in Hes'. congruence.
Qed.

(** Looking for a key among the entries. *)
Lemma find_entry E es cs pos st k : inv E None None None es cs pos st -> key_ok k ->
  yields (map_find_record k st) (fun r => match r with
    | Some p => exists mr, recs st !! p = Some mr /\ empty mr = false /\ entry_at es k (pos p) (key mr) (value mr)
    | None => no_entry es k end).
Proof.
  intros Hi Hk. eapply yields_mono; [by eapply find_record_spec|]. intros [p|] Hr.
  - destruct Hr as (k' & Hkd & Hc). destruct (keyed_entry _ _ _ _ _ _ _ Hi Hkd) as (mr & Hp & He & <- & Hes). by exists mr.
  - intros i k' w Hes. destruct (entry_keyed _ _ _ _ _ _ _ _ Hi Hes) as (p & Hkd & _). by apply (Hr p).
Qed.

Lemma map_has_spec E es cs pos st k : inv E None None None es cs pos st -> key_ok (map_normalize_key k) ->
  yields (js_map_has k st) (fun r => if r then exists i k' w, entry_at es (map_normalize_key k) i k' w else no_entry es (map_normalize_key k)).
Proof.
  intros Hi Hk. unfold js_map_has. apply yields_bind. eapply yields_mono; [by apply (find_entry _ _ _ _ _ _ Hi Hk)|]. intros [p|] Hr; cbn; [|done].
  destruct Hr as (mr & _ & _ & He). by eexists _, _, _.
Qed.
Lemma map_get_spec E es cs pos st k : inv E None None None es cs pos st -> key_ok (map_normalize_key k) ->
  yields (js_map_get k st) (fun '(w, st') => inv (w :: E) None None None es cs pos st' /\ others st' = others st /\
    ((exists i k', entry_at es (map_normalize_key k) i k' w) \/ no_entry es (map_normalize_key k) /\ w = Undefined)).
Proof.
  intros Hi Hk. unfold js_map_get. apply yields_bind. eapply yields_mono; [by apply (find_entry _ _ _ _ _ _ Hi Hk)|]. intros [p|] Hr; cbn beta; cbn match.
  - destruct Hr as (mr & Hp & He & Hr). rewrite (get_rec_eq _ _ _ Hp). cbn [mbind outcome_bind mret outcome_ret yields].
    assert (Hkn : known st (value mr)).
    { destruct (value mr) as [| | | | | | |q|] eqn:Ev; try done. apply (i_refs Hi).
      pose proof (sum_ge (weight None None q) (recs st) p mr (fun _ _ => record_weight_nonneg _ _ _ _ _) Hp) as Hge. unfold weight at 1 in Hge.
      rewrite He, !decide_False, Ev, is_ref_object, Z.eqb_refl in Hge by done. pose proof (is_ref_nonneg q (key mr)). pose proof (uses_nonneg q E). lia. }
    destruct (dup_value_spec _ _ _ _ _ _ _ _ Hi Hkn) as (Hi1 & _ & Hk1). split; [done|]. split; [apply Hk1|]. left. by eexists _, _.
  - cbn [yields mret outcome_ret]. split; [|split; [done|by right]]. eapply inv_recount; [exact Hi|done..| | | | |]; apply Hi.
Qed.
Lemma map_delete_spec E es cs pos st k : inv E None None None es cs pos st -> key_ok (map_normalize_key k) ->
  yields (js_map_delete k st) (fun '(r, st') => others st' = others st /\
    if r : bool then exists i k' w, entry_at es (map_normalize_key k) i k' w /\ inv E None None None (<[i := None]> es) cs pos st'
    else no_entry es (map_normalize_key k) /\ inv E None None None es cs pos st').
Proof.
  intros Hi Hk. unfold js_map_delete. apply yields_bind. eapply yields_mono; [by apply (find_entry _ _ _ _ _ _ Hi Hk)|]. intros [p|] Hr; cbn beta; cbn match; [|done].
  destruct Hr as (mr & Hp & He & Hr). apply yields_bind. eapply yields_mono; [by apply (delete_record_spec _ _ _ _ _ _ _ Hi Hp He)|].
  intros st1 (Hi1 & Ho & _). cbn. split; [done|]. by eexists _, _, _.
Qed.

Context {Hbounded : MallocBounded} {Hpointer : 4 <= sizeof_pointer}.

(** The entries after [set]. *)
Definition entries_set (es : list entry) (k v : JSValue) (es' : list entry) : Prop :=
  (exists i k' w, entry_at es k i k' w /\ es' = <[i := Some (k', v)]> es) \/ no_entry es k /\ es' = es ++ [Some (k, v)].

(** The new value [v] of the stale record [p]. *)
Lemma set_stale_spec E es cs pos st p mr v : inv E (Some p) None None es cs pos st -> recs st !! p = Some mr -> empty mr = false -> known st v ->
  yields (mr ← get_rec p (JS_DupValue v st); mret (true, put_rec p (MkMapRecord (ref_count mr) (empty mr) (key mr) v) (JS_DupValue v st)))
    (fun '(r, st') => others st' = others st /\ r = true /\ inv E None None None (<[pos p := Some (key mr, v)]> es) cs pos st').
Proof.
  intros Hi Hp He Hv. destruct (dup_value_spec _ _ _ _ _ _ _ _ Hi Hv) as (Hi1 & Hr1 & Hk1). assert (Hp1 : recs (JS_DupValue v st) !! p = Some mr) by (by rewrite Hr1).
  rewrite (get_rec_eq _ _ _ Hp1). cbn [mbind outcome_bind mret outcome_ret yields]. rewrite He. split; [apply Hk1|]. split; [done|]. by apply put_value.
Qed.

Lemma map_set_spec is_set E es cs pos st k v : inv E None None None es cs pos st -> key_ok (map_normalize_key k) -> bring E (others st) (map_normalize_key k) -> bring E (others st) v ->
  yields (js_map_set is_set k v st) (fun '(r, st') => others st' = others st /\ exists es' pos', inv E None None None es' cs pos' st' /\
    if r : bool then entries_set es (map_normalize_key k) (if is_set then Undefined else v) es' else no_entry es (map_normalize_key k) /\ es' = es).
Proof.
  intros Hi Hk Hbk Hbv. unfold js_map_set. rewrite (i_strong Hi). cbn [andb]. set (k0 := map_normalize_key k) in *. set (v0 := if is_set then Undefined else v).
  assert (Hb0 : bring E (others st) v0) by (unfold v0; by destruct is_set). apply yields_bind.
  eapply yields_mono; [by apply (find_entry _ _ _ _ _ _ Hi Hk)|]. intros [p|] Hr; cbn beta; cbn match.
  - destruct Hr as (mr & Hp & He & Hat). rewrite (get_rec_eq _ _ _ Hp). cbn [mbind outcome_bind]. apply yields_bind. apply yields_bind.
    eapply yields_mono; [by apply free_value_spec, (make_stale _ _ _ _ _ p)|]. intros st1 (Hi1 & Hk1). cbn [yields mret outcome_ret].
    destruct (ks_rec _ _ Hk1 p mr Hp He) as [n Hp1]. assert (Hb1 : bring E (others st1) v0) by (by rewrite (ks_others _ _ Hk1)).
    eapply yields_mono; [apply (set_stale_spec _ _ _ _ _ p (recount n mr) v0 Hi1 Hp1 He); by eapply bring_known|].
    intros [r st2] (Ho & -> & Hi2). split; [rewrite Ho; apply Hk1|]. eexists _, pos. split; [exact Hi2|]. left. by eexists _, _, _.
  - apply yields_bind. eapply yields_mono; [apply (add_record_spec (Hpointer := Hpointer) _ _ _ _ _ k0 Hi Hk); [by eapply bring_known|]|].
    { intros q k' Hkd. destruct (keyed_entry _ _ _ _ _ _ _ Hi Hkd) as (mr & _ & _ & _ & Hes). by eapply Hr. }
    intros [[p|] st1] (Hkn & Ho & Hadd); cbn beta; cbn match.
    + destruct Hadd as (_ & Hp & Hpos & Hi1). eapply yields_mono; [apply (set_stale_spec _ _ _ _ _ p _ v0 Hi1 Hp); [done|apply Hkn; by eapply bring_known]|].
      intros [r st2] (Ho2 & -> & Hi2). split; [congruence|]. eexists _, _. split; [exact Hi2|]. right. split; [done|].
      rewrite Hpos. cbn [key]. by rewrite insert_app_r_alt, Nat.sub_diag by done.
    + cbn. split; [done|]. by exists es, pos.
Qed.
End Edit.
