(* ===== verification/MapIter.v ===== *)
(** * Traversals: clearing the map, creating and advancing iterators *)

From stdpp Require Import gmap sorting.
From S2P Require Import Prelude Sums Cutils Alloc Equality MapSet MapInv MapOps MapEdit.
#[local] Open Scope Z_scope.

Section Iter.
Context {HM : Malloc} {HU : MallocUsable}.

(** ** The next record *)

Definition first (l : list Z) : Z := match l with [] => 0 | p :: _ => p end.
Lemma next_in_spec l1 p l2 : p ∉ l1 -> next_in (l1 ++ p :: l2) p = Ret (first l2).
Proof.
  induction l1 as [|q l1 IH]; intros Hp; cbn [next_in app].
  - by rewrite Z.eqb_refl.
  - rewrite not_elem_of_cons in Hp. destruct Hp as [Hne Hp]. destruct (Z.eqb_spec q p); [congruence|]. by apply IH.
Qed.
Lemma records_next_spec E stale dying loose es cs pos st l1 p l2 : inv E stale dying loose es cs pos st -> records st = l1 ++ p :: l2 ->
  p <> 0 /\ records_next st p = Ret (first l2) /\ p ∉ l1 /\ is_Some (recs st !! p).
Proof.
  intros Hi Hl. assert (Hp : is_Some (recs st !! p)). { apply (i_mem Hi). rewrite Hl, elem_of_app. right. constructor. }
  assert (Hp0 : p <> 0). { intros ->. rewrite (i_zero Hi) in Hp. by destruct Hp. } split; [done|].
  pose proof (sorted_nodup pos _ (i_sorted Hi)) as Hnd. rewrite Hl in Hnd. apply list.NoDup_app in Hnd as (_ & Hd & _).
  assert (Hpl : p ∉ l1) by (intros Hin; apply (Hd p Hin); constructor).
  split; [|done]. unfold records_next. destruct (Z.eqb_spec p 0); [done|]. rewrite Hl. by apply next_in_spec.
Qed.
Lemma filter_out (p : Z) (l : list Z) : p ∉ l -> filter (fun q => q <> p) l = l.
Proof. intros Hp. apply filter_all_id. apply list.Forall_forall. intros q Hq ->. done. Qed.
Lemma filter_middle (p : Z) (l1 l2 : list Z) : NoDup (l1 ++ p :: l2) -> filter (fun q => q <> p) (l1 ++ p :: l2) = l1 ++ l2.
Proof.
  intros Hnd. apply list.NoDup_app in Hnd as (_ & Hd & Hnd). apply list.NoDup_cons in Hnd as [H2 _].
  rewrite list.filter_app, filter_cons. rewrite decide_False by congruence. rewrite !filter_out; [done|done|]. intros Hin. apply (Hd p Hin). constructor.
Qed.

(** ** Clearing *)

(** No key and no value is an iterator of the map. *)
Definition all_inert (st : State) : Prop := forall p mr, recs st !! p = Some mr -> empty mr = false -> inert st (key mr) /\ inert st (value mr).
Definition cleared (E : list JSValue) (es : list entry) (cs : gmap Z cursor) (pos : Z -> nat) (objects : gset Z) (st : State) : Prop :=
  others st = objects /\ inv E None None None (replicate (length es) None) cs pos st.

(** The records in front of the current one are empty. *)
Definition clearing (E : list JSValue) (es : list entry) (cs : gmap Z cursor) (pos : Z -> nat) (objects : gset Z) (n : nat) (s : State * Z * Z) : Prop :=
  let '(st, el, el1) := s in
  others st = objects /\ all_inert st /\ exists (es' : list entry) (l1 l2 : list Z), inv E None None None es' cs pos st /\ length es' = length es /\ records st = l1 ++ l2 /\
    Forall (fun p => forall mr, recs st !! p = Some mr -> empty mr = true) l1 /\ el = first l2 /\ n = length l2 /\
    match l2 with [] => True | _ :: l2 => el1 = first l2 end.

Lemma clear_done E (es es' : list entry) cs pos st : inv E None None None es' cs pos st -> length es' = length es -> Forall (fun p => forall mr, recs st !! p = Some mr -> empty mr = true) (records st) ->
  inv E None None None (replicate (length es) None) cs pos st.
Proof.
  intros Hi Hlen Hall. replace (replicate (length es) None) with es'; [done|]. symmetry. rewrite <- Hlen. apply replicate_as_elem_of. split; [done|].
  intros e He. apply list_elem_of_lookup_1 in He as [i He]. destruct e as [kv|]; [|done]. exfalso.
  destruct (i_full Hi i kv He) as (p & mr & Hp & [Hl _] & _). rewrite list.Forall_forall in Hall. rewrite (Hall p) with (mr := mr) in Hl; [done|apply (i_mem Hi); by eexists|done].
Qed.

(** The current record is deleted. *)
Lemma clear_delete E (es : list entry) cs pos objects st p l1 l2 : others st = objects -> all_inert st -> inv E None None None es cs pos st -> records st = l1 ++ p :: l2 ->
  Forall (fun q => forall mr, recs st !! q = Some mr -> empty mr = true) l1 ->
  yields (map_delete_record p st) (fun st' => others st' = objects /\ all_inert st' /\ exists (es' : list entry) (l1' : list Z), inv E None None None es' cs pos st' /\ length es' = length es /\
    records st' = l1' ++ l2 /\ Forall (fun q => forall mr, recs st' !! q = Some mr -> empty mr = true) l1').
Proof.
  intros Ho Hin Hi Hl Hall. destruct (records_next_spec _ _ _ _ _ _ _ _ _ _ _ Hi Hl) as (Hp0 & _ & Hpl & [mr Hp]).
  destruct (empty mr) eqn:He.
  - unfold map_delete_record. rewrite (get_rec_eq _ _ _ Hp). cbn [mbind outcome_bind]. rewrite He. cbn. split; [done|]. split; [done|].
    exists es, (l1 ++ [p]). split; [done|]. split; [done|]. split; [by rewrite <- app_assoc|]. apply Forall_app. split; [done|]. constructor; [|constructor]. congruence.
  - destruct (Hin p mr Hp He) as [Hk Hv]. eapply yields_mono; [by apply (delete_record_spec _ _ _ _ _ _ _ Hi Hp He)|].
    intros st1 (Hi1 & Ho1 & Hq). destruct (Hq Hk Hv) as (Hit & Hrec & Hother & Hself). split; [congruence|]. split.
    + intros x nr Hx Hex. destruct (decide (x = p)) as [->|Hne]; [rewrite (Hself nr Hx) in Hex; done|]. rewrite Hother in Hx by done.
      unfold inert. rewrite Hit. by apply (Hin x nr).
    + assert (Hall1 : forall l, (forall q, q ∈ l -> q ∈ l1 \/ q = p) -> Forall (fun q => forall mr, recs st1 !! q = Some mr -> empty mr = true) l).
      { intros l Hsub. apply list.Forall_forall. intros q Hq1 nr Hx. destruct (Hsub q Hq1) as [Hq2| ->]; [|by apply Hself].
        rewrite list.Forall_forall in Hall. apply (Hall q Hq2). rewrite <- Hother; [done|]. intros ->. done. }
      pose proof (sorted_nodup pos _ (i_sorted Hi)) as Hnd. rewrite Hl in *. rewrite filter_middle in Hrec by done.
      destruct Hrec as [Hrec|Hrec]; eexists _; [exists (l1 ++ [p])|exists l1]; (split; [exact Hi1|]; split; [apply length_insert|]).
      * rewrite <- app_assoc. split; [done|]. apply Hall1. intros q. by rewrite elem_of_app, list_elem_of_singleton.
      * split; [done|]. apply Hall1. by left.
Qed.

Lemma clear_step_spec E es cs pos objects n s : clearing E es cs pos objects n s ->
  yields (clear_step s) (fun x => match x with inl s' => exists n', (n' < n)%nat /\ clearing E es cs pos objects n' s' | inr st' => cleared E es cs pos objects st' end).
Proof.
  destruct s as [[st el] el1]. intros (Ho & Hin & es' & l1 & l2 & Hi & Hlen & Hl & Hall & -> & -> & Hel1). unfold clear_step. destruct l2 as [|p l2]; cbn [first].
  - cbn. split; [done|]. rewrite app_nil_r in Hl. apply (clear_done _ _ es'); [done|done|by rewrite Hl].
  - destruct (records_next_spec _ _ _ _ _ _ _ _ _ _ _ Hi Hl) as (Hp0 & _ & _ & _). destruct (Z.eqb_spec p 0) as [|_]; [done|].
    apply yields_bind. eapply yields_mono; [by apply (clear_delete _ _ _ _ objects _ _ _ _ Ho Hin Hi Hl)|].
    intros st1 (Ho1 & Hin1 & es1 & l1' & Hi1 & Hlen1 & Hl1 & Hall1). subst el1. destruct l2 as [|r l2]; cbn [first].
    + cbn. exists 0%nat. split; [cbn; lia|]. split; [done|]. split; [done|]. exists es1, l1', []. split; [done|]. split; [congruence|]. done.
    + destruct (records_next_spec _ _ _ _ _ _ _ _ _ _ _ Hi1 Hl1) as (_ & Hnext & _ & _). rewrite Hnext. cbn [mbind outcome_bind mret outcome_ret yields].
      exists (S (length l2)). split; [cbn; lia|]. split; [done|]. split; [done|]. exists es1, l1', (r :: l2). split; [done|]. split; [congruence|]. done.
Qed.

Lemma map_clear_spec E es cs pos st : inv E None None None es cs pos st -> all_inert st -> yields (js_map_clear st) (cleared E es cs pos (others st)).
Proof.
  intros Hi Hin. unfold js_map_clear. change (records_next st 0) with (Ret (first (records st))). cbn [mbind outcome_bind].
  assert (Hn : exists el1, records_next st (first (records st)) = Ret el1 /\ match records st with [] => True | _ :: l2 => el1 = first l2 end).
  { destruct (records st) as [|p l2] eqn:Hl; [by exists 0; unfold records_next; rewrite Hl|]. destruct (records_next_spec _ _ _ _ _ _ _ _ [] p l2 Hi Hl) as (_ & Hn & _). by exists (first l2). }
  destruct Hn as (el1 & -> & Hel1). cbn [mbind outcome_bind].
  apply (loop_yields_nat _ (clearing E es cs pos (others st)) _ (clear_step_spec E es cs pos (others st)) _ (length (records st))); [|lia].
  split; [done|]. split; [done|]. by exists es, [], (records st).
Qed.

(** ** Looking for the next entry *)

(** Entries from [i] to [j] are empty. *)
Definition all_empty (es : list entry) (i j : nat) : Prop := forall x kv, (i <= x < j)%nat -> es !! x <> Some (Some kv).
(** What [next] answers at the cursor [c], and the new cursor.  The cursor moves also when there is no memory for the array of an entry. *)
Definition item (is_set : bool) (kind : JSIteratorKindEnum) (k v : JSValue) : next_result :=
  match kind with
  | JS_ITERATOR_KIND_KEY => Item k
  | JS_ITERATOR_KIND_VALUE => Item (if is_set then k else v)
  | JS_ITERATOR_KIND_KEY_AND_VALUE => Array [k; if is_set then k else v]
  end.
Inductive advances (is_set : bool) (es : list entry) (kind : JSIteratorKindEnum) : option nat -> next_result -> option nat -> Prop :=
| advances_over : advances is_set es kind None Done None
| advances_end i : all_empty es i (length es) -> advances is_set es kind (Some i) Done None
| advances_item i j k v : (i <= j)%nat -> all_empty es i j -> es !! j = Some (Some (k, v)) -> advances is_set es kind (Some i) (item is_set kind k v) (Some (S j))
| advances_memory i j k v : kind = JS_ITERATOR_KIND_KEY_AND_VALUE -> (i <= j)%nat -> all_empty es i j -> es !! j = Some (Some (k, v)) ->
    advances is_set es kind (Some i) Exception (Some (S j)).

(** The records of [l2] are those from position [i] on. *)
Definition split_at (pos : Z -> nat) (st : State) (i : nat) (l2 : list Z) : Prop :=
  exists l1, records st = l1 ++ l2 /\ (forall x, x ∈ l1 -> (pos x < i)%nat) /\ (forall x, x ∈ l2 -> (i <= pos x)%nat).

Definition stops (pos : Z -> nat) (es : list entry) (st : State) (i : nat) (r : Z) : Prop :=
  if r =? 0 then all_empty es i (length es)
  else exists mr, recs st !! r = Some mr /\ empty mr = false /\ (i <= pos r)%nat /\ all_empty es i (pos r).

Lemma live_record E loose es cs pos st i kv : inv E None None loose es cs pos st -> es !! i = Some (Some kv) ->
  exists p mr, p ∈ records st /\ recs st !! p = Some mr /\ empty mr = false /\ pos p = i.
Proof. intros Hi Hes. destruct (i_full Hi i kv Hes) as (p & mr & Hp & [Hl _] & Hpos). exists p, mr. split; [apply (i_mem Hi); by eexists|done]. Qed.

Lemma skip_empty_spec E loose es cs pos st i l2 : inv E None None loose es cs pos st -> split_at pos st i l2 ->
  yields (loop (S (length (records st))) (skip_empty st) (first l2)) (stops pos es st i).
Proof.
  intros Hi (l1 & Hl & Hlow & Hhigh).
  set (I := fun (n : nat) (el : Z) => exists la lb, l2 = la ++ lb /\ el = first lb /\ n = length lb /\ (forall x mr, x ∈ la -> recs st !! x = Some mr -> empty mr = true)).
  apply (loop_yields_nat _ I _) with (n := length l2); [|by exists [], l2; repeat split; intros x mr Hx; apply elem_of_nil in Hx|rewrite Hl, length_app; lia].
  intros n el (la & lb & -> & -> & -> & Hla). unfold skip_empty.
  assert (Hout : forall j kv, (i <= j)%nat -> es !! j = Some (Some kv) -> exists x mr, x ∈ lb /\ recs st !! x = Some mr /\ empty mr = false /\ pos x = j).
  { intros j kv Hj Hes. destruct (live_record _ _ _ _ _ _ _ _ Hi Hes) as (x & mr & Hx & Hr & He & Hp). exists x, mr. split; [|done].
    rewrite Hl, !elem_of_app in Hx. destruct Hx as [Hx|[Hx|Hx]]; [specialize (Hlow x Hx); lia|by rewrite (Hla x mr Hx Hr) in He|done]. }
  destruct lb as [|p lb]; cbn [first].
  - cbn. unfold stops. cbn. intros x kv [Hx _] Hes. destruct (Hout x kv Hx Hes) as (y & mr & Hy & _). by apply elem_of_nil in Hy.
  - assert (Hl' : records st = (l1 ++ la) ++ p :: lb) by (by rewrite <- app_assoc). destruct (records_next_spec _ _ _ _ _ _ _ _ _ _ _ Hi Hl') as (Hp0 & Hnext & _ & [mr Hp]).
    destruct (Z.eqb_spec p 0); [done|]. rewrite (get_rec_eq _ _ _ Hp). cbn [mbind outcome_bind]. destruct (empty mr) eqn:He.
    + rewrite Hnext. cbn. exists (length lb). split; [lia|]. exists (la ++ [p]), lb. split; [by rewrite <- app_assoc|]. split; [done|]. split; [done|].
      intros x nr Hx Hr. apply elem_of_app in Hx as [Hx|Hx]; [by eapply Hla|]. apply list_elem_of_singleton in Hx as ->. congruence.
    + cbn. unfold stops. destruct (Z.eqb_spec p 0); [done|]. exists mr. split; [done|]. split; [done|]. split; [apply Hhigh; rewrite elem_of_app; right; constructor|].
      intros x kv [Hx1 Hx2] Hes. destruct (Hout x kv Hx1 Hes) as (y & nr & Hy & Hr & _ & <-). pose proof (i_sorted Hi) as Hs. rewrite Hl' in Hs.
      apply elem_of_cons in Hy as [->|Hy]; [lia|].
      assert (Hlt : (pos p < pos y)%nat); [|lia]. clear -Hs Hy. induction (l1 ++ la) as [|z l IH]; inversion Hs as [|? ? Hs' Hf]; subst; [|by apply IH].
      rewrite list.Forall_forall in Hf. by apply Hf.
Qed.

(** ** Moving an iterator *)

(** The loose iterator is at its end. *)
Lemma settle_end E es cs pos st q it : inv E None None (Some q) es cs pos st -> iterators st !! q = Some it ->
  inv E None None None es (<[q := (it_kind it, None)]> cs) pos (put_iterator q (MkIterator (it_count it) false (it_kind it) 0) st).
Proof.
  intros Hi Hq. open_inv Hi. eapply (inv_recount _ _ _ _ _ _ _ _ _ _ _ _ Hi); try done; cbn [iterators put_iterator set_iterators others recs].
  - intros p mr Hp. rewrite (locks_put p q it _ st Hq). cbn [it_obj]. rewrite Z.add_0_r. by apply Icount.
  - intros x jt [[<- <-]|[Hne Hx]]%lookup_insert_Some _; [exists None; by rewrite lookup_insert_eq|]. rewrite lookup_insert_ne by done. apply Icursor; [done|congruence].
  - intros x jt [[<- <-]|[Hne Hx]]%lookup_insert_Some; [by apply (Iuses q it)|by apply Iuses].
  - intros x Hx. rewrite lookup_insert_is_Some. destruct (decide (q = x)) as [|Hne]; [by right; left|]. destruct (Irefs x Hx); [by left|by right; right].
  - intros x Hx. rewrite lookup_insert_ne; [by apply Iothers|]. intros ->. rewrite (Iothers x Hx) in Hq. done.
Qed.
(** It locks the record [el]. *)
Lemma settle_at E es cs pos st q it el mr : inv E None None (Some q) es cs pos st -> iterators st !! q = Some it -> el <> 0 -> recs st !! el = Some mr ->
  inv E None None None es (<[q := (it_kind it, Some (S (pos el)))]> cs) pos
    (put_iterator q (MkIterator (it_count it) true (it_kind it) el) (put_rec el (recount (ref_count mr + 1) mr) st)).
Proof.
  intros Hi Hq Hel Hr. open_inv Hi. set (st1 := put_rec el _ st). assert (Hq1 : iterators st1 !! q = Some it) by done.
  eapply (inv_recount _ _ _ _ _ _ _ _ _ _ _ _ Hi); try done; cbn [iterators put_iterator set_iterators others recs st1 put_rec set_recs].
  - by apply content_insert.
  - intros p nr Hp. rewrite (locks_put p q it _ st1 Hq1). cbn [it_obj cur_record andb]. rewrite (locks_same _ _ st) by done.
    apply lookup_insert_Some in Hp as [[<- <-]|[Hne Hp]].
    + rewrite Z.eqb_refl. destruct (Icount el mr Hr). cbn [ref_count empty recount]. lia.
    + destruct (Z.eqb_spec el p); [done|]. rewrite Z.add_0_r. by apply Icount.
  - intros x jt Hx _. apply lookup_insert_Some in Hx as [[<- <-]|[Hne Hx]].
    + exists (Some (S (pos el))). rewrite lookup_insert_eq. split; [done|]. unfold cursor_ok. cbn [it_obj cur_record]. destruct (Z.eqb_spec el 0); [done|]. split; [|done].
      unfold st1. cbn [recs put_iterator set_iterators put_rec set_recs]. by rewrite lookup_insert_eq.
    + rewrite lookup_insert_ne by done. destruct (Icursor x jt Hx) as (c & Hc1 & Hc2); [congruence|]. exists c. split; [done|]. unfold cursor_ok in *.
      destruct (it_obj jt); [|done]. destruct (_ =? 0); [done|]. destruct Hc2 as [Hc2 ->]. split; [|done]. unfold st1. cbn [recs put_iterator set_iterators put_rec set_recs].
      rewrite lookup_insert_is_Some. destruct (decide (el = cur_record jt)); [by left|by right].
  - intros x jt [[<- <-]|[Hne Hx]]%lookup_insert_Some; [by apply (Iuses q it)|by apply Iuses].
  - intros x Hx. rewrite lookup_insert_is_Some. destruct (decide (q = x)) as [|Hne]; [by right; left|]. destruct (Irefs x Hx); [by left|by right; right].
  - intros x Hx. rewrite lookup_insert_ne; [by apply Iothers|]. intros ->. rewrite (Iothers x Hx) in Hq. done.
Qed.

Definition brought (r : next_result) : list JSValue := match r with Done | Exception => [] | Item v => [v] | Array vs => vs end.

(** The iterator leaves its record; its cursor is [i]. *)
Lemma leave_spec E es cs pos st q it i : inv E None None None es cs pos st -> iterators st !! q = Some it -> it_obj it = true -> cursor_ok pos st it (Some i) ->
  yields ('(el, st) ← (if cur_record it =? 0 then el ← records_next st 0; mret (el, st)
                 else el ← records_next st (cur_record it); st ← map_decref_record (cur_record it) st; mret (el, st)); mret (el, st))
    (fun '(el, st') => inv E None None (Some q) es cs pos st' /\ iterators st' = iterators st /\ others st' = others st /\ exists l2, split_at pos st' i l2 /\ el = first l2).
Proof.
  intros Hi Hq Ho Hc. unfold cursor_ok in Hc. rewrite Ho in Hc. destruct (Z.eqb_spec (cur_record it) 0) as [H0|H0].
  - injection Hc as ->. change (records_next st 0) with (Ret (first (records st))). cbn. split; [apply (loosen _ _ _ _ _ _ _ _ it Hi Hq); by rewrite H0, andb_false_r|].
    split; [done|]. split; [done|]. exists (records st). split; [|done]. exists []. split; [done|]. split; [intros x Hx; by apply elem_of_nil in Hx|lia].
  - destruct Hc as [Hp [= ->]]. set (p := cur_record it) in *. apply (i_mem Hi), list_elem_of_split in Hp as (l1 & l2 & Hl).
    destruct (records_next_spec _ _ _ _ _ _ _ _ _ _ _ Hi Hl) as (_ & -> & Hpl & _). cbn [mbind outcome_bind]. apply yields_bind. apply yields_bind.
    eapply yields_mono; [by apply (decref_spec _ _ _ _ _ _ _ q it Hi Hq Ho)|]. intros st1 (Hi1 & Hk1 & Hit1 & _ & Hrec). cbn.
    split; [done|]. split; [done|]. split; [apply Hk1|]. exists l2. split; [|done]. pose proof (i_sorted Hi) as Hs. pose proof (sorted_nodup pos _ Hs) as Hnd. rewrite Hl in Hs, Hnd.
    fold p in Hrec. rewrite Hl, filter_middle in Hrec by done.
    assert (Hlow : forall x, x ∈ l1 -> (pos x < S (pos p))%nat).
    { clear -Hs. induction l1 as [|z l1 IH]; intros x Hx; [by apply elem_of_nil in Hx|]. inversion Hs as [|? ? Hs' Hf]; subst. apply elem_of_cons in Hx as [->|Hx]; [|by apply IH].
      rewrite list.Forall_forall in Hf. specialize (Hf p). rewrite elem_of_app in Hf. specialize (Hf ltac:(right; constructor)). lia. }
    assert (Hhigh : forall x, x ∈ l2 -> (S (pos p) <= pos x)%nat).
    { clear -Hs. induction l1 as [|z l1 IH]; inversion Hs as [|? ? Hs' Hf]; subst; [|by apply IH]. intros x Hx. rewrite list.Forall_forall in Hf. by apply Hf. }
    destruct Hrec as [Hrec|Hrec]; [exists (l1 ++ [p])|by exists l1]. split; [by rewrite <- app_assoc|]. split; [|done].
    intros x. rewrite elem_of_app, list_elem_of_singleton. intros [Hx| ->]; [by apply Hlow|lia].
Qed.

Lemma value_known E es cs pos st p mr : inv E None None None es cs pos st -> recs st !! p = Some mr -> empty mr = false -> known st (key mr) /\ known st (value mr).
Proof.
  intros Hi Hp He. assert (H : forall q, is_ref q (key mr) + is_ref q (value mr) <= sum_with (weight None None q) (recs st)).
  { intros q. pose proof (sum_ge (weight None None q) (recs st) p mr (fun _ _ => record_weight_nonneg _ _ _ _ _) Hp) as Hge. unfold weight at 1 in Hge.
    by rewrite He, !decide_False in Hge by done. }
  split; [destruct (key mr) as [| | | | | | |q|]|destruct (value mr) as [| | | | | | |q|]]; try done; apply (i_refs Hi); specialize (H q); rewrite is_ref_object, Z.eqb_refl in H;
    pose proof (uses_nonneg q E); [pose proof (is_ref_nonneg q (value mr))|pose proof (is_ref_nonneg q (key mr))]; lia.
Qed.

(** ** The references of the client *)

Lemma uses_perm q E E' : E ≡ₚ E' -> uses q E = uses q E'.
Proof. induction 1; cbn; lia. Qed.
Lemma inv_perm E E' es cs pos st : E ≡ₚ E' -> inv E None None None es cs pos st -> inv E' None None None es cs pos st.
Proof. intros HE Hi. open_inv Hi. split; try done; intros q; rewrite <- (uses_perm q E E') by done; [apply Iuses|apply Irefs]. Qed.

(** ** The array of an entry *)

(** The allocator refuses a request of at most [k] bytes. *)
Definition refuses (k : Z) : Prop := exists m used n, n <= k /\ (js_malloc m used n).1 = None.
Lemma malloc_mem n st : exists r m, malloc n st = (r, set_mem m st) /\ (r = None -> refuses n).
Proof.
  unfold malloc. destruct (js_malloc (st_mem st) (blocks st) n) as [r m] eqn:E. exists r, m. split; [done|]. intros ->.
  exists (st_mem st), (blocks st), n. split; [lia|by rewrite E].
Qed.
Lemma refuses_le k n : k <= n -> refuses k -> refuses n.
Proof. intros Hk (m & used & x & Hx & H). exists m, used, x. split; [lia|done]. Qed.

Lemma array_finalizer_spec values E es cs pos : forall st, inv (values ++ E) None None None es cs pos st ->
  yields (js_array_finalizer values st) (fun st' => inv E None None None es cs pos st' /\ others st' = others st).
Proof.
  induction values as [|v values IH]; intros st Hi; cbn [js_array_finalizer]; [done|]. apply yields_bind.
  eapply yields_mono; [by apply (free_value_spec (values ++ E) v)|]. intros st1 [Hi1 Hk1]. eapply yields_mono; [by apply IH|]. intros st2 [Hi2 Ho2].
  split; [done|]. by rewrite Ho2, (ks_others _ _ Hk1).
Qed.
(** To give up a reference that was just taken changes nothing. *)
Lemma free_dup E es cs pos st v m : inv E None None None es cs pos st ->
  yields (JS_FreeValue v (set_mem m (JS_DupValue v st))) (same_map st).
Proof.
  intros Hi. unfold JS_FreeValue, JS_DupValue. destruct v as [| | | | | | |q|]; try done. cbn [iterators emit]. destruct (iterators st !! q) as [it|] eqn:Hq.
  - cbn [iterators put_iterator set_iterators emit set_mem]. rewrite lookup_insert_eq. cbn [it_count]. destruct (i_uses Hi q it Hq) as [_ Hpos].
    destruct (Z.leb_spec (it_count it + 1 - 1) 0); [lia|]. cbn. split; [done|]. do 5 (split; [done|]). split; [|done]. cbn.
    rewrite insert_insert_eq, insert_id; [done|]. rewrite Hq. destruct it. cbn. repeat f_equal. lia.
  - cbn [iterators set_mem emit]. by rewrite Hq.
Qed.
Lemma expand_array_spec p new_len st : 0 <= array_size p < new_len -> new_len <= 2 -> exists m, match (expand_fast_array p new_len st).1 with
  | Some p' => array_values p' = array_values p /\ 0 <= array_size p' | None => refuses 32 end /\ (expand_fast_array p new_len st).2 = set_mem m st.
Proof.
  intros Hs Hn. unfold expand_fast_array. destruct (malloc_mem (16 * u32 (Z.max (s32 new_len) (s32 (u32 (array_size p * 3) / 2)))) st) as (r & m & -> & Hr).
  exists m. destruct r; cbn [fst snd]; (split; [|done]); [split; [done|by apply wrap_range]|]. apply (refuses_le (16 * u32 (Z.max (s32 new_len) (s32 (u32 (array_size p * 3) / 2))))); [|by apply Hr].
  assert (H : (array_size p = 0 \/ array_size p = 1) /\ (new_len = 1 \/ new_len = 2)) by lia. destruct H as [[-> | ->] [-> | ->]]; by vm_compute.
Qed.
(** A reference that was just taken becomes an element, or is given up. *)
Lemma add_element_spec p v E es cs pos st : inv E None None None es cs pos st -> known st v -> 0 <= array_size p -> zlen (array_values p) < 2 ->
  yields (add_fast_array_element p v (JS_DupValue v st)) (fun '(ok, p', st') =>
    if ok : bool then array_values p' = array_values p ++ [v] /\ 0 <= array_size p' /\ exists m, st' = set_mem m (JS_DupValue v st)
    else array_values p' = array_values p /\ refuses 32 /\ same_map st st').
Proof.
  intros Hi Hv Hsize Hlen. unfold add_fast_array_element. set (n := u32 _). set (p1 := if n >? array_length p then _ else p).
  assert (Hp1 : array_values p1 = array_values p /\ array_size p1 = array_size p) by (unfold p1; by destruct (n >? _)). destruct Hp1 as [Hp1 Hs1].
  assert (Hn : n <= 2) by (unfold n; pose proof (zlen_nonneg (array_values p)); rewrite (wrap_small 32 (zlen (array_values p) + 1)); lia).
  destruct (Z.gtb_spec n (array_size p1)) as [Hgt|_].
  - destruct (expand_array_spec p1 n (JS_DupValue v st) ltac:(lia) Hn) as (m & Hr & Hst). destruct (expand_fast_array p1 n (JS_DupValue v st)) as [[p2|] st2]; cbn [fst snd] in *; subst st2.
    + destruct Hr as [Hr Hs2]. cbn. rewrite Hr, Hp1. split; [done|]. split; [done|]. by exists m.
    + apply yields_bind. eapply yields_mono; [by eapply free_dup|]. done.
  - cbn. rewrite Hp1, Hs1. split; [done|]. split; [done|]. exists (st_mem (JS_DupValue v st)). by destruct (JS_DupValue v st).
Qed.
(** An element more, with a reference of its own, or none. *)
Lemma create_element_spec p v E es cs pos st : inv E None None None es cs pos st -> known st v -> 0 <= array_size p -> zlen (array_values p) < 2 ->
  yields (JS_CreateDataPropertyUint32 p (zlen (array_values p)) v (JS_DupValue v st)) (fun '(ok, p', st') =>
    others st' = others st /\ if ok : bool then array_values p' = array_values p ++ [v] /\ 0 <= array_size p' /\ inv (v :: E) None None None es cs pos st' /\ (forall w, known st w -> known st' w)
    else array_values p' = array_values p /\ refuses 32 /\ inv E None None None es cs pos st').
Proof.
  intros Hi Hv Hsize Hlen. unfold JS_CreateDataPropertyUint32. rewrite Z.eqb_refl. cbn [c_assert mbind outcome_bind].
  destruct (dup_value_spec _ v _ _ _ _ _ _ Hi Hv) as (Hi1 & _ & Hk1). pose proof (fun w => dup_known v st w) as Hkn. pose proof (ks_others _ _ Hk1) as Ho1.
  set (st1 := JS_DupValue v st) in *. apply yields_bind.
  eapply yields_mono; [apply (add_element_spec p v _ _ _ _ st1 Hi1); [by apply Hkn|done..]|]. intros [[[|] p'] st'] [Hp Hadd]; cbn beta match; apply yields_bind.
  - destruct Hadd as (Hs & m & ->). eapply yields_mono; [by eapply free_dup|]. intros st2 Hsame. cbn. pose proof Hsame as (_ & _ & _ & _ & _ & _ & Hit & Ho).
    split; [congruence|]. do 2 (split; [done|]). split; [by apply (inv_same _ _ _ _ _ _ _ st1)|].
    intros w Hw. apply Hkn in Hw. destruct w; try done. unfold known in *. by rewrite Ho, Hit.
  - destruct Hadd as [Href Hadd]. apply (inv_same _ _ _ _ _ _ _ _ _ Hadd) in Hi1. destruct Hadd as (_ & _ & _ & _ & _ & _ & _ & Ho). eapply yields_mono; [by apply (free_value_spec E v)|].
    intros st2 [Hi2 Hk2]. cbn. split; [rewrite (ks_others _ _ Hk2); congruence|done].
Qed.
Lemma create_elements_spec E es cs pos tab : forall p st, inv (array_values p ++ E) None None None es cs pos st -> Forall (known st) tab -> 0 <= array_size p -> zlen (array_values p) + zlen tab <= 2 ->
  yields (create_elements (zlen (array_values p)) tab p st) (fun '(r, st') => others st' = others st /\
    match r with Some vs => vs = array_values p ++ tab /\ inv (vs ++ E) None None None es cs pos st' | None => refuses 32 /\ inv E None None None es cs pos st' end).
Proof.
  induction tab as [|v tab IH]; intros p st Hi Hk Hsize Hlen; cbn [create_elements]; [cbn; by rewrite app_nil_r|]. rewrite zlen_cons in Hlen. pose proof (zlen_nonneg tab). inversion Hk as [|? ? Hv Htab]; subst.
  apply yields_bind. eapply yields_mono; [apply (create_element_spec p v _ _ _ _ _ Hi); [done|done|lia]|]. intros [[[|] p'] st'] [Ho Hp]; cbn beta match.
  - destruct Hp as (Hp & Hs' & Hi' & Hk'). replace (zlen (array_values p) + 1) with (zlen (array_values p')) by (by rewrite Hp, zlen_app).
    eapply yields_mono; [apply (IH p' st'); [|eapply Forall_impl; [exact Hk'|exact Htab]|done|rewrite Hp, zlen_app, zlen_cons, zlen_nil; lia]|].
    + rewrite Hp. apply (inv_perm (v :: array_values p ++ E)); [|done]. rewrite <- app_assoc. cbn. apply Permutation_middle.
    + intros [[vs|] st2] [Ho2 H2]; (split; [congruence|]); [|done]. destruct H2 as [-> H2]. split; [by rewrite Hp, <- app_assoc|done].
  - destruct Hp as (Hp & Href & Hi'). apply yields_bind. rewrite Hp. eapply yields_mono; [by apply array_finalizer_spec|]. intros st2 [Hi2 Ho2]. cbn. split; [congruence|done].
Qed.
Lemma create_array_spec E es cs pos tab st : inv E None None None es cs pos st -> Forall (known st) tab -> zlen tab <= 2 ->
  yields (js_create_array tab st) (fun '(r, st') => others st' = others st /\
    match r with Some vs => vs = tab /\ inv (vs ++ E) None None None es cs pos st' | None => refuses 72 /\ inv E None None None es cs pos st' end).
Proof.
  intros Hi Hk Hlen. unfold js_create_array, JS_NewArray, JS_NewObjectFromShape. destruct (malloc_mem 72 st) as (r & m & -> & Hr). destruct r; [|split; [done|]; split; [by apply Hr|]; by apply (inv_same _ _ _ _ _ _ _ st)].
  destruct (malloc_mem 16 (set_mem m st)) as (r & m' & -> & Hr'). destruct r; [|split; [done|]; split; [apply (refuses_le 16); [lia|by apply Hr']|]; by apply (inv_same _ _ _ _ _ _ _ st)].
  eapply yields_mono; [apply (create_elements_spec E es cs pos tab (MkArray 0 [] 0) (set_mem m' (set_mem m st))); [by apply (inv_same _ _ _ _ _ _ _ st)|done|done|done]|].
  intros [[vs|] st'] [Ho H]; (split; [done|]); [done|]. destruct H as [Hf H]. split; [apply (refuses_le 32); [lia|done]|done].
Qed.

Lemma iterator_next_spec is_set E es cs pos st q it : inv E None None None es cs pos st -> iterators st !! q = Some it ->
  yields (js_map_iterator_next is_set q st) (fun '(r, st') => others st' = others st /\ exists c c', cs !! q = Some (it_kind it, c) /\ advances is_set es (it_kind it) c r c' /\
    (r = Exception -> refuses 72) /\ inv (brought r ++ E) None None None es (<[q := (it_kind it, c')]> cs) pos st').
Proof.
  intros Hi Hq. destruct (i_cursor Hi q it Hq ltac:(done)) as (c & Hcs & Hc). unfold js_map_iterator_next. rewrite (get_iterator_eq _ _ _ Hq). cbn [mbind outcome_bind].
  destruct (it_obj it) eqn:Ho; cbn [negb].
  2:{ cbn. split; [done|]. unfold cursor_ok in Hc. rewrite Ho in Hc. subst c. exists None, None. split; [done|]. split; [constructor|]. split; [done|]. by rewrite insert_id. }
  assert (Hi0 : exists i, c = Some i). { unfold cursor_ok in Hc. rewrite Ho in Hc. destruct (_ =? 0); [by exists 0%nat|]. destruct Hc as [_ ->]. by eexists. }
  destruct Hi0 as [i ->]. pose proof (leave_spec _ _ _ _ _ _ _ _ Hi Hq Ho Hc) as Hleave. apply yields_bind_inv in Hleave. apply yields_bind. eapply yields_mono; [exact Hleave|].
  intros [el st1] (Hi1 & Hit1 & Ho1 & l2 & Hsplit & ->). rewrite <- Hit1 in Hq. cbn beta. cbn match. apply yields_bind. eapply yields_mono; [by apply (skip_empty_spec _ _ _ _ _ _ _ _ Hi1 Hsplit)|].
  intros r Hr. cbn beta. unfold stops in Hr. destruct (Z.eqb_spec r 0) as [|Hr0].
  - cbn. split; [done|]. exists (Some i), None. split; [done|]. split; [by constructor|]. split; [done|]. set (st2 := put_iterator q _ st1). apply (inv_same _ _ _ _ _ _ _ st2); [done|]. by apply settle_end.
  - destruct Hr as (mr & Hrr & He & Hge & Hall). rewrite (get_rec_eq _ _ _ Hrr). cbn [mbind outcome_bind].
    pose proof (settle_at _ _ _ _ _ _ _ _ _ Hi1 Hq Hr0 Hrr) as Hi2. set (st2 := put_iterator q _ _) in *. change (put_iterator q _ _) with st2.
    assert (Hrr2 : recs st2 !! r = Some (recount (ref_count mr + 1) mr)) by apply lookup_insert_eq.
    destruct (value_known _ _ _ _ _ _ _ Hi2 Hrr2 He) as [Hkk Hkv]. cbn [key value recount] in Hkk, Hkv.
    destruct (keyed_entry _ _ _ _ _ r (key mr) Hi2) as (nr & Hnr & _ & _ & Hes); [by exists (recount (ref_count mr + 1) mr)|].
    assert (nr = recount (ref_count mr + 1) mr) as -> by congruence. cbn [value recount] in Hes. set (second := if is_set then key mr else value mr).
    assert (Hks : known st2 second) by (unfold second; by destruct is_set).
    assert (Hadv : advances is_set es (it_kind it) (Some i) (item is_set (it_kind it) (key mr) (value mr)) (Some (S (pos r)))) by (by constructor).
    destruct (it_kind it) eqn:Hkind; cbn [yields mret outcome_ret].
    + destruct (dup_value_spec _ _ _ _ _ _ _ _ Hi2 Hkk) as (Hi3 & _ & Hk3). split; [rewrite (ks_others _ _ Hk3); done|]. by exists (Some i), (Some (S (pos r))).
    + destruct (dup_value_spec _ _ _ _ _ _ _ _ Hi2 Hks) as (Hi3 & _ & Hk3). split; [rewrite (ks_others _ _ Hk3); done|]. by exists (Some i), (Some (S (pos r))).
    + apply yields_bind. eapply yields_mono; [apply (create_array_spec _ _ _ _ [key mr; second] _ Hi2); [by repeat constructor|done]|].
      intros [[vs|] st3] [Ho3 H3]; cbn; (split; [by rewrite Ho3|]); exists (Some i), (Some (S (pos r))); (split; [done|]); [|destruct H3 as [Hf H3]; split; [by econstructor|by split]].
      destruct H3 as [-> H3]. by split; [|split].
Qed.

(** ** Creation *)

(** Nothing refers to the pointer [q]. *)
Definition unknown (E : list JSValue) (es : list entry) (q : Z) : Prop :=
  Object q ∉ E /\ forall i k v, es !! i = Some (Some (k, v)) -> k <> Object q /\ v <> Object q.
Lemma fresh_unknown E es cs pos st q : inv E None None None es cs pos st -> iterators st !! q = None -> q ∉ others st ->
  uses q E + sum_with (weight None None q) (recs st) = 0 /\ unknown E es q.
Proof.
  intros Hi Hq Ho. pose proof (uses_nonneg q E) as Hu. assert (Hs : 0 <= sum_with (weight None None q) (recs st)) by (apply sum_nonneg; intros; apply record_weight_nonneg).
  assert (H0 : uses q E + sum_with (weight None None q) (recs st) = 0).
  { destruct (Z.eq_dec (uses q E + sum_with (weight None None q) (recs st)) 0) as [|Hne]; [done|]. destruct (i_refs Hi q ltac:(lia)) as [|[it Hit]]; [done|congruence]. }
  split; [done|]. split; [intros Hin%uses_in; lia|]. intros i k v Hes. destruct (entry_keyed _ _ _ _ _ _ _ _ Hi Hes) as (p & Hkd & <-).
  destruct (keyed_entry _ _ _ _ _ _ _ Hi Hkd) as (mr & Hp & He & Hk & Hes'). destruct (value_known _ _ _ _ _ _ _ Hi Hp He) as [Hkk Hkv].
  assert (v = value mr) as -> by congruence. subst k. split; intros E1; rewrite E1 in *; [destruct Hkk as [|[]]|destruct Hkv as [|[]]]; congruence.
Qed.

Lemma inv_iterator E es cs pos st q kind : inv E None None None es cs pos st -> iterators st !! q = None -> q ∉ others st ->
  inv (Object q :: E) None None None es (<[q := (kind, Some 0%nat)]> cs) pos (put_iterator q (MkIterator 1 true kind 0) st).
Proof.
  intros Hi Hq Ho. destruct (fresh_unknown _ _ _ _ _ _ Hi Hq Ho) as [H0 _]. open_inv Hi.
  eapply (inv_recount _ _ _ _ _ _ _ _ _ _ _ _ Hi); try done; cbn [iterators put_iterator set_iterators others recs].
  - intros p mr Hp. unfold locks. cbn [iterators put_iterator set_iterators]. rewrite sum_insert by done. rewrite lock_none. cbn [it_obj cur_record].
    destruct (Z.eqb_spec 0 p); [congruence|]. cbn [andb]. rewrite Z.add_0_l. by apply Icount.
  - intros x jt [[<- <-]|[Hne Hx]]%lookup_insert_Some _; [exists (Some 0%nat); by rewrite lookup_insert_eq|]. rewrite lookup_insert_ne by done. by apply Icursor.
  - intros x jt. rewrite uses_cons_ref, is_ref_object. intros [[<- <-]|[Hne Hx]]%lookup_insert_Some; [rewrite Z.eqb_refl; cbn [it_count]; lia|].
    destruct (Z.eqb_spec q x); [done|]. rewrite Z.add_0_l. by apply Iuses.
  - intros x. rewrite uses_cons_ref, is_ref_object, lookup_insert_is_Some. intros Hx. destruct (Z.eqb_spec q x) as [|Hne]; [by right; left|]. destruct (Irefs x) as [|]; [lia|by left|by right; right].
  - intros x Hx. rewrite lookup_insert_ne; [by apply Iothers|]. congruence.
Qed.

Context {Hbounded : MallocBounded}.

Lemma create_iterator_spec kind E es cs pos st : inv E None None None es cs pos st ->
  yields (js_create_map_iterator kind st) (fun '(r, st') => others st' = others st /\ match r with
    | None => inv E None None None es cs pos st'
    | Some q => q ∉ others st /\ unknown E es q /\ inv (Object q :: E) None None None es (<[q := (kind, Some 0%nat)]> cs) pos st'
    end).
Proof.
  intros Hi. unfold js_create_map_iterator. destruct (state_malloc_spec 72 st) as (r & m & -> & Hr). destruct r as [q|]; [|split; [done|]; by apply (inv_same _ _ _ _ _ _ _ st)].
  destruct (Hr q eq_refl) as (Hq0 & _ & Hq & Ho & _). destruct (state_malloc_spec 32 (set_mem m st)) as (r & m' & -> & _). destruct r as [x|]; [|split; [done|]; by apply (inv_same _ _ _ _ _ _ _ st)].
  cbn [yields mret outcome_ret]. split; [done|]. split; [done|]. split; [by eapply fresh_unknown|].
  apply (inv_same _ _ _ _ _ _ _ (put_iterator q (MkIterator 1 true kind 0) st)); [done|]. by apply inv_iterator.
Qed.

Lemma map_new_spec objects m st : js_map_new false objects m = Some st -> others st = objects /\ inv [] None None None [] ∅ (fun _ => 0%nat) st.
Proof.
  unfold js_map_new. set (st0 := MkState _ _ _ _ _ _ _ _ _ _ _ _). destruct (malloc 64 st0) as [r1 st1] eqn:E1. destruct (state_malloc_spec 64 st0) as (r & m1 & Em & _).
  rewrite E1 in Em. injection Em as -> ->. destruct r as [x|]; [|done]. destruct (state_malloc_spec (2 * sizeof_pointer) (set_mem m1 st0)) as (r & m2 & -> & _).
  destruct r as [y|]; [|done]. intros [= <-]. split; [done|].
  assert (Hkd : forall p k, ~ keyed None (set_hash [[]] 1 4 (set_mem m2 (set_mem m1 st0))) p k) by (intros p k (mr & Hp & _); done).
  split; try done.
  - constructor.
  - intros p. split; [intros Hp; by apply elem_of_nil in Hp|by intros []].
  - split; try done.
    + intros b l Hb. destruct b as [|b]; [|done]. injection Hb as <-. split; [constructor|]. intros p. split; [intros Hp; by apply elem_of_nil in Hp|].
      intros (k & h & Hk & _). by apply Hkd in Hk.
    + intros p k Hk. by apply Hkd in Hk.
    + intros p q k1 k2 Hk. by apply Hkd in Hk.
Qed.
End Iter.
