(* ===== verification/MapRun.v ===== *)
(** * Maps against their specification

    ECMAScript describes a Map as a list of entries that only grows, and an iterator as a position in it.  The specification here is that
    list, the position of every iterator, and the values the client holds.  The operations of MapSet.v implement it: no
    client can tell that deleted records are freed, that the iterators keep empty records alive, or that keys are hashed; and
    nothing is used after it was freed. *)

From stdpp Require Import gmap.
From S2P Require Import Prelude Sums Cutils Alloc Equality MapSet MapInv MapOps MapEdit MapIter.
#[local] Open Scope Z_scope.

(** ** The specification *)

Inductive command :=
| CSet (k v : JSValue)
| CGet (k : JSValue)
| CHas (k : JSValue)
| CDelete (k : JSValue)
| CClear
| CSize
| CIterator (kind : JSIteratorKindEnum)
| CNext (q : Z)
| CDrop (v : JSValue).
Inductive answer := Nothing | Status (r : bool) | Got (v : JSValue) | Size (n : Z) | Iterator (r : option Z) | Next (r : next_result).

Record spec := MkSpec { entries : list entry; cursors : gmap Z cursor; held : list JSValue }.
Definition with_entries (es : list entry) (s : spec) : spec := MkSpec es (cursors s) (held s).
Definition hold (vs : list JSValue) (s : spec) : spec := MkSpec (entries s) (cursors s) (vs ++ held s).
Definition move (q : Z) (c : cursor) (s : spec) : spec := MkSpec (entries s) (<[q := c]> (cursors s)) (held s).

Section Spec.
Context (is_set : bool) (objects : gset Z).

(** What a command may answer and leave. *)
Inductive steps_to : command -> spec -> answer -> spec -> Prop :=
| steps_set k v s es : entries_set (entries s) (map_normalize_key k) (if is_set then Undefined else v) es -> steps_to (CSet k v) s (Status true) (with_entries es s)
| steps_set_memory k v s : no_entry (entries s) (map_normalize_key k) -> steps_to (CSet k v) s (Status false) s
| steps_get k s i k' w : entry_at (entries s) (map_normalize_key k) i k' w -> steps_to (CGet k) s (Got w) (hold [w] s)
| steps_get_none k s : no_entry (entries s) (map_normalize_key k) -> steps_to (CGet k) s (Got Undefined) (hold [Undefined] s)
| steps_has k s i k' w : entry_at (entries s) (map_normalize_key k) i k' w -> steps_to (CHas k) s (Status true) s
| steps_has_none k s : no_entry (entries s) (map_normalize_key k) -> steps_to (CHas k) s (Status false) s
| steps_delete k s i k' w : entry_at (entries s) (map_normalize_key k) i k' w -> steps_to (CDelete k) s (Status true) (with_entries (<[i := None]> (entries s)) s)
| steps_delete_none k s : no_entry (entries s) (map_normalize_key k) -> steps_to (CDelete k) s (Status false) s
| steps_clear s : steps_to CClear s Nothing (with_entries (replicate (length (entries s)) None) s)
| steps_size s : steps_to CSize s (Size (u32 (live_count (entries s)))) s
| steps_iterator kind s q : q ∉ objects -> unknown (held s) (entries s) q ->
    steps_to (CIterator kind) s (Iterator (Some q)) (hold [Object q] (move q (kind, Some 0%nat) s))
| steps_iterator_memory kind s : steps_to (CIterator kind) s (Iterator None) s
| steps_next q s kind c r c' : cursors s !! q = Some (kind, c) -> advances is_set (entries s) kind c r c' ->
    steps_to (CNext q) s (Next r) (hold (brought r) (move q (kind, c') s))
| steps_drop v s E : held s ≡ₚ v :: E -> steps_to (CDrop v) s Nothing (MkSpec (entries s) (cursors s) E).

(** Keys hash as they compare, objects that are passed are held or are not iterators; [clear] is not called while iterators over the map are in it. *)
Definition plain (v : JSValue) : Prop := match v with Object q => q ∈ objects | _ => True end.
Definition command_ok (s : spec) (c : command) : Prop :=
  match c with
  | CSet k v => key_ok (map_normalize_key k) /\ bring (held s) objects (map_normalize_key k) /\ bring (held s) objects v
  | CGet k | CHas k | CDelete k => key_ok (map_normalize_key k)
  | CClear => forall i k v, entries s !! i = Some (Some (k, v)) -> plain k /\ plain v
  | CSize | CIterator _ => True
  | CNext q => Object q ∈ held s /\ is_Some (cursors s !! q)
  | CDrop v => v ∈ held s
  end.

(** A client decides from the answers how to go on; it is safe when it keeps to the preconditions of the commands whatever happens. *)
Inductive client := Finish | Call (c : command) (next : answer -> client).
Inductive safe : spec -> client -> Prop :=
| safe_finish s : safe s Finish
| safe_call s c next : command_ok s c -> (forall ans s', steps_to c s ans s' -> safe s' (next ans)) -> safe s (Call c next).
Inductive behaves : client -> spec -> list answer -> spec -> Prop :=
| behaves_finish s : behaves Finish s [] s
| behaves_call c next s ans s1 answers s2 : steps_to c s ans s1 -> behaves (next ans) s1 answers s2 -> behaves (Call c next) s (ans :: answers) s2.

(** ** The implementation *)

Context {HM : Malloc} {HU : MallocUsable} {Hbounded : MallocBounded} {Hpointer : 4 <= sizeof_pointer}.

Definition execute (c : command) (st : State) : outcome (answer * State) :=
  match c with
  | CSet k v => '(r, st) ← js_map_set is_set k v st; mret (Status r, st)
  | CGet k => '(v, st) ← js_map_get k st; mret (Got v, st)
  | CHas k => r ← js_map_has k st; mret (Status r, st)
  | CDelete k => '(r, st) ← js_map_delete k st; mret (Status r, st)
  | CClear => st ← js_map_clear st; mret (Nothing, st)
  | CSize => mret (Size (js_map_get_size st), st)
  | CIterator kind => '(r, st) ← js_create_map_iterator kind st; mret (Iterator r, st)
  | CNext q => '(r, st) ← js_map_iterator_next is_set q st; mret (Next r, st)
  | CDrop v => st ← JS_FreeValue v st; mret (Nothing, st)
  end.
Fixpoint run (cl : client) (st : State) : outcome (list answer * State) :=
  match cl with
  | Finish => mret ([], st)
  | Call c next => '(ans, st) ← execute c st; '(answers, st) ← run (next ans) st; mret (ans :: answers, st)
  end.

(** The map has the entries, the iterators and the references of the specification. *)
Definition represents (st : State) (s : spec) : Prop :=
  others st = objects /\ (forall q, is_Some (cursors s !! q) -> q ∉ objects) /\ exists pos, inv (held s) None None None (entries s) (cursors s) pos st.

Lemma represents_entries st st' s es pos : represents st s -> others st' = others st -> inv (held s) None None None es (cursors s) pos st' -> represents st' (with_entries es s).
Proof. intros (Ho & Hc & _) Ho' Hi. split; [congruence|]. split; [done|]. by exists pos. Qed.

Definition stepped (c : command) (s : spec) : answer * State -> Prop := fun '(ans, st') => exists s', steps_to c s ans s' /\ represents st' s'.

Lemma set_steps k v st s : represents st s -> command_ok s (CSet k v) -> yields (execute (CSet k v) st) (stepped (CSet k v) s).
Proof.
  intros Hr (Hk & Hbk & Hbv). pose proof Hr as (Ho & Hc & pos & Hi). cbn [execute]. apply yields_bind.
  eapply yields_mono; [apply (map_set_spec (Hpointer := Hpointer) is_set _ _ _ _ _ k v Hi Hk); by rewrite Ho|]. intros [r st1] (Ho1 & es & pos1 & Hi1 & Hes). cbn.
  exists (with_entries es s). split; [|by eapply represents_entries]. destruct r; [by constructor|]. destruct Hes as [Hn ->]. destruct s. by constructor.
Qed.
Lemma get_steps k st s : represents st s -> command_ok s (CGet k) -> yields (execute (CGet k) st) (stepped (CGet k) s).
Proof.
  intros (Ho & Hc & pos & Hi) Hk. cbn [execute]. apply yields_bind. eapply yields_mono; [by apply (map_get_spec _ _ _ _ _ k Hi Hk)|].
  intros [w st1] (Hi1 & Ho1 & Hes). cbn. exists (hold [w] s). split; [|split; [congruence|]; split; [done|]; by exists pos].
  destruct Hes as [(i & k' & He)|[Hn ->]]; [by econstructor|by constructor].
Qed.
Lemma has_steps k st s : represents st s -> command_ok s (CHas k) -> yields (execute (CHas k) st) (stepped (CHas k) s).
Proof.
  intros Hr Hk. pose proof Hr as (Ho & Hc & pos & Hi). cbn [execute]. apply yields_bind. eapply yields_mono; [by apply (map_has_spec _ _ _ _ _ k Hi Hk)|].
  intros [|] Hes; cbn; exists s; (split; [|done]); [destruct Hes as (i & k' & w & He); by econstructor|by constructor].
Qed.
Lemma delete_steps k st s : represents st s -> command_ok s (CDelete k) -> yields (execute (CDelete k) st) (stepped (CDelete k) s).
Proof.
  intros Hr Hk. pose proof Hr as (Ho & Hc & pos & Hi). cbn [execute]. apply yields_bind. eapply yields_mono; [by apply (map_delete_spec _ _ _ _ _ k Hi Hk)|].
  intros [[|] st1] (Ho1 & Hes); cbn.
  - destruct Hes as (i & k' & w & He & Hi1). exists (with_entries (<[i := None]> (entries s)) s). split; [by econstructor|by eapply represents_entries].
  - destruct Hes as [Hn Hi1]. exists s. split; [by constructor|]. split; [congruence|]. split; [done|]. by exists pos.
Qed.
Lemma plain_inert st v E stale dying loose es cs pos : inv E stale dying loose es cs pos st -> others st = objects -> plain v -> inert st v.
Proof. intros Hi Ho Hv. destruct v as [| | | | | | |q|]; try done. apply (i_others Hi). by rewrite Ho. Qed.
Lemma clear_steps st s : represents st s -> command_ok s CClear -> yields (execute CClear st) (stepped CClear s).
Proof.
  intros Hr Hk. pose proof Hr as (Ho & Hc & pos & Hi). cbn [execute]. apply yields_bind. eapply yields_mono; [apply (map_clear_spec _ _ _ _ _ Hi)|].
  - intros p mr Hp He. destruct (keyed_entry _ _ _ _ _ p (key mr) Hi) as (nr & Hp' & _ & _ & Hes); [by exists mr|]. assert (nr = mr) as -> by congruence.
    destruct (Hk _ _ _ Hes). by split; eapply plain_inert.
  - intros st1 [Ho1 Hi1]. cbn. eexists. split; [constructor|]. by eapply represents_entries.
Qed.
Lemma size_steps st s : represents st s -> yields (execute CSize st) (stepped CSize s).
Proof.
  intros Hr. pose proof Hr as (Ho & Hc & pos & Hi). cbn [execute]. cbn [yields mret outcome_ret stepped]. unfold js_map_get_size. rewrite (i_size Hi), Z.add_0_r.
  exists s. split; [constructor|done].
Qed.
Lemma iterator_steps kind st s : represents st s -> yields (execute (CIterator kind) st) (stepped (CIterator kind) s).
Proof.
  intros (Ho & Hc & pos & Hi). cbn [execute]. apply yields_bind. eapply yields_mono; [apply (create_iterator_spec kind _ _ _ _ _ Hi)|].
  intros [[q|] st1] (Ho1 & Hq); cbn.
  - destruct Hq as (Hq & Hu & Hi1). rewrite Ho in Hq. eexists. split; [by constructor|]. split; [congruence|]. split; [|by exists pos].
    intros x. cbn. rewrite lookup_insert_is_Some. intros [<-|[_ Hx]]; [done|by apply Hc].
  - exists s. split; [constructor|]. split; [congruence|]. split; [done|]. by exists pos.
Qed.
Lemma next_steps q st s : represents st s -> command_ok s (CNext q) -> yields (execute (CNext q) st) (stepped (CNext q) s).
Proof.
  intros (Ho & Hc & pos & Hi) [Hq Hs]. cbn [execute]. assert (Hit : is_Some (iterators st !! q)).
  { destruct (bring_known _ _ _ _ _ _ _ _ (Object q) Hi (or_intror Hq)) as [Hin|]; [|done]. rewrite Ho in Hin. by apply Hc in Hs. }
  destruct Hit as [it Hit]. apply yields_bind. eapply yields_mono; [by apply (iterator_next_spec is_set _ _ _ _ _ q it Hi)|].
  intros [r st1] (Ho1 & c & c' & Hcs & Hadv & _ & Hi1). cbn. eexists. split; [by econstructor|]. split; [congruence|]. split; [|by exists pos].
  intros x. cbn. rewrite lookup_insert_is_Some. intros [<-|[_ Hx]]; by apply Hc.
Qed.
Lemma drop_steps v st s : represents st s -> command_ok s (CDrop v) -> yields (execute (CDrop v) st) (stepped (CDrop v) s).
Proof.
  intros (Ho & Hc & pos & Hi) Hv. cbn [execute]. apply elem_of_Permutation in Hv as [E HE]. apply yields_bind.
  eapply yields_mono; [apply (free_value_spec E v), (inv_perm (held s)); [exact HE|exact Hi]|]. intros st1 [Hi1 Hk1]. cbn.
  eexists. split; [by constructor|]. split; [rewrite (ks_others _ _ Hk1); done|]. split; [done|]. by exists pos.
Qed.

(** One command of the implementation is one of the specification. *)
Lemma map_execute_steps c st s : represents st s -> command_ok s c -> yields (execute c st) (stepped c s).
Proof.
  intros Hr Hc. destruct c; [by apply set_steps|by apply get_steps|by apply has_steps|by apply delete_steps|by apply clear_steps|by apply size_steps|by apply iterator_steps|
    by apply next_steps|by apply drop_steps].
Qed.
Lemma map_run_behaves cl : forall s st, safe s cl -> represents st s -> yields (run cl st) (fun '(answers, st') => exists s', behaves cl s answers s' /\ represents st' s').
Proof.
  induction cl as [|c next IH]; intros s st Hsafe Hr; inversion Hsafe as [|? ? ? Hc Hnext]; subst; cbn [run].
  - cbn. exists s. split; [constructor|done].
  - apply yields_bind. eapply yields_mono; [by apply (map_execute_steps c st s)|]. intros [ans st1] (s1 & Hst & Hr1). cbn beta. cbn match.
    apply yields_bind. eapply yields_mono; [apply (IH ans s1 st1); [by apply Hnext|done]|]. intros [answers st2] (s2 & Hb & Hr2). cbn.
    exists s2. split; [by econstructor|done].
Qed.
Definition new_spec : spec := MkSpec [] ∅ [].
Lemma new_represents m st : js_map_new false objects m = Some st -> represents st new_spec.
Proof. intros Hm. apply map_new_spec in Hm as [Ho Hi]. split; [done|]. split; [by intros q []|]. by eexists. Qed.

(** ** Theorems *)

(** C7: maps refine lists of entries: on a new Map or Set, a client may set, get, test and delete keys, clear the map, ask for its size, create
    iterators, advance them between the other operations and give up values - iterators too, in the map or not - as long as it is [safe]: its keys hash as they compare
    ([key_ok]: no doubles with integral values, no integers whose hash overflows), it only uses values that it holds, and it does not clear the map while a key or value
    is an iterator over it.  Then the engine answers as the specification of ECMAScript may, or fails for lack of memory where a record, an iterator or the array of
    an entry is allocated (and then the iterator has moved all the same); nothing is used after it was freed, and the invariant holds at the end. *)
Theorem map_refines cl m st : js_map_new false objects m = Some st -> safe new_spec cl ->
  yields (run cl st) (fun '(answers, st') => exists s', behaves cl new_spec answers s' /\ represents st' s').
Proof. intros Hm Hs. apply map_run_behaves; [done|by eapply new_represents]. Qed.

(** C8: [js_map_iterator_next] finds the first entry at or behind its cursor that was not deleted and moves behind it; it answers the key, the value or a new array of both,
    of which it takes references, or - only where the array is asked for and the allocator refuses a request of at most 72 bytes - an exception, and then keeps no references.  When there is no entry
    the iterator is finished for good.  It holds while the map is changed between the calls: when the record it stood on was deleted, that record is freed now, and the
    locks and counts of all records are as before. *)
Theorem js_map_iterator_next_spec E es cs pos st q it : inv E None None None es cs pos st -> iterators st !! q = Some it ->
  yields (js_map_iterator_next is_set q st) (fun '(r, st') => others st' = others st /\ exists c c', cs !! q = Some (it_kind it, c) /\ advances is_set es (it_kind it) c r c' /\
    (r = Exception -> refuses 72) /\ inv (brought r ++ E) None None None es (<[q := (it_kind it, c')]> cs) pos st').
Proof. apply iterator_next_spec. Qed.

(** C9: [js_map_clear] terminates and leaves every entry empty, also the empty records that iterators keep in the list, provided that no key and no value
    of the map is an iterator over it ([all_inert]; [clear_use_after_free] shows why); the iterators keep their positions. *)
Theorem js_map_clear_spec E es cs pos st : inv E None None None es cs pos st -> all_inert st ->
  yields (js_map_clear st) (fun st' => inv E None None None (replicate (length es) None) cs pos st' /\ js_map_get_size st' = 0 /\ others st' = others st).
Proof.
  intros Hi Hin. eapply yields_mono; [by apply (map_clear_spec _ _ _ _ _ Hi)|]. intros st' [Ho Hi']. split; [done|]. split; [|done].
  unfold js_map_get_size. rewrite (i_size Hi'). by rewrite live_count_empty.
Qed.
End Spec.

(** ** Witnesses *)

#[local] Existing Instances small_malloc small_malloc_bounded.
(** Blocks are as large as asked for, up to 16 bytes of rounding. *)
#[refine, local] Instance rounded_usable : MallocUsable := {| malloc_usable_size := fun _ n => ((n + 8) / 16 * 16 + 8) mod 2 ^ 32 |}.
Proof. intros m n. apply Z.mod_pos_bound. lia. Defined.

Definition ready (q : Z) (s : spec) : Prop := Object q ∈ held s /\ is_Some (cursors s !! q).
Definition is_drop (c : command) : bool := match c with CDrop _ => true | _ => false end.
Lemma steps_ready is_set objects c s ans s' q : steps_to is_set objects c s ans s' -> is_drop c = false -> ready q s -> ready q s'.
Proof.
  intros Hs Hd [Hq Hc]. inversion Hs; subst; try done; split; cbn; rewrite ?elem_of_cons, ?elem_of_app, ?lookup_insert_is_Some; try tauto.
  all: match goal with |- ?a = ?b \/ _ => destruct (decide (a = b)); [by left|by right] end.
Qed.
(** Commands on the map and on one iterator [q], whatever the answers; at the end the client gives [q] up. *)
Fixpoint sequence (cs : list command) (last : client) : client := match cs with [] => last | c :: cs => Call c (fun _ => sequence cs last) end.
Lemma commands_safe is_set objects q cs last : (forall s, ready q s -> safe is_set objects s last) ->
  Forall (fun c => is_drop c = false /\ forall s, ready q s -> command_ok objects s c) cs -> forall s, ready q s -> safe is_set objects s (sequence cs last).
Proof.
  intros Hl. induction 1 as [|c cs [Hd Hc] Hcs IH]; intros s Hr; [by apply Hl|]. constructor; [by apply Hc|]. intros ans s' Hs. apply IH. by eapply steps_ready.
Qed.
Definition with_iterator (kind : JSIteratorKindEnum) (cs : Z -> list command) (last : Z -> client) : client :=
  Call (CIterator kind) (fun ans => match ans with Iterator (Some q) => sequence (cs q) (last q) | _ => Finish end).
Lemma iterator_safe is_set objects kind cs last : (forall q s, ready q s -> safe is_set objects s (last q)) ->
  (forall q, Forall (fun c => is_drop c = false /\ forall s, ready q s -> command_ok objects s c) (cs q)) -> safe is_set objects new_spec (with_iterator kind cs last).
Proof.
  intros Hl Hcs. constructor; [done|]. intros ans s' Hs. inversion Hs; subst; [|constructor]. apply (commands_safe is_set objects q); [apply Hl|apply Hcs|].
  split; cbn; [constructor|by rewrite lookup_insert_eq].
Qed.

Lemma small_key n : Z.abs n < 100 -> key_ok (map_normalize_key (Int n)).
Proof. intros Hn. cbn. unfold int32. lia. Qed.
Lemma small_set objects q n v : Z.abs n < 100 -> (forall s, ready q s -> bring (held s) objects v) ->
  is_drop (CSet (Int n) v) = false /\ forall s, ready q s -> command_ok objects s (CSet (Int n) v).
Proof. intros Hn Hv. split; [done|]. intros s Hr. split; [by apply small_key|]. split; [done|by apply Hv]. Qed.
Ltac small_command := first [by apply small_set|split; [done|]; intros s Hr; first [by apply small_key|exact Hr|exact I]].

(** The iterator is a value of the map; the record it stands on is deleted; the client gives it up. *)
Definition demo_commands (q : Z) : list command :=
  [CSet (Int 1) (Int 10); CSet (Int 2) (Object q); CSet (Int 3) Null; CNext q; CDelete (Int 1); CHas (Int 1); CNext q; CSet (Int 1) Undefined; CDelete (Int 3); CSize].
Definition demo : client := with_iterator JS_ITERATOR_KIND_KEY_AND_VALUE demo_commands (fun q => sequence [CNext q; CDrop (Object q)] Finish).
Lemma demo_safe : safe false ∅ new_spec demo.
Proof.
  apply iterator_safe.
  - intros q s Hr. cbn [sequence]. constructor; [exact Hr|]. intros ans s' Hs. constructor; [|constructor]. eapply steps_ready; [exact Hs|done|exact Hr].
  - intros q. unfold demo_commands. repeat apply list.Forall_cons_2 || apply list.Forall_nil_2; try small_command.
    apply small_set; [lia|]. intros s [Hq _]. by right.
Qed.
Definition new_map : State := match js_map_new false ∅ tt with Some st => st | None => MkState ∅ false [] 0 [] 0 0 ∅ ∅ ∅ [] tt end.
Definition answers (is_set : bool) (cl : client) : list answer := match run is_set cl new_map with Ret (ans, _) => ans | _ => [] end.
Lemma map_refines_witness : exists s', behaves false ∅ demo new_spec (answers false demo) s' /\
  answers false demo = [Iterator (Some 1); Status true; Status true; Status true; Next (Array [Int 1; Int 10]); Status true; Status false; Next (Array [Int 2; Object 1]); Status true;
    Status true; Size 2; Next (Array [Int 1; Undefined]); Nothing].
Proof.
  assert (Hnew : js_map_new (HM := small_malloc) false ∅ tt = Some new_map).
  { assert (Hs : match js_map_new (HM := small_malloc) false ∅ tt with Some _ => true | None => false end = true) by (by vm_compute).
    unfold new_map. by destruct (js_map_new (HM := small_malloc) false ∅ tt). }
  pose proof (map_refines (Hpointer := small_pointer) false ∅ demo tt new_map Hnew demo_safe) as H.
  assert (Ha : answers false demo = match run false demo new_map with Ret (ans, _) => ans | _ => [] end) by reflexivity.
  destruct (run false demo new_map) as [[ans st]| |]; [|destruct H..]. destruct H as (s' & Hb & _). exists s'. rewrite Ha at 1. split; [exact Hb|by vm_compute].
Defined.
Definition reached (is_set : bool) (cl : client) : State := match run is_set cl new_map with Ret (_, st) => st | _ => new_map end.
(** An iterator on the first of two records, which was deleted. *)
Definition standing : client := with_iterator JS_ITERATOR_KIND_KEY (fun q => [CSet (Int 1) Null; CSet (Int 2) Null; CNext q; CDelete (Int 1)]) (fun _ => Finish).
Lemma standing_safe : safe false ∅ new_spec standing.
Proof.
  apply iterator_safe; [by constructor|]. intros q. repeat apply list.Forall_cons_2 || apply list.Forall_nil_2; small_command.
Qed.
Lemma reached_inv is_set cl : safe is_set ∅ new_spec cl -> exists s', represents ∅ (reached is_set cl) s'.
Proof.
  intros Hs. assert (Hr : represents ∅ new_map new_spec).
  { apply (new_represents (HM := small_malloc) ∅ tt). assert (Hm : match js_map_new (HM := small_malloc) false ∅ tt with Some _ => true | None => false end = true) by (by vm_compute).
    unfold new_map. by destruct (js_map_new (HM := small_malloc) false ∅ tt). }
  pose proof (map_run_behaves (Hpointer := small_pointer) is_set ∅ cl _ _ Hs Hr) as H. unfold reached. destruct (run is_set cl new_map) as [[ans st]| |]; [|done..].
  destruct H as (s' & _ & H). by exists s'.
Qed.

Definition iterator_at (q : Z) (st : State) : JSMapIteratorData := default (MkIterator 0 false JS_ITERATOR_KIND_KEY 0) (iterators st !! q).
Lemma js_map_iterator_next_spec_witness : let st := reached false standing in
  cur_record (iterator_at 1 st) = 2 /\ (empty <$> recs st !! 2) = Some true /\
  exists E es cs pos, inv E None None None es cs pos st /\
    yields (js_map_iterator_next false 1 st) (fun '(r, st') => exists c c', cs !! 1 = Some (JS_ITERATOR_KIND_KEY, c) /\ advances false es JS_ITERATOR_KIND_KEY c r c').
Proof.
  cbn zeta. split; [by vm_compute|]. split; [by vm_compute|]. destruct (reached_inv false standing standing_safe) as (s' & _ & _ & pos & Hi).
  exists (held s'), (entries s'), (cursors s'), pos. split; [exact Hi|].
  assert (Hit : iterators (reached false standing) !! 1 = Some (MkIterator 1 true JS_ITERATOR_KIND_KEY 2)) by (by vm_compute).
  eapply yields_mono; [exact (js_map_iterator_next_spec false _ _ _ _ _ 1 _ Hi Hit)|]. intros [r st'] (_ & c & c' & Hc & Ha & _). exists c, c'. exact (conj Hc Ha).
Defined.

Definition is_object (v : JSValue) : bool := match v with Object _ => true | _ => false end.
Lemma no_objects (st : State) : forallb (fun e : Z * JSMapRecord => negb (is_object (key e.2)) && negb (is_object (value e.2))) (map_to_list (recs st)) = true -> all_inert st.
Proof.
  intros H p mr Hp He. rewrite forallb_forall in H. assert (Hin : (p, mr) ∈ map_to_list (recs st)) by (by apply elem_of_map_to_list).
  specialize (H (p, mr) (proj1 (list_elem_of_In _ _) Hin)). apply andb_true_iff in H as [H1 H2]. cbn in H1, H2. split; [by destruct (key mr)|by destruct (value mr)].
Qed.
Lemma js_map_clear_spec_witness : let st := reached false standing in zlen (records st) = 2 /\
  yields (js_map_clear st) (fun st' => js_map_get_size st' = 0).
Proof.
  cbn zeta. split; [by vm_compute|]. destruct (reached_inv false standing standing_safe) as (s' & _ & _ & pos & Hi).
  assert (Hin : all_inert (reached false standing)) by (apply no_objects; by vm_compute).
  eapply yields_mono; [exact (js_map_clear_spec _ _ _ _ _ Hi Hin)|]. intros st' (_ & H & _). exact H.
Defined.

(** ** Where the hypotheses are needed *)

(** [clear] when the last reference to an iterator is in the map and the iterator stands on the next record, which was deleted: releasing the value frees the record that
    the loop goes on with.  In JavaScript: m.set(1, it); m.set(2); it.next(); it.next(); m.delete(2); it = null; m.clear(). *)
Fact clear_use_after_free :
  let cs q := [CSet (Int 1) (Object q); CSet (Int 2) Undefined; CNext q; CNext q; CDelete (Int 2); CDrop (Object q)] in
  match run false (with_iterator JS_ITERATOR_KIND_KEY cs (fun _ => Finish)) new_map with Ret _ => true | _ => false end = true /\
  match run false (with_iterator JS_ITERATOR_KIND_KEY (fun q => cs q ++ [CClear]) (fun _ => Finish)) new_map with Undef => true | _ => false end = true.
Proof. by vm_compute. Qed.
(** [forEach] when the callback returns the last reference to an iterator that stands on the next record, which was deleted. *)
Fact forEach_use_after_free :
  let cs q := [CSet (Int 1) Null; CSet (Int 2) Null; CNext q; CNext q; CDelete (Int 2)] in
  let st := reached false (with_iterator JS_ITERATOR_KIND_KEY cs (fun _ => Finish)) in
  (match js_map_forEach false (fun _ _ st => Ret (Some Undefined, st)) 9 st with Ret _ => true | _ => false end) = true /\
  (match js_map_forEach false (fun _ _ st => Ret (Some (Object 1), st)) 9 st with Undef => true | _ => false end) = true.
Proof. by vm_compute. Qed.
(** A weak map keeps counting the records of dead keys. *)
Fact reset_weak_ref_count :
  match js_map_new (HM := small_malloc) true {[100]} tt with
  | Some st => match '(_, st) ← js_map_set false (Object 100) Null st; reset_weak_ref 100 st with Ret st => (records st, record_count st) = ([], 1) | _ => False end
  | None => False
  end.
Proof. by vm_compute. Qed.
(** An allocator that gives large blocks whole pages. *)
#[refine, local] Instance paged_usable : MallocUsable := {| malloc_usable_size := fun _ n => (if n <? 131072 then n else (n + 4111) / 4096 * 4096 - 16) mod 2 ^ 32 |}.
Proof. intros m n. apply Z.mod_pos_bound. lia. Defined.
(** Then the size of a large hash table is not a power of two: of 65791 lists, the hash codes reach 256. *)
Fact hash_size_slack :
  (match map_hash_resize (HU := paged_usable) (MkState ∅ false [] 0 [] 32768 65536 ∅ ∅ ∅ [] tt) with Ret st => hash_size st | _ => 0 end) = 65791 /\
  forall h, h .& (65791 - 1) = (h .& 0xfe) .| (h .& 0x10000).
Proof. split; [by vm_compute|]. intros h. by rewrite <- Z.land_lor_distr_r. Qed.
