(* ===== verification/Limbs.v ===== *)
(** * Arrays of limbs (libbf.c)

    A natural number is an array of limbs of 64 bits, the least significant first.  An argument that is a pointer with a length is the list of
    its limbs, and a function that writes an array answers the new contents: every function reads the limb [i] of its
    operands before it writes the limb [i] of the result, so the arrays may be the same. *)

From stdpp Require Import base list.
From S2P Require Import Prelude Cutils.
#[local] Open Scope Z_scope.

Definition LIMB_LOG2_BITS : Z := 6.
Definition LIMB_BITS : Z := 64.
Definition FFT_MUL_THRESHOLD : Z := 100.
Definition DIVNORM_LARGE_THRESHOLD : Z := 50.
Definition UDIV1NORM_THRESHOLD : Z := 3.

(** [limb_t], [slimb_t] and [dlimb_t]. *)
Abbreviation limb := (wrap 64).
Abbreviation slimb := (sext 64).
Abbreviation dlimb := (wrap 128).
Abbreviation B := (2 ^ 64).

(** ** Limbs *)

(** [bf_min] at limbs. *)
Definition min_limb (a b : Z) : Z := if a <? b then a else b.

Definition clz (a : Z) : outcome Z := if a =? 0 then mret LIMB_BITS else clz64 a.
Definition ctz (a : Z) : outcome Z := if a =? 0 then mret LIMB_BITS else ctz64 a.
Definition limb_mask (start last : Z) : Z :=
  let n := last - start + 1 in
  if n =? LIMB_BITS then limb (-1) else limb (limb ((1 << n) - 1) << start).

(** ** Addition and subtraction *)

Fixpoint mp_add (op1 op2 : list Z) (carry : Z) : list Z * Z :=
  match op1, op2 with
  | v :: op1, w :: op2 =>
      let a := limb (v + w) in
      let k1 := b2z (a <? v) in
      let a := limb (a + carry) in
      let '(res, k) := mp_add op1 op2 (b2z (a <? carry) .| k1) in (a :: res, k)
  | _, _ => ([], carry)
  end.
Fixpoint mp_add_ui (tab : list Z) (b : Z) : list Z * Z :=
  match tab with
  | [] => ([], b)
  | v :: tab =>
      if b =? 0 then (v :: tab, b)
      else let a := limb (v + b) in let '(res, k) := mp_add_ui tab (b2z (a <? b)) in (a :: res, k)
  end.
Fixpoint mp_sub (op1 op2 : list Z) (carry : Z) : list Z * Z :=
  match op1, op2 with
  | v :: op1, w :: op2 =>
      let a := limb (v - w) in
      let k1 := b2z (a >? v) in
      let v := limb (a - carry) in
      let '(res, k) := mp_sub op1 op2 (b2z (v >? a) .| k1) in (v :: res, k)
  | _, _ => ([], carry)
  end.
Definition mp_neg (op2 : list Z) (carry : Z) : list Z * Z := mp_sub (replicate (length op2) 0) op2 carry.
Fixpoint mp_sub_ui (tab : list Z) (b : Z) : list Z * Z :=
  match tab with
  | [] => ([], b)
  | v :: tab =>
      let a := limb (v - b) in
      let k := b2z (a >? v) in
      if k =? 0 then (a :: tab, k) else let '(res, k) := mp_sub_ui tab k in (a :: res, k)
  end.

(** From the last limb down; the limb that was read last is the rest. *)
Fixpoint shr_loop (tab : list Z) (shift high : Z) : list Z * Z :=
  match tab with
  | [] => ([], high)
  | a :: tab => let '(res, l) := shr_loop tab shift high in ((a >> shift) .| limb (l << (LIMB_BITS - shift)) :: res, a)
  end.
Definition mp_shr (tab : list Z) (shift high : Z) : outcome (list Z * Z) :=
  _ ← c_assert ((1 <=? shift) && (shift <? LIMB_BITS));
  let '(res, l) := shr_loop tab shift high in mret (res, l .& ((1 << shift) - 1)).

(** From the last limb down. *)
Fixpoint mp_cmp (taba tabb : list Z) : Z :=
  match taba, tabb with
  | a :: taba, b :: tabb => let r := mp_cmp taba tabb in if r =? 0 then if a =? b then 0 else if a <? b then -1 else 1 else r
  | _, _ => 0
  end.
Definition mp_scan_nz (tab : list Z) : Z := b2z (existsb (fun a => negb (a =? 0)) tab).

(** ** Multiplication *)

Fixpoint mp_mul1 (taba : list Z) (b l : Z) : list Z * Z :=
  match taba with
  | [] => ([], l)
  | a :: taba => let t := dlimb (a * b + l) in let '(res, h) := mp_mul1 taba b (t >> LIMB_BITS) in (limb t :: res, h)
  end.
Fixpoint add_mul1 (tabr taba : list Z) (b l : Z) : list Z * Z :=
  match tabr, taba with
  | r :: tabr, a :: taba => let t := dlimb (a * b + l + r) in let '(res, h) := add_mul1 tabr taba b (t >> LIMB_BITS) in (limb t :: res, h)
  | _, _ => ([], l)
  end.
Definition mp_add_mul1 (tabr taba : list Z) (b : Z) : list Z * Z := add_mul1 tabr taba b 0.
Fixpoint sub_mul1 (tabr taba : list Z) (b l : Z) : list Z * Z :=
  match tabr, taba with
  | r :: tabr, a :: taba => let t := dlimb (r - a * b - l) in let '(res, h) := sub_mul1 tabr taba b (limb (- (t >> LIMB_BITS))) in (limb t :: res, h)
  | _, _ => ([], l)
  end.
Definition mp_sub_mul1 (tabr taba : list Z) (b : Z) : list Z * Z := sub_mul1 tabr taba b 0.

(** [result] grows with every limb of [op2]. *)
Fixpoint mul_rows (result op1 op2 : list Z) (i : nat) : list Z :=
  match op2 with
  | [] => result
  | b :: op2 => let '(tab, r) := mp_add_mul1 (drop i result) op1 b in mul_rows (take i result ++ tab ++ [r]) op1 op2 (S i)
  end.
(** [op2[0]] is read first. *)
Definition mp_mul_basecase (op1 op2 : list Z) : outcome (list Z) :=
  match op2 with
  | [] => Undef
  | b :: op2 => let '(tab, r) := mp_mul1 op1 b 0 in mret (mul_rows (tab ++ [r]) op1 op2 1)
  end.

(** ** Division by one limb *)

Definition udiv1norm_init (d : Z) : Z :=
  let a1 := limb (limb (- d) - 1) in let a0 := limb (-1) in limb (((a1 << LIMB_BITS) .| a0) / d).
(** The quotient and the remainder. *)
Definition udiv1norm (a1 a0 d d_inv : Z) : Z * Z :=
  let n1m := limb (slimb a0 >> (LIMB_BITS - 1)) in
  let n_adj := limb (a0 + (n1m .& d)) in
  let a := dlimb (dlimb (d_inv * limb (a1 - n1m)) + n_adj) in
  let q := limb (limb (a >> LIMB_BITS) + a1) in
  let a := (a1 << LIMB_BITS) .| a0 in
  let a := dlimb (dlimb (a - dlimb (q * d)) - d) in
  let ah := limb (a >> LIMB_BITS) in
  let q := limb (q + 1 + ah) in
  (q, limb (limb a + (ah .& d))).

(** From the last limb down; [div] answers quotient and remainder. *)
Fixpoint div_loop (div : Z -> Z -> Z * Z) (taba : list Z) (r : Z) : list Z * Z :=
  match taba with
  | [] => ([], r)
  | a :: taba => let '(tabr, r) := div_loop div taba r in let '(q, r) := div r a in (q :: tabr, r)
  end.
(** [a1 / b] and [a1 % b] for [a1] of two limbs. *)
Definition div_two (b r a : Z) : Z * Z := let a1 := (r << LIMB_BITS) .| a in (limb (a1 / b), limb (a1 mod b)).
Definition mp_div1norm (taba : list Z) (b r : Z) : outcome (list Z * Z) :=
  _ ← c_assert (negb (b =? 0));
  mret (if zlen taba >=? UDIV1NORM_THRESHOLD then
          let b_inv := udiv1norm_init b in div_loop (fun r a => udiv1norm r a b b_inv) taba r
        else div_loop (div_two b) taba r).

(** ** Division *)

(** The correction of a digit that was too large: [tabb] is added until the top limb overflows. *)
Definition adjust_step (tabb : list Z) (s : Z * list Z * Z) : outcome ((Z * list Z * Z) + (Z * list Z * Z)) :=
  let '(q, win, top) := s in
  let q := limb (q - 1) in
  let '(win, c) := mp_add win tabb 0 in
  if negb (c =? 0) then
    let top := limb (top + 1) in
    mret (if top =? 0 then inr (q, win, top) else inl (q, win, top))
  else mret (inl (q, win, top)).
(** One digit of the quotient. *)
Definition divnorm_digit (tabb : list Z) (b1 b1_inv : Z) (i : Z) (taba : list Z) : outcome (Z * list Z) :=
  let nb := zlen tabb in
  top ← aget taba (i + nb);
  top1 ← aget taba (i + nb - 1);
  let q := if top >=? b1 then limb (-1) else if negb (b1_inv =? 0) then fst (udiv1norm top top1 b1 b1_inv) else limb (((top << LIMB_BITS) .| top1) / b1) in
  win ← aread taba i nb;
  let '(win, r) := mp_sub_mul1 win tabb q in
  let a := limb (top - r) in
  '(q, win, a) ← (if a >? top then loop 4 (adjust_step tabb) (q, win, a) else mret (q, win, a));
  taba ← awrite taba i win;
  taba ← aset taba (i + nb) a;
  mret (q, taba).
Fixpoint divnorm_loop (tabb : list Z) (b1 b1_inv : Z) (i : nat) (taba tabq : list Z) : outcome (list Z * list Z) :=
  match i with
  | O => mret (tabq, taba)
  | S i => '(q, taba) ← divnorm_digit tabb b1 b1_inv (Z.of_nat i) taba; divnorm_loop tabb b1 b1_inv i taba (q :: tabq)
  end.

Section Divnorm.
(** The algorithm for large operands; [None] is a failure to allocate. *)
Context (mp_divnorm_large : list Z -> list Z -> outcome (option (list Z * list Z))).

(** Quotient and remainder. *)
Definition mp_divnorm (taba tabb : list Z) : outcome (option (list Z * list Z)) :=
  let na := zlen taba in let nb := zlen tabb in
  b1 ← aget tabb (nb - 1);
  if nb =? 1 then
    '(tabq, r) ← mp_div1norm taba b1 0; taba ← aset taba 0 r; mret (Some (tabq, taba))
  else
    let n := na - nb in
    if min_limb n nb >=? DIVNORM_LARGE_THRESHOLD then mp_divnorm_large taba tabb
    else
      let b1_inv := if n >=? UDIV1NORM_THRESHOLD then udiv1norm_init b1 else 0 in
      hi ← aread taba n nb;
      let q := if mp_cmp hi tabb <? 0 then 0 else 1 in
      taba ← (if negb (q =? 0) then awrite taba n (fst (mp_sub hi tabb 0)) else mret taba);
      r ← divnorm_loop tabb b1 b1_inv (Z.to_nat n) taba [q];
      mret (Some r).
End Divnorm.

(** ** Values *)

(** The number that an array of limbs stands for. *)
Fixpoint val (tab : list Z) : Z := match tab with [] => 0 | a :: tab => a + B * val tab end.
Definition is_limb (a : Z) : Prop := 0 <= a < B.
Notation limbs := (Forall is_limb).

Lemma val_app l1 l2 : val (l1 ++ l2) = val l1 + B ^ Z.of_nat (length l1) * val l2.
Proof.
  induction l1 as [|a l1 IH]; cbn [val app length]; [lia|]. rewrite IH, Nat2Z.inj_succ, Z.pow_succ_r by lia. lia.
Qed.
Lemma val_range l : limbs l -> 0 <= val l < B ^ Z.of_nat (length l).
Proof.
  induction 1 as [|a l Ha Hl IH]; cbn [val length]; [lia|]. rewrite Nat2Z.inj_succ, Z.pow_succ_r by lia. unfold is_limb in Ha. nia.
Qed.
Lemma val_zero n : val (replicate n 0) = 0.
Proof. induction n as [|n IH]; cbn [val replicate]; lia. Qed.
Lemma val_inj l1 l2 : limbs l1 -> limbs l2 -> length l1 = length l2 -> val l1 = val l2 -> l1 = l2.
Proof.
  intros H1. revert l2. induction H1 as [|a l1 Ha Hl IH]; intros [|b l2] H2 Hlen E; try done. inversion H2; subst. cbn [val] in E.
  unfold is_limb in *. assert (a = b /\ val l1 = val l2) as [-> E'] by lia. f_equal. apply IH; [done|by injection Hlen|done].
Qed.
Lemma limb_is_limb x : is_limb (limb x).
Proof. apply wrap_range. lia. Qed.
#[local] Hint Resolve limb_is_limb : core.

(** ** Addition and subtraction *)

Lemma limb_split x : exists k, x = limb x + B * k.
Proof. exists (x / B). unfold wrap. pose proof (Z.div_mod x B). lia. Qed.
Lemma limb_unique x y : is_limb y -> (exists k, x = y + B * k) -> limb x = y.
Proof. intros Hy [k ->]. unfold wrap, is_limb in *. rewrite (Z.mul_comm B k), Z.mod_add by lia. by apply Z.mod_small. Qed.
(** Case analysis of a sum or a difference of limbs. *)
Ltac limb_cases x := let r := fresh "r" in let k := fresh "k" in let E := fresh "E" in let H := fresh "H" in
  pose proof (limb_is_limb x) as H; destruct (limb_split x) as [k E]; unfold is_limb in H; set (r := limb x) in *; clearbody r.

Lemma add_digit v w c : is_limb v -> is_limb w -> 0 <= c <= 1 ->
  let a := limb (limb (v + w) + c) in let k := b2z (a <? c) .| b2z (limb (v + w) <? v) in
  v + w + c = a + B * k /\ 0 <= k <= 1.
Proof.
  intros Hv Hw Hc. cbn zeta. unfold is_limb in *. limb_cases (v + w). limb_cases (r + c).
  destruct (Z.ltb_spec r0 c), (Z.ltb_spec r v); cbn [b2z]; rewrite ?Z.lor_0_l, ?Z.lor_0_r, ?Z.lor_diag; nia.
Qed.
Lemma sub_digit v w c : is_limb v -> is_limb w -> 0 <= c <= 1 ->
  let a := limb (limb (v - w) - c) in let k := b2z (a >? limb (v - w)) .| b2z (limb (v - w) >? v) in
  v - w - c = a - B * k /\ 0 <= k <= 1.
Proof.
  intros Hv Hw Hc. cbn zeta. unfold is_limb in *. limb_cases (v - w). limb_cases (r - c).
  destruct (Z.gtb_spec r0 r), (Z.gtb_spec r v); cbn [b2z]; rewrite ?Z.lor_0_l, ?Z.lor_0_r, ?Z.lor_diag; nia.
Qed.

Lemma mp_add_ok op1 : forall op2 c, limbs op1 -> limbs op2 -> length op1 = length op2 -> 0 <= c <= 1 ->
  let '(res, k) := mp_add op1 op2 c in
  val op1 + val op2 + c = val res + B ^ Z.of_nat (length op1) * k /\ 0 <= k <= 1 /\ limbs res /\ length res = length op1.
Proof.
  induction op1 as [|v op1 IH]; intros [|w op2] c H1 H2 Hlen Hc; try done; [cbn; split; [lia|by repeat split; lia || constructor]|].
  inversion H1; inversion H2; subst. injection Hlen as Hlen. cbn [mp_add]. pose proof (add_digit v w c) as Hd. cbn zeta in Hd. destruct Hd as [Hd Hk]; [done..|].
  set (k1 := _ .| _) in *. set (a := limb (_ + c)) in *. specialize (IH op2 k1). destruct (mp_add op1 op2 k1) as [res k]. destruct IH as (E & Hk' & Hr & Hl); [done..|].
  cbn [val length]. split; [|split; [done|split; [constructor; [apply limb_is_limb|done]|lia]]]. rewrite Nat2Z.inj_succ, Z.pow_succ_r by lia. lia.
Qed.
Lemma mp_sub_ok op1 : forall op2 c, limbs op1 -> limbs op2 -> length op1 = length op2 -> 0 <= c <= 1 ->
  let '(res, k) := mp_sub op1 op2 c in
  val op1 - val op2 - c = val res - B ^ Z.of_nat (length op1) * k /\ 0 <= k <= 1 /\ limbs res /\ length res = length op1.
Proof.
  induction op1 as [|v op1 IH]; intros [|w op2] c H1 H2 Hlen Hc; try done; [cbn; split; [lia|by repeat split; lia || constructor]|].
  inversion H1; inversion H2; subst. injection Hlen as Hlen. cbn [mp_sub]. pose proof (sub_digit v w c) as Hd. cbn zeta in Hd. destruct Hd as [Hd Hk]; [done..|].
  set (k1 := _ .| _) in *. set (a := limb (_ - c)) in *. specialize (IH op2 k1). destruct (mp_sub op1 op2 k1) as [res k]. destruct IH as (E & Hk' & Hr & Hl); [done..|].
  cbn [val length]. split; [|split; [done|split; [constructor; [apply limb_is_limb|done]|lia]]]. rewrite Nat2Z.inj_succ, Z.pow_succ_r by lia. lia.
Qed.
Lemma mp_add_ui_ok tab : forall b, limbs tab -> is_limb b ->
  let '(res, k) := mp_add_ui tab b in val tab + b = val res + B ^ Z.of_nat (length tab) * k /\ limbs res /\ length res = length tab /\ is_limb k.
Proof.
  induction tab as [|v tab IH]; intros b Ht Hb; [cbn; split; [lia|by repeat split; apply Hb || constructor]|]. inversion Ht as [|? ? Hv Htab]; subst. cbn [mp_add_ui].
  destruct (Z.eqb_spec b 0) as [->|Hb0]; [split; [cbn; lia|done]|].
  assert (Hd : v + b = limb (v + b) + B * b2z (limb (v + b) <? b)) by (unfold is_limb in *; limb_cases (v + b); destruct (Z.ltb_spec r b); cbn [b2z]; nia).
  set (a := limb (v + b)) in *. specialize (IH (b2z (a <? b))). destruct (mp_add_ui tab _) as [res k]. destruct IH as (E & Hr & Hl & Hk); [done|by destruct (a <? b)|].
  cbn [val length]. rewrite Nat2Z.inj_succ, Z.pow_succ_r by lia. split; [lia|]. split; [constructor; [apply limb_is_limb|done]|]. split; [lia|done].
Qed.
Lemma mp_sub_ui_ok tab : forall b, limbs tab -> is_limb b ->
  let '(res, k) := mp_sub_ui tab b in val tab - b = val res - B ^ Z.of_nat (length tab) * k /\ limbs res /\ length res = length tab /\ is_limb k.
Proof.
  induction tab as [|v tab IH]; intros b Ht Hb; [cbn; split; [lia|by repeat split; apply Hb || constructor]|]. inversion Ht as [|? ? Hv Htab]; subst. cbn [mp_sub_ui].
  assert (Hd : v - b = limb (v - b) - B * b2z (limb (v - b) >? v)) by (unfold is_limb in *; limb_cases (v - b); destruct (Z.gtb_spec r v); cbn [b2z]; nia).
  set (a := limb (v - b)) in *. destruct (Z.eqb_spec (b2z (a >? v)) 0) as [H0|H0].
  - rewrite H0 in *. cbn [val length]. split; [lia|]. split; [constructor; [apply limb_is_limb|done]|]. done.
  - specialize (IH (b2z (a >? v))). destruct (mp_sub_ui tab _) as [res k]. destruct IH as (E & Hr & Hl & Hk); [done|by destruct (a >? v)|].
    cbn [val length]. rewrite Nat2Z.inj_succ, Z.pow_succ_r by lia. split; [lia|]. split; [constructor; [apply limb_is_limb|done]|]. split; [lia|done].
Qed.
Lemma mp_neg_ok op2 c : limbs op2 -> 0 <= c <= 1 ->
  let '(res, k) := mp_neg op2 c in - val op2 - c = val res - B ^ Z.of_nat (length op2) * k /\ 0 <= k <= 1 /\ limbs res /\ length res = length op2.
Proof.
  intros H Hc. unfold mp_neg. pose proof (mp_sub_ok (replicate (length op2) 0) op2 c) as Hs. destruct (mp_sub _ _ _) as [res k].
  rewrite val_zero, length_replicate in Hs. apply Hs; [|done|done|done]. apply list.Forall_forall. intros x Hx. apply elem_of_replicate in Hx as [-> _]. done.
Qed.

(** ** Shifts and comparison *)

Lemma shr_digit a l shift : is_limb a -> is_limb l -> 1 <= shift < 64 ->
  (a >> shift) .| limb (l << (LIMB_BITS - shift)) = a / 2 ^ shift + 2 ^ (64 - shift) * (l mod 2 ^ shift) /\ is_limb ((a >> shift) .| limb (l << (LIMB_BITS - shift))).
Proof.
  intros Ha Hl Hs. unfold is_limb in *. assert (HB : 2 ^ shift * 2 ^ (64 - shift) = B) by (rewrite <- Z.pow_add_r by lia; f_equal; lia).
  assert (Hp : 0 < 2 ^ shift /\ 0 < 2 ^ (64 - shift)) by (split; apply Z.pow_pos_nonneg; lia).
  rewrite shiftr_div, shiftl_mul by (unfold LIMB_BITS; lia). change (LIMB_BITS - shift) with (64 - shift). unfold wrap.
  assert (Hm : (l * 2 ^ (64 - shift)) mod B = 2 ^ (64 - shift) * (l mod 2 ^ shift)).
  { rewrite <- HB at 1. rewrite (Z.mul_comm l), (Z.mul_comm (2 ^ shift)). by rewrite Z.mul_mod_distr_l by lia. }
  rewrite Hm. pose proof (Z.mod_pos_bound l (2 ^ shift) ltac:(lia)). assert (Hd : 0 <= a / 2 ^ shift < 2 ^ (64 - shift)) by (split; [apply Z.div_pos; lia|apply Z.div_lt_upper_bound; lia]).
  rewrite (lor_add (64 - shift)); [split; [done|nia]|lia|done|]. rewrite Z.mul_comm. apply Z.mod_mul. lia.
Qed.
Lemma shr_loop_ok tab shift : forall high, limbs tab -> is_limb high -> 1 <= shift < 64 ->
  let '(res, l) := shr_loop tab shift high in
  val tab + B ^ Z.of_nat (length tab) * high = 2 ^ shift * (val res + B ^ Z.of_nat (length tab) * (high / 2 ^ shift)) + l mod 2 ^ shift /\ limbs res /\ length res = length tab /\ is_limb l.
Proof.
  intros high Ht Hh Hs. assert (Hp : 0 < 2 ^ shift) by (apply Z.pow_pos_nonneg; lia). induction Ht as [|a tab Ha Ht IH]; cbn [shr_loop].
  - cbn [val length]. change (B ^ Z.of_nat 0) with 1. split; [|done]. pose proof (Z.div_mod high (2 ^ shift)). lia.
  - destruct (shr_loop tab shift high) as [res l]. destruct IH as (E & Hr & Hl & Hll). destruct (shr_digit a l shift Ha Hll Hs) as [Hd Hdl].
    cbn [val length]. rewrite Nat2Z.inj_succ, Z.pow_succ_r by lia. split; [|by split; [constructor|split; [lia|]]]. rewrite Hd.
    assert (HB : 2 ^ shift * 2 ^ (64 - shift) = B) by (rewrite <- Z.pow_add_r by lia; f_equal; lia). pose proof (Z.div_mod a (2 ^ shift) ltac:(lia)) as Hdm.
    transitivity (2 ^ shift * (a / 2 ^ shift) + a mod 2 ^ shift + (2 ^ shift * 2 ^ (64 - shift)) * (2 ^ shift * (val res + B ^ Z.of_nat (length tab) * (high / 2 ^ shift)) + l mod 2 ^ shift));
      [rewrite HB, <- E; lia|rewrite <- HB; ring].
Qed.
Lemma mp_shr_ok tab shift high : limbs tab -> is_limb high -> 1 <= shift < 64 ->
  yields (mp_shr tab shift high) (fun '(res, r) =>
    val tab + B ^ Z.of_nat (length tab) * high = 2 ^ shift * (val res + B ^ Z.of_nat (length tab) * (high / 2 ^ shift)) + r /\ 0 <= r < 2 ^ shift /\ limbs res /\ length res = length tab).
Proof.
  intros Ht Hh Hs. unfold mp_shr. assert ((1 <=? shift) && (shift <? LIMB_BITS) = true) as -> by (unfold LIMB_BITS; lia). cbn [c_assert mbind outcome_bind].
  pose proof (shr_loop_ok tab shift high Ht Hh Hs) as H. destruct (shr_loop tab shift high) as [res l]. destruct H as (E & Hr & Hl & Hll). cbn.
  assert (Hm : l .& ((1 << shift) - 1) = l mod 2 ^ shift) by (apply land_ones_mod; [lia|]; rewrite Z.shiftl_1_l, Z.ones_equiv; lia).
  rewrite Hm. split; [done|]. split; [apply Z.mod_pos_bound; apply Z.pow_pos_nonneg; lia|done].
Qed.
Lemma mp_cmp_ok taba : forall tabb, limbs taba -> limbs tabb -> length taba = length tabb ->
  mp_cmp taba tabb = (if val taba =? val tabb then 0 else if val taba <? val tabb then -1 else 1).
Proof.
  induction taba as [|a taba IH]; intros [|b tabb] Ha Hb Hl; try done. inversion Ha; inversion Hb; subst. injection Hl as Hl. cbn [mp_cmp val].
  rewrite IH by done. unfold is_limb in *.
  destruct (Z.eqb_spec (val taba) (val tabb)) as [E|E]; [rewrite Z.eqb_refl|destruct (Z.ltb_spec (val taba) (val tabb)); cbn].
  - destruct (Z.eqb_spec a b), (Z.eqb_spec (a + B * val taba) (b + B * val tabb)), (Z.ltb_spec a b), (Z.ltb_spec (a + B * val taba) (b + B * val tabb)); lia.
  - change (-1 =? 0) with false. cbn match. destruct (Z.eqb_spec (a + B * val taba) (b + B * val tabb)), (Z.ltb_spec (a + B * val taba) (b + B * val tabb)); lia.
  - change (1 =? 0) with false. cbn match. destruct (Z.eqb_spec (a + B * val taba) (b + B * val tabb)), (Z.ltb_spec (a + B * val taba) (b + B * val tabb)); lia.
Qed.
Lemma mp_scan_nz_ok tab : limbs tab -> mp_scan_nz tab = b2z (negb (val tab =? 0)).
Proof.
  unfold mp_scan_nz. induction 1 as [|a tab Ha Ht IH]; [done|]. cbn [existsb val]. pose proof (val_range tab Ht). unfold is_limb in Ha.
  destruct (Z.eqb_spec a 0) as [->|]; cbn [negb orb].
  - rewrite IH. destruct (Z.eqb_spec (val tab) 0), (Z.eqb_spec (0 + B * val tab) 0); try done; lia.
  - destruct (Z.eqb_spec (a + B * val tab) 0); [lia|done].
Qed.

(** ** Multiplication *)

Lemma dlimb_small x : 0 <= x < B * B -> dlimb x = x.
Proof. intros Hx. apply wrap_small. lia. Qed.
Lemma mul_digit t : 0 <= t < B * B -> dlimb t = t /\ t >> LIMB_BITS = t / B /\ t = limb t + B * (t / B) /\ is_limb (t / B).
Proof.
  intros Ht. split; [by apply dlimb_small|]. split; [by apply shiftr_div|]. unfold wrap. pose proof (Z.div_mod t B). split; [lia|]. split; [apply Z.div_pos; lia|apply Z.div_lt_upper_bound; lia].
Qed.
Lemma mp_mul1_ok taba : forall b l, limbs taba -> is_limb b -> is_limb l ->
  let '(res, h) := mp_mul1 taba b l in val taba * b + l = val res + B ^ Z.of_nat (length taba) * h /\ limbs res /\ length res = length taba /\ is_limb h.
Proof.
  induction taba as [|a taba IH]; intros b l Ht Hb Hl; [cbn; split; [lia|by repeat split; apply Hl || constructor]|]. inversion Ht as [|? ? Ha Hta]; subst. cbn [mp_mul1].
  destruct (mul_digit (a * b + l)) as (-> & -> & Hd & Hh); [unfold is_limb in *; nia|]. set (t := a * b + l) in *.
  specialize (IH b (t / B) Hta Hb Hh). destruct (mp_mul1 taba b (t / B)) as [res h]. destruct IH as (E & Hr & Hlen & Hhh).
  cbn [val length]. rewrite Nat2Z.inj_succ, Z.pow_succ_r by lia. split; [|by split; [constructor; [apply limb_is_limb|]|split; [lia|]]]. subst t. nia.
Qed.
Lemma add_mul1_ok tabr : forall taba b l, limbs tabr -> limbs taba -> length tabr = length taba -> is_limb b -> is_limb l ->
  let '(res, h) := add_mul1 tabr taba b l in val tabr + val taba * b + l = val res + B ^ Z.of_nat (length tabr) * h /\ limbs res /\ length res = length tabr /\ is_limb h.
Proof.
  induction tabr as [|r tabr IH]; intros [|a taba] b l Hr Ht Hlen Hb Hl; try done; [cbn; split; [lia|by repeat split; apply Hl || constructor]|].
  inversion Ht as [|? ? Ha Hta]; inversion Hr as [|? ? Hrr Hrt]; subst. injection Hlen as Hlen. cbn [add_mul1].
  destruct (mul_digit (a * b + l + r)) as (-> & -> & Hd & Hh); [unfold is_limb in *; nia|]. set (t := a * b + l + r) in *.
  specialize (IH taba b (t / B) Hrt Hta Hlen Hb Hh). destruct (add_mul1 tabr taba b (t / B)) as [res h]. destruct IH as (E & Hres & Hlr & Hhh).
  cbn [val length]. rewrite Nat2Z.inj_succ, Z.pow_succ_r by lia. split; [|by split; [constructor; [apply limb_is_limb|]|split; [lia|]]]. subst t. nia.
Qed.
Lemma sub_mul_digit r a b l : is_limb r -> is_limb a -> is_limb b -> is_limb l ->
  let t := dlimb (r - a * b - l) in let h := limb (- (t >> LIMB_BITS)) in r - a * b - l = limb t - B * h /\ is_limb h.
Proof.
  intros Hr Ha Hb Hl. cbn zeta. unfold is_limb in *. rewrite shiftr_div by done. change LIMB_BITS with 64. set (x := r - a * b - l). assert (Hx : - (B * B) + B <= x < B) by (subst x; nia).
  assert (Hdb : exists k, (k = 0 \/ k = 1) /\ dlimb x = x + B * B * k /\ 0 <= x + B * B * k < B * B).
  { destruct (Z.le_gt_cases 0 x); [exists 0; rewrite dlimb_small by lia; lia|]. exists 1. split; [by right|]. split; [|lia]. unfold wrap. rewrite <- (Z.mod_add x 1) by lia.
    change (2 ^ 128) with (B * B). rewrite Z.mod_small; lia. }
  destruct Hdb as (k & Hk & -> & Ht). set (t := x + B * B * k) in *. pose proof (Z.div_mod t B ltac:(lia)) as Hdm. pose proof (Z.mod_pos_bound t B ltac:(lia)).
  assert (Hlt : limb t = t mod B) by done. assert (Hq : 0 <= t / B < B) by (split; [apply Z.div_pos; lia|apply Z.div_lt_upper_bound; lia]).
  assert (Hh : limb (- (t / B)) = B * k - t / B).
  { apply limb_unique; [unfold is_limb|exists (- k); lia]. destruct Hk as [-> | ->]; subst t; [|split; [lia|]].
    - assert (x / B = 0) by (apply Z.div_small; lia). replace (x + B * B * 0) with x in * by lia. lia.
    - assert (0 < (x + B * B * 1) / B); [|lia]. apply Z.div_str_pos. lia. }
  rewrite Hh, Hlt. split; [nia|]. rewrite <- Hh. apply limb_is_limb.
Qed.
Lemma sub_mul1_ok tabr : forall taba b l, limbs tabr -> limbs taba -> length tabr = length taba -> is_limb b -> is_limb l ->
  let '(res, h) := sub_mul1 tabr taba b l in val tabr - val taba * b - l = val res - B ^ Z.of_nat (length tabr) * h /\ limbs res /\ length res = length tabr /\ is_limb h.
Proof.
  induction tabr as [|r tabr IH]; intros [|a taba] b l Hr Ht Hlen Hb Hl; try done; [cbn; split; [lia|by repeat split; apply Hl || constructor]|].
  inversion Ht as [|? ? Ha Hta]; inversion Hr as [|? ? Hrr Hrt]; subst. injection Hlen as Hlen. cbn [sub_mul1].
  pose proof (sub_mul_digit r a b l Hrr Ha Hb Hl) as Hd. cbn zeta in Hd. destruct Hd as [Hd Hh]. set (t := dlimb _) in *. set (k := limb (- _)) in *.
  specialize (IH taba b k Hrt Hta Hlen Hb Hh). destruct (sub_mul1 tabr taba b k) as [res h]. destruct IH as (E & Hres & Hlr & Hhh).
  cbn [val length]. rewrite Nat2Z.inj_succ, Z.pow_succ_r by lia. split; [|by split; [constructor; [apply limb_is_limb|]|split; [lia|]]]. nia.
Qed.

Lemma val_split i l : (i <= length l)%nat -> val l = val (take i l) + B ^ Z.of_nat i * val (drop i l).
Proof. intros Hi. rewrite <- (take_drop i l) at 1. rewrite val_app, length_take_le by done. done. Qed.
Lemma limbs_take i l : limbs l -> limbs (take i l).
Proof. apply Forall_take. Qed.
Lemma limbs_drop i l : limbs l -> limbs (drop i l).
Proof. apply Forall_drop. Qed.
#[local] Hint Resolve limbs_take limbs_drop : core.

Lemma mul_rows_ok op1 op2 : forall result i, limbs op1 -> limbs op2 -> limbs result -> length result = (i + length op1)%nat ->
  let res := mul_rows result op1 op2 i in
  val res = val result + B ^ Z.of_nat i * (val op1 * val op2) /\ limbs res /\ length res = (length result + length op2)%nat.
Proof.
  induction op2 as [|b op2 IH]; intros result i H1 H2 Hr Hlen; cbn zeta; cbn [mul_rows]; [cbn [val length]; split; [lia|by split; [|lia]]|].
  inversion H2 as [|? ? Hb H2']; subst. unfold mp_add_mul1. pose proof (add_mul1_ok (drop i result) op1 b 0) as Hm. destruct (add_mul1 _ _ _ _) as [tab r].
  destruct Hm as (E & Ht & Hl & Hh); [by apply limbs_drop|done|rewrite length_drop; lia|done|done|]. rewrite length_drop in Hl.
  assert (Hlt : length (take i result ++ tab ++ [r]) = (S i + length op1)%nat) by (rewrite !length_app, length_take_le, Hl by lia; cbn; lia).
  destruct (IH (take i result ++ tab ++ [r]) (S i)) as (E2 & Hl2 & Hlen2); [done|done| |done|].
  { apply Forall_app. split; [by apply limbs_take|]. apply Forall_app. split; [done|]. by constructor. }
  split; [|split; [done|rewrite Hlen2, Hlt, Hlen; cbn [length]; lia]]. rewrite E2, !val_app, length_take_le, Hl by lia. rewrite length_drop, Z.add_0_r in E. cbn [val].
  rewrite (val_split i result), Nat2Z.inj_succ, Z.pow_succ_r by lia. set (X := B ^ Z.of_nat i) in *. set (Y := B ^ Z.of_nat (length result - i)) in *. 
  transitivity (val (take i result) + X * (val tab + Y * r) + B * X * (val op1 * val op2)); [ring|]. rewrite <- E. ring.
Qed.
Lemma mp_mul_basecase_ok op1 op2 : limbs op1 -> limbs op2 -> op2 <> [] ->
  yields (mp_mul_basecase op1 op2) (fun res => val res = val op1 * val op2 /\ limbs res /\ length res = (length op1 + length op2)%nat).
Proof.
  intros H1 H2 Hne. destruct op2 as [|b op2]; [done|]. inversion H2 as [|? ? Hb H2']; subst. unfold mp_mul_basecase.
  pose proof (mp_mul1_ok op1 b 0 H1 Hb ltac:(done)) as Hm. destruct (mp_mul1 op1 b 0) as [tab r]. destruct Hm as (E & Ht & Hl & Hh). cbn [yields mret outcome_ret].
  destruct (mul_rows_ok op1 op2 (tab ++ [r]) 1) as (E2 & Hl2 & Hlen2); [done|done|apply Forall_app; split; [done|by constructor]|rewrite length_app, Hl; cbn; lia|].
  split; [|split; [done|rewrite Hlen2, length_app, Hl; cbn [length]; lia]]. rewrite E2, val_app, Hl. cbn [val]. change (B ^ Z.of_nat 1) with B. lia.
Qed.

(** ** Division by one limb *)

Definition normal (d : Z) : Prop := 2 ^ 63 <= d < B.

(** The approximate quotient is the quotient or one less. *)
Lemma udiv_estimate d n1 n0 b v : normal d -> 0 <= n1 < d -> is_limb n0 -> b = (if n0 <? 2 ^ 63 then 0 else 1) -> v = (B * B - 1) / d - B ->
  let T := v * (n1 + b) + n0 + b * (d - B) + B * n1 in
  let q := T / B in 0 <= n1 * B + n0 - q * d < 2 * d.
Proof.
  intros Hd Hn1 Hn0 Hb Hv. cbn zeta. unfold normal, is_limb in *.
  pose proof (Z.div_mod (B * B - 1) d ltac:(lia)) as Hdm. pose proof (Z.mod_pos_bound (B * B - 1) d ltac:(lia)) as Hm. set (rho := (B * B - 1) mod d) in *.
  assert (Hdv : d * v = B * B - 1 - rho - d * B) by (subst v; lia). clearbody rho. clear Hdm Hv.
  set (T := v * (n1 + b) + n0 + b * (d - B) + B * n1). pose proof (Z.div_mod T B ltac:(lia)) as HT. pose proof (Z.mod_pos_bound T B ltac:(lia)) as HTm. set (q := T / B) in *.
  assert (HdT : d * T = B * (n1 * B + n0) - (B - d) * n0 - (1 + rho) * n1 + b * ((B - d) * (B - d) - (1 + rho))).
  { transitivity (d * v * (n1 + b) + d * (n0 + b * (d - B) + B * n1)); [subst T; ring|]. rewrite Hdv. ring. }
  set (t := T mod B) in *. clearbody t q T.
  assert (Hlow : 0 <= B * (n1 * B + n0 - q * d)).
  { replace (B * (n1 * B + n0 - q * d)) with (d * t + (B * (n1 * B + n0) - d * T)) by (rewrite HT; ring). rewrite HdT.
    assert (0 <= d * t) by (apply Z.mul_nonneg_nonneg; lia). destruct (Z.ltb_spec n0 (2 ^ 63)); subst b.
    - assert (0 <= (B - d) * n0) by (apply Z.mul_nonneg_nonneg; lia). assert (0 <= (1 + rho) * n1) by (apply Z.mul_nonneg_nonneg; lia). lia.
    - assert (0 <= (B - d) * (n0 - (B - d))) by (apply Z.mul_nonneg_nonneg; lia). assert (0 <= (1 + rho) * (n1 + 1)) by (apply Z.mul_nonneg_nonneg; lia). lia. }
  assert (Hhigh : B * (n1 * B + n0 - q * d) < B * (2 * d)).
  { replace (B * (n1 * B + n0 - q * d)) with (d * t + (B * (n1 * B + n0) - d * T)) by (rewrite HT; ring). rewrite HdT.
    assert (d * t <= d * (B - 1)) by (apply Z.mul_le_mono_nonneg_l; lia). destruct (Z.ltb_spec n0 (2 ^ 63)); subst b.
    - assert ((B - d) * n0 <= (B - d) * (2 ^ 63 - 1)) by (apply Z.mul_le_mono_nonneg_l; lia). assert ((1 + rho) * n1 <= d * (d - 1)) by (apply Z.mul_le_mono_nonneg; lia).
      assert (0 <= (B - d) * (2 * d - B)) by (apply Z.mul_nonneg_nonneg; lia). lia.
    - assert ((B - d) * (n0 - (B - d)) <= (B - d) * (d - 1)) by (apply Z.mul_le_mono_nonneg_l; lia). assert ((1 + rho) * (n1 + 1) <= d * d) by (apply Z.mul_le_mono_nonneg; lia). lia. }
  lia.
Qed.

Lemma udiv1norm_init_ok d : normal d -> udiv1norm_init d = (B * B - 1) / d - B /\ is_limb (udiv1norm_init d).
Proof.
  intros Hd. unfold normal in Hd. unfold udiv1norm_init.
  assert (E1 : limb (limb (- d) - 1) = B - d - 1).
  { apply limb_unique; [unfold is_limb; lia|]. limb_cases (- d). exists (- k - 1). lia. }
  rewrite E1. change (limb (-1)) with (B - 1). rewrite shiftl_mul by done. change LIMB_BITS with 64. rewrite (lor_add' 64) by (done || lia || (apply Z.mod_mul; lia)).
  replace ((B - d - 1) * 2 ^ 64 + (B - 1)) with (B * B - 1 + (- B) * d) by lia. rewrite Z.div_add by lia.
  assert (Hq : 0 <= (B * B - 1) / d + - B < B). { assert (B <= (B * B - 1) / d) by (apply Z.div_le_lower_bound; lia). assert ((B * B - 1) / d < 2 * B) by (apply Z.div_lt_upper_bound; lia). lia. }
  rewrite (wrap_small 64) by lia. unfold is_limb. lia.
Qed.

Lemma sign_limb a0 : is_limb a0 -> limb (slimb a0 >> (LIMB_BITS - 1)) = (if a0 <? 2 ^ 63 then 0 else B - 1).
Proof.
  intros Ha. unfold is_limb in Ha. unfold sext. rewrite (wrap_small 64 a0) by lia. change (64 - 1) with 63. rewrite shiftr_div by done. change (LIMB_BITS - 1) with 63.
  destruct (Z.ltb_spec a0 (2 ^ 63)).
  - by rewrite Z.div_small by lia.
  - replace ((a0 - 2 ^ 64) / 2 ^ 63) with (-1); [done|]. apply (Z.div_unique _ _ _ (a0 - 2 ^ 63)); lia.
Qed.
Lemma limb_mask_land m d : is_limb d -> m = 0 \/ m = B - 1 -> m .& d = if m =? 0 then 0 else d.
Proof.
  intros Hd [-> | ->]; [done|]. change (B - 1 =? 0) with false. cbn match. rewrite Z.land_comm. change (B - 1) with (Z.ones 64). rewrite Z.land_ones by done.
  apply Z.mod_small. unfold is_limb in Hd. lia.
Qed.
Lemma two_limbs a1 a0 : is_limb a1 -> is_limb a0 -> (a1 << LIMB_BITS) .| a0 = a1 * B + a0 /\ 0 <= a1 * B + a0 < B * B.
Proof.
  intros H1 H0. unfold is_limb in *. rewrite shiftl_mul by done. change LIMB_BITS with 64. split; [|nia]. apply (lor_add' 64); [lia|lia|]. apply Z.mod_mul. lia.
Qed.
Lemma dlimb_sub x y z : dlimb (dlimb (x - dlimb y) - z) = dlimb (x - y - z).
Proof.
  unfold wrap. rewrite Zminus_mod_idemp_l. replace (x - y mod 2 ^ 128 - z) with (x - z - y mod 2 ^ 128) by lia. rewrite Zminus_mod_idemp_r. f_equal. lia.
Qed.

Lemma udiv1norm_ok d a1 a0 : normal d -> 0 <= a1 < d -> is_limb a0 ->
  udiv1norm a1 a0 d (udiv1norm_init d) = ((a1 * B + a0) / d, (a1 * B + a0) mod d).
Proof.
  intros Hd H1 H0. destruct (udiv1norm_init_ok d Hd) as [Ev Hv]. set (v := udiv1norm_init d) in *. unfold udiv1norm.
  assert (Hdl : is_limb d) by (unfold is_limb, normal in *; lia). assert (H1l : is_limb a1) by (unfold is_limb, normal in *; lia).
  set (b := if a0 <? 2 ^ 63 then 0 else 1). pose proof (udiv_estimate d a1 a0 b v Hd H1 H0 eq_refl Ev) as Hest. cbn zeta in Hest.
  rewrite (sign_limb a0 H0). set (n1m := if a0 <? 2 ^ 63 then 0 else B - 1).
  assert (Hadj : limb (a0 + (n1m .& d)) = a0 + b * (d - B) /\ limb (a1 - n1m) = a1 + b /\ 0 <= b <= 1).
  { rewrite limb_mask_land by (done || (unfold n1m; destruct (a0 <? 2 ^ 63); auto)). unfold n1m, b, normal, is_limb in *. destruct (Z.ltb_spec a0 (2 ^ 63)); cbn match.
    - change (0 =? 0) with true. cbn match. rewrite !wrap_small by lia. lia.
    - change (B - 1 =? 0) with false. cbn match. split; [|split; [|lia]]; (apply limb_unique; [unfold is_limb; lia|]); [exists 1|exists (-1)]; lia. }
  destruct Hadj as (-> & -> & Hb). destruct (two_limbs a1 a0 H1l H0) as [-> HN]. set (N := a1 * B + a0) in *.
  assert (Ha : 0 <= v * (a1 + b) < B * B /\ 0 <= v * (a1 + b) + (a0 + b * (d - B)) < B * B).
  { unfold normal, is_limb in *. assert (0 <= v * (a1 + b) <= (B - 1) * (B - 1)) by nia. assert (0 <= a0 + b * (d - B) < B); [|lia]. unfold b. destruct (Z.ltb_spec a0 (2 ^ 63)); lia. }
  rewrite (dlimb_small (v * (a1 + b))), (dlimb_small (_ + _)) by apply Ha. set (A := v * (a1 + b) + (a0 + b * (d - B))) in *. rewrite shiftr_div by done. change LIMB_BITS with 64.
  assert (HA : 0 <= A / B < B) by (split; [apply Z.div_pos; lia|apply Z.div_lt_upper_bound; lia]). rewrite (wrap_small 64 (A / B)) by done.
  replace (v * (a1 + b) + a0 + b * (d - B) + B * a1) with (A + a1 * B) in Hest by (unfold A; ring). rewrite Z.div_add in Hest by lia.
  set (q := A / B + a1) in *. assert (Hq : 0 <= q < B). { unfold normal, is_limb in *. split; [lia|]. assert (q * d <= N) by lia. assert (N < B * d) by (unfold N; nia). nia. }
  rewrite (wrap_small 64 q) by done. rewrite dlimb_sub. assert (HNd : N < B * d) by (unfold normal, is_limb, N in *; nia). set (R := N - q * d) in *.
  assert (HR : N = q * d + R) by (unfold R; ring). clear Ev Ha HA. clearbody R N q. rewrite shiftr_div by done. unfold normal, is_limb in *.
  assert (Hdiv : forall q' r', 0 <= r' < d -> N = q' * d + r' -> (q', r') = (N / d, N mod d)).
  { intros q' r' Hr' E. f_equal; [apply (Z.div_unique _ _ _ r')|apply (Z.mod_unique _ _ q')]; lia. }
  destruct (Z.le_gt_cases 0 (R - d)) as [HRd|HRd].
  - assert (Hq1 : q + 1 < B) by nia. rewrite dlimb_small by lia. rewrite (Z.div_small (R - d) B) by lia. change (limb 0) with 0. rewrite limb_mask_land by (done || auto). change (0 =? 0) with true. cbn match.
    rewrite (wrap_small 64 (R - d)), !Z.add_0_r, !wrap_small by lia. apply Hdiv; lia.
  - assert (Hdd : dlimb (R - d) = B * B + (R - d)).
    { unfold wrap. rewrite <- (Z.mod_add (R - d) 1) by lia. change (2 ^ 128) with (B * B). rewrite Z.mod_small; lia. }
    assert (Hah : (B * B + (R - d)) / B = B - 1) by (symmetry; apply (Z.div_unique _ _ _ (B + (R - d))); lia).
    rewrite Hdd, Hah. change (limb (B - 1)) with (B - 1). rewrite limb_mask_land by (done || auto). change (B - 1 =? 0) with false. cbn match.
    assert (E1 : limb (B * B + (R - d)) = B + (R - d)) by (apply limb_unique; [unfold is_limb; lia|exists (B - 1); lia]).
    assert (E2 : limb (q + 1 + (B - 1)) = q) by (apply limb_unique; [unfold is_limb; lia|exists 1; lia]).
    assert (E3 : limb (B + (R - d) + d) = R) by (apply limb_unique; [unfold is_limb; lia|exists 1; lia]).
    rewrite E1, E2, E3. apply Hdiv; lia.
Qed.

Lemma div_loop_ok div taba b r : (forall r a, 0 <= r < b -> is_limb a -> div r a = ((r * B + a) / b, (r * B + a) mod b)) -> 0 < b <= B -> limbs taba -> 0 <= r < b ->
  let '(tabr, r') := div_loop div taba r in
  val taba + B ^ Z.of_nat (length taba) * r = val tabr * b + r' /\ 0 <= r' < b /\ limbs tabr /\ length tabr = length taba.
Proof.
  intros Hdiv Hb Ht Hr. induction Ht as [|a taba Ha Ht IH]; cbn [div_loop]; [cbn [val length]; change (B ^ Z.of_nat 0) with 1; repeat split; lia || constructor|].
  destruct (div_loop div taba r) as [tabr r1]. destruct IH as (E & Hr1 & Hl & Hlen). rewrite Hdiv by done. cbn [val length]. rewrite Nat2Z.inj_succ, Z.pow_succ_r by lia.
  pose proof (Z.div_mod (r1 * B + a) b ltac:(lia)) as Hdm. pose proof (Z.mod_pos_bound (r1 * B + a) b ltac:(lia)). unfold is_limb in Ha.
  split; [|split; [done|split; [constructor; [|done]|lia]]].
  - set (q := (r1 * B + a) / b) in *. set (m := (r1 * B + a) mod b) in *. transitivity (a + B * (val tabr * b + r1)); [rewrite <- E; ring|]. replace (a + B * (val tabr * b + r1)) with (B * val tabr * b + (r1 * B + a)) by ring. rewrite Hdm. ring.
  - unfold is_limb. split; [apply Z.div_pos; lia|]. apply Z.div_lt_upper_bound; [lia|]. nia.
Qed.
Lemma div_two_ok b r a : 0 <= r < b -> is_limb b -> is_limb a -> div_two b r a = ((r * B + a) / b, (r * B + a) mod b).
Proof.
  intros Hr Hb Ha. unfold div_two. destruct (two_limbs r a) as [-> HN]; [unfold is_limb in *; lia|done|]. unfold is_limb in *.
  pose proof (Z.mod_pos_bound (r * B + a) b ltac:(lia)). rewrite !wrap_small; [done|lia|]. split; [apply Z.div_pos; lia|apply Z.div_lt_upper_bound; [lia|nia]].
Qed.
Lemma mp_div1norm_ok taba b r : normal b -> limbs taba -> 0 <= r < b ->
  yields (mp_div1norm taba b r) (fun '(tabr, r') => val taba + B ^ Z.of_nat (length taba) * r = val tabr * b + r' /\ 0 <= r' < b /\ limbs tabr /\ length tabr = length taba).
Proof.
  intros Hb Ht Hr. unfold mp_div1norm. pose proof Hb as Hb'. unfold normal in Hb'. destruct (Z.eqb_spec b 0); [lia|]. cbn [negb c_assert mbind outcome_bind mret outcome_ret yields].
  destruct (_ >=? _); (apply div_loop_ok; [intros r' a Hr' Ha|lia|done|done]); [by apply udiv1norm_ok|apply div_two_ok; [done|unfold is_limb; lia|done]].
Qed.

(** ** Division *)

(** The quotient of the two top limbs by the top limb of the divisor is the digit or at most two more. *)
Lemma digit_estimate b1 b0 X top top1 u0 : normal b1 -> 0 < X -> 0 <= b0 < X -> is_limb top -> is_limb top1 -> 0 <= u0 < X ->
  let V := b0 + X * b1 in let U := u0 + X * (top1 + B * top) in U < B * V ->
  let q := if top >=? b1 then B - 1 else (top * B + top1) / b1 in
  - 2 * V <= U - q * V < V /\ is_limb q.
Proof.
  intros Hb1 HX Hb0 Ht Ht1 Hu0. cbn zeta. intros HU. unfold normal, is_limb in *. set (V := b0 + X * b1) in *. set (q := if top >=? b1 then _ else _).
  assert (Hq : 0 <= q < B /\ q * b1 <= top * B + top1 /\ (top * B + top1 < (q + 1) * b1 \/ q = B - 1)).
  { unfold q. destruct (Z.geb_spec top b1) as [Hge|Hlt]; [split; [lia|split; [nia|by right]]|].
    pose proof (Z.div_mod (top * B + top1) b1 ltac:(lia)). pose proof (Z.mod_pos_bound (top * B + top1) b1 ltac:(lia)).
    split; [split; [apply Z.div_pos; lia|apply Z.div_lt_upper_bound; nia]|]. split; [nia|left; nia]. }
  clearbody q. destruct Hq as (Hq & Hle & Hor). split; [|lia]. split.
  - assert (X * (q * b1) <= X * (top * B + top1)) by (apply Z.mul_le_mono_nonneg_l; lia). assert (q * b0 <= (B - 1) * X) by (apply Z.mul_le_mono_nonneg; lia).
    assert (X * B <= X * (2 * b1)) by (apply Z.mul_le_mono_nonneg_l; lia). unfold V. lia.
  - destruct Hor as [Hor| ->]; [|lia]. assert (X * (top * B + top1 + 1) <= X * ((q + 1) * b1)) by (apply Z.mul_le_mono_nonneg_l; lia).
    assert (0 <= (q + 1) * b0) by (apply Z.mul_nonneg_nonneg; lia). unfold V. lia.
Qed.

(** The digit [q] is too large, by [n] at most; the window holds the negative rest modulo B. *)
Definition too_large (tabb : list Z) (U : Z) (n : nat) : Z * list Z * Z -> Prop := fun '(q, win, top) =>
  limbs win /\ length win = length tabb /\ is_limb top /\ is_limb q /\
  val win + B ^ Z.of_nat (length tabb) * (top - B) = U - q * val tabb /\ - Z.of_nat n * val tabb <= U - q * val tabb < 0.
Definition is_digit (tabb : list Z) (U : Z) : Z * list Z * Z -> Prop := fun '(q, win, top) =>
  limbs win /\ length win = length tabb /\ top = 0 /\ is_limb q /\ val win = U - q * val tabb /\ 0 <= U - q * val tabb < val tabb.

Lemma adjust_step_ok tabb U n s : limbs tabb -> 0 <= U -> too_large tabb U n s ->
  yields (adjust_step tabb s) (fun x => match x with inl s' => exists n', (n' < n)%nat /\ too_large tabb U n' s' | inr s' => is_digit tabb U s' end).
Proof.
  destruct s as [[q win] top]. intros Hb HU (Hw & Hl & Ht & Hq & E & HD1 & HD2). unfold adjust_step. pose proof (val_range tabb Hb) as HV. set (V := val tabb) in *. set (Y := B ^ Z.of_nat (length tabb)) in *.
  assert (Hq1 : limb (q - 1) = q - 1 /\ 0 < q). { unfold is_limb in *. assert (0 < q) by nia. split; [apply wrap_small; lia|done]. } destruct Hq1 as [-> Hq1].
  pose proof (mp_add_ok win tabb 0 Hw Hb Hl ltac:(lia)) as Ha. destruct (mp_add win tabb 0) as [win' c]. destruct Ha as (Ea & Hc & Hw' & Hl'). rewrite Hl in Ea, Hl'. fold Y V in Ea.
  pose proof (val_range win' Hw') as Hv'. rewrite Hl' in Hv'. fold Y in Hv'. destruct n as [|n]; [lia|].
  assert (HD : val win' + Y * (top + c - B) = U - (q - 1) * V) by lia. assert (Hlow : - Z.of_nat n * V <= U - (q - 1) * V) by lia.
  assert (Hnext : forall t, limb t = t -> is_limb t -> t = top + c -> (t - B) < 0 -> exists n', (n' < S n)%nat /\ too_large tabb U n' (q - 1, win', t)).
  { intros t _ Htl -> Hneg. exists n. split; [lia|]. unfold too_large, is_limb in *. fold V Y. repeat split; try done; try lia. nia. }
  destruct (Z.eqb_spec c 0) as [->|Hc0]; cbn [negb yields mret outcome_ret].
  - apply Hnext; unfold is_limb in *; [apply wrap_small; lia|done|lia|lia].
  - assert (c = 1) as -> by lia. unfold is_limb in *. destruct (Z.eq_dec top (B - 1)) as [->|Hne].
    + change (limb (B - 1 + 1)) with 0. cbn. fold V. repeat split; try done; try lia.
    + rewrite wrap_small by lia. destruct (Z.eqb_spec (top + 1) 0); [lia|]. apply Hnext; [apply wrap_small; lia|unfold is_limb; lia|lia|lia].
Qed.

(** The digit [i] and the rest, in place. *)
Definition digit_done (tabb : list Z) (i : nat) (taba : list Z) : Z * list Z -> Prop := fun '(q, taba') =>
  is_limb q /\ limbs taba' /\ length taba' = length taba /\ val taba = val taba' + B ^ Z.of_nat i * (q * val tabb) /\ val (drop i taba') < val tabb.
(** [b1_inv] is the reciprocal or 0, for the hardware division. *)
Definition recip_of (b1 b1_inv : Z) : Prop := b1_inv = 0 \/ b1_inv = udiv1norm_init b1.

Lemma small_top l n : limbs l -> (n <= length l)%nat -> val l < B ^ Z.of_nat n -> val (drop n l) = 0.
Proof.
  intros Hl Hn Hv. rewrite (val_split n l Hn) in Hv. pose proof (val_range (take n l) (limbs_take n l Hl)). pose proof (val_range (drop n l) (limbs_drop n l Hl)).
  assert (0 < B ^ Z.of_nat n) by (apply Z.pow_pos_nonneg; lia). nia.
Qed.

Lemma digit_guess b1 b1_inv top top1 : normal b1 -> recip_of b1 b1_inv -> is_limb top -> is_limb top1 ->
  (if top >=? b1 then limb (-1) else if negb (b1_inv =? 0) then fst (udiv1norm top top1 b1 b1_inv) else limb (((top << LIMB_BITS) .| top1) / b1)) =
  (if top >=? b1 then B - 1 else (top * B + top1) / b1).
Proof.
  intros Hb Hr Ht Ht1. destruct (Z.geb_spec top b1) as [|Hlt]; [done|]. unfold normal in Hb. destruct (Z.eqb_spec b1_inv 0) as [|Hne]; cbn [negb].
  - pose proof (div_two_ok b1 top top1) as Hd. unfold div_two in Hd. unfold is_limb in *. specialize (Hd ltac:(lia) ltac:(lia) Ht1). by injection Hd.
  - destruct Hr as [Hr|Hr]; [done|]. rewrite Hr. by rewrite udiv1norm_ok by (unfold is_limb in *; lia || done).
Qed.

Lemma divnorm_digit_split lo b1 b1_inv A W0 top1 top Zs : let tabb := lo ++ [b1] in let taba := A ++ W0 ++ top1 :: top :: Zs in
  limbs lo -> normal b1 -> recip_of b1 b1_inv -> limbs taba -> length W0 = length lo -> val Zs = 0 -> val (W0 ++ top1 :: top :: Zs) < B * val tabb ->
  yields (divnorm_digit tabb b1 b1_inv (zlen A) taba) (digit_done tabb (length A) taba).
Proof.
  cbn zeta. set (tabb := lo ++ [b1]). set (taba := A ++ W0 ++ top1 :: top :: Zs). intros Hlo Hb1 Hrec Hla Hlen HZ HU.
  assert (Hlb : length tabb = S (length lo)) by (unfold tabb; rewrite length_app; cbn; lia). assert (Hb : limbs tabb) by (apply Forall_app; split; [done|constructor; [unfold is_limb, normal in *; lia|constructor]]).
  assert (Hzb : zlen tabb = zlen lo + 1) by (unfold zlen; lia). pose proof Hla as Hla'. apply Forall_app in Hla' as [HA Hw]. apply Forall_app in Hw as [HW0 Hw].
  inversion Hw as [|? ? Ht1 Hw2]; subst. inversion Hw2 as [|? ? Ht HZs]; subst. unfold divnorm_digit. rewrite Hzb.
  assert (HlW : length (W0 ++ [top1]) = length tabb) by (rewrite length_app, Hlen, Hlb; cbn; lia).
  assert (G1 : aget taba (zlen A + (zlen lo + 1)) = Ret top).
  { unfold taba. replace (A ++ W0 ++ top1 :: top :: Zs) with ((A ++ W0 ++ [top1]) ++ top :: Zs) by (by rewrite <- !app_assoc). apply aget_at. unfold zlen. rewrite !length_app. cbn. lia. }
  assert (G2 : aget taba (zlen A + (zlen lo + 1) - 1) = Ret top1).
  { unfold taba. replace (A ++ W0 ++ top1 :: top :: Zs) with ((A ++ W0) ++ top1 :: top :: Zs) by (by rewrite <- !app_assoc). apply aget_at. unfold zlen. rewrite !length_app. lia. }
  assert (G3 : aread taba (zlen A) (zlen lo + 1) = Ret (W0 ++ [top1])).
  { rewrite aread_ok by (unfold taba, zlen; rewrite ?length_app; cbn; lia). unfold taba, zlen. rewrite Nat2Z.id, drop_app_length. replace (W0 ++ top1 :: top :: Zs) with ((W0 ++ [top1]) ++ top :: Zs) by (by rewrite <- app_assoc).
    f_equal. apply take_app_length'. rewrite HlW, Hlb. lia. }
  rewrite G1, G2, G3. cbn [mbind outcome_bind]. rewrite digit_guess by done. set (q := if top >=? b1 then B - 1 else _).
  assert (HlW' : limbs (W0 ++ [top1])) by (apply Forall_app; split; [done|by constructor]).
  set (X := B ^ Z.of_nat (length lo)). assert (HX : 0 < X) by (apply Z.pow_pos_nonneg; lia).
  assert (HV : val tabb = val lo + X * b1) by (unfold tabb; rewrite val_app; cbn [val]; unfold X; lia). assert (HY : B ^ Z.of_nat (length tabb) = B * X) by (rewrite Hlb, Nat2Z.inj_succ, Z.pow_succ_r by lia; done).
  set (U := val W0 + X * (top1 + B * top)). assert (HUv : val (W0 ++ top1 :: top :: Zs) = U) by (rewrite val_app; cbn [val]; rewrite HZ, Hlen; unfold U, X; lia).
  assert (Hv0 : val (W0 ++ [top1]) = val W0 + X * top1) by (rewrite val_app; cbn [val]; rewrite Hlen; unfold X; lia).
  pose proof (val_range lo Hlo) as Hrlo. pose proof (val_range W0 HW0) as HrW. rewrite Hlen in HrW. fold X in Hrlo, HrW.
  pose proof (digit_estimate b1 (val lo) X top top1 (val W0) Hb1 HX Hrlo Ht Ht1 HrW) as Hest. cbn zeta in Hest. rewrite <- HV in Hest. fold U in Hest. destruct Hest as [HD Hq]; [lia|]. fold q in HD, Hq.
  pose proof (sub_mul1_ok (W0 ++ [top1]) tabb q 0 HlW' Hb HlW Hq ltac:(done)) as Hs. unfold mp_sub_mul1. destruct (sub_mul1 _ _ q 0) as [win r]. destruct Hs as (Es & Hwl & Hwn & Hr).
  rewrite HlW, HY, Hv0 in Es. rewrite HlW in Hwn. pose proof (val_range win Hwl) as Hrw. rewrite Hwn, HY in Hrw. pose proof (val_range tabb Hb) as HrV. rewrite HY in HrV. set (V := val tabb) in *.
  apply yields_bind. apply (yields_mono _ (is_digit tabb U)).
  - unfold is_limb in *. destruct (Z.gtb_spec (limb (top - r)) top) as [Hgt|Hle].
    + apply (loop_yields_nat _ (too_large tabb U)) with (n := 2%nat); [intros n s Hs; apply adjust_step_ok; [done|rewrite <- HUv; apply val_range; by apply Forall_app|done]| |lia].
      limb_cases (top - r). assert (Hr0 : r0 = top - r + B /\ top - r <= -1) by lia. destruct Hr0 as [-> Hneg].
      assert (HDw : U - q * V = val win + B * X * (top - r)) by (unfold U; lia). assert (B * X * (top - r) <= B * X * (-1)) by (apply Z.mul_le_mono_nonneg_l; lia).
      unfold too_large, is_limb. fold V. rewrite HY. repeat split; try done; try lia.
    + cbn. limb_cases (top - r). assert (Hneg : 0 <= top - r) by lia. assert (HDw : U - q * V = val win + B * X * (top - r)) by (unfold U; lia).
      assert (Hr0 : top - r = 0). { destruct (Z.eq_dec (top - r) 0) as [|Hne]; [done|]. assert (B * X * 1 <= B * X * (top - r)) by (apply Z.mul_le_mono_nonneg_l; lia). lia. }
      rewrite Hr0, Z.mul_0_r in HDw. assert (r0 = 0) as -> by lia. unfold is_limb. fold V. repeat split; try done; try lia.
  - intros [[q2 win2] t2] (Hw2l & Hw2n & -> & Hq2 & Ev & HD2). fold V in Ev, HD2.
    assert (G4 : awrite taba (zlen A) win2 = Ret (A ++ win2 ++ top :: Zs)).
    { rewrite awrite_ok; [|apply zlen_nonneg|unfold taba, zlen; rewrite !length_app; cbn; rewrite Hw2n, Hlb; lia]. unfold taba, zlen. rewrite Nat2Z.id, take_app_length. f_equal. f_equal. f_equal.
      rewrite <- drop_drop, drop_app_length. replace (W0 ++ top1 :: top :: Zs) with ((W0 ++ [top1]) ++ top :: Zs) by (by rewrite <- app_assoc). apply drop_app_length'. by rewrite HlW, Hw2n. }
    rewrite G4. cbn [mbind outcome_bind]. replace (A ++ win2 ++ top :: Zs) with ((A ++ win2) ++ top :: Zs) by (by rewrite <- app_assoc).
    rewrite aset_at by (unfold zlen; rewrite length_app, Hw2n, Hlb; lia). cbn [mbind outcome_bind mret outcome_ret yields]. rewrite <- app_assoc. split; [done|].
    split; [apply Forall_app; split; [done|apply Forall_app; split; [done|by constructor]]|]. split; [unfold taba; rewrite !length_app; cbn; rewrite Hw2n, Hlb; lia|]. fold V.
    assert (Hvd : val (win2 ++ 0 :: Zs) = U - q2 * V) by (rewrite val_app; cbn [val]; rewrite HZ; lia).
    split; [unfold taba; rewrite !(val_app A), HUv, Hvd; ring|rewrite drop_app_length; lia].
Qed.

Section Quotient.
Context (lo : list Z) (b1 : Z) (Hlo : limbs lo) (Hb1 : normal b1).
Let tabb := lo ++ [b1].

Lemma divisor_facts : limbs tabb /\ length tabb = S (length lo) /\ 0 < val tabb < B ^ Z.of_nat (length tabb) /\ B ^ Z.of_nat (length tabb) <= 2 * val tabb.
Proof.
  unfold normal in Hb1. assert (Hb : limbs tabb) by (apply Forall_app; split; [done|constructor; [unfold is_limb; lia|constructor]]).
  assert (Hl : length tabb = S (length lo)) by (unfold tabb; rewrite length_app; cbn; lia). pose proof (val_range tabb Hb). pose proof (val_range lo Hlo) as Hr.
  assert (HV : val tabb = val lo + B ^ Z.of_nat (length lo) * b1) by (unfold tabb; rewrite val_app; cbn [val]; lia).
  assert (HX : 0 < B ^ Z.of_nat (length lo)) by (apply Z.pow_pos_nonneg; lia). split; [done|]. split; [done|].
  assert (HY : B ^ Z.of_nat (length tabb) = B * B ^ Z.of_nat (length lo)) by (rewrite Hl, Nat2Z.inj_succ, Z.pow_succ_r by lia; done). rewrite HY in *. nia.
Qed.

Lemma divnorm_digit_ok b1_inv i taba : recip_of b1 b1_inv -> lo <> [] -> limbs taba -> (i + length tabb < length taba)%nat -> val (drop (S i) taba) < val tabb ->
  yields (divnorm_digit tabb b1 b1_inv (Z.of_nat i) taba) (digit_done tabb i taba).
Proof.
  intros Hrec Hne Hla Hi Hv. destruct divisor_facts as (Hb & Hlb & HV & _). set (A := take i taba). assert (HlA : length A = i) by (unfold A; rewrite length_take_le by lia; done).
  set (R := drop i taba). assert (HlR : (length tabb < length R)%nat) by (unfold R; rewrite length_drop; lia).
  assert (HR : exists W0 top1 top Zs, R = W0 ++ top1 :: top :: Zs /\ length W0 = length lo).
  { pose proof (take_drop (length lo) R) as E. pose proof (length_drop R (length lo)) as El. destruct (drop (length lo) R) as [|top1 [|top Zs]] eqn:Ed; [cbn in El; lia|cbn in El; lia|].
    exists (take (length lo) R), top1, top, Zs. split; [by rewrite E|]. rewrite length_take_le; lia. }
  destruct HR as (W0 & top1 & top & Zs & ER & HlW). assert (Et : taba = A ++ W0 ++ top1 :: top :: Zs) by (rewrite <- ER; unfold A, R; by rewrite take_drop).
  assert (Hd : drop (S i) taba = drop 1 R) by (unfold R; rewrite drop_drop; f_equal; lia).
  assert (HlR' : limbs R) by (by apply limbs_drop).
  assert (HZ : val Zs = 0).
  { assert (Hdz : drop (length tabb) (drop (S i) taba) = Zs).
    { rewrite Hd, drop_drop, ER. replace (W0 ++ top1 :: top :: Zs) with ((W0 ++ [top1; top]) ++ Zs) by (by rewrite <- app_assoc). apply drop_app_length'. rewrite length_app, HlW, Hlb. cbn. lia. }
    rewrite <- Hdz. apply small_top; [by apply limbs_drop|rewrite length_drop; lia|lia]. }
  assert (HU : val R < B * val tabb).
  { rewrite (val_split 1 R) by lia. rewrite <- Hd. pose proof (val_range (take 1 R) (limbs_take 1 R HlR')) as Hr1. rewrite length_take_le in Hr1 by lia. change (B ^ Z.of_nat 1) with B in *. lia. }
  pose proof (divnorm_digit_split lo b1 b1_inv A W0 top1 top Zs) as Hs. cbn zeta in Hs. rewrite <- Et, <- ER in Hs. unfold zlen in Hs. rewrite HlA in Hs. by apply Hs.
Qed.

Lemma divnorm_loop_ok b1_inv n : forall taba tabq, recip_of b1 b1_inv -> lo <> [] -> limbs taba -> limbs tabq -> (n + length tabb <= length taba)%nat -> val (drop n taba) < val tabb ->
  yields (divnorm_loop tabb b1 b1_inv n taba tabq) (fun '(q, t) => limbs q /\ limbs t /\ length q = (n + length tabq)%nat /\ length t = length taba /\
    val taba + B ^ Z.of_nat n * (val tabq * val tabb) = val t + val q * val tabb /\ val t < val tabb).
Proof.
  induction n as [|n IH]; intros taba tabq Hrec Hne Hla Hlq Hn Hv; cbn [divnorm_loop].
  - cbn. split; [done|]. split; [done|]. split; [done|]. split; [done|]. rewrite drop_0 in Hv. change (B ^ Z.of_nat 0) with 1. split; [lia|done].
  - apply yields_bind. eapply yields_mono; [apply divnorm_digit_ok; [done|done|done|lia|done]|]. intros (q & t) (Hq & Hlt & Hlen & E & Hd). cbn beta; cbn match.
    eapply yields_mono; [apply (IH t (q :: tabq)); [done|done|done|by constructor|lia|done]|]. intros (q2 & t2) (H1 & H2 & H3 & H4 & E2 & H5).
    split; [done|]. split; [done|]. split; [rewrite H3; cbn; lia|]. split; [congruence|]. split; [|done]. rewrite <- E2, E. cbn [val].
    rewrite Nat2Z.inj_succ, Z.pow_succ_r by lia. ring.
Qed.

(** The schoolbook division. *)
Lemma mp_divnorm_ok large taba : limbs taba -> (length tabb <= length taba)%nat ->
  zlen tabb < DIVNORM_LARGE_THRESHOLD \/ zlen taba - zlen tabb < DIVNORM_LARGE_THRESHOLD ->
  yields (mp_divnorm large taba tabb) (fun r => exists q t, r = Some (q, t) /\ limbs q /\ limbs t /\ length q = S (length taba - length tabb) /\ length t = length taba /\
    let rest := val (take (length tabb) t) in val taba = val q * val tabb + rest /\ rest < val tabb).
Proof.
  intros Hla Hle Hth. destruct divisor_facts as (Hb & Hlb & HV & H2V). unfold mp_divnorm.
  assert (G : aget tabb (zlen tabb - 1) = Ret b1) by (unfold tabb; apply aget_at; unfold zlen; rewrite length_app; cbn; lia). rewrite G. cbn [mbind outcome_bind].
  unfold normal in Hb1. destruct (Z.eqb_spec (zlen tabb) 1) as [H1|H1].
  - assert (El : lo = []) by (apply nil_length_inv; unfold zlen in H1; lia). assert (Et : tabb = [b1]) by (unfold tabb; by rewrite El).
    apply yields_bind. eapply yields_mono; [apply (mp_div1norm_ok taba b1 0 Hb1 Hla); lia|]. intros (tabq & r) (E & Hr & Hlq & Hlen). cbn beta; cbn match. rewrite aset_ok by (unfold zlen in *; lia).
    cbn [mbind outcome_bind mret outcome_ret yields]. exists tabq, (<[Z.to_nat 0 := r]> taba). split; [done|]. split; [done|].
    split; [apply Forall_insert; [done|unfold is_limb; lia]|]. split; [unfold zlen in H1; lia|]. split; [by rewrite length_insert|]. rewrite Hlb, El. cbn [length].
    assert (Ht1 : val (take 1 (<[Z.to_nat 0:=r]> taba)) = r) by (destruct taba as [|a taba]; [cbn [length] in Hle; lia|change (r + B * val (take 0 taba) = r); rewrite take_0; cbn [val]; lia]).
    assert (HVb : val tabb = b1) by (rewrite Et; cbn [val]; lia). rewrite Ht1, HVb, Z.mul_0_r in *. lia.
  - assert (Hne : lo <> []) by (intros El; apply (f_equal length) in El; unfold zlen in H1; cbn [length] in El; lia). unfold min_limb.
    destruct (Z.geb_spec (if zlen taba - zlen tabb <? zlen tabb then zlen taba - zlen tabb else zlen tabb) DIVNORM_LARGE_THRESHOLD) as [Hge|_]; [destruct (Z.ltb_spec (zlen taba - zlen tabb) (zlen tabb)); lia|].
    set (n := (length taba - length tabb)%nat). assert (Hn : zlen taba - zlen tabb = Z.of_nat n) by (unfold zlen; lia). rewrite Hn. set (b1_inv := if _ >=? _ then _ else 0).
    assert (Hrec : recip_of b1 b1_inv) by (unfold b1_inv, recip_of; destruct (_ >=? _); auto).
    rewrite aread_ok by (unfold zlen in *; lia). cbn [mbind outcome_bind]. rewrite Nat2Z.id. unfold zlen. rewrite Nat2Z.id.
    set (hi := take (length tabb) (drop n taba)). assert (Ehi : hi = drop n taba) by (unfold hi; apply take_ge; rewrite length_drop; lia).
    assert (Hlh : limbs hi) by (rewrite Ehi; by apply limbs_drop). assert (Hlen : length hi = length tabb) by (rewrite Ehi, length_drop; lia). rewrite mp_cmp_ok by done.
    pose proof (val_range hi Hlh) as Hrh. rewrite Hlen in Hrh. pose proof (val_split n taba ltac:(lia)) as Hsp. rewrite <- Ehi in Hsp.
    assert (Hfirst : forall q t, limbs t -> length t = length taba -> val (drop n t) < val tabb -> is_limb q -> val taba = val t + B ^ Z.of_nat n * (q * val tabb) ->
      yields (r ← divnorm_loop tabb b1 b1_inv n t [q]; mret (Some r)) (fun r => exists q t, r = Some (q, t) /\ limbs q /\ limbs t /\ length q = S n /\ length t = length taba /\
        let rest := val (take (length tabb) t) in val taba = val q * val tabb + rest /\ rest < val tabb)).
    { intros q t Hlt Hlent Hvt Hq Ev. apply yields_bind. eapply yields_mono; [apply divnorm_loop_ok; [done|done|done|constructor; [done|constructor]|lia|done]|].
      intros (q2 & t2) (L1 & L2 & L3 & L4 & E2 & L5). cbn [yields mret outcome_ret]. exists q2, t2. split; [done|]. split; [done|]. split; [done|]. split; [rewrite L3; cbn; lia|]. split; [congruence|].
      cbn zeta. assert (Htail : val t2 = val (take (length tabb) t2)).
      { rewrite (val_split (length tabb) t2) at 1 by lia. rewrite small_top; [lia|done|lia|lia]. }
      rewrite <- Htail. split; [|done]. rewrite Ev. cbn [val] in E2. lia. }
    assert (Hsub : val tabb <= val hi -> exists hi', fst (mp_sub hi tabb 0) = hi' /\ val hi' = val hi - val tabb /\ limbs hi' /\ length hi' = length tabb).
    { intros Hge. pose proof (mp_sub_ok hi tabb 0 Hlh Hb Hlen ltac:(lia)) as Hs. destruct (mp_sub hi tabb 0) as (hi', k). destruct Hs as (Es & Hk & Hl' & Hlen'). rewrite Hlen in *.
      pose proof (val_range hi' Hl') as Hr'. rewrite Hlen' in Hr'. assert (k = 0) as -> by nia. exists hi'. cbn. repeat split; try done; lia. }
    assert (Hone : val tabb <= val hi -> yields (taba ← awrite taba (Z.of_nat n) (fst (mp_sub hi tabb 0)); r ← divnorm_loop tabb b1 b1_inv n taba [1]; mret (Some r))
      (fun r => exists q t, r = Some (q, t) /\ limbs q /\ limbs t /\ length q = S n /\ length t = length taba /\
        let rest := val (take (length tabb) t) in val taba = val q * val tabb + rest /\ rest < val tabb)).
    { intros Hge. destruct (Hsub Hge) as (hi' & -> & Ev & Hl' & Hlen'). rewrite awrite_ok by (unfold zlen; lia). cbn [mbind outcome_bind]. rewrite Nat2Z.id.
      assert (Hdn : drop (n + length hi') taba = []) by (apply drop_ge; lia). rewrite Hdn, app_nil_r.
      assert (Hlt' : length (take n taba) = n) by (apply length_take_le; lia). pose proof (Hfirst 1 (take n taba ++ hi')) as Hf. apply Hf.
      - apply Forall_app. split; [by apply limbs_take|done].
      - rewrite length_app. lia.
      - rewrite drop_app_length' by done. pose proof (val_range hi Hlh). rewrite Hlen in *. lia.
      - done.
      - rewrite val_app, Hlt'. rewrite Hsp. rewrite Ev. ring. }
    destruct (Z.eqb_spec (val hi) (val tabb)) as [Eq|Ne]; [|destruct (Z.ltb_spec (val hi) (val tabb)) as [Hlt|Hge]].
    + change (0 <? 0) with false. cbn match. change (negb (1 =? 0)) with true. cbn match. apply Hone. lia.
    + change (-1 <? 0) with true. cbn match. change (negb (0 =? 0)) with false. cbn [mbind outcome_bind mret outcome_ret]. apply (Hfirst 0 taba); [done|done|rewrite <- Ehi; done|done|lia].
    + change (1 <? 0) with false. cbn match. change (negb (1 =? 0)) with true. cbn match. apply Hone. lia.
Qed.
End Quotient.
