(* ===== verification/BigFloat.v ===== *)
(** * Floating point numbers of any precision (libbf.c)

    A number has a sign, an exponent and a mantissa of limbs, the least significant first, with the radix point in front of the last: 0.1xxx times a power
    of two.  Zeros, infinities and NaN have exponents of their own and no limbs.

    A function that writes [r] takes the old contents of [r] and answers the new ones: [bf_resize] reallocates the limbs of [r] in a context
    [bf_context_t], which may refuse.  Signed exponents are checked for overflow by [c_slimb]. *)

From stdpp Require Import base list.
From S2P Require Import Prelude Cutils Limbs.
#[local] Open Scope Z_scope.

(** ** Data *)

Definition BF_EXP_BITS_MAX : Z := LIMB_BITS - 3.
Definition BF_PREC_MAX : Z := 2 ^ (LIMB_BITS - 2) - 2.
Definition BF_PREC_INF : Z := BF_PREC_MAX + 1.
Definition BF_EXT_EXP_BITS_MAX : Z := BF_EXP_BITS_MAX + 1.
Definition BF_EXP_ZERO : Z := - 2 ^ 63.
Definition BF_EXP_INF : Z := 2 ^ 63 - 2.
Definition BF_EXP_NAN : Z := 2 ^ 63 - 1.

Definition BF_RNDN : Z := 0.
Definition BF_RNDZ : Z := 1.
Definition BF_RNDD : Z := 2.
Definition BF_RNDU : Z := 3.
Definition BF_RNDNA : Z := 4.
Definition BF_RNDA : Z := 5.
Definition BF_RNDF : Z := 6.
Definition BF_FLAG_SUBNORMAL : Z := 8.
Definition BF_FLAG_RADPNT_PREC : Z := 16.
Definition BF_RND_MASK : Z := 7.
Definition BF_EXP_BITS_SHIFT : Z := 5.
Definition BF_EXP_BITS_MASK : Z := 63.
Definition BF_ST_INVALID_OP : Z := 1.
Definition BF_ST_DIVIDE_ZERO : Z := 2.
Definition BF_ST_OVERFLOW : Z := 4.
Definition BF_ST_UNDERFLOW : Z := 8.
Definition BF_ST_INEXACT : Z := 16.
Definition BF_ST_MEM_ERROR : Z := 32.
Definition bf_get_exp_bits (flags : Z) : Z :=
  let e := (flags >> BF_EXP_BITS_SHIFT) .& BF_EXP_BITS_MASK in
  if e =? BF_EXP_BITS_MASK then BF_EXP_BITS_MAX + 1 else BF_EXP_BITS_MAX - e.

Record bf_t := MkBf { sign : Z; expn : Z; tab : list Z }.
Definition len (r : bf_t) : Z := zlen (tab r).
Definition set_tab (t : list Z) (r : bf_t) : bf_t := MkBf (sign r) (expn r) t.
Definition set_expn (e : Z) (r : bf_t) : bf_t := MkBf (sign r) e (tab r).
Definition set_sign (s : Z) (r : bf_t) : bf_t := MkBf s (expn r) (tab r).
Definition bf_init : bf_t := MkBf 0 BF_EXP_ZERO [].
Definition bf_is_finite (a : bf_t) : bool := expn a <? BF_EXP_INF.
Definition bf_is_nan (a : bf_t) : bool := expn a =? BF_EXP_NAN.
Definition bf_is_zero (a : bf_t) : bool := expn a =? BF_EXP_ZERO.
Definition bf_neg (r : bf_t) : bf_t := set_sign (sign r .^ 1) r.

(** The value of an expression of type [slimb_t]. *)
Definition c_slimb (x : Z) : outcome Z := if (- 2 ^ 63 <=? x) && (x <? 2 ^ 63) then mret x else Undef.

(** The allocator: [bf_realloc s tab n] makes the array [tab] one of [n] limbs; a block that does not grow is never refused. *)
Class bf_context := {
  bf_context_t : Type;
  bf_realloc : bf_context_t -> list Z -> Z -> option (list Z) * bf_context_t;
  bf_realloc_spec s tab n tab' s' : 0 <= n -> limbs tab -> bf_realloc s tab n = (Some tab', s') ->
    zlen tab' = n /\ limbs tab' /\ take (Z.to_nat (Z.min n (zlen tab))) tab' = take (Z.to_nat (Z.min n (zlen tab))) tab;
  bf_realloc_shrink s tab n : 0 <= n <= zlen tab -> is_Some (fst (bf_realloc s tab n)) }.

Section BigFloat.
Context {HC : bf_context}.

(** [true]: the allocation failed. *)
Definition bf_resize (r : bf_t) (n : Z) (s : bf_context_t) : bool * bf_t * bf_context_t :=
  if n =? len r then (false, r, s)
  else match bf_realloc s (tab r) n with
       | (Some t, s) => (false, set_tab t r, s)
       | (None, s) => if n =? 0 then (false, set_tab [] r, s) else (true, r, s)
       end.
Definition bf_set_special (e sgn : Z) (r : bf_t) (s : bf_context_t) : bf_t * bf_context_t :=
  let '(_, r, s) := bf_resize r 0 s in (MkBf sgn e (tab r), s).
Definition bf_set_nan (r : bf_t) (s : bf_context_t) : bf_t * bf_context_t := bf_set_special BF_EXP_NAN 0 r s.
Definition bf_set_zero (r : bf_t) (is_neg : Z) (s : bf_context_t) : bf_t * bf_context_t := bf_set_special BF_EXP_ZERO is_neg r s.
Definition bf_set_inf (r : bf_t) (is_neg : Z) (s : bf_context_t) : bf_t * bf_context_t := bf_set_special BF_EXP_INF is_neg r s.
(** The label [fail] of most functions. *)
Definition mem_error (r : bf_t) (s : bf_context_t) : Z * bf_t * bf_context_t := let '(r, s) := bf_set_nan r s in (BF_ST_MEM_ERROR, r, s).

Definition bf_set_ui (r : bf_t) (a : Z) (s : bf_context_t) : outcome (Z * bf_t * bf_context_t) :=
  let r := set_sign 0 r in
  if a =? 0 then let '(_, r, s) := bf_resize (set_expn BF_EXP_ZERO r) 0 s in mret (0, r, s)
  else
    let '(failed, r, s) := bf_resize r 1 s in
    if failed then mret (mem_error r s)
    else
      shift ← clz a;
      t ← aset (tab r) 0 (limb (a << shift));
      mret (0, MkBf (sign r) (LIMB_BITS - shift) t, s).
Definition bf_set_si (r : bf_t) (a : Z) (s : bf_context_t) : outcome (Z * bf_t * bf_context_t) :=
  if a <? 0 then
    m ← c_slimb (- a);
    '(ret, r, s) ← bf_set_ui r (u64 m) s;
    mret (ret, set_sign 1 r, s)
  else bf_set_ui r a s.
(** [r] is another number than [a]. *)
Definition bf_set (r a : bf_t) (s : bf_context_t) : outcome (Z * bf_t * bf_context_t) :=
  let '(failed, r, s) := bf_resize r (len a) s in
  if failed then mret (mem_error r s)
  else t ← awrite (tab r) 0 (tab a); mret (0, MkBf (sign a) (expn a) t, s).

(** ** Bits *)

Definition get_limbz (a : bf_t) (idx : Z) : Z := if limb idx >=? len a then 0 else default 0 (tab a !! Z.to_nat (limb idx)).
Definition get_bits (tab : list Z) (pos : Z) : Z :=
  let i := limb (pos >> LIMB_LOG2_BITS) in
  let p := pos .& (LIMB_BITS - 1) in
  let at_limb i := if i <? zlen tab then default 0 (tab !! Z.to_nat i) else 0 in
  if p =? 0 then at_limb i else (at_limb i >> p) .| limb (at_limb (limb (i + 1)) << (LIMB_BITS - p)).
Definition get_bit (tab : list Z) (pos : Z) : Z :=
  let i := pos >> LIMB_LOG2_BITS in
  if (i <? 0) || (i >=? zlen tab) then 0 else (default 0 (tab !! Z.to_nat i) >> (pos .& (LIMB_BITS - 1))) .& 1.
Definition scan_bit_nz (r : bf_t) (bit_pos : Z) : outcome Z :=
  let pos := bit_pos >> LIMB_LOG2_BITS in
  if pos <? 0 then mret 0
  else v ← aget (tab r) pos;
       if negb (v .& limb_mask 0 (bit_pos .& (LIMB_BITS - 1)) =? 0) then mret 1 else mret (mp_scan_nz (take (Z.to_nat pos) (tab r))).

(** ** Rounding *)

Definition bf_max (a b : Z) : Z := if a >? b then a else b.
Definition bf_min (a b : Z) : Z := if a <? b then a else b.

(** The addend and the status; positions are computed without sign. *)
Definition bf_get_rnd_add (ret : Z) (r : bf_t) (l prec rnd_mode : Z) : outcome (Z * Z) :=
  bit0 ← (if rnd_mode =? BF_RNDF then mret 1 else p1 ← c_slimb (prec + 1); scan_bit_nz r (slimb (l * LIMB_BITS - 1 - bf_max 0 p1)));
  let bit1 := get_bit (take (Z.to_nat l) (tab r)) (slimb (l * LIMB_BITS - 1 - prec)) in
  let inexact := b2z (negb (bit1 .| bit0 =? 0)) in
  add_one ← (if rnd_mode =? BF_RNDZ then mret 0
             else if rnd_mode =? BF_RNDN then
               if bit1 =? 0 then mret 0
               else if negb (bit0 =? 0) then mret 1
               else p ← c_slimb (prec - 1); mret (get_bit (take (Z.to_nat l) (tab r)) (slimb (l * LIMB_BITS - 1 - p)))
             else if (rnd_mode =? BF_RNDD) || (rnd_mode =? BF_RNDU) then mret (if sign r =? b2z (rnd_mode =? BF_RNDD) then inexact else 0)
             else if rnd_mode =? BF_RNDA then mret inexact
             else if (rnd_mode =? BF_RNDNA) || (rnd_mode =? BF_RNDF) then mret bit1
             else Undef);
  mret (add_one, if inexact =? 0 then ret else ret .| BF_ST_INEXACT).

Definition bf_set_overflow (r : bf_t) (sgn prec flags : Z) (s : bf_context_t) : outcome (Z * bf_t * bf_context_t) :=
  let rnd_mode := flags .& BF_RND_MASK in
  let st := BF_ST_OVERFLOW .| BF_ST_INEXACT in
  if (prec =? BF_PREC_INF) || (rnd_mode =? BF_RNDN) || (rnd_mode =? BF_RNDNA) || (rnd_mode =? BF_RNDA) ||
     ((rnd_mode =? BF_RNDD) && (sgn =? 1)) || ((rnd_mode =? BF_RNDU) && (sgn =? 0)) then
    let '(r, s) := bf_set_inf r sgn s in mret (st, r, s)
  else
    let l := (prec + LIMB_BITS - 1) / LIMB_BITS in
    let '(failed, r, s) := bf_resize r l s in
    if failed then mret (mem_error r s)
    else
      t ← aset (tab r) 0 (limb_mask (limb (- prec) .& (LIMB_BITS - 1)) (LIMB_BITS - 1));
      let t := take 1 t ++ replicate (Z.to_nat (l - 1)) (limb (-1)) in
      mret (st, MkBf sgn (1 << (bf_get_exp_bits flags - 1)) t, s).

(** The least significant limbs that are zero; an array of zeros would be left. *)
Fixpoint skip_zeros (t : list Z) : outcome (list Z) :=
  match t with [] => Undef | a :: t => if a =? 0 then skip_zeros t else mret (a :: t) end.

(** The bits from 'prec - 1' on; trailing zero limbs are removed. *)
Definition keep_bits (r : bf_t) (l prec ret : Z) (s : bf_context_t) : outcome (Z * bf_t * bf_context_t) :=
  p ← c_slimb (prec - 1);
  let bit_pos := slimb (l * LIMB_BITS - 1 - p) in
  let i := bit_pos >> LIMB_LOG2_BITS in
  t ← (if i >=? 0 then
         let shift := bit_pos .& (LIMB_BITS - 1) in
         if negb (shift =? 0) then v ← aget (tab r) i; aset (tab r) i (v .& limb_mask shift (LIMB_BITS - 1)) else mret (tab r)
       else mret (tab r));
  let i := if i >=? 0 then i else 0 in
  rest ← skip_zeros (drop (Z.to_nat i) (take (Z.to_nat l) t));
  t ← awrite t 0 rest;
  let '(_, r, s) := bf_resize (set_tab t r) (zlen rest) s in
  mret (ret, r, s).

(** One is added at the bit 'prec - 1'; a carry out of the number shifts it right. *)
Definition add_ulp (r : bf_t) (l prec : Z) : outcome bf_t :=
  p ← c_slimb (prec - 1);
  let bit_pos := slimb (l * LIMB_BITS - 1 - p) in
  let pos := bit_pos >> LIMB_LOG2_BITS in
  win ← aread (tab r) pos (l - pos);
  let '(win, carry) := mp_add_ui win (1 << (bit_pos .& (LIMB_BITS - 1))) in
  '(win, e) ← (if negb (carry =? 0) then e ← c_slimb (expn r + 1); mret (fst (shr_loop win 1 1), e) else mret (win, expn r));
  t ← awrite (tab r) pos win;
  mret (MkBf (sign r) e t).

Definition set_underflow (r : bf_t) (ret : Z) (s : bf_context_t) : outcome (Z * bf_t * bf_context_t) :=
  let '(r, s) := bf_set_zero r (sign r) s in mret ((ret .| BF_ST_UNDERFLOW) .| BF_ST_INEXACT, r, s).

Definition __bf_round (r : bf_t) (prec1 flags l ret : Z) (s : bf_context_t) : outcome (Z * bf_t * bf_context_t) :=
  let e_range := 1 << (bf_get_exp_bits flags - 1) in
  let e_min := - e_range + 3 in
  let e_max := e_range in
  prec ← (if negb (flags .& BF_FLAG_RADPNT_PREC =? 0) then
            if negb (prec1 =? BF_PREC_INF) then c_slimb (expn r + prec1) else mret prec1
          else if (expn r <? e_min) && negb (flags .& BF_FLAG_SUBNORMAL =? 0) then
            _ ← c_assert (negb (prec1 =? BF_PREC_INF)); d ← c_slimb (e_min - expn r); c_slimb (prec1 - d)
          else mret prec1);
  '(add_one, ret) ← bf_get_rnd_add ret r l prec (flags .& BF_RND_MASK);
  if prec <=? 0 then
    if negb (add_one =? 0) then
      let '(_, r, s) := bf_resize r 1 s in
      t ← aset (tab r) 0 (1 << (LIMB_BITS - 1));
      d ← c_slimb (1 - prec);
      e ← c_slimb (expn r + d);
      mret ((ret .| BF_ST_UNDERFLOW) .| BF_ST_INEXACT, MkBf (sign r) e t, s)
    else set_underflow r ret s
  else
    r ← (if negb (add_one =? 0) then add_ulp r l prec else mret r);
    let small := expn r <? e_min in
    if small && (flags .& BF_FLAG_SUBNORMAL =? 0) then set_underflow r ret s
    else
      let ret := if small && negb (ret .& BF_ST_INEXACT =? 0) then ret .| BF_ST_UNDERFLOW else ret in
      if expn r >? e_max then bf_set_overflow r (sign r) prec1 flags s
      else keep_bits r l prec ret s.
Definition bf_round (r : bf_t) (prec flags : Z) (s : bf_context_t) : outcome (Z * bf_t * bf_context_t) :=
  if len r =? 0 then mret (0, r, s) else __bf_round r prec flags (len r) 0 s.

(** [l] without the zero limbs at the top. *)
Fixpoint trim_len (t : list Z) : Z := match t with [] => 0 | a :: t => let n := trim_len t in if (n =? 0) && (a =? 0) then 0 else n + 1 end.
Fixpoint shl_loop (t : list Z) (shift v : Z) : list Z :=
  match t with [] => [] | a :: t => (limb (a << shift) .| (v >> (LIMB_BITS - shift))) :: shl_loop t shift a end.
Definition bf_normalize_and_round (r : bf_t) (prec1 flags : Z) (s : bf_context_t) : outcome (Z * bf_t * bf_context_t) :=
  let l := trim_len (tab r) in
  if l =? 0 then let '(_, r, s) := bf_resize (set_expn BF_EXP_ZERO r) 0 s in mret (0, r, s)
  else
    e ← c_slimb (expn r - (len r - l) * LIMB_BITS);
    v ← aget (tab r) (l - 1);
    shift ← clz v;
    r ← (if negb (shift =? 0) then
           e ← c_slimb (e - shift); t ← awrite (tab r) 0 (shl_loop (take (Z.to_nat l) (tab r)) shift 0); mret (MkBf (sign r) e t)
         else mret (set_expn e r));
    __bf_round r prec1 flags l 0 s.
End BigFloat.

(** ** Bits of arrays *)

Lemma shiftl_pow n : 0 <= n -> 1 << n = 2 ^ n.
Proof. intros. rewrite Z.shiftl_mul_pow2 by done. lia. Qed.
Lemma land_low x n : 0 <= n -> x .& (2 ^ n - 1) = x mod 2 ^ n.
Proof. intros. rewrite <- Z.land_ones by done. by rewrite Z.ones_equiv, <- Z.sub_1_r. Qed.
Lemma limb_index x : x >> LIMB_LOG2_BITS = x / 64.
Proof. by rewrite Z.shiftr_div_pow2. Qed.
Lemma bit_index x : x .& (LIMB_BITS - 1) = x mod 64.
Proof. by apply (land_low x 6). Qed.

Lemma val_limb t : limbs t -> forall i, default 0 (t !! i) = (val t / B ^ Z.of_nat i) mod B.
Proof.
  induction 1 as [|a t Ha Ht IH]; intros i; [cbn [val]; rewrite lookup_nil, Z.div_0_l by lia; done|]. cbn [val]. unfold is_limb in Ha. destruct i as [|i].
  - cbn [lookup list_lookup default]. change (B ^ Z.of_nat 0) with 1. rewrite Z.div_1_r. rewrite (Z.mul_comm B), Z.mod_add by lia. symmetry. by apply Z.mod_small.
  - cbn [lookup list_lookup]. rewrite IH. rewrite Nat2Z.inj_succ, Z.pow_succ_r, <- Z.div_div by lia. f_equal. f_equal. rewrite (Z.mul_comm B), Z.div_add by lia. rewrite (Z.div_small a); lia.
Qed.
Lemma pow_limbs n : 0 <= n -> B ^ n = 2 ^ (64 * n).
Proof. intros. by rewrite <- Z.pow_mul_r by lia. Qed.

(** The bit [pos] of a number. *)
Definition zbit (N pos : Z) : Z := if pos <? 0 then 0 else (N / 2 ^ pos) mod 2.
Lemma get_bit_ok t pos : limbs t -> get_bit t pos = zbit (val t) pos.
Proof.
  intros Ht. unfold get_bit, zbit. rewrite limb_index, bit_index. pose proof (Z.div_mod pos 64 ltac:(lia)) as E. pose proof (Z.mod_pos_bound pos 64 ltac:(lia)) as Hp.
  set (i := pos / 64) in *. set (p := pos mod 64) in *. pose proof (val_range t Ht) as Hr. destruct (Z.ltb_spec pos 0); [destruct (Z.ltb_spec i 0); [done|lia]|].
  destruct (Z.ltb_spec i 0); [lia|]. rewrite pow_limbs in Hr by lia. destruct (Z.geb_spec i (zlen t)) as [Hi|Hi]; cbn [orb].
  - rewrite Z.div_small; [done|]. unfold zlen in Hi. assert (2 ^ (64 * Z.of_nat (length t)) <= 2 ^ pos) by (apply Z.pow_le_mono_r; lia). lia.
  - rewrite val_limb by done. rewrite Z2Nat.id, pow_limbs by lia. change 1 with (2 ^ 1 - 1) at 1. rewrite land_low by lia. change (2 ^ 1) with 2. rewrite Z.shiftr_div_pow2 by lia.
    rewrite E at 1. rewrite Z.pow_add_r, <- Z.div_div by lia. set (x := val t / 2 ^ (64 * i)).
    rewrite (Z.div_mod x B) at 2 by lia. assert (HB : B = 2 ^ p * (2 ^ (63 - p) * 2)) by (change 2 with (2 ^ 1) at 4; rewrite <- !Z.pow_add_r by lia; f_equal; lia).
    rewrite HB at 2. replace (2 ^ p * (2 ^ (63 - p) * 2) * (x / B) + x mod B) with (x mod B + 2 ^ (63 - p) * 2 * (x / B) * 2 ^ p) by ring.
    rewrite Z.div_add by lia. replace (2 ^ (63 - p) * 2 * (x / B)) with (2 ^ (63 - p) * (x / B) * 2) by ring. by rewrite Z.mod_add by lia.
Qed.

Lemma limb_mask_low q : 0 <= q < 64 -> limb_mask 0 q = 2 ^ (q + 1) - 1.
Proof.
  intros. unfold limb_mask. rewrite Z.sub_0_r, Z.shiftl_0_r. destruct (Z.eqb_spec (q + 1) LIMB_BITS) as [E|E]; unfold LIMB_BITS in E.
  - assert (q = 63) as -> by lia. done.
  - rewrite shiftl_pow by lia. assert (2 ^ (q + 1) <= 2 ^ 63) by (apply Z.pow_le_mono_r; lia). assert (0 < 2 ^ (q + 1)) by lia. by rewrite !(wrap_small 64) by (rewrite ?(wrap_small 64); lia).
Qed.
Lemma limb_mask_high q : 0 <= q < 64 -> limb_mask q 63 = B - 2 ^ q.
Proof.
  intros. unfold limb_mask. destruct (Z.eqb_spec (63 - q + 1) LIMB_BITS) as [E|E]; unfold LIMB_BITS in E.
  - assert (q = 0) as -> by lia. done.
  - rewrite shiftl_pow by lia. assert (2 ^ (63 - q + 1) <= 2 ^ 63) by (apply Z.pow_le_mono_r; lia). rewrite (wrap_small 64 (_ - 1)) by lia. rewrite Z.shiftl_mul_pow2 by lia.
    assert (HB : B = 2 ^ (63 - q + 1) * 2 ^ q) by (rewrite <- Z.pow_add_r by lia; f_equal; lia). assert (0 < 2 ^ q) by lia. assert (2 ^ q <= 2 ^ 63) by (apply Z.pow_le_mono_r; lia).
    rewrite Z.mul_sub_distr_r, <- HB, Z.mul_1_l. apply wrap_small. lia.
Qed.
Lemma land_high v q : is_limb v -> 0 <= q < 64 -> v .& limb_mask q 63 = v / 2 ^ q * 2 ^ q.
Proof.
  intros Hv Hq. rewrite limb_mask_high by done. rewrite <- Z.shiftr_div_pow2, <- Z.shiftl_mul_pow2 by lia. replace (B - 2 ^ q) with (Z.ones (64 - q) << q).
  - apply Z.bits_inj_iff'. intros n Hn. rewrite Z.land_spec, !Z.shiftl_spec by done. destruct (Z.leb_spec q n).
    + rewrite Z.shiftr_spec by lia. replace (n - q + q) with n by lia. destruct (Z.ltb_spec n 64).
      * rewrite Z.ones_spec_low by lia. by rewrite andb_true_r.
      * unfold is_limb in Hv. rewrite Z.ones_spec_high by lia. rewrite andb_false_r. symmetry. destruct (Z.eq_dec v 0) as [->|]; [apply Z.bits_0|].
        apply Z.bits_above_log2; [lia|]. assert (Z.log2 v < 64) by (apply Z.log2_lt_pow2; lia). lia.
    + rewrite (Z.testbit_neg_r _ (n - q)) by lia. rewrite andb_false_r. symmetry. by rewrite Z.testbit_neg_r by lia.
  - rewrite Z.shiftl_mul_pow2, Z.ones_equiv by lia. rewrite <- Z.sub_1_r, Z.mul_sub_distr_r, <- Z.pow_add_r by lia. rewrite Z.mul_1_l. do 2 f_equal. lia.
Qed.

(** The bits up to [pos] are not all zero. *)
Lemma scan_bit_nz_ok r pos : limbs (tab r) -> pos < 64 * len r -> scan_bit_nz r pos = Ret (b2z (if pos <? 0 then false else negb (val (tab r) mod 2 ^ (pos + 1) =? 0))).
Proof.
  intros Ht Hpos. unfold scan_bit_nz. rewrite limb_index, bit_index. pose proof (Z.div_mod pos 64 ltac:(lia)) as E. pose proof (Z.mod_pos_bound pos 64 ltac:(lia)) as Hp.
  set (i := pos / 64) in *. set (p := pos mod 64) in *. destruct (Z.ltb_spec pos 0); [destruct (Z.ltb_spec i 0); [done|lia]|]. destruct (Z.ltb_spec i 0); [lia|].
  unfold len, zlen in Hpos. destruct (lookup_lt_is_Some_2 (tab r) (Z.to_nat i) ltac:(lia)) as [v Hv]. unfold aget. destruct (Z.ltb_spec i 0); [lia|]. rewrite Hv. cbn [mbind outcome_bind].
  rewrite limb_mask_low, land_low by lia. rewrite mp_scan_nz_ok by (by apply limbs_take).
  pose proof (val_split (Z.to_nat i) (tab r) ltac:(lia)) as Hs. pose proof (val_range _ (limbs_take (Z.to_nat i) _ Ht)) as Hr. rewrite length_take_le in Hr by lia. rewrite Z2Nat.id, pow_limbs in * by lia.
  assert (Hd : val (drop (Z.to_nat i) (tab r)) mod 2 ^ (p + 1) = v mod 2 ^ (p + 1)).
  { rewrite (drop_S _ v) by done. cbn [val]. replace B with (2 ^ (63 - p) * 2 ^ (p + 1)) by (rewrite <- Z.pow_add_r by lia; f_equal; lia).
    rewrite (Z.mul_comm (2 ^ (63 - p))), <- Z.mul_assoc, (Z.mul_comm (2 ^ (p + 1))), Z.mod_add by lia. done. }
  set (L := val (take _ _)) in *. set (Hi := val (drop _ _)) in *. set (X := 2 ^ (64 * i)) in *. assert (HX : 0 < X) by (apply Z.pow_pos_nonneg; lia).
  assert (Hm : val (tab r) mod 2 ^ (pos + 1) = L + X * (v mod 2 ^ (p + 1))).
  { rewrite Hs. replace (2 ^ (pos + 1)) with (X * 2 ^ (p + 1)) by (unfold X; rewrite <- Z.pow_add_r by lia; f_equal; lia). rewrite Z.rem_mul_r by lia. rewrite (Z.mul_comm X Hi), Z.mod_add, Z.div_add by lia.
    rewrite (Z.mod_small L), (Z.div_small L) by lia. by rewrite Z.add_0_l, Hd. }
  rewrite Hm. pose proof (Z.mod_pos_bound v (2 ^ (p + 1)) ltac:(lia)) as Hvm. set (w := v mod _) in *.
  destruct (Z.eqb_spec w 0) as [->|Hw]; cbn [negb].
  - rewrite Z.mul_0_r, Z.add_0_r. done.
  - assert (X * 1 <= X * w) by (apply Z.mul_le_mono_nonneg_l; lia). destruct (Z.eqb_spec (L + X * w) 0); [lia|done].
Qed.
