(* ===== verification/BigRound.v ===== *)
(** * Rounding of big floats (libbf.c): specification and proofs

    A finite number other than zero is a mantissa, a natural number, times a power of two: a pair up to [dy_eq].  [rounded] says what the rounding of a positive
    fraction to a precision is: an integer [rnd] of units in the last place, the status, and what happens when the exponent leaves its range.
    [__bf_round_ok] and [bf_normalize_and_round_ok] say that the code computes it. *)

From stdpp Require Import base list.
From S2P Require Import Prelude Cutils Limbs BigFloat.
#[local] Open Scope Z_scope.

(** ** Dyadic numbers: [(m, e)] is [m * 2 ^ e] *)

Definition dyadic : Type := Z * Z.
Definition dy_eq (x y : dyadic) : Prop := let e := Z.min (snd x) (snd y) in fst x * 2 ^ (snd x - e) = fst y * 2 ^ (snd y - e).
Definition dy_mul (x y : dyadic) : dyadic := (fst x * fst y, snd x + snd y).

Lemma dy_eq_at e m1 e1 m2 e2 : e <= e1 -> e <= e2 -> dy_eq (m1, e1) (m2, e2) <-> m1 * 2 ^ (e1 - e) = m2 * 2 ^ (e2 - e).
Proof.
  intros H1 H2. unfold dy_eq. cbn [fst snd]. set (m := Z.min e1 e2). assert (e <= m /\ m <= e1 /\ m <= e2) as (Hm & Hm1 & Hm2) by lia. clearbody m.
  replace (e1 - e) with (e1 - m + (m - e)) by lia. replace (e2 - e) with (e2 - m + (m - e)) by lia. rewrite !(Z.pow_add_r 2 _ (m - e)) by lia.
  assert (0 < 2 ^ (m - e)) by (apply Z.pow_pos_nonneg; lia). rewrite !Z.mul_assoc. split; [by intros ->|]. intros E. by apply Z.mul_reg_r in E; [|lia].
Qed.
#[export] Instance dy_eq_equiv : Equivalence dy_eq.
Proof.
  split; [by intros []|intros [m1 e1] [m2 e2] H|intros [m1 e1] [m2 e2] [m3 e3] H1 H2].
  - unfold dy_eq in *. cbn [fst snd] in *. by rewrite Z.min_comm.
  - set (e := Z.min e1 (Z.min e2 e3)). assert (e <= e1 /\ e <= e2 /\ e <= e3) as (L1 & L2 & L3) by lia. clearbody e. rewrite (dy_eq_at e) in H1, H2 |- * by done. congruence.
Qed.
#[export] Instance dy_mul_proper : Proper (dy_eq ==> dy_eq ==> dy_eq) dy_mul.
Proof.
  intros [m1 e1] [m2 e2] H [m3 e3] [m4 e4] H'. set (a := Z.min e1 e2). set (b := Z.min e3 e4). assert (a <= e1 /\ a <= e2 /\ b <= e3 /\ b <= e4) as (L1 & L2 & L3 & L4) by lia. clearbody a b.
  rewrite (dy_eq_at a) in H by done. rewrite (dy_eq_at b) in H' by done.
  unfold dy_mul. cbn [fst snd]. apply (dy_eq_at (a + b)); [lia..|]. replace (e1 + e3 - (a + b)) with ((e1 - a) + (e3 - b)) by lia. replace (e2 + e4 - (a + b)) with ((e2 - a) + (e4 - b)) by lia.
  rewrite !Z.pow_add_r by lia. transitivity ((m1 * 2 ^ (e1 - a)) * (m3 * 2 ^ (e3 - b))); [ring|]. rewrite H, H'. ring.
Qed.
(** A power of two moves between the parts. *)
Lemma dy_shift k m e : 0 <= k -> dy_eq (m * 2 ^ k, e) (m, e + k).
Proof. intros. apply (dy_eq_at e); [lia..|]. rewrite Z.sub_diag, Z.mul_1_r. f_equal. f_equal. lia. Qed.

(** ** Specification *)

(** The fraction [N / D] is rounded up to an integer, for a number of sign [s]. *)
Definition rnd_up (mode s N D : Z) : bool :=
  let r := N mod D in
  if mode =? BF_RNDZ then false
  else if mode =? BF_RNDN then (D <? 2 * r) || ((2 * r =? D) && Z.odd (N / D))
  else if mode =? BF_RNDD then (s =? 1) && negb (r =? 0)
  else if mode =? BF_RNDU then (s =? 0) && negb (r =? 0)
  else if mode =? BF_RNDA then negb (r =? 0)
  else D <=? 2 * r.
Definition rnd (mode s N D : Z) : Z := N / D + b2z (rnd_up mode s N D).
(** Faithful rounding always reports an inexact result. *)
Definition is_inexact (mode N D : Z) : bool := (mode =? BF_RNDF) || negb (N mod D =? 0).

(** The limits of the exponent, and the precision that is left for a number of exponent [E]. *)
Definition e_max (flags : Z) : Z := 2 ^ (bf_get_exp_bits flags - 1).
Definition e_min (flags : Z) : Z := - e_max flags + 3.
Definition is_subnormal (flags : Z) : bool := negb (flags .& BF_FLAG_SUBNORMAL =? 0).
Definition eff_prec (E prec1 flags : Z) : Z :=
  if negb (flags .& BF_FLAG_RADPNT_PREC =? 0) then if prec1 =? BF_PREC_INF then prec1 else E + prec1
  else if (E <? e_min flags) && is_subnormal flags then prec1 - (e_min flags - E)
  else prec1.

(** Canonical numbers. *)
Definition mant (r : bf_t) : Z := val (tab r).
Definition dy (r : bf_t) : dyadic := (mant r, expn r - 64 * len r).
Record finite_nz (r : bf_t) : Prop := {
  fin_limbs : limbs (tab r);
  fin_low : tab r !! 0%nat <> Some 0;
  fin_top : 2 ^ (64 * len r - 1) <= mant r;
  fin_len : 1 <= len r }.
Definition value_is (r : bf_t) (s : Z) (x : dyadic) : Prop := finite_nz r /\ sign r = s /\ dy_eq (dy r) x.
Definition special_is (r : bf_t) (s e : Z) : Prop := r = MkBf s e [].

(** The largest number or infinity. *)
Definition overflows_to_inf (mode s prec1 : Z) : bool :=
  (prec1 =? BF_PREC_INF) || (mode =? BF_RNDN) || (mode =? BF_RNDNA) || (mode =? BF_RNDA) || ((mode =? BF_RNDD) && (s =? 1)) || ((mode =? BF_RNDU) && (s =? 0)).

Section Spec.
Context (prec1 flags : Z) {HC : bf_context}.
Let mode := flags .& BF_RND_MASK.

Definition reliable : Prop := forall s tab n, is_Some (fst (bf_realloc s tab n)).
(** The result when an allocation failed, which happens only if the allocator refuses requests. *)
Definition refused (ret : Z) (r : bf_t) : Prop := ret = BF_ST_MEM_ERROR /\ special_is r 0 BF_EXP_NAN /\ ~ reliable.

Definition overflowed (s ret : Z) (r : bf_t) : Prop :=
  if overflows_to_inf mode s prec1 then ret = BF_ST_OVERFLOW .| BF_ST_INEXACT /\ special_is r s BF_EXP_INF
  else refused ret r \/ ret = BF_ST_OVERFLOW .| BF_ST_INEXACT /\ value_is r s (2 ^ prec1 - 1, e_max flags - prec1).

(** The result for the positive number [N / D * 2 ^ e] of exponent [E], negated if [s] is 1. *)
Definition rounded (s N D e E : Z) (ret0 ret : Z) (r : bf_t) : Prop :=
  let prec := eff_prec E prec1 flags in
  let f := E - prec in
  let N := N * 2 ^ Z.max 0 (e - f) in let D := D * 2 ^ Z.max 0 (f - e) in
  let M := rnd mode s N D in
  let st := if is_inexact mode N D then ret0 .| BF_ST_INEXACT else ret0 in
  let under := (st .| BF_ST_UNDERFLOW) .| BF_ST_INEXACT in
  if M =? 0 then special_is r s BF_EXP_ZERO /\ ret = under
  else if prec <=? 0 then value_is r s (M, f) /\ ret = under
  else
    let E := if M =? 2 ^ prec then E + 1 else E in
    let small := E <? e_min flags in
    if small && negb (is_subnormal flags) then special_is r s BF_EXP_ZERO /\ ret = under
    else if E >? e_max flags then overflowed s ret r
    else value_is r s (M, f) /\ ret = if small && negb (st .& BF_ST_INEXACT =? 0) then st .| BF_ST_UNDERFLOW else st.
End Spec.

(** ** The addend *)

Lemma b2z_nz b : negb (b2z b =? 0) = b.
Proof. by destruct b. Qed.
Lemma rnd_up_bits mode s N H : 0 < H -> 0 <= N -> 0 <= mode <= 6 -> let bit1 := (N / H) mod 2 in let rest := negb (N mod H =? 0) in let inexact := negb (N mod (2 * H) =? 0) in
  inexact = negb (bit1 .| b2z rest =? 0) /\
  rnd_up mode s N (2 * H) = (if mode =? BF_RNDZ then false else if mode =? BF_RNDN then negb (bit1 =? 0) && (rest || Z.odd (N / (2 * H)))
    else if mode =? BF_RNDD then (s =? 1) && inexact else if mode =? BF_RNDU then (s =? 0) && inexact else if mode =? BF_RNDA then inexact else negb (bit1 =? 0)).
Proof.
  intros HH HN Hm. cbn zeta. set (b1 := (N / H) mod 2). assert (Hb : b1 = 0 \/ b1 = 1) by (pose proof (Z.mod_pos_bound (N / H) 2); lia).
  assert (E : N mod (2 * H) = N mod H + H * b1) by (rewrite Z.mul_comm, Z.rem_mul_r by lia; done). pose proof (Z.mod_pos_bound N H HH) as Hr. set (r := N mod H) in *. unfold rnd_up. rewrite E.
  assert (E1 : negb (r + H * b1 =? 0) = negb (b1 .| b2z (negb (r =? 0)) =? 0)).
  { destruct Hb as [-> | ->], (Z.eqb_spec r 0); cbn [negb b2z]; apply (f_equal negb); (apply Z.eqb_eq || apply Z.eqb_neq || idtac); try (subst; rewrite ?Z.mul_0_r; done); destruct (Z.eqb_spec (r + H * 0) 0), (Z.eqb_spec (r + H * 1) 0); try lia; try done. }
  split; [done|]. destruct (mode =? BF_RNDZ); [done|]. destruct (mode =? BF_RNDN); [|destruct (mode =? BF_RNDD); [done|]; destruct (mode =? BF_RNDU); [done|]; destruct (mode =? BF_RNDA); [done|]].
  - destruct (Z.odd _), Hb as [-> | ->], (Z.eqb_spec r 0), (Z.ltb_spec (2 * H) (2 * (r + H * 0))), (Z.ltb_spec (2 * H) (2 * (r + H * 1))), (Z.eqb_spec (2 * (r + H * 0)) (2 * H)), (Z.eqb_spec (2 * (r + H * 1)) (2 * H)); try lia; done.
  - destruct Hb as [-> | ->], (Z.leb_spec (2 * H) (2 * (r + H * 0))), (Z.leb_spec (2 * H) (2 * (r + H * 1))); try lia; done.
Qed.

Lemma c_slimb_ok x : - 2 ^ 63 <= x < 2 ^ 63 -> c_slimb x = Ret x.
Proof. intros. unfold c_slimb. destruct (Z.leb_spec (- 2 ^ 63) x), (Z.ltb_spec x (2 ^ 63)); (lia || done). Qed.
Lemma slimb_small x : - 2 ^ 63 <= x < 2 ^ 63 -> slimb x = x.
Proof. intros. unfold sext. destruct (Z.ltb_spec x 0).
  - replace (limb x) with (x + B) by (symmetry; apply limb_unique; [unfold is_limb; lia|exists (-1); lia]). destruct (Z.ltb_spec (x + B) (2 ^ (64 - 1))); lia.
  - rewrite (wrap_small 64 x) by lia. destruct (Z.ltb_spec x (2 ^ (64 - 1))); lia.
Qed.

(** The mantissa: the first [l] limbs, with the top bit set. *)
Definition top (l : Z) (r : bf_t) : Z := val (take (Z.to_nat l) (tab r)).
Record to_round (r : bf_t) (l : Z) : Prop := {
  tr_limbs : limbs (tab r);
  tr_len : 1 <= l <= len r;
  tr_max : l <= 2 ^ 50;
  tr_top : 2 ^ (64 * l - 1) <= top l r }.

(** Tests of constants. *)
Ltac eval_eqb := repeat match goal with |- context [Z.eqb ?a ?b] =>
  let v := eval vm_compute in (Z.eqb a b) in match v with true => idtac | false => idtac end; change (Z.eqb a b) with v end; cbn match; cbn [orb andb negb].
Ltac mode_cases mode := let H := fresh in assert (H : mode = 0 \/ mode = 1 \/ mode = 2 \/ mode = 3 \/ mode = 4 \/ mode = 5 \/ mode = 6) by lia;
  destruct H as [ -> | [ -> | [ -> | [ -> | [ -> | [ -> | -> ]]]]]]; eval_eqb.

Section Round.
Context {HC : bf_context}.

Lemma top_range r l : to_round r l -> 2 ^ (64 * l - 1) <= top l r < 2 ^ (64 * l) /\ limbs (take (Z.to_nat l) (tab r)) /\ zlen (take (Z.to_nat l) (tab r)) = l.
Proof.
  intros [H1 H2 H3 H4]. pose proof (val_range _ (limbs_take (Z.to_nat l) _ H1)) as Hr. unfold len, zlen in *. rewrite length_take_le in * by lia. rewrite Z2Nat.id, pow_limbs in Hr by lia.
  split; [unfold top in *; lia|]. split; [by apply limbs_take|lia].
Qed.
Lemma top_mod r l p : to_round r l -> 0 <= p <= 64 * l -> val (tab r) mod 2 ^ p = top l r mod 2 ^ p.
Proof.
  intros [H1 H2 H3 H4] Hp. unfold len, zlen in *. unfold top. rewrite (val_split (Z.to_nat l) (tab r)) at 1 by lia. rewrite Z2Nat.id, pow_limbs by lia.
  replace (2 ^ (64 * l)) with (2 ^ (64 * l - p) * 2 ^ p) by (rewrite <- Z.pow_add_r by lia; f_equal; lia).
  match goal with |- (_ + _ * ?h) mod _ = _ => replace (2 ^ (64 * l - p) * 2 ^ p * h) with (2 ^ (64 * l - p) * h * 2 ^ p) by ring end. rewrite Z.mod_add by lia. done.
Qed.

Lemma rnd_up_exact mode s N D : 0 < D -> N mod D = 0 -> rnd_up mode s N D = false.
Proof.
  intros HD E. unfold rnd_up. rewrite E. rewrite Z.mul_0_r. destruct (Z.ltb_spec D 0), (Z.eqb_spec 0 D), (Z.leb_spec D 0); try lia.
  cbn [negb andb orb]. change (0 =? 0) with true. cbn [negb]. rewrite !andb_false_r. by repeat match goal with |- context [if ?b then _ else _] => destruct b end.
Qed.

Lemma bf_get_rnd_add_ok r l prec mode ret : to_round r l -> 0 <= sign r <= 1 -> - 2 ^ 62 <= prec < 2 ^ 63 - 1 -> 0 <= mode <= 6 ->
  let N := top l r in let D := 2 ^ Z.max 0 (64 * l - prec) in
  bf_get_rnd_add ret r l prec mode = Ret (b2z (rnd_up mode (sign r) N D), if is_inexact mode N D then ret .| BF_ST_INEXACT else ret).
Proof.
  intros Hr Hsgn Hp Hm. cbn zeta. destruct (top_range r l Hr) as (HN & HT & Hlen). set (N := top l r) in *. destruct (id Hr) as [H1 H2 H3 _]. unfold bf_get_rnd_add, LIMB_BITS. rewrite !c_slimb_ok by lia. cbn [mbind outcome_bind].
  assert (Hmax : forall a b, bf_max a b = Z.max a b) by (intros a b; unfold bf_max; destruct (Z.gtb_spec a b); lia). rewrite Hmax.
  set (k := 64 * l - prec). assert (Hk : l * 64 - 1 - prec = k - 1) by lia.
  assert (Hscan : 1 <= k -> scan_bit_nz r (l * 64 - 1 - Z.max 0 (prec + 1)) = Ret (b2z (negb (N mod 2 ^ (k - 1) =? 0)))).
  { intros Hk1. rewrite scan_bit_nz_ok by (done || lia). do 2 f_equal. destruct (Z.ltb_spec (l * 64 - 1 - Z.max 0 (prec + 1)) 0).
    - assert (k = 1) as -> by lia. by rewrite Z.mod_1_r.
    - do 2 f_equal. rewrite (top_mod r l) by (done || lia). fold N. destruct (Z.le_gt_cases 0 (prec + 1)).
      + do 2 f_equal. lia.
      + rewrite !Z.mod_small; [done| |]; (split; [lia|]); (eapply Z.lt_le_trans; [apply HN|apply Z.pow_le_mono_r; lia]). }
  assert (Hscan0 : k <= 0 -> scan_bit_nz r (l * 64 - 1 - Z.max 0 (prec + 1)) = Ret 0).
  { intros Hk1. rewrite scan_bit_nz_ok by (done || lia). destruct (Z.ltb_spec (l * 64 - 1 - Z.max 0 (prec + 1)) 0); [done|lia]. }
  rewrite !(slimb_small (l * 64 - 1 - prec)), !(slimb_small (l * 64 - 1 - (prec - 1))), !(slimb_small (l * 64 - 1 - Z.max 0 _)), !Hk by lia.
  replace (l * 64 - 1 - (prec - 1)) with k by lia. rewrite !get_bit_ok by done. fold (top l r). fold N. unfold is_inexact. destruct (Z.le_gt_cases k 0) as [Hk0|Hk0].
  - rewrite Hscan0, Z.max_l by done. change (2 ^ 0) with 1. rewrite rnd_up_exact by (done || apply Z.mod_1_r). rewrite Z.mod_1_r. unfold zbit. destruct (Z.ltb_spec (k - 1) 0); [|lia].
    cbn [mbind outcome_bind mret outcome_ret]. clear Hscan Hscan0. mode_cases mode; cbn [mbind outcome_bind mret outcome_ret]; change (0 .| 0) with 0; change (0 .| 1) with 1; eval_eqb; try done; by destruct (sign r =? _).
  - rewrite Hscan, Z.max_r by lia. assert (EH : 2 ^ k = 2 * 2 ^ (k - 1)) by (rewrite <- Z.pow_succ_r by lia; f_equal; lia).
    assert (0 < 2 ^ (k - 1)) by (apply Z.pow_pos_nonneg; lia). destruct (rnd_up_bits mode (sign r) N (2 ^ (k - 1))) as [E1 E2]; [done|lia|done|]. rewrite <- EH in E1, E2. rewrite E1, E2 in *.
    assert (E3 : (zbit N k =? 0) = negb (Z.odd (N / 2 ^ k))).
    { unfold zbit. destruct (Z.ltb_spec k 0); [lia|]. rewrite Zmod_odd. by destruct (Z.odd _). }
    assert (E4 : zbit N (k - 1) = (N / 2 ^ (k - 1)) mod 2) by (unfold zbit; destruct (Z.ltb_spec (k - 1) 0); [lia|done]).
    assert (Hb : zbit N (k - 1) = 0 \/ zbit N (k - 1) = 1) by (rewrite E4; pose proof (Z.mod_pos_bound (N / 2 ^ (k - 1)) 2); lia).
    assert (Hb' : zbit N k = b2z (Z.odd (N / 2 ^ k))) by (unfold zbit; destruct (Z.ltb_spec k 0); [lia|]; rewrite Zmod_odd; by destruct (Z.odd _)).
    rewrite <- E4 in *. clear Hscan Hscan0. set (b1 := zbit N (k - 1)) in *. clearbody b1. rewrite Hb'. set (odd := Z.odd _). clearbody odd. set (rest := negb (_ =? 0)). clearbody rest.
    assert (Hsg : sign r = 0 \/ sign r = 1) by lia.
    mode_cases mode; cbn [mbind outcome_bind mret outcome_ret]; destruct Hb as [-> | ->], rest, odd, Hsg as [Hs0 | Hs0]; rewrite ?Hs0; try reflexivity.
Qed.

(** ** Adding one unit *)

Lemma pow_div k j : 0 <= j <= k -> 2 ^ k = 2 ^ (k - j) * 2 ^ j.
Proof. intros. rewrite <- Z.pow_add_r by lia. f_equal. lia. Qed.
Lemma window_add W p : limbs W -> W <> [] -> 0 <= p < 64 -> let n := Z.of_nat (length W) in
  let '(w, c) := mp_add_ui W (1 << p) in let k := b2z (negb (c =? 0)) in let w' := if negb (c =? 0) then fst (shr_loop w 1 1) else w in
  limbs w' /\ length w' = length W /\ val w' / 2 ^ p * 2 ^ k = val W / 2 ^ p + 1 /\ (k = 1 -> val W / 2 ^ p + 1 = 2 ^ (64 * n - p)) /\ (B ^ n <= 2 * val W -> B ^ n <= 2 * val w').
Proof.
  intros HW Hne Hp n. assert (Hn : 1 <= n) by (destruct W; [done|unfold n; cbn [length]; lia]). assert (HP : 0 < 2 ^ p) by (apply Z.pow_pos_nonneg; lia). assert (HP63 : 2 ^ p <= 2 ^ 63) by (apply Z.pow_le_mono_r; lia).
  rewrite shiftl_pow by lia. pose proof (mp_add_ui_ok W (2 ^ p) HW ltac:(unfold is_limb; lia)) as Ha. destruct (mp_add_ui W (2 ^ p)) as [w c]. destruct Ha as (E & Hw & Hl & Hc). fold n in E. unfold is_limb in Hc.
  pose proof (val_range W HW) as HrW. pose proof (val_range w Hw) as Hrw. rewrite Hl in Hrw. fold n in HrW, Hrw. assert (HB : B ^ n = 2 ^ (64 * n)) by (apply pow_limbs; lia).
  assert (HBn : B <= B ^ n) by (replace B with (B ^ 1) at 1 by done; apply Z.pow_le_mono_r; lia).
  assert (Hdiv : (val W + 2 ^ p) / 2 ^ p = val W / 2 ^ p + 1) by (rewrite <- (Z.mul_1_l (2 ^ p)) at 1; by rewrite Z.div_add by lia).
  destruct (Z.eqb_spec c 0) as [Hc0|Hc0]; cbn [negb b2z].
  - rewrite Hc0, Z.mul_0_r, Z.add_0_r in E. split; [done|]. split; [done|]. rewrite <- E, Hdiv. split; [rewrite Z.pow_0_r; lia|]. split; [done|]. lia.
  - assert (c = 1) as -> by nia. pose proof (shr_loop_ok w 1 1 Hw ltac:(done) ltac:(lia)) as Hs. destruct (shr_loop w 1 1) as [w' l]. destruct Hs as (E2 & Hw' & Hl' & _). rewrite Hl in E2, Hl'. fold n in E2. cbn [fst].
    change (1 / 2 ^ 1) with 0 in E2. rewrite Z.mul_0_r, Z.add_0_r in E2. change (2 ^ 1) with 2 in E2. pose proof (Z.mod_pos_bound l 2 ltac:(lia)) as Hlm.
    assert (Hpow : 2 ^ (64 * n - p) = 2 * 2 ^ (64 * n - p - 1)) by (rewrite <- Z.pow_succ_r by lia; f_equal; lia).
    assert (Htop : B ^ n = 2 ^ (64 * n - p) * 2 ^ p) by (rewrite HB; apply pow_div; lia).
    assert (Hq : val W / 2 ^ p + 1 = 2 ^ (64 * n - p)).
    { rewrite <- Hdiv, E, Z.mul_1_r, Htop. rewrite Z.div_add by lia. rewrite Z.div_small; lia. }
    split; [done|]. split; [lia|]. split; [|split; [done|lia]]. rewrite Hq, Hpow. change (2 ^ 1) with 2. rewrite Z.mul_comm. f_equal. symmetry. apply (Z.div_unique _ _ _ (val w' - 2 ^ (64 * n - p - 1) * 2 ^ p)); [|lia].
    left. lia.
Qed.

(** The mantissa, cut at a bit. *)
Lemma window_div t k : limbs t -> 0 <= k -> k / 64 <= zlen t -> let i := Z.to_nat (k / 64) in val t / 2 ^ k = val (drop i t) / 2 ^ (k mod 64).
Proof.
  intros Ht Hk Hi. cbn zeta. pose proof (Z.div_mod k 64 ltac:(lia)) as E. pose proof (Z.mod_pos_bound k 64 ltac:(lia)). unfold zlen in Hi. assert (0 <= k / 64) by (apply Z.div_pos; lia).
  rewrite (val_split (Z.to_nat (k / 64)) t) at 1 by lia. pose proof (val_range _ (limbs_take (Z.to_nat (k / 64)) t Ht)) as Hr. rewrite length_take_le in Hr by lia. rewrite Z2Nat.id, pow_limbs in * by lia.
  set (i := k / 64) in *. set (p := k mod 64) in *. clearbody i p. subst k. rewrite Z.pow_add_r by lia. assert (0 < 2 ^ (64 * i) /\ 0 < 2 ^ p) by (split; apply Z.pow_pos_nonneg; lia). rewrite <- Z.div_div by lia.
  rewrite (Z.mul_comm (2 ^ (64 * i))), Z.div_add by lia. rewrite (Z.div_small (val (take _ _))) by lia. done.
Qed.
Lemma window_app lo hi k : limbs lo -> limbs hi -> 0 <= k -> zlen lo = k / 64 -> val (lo ++ hi) / 2 ^ k = val hi / 2 ^ (k mod 64).
Proof.
  intros Hlo Hhi Hk Hl. rewrite window_div; [|by apply Forall_app|done|unfold zlen in *; rewrite length_app; lia]. rewrite <- Hl. unfold zlen. rewrite Nat2Z.id. by rewrite drop_app_length.
Qed.

Lemma add_ulp_ok r l prec : to_round r l -> 1 <= prec < 64 * l -> - 2 ^ 62 <= expn r <= 2 ^ 62 -> let k := 64 * l - prec in
  yields (add_ulp r l prec) (fun r' => sign r' = sign r /\ to_round r' l /\ exists c, 0 <= c <= 1 /\ expn r' = expn r + c /\
    top l r' / 2 ^ k * 2 ^ c = top l r / 2 ^ k + 1 /\ (c = 1 -> top l r / 2 ^ k + 1 = 2 ^ prec)).
Proof.
  intros Hr Hp He k. destruct (top_range r l Hr) as (HN & HT & Hlen). destruct (id Hr) as [H1 H2 H3 _]. unfold add_ulp, LIMB_BITS. rewrite !c_slimb_ok by lia. cbn [mbind outcome_bind].
  replace (l * 64 - 1 - (prec - 1)) with k by lia. rewrite slimb_small by lia. change (64 - 1) with (LIMB_BITS - 1). rewrite limb_index, bit_index. pose proof (Z.div_mod k 64 ltac:(lia)) as E. pose proof (Z.mod_pos_bound k 64 ltac:(lia)) as Hk.
  set (pos := k / 64) in *. set (p := k mod 64) in *. set (T := take (Z.to_nat l) (tab r)) in *. unfold len, zlen in *. rewrite aread_ok by (unfold zlen; lia). cbn [mbind outcome_bind].
  set (W := take _ _). assert (EW : W = drop (Z.to_nat pos) T) by (unfold W, T; rewrite take_drop_commute; f_equal; f_equal; lia). set (A := take (Z.to_nat pos) T).
  assert (HlW : Z.of_nat (length W) = l - pos) by (rewrite EW, length_drop; lia). assert (HlA : length A = Z.to_nat pos) by (apply length_take_le; lia).
  assert (HW : limbs W) by (rewrite EW; by apply limbs_drop). assert (HA : limbs A) by (by apply limbs_take). assert (HTd : T = A ++ W) by (rewrite EW; symmetry; apply take_drop).
  pose proof (window_add W p HW) as Hw. cbn zeta in Hw. assert (HWne : W <> []) by (intros ->; cbn [length] in HlW; lia). destruct (mp_add_ui W (1 << p)) as [w c]. destruct Hw as (Hw1 & Hw2 & Hw3 & Hw4 & Hw5); [done|done|].
  set (w' := if negb (c =? 0) then _ else _) in *. set (kk := b2z _) in *.
  assert (Ecase : (if negb (c =? 0) then mret (fst (shr_loop w 1 1), expn r + 1) else mret (w, expn r)) = Ret (w', expn r + kk)).
  { unfold w', kk. destruct (negb (c =? 0)); cbn [b2z]; [done|by rewrite Z.add_0_r]. }
  rewrite Ecase. cbn [mbind outcome_bind]. rewrite awrite_ok by (unfold zlen; lia). cbn [mbind outcome_bind mret outcome_ret yields sign expn tab].
  split; [done|]. assert (HB : B ^ (l - pos) = 2 ^ (64 * (l - pos))) by (apply pow_limbs; lia).
  assert (Etake : take (Z.to_nat pos) (tab r) = A) by (unfold A, T; rewrite take_take; f_equal; lia).
  assert (Etop : take (Z.to_nat l) (take (Z.to_nat pos) (tab r) ++ w' ++ drop (Z.to_nat pos + length w') (tab r)) = A ++ w').
  { rewrite Etake, app_assoc. apply take_app_length'. rewrite length_app. lia. }
  assert (HdN : top l r / 2 ^ k = val W / 2 ^ p) by (unfold top; fold T; rewrite HTd; apply window_app; [done|done|lia|unfold zlen; lia]).
  assert (Hkk : 0 <= kk <= 1) by (unfold kk; destruct (negb _); cbn [b2z]; lia).
  assert (HWtop : B ^ (l - pos) <= 2 * val W).
  { assert (Hdl : 2 ^ (64 * l - 1 - k) <= val W / 2 ^ p) by (rewrite <- HdN; apply Z.div_le_lower_bound; [lia|]; rewrite Z.mul_comm, <- pow_div by lia; lia).
    assert (Hm : 2 ^ p * (val W / 2 ^ p) <= val W) by (apply Z.mul_div_le; lia). assert (Hpp : 2 ^ p * 2 ^ (64 * l - 1 - k) = 2 ^ (64 * (l - pos) - 1)) by (rewrite <- Z.pow_add_r by lia; f_equal; lia).
    rewrite HB. replace (2 ^ (64 * (l - pos))) with (2 * 2 ^ (64 * (l - pos) - 1)) by (rewrite <- Z.pow_succ_r by lia; f_equal; lia). rewrite <- Hpp. nia. }
  rewrite HlW in Hw4, Hw5. specialize (Hw5 HWtop).
  split.
  - split; cbn [tab]; [|unfold len, zlen; cbn [tab]; rewrite !length_app, Etake, length_drop; lia|done|].
    + rewrite Etake. apply Forall_app. split; [done|]. apply Forall_app. split; [done|by apply limbs_drop].
    + unfold top. cbn [tab]. rewrite Etop, val_app, HlA, Z2Nat.id, pow_limbs by lia. pose proof (val_range A HA). rewrite HB in Hw5.
      replace (2 ^ (64 * (l - pos))) with (2 * 2 ^ (64 * (l - pos) - 1)) in Hw5 by (rewrite <- Z.pow_succ_r by lia; f_equal; lia). replace (64 * l - 1) with (64 * pos + (64 * (l - pos) - 1)) by lia. rewrite Z.pow_add_r by lia.
      assert (0 < 2 ^ (64 * pos)) by (apply Z.pow_pos_nonneg; lia). nia.
  - exists kk. split; [done|]. split; [done|]. unfold top at 1. cbn [tab]. rewrite Etop, window_app by (done || unfold zlen; lia). fold p. split; [by rewrite Hw3, HdN|].
    intros Hk1. rewrite HdN, Hw4 by done. f_equal. lia.
Qed.

(** ** Keeping the upper bits *)

Lemma bf_resize_shrink r n s : limbs (tab r) -> 0 <= n <= len r -> exists s', bf_resize r n s = (false, set_tab (take (Z.to_nat n) (tab r)) r, s').
Proof.
  intros Ht Hn. unfold bf_resize. destruct (Z.eqb_spec n (len r)) as [E|E].
  - exists s. do 2 f_equal. destruct r as [sg e t]. unfold set_tab, len, zlen in *. cbn [tab sign expn] in *. f_equal. symmetry. apply take_ge. lia.
  - destruct (bf_realloc_shrink s (tab r) n) as [t Hr]; [done|]. pose proof (bf_realloc_spec s (tab r) n) as Hs. destruct (bf_realloc s (tab r) n) as [o s']. cbn [fst] in Hr. subst o.
    specialize (Hs t s'). destruct Hs as (Hl & _ & Ep); [lia|done|done|]. exists s'. do 3 f_equal. unfold len in *. rewrite Z.min_l in Ep by lia. rewrite <- Ep. symmetry. apply take_ge. unfold zlen in *. lia.
Qed.
Lemma bf_set_special_ok e sgn r s : limbs (tab r) -> exists s', bf_set_special e sgn r s = (MkBf sgn e [], s').
Proof.
  intros Ht. unfold bf_set_special. destruct (bf_resize_shrink r 0 s Ht) as [s' ->]; [unfold len; pose proof (zlen_nonneg (tab r)); lia|]. exists s'. by destruct r.
Qed.

Lemma skip_zeros_ok t : limbs t -> val t <> 0 -> exists n rest, skip_zeros t = Ret rest /\ t = replicate n 0 ++ rest /\ rest <> [] /\ rest !! 0%nat <> Some 0.
Proof.
  induction 1 as [|a t Ha Ht IH]; cbn [val skip_zeros]; [done|]. intros Hv. destruct (Z.eqb_spec a 0) as [->|Hne].
  - destruct IH as (n & rest & E & -> & H1 & H2); [lia|]. exists (S n), rest. done.
  - exists 0%nat, (a :: t). split; [done|]. split; [done|]. split; [done|]. cbn. congruence.
Qed.

(** The result is the number with the bits below [2 ^ k] cleared, without its zero limbs. *)
Definition cut (l k : Z) (r r' : bf_t) : Prop :=
  finite_nz r' /\ sign r' = sign r /\ expn r' = expn r /\ len r' <= l /\ mant r' * 2 ^ (64 * (l - len r')) = top l r / 2 ^ Z.max 0 k * 2 ^ Z.max 0 k.

Lemma keep_rest r l k i X e t ret s : limbs t -> 1 <= l <= zlen t -> 0 <= i <= l -> k < 64 * l ->
  X = drop (Z.to_nat i) (take (Z.to_nat l) t) -> 2 ^ (64 * i) * val X = top l r / 2 ^ Z.max 0 k * 2 ^ Z.max 0 k -> 2 ^ (64 * l - 1) <= top l r -> e = expn r ->
  yields (rest ← skip_zeros X; t ← awrite t 0 rest; let '(_, r, s) := bf_resize (set_tab t (MkBf (sign r) e [])) (zlen rest) s in mret (ret, r, s) : outcome (Z * bf_t * bf_context_t))
    (fun '(ret', r', _) => ret' = ret /\ cut l k r r').
Proof.
  intros Ht Hl Hi Hk EX Hv Htop ->. assert (HX : limbs X) by (rewrite EX; apply limbs_drop; by apply limbs_take). unfold zlen in *.
  assert (HlX : Z.of_nat (length X) = l - i) by (rewrite EX, length_drop, length_take_le; lia). assert (Hpi : 0 < 2 ^ (64 * i)) by (apply Z.pow_pos_nonneg; lia).
  assert (Hge : 2 ^ (64 * l - 1) <= 2 ^ (64 * i) * val X).
  { rewrite Hv. assert (Hp : 0 < 2 ^ Z.max 0 k) by (apply Z.pow_pos_nonneg; lia). rewrite (pow_div (64 * l - 1) (Z.max 0 k)) by lia. apply Z.mul_le_mono_nonneg_r; [lia|]. apply Z.div_le_lower_bound; [done|]. rewrite Z.mul_comm, <- pow_div; lia. }
  assert (0 < 2 ^ (64 * l - 1)) by (apply Z.pow_pos_nonneg; lia). destruct (skip_zeros_ok X HX ltac:(intros E; rewrite E in Hge; lia)) as (n & rest & -> & En & Hne & H0). cbn [mbind outcome_bind].
  assert (Hrest : limbs rest) by (rewrite En in HX; by apply Forall_app in HX as [_ ?]). assert (Hlr : Z.of_nat (length X) = Z.of_nat n + Z.of_nat (length rest)) by (rewrite En, length_app, length_replicate; lia).
  assert (1 <= Z.of_nat (length rest)) by (destruct rest; [done|cbn [length]; lia]).
  rewrite awrite_ok by (unfold zlen; lia). cbn [mbind outcome_bind]. set (t' := _ ++ rest ++ _). assert (Ht' : limbs t').
  { unfold t'. apply Forall_app. split; [by apply limbs_take|]. apply Forall_app. split; [done|by apply limbs_drop]. }
  destruct (bf_resize_shrink (set_tab t' (MkBf (sign r) (expn r) [])) (Z.of_nat (length rest)) s Ht') as [s' Hs]; [unfold len, zlen, t'; cbn [tab set_tab]; rewrite !length_app, length_drop; cbn [take Z.to_nat length]; lia|].
  rewrite Hs. cbn [mret outcome_ret yields]. split; [done|]. assert (Etab : take (Z.to_nat (Z.of_nat (length rest))) t' = rest) by (rewrite Nat2Z.id; unfold t'; change (take (Z.to_nat 0) t) with (@nil Z); cbn [app]; by rewrite take_app_length).
  unfold set_tab. cbn [tab sign expn]. rewrite Etab. unfold cut, mant, len, zlen. cbn [tab sign expn].
  assert (EvX : 2 ^ (64 * i) * val X = val rest * 2 ^ (64 * (l - Z.of_nat (length rest)))).
  { rewrite En, val_app, val_zero, length_replicate, pow_limbs by lia. rewrite Z.add_0_l, Z.mul_assoc, <- Z.pow_add_r by lia. rewrite Z.mul_comm. do 2 f_equal. lia. }
  split; [|split; [done|]; split; [done|]; split; [lia|congruence]]. split; unfold mant, len, zlen; cbn [tab]; [done|done| |lia].
  rewrite EvX in Hge. rewrite (pow_div (64 * l - 1) (64 * (l - Z.of_nat (length rest)))) in Hge by lia. assert (Hp : 0 < 2 ^ (64 * (l - Z.of_nat (length rest)))) by (apply Z.pow_pos_nonneg; lia).
  apply Z.mul_le_mono_pos_r in Hge; [|done]. eapply Z.le_trans; [|exact Hge]. apply Z.pow_le_mono_r; lia.
Qed.

Lemma keep_bits_ok r l prec ret s : to_round r l -> 1 <= prec < 2 ^ 63 -> yields (keep_bits r l prec ret s) (fun '(ret', r', _) => ret' = ret /\ cut l (64 * l - prec) r r').
Proof.
  intros Hr Hp. destruct (top_range r l Hr) as (HN & HT & Hlen). destruct (id Hr) as [H1 H2 H3 _]. unfold keep_bits, LIMB_BITS. rewrite !c_slimb_ok by lia. cbn [mbind outcome_bind].
  set (k := 64 * l - prec). replace (l * 64 - 1 - (prec - 1)) with k by lia. rewrite slimb_small by lia. change (64 - 1) with (LIMB_BITS - 1). rewrite limb_index, bit_index.
  pose proof (Z.div_mod k 64 ltac:(lia)) as E. pose proof (Z.mod_pos_bound k 64 ltac:(lia)) as Hpm. destruct r as [sg e t]. unfold len in *. cbn [tab sign expn] in *. unfold set_tab. cbn [sign expn].
  destruct (Z.geb_spec (k / 64) 0) as [Hi|Hi].
  - set (i := k / 64) in *. set (p := k mod 64) in *. assert (Hv0 : exists v, t !! Z.to_nat i = Some v) by (apply lookup_lt_is_Some_2; unfold zlen in *; lia). destruct Hv0 as [v Hv].
    assert (Hvl : is_limb v) by (eapply list.Forall_forall in H1; [exact H1|by eapply list_elem_of_lookup_2]).
    assert (HP : 0 < 2 ^ p) by (apply Z.pow_pos_nonneg; lia). set (v' := v / 2 ^ p * 2 ^ p). assert (Hv' : is_limb v').
    { unfold is_limb in *. unfold v'. pose proof (Z.mul_div_le v (2 ^ p) HP). pose proof (Z.div_pos v (2 ^ p)). nia. }
    assert (Est : (if negb (p =? 0) then w ← aget t i; aset t i (w .& limb_mask p (LIMB_BITS - 1)) else mret t) = Ret (<[Z.to_nat i := v']> t)).
    { destruct (Z.eqb_spec p 0) as [E0|E0]; cbn [negb].
      - unfold v'. rewrite E0. change (2 ^ 0) with 1. rewrite Z.div_1_r, Z.mul_1_r. cbn [mret outcome_ret]. f_equal. symmetry. by apply list_insert_id.
      - unfold aget. destruct (Z.ltb_spec i 0); [lia|]. rewrite Hv. cbn [mbind outcome_bind]. change (LIMB_BITS - 1) with 63. rewrite land_high by (done || lia). apply aset_ok. lia. }
    rewrite Est. cbn [mbind outcome_bind]. set (t' := <[Z.to_nat i := v']> t). assert (Hlt' : zlen t' = zlen t) by (unfold t', zlen; by rewrite length_insert).
    assert (HX : drop (Z.to_nat i) (take (Z.to_nat l) t') = v' :: drop (S (Z.to_nat i)) (take (Z.to_nat l) t)).
    { unfold t'. rewrite (drop_S _ v'); [f_equal|].
      - rewrite take_insert_lt by (unfold zlen in *; lia). rewrite drop_insert_lt by lia. done.
      - rewrite lookup_take_lt by (unfold zlen in *; lia). apply list_lookup_insert_eq. unfold zlen in *. lia. }
    apply (keep_rest (MkBf sg e t) l k i _ e t'); [by apply Forall_insert|lia|lia|lia|done| |exact (proj1 HN)|done].
    rewrite HX. cbn [val]. unfold top. cbn [tab]. rewrite Z.max_r by lia. set (T := take (Z.to_nat l) t) in *. rewrite window_div by (done || (fold i; lia)). fold i p.
    rewrite (drop_S T v (Z.to_nat i)) by (unfold T; rewrite lookup_take_lt; [done|unfold zlen in *; lia]). cbn [val]. set (R := val _). rewrite E, Z.pow_add_r by lia. fold i p.
    assert (HB : B = 2 ^ (64 - p) * 2 ^ p) by (apply pow_div; lia). rewrite HB at 2. replace (2 ^ (64 - p) * 2 ^ p * R) with (2 ^ (64 - p) * R * 2 ^ p) by ring. rewrite Z.div_add by lia. unfold v'. rewrite HB. ring.
  - assert (Hk : k < 0) by (destruct (Z.lt_ge_cases k 0) as [|Hk]; [done|apply (Z.div_pos k 64) in Hk; lia]). cbn [mbind outcome_bind mret outcome_ret].
    apply (keep_rest (MkBf sg e t) l k 0 _ e t); [done|lia|lia|lia|done| |exact (proj1 HN)|done]. rewrite Z.max_l by lia. change (2 ^ 0) with 1. rewrite Z.div_1_r. change (2 ^ (64 * 0)) with 1.
    change (drop (Z.to_nat 0) (take (Z.to_nat l) t)) with (take (Z.to_nat l) t). unfold top. cbn [tab]. lia.
Qed.

(** ** Overflow *)

Lemma bf_resize_ok r n s : limbs (tab r) -> 0 <= n ->
  let '(failed, r', _) := bf_resize r n s in
  if failed then ~ reliable /\ r' = r
  else sign r' = sign r /\ expn r' = expn r /\ limbs (tab r') /\ len r' = n /\ take (Z.to_nat (Z.min n (len r))) (tab r') = take (Z.to_nat (Z.min n (len r))) (tab r).
Proof.
  intros Ht Hn. destruct (Z.le_gt_cases n (len r)) as [Hle|Hgt].
  - destruct (bf_resize_shrink r n s Ht) as [s' ->]; [done|]. cbn [set_tab sign expn tab]. split; [done|]. split; [done|]. split; [by apply limbs_take|].
    rewrite Z.min_l by lia. rewrite take_take, Nat.min_id. split; [|done]. unfold len, set_tab, zlen in *. cbn [tab]. rewrite length_take_le; lia.
  - unfold bf_resize. destruct (Z.eqb_spec n (len r)); [lia|]. pose proof (bf_realloc_spec s (tab r) n) as Hs. destruct (bf_realloc s (tab r) n) as [[t|] s'] eqn:E.
    + destruct (Hs t s') as (Hl & Htl & Hp); [done..|]. cbn [set_tab sign expn tab]. by repeat split.
    + assert (0 <= len r) by apply zlen_nonneg. destruct (Z.eqb_spec n 0); [lia|]. split; [|done]. intros Hrel. specialize (Hrel s (tab r) n). rewrite E in Hrel. by destruct Hrel.
Qed.
Lemma mem_error_ok r s : limbs (tab r) -> ~ reliable -> let '(ret, r', _) := mem_error r s in refused ret r'.
Proof.
  intros Ht Hrel. unfold mem_error, bf_set_nan. destruct (bf_set_special_ok BF_EXP_NAN 0 r s Ht) as [s' ->]. done.
Qed.

Definition valid_flags (flags : Z) : Prop := flags .& BF_RND_MASK <= 6 /\ 3 <= bf_get_exp_bits flags.
Lemma exp_bits_max flags : bf_get_exp_bits flags <= 62.
Proof.
  unfold bf_get_exp_bits. change BF_EXP_BITS_MASK with (2 ^ 6 - 1). rewrite land_low by lia. pose proof (Z.mod_pos_bound (flags >> BF_EXP_BITS_SHIFT) (2 ^ 6) ltac:(lia)).
  change BF_EXP_BITS_MAX with 61. destruct (_ =? _); lia.
Qed.
Lemma e_max_range flags : valid_flags flags -> 4 <= e_max flags <= 2 ^ 61 /\ 1 << (bf_get_exp_bits flags - 1) = e_max flags.
Proof.
  intros [_ H]. pose proof (exp_bits_max flags). unfold e_max. rewrite shiftl_pow by lia. split; [|done]. change 4 with (2 ^ 2). split; apply Z.pow_le_mono_r; lia.
Qed.
Lemma mode_nonneg flags : 0 <= flags .& BF_RND_MASK.
Proof. apply Z.land_nonneg. by right. Qed.

Lemma val_ones n : val (replicate n (B - 1)) = B ^ Z.of_nat n - 1.
Proof. induction n as [|n IH]; [done|]. cbn [replicate val]. rewrite IH, Nat2Z.inj_succ, Z.pow_succ_r by lia. lia. Qed.
Lemma max_number_ok l prec e s : 1 <= l -> prec <= 64 * l < prec + 64 -> let r := MkBf s e ((B - 2 ^ (64 * l - prec)) :: replicate (Z.to_nat (l - 1)) (B - 1)) in
  finite_nz r /\ dy_eq (dy r) (2 ^ prec - 1, e - prec).
Proof.
  intros Hl Hp r. set (q := 64 * l - prec) in *. assert (Hq : 0 < 2 ^ q /\ 2 ^ q <= 2 ^ 63) by (split; [apply Z.pow_pos_nonneg; lia|apply Z.pow_le_mono_r; lia]).
  assert (Hlen : len r = l) by (unfold len, zlen, r; cbn [tab length]; rewrite length_replicate; lia).
  assert (Hm : mant r = 2 ^ (64 * l) - 2 ^ q).
  { unfold mant, r. cbn [tab val]. rewrite val_ones, Z2Nat.id by lia. assert (B ^ l = B * B ^ (l - 1)) by (rewrite <- Z.pow_succ_r by lia; f_equal; lia). rewrite <- pow_limbs by lia. lia. }
  split.
  - split; [| | |by rewrite Hlen].
    + unfold r. cbn [tab]. constructor; [unfold is_limb; lia|]. apply Forall_replicate. unfold is_limb. lia.
    + unfold r. cbn. intros [= E]. lia.
    + rewrite Hlen, Hm. assert (2 ^ (64 * l) = 2 * 2 ^ (64 * l - 1)) by (rewrite <- Z.pow_succ_r by lia; f_equal; lia). assert (2 ^ q <= 2 ^ (64 * l - 1)) by (apply Z.pow_le_mono_r; lia). lia.
  - unfold dy. rewrite Hm, Hlen. unfold r. cbn [expn]. replace (2 ^ (64 * l) - 2 ^ q) with ((2 ^ prec - 1) * 2 ^ q).
    + rewrite dy_shift by lia. unfold q. replace (e - 64 * l + (64 * l - prec)) with (e - prec) by lia. done.
    + destruct (Z.le_gt_cases 0 prec) as [H0|H0]; [|lia]. rewrite (pow_div (64 * l) q) by lia. replace (64 * l - q) with prec by lia. ring.
Qed.

Lemma bf_set_overflow_ok r sgn prec flags s : limbs (tab r) -> valid_flags flags -> 1 <= prec <= BF_PREC_INF ->
  yields (bf_set_overflow r sgn prec flags s) (fun '(ret, r', _) => overflowed prec flags sgn ret r').
Proof.
  intros Ht Hf Hp. unfold bf_set_overflow, overflowed. fold (overflows_to_inf (flags .& BF_RND_MASK) sgn prec). destruct (overflows_to_inf _ _ _).
  - unfold bf_set_inf. destruct (bf_set_special_ok BF_EXP_INF sgn r s Ht) as [s' ->]. done.
  - unfold LIMB_BITS. change BF_PREC_INF with (2 ^ 62 - 1) in Hp. pose proof (Z.div_mod (prec + 64 - 1) 64 ltac:(lia)) as E. pose proof (Z.mod_pos_bound (prec + 64 - 1) 64 ltac:(lia)). set (l := (prec + 64 - 1) / 64) in *.
    pose proof (bf_resize_ok r l s Ht ltac:(lia)) as Hr. destruct (bf_resize r l s) as [[failed r1] s1]. destruct failed.
    + destruct Hr as [Hrel ->]. pose proof (mem_error_ok r s1 Ht Hrel) as Hm. destruct (mem_error r s1) as [[ret r'] s']. by left.
    + destruct Hr as (Hs & He & Ht1 & Hl1 & _). rewrite aset_ok by (fold (len r1); lia). cbn [mbind outcome_bind mret outcome_ret yields].
      destruct (e_max_range flags Hf) as [_ ->]. right. split; [done|]. unfold value_is.
      assert (Eq : limb (- prec) .& (64 - 1) = 64 * l - prec).
      { change (64 - 1) with (2 ^ 6 - 1). rewrite land_low by lia. unfold wrap. pose proof (Z.div_mod (- prec) B ltac:(lia)) as Ed. set (d := - prec / B) in *. set (m := (- prec) mod B) in *. clearbody d m.
        symmetry. apply (Z.mod_unique _ _ (- l - 2 ^ 58 * d)); lia. }
      rewrite Eq. change (64 - 1) with 63. rewrite limb_mask_high by lia. change (limb (-1)) with (B - 1).
      assert (Etk : take 1 (<[Z.to_nat 0 := B - 2 ^ (64 * l - prec)]> (tab r1)) = [B - 2 ^ (64 * l - prec)]).
      { destruct (tab r1) as [|a t1] eqn:Et; [unfold len in Hl1; rewrite Et in Hl1; change (zlen (@nil Z)) with 0 in Hl1; lia|]. change (B - 2 ^ (64 * l - prec) :: take 0 t1 = [B - 2 ^ (64 * l - prec)]). by rewrite take_0. }
      rewrite Etk. cbn [app]. destruct (max_number_ok l prec (e_max flags) sgn) as [Hfin Hdy]; [lia..|]. done.
Qed.

(** ** Rounding *)

Record round_args (prec1 flags E : Z) : Prop := {
  ra_flags : valid_flags flags;
  ra_prec : 0 <= prec1 <= BF_PREC_INF;
  ra_expn : - 2 ^ 62 <= E <= 2 ^ 62;
  ra_sub : prec1 = BF_PREC_INF -> flags .& BF_FLAG_RADPNT_PREC = 0 -> is_subnormal flags = false;
  ra_zero : prec1 = 0 -> E < e_max flags }.

Lemma eff_prec_ok prec1 flags E : round_args prec1 flags E ->
  (if negb (flags .& BF_FLAG_RADPNT_PREC =? 0) then if negb (prec1 =? BF_PREC_INF) then c_slimb (E + prec1) else mret prec1
   else if (E <? - (1 << (bf_get_exp_bits flags - 1)) + 3) && negb (flags .& BF_FLAG_SUBNORMAL =? 0) then
     _ ← c_assert (negb (prec1 =? BF_PREC_INF)); d ← c_slimb (- (1 << (bf_get_exp_bits flags - 1)) + 3 - E); c_slimb (prec1 - d)
   else mret prec1) = Ret (eff_prec E prec1 flags) /\ - 2 ^ 62 <= eff_prec E prec1 flags < 2 ^ 63 - 1.
Proof.
  intros [Hf Hp HE Hs _]. destruct (e_max_range flags Hf) as [Hem ->]. unfold eff_prec, is_subnormal, e_min in *. change BF_PREC_INF with (2 ^ 62 - 1) in *.
  destruct (Z.eqb_spec (flags .& BF_FLAG_RADPNT_PREC) 0) as [H0|H0]; cbn [negb].
  - destruct (Z.ltb_spec E (- e_max flags + 3)), (Z.eqb_spec (flags .& BF_FLAG_SUBNORMAL) 0); cbn [negb andb]; try (split; [done|lia]).
    destruct (Z.eqb_spec prec1 (2 ^ 62 - 1)) as [Hi|Hi]; [by specialize (Hs Hi H0)|]. cbn [negb c_assert mbind outcome_bind]. rewrite c_slimb_ok by lia. cbn [mbind outcome_bind]. rewrite c_slimb_ok by lia. split; [done|lia].
  - destruct (Z.eqb_spec prec1 (2 ^ 62 - 1)) as [Hi|Hi]; cbn [negb]; [split; [done|lia]|]. rewrite c_slimb_ok by lia. split; [done|lia].
Qed.

Lemma eff_prec_low prec1 flags E : round_args prec1 flags E -> eff_prec E prec1 flags <= 0 -> - 2 ^ 63 <= E + (1 - eff_prec E prec1 flags) < 2 ^ 63.
Proof.
  intros [Hf Hp HE Hs _]. destruct (e_max_range flags Hf) as [Hem _]. unfold eff_prec, is_subnormal, e_min in *. change BF_PREC_INF with (2 ^ 62 - 1) in *.
  destruct (negb (flags .& BF_FLAG_RADPNT_PREC =? 0)); [destruct (prec1 =? _)|destruct ((E <? _) && _)]; lia.
Qed.

(** The fraction of the specification, for a mantissa of [l] limbs. *)
Lemma rnd_scaled mode s N k : let N' := N * 2 ^ Z.max 0 (- k) in let D' := 1 * 2 ^ Z.max 0 k in let D := 2 ^ Z.max 0 k in
  rnd_up mode s N' D' = rnd_up mode s N D /\ is_inexact mode N' D' = is_inexact mode N D /\ N' / D' = N / D * 2 ^ Z.max 0 (- k).
Proof.
  cbn zeta. rewrite Z.mul_1_l. destruct (Z.le_gt_cases k 0).
  - rewrite (Z.max_l 0 k), (Z.max_r 0 (- k)) by lia. change (2 ^ 0) with 1. rewrite !rnd_up_exact by (done || apply Z.mod_1_r). unfold is_inexact. rewrite !Z.mod_1_r, !Z.div_1_r. done.
  - rewrite !(Z.max_l 0 (- k)) by lia. change (2 ^ 0) with 1. rewrite !Z.mul_1_r. done.
Qed.

Lemma set_underflow_ok r ret s : limbs (tab r) -> yields (set_underflow r ret s) (fun '(ret', r', _) => special_is r' (sign r) BF_EXP_ZERO /\ ret' = (ret .| BF_ST_UNDERFLOW) .| BF_ST_INEXACT).
Proof.
  intros Ht. unfold set_underflow, bf_set_zero. destruct (bf_set_special_ok BF_EXP_ZERO (sign r) r s Ht) as [s' ->]. done.
Qed.

(** The number after the addition: [M] units. *)
Lemma round_tail prec1 flags l ret st r r1 c s : round_args prec1 flags (expn r) -> to_round r l -> to_round r1 l -> let prec := eff_prec (expn r) prec1 flags in let k := 64 * l - prec in
  1 <= prec < 2 ^ 63 - 1 -> sign r1 = sign r -> expn r1 = expn r + c -> 0 <= c <= 1 ->
  forall M, M = top l r1 / 2 ^ Z.max 0 k * 2 ^ c * 2 ^ Z.max 0 (- k) -> (c = 1 <-> M = 2 ^ prec) -> st = ret ->
  yields (let small := expn r1 <? - e_max flags + 3 in
    if small && (flags .& BF_FLAG_SUBNORMAL =? 0) then set_underflow r1 st s
    else
      let ret := if small && negb (st .& BF_ST_INEXACT =? 0) then st .| BF_ST_UNDERFLOW else st in
      if expn r1 >? e_max flags then bf_set_overflow r1 (sign r1) prec1 flags s
      else keep_bits r1 l prec ret s)
    (fun '(ret', r', _) => if M =? 0 then special_is r' (sign r) BF_EXP_ZERO /\ ret' = (st .| BF_ST_UNDERFLOW) .| BF_ST_INEXACT else
      let E := if M =? 2 ^ prec then expn r + 1 else expn r in let small := E <? e_min flags in
      if small && negb (is_subnormal flags) then special_is r' (sign r) BF_EXP_ZERO /\ ret' = (st .| BF_ST_UNDERFLOW) .| BF_ST_INEXACT
      else if E >? e_max flags then overflowed prec1 flags (sign r) ret' r'
      else value_is r' (sign r) (M, expn r - prec) /\ ret' = if small && negb (st .& BF_ST_INEXACT =? 0) then st .| BF_ST_UNDERFLOW else st).
Proof.
  intros Ha Hr Hr1 prec k Hp Hs He Hc M HM Hcm ->. destruct (top_range r1 l Hr1) as (HN & _ & _). destruct (id Hr1) as [H1 H2 H3 _].
  assert (Hcut : 1 <= top l r1 / 2 ^ Z.max 0 k).
  { apply Z.div_le_lower_bound; [apply Z.pow_pos_nonneg; lia|]. rewrite Z.mul_1_r. eapply Z.le_trans; [|exact (proj1 HN)]. apply Z.pow_le_mono_r; lia. }
  assert (HM0 : M <> 0).
  { rewrite HM. assert (0 < 2 ^ c /\ 0 < 2 ^ Z.max 0 (- k)) by (split; apply Z.pow_pos_nonneg; lia). nia. }
  assert (HE : expn r1 = if M =? 2 ^ prec then expn r + 1 else expn r) by (rewrite He; destruct (Z.eqb_spec M (2 ^ prec)) as [E|E]; [apply Hcm in E; lia|assert (c <> 1) by (by intros ->; apply E, Hcm); lia]).
  cbn zeta. rewrite <- HE. fold (e_min flags). replace (flags .& BF_FLAG_SUBNORMAL =? 0) with (negb (is_subnormal flags)) by apply negb_involutive.
  destruct (Z.eqb_spec M 0) as [|_]; [done|]. destruct ((expn r1 <? e_min flags) && negb (is_subnormal flags)).
  - eapply yields_mono; [by apply set_underflow_ok|]. intros [[ret' r'] s']. rewrite Hs. done.
  - destruct (Z.gtb_spec (expn r1) (e_max flags)) as [Hgt|Hle].
    + assert (prec1 <> 0) by (intros E; pose proof (ra_zero _ _ _ Ha E); lia). pose proof (ra_prec _ _ _ Ha). eapply yields_mono; [apply bf_set_overflow_ok; [done|apply (ra_flags _ _ _ Ha)|lia]|].
      intros [[ret' r'] s']. rewrite Hs. done.
    + eapply yields_mono; [apply keep_bits_ok; [done|lia]|]. fold k. intros [[ret' r'] s'] (-> & Hfin & Hsg & He' & Hl' & Hm). split; [|done]. split; [done|]. split; [congruence|].
      pose proof (fin_len _ Hfin). unfold dy. rewrite He'. replace (expn r1 - 64 * len r') with (expn r1 - 64 * l + 64 * (l - len r')) by lia. rewrite <- dy_shift, Hm by lia.
      rewrite dy_shift by lia. rewrite HM. rewrite <- Z.mul_assoc, <- Z.pow_add_r, dy_shift by lia. rewrite He. replace (expn r + c - 64 * l + Z.max 0 k) with (expn r - prec + (c + Z.max 0 (- k))) by lia. done.
Qed.

Lemma __bf_round_ok r prec1 flags l ret s : round_args prec1 flags (expn r) -> to_round r l -> 0 <= sign r <= 1 ->
  yields (__bf_round r prec1 flags l ret s) (fun '(ret', r', _) => rounded prec1 flags (sign r) (top l r) 1 (expn r - 64 * l) (expn r) ret ret' r').
Proof.
  intros Ha Hr Hsg. destruct (top_range r l Hr) as (HN & HT & Hlen). destruct (id Hr) as [H1 H2 H3 _]. unfold __bf_round. destruct (eff_prec_ok _ _ _ Ha) as [-> Hp]. cbn [mbind outcome_bind].
  pose proof (eff_prec_low _ _ _ Ha) as Hlow. unfold rounded. set (prec := eff_prec _ _ _) in *. set (k := 64 * l - prec). replace (expn r - 64 * l - (expn r - prec)) with (- k) by lia. replace (expn r - prec - (expn r - 64 * l)) with k by lia.
  pose proof (e_max_range _ (ra_flags _ _ _ Ha)) as [Hem ->]. pose proof (mode_nonneg flags). pose proof (ra_flags _ _ _ Ha) as [Hmode _]. pose proof (ra_expn _ _ _ Ha) as HE.
  rewrite bf_get_rnd_add_ok by (done || lia). fold k. cbn [mbind outcome_bind]. set (mode := flags .& BF_RND_MASK) in *. destruct (rnd_scaled mode (sign r) (top l r) k) as (Eu & Ei & Ed). unfold rnd. rewrite Eu, Ei, Ed.
  set (N := top l r) in *. set (up := rnd_up mode (sign r) N (2 ^ Z.max 0 k)) in *. set (st := if is_inexact _ _ _ then _ else ret). destruct (Z.leb_spec prec 0) as [Hp0|Hp0].
  - assert (Hq : N / 2 ^ Z.max 0 k = 0) by (apply Z.div_small; split; [lia|]; eapply Z.lt_le_trans; [exact (proj2 HN)|apply Z.pow_le_mono_r; lia]). rewrite Hq, Z.mul_0_l, Z.add_0_l. destruct up; cbn [b2z].
    + change (negb (1 =? 0)) with true. change (1 =? 0) with false. cbn match. destruct (bf_resize_shrink r 1 s H1 ltac:(lia)) as [s' ->]. unfold set_tab. cbn [tab sign expn].
      destruct (tab r) as [|a t] eqn:Et; [unfold len in H2; rewrite Et in H2; change (zlen (@nil Z)) with 0 in H2; lia|]. change (take (Z.to_nat 1) (a :: t)) with [a]. rewrite aset_ok by (unfold zlen; cbn [length]; lia).
      cbn [mbind outcome_bind]. rewrite c_slimb_ok by lia. cbn [mbind outcome_bind]. rewrite c_slimb_ok by (specialize (Hlow Hp0); lia). cbn [mbind outcome_bind mret outcome_ret yields].
      change (<[Z.to_nat 0 := 1 << (LIMB_BITS - 1)]> [a]) with [2 ^ 63]. split; [|done]. split; [|split; [done|]].
      * split; cbn; [|done|done|done]. constructor; [|done]. unfold is_limb. lia.
      * change (dy (MkBf (sign r) (expn r + (1 - prec)) [2 ^ 63])) with (1 * 2 ^ 63, expn r + (1 - prec) - 64). rewrite dy_shift by lia. replace (expn r + (1 - prec) - 64 + 63) with (expn r - prec) by lia. done.
    + change (negb (0 =? 0)) with false. change (0 =? 0) with true. cbn match. by apply set_underflow_ok.
  - assert (Hup : up = true -> 1 <= k).
    { intros E. destruct (Z.le_gt_cases k 0) as [Hk|]; [|lia]. unfold up in E. rewrite Z.max_l in E by lia. by rewrite rnd_up_exact in E by (done || apply Z.mod_1_r). }
    assert (HM : forall q', 0 <= q' < 2 ^ (64 * l - Z.max 0 k) -> q' * 2 ^ Z.max 0 (- k) < 2 ^ prec).
    { intros q' Hq'. replace prec with (64 * l - Z.max 0 k + Z.max 0 (- k)) by lia. rewrite Z.pow_add_r by lia. apply Z.mul_lt_mono_pos_r; [apply Z.pow_pos_nonneg|]; lia. }
    assert (Hlt : forall N', 0 <= N' < 2 ^ (64 * l) -> 0 <= N' / 2 ^ Z.max 0 k < 2 ^ (64 * l - Z.max 0 k)).
    { intros N' HN'. assert (0 < 2 ^ Z.max 0 k) by (apply Z.pow_pos_nonneg; lia). split; [apply Z.div_pos; lia|]. apply Z.div_lt_upper_bound; [done|]. rewrite Z.mul_comm, <- pow_div by lia. lia. }
    apply yields_bind. destruct up eqn:Eup; cbn [b2z].
    + change (negb (1 =? 0)) with true. cbn match. eapply yields_mono; [apply add_ulp_ok; [done|lia|done]|]. fold k. intros r1 (Hs1 & Hr1 & c & Hc & He1 & Ht1 & Hc1). rewrite Z.max_r, Z.max_l in * by lia. change (2 ^ 0) with 1 in *. rewrite Z.mul_1_r.
      destruct (top_range r1 l Hr1) as (HN1 & _ & _). assert (0 < 2 ^ (64 * l - 1)) by (apply Z.pow_pos_nonneg; lia). pose proof (Hlt (top l r1) ltac:(lia)) as Hq1.
      apply (round_tail prec1 flags l st st r r1 c s Ha Hr Hr1); [fold prec; lia|done|done|done| | |done].
      * fold prec k. rewrite Z.max_r, Z.max_l by lia. change (2 ^ 0) with 1. rewrite Ht1. fold N. lia.
      * fold prec. split; [done|]. intros E. destruct (Z.eq_dec c 0) as [->|]; [|lia]. change (2 ^ 0) with 1 in Ht1. replace (64 * l - k) with prec in Hq1 by lia. fold N in Ht1. lia.
    + change (negb (0 =? 0)) with false. cbn [mret outcome_ret yields]. rewrite Z.add_0_r. assert (0 < 2 ^ (64 * l - 1)) by (apply Z.pow_pos_nonneg; lia). pose proof (Hlt N ltac:(lia)) as Hq1.
      apply (round_tail prec1 flags l st st r r 0 s Ha Hr Hr); [fold prec; lia|done|lia|lia| | |done].
      * fold prec k N. change (2 ^ 0) with 1. by rewrite Z.mul_1_r.
      * fold prec. split; [done|]. intros E. pose proof (HM _ Hq1). lia.
Qed.

(** ** Normalization *)

Lemma trim_len_ok t : limbs t -> let l := trim_len t in 0 <= l <= zlen t /\ val (take (Z.to_nat l) t) = val t /\ (l = 0 <-> val t = 0) /\ (0 < l -> exists v, t !! Z.to_nat (l - 1) = Some v /\ 0 < v).
Proof.
  induction 1 as [|a t Ha Ht IH]; cbn [trim_len val]; [by repeat split|]. cbn zeta in IH. destruct IH as (IH1 & IH2 & IH3 & IH4). unfold is_limb in Ha. pose proof (val_range t Ht). set (n := trim_len t) in *.
  assert (Hz : zlen (a :: t) = zlen t + 1) by (unfold zlen; cbn [length]; lia). destruct (Z.eqb_spec n 0) as [Hn|Hn], (Z.eqb_spec a 0) as [->|Ha0]; cbn [andb].
  - apply IH3 in Hn. rewrite Hn. change (take (Z.to_nat 0) (0 :: t)) with (@nil Z). cbn [val]. repeat split; try lia.
  - assert (Hv : val t = 0) by (by apply IH3). rewrite Hn, Hv. change (0 + 1) with 1. change (take (Z.to_nat 1) (a :: t)) with (a :: take 0 t). rewrite take_0. cbn [val]. split; [lia|]. split; [lia|]. split; [lia|].
    intros _. exists a. split; [done|lia].
  - assert (val t <> 0) by tauto. split; [lia|]. replace (Z.to_nat (n + 1)) with (S (Z.to_nat n)) by lia. cbn [take val]. rewrite IH2. split; [lia|]. split; [lia|]. intros _. destruct IH4 as (v & Hv & Hv0); [lia|].
    exists v. split; [|done]. replace (Z.to_nat (n + 1 - 1)) with (S (Z.to_nat (n - 1))) by lia. done.
  - assert (val t <> 0) by tauto. split; [lia|]. replace (Z.to_nat (n + 1)) with (S (Z.to_nat n)) by lia. cbn [take val]. rewrite IH2. split; [lia|]. split; [lia|]. intros _. destruct IH4 as (v & Hv & Hv0); [lia|].
    exists v. split; [|done]. replace (Z.to_nat (n + 1 - 1)) with (S (Z.to_nat (n - 1))) by lia. done.
Qed.

Lemma shl_loop_ok shift t : limbs t -> 1 <= shift < 64 -> forall v, is_limb v ->
  let res := shl_loop t shift v in limbs res /\ length res = length t /\ exists k, 0 <= k /\ val t * 2 ^ shift + v / 2 ^ (64 - shift) = val res + B ^ Z.of_nat (length t) * k.
Proof.
  intros Ht Hs. assert (Hp : 0 < 2 ^ shift /\ 0 < 2 ^ (64 - shift)) by (split; apply Z.pow_pos_nonneg; lia). assert (HB : B = 2 ^ (64 - shift) * 2 ^ shift) by (apply pow_div; lia).
  induction Ht as [|a t Ha Ht IH]; intros v Hv; cbn [shl_loop val length]; unfold is_limb in *.
  - split; [done|]. split; [done|]. exists (v / 2 ^ (64 - shift)). split; [apply Z.div_pos; lia|]. change (B ^ Z.of_nat 0) with 1. lia.
  - destruct (IH a Ha) as (H1 & H2 & k & Hk & E). unfold LIMB_BITS. rewrite Z.shiftr_div_pow2, Z.shiftl_mul_pow2 by lia.
    assert (Hd : 0 <= v / 2 ^ (64 - shift) < 2 ^ shift) by (split; [apply Z.div_pos; lia|apply Z.div_lt_upper_bound; lia]).
    assert (Hw : limb (a * 2 ^ shift) = (a mod 2 ^ (64 - shift)) * 2 ^ shift) by (unfold wrap; rewrite HB at 1; by rewrite Z.mul_mod_distr_r by lia).
    pose proof (Z.mod_pos_bound a (2 ^ (64 - shift)) ltac:(lia)) as Hm. pose proof (Z.div_mod a (2 ^ (64 - shift)) ltac:(lia)) as Hdm.
    assert (Hor : limb (a * 2 ^ shift) .| (v / 2 ^ (64 - shift)) = limb (a * 2 ^ shift) + v / 2 ^ (64 - shift)).
    { rewrite Z.lor_comm, (lor_add shift); [lia|lia|done|]. rewrite Hw. apply Z.mod_mul. lia. }
    rewrite Hor, Hw. set (am := a mod 2 ^ (64 - shift)) in *. set (ad := a / 2 ^ (64 - shift)) in *. set (vd := v / _) in *. split; [constructor; [nia|done]|]. split; [by rewrite H2|].
    exists k. split; [done|]. rewrite Nat2Z.inj_succ, Z.pow_succ_r by lia.
    transitivity (am * 2 ^ shift + vd + (2 ^ (64 - shift) * 2 ^ shift) * (val t * 2 ^ shift + ad)); [rewrite <- HB, Hdm; rewrite HB; ring|rewrite <- HB, E; ring].
Qed.

(** Equal fractions are rounded to equal integers. *)
Lemma rnd_frac mode s N D N' D' : 0 < D -> 0 < D' -> N * D' = N' * D -> rnd mode s N D = rnd mode s N' D' /\ is_inexact mode N D = is_inexact mode N' D'.
Proof.
  intros HD HD' E. pose proof (Z.div_mod N D ltac:(lia)) as Hd. pose proof (Z.mod_pos_bound N D HD) as Hm.
  assert (Hq : N' / D' = N / D) by (symmetry; apply (Z.div_unique _ _ _ (N' - N / D * D')); [left; nia|ring]).
  assert (Hr : N mod D * D' = N' mod D' * D) by (rewrite !Z.mod_eq by lia; rewrite Hq; nia).
  pose proof (Z.mod_pos_bound N' D' HD') as Hm'. unfold rnd, rnd_up, is_inexact. rewrite Hq. set (r := N mod D) in *. set (r' := N' mod D') in *. clearbody r r'.
  assert (T0 : (r =? 0) = (r' =? 0)) by (destruct (Z.eqb_spec r 0), (Z.eqb_spec r' 0); nia). assert (T1 : (D <? 2 * r) = (D' <? 2 * r')) by (destruct (Z.ltb_spec D (2 * r)), (Z.ltb_spec D' (2 * r')); nia).
  assert (T2 : (2 * r =? D) = (2 * r' =? D')) by (destruct (Z.eqb_spec (2 * r) D), (Z.eqb_spec (2 * r') D'); nia). assert (T3 : (D <=? 2 * r) = (D' <=? 2 * r')) by (destruct (Z.leb_spec D (2 * r)), (Z.leb_spec D' (2 * r')); nia).
  by rewrite T0, T1, T2, T3.
Qed.
Lemma pow_split e f a : a <= e -> a <= f -> 2 ^ Z.max 0 (e - f) * 2 ^ (f - a) = 2 ^ (e - a) * 2 ^ Z.max 0 (f - e).
Proof. intros. rewrite <- !Z.pow_add_r by lia. f_equal. lia. Qed.
(** Multiplying a fraction by [2 ^ e]. *)
Lemma frac_scale N D e N' D' e' f : 0 < D -> 0 < D' -> dy_eq (N * D', e) (N' * D, e') ->
  (N * 2 ^ Z.max 0 (e - f)) * (D' * 2 ^ Z.max 0 (f - e')) = (N' * 2 ^ Z.max 0 (e' - f)) * (D * 2 ^ Z.max 0 (f - e)).
Proof.
  intros HD HD' E. set (a := Z.min f (Z.min e e')). assert (a <= f /\ a <= e /\ a <= e') as (L1 & L2 & L3) by lia. clearbody a. rewrite (dy_eq_at a) in E by done.
  pose proof (pow_split e f a L2 L1) as P1. pose proof (pow_split e' f a L3 L1) as P2. assert (0 < 2 ^ (f - a)) by (apply Z.pow_pos_nonneg; lia). set (F := 2 ^ (f - a)) in *.
  apply (Z.mul_reg_r _ _ F); [lia|]. set (x := 2 ^ Z.max 0 (e - f)) in *. set (y := 2 ^ Z.max 0 (f - e)) in *. set (x' := 2 ^ Z.max 0 (e' - f)) in *. set (y' := 2 ^ Z.max 0 (f - e')) in *.
  transitivity ((N * D') * y' * (x * F)); [ring|]. rewrite P1. transitivity ((N * D' * 2 ^ (e - a)) * y * y'); [ring|]. rewrite E. transitivity (N' * D * y * (2 ^ (e' - a) * y')); [ring|]. rewrite <- P2. ring.
Qed.
Lemma rounded_frac prec1 flags s N D e N' D' e' E ret0 ret r : 0 < D -> 0 < D' -> dy_eq (N * D', e) (N' * D, e') ->
  rounded prec1 flags s N D e E ret0 ret r -> rounded prec1 flags s N' D' e' E ret0 ret r.
Proof.
  intros HD HD' H. unfold rounded. set (f := E - _). pose proof (frac_scale _ _ _ _ _ _ f HD HD' H) as Hf.
  assert (0 < 2 ^ Z.max 0 (f - e) /\ 0 < 2 ^ Z.max 0 (f - e')) as [Hp Hp'] by (split; apply Z.pow_pos_nonneg; lia).
  apply (rnd_frac (flags .& BF_RND_MASK) s) in Hf as [-> ->]; [done|by apply Z.mul_pos_pos..].
Qed.

(** The exponent of a number. *)
Definition exponent (m e : Z) : Z := e + Z.log2 m + 1.
Lemma exponent_spec m e E : 0 < m -> exponent m e = E <-> (e < E /\ 2 ^ (E - e - 1) <= m < 2 ^ (E - e)).
Proof.
  intros Hm. unfold exponent. pose proof (Z.log2_spec m Hm) as H. pose proof (Z.log2_nonneg m). split.
  - intros <-. replace (e + Z.log2 m + 1 - e - 1) with (Z.log2 m) by lia. replace (e + Z.log2 m + 1 - e) with (Z.succ (Z.log2 m)) by lia. split; [lia|done].
  - intros [He Hr]. rewrite (Z.log2_unique m (E - e - 1)); [lia|lia|]. by replace (Z.succ (E - e - 1)) with (E - e) by lia.
Qed.

Lemma bf_normalize_and_round_ok r prec1 flags s : limbs (tab r) -> len r <= 2 ^ 50 -> 0 <= sign r <= 1 -> - 2 ^ 62 <= expn r <= 2 ^ 62 ->
  (0 < mant r -> round_args prec1 flags (exponent (mant r) (expn r - 64 * len r))) ->
  yields (bf_normalize_and_round r prec1 flags s) (fun '(ret', r', _) =>
    if mant r =? 0 then ret' = 0 /\ special_is r' (sign r) BF_EXP_ZERO
    else rounded prec1 flags (sign r) (mant r) 1 (expn r - 64 * len r) (exponent (mant r) (expn r - 64 * len r)) 0 ret' r').
Proof.
  intros Ht Hlen Hsg He Ha. unfold bf_normalize_and_round. destruct (trim_len_ok (tab r) Ht) as (Hl & Hv & Hz & Hnz). set (l := trim_len (tab r)) in *. fold (mant r) in Hv, Hz. pose proof (val_range _ Ht) as Hr. fold (mant r) in Hr.
  destruct (Z.eqb_spec l 0) as [Hl0|Hl0].
  - destruct (bf_resize_shrink (set_expn BF_EXP_ZERO r) 0 s) as [s' ->]; [done|unfold len, set_expn; cbn [tab]; pose proof (zlen_nonneg (tab r)); lia|]. cbn [mret outcome_ret yields]. apply Hz in Hl0. rewrite Hl0. by destruct r.
  - assert (Hm : mant r <> 0) by tauto. destruct (Z.eqb_spec (mant r) 0); [done|]. specialize (Ha ltac:(lia)). destruct Hnz as (v & Hv1 & Hv0); [lia|].
    fold (len r) in *. unfold LIMB_BITS. rewrite c_slimb_ok by lia. cbn [mbind outcome_bind]. unfold aget. destruct (Z.ltb_spec (l - 1) 0); [lia|]. rewrite Hv1. cbn [mbind outcome_bind].
    assert (Hvl : is_limb v) by (eapply list.Forall_forall in Ht; [exact Ht|by eapply list_elem_of_lookup_2]). unfold is_limb in Hvl. unfold clz, clz64. destruct (Z.eqb_spec v 0); [lia|]. cbn [mbind outcome_bind].
    set (shift := 63 - Z.log2 v). assert (Hlog : 0 <= Z.log2 v < 64) by (split; [apply Z.log2_nonneg|apply Z.log2_lt_pow2; lia]).
    set (T := take (Z.to_nat l) (tab r)) in *. assert (HT : limbs T) by (by apply limbs_take). assert (HlT : length T = Z.to_nat l) by (unfold T; apply length_take_le; unfold len, zlen in *; lia).
    pose proof (Z.log2_spec v Hv0) as Hls.
    assert (Hmv : exists lo, 0 <= lo < 2 ^ (64 * (l - 1)) /\ mant r = lo + 2 ^ (64 * (l - 1)) * v).
    { rewrite <- Hv. exists (val (take (Z.to_nat (l - 1)) T)). rewrite (val_split (Z.to_nat (l - 1)) T) at 1 by lia. pose proof (val_range _ (limbs_take (Z.to_nat (l - 1)) T HT)) as Hr1. rewrite length_take_le in Hr1 by lia.
      rewrite Z2Nat.id, pow_limbs in * by lia. split; [done|]. do 2 f_equal. unfold T. rewrite <- (Nat2Z.id (length T)) at 0 || idtac. change T with (take (Z.to_nat l) (tab r)).
      rewrite (drop_S _ v) by (rewrite lookup_take_lt; [done|lia]). rewrite drop_ge by (rewrite HlT || (fold T; lia)). cbn [val]. lia. }
    destruct Hmv as (lo & Hlo & Hmv). assert (HX : 0 < 2 ^ (64 * (l - 1))) by (apply Z.pow_pos_nonneg; lia). assert (Hps : 0 < 2 ^ shift) by (apply Z.pow_pos_nonneg; lia).
    assert (Hv2 : 2 ^ 63 <= v * 2 ^ shift /\ (v + 1) * 2 ^ shift <= B).
    { rewrite (pow_div 63 shift) by lia. change B with (2 ^ 64). rewrite (pow_div 64 shift) by lia. replace (63 - shift) with (Z.log2 v) by lia. replace (64 - shift) with (Z.succ (Z.log2 v)) by lia. split; apply Z.mul_le_mono_nonneg_r; lia. }
    assert (HN : 2 ^ (64 * l - 1) <= mant r * 2 ^ shift < 2 ^ (64 * l)).
    { replace (64 * l - 1) with (64 * (l - 1) + 63) by lia. replace (64 * l) with (64 * (l - 1) + 64) by lia. rewrite !Z.pow_add_r by lia. set (X := 2 ^ (64 * (l - 1))) in *. rewrite Hmv. change (2 ^ 64) with B. nia. }
    assert (HE : exponent (mant r) (expn r - 64 * len r) = expn r - 64 * (len r - l) - shift).
    { apply exponent_spec; [lia|]. split; [lia|]. replace (expn r - 64 * (len r - l) - shift - (expn r - 64 * len r)) with (64 * l - shift) by lia.
      rewrite (pow_div (64 * l - 1) shift), (pow_div (64 * l) shift) in HN by lia. replace (64 * l - shift - 1) with (64 * l - 1 - shift) by lia. split; [apply (Z.mul_le_mono_pos_r _ _ (2 ^ shift)); lia|apply (Z.mul_lt_mono_pos_r (2 ^ shift)); lia]. }
    rewrite HE in *.
    assert (Hgo : forall t1, limbs t1 -> zlen t1 = len r -> val (take (Z.to_nat l) t1) = mant r * 2 ^ shift ->
      yields (__bf_round (MkBf (sign r) (expn r - 64 * (len r - l) - shift) t1) prec1 flags l 0 s) (fun '(ret', r', _) =>
        rounded prec1 flags (sign r) (mant r) 1 (expn r - 64 * len r) (expn r - 64 * (len r - l) - shift) 0 ret' r')).
    { intros t1 Ht1 Hl1 Hv1'. set (r1 := MkBf _ _ _). assert (Htr : to_round r1 l) by (split; [done|change (len r1) with (zlen t1); lia|lia|unfold top; cbn [tab r1]; lia]).
      eapply yields_mono; [apply (__bf_round_ok r1); [exact Ha|done|done]|]. intros [[ret' r'] s'] Hd. cbn [sign expn r1] in Hd. eapply rounded_frac; [| | |exact Hd]; [lia|lia|]. rewrite !Z.mul_1_r. unfold top. cbn [tab r1]. rewrite Hv1', dy_shift by lia.
      replace (expn r - 64 * (len r - l) - shift - 64 * l + shift) with (expn r - 64 * len r) by lia. done. }
    destruct (Z.eqb_spec shift 0) as [Hs0|Hs0]; cbn [negb].
    + cbn [mbind outcome_bind mret outcome_ret]. unfold set_expn. specialize (Hgo (tab r)). rewrite Hs0, Z.sub_0_r in Hgo. rewrite Hs0, Z.sub_0_r, (Z.mul_comm (len r - l)). apply Hgo; [done|done|]. fold T. rewrite Hv. change (2 ^ 0) with 1. lia.
    + rewrite c_slimb_ok by lia. cbn [mbind outcome_bind]. destruct (shl_loop_ok shift T HT ltac:(lia) 0 ltac:(done)) as (Hw1 & Hw2 & k & Hk & Ek). set (T1 := shl_loop T shift 0) in *.
      rewrite awrite_ok by (unfold len, zlen in *; lia). cbn [mbind outcome_bind mret outcome_ret]. rewrite (Z.mul_comm (len r - l)). apply Hgo.
      * apply Forall_app. split; [by apply limbs_take|]. apply Forall_app. split; [done|by apply limbs_drop].
      * unfold len, zlen in *. rewrite !length_app, length_drop. change (length (take (Z.to_nat 0) (tab r))) with 0%nat. lia.
      * change (take (Z.to_nat 0) (tab r)) with (@nil Z). cbn [app]. rewrite take_app_length' by lia. rewrite Z.div_0_l, Hv, HlT, Z2Nat.id, pow_limbs in Ek by lia. pose proof (val_range T1 Hw1). assert (Hk0 : k = 0) by (destruct (Z.eq_dec k 0); [done|]; assert (2 ^ (64 * l) * 1 <= 2 ^ (64 * l) * k) by (apply Z.mul_le_mono_nonneg_l; lia); lia).
        rewrite Hk0 in Ek. lia.
Qed.
End Round.
