(* ===== verification/BigOps.v ===== *)
(** * Operations on big floats (libbf.c)

    Comparison, product, quotient, scaling, rounding to an integer.  A function that writes [r] takes flags that say whether [r] is an operand, where the code
    asks for it.  The product of large numbers by number theoretic transforms and the division of large numbers are parameters of the functions
    that call them. *)

From stdpp Require Import base list.
From S2P Require Import Prelude Cutils Limbs BigFloat BigRound.
#[local] Open Scope Z_scope.

(** ** Comparison *)

(** The limbs [i - 1], ..., 0 of two arrays that are aligned at the top of [l] limbs. *)
Fixpoint cmp_loop (a b : bf_t) (l : Z) (i : nat) : Z :=
  match i with
  | O => 0
  | S i =>
      let v1 := get_limbz a (limb (len a - l + Z.of_nat i)) in
      let v2 := get_limbz b (limb (len b - l + Z.of_nat i)) in
      if negb (v1 =? v2) then if v1 <? v2 then -1 else 1 else cmp_loop a b l i
  end.
Definition bf_cmpu (a b : bf_t) : Z :=
  if negb (expn a =? expn b) then if expn a <? expn b then -1 else 1
  else let l := bf_max (len a) (len b) in cmp_loop a b l (Z.to_nat l).
Definition bf_cmp_full (a b : bf_t) : Z :=
  if bf_is_nan a || bf_is_nan b then if expn a =? expn b then 0 else if bf_is_nan a then 1 else -1
  else if negb (sign a =? sign b) then 1 - 2 * sign a
  else let res := bf_cmpu a b in if negb (sign a =? 0) then - res else res.
Definition bf_cmp (a b : bf_t) : Z :=
  if bf_is_nan a || bf_is_nan b then 2
  else if negb (sign a =? sign b) then if bf_is_zero a && bf_is_zero b then 0 else 1 - 2 * sign a
  else let res := bf_cmpu a b in if negb (sign a =? 0) then - res else res.

Section BigOps.
Context {HC : bf_context}.

(** ** Products *)

(** [fft_mul s r a_tab b_tab flags]: the product of large arrays, in [r]. *)
Context (fft_mul : bf_context_t -> bf_t -> list Z -> list Z -> Z -> outcome (bool * bf_t * bf_context_t)).

Definition FFT_MUL_R_OVERLAP_A : Z := 1.
Definition FFT_MUL_R_OVERLAP_B : Z := 2.

(** The limbs of the product.  [ra], [rb]: [r] is [a], [r] is [b]; [true]: an allocation failed. *)
Definition mul_limbs (r : bf_t) (a_tab b_tab : list Z) (ra rb : bool) (s : bf_context_t) : outcome (bool * bf_t * bf_context_t) :=
  if zlen b_tab >=? FFT_MUL_THRESHOLD then
    fft_mul s r a_tab b_tab ((if ra then FFT_MUL_R_OVERLAP_A else 0) .| (if rb then FFT_MUL_R_OVERLAP_B else 0))
  else
    let r := if ra || rb then bf_init else r in
    let '(failed, r, s) := bf_resize r (zlen a_tab + zlen b_tab) s in
    if failed then mret (true, r, s)
    else t ← mp_mul_basecase a_tab b_tab; t ← awrite (tab r) 0 t; mret (false, set_tab t r, s).
(** The operands in order: [len b <= len a]. *)
Definition mul_ordered (r a b : bf_t) (ra rb : bool) (prec flags : Z) (s : bf_context_t) : outcome (Z * bf_t * bf_context_t) :=
  let r_sign := sign a .^ sign b in
  if len b =? 0 then
    if bf_is_nan a || bf_is_nan b then let '(r, s) := bf_set_nan r s in mret (0, r, s)
    else if (expn a =? BF_EXP_INF) || (expn b =? BF_EXP_INF) then
      if ((expn a =? BF_EXP_INF) && (expn b =? BF_EXP_ZERO)) || ((expn a =? BF_EXP_ZERO) && (expn b =? BF_EXP_INF)) then
        let '(r, s) := bf_set_nan r s in mret (BF_ST_INVALID_OP, r, s)
      else let '(r, s) := bf_set_inf r r_sign s in mret (0, r, s)
    else let '(r, s) := bf_set_zero r r_sign s in mret (0, r, s)
  else
    let faithful := flags .& BF_RND_MASK =? BF_RNDF in
    let precl := (prec + 2 + LIMB_BITS - 1) / LIMB_BITS in
    let a_len := if faithful then bf_min (len a) precl else len a in
    let b_len := if faithful then bf_min (len b) precl else len b in
    let a_tab := drop (Z.to_nat (len a - a_len)) (tab a) in
    let b_tab := drop (Z.to_nat (len b - b_len)) (tab b) in
    x ← mul_limbs r a_tab b_tab ra rb s;
    let '(failed, r, s) := (x : bool * bf_t * bf_context_t) in
    if failed then mret (mem_error r s)
    else e ← c_slimb (expn a + expn b); bf_normalize_and_round (MkBf r_sign e (tab r)) prec flags s.
Definition bf_mul (r a b : bf_t) (ra rb : bool) (prec flags : Z) (s : bf_context_t) : outcome (Z * bf_t * bf_context_t) :=
  if len a <? len b then mul_ordered r b a rb ra prec flags s else mul_ordered r a b ra rb prec flags s.

(** ** Quotients *)

Context (mp_divnorm_large : list Z -> list Z -> outcome (option (list Z * list Z))).

(** [r] is neither [a] nor [b].  The array of the dividend is cleared and filled, apart from a last limb that is not used. *)
Definition __bf_div (r a b : bf_t) (prec flags : Z) (s : bf_context_t) : outcome (Z * bf_t * bf_context_t) :=
  let r_sign := sign a .^ sign b in
  if (expn a >=? BF_EXP_INF) || (expn b >=? BF_EXP_INF) then
    if bf_is_nan a || bf_is_nan b then let '(r, s) := bf_set_nan r s in mret (0, r, s)
    else if (expn a =? BF_EXP_INF) && (expn b =? BF_EXP_INF) then let '(r, s) := bf_set_nan r s in mret (BF_ST_INVALID_OP, r, s)
    else if expn a =? BF_EXP_INF then let '(r, s) := bf_set_inf r r_sign s in mret (0, r, s)
    else let '(r, s) := bf_set_zero r r_sign s in mret (0, r, s)
  else if bf_is_zero a then
    if bf_is_zero b then let '(r, s) := bf_set_nan r s in mret (BF_ST_INVALID_OP, r, s)
    else let '(r, s) := bf_set_zero r r_sign s in mret (0, r, s)
  else if bf_is_zero b then let '(r, s) := bf_set_inf r r_sign s in mret (BF_ST_DIVIDE_ZERO, r, s)
  else
    let precl := (prec + 2 + LIMB_BITS - 1) / LIMB_BITS in
    let nb := len b in
    let n := bf_max (len a) precl in
    let na := n + nb in
    match bf_realloc s [] (na + 1) with
    | (None, s) => mret (mem_error r s)
    | (Some taba, s) =>
        let d := na - len a in
        taba ← awrite taba 0 (replicate (Z.to_nat d) 0);
        taba ← awrite taba d (tab a);
        let '(failed, r, s) := bf_resize r (n + 1) s in
        if failed then mret (mem_error r (snd (bf_realloc s taba 0)))
        else
          o ← mp_divnorm mp_divnorm_large (take (Z.to_nat na) taba) (tab b);
          let s := snd (bf_realloc s taba 0) in
          match o with
          | None => mret (mem_error r s)
          | Some (q, rest) =>
              t ← awrite (tab r) 0 q;
              v ← aget t 0;
              t ← (if negb (mp_scan_nz (take (Z.to_nat nb) rest) =? 0) then aset t 0 (v .| 1) else mret t);
              d ← c_slimb (expn a - expn b);
              e ← c_slimb (d + LIMB_BITS);
              bf_normalize_and_round (MkBf r_sign e t) prec flags s
          end
    end.

(** [alias]: [r] is an operand. *)
Definition bf_op2 (alias : bool) (r a b : bf_t) (prec flags : Z) (func : bf_t -> bf_t -> bf_t -> Z -> Z -> bf_context_t -> outcome (Z * bf_t * bf_context_t)) (s : bf_context_t) :
    outcome (Z * bf_t * bf_context_t) :=
  if alias then func bf_init a b prec flags s else func r a b prec flags s.
Definition bf_div (alias : bool) (r a b : bf_t) (prec flags : Z) (s : bf_context_t) : outcome (Z * bf_t * bf_context_t) := bf_op2 alias r a b prec flags __bf_div s.

(** ** Scaling and integers *)

Definition bf_mul_2exp (r : bf_t) (e prec flags : Z) (s : bf_context_t) : outcome (Z * bf_t * bf_context_t) :=
  if len r =? 0 then mret (0, r, s)
  else
    let e_max := (1 << BF_EXT_EXP_BITS_MAX) - 1 in
    let e := bf_min (bf_max e (- e_max)) e_max in
    e ← c_slimb (expn r + e);
    __bf_round (set_expn e r) prec flags (len r) 0 s.

Fixpoint exp_min_loop (expn l i : Z) (t : list Z) : outcome Z :=
  match t with
  | [] => mret 0
  | v :: t => if negb (v =? 0) then k ← ctz v; mret (expn - (l - i) * LIMB_BITS + k) else exp_min_loop expn l (i + 1) t
  end.
Definition bf_get_exp_min (a : bf_t) : outcome Z := exp_min_loop (expn a) (len a) 0 (tab a).

Definition bf_rint (r : bf_t) (rnd_mode : Z) (s : bf_context_t) : outcome (Z * bf_t * bf_context_t) := bf_round r 0 (rnd_mode .| BF_FLAG_RADPNT_PREC) s.

Fixpoint can_round_loop (t : list Z) (bit bit_pos : Z) (n : nat) : bool :=
  match n with O => false | S n => if negb (get_bit t bit_pos =? bit) then true else can_round_loop t bit (bit_pos - 1) n end.
(** [k] is at least [prec + 2] when the loop starts, which stops at [n = 0]. *)
Definition bf_can_round (a : bf_t) (prec rnd_mode k : Z) : bool :=
  if (expn a =? BF_EXP_INF) || bf_is_nan a then false
  else if rnd_mode =? BF_RNDF then k >=? prec + 1
  else if bf_is_zero a then false
  else
    let is_rndn := (rnd_mode =? BF_RNDN) || (rnd_mode =? BF_RNDNA) in
    if k <? prec + 2 then false
    else
      let bit_pos := len a * LIMB_BITS - 1 - prec in
      let n := k - prec in
      can_round_loop (tab a) (get_bit (tab a) bit_pos .^ b2z is_rndn) (bit_pos - 1) (Z.to_nat (n - 1)).
End BigOps.
