(* ===== verification/BigArith.v ===== *)
(** * Correctness of the operations on big floats (libbf.c)

    Every operation on numbers returns the exact result rounded once ([correctly_rounded]), and special values follow IEEE 754. *)

From stdpp Require Import base list.
From S2P Require Import Prelude Cutils Limbs BigFloat BigRound BigOps.
#[local] Open Scope Z_scope.

(** ** Specification *)

(** [2 ^ f <= N / D * 2 ^ e] *)
Definition above (N D e f : Z) : Prop := D * 2 ^ Z.max 0 (f - e) <= N * 2 ^ Z.max 0 (e - f).
Definition in_binade (N D e E : Z) : Prop := above N D e (E - 1) /\ ~ above N D e E.
Definition correctly_rounded {HC : bf_context} (prec1 flags s N D e ret : Z) (r : bf_t) : Prop := exists E, in_binade N D e E /\ rounded prec1 flags s N D e E 0 ret r.

Inductive kind : Set := KNan | KInf | KZero | KNum.
#[export] Instance kind_eq_dec : EqDecision kind.
Proof. solve_decision. Defined.
Definition kind_of (a : bf_t) : kind := if bf_is_nan a then KNan else if expn a =? BF_EXP_INF then KInf else if bf_is_zero a then KZero else KNum.
(** Canonical values, of less than [2 ^ 46] bits. *)
Record bf_ok (a : bf_t) : Prop := {
  ok_sign : 0 <= sign a <= 1;
  ok_kind : if decide (kind_of a = KNum) then finite_nz a /\ len a <= 2 ^ 40 /\ - 2 ^ 60 <= expn a <= 2 ^ 60 else tab a = [] }.
Record op_args (prec1 flags : Z) : Prop := {
  oa_flags : valid_flags flags;
  oa_prec : 1 <= prec1 <= BF_PREC_INF;
  oa_sub : prec1 = BF_PREC_INF -> flags .& BF_FLAG_RADPNT_PREC = 0 -> is_subnormal flags = false }.

Lemma op_round_args prec1 flags E : op_args prec1 flags -> - 2 ^ 62 <= E <= 2 ^ 62 -> round_args prec1 flags E.
Proof. intros [H1 H2 H3] HE. split; [done|lia|done|done|lia]. Qed.

Lemma above_frac N D e N' D' e' f : 0 < D -> 0 < D' -> dy_eq (N * D', e) (N' * D, e') -> above N D e f -> above N' D' e' f.
Proof.
  intros HD HD' H. pose proof (frac_scale _ _ _ _ _ _ f HD HD' H) as Hf. unfold above. assert (0 < 2 ^ Z.max 0 (f - e) /\ 0 < 2 ^ Z.max 0 (f - e')) as [Hp Hp'] by (split; apply Z.pow_pos_nonneg; lia).
  set (x := N * _) in *. set (y := D * _) in *. set (x' := N' * _) in *. set (y' := D' * _) in *. assert (0 < y) by (by apply Z.mul_pos_pos). assert (0 < y') by (by apply Z.mul_pos_pos). nia.
Qed.
Lemma correctly_rounded_frac {HC : bf_context} prec1 flags s N D e N' D' e' ret r : 0 < D -> 0 < D' -> dy_eq (N * D', e) (N' * D, e') ->
  correctly_rounded prec1 flags s N D e ret r -> correctly_rounded prec1 flags s N' D' e' ret r.
Proof.
  intros HD HD' H (E & [H1 H2] & H3). exists E. split; [|exact (rounded_frac _ _ _ _ _ _ _ _ _ _ _ _ _ HD HD' H H3)]. split; [exact (above_frac _ _ _ _ _ _ _ HD HD' H H1)|]. intros Ha. apply H2. apply symmetry in H. exact (above_frac _ _ _ _ _ _ _ HD' HD H Ha).
Qed.
Lemma exponent_binade m e : 0 < m -> in_binade m 1 e (exponent m e).
Proof.
  intros Hm. pose proof (Z.log2_nonneg m). pose proof (Z.log2_spec m Hm) as Hl. unfold in_binade, above, exponent. rewrite !Z.mul_1_l.
  replace (e + Z.log2 m + 1 - 1 - e) with (Z.log2 m) by lia. replace (e + Z.log2 m + 1 - e) with (Z.succ (Z.log2 m)) by lia.
  rewrite (Z.max_r 0 (Z.log2 m)), (Z.max_r 0 (Z.succ _)), !Z.max_l by lia. change (2 ^ 0) with 1. lia.
Qed.

(** Values that are not numbers have no limbs. *)
Lemma kind_cases a : bf_ok a -> match kind_of a with
  | KNan => expn a = BF_EXP_NAN /\ tab a = [] | KInf => expn a = BF_EXP_INF /\ tab a = [] | KZero => expn a = BF_EXP_ZERO /\ tab a = []
  | KNum => finite_nz a /\ len a <= 2 ^ 40 /\ - 2 ^ 60 <= expn a <= 2 ^ 60 end.
Proof.
  intros [_ H]. destruct (decide (kind_of a = KNum)) as [E|E]; [by rewrite E|]. revert E. unfold kind_of, bf_is_nan, bf_is_zero. destruct (Z.eqb_spec (expn a) BF_EXP_NAN); [done|].
  destruct (Z.eqb_spec (expn a) BF_EXP_INF); [done|]. destruct (Z.eqb_spec (expn a) BF_EXP_ZERO); done.
Qed.

(** ** Comparison *)

(** The order of two dyadic numbers. *)
Definition z_cmp (x y : Z) : Z := if x =? y then 0 else if x <? y then -1 else 1.
Definition dy_cmp (x y : dyadic) : Z := let e := Z.min (snd x) (snd y) in z_cmp (fst x * 2 ^ (snd x - e)) (fst y * 2 ^ (snd y - e)).

Lemma z_cmp_scale x y k : 0 < k -> z_cmp (x * k) (y * k) = z_cmp x y.
Proof. intros. unfold z_cmp. destruct (Z.eqb_spec (x * k) (y * k)), (Z.eqb_spec x y), (Z.ltb_spec (x * k) (y * k)), (Z.ltb_spec x y); try done; nia. Qed.
Lemma dy_cmp_at e m1 e1 m2 e2 : e <= e1 -> e <= e2 -> dy_cmp (m1, e1) (m2, e2) = z_cmp (m1 * 2 ^ (e1 - e)) (m2 * 2 ^ (e2 - e)).
Proof.
  intros H1 H2. unfold dy_cmp. cbn [fst snd]. set (m := Z.min e1 e2). assert (e <= m /\ m <= e1 /\ m <= e2) as (Hm & Hm1 & Hm2) by lia. clearbody m.
  replace (e1 - e) with (e1 - m + (m - e)) by lia. replace (e2 - e) with (e2 - m + (m - e)) by lia. rewrite !(Z.pow_add_r 2 _ (m - e)) by lia. rewrite !Z.mul_assoc, z_cmp_scale; [done|apply Z.pow_pos_nonneg; lia].
Qed.

Lemma mant_range a : finite_nz a -> 2 ^ (64 * len a - 1) <= mant a < 2 ^ (64 * len a).
Proof.
  intros [H1 _ H2 H3]. split; [done|]. pose proof (val_range _ H1) as Hr. unfold mant, len, zlen in *. rewrite pow_limbs in Hr by lia. lia.
Qed.

(** The limb [i] below the top of [l] limbs. *)
Lemma get_limbz_ok a l i : limbs (tab a) -> len a <= l <= 2 ^ 60 -> (i < Z.to_nat l)%nat -> get_limbz a (limb (len a - l + Z.of_nat i)) = (mant a * B ^ (l - len a) / B ^ Z.of_nat i) mod B.
Proof.
  intros Ht Hl Hi. unfold get_limbz. assert (0 <= len a) by apply zlen_nonneg. assert (Hww : forall x, limb (limb x) = limb x) by (intros x; apply wrap_small, limb_is_limb). rewrite Hww.
  destruct (Z.lt_ge_cases (len a - l + Z.of_nat i) 0) as [Hn|Hn].
  - replace (limb (len a - l + Z.of_nat i)) with (len a - l + Z.of_nat i + B) by (symmetry; apply limb_unique; [unfold is_limb; lia|exists (-1); lia]). destruct (Z.geb_spec (len a - l + Z.of_nat i + B) (len a)); [|lia].
    replace (l - len a) with (l - len a - 1 - Z.of_nat i + 1 + Z.of_nat i) by lia. rewrite !Z.pow_add_r by lia. rewrite Z.mul_assoc, Z.div_mul by (apply Z.pow_nonzero; lia). rewrite Z.mul_assoc, Z.pow_1_r. by rewrite Z.mod_mul by lia.
  - rewrite (wrap_small 64) by lia. destruct (Z.geb_spec (len a - l + Z.of_nat i) (len a)); [lia|]. rewrite val_limb by done. fold (mant a). rewrite Z2Nat.id by lia. f_equal.
    replace (Z.of_nat i) with (len a - l + Z.of_nat i + (l - len a)) at 2 by lia. rewrite (Z.pow_add_r B (len a - l + Z.of_nat i) (l - len a)), Z.div_mul_cancel_r by (lia || apply Z.pow_nonzero; lia). done.
Qed.
Lemma cmp_loop_ok a b l i : limbs (tab a) -> limbs (tab b) -> len a <= l <= 2 ^ 50 -> len b <= l -> (i <= Z.to_nat l)%nat ->
  let X := mant a * B ^ (l - len a) in let Y := mant b * B ^ (l - len b) in
  0 <= X -> 0 <= Y -> X / B ^ Z.of_nat i = Y / B ^ Z.of_nat i -> cmp_loop a b l i = z_cmp X Y.
Proof.
  intros Ha Hb Hl1 Hl2 Hi X Y HX HY. induction i as [|i IH]; intros Heq; cbn [cmp_loop].
  - change (B ^ Z.of_nat 0) with 1 in Heq. rewrite !Z.div_1_r in Heq. unfold z_cmp. destruct (Z.eqb_spec X Y); [done|lia].
  - rewrite !get_limbz_ok by (done || lia). fold X Y. assert (HP : 0 < B ^ Z.of_nat i) by (apply Z.pow_pos_nonneg; lia). rewrite Nat2Z.inj_succ, Z.pow_succ_r, Z.mul_comm, <- !Z.div_div in Heq by lia.
    set (x := X / B ^ Z.of_nat i) in *. set (y := Y / B ^ Z.of_nat i) in *. pose proof (Z.div_mod x B ltac:(lia)) as Ex. pose proof (Z.div_mod y B ltac:(lia)) as Ey. rewrite <- Heq in Ey.
    destruct (Z.eqb_spec (x mod B) (y mod B)) as [E|E]; cbn [negb]; [apply IH; lia|].
    assert (Hcmp : forall X' Y', X' / B ^ Z.of_nat i < Y' / B ^ Z.of_nat i -> X' < Y').
    { intros X' Y' Hlt. destruct (Z.lt_ge_cases X' Y') as [|Hge]; [done|]. apply (Z.div_le_mono _ _ (B ^ Z.of_nat i)) in Hge; lia. }
    unfold z_cmp. destruct (Z.ltb_spec (x mod B) (y mod B)) as [Hlt|Hge].
    + pose proof (Hcmp X Y ltac:(fold x y; lia)). destruct (Z.eqb_spec X Y), (Z.ltb_spec X Y); lia.
    + pose proof (Hcmp Y X ltac:(fold x y; lia)). destruct (Z.eqb_spec X Y), (Z.ltb_spec X Y); lia.
Qed.
Lemma bf_cmpu_num a b : finite_nz a -> finite_nz b -> len a <= 2 ^ 40 -> len b <= 2 ^ 40 -> bf_cmpu a b = dy_cmp (dy a) (dy b).
Proof.
  intros Ha Hb La Lb. pose proof (mant_range a Ha) as Ra. pose proof (mant_range b Hb) as Rb. pose proof (fin_len _ Ha). pose proof (fin_len _ Hb). unfold bf_cmpu, dy.
  destruct (Z.eqb_spec (expn a) (expn b)) as [E|E]; cbn [negb].
  - set (l := bf_max (len a) (len b)). assert (Hl : len a <= l <= 2 ^ 50 /\ len b <= l) by (unfold l, bf_max; destruct (Z.gtb_spec (len a) (len b)); lia).
    rewrite (dy_cmp_at (expn a - 64 * l)) by lia. replace (expn a - 64 * len a - (expn a - 64 * l)) with (64 * (l - len a)) by lia. replace (expn b - 64 * len b - (expn a - 64 * l)) with (64 * (l - len b)) by lia.
    assert (P : 0 < 2 ^ (64 * (l - len a)) /\ 0 < 2 ^ (64 * (l - len b))) by (split; apply Z.pow_pos_nonneg; lia). rewrite cmp_loop_ok; rewrite ?pow_limbs by lia; try lia; [apply (fin_limbs _ Ha)|apply (fin_limbs _ Hb)| | |].
    + nia.
    + nia.
    + rewrite Z2Nat.id by lia. rewrite (pow_div (64 * l) (64 * (l - len a))) at 1 by lia. rewrite (pow_div (64 * l) (64 * (l - len b))) at 1 by lia. rewrite !Z.div_mul_cancel_r by lia. replace (64 * l - 64 * (l - len a)) with (64 * len a) by lia.
      replace (64 * l - 64 * (l - len b)) with (64 * len b) by lia. by rewrite !Z.div_small by lia.
  - assert (Hlt : forall x y, finite_nz x -> finite_nz y -> expn x < expn y -> forall e, e <= expn x - 64 * len x -> e <= expn y - 64 * len y -> mant x * 2 ^ (expn x - 64 * len x - e) < mant y * 2 ^ (expn y - 64 * len y - e)).
    { clear. intros x y Hx Hy Hlt e L1 L2. pose proof (mant_range x Hx). pose proof (mant_range y Hy). pose proof (fin_len _ Hx). pose proof (fin_len _ Hy). apply (Z.lt_le_trans _ (2 ^ (expn x - e))).
      - replace (expn x - e) with (64 * len x + (expn x - 64 * len x - e)) by lia. rewrite Z.pow_add_r by lia. apply Z.mul_lt_mono_pos_r; [apply Z.pow_pos_nonneg; lia|lia].
      - apply (Z.le_trans _ (2 ^ (expn y - 1 - e))); [apply Z.pow_le_mono_r; lia|]. replace (expn y - 1 - e) with (64 * len y - 1 + (expn y - 64 * len y - e)) by lia. rewrite Z.pow_add_r by lia. apply Z.mul_le_mono_nonneg_r; [apply Z.pow_nonneg; lia|lia]. }
    set (e := Z.min (expn a - 64 * len a) (expn b - 64 * len b)). assert (e <= expn a - 64 * len a /\ e <= expn b - 64 * len b) as [L1 L2] by lia. rewrite (dy_cmp_at e) by done. unfold z_cmp. clearbody e.
    destruct (Z.ltb_spec (expn a) (expn b)).
    + pose proof (Hlt a b Ha Hb ltac:(lia) e L1 L2). destruct (Z.eqb_spec (mant a * 2 ^ (expn a - 64 * len a - e)) (mant b * 2 ^ (expn b - 64 * len b - e))), (Z.ltb_spec (mant a * 2 ^ (expn a - 64 * len a - e)) (mant b * 2 ^ (expn b - 64 * len b - e))); lia.
    + pose proof (Hlt b a Hb Ha ltac:(lia) e L2 L1). destruct (Z.eqb_spec (mant a * 2 ^ (expn a - 64 * len a - e)) (mant b * 2 ^ (expn b - 64 * len b - e))), (Z.ltb_spec (mant a * 2 ^ (expn a - 64 * len a - e)) (mant b * 2 ^ (expn b - 64 * len b - e))); lia.
Qed.

(** ** Products *)

Lemma kind_tests a : bf_is_nan a = (match kind_of a with KNan => true | _ => false end) /\ (expn a =? BF_EXP_INF) = (match kind_of a with KInf => true | _ => false end) /\
  (expn a =? BF_EXP_ZERO) = (match kind_of a with KZero => true | _ => false end).
Proof.
  unfold kind_of, bf_is_nan, bf_is_zero. destruct (Z.eqb_spec (expn a) BF_EXP_NAN) as [->|]; [done|]. destruct (Z.eqb_spec (expn a) BF_EXP_INF) as [->|]; [done|]. by destruct (Z.eqb_spec (expn a) BF_EXP_ZERO).
Qed.
Lemma exponent_range m e k : 0 < m < 2 ^ k -> e < exponent m e <= e + k.
Proof.
  intros Hm. unfold exponent. pose proof (Z.log2_nonneg m). destruct (Z.le_gt_cases 0 k) as [Hk|Hk]; [|rewrite Z.pow_neg_r in Hm by done; lia].
  assert (Z.log2 m < k) by (apply Z.log2_lt_pow2; lia). lia.
Qed.
Lemma sign_xor a b : 0 <= a <= 1 -> 0 <= b <= 1 -> 0 <= a .^ b <= 1.
Proof. intros Ha Hb. assert (a = 0 \/ a = 1) as [-> | ->] by lia; assert (b = 0 \/ b = 1) as [-> | ->] by lia; done. Qed.

Section Ops.
Context {HC : bf_context}.

Lemma special_ok e sgn r s ret (Q : Z * bf_t * bf_context_t -> Prop) : limbs (tab r) -> (forall r' s', special_is r' sgn e -> Q (ret, r', s')) ->
  yields (let '(r, s) := bf_set_special e sgn r s in mret (ret, r, s)) Q.
Proof. intros Ht HQ. destruct (bf_set_special_ok e sgn r s Ht) as [s' ->]. cbn. by apply HQ. Qed.

(** A number that is rounded as it is. *)
Lemma normalize_ok r prec1 flags s N e : limbs (tab r) -> len r <= 2 ^ 50 -> 0 <= sign r <= 1 -> - 2 ^ 62 + 2 ^ 58 <= expn r <= 2 ^ 62 -> op_args prec1 flags -> 0 < N -> mant r = N -> expn r - 64 * len r = e ->
  yields (bf_normalize_and_round r prec1 flags s) (fun '(ret, r', _) => correctly_rounded prec1 flags (sign r) N 1 e ret r').
Proof.
  intros Ht Hl Hs He Ho HN Hm Ee. assert (0 <= len r) by apply zlen_nonneg. pose proof (val_range _ Ht) as Hr. fold (mant r) in Hr. change (Z.of_nat (length (tab r))) with (len r) in Hr. rewrite pow_limbs, Hm in Hr by lia.
  pose proof (exponent_range N e (64 * len r) ltac:(lia)) as HE. eapply yields_mono; [apply bf_normalize_and_round_ok; [done|done|done|lia|]|].
  - intros _. rewrite Hm, Ee. apply op_round_args; [done|lia].
  - intros [[ret r'] s'] H'. rewrite Hm, Ee in H'. destruct (Z.eqb_spec N 0); [lia|]. exists (exponent N e). split; [by apply exponent_binade|done].
Qed.

Definition mul_spec (prec1 flags : Z) (a b : bf_t) (ret : Z) (r : bf_t) : Prop :=
  let s := sign a .^ sign b in
  match kind_of a, kind_of b with
  | KNan, _ | _, KNan => ret = 0 /\ special_is r 0 BF_EXP_NAN
  | KInf, KZero | KZero, KInf => ret = BF_ST_INVALID_OP /\ special_is r 0 BF_EXP_NAN
  | KInf, _ | _, KInf => ret = 0 /\ special_is r s BF_EXP_INF
  | KZero, _ | _, KZero => ret = 0 /\ special_is r s BF_EXP_ZERO
  | KNum, KNum => correctly_rounded prec1 flags s (mant a * mant b) 1 (snd (dy a) + snd (dy b)) ret r
  end.
Lemma mul_spec_comm prec1 flags a b ret r : mul_spec prec1 flags a b ret r -> mul_spec prec1 flags b a ret r.
Proof.
  unfold mul_spec. rewrite (Z.lxor_comm (sign b)), (Z.mul_comm (mant b)), (Z.add_comm (snd (dy b))). by destruct (kind_of a), (kind_of b).
Qed.

Lemma mul_limbs_ok fft_mul r a_tab b_tab ra rb s : limbs (tab r) -> limbs a_tab -> limbs b_tab -> b_tab <> [] -> zlen b_tab < FFT_MUL_THRESHOLD ->
  yields (mul_limbs fft_mul r a_tab b_tab ra rb s) (fun '(failed, r', _) => limbs (tab r') /\ if failed then ~ reliable else mant r' = val a_tab * val b_tab /\ len r' = zlen a_tab + zlen b_tab).
Proof.
  intros Hr Ha Hb Hne Hlt. unfold mul_limbs. destruct (Z.geb_spec (zlen b_tab) FFT_MUL_THRESHOLD); [lia|]. set (r0 := if ra || rb then bf_init else r). assert (Hr0 : limbs (tab r0)) by (unfold r0; destruct (ra || rb); [constructor|done]).
  pose proof (zlen_nonneg a_tab). pose proof (zlen_nonneg b_tab). pose proof (bf_resize_ok r0 (zlen a_tab + zlen b_tab) s Hr0 ltac:(lia)) as Hz. destruct (bf_resize r0 _ s) as [[failed r1] s1]. destruct failed.
  - destruct Hz as [Hrel ->]. done.
  - destruct Hz as (_ & _ & Ht1 & Hl1 & _). apply yields_bind. eapply yields_mono; [by apply mp_mul_basecase_ok|]. intros t (Ev & Hlt' & Hlen). cbn beta.
    rewrite awrite_ok by (unfold len, zlen in *; lia). cbn [mbind outcome_bind mret outcome_ret yields]. unfold set_tab, mant, len, zlen in *. cbn [tab].
    change (take (Z.to_nat 0) (tab r1)) with (@nil Z). cbn [app]. rewrite drop_ge, app_nil_r by lia. split; [done|]. split; [lia|lia].
Qed.

Lemma num_len a : bf_ok a -> match kind_of a with KNum => 1 <= len a | _ => len a = 0 end.
Proof.
  intros Ha. pose proof (kind_cases a Ha) as Hk. unfold len. destruct (kind_of a); try (destruct Hk as [_ ->]; done). apply (fin_len _ (proj1 Hk)).
Qed.
Lemma mem_error_yields r s (Q : Z * bf_t * bf_context_t -> Prop) : limbs (tab r) -> ~ reliable -> (forall ret r' s', refused ret r' -> Q (ret, r', s')) -> yields (mret (mem_error r s)) Q.
Proof. intros Ht Hr HQ. pose proof (mem_error_ok r s Ht Hr) as Hm. cbn [mret outcome_ret yields]. destruct (mem_error r s) as [[ret r'] s']. by apply HQ. Qed.

Lemma mul_ordered_ok fft_mul r a b ra rb prec flags s : bf_ok a -> bf_ok b -> limbs (tab r) -> op_args prec flags -> flags .& BF_RND_MASK <> BF_RNDF -> len b <= len a -> len b < FFT_MUL_THRESHOLD ->
  yields (mul_ordered fft_mul r a b ra rb prec flags s) (fun '(ret, r', _) => refused ret r' \/ mul_spec prec flags a b ret r').
Proof.
  intros Ha Hb Hr Ho Hm Hle Hfft. unfold mul_ordered, mul_spec. destruct (kind_tests a) as (-> & -> & ->), (kind_tests b) as (-> & -> & ->). pose proof (num_len a Ha) as La. pose proof (num_len b Hb) as Lb.
  pose proof (kind_cases a Ha) as Ka. pose proof (kind_cases b Hb) as Kb. pose proof (sign_xor _ _ (ok_sign _ Ha) (ok_sign _ Hb)) as Hs. destruct (kind_of b) eqn:Eb; cbn in Lb.
  1-3: rewrite Lb; change (0 =? 0) with true; cbn match; destruct (kind_of a) eqn:Ea; cbn; apply special_ok; (done || (intros r' s' H; by right)).
  destruct (kind_of a) eqn:Ea; cbn in La; try lia. destruct (Z.eqb_spec (len b) 0); [lia|]. destruct (Z.eqb_spec (flags .& BF_RND_MASK) BF_RNDF); [done|]. rewrite !Z.sub_diag. change (Z.to_nat 0) with 0%nat. rewrite !drop_0.
  destruct Ka as (Fa & La2 & Ea2), Kb as (Fb & Lb2 & Eb2). apply yields_bind. eapply yields_mono; [apply mul_limbs_ok; [done|apply Fa|apply Fb| |done]|].
  { intros E. unfold len in Lb. rewrite E in Lb. by cbn in Lb. }
  intros [[failed r1] s1] [Hr1 Hf]. destruct failed; [apply mem_error_yields; [done|done|by left]|]. destruct Hf as [Hm1 Hl1]. fold (len a) (len b) in Hl1. rewrite c_slimb_ok by lia. cbn [mbind outcome_bind].
  pose proof (mant_range a Fa). pose proof (mant_range b Fb). assert (0 < 2 ^ (64 * len a - 1) /\ 0 < 2 ^ (64 * len b - 1)) as [P1 P2] by (split; apply Z.pow_pos_nonneg; lia).
  eapply yields_mono; [apply (normalize_ok (MkBf (sign a .^ sign b) (expn a + expn b) (tab r1)) prec flags s1 (mant a * mant b) (snd (dy a) + snd (dy b)))|].
  - done.
  - change (len r1 <= 2 ^ 50). lia.
  - done.
  - cbn [expn]. lia.
  - done.
  - nia.
  - exact Hm1.
  - cbn [expn]. change (len (MkBf _ _ (tab r1))) with (len r1). unfold dy. cbn [snd]. lia.
  - intros [[ret r'] s'] H'. by right.
Qed.
Lemma bf_mul_ok fft_mul r a b ra rb prec flags s : bf_ok a -> bf_ok b -> limbs (tab r) -> op_args prec flags -> flags .& BF_RND_MASK <> BF_RNDF -> Z.min (len a) (len b) < FFT_MUL_THRESHOLD ->
  yields (bf_mul fft_mul r a b ra rb prec flags s) (fun '(ret, r', _) => refused ret r' \/ mul_spec prec flags a b ret r').
Proof.
  intros Ha Hb Hr Ho Hm Hfft. unfold bf_mul. destruct (Z.ltb_spec (len a) (len b)); [|apply mul_ordered_ok; (done || lia)].
  eapply yields_mono; [apply (mul_ordered_ok _ r b a); (done || lia)|]. intros [[ret r'] s'] [H'|H']; [by left|right; by apply mul_spec_comm].
Qed.

(** ** The sticky bit *)

(** An integer part whose lowest bit says that there is a fraction rounds as the number, two bits below the last. *)
Definition sticky (N D : Z) : Z := N / D + b2z (negb (N mod D =? 0) && Z.even (N / D)).
Lemma sticky_bounds N D : 0 <= sticky N D - N / D <= 1.
Proof. unfold sticky. set (q := N / D). clearbody q. destruct (_ && _); cbn [b2z]; lia. Qed.
Lemma lor_one v : 0 <= v -> v .| 1 = v + b2z (Z.even v).
Proof.
  intros Hv. destruct (Z.even v) eqn:E; cbn [b2z].
  - apply Z.even_spec in E as [k ->]. change 1 with (1 mod 2 ^ 1) at 1. rewrite Z.lor_comm, (lor_add 1); [|lia|done|by rewrite Z.mul_comm, Z.mod_mul]. change (1 mod 2 ^ 1) with 1. lia.
  - rewrite <- Z.negb_odd in E. apply negb_false_iff, Z.odd_spec in E as [k ->]. assert (E2 : 2 * k + 1 = 1 .| (2 * k)) by (rewrite (lor_add 1); [lia|lia|done|by rewrite Z.mul_comm, Z.mod_mul]).
    rewrite E2 at 1. rewrite Z.lor_comm, Z.lor_assoc, Z.lor_diag, <- E2. lia.
Qed.
Lemma rnd_sticky mode s N D K : 0 < D -> 0 <= N -> 2 <= K -> rnd mode s (sticky N D) (2 ^ K) = rnd mode s N (D * 2 ^ K) /\ is_inexact mode (sticky N D) (2 ^ K) = is_inexact mode N (D * 2 ^ K).
Proof.
  intros HD HN HK. set (H := 2 ^ (K - 2)). assert (HH : 0 < H) by (apply Z.pow_pos_nonneg; lia). assert (EP : 2 ^ K = 4 * H) by (unfold H; change 4 with (2 ^ 2); rewrite <- Z.pow_add_r by lia; f_equal; lia). rewrite EP.
  unfold sticky. set (q := N / D). set (t := N mod D). pose proof (Z.mod_pos_bound N D HD) as Ht. fold t in Ht. assert (Hq : 0 <= q) by (apply Z.div_pos; lia).
  assert (Ed : N / (D * (4 * H)) = q / (4 * H)) by (by rewrite <- Z.div_div by lia). assert (Em : N mod (D * (4 * H)) = t + D * (q mod (4 * H))) by (by rewrite Z.rem_mul_r by lia).
  pose proof (Z.div_mod q (4 * H) ltac:(lia)) as Edq. pose proof (Z.mod_pos_bound q (4 * H) ltac:(lia)) as Hm. set (m := q mod (4 * H)) in *. set (Q := q / (4 * H)) in *.
  set (d := b2z (negb (t =? 0) && Z.even q)). assert (Hd : d = 0 \/ d = 1 /\ t <> 0 /\ exists j, q = 2 * j) by (unfold d; destruct (Z.eqb_spec t 0); [by left|]; destruct (Z.even q) eqn:Ev; [right; split; [done|split; [done|by apply Z.even_spec]]|by left]).
  assert (Hd0 : d = 0 -> t = 0 \/ exists j, q = 2 * j + 1).
  { unfold d. destruct (Z.eqb_spec t 0); [by left|]. destruct (Z.even q) eqn:Ev; [done|]. intros _. right. rewrite <- Z.negb_odd in Ev. by apply negb_false_iff, Z.odd_spec in Ev. }
  assert (Hmd : m + d < 4 * H) by (destruct Hd as [-> | (-> & _ & j & Ej)]; lia).
  assert (Eq2 : (q + d) / (4 * H) = Q) by (symmetry; apply (Z.div_unique _ _ _ (m + d)); [left; lia|lia]). assert (Em2 : (q + d) mod (4 * H) = m + d) by (symmetry; apply (Z.mod_unique _ _ Q); [left; lia|lia]).
  assert (T0 : (m + d =? 0) = (t + D * m =? 0)).
  { destruct (Z.eqb_spec (m + d) 0) as [E|E], (Z.eqb_spec (t + D * m) 0) as [E'|E']; try done; exfalso.
    - assert (m = 0 /\ d = 0) as [Em0 Ed0] by lia. destruct (Hd0 Ed0) as [|[j Ej]]; [nia|]. lia.
    - assert (m = 0) by nia. destruct Hd as [|(_ & Hne & _)]; [lia|nia]. }
  assert (Hhalf : forall c, (m + d ?= 2 * H) = c -> (t + D * m ?= D * (2 * H)) = c).
  { intros c <-. destruct (Z.compare_spec (m + d) (2 * H)) as [E|E|E].
    - apply Z.compare_eq_iff. destruct Hd as [Ed0|(Ed1 & _ & j & Ej)]; [|lia]. destruct (Hd0 Ed0) as [->|[j Ej]]; [|lia]. replace m with (2 * H) by lia. lia.
    - apply Z.compare_lt_iff. assert (m + 1 <= 2 * H) by lia. assert (D * (m + 1) <= D * (2 * H)) by (apply Z.mul_le_mono_nonneg_l; lia). lia.
    - apply Z.compare_gt_iff. destruct (Z.eq_dec m (2 * H)) as [->|]; [destruct Hd as [|(_ & Hne & _)]; lia|]. assert (D * (2 * H + 1) <= D * m) by (apply Z.mul_le_mono_nonneg_l; lia). lia. }
  unfold rnd, rnd_up, is_inexact. rewrite Ed, Em, Eq2, Em2, T0. specialize (Hhalf _ eq_refl).
  assert (T1 : (4 * H <? 2 * (m + d)) = (D * (4 * H) <? 2 * (t + D * m)) /\ (2 * (m + d) =? 4 * H) = (2 * (t + D * m) =? D * (4 * H)) /\ (4 * H <=? 2 * (m + d)) = (D * (4 * H) <=? 2 * (t + D * m))).
  { replace (D * (4 * H)) with (2 * (D * (2 * H))) by ring. set (X := t + D * m) in *. set (Y := D * (2 * H)) in *. clearbody X Y.
    destruct (Z.compare_spec (m + d) (2 * H)), (Z.compare_spec X Y); try done; destruct (Z.ltb_spec (4 * H) (2 * (m + d))), (Z.ltb_spec (2 * Y) (2 * X)), (Z.eqb_spec (2 * (m + d)) (4 * H)), (Z.eqb_spec (2 * X) (2 * Y)), (Z.leb_spec (4 * H) (2 * (m + d))), (Z.leb_spec (2 * Y) (2 * X)); lia. }
  destruct T1 as (-> & -> & ->). done.
Qed.

Lemma eff_prec_le prec1 flags E : flags .& BF_FLAG_RADPNT_PREC = 0 -> eff_prec E prec1 flags <= prec1.
Proof. intros H. unfold eff_prec. rewrite H. eval_eqb. destruct (Z.ltb_spec E (e_min flags)), (is_subnormal flags); cbn [andb]; lia. Qed.
Lemma correctly_rounded_sticky prec1 flags s N D e ret r : 0 < D -> 0 <= N -> flags .& BF_FLAG_RADPNT_PREC = 0 -> 1 <= prec1 -> 2 ^ (prec1 + 1) <= N / D ->
  correctly_rounded prec1 flags s (sticky N D) 1 e ret r -> correctly_rounded prec1 flags s N D e ret r.
Proof.
  intros HD HN Hf Hp Hq (E & [H1 H2] & H3). pose proof (sticky_bounds N D) as Hd.
  assert (HP : 0 < 2 ^ (prec1 + 1)) by (apply Z.pow_pos_nonneg; lia). assert (HE : prec1 + 1 < E - e).
  { destruct (Z.lt_ge_cases (prec1 + 1) (E - e)) as [|Hge]; [done|]. exfalso. apply H2. unfold above. rewrite Z.mul_1_l. apply (Z.le_trans _ (2 ^ (prec1 + 1))); [apply Z.pow_le_mono_r; lia|].
    assert (1 <= 2 ^ Z.max 0 (e - E)) by (assert (0 < 2 ^ Z.max 0 (e - E)) by (apply Z.pow_pos_nonneg; lia); lia). nia. }
  assert (Habove : forall f, 1 <= f - e -> above N D e f <-> above (sticky N D) 1 e f).
  { intros f Hfe. unfold above. rewrite (Z.max_r 0 (f - e)), (Z.max_l 0 (e - f)) by lia. change (2 ^ 0) with 1. rewrite Z.mul_1_l, !Z.mul_1_r. set (X := 2 ^ (f - e)). assert (EX : X = 2 * 2 ^ (f - e - 1)) by (unfold X; rewrite <- Z.pow_succ_r by lia; f_equal; lia).
    assert (HX : D * X <= N <-> X <= N / D) by (split; [intros; by apply Z.div_le_lower_bound|intros Hx; pose proof (Z.mul_div_le N D HD); nia]). rewrite HX.
    unfold sticky. destruct (negb (N mod D =? 0)); cbn [andb b2z]; [|lia]. destruct (Z.even (N / D)) eqn:Ev; cbn [b2z]; [|lia]. apply Z.even_spec in Ev as [j Ej]. lia. }
  exists E. split; [split; [apply Habove; [lia|done]|intros Ha; apply H2, Habove; [lia|done]]|]. revert H3. unfold rounded. pose proof (eff_prec_le prec1 flags E Hf) as Hpe. set (prec := eff_prec _ _ _) in *. set (f := E - prec).
  rewrite (Z.max_r 0 (f - e)), (Z.max_l 0 (e - f)) by lia. change (2 ^ 0) with 1. rewrite Z.mul_1_l, !Z.mul_1_r. destruct (rnd_sticky (flags .& BF_RND_MASK) s N D (f - e) HD HN ltac:(lia)) as [-> ->]. done.
Qed.

(** ** Quotients *)

Definition div_spec (prec1 flags : Z) (a b : bf_t) (ret : Z) (r : bf_t) : Prop :=
  let s := sign a .^ sign b in
  match kind_of a, kind_of b with
  | KNan, _ | _, KNan => ret = 0 /\ special_is r 0 BF_EXP_NAN
  | KInf, KInf | KZero, KZero => ret = BF_ST_INVALID_OP /\ special_is r 0 BF_EXP_NAN
  | KInf, _ => ret = 0 /\ special_is r s BF_EXP_INF
  | _, KInf | KZero, _ => ret = 0 /\ special_is r s BF_EXP_ZERO
  | KNum, KZero => ret = BF_ST_DIVIDE_ZERO /\ special_is r s BF_EXP_INF
  | KNum, KNum => correctly_rounded prec1 flags s (mant a) (mant b) (snd (dy a) - snd (dy b)) ret r
  end.

Lemma kind_special a : bf_ok a -> (expn a >=? BF_EXP_INF) = match kind_of a with KNan | KInf => true | _ => false end.
Proof.
  intros Ha. pose proof (kind_cases a Ha) as Hk. change BF_EXP_INF with (2 ^ 63 - 2) in *. destruct (kind_of a); [destruct Hk as [-> _]; done..|]. destruct Hk as (_ & _ & He). destruct (Z.geb_spec (expn a) (2 ^ 63 - 2)); [lia|done].
Qed.
Lemma fin_split a : finite_nz a -> exists lo b1, tab a = lo ++ [b1] /\ limbs lo /\ normal b1.
Proof.
  intros Fa. pose proof (mant_range a Fa) as Hr. destruct Fa as [Ht _ _ Hl]. unfold mant, len, zlen in *. destruct (tab a) as [|b1 lo _] using rev_ind; [cbn [length] in Hl; lia|].
  apply Forall_app in Ht as [Hlo Hb1]. exists lo, b1. split; [done|]. split; [done|]. inversion Hb1 as [|? ? Hb _]; subst. unfold normal, is_limb in *. split; [|lia]. pose proof (val_range lo Hlo) as Hrl. rewrite pow_limbs in Hrl by lia.
  rewrite val_app, length_app, pow_limbs in Hr by lia. cbn [val length] in Hr. rewrite Z.mul_0_r, Z.add_0_r in Hr. set (n := Z.of_nat (length lo)) in *. replace (64 * Z.of_nat (length lo + 1) - 1) with (64 * n + 63) in Hr by lia.
  rewrite Z.pow_add_r in Hr by lia. assert (0 < 2 ^ (64 * n)) by (apply Z.pow_pos_nonneg; lia). nia.
Qed.

(** The dividend: zeros below the limbs of [a]. *)
Lemma dividend_ok a taba d : 0 <= d -> zlen taba = d + len a + 1 ->
  exists t last, awrite taba 0 (replicate (Z.to_nat d) 0) = Ret t /\ awrite t d (tab a) = Ret (replicate (Z.to_nat d) 0 ++ tab a ++ last).
Proof.
  intros Hd Hl. unfold len, zlen in *. rewrite awrite_ok by (unfold zlen; rewrite ?length_replicate; lia). eexists. eexists. split; [done|]. change (take (Z.to_nat 0) taba) with (@nil Z). cbn [app].
  rewrite awrite_ok by (unfold zlen; rewrite ?length_app, ?length_replicate, ?length_drop; lia). f_equal. rewrite take_app_length' by (rewrite length_replicate; done). done.
Qed.
Lemma store_sticky q nz v : q <> [] -> limbs q -> aget q 0 = Ret v ->
  exists t, (if negb (b2z nz =? 0) then aset q 0 (v .| 1) else mret q) = Ret t /\ limbs t /\ length t = length q /\ val t = val q + b2z (nz && Z.even (val q)).
Proof.
  intros Hne Hq. destruct q as [|w q]; [done|]. intros [= ->]. rewrite b2z_nz. inversion Hq as [|? ? Hv Hq']; subst. unfold is_limb in Hv. destruct nz; cbn [andb b2z mret outcome_ret].
  - rewrite aset_ok by (unfold zlen; cbn [length]; lia). change (<[Z.to_nat 0 := v .| 1]> (v :: q)) with (v .| 1 :: q). exists (v .| 1 :: q). rewrite lor_one by lia. cbn [val]. rewrite Z.even_add_mul_even by (by exists (2 ^ 63)).
    assert (is_limb (v + b2z (Z.even v))).
    { unfold is_limb. destruct (Z.even v) eqn:E; cbn [b2z]; [|lia]. apply Z.even_spec in E as [k ->]. lia. }
    split; [done|]. split; [by constructor|]. split; [done|lia].
  - exists (v :: q). by rewrite Z.add_0_r.
Qed.

Lemma __bf_div_ok large r a b prec flags s : bf_ok a -> bf_ok b -> limbs (tab r) -> op_args prec flags -> flags .& BF_FLAG_RADPNT_PREC = 0 -> prec <= 2 ^ 46 ->
  len b < DIVNORM_LARGE_THRESHOLD \/ Z.max (len a) ((prec + 65) / 64) < DIVNORM_LARGE_THRESHOLD ->
  yields (__bf_div large r a b prec flags s) (fun '(ret, r', _) => refused ret r' \/ div_spec prec flags a b ret r').
Proof.
  intros Ha Hb Hr Ho Hrad Hprec Hth. unfold __bf_div, div_spec, bf_is_zero. rewrite !kind_special by done. destruct (kind_tests a) as (-> & -> & ->), (kind_tests b) as (-> & -> & ->).
  pose proof (kind_cases a Ha) as Ka. pose proof (kind_cases b Hb) as Kb. pose proof (sign_xor _ _ (ok_sign _ Ha) (ok_sign _ Hb)) as Hs.
  destruct (kind_of a) eqn:Ea, (kind_of b) eqn:Eb; cbn [orb andb]; try (apply special_ok; (done || (intros r' s' H; by right))).
  destruct Ka as (Fa & La2 & Ea2), Kb as (Fb & Lb2 & Eb2). pose proof (fin_len _ Fa). pose proof (fin_len _ Fb). pose proof (oa_prec _ _ Ho).
  unfold LIMB_BITS. replace (prec + 2 + 64 - 1) with (prec + 65) by lia. set (precl := (prec + 65) / 64) in *.
  assert (Hpl : prec + 2 <= 64 * precl <= prec + 65) by (unfold precl; pose proof (Z.div_mod (prec + 65) 64 ltac:(lia)); pose proof (Z.mod_pos_bound (prec + 65) 64 ltac:(lia)); lia).
  assert (Hmax : bf_max (len a) precl = Z.max (len a) precl) by (unfold bf_max; destruct (Z.gtb_spec (len a) precl); lia). rewrite Hmax. set (n := Z.max (len a) precl) in *. assert (Hn : 1 <= n <= 2 ^ 41 /\ len a <= n /\ prec + 2 <= 64 * n) by lia. clearbody n precl.
  destruct (bf_realloc s [] (n + len b + 1)) as [[taba|] s1] eqn:Er; [|apply mem_error_yields; [done| |by left]; intros Hrel; specialize (Hrel s [] (n + len b + 1)); rewrite Er in Hrel; by destruct Hrel].
  apply bf_realloc_spec in Er as (Hlt & _ & _); [|lia|constructor]. set (d := n + len b - len a) in *. destruct (dividend_ok a taba d) as (t1 & last & -> & E2); [lia|lia|]. cbn [mbind outcome_bind]. rewrite E2. cbn [mbind outcome_bind].
  set (A := replicate (Z.to_nat d) 0 ++ tab a). rewrite app_assoc. fold A. assert (HlA : length A = Z.to_nat (n + len b)) by (unfold A; rewrite length_app, length_replicate; unfold len, zlen in *; lia).
  rewrite take_app_length' by done. assert (HA : limbs A) by (unfold A; apply Forall_app; split; [apply Forall_replicate; done|apply Fa]).
  pose proof (bf_resize_ok r (n + 1) s1 Hr ltac:(lia)) as Hz. destruct (bf_resize r (n + 1) s1) as [[failed r1] s2]. destruct failed; [destruct Hz as [Hrel ->]; apply mem_error_yields; [done|done|by left]|].
  destruct Hz as (_ & _ & Hr1 & Hlr1 & _). destruct (fin_split b Fb) as (lo & b1 & Etb & Hlo & Hb1). rewrite Etb. assert (Hlb : len b = zlen (lo ++ [b1])) by (unfold len; by rewrite Etb).
  apply yields_bind. eapply yields_mono; [apply mp_divnorm_ok; [done|done|done|unfold zlen in *; lia|rewrite <- Hlb; unfold zlen at 1; rewrite HlA; lia]|]. rewrite <- Etb.
  intros o (q & rest & -> & Hlq & Hlrest & Hnq & Hnr & Ev & Hrest). rewrite HlA in Hnq. change (val (tab b)) with (mant b) in *. fold (mant b) in *. assert (Hnq' : length q = Z.to_nat (n + 1)) by (unfold len, zlen in *; lia).
  rewrite awrite_ok by (unfold len, zlen in *; lia). cbn [mbind outcome_bind]. change (take (Z.to_nat 0) (tab r1)) with (@nil Z). cbn [app]. rewrite drop_ge, app_nil_r by (unfold len, zlen in *; lia).
  assert (Hq0 : exists v, aget q 0 = Ret v) by (destruct q as [|v q]; [cbn [length] in Hnq'; lia|by exists v]). destruct Hq0 as [v Hv]. rewrite Hv. cbn [mbind outcome_bind].
  replace (Z.to_nat (len b)) with (length (tab b)) by (unfold len, zlen; lia). rewrite mp_scan_nz_ok by (by apply limbs_take). set (rm := val (take (length (tab b)) rest)) in *.
  assert (Hrm : 0 <= rm < mant b) by (split; [exact (proj1 (val_range _ (limbs_take _ _ Hlrest)))|done]).
  assert (Eq : val q = val A / mant b) by (apply (Z.div_unique _ _ _ rm); [left; lia|lia]). assert (Erm : rm = val A mod mant b) by (apply (Z.mod_unique _ _ (val q)); [left; lia|lia]).
  destruct (store_sticky q (negb (rm =? 0)) v) as (t & -> & Hlt' & Hnt & Evt); [by intros ->|done|done|]. cbn [mbind outcome_bind].
  rewrite c_slimb_ok by lia. cbn [mbind outcome_bind]. rewrite c_slimb_ok by lia. cbn [mbind outcome_bind].
  assert (Est : val t = sticky (val A) (mant b)) by (rewrite Evt; unfold sticky; by rewrite <- Erm, <- Eq).
  assert (EA : val A = mant a * 2 ^ (64 * d)) by (unfold A; rewrite val_app, val_zero, length_replicate, Z2Nat.id, pow_limbs by lia; unfold mant; lia).
  pose proof (mant_range a Fa) as Ra. pose proof (mant_range b Fb) as Rb. assert (0 < 2 ^ (64 * len b - 1) /\ 0 < 2 ^ (64 * d) /\ 0 < 2 ^ (64 * len b)) as (P1 & P2 & P3) by (repeat split; apply Z.pow_pos_nonneg; lia).
  assert (Hq : 2 ^ (64 * n - 1) <= val A / mant b).
  { apply Z.div_le_lower_bound; [lia|]. apply (Z.le_trans _ (2 ^ (64 * len b) * 2 ^ (64 * n - 1))); [apply Z.mul_le_mono_nonneg_r; [apply Z.pow_nonneg; lia|lia]|].
    rewrite EA, <- Z.pow_add_r by lia. replace (64 * len b + (64 * n - 1)) with (64 * len a - 1 + 64 * d) by lia. rewrite Z.pow_add_r by lia. apply Z.mul_le_mono_nonneg_r; lia. }
  assert (Hp : 2 ^ (prec + 1) <= val A / mant b) by (eapply Z.le_trans; [apply Z.pow_le_mono_r|exact Hq]; lia). assert (0 < 2 ^ (prec + 1)) by (apply Z.pow_pos_nonneg; lia).
  assert (Hst : val A / mant b <= sticky (val A) (mant b)) by (pose proof (sticky_bounds (val A) (mant b)); lia).
  pose proof (proj1 (val_range A HA)) as HA0. set (e := expn a - expn b - 64 * n). eapply yields_mono; [apply (normalize_ok (MkBf (sign a .^ sign b) (expn a - expn b + 64) t) prec flags _ (sticky (val A) (mant b)) e)|].
  - done.
  - unfold len, zlen in *. cbn [tab]. lia.
  - done.
  - cbn [expn]. lia.
  - done.
  - lia.
  - exact Est.
  - unfold e, len, zlen. cbn [expn tab]. lia.
  - intros [[ret r'] s'] H'. right. cbn [sign] in H'. apply (correctly_rounded_sticky prec flags _ (val A) (mant b) e) in H'; [|lia|lia|done|lia|done].
    revert H'. apply correctly_rounded_frac; [lia|lia|]. rewrite EA. unfold dy, e. cbn [snd]. replace (mant a * 2 ^ (64 * d) * mant b) with (mant a * mant b * 2 ^ (64 * d)) by ring. rewrite dy_shift by lia.
    replace (expn a - expn b - 64 * n + 64 * d) with (expn a - 64 * len a - (expn b - 64 * len b)) by lia. done.
Qed.
End Ops.
