(* ===== verification/BigSum.v ===== *)
(** * Correctness of sums of big floats (libbf.c) *)

From stdpp Require Import base list.
From S2P Require Import Prelude Cutils Limbs BigFloat BigRound BigOps BigArith BigAdd.
#[local] Open Scope Z_scope.

(** ** Bits at any position *)

Definition bits_at (N pos : Z) : Z := if pos <? 0 then (N * 2 ^ (- pos)) mod B else (N / 2 ^ pos) mod B.
Lemma bits_at_shift N pos k : 0 <= k -> 0 <= pos + k -> bits_at N pos = (N * 2 ^ k / 2 ^ (pos + k)) mod B.
Proof.
  intros Hk Hp. unfold bits_at. destruct (Z.ltb_spec pos 0).
  - rewrite (pow_div k (pos + k)) by lia. replace (k - (pos + k)) with (- pos) by lia. rewrite Z.mul_assoc, Z.div_mul by (apply Z.pow_nonzero; lia). done.
  - rewrite Z.pow_add_r by lia. rewrite Z.div_mul_cancel_r by (apply Z.pow_nonzero; lia). done.
Qed.
Lemma bits_pair x p : 0 <= p < 64 -> p <> 0 -> ((x mod B) >> p) .| limb (((x / B) mod B) << (LIMB_BITS - p)) = (x / 2 ^ p) mod B.
Proof.
  intros Hp Hp0. assert (P : 0 < 2 ^ p /\ 0 < 2 ^ (64 - p)) by (split; apply Z.pow_pos_nonneg; lia). assert (HB : B = 2 ^ (64 - p) * 2 ^ p) by (apply pow_div; lia).
  destruct (shr_digit (x mod B) ((x / B) mod B) p) as [-> _]; [apply Z.mod_pos_bound; lia|apply Z.mod_pos_bound; lia|lia|]. set (y := x / B). set (a := x mod B). pose proof (Z.div_mod x B ltac:(lia)) as E. fold y a in E.
  pose proof (Z.mod_pos_bound x B ltac:(lia)) as Ha. fold a in Ha. assert (Ey : (y mod B) mod 2 ^ p = y mod 2 ^ p).
  { pose proof (Z.div_mod y B ltac:(lia)) as Ey. rewrite Ey at 2. replace (B * (y / B)) with (2 ^ (64 - p) * (y / B) * 2 ^ p) by (transitivity ((2 ^ (64 - p) * 2 ^ p) * (y / B)); [ring|by rewrite <- HB]). by rewrite Z.add_comm, Z.mod_add by lia. }
  rewrite Ey. assert (Ex : x / 2 ^ p = a / 2 ^ p + 2 ^ (64 - p) * y).
  { rewrite E. replace (B * y) with (2 ^ (64 - p) * y * 2 ^ p) by (transitivity ((2 ^ (64 - p) * 2 ^ p) * y); [ring|by rewrite <- HB]). by rewrite Z.add_comm, Z.div_add by lia. }
  pose proof (Z.div_mod y (2 ^ p) ltac:(lia)) as Edy. pose proof (Z.mod_pos_bound y (2 ^ p) ltac:(lia)) as Hm. assert (Hd : 0 <= a / 2 ^ p < 2 ^ (64 - p)) by (split; [apply Z.div_pos; lia|apply Z.div_lt_upper_bound; lia]).
  apply (Z.mod_unique _ _ (y / 2 ^ p)); [left; nia|]. rewrite Ex. rewrite Edy at 1. transitivity ((2 ^ (64 - p) * 2 ^ p) * (y / 2 ^ p) + (a / 2 ^ p + 2 ^ (64 - p) * (y mod 2 ^ p))); [ring|by rewrite <- HB].
Qed.
Lemma get_bits_ok t pos : limbs t -> - 2 ^ 62 <= pos <= 2 ^ 62 -> zlen t <= 2 ^ 50 -> get_bits t pos = bits_at (val t) pos.
Proof.
  intros Ht Hpos Hlen. unfold get_bits. rewrite limb_index, bit_index. pose proof (Z.div_mod pos 64 ltac:(lia)) as E. pose proof (Z.mod_pos_bound pos 64 ltac:(lia)) as Hp. set (i := pos / 64) in *. set (p := pos mod 64) in *.
  assert (Hat : forall k, 0 <= k -> (if k <? zlen t then default 0 (t !! Z.to_nat k) else 0) = (val t / B ^ k) mod B).
  { intros k Hk. destruct (Z.ltb_spec k (zlen t)); [rewrite val_limb by done; by rewrite Z2Nat.id|]. rewrite Z.div_small; [done|]. pose proof (val_range t Ht). unfold zlen in *. assert (B ^ Z.of_nat (length t) <= B ^ k) by (apply Z.pow_le_mono_r; lia). lia. }
  assert (Hneg : forall k, - 2 ^ 62 <= k < 0 -> (if limb k <? zlen t then default 0 (t !! Z.to_nat (limb k)) else 0) = 0).
  { intros k Hk. replace (limb k) with (k + B) by (symmetry; apply limb_unique; [unfold is_limb; lia|exists (-1); lia]). destruct (Z.ltb_spec (k + B) (zlen t)); [lia|done]. }
  assert (Hww : limb (limb i + 1) = limb (i + 1)) by (unfold wrap; by rewrite Zplus_mod_idemp_l). rewrite Hww. unfold bits_at. destruct (Z.ltb_spec pos 0) as [Hn|Hn].
  - rewrite (Hneg i) by lia. destruct (Z.eqb_spec p 0) as [Hp0|Hp0].
    + replace (- pos) with (- i * 64) by lia. replace (- i * 64) with ((- i * 64 - 64) + 64) by lia. rewrite Z.pow_add_r by lia. by rewrite Z.mul_assoc, Z.mod_mul by lia.
    + rewrite Z.shiftr_0_l, Z.lor_0_l. destruct (Z.eq_dec i (-1)) as [Ei|Ei].
      * rewrite Ei. change (limb (-1 + 1)) with 0. rewrite Hat by lia. change (B ^ 0) with 1. rewrite Z.div_1_r, Z.shiftl_mul_pow2 by (unfold LIMB_BITS; lia). unfold wrap, LIMB_BITS. rewrite Z.mul_mod_idemp_l by lia. by replace (64 - p) with (- pos) by lia.
      * rewrite (Hneg (i + 1)) by lia. rewrite Z.shiftl_0_l. replace (- pos) with ((- pos - 64) + 64) by lia. rewrite Z.pow_add_r by lia. rewrite Z.mul_assoc, Z.mod_mul by lia. done.
  - assert (0 <= i) by lia. rewrite (wrap_small 64 i), (wrap_small 64 (i + 1)) by lia. rewrite !Hat by lia. rewrite Z.pow_add_r by lia. assert (0 < B ^ i) by (apply Z.pow_pos_nonneg; lia). rewrite <- Z.div_div by lia. change (B ^ 1) with B. set (x := val t / B ^ i). assert (Ex : val t / 2 ^ pos = x / 2 ^ p) by (rewrite E, Z.pow_add_r by lia; rewrite <- Z.div_div by (apply Z.pow_nonzero || apply Z.pow_pos_nonneg; lia); rewrite <- pow_limbs by lia; done). rewrite Ex.
    destruct (Z.eqb_spec p 0) as [Hp0|Hp0]; [rewrite Hp0; change (2 ^ 0) with 1; by rewrite Z.div_1_r|]. by apply bits_pair.
Qed.

(** ** Aligned operands *)

(** The mantissas as numbers of [tot] limbs, with the tops of their exponents aligned. *)
Definition ali_a (a : bf_t) (tot : Z) : Z := mant a * B ^ (tot - len a).
Definition ali_b (b : bf_t) (d tot : Z) : Z := mant b * 2 ^ (64 * (tot - len b) - d).
Definition chunk (N j : Z) : Z := (N / B ^ j) mod B.
Lemma chunk_limb N j : is_limb (chunk N j).
Proof. apply Z.mod_pos_bound. lia. Qed.

Section Aligned.
Context (a b : bf_t) (d tot : Z) (Fa : finite_nz a) (Fb : finite_nz b) (La : len a <= 2 ^ 40) (Lb : len b <= 2 ^ 40) (Hd : 0 <= d) (Ha : len a <= tot) (Hb : 64 * len b + d <= 64 * tot) (Ht : 64 * tot <= 2 ^ 62).
Let X := ali_a a tot.
Let Y := ali_b b d tot.

Lemma ali_range : 2 ^ (64 * tot - 1) <= X < B ^ tot /\ 0 < Y < B ^ tot /\ Y < 2 ^ (64 * tot - d).
Proof.
  pose proof (mant_range a Fa). pose proof (mant_range b Fb). pose proof (fin_len _ Fa). pose proof (fin_len _ Fb). unfold X, Y, ali_a, ali_b. rewrite !pow_limbs by lia.
  assert (P : 0 < 2 ^ (64 * (tot - len a)) /\ 0 < 2 ^ (64 * (tot - len b) - d) /\ 0 < 2 ^ (64 * len b - 1)) by (repeat split; apply Z.pow_pos_nonneg; lia).
  replace (64 * tot - 1) with (64 * len a - 1 + 64 * (tot - len a)) by lia. replace (2 ^ (64 * tot)) with (2 ^ (64 * len a) * 2 ^ (64 * (tot - len a))) at 1 by (rewrite <- Z.pow_add_r by lia; f_equal; lia).
  assert (HY : mant b * 2 ^ (64 * (tot - len b) - d) < 2 ^ (64 * tot - d)).
  { replace (64 * tot - d) with (64 * len b + (64 * (tot - len b) - d)) by lia. rewrite (Z.pow_add_r 2 (64 * len b)) by lia. apply Z.mul_lt_mono_pos_r; lia. }
  rewrite Z.pow_add_r by lia. split; [split; [apply Z.mul_le_mono_nonneg_r; lia|apply Z.mul_lt_mono_pos_r; lia]|]. split; [|done]. split; [apply Z.mul_pos_pos; lia|]. eapply Z.lt_le_trans; [exact HY|]. apply Z.pow_le_mono_r; lia.
Qed.
Lemma chunk_a j : 0 <= j < tot -> get_limbz a (limb (len a - tot + j)) = chunk X j.
Proof. intros Hj. pose proof (get_limbz_ok a tot (Z.to_nat j) (fin_limbs _ Fa) ltac:(lia) ltac:(lia)) as E. rewrite Z2Nat.id in E by lia. exact E. Qed.
Lemma chunk_b j pos : 0 <= j < tot -> pos = 64 * (len b - tot + j) + d -> get_bits (tab b) pos = chunk Y j.
Proof.
  intros Hj ->. assert (0 <= len b) by apply zlen_nonneg. rewrite get_bits_ok; [|apply Fb|lia|apply (Z.le_trans _ (2 ^ 40)); [exact Lb|lia]]. fold (mant b). rewrite (bits_at_shift _ _ (64 * (tot - len b) - d)) by lia. unfold chunk. rewrite pow_limbs by lia. unfold Y, ali_b.
  do 3 f_equal. lia.
Qed.
End Aligned.

(** ** Cancelled bits *)

Lemma limb_not_ok v : is_limb v -> limb_not v = B - 1 - v.
Proof. intros Hv. unfold limb_not, is_limb in *. apply limb_unique; [unfold is_limb; lia|]. exists (-1). unfold Z.lnot. lia. Qed.
Lemma clz_ok v : is_limb v -> exists c, clz v = Ret c /\ 0 <= c <= 64 /\ (v = 0 -> c = 64) /\ (0 < v -> c < 64 /\ 2 ^ (63 - c) <= v < 2 ^ (64 - c)).
Proof.
  intros Hv. unfold clz, clz64, is_limb in *. destruct (Z.eqb_spec v 0) as [->|Hne]; [exists 64; repeat split; lia|]. pose proof (Z.log2_spec v ltac:(lia)) as Hl. pose proof (Z.log2_nonneg v). assert (Z.log2 v < 64) by (apply Z.log2_lt_pow2; lia).
  exists (63 - Z.log2 v). split; [done|]. split; [lia|]. split; [lia|]. intros _. split; [lia|]. replace (63 - (63 - Z.log2 v)) with (Z.log2 v) by lia. by replace (64 - (63 - Z.log2 v)) with (Z.succ (Z.log2 v)) by lia.
Qed.
Lemma bf_min_ok a b : bf_min a b = Z.min a b.
Proof. unfold bf_min. destruct (Z.ltb_spec a b); lia. Qed.

(** Two fields of [w] bits: [u] has its first one, or the complement [v] of the other field has, at the place [m]. *)
Lemma clz_min u v w : is_limb u -> is_limb v -> u < 2 ^ w -> v < 2 ^ w -> 0 < w <= 64 ->
  exists c1 c2, clz u = Ret c1 /\ clz v = Ret c2 /\ let m := Z.min c1 c2 - (64 - w) in 0 <= m <= w /\ (m = w <-> u = 0 /\ v = 0) /\ (m < w -> 2 ^ (w - m - 1) + 1 <= u + v + 1).
Proof.
  intros Hu Hv Hwu Hwv Hw. destruct (clz_ok u Hu) as (c1 & E1 & R1 & Z1 & N1), (clz_ok v Hv) as (c2 & E2 & R2 & Z2 & N2). unfold is_limb in *. exists c1, c2. split; [done|]. split; [done|]. cbn zeta.
  assert (Hc : forall x c, 0 <= x < 2 ^ w -> 0 <= c <= 64 -> (x = 0 -> c = 64) -> (0 < x -> c < 64 /\ 2 ^ (63 - c) <= x < 2 ^ (64 - c)) -> 64 - w <= c).
  { intros x c Hx Rc Zc Nc. destruct (Z.eq_dec x 0) as [E|E]; [specialize (Zc E); lia|]. destruct Nc as (Hc & Hlo & _); [lia|]. destruct (Z.le_gt_cases (64 - w) c) as [|Hlt]; [done|]. assert (2 ^ w <= 2 ^ (63 - c)) by (apply Z.pow_le_mono_r; lia). lia. }
  pose proof (Hc u c1 ltac:(lia) R1 Z1 N1). pose proof (Hc v c2 ltac:(lia) R2 Z2 N2). split; [lia|]. split.
  - split; [intros Hm|intros [-> ->]; specialize (Z1 eq_refl); specialize (Z2 eq_refl); lia]. split.
    + destruct (Z.eq_dec u 0) as [|Hne]; [done|]. destruct N1 as (? & _); lia.
    + destruct (Z.eq_dec v 0) as [|Hne]; [done|]. destruct N2 as (? & _); lia.
  - intros Hm. replace (w - (Z.min c1 c2 - (64 - w)) - 1) with (63 - Z.min c1 c2) by lia. destruct (Z.le_gt_cases c1 c2) as [Hle|Hgt].
    + rewrite Z.min_l by lia. destruct (Z.eq_dec u 0) as [E|E]; [specialize (Z1 E); lia|]. destruct N1 as (_ & ? & _); lia.
    + rewrite Z.min_r by lia. destruct (Z.eq_dec v 0) as [E|E]; [specialize (Z2 E); lia|]. destruct N2 as (_ & ? & _); lia.
Qed.
(** The first bit that differs. *)
Lemma first_difference v1 v2 : is_limb v1 -> is_limb v2 -> v2 < v1 -> let w := Z.log2 (v1 .^ v2) in 0 <= w < 64 /\ v1 - v2 = 2 ^ w + v1 mod 2 ^ w - v2 mod 2 ^ w.
Proof.
  intros H1 H2 Hlt. unfold is_limb in *. cbn zeta. assert (Hx : v1 .^ v2 <> 0) by (intros E; apply Z.lxor_eq in E; lia). assert (Hx0 : 0 <= v1 .^ v2) by (apply Z.lxor_nonneg; lia).
  set (w := Z.log2 (v1 .^ v2)). pose proof (Z.log2_nonneg (v1 .^ v2)) as Hw0. fold w in Hw0.
  assert (Hw : w < 64) by (pose proof (Z.log2_lxor v1 v2 ltac:(lia) ltac:(lia)); assert (Hl : forall v, 0 <= v < B -> Z.log2 v < 64) by (intros v Hv; destruct (Z.eq_dec v 0) as [->|]; [done|apply Z.log2_lt_pow2; lia]); pose proof (Hl v1 H1); pose proof (Hl v2 H2); lia).
  split; [lia|]. assert (Hbit : xorb (Z.testbit v1 w) (Z.testbit v2 w) = true) by (rewrite <- Z.lxor_spec; apply Z.bit_log2; lia).
  assert (Hhigh : v1 / 2 ^ Z.succ w = v2 / 2 ^ Z.succ w).
  { rewrite <- !Z.shiftr_div_pow2 by lia. apply Z.bits_inj_iff'. intros n Hn. rewrite !Z.shiftr_spec by lia. assert (E : Z.testbit (v1 .^ v2) (n + Z.succ w) = false) by (apply Z.bits_above_log2; [lia|fold w; lia]).
    rewrite Z.lxor_spec in E. by destruct (Z.testbit v1 (n + Z.succ w)), (Z.testbit v2 (n + Z.succ w)). }
  assert (P : 0 < 2 ^ w) by (apply Z.pow_pos_nonneg; lia). rewrite Z.pow_succ_r, Z.mul_comm, <- !Z.div_div in Hhigh by lia.
  pose proof (Z.testbit_spec' v1 w ltac:(lia)) as B1. pose proof (Z.testbit_spec' v2 w ltac:(lia)) as B2. pose proof (Z.div_mod v1 (2 ^ w) ltac:(lia)) as D1. pose proof (Z.div_mod v2 (2 ^ w) ltac:(lia)) as D2.
  set (q1 := v1 / 2 ^ w) in *. set (q2 := v2 / 2 ^ w) in *. pose proof (Z.div_mod q1 2 ltac:(lia)) as E1. pose proof (Z.div_mod q2 2 ltac:(lia)) as E2. rewrite <- B1 in E1. rewrite <- B2, <- Hhigh in E2.
  pose proof (Z.mod_pos_bound v1 (2 ^ w) P). pose proof (Z.mod_pos_bound v2 (2 ^ w) P). destruct (Z.testbit v1 w), (Z.testbit v2 w); try done; cbn [Z.b2z] in *; [assert (q1 = q2 + 1) by lia|assert (q2 = q1 + 1) by lia]; nia.
Qed.

Section Cancelled.
Context (a b : bf_t) (Fa : finite_nz a) (Fb : finite_nz b) (La : len a <= 2 ^ 40) (Lb : len b <= 2 ^ 40) (Hd : 0 <= expn a - expn b <= 1).
Let d := expn a - expn b.
Let T := Z.max (len a) (len b) + 2.
Let X := ali_a a T.
Let Y := ali_b b d T.
Context (HXY : Y < X).
Let boff := (len b - len a) * LIMB_BITS - (LIMB_BITS - 1) + expn a - expn b.
Let off (i : Z) := 64 * len a - 1 - 64 * i.
Let hi (N i : Z) := N / B ^ (T - i).

Lemma T_facts : 1 <= len a /\ 1 <= len b /\ 3 <= T <= 2 ^ 40 + 2.
Proof. pose proof (fin_len _ Fa). pose proof (fin_len _ Fb). unfold T. lia. Qed.
Lemma cancel_limbs_ok i : 0 <= i < T -> cancel_limbs a b boff (off i) = (chunk X (T - 1 - i), chunk Y (T - 1 - i)).
Proof.
  intros Hi. pose proof T_facts. unfold cancel_limbs. f_equal.
  - rewrite limb_index. replace (off i / 64) with (len a - T + (T - 1 - i)) by (unfold off; apply (Z.div_unique _ _ _ 63); lia).
    rewrite <- (chunk_a a b d T Fa) by (unfold d, T in *; lia). unfold get_limbz. assert (Hww : forall x, limb (limb x) = limb x) by (intros x; apply wrap_small, limb_is_limb). by rewrite Hww.
  - apply (chunk_b a b d T Fb); try (unfold d, T in *; lia). unfold off, boff, LIMB_BITS, d. lia.
Qed.
Lemma hi_succ N i : 0 <= i < T -> hi N (i + 1) = B * hi N i + chunk N (T - 1 - i).
Proof.
  intros Hi. unfold hi, chunk. replace (T - (i + 1)) with (T - 1 - i) by lia. replace (T - i) with (T - 1 - i + 1) by lia. rewrite Z.pow_add_r by lia. assert (0 < B ^ (T - 1 - i)) by (apply Z.pow_pos_nonneg; lia).
  change (B ^ 1) with B. rewrite <- Z.div_div by lia. apply Z.div_mod. lia.
Qed.
Lemma lowest_chunks : chunk X 0 = 0 /\ chunk Y 0 = 0.
Proof.
  pose proof T_facts. unfold chunk. change (B ^ 0) with 1. rewrite !Z.div_1_r. unfold X, Y, ali_a, ali_b. split.
  - replace (T - len a) with (T - len a - 1 + 1) by lia. rewrite Z.pow_add_r by lia. change (B ^ 1) with B. rewrite Z.mul_assoc. by apply Z.mod_mul.
  - replace (64 * (T - len b) - d) with (64 * (T - len b) - d - 64 + 64) by lia. rewrite Z.pow_add_r by (unfold d; lia). rewrite Z.mul_assoc. by apply Z.mod_mul.
Qed.
(** A difference of [D] in the upper limbs. *)
Lemma difference_low i D n : 0 <= i < T -> hi X (i + 1) - hi Y (i + 1) = D -> 0 <= 64 * (i + 1) - n - 1 -> 2 ^ (64 * (i + 1) - n - 1) + 1 <= D -> 2 ^ (64 * T - n - 1) <= X - Y.
Proof.
  intros Hi ED Hn HD. unfold hi in ED. set (P := B ^ (T - (i + 1))) in *. assert (HP : 0 < P) by (apply Z.pow_pos_nonneg; lia). pose proof (Z.div_mod X P ltac:(lia)). pose proof (Z.div_mod Y P ltac:(lia)).
  pose proof (Z.mod_pos_bound X P HP). pose proof (Z.mod_pos_bound Y P HP). replace (64 * T - n - 1) with (64 * (i + 1) - n - 1 + 64 * (T - (i + 1))) by lia. rewrite Z.pow_add_r, <- pow_limbs by lia. fold P. set (q := 2 ^ _) in *. nia.
Qed.
Lemma hi_le i : hi Y i <= hi X i.
Proof. unfold hi. destruct (Z.le_gt_cases 0 (T - i)) as [Hp|Hp]; [apply Z.div_le_mono; [apply Z.pow_pos_nonneg; lia|lia]|rewrite Z.pow_neg_r by lia; by rewrite !Zdiv_0_r]. Qed.

Definition differ (st : Z * Z * Z * Z) : Prop := exists i, 0 <= i < T - 1 /\ st = (64 * i, off i, chunk X (T - 1 - i), chunk Y (T - 1 - i)) /\ hi X i = hi Y i /\ chunk Y (T - 1 - i) < chunk X (T - 1 - i).
Lemma equal_loop_ok : yields (loop (Z.to_nat (len a + len b + 3)) (equal_step a b boff) (0, len a * LIMB_BITS - 1)) differ.
Proof.
  pose proof T_facts. apply (loop_yields_nat _ (fun n st => exists i, 0 <= i <= T /\ n = Z.to_nat (T - i) /\ st = (64 * i, off i) /\ hi X i = hi Y i)) with (n := Z.to_nat T).
  - intros n st (i & Hi & -> & -> & E). destruct (Z.eq_dec i T) as [->|Hne].
    + unfold hi in E. rewrite Z.sub_diag in E. change (B ^ 0) with 1 in E. rewrite !Z.div_1_r in E. lia.
    + unfold equal_step. rewrite cancel_limbs_ok by lia. cbn [yields mret outcome_ret]. destruct (Z.eqb_spec (chunk X (T - 1 - i)) (chunk Y (T - 1 - i))) as [Ec|Ec]; cbn [negb].
      * exists (Z.to_nat (T - (i + 1))). split; [lia|]. exists (i + 1). split; [lia|]. split; [done|]. split; [unfold off, LIMB_BITS; f_equal; lia|]. rewrite !hi_succ, E, Ec by lia. done.
      * exists i. pose proof (hi_le (i + 1)) as Hle. rewrite !hi_succ, E in Hle by lia. split; [|split; [done|split; [done|lia]]]. split; [lia|]. destruct (Z.eq_dec i (T - 1)) as [->|]; [|lia]. replace (T - 1 - (T - 1)) with 0 in Ec by lia. destruct lowest_chunks as [E1 E2]. rewrite E1, E2 in Ec. done.
  - exists 0. split; [lia|]. split; [f_equal; lia|]. split; [unfold off, LIMB_BITS; f_equal; lia|]. unfold hi. rewrite Z.sub_0_r. destruct (ali_range a b d T Fa Fb) as (H1 & H2 & _); [unfold d, T in *; lia..|]. fold X Y in H1, H2. assert (0 < 2 ^ (64 * T - 1)) by (apply Z.pow_pos_nonneg; lia). rewrite !Z.div_small by lia. done.
  - unfold T. lia.
Qed.
Lemma zero_one_ok i0 : 0 <= i0 < T -> hi X i0 = hi Y i0 + 1 -> yields (loop (Z.to_nat (len a + len b + 3)) (zero_one_step a b boff) (64 * i0, off i0)) (fun n => 0 <= n <= 64 * T /\ 2 ^ (64 * T - n - 1) <= X - Y).
Proof.
  intros Hi0 E0. pose proof T_facts. apply (loop_yields_nat _ (fun n st => exists i, 0 <= i < T /\ n = Z.to_nat (T - i) /\ st = (64 * i, off i) /\ hi X i = hi Y i + 1)) with (n := Z.to_nat (T - i0)); [|by exists i0|unfold T; lia].
  intros n st (i & Hi & -> & -> & E). unfold zero_one_step. rewrite cancel_limbs_ok by lia. set (v1 := chunk X (T - 1 - i)). set (v2 := chunk Y (T - 1 - i)). assert (H1 : is_limb v1) by apply chunk_limb. assert (H2 : is_limb v2) by apply chunk_limb.
  change (limb (-1)) with (B - 1). pose proof (hi_succ X i Hi) as SX. pose proof (hi_succ Y i Hi) as SY. fold v1 in SX. fold v2 in SY. rewrite limb_not_ok by done. unfold is_limb in H1, H2.
  destruct (clz_min v1 (B - 1 - v2) 64) as (c1 & c2 & -> & -> & Hm & Hz & Hlt); [unfold is_limb; lia..|]. rewrite Z.sub_diag, Z.sub_0_r in *. destruct (Z.eqb_spec v1 0) as [Ev1|Ev1], (Z.eqb_spec v2 (B - 1)) as [Ev2|Ev2]; cbn [negb orb mbind outcome_bind mret outcome_ret yields].
  - exists (Z.to_nat (T - (i + 1))). assert (i <> T - 1) by (intros ->; unfold v2 in Ev2; replace (T - 1 - (T - 1)) with 0 in Ev2 by lia; destruct lowest_chunks as [_ E2]; rewrite E2 in Ev2; done). split; [lia|]. exists (i + 1). split; [lia|]. split; [done|]. split; [unfold off, LIMB_BITS; f_equal; lia|]. lia.
  - rewrite bf_min_ok. split; [lia|]. apply (difference_low i (B + v1 - v2)); [done|lia|lia|]. replace (64 * (i + 1) - (64 * i + Z.min c1 c2) - 1) with (64 - Z.min c1 c2 - 1) by lia. lia.
  - rewrite bf_min_ok. split; [lia|]. apply (difference_low i (B + v1 - v2)); [done|lia|lia|]. replace (64 * (i + 1) - (64 * i + Z.min c1 c2) - 1) with (64 - Z.min c1 c2 - 1) by lia. lia.
  - rewrite bf_min_ok. split; [lia|]. apply (difference_low i (B + v1 - v2)); [done|lia|lia|]. replace (64 * (i + 1) - (64 * i + Z.min c1 c2) - 1) with (64 - Z.min c1 c2 - 1) by lia. lia.
Qed.

(** When the result is smaller than the operands by [n] bits, [n] more bits are needed. *)
Lemma count_cancelled_bits_ok : yields (count_cancelled_bits a b) (fun n => 0 <= n <= 64 * T /\ 2 ^ (64 * T - n - 1) <= X - Y).
Proof.
  pose proof T_facts. unfold count_cancelled_bits. fold boff. apply yields_bind. eapply yields_mono; [apply equal_loop_ok|]. intros st (i & Hi & -> & E & Hlt). set (v1 := chunk X (T - 1 - i)) in *. set (v2 := chunk Y (T - 1 - i)) in *.
  assert (H1 : is_limb v1) by apply chunk_limb. assert (H2 : is_limb v2) by apply chunk_limb. pose proof (hi_succ X i ltac:(lia)) as SX. pose proof (hi_succ Y i ltac:(lia)) as SY. fold v1 in SX. fold v2 in SY.
  destruct (first_difference v1 v2 H1 H2 Hlt) as [Hw Ed]. set (w := Z.log2 (v1 .^ v2)) in *. assert (Eclz : clz (v1 .^ v2) = Ret (63 - w)).
  { unfold clz, clz64. destruct (Z.eqb_spec (v1 .^ v2) 0) as [Ex|]; [apply Z.lxor_eq in Ex; lia|done]. }
  rewrite Eclz. cbn [mbind outcome_bind]. unfold LIMB_BITS. replace (64 - (63 - w + 1)) with w by lia. rewrite limb_not_ok by done. assert (P : 0 < 2 ^ w) by (apply Z.pow_pos_nonneg; lia).
  pose proof (Z.mod_pos_bound v1 (2 ^ w) P) as M1. pose proof (Z.mod_pos_bound v2 (2 ^ w) P) as M2. assert (Hpw : 2 ^ w <= 2 ^ 63) by (apply Z.pow_le_mono_r; lia).
  assert (Hgo : forall n, n = 64 * (i + 1) -> v1 - v2 = 1 -> yields (loop (Z.to_nat (len a + len b + 3)) (zero_one_step a b boff) (n, off i - 64)) (fun n => 0 <= n <= 64 * T /\ 2 ^ (64 * T - n - 1) <= X - Y)).
  { intros n -> Ev. replace (off i - 64) with (off (i + 1)) by (unfold off; lia). apply zero_one_ok; lia. }
  destruct (Z.gtb_spec w 0) as [Hw0|Hw0].
  - rewrite limb_mask_low by lia. replace (w - 1 + 1) with w by lia. rewrite !land_low by lia.
    assert (Enot : (B - 1 - v2) mod 2 ^ w = 2 ^ w - 1 - v2 mod 2 ^ w).
    { assert (HB : B = 2 ^ (64 - w) * 2 ^ w) by (apply pow_div; lia). pose proof (Z.div_mod v2 (2 ^ w) ltac:(lia)) as Edv. symmetry. apply (Z.mod_unique _ _ (2 ^ (64 - w) - 1 - v2 / 2 ^ w)); [left; lia|]. rewrite HB. rewrite Edv at 1. ring. }
    rewrite Enot. destruct (clz_min (v1 mod 2 ^ w) (2 ^ w - 1 - v2 mod 2 ^ w) w) as (c1 & c2 & -> & -> & Hm & Hz & Hlow); [unfold is_limb; lia..|]. cbn [mbind outcome_bind mret outcome_ret]. rewrite bf_min_ok. set (m := Z.min c1 c2 - (64 - w)) in *. clearbody m.
    destruct (Z.eqb_spec m w) as [Em|Em].
    + apply Hgo; [lia|]. apply Hz in Em as [Em1 Em2]. lia.
    + cbn [yields]. split; [lia|]. apply (difference_low i (v1 - v2)); [lia|lia|lia|]. replace (64 * (i + 1) - (64 * i + (63 - w + 1) + m) - 1) with (w - m - 1) by lia. lia.
  - cbn [mbind outcome_bind mret outcome_ret]. apply Hgo; [lia|]. assert (Ew : w = 0) by lia. rewrite Ew in Ed. change (2 ^ 0) with 1 in Ed. rewrite !Z.mod_1_r in Ed. lia.
Qed.
End Cancelled.

(** ** The limbs of a sum *)

Section Sum.
Context (a b : bf_t) (d tot r_len : Z) (is_sub : bool) (Fa : finite_nz a) (Fb : finite_nz b) (La : len a <= 2 ^ 40) (Lb : len b <= 2 ^ 40) (Hd : 0 <= d) (Ha : len a <= tot) (Hb : 64 * len b + d <= 64 * tot)
  (Ht : 64 * tot <= 2 ^ 62) (Hr : 1 <= r_len <= tot).
Let X := ali_a a tot.
Let Y := ali_b b d tot.
Let mask := limb (- b2z is_sub).
Let a_offset := len a - r_len.
Let b_bit_offset := (len b - r_len) * LIMB_BITS + d.

(** The second operand, complemented for a subtraction: the lower [j] limbs. *)
Definition low (N j : Z) : Z := if is_sub then B ^ j - 1 - N mod B ^ j else N mod B ^ j.
Definition masked (v : Z) : Z := if is_sub then B - 1 - v else v.

Lemma mask_ok v : is_limb v -> v .^ mask = masked v.
Proof.
  intros Hv. unfold mask, masked. destruct is_sub; cbn [b2z]; [|change (limb (- 0)) with 0; apply Z.lxor_0_r]. change (limb (- (1))) with (B - 1). rewrite <- limb_not_ok by done. unfold limb_not, wrap.
  rewrite <- Z.land_ones by lia. change (B - 1) with (Z.ones 64). apply Z.bits_inj_iff'. intros n Hn. rewrite Z.lxor_spec, Z.land_spec, Z.lnot_spec by lia. unfold is_limb in Hv. destruct (Z.lt_ge_cases n 64).
  - rewrite Z.ones_spec_low by lia. by destruct (Z.testbit v n).
  - rewrite Z.ones_spec_high by lia. rewrite andb_false_r, xorb_false_r. destruct (Z.eq_dec v 0) as [->|]; [apply Z.bits_0|]. apply Z.bits_above_log2; [lia|]. assert (Z.log2 v < 64) by (apply Z.log2_lt_pow2; lia). lia.
Qed.
Lemma add_chunk_ok v1 v2 c : is_limb v1 -> is_limb v2 -> 0 <= c <= 1 -> let '(u, c') := add_chunk mask v1 v2 c in v1 + masked v2 + c = u + B * c' /\ 0 <= c' <= 1 /\ is_limb u.
Proof.
  intros H1 H2 Hc. unfold add_chunk. rewrite mask_ok by done. assert (Hm : is_limb (masked v2)) by (unfold masked, is_limb in *; destruct is_sub; lia). destruct (add_digit v1 (masked v2) c H1 Hm Hc) as [E Hk]. split; [done|]. split; [done|apply limb_is_limb].
Qed.
Lemma mod_succ N j : 0 <= j -> N mod B ^ (j + 1) = N mod B ^ j + B ^ j * chunk N j.
Proof. intros Hj. unfold chunk. rewrite Z.pow_add_r by lia. change (B ^ 1) with B. assert (0 < B ^ j) by (apply Z.pow_pos_nonneg; lia). by rewrite Z.rem_mul_r by lia. Qed.
Lemma low_succ N j : 0 <= j -> low N (j + 1) = low N j + B ^ j * masked (chunk N j).
Proof. intros Hj. unfold low, masked. rewrite mod_succ by done. rewrite Z.pow_add_r by lia. change (B ^ 1) with B. destruct is_sub; ring. Qed.

(** The sum of the lower [j] limbs. *)
Definition low_sum (j : Z) : Z := X mod B ^ j + low Y j + b2z is_sub.
Lemma low_sum_succ j L c : 0 <= j -> low_sum j = L + B ^ j * c -> let '(u, c') := add_chunk mask (chunk X j) (chunk Y j) c in 0 <= c <= 1 -> low_sum (j + 1) = (L + B ^ j * u) + B ^ (j + 1) * c' /\ 0 <= c' <= 1 /\ is_limb u.
Proof.
  intros Hj E. pose proof (add_chunk_ok (chunk X j) (chunk Y j) c (chunk_limb _ _) (chunk_limb _ _)) as Hc. destruct (add_chunk mask _ _ c) as [u c']. intros Hc0. destruct (Hc Hc0) as (Eu & Hc' & Hu). split; [|done].
  unfold low_sum in *. rewrite mod_succ, low_succ by done. rewrite Z.pow_add_r by lia. change (B ^ 1) with B.
  transitivity (low_sum j + B ^ j * (chunk X j + masked (chunk Y j))); [unfold low_sum; ring|]. unfold low_sum. rewrite E. transitivity (L + B ^ j * (chunk X j + masked (chunk Y j) + c)); [ring|]. rewrite Eu. ring.
Qed.

Lemma result_limbs_ok n : forall i c L, 0 <= i -> i + Z.of_nat n = r_len -> 0 <= c <= 1 -> let j := i + (tot - r_len) in low_sum j = L + B ^ j * c ->
  let '(t, c') := result_limbs a b a_offset b_bit_offset mask n i c in limbs t /\ length t = n /\ 0 <= c' <= 1 /\ low_sum tot = (L + B ^ j * val t) + B ^ tot * c'.
Proof.
  induction n as [|n IH]; intros i c L Hi Hn Hc j E; cbn [result_limbs].
  - split; [done|]. split; [done|]. split; [done|]. replace tot with j by lia. cbn [val]. lia.
  - assert (Ea : get_limbz a (limb (a_offset + i)) = chunk X j) by (transitivity (get_limbz a (limb (len a - tot + j))); [do 2 f_equal; unfold a_offset; lia|apply (chunk_a a b d tot Fa Ha Ht j); lia]).
    assert (Eb : get_bits (tab b) (b_bit_offset + i * LIMB_BITS) = chunk Y j) by (apply (chunk_b a b d tot Fb Lb Hd Hb Ht j); [lia|unfold b_bit_offset, LIMB_BITS; lia]). rewrite Ea, Eb.
    pose proof (low_sum_succ j L c ltac:(lia) E) as Hs. destruct (add_chunk mask _ _ c) as [u c1]. destruct (Hs Hc) as (E1 & Hc1 & Hu). specialize (IH (i + 1) c1 (L + B ^ j * u) ltac:(lia) ltac:(lia) Hc1). cbn zeta in IH.
    replace (i + 1 + (tot - r_len)) with (j + 1) in IH by lia. destruct (result_limbs a b a_offset b_bit_offset mask n (i + 1) c1) as [t c']. destruct (IH E1) as (Ht1 & Hl & Hc' & E2).
    split; [by constructor|]. split; [cbn; lia|]. split; [done|]. rewrite E2. cbn [val]. rewrite Z.pow_add_r by lia. change (B ^ 1) with B. ring.
Qed.

(** Positions that are outside of an operand. *)
Let j_of (i : Z) := i + (tot - r_len).
Definition below_inv (st : Z * Z * Z) : Prop := let '(i, c, z) := st in
  - (tot - r_len) <= i <= 0 /\ 0 <= c <= 1 /\ 0 <= z /\ exists L, low_sum (j_of i) = L + B ^ j_of i * c /\ 0 <= L < B ^ j_of i /\ (z = 0 <-> L = 0).

Lemma below_normal i c z u c' L : - (tot - r_len) <= i < 0 -> 0 <= c <= 1 -> 0 <= z -> low_sum (j_of i) = L + B ^ j_of i * c -> 0 <= L < B ^ j_of i -> (z = 0 <-> L = 0) ->
  add_chunk mask (chunk X (j_of i)) (chunk Y (j_of i)) c = (u, c') -> below_inv (i + 1, c', z .| u).
Proof.
  intros Hi Hc Hz E HL Hz0 Eu. pose proof (low_sum_succ (j_of i) L c ltac:(unfold j_of; lia) E) as Hs. rewrite Eu in Hs. destruct (Hs Hc) as (E1 & Hc' & Hu). unfold is_limb in Hu. unfold below_inv.
  split; [lia|]. split; [done|]. split; [apply Z.lor_nonneg; lia|]. replace (j_of (i + 1)) with (j_of i + 1) by (unfold j_of; lia). exists (L + B ^ j_of i * u). split; [done|].
  assert (0 < B ^ j_of i) by (apply Z.pow_pos_nonneg; unfold j_of; lia). rewrite Z.pow_add_r by (unfold j_of; lia). change (B ^ 1) with B. split; [nia|]. rewrite Z.lor_eq_0_iff, Hz0. split; [intros [-> ->]; lia|nia].
Qed.
Lemma below_jump i i' c z u c' L : - (tot - r_len) <= i < i' -> i' <= 0 -> 0 <= c <= 1 -> 0 <= z -> low_sum (j_of i) = L + B ^ j_of i * c -> 0 <= L < B ^ j_of i -> (z = 0 <-> L = 0) ->
  X mod B ^ j_of i' = X mod B ^ j_of i -> Y mod B ^ j_of i' = Y mod B ^ j_of i -> add_chunk mask 0 0 c = (u, c') -> below_inv (i', c', z .| u).
Proof.
  intros Hi Hi' Hc Hz E HL Hz0 EX EY Eu. pose proof (add_chunk_ok 0 0 c ltac:(done) ltac:(done) Hc) as Ha0. rewrite Eu in Ha0. destruct Ha0 as (E0 & Hc' & Hu). unfold is_limb in Hu. unfold below_inv.
  assert (P : 0 < B ^ j_of i) by (apply Z.pow_pos_nonneg; unfold j_of; lia). assert (P2 : 2 * B ^ j_of i <= B ^ j_of i').
  { replace (j_of i') with (j_of i + (i' - i)) by (unfold j_of; lia). rewrite Z.pow_add_r by (unfold j_of; lia). assert (2 ^ 1 <= B ^ (i' - i)) by (replace (i' - i) with (i' - i - 1 + 1) by lia; rewrite Z.pow_add_r by lia; change (B ^ 1) with B; assert (0 < B ^ (i' - i - 1)) by (apply Z.pow_pos_nonneg; lia); nia). nia. }
  split; [lia|]. split; [done|]. split; [apply Z.lor_nonneg; lia|]. unfold low_sum, low in *. rewrite EX, EY. set (Xm := X mod B ^ j_of i) in *. set (Ym := Y mod B ^ j_of i) in *. unfold masked in E0. assert (Hzu : z .| u = 0 <-> L = 0 /\ u = 0) by (rewrite Z.lor_eq_0_iff; tauto).
  destruct is_sub; cbn [b2z] in *.
  - destruct (Z.eq_dec c 1) as [->|Hc1].
    + assert (u = 0 /\ c' = 1) as [-> ->] by lia. exists L. split; [lia|]. split; [lia|]. rewrite Hzu. tauto.
    + assert (c = 0) as -> by lia. assert (u = B - 1 /\ c' = 0) as [-> ->] by lia. exists (L + B ^ j_of i' - B ^ j_of i). split; [lia|]. split; [lia|]. rewrite Hzu. lia.
  - assert (u = c /\ c' = 0) as [-> ->] by lia. exists (L + B ^ j_of i * c). split; [lia|]. split; [nia|]. rewrite Hzu. split; [intros [-> ->]; lia|nia].
Qed.

Lemma X_low j : 0 <= j <= tot - len a -> X mod B ^ j = 0.
Proof. intros Hj. unfold X, ali_a. replace (tot - len a) with (tot - len a - j + j) by lia. rewrite Z.pow_add_r by lia. rewrite Z.mul_assoc. apply Z.mod_mul, Z.pow_nonzero; lia. Qed.
Lemma Y_low j : 0 <= j -> 64 * j <= 64 * (tot - len b) - d -> Y mod B ^ j = 0.
Proof. intros Hj Hk. unfold Y, ali_b. rewrite pow_limbs by lia. rewrite (pow_div (64 * (tot - len b) - d) (64 * j)) by lia. rewrite Z.mul_assoc. apply Z.mod_mul, Z.pow_nonzero; lia. Qed.
Lemma Y_high j : 64 * tot - d <= 64 * j -> Y mod B ^ j = Y.
Proof.
  intros Hj. destruct (ali_range a b d tot Fa Fb Hd Ha Hb) as (_ & H1 & H2). fold Y in H1, H2. pose proof (fin_len _ Fb). apply Z.mod_small. split; [lia|]. rewrite pow_limbs by lia. eapply Z.lt_le_trans; [exact H2|]. apply Z.pow_le_mono_r; lia.
Qed.
(** A limb that does not change the lower part is zero. *)
Lemma chunk_zero N j : 0 <= j -> N mod B ^ (j + 1) = N mod B ^ j -> chunk N j = 0.
Proof. intros Hj E. rewrite mod_succ in E by done. assert (0 < B ^ j) by (apply Z.pow_pos_nonneg; lia). nia. Qed.

(** What is left to do. *)
Definition below_measure (i : Z) : nat := Z.to_nat (if i >=? 0 then 0 else
  1 + Z.max 0 (- Z.max i (- a_offset)) + Z.max 0 ((- b_bit_offset) / 64 + len b + 1 - Z.max i ((- b_bit_offset) / 64)) + b2z (i <? - a_offset) + b2z (i <? (- b_bit_offset) / 64)).
Definition below_done (x : Z * Z) : Prop := let '(c, z) := x in 0 <= c <= 1 /\ exists L, low_sum (tot - r_len) = L + B ^ (tot - r_len) * c /\ 0 <= L < B ^ (tot - r_len) /\ (z = 0 <-> L = 0).
Lemma below_step_ok st : below_inv st -> yields (below_step a b a_offset b_bit_offset mask st) (fun x => match x with inl st' => below_inv st' /\ (below_measure (fst (fst st')) < below_measure (fst (fst st)))%nat | inr r => below_done r end).
Proof.
  destruct st as [[i c] z]. intros (Hi & Hc & Hz & L & E & HL & Hz0). unfold below_step. pose proof (fin_len _ Fa) as La1. pose proof (fin_len _ Fb) as Lb1. destruct (Z.ltb_spec i 0) as [Hi0|Hi0].
  2:{ cbn [yields mret outcome_ret]. assert (i = 0) as -> by lia. replace (j_of 0) with (tot - r_len) in * by (unfold j_of; lia). split; [done|]. by exists L. }
  set (j := j_of i) in *. assert (Hj : 0 <= j < tot - r_len) by (unfold j, j_of; lia). set (ap := a_offset + i). set (bp := b_bit_offset + i * LIMB_BITS).
  assert (Eap : ap = len a - tot + j) by (unfold ap, a_offset, j, j_of; lia). assert (Ebp : bp = 64 * (len b - tot + j) + d) by (unfold bp, b_bit_offset, LIMB_BITS, j, j_of; lia).
  pose proof (chunk_a a b d tot Fa Ha Ht j ltac:(lia)) as Ca. rewrite <- Eap in Ca. pose proof (chunk_b a b d tot Fb Lb Hd Hb Ht j bp ltac:(lia) Ebp) as Cb. fold X in Ca. fold Y in Cb.
  set (in_a := (ap >=? 0) && (ap <? len a)). set (in_b := (bp + LIMB_BITS >? 0) && (bp <? len b * LIMB_BITS)).
  assert (Ha1 : (if in_a then aget (tab a) ap else mret 0) = Ret (chunk X j) /\ (in_a = false -> ap < 0)).
  { unfold in_a. destruct (Z.geb_spec ap 0) as [Hp|Hp]; cbn [andb].
    - destruct (Z.ltb_spec ap (len a)) as [Hl|Hl]; [|lia]. split; [|done]. rewrite <- Ca. unfold get_limbz. rewrite !(wrap_small 64) by (rewrite ?(wrap_small 64); lia). destruct (Z.geb_spec ap (len a)); [lia|].
      unfold aget. destruct (Z.ltb_spec ap 0); [lia|]. destruct (lookup_lt_is_Some_2 (tab a) (Z.to_nat ap)) as [v ->]; [unfold len, zlen in *; lia|done].
    - split; [|done]. cbn. f_equal. symmetry. apply chunk_zero; [lia|]. rewrite !X_low by lia. done. }
  destruct Ha1 as [-> Hina]. cbn [mbind outcome_bind].
  assert (Hb1 : (if in_b then get_bits (tab b) bp else 0) = chunk Y j /\ (in_b = false -> bp + 64 <= 0 \/ 64 * len b <= bp)).
  { unfold in_b, LIMB_BITS. destruct (Z.gtb_spec (bp + 64) 0), (Z.ltb_spec bp (len b * 64)); cbn [andb]; (split; [|lia || done]); [done| | |]; symmetry; (apply chunk_zero; [lia|]); [rewrite !Y_high by lia|rewrite !Y_low by lia|lia]; done. }
  destruct Hb1 as [-> Hinb]. pose proof (Z.div_mod (- b_bit_offset) 64 ltac:(lia)) as EB. pose proof (Z.mod_pos_bound (- b_bit_offset) 64 ltac:(lia)) as RB. set (B0 := - b_bit_offset / 64) in *.
  assert (HiB : bp + 64 <= 0 <-> i < B0) by (unfold bp, LIMB_BITS; lia). assert (HiA : ap < 0 <-> i < - a_offset) by (unfold ap; lia). rewrite limb_index. fold B0.
  destruct (in_a || in_b) eqn:Hin.
  - destruct (add_chunk mask (chunk X j) (chunk Y j) c) as [u c'] eqn:Eu. cbn [yields mret outcome_ret fst]. split; [apply (below_normal i c z u c' L); (done || lia)|]. unfold below_measure. fold B0.
    assert (Hdec : 0 <= ap \/ (i >= B0 /\ i < B0 + len b + 1)).
    { apply orb_true_iff in Hin as [Hin|Hin]; [left; unfold in_a in Hin; lia|right]. unfold in_b, LIMB_BITS in Hin. assert (bp + 64 > 0 /\ bp < len b * 64) as [H1 H2] by lia. split; [lia|]. unfold bp, LIMB_BITS in H2. lia. }
    destruct (Z.geb_spec (i + 1) 0), (Z.geb_spec i 0), (Z.ltb_spec (i + 1) (- a_offset)), (Z.ltb_spec i (- a_offset)), (Z.ltb_spec (i + 1) B0), (Z.ltb_spec i B0); cbn [b2z]; lia.
  - apply orb_false_iff in Hin as [Hin1 Hin2]. specialize (Hina Hin1). specialize (Hinb Hin2). rewrite !bf_min_ok. destruct (Z.ltb_spec ap 0); [|lia].
    set (i' := if bp + LIMB_BITS <=? 0 then _ else _). assert (Hi' : i < i' <= 0 /\ i' <= - a_offset /\ (bp + 64 <= 0 -> i' <= B0) /\ (i' = 0 \/ i' = - a_offset \/ (i < B0 /\ i' = B0))).
    { unfold i', LIMB_BITS. destruct (Z.leb_spec (bp + 64) 0); lia. }
    assert (CX : chunk X j = 0) by (apply chunk_zero; [lia|]; rewrite !X_low by lia; done).
    assert (CY : chunk Y j = 0) by (apply chunk_zero; [lia|]; destruct Hinb; [rewrite !Y_low by lia|rewrite !Y_high by lia]; done).
    rewrite CX, CY. destruct (add_chunk mask 0 0 c) as [u c'] eqn:Eu. cbn [yields mret outcome_ret fst]. split.
    + apply (below_jump i i' c z u c' L); try (done || lia); fold j.
      * rewrite !X_low by (unfold j_of, a_offset in *; lia). done.
      * destruct Hi' as (Hii & _ & Hlim & _). clearbody i'. destruct Hinb as [Hb'|Hb'].
        -- specialize (Hlim Hb'). assert (64 * j_of i' <= 64 * (tot - len b) - d) by (unfold j_of, b_bit_offset, LIMB_BITS in *; lia). rewrite (Y_low (j_of i')), (Y_low j) by (unfold j_of in *; lia). done.
        -- rewrite (Y_high (j_of i')), (Y_high j) by (unfold j_of in *; lia). done.
    + unfold below_measure. fold B0. clearbody i'. destruct (Z.geb_spec i' 0), (Z.geb_spec i 0), (Z.ltb_spec i' (- a_offset)), (Z.ltb_spec i (- a_offset)), (Z.ltb_spec i' B0), (Z.ltb_spec i B0); cbn [b2z]; lia.
Qed.
Lemma below_ok : yields (loop (Z.to_nat (len a + len b + 5)) (below_step a b a_offset b_bit_offset mask) (r_len - tot, b2z is_sub, 0)) below_done.
Proof.
  pose proof (fin_len _ Fa). pose proof (fin_len _ Fb). apply (loop_yields _ below_inv (fun st => below_measure (fst (fst st)))); [exact below_step_ok| |].
  - split; [lia|]. split; [by destruct is_sub|]. split; [done|]. exists 0. replace (j_of (r_len - tot)) with 0 by (unfold j_of; lia). change (B ^ 0) with 1. split; [|done]. unfold low_sum, low. change (B ^ 0) with 1. rewrite !Z.mod_1_r. by destruct is_sub.
  - cbn [fst]. unfold below_measure. destruct (Z.geb_spec (r_len - tot) 0), (Z.ltb_spec (r_len - tot) (- a_offset)), (Z.ltb_spec (r_len - tot) (- b_bit_offset / 64)); cbn [b2z]; unfold a_offset in *; lia.
Qed.
End Sum.
