(* ===== verification/BigSumRun.v ===== *)
(** * Sums of big floats are rounded correctly (libbf.c) *)

From stdpp Require Import base list.
From S2P Require Import Prelude Cutils Limbs BigFloat BigRound BigOps BigArith BigAdd BigSum.
#[local] Open Scope Z_scope.

(** ** The operands *)

Lemma z_cmp_gt x y : z_cmp x y = 1 -> y < x.
Proof. unfold z_cmp. destruct (Z.eqb_spec x y); [done|]. destruct (Z.ltb_spec x y); [done|lia]. Qed.
Lemma dy_cmp_eq x y x' y' : dy_eq x x' -> dy_eq y y' -> dy_cmp x y = dy_cmp x' y'.
Proof.
  destruct x as [m1 e1], y as [m2 e2], x' as [m3 e3], y' as [m4 e4]. intros H1 H2. set (e := Z.min (Z.min e1 e2) (Z.min e3 e4)). assert (e <= e1 /\ e <= e2 /\ e <= e3 /\ e <= e4) as (L1 & L2 & L3 & L4) by lia. clearbody e.
  rewrite (dy_eq_at e) in H1, H2 by done. rewrite !(dy_cmp_at e) by done. by rewrite H1, H2.
Qed.

Section Operands.
Context (a b : bf_t) (Fa : finite_nz a) (Fb : finite_nz b) (La : len a <= 2 ^ 40) (Lb : len b <= 2 ^ 40) (Hd : 0 <= expn a - expn b <= 2 ^ 61).
Let d := expn a - expn b.

Lemma ali_dy tot : len a <= tot -> 64 * len b + d <= 64 * tot -> dy_eq (dy a) (ali_a a tot, expn a - 64 * tot) /\ dy_eq (dy b) (ali_b b d tot, expn a - 64 * tot).
Proof.
  intros Ha Hb. unfold ali_a, ali_b, dy. rewrite pow_limbs by lia. split.
  - rewrite dy_shift by lia. replace (expn a - 64 * tot + 64 * (tot - len a)) with (expn a - 64 * len a) by lia. done.
  - rewrite dy_shift by lia. replace (expn a - 64 * tot + (64 * (tot - len b) - d)) with (expn b - 64 * len b) by (unfold d; lia). done.
Qed.
Lemma cmp_ali tot : len a <= tot -> 64 * len b + d <= 64 * tot -> dy_cmp (dy a) (dy b) = z_cmp (ali_a a tot) (ali_b b d tot).
Proof.
  intros Ha Hb. destruct (ali_dy tot Ha Hb) as [E1 E2]. rewrite (dy_cmp_eq _ _ _ _ E1 E2), (dy_cmp_at (expn a - 64 * tot)) by lia. rewrite Z.sub_diag. change (2 ^ 0) with 1. by rewrite !Z.mul_1_r.
Qed.
Definition tot_len : Z := Z.max (len a) (len b + (d + 63) / 64).
Lemma tot_facts : len a <= tot_len /\ 64 * len b + d <= 64 * tot_len /\ 64 * tot_len <= 2 ^ 62 /\ 1 <= tot_len /\ (d <= 1 -> tot_len <= Z.max (len a) (len b) + 2) /\ 64 * tot_len <= 64 * Z.max (len a) (len b) + d + 64.
Proof.
  pose proof (fin_len _ Fa). pose proof (fin_len _ Fb). unfold tot_len, d in *. pose proof (Z.div_mod (expn a - expn b + 63) 64 ltac:(lia)). pose proof (Z.mod_pos_bound (expn a - expn b + 63) 64 ltac:(lia)). lia.
Qed.

(** The sum or the difference, of [tot_len] limbs, has at most [n] zero bits at the top. *)
Definition total (is_sub : bool) : Z := if is_sub then ali_a a tot_len - ali_b b d tot_len else ali_a a tot_len + ali_b b d tot_len.
Lemma cancelled_ok (is_sub : bool) : (is_sub = true -> dy_cmp (dy a) (dy b) = 1) ->
  yields (if is_sub then if d <=? 1 then count_cancelled_bits a b else mret 1 else mret 0) (fun n => 0 <= n <= 2 ^ 47 /\ 2 ^ (64 * tot_len - n - 1) <= total is_sub).
Proof.
  intros Hcmp. pose proof tot_facts as (T1 & T2 & T3 & T4 & T5 & _). pose proof (fin_len _ Fa). pose proof (fin_len _ Fb). destruct (ali_range a b d tot_len Fa Fb) as (RX & RY & RY2); [lia..|]. rewrite pow_limbs in * by lia. unfold total. destruct is_sub.
  - pose proof (Hcmp eq_refl) as Hc. destruct (Z.leb_spec d 1) as [Hd1|Hd1].
    + set (T := Z.max (len a) (len b) + 2) in *. assert (HT : ali_b b d T < ali_a a T) by (apply z_cmp_gt; rewrite <- cmp_ali by (unfold T; lia); done).
      eapply yields_mono; [apply (count_cancelled_bits_ok a b Fa Fb La Lb); [unfold d in *; lia|exact HT]|]. cbn beta. fold T d. intros n [Hn HS]. split; [unfold T in *; lia|]. specialize (T5 Hd1).
      assert (EX : ali_a a T = ali_a a tot_len * 2 ^ (64 * (T - tot_len))) by (unfold ali_a; rewrite !pow_limbs, <- Z.mul_assoc, <- Z.pow_add_r by lia; do 2 f_equal; lia).
      assert (EY : ali_b b d T = ali_b b d tot_len * 2 ^ (64 * (T - tot_len))) by (unfold ali_b; rewrite <- Z.mul_assoc, <- Z.pow_add_r by lia; do 2 f_equal; lia).
      rewrite EX, EY, <- Z.mul_sub_distr_r in HS. assert (HP : 0 < 2 ^ (64 * (T - tot_len))) by (apply Z.pow_pos_nonneg; lia). destruct (Z.le_gt_cases 0 (64 * tot_len - n - 1)) as [Hp|Hp].
      * replace (64 * T - n - 1) with (64 * tot_len - n - 1 + 64 * (T - tot_len)) in HS by lia. rewrite Z.pow_add_r in HS by lia. by apply Z.mul_le_mono_pos_r in HS.
      * rewrite Z.pow_neg_r by lia. rewrite EX, EY in HT. nia.
    + cbn [yields mret outcome_ret]. split; [lia|]. replace (64 * tot_len - 1 - 1) with (64 * tot_len - 2) by lia. assert (E : 2 ^ (64 * tot_len - 1) = 2 * 2 ^ (64 * tot_len - 2)) by (rewrite <- Z.pow_succ_r by lia; f_equal; lia).
      assert (2 ^ (64 * tot_len - d) <= 2 ^ (64 * tot_len - 2)) by (apply Z.pow_le_mono_r; lia). lia.
  - cbn [yields mret outcome_ret]. split; [lia|]. rewrite Z.sub_0_r. lia.
Qed.
Lemma sum_total_pos (is_sub : bool) : (is_sub = true -> dy_cmp (dy a) (dy b) = 1) -> 0 < total is_sub.
Proof.
  intros Hcmp. pose proof tot_facts as (T1 & T2 & _). destruct (ali_range a b d tot_len Fa Fb) as (RX & RY & _); [unfold d in *; lia..|]. assert (0 < 2 ^ (64 * tot_len - 1)) by (apply Z.pow_pos_nonneg; pose proof (fin_len _ Fa); lia).
  unfold total. destruct is_sub; [|lia]. pose proof (Hcmp eq_refl) as Hc. rewrite (cmp_ali tot_len T1 T2) in Hc. apply z_cmp_gt in Hc. lia.
Qed.
End Operands.

(** Marking that limbs below are not zero. *)
Lemma mark_ok t z v : t <> [] -> limbs t -> aget t 0 = Ret v -> exists t', aset t 0 (v .| b2z (negb (z =? 0))) = Ret t' /\ limbs t' /\ length t' = length t /\ val t' = val t + b2z (negb (z =? 0) && Z.even (val t)).
Proof.
  intros Hne Ht Hv. destruct (store_sticky t (negb (z =? 0)) v Hne Ht Hv) as (t' & E & H1 & H2 & H3). exists t'. split; [|done]. revert E. destruct t as [|w t]; [done|]. destruct (negb (z =? 0)); cbn [b2z]; [done|].
  intros [= <-]. cbn in Hv. injection Hv as ->. rewrite Z.lor_0_r, aset_ok by (unfold zlen; cbn [length]; lia). done.
Qed.
(** A number other than zero stays one. *)
Lemma sticky_pos N D : 0 < N -> 0 < D -> 0 < sticky N D.
Proof.
  intros HN HD. unfold sticky. pose proof (Z.div_mod N D ltac:(lia)). pose proof (Z.div_pos N D). destruct (Z.eq_dec (N / D) 0) as [E|E]; [rewrite E|destruct (_ && _); cbn [b2z]; lia].
  destruct (Z.eqb_spec (N mod D) 0); [nia|done].
Qed.
(** An array that grows by one limb. *)
Lemma grow_ok {HC : bf_context} r n s : limbs (tab r) -> len r = n -> let '(failed, r', _) := bf_resize r (n + 1) s in
  if failed then ~ reliable /\ r' = r else sign r' = sign r /\ expn r' = expn r /\ aset (tab r') n 1 = Ret (tab r ++ [1]).
Proof.
  intros Ht Hl. assert (0 <= len r) by apply zlen_nonneg. pose proof (bf_resize_ok r (n + 1) s Ht ltac:(lia)) as Hz. destruct (bf_resize r (n + 1) s) as [[failed r'] s']. destruct failed; [done|]. destruct Hz as (H1 & H2 & _ & Hl' & Hp). split; [done|]. split; [done|].
  rewrite Z.min_r in Hp by lia. unfold len, zlen in *. rewrite (take_ge (tab r)) in Hp by lia. assert (E : exists x, tab r' = tab r ++ [x]).
  { pose proof (take_drop (Z.to_nat (Z.of_nat (length (tab r)))) (tab r')) as Etd. rewrite Hp in Etd. pose proof (f_equal length Etd) as El. rewrite length_app in El. destruct (drop _ (tab r')) as [|x [|y rest]]; cbn [length] in El; [lia|by exists x|lia]. }
  destruct E as [x ->]. apply aset_at. unfold zlen. lia.
Qed.

(** ** Adding numbers *)

Section Numbers.
Context {HC : bf_context}.

(** The limbs of the sum and what is below them. *)
Lemma sum_parts a b (is_sub : bool) r_len t c c1 L : finite_nz a -> finite_nz b -> len a <= 2 ^ 40 -> len b <= 2 ^ 40 -> 0 <= expn a - expn b <= 2 ^ 61 ->
  let d := expn a - expn b in let tot := tot_len a b in 1 <= r_len <= tot -> (is_sub = true -> dy_cmp (dy a) (dy b) = 1) -> 0 <= c <= 1 -> 0 <= c1 <= 1 ->
  limbs t -> length t = Z.to_nat r_len -> 0 <= L < B ^ (tot - r_len) -> low_sum a b d tot is_sub tot = (L + B ^ (tot - r_len) * val t) + B ^ tot * c1 ->
  let q := val t + (if is_sub then 0 else B ^ r_len * c1) in total a b is_sub = L + B ^ (tot - r_len) * q /\ 0 <= q /\ (is_sub = true -> c1 = 1).
Proof.
  intros Fa Fb La Lb Hd d tot Hr Hcmp Hc Hc1 Ht Hn HL E q. pose proof (tot_facts a b Fa Fb La Lb Hd) as (T1 & T2 & T3 & T4 & _). destruct (ali_range a b d tot Fa Fb) as (RX & RY & _); [unfold d, tot in *; lia..|]. pose proof (val_range t Ht) as Rt. rewrite Hn, Z2Nat.id in Rt by lia.
  assert (P : 0 < B ^ (tot - r_len) /\ 0 < B ^ r_len) by (split; apply Z.pow_pos_nonneg; lia). assert (EP : B ^ tot = B ^ (tot - r_len) * B ^ r_len) by (rewrite <- Z.pow_add_r by lia; f_equal; lia).
  unfold low_sum, low in E. rewrite (Z.mod_small (ali_a a tot)), (Z.mod_small (ali_b b d tot)) in E by (unfold d, tot in *; rewrite ?pow_limbs in *; lia). unfold total. fold d tot. unfold q. destruct is_sub; cbn [b2z] in E.
  - assert (Hc1' : c1 = 1).
    { pose proof (cmp_ali a b tot ltac:(lia) ltac:(lia)) as Ecmp. rewrite (Hcmp eq_refl) in Ecmp. pose proof (z_cmp_gt _ _ (eq_sym Ecmp)) as Hlt. fold d in Hlt. destruct (Z.eq_dec c1 0) as [->|]; [|lia]. exfalso. nia. }
    rewrite Hc1' in E. split; [lia|]. split; [lia|done].
  - split; [nia|]. split; [nia|done].
Qed.

Lemma add_numbers_ok r a b a_sign (is_sub : bool) prec flags s : finite_nz a -> finite_nz b -> len a <= 2 ^ 40 -> len b <= 2 ^ 40 -> 0 <= expn a - expn b <= 2 ^ 61 -> - 2 ^ 60 <= expn a <= 2 ^ 60 -> (is_sub = true -> dy_cmp (dy a) (dy b) = 1) ->
  0 <= a_sign <= 1 -> limbs (tab r) -> op_args prec flags -> flags .& BF_FLAG_RADPNT_PREC = 0 -> prec <= 2 ^ 46 \/ expn a - expn b <= 2 ^ 46 ->
  yields (add_numbers r a b a_sign is_sub prec flags s) (fun '(ret, r', _) => refused ret r' \/ correctly_rounded prec flags a_sign (total a b is_sub) 1 (expn a - 64 * tot_len a b) ret r').
Proof.
  intros Fa Fb La Lb Hd Hea Hcmp Hs Hr Ho Hrad Hsz. pose proof (tot_facts a b Fa Fb La Lb Hd) as (T1 & T2 & T3 & T4 & _ & T6). pose proof (oa_prec _ _ Ho) as Hp. unfold add_numbers. cbn [tab sign expn]. rewrite c_slimb_ok by lia. cbn [mbind outcome_bind].
  set (d := expn a - expn b) in *. apply yields_bind. eapply yields_mono; [by apply cancelled_ok|]. fold d. intros n [Hn HS]. unfold LIMB_BITS. replace (n + prec + 2 + 64 - 1) with (n + prec + 65) by lia.
  assert (Etot : bf_max (len a) (len b + (d + 64 - 1) / 64) = tot_len a b) by (unfold bf_max, tot_len; fold d; replace (d + 64 - 1) with (d + 63) by lia; destruct (Z.gtb_spec (len a) (len b + (d + 63) / 64)); lia). rewrite Etot. set (tot := tot_len a b) in *.
  assert (Hpl : n + prec + 2 <= 64 * ((n + prec + 65) / 64) <= n + prec + 65) by (pose proof (Z.div_mod (n + prec + 65) 64 ltac:(lia)); pose proof (Z.mod_pos_bound (n + prec + 65) 64 ltac:(lia)); lia).
  set (precl := (n + prec + 65) / 64) in *. rewrite bf_min_ok. set (r_len := Z.min precl tot). assert (Hrl : 1 <= r_len <= tot /\ r_len <= 2 ^ 50 - 1 /\ (r_len = tot \/ n + prec + 2 <= 64 * r_len)) by lia. clearbody r_len. clear precl Hpl.
  set (r0 := MkBf a_sign (expn a) (tab r)). pose proof (bf_resize_ok r0 r_len s Hr ltac:(lia)) as Hz. destruct (bf_resize r0 r_len s) as [[failed r1] s1]. destruct failed; [destruct Hz as [Hrel ->]; apply mem_error_yields; [done|done|by left]|].
  destruct Hz as (Hs1 & He1 & Ht1 & Hl1 & _). change (sign r0) with a_sign in Hs1. change (expn r0) with (expn a) in He1. apply yields_bind.
  eapply yields_mono; [apply (below_ok a b d tot r_len is_sub Fa Fb Lb); lia|]. intros [c z] (Hc & L & EL & HL & Hz). cbn beta; cbn match.
  pose proof (result_limbs_ok a b d tot r_len is_sub Fa Fb Lb ltac:(lia) ltac:(lia) ltac:(lia) ltac:(lia) ltac:(lia) (Z.to_nat r_len) 0 c L ltac:(lia) ltac:(lia) Hc) as Hres. cbn zeta in Hres. change (0 + (tot - r_len)) with (tot - r_len) in Hres.
  change 64 with LIMB_BITS. destruct (result_limbs a b _ _ _ _ 0 c) as [t c1]. destruct (Hres EL) as (Hlt & Hnt & Hc1 & Esum). clear Hres.
  destruct (sum_parts a b is_sub r_len t c c1 L Fa Fb La Lb Hd ltac:(lia) Hcmp Hc Hc1 Hlt Hnt HL Esum) as (ES & Hq & Hcs). fold tot in ES. set (q := val t + _) in *.
  assert (Ht0 : t <> []) by (intros E; rewrite E in Hnt; cbn [length] in Hnt; lia). assert (Hv : exists v, aget t 0 = Ret v) by (destruct t as [|v t]; [done|by exists v]). destruct Hv as [v Hv].
  rewrite awrite_ok by (unfold len, zlen in *; lia). cbn [mbind outcome_bind]. change (take (Z.to_nat 0) (tab r1)) with (@nil Z). cbn [app]. rewrite drop_ge, app_nil_r by (unfold len, zlen in *; lia). rewrite Hv. cbn [mbind outcome_bind].
  destruct (mark_ok t z v Ht0 Hlt Hv) as (t2 & -> & Hlt2 & Hnt2 & Ev2). cbn [mbind outcome_bind]. set (D := B ^ (tot - r_len)) in *. assert (HD : 0 < D) by (apply Z.pow_pos_nonneg; lia). assert (HR : 0 < B ^ r_len) by (apply Z.pow_pos_nonneg; lia).
  assert (Eq : q = total a b is_sub / D) by (apply (Z.div_unique _ _ _ L); [left; lia|lia]). assert (EL' : L = total a b is_sub mod D) by (apply (Z.mod_unique _ _ q); [left; lia|lia]).
  assert (Eev : Z.even q = Z.even (val t)).
  { unfold q. destruct is_sub; [by rewrite Z.add_0_r|]. rewrite (Z.even_add_mul_even (val t) (B ^ r_len) c1); [done|]. exists (2 ^ 63 * B ^ (r_len - 1)). rewrite Z.mul_assoc. change (2 * 2 ^ 63) with (B ^ 1). rewrite <- Z.pow_add_r by lia. f_equal. lia. }
  assert (Est : sticky (total a b is_sub) D = val t2 + (q - val t)).
  { unfold sticky. rewrite <- Eq, <- EL', Eev, Ev2. assert (Ezl : (z =? 0) = (L =? 0)) by (destruct (Z.eqb_spec z 0), (Z.eqb_spec L 0); tauto). rewrite Ezl. lia. }
  pose proof (sum_total_pos a b Fa Fb La Lb Hd is_sub Hcmp) as HS0. assert (Hfin : forall r2 s2, limbs (tab r2) -> len r2 <= 2 ^ 50 -> sign r2 = a_sign -> expn r2 - 64 * len r2 = expn a - 64 * r_len -> mant r2 = sticky (total a b is_sub) D ->
    yields (bf_normalize_and_round r2 prec flags s2) (fun '(ret, r', _) => refused ret r' \/ correctly_rounded prec flags a_sign (total a b is_sub) 1 (expn a - 64 * tot) ret r')).
  { intros r2 s2 Hl2 Hn2 Hsg2 He2 Hm2. assert (0 <= len r2) by apply zlen_nonneg. eapply yields_mono; [apply (normalize_ok r2 prec flags s2 (sticky (total a b is_sub) D) (expn a - 64 * r_len)); try done; [lia|lia|by apply sticky_pos]|].
    intros [[ret r'] s'] H'. right. rewrite Hsg2 in H'. destruct (Z.eq_dec r_len tot) as [Er|Er].
    - unfold D in H'. rewrite Er, Z.sub_diag in H'. change (B ^ 0) with 1 in H'. unfold sticky in H'. rewrite Z.mod_1_r, Z.div_1_r, Z.add_0_r in H'. exact H'.
    - assert (Hsz2 : n + prec + 2 <= 64 * r_len) by lia. apply correctly_rounded_sticky in H'; [|done|lia|done|lia|].
      + revert H'. apply correctly_rounded_frac; [done|lia|]. unfold D. rewrite Z.mul_1_r, pow_limbs, dy_shift by lia. replace (expn a - 64 * tot + 64 * (tot - r_len)) with (expn a - 64 * r_len) by lia. done.
      + apply Z.div_le_lower_bound; [done|]. apply (Z.le_trans _ (2 ^ (64 * tot - n - 1))); [|exact HS]. unfold D. rewrite pow_limbs, <- Z.pow_add_r by lia. apply Z.pow_le_mono_r; lia. }
  destruct (negb is_sub && negb (c1 =? 0)) eqn:Hcarry.
  - apply andb_true_iff in Hcarry as [Hs0 Hc0]. apply negb_true_iff in Hs0. destruct (Z.eqb_spec c1 0) as [|Hc0']; [done|]. assert (c1 = 1) as -> by lia. subst is_sub.
    pose proof (grow_ok (set_tab t2 r1) r_len s1 Hlt2 ltac:(unfold len, set_tab, zlen; cbn [tab]; lia)) as Hg. destruct (bf_resize (set_tab t2 r1) (r_len + 1) s1) as [[failed r3] s3]. destruct failed; [destruct Hg as [Hrel ->]; apply mem_error_yields; [done|done|by left]|].
    destruct Hg as (Hs3 & He3 & ->). cbn [mbind outcome_bind]. cbn [set_tab sign expn tab] in Hs3, He3 |- *. rewrite Hs3, He3, He1. unfold LIMB_BITS. rewrite c_slimb_ok by lia. cbn [mbind outcome_bind]. apply Hfin; unfold len, mant, zlen in *; cbn [tab expn sign].
    + apply Forall_app. split; [done|]. by constructor.
    + rewrite length_app. cbn [length]. lia.
    + done.
    + rewrite length_app. cbn [length]. lia.
    + rewrite val_app, Hnt2, Hnt, Z2Nat.id, Est by lia. cbn [val]. unfold q. lia.
  - apply Hfin; unfold len, mant, zlen, set_tab in *; cbn [tab expn sign]; [done|lia|done|rewrite He1; lia|]. rewrite Est. unfold q. destruct is_sub; [lia|]. cbn [negb andb] in Hcarry. destruct (Z.eqb_spec c1 0) as [->|]; [lia|done].
Qed.

(** ** Specification *)

Definition signed (s m : Z) : Z := if s =? 0 then m else - m.
(** The sum of two dyadic numbers with their signs: a zero has the sign that the rounding mode asks for. *)
Definition sum_spec (prec1 flags sa : Z) (x : dyadic) (sb : Z) (y : dyadic) (ret : Z) (r : bf_t) : Prop :=
  let e := Z.min (snd x) (snd y) in
  let v := signed sa (fst x * 2 ^ (snd x - e)) + signed sb (fst y * 2 ^ (snd y - e)) in
  if v =? 0 then ret = 0 /\ special_is r (b2z (flags .& BF_RND_MASK =? BF_RNDD)) BF_EXP_ZERO
  else correctly_rounded prec1 flags (b2z (v <? 0)) (Z.abs v) 1 e ret r.
Definition add_spec (prec1 flags : Z) (a b : bf_t) (sa sb ret : Z) (r : bf_t) : Prop :=
  match kind_of a, kind_of b with
  | KNan, _ | _, KNan => ret = 0 /\ special_is r 0 BF_EXP_NAN
  | KInf, KInf => if sa =? sb then ret = 0 /\ special_is r sa BF_EXP_INF else ret = BF_ST_INVALID_OP /\ special_is r 0 BF_EXP_NAN
  | KInf, _ => ret = 0 /\ special_is r sa BF_EXP_INF
  | _, KInf => ret = 0 /\ special_is r sb BF_EXP_INF
  | KZero, KZero => ret = 0 /\ special_is r (if sa =? sb then sa else b2z (flags .& BF_RND_MASK =? BF_RNDD)) BF_EXP_ZERO
  | KNum, KZero => correctly_rounded prec1 flags sa (mant a) 1 (snd (dy a)) ret r
  | KZero, KNum => correctly_rounded prec1 flags sb (mant b) 1 (snd (dy b)) ret r
  | KNum, KNum => sum_spec prec1 flags sa (dy a) sb (dy b) ret r
  end.
(** What happens when a number is added to a zero and the copy of the number fails: a zero, and no status. *)
Definition copy_lost (a b : bf_t) (ret : Z) (r : bf_t) : Prop := ~ reliable /\ ret = 0 /\ (kind_of a = KZero \/ kind_of b = KZero) /\ expn r = BF_EXP_ZERO /\ tab r = [].

Lemma sum_spec_comm prec1 flags sa x sb y ret r : sum_spec prec1 flags sa x sb y ret r -> sum_spec prec1 flags sb y sa x ret r.
Proof. unfold sum_spec. rewrite (Z.min_comm (snd y)). set (e := Z.min _ _). rewrite (Z.add_comm (signed sb _)). done. Qed.
Lemma add_spec_comm prec1 flags a b sa sb ret r : add_spec prec1 flags a b sa sb ret r -> add_spec prec1 flags b a sb sa ret r.
Proof.
  unfold add_spec. rewrite (Z.eqb_sym sb sa). destruct (kind_of a), (kind_of b); try done; [| |apply sum_spec_comm]; destruct (Z.eqb_spec sa sb) as [->|]; done.
Qed.

(** The order of special values. *)
Definition rank (k : kind) : Z := match k with KZero => 0 | KNum => 1 | KInf => 2 | KNan => 3 end.
Lemma cmpu_rank a b : bf_ok a -> bf_ok b -> ~ (kind_of a = KNum /\ kind_of b = KNum) -> bf_cmpu a b = z_cmp (rank (kind_of a)) (rank (kind_of b)).
Proof.
  intros Ha Hb Hn. pose proof (kind_cases a Ha) as Ka. pose proof (kind_cases b Hb) as Kb. pose proof (num_len a Ha) as La. pose proof (num_len b Hb) as Lb. change BF_EXP_INF with (2 ^ 63 - 2) in *. change BF_EXP_NAN with (2 ^ 63 - 1) in *. change BF_EXP_ZERO with (- 2 ^ 63) in *. unfold bf_cmpu.
  destruct (kind_of a) eqn:Ea, (kind_of b) eqn:Eb; try (exfalso; by apply Hn); rewrite ?La, ?Lb; destruct (Z.eqb_spec (expn a) (expn b)) as [E|E]; cbn [negb]; try lia; try reflexivity; destruct (Z.ltb_spec (expn a) (expn b)); try lia; reflexivity.
Qed.

Lemma bf_set_ok r a s : limbs (tab r) -> limbs (tab a) ->
  yields (bf_set r a s) (fun '(_, r', _) => r' = a \/ ~ reliable /\ 0 < len a /\ special_is r' 0 BF_EXP_NAN).
Proof.
  intros Hr Ha. assert (0 <= len a) by apply zlen_nonneg. unfold bf_set. pose proof (bf_resize_ok r (len a) s Hr ltac:(lia)) as Hz. destruct (bf_resize r (len a) s) as [[failed r1] s1] eqn:Er. destruct failed.
  - destruct Hz as [Hrel ->]. apply mem_error_yields; [done|done|]. intros ret r' s' (_ & H1 & _). right. split; [done|]. split; [|done]. destruct (Z.eq_dec (len a) 0) as [E|]; [|lia]. rewrite E in Er. destruct (bf_resize_shrink r 0 s Hr) as [s2 E2]; [unfold len; pose proof (zlen_nonneg (tab r)); lia|]. congruence.
  - destruct Hz as (_ & _ & _ & Hl & _). unfold len in Hl. rewrite awrite_ok by lia. cbn [mbind outcome_bind mret outcome_ret yields]. left. change (take (Z.to_nat 0) (tab r1)) with (@nil Z). cbn [app]. rewrite drop_ge, app_nil_r by (unfold zlen in *; lia). by destruct a.
Qed.

Lemma normalize_empty r prec flags s : tab r = [] -> yields (bf_normalize_and_round r prec flags s) (fun '(ret, r', _) => ret = 0 /\ special_is r' (sign r) BF_EXP_ZERO).
Proof.
  intros E. unfold bf_normalize_and_round. rewrite E. cbn [trim_len]. change (0 =? 0) with true. cbn match. destruct r as [sg e t]. cbn [tab] in E. subst t. done.
Qed.

(** A number and a zero. *)
Lemma copy_ok r a sgn prec flags s : bf_ok a -> kind_of a = KNum -> 0 <= sgn <= 1 -> limbs (tab r) -> op_args prec flags ->
  yields ('(_, r, s) ← bf_set r a s; bf_normalize_and_round (set_sign sgn r) prec flags s) (fun '(ret, r', _) => correctly_rounded prec flags sgn (mant a) 1 (snd (dy a)) ret r' \/ ~ reliable /\ ret = 0 /\ expn r' = BF_EXP_ZERO /\ tab r' = []).
Proof.
  intros Ha Ek Hs Hr Ho. pose proof (kind_cases a Ha) as Ka. rewrite Ek in Ka. destruct Ka as (Fa & La & Ea). pose proof (mant_range a Fa). pose proof (fin_len _ Fa). assert (0 < 2 ^ (64 * len a - 1)) by (apply Z.pow_pos_nonneg; lia).
  apply yields_bind. eapply yields_mono; [apply bf_set_ok; [done|apply Fa]|]. intros [[ret0 r1] s1] [->|(Hrel & _ & ->)].
  - eapply yields_mono; [apply (normalize_ok (set_sign sgn a) prec flags s1 (mant a) (snd (dy a))); try done; [apply Fa|unfold len, set_sign in *; cbn [tab]; lia|cbn [set_sign expn]; lia|lia]|]. intros [[ret r'] s'] H'. by left.
  - eapply yields_mono; [by apply normalize_empty|]. intros [[ret r'] s'] [-> ->]. right. done.
Qed.

(** Two numbers, the first the larger. *)
Lemma sum_exact a b sa (is_sub : bool) : finite_nz a -> finite_nz b -> len a <= 2 ^ 40 -> len b <= 2 ^ 40 -> 0 <= expn a - expn b <= 2 ^ 61 -> 0 <= sa <= 1 -> (is_sub = true -> dy_cmp (dy a) (dy b) = 1) ->
  let sb := if is_sub then 1 - sa else sa in let e := Z.min (snd (dy a)) (snd (dy b)) in
  let v := signed sa (fst (dy a) * 2 ^ (snd (dy a) - e)) + signed sb (fst (dy b) * 2 ^ (snd (dy b) - e)) in
  v <> 0 /\ b2z (v <? 0) = sa /\ dy_eq (total a b is_sub, expn a - 64 * tot_len a b) (Z.abs v, e).
Proof.
  intros Fa Fb La Lb Hd Hs Hcmp. pose proof (sum_total_pos a b Fa Fb La Lb Hd is_sub Hcmp) as HS. pose proof (tot_facts a b Fa Fb La Lb Hd) as (T1 & T2 & _). destruct (ali_dy a b (tot_len a b) T1 T2) as [E1 E2].
  unfold total in *. set (X := ali_a a (tot_len a b)) in *. set (Y := ali_b b (expn a - expn b) (tot_len a b)) in *. set (et := expn a - 64 * tot_len a b) in *. destruct (dy a) as [ma ea] eqn:Da, (dy b) as [mb eb] eqn:Db. cbn [fst snd].
  set (e := Z.min ea eb). assert (e <= ea /\ e <= eb) as [M1 M2] by lia. clearbody e. set (m := Z.min e et). assert (m <= e /\ m <= et) as [M3 M4] by lia. clearbody m. rewrite (dy_eq_at m) in E1, E2 by lia.
  replace (ea - m) with (ea - e + (e - m)) in E1 by lia. replace (eb - m) with (eb - e + (e - m)) in E2 by lia. rewrite Z.pow_add_r, Z.mul_assoc in E1, E2 by lia. set (A := ma * 2 ^ (ea - e)) in *. set (C := mb * 2 ^ (eb - e)) in *.
  assert (P : 0 < 2 ^ (e - m) /\ 0 < 2 ^ (et - m)) by (split; apply Z.pow_pos_nonneg; lia). set (p := 2 ^ (e - m)) in *. set (q := 2 ^ (et - m)) in *. clearbody A C X Y.
  assert (Hsum : (if is_sub then A - C else A + C) * p = (if is_sub then X - Y else X + Y) * q) by (destruct is_sub; lia). assert (Hpos : 0 < (if is_sub then A - C else A + C)) by (destruct is_sub; nia).
  assert (Hv : signed sa A + signed (if is_sub then 1 - sa else sa) C = (if sa =? 0 then 1 else -1) * (if is_sub then A - C else A + C)).
  { unfold signed. assert (sa = 0 \/ sa = 1) as [-> | ->] by lia; destruct is_sub; eval_eqb; change (1 - 0 =? 0) with false; change (1 - 1 =? 0) with true; cbn match; lia. }
  cbn zeta. rewrite Hv. set (w := if is_sub then A - C else A + C) in *. clearbody w. assert (Habs : Z.abs ((if sa =? 0 then 1 else -1) * w) = w) by (destruct (sa =? 0); lia). rewrite Habs. split; [destruct (sa =? 0); lia|]. split.
  - assert (sa = 0 \/ sa = 1) as [-> | ->] by lia; eval_eqb; destruct (Z.ltb_spec (1 * w) 0), (Z.ltb_spec (-1 * w) 0); cbn [b2z]; lia.
  - apply (dy_eq_at m); [lia..|]. symmetry. exact Hsum.
Qed.

Lemma dy_cmp_values x y : dy_cmp x y = -1 \/ dy_cmp x y = 0 \/ dy_cmp x y = 1.
Proof. unfold dy_cmp, z_cmp. destruct (_ =? _); [auto|]. destruct (_ <? _); auto. Qed.
Definition add_small (prec : Z) (a b : bf_t) : Prop := prec <= 2 ^ 46 \/ Z.abs (expn a - expn b) <= 2 ^ 46.
Lemma add_ordered_ok r a b sa (is_sub : bool) c prec flags s : bf_ok a -> bf_ok b -> 0 <= sa <= 1 -> limbs (tab r) -> op_args prec flags -> flags .& BF_FLAG_RADPNT_PREC = 0 -> add_small prec a b ->
  Z.abs (bf_cmpu a b) = Z.abs c -> 0 <= bf_cmpu a b ->
  yields (add_ordered r a b sa is_sub c prec flags s) (fun '(ret, r', _) => refused ret r' \/ copy_lost a b ret r' \/ add_spec prec flags a b sa (if is_sub then 1 - sa else sa) ret r').
Proof.
  intros Ha Hb Hs Hr Ho Hrad Hsz Hc Hge. unfold add_ordered, add_spec. rewrite Z.ltb_antisym, <- Z.geb_leb, kind_special by done. destruct (kind_tests a) as (-> & _ & _), (kind_tests b) as (_ & -> & _).
  pose proof (num_len a Ha) as La. pose proof (num_len b Hb) as Lb. pose proof (kind_cases a Ha) as Ka. pose proof (kind_cases b Hb) as Kb. pose proof (cmpu_rank a b Ha Hb) as Hrk.
  assert (Heq : (sa =? (if is_sub then 1 - sa else sa)) = negb is_sub) by (destruct is_sub; [|apply Z.eqb_refl]; destruct (Z.eqb_spec sa (1 - sa)); [lia|done]). rewrite Heq.
  assert (Hce : (c =? 0) = (bf_cmpu a b =? 0)) by (destruct (Z.eqb_spec c 0), (Z.eqb_spec (bf_cmpu a b) 0); lia). rewrite Hce. clear Hc Hce c.
  destruct (kind_of a) eqn:Ea, (kind_of b) eqn:Eb; try (rewrite Hrk in Hge by (by intros []); exfalso; revert Hge; clear; vm_compute; intros Hge; by apply Hge); try (rewrite Hrk by (by intros []));
    rewrite ?La, ?Lb; repeat match goal with |- context [z_cmp ?x ?y =? 0] => let v := eval vm_compute in (z_cmp x y =? 0) in change (z_cmp x y =? 0) with v end; change (0 =? 0) with true; cbn [andb orb negb]; rewrite ?andb_false_r; cbn match.
  all: try (apply special_ok; (done || (intros r' s' H; right; by right))).
  - destruct is_sub; cbn [negb]; (apply special_ok; [done|]; intros r' s' H; right; by right).
  - destruct is_sub; cbn [negb andb]; [apply special_ok; [done|]; intros r' s' H; right; by right|]. apply yields_bind. eapply yields_mono; [apply bf_set_ok; [done|destruct Ka as [_ ->]; constructor]|]. intros [[ret0 r1] s1] [->|(_ & H & _)]; [|lia].
    eapply yields_mono; [apply normalize_empty; by destruct Ka|]. intros [[ret r'] s'] H. right. by right.
  - rewrite orb_true_r. eapply yields_mono; [by apply copy_ok|]. intros [[ret r'] s'] [H|(H1 & H2 & H3)]; right; [by right|left]. split; [done|]. split; [done|]. split; [by right|done].
  - rewrite andb_true_r. destruct Ka as (Fa & La2 & Ra), Kb as (Fb & Lb2 & Rb). rewrite (bf_cmpu_num a b Fa Fb La2 Lb2) in *. destruct (Z.eqb_spec (len a) 0); [lia|]. destruct (Z.eqb_spec (len b) 0); [lia|]. cbn [orb].
    destruct ((dy_cmp (dy a) (dy b) =? 0) && is_sub) eqn:Hzero.
    + apply andb_true_iff in Hzero as [Hz ->]. apply special_ok; [done|]. intros r' s' Hsp. right. right. unfold sum_spec. set (e := Z.min _ _). unfold dy_cmp in Hz. fold e in Hz. unfold z_cmp in Hz. destruct (Z.eqb_spec (fst (dy a) * 2 ^ (snd (dy a) - e)) (fst (dy b) * 2 ^ (snd (dy b) - e))) as [Ez|Ez]; [|by destruct (_ <? _)].
      rewrite Ez. unfold signed. assert (sa = 0 \/ sa = 1) as [-> | ->] by lia; eval_eqb; change (1 - 0 =? 0) with false; change (1 - 1 =? 0) with true; cbn match; rewrite ?Z.add_opp_diag_r, ?Z.add_opp_diag_l; done.
    + assert (Hcmp : is_sub = true -> dy_cmp (dy a) (dy b) = 1).
      { intros ->. rewrite andb_true_r in Hzero. pose proof (dy_cmp_values (dy a) (dy b)). destruct (Z.eqb_spec (dy_cmp (dy a) (dy b)) 0); [done|lia]. }
      assert (Hexp : expn b <= expn a).
      { rewrite <- (bf_cmpu_num a b Fa Fb La2 Lb2) in Hge. unfold bf_cmpu in Hge. destruct (Z.eqb_spec (expn a) (expn b)); cbn [negb] in Hge; [lia|]. destruct (Z.ltb_spec (expn a) (expn b)); lia. }
      eapply yields_mono; [apply add_numbers_ok; try (done || lia); unfold add_small in Hsz; lia|]. intros [[ret r'] s'] [H|H]; [by left|right; right]. destruct (sum_exact a b sa is_sub Fa Fb La2 Lb2 ltac:(lia) Hs Hcmp) as (Hv & Hsgn & Hdy).
      unfold sum_spec. destruct (Z.eqb_spec (signed sa (fst (dy a) * 2 ^ (snd (dy a) - Z.min (snd (dy a)) (snd (dy b)))) + signed (if is_sub then 1 - sa else sa) (fst (dy b) * 2 ^ (snd (dy b) - Z.min (snd (dy a)) (snd (dy b))))) 0) as [|_]; [done|]. rewrite Hsgn. revert H. apply correctly_rounded_frac; [done|done|]. by rewrite !Z.mul_1_r.
Qed.

Lemma copy_lost_comm a b ret r : copy_lost a b ret r -> copy_lost b a ret r.
Proof. unfold copy_lost. tauto. Qed.
Lemma cmpu_sym a b : bf_ok a -> bf_ok b -> bf_cmpu b a = - bf_cmpu a b.
Proof.
  intros Ha Hb. destruct (decide (kind_of a = KNum)) as [Ea|Ea]; [destruct (decide (kind_of b = KNum)) as [Eb|Eb]|].
  - pose proof (kind_cases a Ha) as Ka. pose proof (kind_cases b Hb) as Kb. rewrite Ea in Ka. rewrite Eb in Kb. destruct Ka as (Fa & La & _), Kb as (Fb & Lb & _). rewrite !bf_cmpu_num by done. unfold dy_cmp. rewrite (Z.min_comm (snd (dy b))). unfold z_cmp.
    set (x := fst (dy a) * _). set (y := fst (dy b) * _). destruct (Z.eqb_spec x y), (Z.eqb_spec y x), (Z.ltb_spec x y), (Z.ltb_spec y x); lia.
  - rewrite !cmpu_rank by (done || tauto). by destruct (kind_of a), (kind_of b).
  - rewrite !cmpu_rank by (done || tauto). by destruct (kind_of a), (kind_of b).
Qed.

Lemma bf_add_internal_ok r a b prec flags b_neg s : bf_ok a -> bf_ok b -> 0 <= b_neg <= 1 -> limbs (tab r) -> op_args prec flags -> flags .& BF_FLAG_RADPNT_PREC = 0 -> add_small prec a b ->
  yields (bf_add_internal r a b prec flags b_neg s) (fun '(ret, r', _) => refused ret r' \/ copy_lost a b ret r' \/ add_spec prec flags a b (sign a) (sign b .^ b_neg) ret r').
Proof.
  intros Ha Hb Hn Hr Ho Hrad Hsz. unfold bf_add_internal. set (sa := sign a). set (sb := sign b .^ b_neg). assert (Hsa : 0 <= sa <= 1) by apply Ha. assert (Hsb : 0 <= sb <= 1) by (apply sign_xor; [apply Hb|done]).
  set (is_sub := negb (sa .^ sb =? 0)). assert (Hsub : sb = (if is_sub then 1 - sa else sa) /\ sa = (if is_sub then 1 - sb else sb)).
  { unfold is_sub. assert (sa = 0 \/ sa = 1) as [-> | ->] by lia; assert (sb = 0 \/ sb = 1) as [-> | ->] by lia; done. }
  destruct Hsub as [E1 E2]. clearbody is_sub sa sb. destruct (Z.ltb_spec (bf_cmpu a b) 0).
  - eapply yields_mono; [apply (add_ordered_ok r b a sb is_sub (bf_cmpu a b)); try done; [unfold add_small in *; lia|rewrite cmpu_sym by done; lia|rewrite cmpu_sym by done; lia]|]. rewrite <- E2.
    intros [[ret r'] s'] [H'|[H'|H']]; [by left|right; left; by apply copy_lost_comm|right; right; by apply add_spec_comm].
  - eapply yields_mono; [apply (add_ordered_ok r a b sa is_sub (bf_cmpu a b)); (done || lia)|]. by rewrite <- E1.
Qed.
End Numbers.
