(* ===== verification/BigRun.v ===== *)
(** * Theorems on big floats (libbf.c)

    The properties of limbs, rounding and operations, at concrete inputs as well, and two defects.  A context is instantiated by an allocator that grants every request
    ([roomy]) and by one that lets no array grow ([stingy]). *)

From stdpp Require Import base list.
From S2P Require Import Prelude Cutils Limbs BigFloat BigRound BigOps BigArith BigAdd BigSum BigSumRun.
#[local] Open Scope Z_scope.

(** ** Allocators *)

Definition fit (tab : list Z) (n : Z) : list Z := take (Z.to_nat n) tab ++ replicate (Z.to_nat n - length tab) 0.
Lemma fit_ok tab n : 0 <= n -> limbs tab -> zlen (fit tab n) = n /\ limbs (fit tab n) /\ take (Z.to_nat (Z.min n (zlen tab))) (fit tab n) = take (Z.to_nat (Z.min n (zlen tab))) tab.
Proof.
  intros Hn Ht. unfold fit, zlen. split; [rewrite length_app, length_take, length_replicate; lia|]. split; [apply Forall_app; split; [by apply limbs_take|by apply Forall_replicate]|].
  rewrite take_app_le by (rewrite length_take; lia). rewrite take_take. f_equal. lia.
Qed.
#[refine] Instance roomy : bf_context := {| bf_context_t := unit; bf_realloc := fun s tab n => (Some (fit tab n), s) |}.
Proof. - intros s tab n tab' s' Hn Ht [= <- _]. by apply fit_ok. - done. Defined.
#[refine] Instance stingy : bf_context := {| bf_context_t := unit; bf_realloc := fun s tab n => (if n <=? zlen tab then Some (fit tab n) else None, s) |}.
Proof.
  - intros s tab n tab' s' Hn Ht. destruct (n <=? zlen tab); [|done]. intros [= <- _]. by apply fit_ok.
  - intros s tab n [_ Hn]. cbn [fst]. destruct (Z.leb_spec n (zlen tab)); [done|lia].
Defined.

(** ** Numbers *)

(** A check of canonical numbers. *)
Definition is_number (a : bf_t) : bool :=
  (0 <=? sign a) && (sign a <=? 1) && (- 2 ^ 60 <=? expn a) && (expn a <=? 2 ^ 60) && forallb (fun v => (0 <=? v) && (v <? B)) (tab a) && negb (default 0 (head (tab a)) =? 0) && (1 <=? len a) && (len a <=? 2 ^ 40) &&
  (2 ^ (64 * len a - 1) <=? mant a).
Lemma is_number_ok a : is_number a = true -> bf_ok a /\ kind_of a = KNum.
Proof.
  unfold is_number. rewrite !andb_true_iff, negb_true_iff, !Z.leb_le, Z.eqb_neq. intros ((((((((H1 & H2) & H3) & H4) & H5) & H6) & H7) & H8) & H9).
  assert (Hk : kind_of a = KNum) by (unfold kind_of, bf_is_nan, bf_is_zero; change BF_EXP_NAN with (2 ^ 63 - 1); change BF_EXP_INF with (2 ^ 63 - 2); change BF_EXP_ZERO with (- 2 ^ 63); destruct (Z.eqb_spec (expn a) (2 ^ 63 - 1)), (Z.eqb_spec (expn a) (2 ^ 63 - 2)), (Z.eqb_spec (expn a) (- 2 ^ 63)); (lia || done)).
  split; [|done]. split; [done|]. rewrite decide_True by done. split; [|done]. split; [|destruct (tab a) as [|v t]; [done|cbn in *; congruence]|done|done].
  apply list.Forall_forall. intros v Hv. apply forallb_forall with (x := v) in H5; [unfold is_limb; lia|by apply list_elem_of_In].
Qed.

Definition one : bf_t := MkBf 0 1 [2 ^ 63].
Definition three : bf_t := MkBf 0 2 [3 * 2 ^ 62].
(** A third, rounded to 53 bits, and [1 - 2 ^ -64]. *)
Definition third : bf_t := MkBf 0 (-1) [12297829382473033728].
Definition below_one : bf_t := MkBf 0 0 [B - 1].
Lemma one_ok : bf_ok one. Proof. by apply is_number_ok. Qed.
Lemma three_ok : bf_ok three. Proof. by apply is_number_ok. Qed.
Lemma below_one_ok : bf_ok below_one. Proof. by apply is_number_ok. Qed.
Lemma one_limbs : limbs (tab one). Proof. constructor; [unfold is_limb; lia|constructor]. Qed.
Lemma three_limbs : limbs (tab three). Proof. constructor; [unfold is_limb; lia|constructor]. Qed.
Lemma roomy_reliable : reliable (HC := roomy). Proof. intros s tab n. by eexists. Qed.
Lemma default_args : op_args 53 BF_RNDN.
Proof. split; [done|done|done]. Qed.

(** ** Limbs *)


(** ** Operations *)

(** C15: the product of canonical values is the exact product, rounded once, with the special values of IEEE 754, whether or not the result is one of the operands, in every mode but
    faithful rounding; for operands the smaller of which is below the threshold of the transforms.  Only a refused allocation gives NaN and BF_ST_MEM_ERROR. *)
Theorem bf_mul_spec {HC : bf_context} fft_mul (r a b : bf_t) (ra rb : bool) (prec flags : Z) (s : bf_context_t) : bf_ok a -> bf_ok b -> limbs (tab r) -> op_args prec flags ->
  flags .& BF_RND_MASK <> BF_RNDF -> Z.min (len a) (len b) < FFT_MUL_THRESHOLD ->
  yields (bf_mul fft_mul r a b ra rb prec flags s) (fun '(ret, r', _) => refused ret r' \/ mul_spec prec flags a b ret r').
Proof. intros. by apply bf_mul_ok. Qed.
Lemma bf_mul_spec_witness : len three = 1 /\ expn below_one = 0 /\
  yields (bf_mul (HC := roomy) (fun _ _ _ _ _ => Undef) three three below_one true false 53 BF_RNDN tt) (fun '(ret, r', _) => mul_spec (HC := roomy) 53 BF_RNDN three below_one ret r').
Proof.
  split; [reflexivity|]. split; [reflexivity|].
  eapply yields_mono; [apply (bf_mul_spec (HC := roomy) (fun _ _ _ _ _ => Undef) three three below_one true false 53 BF_RNDN tt three_ok below_one_ok); [exact three_limbs|exact default_args|done|done]|].
  intros [[ret r'] s'] [(_ & _ & H)|H]; [by destruct (H roomy_reliable)|exact H].
Defined.

(** C13: the sum and the difference of canonical values are the exact sum and difference, rounded once, with the special values of IEEE 754: also when the operands cancel,
    when they are far apart, and when the result is one of them; an exact zero is negative when rounding down.  The precision counts bits, not
    places behind the radix point, and is at most 2^46 unless the exponents are that close.  Only a refused allocation gives NaN and BF_ST_MEM_ERROR, and a failed copy of an operand that is added to zero goes
    unnoticed ([copy_lost]). *)
Theorem bf_add_spec {HC : bf_context} (alias sub : bool) (r a b : bf_t) (prec flags : Z) (s : bf_context_t) : bf_ok a -> bf_ok b -> limbs (tab r) -> op_args prec flags ->
  flags .& BF_FLAG_RADPNT_PREC = 0 -> add_small prec a b ->
  yields ((if sub then bf_sub else bf_add) alias r a b prec flags s) (fun '(ret, r', _) =>
    refused ret r' \/ copy_lost a b ret r' \/ add_spec prec flags a b (sign a) (if sub then 1 - sign b else sign b) ret r').
Proof.
  intros Ha Hb Hr Ho Hrad Hsmall. pose proof (ok_sign _ Hb) as Hs. assert (Hx : (if sub then 1 - sign b else sign b) = sign b .^ b2z sub).
  { assert (sign b = 0 \/ sign b = 1) as [-> | ->] by lia; by destruct sub. }
  rewrite Hx. destruct sub, alias; unfold bf_sub, bf_add, bf_op2, __bf_sub, __bf_add; apply bf_add_internal_ok; done || constructor.
Qed.
(** [1 - (1 - 2 ^ -64)], in place of an operand. *)
Lemma bf_add_spec_witness : expn one - expn below_one = 1 /\
  yields (bf_sub (HC := roomy) true one one below_one 53 BF_RNDN tt) (fun '(ret, r', _) => add_spec (HC := roomy) 53 BF_RNDN one below_one 0 1 ret r').
Proof.
  split; [reflexivity|].
  eapply yields_mono; [apply (bf_add_spec (HC := roomy) true true one one below_one 53 BF_RNDN tt one_ok below_one_ok); [exact one_limbs|exact default_args|done|left; done]|].
  intros [[ret r'] s'] [(_ & _ & H)|[(H & _)|H]]; [by destruct (H roomy_reliable)|by destruct (H roomy_reliable)|exact H].
Defined.

(** A third, to 53 bits. *)
Fact third_digits : match bf_div (HC := roomy) (fun _ _ => Undef) false bf_init one three 53 BF_RNDN tt with Ret (ret, r, _) => (ret, expn r, tab r) = (BF_ST_INEXACT, expn third, tab third) | _ => False end.
Proof. by vm_compute. Qed.

(** ** Defects *)

(** The absolute value of the smallest integer is computed as a signed number. *)
Fact bf_set_si_overflow : match bf_set_si (HC := roomy) bf_init (- 2 ^ 63) tt with Undef => true | _ => false end = true.
Proof. by vm_compute. Qed.
(** One and zero, when the copy of one finds no memory: the answer is zero, and nothing is reported. *)
Definition zero : bf_t := MkBf 0 BF_EXP_ZERO [].
Fact bf_add_copy_lost : match bf_add (HC := stingy) false bf_init one zero 53 BF_RNDN tt with Ret (ret, r, _) => (ret, bf_is_zero r) = (0, true) | _ => False end.
Proof. by vm_compute. Qed.
